(* ===== verification/_CoqProject ===== *)
-Q . S2P
Prelude.v
Ngraph.v
Checksum.v
PidMap.v
Verify.v
Accept.v
Ring.v
Log.v
Console.v
Repeat.v
Logged.v
Welcome.v
World.v
Sys.v
Inv.v
Live.v
Cgroup.v
Fail.v
Emerg.v
Output.v
Lines.v
Deps.v
State.v
Spawn.v
Release.v
Reap.v
Steady.v
Halt.v
Stop.v
Down.v
Prereq.v
Order.v
Mounts.v
Frame.v
Command.v
Control.v
Clients.v
Serve.v
Requests.v
Loop.v
Supervisor.v
Replies.v
Demo.v
Chat.v
Build.v
Link.v
Visit.v
Heap.v
Schedule.v
Compiler.v
Desc.v
Layout.v
Emit.v
Pass.v
Assemble.v
Built.v
Argv.v
Sample.v
Text.v
Directives.v
Lang.v
Kept.v
Service.v
Written.v
Lua.v
Python.v
Perl.v
Compact.v
Sh.v
Parser.v
Sources.v
Replace.v
Client.v
Asked.v
Tool.v
Locale.v
Checks.v
Move.v
Init.v
Show.v
