(* ===== verification/Prelude.v ===== *)
(** * ninit: a verification development

    ninit is an init system for Linux in C. [ninitctl init] reads a directory of
    service files and compiles it into a dependency graph image; the program
    that runs as process 1 loads the image, starts each service when its
    prerequisites are up, supervises the processes, takes commands from an
    operator, keeps the log, and stops the machine. This library models the
    whole way of a service file: the parsers, the compiler, the file the image
    is written to and loaded from, process 1 from the verified image to the call
    that halts the machine, and the programs that talk to it. File and function
    names below are those under src/.

    ** The parts

    - The image. [Ngraph] holds the layout of src/ngraph.h, the accessors, the
      checksum and the helpers of src/ngraph.c; [Verify] is [ng_verify], the
      check every image passes before it is used. [Checksum] and [Accept] hold
      the theorems: the table driven CRC is polynomial division, the verifier
      reads no byte outside the image and returns for every input, and what it
      accepts decodes to a graph whose edges go forward, whose [unmet] are
      in-degrees and whose names are unique ([graph_wf]).
    - The parsers (ctl/parser/). [Text] has their monad (a result, a message that
      refuses the file, an access outside a buffer, or the end of the fuel) and
      the scanning of lines and words; [Directives] the lines #%name: value,
      [Lang] the #! line, env and the search for the interpreter, [Service] what
      is true of a parsed service, [Kept] when a stripped script keeps its lines.
      [Lua], [Python] and [Perl] are the comment strippers of these languages,
      [Compact] the compactor of shell scripts, [Sh] the scripts that need no
      shell, and [Parser] puts them together. [Written] writes the directives of
      a service and reads them back.
    - The compiler (ctl/graph.c, ctl/image.c). [Build] has the data and the
      results of the operations: a value, an internal error, or a message that
      ends the program. [Link] is the first half of [link_graph] (names, edges,
      rows), [Visit] its search for a cycle and the heights, [Heap] the priority
      queue, [Schedule] its use, and [Compiler] puts them together:
      [link_graph], [order_graph] and their theorems. [Desc] has the sets of
      descendants and [write_image] with its records and string table; [Layout],
      [Emit], [Pass] and [Assemble] show that what is written passes
      [ng_verify]; [Built] states it for the whole way from the services to the
      decoded graph.
    - [ninitctl init]. [Sources] reads the directory (ctl/sources.c), [Checks] has
      the interpreters check the scripts (ctl/check.c), [Replace] replaces the
      file of the graph (ctl/output.c) on a disk that may lose its power, and
      loads it at boot ([load_graph], [load_previous]). [Init] is the command
      itself (ctl/build.c), from its arguments to its exit code.
    - The other commands. [Move] is
      [svc_move] of ctl/add.c and ctl/del.c, [Client] is ctl/ctl.c, the client of
      process 1, and [Asked] puts the client and process 1 together. [Show] prints a
      graph (ctl/show.c). [Tool] is tools/shutdown.c.
    - The child. [Argv] is what [child_exec] of src/spawn.c does between fork
      and exec with the arguments and buffers, and ties it to the image the
      compiler writes; [Sample] is the services on which these theorems are
      instantiated. [Locale] is /etc/locale.conf and the environment.
    - The pid table. [PidMap] is src/pidmap.c on arrays, with deletion by
      backward shift, and the proof that it is a finite map; its theory of linear
      probing is that of the table of names in [Verify].
    - The log (src/logging.c). [Ring] is the ring of past lines, [Log] the state
      and the operations in a monad of their own, [Console] the writer to a slow
      console, [Repeat] the folding of repeated messages, [Logged] what the
      whole says of the messages logged, [Welcome] the greeting.
    - Pid 1. [World] has the globals of src/ninit.c, src/run.h and
      src/control.h as records. [Sys] is the monad the handlers are written in,
      and the kernel as a class of functions. The handlers, bottom up:
      [Live] (src/pidmap.c: the live list, the search for a process), [Cgroup]
      (src/cgroup.c), [Fail] and [Emerg] (src/fail.c), [Output] (src/drain.c:
      output), [State] (src/state.c: taking down), [Spawn] (src/spawn.c, and
      [service_failed] of src/reap.c), [Release] (src/state.c: handing over),
      [Reap] (src/drain.c: readiness; src/reap.c), [Command] (src/command.c:
      the operations on a service), [Control] (src/control.c, and [ctl_cmd] of
      src/command.c: the connections of the clients), [Loop] (src/ninit.c,
      src/signals.c). [Deps] has the lemmas on the dependency counts.
    - The clients. [Frame] shows that the handlers below src/command.c leave the
      connections alone, [Clients] states when a connection is well-formed and
      that the operations keep it so, [Serve] and [Requests] that filling,
      writing, reading, answering and accepting do. [Replies] says what a client
      is told, [Chat] is a client of the machine of [Demo].
    - The shutdown. [Halt] is src/shutdown.c, [Stop] src/stop.c. [Steady] shows
      that no handler starts a service once the machine is going down, [Down]
      that every step of the shutdown ends. [Prereq] is the table of
      prerequisites [stop_ordered] builds, the specification of the order and
      the steps of its arrays, [Order] the theorems, [Mounts] those on the
      filesystems.
    - The invariant. [Inv] states it ([Inv], [Quiet]) and the ways a handler can
      keep it; each of the handlers' files proves it for its own. [Supervisor]
      closes the part of process 1: the transition system of the start of the
      graph, the turns of the event loop and the requests of clients, and the
      theorems for every reachable world. [Fail], [Emerg] and [Lines] hold
      functional theorems about single handlers. [Demo] is a concrete graph and
      kernel on which every hypothesis is checked by evaluation.

    ** How the code is represented

    A machine integer is a [Z]; where the code stores into a narrower type the
    definition has [u8], [u16], [u32] or [u64], and the theorems about counters
    show that none of them wraps. Arrays are lists; an access outside the list
    is a result of its own ([Fault], [VFault], [Misread], [OutOfBounds]), which
    the theorems exclude. A C string is the list of its bytes up to the NUL. The
    image is the list of its bytes, and the handlers read the decoded [graph],
    which [Accept] ties to the bytes. A parser works on the list of the bytes of
    the file with a NUL after it; the compactor, which writes over what it has
    read, on one list with two positions.

    A call of process 1 to the kernel is a function of the class [Env], indexed
    by how many calls have been made, so a theorem for all [Env] is one for all
    behaviours of the kernel and of the children; [EnvOk] has what is assumed of
    it: a pid is positive and an [int], a descriptor and the clock are not
    negative, a read gives at least one byte and no more than asked for, a call
    that is interrupted is not interrupted for ever, a file ends, the children to
    reap, the clients to accept and the pending signals run out, and time passes:
    a minute is over before [os_patience] more calls. The trace of the world is
    what the outside sees: forks, with the dependency state they happened in,
    signals, log lines and replies, the steps of the shutdown, the latest first.

    The tools have what they see of the machine as arguments or classes:
    [FileSys] and [FileSysOk] (the paths a parser looks up: a link in /proc and a
    resolved path are absolute), [entry] (a directory as it is read), [disk] in
    [Replace] (the calls to come, each with any result but an ENOENT for a name
    that is there; [on_disk] says that what was there before is on the disk,
    [after_crash] what a loss of power may leave), [reads] (a file that works
    gives its bytes), [Kernel] in [Checks] (the forks and what the children
    write), and the answers to each call of [Tool], [Client], [Show] and [Move].

    ** Loops, fuel and bounds

    - the probes of the pid table and of the names carry the number of slots;
      tables are at most half full, so a probe ends ([pid_table_refines],
      [ng_verify_safe]);
    - the parsers' loops go down the text; where the code goes on from a position
      it computes, the fuel is the length of the text and the end of it is
      [Endless], which [parse_file_ok] and [compact_stays] exclude;
    - the compiler's loops carry what they consume: the interval of the search
      for a name, the services not yet visited or scheduled and their edges, so
      that [build_image_accepted] is about every input;
    - [write_all] has a turn for each byte and for each result to come, and each
      turn uses one of them ([sat_write_turns]);
    - the checks end one for each turn of [make_room] and [wait_all], which carry
      the number of checks under way; a wait that never ends is the verdict
      [Waits];
    - the search for a command in PATH consumes the text of PATH, the arguments
      of a child are at most [NG_MAX_EXEC_ARGS];
    - a line of the ring has at most three segments, and the writer to the
      console is ended by the clock ([log_returns]);
    - the hand-over and take-over queues of src/state.c carry [S n_svc] steps:
      a service enters a queue at most once while it drains ([commands_return]);
    - filling a reply adds a byte or more per turn, and a write of [k] bytes
      moves on by [k], so [CTL_OUT] turns are enough for both
      ([commands_return]);
    - reads of a pipe are bounded by the chunks the code itself counts, and the
      client's reads of a reply by their results ([reply_is_its_bytes]);
    - a loop until a call is no longer interrupted carries [os_patience] of
      the kernel, the number of interruptions in a row [EnvOk] bounds, and so
      do the loops of the shutdown that wait for a deadline at most a minute
      away: [S os_patience] turns are enough, and [shutdown_reaches_reboot] is
      about every world;
    - the event loop runs turn after turn; one turn is a step. That each of its
      handlers returns is shown for requests and child exits
      ([commands_return]); a whole turn is shown not to fault.

    ** The theorems

    - safety of the start order: [start_after_prerequisites], [unmet_counts];
    - memory safety: [never_faults], [ng_verify_safe], [child_exec_bounded],
      [parse_file_ok];
    - termination: [commands_return], [shutdown_reaches_reboot],
      [compact_stays], and the fuel facts above;
    - bookkeeping: [counters_count], [live_list_complete], [pid_table_refines];
    - the image: [ng_verify_sound];
    - the service files: [parse_file_ok], [detect_direct_exact],
      [header_reads_back], [compact_stays];
    - from the services to the running system: [init_command],
      [init_directory],
      [link_graph_outcome], [schedule_is_list_scheduling],
      [build_image_accepted], [build_image_decodes], [check_verdict],
      [power_loss_keeps_a_graph], [boot_after_power_loss], [child_runs_service],
      [locale_last_wins];
    - the log: [log_loses_nothing];
    - the clients, as process 1 has them: [control_well_formed],
      [refused_changes_nothing], [ctl_flush_sends];
    - the tools: [reply_is_its_bytes], [status_shows_services],
      [command_reaches_server], [services_kept], [show_levels],
      [shutdown_asks_pid1], [parse_when_exact];
    - the shutdown: [shutdown_stops_in_order], [every_mount_settled];
    - single operations: [fail_poison_least].

    Further theorems stand in their files without being listed here: the CRC is
    polynomial division ([crc32c_feed_sw_ref]), heights are longest paths
    ([heights_longest]), the console and the readers of the log
    ([console_takes_whole_lines], [reader_sees_log], [log_returns]), the search
    for a process ([find_pid_sound]), the emergency shell
    ([emergency_bounded]), the mounts read from the kernel
    ([mounts_read_back]), the listing of the services ([ctl_fill_lists]), the
    output of a service ([absorb_keeps_output]).

    ** What is not modelled

    The mounts, device nodes and limits of src/boot.c, [cgroup_init], the opening
    of the control socket ([ctl_init]) and what a child sets up before it looks
    for its command (descriptors, limits, session) are calls to the kernel with
    no state of pid 1; so are the console of the emergency shell and its terminal
    modes. The lines the log feeds to a watching client while it is being written
    ([log_feed], [ctl_feed]), the SSE4.2 variant of the checksum, the texts of
    the help and the choice of the command of ninitctl by its first argument are
    left out. The sixty-four bit offsets of the ring do not wrap in
    the model: it would take centuries of logging. Memory that cannot be had ends
    the tools, which only [Show] models. *)

From stdpp Require Export base list numbers option strings.
From Stdlib Require Export ZArith Lia Sorted.

(** ** Machine integers *)

Declare Scope ninit_scope.
Delimit Scope ninit_scope with ninit.
Open Scope Z_scope.

Definition u8 (x : Z) : Z := x mod 256.
Definition u16 (x : Z) : Z := x mod 65536.
Definition u32 (x : Z) : Z := x mod 4294967296.
Definition u64 (x : Z) : Z := x mod 18446744073709551616.

Definition UINT32_MAX : Z := 4294967295.

Definition b2z (b : bool) : Z := if b then 1 else 0.

Definition is_byte (b : Z) : Prop := 0 <= b < 256.

Lemma u16_small x : 0 <= x < 65536 -> u16 x = x.
Proof. apply Z.mod_small. Qed.

Lemma u32_small x : 0 <= x < 4294967296 -> u32 x = x.
Proof. apply Z.mod_small. Qed.

Lemma b2z_range b : 0 <= b2z b <= 1.
Proof. destruct b; simpl; lia. Qed.

(** ** Byte strings

    A byte is a [Z], a C string the list of its bytes without the
    terminating NUL. *)

Abbreviation bytes := (list Z) (only parsing).

Definition bs (s : string) : list Z :=
  (fun a => Z.of_nat (Ascii.nat_of_ascii a)) <$> String.list_ascii_of_string s.

Definition bytes_eqb (a b : bytes) : bool := bool_decide (a = b).

Lemma bytes_eqb_eq a b : bytes_eqb a b = true <-> a = b.
Proof. apply bool_decide_eq_true. Qed.

(** ** Numbers and levels in messages *)

(** [%u] and [%d]; twenty digits hold every 64-bit number. *)
Fixpoint dec_digits (fuel : nat) (x : Z) (acc : bytes) : bytes :=
  match fuel with
  | O => acc
  | S fuel' =>
      let acc := (48 + x mod 10) :: acc in
      if x <? 10 then acc else dec_digits fuel' (x / 10) acc
  end.

Definition dec (x : Z) : bytes :=
  if x <? 0 then 45 :: dec_digits 20 (- x) [] else dec_digits 20 x [].

Definition plural (n : Z) : bytes := if n =? 1 then [] else bs "s".

(** A buffer as a C string: up to its first NUL. *)
Fixpoint cut0 (l : bytes) : bytes :=
  match l with
  | [] => []
  | c :: l' => if c =? 0 then [] else c :: cut0 l'
  end.

(** [strchr(s, c)], the text after it. *)
Fixpoint past (c : Z) (s : bytes) : option bytes :=
  match s with
  | [] => None
  | x :: s' => if x =? c then Some s' else past c s'
  end.

(** The text before the first [c]. *)
Fixpoint upto (c : Z) (s : bytes) : bytes :=
  match s with
  | [] => []
  | x :: s' => if x =? c then [] else x :: upto c s'
  end.

Lemma past_app c p s : c ∉ p -> past c (p ++ c :: s) = Some s.
Proof.
  induction p as [|x p IH]; intros Hn; simpl; [by rewrite Z.eqb_refl|]. apply not_elem_of_cons in Hn as [Hx Hn].
  destruct (Z.eqb_spec x c); [congruence|by apply IH].
Qed.

Lemma upto_app c p s : c ∉ p -> upto c (p ++ c :: s) = p.
Proof.
  induction p as [|x p IH]; intros Hn; simpl; [by rewrite Z.eqb_refl|]. apply not_elem_of_cons in Hn as [Hx Hn].
  destruct (Z.eqb_spec x c); [congruence|]. f_equal. by apply IH.
Qed.

(** Levels of a message (logging.h). *)
Definition LOG_DONE : Z := 0.
Definition LOG_INFO : Z := 1.
Definition LOG_WARN : Z := 2.
Definition LOG_FAIL : Z := 3.
Definition LOG_WAIT : Z := 4.
Definition LOG_NOTE : Z := 5.
Definition LOG_N : Z := 6.
Definition LOG_NOCON : Z := 16.

(** Two values of errno. *)
Definition EINTR : Z := 4.
Definition EAGAIN : Z := 11.

(** ** Deadlines (help/time.h) *)

Definition ms_until (at_ now : Z) : Z := if now <? at_ then at_ - now else 0.

(** The sooner of two timeouts, a negative one is none. *)
Definition ms_sooner (a b : Z) : Z := if (0 <=? b) && ((a <? 0) || (b <? a)) then b else a.

(** ** Counting and sums over arrays *)

Fixpoint cnt {A} (P : A -> bool) (l : list A) : Z :=
  match l with
  | [] => 0
  | x :: l' => b2z (P x) + cnt P l'
  end.

Lemma cnt_range {A} (P : A -> bool) l : 0 <= cnt P l <= Z.of_nat (length l).
Proof. induction l as [|x l IH]; simpl; [lia|]. pose proof (b2z_range (P x)). lia. Qed.

Lemma cnt_insert {A} (P : A -> bool) l i x y :
  l !! i = Some y -> cnt P (<[i:=x]> l) = cnt P l - b2z (P y) + b2z (P x).
Proof.
  revert i; induction l as [|z l IH]; intros [|i] H; simplify_eq/=; [lia|].
  rewrite (IH i) by done. lia.
Qed.

Lemma cnt_pos {A} (P : A -> bool) l i x : l !! i = Some x -> P x = true -> 0 < cnt P l.
Proof.
  revert i; induction l as [|z l IH]; intros [|i] H HP; simplify_eq/=.
  - rewrite HP; simpl. pose proof (cnt_range P l). lia.
  - pose proof (IH i H HP). pose proof (b2z_range (P z)). lia.
Qed.

Lemma cnt_replicate {A} (P : A -> bool) n x :
  cnt P (replicate n x) = if P x then Z.of_nat n else 0.
Proof. induction n as [|n IH]; simpl; [by destruct (P x)|]. rewrite IH. destruct (P x); simpl; lia. Qed.

Lemma cnt_app {A} (P : A -> bool) l1 l2 : cnt P (l1 ++ l2) = cnt P l1 + cnt P l2.
Proof. induction l1; simpl; lia. Qed.

Lemma cnt_pointwise {A} (P : A -> bool) l l' : length l = length l' ->
  (forall d x y, l !! d = Some x -> l' !! d = Some y -> P x = P y) -> cnt P l = cnt P l'.
Proof.
  revert l'. induction l as [|x l IH]; intros [|y l'] Hl HP; simpl in *; try lia.
  rewrite (HP 0%nat x y) by done. rewrite (IH l'); [done|lia|]. intros d. apply (HP (S d)).
Qed.

Lemma cnt_zero {A} (P : A -> bool) l : cnt P l = 0 <-> (forall x, x ∈ l -> P x = false).
Proof.
  induction l as [|z l IH]; simpl; [split; [intros _ x Hx; by apply not_elem_of_nil in Hx|done]|].
  pose proof (b2z_range (P z)); pose proof (cnt_range P l). split.
  - intros H1 x [->|Hx]%elem_of_cons; [destruct (P z); simpl in *; [lia|done]|].
    apply IH; [lia|done].
  - intros H1. rewrite (H1 z) by apply list_elem_of_here. simpl.
    apply IH. intros x Hx. apply H1. by apply list_elem_of_further.
Qed.

Lemma cnt_fmap {A B} (f : A -> B) P (l : list A) : cnt P (f <$> l) = cnt (fun x => P (f x)) l.
Proof. induction l as [|x l IH]; csimpl; [done|]. by rewrite IH. Qed.

Lemma cnt_ext {A} (P Q : A -> bool) (l : list A) :
  (forall x, x ∈ l -> P x = Q x) -> cnt P l = cnt Q l.
Proof.
  induction l as [|x l IH]; intros H; simpl; [done|].
  rewrite (H x) by apply list_elem_of_here. rewrite IH; [done|].
  intros y Hy. apply H. by apply list_elem_of_further.
Qed.

Lemma filter_all {A} (P : A -> Prop) `{forall x, Decision (P x)} (l : list A) : (forall x, x ∈ l -> P x) -> filter P l = l.
Proof.
  induction l as [|x l IH]; intros HP; [done|]. rewrite filter_cons_True by (apply HP; by left).
  f_equal. apply IH. intros y Hy. apply HP. by right.
Qed.

Lemma filter_none {A} (P : A -> Prop) `{forall x, Decision (P x)} (l : list A) : (forall x, x ∈ l -> ~ P x) -> filter P l = [].
Proof.
  induction l as [|x l IH]; intros HP; [done|]. rewrite filter_cons_False by (apply HP; by left).
  apply IH. intros y Hy. apply HP. by right.
Qed.

Lemma cnt_filter {A} (P : A -> bool) (l : list A) : cnt P l = Z.of_nat (length (filter (fun x => P x = true) l)).
Proof.
  induction l as [|x l IH]; simpl; [done|]. rewrite filter_cons, IH. destruct (P x) eqn:Hx.
  - rewrite decide_True by done. simpl. lia.
  - rewrite decide_False by congruence. simpl. lia.
Qed.

(** [sum_upto n f] is the sum of [f 0 .. f (n-1)]. *)
Fixpoint sum_upto (n : nat) (f : nat -> Z) : Z :=
  match n with
  | O => 0
  | S n' => sum_upto n' f + f n'
  end.

Lemma sum_upto_ext n f g :
  (forall i, (i < n)%nat -> f i = g i) -> sum_upto n f = sum_upto n g.
Proof. induction n as [|n IH]; intros H; simpl; [done|]. rewrite IH, H by auto with lia. done. Qed.

(** Changing one summand changes the sum by the difference. *)
Lemma sum_upto_upd n f g i :
  (i < n)%nat -> (forall j, (j < n)%nat -> j <> i -> f j = g j) ->
  sum_upto n g = sum_upto n f - f i + g i.
Proof.
  induction n as [|n IH]; intros Hi H; [lia|]. simpl.
  destruct (decide (i = n)) as [->|].
  - rewrite (sum_upto_ext n g f); [lia|]. intros j Hj. symmetry. apply H; lia.
  - rewrite IH by (try lia; intros; apply H; lia). rewrite (H n) by lia. lia.
Qed.

Lemma sum_upto_nonneg n f : (forall i, (i < n)%nat -> 0 <= f i) -> 0 <= sum_upto n f.
Proof.
  induction n as [|n IH]; intros H; simpl; [lia|].
  assert (0 <= sum_upto n f) by (apply IH; intros; apply H; lia). specialize (H n). lia.
Qed.

Lemma sum_upto_le n f g :
  (forall i, (i < n)%nat -> f i <= g i) -> sum_upto n f <= sum_upto n g.
Proof.
  induction n as [|n IH]; intros H; simpl; [lia|].
  assert (sum_upto n f <= sum_upto n g) by (apply IH; intros; apply H; lia). specialize (H n). lia.
Qed.

Lemma sum_upto_zero n f :
  (forall i, (i < n)%nat -> 0 <= f i) -> sum_upto n f = 0 ->
  forall i, (i < n)%nat -> f i = 0.
Proof.
  induction n as [|n IH]; intros Hn H i Hi; [lia|]. simpl in H.
  assert (0 <= sum_upto n f) by (apply sum_upto_nonneg; intros; apply Hn; lia).
  pose proof (Hn n ltac:(lia)).
  destruct (decide (i = n)) as [->|]; [lia|]. apply IH; [intros; apply Hn; lia|lia|lia].
Qed.

(** ** Verdicts: a checker that reads memory

    [VOk] goes on, [VBad why] is an early return with a message,
    [VFault] a read outside the object, [VDiverge] a loop that used up
    the steps the model gives it. *)
Inductive vres (A : Type) : Type :=
  | VOk (a : A)
  | VBad (why : string)
  | VFault
  | VDiverge.
Arguments VOk {A} a.
Arguments VBad {A} why.
Arguments VFault {A}.
Arguments VDiverge {A}.

Definition vbind {A B} (m : vres A) (f : A -> vres B) : vres B :=
  match m with
  | VOk a => f a
  | VBad why => VBad why
  | VFault => VFault
  | VDiverge => VDiverge
  end.

Declare Scope vres_scope.
Delimit Scope vres_scope with vres.
Bind Scope vres_scope with vres.
Notation "'vlet' x ':=' m 'in' k" := (vbind m (fun x => k))
  (at level 10, x pattern, m at level 100, k at level 200) : vres_scope.
Notation "m ;;; k" := (vbind m (fun _ => k))
  (at level 199, right associativity) : vres_scope.

(** [if(c) return why;] *)
Definition bad_if (c : bool) (why : string) : vres unit := if c then VBad why else VOk tt.

Definition of_opt {A} (o : option A) : vres A :=
  match o with Some a => VOk a | None => VFault end.

(** [for(i = lo; n more times; i++) body i] *)
Fixpoint vfor (n : nat) (i : Z) (body : Z -> vres unit) : vres unit :=
  match n with
  | O => VOk tt
  | S n' => vbind (body i) (fun _ => vfor n' (i + 1) body)
  end.

(** The same with an accumulator. *)
Fixpoint vfold {A} (n : nat) (i : Z) (a : A) (body : A -> Z -> vres A) : vres A :=
  match n with
  | O => VOk a
  | S n' => vbind (body a i) (fun a' => vfold n' (i + 1) a' body)
  end.

(** A verdict is [safe] when the checker neither faulted nor diverged, and its
    result, if it went on, satisfies [P]. *)
Definition safe {A} (m : vres A) (P : A -> Prop) : Prop :=
  match m with
  | VOk a => P a
  | VBad _ => True
  | _ => False
  end.

Lemma vbind_ok {A B} (m : vres A) (f : A -> vres B) b :
  vbind m f = VOk b <-> exists a, m = VOk a /\ f a = VOk b.
Proof.
  destruct m as [a| | |]; simpl; split; try congruence; [eauto|..];
    intros (x & Hx & Hf); congruence.
Qed.

Lemma bad_if_ok c why u : bad_if c why = VOk u <-> c = false.
Proof. destruct c, u; simpl; split; congruence. Qed.

Lemma of_opt_ok {A} (o : option A) a : of_opt o = VOk a <-> o = Some a.
Proof. destruct o; simpl; split; congruence. Qed.

Lemma safe_bind {A B} (m : vres A) (f : A -> vres B) P Q :
  safe m P -> (forall a, P a -> safe (f a) Q) -> safe (vbind m f) Q.
Proof. destruct m; simpl; naive_solver. Qed.

(** The continuation may use both the postcondition and the value. *)
Lemma safe_bind_eq {A B} (m : vres A) (f : A -> vres B) P Q :
  safe m P -> (forall a, m = VOk a -> P a -> safe (f a) Q) -> safe (vbind m f) Q.
Proof. destruct m; simpl; naive_solver. Qed.

Lemma safe_mono {A} (m : vres A) (P Q : A -> Prop) :
  safe m P -> (forall a, P a -> Q a) -> safe m Q.
Proof. destruct m; simpl; naive_solver. Qed.

Lemma safe_bad_if c why (P : unit -> Prop) : (c = false -> P tt) -> safe (bad_if c why) P.
Proof. destruct c; simpl; naive_solver. Qed.

Lemma safe_of_opt {A} (o : option A) a (P : A -> Prop) : o = Some a -> P a -> safe (of_opt o) P.
Proof. by intros ->. Qed.

Lemma safe_ok {A} (m : vres A) P a : safe m P -> m = VOk a -> P a.
Proof. by intros H ->. Qed.

Lemma vfor_ok n i body u :
  vfor n i body = VOk u <-> forall k, i <= k < i + Z.of_nat n -> body k = VOk tt.
Proof.
  revert i; induction n as [|n IH]; intros i; simpl.
  - destruct u. split; [intros _ k Hk; lia|done].
  - rewrite vbind_ok. split.
    + intros ([] & H1 & H2) k Hk. destruct (decide (k = i)) as [->|]; [done|].
      eapply IH; [done|lia].
    + intros H. exists tt. split; [apply H; lia|]. apply IH. intros k Hk. apply H; lia.
Qed.

(** Each iteration may assume that the ones before it went on. *)
Lemma safe_vfor n i body :
  (forall k, i <= k < i + Z.of_nat n ->
     (forall k', i <= k' < k -> body k' = VOk tt) -> safe (body k) (fun _ => True)) ->
  safe (vfor n i body) (fun _ => True).
Proof.
  revert i; induction n as [|n IH]; intros i H; simpl; [done|].
  eapply safe_bind_eq; [apply H; intros; lia|].
  intros [] Hi _. apply IH. intros k Hk Hb. apply H; [lia|].
  intros k' Hk'. destruct (decide (k' = i)) as [->|]; [done|]. apply Hb; lia.
Qed.

Lemma safe_vfold {A} (I : Z -> A -> Prop) n i a (body : A -> Z -> vres A) :
  I i a ->
  (forall k a, i <= k < i + Z.of_nat n -> I k a -> safe (body a k) (I (k + 1))) ->
  safe (vfold n i a body) (I (i + Z.of_nat n)).
Proof.
  revert i a; induction n as [|n IH]; intros i a Ha H; simpl.
  - rewrite Z.add_0_r. done.
  - eapply safe_bind; [apply H; [lia|done]|]. intros a' Ha'.
    replace (i + Z.of_nat (S n)) with (i + 1 + Z.of_nat n) by lia.
    apply IH; [done|]. intros k b Hk. apply H. lia.
Qed.

Lemma vfold_ok_inv {A} (I : Z -> A -> Prop) n i a b (body : A -> Z -> vres A) :
  vfold n i a body = VOk b -> I i a ->
  (forall k a a', i <= k < i + Z.of_nat n -> I k a -> body a k = VOk a' -> I (k + 1) a') ->
  I (i + Z.of_nat n) b.
Proof.
  revert i a; induction n as [|n IH]; intros i a; simpl.
  - intros [= ->] Ha _. by rewrite Z.add_0_r.
  - intros (a' & H1 & H2)%vbind_ok Ha H.
    replace (i + Z.of_nat (S n)) with (i + 1 + Z.of_nat n) by lia.
    apply (IH (i + 1) a'); [done|apply (H i a a'); [lia|done|done]|]. intros k c c' Hk. apply H. lia.
Qed.

(** A verdict [returns] when the operation returned a result that satisfies [P]. *)
Definition returns {A} (m : vres A) (P : A -> Prop) : Prop :=
  match m with
  | VOk a => P a
  | _ => False
  end.

Lemma returns_ex {A} (m : vres A) P : returns m P <-> exists a, m = VOk a /\ P a.
Proof. split; [destruct m; simpl; try done; eauto|by intros (a & -> & H)]. Qed.

Lemma returns_bind {A B} (m : vres A) (f : A -> vres B) P Q :
  returns m P -> (forall a, P a -> returns (f a) Q) -> returns (vbind m f) Q.
Proof. destruct m; simpl; naive_solver. Qed.

Lemma returns_and {A} (m : vres A) (P Q : A -> Prop) :
  returns m P -> returns m Q -> returns m (fun a => P a /\ Q a).
Proof. destruct m; simpl; naive_solver. Qed.

Lemma returns_mono {A} (m : vres A) (P Q : A -> Prop) :
  returns m P -> (forall a, P a -> Q a) -> returns m Q.
Proof. destruct m; simpl; naive_solver. Qed.

Lemma returns_vfold {A} (I : Z -> A -> Prop) n i a (body : A -> Z -> vres A) :
  I i a ->
  (forall k a, i <= k < i + Z.of_nat n -> I k a -> returns (body a k) (I (k + 1))) ->
  returns (vfold n i a body) (I (i + Z.of_nat n)).
Proof.
  revert i a; induction n as [|n IH]; intros i a Ha H; simpl; [by rewrite Z.add_0_r|].
  eapply returns_bind; [apply H; [lia|done]|]. intros a' Ha'.
  replace (i + Z.of_nat (S n)) with (i + 1 + Z.of_nat n) by lia.
  apply IH; [done|]. intros k b Hk. apply H. lia.
Qed.

(** A checker that is safe and has nothing to object to returns. *)
Lemma returns_safe {A} (m : vres A) P : safe m P -> (forall why, m <> VBad why) -> returns m P.
Proof. destruct m as [a|why| |]; simpl; try done. intros _ H. by destruct (H why). Qed.

(** ** Automation *)

Create HintDb ninit.
#[export] Hint Resolve b2z_range cnt_range : ninit.

(** Splits the success of a sequence of checks into the success of each. *)
Ltac vok_inv :=
  repeat match goal with
  | H : vbind _ _ = VOk _ |- _ =>
      let a := fresh "a" in let H1 := fresh "Hv" in
      apply vbind_ok in H as (a & H1 & H)
  | H : bad_if _ _ = VOk _ |- _ => apply bad_if_ok in H
  | H : of_opt _ = VOk _ |- _ => apply of_opt_ok in H
  | H : VOk _ = VOk _ |- _ => injection H as H; try subst
  | a : unit |- _ => destruct a
  end.

Ltac split_ands := repeat match goal with |- _ /\ _ => split end.
