(* ===== verification/Ngraph.v ===== *)
(** * The dependency graph image (src/ngraph.h, src/ngraph.c)

    The compiled graph: its constants and records, the accessors that read it
    out of the image bytes, the checksum, the rules for service names, and the
    helpers [ng_verify] is built from. The verifier itself is in Verify.v. *)

From S2P Require Import Prelude.

(** ** Constants *)

Definition NG_MAGIC : Z := 1195657550.  (* 0x4744494e, 'NIDG' *)
Definition NG_VERSION : Z := 9.

Definition NG_TYPE_ONESHOT : Z := 0.
Definition NG_TYPE_DAEMON : Z := 1.
Definition NG_TYPE_TARGET : Z := 2.

Definition NG_ONFAIL_MASK : Z := 3.
Definition NG_ONFAIL_WARN : Z := 0.
Definition NG_ONFAIL_STOP : Z := 1.
Definition NG_ONFAIL_SHELL : Z := 2.
Definition NG_FLAG_RESTART : Z := 4.
Definition NG_FLAG_INTERP : Z := 8.
Definition NG_FLAG_DIRECT : Z := 16.
Definition NG_FLAG_MASK : Z :=
  Z.lor NG_ONFAIL_MASK (Z.lor NG_FLAG_RESTART (Z.lor NG_FLAG_INTERP NG_FLAG_DIRECT)).

Definition NG_PF_ORDER_ONLY : Z := 1.
Definition NG_PF_MASK : Z := 1.

Definition NG_NO_SCRIPT : Z := UINT32_MAX.
Definition NG_NO_EXEC : Z := UINT32_MAX.

Definition NG_DEFAULT_DIR : bytes := bs "/etc/ninit.d".
Definition NG_DEFAULT_FILE : bytes := bs "/etc/ninit.d/depgraph".

Definition NG_MAX_INTERP : Z := 255.
Definition NG_MAX_EXEC_ARGS : Z := 16.
Definition NG_MAX_EXEC_ARG : Z := 4096.
Definition NG_NOTIFY_NONE : Z := 0.
Definition NG_NOTIFY_MIN : Z := 3.
Definition NG_NOTIFY_MAX : Z := 255.
Definition NG_MAX_SCRIPT : Z := 131071.
Definition NG_MAX_SVC : Z := 8192.
Definition NG_MAX_NAME : Z := 255.
Definition NG_DEF_START_MS : Z := 90000.
Definition NG_DEF_STOP_MS : Z := 5000.
Definition NG_DEF_TRIES_ONESHOT : Z := 1.
Definition NG_DEF_TRIES_DAEMON : Z := 2.
Definition NG_MAX_MS : Z := 86400000.
Definition NG_MAX_TRIES : Z := 250.

(** ** Records of the image *)

Record ng_hdr := NgHdr {
  magic : Z; version : Z; hdr_crc32 : Z; total_len : Z;
  n_svc : Z; n_roots : Z; n_edges : Z; blob_len : Z;
  off_svc : Z; off_rdep_off : Z; off_rdep_idx : Z; off_blob : Z; off_pol : Z;
  reserved : Z; srcs_hash : Z;
}.

Record ng_pol := NgPol {
  start_ms : Z; stop_ms : Z; retry_ms : Z; start_tries : Z; pflags : Z; exec_off : Z;
}.

Record ng_svc := NgSvc {
  unmet : Z; type : Z; flags : Z; n_desc : Z; notify_fd : Z; script_off : Z; name_off : Z;
}.

Definition SIZEOF_HDR : Z := 64.
Definition SIZEOF_SVC : Z := 16.
Definition SIZEOF_POL : Z := 16.

(** ** Reading memory, little endian, in the layout of the structs *)

Definition rd8 (img : bytes) (off : Z) : vres Z :=
  if off <? 0 then VFault else of_opt (img !! Z.to_nat off).

Definition rd16 (img : bytes) (off : Z) : vres Z :=
  (vlet a := rd8 img off in vlet b := rd8 img (off + 1) in VOk (a + 256 * b))%vres.

Definition rd32 (img : bytes) (off : Z) : vres Z :=
  (vlet a := rd16 img off in vlet b := rd16 img (off + 2) in VOk (a + 65536 * b))%vres.

Definition rd64 (img : bytes) (off : Z) : vres Z :=
  (vlet a := rd32 img off in vlet b := rd32 img (off + 4) in VOk (a + 4294967296 * b))%vres.

Definition rd_hdr (img : bytes) : vres ng_hdr :=
  (vlet a0 := rd32 img 0 in vlet a1 := rd32 img 4 in vlet a2 := rd32 img 8 in
   vlet a3 := rd32 img 12 in vlet a4 := rd32 img 16 in vlet a5 := rd32 img 20 in
   vlet a6 := rd32 img 24 in vlet a7 := rd32 img 28 in vlet a8 := rd32 img 32 in
   vlet a9 := rd32 img 36 in vlet a10 := rd32 img 40 in vlet a11 := rd32 img 44 in
   vlet a12 := rd32 img 48 in vlet a13 := rd32 img 52 in vlet a14 := rd64 img 56 in
   VOk (NgHdr a0 a1 a2 a3 a4 a5 a6 a7 a8 a9 a10 a11 a12 a13 a14))%vres.

(** [ng_svcs(map)[i]] *)
Definition ng_svcs (img : bytes) (h : ng_hdr) (i : Z) : vres ng_svc :=
  let p := off_svc h + SIZEOF_SVC * i in
  (vlet u := rd16 img p in vlet t := rd8 img (p + 2) in vlet f := rd8 img (p + 3) in
   vlet d := rd16 img (p + 4) in vlet nf := rd16 img (p + 6) in
   vlet so := rd32 img (p + 8) in vlet no := rd32 img (p + 12) in
   VOk (NgSvc u t f d nf so no))%vres.

(** [ng_pol(map, i)] *)
Definition ng_pol_at (img : bytes) (h : ng_hdr) (i : Z) : vres ng_pol :=
  let p := off_pol h + SIZEOF_POL * i in
  (vlet a := rd32 img p in vlet b := rd32 img (p + 4) in vlet r := rd16 img (p + 8) in
   vlet t := rd8 img (p + 10) in vlet f := rd8 img (p + 11) in
   vlet e := rd32 img (p + 12) in
   VOk (NgPol a b r t f e))%vres.

(** [ng_rdep_off(map)[i]] and [ng_rdep_idx(map)[k]] *)
Definition ng_rdep_off (img : bytes) (h : ng_hdr) (i : Z) : vres Z :=
  rd32 img (off_rdep_off h + 4 * i).

Definition ng_rdep_idx (img : bytes) (h : ng_hdr) (k : Z) : vres Z :=
  rd32 img (off_rdep_idx h + 4 * k).

(** The C string at [pos], the bytes before the first NUL. *)
Fixpoint cstr_of (l : bytes) : vres bytes :=
  match l with
  | [] => VFault
  | b :: l' => if b =? 0 then VOk [] else (vlet s := cstr_of l' in VOk (b :: s))%vres
  end.

Definition cstr (img : bytes) (pos : Z) : vres bytes :=
  if pos <? 0 then VFault else cstr_of (drop (Z.to_nat pos) img).

(** [strlen(img + pos)] *)
Definition strlen (img : bytes) (pos : Z) : vres Z :=
  (vlet s := cstr img pos in VOk (Z.of_nat (length s)))%vres.

(** [memchr(img + pos, c, n) != NULL], which stops at the first match. *)
Fixpoint mem_chr (l : bytes) (c : Z) (n : nat) {struct n} : vres bool :=
  match n with
  | O => VOk false
  | S n' => match l with
            | [] => VFault
            | b :: l' => if b =? c then VOk true else mem_chr l' c n'
            end
  end.

Definition memchr (img : bytes) (pos c n : Z) : vres bool :=
  if pos <? 0 then VFault else mem_chr (drop (Z.to_nat pos) img) c (Z.to_nat n).

(** ** Checksum *)

Definition crc32c_poly : Z := 2197175160.  (* 0x82f63b78 *)

(** The byte table of the reflected polynomial 0x82f63b78, as the source lists it. *)
Definition crc32c_table : list Z :=
  [0; 4067132163; 3778769143; 324072436; 3348797215; 904991772;
   648144872; 3570033899; 2329499855; 2024987596; 1809983544; 2575936315;
   1296289744; 3207089363; 2893594407; 1578318884; 274646895; 3795141740;
   4049975192; 51262619; 3619967088; 632279923; 922689671; 3298075524;
   2592579488; 1760304291; 2075979607; 2312596564; 1562183871; 2943781820;
   3156637768; 1313733451; 549293790; 3537243613; 3246849577; 871202090;
   3878099393; 357341890; 102525238; 4101499445; 2858735121; 1477399826;
   1264559846; 3107202533; 1845379342; 2677391885; 2361733625; 2125378298;
   820201905; 3263744690; 3520608582; 598981189; 4151959214; 85089709;
   373468761; 3827903834; 3124367742; 1213305469; 1526817161; 2842354314;
   2107672161; 2412447074; 2627466902; 1861252501; 1098587580; 3004210879;
   2688576843; 1378610760; 2262928035; 1955203488; 1742404180; 2511436119;
   3416409459; 969524848; 714683780; 3639785095; 205050476; 4266873199;
   3976438427; 526918040; 1361435347; 2739821008; 2954799652; 1114974503;
   2529119692; 1691668175; 2005155131; 2247081528; 3690758684; 697762079;
   986182379; 3366744552; 476452099; 3993867776; 4250756596; 255256311;
   1640403810; 2477592673; 2164122517; 1922457750; 2791048317; 1412925310;
   1197962378; 3037525897; 3944729517; 427051182; 170179418; 4165941337;
   746937522; 3740196785; 3451792453; 1070968646; 1905808397; 2213795598;
   2426610938; 1657317369; 3053634322; 1147748369; 1463399397; 2773627110;
   4215344322; 153784257; 444234805; 3893493558; 1021025245; 3467647198;
   3722505002; 797665321; 2197175160; 1889384571; 1674398607; 2443626636;
   1164749927; 3070701412; 2757221520; 1446797203; 137323447; 4198817972;
   3910406976; 461344835; 3484808360; 1037989803; 781091935; 3705997148;
   2460548119; 1623424788; 1939049696; 2180517859; 1429367560; 2807687179;
   3020495871; 1180866812; 410100952; 3927582683; 4182430767; 186734380;
   3756733383; 763408580; 1053836080; 3434856499; 2722870694; 1344288421;
   1131464017; 2971354706; 1708204729; 2545590714; 2229949006; 1988219213;
   680717673; 3673779818; 3383336350; 1002577565; 4010310262; 493091189;
   238226049; 4233660802; 2987750089; 1082061258; 1395524158; 2705686845;
   1972364758; 2279892693; 2494862625; 1725896226; 952904198; 3399985413;
   3656866545; 731699698; 4283874585; 222117402; 510512622; 3959836397;
   3280807620; 837199303; 582374963; 3504198960; 68661723; 4135334616;
   3844915500; 390545967; 1230274059; 3141532936; 2825850620; 1510247935;
   2395924756; 2091215383; 1878366691; 2644384480; 3553878443; 565732008;
   854102364; 3229815391; 340358836; 3861050807; 4117890627; 119113024;
   1493875044; 2875275879; 3090270611; 1247431312; 2660249211; 1828433272;
   2141937292; 2378227087; 3811616794; 291187481; 34330861; 4032846830;
   615137029; 3603020806; 3314634738; 939183345; 1776939221; 2609017814;
   2295496738; 2058945313; 2926798794; 1545135305; 1330124605; 3173225534;
   4084100981; 17165430; 307568514; 3762199681; 888469610; 3332340585;
   3587147933; 665062302; 2042050490; 2346497209; 2559330125; 1793573966;
   3190661285; 1279665062; 1595330642; 2910671697].

Definition crc_tab (i : Z) : Z := nth (Z.to_nat i) crc32c_table 0.

(** One round of the byte loop; the accumulator is a 32-bit word. *)
Definition crc32c_step (c b : Z) : Z :=
  Z.lxor (crc_tab (Z.land (Z.lxor c b) 255)) (Z.shiftr c 8).

Definition crc32c_feed_sw (crc : Z) (data : bytes) : Z := foldl crc32c_step (u32 crc) data.

(** [~x] on 32 bits *)
Definition not32 (x : Z) : Z := UINT32_MAX - u32 x.

Definition ng_crc32c (data : bytes) : Z := not32 (crc32c_feed_sw UINT32_MAX data).

(** The header with its checksum field cleared, then the rest of the image. *)
Definition ng_image_crc32c (img : bytes) : Z :=
  if Z.of_nat (length img) <? SIZEOF_HDR then 0 else
  let h := take 8 img ++ [0; 0; 0; 0] ++ drop 12 (take 64 img) in
  not32 (crc32c_feed_sw (crc32c_feed_sw UINT32_MAX h) (drop 64 img)).

(** ** Names *)

Definition ng_typename (t : Z) : string :=
  if t =? NG_TYPE_ONESHOT then "oneshot"
  else if t =? NG_TYPE_DAEMON then "daemon"
  else if t =? NG_TYPE_TARGET then "target" else "?".

Definition ng_onfailname (policy : Z) : string :=
  let p := Z.land policy NG_ONFAIL_MASK in
  if p =? NG_ONFAIL_WARN then "warn"
  else if p =? NG_ONFAIL_STOP then "stop"
  else if p =? NG_ONFAIL_SHELL then "shell" else "?".

Fixpoint name_chars (p : bytes) : option string :=
  match p with
  | [] => None
  | c :: p' =>
      if c =? 47 then Some "contains a slash"
      else if c =? 44 then Some "contains a comma"
      else if (c <=? 32) || (c =? 127) then Some "contains whitespace or a control character"
      else name_chars p'
  end.

(** [None] is the NULL the source returns for a usable name. *)
Definition ng_name_problem (name : bytes) : option string :=
  let n := Z.of_nat (length name) in
  if n =? 0 then Some "is empty"
  else if NG_MAX_NAME <? n then Some "is too long"
  else if nth 0 name 0 =? 46 then Some "starts with a dot"
  else if List.last name 0 =? 126 then Some "is an editor backup file"
  else if (1 <? n) && (nth 0 name 0 =? 35) && (List.last name 0 =? 35)
       then Some "is an editor autosave file"
  else name_chars name.

Definition ng_reserved_name (name : bytes) : bool :=
  if bytes_eqb name (bs "unused") then true
  else if negb (bytes_eqb (take 8 name) (bs "depgraph")) then false
  else let r := drop 8 name in
       bytes_eqb r [] || bytes_eqb r (bs ".old") || bytes_eqb r (bs ".tmp").

Definition name_hash (s : bytes) : Z :=
  foldl (fun h c => u32 (Z.lxor h c * 16777619)) 2166136261 s.

(** ** Bounds *)

Definition range_ok (off nbytes total align : Z) : bool :=
  if negb (Z.land off (align - 1) =? 0) then false else off + nbytes <=? total.

Record ng_span := NgSpan { lo : Z; hi : Z }.

Definition span_overlap (a b : ng_span) : bool :=
  if lo b =? hi b then false else (lo a <? hi b) && (lo b <? hi a).

Fixpoint spans_disjoint (v : list ng_span) : bool :=
  match v with
  | [] => true
  | a :: v' =>
      if lo a =? hi a then spans_disjoint v'
      else if existsb (span_overlap a) v' then false else spans_disjoint v'
  end.

(** The string at [off] of the blob ends within [cap] bytes. [blob] is the
    position of the blob in the image. *)
Definition str_fits (img : bytes) (blob blob_len off cap : Z) : vres bool :=
  if blob_len <=? off then VOk false else
  let left := blob_len - off in
  let left := if cap + 1 <? left then cap + 1 else left in
  memchr img (blob + off) 0 left.

Definition fits_or (img : bytes) (blob blob_len off cap : Z) (why : string) : vres unit :=
  (vlet ok := str_fits img blob blob_len off cap in bad_if (negb ok) why)%vres.

(** ** Argument lists in the blob *)

(** [while(blob[off])] of one list; [args] counts over both lists, so at most
    [NG_MAX_EXEC_ARGS + 1 - args] iterations are made. *)
Fixpoint exec_list (fuel : nat) (img : bytes) (blob blob_len off args : Z) : vres (Z * Z) :=
  (vlet c := rd8 img (blob + off) in
   if c =? 0 then VOk (off, args) else
   match fuel with
   | O => VDiverge
   | S fuel' =>
       bad_if (NG_MAX_EXEC_ARGS <? args + 1) "too many interpreter arguments" ;;;
       fits_or img blob blob_len off NG_MAX_EXEC_ARG
         "interpreter argument longer than the supported maximum" ;;;
       vlet n := strlen img (blob + off) in
       let off' := off + n + 1 in
       bad_if (blob_len <=? off') "interpreter arguments run past the string table" ;;;
       exec_list fuel' img blob blob_len off' (args + 1)
   end)%vres.

Definition exec_fuel : nat := 17.

Definition exec_problem (img : bytes) (blob blob_len off : Z) : vres unit :=
  (bad_if (blob_len <=? off) "exec offset out of range" ;;;
   vlet c := rd8 img (blob + off) in
   bad_if (negb (c =? 47)) "interpreter is not an absolute path" ;;;
   fits_or img blob blob_len off NG_MAX_INTERP
     "interpreter path longer than the supported maximum" ;;;
   vlet (off1, args1) := exec_list exec_fuel img blob blob_len off 0 in
   bad_if (blob_len <=? off1 + 1) "interpreter arguments run past the string table" ;;;
   vlet _ := exec_list exec_fuel img blob blob_len (off1 + 1) args1 in
   VOk tt)%vres.

Fixpoint direct_args (fuel : nat) (img : bytes) (blob blob_len off args : Z) : vres unit :=
  match fuel with
  | O => VDiverge
  | S fuel' =>
      (vlet n := strlen img (blob + off) in
       let off' := off + n + 1 in
       bad_if (blob_len <=? off') "direct arguments run past the string table" ;;;
       vlet c := rd8 img (blob + off') in
       if c =? 0 then VOk tt else
       bad_if (NG_MAX_EXEC_ARGS <? args + 1) "too many direct arguments" ;;;
       fits_or img blob blob_len off' NG_MAX_EXEC_ARG
         "direct argument longer than the supported maximum" ;;;
       direct_args fuel' img blob blob_len off' (args + 1))%vres
  end.

Definition direct_problem (img : bytes) (blob blob_len off : Z) : vres unit :=
  (bad_if (blob_len <=? off) "exec offset out of range" ;;;
   vlet c := rd8 img (blob + off) in
   bad_if (c =? 0) "direct argv is empty" ;;;
   fits_or img blob blob_len off NG_MAX_INTERP "command longer than the supported maximum" ;;;
   vlet s := cstr img (blob + off) in
   bad_if (negb (c =? 47) && existsb (Z.eqb 47) s)
     "command with a slash is not an absolute path" ;;;
   direct_args exec_fuel img blob blob_len off 1)%vres.

(** ** The loaded graph

    What the rest of pid 1 reads through the accessors of ngraph.h, decoded
    once: the image is mapped read-only, so every later read of it gives the
    same value. *)

Record graph := Graph {
  g_n : nat;
  g_roots : nat;
  g_svc : list ng_svc;
  g_pol : list ng_pol;
  g_roff : list nat;
  g_ridx : list nat;
  g_name : list bytes;
}.

(** [n] reads of a table from index [i]. *)
Fixpoint vtab {A} (n : nat) (i : Z) (f : Z -> vres A) : vres (list A) :=
  match n with
  | O => VOk []
  | S n' => (vlet a := f i in vlet l := vtab n' (i + 1) f in VOk (a :: l))%vres
  end.

Definition ng_name_at (img : bytes) (h : ng_hdr) (i : Z) : vres bytes :=
  (vlet s := ng_svcs img h i in cstr img (off_blob h + name_off s))%vres.

Definition decode (img : bytes) : vres graph :=
  (vlet h := rd_hdr img in
   let n := Z.to_nat (n_svc h) in
   vlet sv := vtab n 0 (ng_svcs img h) in
   vlet pl := vtab n 0 (ng_pol_at img h) in
   vlet ro := vtab (S n) 0 (ng_rdep_off img h) in
   vlet ri := vtab (Z.to_nat (n_edges h)) 0 (ng_rdep_idx img h) in
   vlet nm := vtab n 0 (ng_name_at img h) in
   VOk (Graph n (Z.to_nat (n_roots h)) sv pl (Z.to_nat <$> ro) (Z.to_nat <$> ri) nm))%vres.

(** The dependents of [j]: [ridx[k]] for [roff[j] <= k < roff[j + 1]]. *)
Definition succs (g : graph) (j : nat) : option (list nat) :=
  match g_roff g !! j, g_roff g !! S j with
  | Some a, Some b =>
      if (b <=? length (g_ridx g))%nat then Some (take (b - a) (drop a (g_ridx g))) else None
  | _, _ => None
  end.

(** Default values of the policy record, as the inline accessors give them. *)
Definition ng_start_ms (g : graph) (i : nat) : option Z :=
  p ← g_pol g !! i; Some (if start_ms p =? 0 then NG_DEF_START_MS else start_ms p).

Definition ng_stop_ms (g : graph) (i : nat) : option Z :=
  p ← g_pol g !! i; Some (if stop_ms p =? 0 then NG_DEF_STOP_MS else stop_ms p).

Definition ng_start_tries (g : graph) (i : nat) : option Z :=
  p ← g_pol g !! i; s ← g_svc g !! i;
  Some (if negb (start_tries p =? 0) then start_tries p
        else if type s =? NG_TYPE_DAEMON then NG_DEF_TRIES_DAEMON else NG_DEF_TRIES_ONESHOT).

Definition ng_order_only (g : graph) (i : nat) : option bool :=
  p ← g_pol g !! i; Some (negb (Z.land (pflags p) NG_PF_ORDER_ONLY =? 0)).

Definition ng_onfail (g : graph) (i : nat) : option Z :=
  s ← g_svc g !! i; Some (Z.land (flags s) NG_ONFAIL_MASK).

Definition ng_restart (g : graph) (i : nat) : option bool :=
  s ← g_svc g !! i; Some (negb (Z.land (flags s) NG_FLAG_RESTART =? 0)).

Definition ng_notify (g : graph) (i : nat) : option Z := s ← g_svc g !! i; Some (notify_fd s).

Definition ng_type (g : graph) (i : nat) : option Z := s ← g_svc g !! i; Some (type s).

Definition is_target (g : graph) (i : nat) : option bool :=
  t ← ng_type g i; Some (t =? NG_TYPE_TARGET).

Definition ng_name (g : graph) (i : nat) : option bytes := g_name g !! i.

(** ** A well-formed graph *)

(** How often [d] occurs among the dependents of [j]. *)
Definition occ (d : nat) (l : list nat) : Z := cnt (fun x => (x =? d)%nat) l.

Definition mult (g : graph) (j d : nat) : Z :=
  match succs g j with Some l => occ d l | None => 0 end.

(** [j] is a prerequisite of [d]. *)
Definition edge (g : graph) (j d : nat) : Prop := exists l, succs g j = Some l /\ d ∈ l.

(** The number of prerequisites of [d]. *)
Definition indeg (g : graph) (d : nat) : Z := sum_upto (g_n g) (fun j => mult g j d).

Record svc_wf (g : graph) (i : nat) (s : ng_svc) (p : ng_pol) : Prop := SvcWf {
  sw_unmet : unmet s = indeg g i;
  sw_unmet_lt : 0 <= unmet s < Z.of_nat (g_n g);
  sw_root : (i < g_roots g)%nat <-> unmet s = 0;
  sw_type : type s = NG_TYPE_ONESHOT \/ type s = NG_TYPE_DAEMON \/ type s = NG_TYPE_TARGET;
  sw_notify : notify_fd s = 0 \/ (NG_NOTIFY_MIN <= notify_fd s <= NG_NOTIFY_MAX /\ type s = NG_TYPE_DAEMON);
  sw_restart : ng_restart g i = Some true -> type s = NG_TYPE_DAEMON;
  sw_onfail : Z.land (flags s) NG_ONFAIL_MASK = NG_ONFAIL_WARN -> succs g i = Some [];
  sw_desc : n_desc s + Z.of_nat i < Z.of_nat (g_n g);
  sw_desc_mono : forall d sd, edge g i d -> g_svc g !! d = Some sd -> n_desc sd < n_desc s;
  sw_start_ms : start_ms p <= NG_MAX_MS /\ stop_ms p <= NG_MAX_MS;
  sw_tries : start_tries p <= NG_MAX_TRIES;
}.

Record graph_wf (g : graph) : Prop := GraphWf {
  gw_n : Z.of_nat (g_n g) <= NG_MAX_SVC;
  gw_roots : (g_roots g <= g_n g)%nat;
  gw_svc : length (g_svc g) = g_n g;
  gw_pol : length (g_pol g) = g_n g;
  gw_name : length (g_name g) = g_n g;
  gw_roff : length (g_roff g) = S (g_n g);
  gw_succs : forall j, (j < g_n g)%nat ->
    exists l, succs g j = Some l /\ Forall (fun d => (j < d < g_n g)%nat) l /\
              StronglySorted lt l;
  gw_each : forall i s p, g_svc g !! i = Some s -> g_pol g !! i = Some p -> svc_wf g i s p;
  gw_names : NoDup (g_name g);
  gw_usable : forall nm, nm ∈ g_name g -> ng_name_problem nm = None;
}.

Lemma vtab_ok {A} n i (f : Z -> vres A) l :
  vtab n i f = VOk l <->
  length l = n /\ forall k, (k < n)%nat -> exists a, f (i + Z.of_nat k) = VOk a /\ l !! k = Some a.
Proof.
  revert i l; induction n as [|n IH]; intros i l; simpl.
  - split; [intros [= <-]; split; [done|lia]|].
    intros [Hl _]. by destruct l.
  - rewrite vbind_ok. split.
    + intros (a & Ha & (l' & Hl' & [= <-])%vbind_ok). apply IH in Hl' as [Hlen Hk].
      split; [simpl; lia|]. intros [|k] Hlt.
      * exists a. by rewrite Z.add_0_r.
      * destruct (Hk k) as (b & Hb & Hbl); [lia|]. exists b.
        by replace (i + Z.of_nat (S k)) with (i + 1 + Z.of_nat k) by lia.
    + intros [Hlen Hk]. destruct l as [|a l]; simpl in Hlen; [lia|].
      destruct (Hk 0%nat) as (a' & Ha' & [= <-]); [lia|].
      exists a. rewrite Z.add_0_r in Ha'. split; [done|]. apply vbind_ok.
      exists l. split; [|done]. apply IH. split; [lia|]. intros k Hlt.
      destruct (Hk (S k)) as (b & Hb & Hbl); [lia|]. exists b. split; [|done].
      by replace (i + 1 + Z.of_nat k) with (i + Z.of_nat (S k)) by lia.
Qed.

(** Reads that succeed at every index give a table. *)
Lemma vtab_exists {A} n i (f : Z -> vres A) :
  (forall k, i <= k < i + Z.of_nat n -> exists a, f k = VOk a) -> exists l, vtab n i f = VOk l.
Proof.
  revert i; induction n as [|n IH]; intros i H; simpl; [eauto|].
  destruct (H i) as [a ->]; [lia|]. simpl.
  destruct (IH (i + 1)) as [l ->]; [intros k Hk; apply H; lia|]. simpl. eauto.
Qed.
