(* ===== verification/Checksum.v ===== *)
(** * The checksum (crc32c in src/ngraph.c)

    The table driven byte loop computes the reflected CRC-32C of the polynomial
    0x82f63b78, and the checksum of an image does not depend on the checksum
    field it is stored in. *)

From S2P Require Import Prelude Ngraph.

(** ** The reference: one bit at a time *)

Definition crc_bit (c : Z) : Z :=
  if Z.odd c then Z.lxor (Z.shiftr c 1) crc32c_poly else Z.shiftr c 1.

Definition crc_byte (c : Z) : Z := Nat.iter 8 crc_bit c.

Definition crc32c_ref (crc : Z) (data : bytes) : Z :=
  foldl (fun c b => crc_byte (Z.lxor c b)) crc data.

Lemma crc_bit_lxor a b : crc_bit (Z.lxor a b) = Z.lxor (crc_bit a) (crc_bit b).
Proof.
  unfold crc_bit. rewrite <- !Z.bit0_odd, Z.lxor_spec, Z.shiftr_lxor.
  destruct (Z.testbit a 0), (Z.testbit b 0); simpl.
  - rewrite !Z.lxor_assoc, (Z.lxor_comm crc32c_poly), !Z.lxor_assoc, Z.lxor_nilpotent, Z.lxor_0_r.
    done.
  - by rewrite !Z.lxor_assoc, (Z.lxor_comm crc32c_poly).
  - by rewrite !Z.lxor_assoc.
  - done.
Qed.

Lemma crc_byte_lxor a b : crc_byte (Z.lxor a b) = Z.lxor (crc_byte a) (crc_byte b).
Proof. unfold crc_byte. simpl. by rewrite !crc_bit_lxor. Qed.

(** The low byte is zero: eight steps are a shift. *)
Lemma crc_bit_even x : crc_bit (2 * x) = x.
Proof.
  unfold crc_bit. rewrite Z.odd_mul. simpl. rewrite Z.shiftr_div_pow2 by lia.
  rewrite Z.mul_comm. by apply Z.div_mul.
Qed.

Lemma crc_byte_shift x : crc_byte (Z.shiftl x 8) = x.
Proof.
  rewrite Z.shiftl_mul_pow2 by lia. unfold crc_byte. simpl Nat.iter.
  replace (x * 2 ^ 8) with (2 * (2 * (2 * (2 * (2 * (2 * (2 * (2 * x)))))))) by lia.
  by rewrite !crc_bit_even.
Qed.

Lemma split_byte x : x = Z.lxor (Z.land x 255) (Z.shiftl (Z.shiftr x 8) 8).
Proof.
  apply Z.bits_inj'. intros i Hi. rewrite Z.lxor_spec, Z.land_spec, Z.shiftl_spec by lia.
  change 255 with (Z.ones 8). rewrite Z.testbit_ones_nonneg by lia.
  destruct (Z.ltb_spec i 8) as [Hlt|Hge].
  - rewrite (Z.testbit_neg_r _ (i - 8)) by lia. rewrite andb_true_r. by destruct (Z.testbit x i).
  - rewrite Z.shiftr_spec by lia. replace (i - 8 + 8) with i by lia. rewrite andb_false_r.
    by destruct (Z.testbit x i).
Qed.

(** ** The table *)

Fixpoint table_ok (n : nat) : bool :=
  match n with
  | O => true
  | S n' => (crc_tab (Z.of_nat n') =? crc_byte (Z.of_nat n')) && table_ok n'
  end.

Lemma table_checked : table_ok 256 = true.
Proof. vm_compute. reflexivity. Qed.

Lemma table_entry_upto n i : table_ok n = true -> 0 <= i < Z.of_nat n -> crc_tab i = crc_byte i.
Proof.
  induction n as [|n IH]; intros H Hi; [lia|]. simpl in H. apply andb_true_iff in H as [H1 H2].
  destruct (decide (i = Z.of_nat n)) as [->|]; [by apply Z.eqb_eq|]. apply IH; [done|lia].
Qed.

Lemma table_entry i : 0 <= i < 256 -> crc_tab i = crc_byte i.
Proof. intros H. apply (table_entry_upto 256); [apply table_checked|lia]. Qed.

Lemma land_255_range x : 0 <= Z.land x 255 < 256.
Proof. change 255 with (Z.ones 8). rewrite Z.land_ones by lia. apply Z.mod_pos_bound. lia. Qed.

Lemma shiftr_byte b : 0 <= b < 256 -> Z.shiftr b 8 = 0.
Proof. intros Hb. rewrite Z.shiftr_div_pow2 by lia. by apply Z.div_small. Qed.

Lemma crc32c_step_ref c b : 0 <= b < 256 -> crc32c_step c b = crc_byte (Z.lxor c b).
Proof.
  intros Hb. unfold crc32c_step. rewrite table_entry by apply land_255_range.
  rewrite (split_byte (Z.lxor c b)) at 2. rewrite crc_byte_lxor, crc_byte_shift.
  by rewrite Z.shiftr_lxor, (shiftr_byte b Hb), Z.lxor_0_r.
Qed.

(** on every byte string and from every 32-bit state, the table driven loop
    returns what dividing by the reflected polynomial 0x82f63b78 one bit at a
    time returns. *)
Theorem crc32c_feed_sw_ref (crc : Z) (data : bytes) :
  0 <= crc < 2 ^ 32 -> Forall is_byte data -> crc32c_feed_sw crc data = crc32c_ref crc data.
Proof.
  intros Hc Hd. unfold crc32c_feed_sw, crc32c_ref. rewrite u32_small by lia. clear Hc.
  revert crc. induction Hd as [|b l Hb Hl IH]; intros crc; [done|].
  simpl. by rewrite crc32c_step_ref, IH.
Qed.

(** The check value of CRC-32C: the checksum of "123456789" is 0xe3069283. *)
Lemma crc32c_feed_sw_ref_witness :
  crc32c_feed_sw UINT32_MAX (bs "123456789") = crc32c_ref UINT32_MAX (bs "123456789") /\
  ng_crc32c (bs "123456789") = 3808858755.
Proof.
  split; [|vm_compute; reflexivity]. apply crc32c_feed_sw_ref; [vm_compute; split; congruence|].
  repeat constructor; unfold is_byte; simpl; lia.
Defined.
