(* ===== verification/PidMap.v ===== *)
(** * The pid table (src/pidmap.c)

    An open addressing hash table from process ids to service indices, with
    linear probing and deletion by backward shift. The operations are the loops
    of the source on arrays; the theorems say that they implement a finite map
    ([repr]) and that every loop ends. *)

From stdpp Require Import gmap.
From S2P Require Import Prelude.

(** * Linear probing

    Facts shared by the two open addressing tables of the program, the name
    table of [ng_verify] and the pid table of pidmap.c: a table of [N] slots,
    a probe that starts at a home slot and walks one slot at a time, modulo
    [N], until it meets an empty one. *)

Section Probe.
Context (N : Z) (HN : 0 < N).

(** The slot [t] steps after [h], and the number of steps from [h] to [j]. *)
Definition pos (h t : Z) : Z := (h + t) mod N.
Definition steps (h j : Z) : Z := (j - h) mod N.

Lemma pos_range h t : 0 <= pos h t < N.
Proof. apply Z.mod_pos_bound. lia. Qed.

Lemma steps_range h j : 0 <= steps h j < N.
Proof. apply Z.mod_pos_bound. lia. Qed.

Lemma pos_steps h j : 0 <= j < N -> pos h (steps h j) = j.
Proof.
  intros Hj. unfold pos, steps. rewrite Zplus_mod_idemp_r.
  replace (h + (j - h)) with j by lia. by apply Z.mod_small.
Qed.

Lemma steps_pos h t : 0 <= t < N -> steps h (pos h t) = t.
Proof.
  intros Ht. unfold pos, steps. rewrite Zminus_mod_idemp_l.
  replace (h + t - h) with t by lia. by apply Z.mod_small.
Qed.

Lemma pos_succ h t : (pos h t + 1) mod N = pos h (t + 1).
Proof. unfold pos. rewrite Zplus_mod_idemp_l. f_equal. lia. Qed.

Lemma pos_0 h : 0 <= h < N -> pos h 0 = h.
Proof. intros. unfold pos. rewrite Z.add_0_r. by apply Z.mod_small. Qed.

Lemma pos_inj h t t' : 0 <= t < N -> 0 <= t' < N -> pos h t = pos h t' -> t = t'.
Proof. intros Ht Ht' H. rewrite <- (steps_pos h t), <- (steps_pos h t'), H by done. done. Qed.

(** A slot is reachable when no slot between it and its home is empty. *)
Definition reach (full : Z -> Prop) (h j : Z) : Prop :=
  forall t, 0 <= t < steps h j -> full (pos h t).

(** An empty slot, when there is one, is met after fewer than [N] steps, and a
    decidable predicate gives the first. *)
Lemma first_free (full : Z -> bool) h j0 :
  0 <= j0 < N -> full j0 = false ->
  exists t, 0 <= t < N /\ full (pos h t) = false /\
            forall t', 0 <= t' < t -> full (pos h t') = true.
Proof.
  intros Hj H0.
  assert (forall n : nat, Z.of_nat n <= N ->
    (exists t, 0 <= t < Z.of_nat n /\ full (pos h t) = false /\
               forall t', 0 <= t' < t -> full (pos h t') = true) \/
    (forall t, 0 <= t < Z.of_nat n -> full (pos h t) = true)) as Hn.
  { induction n as [|n IH]; intros Hle; [right; lia|].
    destruct IH as [(t & Ht & Hf & Hb)|Hall]; [lia|left; exists t; split; [lia|done]|].
    destruct (full (pos h (Z.of_nat n))) eqn:E.
    - right. intros t Ht. destruct (decide (t = Z.of_nat n)) as [->|]; [done|apply Hall; lia].
    - left. exists (Z.of_nat n). split; [lia|]. split; [done|]. intros. apply Hall. lia. }
  destruct (Hn (Z.to_nat N)) as [(t & Ht & Hf & Hb)|Hall]; [lia|exists t; split; [lia|done]|].
  pose proof (steps_range h j0). rewrite <- (pos_steps h j0) in H0 by lia.
  rewrite Hall in H0 by lia. done.
Qed.

(** Two reachable slots of one home: the first empty slot is past a full one. *)
Lemma reach_before_free (full : Z -> Prop) h j t :
  0 <= j < N -> 0 <= t -> reach full h j -> full j -> ~ full (pos h t) ->
  steps h j < t \/ N <= t.
Proof.
  intros Hj Ht Hr Hf Hn. pose proof (steps_range h j).
  destruct (Z.lt_trichotomy (steps h j) t) as [|[E|E]]; [by left| |].
  - subst t. rewrite pos_steps in Hn by lia. done.
  - destruct Hn. apply Hr. lia.
Qed.

(** The same operations without a modulus, for linear arithmetic. *)
Lemma steps_if i j : 0 <= i < N -> 0 <= j < N ->
  steps i j = if i <=? j then j - i else j - i + N.
Proof.
  intros Hi Hj. unfold steps. destruct (Z.leb_spec i j); [by apply Z.mod_small; lia|].
  rewrite <- (Z_mod_plus_full (j - i) 1 N).
  replace (j - i + 1 * N) with (j - i + N) by lia. apply Z.mod_small. lia.
Qed.

Lemma pos_if h t : 0 <= h < N -> 0 <= t < N ->
  pos h t = if h + t <? N then h + t else h + t - N.
Proof.
  intros Hh Ht. unfold pos. destruct (Z.ltb_spec (h + t) N); [by apply Z.mod_small; lia|].
  rewrite <- (Z_mod_plus_full (h + t) (-1) N).
  replace (h + t + -1 * N) with (h + t - N) by lia. apply Z.mod_small. lia.
Qed.
End Probe.

(** For a table size that is a power of two the mask of the source is the modulus. *)
Lemma land_mask_mod x k : 0 <= k -> Z.land x (2 ^ k - 1) = x mod 2 ^ k.
Proof. intros Hk. rewrite Z.sub_1_r, <- Z.ones_equiv. by apply Z.land_ones. Qed.

(** [pid_key], [pid_val] and [pid_mask]; an empty slot has key 0. *)
Record pidtab := PidTab {
  pid_key : list Z;
  pid_val : list nat;
  pid_mask : Z;
}.

Definition pid_hash (T : pidtab) (p : Z) : Z := Z.land (u32 (u32 p * 2654435769)) (pid_mask T).

Definition key_at (T : pidtab) (i : Z) : vres Z := of_opt (pid_key T !! Z.to_nat i).
Definition val_at (T : pidtab) (i : Z) : vres nat := of_opt (pid_val T !! Z.to_nat i).
Definition set_key (T : pidtab) (i p : Z) : pidtab :=
  PidTab (<[Z.to_nat i := p]> (pid_key T)) (pid_val T) (pid_mask T).
Definition set_val (T : pidtab) (i : Z) (v : nat) : pidtab :=
  PidTab (pid_key T) (<[Z.to_nat i := v]> (pid_val T)) (pid_mask T).

(** The slots, one more step than the longest probe. *)
Definition tab_size (T : pidtab) : nat := length (pid_key T).

(** [for(; pid_key[i]; i = (i + 1) & pid_mask) if(pid_key[i] == pid) break;] *)
Fixpoint probe (fuel : nat) (T : pidtab) (i pid : Z) : vres Z :=
  match fuel with
  | O => VDiverge
  | S fuel' =>
      (vlet k := key_at T i in
       if (k =? 0) || (k =? pid) then VOk i
       else probe fuel' T (Z.land (i + 1) (pid_mask T)) pid)%vres
  end.

Definition pid_put (T : pidtab) (pid : Z) (svc : nat) : vres pidtab :=
  (vlet i := probe (tab_size T) T (pid_hash T pid) pid in
   VOk (set_val (set_key T i pid) i svc))%vres.

(** The search of [find_pid]: the value of a slot that holds [pid]. *)
Definition pid_find (T : pidtab) (pid : Z) : vres (option nat) :=
  (vlet i := probe (tab_size T) T (pid_hash T pid) pid in
   vlet k := key_at T i in
   if k =? 0 then VOk None else vlet v := val_at T i in VOk (Some v))%vres.

(** Whether the entry at [j] with home [k] may fill the hole at [i]. *)
Definition may_move (i j k : Z) : bool :=
  if i <=? j then (k <=? i) || (j <? k) else (k <=? i) && (j <? k).

(** The inner loop of [pid_del]: the next entry to move, [None] at an empty slot. *)
Fixpoint next_move (fuel : nat) (T : pidtab) (i j : Z) : vres (option Z) :=
  match fuel with
  | O => VDiverge
  | S fuel' =>
      (let j := Z.land (j + 1) (pid_mask T) in
       vlet kj := key_at T j in
       if kj =? 0 then VOk None else
       if may_move i j (pid_hash T kj) then VOk (Some j) else next_move fuel' T i j)%vres
  end.

(** The outer loop: empty slot [i], then refill it from further on. *)
Fixpoint shift_back (fuel : nat) (T : pidtab) (i : Z) : vres pidtab :=
  match fuel with
  | O => VDiverge
  | S fuel' =>
      (let T := set_key T i 0 in
       vlet m := next_move (tab_size T) T i i in
       match m with
       | None => VOk T
       | Some j =>
           vlet kj := key_at T j in
           vlet vj := val_at T j in
           shift_back fuel' (set_val (set_key T i kj) i vj) j
       end)%vres
  end.

Definition pid_del (T : pidtab) (pid : Z) : vres pidtab :=
  (vlet i := probe (tab_size T) T (pid_hash T pid) pid in
   vlet k := key_at T i in
   if k =? 0 then VOk T else shift_back (tab_size T) T i)%vres.

(** ** The map a table stands for *)

Section Table.
Context (e : Z) (He : 0 <= e).
Abbreviation N := (2 ^ e).

Definition K (T : pidtab) (s : Z) : Z := nth (Z.to_nat s) (pid_key T) 0.
Definition V (T : pidtab) (s : Z) : nat := nth (Z.to_nat s) (pid_val T) 0%nat.

Record shape (T : pidtab) : Prop := Shape {
  sh_key : length (pid_key T) = Z.to_nat N;
  sh_val : length (pid_val T) = Z.to_nat N;
  sh_mask : pid_mask T = N - 1;
}.

Lemma slots_pos : 0 < N.
Proof. by apply Z.pow_pos_nonneg. Qed.

Lemma key_at_K T s : shape T -> 0 <= s < N -> key_at T s = VOk (K T s).
Proof.
  intros HS Hs. unfold key_at, K.
  destruct (lookup_lt_is_Some_2 (pid_key T) (Z.to_nat s)) as [k Hk]; [rewrite (sh_key _ HS); lia|].
  rewrite Hk. simpl. f_equal. symmetry. by apply nth_lookup_Some.
Qed.

Lemma val_at_V T s : shape T -> 0 <= s < N -> val_at T s = VOk (V T s).
Proof.
  intros HS Hs. unfold val_at, V.
  destruct (lookup_lt_is_Some_2 (pid_val T) (Z.to_nat s)) as [k Hk]; [rewrite (sh_val _ HS); lia|].
  rewrite Hk. simpl. f_equal. symmetry. by apply nth_lookup_Some.
Qed.

Lemma shape_set_key T s p : shape T -> shape (set_key T s p).
Proof. intros [H1 H2 H3]. constructor; simpl; by rewrite ?length_insert. Qed.

Lemma shape_set_val T s v : shape T -> shape (set_val T s v).
Proof. intros [H1 H2 H3]. constructor; simpl; by rewrite ?length_insert. Qed.

Lemma nth_insert {A} (l : list A) i j x d :
  (i < length l)%nat -> nth j (<[i:=x]> l) d = if decide (i = j) then x else nth j l d.
Proof.
  intros Hi. rewrite !nth_lookup. destruct (decide (i = j)) as [->|Hne].
  - by rewrite list_lookup_insert_eq.
  - by rewrite list_lookup_insert_ne.
Qed.

Lemma K_set_key T s p t : shape T -> 0 <= s < N -> 0 <= t < N ->
  K (set_key T s p) t = if decide (s = t) then p else K T t.
Proof.
  intros HS Hs Ht. unfold K, set_key. simpl. rewrite nth_insert by (rewrite (sh_key _ HS); lia).
  destruct (decide (s = t)), (decide (Z.to_nat s = Z.to_nat t)); try done; lia.
Qed.

Lemma V_set_val T s v t : shape T -> 0 <= s < N -> 0 <= t < N ->
  V (set_val T s v) t = if decide (s = t) then v else V T t.
Proof.
  intros HS Hs Ht. unfold V, set_val. simpl. rewrite nth_insert by (rewrite (sh_val _ HS); lia).
  destruct (decide (s = t)), (decide (Z.to_nat s = Z.to_nat t)); try done; lia.
Qed.

Definition full (T : pidtab) (s : Z) : bool := negb (K T s =? 0).

Lemma full_K T s : full T s = true <-> K T s <> 0.
Proof. unfold full. rewrite negb_true_iff, Z.eqb_neq. done. Qed.

Lemma hash_range T p : shape T -> 0 <= pid_hash T p < N.
Proof.
  intros HS. unfold pid_hash. rewrite (sh_mask _ HS), land_mask_mod by done.
  apply Z.mod_pos_bound, slots_pos.
Qed.

(** The table [T] holds the map [m]. *)
Record repr (T : pidtab) (m : gmap Z nat) : Prop := Repr {
  re_shape : shape T;
  re_sound : forall s, 0 <= s < N -> K T s <> 0 -> m !! K T s = Some (V T s);
  re_complete : forall p v, m !! p = Some v -> p <> 0 /\ exists s, 0 <= s < N /\ K T s = p;
  re_unique : forall s s', 0 <= s < N -> 0 <= s' < N -> K T s <> 0 -> K T s = K T s' -> s = s';
  re_reach : forall s, 0 <= s < N -> K T s <> 0 ->
    reach N (fun t => full T t = true) (pid_hash T (K T s)) s;
  re_free : exists s, 0 <= s < N /\ K T s = 0;
}.

(** ** The probe *)

(** Where the probe of [pid] stops: at its entry or at the first empty slot. *)
Definition stop_at (T : pidtab) (pid i : Z) : Prop :=
  0 <= i < N /\ (K T i = 0 \/ K T i = pid) /\
  reach N (fun t => full T t = true) (pid_hash T pid) i /\
  forall t, 0 <= t < steps N (pid_hash T pid) i -> K T (pos N (pid_hash T pid) t) <> pid.

Lemma probe_spec T pid : shape T -> (exists s, 0 <= s < N /\ (K T s = 0 \/ K T s = pid)) ->
  returns (probe (tab_size T) T (pid_hash T pid) pid) (stop_at T pid).
Proof.
  intros HS (s0 & Hs0 & Hk0). pose proof slots_pos. pose proof (hash_range T pid HS) as Hh.
  destruct (first_free N ltac:(lia) (fun t => negb ((K T t =? 0) || (K T t =? pid))) (pid_hash T pid) s0 Hs0)
    as (ts & Hts & Hf & Hb).
  { destruct Hk0 as [-> | ->]; [done|]. by rewrite Z.eqb_refl, orb_true_r. }
  assert (forall fuel t, 0 <= t <= ts -> ts - t < Z.of_nat fuel ->
    returns (probe fuel T (pos N (pid_hash T pid) t) pid) (fun i => i = pos N (pid_hash T pid) ts)) as Hrun.
  { induction fuel as [|fuel IH]; intros t Ht Hfu; [lia|]. simpl.
    rewrite key_at_K by (done || (apply pos_range; lia)). simpl.
    destruct (decide (t = ts)) as [->|].
    - apply negb_false_iff in Hf. by rewrite Hf.
    - specialize (Hb t ltac:(lia)). apply negb_true_iff in Hb. rewrite Hb.
      rewrite (sh_mask _ HS), land_mask_mod, pos_succ by lia. apply IH; lia. }
  rewrite <- (pos_0 N (pid_hash T pid)) at 1 by done.
  eapply returns_mono; [apply Hrun; [lia|unfold tab_size; rewrite (sh_key _ HS); lia]|].
  intros i ->. apply negb_false_iff, orb_true_iff in Hf.
  split; [apply pos_range; lia|]. split; [destruct Hf as [Hf|Hf]; apply Z.eqb_eq in Hf; auto|].
  split; intros t Ht; rewrite steps_pos in Ht by lia;
    specialize (Hb t Ht); apply negb_true_iff, orb_false_iff in Hb as [Hb1 Hb2];
    apply Z.eqb_neq in Hb1, Hb2; [by apply full_K|done].
Qed.

(** An entry for [pid] is where its probe stops. *)
Lemma stop_entry T m pid i : repr T m -> stop_at T pid i -> pid <> 0 ->
  match m !! pid with
  | Some v => K T i = pid /\ V T i = v
  | None => K T i = 0
  end.
Proof.
  intros HR (Hi & Hk & Hr & Hne) Hp. pose proof slots_pos.
  destruct (m !! pid) as [v|] eqn:E.
  - destruct (re_complete _ _ HR _ _ E) as (_ & s & Hs & Hks).
    assert (K T i = pid) as Hki; [|split; [done|]].
    + destruct Hk as [Hk0|]; [|done]. exfalso.
      pose proof (re_reach _ _ HR s Hs ltac:(congruence)) as Hrs. rewrite Hks in Hrs.
      pose proof (hash_range T pid (re_shape _ _ HR)).
      pose proof (steps_range N ltac:(lia) (pid_hash T pid) i).
      destruct (reach_before_free N ltac:(lia) (fun t => full T t = true) (pid_hash T pid) s
                  (steps N (pid_hash T pid) i)) as [Hlt|]; [done|lia|done| | |..].
      * apply full_K. congruence.
      * rewrite pos_steps by lia. unfold full. rewrite Hk0. done.
      * apply (Hne (steps N (pid_hash T pid) s)); [split; [apply steps_range; lia|lia]|].
        by rewrite pos_steps by lia.
      * lia.
    + pose proof (re_sound _ _ HR i Hi ltac:(congruence)) as Hsd. rewrite Hki, E in Hsd. congruence.
  - destruct Hk as [|Hk]; [done|]. exfalso.
    pose proof (re_sound _ _ HR i Hi ltac:(congruence)) as Hsd. rewrite Hk in Hsd. congruence.
Qed.

Lemma repr_probe T m pid : repr T m ->
  returns (probe (tab_size T) T (pid_hash T pid) pid) (stop_at T pid).
Proof.
  intros HR. apply probe_spec; [apply (re_shape _ _ HR)|].
  destruct (re_free _ _ HR) as (s & Hs & H0). eauto.
Qed.

(** ** Lookup *)

Lemma pid_find_spec T m pid : repr T m -> pid <> 0 -> pid_find T pid = VOk (m !! pid).
Proof.
  intros HR Hp. unfold pid_find. pose proof (repr_probe T m pid HR) as Hs.
  destruct (probe _ _ _ _) as [i| | |]; simpl in Hs; try done. simpl.
  pose proof (stop_entry T m pid i HR Hs Hp) as He'. destruct Hs as (Hi & _).
  rewrite key_at_K by (done || apply (re_shape _ _ HR)). simpl.
  destruct (m !! pid) as [v|].
  - destruct He' as [-> <-]. destruct (Z.eqb_spec pid 0); [done|].
    by rewrite val_at_V by (done || apply (re_shape _ _ HR)).
  - by rewrite He'.
Qed.

(** ** Insertion *)

(** A table with at least two more slots than entries has a second empty slot. *)
Lemma second_free T m i : repr T m -> Z.of_nat (size m) < N - 1 ->
  exists s, 0 <= s < N /\ s <> i /\ K T s = 0.
Proof.
  intros HR Hsz. pose proof slots_pos.
  destruct (decide (Forall (fun s => s = i \/ K T s <> 0) (seqZ 0 N))) as [Hall|Hex].
  - exfalso. rewrite Forall_forall in Hall.
    pose (l := filter (fun s => s <> i) (seqZ 0 N)).
    assert (forall s, s ∈ l -> 0 <= s < N /\ K T s <> 0) as Hl.
    { intros s [Hne Hs]%list_elem_of_filter. pose proof (Hall s Hs).
      apply elem_of_seqZ in Hs. split; [lia|]. tauto. }
    assert (NoDup (K T <$> l)) as Hnd.
    { apply NoDup_fmap_2_strong; [|apply NoDup_filter, NoDup_seqZ].
      intros s s' Hs Hs' E. apply Hl in Hs as [Hs Hks], Hs' as [Hs' _].
      by apply (re_unique _ _ HR). }
    assert (list_to_set (K T <$> l) ⊆ dom m) as Hsub.
    { intros p Hp. apply elem_of_list_to_set, list_elem_of_fmap in Hp as (s & -> & Hs).
      apply Hl in Hs as [Hs Hks]. apply elem_of_dom. exists (V T s). by apply (re_sound _ _ HR). }
    apply subseteq_size in Hsub. rewrite size_list_to_set, length_fmap, size_dom in Hsub by done.
    assert (N - 1 <= Z.of_nat (length l)); [|lia].
    unfold l. clear -H. assert (forall s (n : nat),
      Z.of_nat n - 1 <= Z.of_nat (length (filter (fun x => x <> i) (seqZ s (Z.of_nat n)))) /\
      (i < s -> Z.of_nat n <= Z.of_nat (length (filter (fun x => x <> i) (seqZ s (Z.of_nat n)))))) as Hn.
    { intros s n. revert s. induction n as [|n IH]; intros s; [simpl; lia|].
      rewrite seqZ_cons by lia. replace (Z.pred (Z.of_nat (S n))) with (Z.of_nat n) by lia.
      rewrite filter_cons. destruct (IH (Z.succ s)) as [IH1 IH2].
      destruct (decide (s <> i)) as [Hne|He]; csimpl.
      - split; [lia|]. intros. specialize (IH2 ltac:(lia)). lia.
      - apply dec_stable in He. split; [|lia]. specialize (IH2 ltac:(lia)). lia. }
    destruct (Hn 0 (Z.to_nat N)) as [Hn1 _]. rewrite Z2Nat.id in Hn1 by lia. lia.
  - apply not_Forall_Exists in Hex; [|solve_decision].
    apply Exists_exists in Hex as (s & Hs & Hc). apply elem_of_seqZ in Hs.
    exists s. split; [lia|]. unfold compose in Hc.
    destruct (decide (s = i)); [tauto|]. split; [done|].
    destruct (decide (K T s = 0)); [done|tauto].
Qed.

Definition put_at (T : pidtab) (i p : Z) (v : nat) : pidtab := set_val (set_key T i p) i v.

Lemma K_put T i p v t : shape T -> 0 <= i < N -> 0 <= t < N ->
  K (put_at T i p v) t = if decide (i = t) then p else K T t.
Proof. intros HS Hi Ht. by apply (K_set_key T i p t). Qed.

Lemma V_put T i p v t : shape T -> 0 <= i < N -> 0 <= t < N ->
  V (put_at T i p v) t = if decide (i = t) then v else V T t.
Proof. intros HS Hi Ht. by apply (V_set_val (set_key T i p) i v t); [apply shape_set_key|..]. Qed.

Lemma pid_hash_put T i p v q : pid_hash (put_at T i p v) q = pid_hash T q.
Proof. done. Qed.

(** [pid_put] implements the insertion. *)
Lemma pid_put_spec T m pid v : repr T m -> pid <> 0 -> Z.of_nat (size m) < N - 1 ->
  exists T', pid_put T pid v = VOk T' /\ repr T' (<[pid := v]> m).
Proof.
  intros HR Hp Hsz. unfold pid_put. pose proof (repr_probe T m pid HR) as Hs.
  destruct (probe _ _ _ _) as [i| | |]; simpl in Hs; try done. simpl.
  exists (put_at T i pid v). split; [done|].
  pose proof (re_shape _ _ HR) as HS. destruct Hs as (Hi & Hk & Hr & Hne).
  assert (forall s, 0 <= s < N -> s <> i -> K T s <> pid) as Hother.
  { intros s Hs Hsi Hks. destruct Hk as [Hk0|Hkp].
    - pose proof (stop_entry T m pid i HR ltac:(split; auto) Hp) as He'.
      destruct (m !! pid) as [w|] eqn:E; [destruct He'; congruence|].
      pose proof (re_sound _ _ HR s Hs ltac:(congruence)). congruence.
    - apply Hsi. apply (re_unique _ _ HR); congruence. }
  assert (forall t, full T t = true -> 0 <= t < N -> full (put_at T i pid v) t = true) as Hfull.
  { intros t Ht Htr. apply full_K. rewrite K_put by done. apply full_K in Ht. by destruct (decide (i = t)). }
  constructor.
  - by apply shape_set_val, shape_set_key.
  - intros s Hs Hks. rewrite K_put, V_put in * by done. destruct (decide (i = s)) as [<-|Hsi].
    + by rewrite lookup_insert_eq.
    + rewrite lookup_insert_ne by (intros E; symmetry in E; by apply (Hother s)).
      by apply (re_sound _ _ HR).
  - intros p w Hpw. apply lookup_insert_Some in Hpw as [[<- <-]|[Hpp Hpw]].
    + split; [done|]. exists i. rewrite K_put by done. split; [done|]. by destruct (decide (i = i)).
    + destruct (re_complete _ _ HR _ _ Hpw) as (Hp0 & s & Hs & Hks). split; [done|].
      exists s. split; [done|]. rewrite K_put by done. destruct (decide (i = s)) as [<-|]; [|done].
      exfalso. destruct Hk; congruence.
  - intros s s' Hs Hs' Hks HE. rewrite !K_put in * by done.
    destruct (decide (i = s)) as [<-|Hsi], (decide (i = s')) as [<-|Hsi']; try done.
    + exfalso. by apply (Hother s'); [done|congruence|].
    + exfalso. by apply (Hother s); [done|congruence|].
    + by apply (re_unique _ _ HR).
  - intros s Hs Hks. rewrite pid_hash_put. rewrite K_put in * by done. pose proof slots_pos.
    destruct (decide (i = s)) as [<-|Hsi].
    + intros t Ht. apply Hfull; [by apply Hr|apply pos_range; lia].
    + intros t Ht. apply Hfull; [by apply (re_reach _ _ HR)|apply pos_range; lia].
  - destruct (second_free T m i HR Hsz) as (s & Hs & Hsi & Hks). exists s. split; [done|].
    rewrite K_put by done. by destruct (decide (i = s)).
Qed.

(** ** Deletion *)

Ltac ring_lia :=
  repeat match goal with
  | |- context [steps N ?i ?j] => rewrite (steps_if N i j) by (assumption || lia)
  | H : context [steps N ?i ?j] |- _ => rewrite (steps_if N i j) in H by (assumption || lia)
  end;
  repeat match goal with
  | H : context [if ?a <=? ?b then _ else _] |- _ => destruct (Z.leb_spec a b)
  | |- context [if ?a <=? ?b then _ else _] => destruct (Z.leb_spec a b)
  end; try lia.

(** The test of the source: the home of the entry at [j] is not strictly
    between the hole and [j], going round the table. *)
Lemma may_move_steps i j k : 0 <= i < N -> 0 <= j < N -> 0 <= k < N -> i <> j ->
  may_move i j k = false <-> 0 < steps N i k <= steps N i j.
Proof. intros Hi Hj Hk Hij. pose proof slots_pos. unfold may_move. ring_lia. Qed.

(** A table with a hole at [i] that probes may have to pass; [e0] is another
    empty slot. *)
Record holed (T : pidtab) (m : gmap Z nat) (i e0 : Z) : Prop := Holed {
  ho_shape : shape T;
  ho_i : 0 <= i < N;
  ho_ki : K T i = 0;
  ho_e0 : 0 <= e0 < N;
  ho_ne : e0 <> i;
  ho_ke : K T e0 = 0;
  ho_sound : forall s, 0 <= s < N -> K T s <> 0 -> m !! K T s = Some (V T s);
  ho_complete : forall p v, m !! p = Some v -> p <> 0 /\ exists s, 0 <= s < N /\ K T s = p;
  ho_unique : forall s s', 0 <= s < N -> 0 <= s' < N -> K T s <> 0 -> K T s = K T s' -> s = s';
  ho_reach : forall s, 0 <= s < N -> K T s <> 0 ->
    forall t, 0 <= t < steps N (pid_hash T (K T s)) s ->
      full T (pos N (pid_hash T (K T s)) t) = true \/ pos N (pid_hash T (K T s)) t = i;
}.

(** The entries scanned up to distance [d] from the hole stay where they are. *)
Definition scanned (T : pidtab) (i d : Z) : Prop :=
  forall a, 1 <= a <= d -> K T (pos N i a) <> 0 /\
    0 < steps N i (pid_hash T (K T (pos N i a))) <= a.

(** An empty slot right after the scanned run: the hole harms no probe. *)
Lemma holed_repr T m i e0 d : holed T m i e0 -> 0 <= d < N - 1 -> scanned T i d ->
  K T (pos N i (d + 1)) = 0 -> repr T m.
Proof.
  intros HH Hd Hsc Hend. pose proof slots_pos. destruct HH.
  constructor; try done; [|by exists i].
  intros s Hs Hks t Ht. set (hm := pid_hash T (K T s)) in *.
  destruct (ho_reach0 s Hs Hks t Ht) as [|Hi]; [done|exfalso]. fold hm in Hi.
  pose proof (hash_range T (K T s) ho_shape0) as Hhm. fold hm in Hhm.
  pose proof (steps_range N ltac:(lia) hm s). pose proof (steps_range N ltac:(lia) i s).
  assert (t = steps N hm i) as -> by (rewrite <- Hi, steps_pos; lia).
  assert (s <> i) by (intros ->; done).
  assert (steps N i s = steps N hm s - steps N hm i) as Ha by ring_lia.
  assert (0 < steps N i s) by ring_lia.
  destruct (Z.le_gt_cases (steps N i s) d) as [Hle|Hgt].
  - destruct (Hsc (steps N i s)) as [_ Hhome]; [lia|].
    rewrite pos_steps in Hhome by lia. fold hm in Hhome. ring_lia.
  - destruct (decide (steps N i s = d + 1)) as [E|Hne].
    + rewrite <- E, pos_steps in Hend by lia. done.
    + assert (pos N hm (steps N hm i + (d + 1)) = pos N i (d + 1)) as Hp.
      { rewrite <- Hi at 2. rewrite Hi. unfold pos. rewrite Z.add_assoc.
        rewrite <- (Zplus_mod_idemp_l (hm + steps N hm i)).
        change ((hm + steps N hm i) mod N) with (pos N hm (steps N hm i)). by rewrite Hi. }
      destruct (ho_reach0 s Hs Hks (steps N hm i + (d + 1))) as [Hf|Hi'].
      * fold hm. pose proof (steps_range N ltac:(lia) hm i). lia.
      * fold hm in Hf. rewrite Hp in Hf. apply full_K in Hf. done.
      * fold hm in Hi'. rewrite Hp in Hi'.
        assert (d + 1 = 0); [|lia]. apply (pos_inj N i); [lia|lia|].
        by rewrite Hi', pos_0 by lia.
Qed.

Lemma next_move_spec T m i e0 : holed T m i e0 ->
  forall fuel d, 0 <= d < steps N i e0 -> steps N i e0 - d <= Z.of_nat fuel -> scanned T i d ->
  returns (next_move fuel T i (pos N i d)) (fun r =>
    match r with
    | None => repr T m
    | Some j => 0 <= j < N /\ j <> i /\ steps N i j < steps N i e0 /\ K T j <> 0 /\
                may_move i j (pid_hash T (K T j)) = true
    end).
Proof.
  intros HH. pose proof slots_pos. pose proof HH as HH'. destruct HH'.
  pose proof (steps_range N ltac:(lia) i e0) as Hse.
  induction fuel as [|fuel IH]; intros d Hd Hf Hsc; [lia|]. simpl.
  rewrite (sh_mask _ ho_shape0), land_mask_mod, pos_succ by lia.
  pose proof (pos_range N ltac:(lia) i (d + 1)) as Hp.
  rewrite key_at_K by done. simpl.
  destruct (Z.eqb_spec (K T (pos N i (d + 1))) 0) as [E|Hne].
  - simpl. apply (holed_repr T m i e0 d); [done|lia|done|done].
  - assert (d + 1 <> steps N i e0) by (intros E; rewrite E, pos_steps in Hne by lia; done).
    assert (pos N i (d + 1) <> i) as Hpi.
    { intros E. assert (d + 1 = 0); [|lia]. apply (pos_inj N i); [lia|lia|].
      by rewrite E, pos_0 by lia. }
    destruct (may_move i (pos N i (d + 1)) (pid_hash T (K T (pos N i (d + 1))))) eqn:Em.
    + simpl. rewrite steps_pos by lia. split_ands; [lia|lia|done|lia|done|done].
    + apply IH; [lia|lia|]. intros a Ha. destruct (decide (a = d + 1)) as [->|]; [|apply Hsc; lia].
      split; [done|]. apply may_move_steps in Em; [|lia|lia|by apply hash_range|done].
      by rewrite steps_pos in Em by lia.
Qed.

(** Moving the entry at [j] into the hole moves the hole to [j]. *)
Lemma holed_move T m i e0 j : holed T m i e0 -> 0 <= j < N -> j <> i -> e0 <> j -> K T j <> 0 ->
  may_move i j (pid_hash T (K T j)) = true ->
  holed (set_key (put_at T i (K T j) (V T j)) j 0) m j e0.
Proof.
  intros HH Hj Hji Hej Hkj Hmm. pose proof slots_pos. destruct HH.
  set (T' := set_key (put_at T i (K T j) (V T j)) j 0).
  assert (HS1 : shape (put_at T i (K T j) (V T j))) by (by apply shape_set_val, shape_set_key).
  assert (forall t, 0 <= t < N ->
    K T' t = if decide (j = t) then 0 else if decide (i = t) then K T j else K T t) as HK.
  { intros t Ht. unfold T'. rewrite K_set_key by done. destruct (decide (j = t)); [done|].
    by apply K_put. }
  assert (forall t, 0 <= t < N -> V T' t = if decide (i = t) then V T j else V T t) as HV.
  { intros t Ht. unfold T'. change (V (set_key ?a _ _) t) with (V a t). by apply V_put. }
  assert (forall t, 0 <= t < N -> full T t = true \/ t = i -> full T' t = true \/ t = j) as Hfull.
  { intros t Ht Hor. destruct (decide (j = t)) as [->|]; [by right|left].
    apply full_K. rewrite HK by done. rewrite decide_False by done.
    destruct (decide (i = t)); [done|]. apply full_K. destruct Hor; [done|congruence]. }
  assert (~ (0 < steps N i (pid_hash T (K T j)) <= steps N i j)) as Hhome.
  { intros Hc. apply may_move_steps in Hc; [congruence|done|done|by apply hash_range|done]. }
  constructor; try done.
  - by apply shape_set_key.
  - rewrite HK by done. by rewrite decide_True.
  - rewrite HK by done. rewrite !decide_False by done. done.
  - intros s Hs. rewrite HK, HV by done. destruct (decide (j = s)) as [<-|]; [done|].
    destruct (decide (i = s)) as [<-|]; intros Hks; by apply ho_sound0.
  - intros p v Hp. destruct (ho_complete0 p v Hp) as (Hp0 & s & Hs & Hks). split; [done|].
    destruct (decide (s = j)) as [->|].
    + exists i. split; [done|]. rewrite HK by done. by rewrite decide_False, decide_True by done.
    + exists s. split; [done|]. rewrite HK by done. rewrite decide_False by done.
      rewrite decide_False; [done|]. intros ->. congruence.
  - intros s s' Hs Hs'. rewrite !HK by done.
    destruct (decide (j = s)), (decide (j = s')); try done; destruct (decide (i = s)), (decide (i = s'));
      intros Hks HE; try congruence; try (apply ho_unique0; congruence).
    + exfalso. apply n0. apply ho_unique0; congruence.
    + exfalso. apply n. apply ho_unique0; congruence.
  - intros s Hs. rewrite HK by done. change (pid_hash T' ?p) with (pid_hash T p).
    destruct (decide (j = s)) as [<-|Hjs]; [done|]. destruct (decide (i = s)) as [<-|His]; intros Hks t Ht.
    + apply Hfull; [apply pos_range; lia|]. apply ho_reach0; [done|done|].
      pose proof (hash_range T (K T j) ho_shape0). ring_lia.
    + apply Hfull; [apply pos_range; lia|]. by apply ho_reach0.
Qed.

Lemma set_key_twice T i p v q : set_key (put_at (set_key T i p) i q v) i q = put_at (set_key T i p) i q v.
Proof. unfold put_at, set_val, set_key. simpl. by rewrite !list_insert_insert_eq. Qed.

Lemma shift_back_spec m e0 : forall fuel T i, holed (set_key T i 0) m i e0 ->
  steps N i e0 <= Z.of_nat fuel ->
  returns (shift_back fuel T i) (fun T' => repr T' m).
Proof.
  induction fuel as [|fuel IH]; intros T i HH Hf.
  - exfalso. pose proof HH as HH'. destruct HH'. pose proof slots_pos. ring_lia.
  - simpl. pose proof HH as HH'. destruct HH'. pose proof slots_pos.
    pose proof (steps_range N ltac:(lia) i e0).
    assert (0 < steps N i e0) by ring_lia.
    pose proof (next_move_spec _ m i e0 HH (tab_size (set_key T i 0)) 0) as Hnm.
    rewrite pos_0 in Hnm by lia.
    eapply returns_bind; [apply Hnm; [lia| |intros a Ha; lia]|].
    { unfold tab_size. rewrite (sh_key _ ho_shape0). lia. }
    intros [j|]; [|done]. intros (Hj & Hji & Hlt & Hkj & Hmm).
    rewrite key_at_K, val_at_V by done. simpl.
    assert (e0 <> j) by (intros ->; done).
    apply IH; [|ring_lia].
    by apply (holed_move (set_key T i 0) m i e0 j).
Qed.

Lemma repr_holed T m pid i : repr T m -> 0 <= i < N -> K T i = pid -> pid <> 0 ->
  exists e0, holed (set_key T i 0) (delete pid m) i e0.
Proof.
  intros HR Hi Hki Hp. destruct (re_free _ _ HR) as (e0 & He0 & Hke0). exists e0.
  pose proof (re_shape _ _ HR) as HS.
  assert (e0 <> i) by (intros ->; congruence).
  assert (forall t, 0 <= t < N -> K (set_key T i 0) t = if decide (i = t) then 0 else K T t) as HK.
  { intros t Ht. by apply K_set_key. }
  constructor; try done.
  - by apply shape_set_key.
  - rewrite HK by done. by rewrite decide_True.
  - rewrite HK by done. by rewrite decide_False.
  - intros s Hs. rewrite HK by done. destruct (decide (i = s)) as [<-|]; [done|]. intros Hks.
    rewrite lookup_delete_ne; [by apply (re_sound _ _ HR)|].
    intros E. apply n. apply (re_unique _ _ HR); congruence.
  - intros p v [Hne Hpv]%lookup_delete_Some.
    destruct (re_complete _ _ HR _ _ Hpv) as (Hp0 & s & Hs & Hks). split; [done|].
    exists s. split; [done|]. rewrite HK by done. rewrite decide_False; [done|]. intros ->. congruence.
  - intros s s' Hs Hs'. rewrite !HK by done.
    destruct (decide (i = s)), (decide (i = s')); try congruence.
    by apply (re_unique _ _ HR).
  - intros s Hs. rewrite HK by done. change (pid_hash (set_key T i 0) ?p) with (pid_hash T p).
    destruct (decide (i = s)) as [<-|]; [done|]. intros Hks t Ht. pose proof slots_pos.
    destruct (decide (pos N (pid_hash T (K T s)) t = i)) as [|Hne]; [by right|left].
    apply full_K. rewrite HK by (apply pos_range; lia). rewrite decide_False by done.
    apply full_K. by apply (re_reach _ _ HR).
Qed.

(** [pid_del] implements the deletion. *)
Lemma pid_del_spec T m pid : repr T m -> pid <> 0 ->
  exists T', pid_del T pid = VOk T' /\ repr T' (delete pid m).
Proof.
  intros HR Hp. unfold pid_del. pose proof (repr_probe T m pid HR) as Hs. pose proof slots_pos.
  destruct (probe _ _ _ _) as [i| | |]; simpl in Hs; try done. simpl.
  pose proof (stop_entry T m pid i HR Hs Hp) as He'. destruct Hs as (Hi & _).
  rewrite key_at_K by (done || apply (re_shape _ _ HR)). simpl.
  destruct (m !! pid) as [v|] eqn:E.
  - destruct He' as [Hk _]. rewrite Hk. destruct (Z.eqb_spec pid 0); [done|].
    destruct (repr_holed T m pid i HR Hi Hk Hp) as (e0 & HH). apply returns_ex.
    apply (shift_back_spec _ e0); [done|]. pose proof (steps_range N ltac:(lia) i e0).
    unfold tab_size. rewrite (sh_key _ (re_shape _ _ HR)). lia.
  - rewrite He'. simpl. exists T. split; [done|]. by rewrite delete_id.
Qed.
(** No process has the id 0, and deleting it does nothing. *)
Lemma pid_del_zero T m : repr T m -> pid_del T 0 = VOk T.
Proof.
  intros HR. unfold pid_del. pose proof (repr_probe T m 0 HR) as Hs.
  destruct (probe _ _ _ _) as [i| | |]; simpl in Hs; try done. simpl. destruct Hs as (Hi & Hk & _).
  rewrite key_at_K by (done || apply (re_shape _ _ HR)). simpl. by destruct Hk as [-> | ->].
Qed.
End Table.

(** ** What the table promises *)

(** The table as [calloc] gives it. *)
Definition pid_empty (N : Z) : pidtab :=
  PidTab (replicate (Z.to_nat N) 0) (replicate (Z.to_nat N) 0%nat) (N - 1).

Lemma repr_empty e : 0 <= e -> repr e (pid_empty (2 ^ e)) ∅.
Proof.
  intros He. pose proof (slots_pos e He).
  assert (forall t, K (pid_empty (2 ^ e)) t = 0) as HK.
  { intros t. unfold K, pid_empty. simpl. rewrite nth_lookup.
    destruct (replicate _ _ !! _) eqn:E; [|done]. by apply lookup_replicate in E as [-> _]. }
  constructor.
  - constructor; simpl; rewrite ?length_replicate; done.
  - intros s _ Hs. by rewrite HK in Hs.
  - intros p v Hp. by rewrite lookup_empty in Hp.
  - intros s s' _ _ Hs. by rewrite HK in Hs.
  - intros s _ Hs. by rewrite HK in Hs.
  - exists 0. split; [lia|apply HK].
Qed.

(** C22. The pid table is a finite map. On a table of [2 ^ e] slots that holds
    the map [m], whatever the collisions: the search of [find_pid] ends with
    the value of [m], [pid_del] ends with a table for [m] without the key, and
    [pid_put] ends with a table for [m] with the new entry as long as one slot
    besides stays empty. None of the probe or shift loops reads outside the
    arrays or runs for ever. *)
Theorem pid_table_refines e T m pid v : 0 <= e -> repr e T m -> pid <> 0 ->
  pid_find T pid = VOk (m !! pid) /\
  (exists T', pid_del T pid = VOk T' /\ repr e T' (delete pid m)) /\
  (Z.of_nat (size m) < 2 ^ e - 1 ->
     exists T', pid_put T pid v = VOk T' /\ repr e T' (<[pid := v]> m)).
Proof.
  intros He HR Hp. split_ands.
  - by apply (pid_find_spec e He).
  - by apply (pid_del_spec e He).
  - intros Hsz. by apply (pid_put_spec e He).
Qed.

(** Six slots of a table of eight, several with the same home. *)
Definition demo_pids : list (Z * nat) := [(1, 0%nat); (9, 1%nat); (17, 2%nat); (2, 3%nat); (25, 4%nat)].

Definition demo_table : vres pidtab :=
  foldl (fun a '(p, v) => vbind a (fun T => pid_put T p v)) (VOk (pid_empty 8)) demo_pids.

Lemma put_all_repr e l T m : 0 <= e -> repr e T m -> Forall (fun pv => pv.1 <> 0) l ->
  Z.of_nat (size m + length l) < 2 ^ e ->
  exists T' m', foldl (fun a '(p, v) => vbind a (fun T => pid_put T p v)) (VOk T) l = VOk T' /\
    repr e T' m'.
Proof.
  intros He. revert T m. induction l as [|[p v] l IH]; intros T m HR Hl Hs; simpl; [by eauto|].
  apply Forall_cons in Hl as [Hp Hl]. simpl in *.
  destruct (pid_put_spec e He T m p v HR Hp) as (T' & -> & HR'); [lia|].
  apply (IH T' _ HR' Hl).
  assert (size (<[p:=v]> m) <= S (size m))%nat; [|lia].
  destruct (m !! p) eqn:E; [rewrite map_size_insert_Some by eauto|rewrite map_size_insert_None by done]; lia.
Qed.

Lemma pid_table_refines_witness : exists T m, demo_table = VOk T /\ repr 3 T m /\
  pid_find T 25 = VOk (m !! 25) /\
  (exists T', pid_del T 25 = VOk T' /\ repr 3 T' (delete 25 m)).
Proof.
  destruct (put_all_repr 3 demo_pids (pid_empty 8) ∅) as (T & m & HT & HR).
  - lia.
  - apply (repr_empty 3). lia.
  - unfold demo_pids. repeat constructor; discriminate.
  - reflexivity.
  - exists T, m. destruct (pid_table_refines 3 T m 25 7%nat) as (Hf & Hd & _); [lia|done|done|].
    done.
Defined.
