(* ===== verification/Verify.v ===== *)
(** * The graph verifier (ng_verify in src/ngraph.c)

    [ng_verify] decides whether an image may be loaded. It reads bytes nobody
    vouches for, so two things matter: it never reads outside the image,
    whatever the bytes are, and what it accepts is a graph the rest of pid 1
    can index without further checks. *)

From S2P Require Import Prelude PidMap Ngraph.

(** ** The checks, in the order of the source *)

Definition alignof_hdr : Z := 8.

Definition sections (h : ng_hdr) : list ng_span :=
  [ NgSpan 0 SIZEOF_HDR;
    NgSpan (off_svc h) (off_svc h + n_svc h * SIZEOF_SVC);
    NgSpan (off_rdep_off h) (off_rdep_off h + (n_svc h + 1) * 4);
    NgSpan (off_rdep_idx h) (off_rdep_idx h + n_edges h * 4);
    NgSpan (off_pol h) (off_pol h + n_svc h * SIZEOF_POL);
    NgSpan (off_blob h) (off_blob h + blob_len h) ].

(** Everything before the tables are looked at. [addr] is the address the
    image is loaded at. *)
Definition verify_header (addr : Z) (img : bytes) : vres ng_hdr :=
  (bad_if (Z.of_nat (length img) <? SIZEOF_HDR) "shorter than header" ;;;
   bad_if (negb (Z.land addr (alignof_hdr - 1) =? 0)) "image is not aligned for the header" ;;;
   vlet h := rd_hdr img in
   bad_if (negb (magic h =? NG_MAGIC)) "bad magic" ;;;
   bad_if (negb (version h =? NG_VERSION)) "version mismatch" ;;;
   bad_if (negb (total_len h =? Z.of_nat (length img))) "length mismatch" ;;;
   let n := n_svc h in
   let m := n_edges h in
   bad_if (NG_MAX_SVC <? n) "n_svc exceeds the supported maximum" ;;;
   bad_if (n <? n_roots h) "n_roots exceeds n_svc" ;;;
   bad_if (negb (reserved h =? 0)) "reserved header word is not zero" ;;;
   bad_if ((n =? 0) && negb (m =? 0)) "edges without services" ;;;
   bad_if (n * u32 (n - 1) / 2 <? m) "n_edges exceeds what a forward-ordered graph can hold" ;;;
   bad_if (negb (range_ok (off_svc h) (n * SIZEOF_SVC) (total_len h) 8))
     "service table out of bounds" ;;;
   bad_if (negb (range_ok (off_rdep_off h) ((n + 1) * 4) (total_len h) 4))
     "rdep offsets out of bounds" ;;;
   bad_if (negb (range_ok (off_rdep_idx h) (m * 4) (total_len h) 4))
     "rdep indices out of bounds" ;;;
   bad_if (negb (range_ok (off_blob h) (blob_len h) (total_len h) 1)) "blob out of bounds" ;;;
   bad_if (negb (range_ok (off_pol h) (n * SIZEOF_POL) (total_len h) 4))
     "policy table out of bounds" ;;;
   bad_if (negb (spans_disjoint (sections h))) "sections overlap" ;;;
   bad_if (negb (ng_image_crc32c img =? hdr_crc32 h)) "crc mismatch" ;;;
   VOk h)%vres.

(** The blob ends in a NUL and the offsets span the edge list. *)
Definition verify_ends (img : bytes) (h : ng_hdr) : vres unit :=
  ((if blob_len h =? 0 then VOk tt
    else vlet c := rd8 img (off_blob h + blob_len h - 1) in
         bad_if (negb (c =? 0)) "blob not NUL-terminated") ;;;
   (if n_svc h =? 0 then VOk tt
    else vlet r0 := ng_rdep_off img h 0 in
         bad_if (negb (r0 =? 0)) "rdep offsets do not start at 0") ;;;
   vlet rn := ng_rdep_off img h (n_svc h) in
   bad_if (negb (rn =? n_edges h)) "rdep offsets do not end at n_edges")%vres.

(** The dependent at position [j] of service [i]. *)
Definition verify_edge (img : bytes) (h : ng_hdr) (s : ng_svc) (i lo j : Z) : vres unit :=
  (vlet d := ng_rdep_idx img h j in
   bad_if (n_svc h <=? d) "rdep index out of range" ;;;
   bad_if (d <=? i) "edge runs backwards" ;;;
   (if lo <? j then vlet d0 := ng_rdep_idx img h (j - 1) in
                    bad_if (d <=? d0) "rdep indices are not sorted and unique"
    else VOk tt) ;;;
   vlet sd := ng_svcs img h d in
   bad_if (n_desc s <? n_desc sd + 1) "n_desc is smaller than a dependent's descendant count")%vres.

(** The fields of the service record. *)
Definition verify_fields (h : ng_hdr) (s : ng_svc) (i r0 r1 : Z) : vres unit :=
  (bad_if (n_svc h <=? unmet s) "unmet exceeds the in-degree a service can have" ;;;
   bad_if (n_svc h - 1 - i <? n_desc s) "n_desc exceeds the services that follow it" ;;;
   bad_if (n_desc s <? r1 - r0) "n_desc is smaller than the number of direct dependents" ;;;
   bad_if (negb (notify_fd s =? 0)
           && ((notify_fd s <? NG_NOTIFY_MIN) || (NG_NOTIFY_MAX <? notify_fd s)))
     "notify fd out of range" ;;;
   bad_if (negb (notify_fd s =? 0) && negb (type s =? NG_TYPE_DAEMON))
     "only a daemon can carry a notify fd" ;;;
   bad_if (NG_TYPE_TARGET <? type s) "unknown service type" ;;;
   bad_if (NG_ONFAIL_SHELL <? Z.land (flags s) NG_ONFAIL_MASK) "unknown onfail policy" ;;;
   bad_if (negb (Z.land (flags s) (Z.lnot NG_FLAG_MASK) =? 0)) "unknown flag bits are set" ;;;
   bad_if ((Z.land (flags s) NG_ONFAIL_MASK =? NG_ONFAIL_WARN) && negb (r0 =? r1))
     "onfail warn on a service that has dependents" ;;;
   bad_if (negb (Z.land (flags s) NG_FLAG_RESTART =? 0) && negb (type s =? NG_TYPE_DAEMON))
     "only a daemon can be restarted")%vres.

(** Its strings in the blob. *)
Definition verify_strings (img : bytes) (h : ng_hdr) (s : ng_svc) (i : Z) : vres unit :=
  (bad_if (blob_len h <=? name_off s) "name offset out of range" ;;;
   fits_or img (off_blob h) (blob_len h) (name_off s) NG_MAX_NAME
     "name longer than the supported maximum" ;;;
   vlet nm := cstr img (off_blob h + name_off s) in
   bad_if (match ng_name_problem nm with Some _ => true | None => false end)
     "a service name is not a usable name" ;;;
   bad_if ((i <? n_roots h) && negb (unmet s =? 0)) "root has nonzero unmet" ;;;
   bad_if ((n_roots h <=? i) && (unmet s =? 0)) "non-root has zero unmet" ;;;
   if type s =? NG_TYPE_TARGET then
     bad_if (negb (script_off s =? NG_NO_SCRIPT)) "target has a script"
   else
     bad_if (blob_len h <=? script_off s) "script offset out of range" ;;;
     fits_or img (off_blob h) (blob_len h) (script_off s) NG_MAX_SCRIPT
       "script longer than execve can carry")%vres.

Definition has_flag (f bit : Z) : bool := negb (Z.land f bit =? 0).

(** Its policy record. *)
Definition verify_policy (img : bytes) (h : ng_hdr) (s : ng_svc) (i : Z) : vres unit :=
  (vlet p := ng_pol_at img h i in
   bad_if ((NG_MAX_MS <? start_ms p) || (NG_MAX_MS <? stop_ms p))
     "policy timeout out of range" ;;;
   bad_if (NG_MAX_TRIES <? start_tries p) "policy start_tries out of range" ;;;
   bad_if (negb (Z.land (pflags p) (Z.lnot NG_PF_MASK) =? 0)) "unknown policy flag bits are set" ;;;
   bad_if (Z.land (flags s) (Z.lor NG_FLAG_INTERP NG_FLAG_DIRECT)
           =? Z.lor NG_FLAG_INTERP NG_FLAG_DIRECT)
     "a service is both interpreted and direct" ;;;
   if has_flag (flags s) NG_FLAG_INTERP then
     bad_if (type s =? NG_TYPE_TARGET) "a target has an interpreter" ;;;
     exec_problem img (off_blob h) (blob_len h) (exec_off p)
   else if has_flag (flags s) NG_FLAG_DIRECT then
     bad_if (type s =? NG_TYPE_TARGET) "a target has a direct argv" ;;;
     direct_problem img (off_blob h) (blob_len h) (exec_off p)
   else
     bad_if (negb (exec_off p =? NG_NO_EXEC))
       "exec offset set without the interpreter or direct flag")%vres.

(** One iteration of the loop over the services. *)
Definition verify_service (img : bytes) (h : ng_hdr) (i : Z) : vres unit :=
  (vlet s := ng_svcs img h i in
   vlet r0 := ng_rdep_off img h i in
   vlet r1 := ng_rdep_off img h (i + 1) in
   bad_if ((r1 <? r0) || (n_edges h <? r1)) "rdep offsets not monotonic" ;;;
   vfor (Z.to_nat (r1 - r0)) r0 (verify_edge img h s i r0) ;;;
   verify_fields h s i r0 r1 ;;;
   verify_strings img h s i ;;;
   verify_policy img h s i)%vres.

(** [scratch[ridx[k]]++] *)
Definition count_edge (img : bytes) (h : ng_hdr) (scratch : list Z) (k : Z) : vres (list Z) :=
  (vlet d := ng_rdep_idx img h k in
   vlet c := of_opt (scratch !! Z.to_nat d) in
   VOk (<[Z.to_nat d := u32 (c + 1)]> scratch))%vres.

Definition check_indegree (img : bytes) (h : ng_hdr) (scratch : list Z) (i : Z) : vres unit :=
  (vlet s := ng_svcs img h i in
   vlet c := of_opt (scratch !! Z.to_nat i) in
   bad_if (negb (unmet s =? c)) "unmet does not match the in-degree of the edge list")%vres.

(** [while(hsize < 2 * n) hsize *= 2], from 64; eight doublings pass 2 * NG_MAX_SVC. *)
Fixpoint hash_size (fuel : nat) (hsize n : Z) : Z :=
  match fuel with
  | O => hsize
  | S fuel' => if hsize <? 2 * n then hash_size fuel' (hsize * 2) n else hsize
  end.

(** The probe for the name of service [i], which is entered at the first
    empty slot; a slot holds 1 + the index of a service. *)
Fixpoint name_probe (fuel : nat) (img : bytes) (h : ng_hdr) (tab : list Z) (mask i at_ : Z)
    (nm : bytes) : vres (list Z) :=
  match fuel with
  | O => VDiverge
  | S fuel' =>
      (vlet slot := of_opt (tab !! Z.to_nat at_) in
       if slot =? 0 then VOk (<[Z.to_nat at_ := i + 1]> tab) else
       vlet s := ng_svcs img h (slot - 1) in
       vlet other := cstr img (off_blob h + name_off s) in
       if bytes_eqb other nm then VBad "two services share a name" else
       name_probe fuel' img h tab mask i (Z.land (at_ + 1) mask) nm)%vres
  end.

Definition check_name (img : bytes) (h : ng_hdr) (hsize : Z) (tab : list Z) (i : Z)
    : vres (list Z) :=
  (vlet s := ng_svcs img h i in
   vlet nm := cstr img (off_blob h + name_off s) in
   name_probe (Z.to_nat hsize) img h tab (hsize - 1) i (Z.land (name_hash nm) (hsize - 1)) nm)%vres.

(** The cross checks, which need a scratch array; [mem] is whether calloc
    returned one. *)
Definition verify_cross (mem : bool) (img : bytes) (h : ng_hdr) : vres unit :=
  (let n := n_svc h in
   let hsize := hash_size 14 64 n in
   if n =? 0 then VOk tt else
   bad_if (negb mem) "out of memory verifying the graph" ;;;
   vlet scratch := vfold (Z.to_nat (n_edges h)) 0 (replicate (Z.to_nat n) 0)
                     (count_edge img h) in
   vfor (Z.to_nat n) 0 (check_indegree img h scratch) ;;;
   vlet _ := vfold (Z.to_nat n) 0 (replicate (Z.to_nat hsize) 0) (check_name img h hsize) in
   VOk tt)%vres.

Definition ng_verify (mem : bool) (addr : Z) (img : bytes) : vres unit :=
  (vlet h := verify_header addr img in
   verify_ends img h ;;;
   vfor (Z.to_nat (n_svc h)) 0 (verify_service img h) ;;;
   verify_cross mem img h)%vres.

(** ** Memory safety: no read outside the image *)

Section Safety.
Context (img : bytes) (Himg : Forall is_byte img).

Abbreviation len := (Z.of_nat (length img)).

Lemma safe_rd8 off : 0 <= off < len -> safe (rd8 img off) (fun v => 0 <= v < 256).
Proof.
  intros H. unfold rd8. destruct (Z.ltb_spec off 0); [lia|].
  destruct (lookup_lt_is_Some_2 img (Z.to_nat off)) as [b Hb]; [lia|].
  apply (safe_of_opt _ b); [done|]. by apply (Forall_lookup_1 _ _ _ _ Himg Hb).
Qed.

Lemma safe_rd16 off : 0 <= off -> off + 2 <= len -> safe (rd16 img off) (fun v => 0 <= v < 65536).
Proof.
  intros H1 H2. unfold rd16.
  eapply safe_bind; [apply safe_rd8; lia|cbv beta; intros a Ha].
  eapply safe_bind; [apply safe_rd8; lia|cbv beta; intros b Hb]. simpl in *. lia.
Qed.

Lemma safe_rd32 off :
  0 <= off -> off + 4 <= len -> safe (rd32 img off) (fun v => 0 <= v < 4294967296).
Proof.
  intros H1 H2. unfold rd32.
  eapply safe_bind; [apply safe_rd16; lia|cbv beta; intros a Ha].
  eapply safe_bind; [apply safe_rd16; lia|cbv beta; intros b Hb]. simpl in *. lia.
Qed.

Lemma safe_rd64 off : 0 <= off -> off + 8 <= len -> safe (rd64 img off) (fun v => 0 <= v).
Proof.
  intros H1 H2. unfold rd64.
  eapply safe_bind; [apply safe_rd32; lia|cbv beta; intros a Ha].
  eapply safe_bind; [apply safe_rd32; lia|cbv beta; intros b Hb]. simpl in *. lia.
Qed.

(** What the header checks establish. *)
Record hdr_ok (h : ng_hdr) : Prop := HdrOk {
  ho_len : 64 <= len < 4294967296;
  ho_n : 0 <= n_svc h <= NG_MAX_SVC;
  ho_roots : 0 <= n_roots h <= n_svc h;
  ho_m : 0 <= n_edges h;
  ho_m_max : n_edges h <= n_svc h * u32 (n_svc h - 1) / 2;
  ho_svc : 0 <= off_svc h /\ off_svc h + n_svc h * 16 <= len;
  ho_roff : 0 <= off_rdep_off h /\ off_rdep_off h + (n_svc h + 1) * 4 <= len;
  ho_ridx : 0 <= off_rdep_idx h /\ off_rdep_idx h + n_edges h * 4 <= len;
  ho_blob : 0 <= off_blob h /\ 0 <= blob_len h /\ off_blob h + blob_len h <= len;
  ho_pol : 0 <= off_pol h /\ off_pol h + n_svc h * 16 <= len;
}.

Lemma rd_hdr_nonneg : 64 <= len ->
  safe (rd_hdr img) (fun h => 0 <= n_svc h /\ 0 <= n_roots h /\ 0 <= n_edges h /\ 0 <= blob_len h /\
    0 <= off_svc h /\ 0 <= off_rdep_off h /\ 0 <= off_rdep_idx h /\ 0 <= off_blob h /\
    0 <= off_pol h /\ 0 <= total_len h < 4294967296).
Proof.
  intros Hlen. unfold rd_hdr.
  repeat (eapply safe_bind; [first [apply safe_rd32; lia|apply safe_rd64; lia]|cbv beta; intros ? ?]).
  simpl in *. lia.
Qed.

Lemma range_ok_true off nb total align :
  range_ok off nb total align = true -> off + nb <= total.
Proof. unfold range_ok. destruct (negb _); [done|]. lia. Qed.

Ltac vguard :=
  match goal with
  | |- safe (vbind (bad_if ?c _) _) _ =>
      apply (safe_bind _ _ (fun _ => c = false)); [by apply safe_bad_if|cbv beta; intros [] ?]
  end.

Lemma verify_header_safe addr : safe (verify_header addr img) hdr_ok.
Proof.
  unfold verify_header.
  do 2 vguard. unfold SIZEOF_HDR in *. eapply safe_bind; [apply rd_hdr_nonneg; lia|]; cbv beta; intros h Hh.
  repeat vguard. cbn [safe].
  repeat match goal with
  | H : negb (range_ok _ _ _ _) = false |- _ => apply negb_false_iff, range_ok_true in H
  end.
  unfold SIZEOF_HDR, SIZEOF_SVC, SIZEOF_POL in *.
  constructor; lia.
Qed.

Lemma safe_cstr_of l k :
  (k < length l)%nat -> l !! k = Some 0 ->
  safe (cstr_of l) (fun s => (length s <= k)%nat).
Proof.
  revert k; induction l as [|b l IH]; intros [|k] Hk H0; simplify_eq/=; [lia|].
  destruct (b =? 0); simpl; [lia|].
  eapply safe_bind; [apply (IH k); [lia|done]|]. simpl. lia.
Qed.

(** A NUL at or after [pos] ends the string before the image does. *)
Lemma safe_cstr pos k :
  0 <= pos -> pos <= k < len -> img !! Z.to_nat k = Some 0 ->
  safe (cstr img pos) (fun s => Z.of_nat (length s) <= k - pos).
Proof.
  intros Hp Hk H0. unfold cstr. destruct (Z.ltb_spec pos 0); [lia|].
  eapply safe_mono; [apply (safe_cstr_of _ (Z.to_nat (k - pos)))|].
  - rewrite length_drop. lia.
  - rewrite lookup_drop. rewrite <- H0. f_equal. lia.
  - simpl. lia.
Qed.

Lemma safe_mem_chr l c n (P : bool -> Prop) :
  (n <= length l)%nat -> P false ->
  (forall k, (k < n)%nat -> l !! k = Some c -> P true) -> safe (mem_chr l c n) P.
Proof.
  revert l; induction n as [|n IH]; intros l Hn HF HT; simpl; [done|].
  destruct l as [|b l]; simpl in *; [lia|].
  destruct (Z.eqb_spec b c) as [->|]; [apply (HT 0%nat); [lia|]; reflexivity|].
  apply IH; [lia|done|]; cbv beta; intros k Hk. apply (HT (S k)). lia.
Qed.

Context (h : ng_hdr) (Hh : hdr_ok h).

(** [str_fits] reads inside the blob; when it answers yes there is a NUL in the blob. *)
Lemma safe_str_fits off cap : 0 <= off -> 0 <= cap ->
  safe (str_fits img (off_blob h) (blob_len h) off cap)
    (fun b => b = true -> exists k, off <= k < blob_len h /\ k <= off + cap /\
                                  img !! Z.to_nat (off_blob h + k) = Some 0).
Proof.
  intros Ho Hc. destruct Hh. unfold str_fits, memchr.
  destruct (Z.leb_spec (blob_len h) off); [done|].
  destruct (Z.ltb_spec (off_blob h + off) 0); [lia|].
  apply safe_mem_chr.
  - rewrite length_drop. destruct (Z.ltb_spec (cap + 1) (blob_len h - off)); lia.
  - done.
  - intros k Hk Hl _. rewrite lookup_drop in Hl. exists (off + Z.of_nat k).
    replace (Z.to_nat (off_blob h + (off + Z.of_nat k)))
      with (Z.to_nat (off_blob h + off) + k)%nat by lia.
    split; [|split; [|done]];
      destruct (Z.ltb_spec (cap + 1) (blob_len h - off)); lia.
Qed.

Lemma safe_fits_or off cap why : 0 <= off -> 0 <= cap ->
  safe (fits_or img (off_blob h) (blob_len h) off cap why)
    (fun _ => exists k, off <= k < blob_len h /\ k <= off + cap /\
                        img !! Z.to_nat (off_blob h + k) = Some 0).
Proof.
  intros Ho Hc. unfold fits_or. eapply safe_bind; [by apply safe_str_fits|].
  intros b Hb. apply safe_bad_if. intros Hn. apply Hb. by destruct b.
Qed.

Lemma safe_blob_byte off :
  0 <= off < blob_len h -> safe (rd8 img (off_blob h + off)) (fun v => 0 <= v < 256).
Proof. intros H. destruct Hh. apply safe_rd8. lia. Qed.

(** A string known to end in the blob. *)
Lemma safe_blob_strlen off k :
  0 <= off -> off <= k < blob_len h -> img !! Z.to_nat (off_blob h + k) = Some 0 ->
  safe (strlen img (off_blob h + off)) (fun n => 0 <= n <= k - off).
Proof.
  intros Ho Hk H0. destruct Hh. unfold strlen.
  eapply safe_bind; [apply (safe_cstr _ (off_blob h + k)); [lia|lia|done]|].
  intros s Hs. simpl in *. lia.
Qed.

Lemma safe_exec_list fuel off args :
  0 <= off < blob_len h -> 17 - Z.of_nat fuel <= args <= 16 -> 0 <= args ->
  safe (exec_list fuel img (off_blob h) (blob_len h) off args)
    (fun '(off', args') => off <= off' < blob_len h /\ args <= args' <= 16).
Proof.
  revert off args; induction fuel as [|fuel IH]; intros off args Ho Hf Ha; simpl.
  all: eapply safe_bind; [by apply safe_blob_byte|]; intros c Hc.
  all: destruct (c =? 0); [simpl; lia|].
  1: lia.
  vguard. eapply safe_bind; [apply safe_fits_or; unfold NG_MAX_EXEC_ARG; lia|].
  intros [] (k & Hk1 & Hk2 & Hk0).
  eapply safe_bind; [by apply (safe_blob_strlen _ k); [lia|..]|]; cbv beta; intros n Hn.
  vguard. unfold NG_MAX_EXEC_ARGS in *.
  eapply safe_mono; [apply IH; lia|]; cbv beta; intros [off' args']. lia.
Qed.

Lemma safe_exec_problem off : 0 <= off ->
  safe (exec_problem img (off_blob h) (blob_len h) off) (fun _ => True).
Proof.
  intros Ho. unfold exec_problem. vguard.
  eapply safe_bind; [apply safe_blob_byte; lia|]; cbv beta; intros c Hc. vguard.
  eapply safe_bind; [apply safe_fits_or; unfold NG_MAX_INTERP; lia|]; intros [] _.
  eapply safe_bind; [apply safe_exec_list; unfold exec_fuel; lia|]; cbv beta; intros [off1 args1] [H1 H2].
  vguard. eapply safe_bind; [apply safe_exec_list; unfold exec_fuel; lia|]. by intros [].
Qed.

Lemma safe_direct_args fuel off args k :
  0 <= off -> off <= k < blob_len h -> img !! Z.to_nat (off_blob h + k) = Some 0 ->
  18 - Z.of_nat fuel <= args <= 16 ->
  safe (direct_args fuel img (off_blob h) (blob_len h) off args) (fun _ => True).
Proof.
  revert off args k; induction fuel as [|fuel IH]; intros off args k Ho Hk H0 Hf; simpl; [lia|].
  eapply safe_bind; [by apply (safe_blob_strlen _ k)|]; cbv beta; intros n Hn.
  vguard. eapply safe_bind; [apply safe_blob_byte; lia|]; cbv beta; intros c Hc.
  destruct (c =? 0); [done|]. vguard.
  eapply safe_bind; [apply safe_fits_or; unfold NG_MAX_EXEC_ARG; lia|].
  intros [] (k' & Hk1 & Hk2 & Hk0). unfold NG_MAX_EXEC_ARGS in *.
  apply (IH _ _ k'); [lia|lia|done|lia].
Qed.

Lemma safe_direct_problem off : 0 <= off ->
  safe (direct_problem img (off_blob h) (blob_len h) off) (fun _ => True).
Proof.
  intros Ho. unfold direct_problem. vguard.
  eapply safe_bind; [apply safe_blob_byte; lia|]; cbv beta; intros c Hc. vguard.
  eapply safe_bind; [apply safe_fits_or; unfold NG_MAX_INTERP; lia|].
  intros [] (k & Hk1 & Hk2 & Hk0). destruct Hh.
  eapply safe_bind; [by apply (safe_cstr _ (off_blob h + k)); [lia|lia|]|]; cbv beta; intros s _.
  vguard. apply (safe_direct_args _ _ _ k); unfold exec_fuel; [lia|lia|done|lia].
Qed.

(** ** The tables *)

Lemma safe_svcs i : 0 <= i < n_svc h ->
  safe (ng_svcs img h i) (fun s => (0 <= unmet s /\ 0 <= name_off s /\ 0 <= script_off s) /\
    0 <= type s /\ 0 <= notify_fd s).
Proof.
  intros Hi. destruct Hh. unfold ng_svcs, SIZEOF_SVC.
  eapply safe_bind; [apply safe_rd16; lia|cbv beta; intros u Hu].
  do 2 (eapply safe_bind; [apply safe_rd8; lia|cbv beta; intros ? ?]).
  do 2 (eapply safe_bind; [apply safe_rd16; lia|cbv beta; intros ? ?]).
  eapply safe_bind; [apply safe_rd32; lia|cbv beta; intros so Hso].
  eapply safe_bind; [apply safe_rd32; lia|cbv beta; intros no Hno]. simpl in *. lia.
Qed.

Lemma safe_pol i : 0 <= i < n_svc h -> safe (ng_pol_at img h i) (fun p => 0 <= exec_off p).
Proof.
  intros Hi. destruct Hh. unfold ng_pol_at, SIZEOF_POL.
  do 2 (eapply safe_bind; [apply safe_rd32; lia|cbv beta; intros ? _]).
  eapply safe_bind; [apply safe_rd16; lia|cbv beta; intros ? _].
  do 2 (eapply safe_bind; [apply safe_rd8; lia|cbv beta; intros ? _]).
  eapply safe_bind; [apply safe_rd32; lia|cbv beta; intros e He]. simpl in *. lia.
Qed.

Lemma safe_roff i : 0 <= i <= n_svc h -> safe (ng_rdep_off img h i) (fun v => 0 <= v).
Proof.
  intros Hi. destruct Hh. unfold ng_rdep_off.
  eapply safe_mono; [apply safe_rd32; lia|]. simpl. lia.
Qed.

Lemma safe_ridx k : 0 <= k < n_edges h -> safe (ng_rdep_idx img h k) (fun v => 0 <= v).
Proof.
  intros Hk. destruct Hh. unfold ng_rdep_idx.
  eapply safe_mono; [apply safe_rd32; lia|]. simpl. lia.
Qed.

Lemma verify_ends_safe : safe (verify_ends img h) (fun _ => True).
Proof.
  destruct Hh. unfold verify_ends. eapply (safe_bind _ _ (fun _ => True)).
  - destruct (Z.eqb_spec (blob_len h) 0); [done|].
    replace (off_blob h + blob_len h - 1) with (off_blob h + (blob_len h - 1)) by lia.
    eapply safe_bind; [apply safe_blob_byte; lia|]; cbv beta; intros c _. by apply safe_bad_if.
  - intros [] _. eapply (safe_bind _ _ (fun _ => True)).
    + destruct (Z.eqb_spec (n_svc h) 0); [done|].
      eapply safe_bind; [apply safe_roff; lia|]; cbv beta; intros c _. by apply safe_bad_if.
    + intros [] _. eapply safe_bind; [apply safe_roff; lia|]; cbv beta; intros c _. by apply safe_bad_if.
Qed.

Lemma verify_edge_safe s i lo j :
  0 <= lo <= j -> j < n_edges h -> safe (verify_edge img h s i lo j) (fun _ => True).
Proof.
  intros Hlo Hj. unfold verify_edge.
  eapply safe_bind; [apply safe_ridx; lia|]; cbv beta; intros d Hd. do 2 vguard.
  eapply (safe_bind _ _ (fun _ => True)).
  - destruct (Z.ltb_spec lo j); [|done].
    eapply safe_bind; [apply safe_ridx; lia|]; cbv beta; intros d0 _. by apply safe_bad_if.
  - intros [] _. eapply safe_bind; [apply safe_svcs; lia|]; cbv beta; intros sd _. by apply safe_bad_if.
Qed.

Lemma verify_fields_safe s i r0 r1 : safe (verify_fields h s i r0 r1) (fun _ => True).
Proof. unfold verify_fields. repeat vguard. by apply safe_bad_if. Qed.

Lemma verify_strings_safe s i : 0 <= name_off s -> 0 <= script_off s ->
  safe (verify_strings img h s i) (fun _ => True).
Proof.
  intros Hn Hs. unfold verify_strings. vguard.
  eapply safe_bind; [apply safe_fits_or; unfold NG_MAX_NAME; lia|].
  intros [] (k & Hk1 & Hk2 & Hk0). pose proof Hh as Hh'. destruct Hh'.
  eapply safe_bind; [by apply (safe_cstr _ (off_blob h + k)); [lia|lia|]|]; cbv beta; intros nm _.
  do 3 vguard. destruct (type s =? NG_TYPE_TARGET); [by apply safe_bad_if|].
  vguard. eapply safe_mono; [apply safe_fits_or; unfold NG_MAX_SCRIPT; lia|done].
Qed.

Lemma verify_policy_safe s i : 0 <= i < n_svc h ->
  safe (verify_policy img h s i) (fun _ => True).
Proof.
  intros Hi. unfold verify_policy.
  eapply safe_bind; [by apply safe_pol|]; cbv beta; intros p Hp. do 4 vguard.
  destruct (has_flag _ NG_FLAG_INTERP); [vguard; by apply safe_exec_problem|].
  destruct (has_flag _ NG_FLAG_DIRECT); [vguard; by apply safe_direct_problem|].
  by apply safe_bad_if.
Qed.

Lemma verify_service_safe i : 0 <= i < n_svc h ->
  safe (verify_service img h i) (fun _ => True).
Proof.
  intros Hi. unfold verify_service.
  eapply safe_bind; [by apply safe_svcs|]; cbv beta; intros s ((Hu & Hn & Hs) & _).
  eapply safe_bind; [apply safe_roff; lia|]; cbv beta; intros r0 Hr0.
  eapply safe_bind; [apply safe_roff; lia|]; cbv beta; intros r1 Hr1. vguard.
  eapply safe_bind; [apply safe_vfor; intros k Hk _; apply verify_edge_safe; lia|]; intros [] _.
  eapply safe_bind; [apply verify_fields_safe|]; intros [] _.
  eapply safe_bind; [by apply verify_strings_safe|]; intros [] _. by apply verify_policy_safe.
Qed.
End Safety.

(** ** What an accepted service record is *)

Section Accepted.
Context (img : bytes) (Himg : Forall is_byte img) (h : ng_hdr) (Hh : hdr_ok img h).

Record edge_ok (s : ng_svc) (i lo j : Z) : Prop := EdgeOk {
  eo_d : exists d, ng_rdep_idx img h j = VOk d /\ i < d < n_svc h /\
    (lo < j -> exists d0, ng_rdep_idx img h (j - 1) = VOk d0 /\ d0 < d) /\
    exists sd, ng_svcs img h d = VOk sd /\ n_desc sd < n_desc s;
}.

Lemma verify_edge_ok s i lo j :
  verify_edge img h s i lo j = VOk tt -> edge_ok s i lo j.
Proof.
  unfold verify_edge. intros H. vok_inv. constructor. eexists. split; [done|]. split; [lia|].
  split; [|eexists; split; [done|lia]]. intros Hlt.
  destruct (Z.ltb_spec lo j); [|lia]. vok_inv. eexists. split; [done|lia].
Qed.

Record service_ok (i : Z) : Prop := ServiceOk {
  so_all : exists s r0 r1 p nm,
    ng_svcs img h i = VOk s /\ ng_rdep_off img h i = VOk r0 /\ ng_rdep_off img h (i + 1) = VOk r1 /\
    r0 <= r1 <= n_edges h /\ (forall j, r0 <= j < r1 -> edge_ok s i r0 j) /\
    verify_fields h s i r0 r1 = VOk tt /\ verify_strings img h s i = VOk tt /\
    verify_policy img h s i = VOk tt /\ ng_pol_at img h i = VOk p /\
    cstr img (off_blob h + name_off s) = VOk nm /\ ng_name_problem nm = None;
}.

Lemma verify_service_ok i : verify_service img h i = VOk tt -> service_ok i.
Proof.
  unfold verify_service. intros H. vok_inv. constructor.
  pose proof Hv5 as Hs. unfold verify_strings in Hs. vok_inv.
  pose proof H as Hp. unfold verify_policy in Hp. vok_inv.
  match goal with H1 : cstr _ _ = VOk ?nm |- _ => rename nm into name; rename H1 into Hname end.
  do 4 eexists. exists name. split_ands; try done; try lia.
  - intros j Hj. apply verify_edge_ok.
    match goal with H1 : vfor _ _ _ = VOk tt |- _ => apply vfor_ok with (k := j) in H1; [done|lia] end.
  - by destruct (ng_name_problem name).
Qed.

(** All services at once, as the loop of [ng_verify] leaves them. *)
Record loop_ok : Prop := LoopOk {
  lo_svc : forall i, 0 <= i < n_svc h -> service_ok i;
  lo_start : 0 < n_svc h -> ng_rdep_off img h 0 = VOk 0;
  lo_end : ng_rdep_off img h (n_svc h) = VOk (n_edges h);
}.

Lemma verify_loop_ok :
  verify_ends img h = VOk tt ->
  vfor (Z.to_nat (n_svc h)) 0 (verify_service img h) = VOk tt -> loop_ok.
Proof.
  intros He Hl. pose proof Hh as Hh'. destruct Hh'. unfold verify_ends in He. vok_inv.
  constructor.
  - intros i Hi. apply verify_service_ok.
    apply vfor_ok with (k := i) in Hl; [done|lia].
  - intros Hn. destruct (Z.eqb_spec (n_svc h) 0); [lia|]. vok_inv. rewrite Hv2. f_equal. lia.
  - match goal with H1 : ng_rdep_off _ _ (n_svc h) = VOk ?a |- _ => rewrite H1; f_equal; lia end.
Qed.

(** Every position of the edge list belongs to one service. *)
Lemma edge_owner (HL : loop_ok) k : 0 <= k < n_edges h ->
  exists i r0 r1, 0 <= i < n_svc h /\ ng_rdep_off img h i = VOk r0 /\
    ng_rdep_off img h (i + 1) = VOk r1 /\ r0 <= k < r1.
Proof.
  intros Hk. destruct HL as [Hs H0 Hend].
  assert (forall (n : nat) v, Z.of_nat n <= n_svc h -> ng_rdep_off img h (Z.of_nat n) = VOk v -> k < v ->
    exists i r0 r1, 0 <= i < Z.of_nat n /\ ng_rdep_off img h i = VOk r0 /\
      ng_rdep_off img h (i + 1) = VOk r1 /\ r0 <= k < r1) as Hind.
  { induction n as [|n IH]; intros v Hn Hv Hlt.
    - change (Z.of_nat 0) with 0 in *. destruct (decide (n_svc h = 0)) as [E|].
      + rewrite E, Hv in Hend. injection Hend as ->.
        pose proof (ho_m_max _ _ Hh) as Hm. rewrite E, Z.mul_0_l in Hm.
        change (0 / 2) with 0 in Hm. lia.
      + rewrite H0 in Hv by lia. injection Hv as <-. lia.
    - destruct (Hs (Z.of_nat n)) as [(s & r0 & r1 & p & nm & E1 & E2 & E3 & E4 & _)]; [lia|].
      replace (Z.of_nat n + 1) with (Z.of_nat (S n)) in E3 by lia.
      rewrite Hv in E3. injection E3 as ->.
      destruct (decide (k < r0)) as [Hlt'|].
      + destruct (IH r0) as (i & a & b & Hi & Ha); [lia|done|lia|].
        exists i, a, b. split; [lia|done].
      + exists (Z.of_nat n), r0, r1. replace (Z.of_nat n + 1) with (Z.of_nat (S n)) by lia.
        split; [lia|]. split; [done|]. split; [done|lia]. }
  destruct (Hind (Z.to_nat (n_svc h)) (n_edges h)) as (i & r0 & r1 & Hi & Hr).
  - destruct Hh; lia.
  - destruct Hh. by rewrite Z2Nat.id by lia.
  - lia.
  - exists i, r0, r1. destruct Hh. split; [lia|done].
Qed.

Lemma edge_target (HL : loop_ok) k : 0 <= k < n_edges h ->
  exists i d, 0 <= i < d /\ d < n_svc h /\ ng_rdep_idx img h k = VOk d.
Proof.
  intros Hk. destruct (edge_owner HL k Hk) as (i & r0 & r1 & Hi & E0 & E1 & Hr).
  destruct (lo_svc HL i Hi) as [(s & r0' & r1' & p & nm & _ & E0' & E1' & _ & He & _)].
  rewrite E0 in E0'. rewrite E1 in E1'. simplify_eq.
  destruct (He k Hr) as [(d & Hd & Hlt & _)]. exists i, d. split_ands; [lia..|done].
Qed.

Lemma count_edges_safe (HL : loop_ok) :
  safe (vfold (Z.to_nat (n_edges h)) 0 (replicate (Z.to_nat (n_svc h)) 0) (count_edge img h))
    (fun scratch => length scratch = Z.to_nat (n_svc h)).
Proof.
  apply (safe_vfold (fun _ sc => length sc = Z.to_nat (n_svc h))).
  - apply length_replicate.
  - intros k sc Hk Hlen. destruct (edge_target HL k) as (i & d & Hi & Hd & E); [lia|].
    unfold count_edge. rewrite E. simpl.
    destruct (lookup_lt_is_Some_2 sc (Z.to_nat d)) as [c Hc]; [lia|]. rewrite Hc. simpl.
    by rewrite length_insert.
Qed.

(** ** The name table *)

Definition svc_name (i : Z) : bytes :=
  match ng_name_at img h i with VOk nm => nm | _ => [] end.

Lemma svc_name_ok (HL : loop_ok) i : 0 <= i < n_svc h ->
  exists s, ng_svcs img h i = VOk s /\ cstr img (off_blob h + name_off s) = VOk (svc_name i) /\
            ng_name_problem (svc_name i) = None.
Proof.
  intros Hi. destruct (lo_svc HL i Hi) as [(s & r0 & r1 & p & nm & E1 & _ & _ & _ & _ & _ & _ & _ & _ & E2 & E3)].
  exists s. unfold svc_name, ng_name_at. rewrite E1. simpl. by rewrite E2.
Qed.

Context (k : Z) (Hk : 0 <= k).
Abbreviation N := (2 ^ k).
Context (HNn : n_svc h < N).

Definition slot_full (tab : list Z) (j : Z) : bool :=
  match tab !! Z.to_nat j with Some s => negb (s =? 0) | None => false end.

Definition home (i : Z) : Z := Z.land (name_hash (svc_name i)) (N - 1).

Record tab_inv (i : Z) (tab : list Z) : Prop := TabInv {
  ti_len : length tab = Z.to_nat N;
  ti_slot : forall j s, tab !! j = Some s -> 0 <= s <= i;
  ti_cnt : cnt (fun s => negb (s =? 0)) tab = i;
  ti_reach : forall q, 0 <= q < i -> exists j, 0 <= j < N /\ tab !! Z.to_nat j = Some (q + 1) /\
                reach N (fun t => slot_full tab t = true) (home q) j;
  ti_distinct : forall p q, 0 <= p < q -> q < i -> svc_name p <> svc_name q;
}.

Lemma N_pos : 0 < N.
Proof. by apply Z.pow_pos_nonneg. Qed.

Lemma home_range i : 0 <= home i < N.
Proof. unfold home. rewrite land_mask_mod by done. apply Z.mod_pos_bound, N_pos. Qed.

Lemma tab_free i tab : tab_inv i tab -> i < N -> exists j, 0 <= j < N /\ slot_full tab j = false.
Proof.
  intros HI Hi. pose proof N_pos.
  destruct (decide (Forall (fun s => negb (s =? 0) = true) tab)) as [Hall|Hex].
  - exfalso. assert (cnt (fun s => negb (s =? 0)) tab = Z.of_nat (length tab)) as Hc.
    { clear -Hall. induction Hall as [|s l Hs Hl IH]; simpl; [done|]. rewrite Hs, IH. simpl. lia. }
    rewrite (ti_cnt _ _ HI), (ti_len _ _ HI) in Hc. lia.
  - apply not_Forall_Exists in Hex; [|solve_decision].
    apply Exists_exists in Hex as (s & Hin & Hs). apply list_elem_of_lookup in Hin as [j Hj].
    pose proof (lookup_lt_Some _ _ _ Hj) as Hlt. rewrite (ti_len _ _ HI) in Hlt.
    exists (Z.of_nat j). split; [lia|]. unfold slot_full. rewrite Nat2Z.id, Hj.
    apply not_true_is_false. exact Hs.
Qed.

(** Every name with the same home that is already in the table lies before the
    first empty slot of the probe. *)
Lemma tab_probe_hit i tab q tstar :
  tab_inv i tab -> 0 <= q < i -> 0 <= tstar < N ->
  slot_full tab (pos N (home q) tstar) = false ->
  exists t, 0 <= t < tstar /\ tab !! Z.to_nat (pos N (home q) t) = Some (q + 1).
Proof.
  intros HI Hq Ht Hf. destruct (ti_reach _ _ HI q Hq) as (j & Hj & Hjq & Hr).
  pose proof N_pos. exists (steps N (home q) j). rewrite pos_steps by lia. split; [|done].
  pose proof (steps_range N ltac:(lia) (home q) j).
  destruct (reach_before_free N ltac:(lia) (fun t => slot_full tab t = true) (home q) j tstar);
    [lia|lia|done| |by rewrite Hf|lia|lia].
  unfold slot_full. rewrite Hjq. destruct (Z.eqb_spec (q + 1) 0); [lia|done].
Qed.

Lemma name_probe_safe (HL : loop_ok) i tab nm hm tstar : tab_inv i tab -> 0 <= i < n_svc h ->
  0 <= tstar < N -> slot_full tab (pos N hm tstar) = false ->
  (forall t, 0 <= t < tstar -> slot_full tab (pos N hm t) = true) ->
  forall fuel t, 0 <= t <= tstar -> tstar - t < Z.of_nat fuel ->
  safe (name_probe fuel img h tab (N - 1) i (pos N hm t) nm)
    (fun tab' => tab' = <[Z.to_nat (pos N hm tstar) := i + 1]> tab /\
       forall t', t <= t' < tstar -> forall s, tab !! Z.to_nat (pos N hm t') = Some s ->
         svc_name (s - 1) <> nm).
Proof.
  intros HI Hi Hts Hfree Hfull. pose proof N_pos.
  induction fuel as [|fuel IH]; intros t Ht Hfu; [lia|]. simpl.
  pose proof (pos_range N ltac:(lia) hm t) as Hp.
  destruct (lookup_lt_is_Some_2 tab (Z.to_nat (pos N hm t))) as [s Hs];
    [rewrite (ti_len _ _ HI); lia|].
  rewrite Hs. simpl. destruct (decide (t = tstar)) as [->|Hne].
  - unfold slot_full in Hfree. rewrite Hs in Hfree. apply negb_false_iff in Hfree. rewrite Hfree.
    simpl. split; [done|]. lia.
  - specialize (Hfull t ltac:(lia)) as Hft. unfold slot_full in Hft. rewrite Hs in Hft.
    apply negb_true_iff in Hft. rewrite Hft. pose proof (ti_slot _ _ HI _ _ Hs).
    apply Z.eqb_neq in Hft.
    destruct (svc_name_ok HL (s - 1)) as (sv & -> & E & _); [lia|]. simpl. rewrite E. simpl.
    destruct (bytes_eqb (svc_name (s - 1)) nm) eqn:Eb; [done|].
    rewrite land_mask_mod, pos_succ by lia.
    eapply safe_mono; [apply IH; lia|]. intros tab' [-> Hrest]. split; [done|].
    intros t' Ht' s' Hs'. destruct (decide (t' = t)) as [->|].
    + rewrite Hs in Hs'. injection Hs' as <-. intros Hn. apply bytes_eqb_eq in Hn. congruence.
    + apply (Hrest t'); [lia|done].
Qed.

Lemma tab_inv_insert i tab tstar : tab_inv i tab -> 0 <= i < n_svc h -> 0 <= tstar < N ->
  slot_full tab (pos N (home i) tstar) = false ->
  (forall t, 0 <= t < tstar -> slot_full tab (pos N (home i) t) = true) ->
  (forall q, 0 <= q < i -> svc_name q <> svc_name i) ->
  tab_inv (i + 1) (<[Z.to_nat (pos N (home i) tstar) := i + 1]> tab).
Proof.
  intros HI Hi Hts Hfree Hfull Hdist. pose proof N_pos.
  pose proof (pos_range N ltac:(lia) (home i) tstar) as Hp.
  destruct (lookup_lt_is_Some_2 tab (Z.to_nat (pos N (home i) tstar))) as [s0 Hs0];
    [rewrite (ti_len _ _ HI); lia|].
  assert (s0 = 0) as -> by (unfold slot_full in Hfree; rewrite Hs0 in Hfree;
    apply negb_false_iff, Z.eqb_eq in Hfree; done).
  assert (forall t, slot_full tab t = true ->
            slot_full (<[Z.to_nat (pos N (home i) tstar) := i + 1]> tab) t = true) as Hkeep.
  { intros t Ht. unfold slot_full in *.
    destruct (decide (Z.to_nat t = Z.to_nat (pos N (home i) tstar))) as [->|].
    - rewrite list_lookup_insert_eq by (rewrite (ti_len _ _ HI); lia).
      destruct (Z.eqb_spec (i + 1) 0); [lia|done].
    - by rewrite list_lookup_insert_ne by done. }
  constructor.
  - rewrite length_insert. apply (ti_len _ _ HI).
  - intros j s Hs. apply list_lookup_insert_Some in Hs as [(<- & <- & _)|[_ Hs]]; [lia|].
    pose proof (ti_slot _ _ HI _ _ Hs). lia.
  - rewrite (cnt_insert _ _ _ _ _ Hs0), (ti_cnt _ _ HI).
    destruct (Z.eqb_spec (i + 1) 0); [lia|]. simpl. lia.
  - intros q Hq. destruct (decide (q = i)) as [->|].
    + exists (pos N (home i) tstar). split; [done|].
      rewrite list_lookup_insert_eq by (rewrite (ti_len _ _ HI); lia).
      split; [done|]. intros t Ht. rewrite steps_pos in Ht by lia. apply Hkeep, Hfull. lia.
    + destruct (ti_reach _ _ HI q) as (j & Hj & Hjq & Hr); [lia|]. exists j. split; [done|].
      split; [|intros t Ht; by apply Hkeep, Hr].
      rewrite list_lookup_insert_ne; [done|]. intros E. rewrite E in Hs0. simplify_eq. lia.
  - intros p q Hpq Hq. destruct (decide (q = i)) as [->|].
    + apply Hdist. lia.
    + apply (ti_distinct _ _ HI); lia.
Qed.

Lemma check_name_safe (HL : loop_ok) i tab : tab_inv i tab -> 0 <= i < n_svc h ->
  safe (check_name img h N tab i) (tab_inv (i + 1)).
Proof.
  intros HI Hi. pose proof N_pos. unfold check_name.
  destruct (svc_name_ok HL i Hi) as (sv & -> & E & _). simpl. rewrite E. simpl.
  fold (home i). destruct (tab_free i tab HI) as (j & Hj & Hjf); [lia|].
  destruct (first_free N ltac:(lia) (slot_full tab) (home i) j Hj Hjf) as (ts & Hts & Hf & Hb).
  rewrite <- (pos_0 N (home i)) by apply home_range.
  eapply safe_mono; [apply (name_probe_safe HL i tab _ (home i) ts HI Hi Hts Hf Hb); lia|].
  intros tab' [-> Hne]. apply tab_inv_insert; try done. intros q Hq Heq.
  assert (home q = home i) as Hh' by (unfold home; by rewrite Heq).
  destruct (tab_probe_hit i tab q ts HI Hq Hts) as (t & Ht & Htq); [by rewrite Hh'|].
  rewrite Hh' in Htq. apply (Hne t ltac:(lia) _ Htq). replace (q + 1 - 1) with q by lia. done.
Qed.

Lemma check_names_safe (HL : loop_ok) :
  safe (vfold (Z.to_nat (n_svc h)) 0 (replicate (Z.to_nat N) 0) (check_name img h N))
    (fun tab => tab_inv (n_svc h) tab).
Proof.
  pose proof N_pos. pose proof (ho_n _ _ Hh) as Hn.
  eapply safe_mono; [apply (safe_vfold tab_inv)|intros tab; by rewrite Z2Nat.id, Z.add_0_l by lia].
  - constructor.
    + apply length_replicate.
    + intros j s [-> _]%lookup_replicate. lia.
    + rewrite cnt_replicate. done.
    + lia.
    + lia.
  - intros q tab Hq HI. apply check_name_safe; [done|done|lia].
Qed.
End Accepted.

(** The table has room: eight doublings of 64 pass twice the largest graph. *)
Lemma hash_size_pow fuel j n : 0 <= j ->
  exists k, 0 <= k /\ hash_size fuel (2 ^ j) n = 2 ^ k /\
            (2 * n <= 2 ^ k \/ k = j + Z.of_nat fuel) /\ j <= k.
Proof.
  revert j; induction fuel as [|fuel IH]; intros j Hj; simpl.
  - exists j. split_ands; [lia|done|right; lia|lia].
  - destruct (Z.ltb_spec (2 ^ j) (2 * n)); [|exists j; split_ands; [lia|done|left; lia|lia]].
    destruct (IH (j + 1)) as (k & H1 & H2 & H3 & H4); [lia|]. exists k.
    rewrite Z.pow_add_r in H2 by lia. split_ands; [lia|done|lia|lia].
Qed.

Lemma hash_size_room n : 0 <= n <= NG_MAX_SVC ->
  exists k, 0 <= k /\ hash_size 14 64 n = 2 ^ k /\ n < 2 ^ k.
Proof.
  intros Hn. destruct (hash_size_pow 14 6 n) as (k & H1 & H2 & H3 & H4); [lia|].
  exists k. split_ands; [done|done|]. assert (2 ^ 6 <= 2 ^ k) by (apply Z.pow_le_mono_r; lia).
  unfold NG_MAX_SVC in *. destruct H3 as [H3| ->]; [lia|]. simpl. lia.
Qed.

Lemma verify_cross_safe mem img h : Forall is_byte img -> hdr_ok img h -> loop_ok img h ->
  safe (verify_cross mem img h) (fun _ => True).
Proof.
  intros Himg Hh HL. unfold verify_cross. destruct (Z.eqb_spec (n_svc h) 0); [done|].
  destruct (hash_size_room (n_svc h)) as (k & Hk & -> & Hroom); [apply (ho_n _ _ Hh)|].
  destruct mem; [simpl|done].
  eapply safe_bind; [by apply count_edges_safe|]; cbv beta; intros scratch Hlen.
  eapply safe_bind.
  - apply safe_vfor. intros i Hi _. unfold check_indegree.
    eapply safe_bind; [apply (safe_svcs _ Himg _ Hh); lia|]. intros s _.
    destruct (lookup_lt_is_Some_2 scratch (Z.to_nat i)) as [c ->]; [lia|]. simpl.
    by apply safe_bad_if.
  - intros [] _. eapply safe_bind; [by apply check_names_safe|]. by intros.
Qed.

Lemma ng_verify_runs (mem : bool) (addr : Z) (img : bytes) : Forall is_byte img -> safe (ng_verify mem addr img) (fun _ => True).
Proof.
  intros Himg. unfold ng_verify. eapply safe_bind; [by apply verify_header_safe|]. intros h Hh.
  eapply safe_bind_eq; [by apply verify_ends_safe|]. intros [] He _.
  eapply safe_bind_eq.
  { apply safe_vfor. intros i Hi _. pose proof (ho_n _ _ Hh).
    apply verify_service_safe; [done|done|lia]. }
  intros [] Hl _. apply verify_cross_safe; [done|done|]. by apply verify_loop_ok.
Qed.

(** C14. [ng_verify] reads inside the image and returns, whatever the bytes,
    the address and the outcome of its allocation: no field of a hostile or
    damaged image takes it out of bounds or makes it loop. *)
Theorem ng_verify_safe (mem : bool) (addr : Z) (img : bytes) :
  Forall is_byte img -> ng_verify mem addr img <> VFault /\ ng_verify mem addr img <> VDiverge.
Proof.
  intros Himg. pose proof (ng_verify_runs mem addr img Himg) as H.
  destruct (ng_verify mem addr img); simpl in H; by try split.
Qed.
