(* ===== verification/Accept.v ===== *)
(** * What [ng_verify] accepts

    The soundness of the verifier: an accepted image decodes to a graph the
    supervisor may rely on ([Ngraph.graph_wf]): every edge goes forward, every
    [unmet] is the in-degree of its service, names are unique. *)

From S2P Require Import Prelude PidMap Ngraph Verify.

(** ** Lists *)

Lemma sorted_of_adjacent (l : list nat) :
  (forall t a b, l !! t = Some a -> l !! S t = Some b -> (a < b)%nat) -> StronglySorted lt l.
Proof.
  intros H. apply Sorted_StronglySorted; [intros x y z; lia|].
  induction l as [|a l IH]; [constructor|]. constructor.
  - apply IH. intros t x y Hx Hy. by apply (H (S t)).
  - destruct l as [|b l]; constructor. by apply (H 0%nat).
Qed.

Lemma cnt_take_segment {A} (P : A -> bool) l a b :
  (a <= b)%nat -> cnt P (take b l) = cnt P (take a l) + cnt P (take (b - a) (drop a l)).
Proof.
  intros Hab. rewrite <- cnt_app. f_equal.
  rewrite <- (take_drop a (take b l)) at 1. rewrite take_take, skipn_firstn_comm.
  by replace (a `min` b)%nat with a by lia.
Qed.

Lemma verify_header_hdr addr img h : verify_header addr img = VOk h -> rd_hdr img = VOk h.
Proof. unfold verify_header. intros H. by vok_inv. Qed.

Section Sound.
Context (img : bytes) (Himg : Forall is_byte img).
Context (h : ng_hdr) (Hrd : rd_hdr img = VOk h) (Hh : hdr_ok img h) (HL : loop_ok img h).
Context (sv : list ng_svc) (pl : list ng_pol) (ro ri : list Z) (nm : list bytes).
Abbreviation n := (Z.to_nat (n_svc h)).
Context (Hsv : vtab n 0 (ng_svcs img h) = VOk sv).
Context (Hpl : vtab n 0 (ng_pol_at img h) = VOk pl).
Context (Hro : vtab (S n) 0 (ng_rdep_off img h) = VOk ro).
Context (Hri : vtab (Z.to_nat (n_edges h)) 0 (ng_rdep_idx img h) = VOk ri).
Context (Hnm : vtab n 0 (ng_name_at img h) = VOk nm).

Definition the_graph : graph :=
  Graph n (Z.to_nat (n_roots h)) sv pl (Z.to_nat <$> ro) (Z.to_nat <$> ri) nm.

Lemma tab_entry {A} (f : Z -> vres A) m l i a :
  vtab m 0 f = VOk l -> (i < m)%nat -> f (Z.of_nat i) = VOk a -> l !! i = Some a.
Proof.
  intros [_ H]%vtab_ok Hi Hf. destruct (H i Hi) as (b & Hb & Hl).
  rewrite Z.add_0_l in Hb. congruence.
Qed.

Lemma len_ri : length ri = Z.to_nat (n_edges h).
Proof. by apply vtab_ok in Hri as [-> _]. Qed.

(** The row of service [i]. *)
Lemma row i : (i < n)%nat ->
  exists s r0 r1, sv !! i = Some s /\ ro !! i = Some r0 /\ ro !! S i = Some r1 /\
    0 <= r0 <= r1 /\ r1 <= n_edges h /\ (forall j, r0 <= j < r1 -> edge_ok img h s (Z.of_nat i) r0 j) /\
    verify_fields h s (Z.of_nat i) r0 r1 = VOk tt /\
    verify_strings img h s (Z.of_nat i) = VOk tt /\
    verify_policy img h s (Z.of_nat i) = VOk tt.
Proof.
  intros Hi. destruct (lo_svc _ _ HL (Z.of_nat i)) as
    [(s & r0 & r1 & p & name & E1 & E2 & E3 & E4 & E5 & E6 & E7 & E8 & _)]; [lia|].
  exists s, r0, r1. split_ands; try done; try lia.
  - by apply (tab_entry _ _ _ _ _ Hsv).
  - by apply (tab_entry _ _ _ _ _ Hro); [lia|].
  - apply (tab_entry _ _ _ _ _ Hro); [lia|]. by replace (Z.of_nat (S i)) with (Z.of_nat i + 1) by lia.
  - pose proof (safe_roff _ Himg _ Hh (Z.of_nat i) ltac:(lia)) as Hs.
    by apply (safe_ok _ _ _ Hs E2).
Qed.

Lemma row_succs i r0 r1 : ro !! i = Some r0 -> ro !! S i = Some r1 -> 0 <= r0 <= r1 ->
  r1 <= n_edges h ->
  succs the_graph i = Some (take (Z.to_nat r1 - Z.to_nat r0) (drop (Z.to_nat r0) (Z.to_nat <$> ri))).
Proof.
  intros H0 H1 Hr Hm. unfold succs, the_graph. simpl. rewrite !list_lookup_fmap, H0, H1. simpl.
  rewrite length_fmap, len_ri. destruct (Nat.leb_spec (Z.to_nat r1) (Z.to_nat (n_edges h))); [done|lia].
Qed.

Lemma row_entry (r0 r1 t : nat) d :
  take (r1 - r0) (drop r0 (Z.to_nat <$> ri)) !! t = Some d ->
  (t < r1 - r0)%nat /\ exists z, ri !! (r0 + t)%nat = Some z /\ d = Z.to_nat z.
Proof.
  intros H. apply lookup_take_Some in H as [H Ht]. split; [done|].
  rewrite lookup_drop, list_lookup_fmap in H. destruct (ri !! (r0 + t)%nat) as [z|]; [|done].
  exists z. split; [done|]. by injection H as <-.
Qed.

Lemma ri_entry (k : nat) z : ri !! k = Some z -> ng_rdep_idx img h (Z.of_nat k) = VOk z.
Proof.
  intros Hk. pose proof Hri as [Hlen H]%vtab_ok.
  destruct (H k) as (a & Ha & Hl); [apply lookup_lt_Some in Hk; lia|].
  rewrite Z.add_0_l in Ha. congruence.
Qed.

Lemma succs_wf i : (i < n)%nat ->
  exists l, succs the_graph i = Some l /\ Forall (fun d => (i < d < n)%nat) l /\ StronglySorted lt l.
Proof.
  intros Hi. destruct (row i Hi) as (s & r0 & r1 & Es & E0 & E1 & Hr & Hm & He & _).
  rewrite (row_succs i r0 r1) by done. eexists. split; [done|]. split.
  - apply Forall_lookup. intros t d Hd. apply row_entry in Hd as (Ht & z & Hz & ->).
    destruct (He (Z.of_nat (Z.to_nat r0 + t))) as [(d & Hd & Hlt & _)]; [lia|].
    apply ri_entry in Hz. rewrite Hd in Hz. simplify_eq. lia.
  - apply sorted_of_adjacent. intros t a b Ha Hb.
    apply row_entry in Ha as (Ht & z & Hz & ->). apply row_entry in Hb as (Ht' & z' & Hz' & ->).
    destruct (He (Z.of_nat (Z.to_nat r0 + S t))) as [(d & Hd & Hlt & Hprev & _)]; [lia|].
    destruct Hprev as (d0 & Hd0 & Hd0lt); [lia|].
    apply ri_entry in Hz, Hz'. rewrite Hd in Hz'. simplify_eq.
    replace (Z.of_nat (Z.to_nat r0 + S t) - 1) with (Z.of_nat (Z.to_nat r0 + t)) in Hd0 by lia.
    rewrite Hz in Hd0. simplify_eq.
    pose proof (safe_ridx _ Himg _ Hh (Z.of_nat (Z.to_nat r0 + t)) ltac:(lia)) as Hs.
    pose proof (safe_ok _ _ _ Hs Hz). simpl in *. lia.
Qed.

(** The rows partition the edge list. *)
Lemma rows_cover d q : (q <= n)%nat ->
  exists r, ro !! q = Some r /\ 0 <= r <= n_edges h /\
    sum_upto q (fun j => mult the_graph j d) = occ d (take (Z.to_nat r) (Z.to_nat <$> ri)).
Proof.
  induction q as [|q IH]; intros Hq.
  - destruct (decide (n = 0%nat)) as [E|].
    + exists (n_edges h). pose proof (lo_end _ _ HL) as Hend.
      pose proof (ho_m _ _ Hh). pose proof (ho_m_max _ _ Hh) as Hmm. pose proof (ho_n _ _ Hh).
      replace (n_svc h) with 0 in Hend, Hmm by lia. rewrite Z.mul_0_l in Hmm.
      change (0 / 2) with 0 in Hmm. split_ands; [|lia..|].
      * by apply (tab_entry _ _ _ _ _ Hro); [lia|].
      * replace (Z.to_nat (n_edges h)) with 0%nat by lia. done.
    + exists 0. split_ands; [|lia|apply (ho_m _ _ Hh)|done].
      apply (tab_entry _ _ _ _ _ Hro); [lia|]. apply (lo_start _ _ HL). lia.
  - destruct IH as (r & Hr & Hb & Hsum); [lia|].
    destruct (row q) as (s & r0 & r1 & _ & E0 & E1 & Hr01 & Hm & _); [lia|].
    rewrite Hr in E0. simplify_eq. exists r1. split_ands; [done|lia|lia|].
    simpl. rewrite Hsum. unfold mult. rewrite (row_succs q r0 r1) by done. unfold occ.
    by rewrite (cnt_take_segment _ _ (Z.to_nat r0) (Z.to_nat r1)) by lia.
Qed.

(** Side by side they are the edge list. *)
Lemma rows_concat q : (q <= n)%nat ->
  exists r, ro !! q = Some r /\ 0 <= r <= n_edges h /\
    concat ((fun j => default [] (succs the_graph j)) <$> seq 0 q) = take (Z.to_nat r) (Z.to_nat <$> ri).
Proof.
  induction q as [|q IH]; intros Hq.
  - destruct (rows_cover 0 0) as (r & Hr & Hb & _); [lia|]. destruct (decide (n = 0%nat)) as [E|].
    + exists r. split_ands; [done|lia..|]. symmetry. apply nil_length_inv. rewrite length_take, length_fmap, len_ri.
      pose proof (ho_m_max _ _ Hh) as Hmm. pose proof (ho_m _ _ Hh). pose proof (ho_n _ _ Hh).
      replace (n_svc h) with 0 in Hmm by lia. rewrite Z.mul_0_l in Hmm. change (0 / 2) with 0 in Hmm. lia.
    + exists 0. split_ands; [|lia|apply (ho_m _ _ Hh)|done].
      apply (tab_entry _ _ _ _ _ Hro); [lia|]. apply (lo_start _ _ HL). lia.
  - destruct IH as (r & Hr & Hb & Hcat); [lia|].
    destruct (row q) as (s & r0 & r1 & _ & E0 & E1 & Hr01 & Hm & _); [lia|].
    rewrite Hr in E0. simplify_eq. exists r1. split_ands; [done|lia|lia|].
    rewrite seq_S, fmap_app, concat_app, Hcat. cbn [fmap list_fmap concat Nat.add]. rewrite app_nil_r, (row_succs q r0 r1) by done.
    cbn [default]. rewrite <- (take_drop (Z.to_nat r0) (take (Z.to_nat r1) _)), take_take, skipn_firstn_comm.
    by replace (Z.to_nat r0 `min` Z.to_nat r1)%nat with (Z.to_nat r0) by lia.
Qed.

Lemma rows_all : concat ((fun j => default [] (succs the_graph j)) <$> seq 0 n) = Z.to_nat <$> ri.
Proof.
  destruct (rows_concat n) as (r & Hr & Hb & ->); [lia|]. pose proof (lo_end _ _ HL) as Hend. pose proof (ho_n _ _ Hh).
  replace (n_svc h) with (Z.of_nat n) in Hend by lia.
  assert (ro !! n = Some (n_edges h)) as E by (by apply (tab_entry _ _ _ _ _ Hro); [lia|]).
  rewrite Hr in E. simplify_eq. apply take_ge. rewrite length_fmap, len_ri. lia.
Qed.

Lemma indeg_count d : indeg the_graph d = occ d (Z.to_nat <$> ri).
Proof.
  unfold indeg. simpl. destruct (rows_cover d n) as (r & Hr & Hb & ->); [lia|].
  pose proof (lo_end _ _ HL) as Hend. pose proof (ho_n _ _ Hh).
  replace (n_svc h) with (Z.of_nat n) in Hend by lia.
  assert (ro !! n = Some (n_edges h)) as E by (by apply (tab_entry _ _ _ _ _ Hro); [lia|]).
  rewrite Hr in E. simplify_eq. rewrite take_ge; [done|]. rewrite length_fmap, len_ri. lia.
Qed.

Lemma occ_snoc d l k z : l !! k = Some z ->
  occ d (take (S k) l) = occ d (take k l) + b2z (z =? d)%nat.
Proof. intros H. unfold occ. rewrite (take_S_r _ _ _ H), cnt_app. simpl. lia. Qed.

(** The scratch array of the verifier holds the in-degrees. *)
Lemma scratch_counts scratch :
  vfold (Z.to_nat (n_edges h)) 0 (replicate n 0) (count_edge img h) = VOk scratch ->
  length scratch = n /\ forall d, (d < n)%nat -> scratch !! d = Some (indeg the_graph d).
Proof.
  intros H. pose proof (ho_m _ _ Hh) as Hm0. pose proof (ho_len _ _ Hh). pose proof (ho_ridx _ _ Hh).
  pose (Inv := fun (k : Z) (sc : list Z) => length sc = n /\
    forall d, (d < n)%nat -> sc !! d = Some (occ d (take (Z.to_nat k) (Z.to_nat <$> ri)))).
  apply (vfold_ok_inv Inv) in H.
  - destruct H as [Hlen Hd]. split; [done|]. intros d Hlt. rewrite (Hd d Hlt), indeg_count. do 2 f_equal.
    rewrite take_ge; [done|]. rewrite length_fmap, len_ri. lia.
  - split; [apply length_replicate|]. intros d Hd. rewrite lookup_replicate_2 by lia. done.
  - intros k sc sc' Hk [Hlen Hd] Hstep. unfold count_edge in Hstep. vok_inv.
    destruct (lookup_lt_is_Some_2 ri (Z.to_nat k)) as [z Hz]; [rewrite len_ri; lia|].
    pose proof (ri_entry _ _ Hz) as Hz'. rewrite Z2Nat.id in Hz' by lia.
    rewrite Hz' in Hv. simplify_eq. subst Inv. cbv beta. rewrite length_insert. split; [done|].
    replace (Z.to_nat (k + 1)) with (S (Z.to_nat k)) by lia. intros d Hlt.
    assert ((Z.to_nat <$> ri) !! Z.to_nat k = Some (Z.to_nat a)) as Hf
      by (by rewrite list_lookup_fmap, Hz).
    rewrite (occ_snoc _ _ _ _ Hf). destruct (decide (Z.to_nat a = d)) as [<-|Hne].
    + rewrite list_lookup_insert_eq by lia. rewrite (Hd _ Hlt) in Hv0. simplify_eq.
      rewrite Nat.eqb_refl. simpl. rewrite u32_small; [done|].
      pose proof (cnt_range (fun x => (x =? Z.to_nat a)%nat) (take (Z.to_nat k) (Z.to_nat <$> ri))) as Hc.
      rewrite length_take, length_fmap, len_ri in Hc. unfold occ. lia.
    + rewrite list_lookup_insert_ne by done. rewrite (Hd _ Hlt).
      apply Nat.eqb_neq in Hne. rewrite Hne. simpl. f_equal. lia.
Qed.

Lemma name_entry i x : nm !! i = Some x -> (i < n)%nat /\ x = svc_name img h (Z.of_nat i).
Proof.
  intros Hx. pose proof Hnm as [Hlen Hk]%vtab_ok.
  assert (i < n)%nat as Hi by (apply lookup_lt_Some in Hx; lia). split; [done|].
  destruct (Hk i Hi) as (a & Ha & Hl). rewrite Z.add_0_l in Ha. unfold svc_name. rewrite Ha. congruence.
Qed.

Lemma names_distinct tab k : 0 <= k -> n_svc h < 2 ^ k ->
  vfold n 0 (replicate (Z.to_nat (2 ^ k)) 0) (check_name img h (2 ^ k)) = VOk tab -> NoDup nm.
Proof.
  intros Hk Hroom H. pose proof (safe_ok _ _ _ (check_names_safe img h Hh k Hk Hroom HL) H) as HI.
  apply NoDup_alt. intros i j x Hi Hj.
  apply name_entry in Hi as [Hi Hxi]. apply name_entry in Hj as [Hj Hxj].
  destruct (Nat.lt_trichotomy i j) as [Hlt|[E|Hlt]]; [|done|].
  - exfalso. apply (ti_distinct _ _ _ _ _ HI (Z.of_nat i) (Z.of_nat j)); [lia|lia|congruence].
  - exfalso. apply (ti_distinct _ _ _ _ _ HI (Z.of_nat j) (Z.of_nat i)); [lia|lia|congruence].
Qed.

Lemma bool_flag f bit : negb (Z.land f bit =? 0) = true -> negb (Z.land f bit =? 0) = false -> False.
Proof. congruence. Qed.

(** Each accepted record is a well-formed service. *)
Lemma row_wf i s p scratch :
  sv !! i = Some s -> pl !! i = Some p ->
  length scratch = n -> (forall d, (d < n)%nat -> scratch !! d = Some (indeg the_graph d)) ->
  vfor n 0 (check_indegree img h scratch) = VOk tt -> svc_wf the_graph i s p.
Proof.
  intros Hs Hp Hlen Hsc Hin. pose proof (ho_n _ _ Hh) as Hn. pose proof (ho_roots _ _ Hh) as Hroots.
  assert (i < n)%nat as Hi.
  { apply vtab_ok in Hsv as [Hl _]. apply lookup_lt_Some in Hs. lia. }
  destruct (row i Hi) as (s' & r0 & r1 & Es & E0 & E1 & Hr & Hm & He & Hf & Hst & Hpo).
  rewrite Hs in Es. simplify_eq.
  assert (ng_svcs img h (Z.of_nat i) = VOk s') as Hsi.
  { pose proof Hsv as [_ H]%vtab_ok. destruct (H i Hi) as (a & Ha & Hl).
    rewrite Z.add_0_l in Ha. congruence. }
  assert (ng_pol_at img h (Z.of_nat i) = VOk p) as Hpi.
  { pose proof Hpl as [_ H]%vtab_ok. destruct (H i Hi) as (a & Ha & Hl).
    rewrite Z.add_0_l in Ha. congruence. }
  pose proof (safe_svcs _ Himg _ Hh (Z.of_nat i) ltac:(lia)) as Hsafe.
  apply (fun H => safe_ok _ _ _ H Hsi) in Hsafe. destruct Hsafe as [[Hu0 _] [Ht0 Hnf0]].
  assert (unmet s' = indeg the_graph i) as Hun.
  { apply vfor_ok with (k := Z.of_nat i) in Hin; [|lia]. unfold check_indegree in Hin. vok_inv.
    rewrite Nat2Z.id, (Hsc i Hi) in Hv0. rewrite Hsi in Hv. simplify_eq. lia. }
  unfold verify_fields in Hf. unfold verify_strings in Hst. unfold verify_policy in Hpo.
  clear Hin. vok_inv.
  match goal with E : ng_pol_at img h (Z.of_nat i) = VOk ?q |- _ =>
    assert (q = p) as -> by congruence; clear E end.
  constructor; simpl; try done; try lia.
  - unfold NG_TYPE_TARGET, NG_TYPE_ONESHOT, NG_TYPE_DAEMON in *. lia.
  - intros Hre. unfold ng_restart, the_graph in Hre. simpl in Hre. rewrite Hs in Hre.
    simpl in Hre. injection Hre as Hre. rewrite Hre in *. simpl in *. lia.
  - intros Hw. rewrite (row_succs i r0 r1) by done. f_equal.
    replace (Z.to_nat r1 - Z.to_nat r0)%nat with 0%nat; [done|].
    rewrite Hw in *. simpl in *. lia.
  - intros d sd (l & Hl & Hd) Hsd. rewrite (row_succs i r0 r1) in Hl by done. simplify_eq.
    apply list_elem_of_lookup in Hd as [t Hd]. apply row_entry in Hd as (Ht & z & Hz & ->).
    destruct (He (Z.of_nat (Z.to_nat r0 + t))) as [(d & Hd & Hlt & _ & sd' & Hsd' & Hdesc)]; [lia|].
    apply ri_entry in Hz. rewrite Hd in Hz. simplify_eq.
    pose proof Hsv as [_ H]%vtab_ok. destruct (H (Z.to_nat z)) as (sd2 & Ha & Hal); [lia|].
    rewrite Z.add_0_l, Z2Nat.id in Ha by lia. congruence.
Qed.
End Sound.

(** The tables of an accepted image, each entry of them read. *)
Lemma accepted_tables mem addr img : Forall is_byte img -> ng_verify mem addr img = VOk tt ->
  exists h sv pl ro ri nm, rd_hdr img = VOk h /\ hdr_ok img h /\ loop_ok img h /\
    vtab (Z.to_nat (n_svc h)) 0 (ng_svcs img h) = VOk sv /\ vtab (Z.to_nat (n_svc h)) 0 (ng_pol_at img h) = VOk pl /\
    vtab (S (Z.to_nat (n_svc h))) 0 (ng_rdep_off img h) = VOk ro /\ vtab (Z.to_nat (n_edges h)) 0 (ng_rdep_idx img h) = VOk ri /\
    vtab (Z.to_nat (n_svc h)) 0 (ng_name_at img h) = VOk nm /\ decode img = VOk (the_graph h sv pl ro ri nm) /\ verify_cross mem img h = VOk tt.
Proof.
  intros Himg H. unfold ng_verify in H. vok_inv. rename a into h.
  pose proof (safe_ok _ _ _ (verify_header_safe img Himg addr) Hv) as Hh.
  pose proof (verify_header_hdr _ _ _ Hv) as Hrd.
  pose proof (verify_loop_ok _ _ Hh Hv0 Hv1) as HL.
  pose proof (ho_n _ _ Hh) as Hn. pose proof (ho_roots _ _ Hh). pose proof (ho_m _ _ Hh) as Hm.
  destruct (vtab_exists (Z.to_nat (n_svc h)) 0 (ng_svcs img h)) as [sv Hsv].
  { intros k Hk. destruct (lo_svc _ _ HL k) as [(s & r0 & r1 & p & nm & E & _)]; [lia|eauto]. }
  destruct (vtab_exists (Z.to_nat (n_svc h)) 0 (ng_pol_at img h)) as [pl Hpl].
  { intros k Hk. destruct (lo_svc _ _ HL k) as [(s & r0 & r1 & p & nm & _ & _ & _ & _ & _ & _ & _ & _ & E & _)];
      [lia|eauto]. }
  destruct (vtab_exists (S (Z.to_nat (n_svc h))) 0 (ng_rdep_off img h)) as [ro Hro].
  { intros k Hk. destruct (decide (k = n_svc h)) as [->|]; [rewrite (lo_end _ _ HL); eauto|].
    destruct (lo_svc _ _ HL k) as [(s & r0 & r1 & p & nm & _ & E & _)]; [lia|eauto]. }
  destruct (vtab_exists (Z.to_nat (n_edges h)) 0 (ng_rdep_idx img h)) as [ri Hri].
  { intros k Hk. destruct (edge_target _ _ Hh HL k) as (i & d & _ & _ & E); [lia|eauto]. }
  destruct (vtab_exists (Z.to_nat (n_svc h)) 0 (ng_name_at img h)) as [nm Hnm].
  { intros k Hk. destruct (svc_name_ok _ _ HL k) as (s & E1 & E2 & _); [lia|].
    unfold ng_name_at. rewrite E1. simpl. eauto. }
  exists h, sv, pl, ro, ri, nm. split_ands; try done.
  unfold decode. rewrite Hrd. cbn [vbind]. rewrite Hsv. cbn [vbind]. rewrite Hpl. cbn [vbind].
  rewrite Hro. cbn [vbind]. rewrite Hri. cbn [vbind]. by rewrite Hnm.
Qed.

Lemma accepted_graph mem addr img : Forall is_byte img -> ng_verify mem addr img = VOk tt -> exists g, decode img = VOk g /\ graph_wf g.
Proof.
  intros Himg Hv. destruct (accepted_tables mem addr img Himg Hv) as (h & sv & pl & ro & ri & nm & Hrd & Hh & HL & Hsv & Hpl & Hro & Hri & Hnm & Hdec & H).
  pose proof (ho_n _ _ Hh) as Hn. pose proof (ho_roots _ _ Hh). pose proof (ho_m _ _ Hh) as Hm.
  exists (the_graph h sv pl ro ri nm). split; [done|].
  assert (forall i x, nm !! i = Some x -> ng_name_problem x = None) as Husable.
  { intros i x Hx. apply (name_entry _ _ _ Hnm) in Hx as [Hi ->].
    destruct (svc_name_ok _ _ HL (Z.of_nat i)) as (s & _ & _ & E); [lia|done]. }
  unfold verify_cross in H. constructor; simpl.
  - lia.
  - lia.
  - by apply vtab_ok in Hsv as [-> _].
  - by apply vtab_ok in Hpl as [-> _].
  - by apply vtab_ok in Hnm as [-> _].
  - rewrite length_fmap. apply vtab_ok in Hro as [-> _]. done.
  - intros j Hj. by apply (succs_wf img Himg h Hh HL sv pl ro ri nm).
  - intros i s p Hs Hp. destruct (Z.eqb_spec (n_svc h) 0) as [E|].
    { apply vtab_ok in Hsv as [Hl _]. apply lookup_lt_Some in Hs. lia. }
    vok_inv.
    match goal with Hc : vfold (Z.to_nat (n_edges h)) _ _ _ = VOk ?sc |- _ =>
      destruct (scratch_counts img Himg h Hh HL sv pl ro ri nm Hsv Hro Hri sc Hc) as [Hl Hsc];
      by apply (row_wf img Himg h Hh HL sv pl ro ri nm Hsv Hpl Hro Hri i s p sc)
    end.
  - destruct (Z.eqb_spec (n_svc h) 0) as [E|].
    { apply vtab_ok in Hnm as [Hl _]. destruct nm; [constructor|simpl in Hl; lia]. }
    vok_inv. destruct (hash_size_room (n_svc h)) as (k & Hk & E & Hroom); [done|].
    rewrite E in *.
    match goal with Hc : vfold _ _ _ (check_name _ _ _) = VOk ?t |- _ =>
      by apply (names_distinct img h Hh HL nm Hnm t k Hk Hroom) end.
  - intros x Hx. apply list_elem_of_lookup in Hx as [i Hx]. by apply (Husable i).
Qed.

(** C10. an image [ng_verify] accepts decodes, without a read outside it, to a
    well-formed graph: every edge goes from a service to a later one and none
    occurs twice, so the graph is acyclic; [unmet] of every service is its
    in-degree and is zero exactly for the roots; the types, flags, notify
    descriptors, timeouts and descendant counts are within their bounds; the
    service names are usable and no two are equal. *)
Theorem ng_verify_sound (mem : bool) (addr : Z) (img : bytes) :
  Forall is_byte img -> ng_verify mem addr img = VOk tt ->
  exists g, decode img = VOk g /\ graph_wf g.
Proof. apply accepted_graph. Qed.

(** ** A concrete image

    A oneshot [fs], a daemon [dbus] with notify, restart and a direct argv, and a
    target [basic], with the edges fs -> dbus, fs -> basic and dbus -> basic, laid
    out as [write_image] of ctl/image.c lays it out. *)
Definition demo_image : bytes :=
  [78; 73; 68; 71; 9; 0; 0; 0; 168; 2; 181; 30; 241; 0; 0; 0; 3; 0; 0; 0;
   1; 0; 0; 0; 3; 0; 0; 0; 53; 0; 0; 0; 64; 0; 0; 0; 112; 0; 0; 0;
   128; 0; 0; 0; 188; 0; 0; 0; 140; 0; 0; 0; 0; 0; 0; 0; 0; 0; 0; 0;
   0; 0; 0; 0; 0; 0; 0; 1; 2; 0; 0; 0; 3; 0; 0; 0; 0; 0; 0; 0;
   1; 0; 1; 21; 1; 0; 3; 0; 23; 0; 0; 0; 18; 0; 0; 0; 2; 0; 2; 0;
   0; 0; 0; 0; 255; 255; 255; 255; 47; 0; 0; 0; 0; 0; 0; 0; 2; 0; 0; 0;
   3; 0; 0; 0; 3; 0; 0; 0; 1; 0; 0; 0; 2; 0; 0; 0; 2; 0; 0; 0;
   0; 0; 0; 0; 0; 0; 0; 0; 0; 0; 0; 0; 255; 255; 255; 255; 16; 39; 0; 0;
   0; 0; 0; 0; 0; 0; 0; 0; 37; 0; 0; 0; 0; 0; 0; 0; 0; 0; 0; 0;
   0; 0; 0; 0; 255; 255; 255; 255; 102; 115; 0; 101; 120; 101; 99; 32; 47; 98; 105; 110;
   47; 116; 114; 117; 101; 0; 100; 98; 117; 115; 0; 101; 120; 101; 99; 32; 100; 98; 117; 115;
   100; 32; 45; 110; 0; 100; 98; 117; 115; 100; 0; 45; 110; 0; 0; 98; 97; 115; 105; 99;
   0].

Lemma demo_image_bytes : Forall is_byte demo_image.
Proof. unfold demo_image. repeat (constructor; [unfold is_byte; lia|]). constructor. Qed.

Lemma ng_verify_sound_witness :
  ng_verify true 4096 demo_image = VOk tt /\
  (exists g, decode demo_image = VOk g /\ graph_wf g).
Proof.
  split; [vm_compute; reflexivity|].
  apply (ng_verify_sound true 4096); [apply demo_image_bytes|vm_compute; reflexivity].
Defined.

(** A truncated copy and one with a flipped bit are refused. *)
Lemma ng_verify_safe_witness :
  (ng_verify true 4096 (take 100 demo_image) <> VFault /\
   ng_verify true 4096 (take 100 demo_image) <> VDiverge) /\
  ng_verify true 4096 (take 100 demo_image) = VBad "length mismatch" /\
  ng_verify true 4096 (<[200%nat := 1]> demo_image) = VBad "crc mismatch".
Proof.
  split; [|split; vm_compute; reflexivity].
  apply ng_verify_safe. apply Forall_take, demo_image_bytes.
Defined.
