(* ===== verification/Ring.v ===== *)
(** * The ring of the log (src/logging.c, first half)

    The last [LOG_RING] bytes of the log, overwritten from the oldest whole line
    on. The operations are those of the source on an array with two counters
    that only grow; the theorems tie the array to the text of everything that
    was ever put into it. *)

From S2P Require Import Prelude.

Definition LOG_LINE : Z := 1024.
Definition LOG_RING : Z := 131072.

(** [log_ring], [ring_head] and [ring_tail]. *)
Record ring := Ring {
  log_ring : bytes;
  ring_head : Z;
  ring_tail : Z;
}.

Definition blen (l : bytes) : Z := Z.of_nat (length l).

(** [n] bytes of the array, which is declared with [LOG_RING] bytes, from [off]
    on. *)
Definition slice (l : bytes) (off n : Z) : vres bytes :=
  if (0 <=? off) && (0 <=? n) && (off + n <=? LOG_RING)
  then VOk (take (Z.to_nat n) (drop (Z.to_nat off) l)) else VFault.

(** [memcpy(l + off, s, |s|)], in the same array. *)
Definition blit (l : bytes) (off : Z) (s : bytes) : vres bytes :=
  if (0 <=? off) && (off + blen s <=? LOG_RING)
  then VOk (take (Z.to_nat off) l ++ s ++ drop (Z.to_nat off + length s) l) else VFault.

(** [memchr(s, '\n', n)], as an offset. *)
Fixpoint find_nl (s : bytes) : option Z :=
  match s with
  | [] => None
  | c :: s' => if c =? 10 then Some 0 else option_map Z.succ (find_nl s')
  end.

Definition ring_off (at_ : Z) : Z := Z.land at_ (LOG_RING - 1).

(** The offset past the newline that ends the line starting at [at_]; the line
    wraps around the end of the array at most once. *)
Fixpoint ring_eol (fuel : nat) (R : ring) (at_ : Z) : vres Z :=
  match fuel with
  | O => VDiverge
  | S fuel' =>
      (let off := ring_off at_ in
       let seg := if ring_head R - at_ <? LOG_RING - off then ring_head R - at_ else LOG_RING - off in
       vlet s := slice (log_ring R) off seg in
       match find_nl s with
       | Some k => VOk (at_ + k + 1)
       | None => ring_eol fuel' R (at_ + seg)
       end)%vres
  end.

(** [while(ring_head + n - ring_tail > LOG_RING) ring_tail = ring_eol(ring_tail)] *)
Fixpoint ring_evict (fuel : nat) (R : ring) (n : Z) : vres ring :=
  match fuel with
  | O => VDiverge
  | S fuel' =>
      (if LOG_RING <? ring_head R + n - ring_tail R then
         vlet e := ring_eol 3 R (ring_tail R) in
         ring_evict fuel' (Ring (log_ring R) (ring_head R) e) n
       else VOk R)%vres
  end.

(** Every turn of the loop drops at least one byte. *)
Definition ring_put (R : ring) (s : bytes) : vres ring :=
  (let off := ring_off (ring_head R) in
   let k := LOG_RING - off in
   vlet R := ring_evict (S (Z.to_nat (ring_head R - ring_tail R))) R (blen s) in
   let k := if blen s <? k then blen s else k in
   vlet a := blit (log_ring R) off (take (Z.to_nat k) s) in
   vlet a := blit a 0 (drop (Z.to_nat k) s) in
   VOk (Ring a (ring_head R + blen s) (ring_tail R)))%vres.

(** [n] bytes from [at_] on, into a buffer of [cap] bytes. *)
Definition ring_get (R : ring) (at_ n cap : Z) : vres bytes :=
  (let off := ring_off at_ in
   let k := if n <? LOG_RING - off then n else LOG_RING - off in
   vlet a := slice (log_ring R) off k in
   vlet b := slice (log_ring R) 0 (n - k) in
   if cap <? n then VFault else VOk (a ++ b))%vres.

Definition ring_eq (R : ring) (at_ : Z) (s : bytes) : vres bool :=
  (let off := ring_off at_ in
   let k := if blen s <? LOG_RING - off then blen s else LOG_RING - off in
   vlet a := slice (log_ring R) off k in
   if negb (bytes_eqb a (take (Z.to_nat k) s)) then VOk false else
   vlet b := slice (log_ring R) 0 (blen s - k) in
   VOk (bytes_eqb b (drop (Z.to_nat k) s)))%vres.

Definition ring_empty : ring := Ring (replicate (Z.to_nat LOG_RING) 0) 0 0.

(** ** The text the ring holds the end of *)

(** The line a text starts with, with its newline. *)
Fixpoint take_line (l : bytes) : bytes :=
  match l with
  | [] => []
  | c :: l' => if c =? 10 then [c] else c :: take_line l'
  end.

Definition ends_line (t : bytes) : Prop := exists s, t = s ++ [10].

(** The array holds the bytes of the text [t] from [ring_tail] on, where a line
    starts, and no line is longer than [LOG_LINE]. *)
Record ring_ok (R : ring) (t : bytes) : Prop := RingOk {
  ri_len : blen (log_ring R) = LOG_RING;
  ri_head : ring_head R = blen t;
  ri_tail : 0 <= ring_tail R <= ring_head R;
  ri_room : ring_head R - ring_tail R <= LOG_RING;
  ri_byte : forall k, (Z.to_nat (ring_tail R) <= k < length t)%nat ->
    log_ring R !! Z.to_nat (Z.of_nat k mod LOG_RING) = t !! k;
  ri_start : ring_tail R = 0 \/ t !! (Z.to_nat (ring_tail R) - 1)%nat = Some 10;
  ri_ends : t = [] \/ ends_line t;
  ri_short : forall k, (length (take_line (drop k t)) <= Z.to_nat LOG_LINE)%nat;
}.

Lemma ring_off_mod at_ : ring_off at_ = at_ mod LOG_RING.
Proof. unfold ring_off, LOG_RING. change (131072 - 1) with (Z.ones 17). by rewrite Z.land_ones. Qed.

Lemma slice_ok l off n (P : bytes -> Prop) : 0 <= off -> 0 <= n -> off + n <= LOG_RING ->
  P (take (Z.to_nat n) (drop (Z.to_nat off) l)) -> returns (slice l off n) P.
Proof. intros H1 H2 H3 HP. unfold slice. rewrite !(proj2 (Z.leb_le _ _)) by lia. done. Qed.

Lemma blit_ok l off s : 0 <= off -> off + blen s <= LOG_RING ->
  returns (blit l off s) (eq (take (Z.to_nat off) l ++ s ++ drop (Z.to_nat off + length s) l)).
Proof. intros H1 H2. unfold blit. rewrite !(proj2 (Z.leb_le _ _)) by lia. done. Qed.

Lemma length_take_line l : (length (take_line l) <= length l)%nat.
Proof. induction l as [|c l IH]; simpl; [lia|]. destruct (c =? 10); simpl; lia. Qed.

Lemma take_line_prefix l : take_line l = take (length (take_line l)) l.
Proof. induction l as [|c l IH]; simpl; [done|]. destruct (c =? 10); simpl; [done|by f_equal]. Qed.

Lemma take_line_pos l : l <> [] -> (0 < length (take_line l))%nat.
Proof. destruct l as [|c l]; [done|]. simpl. destruct (c =? 10); simpl; lia. Qed.

(** A text that ends in a newline: so does its first line. *)
Lemma take_line_nl l : ends_line l -> exists s, take_line l = s ++ [10] /\ ~ 10 ∈ s.
Proof.
  induction l as [|c l IH]; intros [s Hs]; [by destruct s|]. simpl. destruct (Z.eqb_spec c 10) as [->|Hc].
  - exists []. split; [done|]. apply not_elem_of_nil.
  - destruct IH as (s' & -> & Hn); [destruct s as [|c' s']; simplify_eq/=; by eexists|].
    exists (c :: s'). split; [done|]. rewrite not_elem_of_cons. split; [by apply not_eq_sym|done].
Qed.

Lemma ends_line_drop t k : ends_line t -> (k < length t)%nat -> ends_line (drop k t).
Proof.
  intros [s ->] Hk. rewrite length_app in Hk. simpl in Hk. exists (drop k s).
  by rewrite drop_app_le by lia.
Qed.

Lemma ends_line_cons c l : ends_line (c :: l) -> c <> 10 -> ends_line l.
Proof. intros [[|c' s] Hs] Hc; simplify_eq/=. by exists s. Qed.

Lemma find_nl_line l n : ends_line l -> find_nl (take n l) =
  if (length (take_line l) <=? n)%nat then Some (Z.of_nat (length (take_line l)) - 1) else None.
Proof.
  revert n. induction l as [|c l IH]; intros n Hl; [by destruct Hl as [[|]]|].
  destruct n as [|n]; simpl; [by destruct (c =? 10)|]. destruct (Z.eqb_spec c 10) as [->|Hc]; simpl; [done|].
  rewrite IH by (by eapply ends_line_cons). destruct (_ <=? n)%nat; [|done]. simpl. f_equal. lia.
Qed.

Lemma take_line_drop l n : (n < length (take_line l))%nat -> take_line (drop n l) = drop n (take_line l).
Proof.
  revert n. induction l as [|c l IH]; intros [|n]; simpl; try done.
  destruct (c =? 10); simpl; [lia|]. intros Hn. apply IH. lia.
Qed.

Lemma take_line_app_l a b : ends_line a -> take_line (a ++ b) = take_line a.
Proof.
  induction a as [|c a IH]; intros Ha; [by destruct Ha as [[|]]|]. simpl.
  destruct (Z.eqb_spec c 10); [done|]. f_equal. apply IH. by eapply ends_line_cons.
Qed.

Section Read.
Context (R : ring) (t : bytes) (HR : ring_ok R t).

Lemma ring_end at_ : ring_tail R <= at_ < ring_head R -> ends_line (drop (Z.to_nat at_) t).
Proof.
  intros Ha. pose proof (ri_head _ _ HR) as Hh. unfold blen in Hh. pose proof (ri_tail _ _ HR).
  destruct (ri_ends _ _ HR) as [->|He]; [simpl in Hh; lia|]. apply ends_line_drop; [done|lia].
Qed.

(** A read that does not cross the end of the array. *)
Lemma ring_slice at_ n : ring_tail R <= at_ -> 0 <= n -> at_ + n <= ring_head R ->
  ring_off at_ + n <= LOG_RING ->
  returns (slice (log_ring R) (ring_off at_) n) (eq (take (Z.to_nat n) (drop (Z.to_nat at_) t))).
Proof.
  intros Ha Hn Hat Ho. pose proof (ri_len _ _ HR) as Hl. pose proof (ri_head _ _ HR) as Hh.
  pose proof (ri_tail _ _ HR). rewrite ring_off_mod in *. unfold blen in *.
  pose proof (Z.mod_pos_bound at_ LOG_RING eq_refl).
  apply slice_ok; [lia|lia|unfold blen; lia|].
  apply list_eq. intros j. destruct (decide (j < Z.to_nat n)%nat) as [Hj|Hj].
  - rewrite !lookup_take, !decide_True, !lookup_drop by done. rewrite <- (ri_byte _ _ HR) by lia. f_equal.
    rewrite Nat2Z.inj_add, Z2Nat.id by lia.
    rewrite <- (Zplus_mod_idemp_l at_), Z.mod_small by lia. lia.
  - by rewrite !lookup_take_ge by lia.
Qed.

(** How a read of [n] bytes is cut at the end of the array. *)
Definition seg_of (at_ n : Z) : Z := if n <? LOG_RING - ring_off at_ then n else LOG_RING - ring_off at_.

Lemma seg_spec at_ n : 0 <= n -> 0 <= seg_of at_ n <= n /\ ring_off at_ + seg_of at_ n <= LOG_RING /\
  (seg_of at_ n < n -> ring_off (at_ + seg_of at_ n) = 0).
Proof.
  intros Hn. pose proof (Z.mod_pos_bound at_ LOG_RING eq_refl) as Hm. rewrite <- ring_off_mod in Hm. unfold seg_of.
  destruct (Z.ltb_spec n (LOG_RING - ring_off at_)); split_ands; try lia. intros _.
  rewrite !ring_off_mod. replace (at_ + (LOG_RING - at_ mod LOG_RING)) with ((1 + at_ / LOG_RING) * LOG_RING).
  - by apply Z.mod_mul.
  - pose proof (Z.div_mod at_ LOG_RING ltac:(done)). lia.
Qed.

(** The part of a read past the end of the array. *)
Lemma ring_wrapped at_ n : ring_tail R <= at_ -> 0 <= n -> at_ + n <= ring_head R ->
  let k := seg_of at_ n in
  returns (slice (log_ring R) 0 (n - k)) (eq (take (Z.to_nat (n - k)) (drop (Z.to_nat (at_ + k)) t))).
Proof.
  intros Ha Hn Hat k. pose proof (ri_room _ _ HR). pose proof (ri_tail _ _ HR).
  destruct (seg_spec at_ n Hn) as (Hk & Hk2 & Hk3). fold k in Hk, Hk2, Hk3.
  destruct (decide (k = n)) as [Hkn|Hne].
  - rewrite Hkn, Z.sub_diag. simpl. by rewrite take_0.
  - rewrite <- Hk3 by lia. apply ring_slice; [lia..|rewrite Hk3; unfold LOG_RING in *; lia].
Qed.

Lemma read_cut at_ n k : 0 <= at_ -> 0 <= k <= n ->
  take (Z.to_nat k) (drop (Z.to_nat at_) t) ++ take (Z.to_nat (n - k)) (drop (Z.to_nat (at_ + k)) t) =
  take (Z.to_nat n) (drop (Z.to_nat at_) t).
Proof.
  intros Ha Hk. replace (Z.to_nat (at_ + k)) with (Z.to_nat at_ + Z.to_nat k)%nat by lia.
  rewrite <- drop_drop, take_take_drop. f_equal. lia.
Qed.

Lemma ring_get_spec at_ n cap : ring_tail R <= at_ -> 0 <= n -> at_ + n <= ring_head R -> n <= cap ->
  returns (ring_get R at_ n cap) (fun s => s = take (Z.to_nat n) (drop (Z.to_nat at_) t)).
Proof.
  intros Ha Hn Hat Hc. unfold ring_get. cbv zeta. fold (seg_of at_ n). pose proof (ri_tail _ _ HR).
  destruct (seg_spec at_ n Hn) as (Hk & Hk2 & _).
  eapply returns_bind; [apply ring_slice; lia|]. intros a <-.
  eapply returns_bind; [by apply ring_wrapped|]. intros b <-.
  rewrite (proj2 (Z.ltb_ge _ _)) by lia. apply read_cut; lia.
Qed.

Lemma ring_eq_spec at_ s : ring_tail R <= at_ -> at_ + blen s <= ring_head R ->
  returns (ring_eq R at_ s) (fun b => b = bytes_eqb s (take (length s) (drop (Z.to_nat at_) t))).
Proof.
  intros Ha Hat. unfold ring_eq. cbv zeta. fold (seg_of at_ (blen s)). pose proof (ri_tail _ _ HR).
  assert (0 <= blen s) as Hn by (unfold blen; lia). destruct (seg_spec at_ (blen s) Hn) as (Hk & Hk2 & _).
  set (k := seg_of at_ (blen s)) in *. pose proof (read_cut at_ (blen s) k ltac:(lia) Hk) as Hcut.
  replace (Z.to_nat (blen s)) with (length s) in Hcut by (unfold blen; lia). rewrite <- Hcut.
  eapply returns_bind; [apply ring_slice; lia|]. intros a Ea.
  assert (length a = Z.to_nat k) as Hla.
  { pose proof (ri_head _ _ HR). rewrite <- Ea, length_take, length_drop. unfold blen in *. lia. }
  rewrite Ea. clear Ea. set (rest := take _ (drop (Z.to_nat (at_ + k)) t)).
  apply (returns_mono _ (fun r => r = bytes_eqb (take (Z.to_nat k) s ++ drop (Z.to_nat k) s) (a ++ rest)));
    [|intros r; by rewrite take_drop].
  unfold bytes_eqb. destruct (bool_decide_reflect (a = take (Z.to_nat k) s)) as [Hs|Hs]; simpl.
  - eapply returns_bind; [by apply ring_wrapped|]. intros b <-. simpl. fold k rest. rewrite <- Hs.
    apply bool_decide_ext. rewrite (inj_iff (app a)). split; congruence.
  - symmetry. apply bool_decide_eq_false. intros [E _]%app_inj_1; [by symmetry in E|].
    rewrite length_take, Hla. unfold blen in *. lia.
Qed.

(** The offset past the line that starts at [at_]. *)
Lemma ring_eol_spec at_ : ring_tail R <= at_ < ring_head R ->
  returns (ring_eol 3 R at_) (fun e => e = at_ + blen (take_line (drop (Z.to_nat at_) t))).
Proof.
  intros Ha. pose proof (ring_end at_ Ha) as He. pose proof (ri_room _ _ HR). pose proof (ri_tail _ _ HR).
  pose proof (ri_short _ _ HR (Z.to_nat at_)) as Hs. pose proof (ri_head _ _ HR) as Hh.
  pose proof (length_take_line (drop (Z.to_nat at_) t)) as Hl. rewrite length_drop in Hl. unfold blen in *.
  assert (forall fuel a, ring_tail R <= a < ring_head R ->
    Z.of_nat (length (take_line (drop (Z.to_nat a) t))) <= seg_of a (ring_head R - a) ->
    returns (ring_eol (S fuel) R a) (fun e => e = a + blen (take_line (drop (Z.to_nat a) t)))) as Hone.
  { intros fuel a Hin Hfit. cbn [ring_eol]. cbv zeta. fold (seg_of a (ring_head R - a)).
    destruct (seg_spec a (ring_head R - a)) as (Hk & Hk2 & _); [lia|].
    eapply returns_bind; [apply ring_slice; lia|]. intros s <-.
    rewrite find_nl_line by (by apply ring_end). rewrite (proj2 (Nat.leb_le _ _)) by lia. simpl. unfold blen. lia. }
  destruct (seg_spec at_ (ring_head R - at_)) as (Hk & Hk2 & Hk3); [lia|].
  set (k := seg_of at_ (ring_head R - at_)) in *.
  destruct (Z.leb_spec (Z.of_nat (length (take_line (drop (Z.to_nat at_) t)))) k) as [|Hlt]; [by apply Hone|].
  change 3%nat with (S 2). cbn [ring_eol]. cbv zeta. fold (seg_of at_ (ring_head R - at_)). fold k.
  eapply returns_bind; [apply ring_slice; lia|]. intros s <-.
  rewrite find_nl_line by done. rewrite (proj2 (Nat.leb_gt _ _)) by lia.
  assert (take_line (drop (Z.to_nat (at_ + k)) t) = drop (Z.to_nat k) (take_line (drop (Z.to_nat at_) t))) as Hrest.
  { replace (Z.to_nat (at_ + k)) with (Z.to_nat at_ + Z.to_nat k)%nat by lia. rewrite <- drop_drop.
    apply take_line_drop. lia. }
  eapply returns_mono; [apply (Hone 1%nat (at_ + k)); [lia|]|].
  - rewrite Hrest, length_drop. unfold seg_of. rewrite Hk3 by lia. unfold LOG_RING, LOG_LINE in *.
    destruct (_ <? _); lia.
  - intros e ->. rewrite Hrest. unfold blen. rewrite length_drop. lia.
Qed.

End Read.

Arguments ring_get_spec {R t}.

(** Dropping the oldest line. *)
Lemma ring_ok_drop R t : ring_ok R t -> ring_tail R < ring_head R ->
  ring_ok (Ring (log_ring R) (ring_head R) (ring_tail R + blen (take_line (drop (Z.to_nat (ring_tail R)) t)))) t.
Proof.
  intros HR Hlt. pose proof (ri_head _ _ HR) as Hh. pose proof (ri_tail _ _ HR). unfold blen in *.
  pose proof (length_take_line (drop (Z.to_nat (ring_tail R)) t)) as Hl. rewrite length_drop in Hl.
  pose proof (ring_end R t HR (ring_tail R) ltac:(lia)) as He.
  destruct (take_line_nl _ He) as (s & Hs & _). set (l := take_line _) in *.
  assert (0 < length l)%nat as Hpos by (rewrite Hs, length_app; simpl; lia).
  constructor; simpl; try apply HR; try lia.
  - pose proof (ri_room _ _ HR). lia.
  - intros k Hk. apply (ri_byte _ _ HR). lia.
  - right. replace (Z.to_nat (ring_tail R + Z.of_nat (length l)) - 1)%nat
      with (Z.to_nat (ring_tail R) + (length l - 1))%nat by lia.
    rewrite <- lookup_drop. rewrite <- (lookup_take_lt _ (length l)) by lia.
    pose proof (take_line_prefix (drop (Z.to_nat (ring_tail R)) t)) as Hp. fold l in Hp. rewrite <- Hp, Hs, length_app. simpl. by rewrite list_lookup_middle by lia.
Qed.

Lemma ring_evict_spec fuel R t n : ring_ok R t -> 0 <= n <= LOG_RING ->
  (Z.to_nat (ring_head R - ring_tail R) < fuel)%nat ->
  returns (ring_evict fuel R n) (fun R' => ring_ok R' t /\ log_ring R' = log_ring R /\
    ring_tail R <= ring_tail R' /\ ring_head R' + n - ring_tail R' <= LOG_RING /\
    (ring_tail R' = ring_tail R \/ LOG_RING - LOG_LINE < ring_head R' + n - ring_tail R')).
Proof.
  revert R. induction fuel as [|fuel IH]; intros R HR Hn Hf; [lia|]. cbn [ring_evict].
  destruct (Z.ltb_spec LOG_RING (ring_head R + n - ring_tail R)); [|simpl; split_ands; auto; lia].
  assert (ring_tail R < ring_head R) as Hlt by lia. pose proof (ri_tail _ _ HR). pose proof (ri_head _ _ HR) as Hh.
  eapply returns_bind; [apply (ring_eol_spec R t HR); lia|]. intros e ->.
  assert (0 < length (take_line (drop (Z.to_nat (ring_tail R)) t)))%nat as Hpos.
  { apply take_line_pos. intros E. apply (f_equal length) in E.
    rewrite length_drop in E. unfold blen in *. simpl in E. lia. }
  eapply returns_mono; [apply IH; [by apply ring_ok_drop|done|simpl; unfold blen; lia]|]. simpl. clear IH.
  pose proof (ri_short _ _ HR (Z.to_nat (ring_tail R))) as Hsh. unfold LOG_LINE in *.
  intros R' (H1 & H2 & H3 & H4 & H5). pose proof (ri_head _ _ H1). unfold blen in *. split_ands; try done; try lia.
Qed.

Lemma take_line_app_short a b n : (forall k, (length (take_line (drop k a)) <= n)%nat) -> ends_line a \/ a = [] ->
  (forall k, (length (take_line (drop k b)) <= n)%nat) ->
  forall k, (length (take_line (drop k (a ++ b))) <= n)%nat.
Proof.
  intros Ha He Hb k. destruct (decide (k < length a)%nat) as [Hk|Hk].
  - rewrite drop_app_le by lia. destruct He as [He| ->]; [|simpl in Hk; lia].
    rewrite take_line_app_l by (by apply ends_line_drop). apply Ha.
  - rewrite drop_app_ge by lia. apply Hb.
Qed.

Lemma blit_lookup (l s : bytes) off j : (Z.to_nat off + length s <= length l)%nat ->
  (take (Z.to_nat off) l ++ s ++ drop (Z.to_nat off + length s) l) !! j =
  if decide (Z.to_nat off <= j < Z.to_nat off + length s)%nat then s !! (j - Z.to_nat off)%nat else l !! j.
Proof.
  intros Hl. assert (length (take (Z.to_nat off) l) = Z.to_nat off) as Ht by (rewrite length_take; lia).
  destruct (decide (Z.to_nat off <= j)%nat) as [H1|H1].
  - rewrite lookup_app_r by lia. rewrite Ht. destruct (decide (j < Z.to_nat off + length s)%nat) as [H2|H2].
    + rewrite decide_True by lia. by rewrite lookup_app_l by lia.
    + rewrite decide_False by lia. rewrite lookup_app_r by lia. rewrite lookup_drop. f_equal. lia.
  - rewrite decide_False by lia. rewrite lookup_app_l by lia. by rewrite lookup_take_lt by lia.
Qed.

(** Where a byte sits that is still in the ring after the next [n] bytes. *)
Lemma mod_before h n k j : 0 <= k <= n -> h mod LOG_RING + k <= LOG_RING ->
  (k < n -> h mod LOG_RING + k = LOG_RING) -> h + n - LOG_RING <= j < h -> 0 <= j ->
  let m := j mod LOG_RING in ~ (h mod LOG_RING <= m < h mod LOG_RING + k) /\ n - k <= m.
Proof.
  intros Hk H1 H2 Hj Hj0 m. pose proof (Z.mod_pos_bound h LOG_RING eq_refl) as Hm. pose proof (Z.mod_pos_bound j LOG_RING eq_refl) as Hmj. fold m in Hmj.
  assert (m = h mod LOG_RING - (h - j) \/ m = h mod LOG_RING - (h - j) + LOG_RING) as Hc; [|lia].
  destruct (Z.leb_spec (h - j) (h mod LOG_RING)).
  - left. symmetry. unfold m. apply (Z.mod_unique_pos _ _ (h / LOG_RING)); [unfold LOG_RING in *; lia|].
    pose proof (Z.div_mod h LOG_RING ltac:(done)). lia.
  - right. symmetry. unfold m. apply (Z.mod_unique_pos _ _ (h / LOG_RING - 1)); [unfold LOG_RING in *; lia|].
    pose proof (Z.div_mod h LOG_RING ltac:(done)). lia.
Qed.

Lemma mod_after h n k i : 0 <= k <= n -> n <= LOG_RING -> h mod LOG_RING + k <= LOG_RING ->
  (k < n -> h mod LOG_RING + k = LOG_RING) -> 0 <= i < n ->
  (h + i) mod LOG_RING = if i <? k then h mod LOG_RING + i else i - k.
Proof.
  intros Hk Hn H1 H2 Hi. pose proof (Z.mod_pos_bound h LOG_RING eq_refl) as Hm.
  pose proof (Z.div_mod h LOG_RING ltac:(done)).
  symmetry. destruct (Z.ltb_spec i k).
  - apply (Z.mod_unique_pos _ _ (h / LOG_RING)); [lia|lia].
  - apply (Z.mod_unique_pos _ _ (h / LOG_RING + 1)); [lia|]. lia.
Qed.

(** The array after the two copies of [ring_put]. *)
Lemma ring_put_holds R t (s : bytes) off k (a b : bytes) : ring_ok R t -> ends_line s -> blen s <= LOG_LINE ->
  (forall j, (length (take_line (drop j s)) <= Z.to_nat LOG_LINE)%nat) ->
  off = ring_head R mod LOG_RING -> 0 <= k <= blen s -> off + k <= LOG_RING -> (k < blen s -> off + k = LOG_RING) ->
  ring_head R + blen s - ring_tail R <= LOG_RING ->
  (forall j, a !! j = if decide (Z.to_nat off <= j < Z.to_nat off + Z.to_nat k)%nat
     then s !! (j - Z.to_nat off)%nat else log_ring R !! j) ->
  (forall j, b !! j = if decide (j < length s - Z.to_nat k)%nat then s !! (Z.to_nat k + j)%nat else a !! j) ->
  blen b = LOG_RING ->
  ring_ok (Ring b (ring_head R + blen s) (ring_tail R)) (t ++ s).
Proof.
  intros HR Hs Hsn Hshort -> Hk Hk2 Hk3 Hroom Hja Hjb Hlb.
  pose proof (ri_head _ _ HR) as Hh. pose proof (ri_tail _ _ HR) as Ht. unfold blen in *.
  pose proof (Z.mod_pos_bound (ring_head R) LOG_RING eq_refl) as Hm.
  constructor; simpl; unfold blen; rewrite ?length_app; try done; try lia.
  - intros j Hj. rewrite Hjb, Hja. destruct (decide (j < length t)%nat) as [Hjt|Hjt].
    + rewrite lookup_app_l by lia.
      destruct (mod_before (ring_head R) (Z.of_nat (length s)) k (Z.of_nat j)) as [M1 M2]; [lia..|].
      rewrite !decide_False by lia. apply (ri_byte _ _ HR). lia.
    + rewrite lookup_app_r by lia.
      replace (Z.of_nat j) with (ring_head R + (Z.of_nat j - ring_head R)) by lia.
      rewrite (mod_after _ (Z.of_nat (length s)) k) by (unfold LOG_RING, LOG_LINE in *; lia).
      destruct (Z.ltb_spec (Z.of_nat j - ring_head R) k).
      * rewrite decide_False, decide_True by lia. f_equal. lia.
      * rewrite decide_True by lia. f_equal. lia.
  - destruct (ri_start _ _ HR) as [|E]; [by left|]. right.
    rewrite lookup_app_l; [done|]. by apply lookup_lt_Some in E.
  - right. destruct Hs as [s' ->]. exists (t ++ s'). by rewrite app_assoc.
  - apply take_line_app_short; [apply HR|destruct (ri_ends _ _ HR); auto|done].
Qed.

(** A line is put behind the others, and the oldest lines make room for it. *)
Lemma ring_put_spec R t s : ring_ok R t -> ends_line s -> (length s <= Z.to_nat LOG_LINE)%nat ->
  returns (ring_put R s) (fun R' => ring_ok R' (t ++ s) /\ ring_tail R <= ring_tail R' /\
    (ring_tail R' = ring_tail R \/ LOG_RING - LOG_LINE < ring_head R' - ring_tail R')).
Proof.
  intros HR Hs Hlen. unfold ring_put. cbv zeta. pose proof (ri_tail _ _ HR).
  assert (0 < blen s <= LOG_LINE) as Hsn.
  { destruct Hs as [s' ->]. unfold blen, LOG_LINE in *. rewrite length_app in *. simpl in *. lia. }
  eapply returns_bind; [apply (ring_evict_spec _ R t (blen s)); [done|unfold LOG_RING, LOG_LINE in *; lia|lia]|].
  intros R1 (H1 & Hlog & Htl & Hroom & Hleast).
  pose proof (ri_len _ _ H1) as Hl. pose proof (ri_head _ _ H1) as Hh. pose proof (ri_tail _ _ H1) as Ht1.
  pose proof (ri_head _ _ HR) as Hh0. assert (ring_head R1 = ring_head R) as Eh by lia. rewrite Eh in *.
  pose proof (Z.mod_pos_bound (ring_head R) LOG_RING eq_refl) as Hm. rewrite ring_off_mod.
  set (off := ring_head R mod LOG_RING) in *.
  set (k := if blen s <? LOG_RING - off then blen s else LOG_RING - off).
  assert (0 <= k <= blen s /\ off + k <= LOG_RING /\ (k < blen s -> off + k = LOG_RING)) as (Hk & Hk2 & Hk3).
  { unfold k. destruct (Z.ltb_spec (blen s) (LOG_RING - off)); lia. }
  assert (length (take (Z.to_nat k) s) = Z.to_nat k) as Hlk by (rewrite length_take; unfold blen in *; lia).
  assert (length (drop (Z.to_nat k) s) = (length s - Z.to_nat k)%nat) as Hldk by (by rewrite length_drop).
  eapply returns_bind; [apply blit_ok; [lia|unfold blen in *; lia]|]. intros a Ea.
  assert (forall j, a !! j = if decide (Z.to_nat off <= j < Z.to_nat off + Z.to_nat k)%nat
    then s !! (j - Z.to_nat off)%nat else log_ring R1 !! j) as Hja.
  { intros j. rewrite <- Ea, blit_lookup by (unfold blen in *; lia). rewrite Hlk.
    destruct (decide _); [|done]. by rewrite lookup_take_lt by lia. }
  assert (blen a = LOG_RING) as Hla.
  { rewrite <- Ea. unfold blen in *. rewrite !length_app, length_take, length_drop. lia. }
  eapply returns_bind; [apply blit_ok; [lia|unfold blen, LOG_RING, LOG_LINE in *; lia]|].
  intros b Eb. assert (forall j, b !! j = if decide (j < length s - Z.to_nat k)%nat
    then s !! (Z.to_nat k + j)%nat else a !! j) as Hjb.
  { intros j. rewrite <- Eb, blit_lookup by (unfold blen, LOG_RING, LOG_LINE in *; lia). rewrite Hldk. simpl.
    destruct (decide _), (decide _); try lia; [|done]. rewrite lookup_drop. f_equal. lia. }
  assert (blen b = LOG_RING) as Hlb.
  { rewrite <- Eb. unfold blen, LOG_RING, LOG_LINE in *. rewrite !length_app, !length_take, !length_drop. simpl. lia. }
  simpl. split; [|split; [done|destruct Hleast; auto; right; lia]]. rewrite <- Eh. eapply (ring_put_holds R1 t s off k a b); eauto; rewrite ?Eh; try lia.
  intros j. pose proof (length_take_line (drop j s)). rewrite length_drop in *. lia.
Qed.

(** A read of what may have been overwritten stays within the array. *)
Lemma ring_get_within R t at_ n cap : ring_ok R t -> 0 <= at_ -> 0 <= n <= LOG_RING -> n <= cap ->
  returns (ring_get R at_ n cap) (fun s => blen s = n).
Proof.
  intros HR Ha Hn Hc. unfold ring_get. cbv zeta. fold (seg_of at_ n). pose proof (ri_len _ _ HR) as Hl.
  destruct (seg_spec at_ n ltac:(lia)) as (Hk & Hk2 & _). set (k := seg_of at_ n) in *.
  pose proof (Z.mod_pos_bound at_ LOG_RING eq_refl) as Hm. rewrite <- ring_off_mod in Hm.
  assert (forall o m, 0 <= o -> 0 <= m -> o + m <= LOG_RING -> returns (slice (log_ring R) o m) (fun s => blen s = m)) as Hs.
  { intros o m H1 H2 H3. apply slice_ok; [lia..|]. unfold blen in *. rewrite length_take, length_drop. lia. }
  eapply returns_bind; [apply Hs; lia|]. intros a Ea. eapply returns_bind; [apply Hs; lia|]. intros b Eb.
  rewrite (proj2 (Z.ltb_ge _ _)) by lia. simpl. unfold blen in *. rewrite length_app. lia.
Qed.
