(* ===== verification/Log.v ===== *)
(** * The log (src/logging.c)

    A message becomes a line of the ring and of the console, unless it repeats
    the lines before it: those are held back and counted. The functions of the
    source over the static variables of the file, one record field each. *)

From S2P Require Import Prelude Ring.

Definition LOG_WRITE_MS : Z := 100.
Definition LOG_BATCH_MS : Z := 250.
Definition LOG_CON : Z := LOG_LINE + 16.
Definition LOG_REPEAT : Z := 16.
Definition LOG_SEEN : Z := 2 * LOG_REPEAT.
Definition LOG_HOLD_MS : Z := 1000.
Definition LOG_PREFIX_MAX : Z := 64.

(** [%03d] of a number that is not negative. *)
Definition dec3 (x : Z) : bytes := let d := dec x in replicate (3 - length d) 48 ++ d.

(** [tag_plain] and [tag_color] *)
Definition tag_plain : list bytes := [bs "DONE"; []; bs "WARN"; bs "FAIL"; bs "WAIT"; bs "NOTE"].
Definition esc (code tag : string) : bytes := 27 :: bs "[" ++ bs code ++ bs tag ++ 27 :: bs "[0m".
Definition tag_color : list bytes :=
  [esc "32m" "DONE"; []; esc "33m" "WARN"; esc "31m" "FAIL"; esc "1;34m" "WAIT"; esc "36m" "NOTE"].

Definition repeat_ms : list Z := [30000; 120000; 600000].

(** struct seen *)
Record seen := Seen {
  s_at : Z;
  s_hash : Z;
  s_len : Z;
  s_key : Z;
}.

(** A line of the log as the reader understands it: a message, the note that
    the last [len] messages came [count] times more, or the greeting. *)
Inductive entry :=
  | ELine (key ms : Z) (body : bytes)
  | ERepeat (key ms : Z) (len count : Z)
  | EText (text : bytes).

(** The static variables. [log_pend] is the first [pend_len] bytes of the
    array. For the theorems, [entries] is what has been put into the ring,
    [con_out] what the console took and [l_calls] how many calls to the kernel
    were made. *)
Record logst := Log {
  l_ring : ring;
  l_seen : list seen;
  seen_n : Z;
  rep_len : Z;
  rep_pos : Z;
  rep_count : Z;
  rep_backoff : Z;
  rep_ms : Z;
  rep_due : Z;
  hold_due : Z;
  hold_ms : list Z;
  first_ms : list Z;
  log_start : Z;
  log_fd : Z;
  log_color : bool;
  log_dropped : Z;
  log_stalled : bool;
  log_wait_until : Z;
  log_pend : bytes;
  pend_at : Z;
  entries : list entry;
  con_out : bytes;
  l_calls : nat;
}.

Definition set_l_ring (v : ring) (L : logst) : logst :=
  Log v (l_seen L) (seen_n L) (rep_len L) (rep_pos L) (rep_count L) (rep_backoff L) (rep_ms
    L) (rep_due L) (hold_due L) (hold_ms L) (first_ms L) (log_start L) (log_fd L) (log_color
    L) (log_dropped L) (log_stalled L) (log_wait_until L) (log_pend L) (pend_at L) (entries
    L) (con_out L) (l_calls L).
Definition set_l_seen (v : list seen) (L : logst) : logst :=
  Log (l_ring L) v (seen_n L) (rep_len L) (rep_pos L) (rep_count L) (rep_backoff L) (rep_ms
    L) (rep_due L) (hold_due L) (hold_ms L) (first_ms L) (log_start L) (log_fd L) (log_color
    L) (log_dropped L) (log_stalled L) (log_wait_until L) (log_pend L) (pend_at L) (entries
    L) (con_out L) (l_calls L).
Definition set_seen_n (v : Z) (L : logst) : logst :=
  Log (l_ring L) (l_seen L) v (rep_len L) (rep_pos L) (rep_count L) (rep_backoff L) (rep_ms
    L) (rep_due L) (hold_due L) (hold_ms L) (first_ms L) (log_start L) (log_fd L) (log_color
    L) (log_dropped L) (log_stalled L) (log_wait_until L) (log_pend L) (pend_at L) (entries
    L) (con_out L) (l_calls L).
Definition set_rep_len (v : Z) (L : logst) : logst :=
  Log (l_ring L) (l_seen L) (seen_n L) v (rep_pos L) (rep_count L) (rep_backoff L) (rep_ms
    L) (rep_due L) (hold_due L) (hold_ms L) (first_ms L) (log_start L) (log_fd L) (log_color
    L) (log_dropped L) (log_stalled L) (log_wait_until L) (log_pend L) (pend_at L) (entries
    L) (con_out L) (l_calls L).
Definition set_rep_pos (v : Z) (L : logst) : logst :=
  Log (l_ring L) (l_seen L) (seen_n L) (rep_len L) v (rep_count L) (rep_backoff L) (rep_ms
    L) (rep_due L) (hold_due L) (hold_ms L) (first_ms L) (log_start L) (log_fd L) (log_color
    L) (log_dropped L) (log_stalled L) (log_wait_until L) (log_pend L) (pend_at L) (entries
    L) (con_out L) (l_calls L).
Definition set_rep_count (v : Z) (L : logst) : logst :=
  Log (l_ring L) (l_seen L) (seen_n L) (rep_len L) (rep_pos L) v (rep_backoff L) (rep_ms L)
    (rep_due L) (hold_due L) (hold_ms L) (first_ms L) (log_start L) (log_fd L) (log_color L)
    (log_dropped L) (log_stalled L) (log_wait_until L) (log_pend L) (pend_at L) (entries L)
    (con_out L) (l_calls L).
Definition set_rep_backoff (v : Z) (L : logst) : logst :=
  Log (l_ring L) (l_seen L) (seen_n L) (rep_len L) (rep_pos L) (rep_count L) v (rep_ms L)
    (rep_due L) (hold_due L) (hold_ms L) (first_ms L) (log_start L) (log_fd L) (log_color L)
    (log_dropped L) (log_stalled L) (log_wait_until L) (log_pend L) (pend_at L) (entries L)
    (con_out L) (l_calls L).
Definition set_rep_ms (v : Z) (L : logst) : logst :=
  Log (l_ring L) (l_seen L) (seen_n L) (rep_len L) (rep_pos L) (rep_count L) (rep_backoff L)
    v (rep_due L) (hold_due L) (hold_ms L) (first_ms L) (log_start L) (log_fd L) (log_color
    L) (log_dropped L) (log_stalled L) (log_wait_until L) (log_pend L) (pend_at L) (entries
    L) (con_out L) (l_calls L).
Definition set_rep_due (v : Z) (L : logst) : logst :=
  Log (l_ring L) (l_seen L) (seen_n L) (rep_len L) (rep_pos L) (rep_count L) (rep_backoff L)
    (rep_ms L) v (hold_due L) (hold_ms L) (first_ms L) (log_start L) (log_fd L) (log_color
    L) (log_dropped L) (log_stalled L) (log_wait_until L) (log_pend L) (pend_at L) (entries
    L) (con_out L) (l_calls L).
Definition set_hold_due (v : Z) (L : logst) : logst :=
  Log (l_ring L) (l_seen L) (seen_n L) (rep_len L) (rep_pos L) (rep_count L) (rep_backoff L)
    (rep_ms L) (rep_due L) v (hold_ms L) (first_ms L) (log_start L) (log_fd L) (log_color L)
    (log_dropped L) (log_stalled L) (log_wait_until L) (log_pend L) (pend_at L) (entries L)
    (con_out L) (l_calls L).
Definition set_hold_ms (v : list Z) (L : logst) : logst :=
  Log (l_ring L) (l_seen L) (seen_n L) (rep_len L) (rep_pos L) (rep_count L) (rep_backoff L)
    (rep_ms L) (rep_due L) (hold_due L) v (first_ms L) (log_start L) (log_fd L) (log_color
    L) (log_dropped L) (log_stalled L) (log_wait_until L) (log_pend L) (pend_at L) (entries
    L) (con_out L) (l_calls L).
Definition set_first_ms (v : list Z) (L : logst) : logst :=
  Log (l_ring L) (l_seen L) (seen_n L) (rep_len L) (rep_pos L) (rep_count L) (rep_backoff L)
    (rep_ms L) (rep_due L) (hold_due L) (hold_ms L) v (log_start L) (log_fd L) (log_color L)
    (log_dropped L) (log_stalled L) (log_wait_until L) (log_pend L) (pend_at L) (entries L)
    (con_out L) (l_calls L).
Definition set_log_start (v : Z) (L : logst) : logst :=
  Log (l_ring L) (l_seen L) (seen_n L) (rep_len L) (rep_pos L) (rep_count L) (rep_backoff L)
    (rep_ms L) (rep_due L) (hold_due L) (hold_ms L) (first_ms L) v (log_fd L) (log_color L)
    (log_dropped L) (log_stalled L) (log_wait_until L) (log_pend L) (pend_at L) (entries L)
    (con_out L) (l_calls L).
Definition set_log_fd (v : Z) (L : logst) : logst :=
  Log (l_ring L) (l_seen L) (seen_n L) (rep_len L) (rep_pos L) (rep_count L) (rep_backoff L)
    (rep_ms L) (rep_due L) (hold_due L) (hold_ms L) (first_ms L) (log_start L) v (log_color
    L) (log_dropped L) (log_stalled L) (log_wait_until L) (log_pend L) (pend_at L) (entries
    L) (con_out L) (l_calls L).
Definition set_log_color (v : bool) (L : logst) : logst :=
  Log (l_ring L) (l_seen L) (seen_n L) (rep_len L) (rep_pos L) (rep_count L) (rep_backoff L)
    (rep_ms L) (rep_due L) (hold_due L) (hold_ms L) (first_ms L) (log_start L) (log_fd L) v
    (log_dropped L) (log_stalled L) (log_wait_until L) (log_pend L) (pend_at L) (entries L)
    (con_out L) (l_calls L).
Definition set_log_dropped (v : Z) (L : logst) : logst :=
  Log (l_ring L) (l_seen L) (seen_n L) (rep_len L) (rep_pos L) (rep_count L) (rep_backoff L)
    (rep_ms L) (rep_due L) (hold_due L) (hold_ms L) (first_ms L) (log_start L) (log_fd L)
    (log_color L) v (log_stalled L) (log_wait_until L) (log_pend L) (pend_at L) (entries L)
    (con_out L) (l_calls L).
Definition set_log_stalled (v : bool) (L : logst) : logst :=
  Log (l_ring L) (l_seen L) (seen_n L) (rep_len L) (rep_pos L) (rep_count L) (rep_backoff L)
    (rep_ms L) (rep_due L) (hold_due L) (hold_ms L) (first_ms L) (log_start L) (log_fd L)
    (log_color L) (log_dropped L) v (log_wait_until L) (log_pend L) (pend_at L) (entries L)
    (con_out L) (l_calls L).
Definition set_log_wait_until (v : Z) (L : logst) : logst :=
  Log (l_ring L) (l_seen L) (seen_n L) (rep_len L) (rep_pos L) (rep_count L) (rep_backoff L)
    (rep_ms L) (rep_due L) (hold_due L) (hold_ms L) (first_ms L) (log_start L) (log_fd L)
    (log_color L) (log_dropped L) (log_stalled L) v (log_pend L) (pend_at L) (entries L)
    (con_out L) (l_calls L).
Definition set_log_pend (v : bytes) (L : logst) : logst :=
  Log (l_ring L) (l_seen L) (seen_n L) (rep_len L) (rep_pos L) (rep_count L) (rep_backoff L)
    (rep_ms L) (rep_due L) (hold_due L) (hold_ms L) (first_ms L) (log_start L) (log_fd L)
    (log_color L) (log_dropped L) (log_stalled L) (log_wait_until L) v (pend_at L) (entries
    L) (con_out L) (l_calls L).
Definition set_pend_at (v : Z) (L : logst) : logst :=
  Log (l_ring L) (l_seen L) (seen_n L) (rep_len L) (rep_pos L) (rep_count L) (rep_backoff L)
    (rep_ms L) (rep_due L) (hold_due L) (hold_ms L) (first_ms L) (log_start L) (log_fd L)
    (log_color L) (log_dropped L) (log_stalled L) (log_wait_until L) (log_pend L) v (entries
    L) (con_out L) (l_calls L).
Definition set_entries (v : list entry) (L : logst) : logst :=
  Log (l_ring L) (l_seen L) (seen_n L) (rep_len L) (rep_pos L) (rep_count L) (rep_backoff L)
    (rep_ms L) (rep_due L) (hold_due L) (hold_ms L) (first_ms L) (log_start L) (log_fd L)
    (log_color L) (log_dropped L) (log_stalled L) (log_wait_until L) (log_pend L) (pend_at
    L) v (con_out L) (l_calls L).
Definition set_con_out (v : bytes) (L : logst) : logst :=
  Log (l_ring L) (l_seen L) (seen_n L) (rep_len L) (rep_pos L) (rep_count L) (rep_backoff L)
    (rep_ms L) (rep_due L) (hold_due L) (hold_ms L) (first_ms L) (log_start L) (log_fd L)
    (log_color L) (log_dropped L) (log_stalled L) (log_wait_until L) (log_pend L) (pend_at
    L) (entries L) v (l_calls L).
Definition set_l_calls (v : nat) (L : logst) : logst :=
  Log (l_ring L) (l_seen L) (seen_n L) (rep_len L) (rep_pos L) (rep_count L) (rep_backoff L)
    (rep_ms L) (rep_due L) (hold_due L) (hold_ms L) (first_ms L) (log_start L) (log_fd L)
    (log_color L) (log_dropped L) (log_stalled L) (log_wait_until L) (log_pend L) (pend_at
    L) (entries L) (con_out L) v.

(** ** The monad of the log *)

Definition LM (A : Type) : Type := logst -> vres (A * logst).

#[export] Instance LM_ret : MRet LM := fun A a L => VOk (a, L).
#[export] Instance LM_bind : MBind LM := fun A B f m L => vbind (m L) (fun r => f r.1 r.2).

Definition lgets {A} (f : logst -> A) : LM A := fun L => VOk (f L, L).
Definition lmod (f : logst -> logst) : LM unit := fun L => VOk (tt, f L).
Definition lres {A} (v : vres A) : LM A := fun L => vbind v (fun a => VOk (a, L)).
Definition lwhen (b : bool) (m : LM unit) : LM unit := if b then m else mret tt.

(** [a[i]] and [a[i] = v] *)
Definition lat {A} (l : list A) (i : Z) : LM A := lres (if 0 <=? i then of_opt (l !! Z.to_nat i) else VFault).
Definition lput {A} (l : list A) (i : Z) (v : A) : LM (list A) :=
  lres (if (0 <=? i) && (i <? Z.of_nat (length l)) then VOk (<[Z.to_nat i := v]> l) else VFault).

(** [for(k = i; n more times; k++) body k] *)
Fixpoint lfor (n : nat) (i : Z) (body : Z -> LM unit) : LM unit :=
  match n with
  | O => mret tt
  | S n' => body i;; lfor n' (i + 1) body
  end.

(** The clock in ms, and [write] to the console: the number of bytes it took or
    errno, as functions of how many calls have been made. *)
Class LogOs := {
  lo_clock : nat -> Z;
  lo_write : nat -> Z -> bytes -> Z + Z;
  lo_patience : nat;
}.

Section Ops.
Context `{LogOs}.

Definition lcall {A} (f : nat -> A) : LM A := fun L => VOk (f (l_calls L), set_l_calls (S (l_calls L)) L).
Definition mono_ms : LM Z := lcall lo_clock.
Definition lpoll : LM unit := lcall (fun _ => tt).

(** ** The console *)

Definition log_batch_begin : LM unit :=
  t ← mono_ms; lmod (fun L => set_log_stalled false (set_log_wait_until (t + LOG_BATCH_MS) L)).

(** The console takes nothing more for now: the deadline to wait for, [None] to
    stop waiting. *)
Definition log_full (deadline : Z) (wait : bool) : LM (option Z) :=
  if negb wait then mret None else
  now ← mono_ms;
  L ← lgets id;
  if log_stalled L || (log_wait_until L <=? now) then mret None else
  if deadline =? 0 then
    lpoll;; mret (Some (Z.min (now + LOG_WRITE_MS) (log_wait_until L)))
  else if deadline <=? now then lmod (set_log_stalled true);; mret None
  else lpoll;; mret (Some deadline).

(** [while(done < len)]; the result is -1 on a hard error. *)
Fixpoint log_push (fuel : nat) (buf : bytes) (done_ deadline : Z) (wait : bool) : LM Z :=
  if blen buf <=? done_ then mret done_ else
  match fuel with
  | O => lres VDiverge
  | S fuel' =>
      fd ← lgets log_fd;
      w ← lcall (fun n => lo_write n fd (drop (Z.to_nat done_) buf));
      let wait_more := d ← log_full deadline wait;
                       match d with Some d => log_push fuel' buf done_ d wait | None => mret done_ end in
      match w with
      | inl k =>
          if 0 <? k then
            lmod (fun L => set_log_stalled false
              (set_con_out (con_out L ++ take (Z.to_nat k) (drop (Z.to_nat done_) buf)) L));;
            log_push fuel' buf (done_ + k) deadline wait
          else wait_more
      | inr e =>
          if e =? EINTR then log_push fuel' buf done_ deadline wait
          else if negb (e =? EAGAIN) then mret (-1) else wait_more
      end
  end.

(** Each turn that is not an interruption writes a byte or waits; see
    [log_push_spec]. *)
Definition push_fuel (buf : bytes) : nat := (length buf + lo_patience + 3) * S lo_patience.

Definition push (buf : bytes) (wait : bool) : LM Z := log_push (push_fuel buf) buf 0 0 wait.

(** What is left of a line the console took in part. *)
Definition pend_rest (L : logst) : bytes := drop (Z.to_nat (pend_at L)) (log_pend L).

Definition pend_clear : LM unit := lmod (fun L => set_pend_at 0 (set_log_pend [] L)).

(** A line reaches the console whole or not at all. *)
Definition log_write (buf : bytes) : LM bool :=
  pend ← lgets log_pend;
  ok ← (if decide (pend = []) then mret true else
        rest ← lgets pend_rest;
        n ← push rest true;
        if (n <? 0) || (n <? blen rest) then
          (if n <? 0 then pend_clear else lmod (fun L => set_pend_at (pend_at L + n) L));;
          mret false
        else pend_clear;; mret true);
  if negb ok then mret false else
  n ← push buf true;
  if n =? blen buf then mret true else
  if (n <=? 0) || (LOG_CON <? blen buf - n) then mret false else
  lmod (set_log_pend (drop (Z.to_nat n) buf));; mret true.

Definition log_pending_fd : LM Z := L ← lgets id; mret (if decide (log_pend L = []) then -1 else log_fd L).

(** A wakeup that writes nothing gives up the line. *)
Definition log_flush : LM unit :=
  rest ← lgets pend_rest;
  n ← push rest false;
  lwhen (0 <? n) (lmod (fun L => set_pend_at (pend_at L + n) L));;
  L ← lgets id;
  lwhen ((n <=? 0) || (pend_at L =? blen (log_pend L)))
    (lwhen (n <=? 0) (lmod (fun L => set_log_dropped (u32 (log_dropped L + 1)) L));; pend_clear).

(** ** Lines *)

Definition log_elapsed_ms : LM Z :=
  t ← mono_ms; s ← lgets log_start; mret (if t - s <? 0 then 0 else t - s).

(** [snprintf] of [text] behind [p] in a buffer of [cap] bytes. *)
Definition fit (cap : Z) (p text : bytes) : bytes := p ++ take (Z.to_nat (cap - 1 - blen p)) text.

(** The same with a newline instead of the last byte. *)
Definition line_of (cap : Z) (p text : bytes) : bytes := take (Z.to_nat (cap - 2)) (fit cap p text) ++ [10].

Definition prefix (cap : Z) (tag : bytes) (ms : Z) : bytes :=
  take (Z.to_nat LOG_PREFIX_MAX)
    (take (Z.to_nat (cap - 1)) (bs "[" ++ dec3 (ms / 1000) ++ bs "." ++ dec3 (ms mod 1000) ++ bs "] " ++ tag ++ bs " > ")).

Definition tag_of (tags : list bytes) (level : Z) : LM bytes := lat tags level.

Definition log_head (level ms : Z) : LM bytes :=
  if level =? LOG_INFO then mret [] else t ← tag_of tag_plain level; mret (prefix LOG_LINE t ms).

(** The line at [at_] and the offset after it; a reader the ring has overtaken
    gets a notice, and the end of the log no line. *)
Definition log_line (at_ : Z) : LM (bytes * Z) :=
  R ← lgets l_ring;
  if at_ <? ring_tail R then
    ms ← log_elapsed_ms;
    t ← tag_of tag_plain LOG_WARN;
    mret (fit LOG_LINE (prefix LOG_LINE t ms) (bs "log: skipped " ++ dec (u64 (ring_tail R - at_)) ++ bs " bytes" ++ [10]),
          ring_tail R)
  else if ring_head R <=? at_ then mret ([], at_) else
  e ← lres (ring_eol 3 R at_);
  s ← lres (ring_get R at_ (e - at_) LOG_LINE);
  mret (s, e).

Definition log_report_dropped (lost : Z) : LM bool :=
  c ← lgets log_color;
  ms ← log_elapsed_ms;
  t ← tag_of (if (c : bool) then tag_color else tag_plain) LOG_WARN;
  log_write (line_of 160 (prefix 160 t ms) (bs "console: dropped " ++ dec lost ++ bs " message" ++ plural lost)).

(** [key] is the level with [LOG_NOCON], the body of the line is at [p]. *)
Definition log_out (key ms : Z) (buf : bytes) (p : Z) (e : entry) : LM unit :=
  R ← lgets l_ring;
  R ← lres (ring_put R buf);
  lmod (fun L => set_entries (entries L ++ [e]) (set_l_ring R L));;
  if negb (Z.land key LOG_NOCON =? 0) then mret tt else
  L ← lgets id;
  lwhen (negb (log_dropped L =? 0) && bool_decide (log_pend L = []))
    (let lost := log_dropped L in
     ok ← log_report_dropped lost;
     lwhen ok (lmod (fun L => set_log_dropped (u32 (log_dropped L - lost)) L)));;
  c ← lgets log_color;
  line ← (if negb c || (p =? 0) then mret buf else
          t ← tag_of tag_color (Z.ldiff key LOG_NOCON);
          let con := prefix LOG_CON t ms ++ drop (Z.to_nat p) buf in
          lres (if LOG_CON <? blen con then VFault else VOk con));
  ok ← log_write line;
  lwhen (negb ok) (lmod (fun L => set_log_dropped (u32 (log_dropped L + 1)) L)).

(** ** Repetitions *)

Definition body_hash (key : Z) (s : bytes) : Z :=
  fold_left (fun h c => u32 (Z.lxor h c * 16777619)) s (Z.lxor 2166136261 key).

Definition seen_back (back : Z) : LM seen :=
  L ← lgets id; lat (l_seen L) (Z.land (u32 (seen_n L - back)) (LOG_SEEN - 1)).

Definition seen_is (e : seen) (key h : Z) (s : bytes) : LM bool :=
  R ← lgets l_ring;
  if (s_key e =? key) && (s_hash e =? h) && (s_len e =? blen s) && (ring_tail R <=? s_at e)
  then lres (ring_eq R (s_at e) s) else mret false.

Definition log_emit (key ms : Z) (buf : bytes) (p h : Z) : LM unit :=
  L ← lgets id;
  l ← lput (l_seen L) (Z.land (seen_n L) (LOG_SEEN - 1))
        (Seen (ring_head (l_ring L) + p) h (blen buf - p) key);
  lmod (fun L => set_l_seen l (set_seen_n (u32 (seen_n L + 1)) L));;
  log_out key ms buf p (ELine key ms (drop (Z.to_nat p) buf)).

(** A held line is logged after all, with the time it arrived. *)
Definition log_again (e : seen) (ms : Z) : LM unit :=
  pre ← log_head (Z.ldiff (s_key e) LOG_NOCON) ms;
  let n := if LOG_LINE - 1 - blen pre <? s_len e then LOG_LINE - 1 - blen pre else s_len e in
  R ← lgets l_ring;
  s ← lres (ring_get R (s_at e) n (LOG_LINE - blen pre));
  let body := take (Z.to_nat (n - 1)) s ++ [10] in
  log_emit (s_key e) ms (pre ++ body) (blen pre) (if n =? s_len e then s_hash e else body_hash (s_key e) body).

(** One line of [rep_key]: the most severe level so far, and [LOG_NOCON] if
    every line has it. *)
Definition rep_level (level key : Z) : Z :=
  if Z.ldiff key LOG_NOCON =? LOG_FAIL then LOG_FAIL
  else if (Z.ldiff key LOG_NOCON =? LOG_WARN) && negb (level =? LOG_FAIL) then LOG_WARN else level.

Fixpoint rep_key_from (n : nat) (k level nocon : Z) : LM Z :=
  match n with
  | O => mret (Z.lor level nocon)
  | S n' =>
      e ← seen_back k;
      rep_key_from n' (k + 1) (rep_level level (s_key e)) (Z.land nocon (s_key e))
  end.

Definition rep_key : LM Z := len ← lgets rep_len; rep_key_from (Z.to_nat len) 1 LOG_NOTE LOG_NOCON.

(** The [k]-th line of the block is always the oldest of its last [rep_len]
    lines, since each one that is logged again becomes the newest. *)
Definition again_at (times : logst -> list Z) (k : Z) : LM unit :=
  L ← lgets id;
  e ← seen_back (rep_len L);
  ms ← lat (times L) k;
  log_again e ms.

Definition repeat_text (len count : Z) : bytes :=
  if len =? 1 then bs "last message repeated " ++ dec count ++ bs " times" ++ [10]
  else bs "last " ++ dec len ++ bs " messages repeated " ++ dec count ++ bs " times" ++ [10].

Definition rep_flush : LM unit :=
  L ← lgets id;
  if rep_count L =? 1 then
    lmod (set_rep_count 0);;
    lfor (Z.to_nat (rep_len L)) 0 (again_at first_ms)
  else if rep_count L =? 0 then mret tt else
  key ← rep_key;
  t ← tag_of tag_plain (Z.ldiff key LOG_NOCON);
  let p := prefix LOG_LINE t (rep_ms L) in
  lmod (set_rep_count 0);;
  log_out key (rep_ms L) (fit LOG_LINE p (repeat_text (rep_len L) (rep_count L))) (blen p)
    (ERepeat key (rep_ms L) (rep_len L) (rep_count L)).

Definition rep_break : LM unit :=
  pos ← lgets rep_pos;
  rep_flush;;
  lfor (Z.to_nat pos) 0 (again_at hold_ms);;
  lmod (fun L => set_rep_backoff 0 (set_rep_pos 0 (set_rep_len 0 L))).

Fixpoint twice_from (n : nat) (k len : Z) : LM bool :=
  match n with
  | O => mret true
  | S n' =>
      a ← seen_back k;
      b ← seen_back (k + len);
      if negb (s_key a =? s_key b) || negb (s_hash a =? s_hash b) || negb (s_len a =? s_len b)
      then mret false else twice_from n' (k + 1) len
  end.

Definition seen_twice (len : Z) : LM bool := twice_from (Z.to_nat len) 1 len.

(** [for(len = 2; len <= LOG_REPEAT && 2 * len <= seen_n; len++)] *)
Fixpoint find_from (n : nat) (len key h : Z) (s : bytes) : LM Z :=
  match n with
  | O => mret 0
  | S n' =>
      L ← lgets id;
      if negb (2 * len <=? seen_n L) then mret 0 else
      e ← seen_back len;
      same ← seen_is e key h s;
      twice ← (if (same : bool) then seen_twice len else mret false);
      if (twice : bool) then mret len else find_from n' (len + 1) key h s
  end.

Definition rep_find (key h : Z) (s : bytes) : LM Z :=
  L ← lgets id;
  one ← (if seen_n L =? 0 then mret false else e ← seen_back 1; seen_is e key h s);
  if (one : bool) then mret 1 else find_from (Z.to_nat (LOG_REPEAT - 1)) 2 key h s.

Definition log_due : LM Z :=
  L ← lgets id;
  if (rep_pos L =? 0) && (rep_count L =? 0) then mret (-1) else
  let due := if negb (rep_pos L =? 0) then hold_due L else rep_due L in
  let due := if negb (rep_pos L =? 0) && negb (rep_count L =? 0) && (rep_due L <? due) then rep_due L else due in
  now ← mono_ms; mret (ms_until due now).

Definition log_tick : LM unit :=
  L ← lgets id;
  if (rep_pos L =? 0) && (rep_count L =? 0) then mret tt else
  now ← mono_ms;
  if negb (rep_pos L =? 0) && (hold_due L <=? now) then rep_break else
  lwhen (negb (rep_count L =? 0) && (rep_due L <=? now))
    (rep_flush;;
     lmod (fun L => if rep_backoff L + 1 <? Z.of_nat (length repeat_ms)
                    then set_rep_backoff (u8 (rep_backoff L + 1)) L else L)).

(** The message is one more of a repetition: held until the block is complete. *)
Definition rep_hold (ms : Z) : LM unit :=
  L ← lgets id;
  lwhen ((rep_pos L =? 0) && (1 <? rep_len L))
    (now ← mono_ms; lmod (set_hold_due (now + LOG_HOLD_MS)));;
  h ← lput (hold_ms L) (rep_pos L) ms;
  lmod (fun L => set_rep_pos (u32 (rep_pos L + 1)) (set_hold_ms h L));;
  L ← lgets id;
  if rep_pos L <? rep_len L then mret tt else
  lmod (fun L => set_rep_count (u32 (rep_count L + 1)) (set_rep_ms ms (set_rep_pos 0 L)));;
  lwhen (rep_count L =? 0)
    (now ← mono_ms;
     d ← lat repeat_ms (rep_backoff L);
     let n := Z.to_nat (rep_len L) in
     lmod (fun L => set_rep_due (now + d) (set_first_ms (take n (hold_ms L) ++ drop n (first_ms L)) L))).

(** One call, [text] is what its format gives. *)
Definition ninit_log (level : Z) (text : bytes) : LM unit :=
  ms ← log_elapsed_ms;
  let nocon := Z.land level LOG_NOCON in
  let level := Z.ldiff level LOG_NOCON in
  let level := if LOG_N <=? level then LOG_INFO else level in
  pre ← log_head level ms;
  let buf := line_of LOG_LINE pre text in
  let p := blen pre in
  let key := Z.lor level nocon in
  let body := drop (Z.to_nat p) buf in
  let h := body_hash key body in
  L ← lgets id;
  lwhen (negb (rep_len L =? 0))
    (e ← seen_back (u32 (rep_len L - rep_pos L));
     same ← seen_is e key h body;
     lwhen (negb same) rep_break);;
  L ← lgets id;
  lwhen (rep_len L =? 0) (n ← rep_find key h body; lmod (set_rep_len n));;
  L ← lgets id;
  if rep_len L =? 0 then log_emit key ms buf p h else rep_hold ms.

End Ops.

(** The variables before the first message; [log_init] sets the clock and the
    console. *)
Definition log_start_state (start fd : Z) (color : bool) : logst :=
  Log ring_empty (replicate (Z.to_nat LOG_SEEN) (Seen 0 0 0 0)) 0 0 0 0 0 0 0 0
    (replicate (Z.to_nat LOG_REPEAT) 0) (replicate (Z.to_nat LOG_REPEAT) 0) start fd color 0 false 0 [] 0 [] [] 0.

(** ** Total correctness of an operation of the log *)

Definition lwp {A} (m : LM A) (Q : A -> logst -> Prop) (L : logst) : Prop :=
  returns (m L) (fun r => Q r.1 r.2).

Section Lwp.
Context {A B : Type}.

Lemma lwp_ret (a : A) (Q : A -> logst -> Prop) L : Q a L -> lwp (mret a) Q L.
Proof. done. Qed.

Lemma lwp_bind (m : LM A) (f : A -> LM B) (Q : B -> logst -> Prop) L :
  lwp m (fun a => lwp (f a) Q) L -> lwp (m ≫= f) Q L.
Proof. unfold lwp, mbind, LM_bind. by destruct (m L) as [[a L']| | |]. Qed.

Lemma lwp_mono (m : LM A) (P Q : A -> logst -> Prop) L :
  lwp m P L -> (forall a L', P a L' -> Q a L') -> lwp m Q L.
Proof. unfold lwp. intros Hm HPQ. eapply returns_mono; [done|]. intros [a L']. apply HPQ. Qed.

Lemma lwp_gets (f : logst -> A) (Q : A -> logst -> Prop) L : Q (f L) L -> lwp (lgets f) Q L.
Proof. done. Qed.

Lemma lwp_mod f (Q : unit -> logst -> Prop) L : Q tt (f L) -> lwp (lmod f) Q L.
Proof. done. Qed.

Lemma lwp_res (v : vres A) P (Q : A -> logst -> Prop) L :
  returns v P -> (forall a, P a -> Q a L) -> lwp (lres v) Q L.
Proof. unfold lwp, lres. destruct v; simpl; naive_solver. Qed.

Lemma lwp_call (f : nat -> A) (Q : A -> logst -> Prop) L :
  Q (f (l_calls L)) (set_l_calls (S (l_calls L)) L) -> lwp (lcall f) Q L.
Proof. done. Qed.

Lemma lwp_when (b : bool) m (Q : unit -> logst -> Prop) L :
  (b = true -> lwp m Q L) -> (b = false -> Q tt L) -> lwp (lwhen b m) Q L.
Proof. destruct b; intros H1 H2; [by apply H1|exact (H2 eq_refl)]. Qed.

Lemma lwp_at (l : list A) i a (Q : A -> logst -> Prop) L :
  0 <= i -> l !! Z.to_nat i = Some a -> Q a L -> lwp (lat l i) Q L.
Proof. intros Hi Ha HQ. unfold lat, lwp, lres. rewrite (proj2 (Z.leb_le _ _)) by done. by rewrite Ha. Qed.

Lemma lwp_put (l : list A) i v (Q : list A -> logst -> Prop) L :
  0 <= i < Z.of_nat (length l) -> Q (<[Z.to_nat i := v]> l) L -> lwp (lput l i v) Q L.
Proof.
  intros Hi HQ. unfold lput, lwp, lres. rewrite (proj2 (Z.leb_le _ _)), (proj2 (Z.ltb_lt _ _)) by lia. done.
Qed.

End Lwp.

(** A loop keeps an invariant that holds before it. *)
Lemma lwp_for (I : Z -> logst -> Prop) n i body (Q : unit -> logst -> Prop) L :
  I i L ->
  (forall k L, i <= k < i + Z.of_nat n -> I k L -> lwp (body k) (fun _ => I (k + 1)) L) ->
  (forall L, I (i + Z.of_nat n) L -> Q tt L) -> lwp (lfor n i body) Q L.
Proof.
  revert i L; induction n as [|n IH]; intros i L Hi Hb HQ; simpl.
  - apply lwp_ret, HQ. by rewrite Z.add_0_r.
  - apply lwp_bind. eapply lwp_mono; [apply Hb; [lia|done]|]. intros [] L' HL'.
    apply IH; [done|intros; apply Hb; [lia|done]|].
    intros L2 H2. apply HQ. by replace (i + Z.of_nat (S n)) with (i + 1 + Z.of_nat n) by lia.
Qed.
