(* ===== verification/Console.v ===== *)
(** * The console end of the log (src/logging.c)

    Writing to the console ends whatever the console does, touches nothing but
    the console, and puts a line on it whole. *)

From S2P Require Import Prelude Ring Log.

(** What the manual pages promise: [write] takes at most what it is given, an
    interrupted call is not interrupted for ever, the clock does not run
    backwards, and it runs. *)
Class LogOk (O : LogOs) : Prop := {
  lk_write : forall n fd b k, lo_write n fd b = inl k -> k <= blen b;
  lk_intr : forall n fd, exists k, (k < lo_patience)%nat /\ forall b, lo_write (n + k) fd b <> inr EINTR;
  lk_clock : forall n, 0 <= lo_clock n;
  lk_mono : forall m n, (m <= n)%nat -> lo_clock m <= lo_clock n;
  lk_time : forall n, lo_clock n + LOG_WRITE_MS <= lo_clock (n + lo_patience);
}.

(** All but the console's own variables. *)
Definition core (L : logst) : logst :=
  set_log_dropped 0 (set_log_stalled false (set_log_wait_until 0 (set_log_pend []
    (set_pend_at 0 (set_con_out [] (set_l_calls 0 L)))))).

(** A write to the console: [new] is what it took. *)
Record wrote (new : bytes) (L L' : logst) : Prop := Wrote {
  wr_core : core L' = core L;
  wr_pend : log_pend L' = log_pend L;
  wr_at : pend_at L' = pend_at L;
  wr_dropped : log_dropped L' = log_dropped L;
  wr_out : con_out L' = con_out L ++ new;
  wr_calls : (l_calls L <= l_calls L')%nat;
}.

Lemma wrote_refl L : wrote [] L L.
Proof. constructor; try done. by rewrite app_nil_r. Qed.

Lemma wrote_trans a b L1 L2 L3 : wrote a L1 L2 -> wrote b L2 L3 -> wrote (a ++ b) L1 L3.
Proof. intros [] []. constructor; try congruence; [|lia]. rewrite wr_out1, wr_out0. by rewrite app_assoc. Qed.

Lemma core_fd L L' : core L' = core L -> log_fd L' = log_fd L.
Proof. intros E. apply (f_equal log_fd) in E. done. Qed.

Section Push.
Context `{O : LogOs} `{!LogOk O}.

(** The console fails only by being full or by an interruption. *)
Definition healthy : Prop := forall n fd b e, lo_write n fd b = inr e -> e = EINTR \/ e = EAGAIN.

Section Buf.
Context (buf : bytes).

(** [b] more turns that are no interruption are enough: one for each byte left
    and those until the time is up. *)
Definition turns_left (b : nat) (L : logst) (done_ deadline : Z) : Prop :=
  exists t, (Z.to_nat (blen buf - done_) + t <= b)%nat /\ (1 <= t)%nat /\
    (deadline = 0 /\ t = (lo_patience + 2)%nat \/
     0 < deadline /\ exists c, deadline <= lo_clock (c + lo_patience) /\ (c + lo_patience + 1 <= t + l_calls L)%nat).

(** What a push promises: its result counts the bytes the console took, or is
    -1 after a hard error. *)
Definition pushed (done_ : Z) (L : logst) (n : Z) (L' : logst) : Prop :=
  (done_ <= n <= blen buf /\ wrote (take (Z.to_nat (n - done_)) (drop (Z.to_nat done_) buf)) L L') \/
  (n = -1 /\ ~ healthy /\ exists k, wrote (take k (drop (Z.to_nat done_) buf)) L L').

Lemma pushed_stop done_ L : 0 <= done_ <= blen buf -> pushed done_ L done_ L.
Proof. intros Hd. left. split; [lia|]. rewrite Z.sub_diag. apply wrote_refl. Qed.

Lemma pushed_quiet done_ L L1 n L' : wrote [] L L1 -> pushed done_ L1 n L' -> pushed done_ L n L'.
Proof.
  intros W [[Hn W']|(Hn & Hh & k & W')]; [left; split; [done|]|right; split; [done|]; split; [done|]; exists k];
    apply (wrote_trans _ _ _ _ _ W W').
Qed.

Lemma pushed_more done_ k L L1 n L' : 0 <= done_ -> 0 < k ->
  wrote (take (Z.to_nat k) (drop (Z.to_nat done_) buf)) L L1 -> pushed (done_ + k) L1 n L' -> pushed done_ L n L'.
Proof.
  intros Hd Hk W. replace (Z.to_nat (done_ + k)) with (Z.to_nat done_ + Z.to_nat k)%nat by lia.
  intros [[Hn W']|(Hn & Hh & j & W')].
  - left. split; [lia|]. pose proof (wrote_trans _ _ _ _ _ W W') as W2. replace (Z.to_nat (done_ + k)) with (Z.to_nat done_ + Z.to_nat k)%nat in W2 by lia.
    rewrite <- drop_drop, take_take_drop in W2. by replace (Z.to_nat (n - done_)) with (Z.to_nat k + Z.to_nat (n - (done_ + k)))%nat by lia.
  - right. split; [done|]. split; [done|]. exists (Z.to_nat k + j)%nat. pose proof (wrote_trans _ _ _ _ _ W W') as W2.
    replace (Z.to_nat (done_ + k)) with (Z.to_nat done_ + Z.to_nat k)%nat in W2 by lia.
    by rewrite <- drop_drop, take_take_drop in W2.
Qed.

(** The wait of one turn. *)
Lemma log_full_spec deadline wait L b done_ : (0 < b)%nat -> 0 <= deadline -> turns_left b L done_ deadline ->
  done_ < blen buf ->
  lwp (log_full deadline wait) (fun d L' => wrote [] L L' /\
    match d with Some d => 0 <= d /\ turns_left (b - 1) L' done_ d | None => True end) L.
Proof.
  intros Hb Hdl (t & Ht & Ht1 & Hc) Hdone. unfold log_full. destruct wait; simpl; [|apply lwp_ret; split; [apply wrote_refl|done]].
  apply lwp_bind, lwp_call. set (c := l_calls L). apply lwp_bind, lwp_gets. simpl.
  pose proof (lk_clock c). set (now := lo_clock c) in *.
  assert (wrote [] L (set_l_calls (S c) L)) as W1 by (constructor; simpl; rewrite ?app_nil_r; auto; lia).
  destruct (log_stalled L); simpl; [by apply lwp_ret|].
  destruct (Z.leb_spec (log_wait_until L) now) as [|Hw]; [by apply lwp_ret|].
  destruct (Z.eqb_spec deadline 0) as [->|Hd].
  - apply lwp_bind, lwp_call. apply lwp_ret. simpl. split; [constructor; simpl; rewrite ?app_nil_r; auto; lia|].
    unfold LOG_WRITE_MS. split; [lia|]. destruct Hc as [[_ ->]|[? _]]; [|lia].
    exists (lo_patience + 1)%nat. split; [lia|]. split; [lia|]. right. split; [lia|]. exists c.
    pose proof (lk_time c) as Hlt. unfold LOG_WRITE_MS in Hlt. fold now in Hlt. simpl. split; [lia|]. fold c. lia.
  - destruct (Z.leb_spec deadline now) as [|Hlt].
    + apply lwp_bind, lwp_mod, lwp_ret. split; [|done]. constructor; simpl; rewrite ?app_nil_r; auto; lia.
    + apply lwp_bind, lwp_call, lwp_ret. simpl. split; [constructor; simpl; rewrite ?app_nil_r; auto; lia|]. split; [done|].
      destruct Hc as [[? _]|(_ & c0 & Hc0 & Hct)]; [lia|].
      assert (c < c0 + lo_patience)%nat as Hcc.
      { destruct (decide (c < c0 + lo_patience)%nat); [done|]. pose proof (lk_mono (c0 + lo_patience) c). unfold now in Hlt. lia. }
      exists (t - 1)%nat. fold c in Hct. split; [lia|]. split; [lia|]. right. split; [lia|]. exists c0. split; [done|]. simpl. fold c. lia.
Qed.

Lemma turns_later b L L' done_ deadline : turns_left b L done_ deadline -> (l_calls L <= l_calls L')%nat ->
  turns_left b L' done_ deadline.
Proof.
  intros (t & Ht & Ht1 & Hc) Hl. exists t. split_ands; [done|done|].
  destruct Hc as [|(Hd & c & H1 & H2)]; [by left|]. right. split; [done|]. exists c. split; [done|lia].
Qed.

Lemma turns_fewer b L done_ done' deadline : turns_left b L done_ deadline -> done_ < done' <= blen buf ->
  turns_left (b - 1) L done' deadline.
Proof. intros (t & Ht & Ht1 & Hc) Hd. exists t. split_ands; [lia|done|done]. Qed.

(** [k] interruptions may come first, and [lo_patience] before each other turn. *)
Lemma log_push_spec b k fuel L done_ deadline wait : 0 <= done_ <= blen buf -> 0 <= deadline ->
  (k < lo_patience)%nat -> (k + b * S lo_patience <= fuel)%nat ->
  (forall b, lo_write (l_calls L + k) (log_fd L) b <> inr EINTR) ->
  turns_left b L done_ deadline ->
  lwp (log_push fuel buf done_ deadline wait) (pushed done_ L) L.
Proof.
  revert k fuel L done_ deadline. induction b as [|b IHb]; intros k fuel.
  { intros L done_ deadline _ _ _ _ _ (t & Ht & Ht1 & _). lia. }
  revert k. induction fuel as [|fuel IHf]; intros k L done_ deadline Hd Hdl Hk Hf Hi Ht; [lia|].
  cbn [log_push]. destruct (Z.leb_spec (blen buf) done_); [apply lwp_ret, pushed_stop; lia|].
  apply lwp_bind, lwp_gets. apply lwp_bind, lwp_call. set (c := l_calls L) in *.
  set (L1 := set_l_calls (S c) L).
  assert (wrote [] L L1) as W1 by (constructor; simpl; rewrite ?app_nil_r; auto; subst c; lia).
  assert (turns_left (S b) L1 done_ deadline) as Ht' by (apply (turns_later _ L); [done|apply W1]).
  assert (forall L2 done' deadline', 0 <= done' <= blen buf -> 0 <= deadline' -> turns_left b L2 done' deadline' ->
    lwp (log_push fuel buf done' deadline' wait) (pushed done' L2) L2) as Hnext.
  { intros L2 done' d' H1 H2 H3. destruct (lk_intr (l_calls L2) (log_fd L2)) as (k' & Hk' & Hi').
    apply (IHb k'); try done; lia. }
  assert (lwp (d ← log_full deadline wait;
    match d with Some d => log_push fuel buf done_ d wait | None => mret done_ end) (pushed done_ L) L1) as Hwait.
  { apply lwp_bind. eapply lwp_mono; [apply (log_full_spec deadline wait L1 (S b) done_); done || lia|].
    intros [d|] L2 [W2 H2].
    - eapply lwp_mono; [apply Hnext; [lia|apply H2|]|].
      + replace b with (S b - 1)%nat by lia. apply H2.
      + intros n L'. apply pushed_quiet. apply (wrote_trans _ _ _ _ _ W1 W2).
    - apply lwp_ret. eapply pushed_quiet; [apply (wrote_trans _ _ _ _ _ W1 W2)|]. apply pushed_stop. lia. }
  destruct (lo_write c (log_fd L) (drop (Z.to_nat done_) buf)) as [n|e] eqn:Hw.
  - pose proof (lk_write _ _ _ _ Hw) as Hn. unfold blen in Hn. rewrite length_drop in Hn.
    destruct (Z.ltb_spec 0 n) as [Hn0|]; [|done].
    apply lwp_bind, lwp_mod. set (L2 := set_log_stalled _ _).
    assert (wrote (take (Z.to_nat n) (drop (Z.to_nat done_) buf)) L L2) as W2 by (constructor; simpl; auto; subst c; lia).
    eapply lwp_mono; [apply (Hnext L2); [unfold blen in *; lia|done|]|].
    + replace b with (S b - 1)%nat by lia. apply (turns_fewer _ _ done_); [|unfold blen in *; lia].
      apply (turns_later _ L1); [done|simpl; lia].
    + intros m L'. apply pushed_more; [lia|done|done].
  - destruct (Z.eqb_spec e EINTR) as [->|He].
    + destruct k as [|k]; [rewrite Nat.add_0_r in Hi; by destruct (Hi (drop (Z.to_nat done_) buf))|].
      eapply lwp_mono; [apply (IHf k L1); try done; try lia|].
      * intros bb. simpl. replace (S (c + k)) with (c + S k)%nat by lia. apply Hi.
      * intros m L'. by apply pushed_quiet.
    + destruct (Z.eqb_spec e EAGAIN) as [->|Hea]; simpl; [done|]. apply lwp_ret. right. split; [done|].
      split; [intros Hh; by destruct (Hh _ _ _ _ Hw)|]. exists 0%nat. by rewrite take_0.
Qed.

Lemma con_push_spec wait L : lwp (push buf wait) (pushed 0 L) L.
Proof.
  unfold push, push_fuel. destruct (lk_intr (l_calls L) (log_fd L)) as (k & Hk & Hi).
  apply (log_push_spec (length buf + lo_patience + 2) k); try done; try (unfold blen; lia).
  exists (lo_patience + 2)%nat. unfold blen. split; [lia|]. split; [lia|]. by left.
Qed.
End Buf.

(** ** A line on the console *)

(** All but the console's pending line, its counter of lost lines and its
    output. *)
Record con_step (L L' : logst) : Prop := ConStep {
  cs_core : core L' = core L;
  cs_calls : (l_calls L <= l_calls L')%nat;
}.

#[export] Instance con_step_refl : Reflexive con_step.
Proof. by constructor. Qed.

#[export] Instance con_step_trans : Transitive con_step.
Proof. intros L1 L2 L3 [] []. constructor; [congruence|lia]. Qed.

Lemma wrote_step new L L' : wrote new L L' -> con_step L L'.
Proof. intros []. by constructor. Qed.

Lemma pushed_step buf done_ L n L' : pushed buf done_ L n L' -> con_step L L'.
Proof. intros [[_ W]|(_ & _ & k & W)]; by eapply wrote_step. Qed.

(** What the console took and what it has yet to take of a line. *)
Definition con_text (L : logst) : bytes := con_out L ++ pend_rest L.

(** The pending line is one, and it fits its array. *)
Definition pend_ok (L : logst) : Prop :=
  0 <= pend_at L /\ blen (log_pend L) <= LOG_CON /\
  (log_pend L = [] -> pend_at L = 0) /\ (log_pend L <> [] -> pend_at L < blen (log_pend L)).

Lemma pend_rest_nil L : pend_ok L -> pend_rest L = [] -> log_pend L = [].
Proof.
  intros (H1 & _ & _ & H2) Hr. unfold pend_rest in Hr. destruct (decide (log_pend L = [])) as [|Hne]; [done|].
  specialize (H2 Hne). apply (f_equal length) in Hr. rewrite length_drop in Hr. unfold blen in H2. simpl in Hr. lia.
Qed.

Lemma pend_rest_empty L : log_pend L = [] -> pend_rest L = [].
Proof. unfold pend_rest. intros ->. apply drop_nil. Qed.

Lemma blen_rest L : pend_ok L -> blen (pend_rest L) = blen (log_pend L) - pend_at L.
Proof.
  intros (H1 & _ & H2 & H3). unfold pend_rest, blen in *. rewrite length_drop.
  destruct (decide (log_pend L = [])) as [E|E]; [rewrite E, (H2 E); done|specialize (H3 E); lia].
Qed.

(** The line behind what was pending, and nothing of it when the result is
    [false]. *)
Lemma log_write_spec buf L : pend_ok L -> blen buf <= LOG_CON -> buf <> [] ->
  lwp (log_write buf) (fun ok L' => con_step L L' /\ pend_ok L' /\
    (healthy -> con_text L' = con_text L ++ if (ok : bool) then buf else [])) L.
Proof.
  intros HP Hlen Hbuf. unfold log_write. apply lwp_bind, lwp_gets. apply lwp_bind.
  apply (lwp_mono _ (fun (ok : bool) L' => con_step L L' /\ pend_ok L' /\
    (healthy -> con_text L' = con_text L) /\ (ok = true -> log_pend L' = []))).
  { destruct (decide (log_pend L = [])) as [E|E]; [by apply lwp_ret|].
    apply lwp_bind, lwp_gets. apply lwp_bind. eapply lwp_mono; [apply con_push_spec|]. intros n L1 Hpush.
    pose proof (pushed_step _ _ _ _ _ Hpush) as S1. pose proof (blen_rest L HP) as Hrest.
    assert (log_pend L1 = log_pend L /\ pend_at L1 = pend_at L) as [Ep Ea]
      by (destruct Hpush as [[_ []]|(_ & _ & ? & [])]; done).
    destruct (Z.ltb_spec n 0) as [Hn|Hn]; simpl.
    { destruct Hpush as [[? _]|(_ & Hh & _)]; [lia|]. apply lwp_bind, lwp_mod, lwp_ret. split; [constructor; simpl; apply S1|]. split; [unfold pend_ok, LOG_CON, LOG_LINE; simpl; done|done]. }
    destruct Hpush as [[_ W]|[? _]]; [|lia]. simpl in W. rewrite drop_0, Z.sub_0_r in W.
    destruct (Z.ltb_spec n (blen (pend_rest L))) as [Hlt|Hge].
    - apply lwp_bind, lwp_mod, lwp_ret. rewrite Ea. split; [constructor; simpl; apply S1|].
      destruct HP as (P1 & P2 & P3 & P4). specialize (P4 E). split; [|split; [|done]].
      + unfold pend_ok. simpl. rewrite Ep. split; [lia|]. split; [done|]. split; [done|]. intros _. lia.
      + intros _. unfold con_text, pend_rest. simpl. rewrite (wr_out _ _ _ W), Ep.
        replace (Z.to_nat (pend_at L + n)) with (Z.to_nat (pend_at L) + Z.to_nat n)%nat by lia.
        rewrite <- drop_drop, <- app_assoc. f_equal. unfold pend_rest. apply take_drop.
    - apply lwp_bind, lwp_mod, lwp_ret. split; [constructor; simpl; apply S1|]. split; [unfold pend_ok, LOG_CON, LOG_LINE; simpl; done|].
      split; [|done]. intros _. unfold con_text. rewrite (pend_rest_empty (set_pend_at _ _)) by done. simpl.
      rewrite (wr_out _ _ _ W), app_nil_r. f_equal. apply take_ge. unfold blen in *. lia. }
  intros [] L1 (S1 & P1 & T1 & E1); simpl; [|apply lwp_ret; split_ands; try done; by rewrite app_nil_r].
  specialize (E1 eq_refl). apply lwp_bind. eapply lwp_mono; [apply con_push_spec|]. intros n L2 Hpush.
  pose proof (pushed_step _ _ _ _ _ Hpush) as S2.
  assert (log_pend L2 = [] /\ pend_at L2 = pend_at L1) as [Ep Ea]
    by (destruct Hpush as [[_ []]|(_ & _ & ? & [])]; by rewrite wr_pend0).
  assert (pend_ok L2) as P2 by (destruct P1 as (H1 & H2 & H3 & H4); unfold pend_ok; rewrite Ep, Ea; split_ands; done || auto).
  destruct (Z.eqb_spec n (blen buf)) as [->|Hne].
  { apply lwp_ret. split; [by etrans|]. split; [done|]. intros Hh. rewrite <- (T1 Hh).
    destruct Hpush as [[_ W]|(? & ? & _)]; [|done]. simpl in W. rewrite drop_0, Z.sub_0_r in W.
    unfold con_text. rewrite !pend_rest_empty, !app_nil_r by done. rewrite (wr_out _ _ _ W). f_equal.
    apply take_ge. unfold blen. lia. }
  destruct (Z.leb_spec n 0) as [Hn|Hn]; simpl.
  { apply lwp_ret. split; [by etrans|]. split; [done|]. intros Hh. rewrite app_nil_r, <- (T1 Hh).
    destruct Hpush as [[Hr W]|(_ & Hnh & _)]; [|done]. assert (n = 0) as -> by lia. simpl in W. rewrite take_0 in W.
    unfold con_text. rewrite !pend_rest_empty, !app_nil_r by done. by rewrite (wr_out _ _ _ W), app_nil_r. }
  rewrite (proj2 (Z.ltb_ge _ _)) by lia. destruct Hpush as [[Hr W]|[? _]]; [|lia].
  simpl in W. rewrite drop_0, Z.sub_0_r in W. apply lwp_bind, lwp_mod, lwp_ret.
  assert (length (drop (Z.to_nat n) buf) = Z.to_nat (blen buf - n)) as Hld by (unfold blen; rewrite length_drop; lia).
  destruct P2 as (H1 & _ & H3 & _). rewrite (H3 Ep) in *. split; [constructor; simpl; [etrans; [apply S2|apply S1]|etrans; [apply S1|apply S2]]|]. split.
  - unfold pend_ok. simpl. unfold blen at 1 2. rewrite Hld, (H3 Ep). split; [lia|]. split; [lia|]. split; [done|]. intros _. lia.
  - intros Hh. rewrite <- (T1 Hh). unfold con_text at 1. unfold pend_rest. simpl. rewrite (H3 Ep). rewrite drop_0.
    unfold con_text. rewrite (pend_rest_empty L1), app_nil_r by done. rewrite (wr_out _ _ _ W), <- app_assoc.
    by rewrite take_drop.
Qed.

(** A wakeup of the console: what it takes of the pending line, or the end of
    that line. *)
Lemma log_flush_spec L : pend_ok L -> log_pend L <> [] ->
  lwp log_flush (fun _ L' => con_step L L' /\ pend_ok L' /\
    (healthy -> con_text L' = con_text L \/
      (log_pend L' = [] /\ con_out L' = con_out L /\ log_dropped L' = u32 (log_dropped L + 1)))) L.
Proof.
  intros HP Hne. unfold log_flush. apply lwp_bind, lwp_gets. apply lwp_bind.
  eapply lwp_mono; [apply con_push_spec|]. intros n L1 Hpush. pose proof (pushed_step _ _ _ _ _ Hpush) as S1.
  assert (log_pend L1 = log_pend L /\ pend_at L1 = pend_at L /\ log_dropped L1 = log_dropped L) as (Ep & Ea & Ed)
    by (destruct Hpush as [[_ []]|(_ & _ & ? & [])]; done).
  pose proof (blen_rest L HP) as Hrest. destruct HP as (P1 & P2 & P3 & P4). specialize (P4 Hne).
  destruct (Z.ltb_spec 0 n) as [Hn|Hn]; cbn [lwhen].
  - destruct Hpush as [[Hr W]|[? _]]; [|lia]. simpl in W. rewrite drop_0, Z.sub_0_r in W.
    apply lwp_bind, lwp_mod. apply lwp_bind, lwp_gets. unfold id. rewrite (proj2 (Z.leb_gt n 0) Hn). simpl. rewrite Ea, Ep.
    destruct (Z.eqb_spec (pend_at L + n) (blen (log_pend L))) as [He|He]; cbn [lwhen].
    + apply lwp_bind, lwp_ret. apply lwp_mod. split; [constructor; simpl; apply S1|].
      split; [by unfold pend_ok, LOG_CON, LOG_LINE|]. intros _. left. unfold con_text.
      rewrite (pend_rest_empty (set_pend_at _ _)) by done. simpl. rewrite (wr_out _ _ _ W), app_nil_r. f_equal.
      apply take_ge. unfold blen in *. lia.
    + apply lwp_ret. split; [constructor; simpl; apply S1|]. split.
      * unfold pend_ok. simpl. rewrite Ep. split; [lia|]. split; [done|]. split; [done|]. intros _. lia.
      * intros _. left. unfold con_text, pend_rest. simpl. rewrite (wr_out _ _ _ W), Ep.
        replace (Z.to_nat (pend_at L + n)) with (Z.to_nat (pend_at L) + Z.to_nat n)%nat by lia.
        rewrite <- drop_drop, <- app_assoc. f_equal. unfold pend_rest. apply take_drop.
  - apply lwp_bind, lwp_ret. apply lwp_bind, lwp_gets. unfold id. rewrite (proj2 (Z.leb_le n 0) Hn). cbn [orb lwhen].
    apply lwp_bind, lwp_mod. apply lwp_mod. split; [constructor; simpl; apply S1|].
    split; [by unfold pend_ok, LOG_CON, LOG_LINE|]. intros Hh. right. simpl. rewrite Ed. split; [done|]. split; [|done].
    destruct Hpush as [[Hr W]|(_ & Hnh & _)]; [|done]. replace (Z.to_nat (n - 0)) with 0%nat in W by lia.
    by rewrite (wr_out _ _ _ W), take_0, app_nil_r.
Qed.

(** On a console that may be slow or full, but does not break, a line
    written by [log_write] appears whole or not at all: what the console has
    taken, and the rest that is still owed to it, is what it was before,
    followed by the line if the write succeeded and by nothing if it did not.
    The write returns, whatever the console does, and a line left over fits its
    buffer. *)
Theorem console_takes_whole_lines buf L : pend_ok L -> blen buf <= LOG_CON -> buf <> [] ->
  exists ok L', log_write buf L = VOk (ok, L') /\ pend_ok L' /\
    (healthy -> con_text L' = con_text L ++ if (ok : bool) then buf else []).
Proof.
  intros HP Hl Hn. pose proof (log_write_spec buf L HP Hl Hn) as Hw. unfold lwp in Hw.
  destruct (log_write buf L) as [[ok L']| | |]; try done. exists ok, L'. split; [done|apply Hw].
Qed.
End Push.

(** A console that takes three bytes at a time and is full every other time. *)
Definition slow_console : LogOs := {|
  lo_clock n := 100 * Z.of_nat n;
  lo_write n fd b := if Nat.even n then inl (Z.min 3 (blen b)) else inr EAGAIN;
  lo_patience := 20;
|}.

#[export] Instance slow_console_ok : LogOk slow_console.
Proof.
  constructor; cbn -[Z.mul Nat.even]; try lia.
  - intros n fd b k. destruct (Nat.even n); [|done]. intros [= <-]. lia.
  - intros n fd. exists 0%nat. split; [lia|]. intros b. by destruct (Nat.even _).
  - intros n. unfold LOG_WRITE_MS. lia.
Qed.

Lemma console_takes_whole_lines_witness : exists L',
  log_write (H := slow_console) (bs "two lines" ++ [10]) (log_start_state 0 1 false) = VOk (true, L') /\
  con_text L' = bs "two lines" ++ [10] /\ con_out L' = bs "two".
Proof.
  destruct (console_takes_whole_lines (O := slow_console) (bs "two lines" ++ [10]) (log_start_state 0 1 false))
    as (ok & L' & Hw & _ & Ht); [by unfold pend_ok, LOG_CON, LOG_LINE|vm_compute; discriminate|done|].
  assert (match log_write (H := slow_console) (bs "two lines" ++ [10]) (log_start_state 0 1 false) with
          | VOk (ok, L) => (ok, con_out L) | _ => (false, []) end = (true, bs "two")) as E by (vm_compute; reflexivity).
  rewrite Hw in E. injection E as -> E. exists L'. split; [exact Hw|]. split; [|exact E].
  apply Ht. intros n fd b e. simpl. destruct (Nat.even n); [done|]. intros [= <-]. by right.
Defined.
