(* ===== verification/Repeat.v ===== *)
(** * Repeated messages (src/logging.c)

    The log writes a block of lines once and counts how often it comes again.
    The theorem of this file: the lines and notes that were put into the ring,
    with what is still held back, are the messages that were logged, each of
    them, in order. *)

From S2P Require Import Prelude Ring Log Console.

(** ** The text of the ring *)

Definition tag (tags : list bytes) (level : Z) : bytes := nth (Z.to_nat level) tags [].

Definition head_text (level ms : Z) : bytes :=
  if level =? LOG_INFO then [] else prefix LOG_LINE (tag tag_plain level) ms.

Definition entry_text (e : entry) : bytes :=
  match e with
  | ELine key ms body => head_text (Z.ldiff key LOG_NOCON) ms ++ body
  | ERepeat key ms len count =>
      fit LOG_LINE (prefix LOG_LINE (tag tag_plain (Z.ldiff key LOG_NOCON)) ms) (repeat_text len count)
  | EText text => text
  end.

Definition text_of (es : list entry) : bytes := concat (entry_text <$> es).

(** A message as the log keeps it. *)
Abbreviation msg := (Z * bytes)%type (only parsing).

Definition line_of_entry (e : entry) : list msg :=
  match e with ELine key _ body => [(key, body)] | _ => [] end.

(** The lines that were logged. *)
Definition lines_of (es : list entry) : list msg := concat (line_of_entry <$> es).

Definition lastn {A} (n : nat) (l : list A) : list A := drop (length l - n) l.

Definition copies {A} (n : nat) (l : list A) : list A := concat (replicate n l).

(** What a reader makes of the log: a note stands for so many copies of the
    lines before it. *)
Fixpoint expand (before : list msg) (es : list entry) : list msg :=
  match es with
  | [] => []
  | ELine key _ body :: es' => (key, body) :: expand (before ++ [(key, body)]) es'
  | ERepeat _ _ len count :: es' =>
      copies (Z.to_nat count) (lastn (Z.to_nat len) before) ++ expand before es'
  | EText _ :: es' => expand before es'
  end.

(** The last [rep_len] lines, and what is held back of their repetitions. *)
Definition block (L : logst) : list msg := lastn (Z.to_nat (rep_len L)) (lines_of (entries L)).

Definition pending (L : logst) : list msg :=
  copies (Z.to_nat (rep_count L)) (block L) ++ take (Z.to_nat (rep_pos L)) (block L).

(** The messages the log has taken. *)
Definition logged (L : logst) : list msg := expand [] (entries L) ++ pending L.

(** ** The invariant *)

Definition key_ok (key : Z) : Prop := 0 <= Z.ldiff key LOG_NOCON < LOG_N.

(** The entry of [seen] for a line of the text. *)
Record seen_of (t : bytes) (e : seen) (m : msg) : Prop := SeenOf {
  so_key : s_key e = m.1;
  so_ok : key_ok m.1;
  so_len : s_len e = blen m.2;
  so_at : 0 <= s_at e /\ s_at e + s_len e <= blen t;
  so_body : take (length m.2) (drop (Z.to_nat (s_at e)) t) = m.2;
  so_ends : ends_line m.2;
  so_short : blen m.2 < LOG_LINE;
}.

(** Where [seen_back] finds the line [k] lines back. *)
Definition slot_of (n k : nat) : nat := Z.to_nat ((Z.of_nat n - Z.of_nat k) mod LOG_SEEN).

Record log_ok (L : logst) : Prop := LogOkay {
  lo_ring : ring_ok (l_ring L) (text_of (entries L));
  lo_least : ring_tail (l_ring L) = 0 \/ LOG_RING - LOG_LINE < ring_head (l_ring L) - ring_tail (l_ring L);
  lo_pend : pend_ok L;
  lo_seen : length (l_seen L) = Z.to_nat LOG_SEEN;
  lo_hold : length (hold_ms L) = Z.to_nat LOG_REPEAT;
  lo_first : length (first_ms L) = Z.to_nat LOG_REPEAT;
  lo_n : seen_n L = u32 (Z.of_nat (length (lines_of (entries L))));
  lo_back : forall k m, (1 <= k <= Z.to_nat LOG_SEEN)%nat -> (k <= length (lines_of (entries L)))%nat ->
    lines_of (entries L) !! (length (lines_of (entries L)) - k)%nat = Some m ->
    exists e, l_seen L !! slot_of (length (lines_of (entries L))) k = Some e /\ seen_of (text_of (entries L)) e m;
  lo_len : 0 <= rep_len L <= LOG_REPEAT /\ rep_len L <= Z.of_nat (length (lines_of (entries L)));
  lo_pos : 0 <= rep_pos L /\ (rep_len L = 0 -> rep_pos L = 0 /\ rep_count L = 0) /\
    (0 < rep_len L -> rep_pos L < rep_len L);
  lo_count : 0 <= rep_count L < 4294967296;
  lo_backoff : 0 <= rep_backoff L < 3;
}.

(** ** Lists *)

Lemma copies_S {A} n (l : list A) : copies (S n) l = copies n l ++ l.
Proof. induction n as [|n IH]; unfold copies in *; simpl in *; [by rewrite app_nil_r|]. by rewrite IH at 1; rewrite app_assoc. Qed.

Lemma length_lastn {A} n (l : list A) : (n <= length l)%nat -> length (lastn n l) = n.
Proof. intros Hn. unfold lastn. rewrite length_drop. lia. Qed.

Lemma lookup_lastn {A} n (l : list A) i : (n <= length l)%nat -> lastn n l !! i = l !! (length l - n + i)%nat.
Proof. intros Hn. unfold lastn. apply lookup_drop. Qed.

(** Logging the block again, from its oldest line on, gives the same block. *)
Lemma lastn_again {A} n (l : list A) k : (n <= length l)%nat -> (k <= n)%nat ->
  lastn n (l ++ take k (lastn n l)) = drop k (lastn n l) ++ take k (lastn n l).
Proof.
  intros Hn Hk. pose proof (length_lastn n l Hn) as Hl. unfold lastn at 1.
  rewrite length_app, length_take, Hl. replace (length l + k `min` n - n)%nat with (length l - n + k)%nat by lia.
  rewrite drop_app_le by lia. f_equal. unfold lastn. by rewrite drop_drop.
Qed.

Lemma lines_of_snoc es e : lines_of (es ++ [e]) = lines_of es ++ line_of_entry e.
Proof. unfold lines_of. rewrite fmap_app, concat_app. simpl. by rewrite app_nil_r. Qed.

Lemma text_of_snoc es e : text_of (es ++ [e]) = text_of es ++ entry_text e.
Proof. unfold text_of. rewrite fmap_app, concat_app. simpl. by rewrite app_nil_r. Qed.

Lemma expand_snoc before es e : expand before (es ++ [e]) =
  expand before es ++ match e with
                      | ELine key _ body => [(key, body)]
                      | ERepeat _ _ len count => copies (Z.to_nat count) (lastn (Z.to_nat len) (before ++ lines_of es))
                      | EText _ => []
                      end.
Proof.
  revert before. induction es as [|[key ms body|key ms len count|text] es IH]; intros before; simpl.
  - destruct e; simpl; by rewrite ?app_nil_r.
  - rewrite IH. destruct e; [done| |done]. by rewrite <- app_assoc.
  - by rewrite IH, app_assoc.
  - apply IH.
Qed.

(** ** Keys *)

Lemma land_nocon x : Z.land x LOG_NOCON = 0 \/ Z.land x LOG_NOCON = LOG_NOCON.
Proof.
  unfold LOG_NOCON. destruct (Z.testbit x 4) eqn:Hb; [right|left]; apply Z.bits_inj'; intros n Hn;
    rewrite Z.land_spec; change 16 with (2 ^ 4); rewrite ?Z.bits_0, Z.pow2_bits_eqb by lia;
    destruct (Z.eqb_spec 4 n) as [<-|]; rewrite ?Hb, ?andb_false_r; done.
Qed.

Lemma key_ok_make level n : 0 <= level < LOG_N -> n = 0 \/ n = LOG_NOCON -> Z.ldiff (Z.lor level n) LOG_NOCON = level.
Proof.
  unfold LOG_N, LOG_NOCON. intros Hl Hn.
  assert (level = 0 \/ level = 1 \/ level = 2 \/ level = 3 \/ level = 4 \/ level = 5) as Hc by lia.
  destruct Hn as [-> | ->]; repeat destruct Hc as [-> | Hc]; try done; by rewrite Hc.
Qed.

Lemma ldiff_nonneg x : 0 <= x -> 0 <= Z.ldiff x LOG_NOCON.
Proof. intros Hx. apply Z.ldiff_nonneg. by left. Qed.

Lemma tag_plain_at level : 0 <= level < LOG_N -> tag_plain !! Z.to_nat level = Some (tag tag_plain level).
Proof.
  intros Hl. unfold tag.
  assert (level = 0 \/ level = 1 \/ level = 2 \/ level = 3 \/ level = 4 \/ level = 5) as Hc by (unfold LOG_N in *; lia).
  by repeat destruct Hc as [-> | Hc]; subst.
Qed.

Lemma tag_color_at level : 0 <= level < LOG_N -> tag_color !! Z.to_nat level = Some (tag tag_color level).
Proof.
  intros Hl. unfold tag.
  assert (level = 0 \/ level = 1 \/ level = 2 \/ level = 3 \/ level = 4 \/ level = 5) as Hc by (unfold LOG_N in *; lia).
  by repeat destruct Hc as [-> | Hc]; subst.
Qed.

(** ** Lengths *)

Lemma prefix_len cap t ms : blen (prefix cap t ms) <= LOG_PREFIX_MAX.
Proof. unfold prefix, blen, LOG_PREFIX_MAX. rewrite length_take. lia. Qed.

Lemma prefix_ne cap t ms : 2 <= cap -> prefix cap t ms <> [].
Proof.
  intros Hc E. apply (f_equal length) in E. unfold prefix, LOG_PREFIX_MAX in E. rewrite !length_take, !length_app in E.
  change (length (bs "[")) with 1%nat in E. change (length []) with 0%nat in E. lia.
Qed.

Lemma head_len level ms : blen (head_text level ms) <= LOG_PREFIX_MAX.
Proof. unfold head_text. destruct (_ =? _); [unfold blen, LOG_PREFIX_MAX; simpl; lia|apply prefix_len]. Qed.

(** The coloured tag is at most 11 bytes longer. *)
Lemma color_len level ms : 0 <= level < LOG_N ->
  blen (prefix LOG_CON (tag tag_color level) ms) <= blen (prefix LOG_LINE (tag tag_plain level) ms) + 11.
Proof.
  intros Hl. assert (length (tag tag_color level) <= length (tag tag_plain level) + 11)%nat as Ht.
  { unfold LOG_N in Hl. assert (level = 0 \/ level = 1 \/ level = 2 \/ level = 3 \/ level = 4 \/ level = 5) as Hc by lia.
    repeat destruct Hc as [-> | Hc]; subst; vm_compute; lia. }
  unfold prefix, blen, LOG_CON, LOG_LINE, LOG_PREFIX_MAX. rewrite !length_take, !length_app. lia.
Qed.

Lemma line_of_len cap p text : 2 <= cap -> 0 < blen (line_of cap p text) <= cap - 1.
Proof. intros Hc. unfold line_of, blen. rewrite length_app, length_take. simpl. lia. Qed.

Lemma line_of_ends cap p text : ends_line (line_of cap p text).
Proof. by eexists. Qed.

Section Spec.
Context `{O : LogOs} `{!LogOk O}.

(** The clock and the tables are there. *)
Lemma elapsed_spec (Q : Z -> logst -> Prop) L :
  (forall ms L', con_step L L' -> log_pend L' = log_pend L -> pend_at L' = pend_at L -> con_text L' = con_text L ->
    log_dropped L' = log_dropped L -> Q ms L') -> lwp log_elapsed_ms Q L.
Proof.
  intros HQ. unfold log_elapsed_ms. apply lwp_bind, lwp_call, lwp_bind, lwp_gets, lwp_ret.
  apply HQ; [constructor; simpl; auto|done..].
Qed.

Lemma head_spec level ms (Q : bytes -> logst -> Prop) L : 0 <= level < LOG_N -> Q (head_text level ms) L ->
  lwp (log_head level ms) Q L.
Proof.
  intros Hl HQ. unfold log_head, head_text in *. destruct (level =? LOG_INFO); [by apply lwp_ret|].
  apply lwp_bind. eapply lwp_at; [lia|by apply tag_plain_at|]. by apply lwp_ret.
Qed.

Lemma con_step_pend L L' : con_step L L' -> log_pend L' = log_pend L -> pend_at L' = pend_at L -> pend_ok L -> pend_ok L'.
Proof. intros _ E1 E2. unfold pend_ok. by rewrite E1, E2. Qed.

Lemma report_spec lost L : pend_ok L ->
  lwp (log_report_dropped lost) (fun _ L' => con_step L L' /\ pend_ok L') L.
Proof.
  intros HP. unfold log_report_dropped. apply lwp_bind, lwp_gets. apply lwp_bind, elapsed_spec.
  intros ms L1 S1 E1 E2 _ _. pose proof (con_step_pend _ _ S1 E1 E2 HP) as P1. apply lwp_bind.
  assert (exists t, (if log_color L then tag_color else tag_plain) !! Z.to_nat LOG_WARN = Some t) as [t Ht]
    by (destruct (log_color L); by eexists).
  eapply lwp_at; [done|exact Ht|].
  match goal with |- lwp (log_write (line_of 160 ?p ?x)) _ _ => pose proof (line_of_len 160 p x ltac:(lia)) as Hlen end.
  eapply lwp_mono; [apply log_write_spec; [done|unfold LOG_CON, LOG_LINE; lia|]|].
  - intros E. rewrite E in Hlen. unfold blen in Hlen. simpl in Hlen. lia.
  - intros ok L2 (S2 & P2 & _). split; [by etrans|done].
Qed.

(** What putting a line does to the ring, and nothing else. *)
Record put (buf : bytes) (e : entry) (L L' : logst) : Prop := Put {
  pu_core : core L' = core (set_entries (entries L ++ [e]) (set_l_ring (l_ring L') L));
  pu_ring : ring_ok (l_ring L') (text_of (entries L) ++ buf);
  pu_least : ring_tail (l_ring L') = 0 \/ LOG_RING - LOG_LINE < ring_head (l_ring L') - ring_tail (l_ring L');
  pu_pend : pend_ok L';
}.

Lemma put_step buf e L L1 L2 : put buf e L L1 -> con_step L1 L2 -> pend_ok L2 -> put buf e L L2.
Proof.
  intros [C R HL HP] [S _] P2. pose proof (f_equal l_ring S) as ER. simpl in ER.
  constructor; rewrite ?ER; try done. by rewrite S.
Qed.

Lemma log_out_spec key ms buf p e L :
  ring_ok (l_ring L) (text_of (entries L)) ->
  (ring_tail (l_ring L) = 0 \/ LOG_RING - LOG_LINE < ring_head (l_ring L) - ring_tail (l_ring L)) ->
  pend_ok L -> key_ok key -> ends_line buf -> blen buf < LOG_LINE ->
  p = blen (head_text (Z.ldiff key LOG_NOCON) ms) -> p <= blen buf ->
  lwp (log_out key ms buf p e) (fun _ L' => put buf e L L') L.
Proof.
  intros HR Hleast HP Hk Hends Hlen Hp Hpb. unfold log_out. apply lwp_bind, lwp_gets.
  apply lwp_bind. eapply lwp_res; [apply (ring_put_spec _ _ buf HR Hends); unfold blen in *; lia|].
  intros R (HR' & Ht & Hl). apply lwp_bind, lwp_mod.
  set (L1 := set_entries _ _).
  assert (put buf e L L1) as P1.
  { constructor; simpl; try done. destruct Hleast as [Hz|Hz], Hl as [E|E]; auto.
    - left. congruence. - right. pose proof (ri_head _ _ HR). pose proof (ri_head _ _ HR'). unfold blen in *.
      rewrite length_app in *. lia. }
  destruct (negb (Z.land key LOG_NOCON =? 0)); [by apply lwp_ret|].
  apply lwp_bind, lwp_gets. cbv zeta. apply lwp_bind.
  apply (lwp_mono _ (fun _ L' => put buf e L L')).
  { apply lwp_when; [|done]. intros _. apply lwp_bind.
    eapply lwp_mono; [apply report_spec, P1|]. intros ok L2 [S2 P2].
    pose proof (put_step _ _ _ _ _ P1 S2 P2) as PU. apply lwp_when; [|done]. intros _. apply lwp_mod.
    apply (put_step _ _ _ L2); [done|by constructor|done]. }
  intros [] L2 P2. apply lwp_bind, lwp_gets. apply lwp_bind.
  apply (lwp_mono _ (fun line L' => L' = L2 /\ line <> [] /\ blen line <= LOG_CON)).
  { destruct Hends as [s ->].
    destruct (negb (log_color L2) || (p =? 0)) eqn:Hc.
    - apply lwp_ret. split; [done|]. split; [by destruct s|unfold LOG_CON; lia].
    - apply orb_false_iff in Hc as [_ Hp0]. apply Z.eqb_neq in Hp0. apply lwp_bind.
      eapply lwp_at; [apply Hk|by apply tag_color_at|]. pose proof (color_len _ ms Hk) as Hcl.
      assert (blen (drop (Z.to_nat p) (s ++ [10])) = blen (s ++ [10]) - p) as Hd by (unfold blen in *; rewrite length_drop; lia).
      assert (p = blen (prefix LOG_LINE (tag tag_plain (Z.ldiff key LOG_NOCON)) ms)) as Hpp.
      { rewrite Hp. unfold head_text in *. destruct (_ =? _); [|done]. unfold blen in Hp. simpl in Hp. lia. }
      set (con := prefix _ _ _ ++ _).
      assert (blen con = blen (prefix LOG_CON (tag tag_color (Z.ldiff key LOG_NOCON)) ms) + (blen (s ++ [10]) - p)) as Hcon
        by (unfold con; rewrite <- Hd; unfold blen; rewrite length_app; lia).
      eapply (lwp_res _ (eq con)); [rewrite (proj2 (Z.ltb_ge _ _)) by (unfold LOG_CON in *; lia); done|]. intros ? <-.
      split; [done|]. split; [|unfold LOG_CON in *; lia]. unfold con. intros [E _]%app_eq_nil. by apply prefix_ne in E. }
  intros line L3 (-> & Hne & Hll). apply lwp_bind. eapply lwp_mono; [apply log_write_spec; [apply P2|done|done]|].
  intros ok L3 (S3 & P3 & _). pose proof (put_step _ _ _ _ _ P2 S3 P3) as PU. apply lwp_when; [|done]. intros _.
  apply lwp_mod. apply (put_step _ _ _ L3); [done|by constructor|done].
Qed.

(** ** The lines that were seen *)

Lemma slot_land n k : Z.to_nat (Z.land (u32 (u32 (Z.of_nat n) - Z.of_nat k)) (LOG_SEEN - 1)) = slot_of n k.
Proof.
  unfold slot_of, LOG_SEEN, LOG_REPEAT. f_equal. change (2 * 16 - 1) with (Z.ones 5). change (2 * 16) with (2 ^ 5).
  rewrite Z.land_ones by lia. unfold u32. assert (2 ^ 5 | 4294967296) as Hd by (by exists 134217728).
  rewrite Z.mod_mod_divide by done. rewrite Zminus_mod, Z.mod_mod_divide by done.
  by rewrite <- Zminus_mod.
Qed.

Lemma slot_bound n k : (slot_of n k < Z.to_nat LOG_SEEN)%nat.
Proof. unfold slot_of. pose proof (Z.mod_pos_bound (Z.of_nat n - Z.of_nat k) LOG_SEEN eq_refl). lia. Qed.

Lemma slot_next n k : slot_of (S n) (S k) = slot_of n k.
Proof. unfold slot_of. f_equal. f_equal. lia. Qed.

Lemma slot_other n k : (1 <= k < Z.to_nat LOG_SEEN)%nat -> slot_of n k <> slot_of n 0.
Proof.
  unfold slot_of, LOG_SEEN, LOG_REPEAT. intros Hk. pose proof (Z.mod_pos_bound (Z.of_nat n) (2 * 16) eq_refl).
  pose proof (Z.mod_pos_bound (Z.of_nat n - Z.of_nat k) (2 * 16) eq_refl).
  pose proof (Z.div_mod (Z.of_nat n) (2 * 16) ltac:(done)). pose proof (Z.div_mod (Z.of_nat n - Z.of_nat k) (2 * 16) ltac:(done)).
  rewrite Z.sub_0_r. intros E%Z2Nat.inj; lia.
Qed.

Lemma seen_back_spec k (Q : seen -> logst -> Prop) L : log_ok L -> 1 <= k <= LOG_SEEN ->
  k <= Z.of_nat (length (lines_of (entries L))) ->
  (forall e m, l_seen L !! slot_of (length (lines_of (entries L))) (Z.to_nat k) = Some e ->
     lines_of (entries L) !! (length (lines_of (entries L)) - Z.to_nat k)%nat = Some m ->
     seen_of (text_of (entries L)) e m -> Q e L) ->
  lwp (seen_back k) Q L.
Proof.
  intros HL Hk Hkn HQ. unfold seen_back. apply lwp_bind, lwp_gets. simpl.
  destruct (lookup_lt_is_Some_2 (lines_of (entries L)) (length (lines_of (entries L)) - Z.to_nat k)) as [m Hm]; [lia|].
  destruct (lo_back _ HL (Z.to_nat k) m) as (e & He & Hs); [unfold LOG_SEEN, LOG_REPEAT in *; lia|lia|done|].
  pose proof (slot_land (length (lines_of (entries L))) (Z.to_nat k)) as Hsl. rewrite Z2Nat.id in Hsl by lia.
  rewrite <- (lo_n _ HL) in Hsl. eapply lwp_at; [apply Z.land_nonneg; left|by rewrite Hsl|by eapply HQ].
  unfold u32. by apply Z.mod_pos_bound.
Qed.

(** A line that is the same has the same bytes, whatever its hash. *)
Lemma seen_is_spec e m key h body L : log_ok L -> seen_of (text_of (entries L)) e m ->
  lwp (seen_is e key h body) (fun b L' => L' = L /\ (b = true -> m = (key, body))) L.
Proof.
  intros HL Hs. unfold seen_is. apply lwp_bind, lwp_gets. destruct (_ && _) eqn:Hc; [|by apply lwp_ret].
  apply andb_true_iff in Hc as [[[Hc1%Z.eqb_eq _]%andb_true_iff Hc2%Z.eqb_eq]%andb_true_iff Hc3%Z.leb_le].
  pose proof (ri_head _ _ (lo_ring _ HL)) as Hh. pose proof (so_at _ _ _ Hs) as Hat.
  eapply lwp_res; [apply (ring_eq_spec _ _ (lo_ring _ HL)); [done|lia]|]. intros b ->. split; [done|].
  intros Hb%bytes_eqb_eq. destruct m as [key' body']. rewrite <- Hc1, (so_key _ _ _ Hs). simpl. f_equal.
  rewrite Hb. pose proof (so_body _ _ _ Hs) as Hbody. pose proof (so_len _ _ _ Hs) as Hl. simpl in *.
  rewrite <- Hbody at 1. f_equal. unfold blen in *. lia.
Qed.

Lemma seen_of_app t t' e m : seen_of t e m -> seen_of (t ++ t') e m.
Proof.
  intros []. constructor; try done.
  - unfold blen in *. rewrite length_app. lia.
  - rewrite drop_app_le by (unfold blen in *; lia). rewrite take_app_le; [done|].
    rewrite length_drop. unfold blen in *. lia.
Qed.

(** The last [n] lines are not about to leave the ring: [m] more can come. *)
Definition far (L : logst) (n : nat) (m : Z) : Prop :=
  forall k e, (1 <= k <= n)%nat -> (k <= length (lines_of (entries L)))%nat ->
    l_seen L !! slot_of (length (lines_of (entries L))) k = Some e ->
    ring_head (l_ring L) - s_at e <= LOG_RING - m * LOG_LINE.

(** What logging a line does. *)
Record emitted (key ms : Z) (body : bytes) (L L' : logst) : Prop := Emitted {
  em_ok : log_ok L';
  em_entries : entries L' = entries L ++ [ELine key ms body];
  em_core : core L' = core (set_l_seen (l_seen L') (set_seen_n (seen_n L')
    (set_entries (entries L') (set_l_ring (l_ring L') L))));
  em_far : forall n m, (n < Z.to_nat LOG_SEEN)%nat -> m <= 100 -> far L n m -> far L' (S n) (m - 1);
}.

Lemma log_emit_spec key ms buf p h body L : log_ok L -> key_ok key ->
  buf = head_text (Z.ldiff key LOG_NOCON) ms ++ body -> ends_line body -> blen buf < LOG_LINE ->
  p = blen (head_text (Z.ldiff key LOG_NOCON) ms) ->
  lwp (log_emit key ms buf p h) (fun _ L' => emitted key ms body L L') L.
Proof.
  intros HL Hk Hbuf Hends Hlen Hp. unfold log_emit. apply lwp_bind, lwp_gets. simpl.
  set (ls := lines_of (entries L)). set (t := text_of (entries L)).
  assert (Z.to_nat (Z.land (seen_n L) (LOG_SEEN - 1)) = slot_of (length ls) 0) as Hslot.
  { rewrite <- slot_land, (lo_n _ HL). do 2 f_equal. fold ls. unfold u32. rewrite Z.sub_0_r.
    by rewrite Z.mod_mod. }
  pose proof (slot_bound (length ls) 0) as Hsb. pose proof (lo_seen _ HL) as Hsl.
  apply lwp_bind, lwp_put; [split; [apply Z.land_nonneg; right; done|rewrite Hsl; lia]|].
  rewrite Hslot. set (e := Seen _ h _ key). set (l := <[_ := e]> (l_seen L)). apply lwp_bind, lwp_mod.
  set (L1 := set_l_seen l _).
  assert (ends_line buf) as Hbe by (destruct Hends as [s ->]; rewrite Hbuf; exists (head_text (Z.ldiff key LOG_NOCON) ms ++ s); by rewrite app_assoc).
  assert (drop (Z.to_nat p) buf = body) as Hdrop by (rewrite Hbuf, Hp; unfold blen; rewrite Nat2Z.id; apply drop_app_length).
  assert (blen buf = p + blen body) as Hbl by (rewrite Hbuf, Hp; unfold blen; rewrite length_app; lia).
  rewrite Hdrop. eapply lwp_mono; [apply log_out_spec; try apply HL; done || (unfold blen in *; lia)|].
  intros [] L' PU. pose proof (pu_core _ _ _ _ PU) as C.
  pose proof (f_equal entries C) as Ee. pose proof (f_equal l_seen C) as Es. pose proof (f_equal seen_n C) as En.
  simpl in Ee, Es, En.
  assert (lines_of (entries L') = ls ++ [(key, body)]) as Els by (rewrite Ee, lines_of_snoc; done).
  assert (text_of (entries L') = t ++ buf) as Et by (rewrite Ee, text_of_snoc; simpl; by rewrite Hbuf).
  assert (forall k e', (1 <= k < Z.to_nat LOG_SEEN)%nat -> l !! slot_of (S (length ls)) (S k) = Some e' ->
    l_seen L !! slot_of (length ls) k = Some e') as Hold.
  { intros k e' Hkk He'. unfold l in He'. rewrite slot_next in He'.
    rewrite list_lookup_insert_ne in He'; [done|]. apply not_eq_sym, slot_other. lia. }
  assert (l !! slot_of (S (length ls)) 1 = Some e) as Hnew.
  { rewrite slot_next. apply list_lookup_insert_eq. lia. }
  pose proof (ri_head _ _ (lo_ring _ HL)) as Hh. fold t in Hh.
  pose proof (ri_head _ _ (pu_ring _ _ _ _ PU)) as Hh'. change (text_of (entries L1)) with t in Hh'. unfold blen in Hh'. rewrite length_app in Hh'.
  assert (0 <= p) as Hp0 by (rewrite Hp; unfold blen; lia).
  assert (length l = length (l_seen L)) as Hll by (unfold l; apply length_insert).
  constructor; [| |by rewrite C, Es, En, Ee|].
  - pose proof (f_equal rep_len C) as E1. pose proof (f_equal rep_pos C) as E2. pose proof (f_equal rep_count C) as E3.
    pose proof (f_equal rep_backoff C) as E4. pose proof (f_equal hold_ms C) as E5. pose proof (f_equal first_ms C) as E6.
    simpl in E1, E2, E3, E4, E5, E6. constructor; rewrite ?Els, ?Et, ?E1, ?E2, ?E3, ?E4, ?E5, ?E6, ?Es, ?En, ?length_app; simpl; try apply HL.
    + apply PU.
    + apply PU.
    + apply PU.
    + by rewrite Hll.
    + rewrite (lo_n _ HL). fold ls. unfold u32. rewrite Zplus_mod_idemp_l. f_equal. lia.
    + intros k m Hkk Hkl Hm. rewrite Nat.add_1_r in *. destruct k as [|[|k]]; [lia| |].
      * exists e. split; [done|]. replace (S (length ls) - 1)%nat with (length ls) in Hm by lia.
        rewrite list_lookup_middle in Hm by done. injection Hm as <-.
        constructor; simpl; try done; try (unfold blen in *; rewrite ?length_app; lia).
        replace (Z.to_nat (ring_head (l_ring L) + p)) with (length t + Z.to_nat p)%nat by (unfold blen in *; lia).
        rewrite <- drop_drop, drop_app_length, Hdrop. apply take_ge. lia.
      * rewrite lookup_app_l in Hm by lia. replace (S (length ls) - S (S k))%nat with (length ls - S k)%nat in Hm by lia.
        destruct (lo_back _ HL (S k) m) as (e' & He' & Hs'); [lia|fold ls; lia|done|]. exists e'.
        split; [|by apply seen_of_app]. rewrite slot_next. unfold l. rewrite list_lookup_insert_ne; [done|].
        apply not_eq_sym, slot_other. lia.
    + pose proof (lo_len _ HL). fold ls in H. lia.
  - done.
  - intros n m Hn Hm Hfar k e' Hkk Hkl He'. rewrite Els, Es, length_app in *. simpl in *.
    rewrite Nat.add_1_r in *. destruct k as [|[|k]]; [lia| |].
    + rewrite Hnew in He'. injection He' as <-. simpl. unfold blen, LOG_RING, LOG_LINE in *. lia.
    + apply Hold in He'; [|lia]. specialize (Hfar (S k) e' ltac:(lia) ltac:(fold ls; lia) He'). unfold blen, LOG_LINE in *. lia.
Qed.

(** Short enough for the line to take any time stamp. *)
Definition short (m : msg) : Prop := blen m.2 <= LOG_LINE - 1 - LOG_PREFIX_MAX.

Lemma ends_line_last s : ends_line s -> take (length s - 1) s ++ [10] = s.
Proof. intros [s' ->]. rewrite length_app. simpl. rewrite take_app_le by lia. by rewrite take_ge by lia. Qed.

Lemma ends_line_pos s : ends_line s -> 0 < blen s.
Proof. intros [s' ->]. unfold blen. rewrite length_app. simpl. lia. Qed.

Lemma log_again_spec e m ms L : log_ok L -> seen_of (text_of (entries L)) e m ->
  lwp (log_again e ms) (fun _ L' => exists body, emitted m.1 ms body L L' /\
    (ring_tail (l_ring L) <= s_at e -> short m -> body = m.2)) L.
Proof.
  intros HL Hs. unfold log_again. rewrite (so_key _ _ _ Hs). apply lwp_bind, head_spec; [apply Hs|].
  set (pre := head_text _ _). pose proof (head_len (Z.ldiff m.1 LOG_NOCON) ms) as Hpre. fold pre in Hpre.
  set (n := if LOG_LINE - 1 - blen pre <? s_len e then LOG_LINE - 1 - blen pre else s_len e). cbv zeta.
  pose proof (ends_line_pos _ (so_ends _ _ _ Hs)) as Hpos. pose proof (so_len _ _ _ Hs) as Hl. pose proof (so_at _ _ _ Hs) as Hat.
  assert (0 <= blen pre) as Hpre0 by (unfold blen; lia).
  assert (1 <= n <= s_len e /\ blen pre + n < LOG_LINE) as [Hn Hfit].
  { unfold n, LOG_PREFIX_MAX, LOG_LINE in *. destruct (Z.ltb_spec (1024 - 1 - blen pre) (s_len e)); lia. }
  apply lwp_bind, lwp_gets. apply lwp_bind. pose proof (so_short _ _ _ Hs) as Hsh.
  assert (returns (ring_get (l_ring L) (s_at e) n (LOG_LINE - blen pre)) (fun s => blen s = n /\
    (ring_tail (l_ring L) <= s_at e -> s = take (Z.to_nat n) (drop (Z.to_nat (s_at e)) (text_of (entries L)))))) as Hget.
  { apply returns_and; [apply (ring_get_within _ _ _ _ _ (lo_ring _ HL)); unfold LOG_LINE, LOG_RING in *; lia|].
    destruct (Z.leb_spec (ring_tail (l_ring L)) (s_at e)) as [Hk|Hk].
    - eapply returns_mono; [apply (ring_get_spec (lo_ring _ HL)); rewrite ?(ri_head _ _ (lo_ring _ HL)); lia|done].
    - eapply returns_mono; [apply (ring_get_within _ _ _ _ _ (lo_ring _ HL)); unfold LOG_LINE, LOG_RING in *; lia|].
      intros s _ H. lia. }
  eapply lwp_res; [exact Hget|]. intros s [Hsl Hkept]. set (body := take (Z.to_nat (n - 1)) s ++ [10]).
  assert (blen body = n) as Hbl by (unfold body, blen in *; rewrite length_app, length_take; simpl; lia).
  eapply lwp_mono; [apply (log_emit_spec m.1 ms _ _ _ body); try done; [apply Hs|by eexists|unfold blen in *; rewrite length_app; lia]|].
  intros [] L' He. exists body. split; [done|]. intros Hk Hshort. unfold short, LOG_PREFIX_MAX in *.
  assert (n = s_len e) as En by (unfold n; rewrite (proj2 (Z.ltb_ge _ _)) by lia; done).
  unfold body. rewrite (Hkept Hk), En, Hl. replace (Z.to_nat (blen m.2)) with (length m.2) by (unfold blen; lia).
  rewrite (so_body _ _ _ Hs). replace (Z.to_nat (blen m.2 - 1)) with (length m.2 - 1)%nat by (unfold blen; lia).
  apply ends_line_last, Hs.
Qed.

(** ** Logging the block after all *)

(** The variables logging a line does not change. *)
Definition rest (L : logst) : logst :=
  core (set_l_seen [] (set_seen_n 0 (set_entries [] (set_l_ring ring_empty L)))).

Lemma emitted_rest key ms body L L' : emitted key ms body L L' -> rest L' = rest L.
Proof.
  intros [_ _ C _]. apply (f_equal (fun X => set_l_seen [] (set_seen_n 0 (set_entries [] (set_l_ring ring_empty X))))) in C.
  exact C.
Qed.

(** Logging the first [n] lines of the block again. *)
Record again (n : nat) (L L' : logst) : Prop := Again {
  ag_ok : log_ok L';
  ag_rest : rest L' = rest L;
  ag_lines : exists xs, length xs = n /\ lines_of (entries L') = lines_of (entries L) ++ xs /\
    expand [] (entries L') = expand [] (entries L) ++ xs /\
    forall m, Z.of_nat n <= m <= 100 -> far L (Z.to_nat (rep_len L)) m -> Forall short (block L) ->
      xs = take n (block L) /\ far L' (Z.to_nat (rep_len L)) (m - Z.of_nat n);
}.

Lemma far_weaken L n n' m : (n' <= n)%nat -> far L n m -> far L n' m.
Proof. intros Hn Hf k e Hk. apply Hf. lia. Qed.

Lemma far_kept L n m k e : log_ok L -> far L n m -> 1 <= m -> (1 <= k <= n)%nat ->
  (k <= length (lines_of (entries L)))%nat -> 0 <= s_at e ->
  l_seen L !! slot_of (length (lines_of (entries L))) k = Some e -> ring_tail (l_ring L) <= s_at e.
Proof.
  intros HL Hf Hm Hk Hkl Ha He. specialize (Hf k e Hk Hkl He). destruct (lo_least _ HL) as [->|Hl]; [done|].
  unfold LOG_LINE in *. lia.
Qed.

Lemma again_one times n L L1 : (times = first_ms \/ times = hold_ms) -> log_ok L ->
  Z.of_nat n < rep_len L -> again n L L1 ->
  lwp (again_at times (Z.of_nat n)) (fun _ L' => again (S n) L L') L1.
Proof.
  intros Ht HL Hn [H1 HR (xs & Hxl & Hls & Hex & Hfar)]. unfold again_at. apply lwp_bind, lwp_gets. simpl.
  pose proof (f_equal rep_len HR) as El. simpl in El. rewrite El. pose proof (lo_len _ HL) as [Hlen Hlenl].
  unfold LOG_REPEAT in *. set (ls := lines_of (entries L)) in *.
  assert (length (lines_of (entries L1)) = length ls + n)%nat as Hl1 by (rewrite Hls, length_app; lia).
  apply lwp_bind, seen_back_spec; [done|unfold LOG_SEEN, LOG_REPEAT; lia|lia|]. intros e m He Hm Hs.
  assert (block L !! n = Some m) as Hb.
  { unfold block. rewrite lookup_lastn by (fold ls; lia). fold ls. rewrite <- Hm, Hl1, Hls, lookup_app_l by lia. f_equal. lia. }
  assert (exists ms, times L1 !! n = Some ms) as [ms Hms].
  { apply lookup_lt_is_Some_2. destruct Ht as [-> | ->]; [rewrite (lo_first _ H1)|rewrite (lo_hold _ H1)]; unfold LOG_REPEAT; lia. }
  apply lwp_bind. eapply lwp_at; [lia|by rewrite Nat2Z.id|].
  eapply lwp_mono; [by apply (log_again_spec e m)|]. intros [] L2 (body & Hem & Hbody). constructor.
  - apply Hem.
  - by rewrite (emitted_rest _ _ _ _ _ Hem).
  - exists (xs ++ [(m.1, body)]). split_ands.
    + rewrite length_app. simpl. lia.
    + rewrite (em_entries _ _ _ _ _ Hem), lines_of_snoc, Hls. by rewrite app_assoc.
    + rewrite (em_entries _ _ _ _ _ Hem), expand_snoc, Hex. by rewrite app_assoc.
    + intros k Hk Hf Hsh. destruct (Hfar k ltac:(lia) Hf Hsh) as [Hx Hf1]. split.
      * rewrite (take_S_r _ _ m) by done. rewrite <- Hx. f_equal.
        assert (short m) as Hshm by (rewrite Forall_forall in Hsh; apply Hsh; by eapply list_elem_of_lookup_2).
        rewrite Hbody; [by destruct m| |done].
        apply (far_kept L1 (Z.to_nat (rep_len L)) (k - Z.of_nat n) (Z.to_nat (rep_len L)) e H1 Hf1); try lia; [apply Hs|].
        by rewrite <- He.
      * apply (far_weaken _ (S (Z.to_nat (rep_len L)))); [lia|].
        replace (k - Z.of_nat (S n)) with (k - Z.of_nat n - 1) by lia.
        apply (em_far _ _ _ _ _ Hem); [unfold LOG_SEEN, LOG_REPEAT; lia|lia|done].
Qed.

Lemma again_loop times n L : (times = first_ms \/ times = hold_ms) -> log_ok L -> Z.of_nat n <= rep_len L ->
  lwp (lfor n 0 (again_at times)) (fun _ L' => again n L L') L.
Proof.
  intros Ht HL Hn. apply (lwp_for (fun k L' => again (Z.to_nat k) L L')).
  - constructor; [done|done|]. exists []. rewrite !app_nil_r. split_ands; try done. intros m _ Hf _.
    split; [done|]. by rewrite Z.sub_0_r.
  - intros k L' Hk HA. cbv beta in *. replace k with (Z.of_nat (Z.to_nat k)) in * by lia.
    set (j := Z.to_nat k) in *. rewrite Nat2Z.id in HA.
    eapply lwp_mono; [apply again_one; [done|done|lia|done]|].
    intros [] L2 H2. cbv beta. by replace (Z.to_nat (Z.of_nat j + 1)) with (S j) by lia.
  - intros L' HA. cbv beta in HA. by rewrite Z.add_0_l, Nat2Z.id in HA.
Qed.

(** ** The note that a block repeats *)

Lemma far_less L n m m' : m' <= m -> far L n m -> far L n m'.
Proof. intros Hm Hf k e Hk Hkl He. specialize (Hf k e Hk Hkl He). unfold LOG_LINE in *. lia. Qed.

Lemma length_dec_digits f x acc : (length (dec_digits f x acc) <= f + length acc)%nat.
Proof.
  revert x acc. induction f as [|f IH]; intros x acc; simpl; [lia|]. destruct (x <? 10); simpl; [lia|].
  etrans; [apply IH|]. simpl. lia.
Qed.

Lemma length_dec x : (length (dec x) <= 21)%nat.
Proof.
  unfold dec. destruct (x <? 0); cbn [length]; [pose proof (length_dec_digits 20 (- x) [])|pose proof (length_dec_digits 20 x [])];
    change (length []) with 0%nat in *; lia.
Qed.

Lemma fit_repeat p len count : blen p <= LOG_PREFIX_MAX ->
  fit LOG_LINE p (repeat_text len count) = p ++ repeat_text len count /\ ends_line (p ++ repeat_text len count) /\
  blen (p ++ repeat_text len count) < LOG_LINE.
Proof.
  intros Hp. pose proof (length_dec len). pose proof (length_dec count).
  assert (length (repeat_text len count) <= 100)%nat as Hl.
  { unfold repeat_text. destruct (len =? 1); rewrite !length_app; simpl; lia. }
  unfold LOG_PREFIX_MAX, LOG_LINE in *. split_ands.
  - unfold fit. rewrite take_ge; [done|]. lia.
  - unfold repeat_text. destruct (len =? 1); rewrite !app_assoc; by eexists.
  - unfold blen in *. rewrite length_app. lia.
Qed.

Lemma log_ok_count c L : 0 <= c < 4294967296 -> (rep_len L = 0 -> c = 0) -> log_ok L -> log_ok (set_rep_count c L).
Proof.
  intros Hc Hz HL. pose proof (lo_pos _ HL) as (P1 & P2 & P3). constructor; simpl; try apply HL; try done.
  split_ands; try done. intros E. specialize (P2 E). split; [apply P2|auto].
Qed.

(** A note is no line. *)
Lemma put_ok buf e L L' : log_ok L -> put buf e L L' -> line_of_entry e = [] -> entry_text e = buf -> log_ok L'.
Proof.
  intros HL PU He Hb. pose proof (pu_core _ _ _ _ PU) as C. pose proof (f_equal entries C) as Ee. simpl in Ee.
  assert (lines_of (entries L') = lines_of (entries L)) as Els by (rewrite Ee, lines_of_snoc, He; apply app_nil_r).
  assert (text_of (entries L') = text_of (entries L) ++ buf) as Et by (rewrite Ee, text_of_snoc, Hb; done).
  pose proof (f_equal l_seen C) as E0. pose proof (f_equal rep_len C) as E1. pose proof (f_equal rep_pos C) as E2.
  pose proof (f_equal rep_count C) as E3. pose proof (f_equal rep_backoff C) as E4. pose proof (f_equal hold_ms C) as E5.
  pose proof (f_equal first_ms C) as E6. pose proof (f_equal seen_n C) as E7.
  simpl in E0, E1, E2, E3, E4, E5, E6, E7.
  constructor; rewrite ?Els, ?Et, ?E0, ?E1, ?E2, ?E3, ?E4, ?E5, ?E6, ?E7; try apply HL; try apply PU.
  intros k m Hk Hkl Hm. destruct (lo_back _ HL k m Hk Hkl Hm) as (x & Hx & Hs). exists x. split; [done|]. by apply seen_of_app.
Qed.

Lemma rep_level_ok level key : level = LOG_NOTE \/ level = LOG_WARN \/ level = LOG_FAIL ->
  rep_level level key = LOG_NOTE \/ rep_level level key = LOG_WARN \/ rep_level level key = LOG_FAIL.
Proof. unfold rep_level. intros Hl. repeat destruct (_ =? _); simpl; auto. Qed.

Lemma rep_key_spec n k level nocon (Q : Z -> logst -> Prop) L : log_ok L -> 1 <= k -> k + Z.of_nat n <= rep_len L + 1 ->
  level = LOG_NOTE \/ level = LOG_WARN \/ level = LOG_FAIL -> nocon = 0 \/ nocon = LOG_NOCON ->
  (forall key, key_ok key -> Z.ldiff key LOG_NOCON <> LOG_INFO -> Q key L) -> lwp (rep_key_from n k level nocon) Q L.
Proof.
  intros HL. revert k level nocon. induction n as [|n IH]; intros k level nocon Hk Hkn Hlev Hno HQ; simpl.
  - assert (Z.ldiff (Z.lor level nocon) LOG_NOCON = level) as E
      by (apply key_ok_make; [unfold LOG_N, LOG_NOTE, LOG_WARN, LOG_FAIL in *; lia|done]).
    apply lwp_ret, HQ; unfold key_ok; rewrite E; unfold LOG_N, LOG_NOTE, LOG_WARN, LOG_FAIL, LOG_INFO in *; lia.
  - pose proof (lo_len _ HL) as [Hl1 Hl2]. apply lwp_bind, seen_back_spec; [done|unfold LOG_SEEN in *; lia|lia|].
    intros e m _ _ _. apply IH; try done; try lia; [by apply rep_level_ok|].
    destruct Hno as [-> | ->]; [by left|]. rewrite Z.land_comm. apply land_nocon.
Qed.

(** What a flush leaves: the repetitions that were counted are in the log. *)
Record flushed (L L' : logst) : Prop := Flushed {
  fl_ok : log_ok L';
  fl_len : rep_len L' = rep_len L;
  fl_pos : rep_pos L' = rep_pos L;
  fl_count : rep_count L' = 0;
  fl_faith : forall m, 17 <= m <= 100 -> far L (Z.to_nat (rep_len L)) m -> Forall short (block L) ->
    block L' = block L /\ far L' (Z.to_nat (rep_len L)) (m - 17) /\
    expand [] (entries L') = expand [] (entries L) ++ copies (Z.to_nat (rep_count L)) (block L);
}.

Lemma rep_flush_spec L : log_ok L -> lwp rep_flush (fun _ L' => flushed L L') L.
Proof.
  intros HL. unfold rep_flush. apply lwp_bind, lwp_gets. simpl. pose proof (lo_len _ HL) as [Hlen Hlenl].
  unfold LOG_REPEAT in Hlen. destruct (Z.eqb_spec (rep_count L) 1) as [E1|N1].
  { apply lwp_bind, lwp_mod. pose proof (log_ok_count 0 L ltac:(lia) ltac:(done) HL) as H0.
    eapply lwp_mono; [apply (again_loop first_ms _ (set_rep_count 0 L)); [by left|done|simpl; lia]|].
    intros [] L' [H1 HR (xs & Hxl & Hls & Hex & Hfar)]. simpl in Hls, Hex, Hfar.
    pose proof (f_equal rep_len HR) as R1. pose proof (f_equal rep_pos HR) as R2. pose proof (f_equal rep_count HR) as R3.
    simpl in R1, R2, R3. constructor; [done..|]. intros m Hm Hf Hsh.
    destruct (Hfar m ltac:(lia) Hf Hsh) as [Hx Hf']. change (block (set_rep_count 0 L)) with (block L) in *.
    assert (length (block L) = Z.to_nat (rep_len L)) as Hbl by (apply length_lastn; lia).
    rewrite take_ge in Hx by lia. split_ands.
    - unfold block at 1. rewrite R1, Hls, Hx. pose proof (lastn_again (Z.to_nat (rep_len L)) (lines_of (entries L)) (Z.to_nat (rep_len L))) as Hag.
      fold (block L) in Hag. rewrite take_ge, drop_ge in Hag by lia. apply Hag; lia.
    - eapply far_less; [|exact Hf']. lia.
    - rewrite Hex, Hx, E1. unfold copies. simpl. by rewrite app_nil_r. }
  destruct (Z.eqb_spec (rep_count L) 0) as [E0|N0].
  { apply lwp_ret. constructor; try done. intros m Hm Hf _. split_ands; [done|eapply far_less; [|done]; lia|].
    rewrite E0. by rewrite app_nil_r. }
  unfold rep_key. apply lwp_bind, lwp_bind, lwp_gets. apply rep_key_spec; [done|lia|lia|by left|by right|]. intros key Hkey Hinfo.
  apply lwp_bind. eapply lwp_at; [apply Hkey|by apply tag_plain_at|]. cbv zeta.
  set (p := prefix _ _ _). apply lwp_bind, lwp_mod.
  destruct (fit_repeat p (rep_len L) (rep_count L)) as (Hfit & Hends & Hshort); [apply prefix_len|].
  set (e := ERepeat key (rep_ms L) (rep_len L) (rep_count L)).
  eapply lwp_mono; [apply (log_out_spec key (rep_ms L) _ (blen p) e (set_rep_count 0 L)); simpl; try apply HL; rewrite ?Hfit; try done|].
  - unfold head_text. by rewrite (proj2 (Z.eqb_neq _ _)) by done.
  - unfold blen. rewrite length_app. lia.
  - intros [] L' PU. pose proof (log_ok_count 0 L ltac:(lia) ltac:(done) HL) as H0.
    pose proof (put_ok _ _ _ _ H0 PU eq_refl eq_refl) as HL'.
    pose proof (pu_core _ _ _ _ PU) as C. pose proof (f_equal entries C) as Ee. pose proof (f_equal rep_len C) as E1.
    pose proof (f_equal rep_pos C) as E2. pose proof (f_equal rep_count C) as E3. pose proof (f_equal l_seen C) as E4.
    simpl in Ee, E1, E2, E3, E4.
    assert (lines_of (entries L') = lines_of (entries L)) as Els by (rewrite Ee, lines_of_snoc; apply app_nil_r).
    constructor; [done..|]. intros m Hm Hf _. split_ands.
    + unfold block. by rewrite E1, Els.
    + intros k x Hk Hkl Hx. rewrite Els, E4 in *. specialize (Hf k x Hk Hkl Hx).
      pose proof (ri_head _ _ (lo_ring _ HL)) as Hh. pose proof (ri_head _ _ (pu_ring _ _ _ _ PU)) as Hh'. simpl in Hh'.
      rewrite Hfit in Hh'. unfold blen, LOG_LINE in *. rewrite length_app in Hh'. lia.
    + rewrite Ee, expand_snoc. unfold e. simpl. by unfold block.
Qed.

(** ** The end of a repetition *)

(** [m] more lines can come before the block leaves the ring. *)
Definition roomy (L : logst) : Prop := far L (Z.to_nat (rep_len L)) 34.

Lemma log_ok_stop L : log_ok L -> rep_count L = 0 ->
  log_ok (set_rep_backoff 0 (set_rep_pos 0 (set_rep_len 0 L))).
Proof.
  intros HL Hc. constructor; simpl; try apply HL; try done; unfold LOG_REPEAT; intuition lia.
Qed.

Lemma expand_lines before es : Forall short before -> Forall short (expand before es) -> Forall short (lines_of es).
Proof.
  revert before. induction es as [|[key ms body|key ms len count|text] es IH]; intros before Hb; simpl; [done|..].
  - intros [Hm He]%Forall_cons. change (lines_of (ELine key ms body :: es)) with ((key, body) :: lines_of es).
    constructor; [done|]. apply (IH (before ++ [(key, body)])); [|done]. apply Forall_app. auto.
  - intros [_ He]%Forall_app. by apply (IH before).
  - by apply IH.
Qed.

Lemma pending_none L : rep_count L = 0 -> rep_pos L = 0 -> pending L = [].
Proof. unfold pending. by intros -> ->. Qed.

Lemma block_short L : Forall short (logged L) -> Forall short (block L).
Proof. intros [He _]%Forall_app. apply Forall_drop. by apply (expand_lines []). Qed.

Record stopped (L L' : logst) : Prop := Stopped {
  st_ok : log_ok L';
  st_len : rep_len L' = 0;
  st_faith : roomy L -> Forall short (logged L) -> logged L' = logged L;
}.

Lemma rep_break_spec L : log_ok L -> lwp rep_break (fun _ L' => stopped L L') L.
Proof.
  intros HL. unfold rep_break. apply lwp_bind, lwp_gets. apply lwp_bind.
  eapply lwp_mono; [by apply rep_flush_spec|]. intros [] L1 [H1 E1 E2 E3 F1].
  pose proof (lo_pos _ HL) as (P1 & P2 & P3). pose proof (lo_len _ HL) as [Hl Hll]. unfold LOG_REPEAT in Hl.
  assert (rep_pos L <= rep_len L) as Hpl by (destruct (decide (rep_len L = 0)) as [E|]; [destruct (P2 E); lia|lia]).
  apply lwp_bind. eapply lwp_mono; [apply (again_loop hold_ms (Z.to_nat (rep_pos L)) L1); [by right|done|lia]|].
  intros [] L2 [H2 HR (xs & Hxl & Hls & Hex & Hfar)]. apply lwp_mod.
  pose proof (f_equal rep_count HR) as R3. simpl in R3. constructor; [apply log_ok_stop; [done|congruence]|done|].
  intros Hroom Hf. pose proof (block_short _ Hf) as Hsh.
  destruct (F1 34 ltac:(lia) Hroom Hsh) as (Hb1 & Hf1 & Hx1). rewrite E1, Hb1 in Hfar.
  destruct (Hfar (34 - 17) ltac:(lia) Hf1 Hsh) as [Hxs _].
  unfold logged at 1. rewrite pending_none by (simpl; congruence). rewrite app_nil_r. cbn [entries set_rep_backoff set_rep_pos set_rep_len].
  rewrite Hex, Hx1, Hxs. unfold logged, pending. symmetry. apply app_assoc.
Qed.

(** ** The start of a repetition *)

Lemma seen_n_le L : log_ok L -> 0 <= seen_n L <= Z.of_nat (length (lines_of (entries L))).
Proof.
  intros HL. rewrite (lo_n _ HL). unfold u32. split; [by apply Z.mod_pos_bound|]. apply Z.mod_le; lia.
Qed.

Lemma twice_from_spec n k len L : log_ok L -> 1 <= k -> k + Z.of_nat n <= len + 1 -> len <= LOG_REPEAT ->
  2 * len <= seen_n L -> lwp (twice_from n k len) (fun _ L' => L' = L) L.
Proof.
  intros HL. revert k. induction n as [|n IH]; intros k Hk Hkn Hlen Hs; simpl; [by apply lwp_ret|].
  pose proof (seen_n_le L HL). unfold LOG_REPEAT in *.
  apply lwp_bind, seen_back_spec; [done|unfold LOG_SEEN, LOG_REPEAT; lia|lia|]. intros a _ _ _ _.
  apply lwp_bind, seen_back_spec; [done|unfold LOG_SEEN, LOG_REPEAT; lia|lia|]. intros b _ _ _ _.
  destruct (_ || _); [by apply lwp_ret|]. apply IH; lia.
Qed.

(** The block that may repeat starts with the message. *)
Definition starts (L : logst) (m : msg) (n : Z) : Prop :=
  0 <= n <= LOG_REPEAT /\ n <= Z.of_nat (length (lines_of (entries L))) /\
  (0 < n -> lastn (Z.to_nat n) (lines_of (entries L)) !! 0%nat = Some m).

Lemma starts_at L m n : 1 <= n <= LOG_REPEAT -> n <= Z.of_nat (length (lines_of (entries L))) ->
  lines_of (entries L) !! (length (lines_of (entries L)) - Z.to_nat n)%nat = Some m -> starts L m n.
Proof.
  intros H1 H2 H3. split; [lia|]. split; [done|]. intros _. rewrite lookup_lastn by lia. by rewrite Nat.add_0_r.
Qed.

Lemma find_from_spec n len key h body L : log_ok L -> 1 <= len -> len + Z.of_nat n <= LOG_REPEAT + 1 ->
  lwp (find_from n len key h body) (fun r L' => L' = L /\ starts L (key, body) r) L.
Proof.
  intros HL. assert (starts L (key, body) 0) as H0 by (split; [unfold LOG_REPEAT; lia|split; lia]).
  revert len. induction n as [|n IH]; intros len Hl Hn; simpl; [by apply lwp_ret|].
  apply lwp_bind, lwp_gets. simpl. destruct (Z.leb_spec (2 * len) (seen_n L)); simpl; [|by apply lwp_ret].
  pose proof (seen_n_le L HL).
  apply lwp_bind, seen_back_spec; [done|unfold LOG_SEEN, LOG_REPEAT in *; lia|lia|]. intros e m _ Hm Hs.
  apply lwp_bind. eapply lwp_mono; [by apply (seen_is_spec e m)|]. intros same L1 [-> Hsame].
  apply lwp_bind. apply (lwp_mono _ (fun b L' => L' = L /\ (b = true -> same = true))).
  { destruct same; [|by apply lwp_ret]. eapply lwp_mono; [apply twice_from_spec; [done|lia|lia|lia|done]|]. by intros b L1 ->. }
  intros b L1 [-> Hb]. destruct b; [|apply IH; lia].
  apply lwp_ret. split; [done|]. rewrite <- (Hsame (Hb eq_refl)). apply starts_at; [lia|lia|done].
Qed.

Lemma rep_find_spec key h body L : log_ok L ->
  lwp (rep_find key h body) (fun r L' => L' = L /\ starts L (key, body) r) L.
Proof.
  intros HL. unfold rep_find. apply lwp_bind, lwp_gets. cbv beta. unfold id. apply lwp_bind. pose proof (seen_n_le L HL).
  apply (lwp_mono _ (fun b L' => L' = L /\ (b = true -> starts L (key, body) 1))).
  { destruct (Z.eqb_spec (seen_n L) 0); [by apply lwp_ret|].
    apply lwp_bind, seen_back_spec; [done|done|lia|]. intros e m _ Hm Hs.
    eapply lwp_mono; [by apply (seen_is_spec e m)|]. intros b L1 [-> Hb]. split; [done|]. intros E.
    rewrite <- (Hb E). apply starts_at; [unfold LOG_REPEAT; lia|lia|done]. }
  intros b L1 [-> Hb]. destruct b; [by apply lwp_ret; auto|]. apply find_from_spec; [done|lia|].
  unfold LOG_REPEAT. lia.
Qed.

(** ** Holding a message back *)

Lemma log_ok_con L L' : con_step L L' -> pend_ok L' -> log_ok L -> log_ok L'.
Proof.
  intros [C _] HP HL. pose proof (f_equal entries C) as Ee. pose proof (f_equal l_ring C) as Er.
  pose proof (f_equal l_seen C) as E0. pose proof (f_equal rep_len C) as E1. pose proof (f_equal rep_pos C) as E2.
  pose proof (f_equal rep_count C) as E3. pose proof (f_equal rep_backoff C) as E4. pose proof (f_equal hold_ms C) as E5.
  pose proof (f_equal first_ms C) as E6. pose proof (f_equal seen_n C) as E7.
  simpl in Ee, Er, E0, E1, E2, E3, E4, E5, E6, E7.
  constructor; rewrite ?Ee, ?Er, ?E0, ?E1, ?E2, ?E3, ?E4, ?E5, ?E6, ?E7; try apply HL. done.
Qed.

Lemma clock_spec (Q : Z -> logst -> Prop) L : log_ok L ->
  (forall t, log_ok (set_l_calls (S (l_calls L)) L) -> Q t (set_l_calls (S (l_calls L)) L)) -> lwp mono_ms Q L.
Proof. intros HL HQ. apply lwp_call, HQ. eapply log_ok_con; [|apply HL|done]. constructor; simpl; auto. Qed.

Lemma pending_more L m : (Z.to_nat (rep_pos L) < length (block L))%nat -> block L !! Z.to_nat (rep_pos L) = Some m ->
  copies (Z.to_nat (rep_count L)) (block L) ++ take (S (Z.to_nat (rep_pos L))) (block L) = pending L ++ [m].
Proof. intros Hp Hm. unfold pending. rewrite (take_S_r _ _ m) by done. by rewrite app_assoc. Qed.

Lemma rep_hold_spec ms m L : log_ok L -> 0 < rep_len L -> block L !! Z.to_nat (rep_pos L) = Some m ->
  lwp (rep_hold ms) (fun _ L' => log_ok L' /\
    (rep_count L + 1 < 4294967296 -> logged L' = logged L ++ [m])) L.
Proof.
  intros HL Hl Hm. unfold rep_hold. pose proof (lo_len _ HL) as [Hlen Hlenl]. unfold LOG_REPEAT in Hlen.
  pose proof (lo_pos _ HL) as (P1 & P2 & P3). specialize (P3 Hl).
  assert (length (block L) = Z.to_nat (rep_len L)) as Hbl by (apply length_lastn; lia).
  pose proof (pending_more L m ltac:(lia) Hm) as Hpend. pose proof (lo_count _ HL) as Hcount.
  apply lwp_bind, lwp_gets. cbv beta. unfold id. apply lwp_bind.
  apply (lwp_mono _ (fun _ L' => log_ok L' /\ rest (set_hold_due 0 L') = rest (set_hold_due 0 L) /\ entries L' = entries L)).
  { apply lwp_when; [|done]. intros _. apply lwp_bind, clock_spec; [done|]. intros t HL1. apply lwp_mod. split_ands; try done.
    constructor; simpl; apply HL1. }
  intros [] L1 (H1 & R1 & Ee1). pose proof (f_equal rep_len R1) as E1. pose proof (f_equal rep_pos R1) as E2.
  pose proof (f_equal rep_count R1) as E3. simpl in E1, E2, E3.
  assert (block L1 = block L) as Eb by (unfold block; by rewrite E1, Ee1).
  apply lwp_bind, lwp_put; [rewrite (lo_hold _ HL); unfold LOG_REPEAT; lia|].
  apply lwp_bind, lwp_mod. cbv beta. rewrite E2, (u32_small (rep_pos L + 1)) by lia.
  set (L2 := set_rep_pos _ _). apply lwp_bind, lwp_gets. cbv beta. unfold id.
  change (rep_pos L2) with (rep_pos L + 1). change (rep_len L2) with (rep_len L1). rewrite E1.
  assert (length (hold_ms L2) = Z.to_nat LOG_REPEAT) as Hh2 by (unfold L2; simpl; rewrite length_insert; apply HL).
  destruct (Z.ltb_spec (rep_pos L + 1) (rep_len L)) as [Hlt|Hge].
  - apply lwp_ret. split.
    + constructor; simpl; try apply H1; [done|]. rewrite E1. lia.
    + intros _. unfold logged. change (entries L2) with (entries L1). rewrite Ee1, <- app_assoc. f_equal.
      rewrite <- Hpend. unfold pending. change (block L2) with (block L1). change (rep_count L2) with (rep_count L1).
      rewrite Eb, E3. f_equal. f_equal. change (rep_pos L2) with (rep_pos L + 1). lia.
  - apply lwp_bind, lwp_mod. change (rep_count L2) with (rep_count L1). rewrite E3. set (L3 := set_rep_count _ _).
    assert (log_ok L3) as H3.
    { constructor; simpl; try apply H1; [done|rewrite E1; lia|]. unfold u32. by apply Z.mod_pos_bound. }
    assert (rep_count L + 1 < 4294967296 -> logged L3 = logged L ++ [m]) as Hlog.
    { intros Hc. unfold logged. change (entries L3) with (entries L1). rewrite Ee1, <- app_assoc. f_equal.
      rewrite <- Hpend. unfold pending. change (block L3) with (block L1). rewrite Eb.
      change (rep_pos L3) with 0. change (rep_count L3) with (u32 (rep_count L + 1)). rewrite u32_small by lia.
      change (Z.to_nat 0) with 0%nat. rewrite take_0, app_nil_r. replace (Z.to_nat (rep_count L + 1)) with (S (Z.to_nat (rep_count L))) by lia.
      rewrite copies_S. f_equal. symmetry. apply take_ge. lia. }
    apply lwp_when; [|intros _; by split]. intros _. apply lwp_bind, clock_spec; [exact H3|]. intros t H4. set (L4 := set_l_calls _ _) in *.
    destruct (lookup_lt_is_Some_2 repeat_ms (Z.to_nat (rep_backoff L2))) as [d Hd].
    { pose proof (lo_backoff _ H1). change (rep_backoff L2) with (rep_backoff L1). unfold repeat_ms. simpl. lia. }
    apply lwp_bind. eapply lwp_at; [apply H1|exact Hd|]. cbv zeta. apply lwp_mod. split; [|exact Hlog].
    constructor; simpl; try apply H4. rewrite length_app, length_take, length_drop.
    change (length (<[Z.to_nat (rep_pos L):=ms]> (hold_ms L))) with (length (hold_ms L2)). rewrite Hh2, (lo_first _ H1). lia.
Qed.
End Spec.
