(* ===== verification/Logged.v ===== *)
(** * What the log keeps (src/logging.c)

    A run of the log: every message gets in, none is lost to a repetition, and a
    reader sees the text from the oldest line on. *)

From S2P Require Import Prelude Ring Log Console Repeat.

Section Spec.
Context `{O : LogOs} `{!LogOk O}.

(** ** One message *)

(** The level of the line, and the message as the log keeps it. *)
Definition key_of (level : Z) : Z :=
  let l := Z.ldiff level LOG_NOCON in Z.lor (if LOG_N <=? l then LOG_INFO else l) (Z.land level LOG_NOCON).

Definition msg_of (level : Z) (text : bytes) : msg := (key_of level, text ++ [10]).

Lemma line_of_cut pre text : blen pre <= LOG_PREFIX_MAX -> exists body,
  line_of LOG_LINE pre text = pre ++ body /\ ends_line body /\ blen (pre ++ body) < LOG_LINE /\
  (blen (text ++ [10]) <= LOG_LINE - 1 - LOG_PREFIX_MAX -> body = text ++ [10]).
Proof.
  intros Hp. unfold line_of, fit, LOG_LINE, LOG_PREFIX_MAX, blen in *.
  exists (take (Z.to_nat (1024 - 2) - length pre) (take (Z.to_nat (1024 - 1 - Z.of_nat (length pre))) text) ++ [10]).
  split_ands.
  - rewrite app_assoc. f_equal. rewrite take_app, take_ge by lia. done.
  - by eexists.
  - rewrite !length_app, !length_take. simpl. lia.
  - rewrite length_app. simpl. intros Ht. rewrite !take_ge; [done|lia|]. rewrite take_ge by lia. lia.
Qed.

Lemma core_logged L L' : core L' = core L -> logged L' = logged L.
Proof.
  intros C. pose proof (f_equal entries C) as E. pose proof (f_equal rep_len C) as E1. pose proof (f_equal rep_pos C) as E2.
  pose proof (f_equal rep_count C) as E3. simpl in E, E1, E2, E3. unfold logged, pending, block. by rewrite E, E1, E2, E3.
Qed.

Lemma core_far L L' n m : core L' = core L -> far L n m -> far L' n m.
Proof.
  intros C. pose proof (f_equal entries C) as E. pose proof (f_equal l_seen C) as E1. pose proof (f_equal l_ring C) as E2.
  simpl in E, E1, E2. unfold far. by rewrite E, E1, E2.
Qed.

(** The message is the next one of the repetition, or none is under way. *)
Definition matched (L : logst) (m : msg) : Prop :=
  rep_len L = 0 \/ 0 < rep_len L /\ block L !! Z.to_nat (rep_pos L) = Some m.

(** [if(rep_len && !seen_is(...)) rep_break();] *)
Lemma match_spec key h body L : log_ok L ->
  lwp (lwhen (negb (rep_len L =? 0))
         (e ← seen_back (u32 (rep_len L - rep_pos L));
          same ← seen_is e key h body;
          lwhen (negb same) rep_break))
    (fun _ L' => log_ok L' /\ matched L' (key, body) /\
      (rep_len L' = 0 \/ rep_count L' = rep_count L) /\
      (roomy L -> Forall short (logged L) -> logged L' = logged L)) L.
Proof.
  intros HL. pose proof (lo_len _ HL) as [Hlen Hlenl]. unfold LOG_REPEAT in Hlen. pose proof (lo_pos _ HL) as (P1 & P2 & P3).
  apply lwp_when; intros Hz; [apply negb_true_iff, Z.eqb_neq in Hz|apply negb_false_iff, Z.eqb_eq in Hz];
    [|split_ands; auto; by left].
  rewrite u32_small by lia. apply lwp_bind, seen_back_spec; [done|unfold LOG_SEEN, LOG_REPEAT; lia|lia|].
  intros e m _ Hm Hs. apply lwp_bind. eapply lwp_mono; [by apply (seen_is_spec e m)|]. intros same L1 [-> Hsame].
  apply lwp_when; intros Hb; [|apply negb_false_iff in Hb; specialize (Hsame Hb)].
  - eapply lwp_mono; [by apply rep_break_spec|]. intros [] L1 []. split_ands; auto. by left.
  - split_ands; auto. right. split; [lia|]. rewrite <- Hsame, <- Hm. unfold block. rewrite lookup_lastn by lia. f_equal. lia.
Qed.

(** [if(!rep_len) rep_len = rep_find(...);] *)
Lemma found_spec key h body L : log_ok L -> matched L (key, body) ->
  lwp (lwhen (rep_len L =? 0) (n ← rep_find key h body; lmod (set_rep_len n)))
    (fun _ L' => log_ok L' /\ matched L' (key, body) /\ logged L' = logged L /\
      (rep_len L' = 0 -> rep_pos L' = 0 /\ rep_count L' = 0) /\ (rep_len L = 0 -> rep_count L' = 0) /\
      (rep_len L <> 0 -> rep_count L' = rep_count L)) L.
Proof.
  intros HL HM. pose proof (lo_pos _ HL) as (P1 & P2 & P3).
  apply lwp_when; intros Hz; [apply Z.eqb_eq in Hz|apply Z.eqb_neq in Hz; split_ands; auto; by intros].
  destruct (P2 Hz) as [Hp0 Hc0]. apply lwp_bind. eapply lwp_mono; [by apply rep_find_spec|].
  intros n L1 [-> (N1 & N2 & N3)]. apply lwp_mod. split; [|split; [|split; [|by split_ands]]].
  - constructor; simpl; try apply HL; [done|]. rewrite Hp0, Hc0. split_ands; lia || done.
  - destruct (decide (n = 0)) as [->|]; [by left|]. right. simpl. split; [lia|]. rewrite Hp0. unfold block. simpl. apply N3. lia.
  - unfold logged. rewrite !pending_none by done. done.
Qed.

(** A message goes into the log, whatever the console and the clock do. *)
Lemma ninit_log_spec level text L : log_ok L -> 0 <= level ->
  lwp (ninit_log level text) (fun _ L' => log_ok L' /\
    (roomy L -> Forall short (logged L) -> short (msg_of level text) -> rep_count L + 1 < 4294967296 ->
     logged L' = logged L ++ [msg_of level text])) L.
Proof.
  intros HL Hlev. unfold ninit_log. apply lwp_bind, elapsed_spec. intros ms L1 S1 E1 E2 _ _.
  pose proof (log_ok_con _ _ S1 (con_step_pend _ _ S1 E1 E2 (lo_pend _ HL)) HL) as H1. destruct S1 as [C1 _].
  assert (roomy L -> roomy L1) as Hroom by (unfold roomy; pose proof (f_equal rep_len C1) as E; simpl in E; rewrite E; by apply core_far).
  cbv zeta. set (lvl := if LOG_N <=? Z.ldiff level LOG_NOCON then LOG_INFO else Z.ldiff level LOG_NOCON).
  assert (0 <= lvl < LOG_N) as Hlvl.
  { pose proof (ldiff_nonneg level Hlev). unfold lvl. destruct (Z.leb_spec LOG_N (Z.ldiff level LOG_NOCON)); unfold LOG_N, LOG_INFO in *; lia. }
  assert (Z.ldiff (key_of level) LOG_NOCON = lvl) as Hkl by (apply key_ok_make; [done|apply land_nocon]).
  apply lwp_bind, head_spec; [done|]. set (pre := head_text lvl ms).
  destruct (line_of_cut pre text (head_len lvl ms)) as (body & Hbuf & Hends & Hlen & Htext). rewrite Hbuf.
  change (Z.lor lvl (Z.land level LOG_NOCON)) with (key_of level). set (key := key_of level) in *.
  replace (drop (Z.to_nat (blen pre)) (pre ++ body)) with body by (unfold blen; by rewrite Nat2Z.id, drop_app_length).
  apply lwp_bind, lwp_gets. cbv beta. unfold id.
  apply lwp_bind. eapply lwp_mono; [by apply match_spec|]. intros [] L2 (H2 & M2 & D2 & F2).
  apply lwp_bind, lwp_gets. cbv beta. unfold id.
  apply lwp_bind. eapply lwp_mono; [by apply found_spec|]. intros [] L3 (H3 & M3 & F3 & P3 & D3 & D3').
  apply lwp_bind, lwp_gets. cbv beta. unfold id.
  assert (roomy L -> Forall short (logged L) -> logged L3 = logged L) as F.
  { intros Hr Hsh. rewrite F3, <- (core_logged _ _ C1). rewrite <- (core_logged _ _ C1) in Hsh. by apply F2; [apply Hroom|]. }
  destruct (Z.eqb_spec (rep_len L3) 0) as [Ez|Nz].
  - destruct (P3 Ez) as [Ep Ec].
    eapply lwp_mono; [apply (log_emit_spec key ms _ _ _ body); rewrite ?Hkl; try done; [unfold key_ok; by rewrite Hkl]|].
    intros [] L4 He. split; [apply He|]. intros Hr Hsh Hm _. rewrite <- (F Hr Hsh).
    pose proof (emitted_rest _ _ _ _ _ He) as R. pose proof (f_equal rep_pos R) as R1. pose proof (f_equal rep_count R) as R2.
    simpl in R1, R2. unfold logged. rewrite !pending_none by congruence. rewrite !app_nil_r, (em_entries _ _ _ _ _ He), expand_snoc.
    unfold msg_of. by rewrite <- (Htext Hm).
  - destruct M3 as [|[Hpos Hb]]; [done|]. eapply lwp_mono; [by apply (rep_hold_spec ms (key, body))|].
    intros [] L4 [H4 F4]. split; [done|]. intros Hr Hsh Hm Hc. rewrite F4, (F Hr Hsh); [unfold msg_of; by rewrite <- (Htext Hm)|].
    destruct (decide (rep_len L2 = 0)) as [E|E]; [rewrite (D3 E); lia|]. rewrite (D3' E). destruct D2 as [D2|D2]; [done|].
    pose proof (f_equal rep_count C1) as EC. simpl in EC. rewrite D2, EC. done.
Qed.

(** ** A run of the log *)

Lemma log_tick_spec L : log_ok L ->
  lwp log_tick (fun _ L' => log_ok L' /\ (roomy L -> Forall short (logged L) -> logged L' = logged L)) L.
Proof.
  intros HL. unfold log_tick. apply lwp_bind, lwp_gets. cbv beta. unfold id. destruct (_ && _); [by apply lwp_ret|].
  apply lwp_bind, clock_spec; [done|]. intros t H1. set (L1 := set_l_calls _ _) in *.
  change (roomy L) with (roomy L1). change (logged L) with (logged L1).
  destruct (_ && _).
  - eapply lwp_mono; [by apply rep_break_spec|]. intros [] L2 []. by split.
  - apply lwp_when; [|by split]. intros _. apply lwp_bind. eapply lwp_mono; [by apply rep_flush_spec|].
    intros [] L2 [H2 E1 E2 E3 F2]. apply lwp_mod.
    assert (0 <= rep_backoff L2 < 3) as Hb by apply H2.
    cbv beta. match goal with |- context [if ?b then ?x else ?y] => set (L3 := if b then x else y) end.
    assert (log_ok L3) as H3.
    { unfold L3. destruct (Z.ltb_spec (rep_backoff L2 + 1) (Z.of_nat (length repeat_ms))) as [Hlt|]; [|done].
      change (Z.of_nat (length repeat_ms)) with 3 in Hlt. constructor; simpl; try apply H2. unfold u8. rewrite Z.mod_small; lia. }
    split; [done|]. intros Hr Hsh. destruct (F2 34 ltac:(lia) Hr (block_short _ Hsh)) as (Hbl & _ & Hx).
    assert (logged L3 = logged L2) as -> by (unfold L3; by destruct (_ <? _)).
    unfold logged, pending. rewrite Hbl, Hx, E2, E3. rewrite <- app_assoc. f_equal.
Qed.

(** The rest of what the event loop asks of the log. *)
Lemma log_due_spec L : log_ok L -> lwp log_due (fun _ => log_ok) L.
Proof.
  intros HL. unfold log_due. apply lwp_bind, lwp_gets. cbv beta. destruct (_ && _); [by apply lwp_ret|].
  apply lwp_bind, clock_spec; [done|]. intros t H1. by apply lwp_ret.
Qed.

Lemma log_batch_begin_spec L : log_ok L -> lwp log_batch_begin (fun _ => log_ok) L.
Proof.
  intros HL. unfold log_batch_begin. apply lwp_bind, clock_spec; [done|]. intros t H1. apply lwp_mod.
  by apply (log_ok_con (set_l_calls (S (l_calls L)) L)); [|apply H1|].
Qed.

Lemma log_flush_ok L : log_ok L -> lwp log_flush (fun _ => log_ok) L.
Proof.
  intros HL. destruct (decide (log_pend L = [])) as [E|E].
  - unfold log_flush. apply lwp_bind, lwp_gets. apply lwp_bind. eapply lwp_mono; [apply con_push_spec|]. intros n L1 Hpush.
    pose proof (pushed_step _ _ _ _ _ Hpush) as S1.
    assert (n <= 0) as Hn by (destruct Hpush as [[[_ Hr] _]|[-> _]]; [rewrite (pend_rest_empty L E) in Hr|]; done).
    rewrite (proj2 (Z.ltb_ge 0 n) Hn). cbn [lwhen]. apply lwp_bind, lwp_ret. apply lwp_bind, lwp_gets. unfold id.
    rewrite (proj2 (Z.leb_le n 0) Hn). cbn [orb lwhen]. apply lwp_bind, lwp_mod. apply lwp_mod.
    apply (log_ok_con L); [constructor; simpl; apply S1| |done]. by unfold pend_ok, LOG_CON, LOG_LINE.
  - eapply lwp_mono; [apply log_flush_spec; [apply HL|done]|]. intros [] L' (S1 & P1 & _). by apply (log_ok_con L).
Qed.

(** What the program does with the log. *)
Inductive log_op := OpMsg (level : Z) (text : bytes) | OpTick.

Definition log_do (o : log_op) : LM unit :=
  match o with OpMsg level text => ninit_log level text | OpTick => log_tick end.

Fixpoint log_run (l : list log_op) : LM unit :=
  match l with [] => mret tt | o :: l' => log_do o;; log_run l' end.

Definition msgs_of (l : list log_op) : list msg :=
  concat ((fun o => match o with OpMsg level text => [msg_of level text] | OpTick => [] end) <$> l).

Definition op_ok (o : log_op) : Prop :=
  match o with OpMsg level text => 0 <= level /\ short (msg_of level text) | OpTick => True end.

(** In every state of the run the block that repeats is not about to leave the
    ring, and the count of its repetitions has room. *)
Fixpoint roomy_run (l : list log_op) (L : logst) : Prop :=
  match l with
  | [] => True
  | o :: l' => roomy L /\ rep_count L + 1 < 4294967296 /\ forall L', log_do o L = VOk (tt, L') -> roomy_run l' L'
  end.

Lemma log_run_spec l L : log_ok L -> Forall op_ok l -> Forall short (logged L) -> roomy_run l L ->
  lwp (log_run l) (fun _ L' => log_ok L' /\ logged L' = logged L ++ msgs_of l) L.
Proof.
  revert L. induction l as [|o l IH]; intros L HL Hops Hsh Hroom; cbn [log_run].
  { apply lwp_ret. split; [done|]. unfold msgs_of. simpl. by rewrite app_nil_r. }
  apply Forall_cons in Hops as [Ho Hops]. destruct Hroom as (Hr & Hc & Hnext).
  set (m := msgs_of [o]).
  assert (lwp (log_do o) (fun _ L' => log_ok L' /\ logged L' = logged L ++ m) L) as Hdo.
  { destruct o as [level text|]; cbn [log_do].
    - destruct Ho as [Hlev Hshort]. eapply lwp_mono; [by apply ninit_log_spec|]. intros [] L' [H' F']. split; [done|]. by apply F'.
    - eapply lwp_mono; [by apply log_tick_spec|]. intros [] L' [H' F']. split; [done|]. unfold m, msgs_of. simpl. rewrite app_nil_r. by apply F'. }
  apply lwp_bind. unfold lwp in Hdo |- *. destruct (log_do o L) as [[[] L1]| | |] eqn:Hrun; try done. simpl in Hdo |- *.
  destruct Hdo as [H1 E1]. specialize (Hnext L1 eq_refl).
  change (lwp (log_run l) (fun _ L' => log_ok L' /\ logged L' = logged L ++ msgs_of (o :: l)) L1).
  apply (lwp_mono _ (fun _ L' => log_ok L' /\ logged L' = logged L1 ++ msgs_of l)).
  - apply IH; try done. rewrite E1. apply Forall_app. split; [done|]. unfold m. destruct o; [|done].
    apply Forall_singleton. apply Ho.
  - intros [] L2 [H2 E2]. split; [done|]. rewrite E2, E1, <- app_assoc. unfold m, msgs_of. simpl. by rewrite app_nil_r.
Qed.

Lemma log_start_ok start fd color : log_ok (log_start_state start fd color).
Proof.
  unfold log_start_state, ring_empty. constructor; cbn -[replicate]; rewrite ?length_replicate; try done.
  - constructor; cbn -[replicate LOG_RING blen].
    + unfold blen. by rewrite length_replicate, Z2Nat.id.
    + done.
    + done.
    + done.
    + intros k Hk. lia.
    + by left.
    + by left.
    + intros k. rewrite drop_nil. simpl. lia.
  - by left.
Qed.

(** The same as a test. *)
Definition roomy_b (L : logst) : bool :=
  forallb (fun k => match l_seen L !! slot_of (length (lines_of (entries L))) k with
                    | Some e => ring_head (l_ring L) - s_at e <=? LOG_RING - 34 * LOG_LINE
                    | None => true
                    end) (seq 1 (Z.to_nat (rep_len L))).

Fixpoint roomy_run_b (l : list log_op) (L : logst) : bool :=
  match l with
  | [] => true
  | o :: l' => roomy_b L && (rep_count L + 1 <? 4294967296) &&
      match log_do o L with VOk (_, L') => roomy_run_b l' L' | _ => false end
  end.

Lemma roomy_run_test l L : roomy_run_b l L = true -> roomy_run l L.
Proof.
  revert L. induction l as [|o l IH]; intros L; cbn [roomy_run roomy_run_b]; [done|].
  intros [[Hr Hc%Z.ltb_lt]%andb_true_iff Hn]%andb_true_iff. split; [|split; [done|]].
  - intros k e Hk _ He. unfold roomy_b in Hr. rewrite forallb_forall in Hr. specialize (Hr k).
    rewrite He in Hr. apply Z.leb_le, Hr, in_seq. lia.
  - intros L' HL'. rewrite HL' in Hn. by apply IH.
Qed.

(** C35. The log loses no message: whatever it folds into "last messages
    repeated", the lines and notes put into the ring stand, with what is held
    back, for the messages that were logged, each of them and in order; and the
    ring holds the end of their text from the start of a line on. The block that
    repeats has to stay in the ring, and a message has to fit its line. *)
Theorem log_loses_nothing start fd color l : let L := log_start_state start fd color in
  Forall op_ok l -> roomy_run l L ->
  exists L', log_run l L = VOk (tt, L') /\
    expand [] (entries L') ++ pending L' = msgs_of l /\
    ring_ok (l_ring L') (text_of (entries L')).
Proof.
  intros L Hops Hroom.
  pose proof (log_run_spec l L (log_start_ok start fd color) Hops ltac:(constructor) Hroom) as Hrun.
  unfold lwp in Hrun. destruct (log_run l L) as [[[] L']| | |]; try done. destruct Hrun as [H' E].
  exists L'. split; [done|]. split; [exact E|apply H'].
Qed.

(** A message is logged whatever the console and the clock do: the loops of
    the ring, of the console and of the repetitions end, and no array of the log
    is accessed outside its bounds. *)
Theorem log_returns level text L : log_ok L -> 0 <= level ->
  exists L', ninit_log level text L = VOk (tt, L') /\ log_ok L'.
Proof.
  intros HL Hlev. pose proof (ninit_log_spec level text L HL Hlev) as H. unfold lwp in H.
  destruct (ninit_log level text L) as [[[] L']| | |]; try done. exists L'. split; [done|apply H].
Qed.

(** ** Reading the log *)

(** The listing of the log: lines until there are none. *)
Fixpoint read_log (fuel : nat) (at_ : Z) : LM bytes :=
  match fuel with
  | 0%nat => lres VDiverge
  | S fuel' =>
      r ← log_line at_;
      if decide (r.1 = []) then mret [] else rest ← read_log fuel' r.2; mret (r.1 ++ rest)
  end.

Lemma log_line_spec at_ L : log_ok L -> ring_tail (l_ring L) <= at_ <= ring_head (l_ring L) ->
  lwp (log_line at_) (fun r L' => L' = L /\
    let l := take_line (drop (Z.to_nat at_) (text_of (entries L))) in r = (l, at_ + blen l)) L.
Proof.
  intros HL Ha. unfold log_line. pose proof (lo_ring _ HL) as HR. pose proof (ri_head _ _ HR) as Hh. pose proof (ri_tail _ _ HR).
  apply lwp_bind, lwp_gets. rewrite (proj2 (Z.ltb_ge _ _)) by lia.
  destruct (Z.leb_spec (ring_head (l_ring L)) at_) as [Hle|Hlt].
  - apply lwp_ret. split; [done|]. rewrite drop_ge by (unfold blen in *; lia). unfold blen. simpl. f_equal. lia.
  - apply lwp_bind. eapply lwp_res; [apply (ring_eol_spec _ _ HR); lia|]. intros e ->.
    set (l := take_line _). pose proof (ri_short _ _ HR (Z.to_nat at_)) as Hs. fold l in Hs.
    pose proof (length_take_line (drop (Z.to_nat at_) (text_of (entries L)))) as Hl. rewrite length_drop in Hl. fold l in Hl.
    apply lwp_bind. replace (at_ + blen l - at_) with (blen l) by lia.
    eapply lwp_res; [apply (ring_get_spec HR); unfold blen, LOG_LINE in *; lia|]. intros s ->. apply lwp_ret. split; [done|]. cbv zeta.
    f_equal. unfold blen. rewrite Nat2Z.id. symmetry. apply take_line_prefix.
Qed.

(** A reader that starts at the oldest line of the ring reads, line by line,
    exactly the text that was logged from there on. *)
Theorem reader_sees_log L fuel : log_ok L ->
  (Z.to_nat (ring_head (l_ring L) - ring_tail (l_ring L)) < fuel)%nat ->
  read_log fuel (ring_tail (l_ring L)) L = VOk (drop (Z.to_nat (ring_tail (l_ring L))) (text_of (entries L)), L).
Proof.
  intros HL. pose proof (lo_ring _ HL) as HR. pose proof (ri_tail _ _ HR) as Ht. pose proof (ri_head _ _ HR) as Hh.
  assert (forall at_, ring_tail (l_ring L) <= at_ <= ring_head (l_ring L) -> (Z.to_nat (ring_head (l_ring L) - at_) < fuel)%nat ->
    lwp (read_log fuel at_) (fun s L' => L' = L /\ s = drop (Z.to_nat at_) (text_of (entries L))) L) as Hread.
  - induction fuel as [|fuel IH]; intros at_ Ha Hf; [lia|]. cbn [read_log]. apply lwp_bind.
    eapply lwp_mono; [by apply log_line_spec|]. intros r L1 [-> ->]. set (l := take_line _). cbn [fst snd].
    pose proof (length_take_line (drop (Z.to_nat at_) (text_of (entries L)))) as Hl. rewrite length_drop in Hl. fold l in Hl.
    unfold blen in Hh. destruct (decide (l = [])) as [El|El].
    + apply lwp_ret. split; [done|]. destruct (drop (Z.to_nat at_) (text_of (entries L))) as [|c s] eqn:Hd; [done|].
      exfalso. unfold l in El. simpl in El. by destruct (c =? 10).
    + apply lwp_bind. assert (0 < length l)%nat as Hpos by (destruct l; [done|simpl; lia]).
      eapply lwp_mono; [apply IH; unfold blen; lia|]. intros s L1 [-> ->]. apply lwp_ret. split; [done|].
      pose proof (take_line_prefix (drop (Z.to_nat at_) (text_of (entries L)))) as Hp. fold l in Hp.
      replace (Z.to_nat (at_ + blen l)) with (Z.to_nat at_ + length l)%nat by (unfold blen; lia). rewrite <- drop_drop. rewrite Hp at 1. apply take_drop.
  - intros Hf. specialize (Hread (ring_tail (l_ring L)) ltac:(lia) Hf). unfold lwp in Hread.
    destruct (read_log fuel _ L) as [[s L']| | |]; try done. destruct Hread as [E1 E2]. simpl in E1, E2. by rewrite E1, E2.
Qed.
End Spec.

(** A message repeats three times, then others come. *)
Definition demo_log : LogOs :=
  {| lo_clock n := 100 * Z.of_nat n; lo_write n fd b := inl (blen b); lo_patience := 20 |}.

#[export] Instance demo_log_ok : LogOk demo_log.
Proof.
  constructor; cbn -[Z.mul]; try lia.
  - intros n fd b k [= <-]. lia.
  - intros n fd. exists 0%nat. split; [lia|done].
  - intros n. unfold LOG_WRITE_MS. lia.
Qed.

Definition demo_msgs : list log_op :=
  [OpMsg 3 (bs "a"); OpMsg 3 (bs "a"); OpMsg 3 (bs "a"); OpTick; OpMsg 2 (bs "b"); OpMsg 3 (bs "a"); OpMsg 2 (bs "b");
   OpMsg 3 (bs "a"); OpMsg 2 (bs "b"); OpMsg 3 (bs "a"); OpMsg 5 (bs "c")].

Lemma demo_msgs_ok : Forall op_ok demo_msgs.
Proof. repeat constructor; vm_compute; discriminate. Qed.

Lemma log_loses_nothing_witness : exists L',
  log_run (O := demo_log) demo_msgs (log_start_state 0 1 false) = VOk (tt, L') /\
  expand [] (entries L') ++ pending L' = msgs_of demo_msgs /\ length (entries L') = 9%nat.
Proof.
  destruct (log_loses_nothing (O := demo_log) 0 1 false demo_msgs demo_msgs_ok) as (L' & Hr & He & _);
    [apply roomy_run_test; vm_compute; reflexivity|].
  exists L'. split; [exact Hr|]. split; [exact He|].
  assert (match log_run (O := demo_log) demo_msgs (log_start_state 0 1 false) with
          | VOk r => length (entries r.2) | _ => 0%nat end = 9%nat) as E by (vm_compute; reflexivity).
  rewrite Hr in E. exact E.
Defined.

Lemma log_returns_witness : exists L',
  ninit_log (H := demo_log) 3 (bs "a") (log_start_state 0 1 false) = VOk (tt, L') /\ log_ok L'.
Proof. apply (log_returns (O := demo_log) 3 (bs "a")); [apply log_start_ok|lia]. Defined.

Lemma reader_sees_log_witness : read_log (O := demo_log) 1 0 (log_start_state 0 1 false) = VOk ([], log_start_state 0 1 false).
Proof. apply (reader_sees_log (O := demo_log) (log_start_state 0 1 false) 1); [apply log_start_ok|simpl; lia]. Defined.
