(* ===== verification/Welcome.v ===== *)
(** * The log at boot (src/logging.c)

    The console the log writes to, and the greeting with the name of the system
    from os-release. *)

From S2P Require Import Prelude Ring Log Console Repeat Logged.

(** ** The name of the system *)

(** [fgets]: at most [n] bytes, up to a newline and with it; the rest. *)
Fixpoint fgets (n : nat) (s : bytes) : bytes * bytes :=
  match n, s with
  | 0%nat, _ => ([], s)
  | S _, [] => ([], [])
  | S n', c :: s' => if c =? 10 then ([10], s') else let r := fgets n' s' in (c :: r.1, r.2)
  end.

Definition last_is (c : Z) (s : bytes) : bool := bool_decide (last s = Some c).

(** The text after the key, without its newline and its quotes. *)
Definition unquote (name : bytes) : bytes :=
  let '(quote, name) := match name with
                        | c :: name' => if (c =? 34) || (c =? 39) then (c, name') else (0, name)
                        | [] => (0, [])
                        end in
  let name := if last_is 10 name then removelast name else name in
  if negb (quote =? 0) && last_is quote name then removelast name else name.

Definition OS_KEY : bytes := bs "PRETTY_NAME=".

(** The lines of the file, each in a buffer of 128 bytes. *)
Fixpoint os_name (fuel : nat) (file : bytes) : bytes :=
  match fuel with
  | 0%nat => bs "Linux"
  | S fuel' =>
      if decide (file = []) then bs "Linux" else
      let '(buf, rest) := fgets 127 file in
      let line := cut0 buf in
      if decide (take 12 line = OS_KEY) then unquote (drop 12 line) else os_name fuel' rest
  end.

Definition os_of (file : option bytes) : bytes :=
  match file with Some f => os_name (S (length f)) f | None => bs "Linux" end.

Definition welcome (os release : bytes) : bytes :=
  fit LOG_LINE [] (bs "Welcome to " ++ os ++ bs "! (" ++ release ++ bs ")" ++ [10; 10]).

Definition welcome_color (os release : bytes) : bytes :=
  fit LOG_LINE [] (bs "Welcome to " ++ [27] ++ bs "[1m" ++ os ++ [27] ++ bs "[0m! (" ++ release ++ bs ")" ++ [10; 10]).

(** ** The console *)

Section Boot.
Context `{LogOs} (isatty : Z -> bool).

(** The flags of the descriptor are the kernel's. *)
Definition log_set_nonblock : LM unit := lcall (fun _ => tt).

Definition log_init : LM unit :=
  t ← mono_ms;
  lmod (set_log_start t);;
  fd ← lgets log_fd;
  lmod (set_log_color (isatty fd));;
  log_set_nonblock;;
  log_batch_begin.

Definition log_adopt_fd (fd : Z) : LM unit :=
  lmod (set_log_fd fd);;
  lmod (set_log_color (isatty fd));;
  log_set_nonblock;;
  pend_clear.

(** [console] is what opening /dev/console gave. *)
Definition log_reopen_console (console : Z + Z) : LM unit :=
  match console with
  | inl fd => log_adopt_fd fd
  | inr _ => mret tt
  end.

(** [file] is the text of the first os-release that opens, [release] what
    [uname] gives. *)
Definition print_welcome (file : option bytes) (release : bytes) : LM unit :=
  let os := os_of file in
  let buf := welcome os release in
  R ← lgets l_ring;
  R ← lres (ring_put R buf);
  lmod (fun L => set_entries (entries L ++ [EText buf]) (set_l_ring R L));;
  color ← lgets log_color;
  ok ← log_write (if (color : bool) then welcome_color os release else buf);
  lwhen (negb ok) (lmod (fun L => set_log_dropped (u32 (log_dropped L + 1)) L)).

(** From the zeroed variables to the first message. *)
Definition log_boot (console : Z + Z) (file : option bytes) (release : bytes) : LM unit :=
  log_init;; log_reopen_console console;; print_welcome file release.
End Boot.

(** ** What the log is then *)

Lemma length_fgets n s : (length (fgets n s).1 <= n)%nat.
Proof.
  revert s. induction n as [|n IH]; intros [|c s]; simpl; [lia..|].
  destruct (c =? 10); simpl; [lia|]. pose proof (IH s). lia.
Qed.

Lemma length_cut0 l : (length (cut0 l) <= length l)%nat.
Proof. induction l as [|c l IH]; simpl; [lia|]. destruct (c =? 0); simpl; lia. Qed.

Lemma length_removelast {A} (l : list A) : (length (removelast l) <= length l)%nat.
Proof. induction l as [|x [|y l] IH]; simpl in *; lia. Qed.

Lemma length_unquote s : (length (unquote s) <= length s)%nat.
Proof.
  unfold unquote. destruct s as [|c s]; [done|].
  assert (forall (q : Z) t, (length (if negb (q =? 0)%Z && last_is q (if last_is 10 t then removelast t else t)
    then removelast (if last_is 10 t then removelast t else t) else if last_is 10 t then removelast t else t)
    <= length t)%nat) as Hl.
  { intros q t. pose proof (length_removelast t). pose proof (length_removelast (removelast t)).
    destruct (last_is 10 t), (negb _ && _); lia. }
  destruct (_ || _); [pose proof (Hl c s)|pose proof (Hl 0 (c :: s))]; simpl in *; lia.
Qed.

Lemma length_os_name fuel s : (length (os_name fuel s) <= 127)%nat.
Proof.
  revert s. induction fuel as [|fuel IH]; intros s; cbn [os_name]; [vm_compute; lia|].
  destruct (decide _); [vm_compute; lia|]. pose proof (length_fgets 127 s). destruct (fgets 127 s) as [buf rest].
  destruct (decide _); [|apply IH]. pose proof (length_unquote (drop 12 (cut0 buf))). pose proof (length_cut0 buf).
  rewrite length_drop in *. simpl in *. lia.
Qed.

Lemma length_os_of file : (length (os_of file) <= 127)%nat.
Proof. destruct file; [apply length_os_name|vm_compute; lia]. Qed.

Section Spec.
Context `{O : LogOs} `{!LogOk O} (isatty : Z -> bool).

(** A change of the console only. *)
Definition no_con (L : logst) : logst := core (set_log_fd 0 (set_log_color false (set_log_start 0 L))).

Lemma log_ok_console L L' : no_con L' = no_con L -> pend_ok L' -> log_ok L -> log_ok L'.
Proof.
  intros HC HP HL.
  pose proof (f_equal entries HC) as Ee. pose proof (f_equal l_ring HC) as Er.
  pose proof (f_equal l_seen HC) as E0. pose proof (f_equal rep_len HC) as E1. pose proof (f_equal rep_pos HC) as E2.
  pose proof (f_equal rep_count HC) as E3. pose proof (f_equal rep_backoff HC) as E4. pose proof (f_equal hold_ms HC) as E5.
  pose proof (f_equal first_ms HC) as E6. pose proof (f_equal seen_n HC) as E7.
  simpl in Ee, Er, E0, E1, E2, E3, E4, E5, E6, E7.
  constructor; rewrite ?Ee, ?Er, ?E0, ?E1, ?E2, ?E3, ?E4, ?E5, ?E6, ?E7; try apply HL. done.
Qed.

Lemma log_adopt_spec fd L : log_ok L -> lwp (log_adopt_fd isatty fd) (fun _ L' => log_ok L' /\ entries L' = entries L) L.
Proof.
  intros HL. unfold log_adopt_fd. apply lwp_bind, lwp_mod. apply lwp_bind, lwp_mod. apply lwp_bind, lwp_call. apply lwp_mod.
  split; [|done].
  by apply (log_ok_console L).
Qed.

Lemma log_init_spec L : log_ok L -> lwp (log_init isatty) (fun _ L' => log_ok L' /\ entries L' = entries L) L.
Proof.
  intros HL. unfold log_init. apply lwp_bind, clock_spec; [done|]. intros t H1. apply lwp_bind, lwp_mod.
  apply lwp_bind, lwp_gets. apply lwp_bind, lwp_mod. apply lwp_bind, lwp_call. unfold log_batch_begin. apply lwp_bind, lwp_call.
  apply lwp_mod. split; [|done].
  apply (log_ok_console L); [done|apply HL|done].
Qed.

Lemma ends_two (s : bytes) : ends_line (s ++ [10; 10]).
Proof. exists (s ++ [10]). by rewrite <- app_assoc. Qed.

Lemma welcome_text os release : (length os <= 127)%nat -> blen release <= 64 ->
  welcome os release = bs "Welcome to " ++ os ++ bs "! (" ++ release ++ bs ")" ++ [10; 10].
Proof.
  intros Ho Hr. unfold welcome, fit. rewrite app_nil_l. apply take_ge. rewrite !length_app.
  unfold blen, LOG_LINE in *. simpl length. lia.
Qed.

Lemma welcome_color_len os release : (length os <= 127)%nat -> blen release <= 64 -> welcome_color os release <> [] /\
  blen (welcome_color os release) <= LOG_CON.
Proof.
  intros Ho Hr. unfold welcome_color, fit. rewrite app_nil_l. split.
  - intros E. apply (f_equal length) in E. unfold blen, LOG_LINE in E. rewrite length_take, length_app in E. simpl length in E. lia.
  - unfold blen, LOG_CON, LOG_LINE in *. rewrite length_take. simpl length. lia.
Qed.

Lemma print_welcome_spec file release L : log_ok L -> blen release <= 64 ->
  lwp (print_welcome file release) (fun _ L' => log_ok L' /\ entries L' = entries L ++ [EText (welcome (os_of file) release)]) L.
Proof.
  intros HL Hrel. unfold print_welcome. pose proof (length_os_of file) as Hos. set (os := os_of file) in *. clearbody os.
  pose proof (welcome_text os release Hos Hrel) as Hw. destruct (welcome_color_len os release Hos Hrel) as [Hc1 Hc2].
  set (buf := welcome os release) in *. clearbody buf.
  assert (ends_line buf) as Hends by (rewrite Hw, !app_assoc; apply ends_two).
  assert (0 < blen buf <= 300) as Hlen by (rewrite Hw; unfold blen in *; rewrite !length_app; simpl; lia).
  apply lwp_bind, lwp_gets. apply lwp_bind.
  eapply lwp_res; [apply (ring_put_spec _ _ buf (lo_ring _ HL) Hends); unfold blen, LOG_LINE in *; lia|].
  intros R (HR' & Ht & Hl). apply lwp_bind, lwp_mod. set (L1 := set_entries _ _).
  assert (put buf (EText buf) L L1) as P1.
  { constructor; simpl; try done; [|apply HL]. destruct (lo_least _ HL) as [Hz|Hz], Hl as [E|E]; auto.
    - left. congruence.
    - right. pose proof (ri_head _ _ (lo_ring _ HL)). pose proof (ri_head _ _ HR'). unfold blen in *.
      rewrite length_app in *. lia. }
  assert (log_ok L1) as H1 by (apply (put_ok buf (EText buf) L); done).
  apply lwp_bind, lwp_gets. apply lwp_bind.
  eapply lwp_mono; [apply log_write_spec; [apply H1| |]|].
  { destruct (log_color L1); [done|unfold LOG_CON, LOG_LINE; lia]. }
  { destruct (log_color L1); [done|]. intros ->. done. }
  intros ok L2 (S2 & P2 & _). assert (log_ok L2) as H2 by (by apply (log_ok_con L1)).
  assert (entries L2 = entries L ++ [EText buf]) as E2 by (pose proof (f_equal entries (cs_core _ _ S2)) as E; exact E).
  destruct ok; cbn [negb lwhen]; [by apply lwp_ret|]. apply lwp_mod. split; [|done].
  apply (log_ok_con L2); [constructor; done|apply H2|done].
Qed.

Lemma log_boot_spec console file release L : log_ok L -> blen release <= 64 ->
  lwp (log_boot isatty console file release)
    (fun _ L' => log_ok L' /\ entries L' = entries L ++ [EText (welcome (os_of file) release)]) L.
Proof.
  intros HL Hrel. unfold log_boot. apply lwp_bind. eapply lwp_mono; [by apply log_init_spec|]. intros [] L1 [H1 E1].
  rewrite <- E1. apply lwp_bind. apply (lwp_mono _ (fun _ L' => log_ok L' /\ entries L' = entries L1)).
  - unfold log_reopen_console. destruct console; [by apply log_adopt_spec|by apply lwp_ret].
  - intros [] L2 [H2 E2]. rewrite <- E2. by apply print_welcome_spec.
Qed.
End Spec.

(** ** The greeting names the system *)

(** A text of one line of the file. *)
Definition plain_line (l : bytes) : Prop := Forall (fun c => c <> 10 /\ c <> 0) l.

(** A line that fits the buffer and has another key. *)
Definition other_line (l : bytes) : Prop :=
  plain_line l /\ (length l < 127)%nat /\ take 12 (l ++ [10]) <> OS_KEY.

Lemma fgets_line n l s : plain_line l -> (length l < n)%nat -> fgets n (l ++ 10 :: s) = (l ++ [10], s).
Proof.
  intros HF. revert n. induction HF as [|c l [Hc _] HF IH]; intros [|n] Hn; simpl in Hn; try lia; [done|].
  simpl. rewrite (proj2 (Z.eqb_neq c 10) Hc). by rewrite IH by lia.
Qed.

Lemma cut0_line l : plain_line l -> cut0 (l ++ [10]) = l ++ [10].
Proof.
  induction 1 as [|c l [_ Hc] HF IH]; simpl; [done|]. by rewrite (proj2 (Z.eqb_neq c 0) Hc), IH.
Qed.

Lemma os_name_other fuel l s : other_line l -> os_name (S fuel) (l ++ 10 :: s) = os_name fuel s.
Proof.
  intros (HF & Hl & Hk). cbn [os_name]. rewrite decide_False by (by destruct l).
  rewrite fgets_line by done. rewrite cut0_line by done. by rewrite decide_False.
Qed.

(** The quotes around the name: none, or two of a kind. *)
Inductive quoted (name : bytes) : bytes -> Prop :=
  | quoted_none (Hq : head name <> Some 34 /\ head name <> Some 39) : quoted name name
  | quoted_by q (Hq : q = 34 \/ q = 39) : quoted name (q :: name ++ [q]).

Lemma last_is_snoc c l : last_is c (l ++ [c]) = true.
Proof. unfold last_is. rewrite last_snoc. by apply bool_decide_true. Qed.

Lemma unquote_quoted name s : quoted name s -> unquote (s ++ [10]) = name.
Proof.
  intros [[H1 H2]|q Hq].
  - unfold unquote. destruct name as [|c t]; [done|]. simpl in H1, H2. cbn [app].
    destruct (Z.eqb_spec c 34) as [->|]; [done|]. destruct (Z.eqb_spec c 39) as [->|]; [done|]. cbn [orb negb].
    change (c :: t ++ [10]) with ((c :: t) ++ [10]). by rewrite last_is_snoc, removelast_last.
  - unfold unquote. cbn [app].
    replace ((q =? 34) || (q =? 39)) with true by (destruct Hq as [-> | ->]; done).
    rewrite last_is_snoc, removelast_last, last_is_snoc, removelast_last. by destruct Hq as [-> | ->].
Qed.

Lemma os_name_found ls name s rest fuel : Forall other_line ls -> quoted name s -> plain_line s ->
  (length s < 110)%nat -> (length ls < fuel)%nat ->
  os_name fuel (concat ((fun l => l ++ [10]) <$> ls) ++ OS_KEY ++ s ++ 10 :: rest) = name.
Proof.
  intros HF Hq Hs Hl. revert fuel. induction HF as [|l ls Ho HF IH]; intros [|fuel] Hf; simpl length in Hf; try lia.
  - cbn [fmap list_fmap concat app os_name]. rewrite decide_False by done.
    assert (plain_line (OS_KEY ++ s)) as Hp by (apply Forall_app; split; [repeat constructor; discriminate|done]).
    rewrite app_assoc, fgets_line by (done || (rewrite length_app; simpl; lia)).
    rewrite cut0_line by done. rewrite <- app_assoc, decide_True by done.
    change 12%nat with (length OS_KEY). rewrite drop_app_length. by apply unquote_quoted.
  - cbn [fmap list_fmap concat]. rewrite <- !app_assoc. cbn [app]. rewrite os_name_other by done. apply IH. lia.
Qed.

Lemma length_lines (ls : list bytes) : Z.of_nat (length ls) <= Z.of_nat (length (concat ((fun l => l ++ [10]) <$> ls))).
Proof. induction ls as [|l ls IH]; [simpl; lia|]. rewrite fmap_cons. simpl concat. rewrite !length_app. simpl length. lia. Qed.

Section Greeting.
Context `{O : LogOs} `{!LogOk O}.

(** The greeting names the system: for an os-release file whose first line
    with the key PRETTY_NAME gives a name, quoted or not, [print_welcome]
    returns and puts "Welcome to NAME! (RELEASE)" and an empty line into the
    log, whatever the console does, and leaves the log in order. *)
Theorem welcome_names_system ls name s rest release L :
  log_ok L -> blen release <= 64 ->
  Forall other_line ls -> quoted name s -> plain_line s -> (length s < 110)%nat ->
  exists L', print_welcome (Some (concat ((fun l => l ++ [10]) <$> ls) ++ OS_KEY ++ s ++ 10 :: rest)) release L = VOk (tt, L') /\
    log_ok L' /\
    text_of (entries L') = text_of (entries L) ++ bs "Welcome to " ++ name ++ bs "! (" ++ release ++ bs ")" ++ [10; 10].
Proof.
  intros HL Hrel HF Hq Hs Hl. set (file := concat _ ++ _).
  assert (os_of (Some file) = name) as Hname.
  { unfold os_of. apply os_name_found; [done..|]. unfold file. rewrite !length_app. simpl.
    pose proof (length_lines ls). lia. }
  pose proof (print_welcome_spec (Some file) release L HL Hrel) as Hw. unfold lwp in Hw.
  destruct (print_welcome (Some file) release L) as [[[] L']| | |]; try done. destruct Hw as [H1 H2].
  exists L'. split; [done|]. split; [done|]. cbn [snd] in H2. rewrite H2, text_of_snoc. cbn [entry_text].
  rewrite Hname, welcome_text; [done| |done]. rewrite <- Hname. apply length_os_of.
Qed.
End Greeting.

Lemma welcome_names_system_witness : exists L',
  print_welcome (H := demo_log) (Some (bs "ID=demo" ++ [10] ++ OS_KEY ++ [34] ++ bs "Demo Linux" ++ [34; 10])) (bs "6.1")
    (log_start_state 0 1 false) = VOk (tt, L') /\
  text_of (entries L') = bs "Welcome to Demo Linux! (6.1)" ++ [10; 10].
Proof.
  destruct (welcome_names_system (O := demo_log) [bs "ID=demo"] (bs "Demo Linux") ([34] ++ bs "Demo Linux" ++ [34]) []
    (bs "6.1") (log_start_state 0 1 false)) as (L' & Hw & _ & Ht).
  - apply log_start_ok.
  - vm_compute. discriminate.
  - repeat constructor; try (vm_compute; lia); vm_compute; discriminate.
  - apply quoted_by. by left.
  - repeat constructor; vm_compute; discriminate.
  - vm_compute. lia.
  - exists L'. split; [exact Hw|exact Ht].
Defined.
