(* ===== verification/World.v ===== *)
(** * The state of pid 1 (run.h, control.h and the globals of ninit.c)

    The arrays and counters the handlers share, as records with one field per
    variable of the source, and the assignments to those fields. *)

From S2P Require Import Prelude Ngraph PidMap Ring Log.

Definition TAIL_CAP : Z := 1024.
Definition LINE_CAP : Z := 256.

Definition zlen (l : bytes) : Z := Z.of_nat (length l).

(** [NG_ST_PENDING] .. [NG_ST_SKIPPED] of fail.h. *)
Inductive svc_state := PENDING | RUNNING | DONE | FAILED | SKIPPED.

#[export] Instance svc_state_eq_dec : EqDecision svc_state.
Proof. solve_decision. Defined.

(** [SVC_OP_NONE] .. [SVC_OP_START] of run.h. *)
Inductive svc_op := OP_NONE | OP_TERM | OP_KILL | OP_START.

#[export] Instance svc_op_eq_dec : EqDecision svc_op.
Proof. solve_decision. Defined.

(** struct run of run.h. [r_tail] and [r_line] are the first [tail_len] and
    [line_len] bytes of the arrays. *)
Record run := Run {
  pid : Z;
  pgid : Z;
  stale_pid : Z;
  out_fd : Z;
  ntf_fd : Z;
  live_pos : nat;
  restart_at : Z;
  burst : Z;
  cg_killed : bool;
  stale_hold : bool;
  attempt : Z;
  hup : bool;
  timedout : bool;
  starting : bool;
  ntf_exec : bool;
  op : svc_op;
  op_restart : bool;
  r_tail : bytes;
  r_line : bytes;
  started : Z;
  op_at : Z;
}.

Definition set_pid (v : Z) (r : run) : run :=
  Run v (pgid r) (stale_pid r) (out_fd r) (ntf_fd r) (live_pos r) (restart_at r) (burst r)
    (cg_killed r) (stale_hold r) (attempt r) (hup r) (timedout r) (starting r) (ntf_exec r)
    (op r) (op_restart r) (r_tail r) (r_line r) (started r) (op_at r).
Definition set_pgid (v : Z) (r : run) : run :=
  Run (pid r) v (stale_pid r) (out_fd r) (ntf_fd r) (live_pos r) (restart_at r) (burst r)
    (cg_killed r) (stale_hold r) (attempt r) (hup r) (timedout r) (starting r) (ntf_exec r)
    (op r) (op_restart r) (r_tail r) (r_line r) (started r) (op_at r).
Definition set_stale_pid (v : Z) (r : run) : run :=
  Run (pid r) (pgid r) v (out_fd r) (ntf_fd r) (live_pos r) (restart_at r) (burst r)
    (cg_killed r) (stale_hold r) (attempt r) (hup r) (timedout r) (starting r) (ntf_exec r)
    (op r) (op_restart r) (r_tail r) (r_line r) (started r) (op_at r).
Definition set_out_fd (v : Z) (r : run) : run :=
  Run (pid r) (pgid r) (stale_pid r) v (ntf_fd r) (live_pos r) (restart_at r) (burst r)
    (cg_killed r) (stale_hold r) (attempt r) (hup r) (timedout r) (starting r) (ntf_exec r)
    (op r) (op_restart r) (r_tail r) (r_line r) (started r) (op_at r).
Definition set_ntf_fd (v : Z) (r : run) : run :=
  Run (pid r) (pgid r) (stale_pid r) (out_fd r) v (live_pos r) (restart_at r) (burst r)
    (cg_killed r) (stale_hold r) (attempt r) (hup r) (timedout r) (starting r) (ntf_exec r)
    (op r) (op_restart r) (r_tail r) (r_line r) (started r) (op_at r).
Definition set_live_pos (v : nat) (r : run) : run :=
  Run (pid r) (pgid r) (stale_pid r) (out_fd r) (ntf_fd r) v (restart_at r) (burst r)
    (cg_killed r) (stale_hold r) (attempt r) (hup r) (timedout r) (starting r) (ntf_exec r)
    (op r) (op_restart r) (r_tail r) (r_line r) (started r) (op_at r).
Definition set_restart_at (v : Z) (r : run) : run :=
  Run (pid r) (pgid r) (stale_pid r) (out_fd r) (ntf_fd r) (live_pos r) v (burst r)
    (cg_killed r) (stale_hold r) (attempt r) (hup r) (timedout r) (starting r) (ntf_exec r)
    (op r) (op_restart r) (r_tail r) (r_line r) (started r) (op_at r).
Definition set_burst (v : Z) (r : run) : run :=
  Run (pid r) (pgid r) (stale_pid r) (out_fd r) (ntf_fd r) (live_pos r) (restart_at r) v
    (cg_killed r) (stale_hold r) (attempt r) (hup r) (timedout r) (starting r) (ntf_exec r)
    (op r) (op_restart r) (r_tail r) (r_line r) (started r) (op_at r).
Definition set_cg_killed (v : bool) (r : run) : run :=
  Run (pid r) (pgid r) (stale_pid r) (out_fd r) (ntf_fd r) (live_pos r) (restart_at r)
    (burst r) v (stale_hold r) (attempt r) (hup r) (timedout r) (starting r) (ntf_exec r)
    (op r) (op_restart r) (r_tail r) (r_line r) (started r) (op_at r).
Definition set_stale_hold (v : bool) (r : run) : run :=
  Run (pid r) (pgid r) (stale_pid r) (out_fd r) (ntf_fd r) (live_pos r) (restart_at r)
    (burst r) (cg_killed r) v (attempt r) (hup r) (timedout r) (starting r) (ntf_exec r) (op
    r) (op_restart r) (r_tail r) (r_line r) (started r) (op_at r).
Definition set_attempt (v : Z) (r : run) : run :=
  Run (pid r) (pgid r) (stale_pid r) (out_fd r) (ntf_fd r) (live_pos r) (restart_at r)
    (burst r) (cg_killed r) (stale_hold r) v (hup r) (timedout r) (starting r) (ntf_exec r)
    (op r) (op_restart r) (r_tail r) (r_line r) (started r) (op_at r).
Definition set_hup (v : bool) (r : run) : run :=
  Run (pid r) (pgid r) (stale_pid r) (out_fd r) (ntf_fd r) (live_pos r) (restart_at r)
    (burst r) (cg_killed r) (stale_hold r) (attempt r) v (timedout r) (starting r) (ntf_exec
    r) (op r) (op_restart r) (r_tail r) (r_line r) (started r) (op_at r).
Definition set_timedout (v : bool) (r : run) : run :=
  Run (pid r) (pgid r) (stale_pid r) (out_fd r) (ntf_fd r) (live_pos r) (restart_at r)
    (burst r) (cg_killed r) (stale_hold r) (attempt r) (hup r) v (starting r) (ntf_exec r)
    (op r) (op_restart r) (r_tail r) (r_line r) (started r) (op_at r).
Definition set_starting (v : bool) (r : run) : run :=
  Run (pid r) (pgid r) (stale_pid r) (out_fd r) (ntf_fd r) (live_pos r) (restart_at r)
    (burst r) (cg_killed r) (stale_hold r) (attempt r) (hup r) (timedout r) v (ntf_exec r)
    (op r) (op_restart r) (r_tail r) (r_line r) (started r) (op_at r).
Definition set_ntf_exec (v : bool) (r : run) : run :=
  Run (pid r) (pgid r) (stale_pid r) (out_fd r) (ntf_fd r) (live_pos r) (restart_at r)
    (burst r) (cg_killed r) (stale_hold r) (attempt r) (hup r) (timedout r) (starting r) v
    (op r) (op_restart r) (r_tail r) (r_line r) (started r) (op_at r).
Definition set_op (v : svc_op) (r : run) : run :=
  Run (pid r) (pgid r) (stale_pid r) (out_fd r) (ntf_fd r) (live_pos r) (restart_at r)
    (burst r) (cg_killed r) (stale_hold r) (attempt r) (hup r) (timedout r) (starting r)
    (ntf_exec r) v (op_restart r) (r_tail r) (r_line r) (started r) (op_at r).
Definition set_op_restart (v : bool) (r : run) : run :=
  Run (pid r) (pgid r) (stale_pid r) (out_fd r) (ntf_fd r) (live_pos r) (restart_at r)
    (burst r) (cg_killed r) (stale_hold r) (attempt r) (hup r) (timedout r) (starting r)
    (ntf_exec r) (op r) v (r_tail r) (r_line r) (started r) (op_at r).
Definition set_r_tail (v : bytes) (r : run) : run :=
  Run (pid r) (pgid r) (stale_pid r) (out_fd r) (ntf_fd r) (live_pos r) (restart_at r)
    (burst r) (cg_killed r) (stale_hold r) (attempt r) (hup r) (timedout r) (starting r)
    (ntf_exec r) (op r) (op_restart r) v (r_line r) (started r) (op_at r).
Definition set_r_line (v : bytes) (r : run) : run :=
  Run (pid r) (pgid r) (stale_pid r) (out_fd r) (ntf_fd r) (live_pos r) (restart_at r)
    (burst r) (cg_killed r) (stale_hold r) (attempt r) (hup r) (timedout r) (starting r)
    (ntf_exec r) (op r) (op_restart r) (r_tail r) v (started r) (op_at r).
Definition set_started (v : Z) (r : run) : run :=
  Run (pid r) (pgid r) (stale_pid r) (out_fd r) (ntf_fd r) (live_pos r) (restart_at r)
    (burst r) (cg_killed r) (stale_hold r) (attempt r) (hup r) (timedout r) (starting r)
    (ntf_exec r) (op r) (op_restart r) (r_tail r) (r_line r) v (op_at r).
Definition set_op_at (v : Z) (r : run) : run :=
  Run (pid r) (pgid r) (stale_pid r) (out_fd r) (ntf_fd r) (live_pos r) (restart_at r)
    (burst r) (cg_killed r) (stale_hold r) (attempt r) (hup r) (timedout r) (starting r)
    (ntf_exec r) (op r) (op_restart r) (r_tail r) (r_line r) (started r) v.

(** The states and their counters. *)
Record ctr := Ctr {
  state : list svc_state;  (* state *)
  n_active : Z;
  n_done : Z;
  n_pending : Z;
}.

Definition set_state (v : list svc_state) (c : ctr) : ctr :=
  Ctr v (n_active c) (n_done c) (n_pending c).
Definition set_n_active (v : Z) (c : ctr) : ctr :=
  Ctr (state c) v (n_done c) (n_pending c).
Definition set_n_done (v : Z) (c : ctr) : ctr :=
  Ctr (state c) (n_active c) v (n_pending c).
Definition set_n_pending (v : Z) (c : ctr) : ctr :=
  Ctr (state c) (n_active c) (n_done c) v.

(** The dependency bookkeeping: what is up, what has been handed to its
    dependents, how many prerequisites each service still waits for, and the
    work queues of svc_release and svc_reclaim. *)
Record dep := Dep {
  up : list bool;
  n_up : Z;
  d_unmet : list Z;  (* unmet *)
  released : list bool;
  queue : list nat;
  q_head : nat;
  q_tail : nat;
  draining : bool;
  rqueue : list nat;
}.

Definition set_up (v : list bool) (d : dep) : dep :=
  Dep v (n_up d) (d_unmet d) (released d) (queue d) (q_head d) (q_tail d) (draining d)
    (rqueue d).
Definition set_n_up (v : Z) (d : dep) : dep :=
  Dep (up d) v (d_unmet d) (released d) (queue d) (q_head d) (q_tail d) (draining d) (rqueue
    d).
Definition set_d_unmet (v : list Z) (d : dep) : dep :=
  Dep (up d) (n_up d) v (released d) (queue d) (q_head d) (q_tail d) (draining d) (rqueue
    d).
Definition set_released (v : list bool) (d : dep) : dep :=
  Dep (up d) (n_up d) (d_unmet d) v (queue d) (q_head d) (q_tail d) (draining d) (rqueue d).
Definition set_queue (v : list nat) (d : dep) : dep :=
  Dep (up d) (n_up d) (d_unmet d) (released d) v (q_head d) (q_tail d) (draining d) (rqueue
    d).
Definition set_q_head (v : nat) (d : dep) : dep :=
  Dep (up d) (n_up d) (d_unmet d) (released d) (queue d) v (q_tail d) (draining d) (rqueue
    d).
Definition set_q_tail (v : nat) (d : dep) : dep :=
  Dep (up d) (n_up d) (d_unmet d) (released d) (queue d) (q_head d) v (draining d) (rqueue
    d).
Definition set_draining (v : bool) (d : dep) : dep :=
  Dep (up d) (n_up d) (d_unmet d) (released d) (queue d) (q_head d) (q_tail d) v (rqueue d).
Definition set_rqueue (v : list nat) (d : dep) : dep :=
  Dep (up d) (n_up d) (d_unmet d) (released d) (queue d) (q_head d) (q_tail d) (draining d)
    v.

(** The live list. *)
Record lvs := Lvs {
  live : list nat;
  n_live : nat;
}.

Definition set_live (v : list nat) (l : lvs) : lvs :=
  Lvs v (n_live l).
Definition set_n_live (v : nat) (l : lvs) : lvs :=
  Lvs (live l) v.

(** struct ctl of control.h; [c_out] is the first [out_len] bytes of [out]. *)
Record conn := Conn {
  c_fd : Z;
  c_svc : option nat;
  list_at : Z;
  log_at : Z;
  listing : Z;
  c_done : bool;
  watch : bool;
  c_in : bytes;
  out_at : Z;
  c_out : bytes;
}.

Definition set_c_fd (v : Z) (c : conn) : conn :=
  Conn v (c_svc c) (list_at c) (log_at c) (listing c) (c_done c) (watch c) (c_in c) (out_at
    c) (c_out c).
Definition set_c_svc (v : option nat) (c : conn) : conn :=
  Conn (c_fd c) v (list_at c) (log_at c) (listing c) (c_done c) (watch c) (c_in c) (out_at
    c) (c_out c).
Definition set_list_at (v : Z) (c : conn) : conn :=
  Conn (c_fd c) (c_svc c) v (log_at c) (listing c) (c_done c) (watch c) (c_in c) (out_at c)
    (c_out c).
Definition set_log_at (v : Z) (c : conn) : conn :=
  Conn (c_fd c) (c_svc c) (list_at c) v (listing c) (c_done c) (watch c) (c_in c) (out_at c)
    (c_out c).
Definition set_listing (v : Z) (c : conn) : conn :=
  Conn (c_fd c) (c_svc c) (list_at c) (log_at c) v (c_done c) (watch c) (c_in c) (out_at c)
    (c_out c).
Definition set_c_done (v : bool) (c : conn) : conn :=
  Conn (c_fd c) (c_svc c) (list_at c) (log_at c) (listing c) v (watch c) (c_in c) (out_at c)
    (c_out c).
Definition set_watch (v : bool) (c : conn) : conn :=
  Conn (c_fd c) (c_svc c) (list_at c) (log_at c) (listing c) (c_done c) v (c_in c) (out_at
    c) (c_out c).
Definition set_c_in (v : bytes) (c : conn) : conn :=
  Conn (c_fd c) (c_svc c) (list_at c) (log_at c) (listing c) (c_done c) (watch c) v (out_at
    c) (c_out c).
Definition set_out_at (v : Z) (c : conn) : conn :=
  Conn (c_fd c) (c_svc c) (list_at c) (log_at c) (listing c) (c_done c) (watch c) (c_in c) v
    (c_out c).
Definition set_c_out (v : bytes) (c : conn) : conn :=
  Conn (c_fd c) (c_svc c) (list_at c) (log_at c) (listing c) (c_done c) (watch c) (c_in c)
    (out_at c) v.

(** The static variables of the emergency shell in fail.c. *)
Record emerg := Emerg {
  emerg_pid : Z;
  emerg_bar : Z;
  emerg_conf_at : Z;
  emerg_at : Z * Z;
  emerg_fast : Z;
  emerg_fail : Z;
  emerg_gone : bool;
  emerg_conf : Z;
  emerg_greeted : bool;
  emerg_noexec : Z;
  emerg_retry_at : Z;
}.

Definition set_emerg_pid (v : Z) (e : emerg) : emerg :=
  Emerg v (emerg_bar e) (emerg_conf_at e) (emerg_at e) (emerg_fast e) (emerg_fail e)
    (emerg_gone e) (emerg_conf e) (emerg_greeted e) (emerg_noexec e) (emerg_retry_at e).
Definition set_emerg_bar (v : Z) (e : emerg) : emerg :=
  Emerg (emerg_pid e) v (emerg_conf_at e) (emerg_at e) (emerg_fast e) (emerg_fail e)
    (emerg_gone e) (emerg_conf e) (emerg_greeted e) (emerg_noexec e) (emerg_retry_at e).
Definition set_emerg_conf_at (v : Z) (e : emerg) : emerg :=
  Emerg (emerg_pid e) (emerg_bar e) v (emerg_at e) (emerg_fast e) (emerg_fail e) (emerg_gone
    e) (emerg_conf e) (emerg_greeted e) (emerg_noexec e) (emerg_retry_at e).
Definition set_emerg_at (v : Z * Z) (e : emerg) : emerg :=
  Emerg (emerg_pid e) (emerg_bar e) (emerg_conf_at e) v (emerg_fast e) (emerg_fail e)
    (emerg_gone e) (emerg_conf e) (emerg_greeted e) (emerg_noexec e) (emerg_retry_at e).
Definition set_emerg_fast (v : Z) (e : emerg) : emerg :=
  Emerg (emerg_pid e) (emerg_bar e) (emerg_conf_at e) (emerg_at e) v (emerg_fail e)
    (emerg_gone e) (emerg_conf e) (emerg_greeted e) (emerg_noexec e) (emerg_retry_at e).
Definition set_emerg_fail (v : Z) (e : emerg) : emerg :=
  Emerg (emerg_pid e) (emerg_bar e) (emerg_conf_at e) (emerg_at e) (emerg_fast e) v
    (emerg_gone e) (emerg_conf e) (emerg_greeted e) (emerg_noexec e) (emerg_retry_at e).
Definition set_emerg_gone (v : bool) (e : emerg) : emerg :=
  Emerg (emerg_pid e) (emerg_bar e) (emerg_conf_at e) (emerg_at e) (emerg_fast e)
    (emerg_fail e) v (emerg_conf e) (emerg_greeted e) (emerg_noexec e) (emerg_retry_at e).
Definition set_emerg_conf (v : Z) (e : emerg) : emerg :=
  Emerg (emerg_pid e) (emerg_bar e) (emerg_conf_at e) (emerg_at e) (emerg_fast e)
    (emerg_fail e) (emerg_gone e) v (emerg_greeted e) (emerg_noexec e) (emerg_retry_at e).
Definition set_emerg_greeted (v : bool) (e : emerg) : emerg :=
  Emerg (emerg_pid e) (emerg_bar e) (emerg_conf_at e) (emerg_at e) (emerg_fast e)
    (emerg_fail e) (emerg_gone e) (emerg_conf e) v (emerg_noexec e) (emerg_retry_at e).
Definition set_emerg_noexec (v : Z) (e : emerg) : emerg :=
  Emerg (emerg_pid e) (emerg_bar e) (emerg_conf_at e) (emerg_at e) (emerg_fast e)
    (emerg_fail e) (emerg_gone e) (emerg_conf e) (emerg_greeted e) v (emerg_retry_at e).
Definition set_emerg_retry_at (v : Z) (e : emerg) : emerg :=
  Emerg (emerg_pid e) (emerg_bar e) (emerg_conf_at e) (emerg_at e) (emerg_fast e)
    (emerg_fail e) (emerg_gone e) (emerg_conf e) (emerg_greeted e) (emerg_noexec e) v.

(** What an observer outside pid 1 sees, and what the model remembers of it. *)
Inductive event :=
  | EvKill (pid sig : Z)
  | EvFork (i : nat) (pid : Z) (d : dep) (wanted : bool)
  | EvLog (level : Z) (body : bytes)
  | EvCgKill (i : nat)
  | EvStop (i : nat) (sig at_ : Z)
  | EvGone (i : nat) (r : run)
  | EvAct (call path : bytes) (done_ : bool)
  | EvHelper (pid : Z) (clock : bytes)
  | EvSent (fd : Z) (data : bytes)
  | EvHalt (how : Z).

(** Everything pid 1 keeps between two events. *)
Record world := World {
  w_ctr : ctr;
  w_dep : dep;
  w_lv : lvs;
  want : list bool;
  runs : list run;
  pids : option pidtab;
  n_ops : Z;
  drain_left : Z;
  drain_rotor : nat;
  shutting_down : bool;
  boot_ms : Z;
  cg_ok : bool;
  clone3_ok : bool;
  conns : list conn;
  w_emerg : emerg;
  w_log : logst;
  sfd : Z;
  ctl_lfd : Z;
  calls : nat;  (* system calls made so far *)
  waits : nat;  (* children reaped so far *)
  trace : list event;  (* newest first *)
}.

Definition set_w_ctr (v : ctr) (w : world) : world :=
  World v (w_dep w) (w_lv w) (want w) (runs w) (pids w) (n_ops w) (drain_left w)
    (drain_rotor w) (shutting_down w) (boot_ms w) (cg_ok w) (clone3_ok w) (conns w) (w_emerg
    w) (w_log w) (sfd w) (ctl_lfd w) (calls w) (waits w) (trace w).
Definition set_w_dep (v : dep) (w : world) : world :=
  World (w_ctr w) v (w_lv w) (want w) (runs w) (pids w) (n_ops w) (drain_left w)
    (drain_rotor w) (shutting_down w) (boot_ms w) (cg_ok w) (clone3_ok w) (conns w) (w_emerg
    w) (w_log w) (sfd w) (ctl_lfd w) (calls w) (waits w) (trace w).
Definition set_w_lv (v : lvs) (w : world) : world :=
  World (w_ctr w) (w_dep w) v (want w) (runs w) (pids w) (n_ops w) (drain_left w)
    (drain_rotor w) (shutting_down w) (boot_ms w) (cg_ok w) (clone3_ok w) (conns w) (w_emerg
    w) (w_log w) (sfd w) (ctl_lfd w) (calls w) (waits w) (trace w).
Definition set_want (v : list bool) (w : world) : world :=
  World (w_ctr w) (w_dep w) (w_lv w) v (runs w) (pids w) (n_ops w) (drain_left w)
    (drain_rotor w) (shutting_down w) (boot_ms w) (cg_ok w) (clone3_ok w) (conns w) (w_emerg
    w) (w_log w) (sfd w) (ctl_lfd w) (calls w) (waits w) (trace w).
Definition set_runs (v : list run) (w : world) : world :=
  World (w_ctr w) (w_dep w) (w_lv w) (want w) v (pids w) (n_ops w) (drain_left w)
    (drain_rotor w) (shutting_down w) (boot_ms w) (cg_ok w) (clone3_ok w) (conns w) (w_emerg
    w) (w_log w) (sfd w) (ctl_lfd w) (calls w) (waits w) (trace w).
Definition set_pids (v : option pidtab) (w : world) : world :=
  World (w_ctr w) (w_dep w) (w_lv w) (want w) (runs w) v (n_ops w) (drain_left w)
    (drain_rotor w) (shutting_down w) (boot_ms w) (cg_ok w) (clone3_ok w) (conns w) (w_emerg
    w) (w_log w) (sfd w) (ctl_lfd w) (calls w) (waits w) (trace w).
Definition set_n_ops (v : Z) (w : world) : world :=
  World (w_ctr w) (w_dep w) (w_lv w) (want w) (runs w) (pids w) v (drain_left w)
    (drain_rotor w) (shutting_down w) (boot_ms w) (cg_ok w) (clone3_ok w) (conns w) (w_emerg
    w) (w_log w) (sfd w) (ctl_lfd w) (calls w) (waits w) (trace w).
Definition set_drain_left (v : Z) (w : world) : world :=
  World (w_ctr w) (w_dep w) (w_lv w) (want w) (runs w) (pids w) (n_ops w) v (drain_rotor w)
    (shutting_down w) (boot_ms w) (cg_ok w) (clone3_ok w) (conns w) (w_emerg w) (w_log w)
    (sfd w) (ctl_lfd w) (calls w) (waits w) (trace w).
Definition set_drain_rotor (v : nat) (w : world) : world :=
  World (w_ctr w) (w_dep w) (w_lv w) (want w) (runs w) (pids w) (n_ops w) (drain_left w) v
    (shutting_down w) (boot_ms w) (cg_ok w) (clone3_ok w) (conns w) (w_emerg w) (w_log w)
    (sfd w) (ctl_lfd w) (calls w) (waits w) (trace w).
Definition set_shutting_down (v : bool) (w : world) : world :=
  World (w_ctr w) (w_dep w) (w_lv w) (want w) (runs w) (pids w) (n_ops w) (drain_left w)
    (drain_rotor w) v (boot_ms w) (cg_ok w) (clone3_ok w) (conns w) (w_emerg w) (w_log w)
    (sfd w) (ctl_lfd w) (calls w) (waits w) (trace w).
Definition set_boot_ms (v : Z) (w : world) : world :=
  World (w_ctr w) (w_dep w) (w_lv w) (want w) (runs w) (pids w) (n_ops w) (drain_left w)
    (drain_rotor w) (shutting_down w) v (cg_ok w) (clone3_ok w) (conns w) (w_emerg w) (w_log
    w) (sfd w) (ctl_lfd w) (calls w) (waits w) (trace w).
Definition set_cg_ok (v : bool) (w : world) : world :=
  World (w_ctr w) (w_dep w) (w_lv w) (want w) (runs w) (pids w) (n_ops w) (drain_left w)
    (drain_rotor w) (shutting_down w) (boot_ms w) v (clone3_ok w) (conns w) (w_emerg w)
    (w_log w) (sfd w) (ctl_lfd w) (calls w) (waits w) (trace w).
Definition set_clone3_ok (v : bool) (w : world) : world :=
  World (w_ctr w) (w_dep w) (w_lv w) (want w) (runs w) (pids w) (n_ops w) (drain_left w)
    (drain_rotor w) (shutting_down w) (boot_ms w) (cg_ok w) v (conns w) (w_emerg w) (w_log
    w) (sfd w) (ctl_lfd w) (calls w) (waits w) (trace w).
Definition set_conns (v : list conn) (w : world) : world :=
  World (w_ctr w) (w_dep w) (w_lv w) (want w) (runs w) (pids w) (n_ops w) (drain_left w)
    (drain_rotor w) (shutting_down w) (boot_ms w) (cg_ok w) (clone3_ok w) v (w_emerg w)
    (w_log w) (sfd w) (ctl_lfd w) (calls w) (waits w) (trace w).
Definition set_w_emerg (v : emerg) (w : world) : world :=
  World (w_ctr w) (w_dep w) (w_lv w) (want w) (runs w) (pids w) (n_ops w) (drain_left w)
    (drain_rotor w) (shutting_down w) (boot_ms w) (cg_ok w) (clone3_ok w) (conns w) v (w_log
    w) (sfd w) (ctl_lfd w) (calls w) (waits w) (trace w).
Definition set_w_log (v : logst) (w : world) : world :=
  World (w_ctr w) (w_dep w) (w_lv w) (want w) (runs w) (pids w) (n_ops w) (drain_left w)
    (drain_rotor w) (shutting_down w) (boot_ms w) (cg_ok w) (clone3_ok w) (conns w) (w_emerg
    w) v (sfd w) (ctl_lfd w) (calls w) (waits w) (trace w).
Definition set_sfd (v : Z) (w : world) : world :=
  World (w_ctr w) (w_dep w) (w_lv w) (want w) (runs w) (pids w) (n_ops w) (drain_left w)
    (drain_rotor w) (shutting_down w) (boot_ms w) (cg_ok w) (clone3_ok w) (conns w) (w_emerg
    w) (w_log w) v (ctl_lfd w) (calls w) (waits w) (trace w).
Definition set_ctl_lfd (v : Z) (w : world) : world :=
  World (w_ctr w) (w_dep w) (w_lv w) (want w) (runs w) (pids w) (n_ops w) (drain_left w)
    (drain_rotor w) (shutting_down w) (boot_ms w) (cg_ok w) (clone3_ok w) (conns w) (w_emerg
    w) (w_log w) (sfd w) v (calls w) (waits w) (trace w).
Definition set_calls (v : nat) (w : world) : world :=
  World (w_ctr w) (w_dep w) (w_lv w) (want w) (runs w) (pids w) (n_ops w) (drain_left w)
    (drain_rotor w) (shutting_down w) (boot_ms w) (cg_ok w) (clone3_ok w) (conns w) (w_emerg
    w) (w_log w) (sfd w) (ctl_lfd w) v (waits w) (trace w).
Definition set_waits (v : nat) (w : world) : world :=
  World (w_ctr w) (w_dep w) (w_lv w) (want w) (runs w) (pids w) (n_ops w) (drain_left w)
    (drain_rotor w) (shutting_down w) (boot_ms w) (cg_ok w) (clone3_ok w) (conns w) (w_emerg
    w) (w_log w) (sfd w) (ctl_lfd w) (calls w) v (trace w).
Definition set_trace (v : list event) (w : world) : world :=
  World (w_ctr w) (w_dep w) (w_lv w) (want w) (runs w) (pids w) (n_ops w) (drain_left w)
    (drain_rotor w) (shutting_down w) (boot_ms w) (cg_ok w) (clone3_ok w) (conns w) (w_emerg
    w) (w_log w) (sfd w) (ctl_lfd w) (calls w) (waits w) v.
