(* ===== verification/Sys.v ===== *)
(** * Pid 1 as a program: its monad and the kernel it runs on

    A handler takes the world and returns a result with the next world. An
    array access outside its bounds is [Fault], a loop that used up the steps
    the model gives it [NoFuel], and [Halt] is [shutdown_system], which does not
    return. The kernel is a parameter: the class [Env] holds the loaded graph
    and one function per system call, which gives the result of the [n]-th call
    pid 1 makes, so a theorem for every [Env] covers every behaviour of the
    kernel and of the children. [EnvOk] lists what the kernel documents. *)

From S2P Require Import Prelude Ngraph PidMap Ring Log Console World.

(** ** Results *)

Inductive res (A : Type) : Type :=
  | Ok (a : A) (w : world)
  | Halt (w : world)
  | Fault
  | NoFuel.
Arguments Ok {A} a w.
Arguments Halt {A} w.
Arguments Fault {A}.
Arguments NoFuel {A}.

Definition M (A : Type) : Type := world -> res A.

#[export] Instance M_ret : MRet M := fun A a w => Ok a w.

#[export] Instance M_bind : MBind M := fun A B f m w =>
  match m w with
  | Ok a w' => f a w'
  | Halt w' => Halt w'
  | Fault => Fault
  | NoFuel => NoFuel
  end.

Definition fault {A} : M A := fun _ => Fault.
Definition nofuel {A} : M A := fun _ => NoFuel.
Definition gets {A} (f : world -> A) : M A := fun w => Ok (f w) w.
Definition modify (f : world -> world) : M unit := fun w => Ok tt (f w).

Definition lift {A} (o : option A) : M A := match o with Some a => mret a | None => fault end.

Definition when (b : bool) (m : M unit) : M unit := if b then m else mret tt.

(** [for(k = lo; n more times; k++) body k] *)
Fixpoint mfor (n k : nat) (body : nat -> M unit) : M unit :=
  match n with
  | O => mret tt
  | S n' => body k;; mfor n' (S k) body
  end.

(** The body for each element in turn. *)
Fixpoint miter {A} (l : list A) (body : A -> M unit) : M unit :=
  match l with
  | [] => mret tt
  | x :: l' => body x;; miter l' body
  end.

(** ** Reads and writes of the arrays *)

Definition rd {A} (f : world -> list A) (i : nat) : M A := l ← gets f; lift (l !! i).

(** [a[i] = v] *)
Definition store {A} (l : list A) (i : nat) (v : A) : M (list A) :=
  if decide (i < length l)%nat then mret (<[i := v]> l) else fault.

Definition set_state_at (i : nat) (s : svc_state) : M unit :=
  c ← gets w_ctr; l ← store (state c) i s; modify (set_w_ctr (set_state l c)).

Definition mod_ctr (f : ctr -> ctr) : M unit := modify (fun w => set_w_ctr (f (w_ctr w)) w).
Definition mod_dep (f : dep -> dep) : M unit := modify (fun w => set_w_dep (f (w_dep w)) w).

Definition st_of (i : nat) : M svc_state := rd (fun w => state (w_ctr w)) i.
Definition up_of (i : nat) : M bool := rd (fun w => up (w_dep w)) i.
Definition rel_of (i : nat) : M bool := rd (fun w => released (w_dep w)) i.
Definition unmet_of (i : nat) : M Z := rd (fun w => d_unmet (w_dep w)) i.
Definition want_of (i : nat) : M bool := rd want i.
Definition run_of (i : nat) : M run := rd runs i.

(** [runs[i].field = v], for a setter of the field. *)
Definition mod_run (i : nat) (f : run -> run) : M unit :=
  r ← run_of i; modify (fun w => set_runs (<[i := f r]> (runs w)) w).

Definition set_want_at (i : nat) (v : bool) : M unit :=
  l ← gets want; l' ← store l i v; modify (set_want l').

Definition set_up_at (i : nat) (v : bool) : M unit :=
  d ← gets w_dep; l ← store (up d) i v; modify (set_w_dep (set_up l d)).
Definition set_rel_at (i : nat) (v : bool) : M unit :=
  d ← gets w_dep; l ← store (released d) i v; modify (set_w_dep (set_released l d)).

Definition emit (e : event) : M unit := modify (fun w => set_trace (e :: trace w) w).

(** ** The kernel *)

(** [read] gave bytes, the end of the file, or an error. *)
Inductive rdres := RData (b : bytes) | REof | RErr (errno : Z).

Definition rd_ends (b : rdres) : Prop :=
  match b with RData _ => False | REof => True | RErr e => e <> EINTR end.

Definition errno_is (b : rdres) (e : Z) : bool := match b with RErr x => x =? e | _ => false end.

(** [waitpid] with [WNOHANG]. *)
Inductive waitres := WPid (p status : Z) | WNone | WErr (errno : Z).

Definition ENOENT : Z := 2.
Definition E2BIG : Z := 7.
Definition EBUSY : Z := 16.
Definition EEXIST : Z := 17.
Definition EINVAL : Z := 22.
Definition ENOSYS : Z := 38.
Definition EOPNOTSUPP : Z := 95.

(** A call gives its value or errno. *)
Abbreviation sysres := (Z + Z)%type.

Class Env := {
  env_g : graph;
  os_clock : nat -> Z * Z;
  os_read : nat -> Z -> Z -> rdres;
  os_fread : nat -> Z -> Z -> rdres;
  os_open : nat -> bytes -> sysres;
  os_write : nat -> Z -> bytes -> sysres;
  os_mkdir : nat -> bytes -> option Z;
  os_rmdir : nat -> bytes -> option Z;
  os_pipe : nat -> (Z * Z) + Z;
  os_clone : nat -> Z -> sysres;
  os_fork : nat -> sysres;
  os_wait : nat -> waitres;
  os_console : nat -> sysres;
  os_shell : nat -> sysres;
  os_accept : nat -> sysres;
  os_poll : nat -> nat -> Z;
  os_signal : nat -> option Z;
  os_signalfd : nat -> sysres;
  os_strerror : Z -> bytes;
  os_alloc : nat -> bool;
  os_dir : nat -> bytes -> option (list bytes);
  os_ioctl : nat -> Z -> Z -> Z -> sysres;
  os_act : nat -> bytes -> bytes -> option Z;
  os_waitpid : nat -> Z -> waitres;
  os_patience : nat;
}.

(** The monotonic clock in ms ([mono_ms] of help/time.h): it is seconds and
    nanoseconds. *)
Definition os_ms `{Env} (n : nat) : Z := (os_clock n).1 * 1000 + (os_clock n).2 / 1000000.

(** The largest [pid_t]. *)
Definition INT_MAX : Z := 2147483647.

(** What the manual pages promise: a read returns at most the bytes asked for
    and no fewer than one, descriptors and process ids are positive, an
    interrupted call is not interrupted for ever, a file ends and stays at its
    end, only finitely many children have exited, signals are pending and clients wait to connect,
    and the clock runs, and not backwards. *)
Class EnvOk (E : Env) : Prop := {
  ok_graph : graph_wf env_g;
  ok_read : forall n fd cap b, os_read n fd cap = RData b -> 0 < Z.of_nat (length b) <= cap;
  ok_fread : forall n fd cap b, os_fread n fd cap = RData b -> 0 < Z.of_nat (length b) <= cap;
  ok_pipe : forall n a b, os_pipe n = inl (a, b) -> 0 <= a /\ 0 <= b;
  ok_fork : forall n p, os_fork n = inl p -> 0 < p <= INT_MAX;
  ok_clone : forall n fd p, os_clone n fd = inl p -> 0 < p <= INT_MAX;
  ok_shell : forall n p, os_shell n = inl p -> 0 < p;
  ok_clock : forall n, 0 <= (os_clock n).1 /\ 0 <= (os_clock n).2 < 1000000000;
  ok_intr : forall n fd, exists k, (k < os_patience)%nat /\
    (forall cap, os_read (n + k) fd cap <> RErr EINTR);
  ok_file : forall n fd, exists k, (k < os_patience)%nat /\
    (forall cap, rd_ends (os_fread (n + k) fd cap) /\ rd_ends (os_fread (S (n + k)) fd cap));
  ok_child : forall n p st, os_wait n = WPid p st -> 0 < p;
  ok_wait : forall n, exists k, (k < os_patience)%nat /\
    (os_wait (n + k) = WNone \/ exists e, e <> EINTR /\ os_wait (n + k) = WErr e);
  ok_write : forall n fd b k, os_write n fd b = inl k -> k <= blen b;
  ok_wintr : forall n fd, exists k, (k < os_patience)%nat /\ forall b, os_write (n + k) fd b <> inr EINTR;
  ok_signal : forall n, exists k, (k < os_patience)%nat /\ os_signal (n + k) = None;
  ok_accept : forall n, exists k e e', (k < os_patience)%nat /\ os_accept (n + k) = inr e /\ os_accept (S (n + k)) = inr e';
  ok_mono : forall m n, (m <= n)%nat -> os_ms m <= os_ms n;
  ok_time : forall n, os_ms n + 60000 <= os_ms (n + os_patience);
}.

Lemma fread_ends `{E : Env} `{!EnvOk E} n fd : exists k, (k < os_patience)%nat /\
  forall cap b, os_fread (n + k) fd cap <> RData b.
Proof.
  destruct (ok_file n fd) as (k & Hk & He). exists k. split; [done|]. intros cap b Hb.
  destruct (He cap) as [He1 _]. by rewrite Hb in He1.
Qed.

Section Calls.
Context `{Env}.

Definition call {A} (f : nat -> A) : M A := fun w => Ok (f (calls w)) (set_calls (S (calls w)) w).

(** [now_ms] *)
Definition now_ms : M Z := call os_ms.

(** [mono_ms_since]; C division truncates. *)
Definition mono_ms_since (t0 : Z * Z) : M Z :=
  t ← call os_clock; mret ((t.1 - t0.1) * 1000 + Z.quot (t.2 - t0.2) 1000000).

Definition n_svc : nat := g_n env_g.

Definition name_of (i : nat) : M bytes := lift (ng_name env_g i).

End Calls.

(** ** Messages *)

Section Messages.
Context `{Env}.

(** The log runs on the same kernel. *)
#[export] Instance env_log : LogOs := {|
  lo_clock n := os_ms n;
  lo_write := os_write;
  lo_patience := os_patience;
|}.

(** An operation of the log as a step of pid 1. *)
Definition run_log {A} (m : LM A) : M A := fun w =>
  match m (set_l_calls (calls w) (w_log w)) with
  | VOk (a, L) => Ok a (set_calls (l_calls L) (set_w_log L w))
  | VBad _ | VFault => Fault
  | VDiverge => NoFuel
  end.

(** One call of [ninit_log], with the body its format gives. *)
Definition ninit_log (level : Z) (body : bytes) : M unit :=
  emit (EvLog level body);; run_log (Log.ninit_log level body).
Definition log_done (body : bytes) : M unit := ninit_log LOG_DONE body.
Definition log_warn (body : bytes) : M unit := ninit_log LOG_WARN body.
Definition log_err (body : bytes) : M unit := ninit_log LOG_FAIL body.
Definition log_wait (body : bytes) : M unit := ninit_log LOG_WAIT body.
Definition log_note (body : bytes) : M unit := ninit_log LOG_NOTE body.

End Messages.

#[global] Arguments run_log : simpl never.
#[global] Arguments ninit_log : simpl never.
#[global] Arguments log_done : simpl never.
#[global] Arguments log_warn : simpl never.
#[global] Arguments log_err : simpl never.
#[global] Arguments log_wait : simpl never.
#[global] Arguments log_note : simpl never.

#[export] Instance env_log_ok `{E : Env} `{!EnvOk E} : LogOk env_log.
Proof.
  constructor; simpl.
  - apply ok_write.
  - apply ok_wintr.
  - intros n. unfold os_ms. pose proof (ok_clock n) as [H1 H2].
    pose proof (Z.div_pos (os_clock n).2 1000000). lia.
  - apply ok_mono.
  - intros n. pose proof (ok_time n). unfold LOG_WRITE_MS. lia.
Qed.

(** ** Total correctness of a handler *)

(** The handler returns, and [Q] holds of its result and the next world. *)
Definition wp {A} (m : M A) (Q : A -> world -> Prop) (w : world) : Prop :=
  match m w with
  | Ok a w' => Q a w'
  | _ => False
  end.

Lemma wp_ret {A} (a : A) (Q : A -> world -> Prop) w : Q a w -> wp (mret a) Q w.
Proof. done. Qed.

Lemma wp_bind {A B} (m : M A) (f : A -> M B) (Q : B -> world -> Prop) w :
  wp m (fun a => wp (f a) Q) w -> wp (m ≫= f) Q w.
Proof. unfold wp, mbind, M_bind. by destruct (m w). Qed.

Lemma wp_mono {A} (m : M A) (P Q : A -> world -> Prop) w :
  wp m P w -> (forall a w', P a w' -> Q a w') -> wp m Q w.
Proof. unfold wp. destruct (m w); naive_solver. Qed.

Lemma wp_gets {A} (f : world -> A) (Q : A -> world -> Prop) w : Q (f w) w -> wp (gets f) Q w.
Proof. done. Qed.

Lemma wp_modify f (Q : unit -> world -> Prop) w : Q tt (f w) -> wp (modify f) Q w.
Proof. done. Qed.

Lemma wp_lift {A} (o : option A) a (Q : A -> world -> Prop) w : o = Some a -> Q a w -> wp (lift o) Q w.
Proof. by intros ->. Qed.

Lemma wp_rd {A} (f : world -> list A) i a (Q : A -> world -> Prop) w :
  f w !! i = Some a -> Q a w -> wp (rd f i) Q w.
Proof. intros Hi HQ. unfold rd. apply wp_bind, wp_gets. by apply (wp_lift _ a). Qed.

Lemma wp_store {A} (l : list A) i v (Q : list A -> world -> Prop) w :
  (i < length l)%nat -> Q (<[i := v]> l) w -> wp (store l i v) Q w.
Proof. intros Hi HQ. unfold store. by rewrite decide_True. Qed.

Lemma wp_when (b : bool) m (Q : unit -> world -> Prop) w :
  (b = true -> wp m Q w) -> (b = false -> Q tt w) -> wp (when b m) Q w.
Proof. destruct b; intros H1 H2; [by apply H1|by apply wp_ret, H2]. Qed.

Lemma wp_call `{Env} {A} (f : nat -> A) (Q : A -> world -> Prop) w :
  Q (f (calls w)) (set_calls (S (calls w)) w) -> wp (call f) Q w.
Proof. done. Qed.

Lemma wp_mod_run i f r (Q : unit -> world -> Prop) w :
  runs w !! i = Some r -> Q tt (set_runs (<[i := f r]> (runs w)) w) -> wp (mod_run i f) Q w.
Proof. intros Hr HQ. unfold mod_run. apply wp_bind. by apply (wp_rd _ _ r). Qed.

(** A loop keeps an invariant that holds before it. *)
Lemma wp_mfor (I : nat -> world -> Prop) n k body (Q : unit -> world -> Prop) w :
  I k w ->
  (forall j w, (k <= j < k + n)%nat -> I j w -> wp (body j) (fun _ => I (S j)) w) ->
  (forall w, I (k + n)%nat w -> Q tt w) -> wp (mfor n k body) Q w.
Proof.
  revert k w; induction n as [|n IH]; intros k w Hk Hb HQ; simpl.
  - apply wp_ret, HQ. by rewrite Nat.add_0_r.
  - apply wp_bind. eapply wp_mono; [apply Hb; [lia|done]|]. intros [] w' Hw'.
    apply IH; [done|intros; apply Hb; [lia|done]|].
    intros v Hv. apply HQ. by rewrite Nat.add_succ_r.
Qed.

Lemma wp_miter {A} (I : world -> Prop) (l : list A) body (Q : unit -> world -> Prop) w :
  I w -> (forall x w, x ∈ l -> I w -> wp (body x) (fun _ => I) w) ->
  (forall w, I w -> Q tt w) -> wp (miter l body) Q w.
Proof.
  revert w; induction l as [|x l IH]; intros w Hw Hb HQ; simpl; [by apply wp_ret, HQ|].
  apply wp_bind. eapply wp_mono; [apply Hb; [apply list_elem_of_here|done]|]. intros [] w' Hw'.
  apply IH; [done| |done]. intros y v Hy. apply Hb. by apply list_elem_of_further.
Qed.

(** ** Safety of a handler *)

(** The handler stays within its arrays, and [Q] holds if it returns; it may
    also shut the machine down or use up the model's fuel. *)
Definition wlp {A} (m : M A) (Q : A -> world -> Prop) (w : world) : Prop :=
  match m w with
  | Ok a w' => Q a w'
  | Halt _ | NoFuel => True
  | Fault => False
  end.

Lemma wp_wlp {A} (m : M A) (Q : A -> world -> Prop) w : wp m Q w -> wlp m Q w.
Proof. unfold wp, wlp. by destruct (m w). Qed.

Lemma wlp_bind {A B} (m : M A) (f : A -> M B) (Q : B -> world -> Prop) w :
  wlp m (fun a => wlp (f a) Q) w -> wlp (m ≫= f) Q w.
Proof. unfold wlp, mbind, M_bind. by destruct (m w). Qed.

Lemma wlp_mono {A} (m : M A) (P Q : A -> world -> Prop) w :
  wlp m P w -> (forall a w', P a w' -> Q a w') -> wlp m Q w.
Proof. unfold wlp. destruct (m w); naive_solver. Qed.

(** A step that is known to return, then the rest. *)
Lemma wlp_step {A B} (m : M A) (f : A -> M B) (P : A -> world -> Prop) (Q : B -> world -> Prop) w :
  wp m P w -> (forall a w', P a w' -> wlp (f a) Q w') -> wlp (m ≫= f) Q w.
Proof. intros Hm Hf. apply wlp_bind. eapply wlp_mono; [by apply wp_wlp|done]. Qed.

Lemma wlp_when (b : bool) m (Q : unit -> world -> Prop) w :
  (b = true -> wlp m Q w) -> (b = false -> Q tt w) -> wlp (when b m) Q w.
Proof. destruct b; intros H1 H2; [by apply H1|by apply wp_wlp, wp_ret, H2]. Qed.
