(* ===== verification/Inv.v ===== *)
(** * The invariant of the supervisor

    What holds of the world between two handlers, and inside them: the counters
    count the states, the live list and its back pointers agree, every service
    with something left to wait for is on it, [unmet] counts the prerequisites
    that have not been handed over, the pid table lists only processes a
    service still knows, and every process was started when all its
    prerequisites were up. *)

From stdpp Require Import gmap.
From S2P Require Import Prelude Ngraph PidMap Ring Log Console Repeat Logged World Sys.

(** ** The graph *)

Section Graph.
Context `{E : Env} `{!EnvOk E}.

Lemma svc_lookup i : (i < n_svc)%nat -> exists s, g_svc env_g !! i = Some s.
Proof. intros Hi. apply lookup_lt_is_Some_2. by rewrite (gw_svc _ ok_graph). Qed.

Lemma pol_lookup i : (i < n_svc)%nat -> exists p, g_pol env_g !! i = Some p.
Proof. intros Hi. apply lookup_lt_is_Some_2. by rewrite (gw_pol _ ok_graph). Qed.

Lemma name_lookup i : (i < n_svc)%nat -> exists nm, ng_name env_g i = Some nm.
Proof. intros Hi. apply lookup_lt_is_Some_2. by rewrite (gw_name _ ok_graph). Qed.

Lemma succs_lookup i : (i < n_svc)%nat ->
  exists ds, succs env_g i = Some ds /\ Forall (fun d => (i < d < n_svc)%nat) ds /\ NoDup ds.
Proof.
  intros Hi. destruct (gw_succs _ ok_graph i Hi) as (ds & Hds & HF & HS). exists ds. split_ands; [done..|].
  clear HF Hds. induction HS as [|d ds HS IH HF]; constructor; [|done].
  intros Hin. rewrite Forall_forall in HF. specialize (HF d Hin). lia.
Qed.

Lemma order_only_lookup i : (i < n_svc)%nat -> exists b, ng_order_only env_g i = Some b.
Proof. intros Hi. destruct (pol_lookup i Hi) as [p Hp]. unfold ng_order_only. rewrite Hp. simpl. eauto. Qed.

Lemma type_lookup i : (i < n_svc)%nat -> exists t, ng_type env_g i = Some t.
Proof. intros Hi. destruct (svc_lookup i Hi) as [s Hs]. unfold ng_type. rewrite Hs. simpl. eauto. Qed.

Lemma target_lookup i : (i < n_svc)%nat -> exists b, is_target env_g i = Some b.
Proof. intros Hi. destruct (type_lookup i Hi) as [t Ht]. unfold is_target. rewrite Ht. simpl. eauto. Qed.

Lemma restart_lookup i : (i < n_svc)%nat -> exists b, ng_restart env_g i = Some b.
Proof. intros Hi. destruct (svc_lookup i Hi) as [s Hs]. unfold ng_restart. rewrite Hs. simpl. eauto. Qed.

Lemma notify_lookup i : (i < n_svc)%nat -> exists b, ng_notify env_g i = Some b.
Proof. intros Hi. destruct (svc_lookup i Hi) as [s Hs]. unfold ng_notify. rewrite Hs. simpl. eauto. Qed.

Lemma onfail_lookup i : (i < n_svc)%nat -> exists b, ng_onfail env_g i = Some b.
Proof. intros Hi. destruct (svc_lookup i Hi) as [s Hs]. unfold ng_onfail. rewrite Hs. simpl. eauto. Qed.

Lemma tries_lookup i : (i < n_svc)%nat -> exists b, ng_start_tries env_g i = Some b.
Proof.
  intros Hi. destruct (svc_lookup i Hi) as [s Hs], (pol_lookup i Hi) as [p Hp].
  unfold ng_start_tries. rewrite Hp, Hs. simpl. eauto.
Qed.

Lemma start_ms_lookup i : (i < n_svc)%nat -> exists b, ng_start_ms env_g i = Some b.
Proof. intros Hi. destruct (pol_lookup i Hi) as [p Hp]. unfold ng_start_ms. rewrite Hp. simpl. eauto. Qed.

Lemma stop_ms_lookup i : (i < n_svc)%nat -> exists b, ng_stop_ms env_g i = Some b.
Proof. intros Hi. destruct (pol_lookup i Hi) as [p Hp]. unfold ng_stop_ms. rewrite Hp. simpl. eauto. Qed.

Lemma n_svc_bound : Z.of_nat n_svc <= 8192.
Proof. apply (gw_n _ ok_graph). Qed.

Lemma occ_nonneg d l : 0 <= occ d l.
Proof. unfold occ. pose proof (cnt_range (fun x => (x =? d)%nat) l). lia. Qed.

Lemma mult_nonneg j d : 0 <= mult env_g j d.
Proof. unfold mult. destruct (succs env_g j); [apply occ_nonneg|lia]. Qed.

Lemma occ_pos d l : 0 < occ d l <-> d ∈ l.
Proof.
  unfold occ. pose proof (cnt_range (fun x => (x =? d)%nat) l). split.
  - intros Hp. destruct (decide (d ∈ l)) as [|Hn]; [done|].
    assert (cnt (fun x => (x =? d)%nat) l = 0) as Hz; [|lia].
    apply cnt_zero. intros x Hx. apply Nat.eqb_neq. by intros ->.
  - intros [k Hk]%list_elem_of_lookup. apply (cnt_pos _ _ k d Hk). apply Nat.eqb_refl.
Qed.

Lemma mult_edge j d : edge env_g j d -> 0 < mult env_g j d.
Proof. intros (l & Hl & Hd). unfold mult. rewrite Hl. by apply occ_pos. Qed.

Lemma succs_bound j l : succs env_g j = Some l -> (j < n_svc)%nat.
Proof.
  unfold succs. intros Hl. destruct (g_roff env_g !! j); [|done].
  destruct (g_roff env_g !! S j) eqn:E2; [|done].
  apply lookup_lt_Some in E2. rewrite (gw_roff _ ok_graph) in E2. unfold n_svc. lia.
Qed.

Lemma edge_bound j d : edge env_g j d -> (j < n_svc)%nat /\ (d < n_svc)%nat.
Proof.
  intros (l & Hl & Hd). pose proof (succs_bound j l Hl) as Hj. split; [done|].
  destruct (succs_lookup j Hj) as (ds & Hds & HF & _). simplify_eq.
  rewrite Forall_forall in HF. specialize (HF d Hd). lia.
Qed.

Lemma indeg_bound d : (d < n_svc)%nat -> 0 <= indeg env_g d < 8192.
Proof.
  intros Hd. destruct (svc_lookup d Hd) as [s Hs], (pol_lookup d Hd) as [p Hp].
  pose proof (gw_each _ ok_graph d s p Hs Hp) as W.
  rewrite <- (sw_unmet _ _ _ _ W). pose proof (sw_unmet_lt _ _ _ _ W). pose proof n_svc_bound.
  unfold n_svc in *. lia.
Qed.
End Graph.

(** ** The invariant *)

Section Invariant.
Context `{E : Env} `{!EnvOk E}.

Definition is_st (s x : svc_state) : bool := bool_decide (x = s).

Lemma cnt_is_st_bound x (st : list svc_state) : length st = n_svc -> 0 <= cnt (is_st x) st <= 8192.
Proof. intros Hl. pose proof (cnt_range (is_st x) st). pose proof n_svc_bound. lia. Qed.

Record ctr_ok (c : ctr) : Prop := CtrOk {
  ct_len : length (state c) = n_svc;
  ct_active : n_active c = cnt (is_st RUNNING) (state c);
  ct_done : n_done c = cnt (is_st DONE) (state c);
  ct_pending : n_pending c = cnt (is_st PENDING) (state c);
}.

Definition rel_b (dp : dep) (j : nat) : bool := default false (released dp !! j).
Definition up_b (dp : dep) (j : nat) : bool := default false (up dp !! j).
Definition oo_b (j : nat) : bool := default false (ng_order_only env_g j).

(** The prerequisites of [d] that have not been handed over. *)
Definition need (dp : dep) (d : nat) : Z :=
  sum_upto n_svc (fun j => if rel_b dp j then 0 else mult env_g j d).

(** Nothing starts before it. *)
Definition is_root (r : nat) : Prop := forall j, ~ edge env_g j r.

(** [ex d] is what the queues still have to take off [unmet] of [d], and [x] a
    service that is being taken down. *)
Record dep_ok (ex : nat -> Z) (x : option nat) (dp : dep) : Prop := DepOk {
  de_up : length (up dp) = n_svc;
  de_rel : length (released dp) = n_svc;
  de_unmet : length (d_unmet dp) = n_svc;
  de_queue : length (queue dp) = n_svc;
  de_rqueue : length (rqueue dp) = n_svc;
  de_n_up : n_up dp = cnt id (up dp);
  de_range : forall d u, d_unmet dp !! d = Some u -> 0 <= u < 65536;
  de_need : forall d, (d < n_svc)%nat -> d_unmet dp !! d = Some (need dp d + ex d);
  de_rel_up : forall j, rel_b dp j = true -> oo_b j = false -> up_b dp j = true \/ x = Some j;
}.

(** Nothing is being handed over. *)
Definition idle_q (dp : dep) : Prop := q_head dp = 0%nat /\ q_tail dp = 0%nat /\ draining dp = false.

(** The services on the live list. *)
Definition lset (l : lvs) : list nat := take (n_live l) (live l).

Record live_ok (l : lvs) (rs : list run) : Prop := LiveOk {
  lo_len : length (live l) = n_svc;
  lo_n : (n_live l <= n_svc)%nat;
  lo_pos : forall k i, lset l !! k = Some i -> exists r, rs !! i = Some r /\ live_pos r = k;
}.

(** Something of the service is left to wait for. *)
Definition busy (r : run) : Prop :=
  0 < pid r \/ stale_pid r <> 0 \/ 0 <= out_fd r \/ 0 <= ntf_fd r \/ op r <> OP_NONE.

Record svc_ok (r : run) (on_list : Prop) : Prop := SvcOk {
  so_pid : 0 <= pid r <= INT_MAX;
  so_stale : 0 <= stale_pid r;
  so_one : pid r = 0 \/ stale_pid r = 0;
  so_live : busy r -> on_list;
  so_line : zlen (r_line r) <= LINE_CAP;
  so_tail : zlen (r_tail r) <= TAIL_CAP;
}.

(** The pid table, where there is one, has room and lists only processes that
    a service knows as its own or as an abandoned one. *)
Definition pids_ok (t : option pidtab) (rs : list run) : Prop :=
  match t with
  | None => True
  | Some T =>
      exists e m, 0 <= e /\ 4 * Z.of_nat n_svc <= 2 ^ e /\ 4 <= 2 ^ e /\ repr e T m /\
        forall p i, m !! p = Some i -> 0 < p /\
          exists r, rs !! i = Some r /\ (pid r = p \/ stale_pid r = p)
  end.

Definition op_b (r : run) : bool := negb (bool_decide (op r = OP_NONE)).

(** A process was started for a service nobody held stopped, when each of its
    prerequisites had been handed over and, unless only the order matters, was
    up. *)
Definition event_ok (e : event) : Prop :=
  match e with
  | EvFork i p dp wn => wn = false /\ 0 < p /\
      forall j, edge env_g j i -> rel_b dp j = true /\ (oo_b j = false -> up_b dp j = true)
  | _ => True
  end.

(** What does not concern the counters and the dependencies; [x] is a service
    that is about to enter the live list. *)
Record side (x : option nat) (w : world) : Prop := Side {
  sd_live : live_ok (w_lv w) (runs w);
  sd_want : length (want w) = n_svc;
  sd_runs : length (runs w) = n_svc;
  sd_svc : forall i r, runs w !! i = Some r -> svc_ok r (i ∈ lset (w_lv w) \/ x = Some i);
  sd_pids : pids_ok (pids w) (runs w);
  sd_ops : n_ops w = cnt op_b (runs w);
  sd_trace : Forall event_ok (trace w);
  sd_rotor : (drain_rotor w < n_svc)%nat \/ drain_rotor w = 0%nat;
  sd_log : log_ok (w_log w);
}.

Record Inv (ex : nat -> Z) (w : world) : Prop := MkInv {
  in_ctr : ctr_ok (w_ctr w);
  in_dep : dep_ok ex None (w_dep w);
  in_side : side None w;
}.

(** Between two handlers. *)
Definition Quiet (w : world) : Prop := Inv (fun _ => 0) w /\ idle_q (w_dep w).

(** ** Steps that keep the bookkeeping *)

(** What a step may do to a service without telling the lists. *)
Record mild (r r' : run) : Prop := Mild {
  mi_pid : pid r' = pid r;
  mi_stale : stale_pid r' = stale_pid r;
  mi_pos : live_pos r' = live_pos r;
  mi_op : op r' = op r;
  mi_out : 0 <= out_fd r' -> 0 <= out_fd r;
  mi_ntf : 0 <= ntf_fd r' -> 0 <= ntf_fd r;
  mi_line : zlen (r_line r) <= LINE_CAP -> zlen (r_line r') <= LINE_CAP;
  mi_tail : zlen (r_tail r) <= TAIL_CAP -> zlen (r_tail r') <= TAIL_CAP;
}.

(** A step that leaves the counters, the dependencies, the live list and the
    pid table alone. *)
Record tame (w w' : world) : Prop := Tame {
  tm_ctr : w_ctr w' = w_ctr w;
  tm_dep : w_dep w' = w_dep w;
  tm_lv : w_lv w' = w_lv w;
  tm_want : want w' = want w;
  tm_pids : pids w' = pids w;
  tm_ops : n_ops w' = n_ops w;
  tm_shut : shutting_down w' = shutting_down w;
  tm_trace : Forall event_ok (trace w) -> Forall event_ok (trace w');
  tm_runs : Forall2 mild (runs w) (runs w');
  tm_rotor : (drain_rotor w < n_svc)%nat \/ drain_rotor w = 0%nat ->
    (drain_rotor w' < n_svc)%nat \/ drain_rotor w' = 0%nat;
  tm_log : log_ok (w_log w) -> log_ok (w_log w');
}.

#[export] Instance mild_refl : Reflexive mild.
Proof. done. Qed.

#[export] Instance mild_trans : Transitive mild.
Proof. intros r1 r2 r3 [] []. constructor; try congruence; auto. Qed.

#[export] Instance tame_refl : Reflexive tame.
Proof. intros w. constructor; auto. reflexivity. Qed.

#[export] Instance tame_trans : Transitive tame.
Proof. intros w1 w2 w3 [] []. constructor; try congruence; auto. by etrans. Qed.

Lemma mild_list rs rs' i r' : Forall2 mild rs rs' -> rs' !! i = Some r' ->
  exists r, rs !! i = Some r /\ mild r r'.
Proof.
  intros HF Hi. destruct (Forall2_lookup_r _ _ _ _ _ HF Hi) as (r & Hr & Hm). eauto.
Qed.

Lemma busy_mild r r' : mild r r' -> busy r' -> busy r.
Proof. intros [] Hb. unfold busy in *. rewrite mi_pid0, mi_stale0, mi_op0 in Hb. tauto. Qed.

Lemma live_ok_mild l rs rs' : Forall2 mild rs rs' -> live_ok l rs -> live_ok l rs'.
Proof.
  intros HF []. constructor; [done..|]. intros k i Hk. destruct (lo_pos0 k i Hk) as (r & Hr & Hp).
  destruct (Forall2_lookup_l _ _ _ _ _ HF Hr) as (r' & Hr' & Hm). exists r'. split; [done|].
  rewrite (mi_pos _ _ Hm). done.
Qed.

(** A mild step that may also move the service on the live list. *)
Definition mildx (r r' : run) : Prop := mild (set_live_pos 0 r) (set_live_pos 0 r').

Lemma mild_mildx r r' : mild r r' -> mildx r r'.
Proof. by intros []. Qed.

#[export] Instance mildx_refl : Reflexive mildx.
Proof. intros r. unfold mildx. reflexivity. Qed.

Lemma mild_mildx_list rs rs' : Forall2 mild rs rs' -> Forall2 mildx rs rs'.
Proof. intros HF. eapply Forall2_impl; [done|]. apply mild_mildx. Qed.

Lemma pids_ok_mildx t rs rs' : Forall2 mildx rs rs' -> pids_ok t rs -> pids_ok t rs'.
Proof.
  intros HF. destruct t as [T|]; [|done]. intros (e & m & He & H1 & H2 & HR & Hm).
  exists e, m. split_ands; [done..|]. intros p i Hp. destruct (Hm p i Hp) as (Hp0 & r & Hr & Hor).
  split; [done|]. destruct (Forall2_lookup_l _ _ _ _ _ HF Hr) as (r' & Hr' & M). exists r'.
  split; [done|]. pose proof (mi_pid _ _ M) as E1. pose proof (mi_stale _ _ M) as E2. simpl in E1, E2.
  by rewrite E1, E2.
Qed.

Lemma ops_mildx rs rs' : Forall2 mildx rs rs' -> cnt op_b rs' = cnt op_b rs.
Proof.
  induction 1 as [|r r' rs rs' M HF IH]; simpl; [done|]. rewrite IH. unfold op_b.
  pose proof (mi_op _ _ M) as E1. simpl in E1. by rewrite E1.
Qed.

Lemma svc_ok_mildx r r' (P Q : Prop) : mildx r r' -> (P -> Q) -> svc_ok r P -> svc_ok r' Q.
Proof.
  intros M HPQ []. pose proof (mi_pid _ _ M) as E1. pose proof (mi_stale _ _ M) as E2. simpl in E1, E2.
  constructor; rewrite ?E1, ?E2; [done..| |by apply (mi_line _ _ M)|by apply (mi_tail _ _ M)].
  intros Hb. by apply HPQ, so_live0, (busy_mild _ _ M).
Qed.

Lemma tame_side x w w' : tame w w' -> side x w -> side x w'.
Proof.
  intros [] []. pose proof (mild_mildx_list _ _ tm_runs0) as HX. constructor.
  - rewrite tm_lv0. by apply (live_ok_mild _ (runs w)).
  - congruence.
  - by rewrite <- (Forall2_length _ _ _ tm_runs0).
  - intros i r' Hr'. destruct (mild_list _ _ _ _ tm_runs0 Hr') as (r & Hr & M).
    rewrite tm_lv0. apply (svc_ok_mildx r _ (i ∈ lset (w_lv w) \/ x = Some i)); [by apply mild_mildx|done|].
    by apply sd_svc0.
  - rewrite tm_pids0. by apply (pids_ok_mildx _ (runs w)).
  - rewrite tm_ops0, sd_ops0. symmetry. by apply ops_mildx.
  - by apply tm_trace0.
  - by apply tm_rotor0.
  - by apply tm_log0.
Qed.

Lemma tame_inv ex w w' : tame w w' -> Inv ex w -> Inv ex w'.
Proof.
  intros T []. constructor; [by rewrite (tm_ctr _ _ T)|by rewrite (tm_dep _ _ T)|by apply (tame_side _ w)].
Qed.

Lemma tame_run w w' i r : tame w w' -> runs w !! i = Some r -> exists r', runs w' !! i = Some r' /\ mild r r'.
Proof. intros T Hr. apply (Forall2_lookup_l _ _ _ _ _ (tm_runs _ _ T) Hr). Qed.

Lemma side_run x w i : side x w -> (i < n_svc)%nat -> exists r, runs w !! i = Some r.
Proof. intros HS Hi. apply lookup_lt_is_Some_2. by rewrite (sd_runs _ _ HS). Qed.

Lemma side_want x w i : side x w -> (i < n_svc)%nat -> exists b, want w !! i = Some b.
Proof. intros HS Hi. apply lookup_lt_is_Some_2. by rewrite (sd_want _ _ HS). Qed.

(** Handlers every step of which is tame. *)
Definition tameM {A} (m : M A) : Prop := forall x w, side x w -> wp m (fun _ w' => tame w w') w.

Lemma tameM_ret {A} (a : A) : tameM (mret a).
Proof. intros x w _. apply wp_ret. reflexivity. Qed.

Lemma tameM_bind {A B} (m : M A) (f : A -> M B) : tameM m -> (forall a, tameM (f a)) -> tameM (m ≫= f).
Proof.
  intros Hm Hf x w Hw. apply wp_bind. eapply wp_mono; [by eapply Hm|]. intros a w' T.
  eapply wp_mono; [eapply Hf, (tame_side x w); done|]. intros b w'' T'. by apply (tame_trans _ w').
Qed.

Lemma tameM_gets {A} (f : world -> A) : tameM (gets f).
Proof. intros x w _. apply wp_gets. reflexivity. Qed.

Lemma tameM_call {A} (f : nat -> A) : tameM (call f).
Proof. intros x w _. apply wp_call. constructor; simpl; auto. reflexivity. Qed.

Lemma tameM_lift {A} (o : option A) : (exists a, o = Some a) -> tameM (lift o).
Proof. intros [a ->]. apply tameM_ret. Qed.

Lemma tameM_when (b : bool) m : (b = true -> tameM m) -> tameM (when b m).
Proof. destruct b; intros Hm; [by apply Hm|apply tameM_ret]. Qed.

Lemma tame_emit e w : event_ok e -> tame w (set_trace (e :: trace w) w).
Proof. intros He. constructor; simpl; auto. reflexivity. Qed.

(** An event that is no start of a process. *)
Lemma tameM_emit e : event_ok e -> tameM (emit e).
Proof. intros He x w _. by apply wp_modify, tame_emit. Qed.

(** An operation of the log. *)
Lemma log_ok_calls n L : log_ok L -> log_ok (set_l_calls n L).
Proof. intros HL. constructor; simpl; apply HL. Qed.

Lemma run_log_spec {A} (m : LM A) P (Q : A -> world -> Prop) w :
  lwp m P (set_l_calls (calls w) (w_log w)) ->
  (forall a L, P a L -> Q a (set_calls (l_calls L) (set_w_log L w))) -> wp (run_log m) Q w.
Proof. unfold lwp, wp, run_log. intros Hm HQ. destruct (m _) as [[a L]| | |]; try done. by apply HQ. Qed.

Lemma tameM_run_log {A} (m : LM A) : (forall L, log_ok L -> lwp m (fun _ => log_ok) L) -> tameM (run_log m).
Proof.
  intros Hm x w HS. eapply run_log_spec; [apply Hm, log_ok_calls, HS|]. intros a L HL.
  constructor; simpl; auto. reflexivity.
Qed.

(** A message: its event, and a log that is still in order. *)
Lemma ninit_log_wp level body (Q : unit -> world -> Prop) w : 0 <= level -> log_ok (w_log w) ->
  (forall n L, log_ok L -> Q tt (set_calls n (set_w_log L (set_trace (EvLog level body :: trace w) w)))) ->
  wp (ninit_log level body) Q w.
Proof.
  intros Hl HL HQ. unfold ninit_log. apply wp_bind, wp_modify. eapply run_log_spec.
  - by apply (Logged.ninit_log_spec level body), Hl; apply log_ok_calls.
  - intros [] L [H' _]. by apply HQ.
Qed.

Lemma tameM_log level body : 0 <= level -> tameM (ninit_log level body).
Proof.
  intros Hl. unfold ninit_log. apply tameM_bind; [by apply tameM_emit|]. intros _. apply tameM_run_log. intros L HL.
  eapply lwp_mono; [by apply Logged.ninit_log_spec|]. by intros [] L' [HL' _].
Qed.

Lemma tameM_run_of i : (i < n_svc)%nat -> tameM (run_of i).
Proof.
  intros Hi x w Hw. destruct (side_run x w i Hw Hi) as [r Hr].
  eapply wp_rd; [done|]. reflexivity.
Qed.

Lemma tameM_want_of i : (i < n_svc)%nat -> tameM (want_of i).
Proof.
  intros Hi x w Hw. destruct (side_want x w i Hw Hi) as [b Hb].
  eapply wp_rd; [done|]. reflexivity.
Qed.

Lemma runs_mild rs i r r' : rs !! i = Some r -> mild r r' -> Forall2 mild rs (<[i := r']> rs).
Proof.
  intros Hr M. rewrite <- (list_insert_id rs i r Hr) at 1. apply Forall2_insert; [reflexivity|done].
Qed.

Lemma tameM_mod_run i f : (i < n_svc)%nat -> (forall r, mild r (f r)) -> tameM (mod_run i f).
Proof.
  intros Hi Hf x w Hw. destruct (side_run x w i Hw Hi) as [r Hr].
  apply (wp_mod_run _ _ r); [done|]. constructor; simpl; auto. by apply (runs_mild _ _ r).
Qed.

(** Fields no invariant is about. *)
Lemma tameM_modify f : (forall w, tame w (f w)) -> tameM (modify f).
Proof. intros Hf x w _. apply wp_modify, Hf. Qed.

Lemma tameM_if {A} (b : bool) (m1 m2 : M A) : tameM m1 -> tameM m2 -> tameM (if b then m1 else m2).
Proof. by destruct b. Qed.

Lemma tameM_name i : (i < n_svc)%nat -> tameM (name_of i).
Proof. intros Hi. apply tameM_lift, name_lookup, Hi. Qed.

(** ** Steps that leave the counters and the dependencies alone *)

Record calm (w w' : world) : Prop := Calm {
  cl_ctr : w_ctr w' = w_ctr w;
  cl_dep : w_dep w' = w_dep w;
  cl_want : want w' = want w;
  cl_shut : shutting_down w' = shutting_down w;
  cl_side : side None w';
}.

Definition calmM {A} (m : M A) : Prop := forall w, side None w -> wp m (fun _ w' => calm w w') w.

Lemma calm_refl w : side None w -> calm w w.
Proof. by constructor. Qed.

Lemma calm_trans w1 w2 w3 : calm w1 w2 -> calm w2 w3 -> calm w1 w3.
Proof. intros [] []. constructor; congruence || done. Qed.

Lemma tame_calm w w' : side None w -> tame w w' -> calm w w'.
Proof. intros HS T. pose proof (tame_side _ _ _ T HS). destruct T. by constructor. Qed.

Lemma calm_inv ex w w' : calm w w' -> Inv ex w -> Inv ex w'.
Proof. intros [] []. constructor; [congruence..|done]. Qed.

Lemma tameM_calm {A} (m : M A) : tameM m -> calmM m.
Proof. intros Hm w Hw. eapply wp_mono; [by apply (Hm None)|]. intros a w' T. by apply tame_calm. Qed.

Lemma calmM_bind {A B} (m : M A) (f : A -> M B) : calmM m -> (forall a, calmM (f a)) -> calmM (m ≫= f).
Proof.
  intros Hm Hf w Hw. apply wp_bind. eapply wp_mono; [by apply Hm|]. intros a w' T.
  eapply wp_mono; [apply Hf, (cl_side _ _ T)|]. intros b w'' T'. by apply (calm_trans _ w').
Qed.

Lemma calmM_when (b : bool) m : (b = true -> calmM m) -> calmM (when b m).
Proof. destruct b; intros Hm; [by apply Hm|apply tameM_calm, tameM_ret]. Qed.

(** ** Handlers that keep the whole invariant *)

Definition quietM {A} (m : M A) : Prop := forall w, Quiet w -> wp m (fun _ w' => Quiet w') w.

Lemma calm_quiet w w' : calm w w' -> Quiet w -> Quiet w'.
Proof. intros C [HI HQ]. split; [by apply (calm_inv _ w)|by rewrite (cl_dep _ _ C)]. Qed.

Lemma quiet_side w : Quiet w -> side None w.
Proof. by intros [[] _]. Qed.

Lemma calmM_quiet {A} (m : M A) : calmM m -> quietM m.
Proof. intros Hm w HQ. eapply wp_mono; [apply Hm, quiet_side, HQ|]. intros a w' C. by apply (calm_quiet w). Qed.

Lemma tameM_quiet {A} (m : M A) : tameM m -> quietM m.
Proof. intros Hm. by apply calmM_quiet, tameM_calm. Qed.

Lemma quietM_bind {A B} (m : M A) (f : A -> M B) : quietM m -> (forall a, quietM (f a)) -> quietM (m ≫= f).
Proof. intros Hm Hf w HQ. apply wp_bind. eapply wp_mono; [by apply Hm|]. intros a w' HQ'. by apply Hf. Qed.

Lemma quietM_when (b : bool) m : (b = true -> quietM m) -> quietM (when b m).
Proof. destruct b; intros Hm; [by apply Hm|by apply tameM_quiet, tameM_ret]. Qed.

Lemma quietM_st_of i : (i < n_svc)%nat -> quietM (st_of i).
Proof.
  intros Hi w HQ. destruct (lookup_lt_is_Some_2 (state (w_ctr w)) i) as [s Hs].
  { by rewrite (ct_len _ (in_ctr _ _ (proj1 HQ))). }
  by eapply wp_rd.
Qed.

Lemma quietM_up_of i : (i < n_svc)%nat -> quietM (up_of i).
Proof.
  intros Hi w HQ. destruct (lookup_lt_is_Some_2 (up (w_dep w)) i) as [b Hb].
  { by rewrite (de_up _ _ _ (in_dep _ _ (proj1 HQ))). }
  by eapply wp_rd.
Qed.

End Invariant.

(** A call of a handler that is known to be tame or calm. *)
Lemma wp_tame `{E : Env} {A} (m : M A) x (Q : A -> world -> Prop) w :
  tameM m -> side x w -> (forall a w', tame w w' -> Q a w') -> wp m Q w.
Proof. intros Hm Hw HQ. eapply wp_mono; [by apply (Hm x)|done]. Qed.

Lemma wp_calm `{E : Env} {A} (m : M A) (Q : A -> world -> Prop) w :
  calmM m -> side None w -> (forall a w', calm w w' -> Q a w') -> wp m Q w.
Proof. intros Hm Hw HQ. eapply wp_mono; [by apply Hm|done]. Qed.

(** The same after steps that were calm. *)
Lemma wp_tame_calm `{E : Env} {A} (m : M A) w0 (Q : A -> world -> Prop) w :
  tameM m -> calm w0 w -> (forall a w', calm w0 w' -> Q a w') -> wp m Q w.
Proof.
  intros Hm C HQ. eapply wp_tame; [done|apply (cl_side _ _ C)|]. intros a w' T.
  apply HQ, (calm_trans _ w); [done|]. by apply tame_calm; [apply (cl_side _ _ C)|].
Qed.

Lemma wp_calm_calm `{E : Env} {A} (m : M A) w0 (Q : A -> world -> Prop) w :
  calmM m -> calm w0 w -> (forall a w', calm w0 w' -> Q a w') -> wp m Q w.
Proof.
  intros Hm C HQ. eapply wp_calm; [done|apply (cl_side _ _ C)|]. intros a w' C'.
  by apply HQ, (calm_trans _ w).
Qed.

(** The level of a message is not negative. *)
Ltac log_level :=
  first [ done | assumption | match goal with |- 0 <= (if ?b then _ else _) => by destruct b end ].

(** Proves that a handler is tame, from the tameness of its parts. *)
Ltac tame_step :=
  match goal with
  | |- tameM (mret _) => apply tameM_ret
  | |- tameM (_ ≫= _) => apply tameM_bind; [|intros ?]
  | |- tameM (gets _) => apply tameM_gets
  | |- tameM (call _) => apply tameM_call
  | |- tameM (when _ _) => apply tameM_when; intros ?
  | |- tameM (emit _) => by apply tameM_emit
  | |- tameM (ninit_log _ _) => apply tameM_log; log_level
  | |- tameM (log_warn _) => apply tameM_log; log_level
  | |- tameM (log_err _) => apply tameM_log; log_level
  | |- tameM (log_note _) => apply tameM_log; log_level
  | |- tameM (log_done _) => apply tameM_log; log_level
  | |- tameM (log_wait _) => apply tameM_log; log_level
  | |- tameM (run_of _) => apply tameM_run_of
  | |- tameM (want_of _) => apply tameM_want_of
  | |- tameM (name_of _) => apply tameM_name
  | |- tameM (mod_run _ _) => apply tameM_mod_run
  | |- tameM (modify _) => apply tameM_modify; intros ?; constructor; simpl; auto; reflexivity
  | |- tameM (if ?b then _ else _) => destruct b eqn:?
  | |- tameM (match ?x with _ => _ end) => destruct x eqn:?
  | |- tameM (now_ms) => unfold now_ms
  | |- forall _, mild _ _ => solve [intros ?; constructor; simpl; auto; try lia; unfold zlen, LINE_CAP, TAIL_CAP; simpl; lia]
  | |- tameM (lift (ng_restart _ _)) => apply tameM_lift, restart_lookup
  | |- tameM (lift (ng_start_tries _ _)) => apply tameM_lift, tries_lookup
  | |- tameM (lift (ng_start_ms _ _)) => apply tameM_lift, start_ms_lookup
  | |- tameM (lift (ng_stop_ms _ _)) => apply tameM_lift, stop_ms_lookup
  | |- tameM (lift (ng_type _ _)) => apply tameM_lift, type_lookup
  | |- tameM (lift (is_target _ _)) => apply tameM_lift, target_lookup
  | |- (_ < n_svc)%nat => assumption
  end.

Ltac tame_tac := repeat (first [progress tame_step | solve [eauto with tame]]).

Create HintDb tame.
Create HintDb calm.
Create HintDb quiet.

#[export] Hint Extern 1 (0 <= _) => log_level : tame calm quiet.

(** The same for calm handlers, and for those that keep the invariant. *)
Ltac calm_step :=
  match goal with
  | |- calmM (_ ≫= _) => apply calmM_bind; [|intros ?]
  | |- calmM (when _ _) => apply calmM_when; intros ?
  | |- calmM (if ?b then _ else _) => destruct b eqn:?
  | |- calmM (match ?x with _ => _ end) => destruct x eqn:?
  | |- calmM _ => solve [eauto with calm nocore]
  | |- calmM _ => solve [apply tameM_calm; tame_tac]
  end.

Ltac calm_tac := repeat calm_step.

Ltac quiet_step :=
  match goal with
  | |- quietM (_ ≫= _) => apply quietM_bind; [|intros ?]
  | |- quietM (when _ _) => apply quietM_when; intros ?
  | |- quietM (if ?b then _ else _) => destruct b eqn:?
  | |- quietM (match ?x with _ => _ end) => destruct x eqn:?
  | |- quietM (st_of _) => apply quietM_st_of
  | |- quietM (up_of _) => apply quietM_up_of
  | |- quietM _ => solve [eauto with quiet nocore]
  | |- quietM _ => solve [apply calmM_quiet; calm_tac]
  | |- (_ < n_svc)%nat => assumption
  end.

Ltac quiet_tac := repeat quiet_step.

(** The rest of a handler, from a world where the invariant holds. *)
Ltac quiet_at :=
  cbv beta in *; match goal with HQ : Quiet ?w |- wp ?m _ ?w => refine ((_ : quietM m) w HQ); quiet_tac end.
