(* ===== verification/Live.v ===== *)
(** * The live list and the search for a process (src/pidmap.c)

    The services pid 1 has to look at: a service enters the list with its first
    process or operation and leaves it when nothing of it is left. [live_pos]
    is the slot of a service in the list, so that leaving takes one swap. *)

From stdpp Require Import gmap.
From S2P Require Import Prelude Ngraph PidMap World Sys Inv.

Section Ops.
Context `{Env}.

Definition n_live_of : M nat := gets (fun w => n_live (w_lv w)).

(** [live[k]] *)
Definition live_at (k : nat) : M nat := rd (fun w => live (w_lv w)) k.

Definition live_add (i : nat) : M unit :=
  l ← gets w_lv;
  mod_run i (set_live_pos (n_live l));;
  a ← store (live l) (n_live l) i;
  modify (set_w_lv (Lvs a (S (n_live l)))).

Definition live_has (i : nat) : M bool :=
  r ← run_of i;
  n ← n_live_of;
  if decide (live_pos r < n)%nat then j ← live_at (live_pos r); mret (j =? i)%nat
  else mret false.

(** [if(!live_has(i)) live_add(i)] *)
Definition ensure_live (i : nat) : M unit :=
  l ← live_has i; when (negb l) (live_add i).

Definition live_del (i : nat) : M unit :=
  r ← run_of i;
  l ← gets w_lv;
  match n_live l with
  | O => fault
  | S m =>
      last ← live_at m;
      a ← store (live l) (live_pos r) last;
      modify (set_w_lv (Lvs a m));;
      mod_run last (set_live_pos (live_pos r))
  end.

(** The search without a table: the live services in order. *)
Fixpoint scan_pid (n k : nat) (p : Z) : M (option (nat * bool)) :=
  match n with
  | O => mret None
  | S n' =>
      j ← live_at k;
      r ← run_of j;
      if pid r =? p then mret (Some (j, false)) else
      if stale_pid r =? p then mret (Some (j, true)) else scan_pid n' (S k) p
  end.

(** The table operations on [pids]; without a table they do nothing. *)
Definition with_table (f : pidtab -> vres pidtab) : M unit :=
  t ← gets pids;
  match t with
  | None => mret tt
  | Some T =>
      match f T with
      | VOk T' => modify (set_pids (Some T'))
      | VDiverge => nofuel
      | _ => fault
      end
  end.

Definition pid_put_m (p : Z) (i : nat) : M unit := with_table (fun T => pid_put T p i).
Definition pid_del_m (p : Z) : M unit := with_table (fun T => pid_del T p).

(** The service a child belongs to and whether it is an abandoned instance. *)
Definition find_pid (p : Z) : M (option (nat * bool)) :=
  t ← gets pids;
  match t with
  | Some T =>
      match pid_find T p with
      | VOk (Some i) => r ← run_of i; mret (Some (i, negb (pid r =? p)))
      | VOk None => mret None
      | VDiverge => nofuel
      | _ => fault
      end
  | None => n ← n_live_of; scan_pid n 0 p
  end.

End Ops.

(** ** The live list as a set *)

Section Spec.
Context `{E : Env} `{!EnvOk E}.

Lemma lset_lookup l k : (n_live l <= length (live l))%nat ->
  lset l !! k = if decide (k < n_live l)%nat then live l !! k else None.
Proof.
  intros Hl. unfold lset. destruct (decide (k < n_live l)%nat).
  - by apply lookup_take_lt.
  - apply lookup_ge_None_2. rewrite length_take. lia.
Qed.

Lemma lset_nodup l rs : live_ok l rs -> NoDup (lset l).
Proof.
  intros HL. apply NoDup_alt. intros k k' i Hk Hk'.
  destruct (lo_pos _ _ HL k i Hk) as (r & Hr & <-), (lo_pos _ _ HL k' i Hk') as (r' & Hr' & <-).
  congruence.
Qed.

Lemma lset_bound l rs i : live_ok l rs -> i ∈ lset l -> exists r, rs !! i = Some r.
Proof.
  intros HL [k Hk]%list_elem_of_lookup. destruct (lo_pos _ _ HL k i Hk) as (r & Hr & _). eauto.
Qed.

(** Distinct indices below [n] that miss one leave room for it. *)
Lemma nodup_room (l : list nat) n i :
  NoDup l -> (forall j, j ∈ l -> (j < n)%nat) -> i ∉ l -> (i < n)%nat -> (length l < n)%nat.
Proof.
  intros Hnd Hb Hi Hn.
  assert (i :: l ⊆+ seq 0 n) as Hs.
  { apply NoDup_submseteq; [by constructor|]. intros j [->|Hj]%elem_of_cons; apply elem_of_seq; [lia|].
    specialize (Hb j Hj). lia. }
  apply submseteq_length in Hs. rewrite length_seq in Hs. simpl in Hs. lia.
Qed.

(** [live_has] decides membership and changes nothing. *)
Lemma live_has_spec x w i (Q : bool -> world -> Prop) : side x w -> (i < n_svc)%nat ->
  (forall b, (b = true <-> i ∈ lset (w_lv w)) -> Q b w) -> wp (live_has i) Q w.
Proof.
  intros HS Hi HQ. destruct (side_run _ w i HS Hi) as [r Hr]. unfold live_has.
  apply wp_bind. eapply wp_rd; [done|]. apply wp_bind, wp_gets.
  pose proof (sd_live _ _ HS) as HL. destruct HL as [Hlen Hn Hpos].
  assert (forall k, lset (w_lv w) !! k = Some i -> k = live_pos r) as Hu.
  { intros k Hk. destruct (Hpos k i Hk) as (r' & Hr' & <-). congruence. }
  pose proof (lset_lookup (w_lv w) (live_pos r) ltac:(lia)) as HL.
  destruct (decide (live_pos r < n_live (w_lv w))%nat) as [Hlt|Hge].
  - destruct (lookup_lt_is_Some_2 (live (w_lv w)) (live_pos r)) as [j Hj]; [lia|].
    apply wp_bind. eapply wp_rd; [done|]. apply wp_ret, HQ. rewrite Nat.eqb_eq. split.
    + intros ->. apply list_elem_of_lookup. exists (live_pos r). by rewrite HL.
    + intros [k Hk]%list_elem_of_lookup. pose proof (Hu k Hk) as ->. congruence.
  - apply wp_ret, HQ. split; [done|]. intros [k Hk]%list_elem_of_lookup.
    rewrite (Hu k Hk) in Hk. congruence.
Qed.

Lemma set_pos_mildx rs i r p : rs !! i = Some r -> Forall2 mildx rs (<[i := set_live_pos p r]> rs).
Proof.
  intros Hr. rewrite <- (list_insert_id rs i r Hr) at 1. apply Forall2_insert; [reflexivity|].
  by constructor.
Qed.

(** A service enters the list. *)
Lemma live_add_spec x w i (Q : unit -> world -> Prop) :
  side x w -> (i < n_svc)%nat -> i ∉ lset (w_lv w) ->
  (forall l' rs', lset l' = lset (w_lv w) ++ [i] -> Forall2 mildx (runs w) rs' ->
     side (if decide (x = Some i) then None else x) (set_w_lv l' (set_runs rs' w)) ->
     Q tt (set_w_lv l' (set_runs rs' w))) ->
  wp (live_add i) Q w.
Proof.
  intros HS Hi Hni HQ. destruct (side_run _ w i HS Hi) as [r Hr].
  pose proof (sd_live _ _ HS) as HL. pose proof (lset_nodup _ _ HL) as Hnd.
  assert (length (lset (w_lv w)) = n_live (w_lv w)) as Hlen.
  { unfold lset. rewrite length_take. destruct HL. lia. }
  assert (n_live (w_lv w) < n_svc)%nat as Hroom.
  { rewrite <- Hlen. apply (nodup_room _ _ i Hnd); [|done|done]. intros j Hj.
    destruct (lset_bound _ _ j HL Hj) as [rj Hrj]. apply lookup_lt_Some in Hrj.
    by rewrite (sd_runs _ _ HS) in Hrj. }
  destruct HL as [Hll Hn Hpos].
  unfold live_add. apply wp_bind, wp_gets. apply wp_bind, (wp_mod_run _ _ r); [done|].
  apply wp_bind, wp_store; [rewrite Hll; lia|]. apply wp_modify.
  set (l' := Lvs _ _). set (rs' := <[i:=_]> (runs w)).
  assert (lset l' = lset (w_lv w) ++ [i]) as Hl'.
  { unfold lset, l'. simpl. rewrite (take_S_r _ _ i) by (rewrite list_lookup_insert_eq; [done|lia]).
    by rewrite take_insert_ge. }
  assert (Forall2 mildx (runs w) rs') as HX by (by apply set_pos_mildx).
  apply (HQ l' rs'); [done|done|]. constructor; simpl.
  - constructor; simpl; rewrite ?length_insert; [done|lia|].
    intros k j Hk. rewrite Hl' in Hk. apply lookup_app_Some in Hk as [Hk|[Hge Hk]].
    + destruct (Hpos k j Hk) as (rj & Hrj & Hkj). exists rj. split; [|done].
      unfold rs'. rewrite list_lookup_insert_ne; [done|]. intros ->. apply Hni.
      apply list_elem_of_lookup. eauto.
    + apply list_lookup_singleton_Some in Hk as [Hk <-].
      exists (set_live_pos (n_live (w_lv w)) r). unfold rs'.
      rewrite list_lookup_insert_eq by (by apply lookup_lt_Some in Hr). split; [done|]. simpl. lia.
  - apply (sd_want _ _ HS).
  - unfold rs'. rewrite length_insert. apply (sd_runs _ _ HS).
  - intros j rj Hrj. destruct (Forall2_lookup_r _ _ _ _ _ HX Hrj) as (r0 & Hr0 & M).
    apply (svc_ok_mildx r0 _ _ _ M) with (2 := sd_svc _ _ HS j r0 Hr0).
    rewrite Hl'. intros [Hin|Hx]; [left; apply elem_of_app; by left|].
    destruct (decide (x = Some i)) as [Hxi|]; [|by right]. left. apply elem_of_app. right.
    rewrite Hxi in Hx. injection Hx as ->. apply list_elem_of_singleton. done.
  - apply (pids_ok_mildx _ (runs w)); [done|]. apply (sd_pids _ _ HS).
  - rewrite (ops_mildx (runs w)) by done. apply (sd_ops _ _ HS).
  - apply (sd_trace _ _ HS).
  - apply (sd_rotor _ _ HS).
  - apply (sd_log _ _ HS).
Qed.

(** A service of which nothing is left leaves it. *)
Lemma live_del_spec w i r (Q : unit -> world -> Prop) :
  side None w -> runs w !! i = Some r -> ~ busy r -> i ∈ lset (w_lv w) ->
  (forall l' rs', (forall j, j ∈ lset l' <-> j ∈ lset (w_lv w) /\ j <> i) ->
     S (n_live l') = n_live (w_lv w) -> Forall2 mildx (runs w) rs' ->
     side None (set_runs rs' (set_w_lv l' w)) -> Q tt (set_runs rs' (set_w_lv l' w))) ->
  wp (live_del i) Q w.
Proof.
  intros HS Hr Hnb Hin HQ. pose proof (sd_live _ _ HS) as HL. pose proof (lset_nodup _ _ HL) as Hnd.
  apply list_elem_of_lookup in Hin as [p Hp].
  destruct HL as [Hll Hn Hpos]. destruct (Hpos p i Hp) as (r0 & Hr0 & Hpr).
  rewrite Hr in Hr0. injection Hr0 as <-. subst p.
  rewrite lset_lookup in Hp by lia. destruct (decide (live_pos r < n_live (w_lv w))%nat); [|done].
  unfold live_del. apply wp_bind. eapply wp_rd; [done|]. apply wp_bind, wp_gets.
  destruct (n_live (w_lv w)) as [|m] eqn:Em; [lia|].
  destruct (lookup_lt_is_Some_2 (live (w_lv w)) m) as [last Hlast]; [lia|].
  apply wp_bind. eapply wp_rd; [done|]. apply wp_bind, wp_store; [lia|]. apply wp_bind, wp_modify.
  assert (forall k, lset (w_lv w) !! k = if decide (k < S m)%nat then live (w_lv w) !! k else None) as HLk.
  { intros k. rewrite lset_lookup by lia. by rewrite Em. }
  destruct (Hpos m last) as (rl & Hrl & Hrlm); [rewrite HLk; by rewrite decide_True by lia|].
  apply (wp_mod_run _ _ rl); [done|].
  set (l' := Lvs _ _). set (rs' := <[last:=_]> _). simpl.
  assert (Forall2 mildx (runs w) rs') as HX by (by apply set_pos_mildx).
  assert (forall k, lset l' !! k = if decide (k < m)%nat then
            if decide (k = live_pos r) then Some last else live (w_lv w) !! k else None) as HLk'.
  { intros k. rewrite lset_lookup by (simpl; rewrite length_insert; lia). unfold l'. simpl.
    destruct (decide (k < m)%nat); [|done]. destruct (decide (k = live_pos r)) as [->|].
    - rewrite list_lookup_insert_eq by lia. done.
    - by rewrite list_lookup_insert_ne by done. }
  assert (forall j, j ∈ lset l' <-> j ∈ lset (w_lv w) /\ j <> i) as Hmem.
  { intros j. rewrite !list_elem_of_lookup. split.
    - intros [k Hk]. rewrite HLk' in Hk. destruct (decide (k < m)%nat); [|done].
      destruct (decide (k = live_pos r)) as [->|Hne].
      + injection Hk as ->. split; [exists m; rewrite HLk; by rewrite decide_True by lia|].
        intros E0. rewrite E0, Hr in Hrl. injection Hrl as ->. lia.
      + split; [exists k; rewrite HLk; by rewrite decide_True by lia|]. intros ->.
        destruct (Hpos k i) as (r1 & Hr1 & Hk1); [rewrite HLk; by rewrite decide_True by lia|]. congruence.
    - intros [[k Hk] Hne]. rewrite HLk in Hk. destruct (decide (k < S m)%nat); [|done].
      destruct (decide (k = m)) as [->|].
      + exists (live_pos r). rewrite HLk'. assert (live_pos r <> m) by (intros E0; rewrite E0 in Hp; congruence).
        rewrite decide_True by lia. rewrite decide_True by done. congruence.
      + exists k. rewrite HLk'. rewrite decide_True by lia.
        rewrite decide_False; [done|]. congruence. }
  apply (HQ l' rs'); [done|done|done|]. constructor; simpl.
  - constructor; simpl; [by rewrite length_insert|lia|].
    intros k j Hk. rewrite HLk' in Hk. destruct (decide (k < m)%nat); [|done].
    destruct (decide (k = live_pos r)) as [->|Hne].
    + injection Hk as <-. exists (set_live_pos (live_pos r) rl). unfold rs'.
      by rewrite list_lookup_insert_eq by (by apply lookup_lt_Some in Hrl).
    + destruct (Hpos k j) as (rj & Hrj & Hkj); [rewrite HLk; by rewrite decide_True by lia|].
      exists rj. split; [|done]. unfold rs'. rewrite list_lookup_insert_ne; [done|].
      intros <-. rewrite Hrl in Hrj. injection Hrj as <-. lia.
  - apply (sd_want _ _ HS).
  - unfold rs'. rewrite length_insert. apply (sd_runs _ _ HS).
  - intros j rj Hrj. destruct (Forall2_lookup_r _ _ _ _ _ HX Hrj) as (r0 & Hr0 & M).
    pose proof (sd_svc _ _ HS j r0 Hr0) as Hok. destruct (decide (j = i)) as [->|Hne].
    + destruct (svc_ok_mildx r0 rj _ True M (fun _ => I) Hok). constructor; [done..| |done|done].
      intros Hb. exfalso. apply Hnb. replace r with r0 by congruence.
      by apply (busy_mild _ _ M).
    + apply (svc_ok_mildx r0 _ _ _ M) with (2 := Hok). intros [Hin|]; [|by right]. left.
      by apply Hmem.
  - apply (pids_ok_mildx _ (runs w)); [done|]. apply (sd_pids _ _ HS).
  - rewrite (ops_mildx (runs w)) by done. apply (sd_ops _ _ HS).
  - apply (sd_trace _ _ HS).
  - apply (sd_rotor _ _ HS).
  - apply (sd_log _ _ HS).
Qed.

(** ** Reading the list *)

Lemma live_at_spec x w k (Q : nat -> world -> Prop) : side x w -> (k < n_live (w_lv w))%nat ->
  (forall d, (d < n_svc)%nat -> live (w_lv w) !! k = Some d -> d ∈ lset (w_lv w) -> Q d w) ->
  wp (live_at k) Q w.
Proof.
  intros HS Hk HQ. pose proof (sd_live _ _ HS) as HL.
  destruct (lookup_lt_is_Some_2 (live (w_lv w)) k) as [d Hd]; [destruct HL; lia|].
  eapply wp_rd; [done|].
  assert (d ∈ lset (w_lv w)) as Hin.
  { apply list_elem_of_lookup. exists k. rewrite lset_lookup by (destruct HL; lia). by rewrite decide_True. }
  apply HQ; [|done|done]. destruct (lset_bound _ _ d HL Hin) as [r Hr].
  apply lookup_lt_Some in Hr. by rewrite (sd_runs _ _ HS) in Hr.
Qed.

(** A process that is found is the one its service knows. *)
Definition found (w : world) (p : Z) (f : option (nat * bool)) : Prop :=
  forall i b, f = Some (i, b) -> (i < n_svc)%nat /\ exists r, runs w !! i = Some r /\
    (if b then stale_pid r = p else pid r = p).

Lemma scan_pid_spec x w p n k : side x w -> (k + n <= n_live (w_lv w))%nat ->
  wp (scan_pid n k p) (fun f w' => w' = w /\ found w p f) w.
Proof.
  intros HS. revert k. induction n as [|n IH]; intros k Hk; simpl.
  { apply wp_ret. split; [done|]. by intros i b. }
  apply wp_bind. eapply live_at_spec; [done|lia|]. intros d Hd _ _.
  destruct (side_run _ w d HS Hd) as [r Hr]. apply wp_bind. eapply wp_rd; [done|].
  destruct (Z.eqb_spec (pid r) p).
  { apply wp_ret. split; [done|]. intros i b [= <- <-]. eauto. }
  destruct (Z.eqb_spec (stale_pid r) p); [|apply IH; lia].
  apply wp_ret. split; [done|]. intros i b [= <- <-]. eauto.
Qed.

Lemma find_pid_spec x w p : side x w -> 0 < p ->
  wp (find_pid p) (fun f w' => w' = w /\ found w p f) w.
Proof.
  intros HS Hp. unfold find_pid. apply wp_bind, wp_gets.
  pose proof (sd_pids _ _ HS) as HP. destruct (pids w) as [T|] eqn:ET.
  - destruct HP as (e & m & He & H1 & H2 & HR & Hm).
    rewrite (pid_find_spec e He T m p HR) by lia. destruct (m !! p) as [i|] eqn:Hi.
    + destruct (Hm p i Hi) as (_ & r & Hr & Hor). apply wp_bind. eapply wp_rd; [done|]. apply wp_ret.
      split; [done|]. intros j b [= <- <-]. apply lookup_lt_Some in Hr as Hl.
      rewrite (sd_runs _ _ HS) in Hl. split; [done|]. exists r. split; [done|].
      destruct (Z.eqb_spec (pid r) p); simpl; [done|]. by destruct Hor.
    + apply wp_ret. split; [done|]. by intros i b.
  - apply wp_bind, wp_gets. eapply scan_pid_spec; [done|lia].
Qed.

(** A change of one service, and of the count of operations. *)
Lemma side_update x w i r r' k : side x w -> runs w !! i = Some r -> live_pos r' = live_pos r ->
  svc_ok r' (i ∈ lset (w_lv w) \/ x = Some i) -> pids_ok (pids w) (<[i := r']> (runs w)) ->
  k = n_ops w - b2z (op_b r) + b2z (op_b r') ->
  side x (set_n_ops k (set_runs (<[i := r']> (runs w)) w)).
Proof.
  intros HS Hr Hl Hok HP Hk. pose proof (lookup_lt_Some _ _ _ Hr) as Hil. constructor; simpl.
  - destruct (sd_live _ _ HS) as [H1 H2 H3]. constructor; [done..|]. intros j d Hj.
    destruct (H3 j d Hj) as (rj & Hrj & <-). destruct (decide (i = d)) as [<-|].
    + exists r'. rewrite list_lookup_insert_eq by done. split; [done|]. congruence.
    + exists rj. by rewrite list_lookup_insert_ne.
  - apply (sd_want _ _ HS).
  - rewrite length_insert. apply (sd_runs _ _ HS).
  - intros j rj. destruct (decide (i = j)) as [<-|].
    + rewrite list_lookup_insert_eq by done. by intros [= <-].
    + rewrite list_lookup_insert_ne by done. apply (sd_svc _ _ HS).
  - done.
  - rewrite (cnt_insert op_b _ _ _ r Hr), <- (sd_ops _ _ HS). lia.
  - apply (sd_trace _ _ HS).
  - apply (sd_rotor _ _ HS).
  - apply (sd_log _ _ HS).
Qed.

(** A pid nothing is entered for any more may be forgotten. *)
Lemma pids_forget t rs i r r' p : rs !! i = Some r ->
  (forall q, q <> p -> pid r = q \/ stale_pid r = q -> pid r' = q \/ stale_pid r' = q) ->
  match t with
  | None => True
  | Some T => exists e m, 0 <= e /\ 4 * Z.of_nat n_svc <= 2 ^ e /\ 4 <= 2 ^ e /\
      repr e T m /\ (p <> 0 -> m !! p = None) /\
      forall q i, m !! q = Some i -> 0 < q /\ exists r, rs !! i = Some r /\ (pid r = q \/ stale_pid r = q)
  end -> pids_ok t (<[i := r']> rs).
Proof.
  intros Hr Hf. destruct t as [T|]; [|done]. intros (e & m & He & H1 & H2 & HR & Hp & Hm).
  exists e, m. split_ands; [done..|]. intros q j Hq. destruct (Hm q j Hq) as (Hq0 & rj & Hrj & Hor).
  split; [done|]. destruct (decide (i = j)) as [<-|].
  - exists r'. rewrite list_lookup_insert_eq by (by apply lookup_lt_Some in Hr). split; [done|].
    rewrite Hr in Hrj. injection Hrj as <-. apply Hf; [|done]. intros ->. rewrite Hp in Hq; [done|lia].
  - exists rj. by rewrite list_lookup_insert_ne.
Qed.

Lemma pids_keep t rs i r r' : rs !! i = Some r -> pid r' = pid r -> stale_pid r' = stale_pid r ->
  pids_ok t rs -> pids_ok t (<[i := r']> rs).
Proof.
  intros Hr E1 E2 HP. apply (pids_forget _ _ _ r _ 0); [done|by rewrite E1, E2|].
  destruct t; [|done]. destruct HP as (e & m & H1 & H2 & H3 & H4 & H5). exists e, m. by split_ands.
Qed.

End Spec.
