(* ===== verification/Cgroup.v ===== *)
(** * Control groups (src/cgroup.c)

    Every service has a control group named by its index; where the kernel has
    none, its process group stands in. *)

From S2P Require Import Prelude Ngraph World Sys Inv.

Definition SIGKILL : Z := 9.
Definition SIGTERM : Z := 15.

Definition CG_DIR : bytes := bs "/sys/fs/cgroup/ninit.services".

(** [sizeof(CG_DIR) + NG_MAX_NAME + 24] *)
Definition CG_PATH_MAX : Z := 30 + NG_MAX_NAME + 24.

(** The path of [leaf] in the group of service [i], [None] when it does not fit. *)
Definition cg_path (i : nat) (leaf : bytes) (cap : Z) : option bytes :=
  let p := CG_DIR ++ bs "/svc-" ++ dec (Z.of_nat i) ++ (if decide (leaf = []) then [] else bs "/") ++ leaf in
  if Z.of_nat (length p) <? cap then Some p else None.

(** [strstr], the text after the first occurrence of [pat]. *)
Fixpoint after (pat l : bytes) : option bytes :=
  if decide (take (length pat) l = pat) then Some (drop (length pat) l)
  else match l with [] => None | _ :: l' => after pat l' end.

Fixpoint skip_blanks (l : bytes) : bytes :=
  match l with
  | c :: l' => if (c =? 32) || (c =? 9) then skip_blanks l' else l
  | [] => []
  end.

(** The value of cgroup.events, 1 or 0, or -1 when there is none. *)
Definition populated_value (buf : bytes) : Z :=
  match after (bs "populated") (cut0 buf) with
  | None => -1
  | Some p => match skip_blanks p with c :: _ => b2z (c =? 49) | [] => 0 end
  end.

(** [strtoll(p, NULL, 10)] *)
Definition is_space (c : Z) : bool := (c =? 32) || ((9 <=? c) && (c <=? 13)).

Fixpoint skip_space (l : bytes) : bytes :=
  match l with
  | c :: l' => if is_space c then skip_space l' else l
  | [] => []
  end.

Fixpoint digits_value (l : bytes) (acc : Z) : Z :=
  match l with
  | c :: l' => if (48 <=? c) && (c <=? 57) then digits_value l' (acc * 10 + (c - 48)) else acc
  | [] => acc
  end.

Definition INT64_MAX : Z := 9223372036854775807.

Definition strtoll (l : bytes) : Z :=
  match skip_space l with
  | 45 :: l' => Z.max (- INT64_MAX - 1) (- digits_value l' 0)
  | 43 :: l' => Z.min INT64_MAX (digits_value l' 0)
  | l' => Z.min INT64_MAX (digits_value l' 0)
  end.

(** [(pid_t)x] *)
Definition s32 (x : Z) : Z := if u32 x <? 2147483648 then u32 x else u32 x - 4294967296.

(** The lines of a text and what follows the last newline. *)
Fixpoint split_lines (cur l : bytes) : list bytes * bytes :=
  match l with
  | [] => ([], cur)
  | c :: l' =>
      if c =? 10 then let '(ls, rest) := split_lines [] l' in (cur :: ls, rest)
      else split_lines (cur ++ [c]) l'
  end.

Section Ops.
Context `{Env}.

Definition kill (p sig : Z) : M unit := emit (EvKill p sig).

(** The directory of the group is made; the result is the path of cgroup.procs,
    empty when the service goes without a group. *)
Definition cgroup_make (i : nat) (cap : Z) : M bytes :=
  ok ← gets cg_ok;
  if negb ok then mret [] else
  nm ← name_of i;
  match cg_path i [] CG_PATH_MAX, cg_path i (bs "cgroup.procs") cap with
  | Some dir, Some procs =>
      e ← call (fun k => os_mkdir k dir);
      match e with
      | Some err =>
          if err =? EEXIST then mret procs else
          log_warn (nm ++ bs ": mkdir " ++ dir ++ bs ": " ++ os_strerror err ++ bs ", using its process group");;
          mret []
      | None => mret procs
      end
  | _, _ => log_warn (nm ++ bs ": cgroup path is too long, using its process group");; mret []
  end.

Definition cgroup_populated (i : nat) : M Z :=
  ok ← gets cg_ok;
  match cg_path i (bs "cgroup.events") CG_PATH_MAX with
  | Some path =>
      if negb ok then mret (-1) else
      f ← call (fun k => os_open k path);
      match f with
      | inr _ => mret (-1)
      | inl fd =>
          b ← call (fun k => os_fread k fd 255);
          match b with
          | RData buf => mret (populated_value buf)
          | _ => mret (-1)
          end
      end
  | None => mret (-1)
  end.

Definition cgroup_drop (i : nat) : M bool :=
  ok ← gets cg_ok;
  match cg_path i [] CG_PATH_MAX with
  | Some dir =>
      if negb ok then mret true else
      e ← call (fun k => os_rmdir k dir);
      match e with
      | None => mret true
      | Some err =>
          if err =? ENOENT then mret true else
          when (negb (err =? EBUSY))
            (nm ← name_of i; log_warn (nm ++ bs ": rmdir " ++ dir ++ bs ": " ++ os_strerror err));;
          mret false
      end
  | None => mret true
  end.

Definition cg_kill (i : nat) : M bool :=
  match cg_path i (bs "cgroup.kill") CG_PATH_MAX with
  | None => mret false
  | Some path =>
      f ← call (fun k => os_open k path);
      match f with
      | inr _ => mret false
      | inl fd =>
          n ← call (fun k => os_write k fd (bs "1"));
          match n with
          | inl 1 => emit (EvCgKill i);; mod_run i (set_cg_killed true);; mret true
          | _ => mret false
          end
      end
  end.

(** The processes named by whole lines get the signal. *)
Fixpoint signal_pids (ls : list bytes) (sig n : Z) : M Z :=
  match ls with
  | [] => mret n
  | l :: ls' =>
      let p := strtoll l in
      if 1 <? p then kill (s32 p) sig;; signal_pids ls' sig (n + 1)
      else signal_pids ls' sig n
  end.

(** cgroup.procs in chunks; [held] is the start of a line a chunk cut off. *)
Fixpoint signal_chunks (fuel : nat) (fd sig : Z) (held : bytes) (n : Z) : M Z :=
  match fuel with
  | O => nofuel
  | S fuel' =>
      b ← call (fun k => os_fread k fd (4096 - Z.of_nat (length held) - 1));
      match b with
      | RData buf =>
          let '(ls, rest) := split_lines [] (cut0 (held ++ buf)) in
          n ← signal_pids ls sig n;
          signal_chunks fuel' fd sig (if 4095 <=? Z.of_nat (length rest) then [] else rest) n
      | _ => mret n
      end
  end.

Definition cgroup_signal (i : nat) (sig : Z) : M Z :=
  ok ← gets cg_ok;
  if negb ok then mret (-1) else
  killed ← (if sig =? SIGKILL then cg_kill i else mret false);
  if (killed : bool) then mret 0 else
  match cg_path i (bs "cgroup.procs") CG_PATH_MAX with
  | None => mret (-1)
  | Some path =>
      f ← call (fun k => os_open k path);
      match f with
      | inr _ => mret (-1)
      | inl fd => signal_chunks os_patience fd sig [] 0
      end
  end.

End Ops.

(** ** The groups do not touch the bookkeeping *)

Section Spec.
Context `{E : Env} `{!EnvOk E}.

Lemma kill_tame p sig : tameM (kill p sig).
Proof. by apply tameM_emit. Qed.

Lemma cgroup_make_tame i cap : (i < n_svc)%nat -> tameM (cgroup_make i cap).
Proof. intros Hi. unfold cgroup_make. tame_tac. Qed.

Lemma cgroup_populated_tame i : tameM (cgroup_populated i).
Proof. unfold cgroup_populated. tame_tac. Qed.

Lemma cgroup_drop_tame i : (i < n_svc)%nat -> tameM (cgroup_drop i).
Proof. intros Hi. unfold cgroup_drop. tame_tac. Qed.

Lemma cg_kill_tame i : (i < n_svc)%nat -> tameM (cg_kill i).
Proof. intros Hi. unfold cg_kill. tame_tac; by apply tameM_emit. Qed.

(** The signals are sent without another system call in between. *)
Lemma signal_pids_spec ls sig n w :
  wp (signal_pids ls sig n) (fun _ w' => tame w w' /\ calls w' = calls w) w.
Proof.
  revert n w. induction ls as [|l ls IH]; intros n w; simpl; [by split|].
  destruct (1 <? strtoll l); [|apply IH]. apply wp_bind, wp_modify.
  eapply wp_mono; [apply IH|]. intros a w' [T Hc]. split; [|done].
  etrans; [|exact T]. by apply (tame_emit (EvKill (s32 (strtoll l)) sig)).
Qed.

(** The file ends, so the chunks do. *)
Lemma signal_chunks_spec fuel fd sig held n w :
  (exists k, (k < fuel)%nat /\ forall cap b, os_fread (calls w + k) fd cap <> RData b) ->
  wp (signal_chunks fuel fd sig held n) (fun _ w' => tame w w') w.
Proof.
  revert held n w. induction fuel as [|fuel IH]; intros held n w (k & Hk & Hend); [lia|]. simpl.
  apply wp_bind, wp_call.
  assert (tame w (set_calls (S (calls w)) w)) as T0 by (constructor; simpl; auto; reflexivity).
  destruct (os_fread (calls w) fd _) as [buf| |e] eqn:Er; [|by apply wp_ret..].
  destruct k as [|k]; [exfalso; rewrite Nat.add_0_r in Hend; by apply (Hend _ _ Er)|].
  destruct (split_lines [] (cut0 (held ++ buf))) as [ls rest].
  apply wp_bind. eapply wp_mono; [apply signal_pids_spec|]. intros n' w' [T Hc].
  eapply wp_mono.
  - apply IH. exists k. split; [lia|]. rewrite Hc. simpl. by rewrite <- Nat.add_succ_r.
  - intros a w'' T'. cbv beta in *. by do 2 (etrans; [eassumption|]).
Qed.

Lemma cgroup_signal_tame i sig : (i < n_svc)%nat -> tameM (cgroup_signal i sig).
Proof.
  intros Hi. unfold cgroup_signal. tame_tac; [by apply cg_kill_tame|].
  intros x w _. apply signal_chunks_spec. apply fread_ends.
Qed.

End Spec.

#[export] Hint Resolve kill_tame cgroup_make_tame cgroup_populated_tame cgroup_drop_tame
  cg_kill_tame cgroup_signal_tame : tame.
