(* ===== verification/Fail.v ===== *)
(** * Failures (src/fail.c, first half)

    How an exit status reads, what pid 1 does about a service that failed, and
    which services can no longer start because of it. *)

From S2P Require Import Prelude Ngraph World Sys Inv Cgroup.

Inductive fail_act := FAIL_RETRY | FAIL_WARN | FAIL_STOP | FAIL_SHELL.

Definition FAIL_ST_NOTIFY_HUP : Z := -1.
Definition FAIL_ST_TIMEOUT : Z := -2.

(** ** Wait statuses, as sys/wait.h takes them apart *)

Definition WTERMSIG (s : Z) : Z := Z.land s 127.
Definition WIFEXITED (s : Z) : bool := WTERMSIG s =? 0.
Definition WEXITSTATUS (s : Z) : Z := Z.land (Z.shiftr s 8) 255.
Definition WIFSIGNALED (s : Z) : bool := negb (WTERMSIG s =? 0) && negb (WTERMSIG s =? 127).
Definition WCOREDUMP (s : Z) : bool := negb (Z.land s 128 =? 0).

(** [signame], by signal number on Linux; 0 has no name. *)
Definition signame : list string :=
  [""; "HUP"; "INT"; "QUIT"; "ILL"; "TRAP"; "ABRT"; "BUS"; "FPE"; "KILL"; "USR1"; "SEGV"; "USR2";
   "PIPE"; "ALRM"; "TERM"; "STKFLT"; "CHLD"; "CONT"; "STOP"; "TSTP"; "TTIN"; "TTOU"; "URG";
   "XCPU"; "XFSZ"; "VTALRM"; "PROF"; "WINCH"; "IO"; "PWR"; "SYS"]%string.

(** [%x] of a 32-bit number. *)
Definition hex_digit (d : Z) : Z := if d <? 10 then 48 + d else 87 + d.

Fixpoint hex_digits (fuel : nat) (x : Z) (acc : bytes) : bytes :=
  match fuel with
  | O => acc
  | S fuel' =>
      let acc := hex_digit (x mod 16) :: acc in
      if x <? 16 then acc else hex_digits fuel' (x / 16) acc
  end.

Definition fail_describe (status : Z) : bytes :=
  if status =? FAIL_ST_NOTIFY_HUP then bs "closed its notify fd before reporting ready"
  else if status =? FAIL_ST_TIMEOUT then bs "timed out and was killed"
  else if WIFEXITED status then bs "exit " ++ dec (WEXITSTATUS status)
  else if WIFSIGNALED status then
    let core := if WCOREDUMP status then bs " (core dumped)" else [] in
    match signame !! Z.to_nat (WTERMSIG status) with
    | Some ab => bs "killed by SIG" ++ bs ab ++ core
    | None => bs "killed by signal " ++ dec (WTERMSIG status) ++ core
    end
  else bs "status " ++ (if u32 status =? 0 then bs "0" else bs "0x" ++ hex_digits 8 (u32 status) []).

(** ** What to do about a failed start *)

Section Raw.
Context `{Env}.

(** [str_cut] at newlines: every non-empty line of the text is logged. *)
Fixpoint log_lines (level : Z) (ls : list bytes) : M unit :=
  match ls with
  | [] => mret tt
  | l :: ls' =>
      when (negb (bool_decide (l = []))) (ninit_log level (cut0 l));;
      log_lines level ls'
  end.

Definition log_raw (level : Z) (text : bytes) : M unit :=
  let '(ls, rest) := split_lines [] text in log_lines level (ls ++ [rest]).

End Raw.

Definition verb_s (n : Z) : bytes := if n =? 1 then bs "s" else [].

Section Service.
Context `{Env}.

Definition svc_of (i : nat) : M ng_svc := lift (g_svc env_g !! i).

Definition fail_service (i : nat) (status attempt tries : Z) (tail : bytes) : M fail_act :=
  s ← svc_of i;
  name ← name_of i;
  let how := fail_describe status in
  if attempt <? tries then
    log_warn (name ++ bs ": failed (" ++ how ++ bs "), retrying (" ++ dec attempt ++ bs " of "
              ++ dec tries ++ bs ")");;
    mret FAIL_RETRY
  else
  log_err (name ++ bs ": failed " ++ dec attempt ++ bs " time" ++ plural attempt ++ bs " (" ++ how ++ bs ")");;
  when (negb (bool_decide (tail = []))) (log_raw LOG_FAIL tail);;
  restart ← lift (ng_restart env_g i);
  when restart
    (log_warn (name ++ bs ": restart applies after readiness, start-tries is " ++ dec tries));;
  policy ← lift (ng_onfail env_g i);
  if policy =? NG_ONFAIL_WARN then
    log_warn (name ++ bs ": no dependent services, continuing");; mret FAIL_WARN
  else if policy =? NG_ONFAIL_SHELL then
    log_err (name ++ bs ": " ++ dec (n_desc s) ++ bs " of " ++ dec (Z.of_nat n_svc)
             ++ bs " services depend" ++ verb_s (n_desc s) ++ bs " on it, starting emergency shell");;
    mret FAIL_SHELL
  else
    log_err (name ++ bs ": " ++ dec (n_desc s) ++ bs " service" ++ plural (n_desc s) ++ bs " depend"
             ++ verb_s (n_desc s) ++ bs " on it, stopping");;
    mret FAIL_STOP.

End Service.

(** ** Which services can no longer start *)

(** The states of the services, and the counts the caller is handed:
    [skipped], of which [waiting] were between start attempts, and [undone]
    targets that had completed. *)
Record poisoned := Poisoned {
  p_state : list svc_state;
  p_count : Z;
  p_undone : Z;
  p_waiting : Z;
}.

(** Whether [d] goes down with a prerequisite; [None] is a read out of bounds. *)
Definition poison_take (g : graph) (st : list svc_state) (up : list bool) (rs : list run) (d : nat)
    : option bool :=
  s ← st !! d;
  match s with
  | PENDING => Some true
  | RUNNING => r ← rs !! d; Some (negb (restart_at r =? 0) && (pid r <=? 0))
  | _ =>
      t ← is_target g d; u ← up !! d;
      Some (t && bool_decide (s = DONE) && negb u)
  end.

(** The body of the loop over the dependents. *)
Definition poison_dep (g : graph) (up : list bool) (rs : list run) (p : poisoned) (d : nat)
    : option poisoned :=
  take ← poison_take g (p_state p) up rs d;
  if negb take then Some p else
  s ← p_state p !! d;
  let st := <[d := SKIPPED]> (p_state p) in
  if decide (s = DONE) then Some (Poisoned st (p_count p) (u32 (p_undone p + 1)) (p_waiting p))
  else Some (Poisoned st (u32 (p_count p + 1)) (p_undone p)
               (u32 (p_waiting p + b2z (bool_decide (s = RUNNING))))).

(** A loop whose body may read out of bounds. *)
Fixpoint ofold {A B} (f : A -> B -> option A) (a : A) (l : list B) : option A :=
  match l with
  | [] => Some a
  | x :: l' => a' ← f a x; ofold f a' l'
  end.

Definition poison_deps_of (g : graph) (up : list bool) (rs : list run) (p : poisoned) (j : nat)
    : option poisoned :=
  ds ← succs g j; ofold (poison_dep g up rs) p ds.

Definition poison_at (g : graph) (up : list bool) (rs : list run) (p : poisoned) (j : nat)
    : option poisoned :=
  s ← p_state p !! j;
  if decide (s = FAILED \/ s = SKIPPED) then poison_deps_of g up rs p j else Some p.

(** One pass over the services from [from] on; edges run forward, so one is enough. *)
Definition poison_spread (g : graph) (up : list bool) (rs : list run) (from : nat) (p : poisoned)
    : option poisoned :=
  ofold (poison_at g up rs) p (seq from (g_n g - from)).

Definition fail_poison (g : graph) (i : nat) (st : list svc_state) (up : list bool) (rs : list run)
    : option poisoned :=
  if decide (i < length st)%nat then
    poison_spread g up rs i (Poisoned (<[i := FAILED]> st) 0 0 0)
  else None.

Definition fail_poison_deps (g : graph) (i : nat) (st : list svc_state) (up : list bool)
    (rs : list run) : option poisoned :=
  p ← poison_deps_of g up rs (Poisoned st 0 0 0) i;
  if (p_count p =? 0) && (p_undone p =? 0) then Some p else poison_spread g up rs (S i) p.

(** A fold whose body is defined and keeps [I] is defined and keeps [I]. *)
Lemma ofold_total {A B} (I : A -> Prop) (f : A -> B -> option A) l a :
  (forall a x, x ∈ l -> I a -> exists a', f a x = Some a' /\ I a') -> I a ->
  exists a', ofold f a l = Some a' /\ I a'.
Proof.
  revert a. induction l as [|x l IH]; intros a Hf Ha; simpl; [by eauto|].
  destruct (Hf a x) as (a1 & -> & H1); [by left|done|]. simpl.
  apply IH; [|done]. intros b y Hy. apply Hf. by right.
Qed.

Lemma ofold_app {A B} (f : A -> B -> option A) l1 l2 a :
  ofold f a (l1 ++ l2) = (a' ← ofold f a l1; ofold f a' l2).
Proof.
  revert a. induction l1 as [|x l1 IH]; intros a; simpl; [done|].
  destruct (f a x); simpl; [apply IH|done].
Qed.

(** ** The report at the end of the boot *)

Section Summary.
Context `{Env}.

Definition fail_summary : M unit :=
  st ← gets (fun w => state (w_ctr w));
  let failed := cnt (fun s => bool_decide (s = FAILED)) (take n_svc st) in
  let skipped := cnt (fun s => bool_decide (s = SKIPPED)) (take n_svc st) in
  if (failed =? 0) && (skipped =? 0) then mret tt else
  ninit_log (if failed =? 0 then LOG_WARN else LOG_FAIL)
    (bs "boot: " ++ dec failed ++ bs " service" ++ plural failed ++ bs " failed, " ++ dec skipped
     ++ bs " never started");;
  mfor n_svc 0 (fun i => s ← st_of i;
    when (bool_decide (s = FAILED))
      (nm ← name_of i; log_err (bs "boot: " ++ nm ++ bs " failed")));;
  mfor n_svc 0 (fun i => s ← st_of i;
    when (bool_decide (s = SKIPPED))
      (nm ← name_of i; log_warn (bs "boot: skipped " ++ nm))).

End Summary.

(** ** What giving up does to the states *)

Section Poison.
Context `{E : Env} `{!EnvOk E}.
Context (ups : list bool) (rs : list run) (Hups : length ups = n_svc) (Hrs : length rs = n_svc).

(** The counts tell how the states changed. *)
Record accounts (st0 : list svc_state) (p : poisoned) : Prop := Accounts {
  ac_len : length (p_state p) = n_svc;
  ac_running : cnt (is_st RUNNING) (p_state p) = cnt (is_st RUNNING) st0 - p_waiting p;
  ac_pending : cnt (is_st PENDING) (p_state p) = cnt (is_st PENDING) st0 - (p_count p - p_waiting p);
  ac_done : cnt (is_st DONE) (p_state p) = cnt (is_st DONE) st0 - p_undone p;
  ac_waiting : 0 <= p_waiting p <= p_count p;
  ac_undone : 0 <= p_undone p;
  ac_root : forall r, is_root r -> p_state p !! r = st0 !! r;
}.

Lemma poison_take_total st d : length st = n_svc -> (d < n_svc)%nat ->
  exists b, poison_take env_g st ups rs d = Some b.
Proof.
  intros Hst Hd. unfold poison_take.
  destruct (lookup_lt_is_Some_2 st d) as [s ->]; [lia|]. simpl.
  destruct (lookup_lt_is_Some_2 rs d) as [r ->]; [lia|].
  destruct (lookup_lt_is_Some_2 ups d) as [u ->]; [lia|].
  destruct (target_lookup d Hd) as [t ->]. simpl. destruct s; eauto.
Qed.

(** What is taken was pending, between attempts, or a completed target that is down. *)
Lemma poison_take_state st d s : poison_take env_g st ups rs d = Some true -> st !! d = Some s ->
  s = PENDING \/ s = RUNNING \/ s = DONE.
Proof.
  unfold poison_take. intros Ht Hs. rewrite Hs in Ht. simpl in Ht.
  destruct s; auto; destruct (is_target env_g d) as [[]|]; simpl in Ht; try done;
    destruct (ups !! d) as [[]|]; done.
Qed.

Lemma poison_dep_accounts st0 p q d : length st0 = n_svc -> edge env_g q d -> accounts st0 p ->
  exists p', poison_dep env_g ups rs p d = Some p' /\ accounts st0 p'.
Proof.
  intros H0 He HA. destruct (edge_bound q d He) as [_ Hd].
  pose proof HA as HA'. destruct HA' as [H1 H2 H3 H4 H5 H6 H7].
  unfold poison_dep. destruct (poison_take_total (p_state p) d H1 Hd) as [b Hb].
  rewrite Hb. simpl. destruct b; simpl; [|by eauto].
  destruct (lookup_lt_is_Some_2 (p_state p) d) as [s Hs]; [lia|]. rewrite Hs. simpl.
  pose proof (poison_take_state _ _ _ Hb Hs) as Hcase.
  pose proof (cnt_insert (is_st RUNNING) _ d SKIPPED s Hs) as C1.
  pose proof (cnt_insert (is_st PENDING) _ d SKIPPED s Hs) as C2.
  pose proof (cnt_insert (is_st DONE) _ d SKIPPED s Hs) as C3.
  pose proof (cnt_is_st_bound RUNNING st0 H0). pose proof (cnt_is_st_bound PENDING st0 H0).
  pose proof (cnt_is_st_bound DONE st0 H0). pose proof (cnt_range (is_st RUNNING) (p_state p)).
  pose proof (cnt_range (is_st PENDING) (p_state p)). pose proof (cnt_range (is_st DONE) (p_state p)).
  unfold is_st in C1, C2, C3.
  assert (forall r, is_root r -> <[d:=SKIPPED]> (p_state p) !! r = st0 !! r) as Hroot.
  { intros r Hr. rewrite list_lookup_insert_ne; [by apply H7|]. intros ->. by apply (Hr q). }
  destruct Hcase as [-> | [-> | ->]]; simpl in *; eexists; (split; [done|]);
    constructor; simpl; rewrite ?length_insert, ?u32_small; try done; unfold is_st in *; lia.
Qed.

Lemma poison_deps_accounts st0 p j : length st0 = n_svc -> (j < n_svc)%nat -> accounts st0 p ->
  exists p', poison_deps_of env_g ups rs p j = Some p' /\ accounts st0 p'.
Proof.
  intros H0 Hj HA. unfold poison_deps_of. destruct (succs_lookup j Hj) as (ds & Hds & _). rewrite Hds. simpl.
  apply ofold_total; [|done]. intros p1 d Hd. apply (poison_dep_accounts _ _ j); [done|]. by exists ds.
Qed.

Lemma poison_spread_accounts st0 from p : length st0 = n_svc -> accounts st0 p ->
  exists p', poison_spread env_g ups rs from p = Some p' /\ accounts st0 p'.
Proof.
  intros H0 HA. unfold poison_spread. apply ofold_total; [|done]. intros p1 j Hj HA1.
  assert (j < n_svc)%nat as Hjn by (apply elem_of_seq in Hj; unfold n_svc; lia).
  unfold poison_at. destruct (lookup_lt_is_Some_2 (p_state p1) j) as [s ->].
  { by rewrite (ac_len _ _ HA1). }
  simpl. case_decide; [by apply poison_deps_accounts|by eauto].
Qed.

Lemma fail_poison_accounts st i : length st = n_svc -> (i < n_svc)%nat ->
  exists p, fail_poison env_g i st ups rs = Some p /\ accounts (<[i := FAILED]> st) p.
Proof.
  intros Hst Hi. unfold fail_poison. rewrite decide_True by lia.
  apply poison_spread_accounts; [by rewrite length_insert|].
  constructor; simpl; rewrite ?length_insert; done || lia.
Qed.

Lemma fail_poison_deps_accounts st i : length st = n_svc -> (i < n_svc)%nat ->
  exists p, fail_poison_deps env_g i st ups rs = Some p /\ accounts st p.
Proof.
  intros Hst Hi. unfold fail_poison_deps.
  destruct (poison_deps_accounts st (Poisoned st 0 0 0) i) as (p & -> & HA); [done..| |].
  { constructor; simpl; done || lia. }
  simpl. destruct (_ && _); [by eauto|]. by apply poison_spread_accounts.
Qed.

End Poison.

Section Spec.
Context `{E : Env} `{!EnvOk E}.

Lemma log_lines_tame level ls : 0 <= level -> tameM (log_lines level ls).
Proof. intros Hl. induction ls as [|l ls IH]; simpl; tame_tac. Qed.

Lemma log_raw_tame level text : 0 <= level -> tameM (log_raw level text).
Proof. intros Hl. unfold log_raw. destruct (split_lines [] text). by apply log_lines_tame. Qed.

Hint Resolve log_raw_tame : tame.

Lemma fail_service_tame i status attempt tries t :
  (i < n_svc)%nat -> tameM (fail_service i status attempt tries t).
Proof.
  intros Hi. unfold fail_service, svc_of.
  tame_tac; apply tameM_lift; [by apply svc_lookup|by apply onfail_lookup].
Qed.

End Spec.

#[export] Hint Resolve log_raw_tame fail_service_tame : tame.

(** * Giving up on a service, as a whole (src/fail.c)

    What [fail_poison] computes with one pass over the services: the least set
    of services to skip that leaves no dependent of a failed or skipped service
    waiting for ever. *)

Section Closure.
Context `{E : Env} `{!EnvOk E}.
Context (ups : list bool) (rs : list run).

Abbreviation take_of := (fun st d => poison_take env_g st ups rs d).

(** A service others cannot count on any more. *)
Definition lost (st : list svc_state) (j : nat) : Prop := st !! j = Some FAILED \/ st !! j = Some SKIPPED.

(** The states only change to skipped, of services that could not go on. *)
Definition worse (st st' : list svc_state) : Prop := forall d,
  st' !! d = st !! d \/ (st' !! d = Some SKIPPED /\ take_of st d = Some true).

(** What is skipped between [st] and [st'] has a lost prerequisite among [j >= from]. *)
Definition caused (from : nat) (st st' : list svc_state) : Prop := forall d,
  st' !! d = st !! d \/ exists j, (from <= j)%nat /\ edge env_g j d /\ lost st' j.

(** No dependent of [j] is left waiting. *)
Definition settled (st : list svc_state) (j : nat) : Prop :=
  lost st j -> forall d, edge env_g j d -> take_of st d <> Some true.

Lemma take_ext st st' d : st !! d = st' !! d -> take_of st d = take_of st' d.
Proof. intros E0. unfold poison_take. by rewrite E0. Qed.

Lemma take_skipped st d : st !! d = Some SKIPPED -> take_of st d <> Some true.
Proof.
  unfold poison_take. intros ->. simpl. destruct (is_target env_g d) as [t|]; [|done]. simpl.
  destruct (ups !! d) as [u|]; [|done]. simpl. by destruct t.
Qed.

#[export] Instance worse_refl : Reflexive worse.
Proof. intros st d. by left. Qed.

#[export] Instance worse_trans : Transitive worse.
Proof.
  intros s1 s2 s3 H1 H2 d. destruct (H2 d) as [E2|[E2 T2]], (H1 d) as [E1|[E1 T1]].
  - left. congruence.
  - right. split; [congruence|done].
  - right. split; [done|]. by rewrite <- (take_ext s2 s1).
  - right. by split.
Qed.

Lemma worse_lost st st' j : worse st st' -> lost st j -> lost st' j.
Proof. intros HW HL. destruct (HW j) as [E1|[E1 _]]; unfold lost in *; [by rewrite E1|by right]. Qed.

(** What cannot be skipped stays so. *)
Lemma worse_take st st' d : worse st st' -> take_of st d <> Some true -> take_of st' d <> Some true.
Proof. intros HW Ht. destruct (HW d) as [E1|[_ T1]]; [by rewrite (take_ext st' st)|done]. Qed.

Lemma caused_trans from s1 s2 s3 : worse s2 s3 -> caused from s1 s2 -> caused from s2 s3 -> caused from s1 s3.
Proof.
  intros HW H1 H2 d. destruct (H2 d) as [E2|?]; [|by right]. destruct (H1 d) as [E1|(j & Hj & He & HL)].
  - left. congruence.
  - right. exists j. split_ands; [done|done|]. by apply (worse_lost s2).
Qed.

(** One dependent. *)
Lemma poison_dep_worse p p' d : poison_dep env_g ups rs p d = Some p' ->
  worse (p_state p) (p_state p') /\ take_of (p_state p') d <> Some true /\
  forall k, k <> d -> p_state p' !! k = p_state p !! k.
Proof.
  unfold poison_dep. destruct (poison_take _ _ _ _ _) as [[]|] eqn:Ht; simpl; [|intros [= <-]; split_ands; try done; by rewrite Ht|done].
  destruct (p_state p !! d) as [s|] eqn:Hs; [|done]. simpl.
  assert (d < length (p_state p))%nat as Hl by (by apply lookup_lt_Some in Hs).
  intros Hp'. assert (p_state p' = <[d:=SKIPPED]> (p_state p)) as ->.
  { destruct (decide (s = DONE)); by injection Hp' as <-. }
  split_ands.
  - intros k. destruct (decide (k = d)) as [->|]; [right|left; by rewrite list_lookup_insert_ne].
    split; [by rewrite list_lookup_insert_eq|done].
  - apply take_skipped. by rewrite list_lookup_insert_eq.
  - intros k Hk. by rewrite list_lookup_insert_ne.
Qed.

(** The dependents of a lost service. *)
Lemma poison_row_worse from j ds p p' : ofold (poison_dep env_g ups rs) p ds = Some p' ->
  (from <= j)%nat -> lost (p_state p) j -> (forall d, d ∈ ds -> edge env_g j d) ->
  worse (p_state p) (p_state p') /\ caused from (p_state p) (p_state p') /\
  (forall d, d ∈ ds -> take_of (p_state p') d <> Some true) /\
  forall k, k ∉ ds -> p_state p' !! k = p_state p !! k.
Proof.
  intros Hf Hj HL. revert p HL Hf. induction ds as [|d ds IH]; intros p HL Hf He; simpl in Hf.
  { injection Hf as <-. split_ands; [done|by intros d; left|intros d Hd; by apply not_elem_of_nil in Hd|done]. }
  destruct (poison_dep env_g ups rs p d) as [p1|] eqn:H1; [|done]. simpl in Hf.
  destruct (poison_dep_worse _ _ _ H1) as (W1 & T1 & K1).
  destruct (IH p1) as (W2 & C2 & T2 & K2); [by apply (worse_lost (p_state p))|done| |].
  { intros k Hk. apply He. by right. }
  split_ands.
  - by trans (p_state p1).
  - apply (caused_trans _ _ (p_state p1)); [done| |done]. intros k.
    destruct (decide (k = d)) as [->|]; [|left; by apply K1]. right. exists j.
    split_ands; [done|apply He; by left|by apply (worse_lost (p_state p))].
  - intros k [->|Hk]%elem_of_cons; [by apply (worse_take (p_state p1))|by apply T2].
  - intros k Hk. apply not_elem_of_cons in Hk as [Hk1 Hk2]. by rewrite K2, K1.
Qed.

(** One service of the pass. *)
Lemma poison_at_worse from j p p' : poison_at env_g ups rs p j = Some p' -> (from <= j)%nat ->
  worse (p_state p) (p_state p') /\ caused from (p_state p) (p_state p') /\ settled (p_state p') j /\
  forall k, (k <= j)%nat -> p_state p' !! k = p_state p !! k.
Proof.
  unfold poison_at. intros Hp Hj. destruct (p_state p !! j) as [s|] eqn:Hs; [|done]. simpl in Hp.
  destruct (decide _) as [Hor|Hn].
  - unfold poison_deps_of in Hp. destruct (succs env_g j) as [ds|] eqn:Hds; [|done]. simpl in Hp.
    assert (lost (p_state p) j) as HL by (unfold lost; rewrite Hs; destruct Hor as [-> | ->]; auto).
    destruct (poison_row_worse from j ds p p' Hp Hj HL) as (W & C & T & K); [intros d Hd; by exists ds|].
    split_ands; [done|done| |].
    + intros _ d (l & Hl & Hd). apply T. congruence.
    + intros k Hk. apply K. intros Hin. destruct (succs_lookup j) as (l & Hl & HF & _).
      { by eapply succs_bound. }
      simplify_eq. rewrite Forall_forall in HF. specialize (HF k Hin). lia.
  - injection Hp as <-. split_ands; [done|by intros d; left| |done].
    intros [HL|HL] d _; rewrite Hs in HL; injection HL as ->; tauto.
Qed.

Lemma settled_worse st st' j : worse st st' -> st' !! j = st !! j -> settled st j -> settled st' j.
Proof.
  intros HW E0 HS HL d He. apply (worse_take st); [done|]. apply HS; [|done]. unfold lost in *. by rewrite <- E0.
Qed.

(** The pass. *)
Lemma poison_pass_worse from n k p p' : ofold (poison_at env_g ups rs) p (seq k n) = Some p' -> (from <= k)%nat ->
  worse (p_state p) (p_state p') /\ caused from (p_state p) (p_state p') /\
  (forall j, (k <= j < k + n)%nat -> settled (p_state p') j) /\
  forall j, (j <= k)%nat -> p_state p' !! j = p_state p !! j.
Proof.
  revert k p. induction n as [|n IH]; intros k p Hf Hk; simpl in Hf.
  { injection Hf as <-. split_ands; [done|by intros d; left|lia|done]. }
  destruct (poison_at env_g ups rs p k) as [p1|] eqn:H1; [|done]. simpl in Hf.
  destruct (poison_at_worse from k _ _ H1 Hk) as (W1 & C1 & S1 & K1).
  destruct (IH (S k) p1 Hf) as (W2 & C2 & S2 & K2); [lia|]. split_ands.
  - by trans (p_state p1).
  - by apply (caused_trans _ _ (p_state p1)).
  - intros j Hj. destruct (decide (j = k)) as [->|]; [|apply S2; lia].
    apply (settled_worse (p_state p1)); [done|apply K2; lia|done].
  - intros j Hj. rewrite K2 by lia. by apply K1.
Qed.

(** The five states share out the services. *)
Lemma cnt_states (st : list svc_state) :
  cnt (is_st PENDING) st + cnt (is_st RUNNING) st + cnt (is_st DONE) st + cnt (is_st FAILED) st
    + cnt (is_st SKIPPED) st = Z.of_nat (length st).
Proof. induction st as [|s st IH]; [done|]. destruct s; cbn [cnt length]; unfold is_st at 1 3 5 7 9; simpl; lia. Qed.

(** Nothing that had failed is forgotten. *)
Lemma worse_failed st st' : length st = length st' -> worse st st' -> cnt (is_st FAILED) st' = cnt (is_st FAILED) st.
Proof.
  intros Hl HW. apply cnt_pointwise; [done|]. intros d x y Hx Hy. destruct (HW d) as [E0|[E0 T0]]; [congruence|].
  rewrite Hx in E0. injection E0 as ->.
  destruct (poison_take_state ups rs st d y T0 Hy) as [-> | [-> | ->]]; done.
Qed.

(** C40. [fail_poison] marks the service failed and skips exactly what has to be
    skipped: each skipped service could have been waiting and has a failed or
    skipped prerequisite, and afterwards no dependent of a failed or skipped
    service from [i] on is left waiting; the counts it returns account for every
    change of state. *)
Theorem fail_poison_least st i : length ups = n_svc -> length rs = n_svc -> length st = n_svc -> (i < n_svc)%nat ->
  exists p, fail_poison env_g i st ups rs = Some p /\
    p_state p !! i = Some FAILED /\
    (forall d, d <> i -> p_state p !! d = st !! d \/
       (p_state p !! d = Some SKIPPED /\ poison_take env_g st ups rs d = Some true /\
        exists j, (i <= j)%nat /\ edge env_g j d /\ lost (p_state p) j)) /\
    (forall j d, (i <= j)%nat -> lost (p_state p) j -> edge env_g j d ->
       poison_take env_g (p_state p) ups rs d <> Some true) /\
    p_count p + p_undone p = cnt (is_st SKIPPED) (p_state p) - cnt (is_st SKIPPED) (<[i := FAILED]> st).
Proof.
  intros Hu Hr Hst Hi. destruct (fail_poison_accounts ups rs Hu Hr st i Hst Hi) as (p & Hp & HA).
  exists p. split; [done|]. unfold fail_poison in Hp. rewrite decide_True in Hp by lia. unfold poison_spread in Hp.
  destruct (poison_pass_worse i _ i _ p Hp) as (W & C & S0 & K); [lia|]. simpl in *. split_ands.
  - rewrite K by lia. apply list_lookup_insert_eq. lia.
  - intros d Hd. destruct (W d) as [E0|[E0 T0]]; [left; by rewrite E0, list_lookup_insert_ne|].
    destruct (C d) as [E1|?]; [left; by rewrite E1, list_lookup_insert_ne|]. right. split_ands; [done| |done].
    by rewrite (take_ext st (<[i:=FAILED]> st)) by (by rewrite list_lookup_insert_ne).
  - intros j d Hj HL He. destruct (edge_bound j d He) as [Hjn _]. apply (S0 j); [|done|done].
    unfold n_svc in *. lia.
  - pose proof (worse_failed (<[i:=FAILED]> st) (p_state p)) as HF. destruct HA as [L R P0 D _ _ _].
    pose proof (cnt_states (p_state p)). pose proof (cnt_states (<[i:=FAILED]> st)).
    rewrite length_insert in *. rewrite HF in * by (done || lia). lia.
Qed.

End Closure.
