(* ===== verification/Emerg.v ===== *)
(** * The emergency shell (src/fail.c, second half)

    A shell on the console when the boot cannot go on. It is restarted when it
    ends, and given up when it cannot be started or ends at once again and
    again. *)

From S2P Require Import Prelude Ngraph Repeat Logged World Sys Inv Fail.

Definition EMERG_FAST_MS : Z := 1000.
Definition EMERG_FAST_MAX : Z := 5.
Definition EMERG_FAIL_MAX : Z := 5.
Definition EMERG_NOEXEC_MAX : Z := 2.
Definition EMERG_EXEC_MS : Z := 5000.
Definition EMERG_RETRY_MS : Z := 2000.
Definition EMERG_NOEXEC : Z := 127.

Definition EMERG_EXEC_FAILED : Z := -1.
Definition EMERG_EXEC_UNKNOWN : Z := 0.
Definition EMERG_EXEC_OK : Z := 1.

Section Ops.
Context `{Env}.

Definition em : M emerg := gets w_emerg.
Definition mod_em (f : emerg -> emerg) : M unit :=
  modify (fun w => set_w_emerg (f (w_emerg w)) w).

Definition emerg_greet : M unit :=
  e ← em;
  if emerg_greeted e then mret tt else
  mod_em (set_emerg_greeted true);;
  log_done (bs "shell: started on the console, exit with reboot or poweroff");;
  log_note (bs "shell: 'ninitctl resume' retries failed services");;
  log_note (bs "shell: 'ninitctl init' takes effect on the next boot").

Definition emerg_settle (st err : Z) : M unit :=
  mod_em (set_emerg_conf st);;
  if st =? EMERG_EXEC_FAILED then
    log_err (bs "shell: cannot exec a shell: " ++ os_strerror err);;
    mod_em (fun e => set_emerg_noexec (u8 (emerg_noexec e + 1)) e);;
    e ← em;
    when (EMERG_NOEXEC_MAX <=? emerg_noexec e)
      (mod_em (set_emerg_gone true);;
       log_err (bs "shell: giving up, no shell can be started"))
  else
  mod_em (set_emerg_fail 0);;
  if negb (st =? EMERG_EXEC_OK) then mret tt else
  mod_em (set_emerg_noexec 0);;
  emerg_greet.

(** The read end of the pipe a failed exec reports on. *)
Definition emerg_bar_close : M unit :=
  mod_em (set_emerg_bar (-1));;
  mod_em (set_emerg_conf_at 0).

(** [do n = read(...); while(n < 0 && errno == EINTR)] *)
Fixpoint read_intr (fuel : nat) (fd cap : Z) : M rdres :=
  match fuel with
  | O => nofuel
  | S fuel' =>
      b ← call (fun k => os_read k fd cap);
      match b with
      | RErr e => if e =? EINTR then read_intr fuel' fd cap else mret b
      | _ => mret b
      end
  end.

(** [errs[1]] of the two 32-bit words the child wrote. *)
Definition errs_1 (b : bytes) : Z :=
  match drop 4 b with
  | [b0; b1; b2; b3] => b0 + 256 * (b1 + 256 * (b2 + 256 * b3))
  | _ => 0
  end.

Definition fail_emergency_report : M unit :=
  e ← em;
  if emerg_bar e <? 0 then mret tt else
  b ← read_intr os_patience (emerg_bar e) 8;
  match b with
  | RErr _ => mret tt
  | REof => emerg_bar_close;; emerg_settle EMERG_EXEC_OK 0
  | RData d =>
      emerg_bar_close;;
      if negb (Z.of_nat (length d) =? 8) then
        log_warn (bs "shell: truncated exec status, state unknown");;
        emerg_settle EMERG_EXEC_UNKNOWN 0
      else
        log_err (bs "shell: exec /bin/sh: " ++ os_strerror (errs_1 d));;
        emerg_settle EMERG_EXEC_FAILED (errs_1 d)
  end.

(** 0 when a shell runs, -1 when none could be started. *)
Definition emerg_start : M Z :=
  mod_em (set_emerg_pid (-1));;
  c ← call os_console;
  match c with
  | inr err => log_err (bs "shell: no console available: " ++ os_strerror err);; mret (-1)
  | inl con =>
      p ← call os_pipe;
      match p with
      | inr err => log_err (bs "shell: pipe: " ++ os_strerror err);; mret (-1)
      | inl (bar_r, _) =>
          f ← call os_shell;
          match f with
          | inr err => log_err (bs "shell: fork: " ++ os_strerror err);; mret (-1)
          | inl p =>
              t ← call os_clock;
              mod_em (set_emerg_at t);;
              mod_em (set_emerg_pid p);;
              mod_em (set_emerg_conf EMERG_EXEC_UNKNOWN);;
              mod_em (set_emerg_bar bar_r);;
              now ← now_ms;
              mod_em (set_emerg_conf_at (now + EMERG_EXEC_MS));;
              mret 0
          end
      end
  end.

Definition emerg_restart : M unit :=
  rc ← emerg_start;
  if rc =? 0 then mret tt else
  mod_em (fun e => set_emerg_fail (u8 (emerg_fail e + 1)) e);;
  e ← em;
  if EMERG_FAIL_MAX <=? emerg_fail e then
    mod_em (set_emerg_gone true);;
    log_err (bs "shell: giving up after " ++ dec (emerg_fail e) ++ bs " attempts")
  else
  now ← now_ms;
  mod_em (set_emerg_retry_at (now + EMERG_RETRY_MS));;
  log_err (bs "shell: not running, retrying in " ++ dec EMERG_RETRY_MS ++ bs " ms").

Definition fail_emergency_due : M Z :=
  now ← now_ms;
  e ← em;
  let best := if emerg_conf_at e =? 0 then -1 else ms_until (emerg_conf_at e) now in
  mret (if negb (emerg_retry_at e =? 0) && negb (emerg_gone e)
        then ms_sooner best (ms_until (emerg_retry_at e) now) else best).

Definition fail_emergency_tick : M unit :=
  e ← em;
  (if emerg_conf_at e =? 0 then mret tt else
   now ← now_ms;
   when (emerg_conf_at e <=? now)
     (mod_em (set_emerg_conf_at 0);;
      log_warn (bs "shell: no exec status after " ++ dec (EMERG_EXEC_MS / 1000) ++ bs " s, state unknown");;
      emerg_settle EMERG_EXEC_UNKNOWN 0));;
  e ← em;
  if (emerg_retry_at e =? 0) || emerg_gone e then mret tt else
  now ← now_ms;
  if now <? emerg_retry_at e then mret tt else
  mod_em (set_emerg_retry_at 0);;
  if 0 <? emerg_pid e then mret tt else emerg_restart.

Definition fail_emergency_shell (why : bytes) : M unit :=
  log_err why;;
  e ← em;
  if emerg_gone e then mret tt else
  if 0 <? emerg_pid e then log_warn (bs "shell: already running") else
  emerg_restart.

(** Whether the child was the shell. *)
Definition fail_emergency_reaped (p status : Z) : M bool :=
  e ← em;
  if (p <=? 0) || negb (p =? emerg_pid e) then mret false else
  mod_em (set_emerg_pid (-1));;
  fail_emergency_report;;
  emerg_bar_close;;
  e ← em;
  ms ← mono_ms_since (emerg_at e);
  let how := fail_describe status in
  gone ← (if EMERG_FAST_MS <=? ms then mod_em (set_emerg_fast 0);; mret false
          else
            mod_em (fun e => set_emerg_fast (u8 (emerg_fast e + 1)) e);;
            e ← em;
            if EMERG_FAST_MAX <=? emerg_fast e then
              mod_em (set_emerg_gone true);;
              log_err (bs "shell: exited immediately " ++ dec (emerg_fast e) ++ bs " times (" ++ how
                       ++ bs "), not restarting");;
              log_err (bs "shell: giving up, no shell can be started");;
              mret true
            else mret false);
  if (gone : bool) then mret true else
  when (negb (WIFEXITED status && (WEXITSTATUS status =? EMERG_NOEXEC)))
    (log_warn (bs "shell: exited (" ++ how ++ bs ")"));;
  e ← em;
  if emerg_gone e then mret true else
  emerg_restart;; mret true.

End Ops.

(** ** The shell does not touch the bookkeeping *)

Section Spec.
Context `{E : Env} `{!EnvOk E}.

Lemma em_tame : tameM em.
Proof. apply tameM_gets. Qed.

Lemma mod_em_tame f : tameM (mod_em f).
Proof. apply tameM_modify. intros w. constructor; simpl; auto. reflexivity. Qed.

Hint Resolve em_tame mod_em_tame : tame.

Lemma emerg_settle_tame st err : tameM (emerg_settle st err).
Proof. unfold emerg_settle, emerg_greet. tame_tac. Qed.

Lemma emerg_bar_close_tame : tameM emerg_bar_close.
Proof. unfold emerg_bar_close. tame_tac. Qed.

Lemma read_intr_spec fuel fd cap w :
  (exists k, (k < fuel)%nat /\ forall cap, os_read (calls w + k) fd cap <> RErr EINTR) ->
  wp (read_intr fuel fd cap) (fun _ w' => tame w w') w.
Proof.
  revert w. induction fuel as [|fuel IH]; intros w (k & Hk & Hend); [lia|]. simpl.
  apply wp_bind, wp_call.
  assert (tame w (set_calls (S (calls w)) w)) as T0 by (constructor; simpl; auto; reflexivity).
  destruct (os_read (calls w) fd cap) as [buf| |e] eqn:Er; [by apply wp_ret..|].
  destruct (Z.eqb_spec e EINTR) as [->|]; [|by apply wp_ret].
  destruct k as [|k]; [exfalso; rewrite Nat.add_0_r in Hend; by apply (Hend _ Er)|].
  eapply wp_mono.
  - apply IH. exists k. split; [lia|]. simpl. by rewrite <- Nat.add_succ_r.
  - intros a w' T'. cbv beta in *. by etrans.
Qed.

Lemma read_intr_tame fd cap : tameM (read_intr os_patience fd cap).
Proof. intros x w _. apply read_intr_spec, ok_intr. Qed.

Hint Resolve emerg_settle_tame emerg_bar_close_tame read_intr_tame : tame.

Lemma fail_emergency_report_tame : tameM fail_emergency_report.
Proof. unfold fail_emergency_report. tame_tac. Qed.

Lemma emerg_start_tame : tameM emerg_start.
Proof. unfold emerg_start. tame_tac. Qed.

Hint Resolve fail_emergency_report_tame emerg_start_tame : tame.

Lemma emerg_restart_tame : tameM emerg_restart.
Proof. unfold emerg_restart. tame_tac. Qed.

Hint Resolve emerg_restart_tame : tame.

Lemma fail_emergency_tick_tame : tameM fail_emergency_tick.
Proof. unfold fail_emergency_tick. tame_tac. Qed.

Lemma fail_emergency_shell_tame why : tameM (fail_emergency_shell why).
Proof. unfold fail_emergency_shell. tame_tac. Qed.

Lemma fail_emergency_reaped_tame p status : tameM (fail_emergency_reaped p status).
Proof. unfold fail_emergency_reaped, mono_ms_since. tame_tac. Qed.

End Spec.

#[export] Hint Resolve em_tame fail_emergency_report_tame fail_emergency_tick_tame
  fail_emergency_shell_tame fail_emergency_reaped_tame : tame.

(** * The emergency shell gives up in the end (src/fail.c)

    The counters of failed starts, of shells that ended at once and of failed
    execs stay below their limits while the shell is tried again, and a shell
    that has been given up is never started again. *)

Lemma u8_small x : 0 <= x < 256 -> u8 x = x.
Proof. apply Z.mod_small. Qed.

(** The counters while the shell is tried. *)
Definition em_ok (e : emerg) : Prop := emerg_gone e = false ->
  0 <= emerg_fail e < EMERG_FAIL_MAX /\ 0 <= emerg_fast e < EMERG_FAST_MAX /\
  0 <= emerg_noexec e < EMERG_NOEXEC_MAX.

(** Giving up is final: no shell is started after it. *)
Record em_step (e e' : emerg) : Prop := EmStep {
  es_ok : em_ok e';
  es_gone : emerg_gone e = true -> emerg_gone e' = true;
  es_pid : emerg_gone e = true -> emerg_pid e' = emerg_pid e \/ emerg_pid e' = -1;
}.

Lemma em_step_refl e : em_ok e -> em_step e e.
Proof. constructor; auto. Qed.

Lemma em_step_trans e1 e2 e3 : em_step e1 e2 -> em_step e2 e3 -> em_step e1 e3.
Proof.
  intros [A1 A2 A3] [B1 B2 B3]. constructor; [done|auto|]. intros H. destruct (B3 (A2 H)) as [E0|]; [|by right].
  rewrite E0. auto.
Qed.

Section Shell.
Context `{E : Env} `{!EnvOk E}.

(** A handler all of whose runs are such steps. *)
Definition emM {A} (m : M A) : Prop := forall w, em_ok (w_emerg w) -> log_ok (w_log w) ->
  wp m (fun _ w' => em_step (w_emerg w) (w_emerg w') /\ log_ok (w_log w')) w.

Lemma emM_bind {A B} (m : M A) (f : A -> M B) : emM m -> (forall a, emM (f a)) -> emM (m ≫= f).
Proof.
  intros Hm Hf w Hw HL. apply wp_bind. eapply wp_mono; [by apply Hm|]. intros a w1 [S1 L1].
  eapply wp_mono; [apply Hf, L1; apply S1|]. intros b w2 [S2 L2]. split; [by apply (em_step_trans _ (w_emerg w1))|done].
Qed.

(** Runs a handler step by step. *)
Ltac em_run := repeat (cbv beta zeta; match goal with
  | |- wp (mret _) _ _ => apply wp_ret
  | |- wp (_ ≫= _) _ _ => apply wp_bind
  | |- wp em _ _ => apply wp_gets
  | |- wp (mod_em _) _ _ => apply wp_modify
  | |- wp (log_err _) _ _ => apply ninit_log_wp; [done|assumption|intros ???]
  | |- wp (log_warn _) _ _ => apply ninit_log_wp; [done|assumption|intros ???]
  | |- wp (log_note _) _ _ => apply ninit_log_wp; [done|assumption|intros ???]
  | |- wp (log_done _) _ _ => apply ninit_log_wp; [done|assumption|intros ???]
  | |- wp (call _) _ _ => apply wp_call
  | |- wp now_ms _ _ => unfold now_ms
  | |- wp (mono_ms_since _) _ _ => unfold mono_ms_since
  | |- wp (if ?b then _ else _) _ _ => destruct b eqn:?
  | |- wp (when _ _) _ _ => apply wp_when; intros ?
  | |- wp (match ?x with _ => _ end) _ _ => destruct x eqn:?
  end).

(** What is left speaks of one record of the shell. *)
Ltac em_leaf :=
  split; [|assumption];
  unfold em_ok, EMERG_FAIL_MAX, EMERG_FAST_MAX, EMERG_NOEXEC_MAX in *; simpl in *;
  constructor; unfold em_ok, EMERG_FAIL_MAX, EMERG_FAST_MAX, EMERG_NOEXEC_MAX; simpl; try done; try congruence; auto;
  intros Hgone; repeat match goal with H : emerg_gone _ = false -> _ |- _ => specialize (H Hgone) end;
  rewrite ?u8_small in * by lia; lia.

Lemma emerg_settle_em st err : emM (emerg_settle st err).
Proof. intros w Hw HL. unfold emerg_settle, emerg_greet. em_run. all: em_leaf. Qed.

Lemma emerg_bar_close_em : emM emerg_bar_close.
Proof. intros w Hw HL. unfold emerg_bar_close. em_run. em_leaf. Qed.

Lemma read_intr_em fd cap : emM (read_intr os_patience fd cap).
Proof.
  assert (forall fuel w, (exists k, (k < fuel)%nat /\ forall cap, os_read (calls w + k) fd cap <> RErr EINTR) ->
    wp (read_intr fuel fd cap) (fun _ w' => w_emerg w' = w_emerg w /\ w_log w' = w_log w) w) as Hr.
  { induction fuel as [|fuel IH]; intros w (k & Hk & Hend); [lia|]. simpl. apply wp_bind, wp_call.
    destruct (os_read (calls w) fd cap) as [buf| |e] eqn:Er; [by apply wp_ret..|].
    destruct (Z.eqb_spec e EINTR) as [->|]; [|by apply wp_ret].
    destruct k as [|k]; [exfalso; rewrite Nat.add_0_r in Hend; by apply (Hend _ Er)|].
    eapply wp_mono; [apply IH; exists k; split; [lia|]; simpl; by rewrite <- Nat.add_succ_r|]. done. }
  intros w Hw HL. eapply wp_mono; [apply Hr, ok_intr|]. intros b w' [E0 E1]. rewrite E0, E1. split; [by apply em_step_refl|done].
Qed.

(** Steps that leave the shell alone. *)
Lemma emM_same {A} (m : M A) : (forall w, wp m (fun _ w' => w_emerg w' = w_emerg w /\ w_log w' = w_log w) w) -> emM m.
Proof. intros Hm w Hw HL. eapply wp_mono; [apply Hm|]. intros a w' [E0 E1]. rewrite E0, E1. split; [by apply em_step_refl|done]. Qed.

Lemma emM_ret {A} (a : A) : emM (mret a).
Proof. by apply emM_same. Qed.

Lemma emM_log level body : 0 <= level -> emM (ninit_log level body).
Proof. intros Hl w Hw HL. apply ninit_log_wp; [done..|]. intros n L HL'. split; [by apply em_step_refl|done]. Qed.

Lemma emM_em : emM em.
Proof. by apply emM_same. Qed.

Lemma fail_emergency_report_em : emM fail_emergency_report.
Proof.
  unfold fail_emergency_report. apply emM_bind; [apply emM_em|]. intros e.
  destruct (emerg_bar e <? 0); [apply emM_ret|]. apply emM_bind; [apply read_intr_em|]. intros [d| |]; [..|apply emM_ret].
  - apply emM_bind; [apply emerg_bar_close_em|]. intros _.
    destruct (negb _); (apply emM_bind; [by apply emM_log|]; intros _; apply emerg_settle_em).
  - apply emM_bind; [apply emerg_bar_close_em|]. intros _. apply emerg_settle_em.
Qed.

(** What the limits are about. *)
Definition em_counts (e : emerg) : Z * Z * Z * bool :=
  (emerg_fail e, emerg_fast e, emerg_noexec e, emerg_gone e).

Lemma em_counts_ok e e' : em_counts e' = em_counts e -> em_ok e -> em_ok e'.
Proof. unfold em_counts, em_ok. intros [= -> -> -> ->]. done. Qed.

(** Starting a shell counts nothing. *)
Lemma emerg_start_counts w : log_ok (w_log w) ->
  wp emerg_start (fun _ w' => em_counts (w_emerg w') = em_counts (w_emerg w) /\ log_ok (w_log w')) w.
Proof. intros HL. unfold emerg_start. em_run; split; reflexivity || assumption. Qed.

(** Another attempt, of a shell that has not been given up. *)
Lemma emerg_restart_em w : em_ok (w_emerg w) -> log_ok (w_log w) -> emerg_gone (w_emerg w) = false ->
  wp emerg_restart (fun _ w' => em_ok (w_emerg w') /\ log_ok (w_log w')) w.
Proof.
  intros Hw HL Hg. unfold emerg_restart. apply wp_bind. eapply wp_mono; [by apply emerg_start_counts|].
  intros rc w1 [H1 L1]. apply (em_counts_ok _ _ H1) in Hw. destruct (rc =? 0); [by apply wp_ret|].
  injection H1 as _ _ _ Hg1. rewrite Hg in Hg1. destruct (Hw Hg1) as (Hf & Hq & Hn).
  apply wp_bind, wp_modify, wp_bind, wp_gets.
  assert (forall x, emerg_fail (w_emerg (set_w_emerg (set_emerg_fail x (w_emerg w1)) w1)) = x) as -> by done.
  rewrite u8_small by (unfold EMERG_FAIL_MAX in Hf; lia).
  destruct (Z.leb_spec EMERG_FAIL_MAX (emerg_fail (w_emerg w1) + 1)).
  - apply wp_bind, wp_modify. by apply ninit_log_wp.
  - apply wp_bind. unfold now_ms. apply wp_call, wp_bind, wp_modify. apply ninit_log_wp; [done..|].
    intros n L HL'. split; [|done]. intros _. simpl. split; [lia|by split].
Qed.

(** The decision to try again reads whether the shell has been given up. *)
Lemma emerg_retry_em {A} (a b : A) : emM (e ← em; if emerg_gone e then mret a else emerg_restart;; mret b).
Proof.
  intros w Hw HL. apply wp_bind, wp_gets. destruct (emerg_gone (w_emerg w)) eqn:Hg.
  - apply wp_ret. split; [by apply em_step_refl|done].
  - apply wp_bind. eapply wp_mono; [by apply emerg_restart_em|]. intros [] w' [Hw' HL']. apply wp_ret.
    split; [|done]. constructor; [done|congruence|congruence].
Qed.

Lemma fail_emergency_shell_em why : emM (fail_emergency_shell why).
Proof.
  unfold fail_emergency_shell. apply emM_bind; [by apply emM_log|]. intros _ w Hw HL. apply wp_bind, wp_gets.
  destruct (emerg_gone (w_emerg w)) eqn:Hg; [apply wp_ret; split; [by apply em_step_refl|done]|].
  destruct (0 <? emerg_pid (w_emerg w)); [by apply emM_log|].
  eapply wp_mono; [by apply emerg_restart_em|]. intros [] w' [Hw' HL']. split; [|done]. constructor; [done|congruence|congruence].
Qed.

Lemma fail_emergency_tick_em : emM fail_emergency_tick.
Proof.
  unfold fail_emergency_tick. apply emM_bind; [apply emM_em|]. intros e0. apply emM_bind.
  - destruct (emerg_conf_at e0 =? 0); [apply emM_ret|]. apply emM_bind; [by apply emM_same|]. intros now.
    destruct (emerg_conf_at e0 <=? now); simpl; [|apply emM_ret].
    apply emM_bind; [intros w Hw HL; em_run; em_leaf|]. intros _. apply emM_bind; [by apply emM_log|]. intros _.
    apply emerg_settle_em.
  - intros _ w Hw HL. apply wp_bind, wp_gets.
    destruct (emerg_gone (w_emerg w)) eqn:Hg; [rewrite orb_true_r; apply wp_ret; split; [by apply em_step_refl|done]|].
    rewrite orb_false_r. destruct (emerg_retry_at (w_emerg w) =? 0); [apply wp_ret; split; [by apply em_step_refl|done]|].
    apply wp_bind. unfold now_ms. apply wp_call. destruct (_ <? _); [apply wp_ret; split; [by apply em_step_refl|done]|].
    apply wp_bind, wp_modify. destruct (0 <? emerg_pid _); [apply wp_ret; em_leaf|].
    eapply wp_mono; [apply emerg_restart_em; [exact Hw|exact HL|exact Hg]|].
    intros [] w' [Hw' HL']. split; [|done]. constructor; [done|congruence|congruence].
Qed.

Lemma fail_emergency_reaped_em p status : emM (fail_emergency_reaped p status).
Proof.
  unfold fail_emergency_reaped. apply emM_bind; [apply emM_em|]. intros e0.
  destruct (_ || _); [apply emM_ret|]. apply emM_bind; [intros w Hw HL; em_run; em_leaf|]. intros _.
  apply emM_bind; [apply fail_emergency_report_em|]. intros _.
  apply emM_bind; [apply emerg_bar_close_em|]. intros _.
  apply emM_bind; [apply emM_em|]. intros e1. apply emM_bind; [by apply emM_same|]. intros ms.
  cbv zeta. apply emM_bind; [intros w Hw HL; em_run; em_leaf|]. intros [|]; [apply emM_ret|].
  apply emM_bind; [destruct (negb _); [by apply emM_log|apply emM_ret]|]. intros _. apply emerg_retry_em.
Qed.

(** The emergency shell is tried a bounded number of times: while it has
    not been given up, fewer than five starts in a row failed, fewer than five
    shells in a row ended within a second and fewer than two execs in a row
    failed. Each of its entry points returns, keeps these bounds, and once the
    shell is given up leaves it so and starts no process for it. *)
Theorem emergency_bounded w p status why : em_ok (w_emerg w) -> log_ok (w_log w) ->
  (exists w', fail_emergency_shell why w = Ok tt w' /\ em_step (w_emerg w) (w_emerg w')) /\
  (exists w', fail_emergency_tick w = Ok tt w' /\ em_step (w_emerg w) (w_emerg w')) /\
  (exists w', fail_emergency_report w = Ok tt w' /\ em_step (w_emerg w) (w_emerg w')) /\
  (exists w' b, fail_emergency_reaped p status w = Ok b w' /\ em_step (w_emerg w) (w_emerg w')).
Proof.
  intros Hw HL. pose proof (fail_emergency_shell_em why w Hw HL) as H1. pose proof (fail_emergency_tick_em w Hw HL) as H2.
  pose proof (fail_emergency_report_em w Hw HL) as H3. pose proof (fail_emergency_reaped_em p status w Hw HL) as H4.
  unfold wp in *. split_ands.
  - destruct (fail_emergency_shell why w) as [[] w'| | |]; try done. destruct_and?. eauto.
  - destruct (fail_emergency_tick w) as [[] w'| | |]; try done. destruct_and?. eauto.
  - destruct (fail_emergency_report w) as [[] w'| | |]; try done. destruct_and?. eauto.
  - destruct (fail_emergency_reaped p status w) as [b w'| | |]; try done. destruct_and?. eauto.
Qed.

End Shell.
