(* ===== verification/Output.v ===== *)
(** * The output of the services (src/drain.c, first half)

    What a service writes is kept twice: the last [TAIL_CAP] bytes, for the
    message that it failed, and the current line, which is logged when it ends
    or fills up. *)

From S2P Require Import Prelude Ngraph PidMap World Sys Inv Live Cgroup.

Definition KILL_GRACE_MS : Z := 2000.
Definition DRAIN_POLL_CHUNKS : nat := 16.
Definition DRAIN_BUDGET : Z := 262144.
Definition DRAIN_FINAL_CHUNKS : nat := 64.

(** The tail after [buf] arrives. *)
Definition absorb_tail (t buf : bytes) : bytes :=
  if TAIL_CAP <=? zlen buf then drop (Z.to_nat (zlen buf - TAIL_CAP)) buf
  else if TAIL_CAP <? zlen t + zlen buf then
    let keep := TAIL_CAP - zlen buf in drop (Z.to_nat (zlen t - keep)) t ++ buf
  else t ++ buf.

Section Ops.
Context `{Env}.

Definition close_fds (i : nat) : M unit :=
  r ← run_of i;
  when (0 <=? out_fd r) (mod_run i (set_out_fd (-1)));;
  r ← run_of i;
  when (0 <=? ntf_fd r) (mod_run i (set_ntf_fd (-1))).

(** Nothing of the service is left to wait for. *)
Definition idle (r : run) : bool :=
  (pid r =? 0) && (stale_pid r =? 0) && (out_fd r <? 0) && (ntf_fd r <? 0)
  && (restart_at r =? 0) && bool_decide (op r = OP_NONE).

Definition maybe_free (i : nat) : M unit :=
  r ← run_of i;
  if negb (idle r) then mret tt else
  l ← live_has i;
  when l (cgroup_drop i;; live_del i).

Definition flush_line (i : nat) : M unit :=
  r ← run_of i;
  when (negb (bool_decide (r_line r = [])))
    (nm ← name_of i; log_note (nm ++ bs ": " ++ cut0 (r_line r)));;
  mod_run i (set_r_line []).

(** [while(seg)]: the segment goes to the line buffer, which is logged when it
    is full. Every turn takes at least one byte. *)
Fixpoint put_seg (fuel : nat) (i : nat) (seg : bytes) : M unit :=
  match seg with
  | [] => mret tt
  | _ :: _ =>
      match fuel with
      | O => nofuel
      | S fuel' =>
          r ← run_of i;
          let room := LINE_CAP - zlen (r_line r) in
          when (room =? 0) (flush_line i);;
          let room := if room =? 0 then LINE_CAP else room in
          let take_n := Z.to_nat (if zlen seg <? room then zlen seg else room) in
          mod_run i (fun r => set_r_line (r_line r ++ take take_n seg) r);;
          put_seg fuel' i (drop take_n seg)
      end
  end.

Fixpoint absorb_lines (i : nat) (ls : list bytes) : M unit :=
  match ls with
  | [] => mret tt
  | l :: ls' => put_seg (length l) i l;; flush_line i;; absorb_lines i ls'
  end.

Definition absorb (i : nat) (buf : bytes) : M unit :=
  mod_run i (fun r => set_r_tail (absorb_tail (r_tail r) buf) r);;
  let '(ls, rest) := split_lines [] buf in
  absorb_lines i ls;; put_seg (length rest) i rest.

Fixpoint drain_out (i : nat) (chunks : nat) (budgeted : bool) : M unit :=
  match chunks with
  | O => mret tt
  | S chunks' =>
      r ← run_of i;
      if out_fd r <? 0 then mret tt else
      left_ ← gets drain_left;
      if budgeted && (left_ =? 0) then modify (set_drain_rotor i) else
      let take_n := if budgeted && (left_ <? 4096) then left_ else 4096 in
      b ← call (fun k => os_read k (out_fd r) take_n);
      match b with
      | RData buf =>
          when budgeted (modify (set_drain_left (u32 (left_ - zlen buf))));;
          absorb i buf;;
          drain_out i chunks' budgeted
      | RErr e =>
          if e =? EINTR then drain_out i chunks' budgeted
          else if e =? EAGAIN then mret tt
          else mod_run i (set_out_fd (-1));; flush_line i;; drain_out i chunks' budgeted
      | REof => mod_run i (set_out_fd (-1));; flush_line i;; drain_out i chunks' budgeted
      end
  end.

End Ops.

(** ** The output does not touch the bookkeeping *)

Section Spec.
Context `{E : Env} `{!EnvOk E}.

Lemma close_fds_tame i : (i < n_svc)%nat -> tameM (close_fds i).
Proof. intros Hi. unfold close_fds. tame_tac. Qed.

(** A run with one field changed, in a mild way. *)
Lemma mod_run_tame_spec w i r f (Q : unit -> world -> Prop) : runs w !! i = Some r -> mild r (f r) ->
  (forall w', tame w w' -> runs w' !! i = Some (f r) -> calls w' = calls w -> Q tt w') ->
  wp (mod_run i f) Q w.
Proof.
  intros Hr Hm HQ. apply (wp_mod_run _ _ r); [done|]. apply HQ; [|simpl|done].
  - constructor; simpl; auto. by apply (runs_mild _ _ r).
  - by rewrite list_lookup_insert_eq by (by apply lookup_lt_Some in Hr).
Qed.

(** Afterwards both descriptors are closed. *)
Lemma close_fds_spec x w i (Q : unit -> world -> Prop) : side x w -> (i < n_svc)%nat ->
  (forall w' r, tame w w' -> runs w' !! i = Some r -> out_fd r < 0 -> ntf_fd r < 0 -> Q tt w') ->
  wp (close_fds i) Q w.
Proof.
  intros HS Hi HQ. destruct (side_run _ w i HS Hi) as [r Hr]. unfold close_fds.
  apply wp_bind. eapply wp_rd; [done|]. apply wp_bind.
  apply (wp_mono _ (fun _ w' => tame w w' /\ exists r, runs w' !! i = Some r /\ out_fd r < 0)).
  { destruct (Z.leb_spec 0 (out_fd r)); simpl.
    - apply (mod_run_tame_spec _ _ r); [done|by constructor|]. intros w1 T1 Hr1 _. split; [done|].
      exists (set_out_fd (-1) r). split; [done|simpl; lia].
    - apply wp_ret. split; [reflexivity|]. eauto. }
  intros [] w1 (T1 & r1 & Hr1 & Ho1). apply wp_bind. eapply wp_rd; [done|].
  destruct (Z.leb_spec 0 (ntf_fd r1)); simpl.
  - apply (mod_run_tame_spec _ _ r1); [done|by constructor|]. intros w2 T2 Hr2 _.
    apply (HQ w2 (set_ntf_fd (-1) r1)); [by etrans|done|done|simpl; lia].
  - apply wp_ret. by apply (HQ w1 r1).
Qed.

Lemma flush_line_tame i : (i < n_svc)%nat -> tameM (flush_line i).
Proof. intros Hi. unfold flush_line. tame_tac. Qed.

Hint Resolve flush_line_tame : tame.

Lemma flush_line_spec x w i (Q : unit -> world -> Prop) : side x w -> (i < n_svc)%nat ->
  (forall w' r, tame w w' -> runs w' !! i = Some r -> r_line r = [] -> Q tt w') ->
  wp (flush_line i) Q w.
Proof.
  intros HS Hi HQ. unfold flush_line. apply wp_bind. eapply wp_tame; [by apply tameM_run_of|done|].
  intros r w1 T1. pose proof (tame_side _ _ _ T1 HS) as HS1. apply wp_bind.
  eapply wp_tame; [|done|].
  { apply tameM_when. intros _. tame_tac. }
  intros [] w2 T2. pose proof (tame_side _ _ _ T2 HS1) as HS2.
  destruct (side_run _ w2 i HS2 Hi) as [r2 Hr2].
  apply (mod_run_tame_spec _ _ r2); [done|by constructor|]. intros w3 T3 Hr3 _.
  apply (HQ w3 (set_r_line [] r2)); [|done|done]. do 2 (etrans; [eassumption|]). done.
Qed.

Lemma put_seg_tame fuel i seg : (i < n_svc)%nat -> (length seg <= fuel)%nat -> tameM (put_seg fuel i seg).
Proof.
  intros Hi. revert seg. induction fuel as [|fuel IH]; intros [|c seg] Hf; simpl in *; try lia;
    try apply tameM_ret.
  intros x w HS. destruct (side_run _ w i HS Hi) as [r Hr]. apply wp_bind. eapply wp_rd; [done|].
  pose proof (so_line _ _ (sd_svc _ _ HS i r Hr)) as Hline. pose proof (Nat2Z.is_nonneg (length (r_line r))).
  apply wp_bind.
  apply (wp_mono _ (fun _ w' => tame w w' /\ exists r', runs w' !! i = Some r' /\
    zlen (r_line r') = if LINE_CAP - zlen (r_line r) =? 0 then 0 else zlen (r_line r))).
  { destruct (Z.eqb_spec (LINE_CAP - zlen (r_line r)) 0); simpl.
    - eapply flush_line_spec; [done..|]. intros w1 r1 T1 Hr1 E1. split; [done|]. exists r1. by rewrite E1.
    - apply wp_ret. split; [reflexivity|]. eauto. }
  intros [] w1 (T1 & r1 & Hr1 & E1). set (room := if _ =? 0 then LINE_CAP else _).
  assert (zlen (r_line r1) + room = LINE_CAP /\ 0 < room) as [Hroom Hpos].
  { unfold room. destruct (Z.eqb_spec (LINE_CAP - zlen (r_line r)) 0); unfold zlen, LINE_CAP in *; lia. }
  set (k := Z.to_nat (if _ <? room then _ else room)).
  assert (0 < Z.of_nat k <= room) as [Hk1 Hk2].
  { unfold k. destruct (Z.ltb_spec (zlen (c :: seg)) room); unfold zlen in *; simpl in *; lia. }
  apply wp_bind, (mod_run_tame_spec _ _ r1); [done| |].
  { constructor; simpl; auto. intros _. unfold zlen in *. rewrite length_app, length_take. lia. }
  intros w2 T2 _ _. eapply wp_tame; [apply IH| |].
  - rewrite length_drop. simpl. lia.
  - apply (tame_side _ w1); [done|]. by apply (tame_side _ w).
  - intros a w3 T3. do 2 (etrans; [eassumption|]). done.
Qed.

Lemma absorb_lines_tame i ls : (i < n_svc)%nat -> tameM (absorb_lines i ls).
Proof.
  intros Hi. induction ls as [|l ls IH]; simpl; tame_tac. by apply put_seg_tame.
Qed.

(** The tail never outgrows its buffer. *)
Lemma absorb_tail_bound t buf : zlen t <= TAIL_CAP -> zlen (absorb_tail t buf) <= TAIL_CAP.
Proof.
  intros Ht. unfold absorb_tail.
  destruct (Z.leb_spec TAIL_CAP (zlen buf)); [unfold zlen in *; rewrite length_drop; unfold TAIL_CAP in *; lia|].
  destruct (Z.ltb_spec TAIL_CAP (zlen t + zlen buf)); unfold zlen in *; rewrite length_app, ?length_drop; lia.
Qed.

Lemma absorb_tame i buf : (i < n_svc)%nat -> tameM (absorb i buf).
Proof.
  intros Hi. unfold absorb. apply tameM_bind.
  - apply tameM_mod_run; [done|]. intros r. constructor; simpl; auto. apply absorb_tail_bound.
  - intros _. destruct (split_lines [] buf) as [ls rest]. apply tameM_bind; [by apply absorb_lines_tame|].
    intros _. by apply put_seg_tame.
Qed.

Hint Resolve absorb_tame : tame.

Lemma drain_out_tame i chunks budgeted : (i < n_svc)%nat -> tameM (drain_out i chunks budgeted).
Proof. intros Hi. induction chunks as [|c IH]; simpl; tame_tac. Qed.

(** A service of which nothing is left leaves the live list. *)
Lemma idle_busy r : idle r = true -> ~ busy r.
Proof.
  unfold idle. rewrite !andb_true_iff, !Z.eqb_eq, !Z.ltb_lt, bool_decide_eq_true.
  intros [[[[[H1 H2] H3] H4] H5] H6] Hb. unfold busy in Hb. destruct Hb as [?|[?|[?|[?|?]]]]; lia || done.
Qed.

(** The list is as it was or one shorter. *)
Definition shrinks (w w' : world) : Prop :=
  w_lv w' = w_lv w \/ S (n_live (w_lv w')) = n_live (w_lv w).

Lemma maybe_free_spec i w : (i < n_svc)%nat -> side None w ->
  wp (maybe_free i) (fun _ w' => calm w w' /\ shrinks w w') w.
Proof.
  intros Hi HS. unfold maybe_free. destruct (side_run _ w i HS Hi) as [r Hr].
  assert (calm w w /\ shrinks w w) as Hsame by (split; [by apply calm_refl|by left]).
  apply wp_bind. eapply wp_rd; [done|]. destruct (idle r) eqn:Hidle; simpl; [|by apply wp_ret].
  apply wp_bind. eapply live_has_spec; [done..|]. intros b Hb.
  apply wp_when; intros ->; [|done].
  apply wp_bind. eapply wp_tame; [by apply cgroup_drop_tame|done|]. intros b w1 T1.
  destruct (tame_run _ _ _ _ T1 Hr) as (r1 & Hr1 & M1).
  eapply live_del_spec; [by apply (tame_side _ w)|done| | |].
  - intros Hb1. by apply (idle_busy r Hidle), (busy_mild _ _ M1).
  - rewrite (tm_lv _ _ T1). by apply Hb.
  - intros l' rs' _ Hn _ HS'. split.
    + pose proof (tame_calm _ _ HS T1) as C1. destruct C1. by constructor.
    + right. simpl. by rewrite Hn, (tm_lv _ _ T1).
Qed.

Lemma maybe_free_calm i : (i < n_svc)%nat -> calmM (maybe_free i).
Proof. intros Hi w HS. eapply wp_mono; [by apply maybe_free_spec|]. by intros [] w' [C _]. Qed.

End Spec.

#[export] Hint Resolve close_fds_tame flush_line_tame absorb_tame drain_out_tame : tame.
