(* ===== verification/Lines.v ===== *)
(** * What becomes of the output of a service (src/drain.c)

    [absorb] keeps the end of the output for the message that the service
    failed, and logs it line by line. No byte is lost on either way: the tail is
    the end of everything written so far, and the logged lines together with the
    line at hand are the text without its newlines. *)

From S2P Require Import Prelude Ngraph Repeat Logged World Sys Inv Cgroup Output.

(** The last [n] elements. *)
Definition lastn {A} (n : nat) (l : list A) : list A := drop (length l - n) l.

Lemma absorb_tail_last t buf : zlen t <= TAIL_CAP -> absorb_tail t buf = lastn (Z.to_nat TAIL_CAP) (t ++ buf).
Proof.
  intros Ht. unfold absorb_tail, lastn. rewrite length_app. unfold zlen in *.
  destruct (Z.leb_spec TAIL_CAP (Z.of_nat (length buf))).
  - rewrite drop_app_ge by lia. f_equal. lia.
  - destruct (Z.ltb_spec TAIL_CAP (Z.of_nat (length t) + Z.of_nat (length buf))).
    + rewrite drop_app_le by lia. f_equal. f_equal. lia.
    + by replace (length t + length buf - Z.to_nat TAIL_CAP)%nat with 0%nat by lia.
Qed.

(** What is written across several reads leaves the same tail as at once. *)
Lemma lastn_app {A} n (a b : list A) : lastn n (lastn n a ++ b) = lastn n (a ++ b).
Proof.
  unfold lastn. rewrite !length_app, length_drop.
  replace (length a + length b - n)%nat with
    ((length a - n) + (length a - (length a - n) + length b - n))%nat by lia.
  by rewrite <- drop_drop, (drop_app_le a) by lia.
Qed.

(** Text without its newlines. *)
Definition plain (l : bytes) : bytes := filter (fun c => c <> 10) l.

Lemma split_lines_plain cur l ls rest : split_lines cur l = (ls, rest) -> plain cur = cur ->
  concat ls ++ rest = cur ++ plain l /\ Forall (fun s => plain s = s) ls /\ plain rest = rest.
Proof.
  revert cur ls rest. induction l as [|c l IH]; intros cur ls rest Hs Hc; simpl in Hs.
  { injection Hs as <- <-. simpl. by rewrite app_nil_r. }
  destruct (Z.eqb_spec c 10) as [->|Hne].
  - destruct (split_lines [] l) as [ls1 rest1] eqn:E1. injection Hs as <- <-.
    destruct (IH [] ls1 rest1 E1 eq_refl) as (H1 & H2 & H3). simpl. rewrite <- app_assoc, H1.
    split_ands; [|by constructor|done]. done.
  - destruct (IH (cur ++ [c]) ls rest Hs) as (H1 & H2 & H3).
    { unfold plain in *. rewrite filter_app, Hc, filter_cons_True by done. done. }
    split_ands; [|done|done]. rewrite H1, <- app_assoc. f_equal. unfold plain. by rewrite filter_cons_True.
Qed.

Section Flow.
Context `{E : Env} `{!EnvOk E}.
Context (i : nat) (Hi : (i < n_svc)%nat) (nm : bytes) (Hnm : ng_name env_g i = Some nm).

(** The event of a logged line. *)
Definition line_event (s : bytes) : event := EvLog LOG_NOTE (nm ++ bs ": " ++ cut0 s).

(** The chunks [ls] have been logged, oldest first, and [r] is the record now. *)
Record flow (w w' : world) (ls : list bytes) (r : run) : Prop := Flow {
  fl_trace : trace w' = rev (line_event <$> ls) ++ trace w;
  fl_run : runs w' !! i = Some r;
  fl_line : zlen (r_line r) <= LINE_CAP;
  fl_full : Forall (fun s => s <> [] /\ zlen s <= LINE_CAP) ls;
  fl_log : log_ok (w_log w');
}.

Lemma flow_app w1 w2 w3 l1 l2 r1 r2 : flow w1 w2 l1 r1 -> flow w2 w3 l2 r2 -> flow w1 w3 (l1 ++ l2) r2.
Proof.
  intros [T1 R1 _ F1 _] [T2 R2 L2 F2 G2]. constructor; [|done|done|by apply Forall_app|done].
  by rewrite T2, T1, fmap_app, rev_app_distr, app_assoc.
Qed.

(** A non-empty line becomes one message. *)
Definition whole (s : bytes) : list bytes := match s with [] => [] | _ => [s] end.

Lemma concat_whole s : concat (whole s) = s.
Proof. destruct s; simpl; [done|]. by rewrite app_nil_r. Qed.

Lemma flush_line_flow w r : runs w !! i = Some r -> log_ok (w_log w) -> zlen (r_line r) <= LINE_CAP ->
  wp (flush_line i) (fun _ w' => flow w w' (whole (r_line r)) (set_r_line [] r)) w.
Proof.
  intros Hr HL Hl. unfold flush_line. apply wp_bind. eapply wp_rd; [done|]. apply wp_bind.
  assert (forall w', runs w' = runs w -> log_ok (w_log w') -> trace w' = rev (line_event <$> whole (r_line r)) ++ trace w ->
    wp (mod_run i (set_r_line [])) (fun _ w' => flow w w' (whole (r_line r)) (set_r_line [] r)) w') as Hset.
  { intros w' E1 G E2. apply (wp_mod_run _ _ r); [by rewrite E1|]. constructor; simpl; [done| |done| |done].
    - rewrite E1. by rewrite list_lookup_insert_eq by (by apply lookup_lt_Some in Hr).
    - destruct (r_line r) eqn:El; [constructor|]. simpl. constructor; [|constructor].
      by split. }
  apply wp_when.
  - intros Hn%negb_true_iff%bool_decide_eq_false. apply wp_bind. unfold name_of. eapply wp_lift; [exact Hnm|].
    unfold log_note. apply ninit_log_wp; [done..|]. intros n L HL'. apply Hset; [done..|]. simpl. destruct (r_line r); done.
  - intros Hn%negb_false_iff%bool_decide_eq_true. apply Hset; [done..|]. by rewrite Hn.
Qed.

Lemma put_seg_flow fuel seg w r : (length seg <= fuel)%nat -> runs w !! i = Some r ->
  log_ok (w_log w) -> zlen (r_line r) <= LINE_CAP ->
  wp (put_seg fuel i seg) (fun _ w' => exists ls r', flow w w' ls r' /\
    concat ls ++ r_line r' = r_line r ++ seg /\ r_tail r' = r_tail r) w.
Proof.
  revert seg w r. induction fuel as [|fuel IH]; intros seg w r Hf Hr HL Hl; destruct seg as [|c seg]; simpl in Hf;
    try lia; try (apply wp_ret; exists [], r; split_ands; [by constructor|by rewrite app_nil_r|done]).
  cbn [put_seg]. apply wp_bind. eapply wp_rd; [done|]. cbv zeta.
  set (room0 := LINE_CAP - zlen (r_line r)). apply wp_bind.
  apply (wp_mono _ (fun _ w' => exists ls r1, flow w w' ls r1 /\ concat ls ++ r_line r1 = r_line r /\
    r_tail r1 = r_tail r /\ zlen (r_line r1) + (if room0 =? 0 then LINE_CAP else room0) = LINE_CAP)).
  { destruct (Z.eqb_spec room0 0) as [Hz|]; simpl.
    - eapply wp_mono; [by apply flush_line_flow|]. intros [] w1 F1. exists (whole (r_line r)), (set_r_line [] r).
      split; [done|]. simpl. by rewrite app_nil_r, concat_whole.
    - apply wp_ret. exists [], r. split; [by constructor|]. split; [done|]. split; [done|]. unfold room0. lia. }
  intros [] w1 (ls1 & r1 & F1 & E1 & T1 & Hroom).
  set (room := if room0 =? 0 then LINE_CAP else room0) in *.
  set (k := Z.to_nat (if zlen (c :: seg) <? room then zlen (c :: seg) else room)).
  assert (0 < room) as Hpos.
  { unfold room. destruct (Z.eqb_spec room0 0); [done|]. unfold room0, LINE_CAP in *. lia. }
  assert (1 <= Z.of_nat k <= room /\ (k <= S (length seg))%nat) as [Hk1 Hk2].
  { unfold k. destruct (Z.ltb_spec (zlen (c :: seg)) room); unfold zlen in *; simpl in *; lia. }
  apply wp_bind, (wp_mod_run _ _ r1); [apply (fl_run _ _ _ _ F1)|].
  set (r2 := set_r_line _ r1). set (w2 := set_runs _ w1).
  assert (zlen (r_line r2) <= LINE_CAP) as Hl2.
  { unfold r2. simpl. unfold zlen in *. rewrite length_app, length_take. lia. }
  assert (flow w w2 ls1 r2) as F2.
  { destruct F1 as [A1 A2 A3 A4 A5]. constructor; [done| |done..]. simpl.
    by rewrite list_lookup_insert_eq by (by apply lookup_lt_Some in A2). }
  eapply wp_mono; [apply (IH _ w2 r2)|].
  - rewrite length_drop. simpl. lia.
  - apply (fl_run _ _ _ _ F2).
  - apply (fl_log _ _ _ _ F2).
  - done.
  - intros [] w3 (ls3 & r3 & F3 & E3 & T3). exists (ls1 ++ ls3), r3. split; [by apply (flow_app _ w2 _ _ _ r2)|].
    split; [|by rewrite T3]. rewrite concat_app, <- app_assoc, E3. unfold r2. simpl.
    rewrite <- app_assoc, take_drop. by rewrite app_assoc, E1.
Qed.

Lemma absorb_lines_flow lines w r : runs w !! i = Some r -> log_ok (w_log w) -> zlen (r_line r) <= LINE_CAP ->
  wp (absorb_lines i lines) (fun _ w' => exists ls r', flow w w' ls r' /\
    concat ls ++ r_line r' = r_line r ++ concat lines /\ r_tail r' = r_tail r) w.
Proof.
  revert w r. induction lines as [|l lines IH]; intros w r Hr HL Hl; simpl.
  { apply wp_ret. exists [], r. split; [by constructor|]. by rewrite app_nil_r. }
  apply wp_bind. eapply wp_mono; [by apply (put_seg_flow (length l) l w r)|].
  intros [] w1 (l1 & r1 & F1 & E1 & T1). apply wp_bind.
  eapply wp_mono; [apply (flush_line_flow w1 r1); [apply F1..]|].
  intros [] w2 F2. eapply wp_mono; [apply (IH w2); [apply F2..]|].
  intros [] w3 (l3 & r3 & F3 & E3 & T3). exists ((l1 ++ whole (r_line r1)) ++ l3), r3. split_ands.
  - apply (flow_app _ w2 _ _ _ (set_r_line [] r1)); [by apply (flow_app _ w1 _ _ _ r1)|done].
  - rewrite !concat_app, concat_whole, <- app_assoc, E3. simpl. rewrite E1. by rewrite <- app_assoc.
  - by rewrite T3.
Qed.

(** [absorb] loses nothing: the tail becomes the last [TAIL_CAP] bytes of
    the output so far; what is logged, each message at most a line buffer long,
    followed by the unfinished line, is the unfinished line of before followed
    by the new text without its newlines; and nothing else is logged. *)
Theorem absorb_keeps_output buf w r : runs w !! i = Some r ->
  log_ok (w_log w) -> zlen (r_line r) <= LINE_CAP -> zlen (r_tail r) <= TAIL_CAP ->
  exists w' r' ls, absorb i buf w = Ok tt w' /\ runs w' !! i = Some r' /\
    r_tail r' = lastn (Z.to_nat TAIL_CAP) (r_tail r ++ buf) /\
    concat ls ++ r_line r' = r_line r ++ plain buf /\
    Forall (fun s => s <> [] /\ zlen s <= LINE_CAP) ls /\
    trace w' = rev ((fun s => EvLog LOG_NOTE (nm ++ bs ": " ++ cut0 s)) <$> ls) ++ trace w.
Proof.
  intros Hr HL Hl Ht.
  assert (wp (absorb i buf) (fun _ w' => exists ls r', flow w w' ls r' /\
    concat ls ++ r_line r' = r_line r ++ plain buf /\ r_tail r' = absorb_tail (r_tail r) buf) w) as Hw.
  { unfold absorb. apply wp_bind, (wp_mod_run _ _ r); [done|].
    set (r1 := set_r_tail _ r). set (w1 := set_runs _ w).
    assert (flow w w1 [] r1) as F1.
    { constructor; simpl; [done| |done|constructor|done].
      by rewrite list_lookup_insert_eq by (by apply lookup_lt_Some in Hr). }
    destruct (split_lines [] buf) as [lines rest] eqn:Es.
    destruct (split_lines_plain _ _ _ _ Es eq_refl) as (Ej & _ & _). apply wp_bind.
    eapply wp_mono; [apply (absorb_lines_flow lines w1 r1); [apply F1|done..]|].
    intros [] w2 (l2 & r2 & F2 & E2 & T2).
    eapply wp_mono; [apply (put_seg_flow (length rest) rest w2 r2); [done|apply F2..]|].
    intros [] w3 (l3 & r3 & F3 & E3 & T3). exists ([] ++ l2 ++ l3), r3. split_ands.
    - apply (flow_app _ w1 _ _ _ r1); [done|]. by apply (flow_app _ w2 _ _ _ r2).
    - simpl. rewrite concat_app, <- app_assoc, E3, app_assoc, E2. simpl. by rewrite <- app_assoc, Ej.
    - by rewrite T3, T2. }
  unfold wp in Hw. destruct (absorb i buf w) as [[] w'| | |]; try done.
  destruct Hw as (ls & r' & [T R L F _] & E1 & E2). exists w', r', ls. split_ands; try done.
  rewrite E2. by apply absorb_tail_last.
Qed.

End Flow.
