(* ===== verification/Deps.v ===== *)
(** * The dependency bookkeeping

    Lemmas on [up], [released], [unmet] and the queues of src/state.c: how the
    number of prerequisites a service waits for follows from what has been
    handed over, and which services stay down for the rest of a hand-over. *)

From S2P Require Import Prelude Ngraph World Sys Inv.

Section Deps.
Context `{E : Env} `{!EnvOk E}.

Definition set_rel (i : nat) (v : bool) (dp : dep) : dep :=
  set_released (<[i := v]> (released dp)) dp.

Definition with_unmet (d : nat) (u : Z) (dp : dep) : dep :=
  set_d_unmet (<[d := u]> (d_unmet dp)) dp.

(** [svc_set_up] as a function. *)
Definition with_up (i : nat) (v : bool) (dp : dep) : dep :=
  if eqb (up_b dp i) v then dp
  else set_n_up (u32 (if v then n_up dp + 1 else n_up dp - 1)) (set_up (<[i := v]> (up dp)) dp).

Lemma lookup_rel dp i : length (released dp) = n_svc -> (i < n_svc)%nat -> released dp !! i = Some (rel_b dp i).
Proof.
  intros Hl Hi. unfold rel_b. destruct (lookup_lt_is_Some_2 (released dp) i) as [b ->]; [lia|done].
Qed.

Lemma lookup_up dp i : length (up dp) = n_svc -> (i < n_svc)%nat -> up dp !! i = Some (up_b dp i).
Proof.
  intros Hl Hi. unfold up_b. destruct (lookup_lt_is_Some_2 (up dp) i) as [b ->]; [lia|done].
Qed.

Lemma rel_b_bound dp i : length (released dp) = n_svc -> rel_b dp i = true -> (i < n_svc)%nat.
Proof.
  unfold rel_b. intros Hl Hr. destruct (released dp !! i) eqn:E0; [|done].
  apply lookup_lt_Some in E0. lia.
Qed.

Lemma rel_b_set dp i v j : length (released dp) = n_svc -> (i < n_svc)%nat ->
  rel_b (set_rel i v dp) j = if decide (i = j) then v else rel_b dp j.
Proof.
  intros Hl Hi. unfold rel_b, set_rel. simpl. destruct (decide (i = j)) as [->|].
  - by rewrite list_lookup_insert_eq by lia.
  - by rewrite list_lookup_insert_ne.
Qed.

Lemma up_b_set dp i v j : length (up dp) = n_svc -> (i < n_svc)%nat ->
  up_b (with_up i v dp) j = if decide (i = j) then v else up_b dp j.
Proof.
  intros Hl Hi. unfold with_up. destruct (eqb (up_b dp i) v) eqn:E0.
  - apply eqb_prop in E0. by destruct (decide (i = j)) as [->|].
  - unfold up_b. simpl. destruct (decide (i = j)) as [->|].
    + by rewrite list_lookup_insert_eq by lia.
    + by rewrite list_lookup_insert_ne.
Qed.

Lemma need_nonneg dp d : 0 <= need dp d.
Proof.
  apply sum_upto_nonneg. intros j _. destruct (rel_b dp j); [lia|apply mult_nonneg].
Qed.

Lemma need_indeg dp d : need dp d <= indeg env_g d.
Proof.
  apply sum_upto_le. intros j _. destruct (rel_b dp j); [apply mult_nonneg|lia].
Qed.

Lemma need_set dp i v d : length (released dp) = n_svc -> (i < n_svc)%nat ->
  need (set_rel i v dp) d =
    need dp d + (if rel_b dp i then mult env_g i d else 0) - (if v then mult env_g i d else 0).
Proof.
  intros Hl Hi. unfold need at 1.
  rewrite (sum_upto_upd n_svc (fun j => if rel_b dp j then 0 else mult env_g j d) _ i Hi).
  - rewrite rel_b_set by done. rewrite decide_True by done. unfold need.
    destruct (rel_b dp i), v; lia.
  - intros j _ Hj. rewrite rel_b_set by done. by rewrite decide_False.
Qed.

(** A prerequisite that has not been handed over is counted. *)
Lemma need_edge dp j d : edge env_g j d -> rel_b dp j = false -> 0 < need dp d.
Proof.
  intros He Hr. destruct (edge_bound j d He) as [Hj _]. apply mult_edge in He as Hm.
  destruct (decide (need dp d = 0)) as [Hz|]; [|pose proof (need_nonneg dp d); lia].
  unfold need in Hz. apply sum_upto_zero with (i := j) in Hz; [|intros; case_match; [lia|apply mult_nonneg]|done].
  rewrite Hr in Hz. lia.
Qed.

Lemma need_zero dp d : (forall j, edge env_g j d -> rel_b dp j = true) -> need dp d = 0.
Proof.
  intros Hall. apply Z.le_antisymm; [|apply need_nonneg].
  trans (sum_upto n_svc (fun _ => 0)); [|induction n_svc; simpl; lia].
  apply sum_upto_le. intros j _. destruct (rel_b dp j) eqn:Hr; [done|].
  unfold mult. destruct (succs env_g j) as [l|] eqn:Hl; [|done].
  destruct (decide (d ∈ l)) as [Hd|Hd].
  - assert (edge env_g j d) as He by (by exists l). rewrite (Hall j He) in Hr. done.
  - pose proof (occ_nonneg d l). rewrite <- occ_pos in Hd. lia.
Qed.

Lemma dep_ok_ext ex ex' x dp : (forall d, (d < n_svc)%nat -> ex d = ex' d) -> dep_ok ex x dp -> dep_ok ex' x dp.
Proof. intros He HD. destruct HD; constructor; try done. intros d Hd. rewrite <- He by done. auto. Qed.

(** ** Steps *)

Lemma dep_ok_up ex x i v dp : dep_ok ex x dp -> (i < n_svc)%nat ->
  (v = true \/ rel_b dp i = false \/ oo_b i = true \/ x = Some i) -> dep_ok ex x (with_up i v dp).
Proof.
  intros HD Hi Hv. pose proof HD as HD'. destruct HD' as [H1 H2 H3 H4 H5 H6 H7 H8 H9].
  assert (forall j, up_b (with_up i v dp) j = if decide (i = j) then v else up_b dp j) as Hup.
  { intros j. by apply up_b_set. }
  pose proof n_svc_bound as Hn. pose proof (cnt_range id (up dp)) as Hc.
  unfold with_up in *. destruct (eqb (up_b dp i) v) eqn:E0; [done|].
  constructor; simpl; rewrite ?length_insert; try done.
  - rewrite (cnt_insert _ _ _ _ (up_b dp i)) by (by apply lookup_up).
    destruct (up_b dp i) eqn:Eu, v; try done; unfold b2z, id at 2 3.
    + pose proof (cnt_pos id (up dp) i true) as Hp. rewrite lookup_up, Eu in Hp by done.
      specialize (Hp eq_refl eq_refl). rewrite u32_small; [lia|]. lia.
    + rewrite u32_small; [lia|].
      pose proof (cnt_pos negb (up dp) i false) as Hp. rewrite lookup_up, Eu in Hp by done.
      specialize (Hp eq_refl eq_refl). lia.
  - intros j Hr Ho. rewrite Hup. destruct (decide (i = j)) as [<-|]; [|by apply H9].
    destruct Hv as [->|[Hv|[Hv|Hv]]]; [by left| | |by right]; exfalso; change (rel_b dp i = true) in Hr; congruence.
Qed.

(** Handing [i] over leaves its dependents to be told. *)
Lemma dep_ok_release ex x i dp : dep_ok ex x dp -> (i < n_svc)%nat -> rel_b dp i = false ->
  up_b dp i = true ->
  dep_ok (fun d => ex d + mult env_g i d) x (set_rel i true dp).
Proof.
  intros [H1 H2 H3 H4 H5 H6 H7 H8 H9] Hi Hr Hu. constructor; simpl; rewrite ?length_insert; try done.
  - intros d Hd. rewrite H8 by done. f_equal. rewrite need_set, Hr by done. lia.
  - intros j Hj Ho. rewrite rel_b_set in Hj by done. destruct (decide (i = j)) as [<-|]; [by left|].
    by apply H9.
Qed.

(** Taking [i] back owes its dependents an increment each. *)
Lemma dep_ok_reclaim ex i dp : dep_ok ex (Some i) dp -> (i < n_svc)%nat -> rel_b dp i = true ->
  dep_ok (fun d => ex d - mult env_g i d) None (set_rel i false dp).
Proof.
  intros [H1 H2 H3 H4 H5 H6 H7 H8 H9] Hi Hr. constructor; simpl; rewrite ?length_insert; try done.
  - intros d Hd. rewrite H8 by done. f_equal. rewrite need_set, Hr by done. lia.
  - intros j Hj Ho. rewrite rel_b_set in Hj by done. destruct (decide (i = j)) as [<-|]; [done|].
    left. destruct (H9 j Hj Ho) as [|Hx]; [done|]. by injection Hx as ->.
Qed.

Lemma dep_ok_weaken ex x dp : dep_ok ex None dp -> dep_ok ex x dp.
Proof.
  intros HD. pose proof (de_rel_up _ _ _ HD) as Hu. destruct HD; constructor; try done.
  intros j Hj Ho. left. by destruct (Hu j Hj Ho).
Qed.

Lemma dep_ok_strengthen ex i dp : dep_ok ex (Some i) dp ->
  (rel_b dp i = false \/ oo_b i = true \/ up_b dp i = true) -> dep_ok ex None dp.
Proof.
  intros HD Hi. pose proof (de_rel_up _ _ _ HD) as Hup. destruct HD; constructor; try done.
  intros j Hj Ho. destruct (Hup j Hj Ho) as [|Hx]; [by left|].
  injection Hx as ->. left. destruct Hi as [Hi|[Hi|Hi]]; congruence.
Qed.

(** One prerequisite of [d] more or less. *)
Lemma dep_ok_unmet ex x d (k : Z) dp : dep_ok ex x dp -> (d < n_svc)%nat ->
  0 <= need dp d + ex d + k < 65536 ->
  dep_ok (fun d' => ex d' + if decide (d = d') then k else 0) x
         (with_unmet d (u16 (need dp d + ex d + k)) dp).
Proof.
  intros [H1 H2 H3 H4 H5 H6 H7 H8 H9] Hd Hr. unfold with_unmet.
  constructor; simpl; rewrite ?length_insert; try done.
  - intros d' u. destruct (decide (d = d')) as [<-|].
    + rewrite list_lookup_insert_eq by lia. intros [= <-]. rewrite u16_small by done. done.
    + rewrite list_lookup_insert_ne by done. apply H7.
  - intros d' Hd'. change (need (set_d_unmet ?a ?b) ?c) with (need b c).
    destruct (decide (d = d')) as [<-|].
    + rewrite list_lookup_insert_eq by lia. rewrite u16_small by done. f_equal. lia.
    + rewrite list_lookup_insert_ne, H8 by done. f_equal. lia.
Qed.

(** The queues play no part. *)
Lemma dep_ok_rqueue ex x q dp : dep_ok ex x dp -> length q = n_svc -> dep_ok ex x (set_rqueue q dp).
Proof. intros HD Hq. by destruct HD; constructor. Qed.

Lemma dep_ok_queue ex x q h t b dp : dep_ok ex x dp -> length q = n_svc ->
  dep_ok ex x (set_draining b (set_q_head h (set_q_tail t (set_queue q dp)))).
Proof. intros HD Hq. by destruct HD; constructor. Qed.

(** ** Down for good *)

Definition nontarget (i : nat) : Prop := is_target env_g i = Some false.

(** A service that is not handed over, or a target behind one: nothing brings
    them back before the hand-over in progress is finished. *)
Inductive Blocked (dp : dep) : nat -> Prop :=
  | Blocked_service j : (j < n_svc)%nat -> nontarget j -> rel_b dp j = false -> Blocked dp j
  | Blocked_target j t : edge env_g j t -> Blocked dp j -> rel_b dp t = false -> Blocked dp t.

Lemma blocked_unreleased dp t : Blocked dp t -> rel_b dp t = false.
Proof. by destruct 1. Qed.

(** A blocked target waits for a prerequisite. *)
Lemma blocked_need dp t : Blocked dp t -> ~ nontarget t -> 0 < need dp t.
Proof.
  destruct 1 as [|j t He Hj Ht]; [done|]. intros _.
  by apply (need_edge dp j), blocked_unreleased.
Qed.

Lemma blocked_mono dp dp' t : (forall j, rel_b dp' j = true -> rel_b dp j = true) ->
  Blocked dp t -> Blocked dp' t.
Proof.
  intros Hm. assert (forall j, rel_b dp j = false -> rel_b dp' j = false) as Hf.
  { intros j Hj. destruct (rel_b dp' j) eqn:E0; [|done]. apply Hm in E0. congruence. }
  induction 1 as [j Hj Hn Hr|j t He _ IH Hr].
  - apply Blocked_service; auto.
  - apply (Blocked_target _ j); auto.
Qed.

(** Handing over a service that is not blocked frees no blocked one. *)
Lemma blocked_set dp i t : length (released dp) = n_svc -> (i < n_svc)%nat -> ~ Blocked dp i ->
  Blocked dp t -> Blocked (set_rel i true dp) t.
Proof.
  intros Hl Hi Hni. induction 1 as [j Hj Hn Hr|j t He Hb IH Hr].
  - apply Blocked_service; [done..|]. rewrite rel_b_set by done. rewrite decide_False; [done|].
    intros ->. apply Hni. by apply Blocked_service.
  - apply (Blocked_target _ j); [done..|]. rewrite rel_b_set by done. rewrite decide_False; [done|].
    intros ->. apply Hni. by apply (Blocked_target _ j).
Qed.

(** What taking services down during a hand-over may do to it. *)
Record down_ext (dp dp' : dep) : Prop := DownExt {
  dx_queue : queue dp' = queue dp;
  dx_head : q_head dp' = q_head dp;
  dx_tail : q_tail dp' = q_tail dp;
  dx_draining : draining dp' = draining dp;
  dx_rel : forall j, rel_b dp' j = true -> rel_b dp j = true;
}.

Definition blocks (dp dp' : dep) : Prop :=
  forall j, rel_b dp j = true -> rel_b dp' j = false -> Blocked dp' j.

#[export] Instance down_ext_refl : Reflexive down_ext.
Proof. by constructor. Qed.

#[export] Instance down_ext_trans : Transitive down_ext.
Proof. intros d1 d2 d3 H1 H2. destruct H1, H2. constructor; try congruence. auto. Qed.

Lemma blocks_refl dp : blocks dp dp.
Proof. intros j H1 H2. congruence. Qed.

Lemma blocks_trans d1 d2 d3 : down_ext d2 d3 -> blocks d1 d2 -> blocks d2 d3 -> blocks d1 d3.
Proof.
  intros HX H12 H23 j H1 H3. destruct (rel_b d2 j) eqn:E2; [by apply H23|].
  apply (blocked_mono d2); [apply (dx_rel _ _ HX)|]. by apply H12.
Qed.

(** ** Sums over the queues *)

(** What a queue still has to give to [d]. *)
Fixpoint owed (Q : list nat) (d : nat) : Z :=
  match Q with
  | [] => 0
  | j :: Q' => mult env_g j d + owed Q' d
  end.

Lemma owed_app Q1 Q2 d : owed (Q1 ++ Q2) d = owed Q1 d + owed Q2 d.
Proof. induction Q1; simpl; lia. Qed.

Lemma owed_nonneg Q d : 0 <= owed Q d.
Proof. induction Q as [|j Q IH]; simpl; [lia|]. pose proof (mult_nonneg j d). lia. Qed.

Lemma owed_le_sum (f : nat -> Z) Q n d : NoDup Q -> (forall j, j ∈ Q -> (j < n)%nat) ->
  (forall j, (j < n)%nat -> 0 <= f j) -> (forall j, j ∈ Q -> f j = mult env_g j d) ->
  owed Q d <= sum_upto n f.
Proof.
  revert f. induction Q as [|j Q IH]; intros f Hnd Hb Hf He; simpl; [by apply sum_upto_nonneg|].
  apply NoDup_cons in Hnd as [Hj Hnd].
  set (f' := fun k => if decide (j = k) then 0 else f k).
  assert (owed Q d <= sum_upto n f') as H1.
  { apply IH; [done|intros k Hk; apply Hb; by right|..].
    - intros k Hk. unfold f'. case_decide; [lia|by apply Hf].
    - intros k Hk. unfold f'. rewrite decide_False by (by intros ->). apply He. by right. }
  rewrite (sum_upto_upd n f f' j) in H1.
  - unfold f' in H1. rewrite decide_True in H1 by done. rewrite (He j) in H1 by (by left). lia.
  - apply Hb. by left.
  - intros k _ Hk. unfold f'. by rewrite decide_False.
Qed.

Lemma owed_indeg Q d : NoDup Q -> (forall j, j ∈ Q -> (j < n_svc)%nat) -> owed Q d <= indeg env_g d.
Proof. intros Hnd Hb. apply owed_le_sum; [done..| |done]. intros. apply mult_nonneg. Qed.

(** What is owed to a service by queued ones that are not handed over is part of its need. *)
Lemma owed_need Q dp d : NoDup Q -> (forall j, j ∈ Q -> (j < n_svc)%nat /\ rel_b dp j = false) ->
  owed Q d <= need dp d.
Proof.
  intros Hnd Hb. apply owed_le_sum; [done|by intros; apply Hb|..].
  - intros j _. case_match; [lia|apply mult_nonneg].
  - intros j Hj. by destruct (Hb j Hj) as [_ ->].
Qed.

Lemma mult_succs j ds d : succs env_g j = Some ds -> mult env_g j d = occ d ds.
Proof. intros Hs. unfold mult. by rewrite Hs. Qed.

Lemma occ_cons d x l : occ d (x :: l) = (if decide (x = d) then 1 else 0) + occ d l.
Proof.
  unfold occ. simpl. destruct (Nat.eqb_spec x d) as [->|]; [by rewrite decide_True|by rewrite decide_False].
Qed.

End Deps.
