(* ===== verification/State.v ===== *)
(** * Stopping, poisoning and taking down (src/state.c)

    The operations on the dependency state that start nothing: signalling a
    service, taking it down for its dependents, and giving up on the services
    that cannot start any more. *)

From S2P Require Import Prelude Ngraph PidMap World Sys Inv Live Cgroup Fail Emerg Output Deps.

Section Ops.
Context `{Env}.

Definition signal_group (i : nat) (sig : Z) : M unit :=
  n ← cgroup_signal i sig;
  if 0 <? n then mret tt else
  r ← run_of i;
  when (0 <? pgid r) (kill (- pgid r) sig).

Definition kill_group (i : nat) : M unit :=
  signal_group i SIGKILL;; mod_run i (set_pgid 0).

Definition svc_abandon (i : nat) : M unit :=
  r ← run_of i;
  if pid r <=? 0 then mret tt else
  mod_run i (fun r => set_pid 0 (set_stale_pid (pid r) r)).

Definition svc_gone (i : nat) : M bool :=
  r ← run_of i;
  if (0 <? pid r) || negb (stale_pid r =? 0) then mret false else
  if started r =? 0 then mret true else
  n ← cgroup_populated i; mret (n <=? 0).

(** [None] when the service can start, otherwise why it cannot. *)
Definition svc_can_start (i : nat) : M (option bytes) :=
  sd ← gets shutting_down;
  if (sd : bool) then mret (Some (bs "shutting down")) else
  wn ← want_of i;
  if (wn : bool) then mret (Some (bs "held stopped")) else
  r ← run_of i;
  if 0 <? pid r then mret (Some (bs "already running")) else
  if negb (stale_pid r =? 0) then mret (Some (bs "its previous instance has not exited")) else
  u ← unmet_of i;
  if negb (u =? 0) then mret (Some (bs "waiting on a prerequisite")) else
  mret None.

Definition dec_active : ctr -> ctr := fun c => set_n_active (u32 (n_active c - 1)) c.
Definition inc_active : ctr -> ctr := fun c => set_n_active (u32 (n_active c + 1)) c.
Definition dec_pending : ctr -> ctr := fun c => set_n_pending (u32 (n_pending c - 1)) c.
Definition inc_pending : ctr -> ctr := fun c => set_n_pending (u32 (n_pending c + 1)) c.
Definition dec_done : ctr -> ctr := fun c => set_n_done (u32 (n_done c - 1)) c.
Definition inc_done : ctr -> ctr := fun c => set_n_done (u32 (n_done c + 1)) c.

Definition svc_mark_done (i : nat) : M unit :=
  mod_run i (set_starting false);;
  s ← st_of i;
  (if decide (s = RUNNING) then mod_ctr dec_active
   else when (bool_decide (s = PENDING)) (mod_ctr dec_pending));;
  when (negb (bool_decide (s = DONE)))
    (set_state_at i DONE;; mod_ctr inc_done).

Definition svc_mark_pending (i : nat) : M unit :=
  s ← st_of i;
  if decide (s = PENDING) then mret tt else
  (if decide (s = RUNNING) then mod_ctr dec_active
   else when (bool_decide (s = DONE)) (mod_ctr dec_done));;
  set_state_at i PENDING;; mod_ctr inc_pending.

Definition svc_set_up (i : nat) (v : bool) : M unit :=
  u ← up_of i;
  if eqb u v then mret tt else
  set_up_at i v;;
  mod_dep (fun d => set_n_up (u32 (if v then n_up d + 1 else n_up d - 1)) d).

(** The dependents of [j]. *)
Definition deps_of (j : nat) : M (list nat) := lift (succs env_g j).

(** [rqueue[rt++] = d] *)
Definition rq_put (rt d : nat) : M nat :=
  dp ← gets w_dep;
  q ← store (rqueue dp) rt d;
  modify (set_w_dep (set_rqueue q dp));; mret (S rt).

Definition rq_at (rh : nat) : M nat := rd (fun w => rqueue (w_dep w)) rh.

(** The body of the inner loop of [svc_reclaim]. *)
Definition reclaim_dep (rt d : nat) : M nat :=
  u ← unmet_of d;
  dp ← gets w_dep;
  l ← store (d_unmet dp) d (u16 (u + 1));
  modify (set_w_dep (set_d_unmet l dp));;
  t ← lift (is_target env_g d);
  if negb t then mret rt else
  rel ← rel_of d;
  oo ← lift (ng_order_only env_g d);
  if negb rel || oo then mret rt else
  set_rel_at d false;;
  svc_set_up d false;;
  rq_put rt d.

Fixpoint reclaim_deps (rt : nat) (ds : list nat) : M nat :=
  match ds with
  | [] => mret rt
  | d :: ds' => rt ← reclaim_dep rt d; reclaim_deps rt ds'
  end.

(** [while(rh < rt)]; every service enters the queue at most once. *)
Fixpoint reclaim_loop (fuel rh rt : nat) : M unit :=
  match fuel with
  | O => nofuel
  | S fuel' =>
      if decide (rh < rt)%nat then
        j ← rq_at rh;
        ds ← deps_of j;
        rt ← reclaim_deps rt ds;
        reclaim_loop fuel' (S rh) rt
      else mret tt
  end.

Definition svc_reclaim (i : nat) : M unit :=
  rel ← rel_of i;
  oo ← lift (ng_order_only env_g i);
  if negb rel || oo then mret tt else
  set_rel_at i false;;
  rt ← rq_put 0 i;
  reclaim_loop (S n_svc) 0 rt.

Definition go_down (i : nat) : M unit :=
  u ← up_of i;
  rel ← rel_of i;
  if negb u && negb rel then mret tt else
  svc_set_up i false;;
  svc_reclaim i.

(** A loop over the live list whose body may drop services: dropping one swaps
    another one into its slot, which is then looked at next. *)
Fixpoint live_loop (fuel k : nat) (body : nat -> M unit) : M unit :=
  match fuel with
  | O => nofuel
  | S fuel' =>
      n ← n_live_of;
      if decide (k < n)%nat then
        d ← live_at k;
        body d;;
        n ← n_live_of;
        same ← (if decide (k < n)%nat then j ← live_at k; mret (j =? d)%nat else mret false);
        live_loop fuel' (if (same : bool) then S k else k) body
      else mret tt
  end.

(** A skipped service has no retry to wait for. *)
Definition unretry (d : nat) : M unit :=
  s ← st_of d;
  r ← run_of d;
  when (bool_decide (s = SKIPPED) && negb (restart_at r =? 0))
    (mod_run d (fun r => set_stale_hold false (set_restart_at 0 r));; maybe_free d).

Definition skipped_note (i : nat) (p : poisoned) : M unit :=
  n ← n_live_of;
  live_loop (S n) 0 unretry;;
  mod_ctr (fun c => set_n_pending (u32 (n_pending c - u32 (p_count p - p_waiting p))) c);;
  mod_ctr (fun c => set_n_active (u32 (n_active c - p_waiting p)) c);;
  mod_ctr (fun c => set_n_done (u32 (n_done c - p_undone p)) c);;
  when (negb (p_count p =? 0))
    (nm ← name_of i;
     log_warn (nm ++ bs ": " ++ dec (p_count p) ++ bs " dependent service" ++ plural (p_count p)
               ++ bs " will not start")).

(** The states a call of [fail_poison] leaves. *)
Definition put_poisoned (o : option poisoned) : M poisoned :=
  p ← lift o; mod_ctr (set_state (p_state p));; mret p.

Definition poison (i : nat) : M unit :=
  s ← st_of i;
  (if decide (s = RUNNING) then mod_ctr dec_active
   else when (bool_decide (s = PENDING)) (mod_ctr dec_pending));;
  go_down i;;
  w ← gets id;
  p ← put_poisoned (fail_poison env_g i (state (w_ctr w)) (up (w_dep w)) (runs w));
  skipped_note i p.

Definition poison_deps (i : nat) : M unit :=
  oo ← lift (ng_order_only env_g i);
  if (oo : bool) then mret tt else
  w ← gets id;
  p ← put_poisoned (fail_poison_deps env_g i (state (w_ctr w)) (up (w_dep w)) (runs w));
  skipped_note i p.

End Ops.

(** ** Signals *)

Section Spec.
Context `{E : Env} `{!EnvOk E}.

Lemma signal_group_tame i sig : (i < n_svc)%nat -> tameM (signal_group i sig).
Proof. intros Hi. unfold signal_group. tame_tac. Qed.

Hint Resolve signal_group_tame : tame.

Lemma kill_group_tame i : (i < n_svc)%nat -> tameM (kill_group i).
Proof. intros Hi. unfold kill_group. tame_tac. Qed.

Lemma svc_gone_tame i : (i < n_svc)%nat -> tameM (svc_gone i).
Proof. intros Hi. unfold svc_gone. tame_tac. Qed.

(** A process that is given up is still waited for. *)
Lemma svc_abandon_spec w i r (Q : unit -> world -> Prop) : side None w -> runs w !! i = Some r ->
  (forall w' r', calm w w' -> w_lv w' = w_lv w -> runs w' !! i = Some r' -> pid r' = 0 ->
     out_fd r' = out_fd r -> ntf_fd r' = ntf_fd r -> op r' = op r -> Q tt w') ->
  wp (svc_abandon i) Q w.
Proof.
  intros HS Hr HQ. unfold svc_abandon. apply wp_bind. eapply wp_rd; [done|].
  pose proof (sd_svc _ _ HS i r Hr) as Hok. pose proof (so_pid _ _ Hok) as Hp.
  destruct (Z.leb_spec (pid r) 0).
  { apply wp_ret. apply (HQ w r); [by apply calm_refl|done|done|lia|done..]. }
  apply (wp_mod_run _ _ r); [done|].
  set (r' := set_pid 0 (set_stale_pid (pid r) r)).
  assert (stale_pid r = 0) as Hst by (destruct (so_one _ _ Hok); lia).
  apply (HQ _ r'); [|done| |done..].
  2: { simpl. by rewrite list_lookup_insert_eq by (by apply lookup_lt_Some in Hr). }
  constructor; simpl; try done. constructor; simpl.
  - destruct (sd_live _ _ HS) as [H1 H2 H3]. constructor; [done..|]. intros k j Hk.
    destruct (H3 k j Hk) as (rj & Hrj & <-). destruct (decide (i = j)) as [<-|].
    + exists r'. rewrite list_lookup_insert_eq by (by apply lookup_lt_Some in Hr).
      split; [done|]. by rewrite Hrj in Hr; injection Hr as ->.
    + exists rj. by rewrite list_lookup_insert_ne.
  - apply (sd_want _ _ HS).
  - rewrite length_insert. apply (sd_runs _ _ HS).
  - intros j rj. destruct (decide (i = j)) as [<-|].
    + rewrite list_lookup_insert_eq by (by apply lookup_lt_Some in Hr). intros [= <-].
      destruct Hok as [H1 H2 H3 H4 H5 H6].
      constructor; simpl; [lia..|auto| |done|done]. intros _. apply H4. by left.
    + rewrite list_lookup_insert_ne by done. apply (sd_svc _ _ HS).
  - pose proof (sd_pids _ _ HS) as HP. destruct (pids w) as [T|]; [|done].
    destruct HP as (e & m & He & H1 & H2 & HR & Hm). exists e, m. split_ands; [done..|].
    intros p j Hpj. destruct (Hm p j Hpj) as (Hp0 & rj & Hrj & Hor). split; [done|].
    destruct (decide (i = j)) as [<-|].
    + exists r'. rewrite list_lookup_insert_eq by (by apply lookup_lt_Some in Hr). split; [done|].
      rewrite Hr in Hrj. injection Hrj as <-. simpl. right. destruct Hor; [done|lia].
    + exists rj. by rewrite list_lookup_insert_ne.
  - rewrite (cnt_insert op_b _ _ _ r Hr). rewrite (sd_ops _ _ HS). unfold op_b. simpl. lia.
  - apply (sd_trace _ _ HS).
  - apply (sd_rotor _ _ HS).
  - apply (sd_log _ _ HS).
Qed.

Lemma svc_abandon_calm i : (i < n_svc)%nat -> calmM (svc_abandon i).
Proof.
  intros Hi w HS. destruct (side_run _ w i HS Hi) as [r Hr].
  by eapply svc_abandon_spec.
Qed.

(** What lets a service start. *)
Definition startable (w : world) (i : nat) : Prop :=
  shutting_down w = false /\ want w !! i = Some false /\ d_unmet (w_dep w) !! i = Some 0 /\
  exists r, runs w !! i = Some r /\ pid r = 0 /\ stale_pid r = 0.

Lemma svc_can_start_spec ex w i (Q : option bytes -> world -> Prop) : Inv ex w -> (i < n_svc)%nat ->
  (forall why, (why = None -> startable w i) -> Q why w) -> wp (svc_can_start i) Q w.
Proof.
  intros HI Hi HQ. pose proof (in_side _ _ HI) as HS. unfold svc_can_start.
  apply wp_bind, wp_gets. destruct (shutting_down w) eqn:Esd; [by apply wp_ret, HQ|].
  destruct (side_want _ w i HS Hi) as [b Hb]. apply wp_bind. eapply wp_rd; [done|].
  destruct b; [by apply wp_ret, HQ|].
  destruct (side_run _ w i HS Hi) as [r Hr]. apply wp_bind. eapply wp_rd; [done|].
  destruct (Z.ltb_spec 0 (pid r)); [by apply wp_ret, HQ|].
  destruct (Z.eqb_spec (stale_pid r) 0) as [Hst|]; [simpl|by apply wp_ret, HQ].
  apply wp_bind. eapply wp_rd; [by apply (de_need _ _ _ (in_dep _ _ HI))|].
  destruct (Z.eqb_spec (need (w_dep w) i + ex i) 0) as [Hu|]; [simpl|by apply wp_ret, HQ].
  apply wp_ret, HQ. intros _. split; [done|]. split; [done|]. split.
  - rewrite (de_need _ _ _ (in_dep _ _ HI)) by done. by rewrite Hu.
  - exists r. split; [done|]. split; [|done]. pose proof (so_pid _ _ (sd_svc _ _ HS i r Hr)). lia.
Qed.

(** ** The counters *)

Lemma ctr_ok_set c i s s' : ctr_ok c -> state c !! i = Some s ->
  ctr_ok (Ctr (<[i := s']> (state c))
            (n_active c - b2z (is_st RUNNING s) + b2z (is_st RUNNING s'))
            (n_done c - b2z (is_st DONE s) + b2z (is_st DONE s'))
            (n_pending c - b2z (is_st PENDING s) + b2z (is_st PENDING s'))).
Proof.
  intros [H1 H2 H3 H4] Hs. constructor; simpl; rewrite ?length_insert; [done|..];
    rewrite (cnt_insert _ _ _ _ s Hs); lia.
Qed.

Lemma ctr_range c : ctr_ok c ->
  0 <= n_active c <= 8192 /\ 0 <= n_done c <= 8192 /\ 0 <= n_pending c <= 8192.
Proof.
  intros [H1 H2 H3 H4]. rewrite H2, H3, H4. by split; [|split]; apply cnt_is_st_bound.
Qed.

Lemma ctr_positive c i s : ctr_ok c -> state c !! i = Some s ->
  match s with
  | RUNNING => 0 < n_active c
  | DONE => 0 < n_done c
  | PENDING => 0 < n_pending c
  | _ => True
  end.
Proof.
  intros [H1 H2 H3 H4] Hs.
  destruct s; try done; [rewrite H4|rewrite H2|rewrite H3]; by apply (cnt_pos _ _ i _ Hs).
Qed.

Lemma ctr_state c i : ctr_ok c -> (i < n_svc)%nat -> exists s, state c !! i = Some s.
Proof. intros HC Hi. apply lookup_lt_is_Some_2. by rewrite (ct_len _ HC). Qed.

(** The other counter is untouched unless the state was counted by it, so below
    the end the counters only move where the state does. *)
Lemma wp_set_state w i s l (Q : unit -> world -> Prop) : state (w_ctr w) = l -> (i < length l)%nat ->
  Q tt (set_w_ctr (set_state (<[i := s]> l) (w_ctr w)) w) -> wp (set_state_at i s) Q w.
Proof. intros <- Hi HQ. unfold set_state_at. apply wp_bind, wp_gets. apply wp_bind. by apply wp_store. Qed.

Lemma ctr_eq st a d p a' d' p' : a = a' -> d = d' -> p = p' -> Ctr st a d p = Ctr st a' d' p'.
Proof. by intros -> -> ->. Qed.

Ltac ctr_lia := apply ctr_eq; simpl; rewrite ?u32_small; lia.

(** [state[i]] becomes [s'], with the counters. *)
Definition ctr_move (i : nat) (s s' : svc_state) (c : ctr) : ctr :=
  Ctr (<[i := s']> (state c))
    (n_active c - b2z (is_st RUNNING s) + b2z (is_st RUNNING s'))
    (n_done c - b2z (is_st DONE s) + b2z (is_st DONE s'))
    (n_pending c - b2z (is_st PENDING s) + b2z (is_st PENDING s')).

Lemma world_ctr_eq c c' w : c = c' -> set_w_ctr c w = set_w_ctr c' w.
Proof. by intros ->. Qed.

Lemma set_ctr_twice a b w : set_w_ctr a (set_w_ctr b w) = set_w_ctr a w.
Proof. done. Qed.

Lemma ctr_move_same i s c : state c !! i = Some s -> ctr_move i s s c = c.
Proof.
  intros Hs. unfold ctr_move. rewrite list_insert_id by done. destruct c. simpl. f_equal; lia.
Qed.

Lemma svc_mark_pending_spec w i s (Q : unit -> world -> Prop) :
  ctr_ok (w_ctr w) -> state (w_ctr w) !! i = Some s ->
  Q tt (set_w_ctr (ctr_move i s PENDING (w_ctr w)) w) -> wp (svc_mark_pending i) Q w.
Proof.
  intros HC Hs HQ. pose proof (ctr_range _ HC). pose proof (ctr_positive _ _ _ HC Hs) as Hpos.
  pose proof (lookup_lt_Some _ _ _ Hs) as Hi.
  unfold svc_mark_pending. apply wp_bind. eapply wp_rd; [done|].
  destruct (decide (s = PENDING)) as [->|Hne].
  { apply wp_ret. rewrite ctr_move_same in HQ by done. by destruct w. }
  apply wp_bind. destruct s; simpl in *; try done.
  all: try apply wp_modify; try apply wp_ret.
  all: apply wp_bind; eapply wp_set_state; [done|done|]; apply wp_modify; simpl.
  all: rewrite ?set_ctr_twice; refine (eq_ind _ (Q tt) HQ _ _); apply world_ctr_eq; symmetry; unfold ctr_move, is_st; ctr_lia.
Qed.

Lemma svc_mark_done_spec w i r s (Q : unit -> world -> Prop) :
  ctr_ok (w_ctr w) -> state (w_ctr w) !! i = Some s -> runs w !! i = Some r ->
  Q tt (set_w_ctr (ctr_move i s DONE (w_ctr w)) (set_runs (<[i := set_starting false r]> (runs w)) w)) ->
  wp (svc_mark_done i) Q w.
Proof.
  intros HC Hs Hr HQ. pose proof (ctr_range _ HC). pose proof (ctr_positive _ _ _ HC Hs) as Hpos.
  pose proof (lookup_lt_Some _ _ _ Hs) as Hi.
  unfold svc_mark_done. apply wp_bind, (wp_mod_run _ _ r); [done|]. apply wp_bind. eapply wp_rd; [done|].
  apply wp_bind. destruct s; simpl in *.
  all: try apply wp_modify; try apply wp_ret.
  3: { rewrite ctr_move_same in HQ by done. apply HQ. }
  all: simpl; try (apply wp_bind; eapply wp_set_state; [done|done|]; apply wp_modify; simpl).
  all: rewrite ?set_ctr_twice; refine (eq_ind _ (Q tt) HQ _ _); apply world_ctr_eq; symmetry; unfold ctr_move, is_st; ctr_lia.
Qed.

(** ** Taking a service down *)

Lemma set_dep_id w : set_w_dep (w_dep w) w = w.
Proof. by destruct w. Qed.

Lemma set_dep_twice a b w : set_w_dep a (set_w_dep b w) = set_w_dep a w.
Proof. done. Qed.

Lemma wp_rel_of w i (Q : bool -> world -> Prop) : length (released (w_dep w)) = n_svc -> (i < n_svc)%nat ->
  Q (rel_b (w_dep w) i) w -> wp (rel_of i) Q w.
Proof. intros Hl Hi HQ. eapply wp_rd; [by apply lookup_rel|done]. Qed.

Lemma wp_up_of w i (Q : bool -> world -> Prop) : length (up (w_dep w)) = n_svc -> (i < n_svc)%nat ->
  Q (up_b (w_dep w) i) w -> wp (up_of i) Q w.
Proof. intros Hl Hi HQ. eapply wp_rd; [by apply lookup_up|done]. Qed.

Lemma wp_order_only i (Q : bool -> world -> Prop) w : (i < n_svc)%nat -> Q (oo_b i) w ->
  wp (lift (ng_order_only env_g i)) Q w.
Proof.
  intros Hi HQ. unfold oo_b in HQ. destruct (order_only_lookup i Hi) as [b Hb]. rewrite Hb in *. exact HQ.
Qed.

Lemma wp_set_rel w i v (Q : unit -> world -> Prop) : length (released (w_dep w)) = n_svc -> (i < n_svc)%nat ->
  Q tt (set_w_dep (set_rel i v (w_dep w)) w) -> wp (set_rel_at i v) Q w.
Proof.
  intros Hl Hi HQ. unfold set_rel_at. apply wp_bind, wp_gets. apply wp_bind, wp_store; [lia|]. exact HQ.
Qed.

Lemma svc_set_up_spec w i v (Q : unit -> world -> Prop) : length (up (w_dep w)) = n_svc -> (i < n_svc)%nat ->
  Q tt (set_w_dep (with_up i v (w_dep w)) w) -> wp (svc_set_up i v) Q w.
Proof.
  intros Hl Hi HQ. unfold svc_set_up. apply wp_bind, wp_up_of; [done..|].
  unfold with_up in HQ. destruct (eqb (up_b (w_dep w) i) v).
  - apply wp_ret. by rewrite set_dep_id in HQ.
  - apply wp_bind. unfold set_up_at. apply wp_bind, wp_gets. apply wp_bind, wp_store; [lia|].
    apply wp_modify. apply wp_modify. exact HQ.
Qed.

Lemma wp_bump w d k u (Q : unit -> world -> Prop) :
  d_unmet (w_dep w) !! d = Some u ->
  Q tt (set_w_dep (with_unmet d (u16 k) (w_dep w)) w) ->
  wp (dp ← gets w_dep; l ← store (d_unmet dp) d (u16 k); modify (set_w_dep (set_d_unmet l dp))) Q w.
Proof.
  intros Hu HQ. apply wp_bind, wp_gets. apply wp_bind, wp_store; [by apply lookup_lt_Some in Hu|].
  exact HQ.
Qed.

(** The work list of [svc_reclaim] from [dp0] on: the first [rt] entries have
    been taken back, each once, and those from [rh] on and [rem] still owe
    their dependents an increment. *)
Record recl (ex : nat -> Z) (i : nat) (dp0 : dep) (rh rt : nat) (rem : list nat) (dp : dep) : Prop := Recl {
  rc_dep : dep_ok (fun d => ex d - occ d rem - owed (drop rh (take rt (rqueue dp))) d) None dp;
  rc_le : (rh <= rt <= n_svc)%nat;
  rc_nodup : NoDup (take rt (rqueue dp));
  rc_rel : forall t, t ∈ take rt (rqueue dp) -> (t < n_svc)%nat /\ rel_b dp t = false;
  rc_ext : down_ext dp0 dp;
  rc_new : forall t, rel_b dp0 t = true -> rel_b dp t = false -> t ∈ take rt (rqueue dp);
  rc_block : nontarget i -> forall t, t ∈ take rt (rqueue dp) -> Blocked dp t;
}.

(** An entry is appended to the work list. *)
Lemma recl_take (rq : list nat) (rt d : nat) : (rt < length rq)%nat -> take (S rt) (<[rt := d]> rq) = take rt rq ++ [d].
Proof.
  intros Hl. rewrite (take_S_r _ _ d) by (by apply list_lookup_insert_eq).
  by rewrite take_insert_ge.
Qed.

Lemma recl_room (rq : list nat) (rt d : nat) : length rq = n_svc -> (rt <= n_svc)%nat -> NoDup (take rt rq) ->
  (forall t, t ∈ take rt rq -> (t < n_svc)%nat) -> d ∉ take rt rq -> (d < n_svc)%nat -> (rt < n_svc)%nat.
Proof.
  intros Hl Hrt Hnd Hb Hd Hdn. pose proof (nodup_room _ n_svc d Hnd Hb Hd Hdn) as Hr.
  rewrite length_take in Hr. lia.
Qed.

(** A target goes down with its prerequisite. *)
Lemma recl_push ex i dp0 rh rt rem dp d q : recl ex i dp0 rh rt rem dp -> (d < n_svc)%nat ->
  rel_b dp d = true -> edge env_g q d -> q ∈ take rt (rqueue dp) ->
  (rt < n_svc)%nat /\
  recl ex i dp0 rh (S rt) rem
    (set_rqueue (<[rt := d]> (rqueue dp)) (with_up d false (set_rel d false dp))).
Proof.
  intros [H1 H2 H3 H4 H5 H6 H7] Hd Hr He Hq.
  assert (d ∉ take rt (rqueue dp)) as Hnin by (intros Hin; apply H4 in Hin as [_ Hin]; congruence).
  assert (rt < n_svc)%nat as Hroom.
  { apply (recl_room (rqueue dp) rt d); [apply (de_rqueue _ _ _ H1)|lia|done|by intros; apply H4|done|done]. }
  split; [done|]. pose proof (de_rel _ _ _ H1) as Hl. pose proof (de_rqueue _ _ _ H1) as Hlq.
  set (dp' := set_rqueue _ _).
  assert (rqueue (with_up d false (set_rel d false dp)) = rqueue dp) as Hq1.
  { unfold with_up. by destruct (eqb _ _). }
  assert (take (S rt) (rqueue dp') = take rt (rqueue dp) ++ [d]) as Htk.
  { unfold dp'. simpl. apply recl_take. lia. }
  assert (forall t, rel_b dp' t = if decide (d = t) then false else rel_b dp t) as Hrel.
  { intros t. unfold dp'. rewrite <- (rel_b_set dp d false t) by done.
    unfold with_up. by destruct (eqb _ _). }
  assert (forall t, Blocked dp t -> Blocked dp' t) as Hmono.
  { intros t. apply blocked_mono. intros j. rewrite Hrel. by destruct (decide (d = j)). }
  constructor.
  - apply (dep_ok_ext (fun d' => ex d' - occ d' rem - owed (drop rh (take rt (rqueue dp))) d' - mult env_g d d')).
    { intros d' _. rewrite Htk, drop_app_le, owed_app by (rewrite length_take; lia). simpl. lia. }
    apply dep_ok_rqueue; [|rewrite length_insert; lia].
    apply dep_ok_up; [|done|right; left; rewrite rel_b_set by done; by rewrite decide_True].
    by apply dep_ok_reclaim; [apply dep_ok_weaken| |].
  - lia.
  - rewrite Htk. apply NoDup_app. split_ands; [done|intros t Ht ->%list_elem_of_singleton; done|apply NoDup_singleton].
  - intros t. rewrite Htk, Hrel, elem_of_app, list_elem_of_singleton.
    intros [Ht| ->]; [|by rewrite decide_True]. destruct (H4 t Ht). split; [done|]. by destruct (decide (d = t)).
  - etrans; [exact H5|]. constructor; [unfold dp', with_up; by destruct (eqb _ _)..|].
    intros t. rewrite Hrel. by destruct (decide (d = t)).
  - intros t Ht0. rewrite Htk, Hrel, elem_of_app, list_elem_of_singleton.
    destruct (decide (d = t)) as [<-|]; [by right|]. intros Ht. left. by apply H6.
  - intros Hi t. rewrite Htk, elem_of_app, list_elem_of_singleton. intros [Ht| ->]; [by apply Hmono, H7|].
    apply (Blocked_target _ q); [done|by apply Hmono, H7|]. rewrite Hrel. by rewrite decide_True.
Qed.

(** The increments stay within sixteen bits. *)
Definition ex_ok (ex : nat -> Z) : Prop := forall d, (d < n_svc)%nat -> 0 <= ex d <= indeg env_g d.

Definition recl_post (ex : nat -> Z) (i : nat) (dp0 dp : dep) (rh rt : nat) (rem : list nat) (w : world)
    (rt' : nat) (w' : world) : Prop :=
  exists dp', w' = set_w_dep dp' w /\ recl ex i dp0 rh rt' rem dp' /\
    forall t, t ∈ take rt (rqueue dp) -> t ∈ take rt' (rqueue dp').

Lemma recl_unmet ex i dp0 rh rt rem dp d : ex_ok ex -> recl ex i dp0 rh rt (d :: rem) dp -> (d < n_svc)%nat ->
  exists u, d_unmet dp !! d = Some u /\ recl ex i dp0 rh rt rem (with_unmet d (u16 (u + 1)) dp).
Proof.
  intros Hex [H1 H2 H3 H4 H5 H6 H7] Hd.
  pose proof (de_need _ _ _ H1 d Hd) as Hu. pose proof (de_range _ _ _ H1 _ _ Hu) as Hr.
  eexists. split; [exact Hu|]. constructor; try done.
  2: { etrans; [exact H5|]. by constructor. }
  2: { intros Hi t Ht. apply (blocked_mono dp); [done|by apply H7]. }
  apply (dep_ok_ext (fun d' => ex d' - occ d' (d :: rem) - owed (drop rh (take rt (rqueue dp))) d'
           + if decide (d = d') then 1 else 0)).
  { intros d' _. rewrite occ_cons. change (rqueue (with_unmet _ _ ?x)) with (rqueue x).
    destruct (decide (d = d')); lia. }
  apply (dep_ok_unmet _ None d 1 dp H1 Hd). cbv beta in *.
  pose proof (need_indeg dp d). pose proof (Hex d Hd). pose proof (indeg_bound d Hd).
  pose proof (occ_nonneg d (d :: rem)). pose proof (owed_nonneg (drop rh (take rt (rqueue dp))) d). lia.
Qed.

Lemma reclaim_dep_spec ex i dp0 rh rt rem d q w : ex_ok ex ->
  recl ex i dp0 rh rt (d :: rem) (w_dep w) -> edge env_g q d -> q ∈ take rt (rqueue (w_dep w)) ->
  wp (reclaim_dep rt d) (recl_post ex i dp0 (w_dep w) rh rt rem w) w.
Proof.
  intros Hex HR He Hq. destruct (edge_bound q d He) as [_ Hd].
  destruct (recl_unmet _ _ _ _ _ _ _ _ Hex HR Hd) as (u & Hu & HR1).
  set (dp1 := with_unmet d (u16 (u + 1)) (w_dep w)) in *.
  unfold reclaim_dep. apply wp_bind. eapply wp_rd; [done|].
  apply wp_bind, wp_gets. apply wp_bind, wp_store; [by apply lookup_lt_Some in Hu|].
  apply wp_bind, wp_modify. apply wp_bind.
  destruct (target_lookup d Hd) as [t Ht]. eapply wp_lift; [done|].
  assert (recl_post ex i dp0 (w_dep w) rh rt rem w rt (set_w_dep dp1 w)) as Hstay by (by exists dp1).
  destruct t; simpl; [|by apply wp_ret].
  pose proof (rc_dep _ _ _ _ _ _ _ HR1) as HD1.
  apply wp_bind, wp_rel_of; [apply (de_rel _ _ _ HD1)|done|]. apply wp_bind, wp_order_only; [done|].
  change (rel_b _ d) with (rel_b dp1 d).
  destruct (rel_b dp1 d) eqn:Hrel; simpl; [|by apply wp_ret]. destruct (oo_b d); simpl; [by apply wp_ret|].
  destruct (recl_push _ _ _ _ _ _ _ d q HR1 Hd Hrel He Hq) as (Hroom & HR2).
  apply wp_bind, wp_set_rel; [apply (de_rel _ _ _ HD1)|done|].
  apply wp_bind, svc_set_up_spec; [apply (de_up _ _ _ HD1)|done|].
  unfold rq_put. apply wp_bind, wp_gets.
  assert (rqueue (with_up d false (set_rel d false dp1)) = rqueue dp1) as Hq1.
  { unfold with_up. by destruct (eqb _ _). }
  match goal with |- wp (store (rqueue ?x) _ _ ≫= _) _ _ =>
    replace (rqueue x) with (rqueue dp1) by (symmetry; exact Hq1) end.
  apply wp_bind, wp_store; [rewrite (de_rqueue _ _ _ HD1); lia|]. apply wp_bind, wp_modify. apply wp_ret.
  eexists. split; [reflexivity|]. split; [exact HR2|].
  intros t Hin. pose proof (de_rqueue _ _ _ HD1) as HL. change (length (rqueue (w_dep w)) = n_svc) in HL.
  simpl. rewrite recl_take by lia. apply elem_of_app. by left.
Qed.

Lemma reclaim_deps_spec ex i dp0 rh q rem rt w : ex_ok ex ->
  recl ex i dp0 rh rt rem (w_dep w) -> (forall d, d ∈ rem -> edge env_g q d) ->
  q ∈ take rt (rqueue (w_dep w)) ->
  wp (reclaim_deps rt rem) (recl_post ex i dp0 (w_dep w) rh rt [] w) w.
Proof.
  intros Hex. revert rt w. induction rem as [|d rem IH]; intros rt w HR He Hq; simpl.
  { apply wp_ret. exists (w_dep w). split_ands; [by rewrite set_dep_id|done|done]. }
  apply wp_bind. eapply wp_mono; [apply (reclaim_dep_spec ex i dp0 rh rt rem d q); [done|done| |done]|].
  { apply He. by left. }
  intros rt1 w1 (dp1 & -> & HR1 & Hsub1). eapply wp_mono; [apply IH; [done| |by apply Hsub1]|].
  { intros d' Hd'. apply He. by right. }
  intros rt2 w2 (dp2 & -> & HR2 & Hsub2). exists dp2. split_ands; [done|done|].
  intros t Ht. by apply Hsub2, Hsub1.
Qed.

(** Popping an entry turns its row into the dependents still to be told. *)
Lemma recl_pop ex i dp0 rh rt dp j ds : recl ex i dp0 rh rt [] dp -> rqueue dp !! rh = Some j ->
  (rh < rt)%nat -> succs env_g j = Some ds -> recl ex i dp0 (S rh) rt ds dp.
Proof.
  intros [H1 H2 H3 H4 H5 H6 H7] Hj Hlt Hds. constructor; try done; [|lia].
  apply (dep_ok_ext (fun d => ex d - occ d [] - owed (drop rh (take rt (rqueue dp))) d)); [|done].
  intros d _. rewrite (drop_S _ j rh) by (rewrite lookup_take_lt; done). simpl.
  rewrite (mult_succs _ _ _ Hds). change (occ d []) with 0. lia.
Qed.

Lemma reclaim_loop_spec ex i dp0 fuel rh rt w : ex_ok ex ->
  recl ex i dp0 rh rt [] (w_dep w) -> (n_svc - rh < fuel)%nat ->
  wp (reclaim_loop fuel rh rt) (fun _ w' => exists dp', w' = set_w_dep dp' w /\
     exists rt', recl ex i dp0 rt' rt' [] dp') w.
Proof.
  intros Hex. revert rh rt w. induction fuel as [|fuel IH]; intros rh rt w HR Hf; [lia|]. simpl.
  pose proof (rc_le _ _ _ _ _ _ _ HR) as Hle.
  destruct (decide (rh < rt)%nat).
  - pose proof (de_rqueue _ _ _ (rc_dep _ _ _ _ _ _ _ HR)) as Hlq.
    destruct (lookup_lt_is_Some_2 (rqueue (w_dep w)) rh) as [j Hj]; [lia|].
    assert (j ∈ take rt (rqueue (w_dep w))) as Hin.
    { apply list_elem_of_lookup. exists rh. by rewrite lookup_take_lt. }
    destruct (rc_rel _ _ _ _ _ _ _ HR j Hin) as [Hjn _].
    destruct (succs_lookup j Hjn) as (ds & Hds & _).
    apply wp_bind. eapply wp_rd; [done|]. apply wp_bind. eapply wp_lift; [done|]. apply wp_bind.
    eapply wp_mono; [apply (reclaim_deps_spec ex i dp0 (S rh) j ds rt); [done|by eapply recl_pop| |done]|].
    { intros d Hd. by exists ds. }
    intros rt1 w1 (dp1 & -> & HR1 & _). eapply wp_mono; [apply IH; [exact HR1|lia]|].
    intros [] w2 (dp2 & -> & Hx). by exists dp2.
  - apply wp_ret. exists (w_dep w). split; [by rewrite set_dep_id|]. exists rt.
    by assert (rh = rt) as -> by lia.
Qed.

(** What taking [i] down leaves. *)
Definition down_post (ex : nat -> Z) (i : nat) (dp0 : dep) (w w' : world) : Prop :=
  exists dp', w' = set_w_dep dp' w /\ dep_ok ex None dp' /\ down_ext dp0 dp' /\
    (nontarget i -> blocks dp0 dp').

Lemma svc_reclaim_spec ex i dp0 w : ex_ok ex -> (i < n_svc)%nat ->
  dep_ok ex (Some i) (w_dep w) -> up_b (w_dep w) i = false ->
  down_ext dp0 (w_dep w) -> (forall t, rel_b (w_dep w) t = rel_b dp0 t) ->
  wp (svc_reclaim i) (fun _ => down_post ex i dp0 w) w.
Proof.
  intros Hex Hi HD Hup HX Hsame. unfold svc_reclaim.
  apply wp_bind, wp_rel_of; [apply (de_rel _ _ _ HD)|done|]. apply wp_bind, wp_order_only; [done|].
  assert (blocks dp0 (w_dep w)) as Hb0 by (intros t H1 H2; rewrite Hsame in H2; congruence).
  assert (rel_b (w_dep w) i = false \/ oo_b i = true -> down_post ex i dp0 w w) as Hstay.
  { intros Hor. exists (w_dep w). split_ands; [by rewrite set_dep_id| |done|done].
    apply (dep_ok_strengthen _ i); [done|tauto]. }
  destruct (rel_b (w_dep w) i) eqn:Hrel; simpl; [|by apply wp_ret, Hstay; left].
  destruct (oo_b i) eqn:Hoo; simpl; [by apply wp_ret, Hstay; right|].
  apply wp_bind, wp_set_rel; [apply (de_rel _ _ _ HD)|done|].
  unfold rq_put. apply wp_bind, wp_bind, wp_gets.
  apply wp_bind, wp_store; [simpl; rewrite (de_rqueue _ _ _ HD); lia|].
  apply wp_bind, wp_modify. apply wp_ret.
  set (dp1 := set_rqueue _ _).
  assert (take 1 (rqueue dp1) = [i]) as Htk.
  { unfold dp1. simpl. apply (recl_take _ 0 i). rewrite (de_rqueue _ _ _ HD). lia. }
  assert (forall t, rel_b dp1 t = if decide (i = t) then false else rel_b (w_dep w) t) as Hr1.
  { intros t. unfold dp1. by rewrite <- (rel_b_set (w_dep w) i false t) by (done || apply (de_rel _ _ _ HD)). }
  change (wp (reclaim_loop (S n_svc) 0 1) (fun _ => down_post ex i dp0 w) (set_w_dep dp1 w)).
  eapply wp_mono; [apply (reclaim_loop_spec ex i dp0 _ 0 1 (set_w_dep dp1 w)); [done| |unfold n_svc; lia]|].
  - change (w_dep (set_w_dep dp1 w)) with dp1. constructor; rewrite ?Htk.
    + apply (dep_ok_ext (fun d => ex d - mult env_g i d)); [intros d _; simpl; change (occ d []) with 0; lia|].
      apply dep_ok_rqueue; [|rewrite length_insert; apply (de_rqueue _ _ _ HD)].
      by apply dep_ok_reclaim.
    + lia.
    + apply NoDup_singleton.
    + intros t ->%list_elem_of_singleton. split; [done|]. rewrite Hr1. by rewrite decide_True.
    + etrans; [exact HX|]. constructor; [done..|]. intros t. rewrite Hr1. by destruct (decide (i = t)).
    + intros t H1 H2. rewrite Hr1 in H2. apply list_elem_of_singleton.
      destruct (decide (i = t)) as [->|]; [done|]. rewrite Hsame in H2. congruence.
    + intros Hnt t ->%list_elem_of_singleton. apply Blocked_service; [done..|].
      rewrite Hr1. by rewrite decide_True.
  - intros [] w' (dp' & -> & rt' & HR). exists dp'. split; [done|]. split; [|split].
    + eapply dep_ok_ext; [|apply (rc_dep _ _ _ _ _ _ _ HR)]. intros d _. simpl.
      rewrite drop_ge by (rewrite length_take; lia). change (occ d []) with 0. simpl. lia.
    + apply (rc_ext _ _ _ _ _ _ _ HR).
    + intros Hnt t H1 H2. apply (rc_block _ _ _ _ _ _ _ HR Hnt), (rc_new _ _ _ _ _ _ _ HR); done.
Qed.

Lemma go_down_dep_spec ex i w : ex_ok ex -> (i < n_svc)%nat -> dep_ok ex None (w_dep w) ->
  wp (go_down i) (fun _ => down_post ex i (w_dep w) w) w.
Proof.
  intros Hex Hi HD. unfold go_down.
  apply wp_bind, wp_up_of; [apply (de_up _ _ _ HD)|done|].
  apply wp_bind, wp_rel_of; [apply (de_rel _ _ _ HD)|done|].
  destruct (negb (up_b (w_dep w) i) && negb (rel_b (w_dep w) i)).
  { apply wp_ret. exists (w_dep w). split_ands; [by rewrite set_dep_id|done|done|].
    intros _. apply blocks_refl. }
  apply wp_bind, svc_set_up_spec; [apply (de_up _ _ _ HD)|done|].
  set (dp1 := with_up i false (w_dep w)).
  assert (forall t, rel_b dp1 t = rel_b (w_dep w) t) as Hr by (intros t; unfold dp1, with_up; by destruct (eqb _ _)).
  eapply wp_mono.
  - apply (svc_reclaim_spec ex i (w_dep w)); [done|done| | | |exact Hr]; simpl.
    + apply dep_ok_up; [by apply dep_ok_weaken|done|by right; right; right].
    + unfold dp1. rewrite up_b_set by (done || apply (de_up _ _ _ HD)). by rewrite decide_True.
    + constructor; [unfold dp1, with_up; by destruct (eqb _ _)..|]. intros t. by rewrite Hr.
  - intros [] w' (dp' & -> & H1). by exists dp'.
Qed.

(** ** Giving up *)

(** A loop over the live list whose body at most drops services ends. *)
Lemma live_loop_shrinks (I : world -> Prop) body fuel k w :
  (forall w, I w -> side None w) ->
  (forall d w, I w -> (d < n_svc)%nat -> wp (body d) (fun _ w' => I w' /\ shrinks w w') w) ->
  I w -> (n_live (w_lv w) - k < fuel)%nat -> wp (live_loop fuel k body) (fun _ w' => I w') w.
Proof.
  intros HI Hb. revert k w. induction fuel as [|fuel IH]; intros k w Hw Hf; [lia|]. simpl.
  apply wp_bind, wp_gets. destruct (decide (k < n_live (w_lv w))%nat) as [Hk|]; [|by apply wp_ret].
  apply wp_bind. eapply live_at_spec; [by apply HI|done|]. intros d Hdn Hd _.
  apply wp_bind. eapply wp_mono; [by apply Hb|]. intros [] w1 [Hw1 Hsh].
  apply wp_bind, wp_gets. apply wp_bind. pose proof (sd_live _ _ (HI w1 Hw1)) as HL1.
  destruct (decide (k < n_live (w_lv w1))%nat) as [Hk1|Hk1].
  - destruct (lookup_lt_is_Some_2 (live (w_lv w1)) k) as [j Hj]; [destruct HL1; lia|].
    apply wp_bind. eapply wp_rd; [done|]. apply wp_ret. apply IH; [done|].
    destruct Hsh as [E1|E1]; [|destruct (j =? d)%nat; lia].
    rewrite E1 in *. rewrite Hd in Hj. injection Hj as ->. rewrite Nat.eqb_refl. lia.
  - apply wp_ret. apply IH; [done|lia].
Qed.

(** A loop over the live list stays within it. *)
Lemma live_loop_safe (I : world -> Prop) body fuel k w :
  (forall w, I w -> side None w) ->
  (forall d w, I w -> (d < n_svc)%nat -> wlp (body d) (fun _ w' => I w') w) ->
  I w -> wlp (live_loop fuel k body) (fun _ w' => I w') w.
Proof.
  intros HI Hb. revert k w. induction fuel as [|fuel IH]; intros k w Hw; [done|]. simpl.
  destruct (decide (k < n_live (w_lv w))%nat) as [Hk|]; [|by apply wp_wlp, wp_bind, wp_gets; rewrite decide_False].
  eapply wlp_step; [by apply (wp_gets _ (fun n w' => n = n_live (w_lv w) /\ w' = w))|].
  intros n w0 [-> ->]. rewrite decide_True by done.
  eapply wlp_step; [eapply (live_at_spec None w k (fun d w' => (d < n_svc)%nat /\ w' = w)); eauto|].
  intros d w0 [Hd ->]. apply wlp_bind. eapply wlp_mono; [by apply Hb|]. intros [] w1 Hw1.
  eapply wlp_step; [by apply (wp_gets _ (fun n w' => n = n_live (w_lv w1) /\ w' = w1))|].
  intros n w0 [-> ->]. eapply (wlp_step _ _ (fun _ w' => w' = w1)).
  - destruct (decide (k < n_live (w_lv w1))%nat); [|by apply wp_ret].
    apply wp_bind. eapply live_at_spec; [by apply HI|done|]. intros j Hj _ _. by apply wp_ret.
  - intros same w0 ->. by apply IH.
Qed.

(** What a step that changes the counters leaves alone. *)
Record aside (w w' : world) : Prop := Aside {
  as_dep : w_dep w' = w_dep w;
  as_want : want w' = want w;
  as_shut : shutting_down w' = shutting_down w;
  as_side : side None w';
}.

Lemma unretry_spec d w : (d < n_svc)%nat -> length (state (w_ctr w)) = n_svc -> side None w ->
  wp (unretry d) (fun _ w' => calm w w' /\ shrinks w w') w.
Proof.
  intros Hd Hst HS. unfold unretry.
  destruct (lookup_lt_is_Some_2 (state (w_ctr w)) d) as [s Hs]; [lia|].
  destruct (side_run _ w d HS Hd) as [r Hr].
  apply wp_bind. eapply wp_rd; [done|]. apply wp_bind. eapply wp_rd; [done|].
  apply wp_when; intros _; [|split; [by apply calm_refl|by left]].
  apply wp_bind. eapply wp_tame; [apply tameM_mod_run; [done|]; intros r0; by constructor|done|].
  intros [] w1 T1. eapply wp_mono; [apply maybe_free_spec; [done|by apply (tame_side _ w)]|].
  intros [] w2 [C2 Hsh]. split.
  - apply (calm_trans _ w1); [by apply tame_calm|done].
  - unfold shrinks in *. by rewrite <- (tm_lv _ _ T1).
Qed.

(** The counters before [skipped_note] settles them. *)
Record ctr_owed (p : poisoned) (c : ctr) : Prop := CtrOwed {
  cw_len : length (state c) = n_svc;
  cw_active : n_active c = cnt (is_st RUNNING) (state c) + p_waiting p;
  cw_done : n_done c = cnt (is_st DONE) (state c) + p_undone p;
  cw_pending : n_pending c = cnt (is_st PENDING) (state c) + (p_count p - p_waiting p);
  cw_waiting : 0 <= p_waiting p <= p_count p;
  cw_undone : 0 <= p_undone p;
  cw_small : n_active c <= 8192 /\ n_done c <= 8192 /\ n_pending c <= 8192;
}.

Lemma skipped_note_spec i p w : (i < n_svc)%nat -> ctr_owed p (w_ctr w) -> side None w ->
  wp (skipped_note i p) (fun _ w' => aside w w' /\ ctr_ok (w_ctr w') /\ state (w_ctr w') = state (w_ctr w)) w.
Proof.
  intros Hi HC HS. destruct HC as [H1 H2 H3 H4 H5 H6 H7]. unfold skipped_note.
  apply wp_bind, wp_gets. apply wp_bind. eapply wp_mono.
  { apply (live_loop_shrinks (calm w)); [apply cl_side| |by apply calm_refl|lia].
    intros d w1 C1 Hd. eapply wp_mono; [apply unretry_spec; [done|by rewrite (cl_ctr _ _ C1)|by apply (cl_side w)]|].
    intros [] w2 [C2 Hsh]. split; [by apply (calm_trans _ w1)|done]. }
  intros [] w1 C1. do 3 (apply wp_bind, wp_modify).
  set (c := w_ctr w) in *.
  pose proof (cnt_is_st_bound RUNNING _ H1). pose proof (cnt_is_st_bound DONE _ H1).
  pose proof (cnt_is_st_bound PENDING _ H1).
  eapply (wp_mono _ (fun _ w' => tame (set_w_ctr (Ctr (state c) (n_active c - p_waiting p)
     (n_done c - p_undone p) (n_pending c - (p_count p - p_waiting p))) w1) w')).
  - match goal with |- wp _ _ ?w0 => replace w0 with (set_w_ctr (Ctr (state c) (n_active c - p_waiting p)
     (n_done c - p_undone p) (n_pending c - (p_count p - p_waiting p))) w1) end.
    + assert (side None (set_w_ctr (Ctr (state c) (n_active c - p_waiting p)
        (n_done c - p_undone p) (n_pending c - (p_count p - p_waiting p))) w1)) as HS1
        by (destruct (cl_side _ _ C1); by constructor).
      eapply wp_tame; [tame_tac|exact HS1|]. done.
    + simpl. rewrite (cl_ctr _ _ C1). fold c. rewrite ?set_ctr_twice. apply world_ctr_eq. unfold set_n_done, set_n_active, set_n_pending. simpl.
      rewrite (u32_small (p_count p - p_waiting p)) by lia. apply ctr_eq; rewrite ?u32_small; lia.
  - intros [] w2 T2. cbv beta in T2. split.
    + pose proof (tm_dep _ _ T2) as E1. pose proof (tm_want _ _ T2) as E2. pose proof (tm_shut _ _ T2) as E3.
      simpl in *. destruct C1. constructor; [congruence..|]. apply (tame_side _ _ _ T2).
      destruct cl_side. by constructor.
    + rewrite (tm_ctr _ _ T2). simpl. split; [|done]. constructor; simpl; [done|lia..].
Qed.

(** What giving up on services leaves, and what it may do to a hand-over. *)
Record grows (i : nat) (w w' : world) : Prop := Grows {
  gr_want : want w' = want w;
  gr_shut : shutting_down w' = shutting_down w;
  gr_ext : down_ext (w_dep w) (w_dep w');
  gr_block : nontarget i -> blocks (w_dep w) (w_dep w');
  gr_root : forall r, is_root r -> r <> i -> state (w_ctr w') !! r = state (w_ctr w) !! r;
}.

Lemma grows_refl i w : grows i w w.
Proof. constructor; [done..|intros _; apply blocks_refl|done]. Qed.

Lemma grows_trans i w1 w2 w3 : grows i w1 w2 -> grows i w2 w3 -> grows i w1 w3.
Proof.
  intros [A1 A2 A3 A4 A5] [B1 B2 B3 B4 B5]. constructor; [congruence..|by etrans| |].
  - intros Hn. eapply blocks_trans; eauto.
  - intros r Hr Hi. by rewrite B5, A5.
Qed.

Lemma calm_grows i w w' : calm w w' -> grows i w w'.
Proof.
  intros []. constructor; [done..| | |]; rewrite ?cl_dep, ?cl_ctr; try done. intros _. apply blocks_refl.
Qed.

(** The counts of [fail_poison] are what the counters owe. *)
Lemma accounts_owed st0 p c : length st0 = n_svc -> accounts st0 p -> state c = p_state p ->
  n_active c = cnt (is_st RUNNING) st0 -> n_done c = cnt (is_st DONE) st0 ->
  n_pending c = cnt (is_st PENDING) st0 -> ctr_owed p c.
Proof.
  intros H0 [] Hs H1 H2 H3. pose proof (cnt_is_st_bound RUNNING st0 H0).
  pose proof (cnt_is_st_bound DONE st0 H0). pose proof (cnt_is_st_bound PENDING st0 H0).
  constructor; rewrite ?Hs; lia.
Qed.

Lemma put_poisoned_spec o p w (Q : poisoned -> world -> Prop) : o = Some p ->
  Q p (set_w_ctr (set_state (p_state p) (w_ctr w)) w) -> wp (put_poisoned o) Q w.
Proof. intros -> HQ. unfold put_poisoned. apply wp_bind, wp_ret. apply wp_bind, wp_modify. by apply wp_ret. Qed.

Lemma poison_deps_spec ex i w : (i < n_svc)%nat -> Inv ex w ->
  wp (poison_deps i) (fun _ w' => Inv ex w' /\ aside w w') w.
Proof.
  intros Hi [HC HD HS]. unfold poison_deps. apply wp_bind, wp_order_only; [done|].
  destruct (oo_b i); [apply wp_ret; split; by constructor|]. apply wp_bind, wp_gets.
  destruct (fail_poison_deps_accounts (up (w_dep w)) (runs w) (de_up _ _ _ HD) (sd_runs _ _ HS)
    (state (w_ctr w)) i (ct_len _ HC) Hi) as (p & Hp & HA).
  apply wp_bind. eapply put_poisoned_spec; [exact Hp|]. eapply wp_mono.
  - apply skipped_note_spec; [done| |destruct HS; by constructor]. simpl.
    eapply accounts_owed; [by apply (ct_len _ HC)|exact HA|done|..]; simpl; by destruct HC.
  - intros [] w' [[A1 A2 A3 A4] [HC' _]]. simpl in *. split; [|by constructor].
    constructor; [done|by rewrite A1|done].
Qed.

Lemma poison_spec ex i s w : ex_ok ex -> (i < n_svc)%nat -> Inv ex w ->
  state (w_ctr w) !! i = Some s -> s = RUNNING \/ s = PENDING ->
  wp (poison i) (fun _ w' => Inv ex w' /\ grows i w w') w.
Proof.
  intros Hex Hi [HC HD HS] Hs Hor. unfold poison. apply wp_bind. eapply wp_rd; [done|].
  set (c1 := Ctr (state (w_ctr w)) (n_active (w_ctr w) - b2z (is_st RUNNING s)) (n_done (w_ctr w))
               (n_pending (w_ctr w) - b2z (is_st PENDING s))).
  apply wp_bind. apply (wp_mono _ (fun _ w' => w' = set_w_ctr c1 w)).
  { pose proof (ctr_range _ HC). pose proof (ctr_positive _ _ _ HC Hs) as Hpos.
    destruct Hor as [-> | ->]; simpl; apply wp_modify; apply world_ctr_eq; unfold c1, is_st; simpl;
      apply ctr_eq; rewrite ?u32_small; lia. }
  intros [] w1 ->. apply wp_bind.
  eapply wp_mono; [by apply (go_down_dep_spec ex)|]. intros [] w2 (dp' & -> & HD' & HX & HB).
  apply wp_bind, wp_gets. simpl.
  destruct (fail_poison_accounts (up dp') (runs w) (de_up _ _ _ HD') (sd_runs _ _ HS)
    (state (w_ctr w)) i (ct_len _ HC) Hi) as (p & Hp & HA).
  apply wp_bind. eapply put_poisoned_spec; [exact Hp|]. eapply wp_mono.
  - apply skipped_note_spec; [done| |destruct HS; by constructor]. simpl.
    eapply accounts_owed; [|exact HA|done|..]; simpl; rewrite ?length_insert, ?(cnt_insert _ _ _ _ _ Hs);
      destruct HC as [C1 C2 C3 C4]; [done|rewrite C2|rewrite C3|rewrite C4];
      destruct Hor as [-> | ->]; unfold is_st; simpl; lia.
  - intros [] w' [[A1 A2 A3 A4] [HC' Est]]. simpl in *. split.
    + constructor; [done|by rewrite A1|done].
    + constructor; rewrite ?A1, ?Est; try done. intros r Hr Hne.
      rewrite (ac_root _ _ HA r Hr). by rewrite list_lookup_insert_ne.
Qed.

End Spec.

#[export] Hint Resolve signal_group_tame kill_group_tame svc_gone_tame : tame.
