(* ===== verification/Spawn.v ===== *)
(** * Starting a process (src/spawn.c) and a start that failed (src/reap.c)

    [launch] forks, as pid 1 sees it; what the child does before its exec is in
    the component for the child. [service_failed] decides between another
    attempt and giving up. *)

From stdpp Require Import gmap.
From S2P Require Import Prelude Ngraph PidMap World Sys Inv Live Cgroup Fail Emerg Output Deps State.

Definition RETRY_MIN_MS : Z := 10.
Definition EXIT_NOEXEC : Z := 127 * 256.

Section Ops.
Context `{Env}.

Definition retry_delay_ms (i : nat) : M Z :=
  p ← lift (g_pol env_g !! i);
  mret (if retry_ms p <? RETRY_MIN_MS then RETRY_MIN_MS else retry_ms p).

(** [char why[160]] *)
Definition fail_apply (i : nat) (act : fail_act) : M unit :=
  poison i;;
  match act with
  | FAIL_SHELL =>
      nm ← name_of i;
      fail_emergency_shell (take 159 (bs "boot: cannot continue without " ++ nm))
  | _ => mret tt
  end.

(** A service that fails to start has no process and no descriptor any more,
    and leaves the live list unless something still waits for it. *)
Definition failed_cleanup (i : nat) : M unit :=
  kill_group i;;
  drain_out i DRAIN_FINAL_CHUNKS false;;
  close_fds i;;
  mod_run i (set_starting false);;
  svc_abandon i;;
  l ← live_has i;
  r ← run_of i;
  when ((l : bool) && (stale_pid r =? 0) && bool_decide (op r = OP_NONE)) (live_del i).

Definition service_failed (i : nat) (status : Z) : M unit :=
  failed_cleanup i;;
  r ← run_of i;
  sd ← gets shutting_down;
  if (sd : bool) then mret tt else
  when (attempt r <? 255) (mod_run i (fun r => set_attempt (attempt r + 1) r));;
  r ← run_of i;
  tries ← lift (ng_start_tries env_g i);
  act ← fail_service i status (attempt r) tries (r_tail r);
  match act with
  | FAIL_RETRY =>
      l ← live_has i;
      when (negb l) (live_add i);;
      r ← run_of i;
      mod_run i (set_stale_hold (negb (stale_pid r =? 0)));;
      now ← now_ms;
      delay ← (if negb (stale_pid r =? 0) then mret KILL_GRACE_MS else retry_delay_ms i);
      mod_run i (set_restart_at (now + delay))
  | _ => fail_apply i act
  end.

(** The pid of a child forked into the group of the service, -1 without one. *)
Definition spawn_into_cgroup (i : nat) (have_cg : bool) : M Z :=
  c3 ← gets clone3_ok;
  match cg_path i [] CG_PATH_MAX with
  | None => mret (-1)
  | Some dir =>
      if negb c3 || negb have_cg then mret (-1) else
      f ← call (fun k => os_open k dir);
      match f with
      | inr _ => mret (-1)
      | inl fd =>
          p ← call (fun k => os_clone k fd);
          match p with
          | inl p => mret p
          | inr err =>
              when ((err =? ENOSYS) || (err =? EINVAL) || (err =? E2BIG) || (err =? EOPNOTSUPP))
                (modify (set_clone3_ok false);;
                 log_warn (bs "cgroup: this kernel cannot fork into a cgroup, joining after fork instead"));;
              mret (-1)
          end
      end
  end.

(** The two forks of [launch]: the pid, or errno. *)
Definition fork_child (i : nat) (have_cg : bool) : M (Z + Z) :=
  r ← run_of i;
  p ← spawn_into_cgroup i (have_cg && negb (cg_killed r));
  if 0 <=? p then mret (inl p) else call os_fork.

(** The pipes: the read end of the output and of the readiness report, -1 when
    the service makes none. *)
Definition launch_pipes (i : nat) (reports : bool) : M (option (Z * Z)) :=
  nm ← name_of i;
  o ← call os_pipe;
  match o with
  | inr err => log_err (nm ++ bs ": pipe: " ++ os_strerror err);; mret None
  | inl (out_r, _) =>
      if negb reports then mret (Some (out_r, -1)) else
      n ← call os_pipe;
      match n with
      | inr err => log_err (nm ++ bs ": pipe: " ++ os_strerror err);; mret None
      | inl (ntf_r, _) => mret (Some (out_r, ntf_r))
      end
  end.

(** What [launch] resets before it tries. *)
Definition launch_reset (exec_ready : bool) (r : run) : run :=
  set_ntf_exec exec_ready (set_starting true (set_timedout false (set_hup false
    (set_r_line [] (set_r_tail [] r))))).

(** What it records of the child. *)
Definition launch_child (p out_r ntf_r : Z) (r : run) : run :=
  set_ntf_fd ntf_r (set_out_fd out_r (set_pgid p (set_pid p r))).

(** Whether the child was started. *)
Definition launch (i : nat) : M bool :=
  ty ← lift (ng_type env_g i);
  nfd ← lift (ng_notify env_g i);
  let exec_ready := (ty =? NG_TYPE_DAEMON) && (nfd =? 0) in
  mod_run i (launch_reset exec_ready);;
  nm ← name_of i;
  fds ← launch_pipes i (negb (nfd =? 0) || exec_ready);
  match fds with
  | None => mret false
  | Some (out_r, ntf_r) =>
      r ← run_of i;
      when (cg_killed r)
        (gone ← cgroup_drop i; when gone (mod_run i (set_cg_killed false)));;
      cg ← cgroup_make i CG_PATH_MAX;
      f ← fork_child i (negb (bool_decide (cg = [])));
      match f with
      | inr err => log_err (nm ++ bs ": fork: " ++ os_strerror err);; mret false
      | inl p =>
          d ← gets w_dep;
          wn ← want_of i;
          emit (EvFork i p d wn);;
          mod_run i (launch_child p out_r ntf_r);;
          pid_put_m p i;;
          now ← now_ms;
          mod_run i (set_started now);;
          l ← live_has i;
          when (negb l) (live_add i);;
          mret true
      end
  end.

Definition spawn (i : nat) : M unit :=
  s ← st_of i;
  when (negb (bool_decide (s = RUNNING)))
    (when (bool_decide (s = PENDING)) (mod_ctr dec_pending);;
     set_state_at i RUNNING;;
     mod_ctr inc_active);;
  ok ← launch i;
  when (negb ok) (service_failed i EXIT_NOEXEC).

End Ops.

(** ** A start that failed *)

Section Spec.
Context `{E : Env} `{!EnvOk E}.

Lemma retry_delay_tame i : (i < n_svc)%nat -> tameM (retry_delay_ms i).
Proof. intros Hi. unfold retry_delay_ms. tame_tac. by apply tameM_lift, pol_lookup. Qed.

Lemma tries_tame i : (i < n_svc)%nat -> tameM (lift (ng_start_tries env_g i)).
Proof. intros Hi. by apply tameM_lift, tries_lookup. Qed.

Hint Resolve retry_delay_tame tries_tame : tame.

Lemma failed_cleanup_calm i : (i < n_svc)%nat -> calmM (failed_cleanup i).
Proof.
  intros Hi w HS. unfold failed_cleanup.
  apply wp_bind. eapply wp_tame; [by apply kill_group_tame|done|]. intros [] w1 T1.
  pose proof (tame_side _ _ _ T1 HS) as HS1.
  apply wp_bind. eapply wp_tame; [by apply drain_out_tame|done|]. intros [] w2 T2.
  pose proof (tame_side _ _ _ T2 HS1) as HS2.
  apply wp_bind. eapply close_fds_spec; [done..|]. intros w3 r3 T3 Hr3 Ho Hn.
  pose proof (tame_side _ _ _ T3 HS2) as HS3.
  apply wp_bind, (mod_run_tame_spec _ _ r3); [done|by constructor|]. intros w4 T4 Hr4 _.
  pose proof (tame_side _ _ _ T4 HS3) as HS4.
  assert (calm w w4) as C4.
  { apply tame_calm; [done|]. do 3 (etrans; [eassumption|]). done. }
  apply wp_bind. eapply svc_abandon_spec; [done..|]. intros w5 r5 C5 Hlv Hr5 Hp Ho5 Hn5 Hop5.
  pose proof (calm_trans _ _ _ C4 C5) as C. pose proof (cl_side _ _ C) as HS5.
  apply wp_bind. eapply live_has_spec; [done..|]. intros b Hb. apply wp_bind. eapply wp_rd; [done|].
  apply wp_when; [|done]. rewrite !andb_true_iff, Z.eqb_eq, bool_decide_eq_true.
  intros [[-> Hst] Hop]. eapply live_del_spec; [done|done| |by apply Hb|].
  - intros Hbz. unfold busy in Hbz. simpl in *. rewrite Ho5, Hn5, Hp in Hbz. simpl in Hbz.
    destruct Hbz as [?|[?|[?|[?|?]]]]; lia || done.
  - intros l' rs' _ _ _ HS'. destruct C. by constructor.
Qed.

Lemma fail_apply_spec ex i act w0 w : ex_ok ex -> (i < n_svc)%nat -> Inv ex w0 -> calm w0 w ->
  state (w_ctr w0) !! i = Some RUNNING ->
  wp (fail_apply i act) (fun _ w' => Inv ex w' /\ grows i w0 w') w.
Proof.
  intros Hex Hi HI C Hs. unfold fail_apply. apply wp_bind.
  eapply wp_mono; [apply (poison_spec ex i RUNNING); [done|done|by apply (calm_inv _ w0)| |by left]|].
  { by rewrite (cl_ctr _ _ C). }
  intros [] w1 [HI1 HG1]. pose proof (grows_trans _ _ _ _ (calm_grows i _ _ C) HG1) as HG.
  assert (tameM (match act with FAIL_SHELL => nm ← name_of i;
    fail_emergency_shell (take 159 (bs "boot: cannot continue without " ++ nm)) | _ => mret tt end)) as Htm by tame_tac.
  eapply wp_tame; [exact Htm|apply (in_side _ _ HI1)|]. intros [] w2 T2. split; [by apply (tame_inv _ w1)|].
  apply (grows_trans _ _ w1); [done|]. apply calm_grows, tame_calm; [apply (in_side _ _ HI1)|done].
Qed.

Lemma service_failed_spec ex i status w : ex_ok ex -> (i < n_svc)%nat -> Inv ex w ->
  state (w_ctr w) !! i = Some RUNNING ->
  wp (service_failed i status) (fun _ w' => Inv ex w' /\ grows i w w') w.
Proof.
  intros Hex Hi HI Hs. unfold service_failed.
  apply wp_bind. eapply wp_calm; [by apply failed_cleanup_calm|apply (in_side _ _ HI)|]. intros [] w1 C1.
  assert (forall w', calm w w' -> Inv ex w' /\ grows i w w') as Hdone.
  { intros w' C. split; [by apply (calm_inv _ w)|by apply calm_grows]. }
  apply wp_bind. eapply wp_tame_calm; [by apply tameM_run_of|done|]. intros r1 w2 C2.
  apply wp_bind, wp_gets. destruct (shutting_down w2); [by apply wp_ret, Hdone|].
  apply wp_bind. eapply wp_tame_calm; [tame_tac|done|]. intros [] w3 C3.
  apply wp_bind. eapply wp_tame_calm; [by apply tameM_run_of|done|]. intros r3 w4 C4.
  apply wp_bind. eapply wp_tame_calm; [by apply tries_tame|done|]. intros tries w5 C5.
  apply wp_bind. eapply wp_tame_calm; [by apply fail_service_tame|done|]. intros act w6 C6.
  destruct act; [|by apply (fail_apply_spec _ _ _ w)..].
  apply wp_bind. eapply live_has_spec; [apply (cl_side _ _ C6)|done|]. intros b Hb.
  apply wp_bind. apply (wp_mono _ (fun _ w' => calm w w')).
  { apply wp_when; intros Hn; [|done]. eapply live_add_spec; [apply (cl_side _ _ C6)|done| |].
    - intros Hin. apply Hb in Hin. by rewrite Hin in Hn.
    - intros l' rs' _ _ HS'. rewrite decide_False in HS' by done. destruct C6. by constructor. }
  intros [] w7 C7. eapply wp_tame_calm; [|exact C7|intros [] w8 C8; by apply Hdone].
  tame_tac.
Qed.

(** ** The pid table *)

Lemma table_room (m : gmap Z nat) rs :
  (forall p i, m !! p = Some i -> 0 < p /\ exists r, rs !! i = Some r /\ (pid r = p \/ stale_pid r = p)) ->
  (size m <= 2 * length rs)%nat.
Proof.
  intros Hm. assert ((map_to_list m).*1 ⊆+ (pid <$> rs) ++ (stale_pid <$> rs)) as Hs.
  { apply NoDup_submseteq; [apply NoDup_fst_map_to_list|]. intros p Hp.
    apply list_elem_of_fmap in Hp as ([p' i] & -> & Hin%elem_of_map_to_list). simpl.
    destruct (Hm _ _ Hin) as (_ & r & Hr & Hor). apply list_elem_of_lookup_2 in Hr.
    apply elem_of_app. destruct Hor as [<- | <-]; [left|right]; apply list_elem_of_fmap; eauto. }
  apply submseteq_length in Hs. rewrite length_fmap, length_map_to_list in Hs.
  rewrite length_app, !length_fmap in Hs. lia.
Qed.

(** A new child is entered. *)
Lemma pid_put_m_spec x w i r p (Q : unit -> world -> Prop) : side x w -> runs w !! i = Some r -> pid r = p ->
  0 < p -> (forall t, side x (set_pids t w) -> Q tt (set_pids t w)) -> wp (pid_put_m p i) Q w.
Proof.
  intros HS Hr Hpr Hp HQ. pose proof (sd_pids _ _ HS) as HP. unfold pid_put_m, with_table.
  apply wp_bind, wp_gets. assert (set_pids (pids w) w = w) as Hid by (by destruct w).
  destruct (pids w) as [T|] eqn:ET.
  - destruct HP as (e & m & He & H1 & H2 & HR & Hm).
    destruct (pid_put_spec e He T m p i HR) as (T' & -> & HR'); [lia| |].
    { pose proof (table_room m (runs w) Hm). rewrite (sd_runs _ _ HS) in *. lia. }
    apply wp_modify, HQ. destruct HS. constructor; simpl; try done.
    exists e, (<[p:=i]> m). split_ands; [done..|]. intros q j. rewrite lookup_insert.
    case_decide as E0; [intros [= ->]; subst q|intros Hq; by apply Hm]. split; [done|]. exists r. auto.
  - rewrite <- Hid. apply wp_ret. apply HQ. by rewrite Hid.
Qed.

(** An entry that nothing stands behind any more is taken out; 0 is no process. *)
Lemma pid_del_m_spec x w p (Q : unit -> world -> Prop) : side x w ->
  (forall t, side x (set_pids t w) ->
     (match t with None => True | Some T => exists e m, 0 <= e /\ 4 * Z.of_nat n_svc <= 2 ^ e /\ 4 <= 2 ^ e /\
        repr e T m /\ (p <> 0 -> m !! p = None) /\
        forall q i, m !! q = Some i -> 0 < q /\ exists r, runs w !! i = Some r /\ (pid r = q \/ stale_pid r = q)
      end) ->
     Q tt (set_pids t w)) ->
  wp (pid_del_m p) Q w.
Proof.
  intros HS HQ. pose proof (sd_pids _ _ HS) as HP. unfold pid_del_m, with_table.
  apply wp_bind, wp_gets. assert (set_pids (pids w) w = w) as Hid by (by destruct w).
  destruct (pids w) as [T|] eqn:ET.
  - destruct HP as (e & m & He & H1 & H2 & HR & Hm).
    assert (exists T', pid_del T p = VOk T' /\ repr e T' (if decide (p = 0) then m else delete p m)) as (T' & E0 & HR').
    { destruct (decide (p = 0)) as [->|]; [exists T; split; [by apply (pid_del_zero e He T m)|done]|].
      by apply pid_del_spec. }
    rewrite E0. apply wp_modify.
    assert (forall q i, (if decide (p = 0) then m else delete p m) !! q = Some i -> m !! q = Some i) as Hsub.
    { intros q i. destruct (decide (p = 0)); [done|]. by intros [_ Hq]%lookup_delete_Some. }
    apply HQ.
    + destruct HS. constructor; simpl; try done. eexists e, _. split_ands; [done..|].
      intros q i Hq. by apply Hm, Hsub.
    + eexists e, _. split_ands; [done..| |intros q i Hq; by apply Hm, Hsub].
      intros Hp. rewrite decide_False by done. apply lookup_delete_eq.
  - rewrite <- Hid. apply wp_ret. apply HQ; [by rewrite Hid|done].
Qed.

(** ** The start of a process *)

Lemma launch_pipes_tame i reports : (i < n_svc)%nat -> tameM (launch_pipes i reports).
Proof. intros Hi. unfold launch_pipes. tame_tac. Qed.

Lemma spawn_into_cgroup_spec x i have_cg w : (i < n_svc)%nat -> side x w ->
  wp (spawn_into_cgroup i have_cg) (fun p w' => tame w w' /\ (0 <= p -> 0 < p <= INT_MAX)) w.
Proof.
  intros Hi HS. unfold spawn_into_cgroup. apply wp_bind, wp_gets.
  assert (forall w', tame w w' -> wp (mret (-1)) (fun p w' => tame w w' /\ (0 <= p -> 0 < p <= INT_MAX)) w') as Hno.
  { intros w' T. apply wp_ret. split; [done|lia]. }
  destruct (cg_path i [] CG_PATH_MAX); [|by apply Hno].
  destruct (negb (clone3_ok w) || negb have_cg); [by apply Hno|].
  apply wp_bind. eapply wp_tame; [apply tameM_call|done|]. intros f w1 T1.
  destruct f as [fd|]; [|by apply Hno]. apply wp_bind, wp_call.
  assert (tame w (set_calls (S (calls w1)) w1)) as T2.
  { etrans; [exact T1|]. constructor; simpl; auto. reflexivity. }
  destruct (os_clone (calls w1) fd) as [p|err] eqn:Ep.
  - apply wp_ret. split; [done|]. intros _. by apply (ok_clone _ _ _ Ep).
  - apply wp_bind. eapply wp_tame; [|by apply (tame_side _ w)|].
    + tame_tac.
    + intros [] w3 T3. apply Hno. by etrans.
Qed.

Lemma fork_child_spec x i have_cg w : (i < n_svc)%nat -> side x w ->
  wp (fork_child i have_cg) (fun f w' => tame w w' /\ forall p, f = inl p -> 0 < p <= INT_MAX) w.
Proof.
  intros Hi HS. unfold fork_child. apply wp_bind. eapply wp_tame; [by apply tameM_run_of|done|].
  intros r w1 T1. pose proof (tame_side _ _ _ T1 HS) as HS1.
  apply wp_bind. eapply wp_mono; [by eapply spawn_into_cgroup_spec|].
  intros p w2 [T2 Hp]. cbv beta. destruct (Z.leb_spec 0 p).
  - apply wp_ret. split; [by etrans|]. intros q [= <-]. auto.
  - apply wp_call. split.
    + do 2 (etrans; [eassumption|]). constructor; simpl; auto. reflexivity.
    + intros q Hq. by apply (ok_fork _ _ Hq).
Qed.

(** A service may be started: what its start relies on. *)
Lemma startable_event ex w i p : ex_ok ex -> dep_ok ex None (w_dep w) -> startable w i -> (i < n_svc)%nat ->
  0 < p -> event_ok (EvFork i p (w_dep w) false).
Proof.
  intros Hex HD (_ & _ & Hu & _) Hi Hp. split; [done|]. split; [done|]. intros j He.
  rewrite (de_need _ _ _ HD) in Hu by done. injection Hu as Hu.
  pose proof (Hex i Hi) as [Hx _]. pose proof (need_nonneg (w_dep w) i).
  assert (rel_b (w_dep w) j = true) as Hr.
  { destruct (rel_b (w_dep w) j) eqn:E0; [done|].
    pose proof (need_edge (w_dep w) j i He E0). lia. }
  split; [done|]. intros Ho. by destruct (de_rel_up _ _ _ HD j Hr Ho).
Qed.

Lemma mild_launch exec_ready r : mild r (launch_reset exec_ready r).
Proof. constructor; simpl; auto; unfold zlen, LINE_CAP, TAIL_CAP; simpl; lia. Qed.

(** The child and its pipes enter the record of the service. *)
Lemma side_launch_child w i r p o n : side None w -> runs w !! i = Some r -> pid r = 0 -> stale_pid r = 0 ->
  0 < p <= INT_MAX -> side (Some i) (set_runs (<[i := launch_child p o n r]> (runs w)) w).
Proof.
  intros HS Hr Hp0 Hst Hp. pose proof (lookup_lt_Some _ _ _ Hr) as Hil.
  assert (forall j rj, runs w !! j = Some rj -> j <> i -> <[i:=launch_child p o n r]> (runs w) !! j = Some rj) as Hoth.
  { intros j rj Hj Hne. by rewrite list_lookup_insert_ne. }
  constructor; simpl.
  - destruct (sd_live _ _ HS) as [H1 H2 H3]. constructor; [done..|]. intros k j Hk.
    destruct (H3 k j Hk) as (rj & Hrj & <-). destruct (decide (i = j)) as [<-|].
    + exists (launch_child p o n r). rewrite list_lookup_insert_eq by done. split; [done|].
      rewrite Hr in Hrj. by injection Hrj as ->.
    + exists rj. split; [by apply Hoth|done].
  - apply (sd_want _ _ HS).
  - rewrite length_insert. apply (sd_runs _ _ HS).
  - intros j rj. destruct (decide (i = j)) as [<-|].
    + rewrite list_lookup_insert_eq by done. intros [= <-].
      destruct (sd_svc _ _ HS i r Hr). constructor; simpl; [lia|lia|by right|by right|done|done].
    + rewrite list_lookup_insert_ne by done. intros Hrj.
      destruct (sd_svc _ _ HS j rj Hrj) as [H1 H2 H3 H4 H5 H6]. constructor; [done..| |done|done].
      intros Hb. destruct (H4 Hb) as [|]; [by left|done].
  - pose proof (sd_pids _ _ HS) as HP. destruct (pids w) as [T|]; [|done].
    destruct HP as (e & m & He & H1 & H2 & HR & Hm). exists e, m. split_ands; [done..|].
    intros q j Hq. destruct (Hm q j Hq) as (Hq0 & rj & Hrj & Hor). split; [done|].
    exists rj. split; [|done]. apply Hoth; [done|]. intros ->. rewrite Hr in Hrj. injection Hrj as <-.
    destruct Hor; lia.
  - rewrite (cnt_insert op_b _ _ _ r Hr). rewrite (sd_ops _ _ HS). unfold op_b. simpl. lia.
  - apply (sd_trace _ _ HS).
  - apply (sd_rotor _ _ HS).
  - apply (sd_log _ _ HS).
Qed.

Lemma launch_spec ex i w : ex_ok ex -> (i < n_svc)%nat -> dep_ok ex None (w_dep w) -> side None w ->
  startable w i -> wp (launch i) (fun _ w' => calm w w') w.
Proof.
  intros Hex Hi HD HS Hst. unfold launch.
  destruct (type_lookup i Hi) as [ty Hty], (notify_lookup i Hi) as [nfd Hnfd].
  apply wp_bind. eapply wp_lift; [done|]. apply wp_bind. eapply wp_lift; [done|].
  set (er := _ && _). apply wp_bind. eapply wp_tame; [apply tameM_mod_run; [done|]; apply mild_launch|done|].
  intros [] w1 T1. pose proof (tame_side _ _ _ T1 HS) as HS1.
  apply wp_bind. eapply wp_tame; [by apply tameM_name|done|]. intros nm w2 T2.
  apply (tame_trans w) in T2; [|done]. pose proof (tame_side _ _ _ T2 HS) as HS2.
  apply wp_bind. eapply wp_tame; [by apply launch_pipes_tame|done|]. intros fds w3 T3.
  apply (tame_trans w) in T3; [|done]. pose proof (tame_side _ _ _ T3 HS) as HS3.
  destruct fds as [[o n]|]; [|by apply wp_ret, tame_calm].
  apply wp_bind. eapply wp_tame; [by apply tameM_run_of|done|]. intros r w4 T4.
  apply (tame_trans w) in T4; [|done]. pose proof (tame_side _ _ _ T4 HS) as HS4.
  apply wp_bind. eapply wp_tame; [tame_tac|done|]. intros [] w5 T5.
  apply (tame_trans w) in T5; [|done]. pose proof (tame_side _ _ _ T5 HS) as HS5.
  apply wp_bind. eapply wp_tame; [by apply cgroup_make_tame|done|]. intros cg w6 T6.
  apply (tame_trans w) in T6; [|done]. pose proof (tame_side _ _ _ T6 HS) as HS6.
  apply wp_bind. eapply wp_mono; [by eapply fork_child_spec|]. intros f w7 [T7 Hf].
  apply (tame_trans w) in T7; [|done]. pose proof (tame_side _ _ _ T7 HS) as HS7.
  destruct f as [p|err]; [specialize (Hf p eq_refl)|].
  2: { apply wp_bind. eapply wp_tame; [by apply tameM_log|done|]. intros [] w8 T8. apply wp_ret.
       apply tame_calm; [done|by etrans]. }
  pose proof Hst as (_ & Hw & _ & r0 & Hr0 & Hp0 & Hst0).
  destruct (tame_run _ _ _ _ T7 Hr0) as (r7 & Hr7 & M7).
  apply wp_bind, wp_gets. apply wp_bind. eapply wp_rd; [by rewrite (tm_want _ _ T7)|].
  apply wp_bind, wp_modify. set (w8 := set_trace _ w7).
  assert (tame w7 w8) as T8.
  { apply tame_emit. rewrite (tm_dep _ _ T7). apply (startable_event ex); [done..|lia]. }
  pose proof (tame_side _ _ _ T8 HS7) as HS8.
  apply wp_bind, (wp_mod_run _ _ r7); [done|].
  assert (side (Some i) (set_runs (<[i:=launch_child p o n r7]> (runs w8)) w8)) as HS9.
  { apply side_launch_child; [done|done| | |done]; [rewrite (mi_pid _ _ M7)|rewrite (mi_stale _ _ M7)]; done. }
  apply wp_bind. eapply (pid_put_m_spec _ _ i (launch_child p o n r7)); [exact HS9| |reflexivity|lia|].
  { simpl. rewrite list_lookup_insert_eq by (by apply lookup_lt_Some in Hr7). reflexivity. }
  intros t HS10. set (w10 := set_pids t _) in *.
  apply wp_bind. eapply wp_tame; [unfold now_ms; tame_tac|exact HS10|]. intros now w11 T11.
  pose proof (tame_side _ _ _ T11 HS10) as HS11.
  apply wp_bind. eapply wp_tame; [tame_tac|exact HS11|]. intros [] w12 T12.
  pose proof (tame_side _ _ _ T12 HS11) as HS12. pose proof (tame_trans _ _ _ T11 T12) as T.
  assert (forall w', side None w' -> w_ctr w' = w_ctr w12 -> w_dep w' = w_dep w12 -> want w' = want w12 ->
            shutting_down w' = shutting_down w12 -> calm w w') as Hcalm.
  { intros w' HS' E1 E2 E3 E4.
    constructor; [rewrite E1, (tm_ctr _ _ T)|rewrite E2, (tm_dep _ _ T)|rewrite E3, (tm_want _ _ T)|
                  rewrite E4, (tm_shut _ _ T)|done]; simpl; by destruct T7. }
  apply wp_bind. eapply live_has_spec; [done..|]. intros b Hb.
  apply wp_bind. apply (wp_mono _ (fun _ w' => calm w w')).
  - apply wp_when.
    + intros Hn. eapply live_add_spec; [done|done| |].
      { intros Hin. apply Hb in Hin. by rewrite Hin in Hn. }
      intros l' rs' _ _ HS'. rewrite decide_True in HS' by done. by apply Hcalm.
    + intros Hn. apply negb_false_iff in Hn. apply Hcalm; [|done..].
      destruct HS12. constructor; try done. intros j rj Hrj.
      destruct (sd_svc j rj Hrj) as [H1 H2 H3 H4 H5 H6]. constructor; [done..| |done|done].
      intros Hbz. destruct (H4 Hbz) as [|Hx]; [by left|]. injection Hx as ->. left. by apply Hb.
  - intros [] w' C. by apply wp_ret.
Qed.

Lemma spawn_spec ex i s w : ex_ok ex -> (i < n_svc)%nat -> Inv ex w -> startable w i ->
  state (w_ctr w) !! i = Some s -> s = PENDING \/ s = RUNNING ->
  wp (spawn i) (fun _ w' => Inv ex w' /\ grows i w w') w.
Proof.
  intros Hex Hi [HC HD HS] Hst Hs Hor. unfold spawn.
  apply wp_bind. eapply wp_rd; [done|]. apply wp_bind.
  apply (wp_mono _ (fun _ w' => w' = set_w_ctr (ctr_move i s RUNNING (w_ctr w)) w)).
  { pose proof (ctr_range _ HC). pose proof (ctr_positive _ _ _ HC Hs) as Hpos.
    destruct Hor as [-> | ->]; simpl.
    - apply wp_bind, wp_modify. apply wp_bind. eapply wp_set_state; [done|by apply lookup_lt_Some in Hs|].
      apply wp_modify. rewrite ?set_ctr_twice. apply world_ctr_eq. unfold ctr_move, is_st, inc_active, dec_pending.
      apply ctr_eq; simpl; rewrite ?u32_small; lia.
    - apply wp_ret. rewrite ctr_move_same by done. by destruct w. }
  intros [] w1 ->. set (w1 := set_w_ctr _ w).
  assert (ctr_ok (w_ctr w1)) as HC1 by (by apply ctr_ok_set).
  assert (side None w1) as HS1 by (destruct HS; by constructor).
  apply wp_bind. eapply wp_mono; [apply (launch_spec ex); try done|]. intros ok w2 C2.
  assert (Inv ex w2 /\ grows i w w2) as [HI2 HG2].
  { split; [by apply (calm_inv _ w1)|]. apply (calm_grows i) in C2.
    destruct C2 as [G1 G2 G3 G4 G5]. constructor; try done. intros r Hr Hne. rewrite (G5 r Hr Hne).
    simpl. by rewrite list_lookup_insert_ne. }
  apply wp_when; [|done]. intros _. eapply wp_mono; [apply (service_failed_spec ex); try done|].
  - rewrite (cl_ctr _ _ C2). simpl. rewrite list_lookup_insert_eq; [done|]. by apply lookup_lt_Some in Hs.
  - intros [] w3 [HI3 HG3]. split; [done|]. by apply (grows_trans _ _ w2).
Qed.

End Spec.
