(* ===== verification/Release.v ===== *)
(** * Handing a completed service to its dependents (src/state.c)

    A service that is up lowers the count of unmet prerequisites of each
    dependent; a dependent that waits for nothing more is started, and a target
    is up at once and hands itself on. *)

From S2P Require Import Prelude Ngraph PidMap World Sys Inv Live Cgroup Fail Emerg Output Deps State Spawn.

Section Ops.
Context `{Env}.

Definition svc_try_start (i : nat) : M bool :=
  why ← svc_can_start i;
  match why with
  | Some _ => mret false
  | None => spawn i;; mret true
  end.

(** [queue[q_tail++] = i] *)
Definition q_put (i : nat) : M unit :=
  d ← gets w_dep;
  q ← store (queue d) (q_tail d) i;
  modify (set_w_dep (set_q_tail (S (q_tail d)) (set_queue q d))).

Definition release_target (d : nat) : M unit :=
  rel ← rel_of d;
  if (rel : bool) then mret tt else
  svc_set_up d true;;
  svc_mark_done d;;
  nm ← name_of d; log_done nm;;
  set_rel_at d true;;
  q_put d.

(** A service that went down with its prerequisite comes back after it. *)
Definition revive (d : nat) : M unit :=
  l ← live_has d;
  when (negb l) (live_add d);;
  r ← run_of d;
  when (restart_at r =? 0) (now ← now_ms; mod_run d (set_restart_at now)).

Definition release_service (d : nat) : M unit :=
  s ← st_of d;
  if decide (s = PENDING) then svc_try_start d;; mret tt else
  u ← up_of d;
  re ← lift (ng_restart env_g d);
  when (bool_decide (s = DONE) && negb u && re) (revive d).

(** The body of the inner loop. *)
Definition release_dep (d : nat) : M unit :=
  u ← unmet_of d;
  dp ← gets w_dep;
  l ← store (d_unmet dp) d (u16 (u - 1));
  modify (set_w_dep (set_d_unmet l dp));;
  if negb (u16 (u - 1) =? 0) then mret tt else
  wn ← want_of d;
  if (wn : bool) then mret tt else
  t ← lift (is_target env_g d);
  if (t : bool) then release_target d else release_service d.

(** [while(q_head < q_tail)] *)
Fixpoint release_loop (fuel : nat) : M unit :=
  match fuel with
  | O => nofuel
  | S fuel' =>
      d ← gets w_dep;
      if decide (q_head d < q_tail d)%nat then
        j ← lift (queue d !! q_head d);
        mod_dep (set_q_head (S (q_head d)));;
        ds ← deps_of j;
        miter ds release_dep;;
        release_loop fuel'
      else mret tt
  end.

Definition svc_release (i : nat) : M unit :=
  rel ← rel_of i;
  if (rel : bool) then mret tt else
  set_rel_at i true;;
  q_put i;;
  d ← gets w_dep;
  if draining d then mret tt else
  mod_dep (set_draining true);;
  release_loop (S n_svc);;
  mod_dep (fun d => set_draining false (set_q_head 0 (set_q_tail 0 d))).

Definition complete (i : nat) : M unit :=
  svc_mark_done i;;
  svc_set_up i true;;
  svc_release i.

End Ops.

(** ** The hand-over *)

Section Spec.
Context `{E : Env} `{!EnvOk E}.

Lemma svc_try_start_spec ex i w : ex_ok ex -> (i < n_svc)%nat -> Inv ex w ->
  state (w_ctr w) !! i = Some PENDING ->
  wp (svc_try_start i) (fun _ w' => Inv ex w' /\ grows i w w') w.
Proof.
  intros Hex Hi HI Hs. unfold svc_try_start. apply wp_bind.
  eapply svc_can_start_spec; [done..|]. intros [why|] Hwhy.
  - apply wp_ret. split; [done|]. apply grows_refl.
  - apply wp_bind. eapply wp_mono; [eapply (spawn_spec ex i PENDING); auto|].
    intros [] w' [HI' HG]. by apply wp_ret.
Qed.

(** The services still to hand over. *)
Definition pend (dp : dep) : list nat := drop (q_head dp) (take (q_tail dp) (queue dp)).

(** In the middle of a hand-over: [rem] are the dependents of the service at
    hand that have not been told. Every service that was queued is handed over
    or blocked, and none was queued twice. *)
Record drain (rem : list nat) (dp : dep) : Prop := Drain {
  dr_draining : draining dp = true;
  dr_le : (q_head dp <= q_tail dp <= n_svc)%nat;
  dr_len : length (queue dp) = n_svc;
  dr_nodup : NoDup (take (q_tail dp) (queue dp));
  dr_rel : forall t, t ∈ take (q_tail dp) (queue dp) ->
    (t < n_svc)%nat /\ (rel_b dp t = true \/ Blocked dp t);
  dr_cur : rem = [] \/ exists h j pre, q_head dp = S h /\ queue dp !! h = Some j /\
    succs env_g j = Some (pre ++ rem);
}.

Definition owing (rem : list nat) (dp : dep) (d : nat) : Z := occ d rem + owed (pend dp) d.

Lemma occ_app d l1 l2 : occ d (l1 ++ l2) = occ d l1 + occ d l2.
Proof. apply cnt_app. Qed.

Lemma drain_ex_ok rem dp : drain rem dp -> ex_ok (owing rem dp).
Proof.
  intros HD d Hd. unfold owing. pose proof (occ_nonneg d rem). pose proof (owed_nonneg (pend dp) d).
  split; [lia|]. destruct HD as [H1 H2 H3 H4 H5 H6].
  assert (forall k, (k <= q_tail dp)%nat -> owed (drop k (take (q_tail dp) (queue dp))) d <= indeg env_g d) as Hk.
  { intros k Hk. apply owed_indeg.
    - rewrite <- (take_drop k (take (q_tail dp) (queue dp))) in H4. by apply NoDup_app in H4 as (_ & _ & H4).
    - intros j Hj. apply H5. rewrite <- (take_drop k (take (q_tail dp) (queue dp))). apply elem_of_app. by right. }
  destruct H6 as [->|(h & j & pre & Hh & Hj & Hs)].
  - change (occ d []) with 0. pose proof (Hk (q_head dp)). unfold pend. lia.
  - pose proof (Hk h ltac:(lia)) as Hle. rewrite (drop_S _ j h) in Hle by (rewrite lookup_take_lt; [done|lia]).
    simpl in Hle. rewrite <- Hh in Hle. rewrite (mult_succs _ _ _ Hs), occ_app in Hle.
    pose proof (occ_nonneg d pre). unfold pend. lia.
Qed.

(** Taking services down does not disturb it. *)
Lemma drain_down rem dp dp' : drain rem dp -> down_ext dp dp' -> blocks dp dp' -> drain rem dp'.
Proof.
  intros [H1 H2 H3 H4 H5 H6] HX HB. pose proof (dx_queue _ _ HX) as Eq. pose proof (dx_head _ _ HX) as Eh.
  pose proof (dx_tail _ _ HX) as Et. pose proof (dx_draining _ _ HX) as Ed.
  constructor; rewrite ?Eq, ?Eh, ?Et, ?Ed; [done..| |done].
  intros t Ht. destruct (H5 t Ht) as [Htn Hor]. split; [done|]. destruct Hor as [Hr|Hb].
  - destruct (rel_b dp' t) eqn:E0; [by left|right]. by apply HB.
  - right. apply (blocked_mono dp); [apply (dx_rel _ _ HX)|done].
Qed.

Lemma owing_down rem dp dp' : down_ext dp dp' -> owing rem dp' = owing rem dp.
Proof. intros []. unfold owing, pend. by rewrite dx_queue, dx_head, dx_tail. Qed.

(** The world in the middle of a hand-over. *)
Record handing (h : nat) (w0 : world) (rem : list nat) (w : world) : Prop := Handing {
  hd_inv : Inv (owing rem (w_dep w)) w;
  hd_drain : drain rem (w_dep w);
  hd_head : q_head (w_dep w) = h;
  hd_want : want w = want w0;
  hd_shut : shutting_down w = shutting_down w0;
  hd_root : forall r, is_root r -> state (w_ctr w) !! r = state (w_ctr w0) !! r;
}.

Lemma handing_grows h w0 rem d w w' : nontarget d -> ~ is_root d -> handing h w0 rem w -> Inv (owing rem (w_dep w)) w' ->
  grows d w w' -> handing h w0 rem w'.
Proof.
  intros Hn Hnr [_ HD Hh Hw Hs Hrt] HI [Hw' Hs' HX HB Hr']. constructor; try congruence.
  - by rewrite (owing_down _ (w_dep w)).
  - by apply (drain_down _ (w_dep w)); auto.
  - by rewrite (dx_head _ _ HX).
  - intros r Hr. rewrite Hr'; [by apply Hrt|done|congruence].
Qed.

Lemma handing_calm h w0 rem w w' : handing h w0 rem w -> calm w w' -> handing h w0 rem w'.
Proof.
  intros [HI HD Hh Hw Hs Hrt] C. constructor; rewrite ?(cl_ctr _ _ C), ?(cl_dep _ _ C), ?(cl_want _ _ C), ?(cl_shut _ _ C); try done.
  by apply (calm_inv _ w).
Qed.

Lemma target_cases d : (d < n_svc)%nat ->
  (is_target env_g d = Some true /\ ~ nontarget d) \/ nontarget d.
Proof.
  intros Hd. destruct (target_lookup d Hd) as [[] Ht]; [left|by right]. split; [done|].
  unfold nontarget. congruence.
Qed.

(** A target that waits for nothing was not queued before. *)
Lemma drain_fresh rem dp d : dep_ok (owing rem dp) None dp -> drain rem dp -> (d < n_svc)%nat -> ~ nontarget d ->
  d_unmet dp !! d = Some 0 -> rel_b dp d = false ->
  ~ Blocked dp d /\ (d ∉ take (q_tail dp) (queue dp)) /\ (q_tail dp < n_svc)%nat.
Proof.
  intros HD HR Hd Hnt Hu Hr. rewrite (de_need _ _ _ HD) in Hu by done. injection Hu as Hu.
  pose proof (drain_ex_ok _ _ HR d Hd) as [Hx _]. pose proof (need_nonneg dp d).
  assert (~ Blocked dp d) as Hnb by (intros Hb; pose proof (blocked_need dp d Hb Hnt); lia).
  assert (d ∉ take (q_tail dp) (queue dp)) as Hnin.
  { intros Hin. destruct (dr_rel _ _ HR d Hin) as [_ [|]]; [congruence|done]. }
  split_ands; [done|done|]. apply (recl_room (queue dp) _ d); [apply (dr_len _ _ HR)|apply (dr_le _ _ HR)|
    apply (dr_nodup _ _ HR)| |done|done]. intros t Ht. by apply (dr_rel _ _ HR).
Qed.

(** The queue after [queue[q_tail++] = d]. *)
Definition queued (d : nat) (dp : dep) : dep :=
  set_q_tail (S (q_tail dp)) (set_queue (<[q_tail dp := d]> (queue dp)) dp).

Lemma wp_q_put d w (Q : unit -> world -> Prop) : (q_tail (w_dep w) < length (queue (w_dep w)))%nat ->
  Q tt (set_w_dep (queued d (w_dep w)) w) -> wp (q_put d) Q w.
Proof.
  intros Hl HQ. unfold q_put. apply wp_bind, wp_gets. apply wp_bind, wp_store; [done|]. exact HQ.
Qed.

(** A target that comes up is handed over in turn. *)
Lemma drain_push rem dp d : dep_ok (owing rem dp) None dp -> drain rem dp -> (d < n_svc)%nat -> ~ nontarget d ->
  d_unmet dp !! d = Some 0 -> rel_b dp d = false -> up_b dp d = true ->
  let dp' := queued d (set_rel d true dp) in (dep_ok (owing rem dp') None dp' /\ drain rem dp').
Proof.
  intros HD HR Hd Hnt Hu Hr Hup dp'.
  destruct (drain_fresh _ _ _ HD HR Hd Hnt Hu Hr) as (Hnb & Hnin & Hroom).
  destruct HR as [H1 H2 H3 H4 H5 H6]. pose proof (de_rel _ _ _ HD) as Hl.
  assert (take (q_tail dp') (queue dp') = take (q_tail dp) (queue dp) ++ [d]) as Htk.
  { unfold dp'. simpl. apply recl_take. lia. }
  assert (pend dp' = pend dp ++ [d]) as Hpend.
  { unfold pend. rewrite Htk. apply drop_app_le. rewrite length_take.
    change (q_head dp') with (q_head dp). lia. }
  assert (forall t, rel_b dp' t = if decide (d = t) then true else rel_b dp t) as Hrel.
  { intros t. by rewrite <- (rel_b_set dp d true t). }
  split.
  - apply (dep_ok_ext (fun d' => owing rem dp d' + mult env_g d d')).
    { intros d' _. unfold owing. rewrite Hpend, owed_app. simpl. lia. }
    pose proof (dep_ok_release _ _ d _ HD Hd Hr Hup) as [R1 R2 R3 R4 R5 R6 R7 R8 R9].
    constructor; try done. simpl. rewrite length_insert. done.
  - constructor; rewrite ?Htk; try done.
    + simpl. lia.
    + simpl. by rewrite length_insert.
    + apply NoDup_app. split_ands; [done|intros t Ht ->%list_elem_of_singleton; done|apply NoDup_singleton].
    + intros t. rewrite elem_of_app, list_elem_of_singleton, Hrel. intros [Ht| ->].
      * destruct (H5 t Ht) as [Htn Hor]. split; [done|].
        destruct (decide (d = t)) as [|]; [by left|]. destruct Hor as [|Hb]; [by left|right].
        apply (blocked_mono (set_rel d true dp)); [done|]. by apply blocked_set.
      * split; [done|]. left. by rewrite decide_True.
    + destruct H6 as [|(h & j & pre & Hh & Hj & Hs)]; [by left|right]. exists h, j, pre.
      split_ands; [done| |done]. simpl. rewrite list_lookup_insert_ne; [done|lia].
Qed.

Lemma release_target_spec h w0 rem d w : handing h w0 rem w -> (d < n_svc)%nat -> ~ nontarget d -> ~ is_root d ->
  d_unmet (w_dep w) !! d = Some 0 -> wp (release_target d) (fun _ => handing h w0 rem) w.
Proof.
  intros [[HC HD HS] HR Hh Hwt Hst Hrt] Hd Hnt Hnr Hu. unfold release_target.
  apply wp_bind, wp_rel_of; [apply (de_rel _ _ _ HD)|done|].
  destruct (rel_b (w_dep w) d) eqn:Hr; [apply wp_ret; constructor; [by constructor|done..]|].
  apply wp_bind, svc_set_up_spec; [apply (de_up _ _ _ HD)|done|].
  set (dp1 := with_up d true (w_dep w)).
  assert (up_b dp1 d = true) as Hup.
  { unfold dp1. rewrite up_b_set by (done || apply (de_up _ _ _ HD)). by rewrite decide_True. }
  assert (dep_ok (owing rem (w_dep w)) None dp1) as HD1 by (apply dep_ok_up; auto).
  assert (queue dp1 = queue (w_dep w) /\ q_head dp1 = q_head (w_dep w) /\ q_tail dp1 = q_tail (w_dep w) /\
    draining dp1 = draining (w_dep w) /\ (forall t, rel_b dp1 t = rel_b (w_dep w) t) /\
    d_unmet dp1 = d_unmet (w_dep w)) as (E1 & E2 & E3 & E4 & E5 & E6).
  { unfold dp1, with_up. by destruct (eqb _ _). }
  assert (down_ext (w_dep w) dp1) as HX by (constructor; try done; intros t; by rewrite E5).
  assert (drain rem dp1) as HR1.
  { apply (drain_down _ (w_dep w)); [done|done|]. intros t H1 H2. rewrite E5 in H2. congruence. }
  destruct (ctr_state _ d HC Hd) as [s Hs]. destruct (side_run _ w d HS Hd) as [r Hrun].
  apply wp_bind. eapply svc_mark_done_spec; [exact HC|exact Hs|exact Hrun|].
  set (w2 := set_w_ctr _ _).
  assert (tame w (set_runs (<[d:=set_starting false r]> (runs w)) w)) as T.
  { constructor; simpl; auto. apply (runs_mild _ _ r); [done|by constructor]. }
  pose proof (tame_side _ _ _ T HS) as HSr.
  assert (side None w2) as HS2 by (destruct HSr; by constructor).
  assert (ctr_ok (w_ctr w2)) as HC2 by (by apply ctr_ok_set).
  apply wp_bind. eapply wp_tame; [by apply tameM_name|exact HS2|]. intros nm w3 T3.
  pose proof (tame_side _ _ _ T3 HS2) as HS3.
  apply wp_bind. eapply wp_tame; [by apply tameM_log|exact HS3|]. intros [] w4 T4.
  pose proof (tame_side _ _ _ T4 HS3) as HS4. pose proof (tame_trans _ _ _ T3 T4) as T34.
  assert (w_dep w4 = dp1) as Ed by (rewrite (tm_dep _ _ T34); reflexivity).
  apply wp_bind, wp_set_rel; [rewrite Ed; apply (de_rel _ _ _ HD1)|done|]. rewrite Ed.
  apply wp_q_put.
  { destruct (drain_fresh rem dp1 d) as (_ & _ & Hroom); try done.
    - by rewrite (owing_down _ (w_dep w)).
    - by rewrite E6.
    - by rewrite E5.
    - simpl. by rewrite (dr_len _ _ HR1). }
  destruct (drain_push rem dp1 d) as [HD5 HR5]; try done.
  { by rewrite (owing_down _ (w_dep w)). }
  { by rewrite E6. }
  { by rewrite E5. }
  constructor; simpl; rewrite ?(tm_ctr _ _ T34), ?(tm_want _ _ T34), ?(tm_shut _ _ T34); try done;
    [|by rewrite E2|intros r0 Hr0; simpl; rewrite list_lookup_insert_ne by congruence; by apply Hrt].
  constructor; simpl; [by rewrite (tm_ctr _ _ T34)|done|destruct HS4; by constructor].
Qed.

Lemma revive_calm d : (d < n_svc)%nat -> calmM (revive d).
Proof.
  intros Hd w HS. unfold revive. apply wp_bind. eapply live_has_spec; [done..|]. intros b Hb.
  apply wp_bind. apply (wp_mono _ (fun _ w' => calm w w')).
  { apply wp_when; intros Hn; [|by apply calm_refl]. eapply live_add_spec; [done|done| |].
    - intros Hin. apply Hb in Hin. by rewrite Hin in Hn.
    - intros l' rs' _ _ HS'. by rewrite decide_False in HS' by done. }
  intros [] w1 C1. eapply wp_tame_calm; [|exact C1|done]. tame_tac.
Qed.

Lemma release_service_spec h w0 rem d w : handing h w0 rem w -> (d < n_svc)%nat -> nontarget d -> ~ is_root d ->
  wp (release_service d) (fun _ => handing h w0 rem) w.
Proof.
  intros HH Hd Hnt Hnr. pose proof HH as [HI HR _ _ _ _]. unfold release_service.
  destruct (ctr_state _ d (in_ctr _ _ HI) Hd) as [s Hs].
  apply wp_bind. eapply wp_rd; [done|]. destruct (decide (s = PENDING)) as [->|].
  - apply wp_bind. eapply wp_mono; [apply (svc_try_start_spec (owing rem (w_dep w))); try done|].
    + by apply drain_ex_ok.
    + intros b w' [HI' HG]. apply wp_ret. by apply (handing_grows _ _ _ d w).
  - apply wp_bind, wp_up_of; [apply (de_up _ _ _ (in_dep _ _ HI))|done|].
    destruct (restart_lookup d Hd) as [re Hre]. apply wp_bind. eapply wp_lift; [done|].
    apply wp_when; [|done]. intros _. eapply wp_calm; [by apply revive_calm|apply (in_side _ _ HI)|].
    intros [] w' C. by apply (handing_calm _ _ _ w).
Qed.

Lemma release_dep_spec h w0 rem d w : handing h w0 (d :: rem) w -> (d < n_svc)%nat -> ~ is_root d ->
  wp (release_dep d) (fun _ => handing h w0 rem) w.
Proof.
  intros [[HC HD HS] HR Hh Hwt Hst Hrt] Hd Hnr. set (dp := w_dep w) in *. unfold release_dep.
  pose proof (de_need _ _ _ HD d Hd) as Hu. apply wp_bind. eapply wp_rd; [exact Hu|].
  apply wp_bind, wp_gets. apply wp_bind, wp_store; [by apply lookup_lt_Some in Hu|].
  apply wp_bind, wp_modify. fold dp. set (u := need dp d + owing (d :: rem) dp d) in *.
  set (dp1 := with_unmet d (u16 (u - 1)) dp). change (set_d_unmet _ dp) with dp1.
  assert (1 <= owing (d :: rem) dp d) as Hpos.
  { unfold owing. rewrite occ_cons, decide_True by done. pose proof (occ_nonneg d rem).
    pose proof (owed_nonneg (pend dp) d). lia. }
  pose proof (de_range _ _ _ HD d _ Hu) as Hrange. pose proof (need_nonneg dp d) as Hneed.
  assert (u16 (u - 1) = u - 1) as Hu16 by (apply u16_small; subst u; cbv beta in *; lia).
  assert (dep_ok (owing rem dp1) None dp1) as HD1.
  { apply (dep_ok_ext (fun d' => owing (d :: rem) dp d' + if decide (d = d') then -1 else 0)).
    { intros d' _. unfold owing. rewrite occ_cons. change (pend dp1) with (pend dp).
      destruct (decide (d = d')); lia. }
    unfold dp1. replace (u - 1) with (u + -1) by lia. apply (dep_ok_unmet _ None d (-1) dp HD Hd).
    subst u. cbv beta in *. lia. }
  assert (drain rem dp1) as HR1.
  { destruct HR as [H1 H2 H3 H4 H5 H6]. constructor; try done.
    - intros t Ht. destruct (H5 t Ht) as [Htn [|Hb]]; (split; [done|]); [by left|right].
      by apply (blocked_mono dp).
    - destruct H6 as [|(k & j & pre & Hk & Hj & Hs)]; [done|right]. exists k, j, (pre ++ [d]).
      split_ands; [done|done|]. by rewrite <- app_assoc. }
  assert (handing h w0 rem (set_w_dep dp1 w)) as HH1.
  { constructor; [constructor; [done|done|destruct HS; by constructor]|done..]. }
  destruct (Z.eqb_spec (u16 (u - 1)) 0) as [Hz|]; [simpl|by apply wp_ret].
  destruct (side_want _ (set_w_dep dp1 w) d (in_side _ _ (hd_inv _ _ _ _ HH1)) Hd) as [b Hb].
  apply wp_bind. eapply wp_rd; [exact Hb|]. destruct b; [by apply wp_ret|].
  destruct (target_lookup d Hd) as [t Ht]. apply wp_bind. eapply wp_lift; [done|].
  destruct t; [|by apply release_service_spec].
  apply release_target_spec; [done|done|unfold nontarget; congruence|done|].
  simpl. rewrite list_lookup_insert_eq by (by apply lookup_lt_Some in Hu). by rewrite Hz.
Qed.

Lemma release_deps_spec h w0 rem w : handing h w0 rem w -> (forall d, d ∈ rem -> (d < n_svc)%nat /\ ~ is_root d) ->
  wp (miter rem release_dep) (fun _ => handing h w0 []) w.
Proof.
  revert w. induction rem as [|d rem IH]; intros w HH Hb; simpl; [by apply wp_ret|].
  apply wp_bind. eapply wp_mono; [apply (release_dep_spec h w0 rem); [done|apply Hb; by left..]|].
  intros [] w1 HH1. apply IH; [done|]. intros d' Hd'. apply Hb. by right.
Qed.

(** The next service of the queue. *)
Lemma drain_pop dp j ds : drain [] dp -> (q_head dp < q_tail dp)%nat -> queue dp !! q_head dp = Some j ->
  succs env_g j = Some ds -> let dp' := set_q_head (S (q_head dp)) dp in
  drain ds dp' /\ forall d, owing [] dp d = owing ds dp' d.
Proof.
  intros [H1 H2 H3 H4 H5 H6] Hlt Hj Hds dp'. split.
  - constructor; try done; [simpl; lia| |].
    + intros t Ht. destruct (H5 t Ht) as [Htn [|Hb]]; (split; [done|]); [by left|right].
      by apply (blocked_mono dp).
    + right. by exists (q_head dp), j, [].
  - intros d. unfold owing, pend. simpl. rewrite (drop_S _ j (q_head dp)) by (by rewrite lookup_take_lt).
    simpl. rewrite (mult_succs _ _ _ Hds). change (occ d []) with 0. lia.
Qed.

Lemma release_loop_spec fuel h w0 w : handing h w0 [] w -> (n_svc - h < fuel)%nat ->
  wp (release_loop fuel) (fun _ w' => Inv (fun _ => 0) w' /\ want w' = want w0 /\
    shutting_down w' = shutting_down w0 /\
    forall r, is_root r -> state (w_ctr w') !! r = state (w_ctr w0) !! r) w.
Proof.
  revert h w. induction fuel as [|fuel IH]; intros h w HH Hf; [lia|]. simpl.
  pose proof HH as [HI HR Hh Hwt Hst Hrt]. apply wp_bind, wp_gets.
  destruct (decide (q_head (w_dep w) < q_tail (w_dep w))%nat) as [Hlt|Hge].
  - destruct (lookup_lt_is_Some_2 (queue (w_dep w)) (q_head (w_dep w))) as [j Hj].
    { rewrite (dr_len _ _ HR). pose proof (dr_le _ _ HR). lia. }
    assert (j < n_svc)%nat as Hjn.
    { apply (dr_rel _ _ HR). apply list_elem_of_lookup. exists (q_head (w_dep w)). by rewrite lookup_take_lt. }
    destruct (succs_lookup j Hjn) as (ds & Hds & HF & _).
    destruct (drain_pop _ _ _ HR Hlt Hj Hds) as [HR1 How].
    apply wp_bind. eapply wp_lift; [done|]. apply wp_bind, wp_modify. apply wp_bind. eapply wp_lift; [done|].
    apply wp_bind. set (w1 := set_w_dep _ w).
    assert (handing (S h) w0 ds w1) as HH1.
    { destruct HI as [HC HD HS]. constructor; [constructor|done|by rewrite <- Hh|done..];
        [done| |destruct HS; by constructor].
      simpl. eapply dep_ok_ext; [intros d _; apply How|]. destruct HD. by constructor. }
    eapply wp_mono; [apply (release_deps_spec _ _ _ _ HH1)|].
    { intros d Hd. split; [by apply (proj1 (Forall_forall _ _) HF)|]. intros Hr. apply (Hr j). by exists ds. }
    intros [] w2 HH2. apply (IH (S h)); [done|]. pose proof (dr_le _ _ HR). lia.
  - apply wp_ret. split_ands; [|done..]. destruct HI as [HC HD HS]. constructor; [done| |done].
    eapply dep_ok_ext; [|exact HD]. intros d _. unfold owing, pend.
    rewrite drop_ge by (rewrite length_take; lia). done.
Qed.

(** The first service of the queue. *)
Lemma drain_first dp i : dep_ok (fun _ => 0) None dp -> idle_q dp -> (i < n_svc)%nat -> rel_b dp i = false ->
  up_b dp i = true -> let dp' := set_draining true (queued i (set_rel i true dp)) in
  (dep_ok (owing [] dp') None dp' /\ drain [] dp').
Proof.
  intros HD (Hh & Ht & Hdr) Hi Hr Hu dp'. pose proof (de_queue _ _ _ HD) as Hq.
  assert (take 1 (<[0%nat:=i]> (queue dp)) = [i]) as Htk.
  { destruct (queue dp) as [|x l]; [simpl in Hq; lia|done]. }
  assert (pend dp' = [i]) as Hp.
  { unfold pend, dp'. simpl. by rewrite Hh, Ht, Htk. }
  split.
  - eapply dep_ok_ext; [intros d _; unfold owing; rewrite Hp; simpl; change (occ d []) with 0;
      instantiate (1 := fun d => 0 + mult env_g i d); simpl; lia|].
    pose proof (dep_ok_release _ _ i _ HD Hi Hr Hu) as [R1 R2 R3 R4 R5 R6 R7 R8 R9].
    constructor; try done. simpl. by rewrite length_insert.
  - constructor; simpl; rewrite ?Hh, ?Ht, ?Htk; try done.
    + lia.
    + by rewrite length_insert.
    + apply NoDup_singleton.
    + intros t ->%list_elem_of_singleton. split; [done|left].
      change (rel_b (set_rel i true dp) i = true). rewrite rel_b_set by (done || apply (de_rel _ _ _ HD)).
      by rewrite decide_True.
    + by left.
Qed.

Lemma svc_release_spec i w : Quiet w -> (i < n_svc)%nat -> up_b (w_dep w) i = true ->
  wp (svc_release i) (fun _ w' => Quiet w' /\ want w' = want w /\ shutting_down w' = shutting_down w /\
    forall r, is_root r -> state (w_ctr w') !! r = state (w_ctr w) !! r) w.
Proof.
  intros [[HC HD HS] HQ] Hi Hup. unfold svc_release.
  apply wp_bind, wp_rel_of; [apply (de_rel _ _ _ HD)|done|].
  destruct (rel_b (w_dep w) i) eqn:Hr; [by apply wp_ret|].
  apply wp_bind, wp_set_rel; [apply (de_rel _ _ _ HD)|done|].
  apply wp_bind, wp_q_put; [simpl; rewrite (de_queue _ _ _ HD); destruct HQ as (_ & -> & _); lia|].
  apply wp_bind, wp_gets. simpl. pose proof HQ as (Hh & _ & Hdr). rewrite Hdr.
  apply wp_bind, wp_modify. simpl. apply wp_bind.
  destruct (drain_first _ _ HD HQ Hi Hr Hup) as [HD1 HR1].
  eapply wp_mono; [apply (release_loop_spec (S n_svc) 0 w)|].
  - constructor; [constructor|done..]; [done|done|destruct HS; by constructor].
  - lia.
  - intros [] w' ([HC' HD' HS'] & Hw & Hs & Hrt). apply wp_modify. split_ands; try done.
    split; [|done]. constructor; [done| |destruct HS'; by constructor]. destruct HD'. by constructor.
Qed.

Lemma complete_spec i w : Quiet w -> (i < n_svc)%nat ->
  wp (complete i) (fun _ w' => Quiet w' /\ want w' = want w /\ shutting_down w' = shutting_down w /\
    forall r, is_root r -> r <> i -> state (w_ctr w') !! r = state (w_ctr w) !! r) w.
Proof.
  intros [[HC HD HS] HQ] Hi. unfold complete.
  destruct (ctr_state _ i HC Hi) as [s Hs]. destruct (side_run _ w i HS Hi) as [r Hrun].
  apply wp_bind. eapply svc_mark_done_spec; [done..|].
  assert (tame w (set_runs (<[i:=set_starting false r]> (runs w)) w)) as T.
  { constructor; simpl; auto. apply (runs_mild _ _ r); [done|by constructor]. }
  pose proof (tame_side _ _ _ T HS) as HS1.
  apply wp_bind, svc_set_up_spec; [apply (de_up _ _ _ HD)|done|].
  eapply wp_mono; [apply svc_release_spec|].
  - constructor; [constructor|]; simpl.
    + by apply ctr_ok_set.
    + apply dep_ok_up; auto.
    + destruct HS1; by constructor.
    + destruct HQ as (? & ? & ?). unfold with_up. by destruct (eqb _ _).
  - done.
  - simpl. rewrite up_b_set by (done || apply (de_up _ _ _ HD)). by rewrite decide_True.
  - intros [] w' (? & ? & ? & Hrt). split_ands; try done. intros r0 Hr0 Hne. rewrite (Hrt r0 Hr0). simpl.
    by rewrite list_lookup_insert_ne.
Qed.

(** ** The same as facts on the invariant between two handlers *)

Lemma zero_ex_ok : ex_ok (fun _ => 0).
Proof. intros d Hd. pose proof (indeg_bound d Hd). lia. Qed.

Hint Resolve zero_ex_ok : quiet.

Lemma grows_quiet i w w' : Quiet w -> Inv (fun _ => 0) w' -> grows i w w' -> Quiet w'.
Proof.
  intros [_ (H1 & H2 & H3)] HI [_ _ HX _]. split; [done|]. destruct HX.
  unfold idle_q; split_ands; congruence.
Qed.

Lemma complete_quiet i : (i < n_svc)%nat -> quietM (complete i).
Proof. intros Hi w HQ. eapply wp_mono; [by apply complete_spec|]. by intros [] w' (? & _). Qed.

Lemma go_down_quiet i : (i < n_svc)%nat -> quietM (go_down i).
Proof.
  intros Hi w [[HC HD HS] (H1 & H2 & H3)].
  eapply wp_mono; [apply (go_down_dep_spec (fun _ => 0)); eauto with quiet|].
  intros [] w' (dp & -> & HD' & [] & _). split; [constructor; [done|done|destruct HS; by constructor]|].
  unfold idle_q; split_ands; simpl; congruence.
Qed.

Lemma poison_deps_quiet i : (i < n_svc)%nat -> quietM (poison_deps i).
Proof.
  intros Hi w [HI HQ]. eapply wp_mono; [by apply (poison_deps_spec (fun _ => 0))|].
  intros [] w' [HI' HA]. split; [done|]. by rewrite (as_dep _ _ HA).
Qed.

Lemma service_failed_quiet i status w : Quiet w -> (i < n_svc)%nat -> state (w_ctr w) !! i = Some RUNNING ->
  wp (service_failed i status) (fun _ w' => Quiet w') w.
Proof.
  intros HQ Hi Hs. eapply wp_mono; [apply (service_failed_spec (fun _ => 0)); eauto with quiet; apply HQ|].
  intros [] w' [HI HG]. by apply (grows_quiet i w).
Qed.

Lemma fail_apply_quiet i act w : Quiet w -> (i < n_svc)%nat -> state (w_ctr w) !! i = Some RUNNING ->
  wp (fail_apply i act) (fun _ w' => Quiet w') w.
Proof.
  intros HQ Hi Hs. pose proof (quiet_side _ HQ).
  eapply wp_mono; [apply (fail_apply_spec (fun _ => 0) i act w); eauto using calm_refl with quiet; apply HQ|].
  intros [] w' [HI HG]. by apply (grows_quiet i w).
Qed.

Lemma svc_try_start_quiet i w : Quiet w -> (i < n_svc)%nat -> state (w_ctr w) !! i = Some PENDING ->
  wp (svc_try_start i) (fun _ w' => Quiet w') w.
Proof.
  intros HQ Hi Hs. eapply wp_mono; [apply (svc_try_start_spec (fun _ => 0)); eauto with quiet; apply HQ|].
  intros b w' [HI HG]. by apply (grows_quiet i w).
Qed.

(** What a handler does depends on the state it reads first. *)
Lemma quietM_st {A} i (f : svc_state -> M A) : (i < n_svc)%nat ->
  (forall s w, Quiet w -> state (w_ctr w) !! i = Some s -> wp (f s) (fun _ w' => Quiet w') w) ->
  quietM (st_of i ≫= f).
Proof.
  intros Hi Hf w HQ. destruct (lookup_lt_is_Some_2 (state (w_ctr w)) i) as [s Hs].
  { by rewrite (ct_len _ (in_ctr _ _ (proj1 HQ))). }
  apply wp_bind. eapply wp_rd; [done|]. by apply Hf.
Qed.

(** A calm step keeps the states. *)
Lemma wp_calm_st {A B} (m : M A) (f : A -> M B) i s w (Q : B -> world -> Prop) : calmM m -> Quiet w ->
  state (w_ctr w) !! i = Some s ->
  (forall a w', Quiet w' -> state (w_ctr w') !! i = Some s -> wp (f a) Q w') -> wp (m ≫= f) Q w.
Proof.
  intros Hm HQ Hs Hf. apply wp_bind. eapply wp_calm; [done|apply quiet_side, HQ|]. intros a w' C.
  apply Hf; [by apply (calm_quiet w)|by rewrite (cl_ctr _ _ C)].
Qed.

End Spec.

#[export] Hint Resolve complete_quiet go_down_quiet poison_deps_quiet zero_ex_ok : quiet.
#[export] Hint Resolve failed_cleanup_calm svc_abandon_calm maybe_free_calm revive_calm : calm.
#[export] Hint Resolve retry_delay_tame tries_tame : tame.
