(* ===== verification/Reap.v ===== *)
(** * What becomes of a started service (src/drain.c, src/reap.c)

    Its readiness reports, its exit, and the restarts. *)

From S2P Require Import Prelude Ngraph PidMap World Sys Inv Live Cgroup Fail Emerg Output State Spawn Release.

Definition RESTART_SETTLED_MS : Z := 10000.
Definition restart_delay_ms : list Z := [100; 250; 500; 1000; 2000; 5000].

(** The next delay and the burst count after it. *)
Definition restart_delay (burst : Z) : Z * Z :=
  let last := 5 in
  (nth (Z.to_nat (if burst <? last then burst else last)) restart_delay_ms 0,
   if burst <? last then burst + 1 else burst).

Section Ops.
Context `{Env}.

Definition svc_give_up (i : nat) (status : Z) : M unit :=
  tries ← lift (ng_start_tries env_g i);
  r ← run_of i;
  act ← fail_service i status tries tries (r_tail r);
  fail_apply i act.

(** An instance that never became ready neither resets the delay nor counts as up. *)
Definition restart_schedule (i : nat) (status : Z) (was_up : bool) : M unit :=
  r ← run_of i;
  now ← now_ms;
  let alive := now - started r in
  when (was_up && (RESTART_SETTLED_MS <=? alive)) (mod_run i (set_burst 0));;
  r ← run_of i;
  let first := burst r =? 0 in
  let '(d, burst') := restart_delay (burst r) in
  mod_run i (set_burst burst');;
  kill_group i;;
  drain_out i DRAIN_FINAL_CHUNKS false;;
  close_fds i;;
  svc_abandon i;;
  now ← now_ms;
  mod_run i (fun r => set_stale_hold false (set_restart_at (now + d) r));;
  nm ← name_of i;
  let how := fail_describe status in
  (if was_up then
     log_warn (nm ++ bs ": exited (" ++ how ++ bs ") after " ++ dec alive ++ bs " ms up, restarting in "
               ++ dec d ++ bs " ms")
   else
     log_warn (nm ++ bs ": exited (" ++ how ++ bs ") after " ++ dec alive
               ++ bs " ms, before it became ready, restarting in " ++ dec d ++ bs " ms"));;
  r ← run_of i;
  when (first && negb (bool_decide (r_tail r = []))) (log_raw LOG_WARN (r_tail r)).

Definition start_failed (i : nat) (status : Z) : M unit :=
  mod_run i (set_starting false);;
  s ← st_of i;
  if decide (s = RUNNING) then service_failed i status else
  sd ← gets shutting_down;
  when (negb sd) (go_down i);;
  re ← lift (ng_restart env_g i);
  if negb sd && re then restart_schedule i status false else
  close_fds i;;
  when (negb sd) (poison_deps i);;
  maybe_free i.

(** A service that reported ready is up, unless it has failed since. *)
Definition ready (i : nat) : M unit :=
  r ← run_of i;
  now ← now_ms;
  mod_run i (set_starting false);;
  nm ← name_of i;
  log_done (nm ++ bs " (" ++ dec (now - started r) ++ bs " ms)");;
  s ← st_of i;
  when (bool_decide (s = RUNNING) || bool_decide (s = DONE)) (complete i).

Fixpoint drain_notify (i : nat) (chunks : nat) : M unit :=
  match chunks with
  | O => mret tt
  | S chunks' =>
      r ← run_of i;
      if ntf_fd r <? 0 then mret tt else
      b ← call (fun k => os_read k (ntf_fd r) 256);
      match b with
      | RData buf =>
          when (starting r && negb (timedout r) && negb (hup r) && existsb (Z.eqb 10) buf) (ready i);;
          drain_notify i chunks'
      | _ =>
          if errno_is b EINTR then drain_notify i chunks' else
          if errno_is b EAGAIN then mret tt else
          mod_run i (set_ntf_fd (-1));;
          if negb (starting r) then maybe_free i else
          if 0 <? pid r then mod_run i (set_hup true);; signal_group i SIGKILL else
          start_failed i FAIL_ST_NOTIFY_HUP
      end
  end.

(** The pipe the shell's exec closes: its end means ready, a byte that it failed. *)
Fixpoint drain_exec (fuel : nat) (i : nat) : M unit :=
  r ← run_of i;
  if ntf_fd r <? 0 then mret tt else
  match fuel with
  | O => nofuel
  | S fuel' =>
      b ← call (fun k => os_read k (ntf_fd r) 8);
      if errno_is b EINTR then drain_exec fuel' i else
      if errno_is b EAGAIN then mret tt else
      mod_run i (set_ntf_fd (-1));;
      if (match b with RData _ => true | _ => false end) || negb (starting r) then mret tt else
      ready i
  end.

Definition drain_output : M unit :=
  n ← n_live_of;
  miter (rev (seq 0 n)) (fun k =>
    i ← live_at k;
    r ← run_of i;
    when (0 <=? out_fd r) (drain_out i DRAIN_POLL_CHUNKS true)).

(** One service of [drain_all]. *)
Definition drain_one (i : nat) : M unit :=
  r ← run_of i;
  when (0 <=? out_fd r) (drain_out i DRAIN_POLL_CHUNKS true);;
  r ← run_of i;
  when (0 <=? ntf_fd r)
    (if ntf_exec r then drain_exec os_patience i else drain_notify i DRAIN_POLL_CHUNKS);;
  l ← live_has i;
  when l (maybe_free i).

Definition drain_all (fuel : nat) : M unit := live_loop fuel 0 drain_one.

Definition fire_restart (i : nat) (now : Z) : M unit :=
  r ← run_of i;
  if (restart_at r =? 0) || (now <? restart_at r) then mret tt else
  mod_run i (set_restart_at 0);;
  wn ← want_of i;
  if (wn : bool) then mret tt else
  why ← svc_can_start i;
  match why with
  | Some _ =>
      s ← st_of i;
      if negb (stale_pid r =? 0) && bool_decide (s = RUNNING) then
        nm ← name_of i;
        log_err (nm ++ bs ": pid " ++ dec (stale_pid r) ++ bs " has not exited, not restarting");;
        svc_give_up i FAIL_ST_TIMEOUT
      else
        when (negb (stale_pid r =? 0) || (0 <? pid r) || bool_decide (s = RUNNING))
          (mod_run i (fun r => set_stale_hold (negb (stale_pid r =? 0))
                                 (set_restart_at (now + KILL_GRACE_MS) r)))
  | None =>
      mod_run i (set_started now);;
      ok ← launch i;
      if (ok : bool) then mret tt else
      s ← st_of i;
      if decide (s = RUNNING) then service_failed i EXIT_NOEXEC
      else restart_schedule i EXIT_NOEXEC false
  end.

Definition fire_restarts (fuel : nat) : M unit :=
  now ← now_ms;
  sd ← gets shutting_down;
  if (sd : bool) then mret tt else live_loop fuel 0 (fun i => fire_restart i now).

(** Only the SIGKILL of [drain_notify] says less than the hup itself. *)
Definition hup_status (status : Z) : Z :=
  if WIFSIGNALED status && (WTERMSIG status =? SIGKILL) then FAIL_ST_NOTIFY_HUP else status.

(** A process that exits after the operator asked for it to stop. *)
Definition exited_wanted (i : nat) : M unit :=
  mod_run i (fun r => set_restart_at 0 (set_starting false r));;
  go_down i;;
  ok ← gets cg_ok;
  r ← run_of i;
  when (negb ok || bool_decide (op r = OP_NONE)) (kill_group i);;
  drain_out i DRAIN_FINAL_CHUNKS false;;
  close_fds i;;
  s ← st_of i;
  when (bool_decide (s = RUNNING))
    (mod_ctr dec_active;; set_state_at i PENDING;; mod_ctr inc_pending);;
  maybe_free i.

(** The exit of a service that is not starting: it was up, or was given up. *)
Definition exited_settled (i : nat) (status : Z) : M unit :=
  r ← run_of i;
  let was_up := negb (starting r) in
  mod_run i (set_starting false);;
  s ← st_of i;
  sd ← gets shutting_down;
  if negb (bool_decide (s = DONE)) || sd then maybe_free i else
  let status := if timedout r then FAIL_ST_TIMEOUT else if hup r then hup_status status else status in
  go_down i;;
  re ← lift (ng_restart env_g i);
  if (re : bool) then restart_schedule i status was_up else
  nm ← name_of i;
  now ← now_ms;
  r ← run_of i;
  log_warn (nm ++ bs ": exited (" ++ fail_describe status ++ bs ") after " ++ dec (now - started r)
            ++ bs " ms up");;
  kill_group i;;
  drain_out i DRAIN_FINAL_CHUNKS false;;
  r ← run_of i;
  when (negb (bool_decide (r_tail r = []))) (log_raw LOG_WARN (r_tail r));;
  close_fds i;;
  poison_deps i;;
  maybe_free i.

(** The exit of a service that was starting. *)
Definition exited_starting (i : nat) (status : Z) : M unit :=
  sd ← gets shutting_down;
  if (sd : bool) then close_fds i;; maybe_free i else
  r ← run_of i;
  if timedout r then service_failed i FAIL_ST_TIMEOUT else
  if hup r then service_failed i (hup_status status) else
  ty ← lift (ng_type env_g i);
  if (ty =? NG_TYPE_ONESHOT) && WIFEXITED status && (WEXITSTATUS status =? 0) then
    now ← now_ms;
    nm ← name_of i;
    log_done (nm ++ bs " (" ++ dec (now - started r) ++ bs " ms)");;
    complete i;;
    maybe_free i
  else service_failed i status.

(** [pid_del(runs[i].pid); runs[i].pid = 0] *)
Definition forget_pid (i : nat) : M unit :=
  r ← run_of i;
  pid_del_m (pid r);;
  mod_run i (set_pid 0).

Definition child_exited (i : nat) (status : Z) : M unit :=
  drain_out i DRAIN_FINAL_CHUNKS false;;
  r ← run_of i;
  when ((0 <=? ntf_fd r) && negb (ntf_exec r)) (drain_notify i DRAIN_FINAL_CHUNKS);;
  forget_pid i;;
  wn ← want_of i;
  sd ← gets shutting_down;
  if (wn : bool) && negb sd then exited_wanted i else
  s ← st_of i;
  if decide (s = RUNNING) then exited_starting i status else exited_settled i status.

Definition forget_stale (i : nat) (p : Z) : M unit :=
  pid_del_m p;;
  r ← run_of i;
  when (stale_pid r =? p) (mod_run i (set_stale_pid 0)).

(** An abandoned instance finally died. *)
Definition stale_reaped (i : nat) (p : Z) : M unit :=
  forget_stale i p;;
  r ← run_of i;
  when (negb (restart_at r =? 0) && stale_hold r)
    (now ← now_ms;
     delay ← retry_delay_ms i;
     mod_run i (fun r => set_stale_hold false (set_restart_at (now + delay) r)));;
  maybe_free i.

Definition wait_call : M waitres :=
  fun w => Ok (os_wait (waits w)) (set_waits (S (waits w)) w).

(** One child. *)
Definition reap_one (p status : Z) : M unit :=
  sd ← gets shutting_down;
  sh ← (if negb sd then fail_emergency_reaped p status else mret false);
  if (sh : bool) then mret tt else
  f ← find_pid p;
  match f with
  | None => mret tt
  | Some (i, true) => stale_reaped i p
  | Some (i, false) =>
      child_exited i status;;
      ok ← gets cg_ok;
      r ← run_of i;
      when ((ok : bool) && (pid r =? 0)) (mod_run i (set_pgid 0))
  end.

Fixpoint reap_loop (fuel : nat) : M unit :=
  match fuel with
  | O => nofuel
  | S fuel' =>
      c ← wait_call;
      match c with
      | WNone => mret tt
      | WErr e => if e =? EINTR then reap_loop fuel' else mret tt
      | WPid p status => reap_one p status;; reap_loop fuel'
      end
  end.

Definition reap : M unit := reap_loop os_patience.

End Ops.

(** ** Every handler keeps the invariant *)

Section Spec.
Context `{E : Env} `{!EnvOk E}.

Lemma svc_give_up_quiet i status w : Quiet w -> (i < n_svc)%nat -> state (w_ctr w) !! i = Some RUNNING ->
  wp (svc_give_up i status) (fun _ w' => Quiet w') w.
Proof.
  intros HQ Hi Hs. unfold svc_give_up.
  eapply wp_calm_st; [calm_tac|done|done|]. intros tries w1 HQ1 Hs1.
  eapply wp_calm_st; [calm_tac|done|done|]. intros r w2 HQ2 Hs2.
  eapply wp_calm_st; [calm_tac|done|done|]. intros act w3 HQ3 Hs3.
  by apply fail_apply_quiet.
Qed.

Lemma restart_schedule_calm i status was_up : (i < n_svc)%nat -> calmM (restart_schedule i status was_up).
Proof. intros Hi. unfold restart_schedule. calm_tac. Qed.

Hint Resolve restart_schedule_calm : calm.

Lemma start_failed_quiet i status : (i < n_svc)%nat -> quietM (start_failed i status).
Proof.
  intros Hi. unfold start_failed. apply quietM_bind; [quiet_tac|]. intros _.
  apply quietM_st; [done|]. intros s w HQ Hs. destruct (decide (s = RUNNING)) as [->|].
  - by apply service_failed_quiet.
  - quiet_at.
Qed.

Lemma ready_quiet i : (i < n_svc)%nat -> quietM (ready i).
Proof. intros Hi. unfold ready. quiet_tac. Qed.

Hint Resolve start_failed_quiet ready_quiet : quiet.

Lemma drain_notify_quiet i chunks : (i < n_svc)%nat -> quietM (drain_notify i chunks).
Proof. intros Hi. induction chunks as [|chunks IH]; simpl; quiet_tac. Qed.

Hint Resolve drain_notify_quiet : quiet.

(** The pipe of an exec is polled until a read is not interrupted. *)
Lemma drain_exec_quiet_from fuel i w r : Quiet w -> (i < n_svc)%nat -> runs w !! i = Some r ->
  (exists k, (k < fuel)%nat /\ forall cap, os_read (calls w + k) (ntf_fd r) cap <> RErr EINTR) ->
  wp (drain_exec fuel i) (fun _ w' => Quiet w') w.
Proof.
  intros HQ Hi Hr. revert w HQ Hr. induction fuel as [|fuel IH]; intros w HQ Hr (k & Hk & Hn); [lia|].
  unfold drain_exec; fold drain_exec. apply wp_bind. eapply wp_rd; [done|].
  destruct (ntf_fd r <? 0); [by apply wp_ret|]. apply wp_bind, wp_call.
  assert (Quiet (set_calls (S (calls w)) w)) as HQ1.
  { eapply calm_quiet; [|done]. eapply (tame_calm _ _ (quiet_side _ HQ)). constructor; simpl; auto. reflexivity. }
  destruct (errno_is _ EINTR) eqn:Hint.
  - destruct k as [|k].
    { exfalso. rewrite Nat.add_0_r in Hn. destruct (os_read (calls w) (ntf_fd r) 8) eqn:Er; try done.
      simpl in Hint. apply Z.eqb_eq in Hint. subst. by apply (Hn 8). }
    apply IH; [done|done|]. exists k. split; [lia|]. intros cap. simpl. rewrite <- Nat.add_succ_r. apply Hn.
  - quiet_at.
Qed.

Lemma drain_exec_quiet i : (i < n_svc)%nat -> quietM (drain_exec os_patience i).
Proof.
  intros Hi w HQ. destruct (side_run _ w i (quiet_side _ HQ) Hi) as [r Hr].
  apply (drain_exec_quiet_from _ _ _ r HQ Hi Hr), ok_intr.
Qed.

Lemma live_has_tame i : (i < n_svc)%nat -> tameM (live_has i).
Proof. intros Hi x w HS. eapply live_has_spec; [done..|]. reflexivity. Qed.

Hint Resolve live_has_tame : tame.
Hint Resolve drain_exec_quiet : quiet.

Lemma drain_one_quiet i : (i < n_svc)%nat -> quietM (drain_one i).
Proof. intros Hi. unfold drain_one. quiet_tac. Qed.

Lemma startable_tame w w' i : tame w w' -> startable w i -> startable w' i.
Proof.
  intros T (H1 & H2 & H3 & r & Hr & Hp & Hst). destruct (tame_run _ _ _ _ T Hr) as (r' & Hr' & M).
  split; [by rewrite (tm_shut _ _ T)|]. split; [by rewrite (tm_want _ _ T)|].
  split; [by rewrite (tm_dep _ _ T)|]. exists r'.
  split; [done|]. by rewrite (mi_pid _ _ M), (mi_stale _ _ M).
Qed.

(** [launch] when nothing stands in the way. *)
Lemma launch_quiet i w : Quiet w -> (i < n_svc)%nat -> startable w i ->
  wp (launch i) (fun _ w' => Quiet w' /\ calm w w') w.
Proof.
  intros HQ Hi Hst. destruct HQ as [[HC HD HS] HQ].
  eapply wp_mono; [by apply (launch_spec (fun _ => 0)); eauto with quiet|]. intros ok w' C.
  split; [by apply (calm_quiet w)|done].
Qed.

Lemma fire_restart_quiet i now : (i < n_svc)%nat -> quietM (fire_restart i now).
Proof.
  intros Hi. unfold fire_restart. apply quietM_bind; [quiet_tac|]. intros r.
  destruct (_ || _); [quiet_tac|]. apply quietM_bind; [quiet_tac|]. intros _.
  apply quietM_bind; [quiet_tac|]. intros [|]; [quiet_tac|]. intros w HQ.
  apply wp_bind. eapply svc_can_start_spec; [apply HQ|done|]. intros [why|] Hwhy.
  - refine ((_ : quietM _) w HQ). apply quietM_st; [done|]. clear w HQ Hwhy. intros s w HQ Hs.
    destruct (_ && _) eqn:Hb; [|quiet_at].
    apply andb_true_iff in Hb as [_ ->%bool_decide_eq_true].
    eapply wp_calm_st; [calm_tac|done|done|]. intros nm w1 HQ1 Hs1.
    eapply wp_calm_st; [calm_tac|done|done|]. intros [] w2 HQ2 Hs2. by apply svc_give_up_quiet.
  - specialize (Hwhy eq_refl). destruct (side_run _ w i (quiet_side _ HQ) Hi) as [r0 Hr0].
    apply wp_bind, (mod_run_tame_spec _ _ r0); [done|by constructor|]. intros w1 T1 _ _.
    assert (Quiet w1) as HQ1 by (eapply calm_quiet; [apply tame_calm; [apply quiet_side, HQ|exact T1]|done]).
    apply wp_bind. eapply wp_mono; [apply launch_quiet; [done|done|by apply (startable_tame w)]|].
    intros ok w2 [HQ2 _]. destruct ok; [by apply wp_ret|]. refine ((_ : quietM _) w2 HQ2).
    apply quietM_st; [done|]. intros s w3 HQ3 Hs3.
    destruct (decide (s = RUNNING)) as [->|]; [by apply service_failed_quiet|]. quiet_at.
Qed.

(** ** Exits *)

Lemma forget_pid_calm i : (i < n_svc)%nat -> calmM (forget_pid i).
Proof.
  intros Hi w HS. unfold forget_pid. destruct (side_run _ w i HS Hi) as [r Hr].
  apply wp_bind. eapply wp_rd; [done|]. apply wp_bind. eapply pid_del_m_spec; [done|]. intros t HS1 Ht.
  apply (wp_mod_run _ _ r); [done|]. constructor; simpl; try done.
  pose proof (sd_svc _ _ HS i r Hr) as Hok.
  eapply (side_update None (set_pids t w) i r (set_pid 0 r) (n_ops w)) in HS1; [exact HS1|done|done| | |].
  - destruct Hok as [H1 H2 H3 H4 H5 H6]. constructor; simpl; auto; [lia|]. intros Hb. apply H4.
    unfold busy in *. simpl in Hb. destruct Hb as [?|Hb]; [lia|by right].
  - apply (pids_forget _ _ _ r _ (pid r)); [done| |done]. simpl. intros q Hq [|]; [congruence|by right].
  - unfold op_b. simpl. lia.
Qed.

Lemma forget_stale_calm i p : (i < n_svc)%nat -> 0 < p -> calmM (forget_stale i p).
Proof.
  intros Hi Hp w HS. unfold forget_stale. apply wp_bind. eapply pid_del_m_spec; [done|]. intros t HS1 Ht.
  destruct (side_run _ w i HS Hi) as [r Hr]. apply wp_bind. eapply (wp_rd _ _ r); [done|].
  apply wp_when; [|by constructor]. intros Hsp%Z.eqb_eq. apply (wp_mod_run _ _ r); [done|].
  constructor; simpl; try done. pose proof (sd_svc _ _ HS i r Hr) as Hok.
  eapply (side_update None (set_pids t w) i r (set_stale_pid 0 r) (n_ops w)) in HS1; [exact HS1|done|done| | |].
  - destruct Hok as [H1 H2 H3 H4 H5 H6]. constructor; simpl; auto; [lia|]. intros Hb. apply H4.
    unfold busy in *. simpl in Hb. destruct Hb as [?|[?|Hb]]; [by left|lia|by right; right].
  - apply (pids_forget _ _ _ r _ p); [done| |done]. simpl. intros q Hq [|]; [by left|congruence].
  - unfold op_b. simpl. lia.
Qed.

Hint Resolve forget_pid_calm forget_stale_calm : calm.

(** A starting service goes back to waiting. *)
Lemma unstart_spec i w : Quiet w -> (i < n_svc)%nat -> state (w_ctr w) !! i = Some RUNNING ->
  wp (mod_ctr dec_active;; set_state_at i PENDING;; mod_ctr inc_pending) (fun _ w' => Quiet w') w.
Proof.
  intros [[HC HD HS] HQ] Hi Hs. pose proof (ctr_range _ HC). pose proof (ctr_positive _ _ _ HC Hs) as Hpos.
  simpl in Hpos. apply wp_bind, wp_modify. apply wp_bind.
  eapply wp_set_state; [reflexivity|by apply lookup_lt_Some in Hs|]. apply wp_modify.
  rewrite !set_ctr_twice. set (c := inc_pending _).
  assert (c = ctr_move i RUNNING PENDING (w_ctr w)) as ->.
  { unfold c, ctr_move, inc_pending, dec_active, is_st. apply ctr_eq; simpl; rewrite ?u32_small; lia. }
  split; [constructor; [by apply ctr_ok_set|done|destruct HS; by constructor]|done].
Qed.

Lemma exited_wanted_quiet i : (i < n_svc)%nat -> quietM (exited_wanted i).
Proof.
  intros Hi. unfold exited_wanted. do 7 (apply quietM_bind; [quiet_tac|intros ?]).
  apply quietM_st; [done|]. intros s w HQ Hs. apply wp_bind.
  apply (wp_mono _ (fun _ w' => Quiet w')); [|intros [] w1 HQ1; quiet_at].
  apply wp_when; [|done]. intros ->%bool_decide_eq_true. by apply unstart_spec.
Qed.

Lemma exited_settled_quiet i status : (i < n_svc)%nat -> quietM (exited_settled i status).
Proof. intros Hi. unfold exited_settled. quiet_tac. Qed.

Lemma exited_starting_quiet i status w : Quiet w -> (i < n_svc)%nat -> state (w_ctr w) !! i = Some RUNNING ->
  wp (exited_starting i status) (fun _ w' => Quiet w') w.
Proof.
  intros HQ Hi Hs. unfold exited_starting. apply wp_bind, wp_gets.
  destruct (shutting_down w); [quiet_at|]. eapply wp_calm_st; [calm_tac|done|done|]. intros r w1 HQ1 Hs1.
  destruct (timedout r); [by apply service_failed_quiet|]. destruct (hup r); [by apply service_failed_quiet|].
  eapply wp_calm_st; [calm_tac|done|done|]. intros ty w2 HQ2 Hs2.
  destruct (_ && _); [quiet_at|by apply service_failed_quiet].
Qed.

Hint Resolve exited_wanted_quiet exited_settled_quiet : quiet.

Lemma child_exited_quiet i status : (i < n_svc)%nat -> quietM (child_exited i status).
Proof.
  intros Hi. unfold child_exited. do 6 (apply quietM_bind; [quiet_tac|intros ?]).
  destruct (_ && _); [quiet_tac|]. apply quietM_st; [done|]. intros s w HQ Hs.
  destruct (decide (s = RUNNING)) as [->|]; [by apply exited_starting_quiet|quiet_at].
Qed.

Lemma stale_reaped_quiet i p : (i < n_svc)%nat -> 0 < p -> quietM (stale_reaped i p).
Proof. intros Hi Hp. unfold stale_reaped. quiet_tac. Qed.

Hint Resolve child_exited_quiet stale_reaped_quiet : quiet.

Lemma reap_one_quiet p status : 0 < p -> quietM (reap_one p status).
Proof.
  intros Hp. unfold reap_one. apply quietM_bind; [quiet_tac|intros sd].
  apply quietM_bind; [quiet_tac|intros [|]]; [quiet_tac|]. intros w HQ.
  apply wp_bind. eapply wp_mono; [eapply find_pid_spec; [apply quiet_side, HQ|done]|].
  intros f w' [-> Hf]. destruct f as [[i [|]]|]; [..|by apply wp_ret]; destruct (Hf _ _ eq_refl) as [Hi _]; quiet_at.
Qed.

(** Every child that has exited is reaped, and the invariant holds after each. *)
Lemma reap_safe fuel w : Quiet w -> wlp (reap_loop fuel) (fun _ w' => Quiet w') w.
Proof.
  revert w. induction fuel as [|fuel IH]; intros w HQ; [done|]. simpl.
  assert (Quiet (set_waits (S (waits w)) w)) as HQ1.
  { eapply calm_quiet; [|done]. eapply (tame_calm _ _ (quiet_side _ HQ)). constructor; simpl; auto. reflexivity. }
  apply (wlp_step _ _ (fun c w' => Quiet w' /\ forall p st, c = WPid p st -> 0 < p)).
  { split; [done|]. intros p st. apply ok_child. }
  intros c w1 [HQ2 Hc]. destruct c as [p st| |e]; [|by apply wp_wlp, wp_ret|].
  - eapply wlp_step; [by apply reap_one_quiet; [by eapply Hc|]|]. intros [] w2 HQ3. by apply IH.
  - destruct (e =? EINTR); [by apply IH|by apply wp_wlp, wp_ret].
Qed.

End Spec.

#[export] Hint Resolve live_has_tame : tame.
#[export] Hint Resolve restart_schedule_calm forget_pid_calm forget_stale_calm : calm.
#[export] Hint Resolve start_failed_quiet ready_quiet drain_notify_quiet drain_exec_quiet drain_one_quiet
  fire_restart_quiet child_exited_quiet stale_reaped_quiet : quiet.
