(* ===== verification/Steady.v ===== *)
(** * What stays as it is once the machine is going down

    While [shutting_down] is set, the handlers that collect children and their
    output start no process and touch neither the signals nor the order of the
    shutdown; they add to the trace and to the count of kernel calls. *)

From stdpp Require Import gmap.
From S2P Require Import Prelude Ngraph PidMap Ring Log World Sys Live Cgroup Fail Emerg Output State Spawn Release Reap.

(** ** The log makes calls and undoes none *)

Definition lsteps {A} (m : LM A) : Prop := forall L a L', m L = VOk (a, L') -> (l_calls L <= l_calls L')%nat.

Lemma lsteps_ret {A} (a : A) : lsteps (mret a).
Proof. by intros L b L' [= _ <-]. Qed.

Lemma lsteps_bind {A B} (m : LM A) (f : A -> LM B) : lsteps m -> (forall a, lsteps (f a)) -> lsteps (m ≫= f).
Proof.
  intros Hm Hf L b L'. unfold mbind, LM_bind. destruct (m L) as [[a L1]| | |] eqn:E; simpl; try done.
  intros Hb. pose proof (Hm _ _ _ E). pose proof (Hf _ _ _ _ Hb). lia.
Qed.

Lemma lsteps_gets {A} (f : logst -> A) : lsteps (lgets f).
Proof. by intros L b L' [= _ <-]. Qed.

Lemma lsteps_mod f : (forall L, l_calls (f L) = l_calls L) -> lsteps (lmod f).
Proof. intros Hf L b L' [= _ <-]. by rewrite Hf. Qed.

Lemma lsteps_res {A} (v : vres A) : lsteps (lres v).
Proof. intros L a L'. unfold lres. destruct v; simpl; try done. by intros [= _ <-]. Qed.

Lemma lsteps_call `{LogOs} {A} (f : nat -> A) : lsteps (lcall f).
Proof. intros L a L' [= _ <-]. simpl. lia. Qed.

Lemma lsteps_when (b : bool) m : lsteps m -> lsteps (lwhen b m).
Proof. destruct b; intros Hm; [done|apply lsteps_ret]. Qed.

Lemma lsteps_for n i body : (forall k, lsteps (body k)) -> lsteps (lfor n i body).
Proof. intros Hb. revert i. induction n as [|n IH]; intros i; simpl; [apply lsteps_ret|by apply lsteps_bind]. Qed.

Create HintDb lsteps.

Ltac lsteps_step :=
  match goal with
  | |- lsteps (mret _) => apply lsteps_ret
  | |- lsteps (_ ≫= _) => apply lsteps_bind; [|intros ?]
  | |- lsteps (lgets _) => apply lsteps_gets
  | |- lsteps (lmod _) => apply lsteps_mod; intros ?; try done; match goal with |- context [if ?b then _ else _] => by destruct b end
  | |- lsteps (lres _) => apply lsteps_res
  | |- lsteps (lat _ _) => apply lsteps_res
  | |- lsteps (lput _ _ _) => apply lsteps_res
  | |- lsteps (lcall _) => apply lsteps_call
  | |- lsteps mono_ms => apply lsteps_call
  | |- lsteps lpoll => apply lsteps_call
  | |- lsteps (lwhen _ _) => apply lsteps_when
  | |- lsteps (lfor _ _ _) => apply lsteps_for; intros ?
  | |- lsteps (if ?b then _ else _) => destruct b
  | |- lsteps (match ?x with _ => _ end) => destruct x
  | |- lsteps (let _ := _ in _) => cbv zeta
  | |- lsteps _ => solve [eauto with lsteps nocore]
  end.

Ltac lsteps_tac := repeat lsteps_step.

Section Log.
Context `{LogOs}.

Lemma log_full_lsteps d wait : lsteps (log_full d wait).
Proof. unfold log_full. lsteps_tac. Qed.
Hint Resolve log_full_lsteps : lsteps.

Lemma log_push_lsteps fuel buf d dl wait : lsteps (log_push fuel buf d dl wait).
Proof. revert d dl. induction fuel as [|fuel IH]; intros d dl; cbn [log_push]; lsteps_tac. Qed.

Lemma push_lsteps buf wait : lsteps (Log.push buf wait).
Proof. apply log_push_lsteps. Qed.
Hint Resolve push_lsteps : lsteps.

Lemma pend_clear_lsteps : lsteps pend_clear.
Proof. unfold pend_clear. lsteps_tac. Qed.
Hint Resolve pend_clear_lsteps : lsteps.

Lemma log_write_lsteps buf : lsteps (log_write buf).
Proof. unfold log_write. lsteps_tac. Qed.
Hint Resolve log_write_lsteps : lsteps.

Lemma log_elapsed_lsteps : lsteps log_elapsed_ms.
Proof. unfold log_elapsed_ms. lsteps_tac. Qed.
Hint Resolve log_elapsed_lsteps : lsteps.

Lemma log_head_lsteps level ms : lsteps (log_head level ms).
Proof. unfold log_head, tag_of. lsteps_tac. Qed.
Hint Resolve log_head_lsteps : lsteps.

Lemma log_report_lsteps lost : lsteps (log_report_dropped lost).
Proof. unfold log_report_dropped, tag_of. lsteps_tac. Qed.
Hint Resolve log_report_lsteps : lsteps.

Lemma log_out_lsteps key ms buf p e : lsteps (log_out key ms buf p e).
Proof. unfold log_out, tag_of. lsteps_tac. Qed.
Hint Resolve log_out_lsteps : lsteps.

Lemma seen_back_lsteps k : lsteps (seen_back k).
Proof. unfold seen_back. lsteps_tac. Qed.
Hint Resolve seen_back_lsteps : lsteps.

Lemma seen_is_lsteps e key h s : lsteps (seen_is e key h s).
Proof. unfold seen_is. lsteps_tac. Qed.
Hint Resolve seen_is_lsteps : lsteps.

Lemma log_emit_lsteps key ms buf p h : lsteps (log_emit key ms buf p h).
Proof. unfold log_emit. lsteps_tac. Qed.
Hint Resolve log_emit_lsteps : lsteps.

Lemma log_again_lsteps e ms : lsteps (log_again e ms).
Proof. unfold log_again. lsteps_tac. Qed.
Hint Resolve log_again_lsteps : lsteps.

Lemma again_at_lsteps f k : lsteps (again_at f k).
Proof. unfold again_at. lsteps_tac. Qed.
Hint Resolve again_at_lsteps : lsteps.

Lemma rep_key_lsteps : lsteps rep_key.
Proof.
  assert (forall n k l c, lsteps (rep_key_from n k l c)) as Hk.
  { induction n as [|n IH]; intros k l c; cbn [rep_key_from]; lsteps_tac. }
  unfold rep_key. lsteps_tac.
Qed.
Hint Resolve rep_key_lsteps : lsteps.

Lemma rep_flush_lsteps : lsteps rep_flush.
Proof. unfold rep_flush, tag_of. lsteps_tac. Qed.
Hint Resolve rep_flush_lsteps : lsteps.

Lemma rep_break_lsteps : lsteps rep_break.
Proof. unfold rep_break. lsteps_tac. Qed.
Hint Resolve rep_break_lsteps : lsteps.

Lemma rep_find_lsteps key h s : lsteps (rep_find key h s).
Proof.
  assert (forall n k len, lsteps (twice_from n k len)) as Ht.
  { induction n as [|n IH]; intros k len; cbn [twice_from]; lsteps_tac. }
  assert (forall n len, lsteps (find_from n len key h s)) as Hf.
  { induction n as [|n IH]; intros len; cbn [find_from]; unfold seen_twice; lsteps_tac. }
  unfold rep_find. lsteps_tac.
Qed.
Hint Resolve rep_find_lsteps : lsteps.

Lemma rep_hold_lsteps ms : lsteps (rep_hold ms).
Proof. unfold rep_hold. lsteps_tac. Qed.
Hint Resolve rep_hold_lsteps : lsteps.

Lemma ninit_log_lsteps level text : lsteps (Log.ninit_log level text).
Proof. unfold Log.ninit_log. lsteps_tac. Qed.

Lemma log_batch_lsteps : lsteps log_batch_begin.
Proof. unfold log_batch_begin. lsteps_tac. Qed.
End Log.

(** ** The world *)

(** No start of a service, and no step of the ordered stop. *)
Definition quiet_event (e : event) : Prop :=
  match e with EvFork _ _ _ _ | EvStop _ _ _ | EvGone _ _ | EvHalt _ => False | _ => True end.

Record kept (w w' : world) : Prop := Kept {
  kp_shut : shutting_down w' = shutting_down w;
  kp_waits : waits w' = waits w;
  kp_sfd : sfd w' = sfd w;
  kp_calls : (calls w <= calls w')%nat;
  kp_trace : exists l, trace w' = l ++ trace w /\ Forall quiet_event l;
}.

#[export] Instance kept_refl : Reflexive kept.
Proof. intros w. constructor; [done..|]. exists []. by split. Qed.

#[export] Instance kept_trans : Transitive kept.
Proof.
  intros w1 w2 w3 [A1 A2 A3 A4 (l & El & Fl)] [B1 B2 B3 B4 (k & Ek & Fk)]. constructor; [congruence..|lia|].
  exists (k ++ l). rewrite Ek, El, app_assoc. split; [done|by apply Forall_app].
Qed.

(** A handler every run of which during the shutdown is such a step, if it
    returns. *)
Definition keptM {A} (m : M A) : Prop := forall w, shutting_down w = true ->
  match m w with Ok _ w' => kept w w' | Halt _ => False | _ => True end.

Lemma keptM_ret {A} (a : A) : keptM (mret a).
Proof. intros w _. simpl. reflexivity. Qed.

Lemma keptM_fault {A} : keptM (A := A) fault.
Proof. done. Qed.

Lemma keptM_nofuel {A} : keptM (A := A) nofuel.
Proof. done. Qed.

Lemma keptM_bind {A B} (m : M A) (f : A -> M B) : keptM m -> (forall a, keptM (f a)) -> keptM (m ≫= f).
Proof.
  intros Hm Hf w Hw. unfold mbind, M_bind. specialize (Hm w Hw). destruct (m w) as [a w1| | |]; try done.
  specialize (Hf a w1). rewrite (kp_shut _ _ Hm) in Hf. specialize (Hf Hw). destruct (f a w1); try done. by etrans.
Qed.

Lemma keptM_gets {A} (f : world -> A) : keptM (gets f).
Proof. intros w _. simpl. reflexivity. Qed.

(** The handlers ask whether the machine is going down. *)
Lemma keptM_shut {B} (f : bool -> M B) : keptM (f true) -> keptM (sd ← gets shutting_down; f sd).
Proof. intros Hf w Hw. unfold mbind, M_bind. simpl. rewrite Hw. by apply Hf. Qed.

Lemma keptM_modify f : (forall w, kept w (f w)) -> keptM (modify f).
Proof. intros Hf w _. apply Hf. Qed.

Lemma kept_same w w' : shutting_down w' = shutting_down w -> waits w' = waits w -> sfd w' = sfd w ->
  calls w' = calls w -> trace w' = trace w -> kept w w'.
Proof. intros H1 H2 H3 H4 H5. constructor; [done..|lia|]. exists []. by rewrite H5. Qed.

Lemma keptM_lift {A} (o : option A) : keptM (lift o).
Proof. destruct o; [apply keptM_ret|apply keptM_fault]. Qed.

Lemma keptM_when (b : bool) m : (b = true -> keptM m) -> keptM (when b m).
Proof. destruct b; intros Hm; [by apply Hm|apply keptM_ret]. Qed.

Lemma keptM_call `{Env} {A} (f : nat -> A) : keptM (call f).
Proof. intros w _. constructor; simpl; [done..|lia|]. by exists []. Qed.

Lemma keptM_emit e : quiet_event e -> keptM (emit e).
Proof. intros He. apply keptM_modify. intros w. constructor; [done..|]. exists [e]. split; [done|]. by constructor. Qed.

Lemma keptM_store {A} (l : list A) i v : keptM (store l i v).
Proof. unfold store. destruct (decide _); [apply keptM_ret|apply keptM_fault]. Qed.

Lemma keptM_rd {A} (f : world -> list A) i : keptM (rd f i).
Proof. apply keptM_bind; [apply keptM_gets|intros l; apply keptM_lift]. Qed.

Lemma keptM_mfor n k body : (forall i, keptM (body i)) -> keptM (mfor n k body).
Proof. intros Hb. revert k. induction n as [|n IH]; intros k; simpl; [apply keptM_ret|by apply keptM_bind]. Qed.

Lemma keptM_miter {A} (l : list A) body : (forall x, keptM (body x)) -> keptM (miter l body).
Proof. intros Hb. induction l as [|x l IH]; simpl; [apply keptM_ret|by apply keptM_bind]. Qed.

Lemma keptM_run_log `{Env} {A} (m : LM A) : lsteps m -> keptM (run_log m).
Proof.
  intros Hm w _. unfold run_log. destruct (m _) as [[a L]| | |] eqn:E; try done.
  pose proof (Hm _ _ _ E) as Hc. simpl in Hc. constructor; simpl; [done..| |]; [done|]. by exists [].
Qed.

Lemma keptM_log `{Env} level body : keptM (ninit_log level body).
Proof.
  unfold ninit_log. apply keptM_bind; [by apply keptM_emit|]. intros _. apply keptM_run_log, ninit_log_lsteps.
Qed.

Create HintDb kept.

Ltac kept_step :=
  match goal with
  | |- keptM (mret _) => apply keptM_ret
  | |- keptM fault => apply keptM_fault
  | |- keptM nofuel => apply keptM_nofuel
  | |- keptM (gets shutting_down ≫= _) => apply keptM_shut; cbn [negb andb orb when]; rewrite ?andb_false_r, ?orb_true_r
  | |- keptM (_ ≫= _) => apply keptM_bind; [|intros ?]
  | |- keptM (gets _) => apply keptM_gets
  | |- keptM (call _) => apply keptM_call
  | |- keptM now_ms => apply keptM_call
  | |- keptM (mono_ms_since _) => unfold mono_ms_since
  | |- keptM (lift _) => apply keptM_lift
  | |- keptM (rd _ _) => apply keptM_rd
  | |- keptM (store _ _ _) => apply keptM_store
  | |- keptM (when _ _) => apply keptM_when; intros ?
  | |- keptM (mfor _ _ _) => apply keptM_mfor; intros ?
  | |- keptM (miter _ _) => apply keptM_miter; intros ?
  | |- keptM (modify _) => apply keptM_modify; intros ?; by apply kept_same
  | |- keptM (mod_ctr _) => apply keptM_modify; intros ?; by apply kept_same
  | |- keptM (mod_dep _) => apply keptM_modify; intros ?; by apply kept_same
  | |- keptM (emit _) => by apply keptM_emit
  | |- keptM (kill _ _) => by apply keptM_emit
  | |- keptM (ninit_log _ _) => apply keptM_log
  | |- keptM (log_warn _) => apply keptM_log
  | |- keptM (log_err _) => apply keptM_log
  | |- keptM (log_note _) => apply keptM_log
  | |- keptM (log_done _) => apply keptM_log
  | |- keptM (log_wait _) => apply keptM_log
  | |- keptM (st_of _) => apply keptM_rd
  | |- keptM (up_of _) => apply keptM_rd
  | |- keptM (rel_of _) => apply keptM_rd
  | |- keptM (unmet_of _) => apply keptM_rd
  | |- keptM (want_of _) => apply keptM_rd
  | |- keptM (run_of _) => apply keptM_rd
  | |- keptM (live_at _) => apply keptM_rd
  | |- keptM (rq_at _) => apply keptM_rd
  | |- keptM (name_of _) => apply keptM_lift
  | |- keptM (svc_of _) => apply keptM_lift
  | |- keptM (deps_of _) => apply keptM_lift
  | |- keptM n_live_of => apply keptM_gets
  | |- keptM em => apply keptM_gets
  | |- keptM (if ?b then _ else _) => destruct b
  | |- keptM (match ?x with _ => _ end) => destruct x
  | |- keptM (let _ := _ in _) => cbv zeta
  | |- keptM _ => solve [eauto with kept nocore]
  end.

Ltac kept_tac := repeat (cbv beta; kept_step).

Section Handlers.
Context `{Env}.

Lemma mod_run_kept i f : keptM (mod_run i f).
Proof. unfold mod_run. kept_tac. Qed.
Hint Resolve mod_run_kept : kept.

Lemma set_state_kept i s : keptM (set_state_at i s).
Proof. unfold set_state_at. kept_tac. Qed.
Lemma set_up_kept i v : keptM (set_up_at i v).
Proof. unfold set_up_at. kept_tac. Qed.
Lemma set_rel_kept i v : keptM (set_rel_at i v).
Proof. unfold set_rel_at. kept_tac. Qed.
Hint Resolve set_state_kept set_up_kept set_rel_kept : kept.

(** The live list and the pid table. *)
Lemma live_add_kept i : keptM (live_add i).
Proof. unfold live_add. kept_tac. Qed.
Lemma live_has_kept i : keptM (live_has i).
Proof. unfold live_has. kept_tac. Qed.
Lemma live_del_kept i : keptM (live_del i).
Proof. unfold live_del. kept_tac. Qed.
Hint Resolve live_add_kept live_has_kept live_del_kept : kept.

Lemma scan_pid_kept n k p : keptM (scan_pid n k p).
Proof. revert k. induction n as [|n IH]; intros k; cbn [scan_pid]; kept_tac. Qed.
Hint Resolve scan_pid_kept : kept.
Lemma find_pid_kept p : keptM (find_pid p).
Proof. unfold find_pid. kept_tac. Qed.
Lemma pid_del_m_kept p : keptM (pid_del_m p).
Proof. unfold pid_del_m, with_table. kept_tac. Qed.
Hint Resolve find_pid_kept pid_del_m_kept : kept.

(** Control groups. *)
Lemma cgroup_populated_kept i : keptM (cgroup_populated i).
Proof. unfold cgroup_populated. kept_tac. Qed.
Lemma cgroup_drop_kept i : keptM (cgroup_drop i).
Proof. unfold cgroup_drop. kept_tac. Qed.
Lemma cg_kill_kept i : keptM (cg_kill i).
Proof. unfold cg_kill. kept_tac. Qed.
Hint Resolve cgroup_populated_kept cgroup_drop_kept cg_kill_kept : kept.
Lemma signal_pids_kept ls sig n : keptM (signal_pids ls sig n).
Proof. revert n. induction ls as [|l ls IH]; intros n; cbn [signal_pids]; kept_tac. Qed.
Hint Resolve signal_pids_kept : kept.
Lemma signal_chunks_kept fuel fd sig held n : keptM (signal_chunks fuel fd sig held n).
Proof. revert held n. induction fuel as [|fuel IH]; intros held n; cbn [signal_chunks]; kept_tac. Qed.
Hint Resolve signal_chunks_kept : kept.
Lemma cgroup_signal_kept i sig : keptM (cgroup_signal i sig).
Proof. unfold cgroup_signal. kept_tac. Qed.
Hint Resolve cgroup_signal_kept : kept.

(** Messages about a failure. *)
Lemma log_raw_kept level text : keptM (log_raw level text).
Proof.
  assert (forall ls, keptM (log_lines level ls)) as Hl.
  { induction ls as [|l ls IH]; cbn [log_lines]; kept_tac. }
  unfold log_raw. kept_tac.
Qed.
Hint Resolve log_raw_kept : kept.
Lemma fail_service_kept i status a t tail : keptM (fail_service i status a t tail).
Proof. unfold fail_service. kept_tac. Qed.
Hint Resolve fail_service_kept : kept.

(** Output. *)
Lemma close_fds_kept i : keptM (close_fds i).
Proof. unfold close_fds. kept_tac. Qed.
Lemma maybe_free_kept i : keptM (maybe_free i).
Proof. unfold maybe_free. kept_tac. Qed.
Lemma flush_line_kept i : keptM (flush_line i).
Proof. unfold flush_line. kept_tac. Qed.
Hint Resolve close_fds_kept maybe_free_kept flush_line_kept : kept.
Lemma put_seg_kept fuel i seg : keptM (put_seg fuel i seg).
Proof. revert seg. induction fuel as [|fuel IH]; intros [|c seg]; cbn [put_seg]; kept_tac. Qed.
Hint Resolve put_seg_kept : kept.
Lemma absorb_kept i buf : keptM (absorb i buf).
Proof.
  assert (forall ls, keptM (absorb_lines i ls)) as Hl.
  { induction ls as [|l ls IH]; cbn [absorb_lines]; kept_tac. }
  unfold absorb. kept_tac.
Qed.
Hint Resolve absorb_kept : kept.
Lemma drain_out_kept i chunks b : keptM (drain_out i chunks b).
Proof. induction chunks as [|n IH]; cbn [drain_out]; kept_tac. Qed.
Hint Resolve drain_out_kept : kept.

(** State. *)
Lemma signal_group_kept i sig : keptM (signal_group i sig).
Proof. unfold signal_group. kept_tac. Qed.
Hint Resolve signal_group_kept : kept.
Lemma kill_group_kept i : keptM (kill_group i).
Proof. unfold kill_group. kept_tac. Qed.
Lemma svc_abandon_kept i : keptM (svc_abandon i).
Proof. unfold svc_abandon. kept_tac. Qed.
Lemma svc_gone_kept i : keptM (svc_gone i).
Proof. unfold svc_gone. kept_tac. Qed.
Lemma svc_mark_done_kept i : keptM (svc_mark_done i).
Proof. unfold svc_mark_done. kept_tac. Qed.
Lemma svc_set_up_kept i v : keptM (svc_set_up i v).
Proof. unfold svc_set_up. kept_tac. Qed.
Hint Resolve kill_group_kept svc_abandon_kept svc_gone_kept svc_mark_done_kept svc_set_up_kept : kept.
Lemma rq_put_kept rt d : keptM (rq_put rt d).
Proof. unfold rq_put. kept_tac. Qed.
Hint Resolve rq_put_kept : kept.
Lemma reclaim_deps_kept rt ds : keptM (reclaim_deps rt ds).
Proof. revert rt. induction ds as [|d ds IH]; intros rt; cbn [reclaim_deps]; unfold reclaim_dep; kept_tac. Qed.
Hint Resolve reclaim_deps_kept : kept.
Lemma reclaim_loop_kept fuel rh rt : keptM (reclaim_loop fuel rh rt).
Proof. revert rh rt. induction fuel as [|fuel IH]; intros rh rt; cbn [reclaim_loop]; kept_tac. Qed.
Hint Resolve reclaim_loop_kept : kept.
Lemma go_down_kept i : keptM (go_down i).
Proof. unfold go_down, svc_reclaim. kept_tac. Qed.
Hint Resolve go_down_kept : kept.
Lemma live_loop_kept fuel k body : (forall i, keptM (body i)) -> keptM (live_loop fuel k body).
Proof. intros Hb. revert k. induction fuel as [|fuel IH]; intros k; cbn [live_loop]; kept_tac. Qed.
Lemma skipped_note_kept i p : keptM (skipped_note i p).
Proof. unfold skipped_note. apply keptM_bind; [kept_tac|intros n]. apply keptM_bind; [apply live_loop_kept; intros j; unfold unretry|intros _]; kept_tac. Qed.
Hint Resolve skipped_note_kept : kept.
Lemma poison_deps_kept i : keptM (poison_deps i).
Proof. unfold poison_deps, put_poisoned. kept_tac. Qed.
Hint Resolve poison_deps_kept : kept.

(** Nothing can start. *)
Lemma svc_try_start_kept i : keptM (svc_try_start i).
Proof.
  intros w Hw. unfold svc_try_start, svc_can_start, mbind, M_bind. simpl. rewrite Hw. simpl. reflexivity.
Qed.
Hint Resolve svc_try_start_kept : kept.

Lemma retry_delay_kept i : keptM (retry_delay_ms i).
Proof. unfold retry_delay_ms. kept_tac. Qed.
Lemma failed_cleanup_kept i : keptM (failed_cleanup i).
Proof. unfold failed_cleanup. kept_tac. Qed.
Hint Resolve retry_delay_kept failed_cleanup_kept : kept.
Lemma service_failed_kept i status : keptM (service_failed i status).
Proof. unfold service_failed. kept_tac. Qed.
Hint Resolve service_failed_kept : kept.

(** The hand-over. *)
Lemma q_put_kept i : keptM (q_put i).
Proof. unfold q_put. kept_tac. Qed.
Hint Resolve q_put_kept : kept.
Lemma release_dep_kept d : keptM (release_dep d).
Proof. unfold release_dep, release_target, release_service, revive. kept_tac. Qed.
Hint Resolve release_dep_kept : kept.
Lemma release_loop_kept fuel : keptM (release_loop fuel).
Proof. induction fuel as [|fuel IH]; cbn [release_loop]; kept_tac. Qed.
Hint Resolve release_loop_kept : kept.
Lemma complete_kept i : keptM (complete i).
Proof. unfold complete, svc_release. kept_tac. Qed.
Hint Resolve complete_kept : kept.

(** Exits. *)
Lemma restart_schedule_kept i status b : keptM (restart_schedule i status b).
Proof. unfold restart_schedule. kept_tac. Qed.
Hint Resolve restart_schedule_kept : kept.
Lemma start_failed_kept i status : keptM (start_failed i status).
Proof. unfold start_failed. kept_tac. Qed.
Hint Resolve start_failed_kept : kept.
Lemma ready_kept i : keptM (ready i).
Proof. unfold ready. kept_tac. Qed.
Hint Resolve ready_kept : kept.
Lemma drain_notify_kept i chunks : keptM (drain_notify i chunks).
Proof. induction chunks as [|n IH]; cbn [drain_notify]; kept_tac. Qed.
Hint Resolve drain_notify_kept : kept.
Lemma drain_output_kept : keptM drain_output.
Proof. unfold drain_output. kept_tac. Qed.
Lemma exited_wanted_kept i : keptM (exited_wanted i).
Proof. unfold exited_wanted. kept_tac. Qed.
Lemma exited_settled_kept i status : keptM (exited_settled i status).
Proof. unfold exited_settled. kept_tac. Qed.
Lemma exited_starting_kept i status : keptM (exited_starting i status).
Proof. unfold exited_starting. kept_tac. Qed.
Hint Resolve exited_wanted_kept exited_settled_kept exited_starting_kept : kept.
Lemma child_exited_kept i status : keptM (child_exited i status).
Proof. unfold child_exited, forget_pid. kept_tac. Qed.
Lemma stale_reaped_kept i p : keptM (stale_reaped i p).
Proof. unfold stale_reaped, forget_stale. kept_tac. Qed.
Hint Resolve child_exited_kept stale_reaped_kept : kept.
Lemma reap_one_kept p status : keptM (reap_one p status).
Proof. unfold reap_one. kept_tac. Qed.
End Handlers.
