(* ===== verification/Halt.v ===== *)
(** * The last steps of a shutdown (src/shutdown.c)

    The clock is saved, the swap is disabled, and every mounted filesystem is
    remounted read-only, or unmounted, or detached. *)

From S2P Require Import Prelude Ngraph Log World Sys Cgroup Output.

Definition SHUTDOWN_DRAIN_MS : Z := 100.
Definition HWCLOCK_GRACE_MS : Z := 5000.
Definition RO_PASSES : nat := 3.

(** ** Lines of /proc *)

Definition octal (c : Z) : bool := (48 <=? c) && (c <=? 55).

(** A space, tab, newline or backslash in a path is written as three octal
    digits. *)
Fixpoint unescape_mount (s : bytes) : bytes :=
  match s with
  | 92 :: ((a :: b :: c :: s') as s1) =>
      if octal a && octal b && octal c
      then u8 (Z.lor (Z.lor (Z.shiftl (a - 48) 6) (Z.shiftl (b - 48) 3)) (c - 48)) :: unescape_mount s'
      else 92 :: unescape_mount s1
  | c :: s' => c :: unescape_mount s'
  | [] => []
  end.

(** The mount point of a line: its second field, if a third follows. *)
Definition mount_point (line : bytes) : option bytes :=
  mp ← past 32 line;
  _ ← past 32 mp;
  Some (unescape_mount (upto 32 mp)).

(** The lines of a text, the last one without a newline if it is not empty. *)
Definition text_lines (s : bytes) : list bytes :=
  let '(ls, rest) := split_lines [] s in ls ++ (if decide (rest = []) then [] else [rest]).

(** The swap area of a line: its first field, if something follows. *)
Definition swap_area (line : bytes) : option bytes :=
  let dev := upto 9 (upto 32 line) in
  if decide (dev = line) then None else Some (unescape_mount dev).

Section Ops.
Context `{Env}.

(** A call that changes something: [None] when it succeeded, else errno. *)
Definition act (what arg : bytes) : M (option Z) :=
  e ← call (fun n => os_act n what arg);
  emit (EvAct what arg (bool_decide (e = None)));;
  mret e.

Definition sync : M unit := act (bs "sync") [];; mret tt.

(** ** Reading a file of /proc *)

(** The buffer grows before it is full; the text so far when it cannot. *)
Fixpoint read_file (fuel : nat) (fd : Z) (what : bytes) (cap : Z) (buf : option bytes) : M (option bytes) :=
  match fuel with
  | O => nofuel
  | S fuel' =>
      let text := default [] buf in
      let len := Z.of_nat (length text) in
      let more := cap <? len + 4096 in
      ok ← (if more then call os_alloc else mret true);
      if negb ok then log_warn (bs "shutdown: out of memory reading " ++ what);; mret buf else
      let cap := if more then (if cap =? 0 then 16384 else cap * 2) else cap in
      b ← call (fun n => os_fread n fd (cap - len - 1));
      match b with
      | RData d => read_file fuel' fd what cap (Some (text ++ d))
      | RErr e => if e =? EINTR then read_file fuel' fd what cap (Some text) else mret (Some text)
      | REof => mret (Some text)
      end
  end.

Definition read_proc (path what : bytes) : M (option bytes) :=
  f ← call (fun n => os_open n path);
  match f with
  | inl fd => read_file os_patience fd what 0 None
  | inr _ => mret None
  end.

(** ** Filesystems *)

(** The mount points that fit the memory there is. *)
Fixpoint list_mounts (lines : list bytes) (mcap : Z) (mps : list bytes) : M (list bytes) :=
  match lines with
  | [] => mret mps
  | line :: lines' =>
      match mount_point line with
      | None => list_mounts lines' mcap mps
      | Some mp =>
          let full := Z.of_nat (length mps) =? mcap in
          ok ← (if full then call os_alloc else mret true);
          if negb ok then log_warn (bs "shutdown: out of memory listing mounts");; mret mps else
          list_mounts lines' (if full then (if mcap =? 0 then 64 else mcap * 2) else mcap) (mps ++ [mp])
      end
  end.

(** [for(k = n; k--;)] over the mount points that are left: the step gives
    whether it is done with one, [None] for one it passes over. The number of
    those that are not done. *)
Fixpoint sweep (step : bytes -> M (option bool)) (mps : list (option bytes)) : M (list (option bytes) * Z) :=
  match mps with
  | [] => mret ([], 0)
  | o :: mps' =>
      r ← sweep step mps';
      match o with
      | None => mret (None :: r.1, r.2)
      | Some mp =>
          d ← step mp;
          mret (match d with
                | None => (Some mp :: r.1, r.2)
                | Some true => (None :: r.1, r.2)
                | Some false => (Some mp :: r.1, r.2 + 1)
                end)
      end
  end.

Definition is_ok (e : option Z) : bool := bool_decide (e = None).
Definition err_text (e : option Z) : bytes := match e with Some err => os_strerror err | None => [] end.

Definition try_ro (mp : bytes) : M (option bool) :=
  e ← act (bs "remount-ro") mp; mret (Some (is_ok e)).

Fixpoint ro_passes (n : nat) (mps : list (option bytes)) : M (list (option bytes)) :=
  match n with
  | O => mret mps
  | S n' =>
      r ← sweep try_ro mps;
      if r.2 =? 0 then mret r.1 else ro_passes n' r.1
  end.

Definition ROOT : bytes := bs "/".

Definition try_unmount (mp : bytes) : M (option bool) :=
  if decide (mp = ROOT) then mret None else
  e ← act (bs "umount") mp;
  when (is_ok e) (log_warn (bs "shutdown: " ++ mp ++ bs ": remount read-only failed, unmounted"));;
  mret (Some (is_ok e)).

Definition try_again (mp : bytes) : M (option bool) :=
  if decide (mp = ROOT) then mret None else
  e ← act (bs "remount-ro") mp;
  if is_ok e then log_warn (bs "shutdown: " ++ mp ++ bs ": remounted read-only on retry");; mret (Some true) else
  e ← act (bs "umount") mp;
  if is_ok e then log_warn (bs "shutdown: " ++ mp ++ bs ": unmounted on retry");; mret (Some true) else
  log_err (bs "shutdown: " ++ mp ++ bs ": still mounted writable (" ++ err_text e ++ bs "), detaching");;
  e ← act (bs "detach") mp;
  when (negb (is_ok e)) (log_warn (bs "shutdown: detaching " ++ mp ++ bs ": " ++ err_text e));;
  mret (Some false).

Fixpoint root_passes (n : nat) : M unit :=
  match n with
  | O => mret tt
  | S n' =>
      e ← act (bs "remount-ro") ROOT;
      if is_ok e then mret tt else
      when (n' =? 0)%nat (log_err (bs "shutdown: /: remount read-only failed: " ++ err_text e));;
      root_passes n'
  end.

Definition remount_ro : M unit :=
  buf ← read_proc (bs "/proc/self/mounts") (bs "the mount table");
  mps ← match buf with
        | Some text => list_mounts (text_lines (cut0 text)) 0 []
        | None => mret []
        end;
  mps ← ro_passes RO_PASSES (Some <$> mps);
  r ← sweep try_unmount mps;
  when (negb (r.2 =? 0)) (sync;; sweep try_again r.1;; mret tt);;
  root_passes RO_PASSES.

(** ** Swap *)

Definition swap_off (line : bytes) : M unit :=
  match swap_area line with
  | None => mret tt
  | Some dev =>
      e ← act (bs "swapoff") dev;
      when (negb (is_ok e)) (log_warn (bs "shutdown: swapoff " ++ dev ++ bs ": " ++ err_text e))
  end.

(** The first line is a header. *)
Definition stop_swap : M unit :=
  buf ← read_proc (bs "/proc/swaps") (bs "/proc/swaps");
  match buf with
  | None => mret tt
  | Some text => miter (let '(ls, rest) := split_lines [] (cut0 text) in drop 1 (ls ++ [rest])) swap_off
  end.

(** ** The clock *)

(** [while(read(sfd, &si, sizeof(si)) == sizeof(si));] *)
Fixpoint skip_signals (fuel : nat) : M unit :=
  match fuel with
  | O => nofuel
  | S fuel' =>
      s ← call os_signal;
      match s with None => mret tt | Some _ => skip_signals fuel' end
  end.

(** [poll] on the signals for a while, then those that came are taken off. *)
Definition nap : M unit :=
  call (fun _ => tt);;
  s ← gets sfd;
  when (0 <=? s) (skip_signals os_patience).

(** The turns of the loop take 100 ms at most each; the clock ends it. *)
Fixpoint wait_pid_loop (fuel : nat) (pid deadline : Z) : M bool :=
  match fuel with
  | O => nofuel
  | S fuel' =>
      r ← call (fun n => os_waitpid n pid);
      if match r with WPid p _ => p =? pid | WErr e => negb (e =? EINTR) | WNone => false end then mret true else
      now ← now_ms;
      if deadline - now <=? 0 then mret false else
      nap;;
      wait_pid_loop fuel' pid deadline
  end.

(** One turn makes at least one call, and [os_patience] calls take a minute. *)
Definition wait_pid_ms (pid ms : Z) : M bool :=
  now ← now_ms; wait_pid_loop (S os_patience) pid (now + ms).

(** The third line of /etc/adjtime. *)
Definition rtc_local : M bool :=
  f ← call (fun n => os_open n (bs "/etc/adjtime"));
  match f with
  | inr _ => mret false
  | inl fd =>
      b ← call (fun n => os_fread n fd 4095);
      match b with
      | RData buf =>
          mret (match past 10 (cut0 buf) ≫= past 10 with
                | Some p => bool_decide (take 5 p = bs "LOCAL") && match drop 5 p with [] => true | c :: _ => c =? 10 end
                | None => false
                end)
      | _ => mret false
      end
  end.

(** The child executes hwclock and exits. *)
Definition save_hwclock : M unit :=
  local ← rtc_local;
  f ← call os_fork;
  match f with
  | inr _ => mret tt
  | inl pid =>
      emit (EvHelper pid (if (local : bool) then bs "--localtime" else bs "--utc"));;
      done_ ← wait_pid_ms pid HWCLOCK_GRACE_MS;
      if (done_ : bool) then mret tt else
      log_warn (bs "shutdown: hwclock did not exit in " ++ dec (Z.quot HWCLOCK_GRACE_MS 1000) ++ bs " s, killing it");;
      kill pid SIGKILL;;
      wait_pid_ms pid KILL_GRACE_MS;;
      mret tt
  end.

End Ops.
