(* ===== verification/Stop.v ===== *)
(** * Stopping the services in order (src/stop.c)

    Every service gets SIGTERM once all the services that depend on it are gone,
    and SIGKILL when its time is up; then the rest of userspace, the
    filesystems and the machine. *)

From stdpp Require Import gmap.
From S2P Require Import Prelude Ngraph PidMap Ring Log World Sys Live Cgroup Fail Emerg Output State Spawn Release Reap Steady Halt.

Definition TERM_GRACE_MS : Z := 5000.
Definition STOP_TOTAL_MS : Z := 30000.
Definition PF_KTHREAD : Z := 2097152.

(** ** Whether anything of userspace is left *)

Fixpoint skip_digits (l : bytes) : bytes :=
  match l with
  | c :: l' => if (48 <=? c) && (c <=? 57) then skip_digits l' else l
  | [] => []
  end.

(** The pid a directory of /proc is named for, of a process other than init. *)
Definition proc_pid (name : bytes) : option Z :=
  match name with
  | c :: _ =>
      if (c <? 49) || (57 <? c) then None else
      let pid := strtoll name in
      if negb (bool_decide (skip_digits name = [])) || (pid <=? 1) then None else Some pid
  | [] => None
  end.

(** [strrchr(s, c)], the text after it. *)
Fixpoint past_last (c : Z) (s : bytes) : option bytes :=
  match s with
  | [] => None
  | x :: s' => match past_last c s' with Some r => Some r | None => if x =? c then Some s' else None end
  end.

Fixpoint skip_char (c : Z) (s : bytes) : bytes :=
  match s with x :: s' => if x =? c then skip_char c s' else s | [] => [] end.

Fixpoint skip_word (s : bytes) : bytes :=
  match s with x :: s' => if x =? 32 then s else skip_word s' | [] => [] end.

Definition skip_field (s : bytes) : bytes := skip_word (skip_char 32 s).

Definition ULONG_MAX : Z := 18446744073709551615.

(** [strtoul(l, NULL, 10)] *)
Definition strtoul (l : bytes) : Z :=
  match skip_space l with
  | 45 :: l' => let v := digits_value l' 0 in
      if ULONG_MAX <? v then ULONG_MAX else (- v) mod (ULONG_MAX + 1)
  | 43 :: l' => Z.min ULONG_MAX (digits_value l' 0)
  | l' => Z.min ULONG_MAX (digits_value l' 0)
  end.

(** Whether /proc/PID/stat is that of a process with an address space: its
    flags are the seventh field after the name, which may hold anything. *)
Definition is_user (stat : bytes) : bool :=
  match past_last 41 (cut0 stat) with
  | None => false
  | Some p => Z.land (strtoul (skip_char 32 (Nat.iter 6 skip_field p))) PF_KTHREAD =? 0
  end.

(** ** The state of the ordered stop *)

(** [st[i]]: 0 waits, 1 has got SIGTERM, 2 is gone, 3 has got SIGKILL. *)
Inductive stop_state := S_WAIT | S_TERM | S_GONE | S_KILL.

#[export] Instance stop_state_eq_dec : EqDecision stop_state.
Proof. solve_decision. Defined.

(** The arrays of [stop_ordered]; [waitc] counts the dependents that are not
    gone. *)
Record stopst := Stop {
  st : list stop_state;
  waitc : list Z;
  stop_at : list Z;
  s_left : Z;
}.

Definition set_st (v : list stop_state) (q : stopst) : stopst := Stop v (waitc q) (stop_at q) (s_left q).
Definition set_waitc (v : list Z) (q : stopst) : stopst := Stop (st q) v (stop_at q) (s_left q).
Definition set_stop_at (v : list Z) (q : stopst) : stopst := Stop (st q) (waitc q) v (s_left q).
Definition set_s_left (v : Z) (q : stopst) : stopst := Stop (st q) (waitc q) (stop_at q) v.

Section Ops.
Context `{Env}.

(** The result of the body of each element goes to the next. *)
Fixpoint mfold {A B} (f : B -> A -> M B) (b : B) (l : list A) : M B :=
  match l with
  | [] => mret b
  | x :: l' => b' ← f b x; mfold f b' l'
  end.

Fixpoint user_scan (names : list bytes) : M bool :=
  match names with
  | [] => mret false
  | name :: names' =>
      match proc_pid name with
      | None => user_scan names'
      | Some pid =>
          f ← call (fun n => os_open n (bs "/proc/" ++ dec pid ++ bs "/stat"));
          match f with
          | inr _ => user_scan names'
          | inl fd =>
              b ← call (fun n => os_fread n fd 511);
              match b with
              | RData buf => if is_user buf then mret true else user_scan names'
              | _ => user_scan names'
              end
          end
      end
  end.

Definition userspace_left : M bool :=
  d ← call (fun n => os_dir n (bs "/proc"));
  match d with
  | None => e ← call (fun n => os_act n (bs "kill") (bs "-1 0")); mret (is_ok e)
  | Some names => user_scan names
  end.

(** Collects what has exited and what it wrote. *)
Definition collect : M unit :=
  run_log log_batch_begin;;
  modify (set_drain_left DRAIN_BUDGET);;
  reap;;
  drain_output.

Fixpoint wait_loop (fuel : nat) (deadline : Z) : M unit :=
  match fuel with
  | O => nofuel
  | S fuel' =>
      collect;;
      left_ ← userspace_left;
      if negb left_ then mret tt else
      now ← now_ms;
      if deadline - now <=? 0 then mret tt else
      nap;;
      wait_loop fuel' deadline
  end.

Definition wait_children (grace : Z) : M unit :=
  now ← now_ms; wait_loop (S os_patience) (now + grace).

(** *** The prerequisites of each service *)

(** [n] allocations. *)
Fixpoint allocs (n : nat) : M bool :=
  match n with
  | O => mret true
  | S n' => a ← call os_alloc; b ← allocs n'; mret (a && b)
  end.

(** [off[i + 1] = off[i] + unmet] *)
Definition sum_unmet (off : list nat) (i : nat) : M (list nat) :=
  s ← svc_of i;
  o ← lift (off !! i);
  mret (off ++ [(o + Z.to_nat (unmet s))%nat]).

(** [idx[off[d] + fill[d]++] = i] *)
Definition put_prereq (off : list nat) (i : nat) (a : list nat * list nat) (d : nat) : M (list nat * list nat) :=
  o ← lift (off !! d);
  f ← lift (a.2 !! d);
  idx ← store a.1 (o + f)%nat i;
  fill ← store a.2 d (S f);
  mret (idx, fill).

Definition put_row (off : list nat) (a : list nat * list nat) (i : nat) : M (list nat * list nat) :=
  ds ← deps_of i; mfold (put_prereq off i) a ds.

(** The offsets are those of the zeroed array filled from the left. *)
Definition build_prereqs : M (option (list nat * list nat)) :=
  let m := length (g_ridx env_g) in
  ok ← allocs 3;
  if negb ok then mret None else
  off ← mfold sum_unmet [0%nat] (seq 0 n_svc);
  total ← lift (off !! n_svc);
  if negb (total =? m)%nat then mret None else
  a ← mfold (put_row off) (replicate (if (m =? 0)%nat then 1%nat else m) 0%nat, replicate n_svc 0%nat) (seq 0 n_svc);
  mret (Some (off, a.1)).

(** *** One turn *)

Definition set_st_at (q : stopst) (i : nat) (v : stop_state) : M stopst :=
  l ← store (st q) i v; mret (set_st l q).

(** SIGTERM to a service nothing runs on any more, SIGKILL when its time is up. *)
Definition stop_service (now : Z) (a : stopst * Z) (i : nat) : M (stopst * Z) :=
  let '(q, next) := a in
  s ← lift (st q !! i);
  c ← lift (waitc q !! i);
  if bool_decide (s = S_GONE) || negb (c =? 0) then mret a else
  gone ← (if decide (s = S_WAIT) then svc_gone i else mret false);
  if (gone : bool) then mret a else
  q ← (if decide (s = S_WAIT) then
         emit (EvStop i SIGTERM now);;
         signal_group i SIGTERM;;
         q ← set_st_at q i S_TERM;
         ms ← lift (ng_stop_ms env_g i);
         l ← store (stop_at q) i (now + ms);
         mret (set_stop_at l q)
       else mret q);
  s ← lift (st q !! i);
  at_ ← lift (stop_at q !! i);
  q ← (if bool_decide (s = S_TERM) && (at_ <=? now) then
         nm ← name_of i;
         ms ← lift (ng_stop_ms env_g i);
         log_warn (nm ++ bs ": still running " ++ dec ms ++ bs " ms after SIGTERM, killing it");;
         emit (EvStop i SIGKILL now);;
         signal_group i SIGKILL;;
         set_st_at q i S_KILL
       else mret q);
  s ← lift (st q !! i);
  mret (q, if bool_decide (s = S_TERM) && (at_ <? next) then at_ else next).

(** [if(waitc[idx[k]]) waitc[idx[k]]--] *)
Definition count_down (q : stopst) (j : nat) : M stopst :=
  c ← lift (waitc q !! j);
  if c =? 0 then mret q else l ← store (waitc q) j (u32 (c - 1)); mret (set_waitc l q).

(** The prerequisites of a service that is gone wait for one less. *)
Definition settle_service (off idx : list nat) (q : stopst) (i : nat) : M stopst :=
  s ← lift (st q !! i);
  c ← lift (waitc q !! i);
  if bool_decide (s = S_GONE) || negb (c =? 0) then mret q else
  gone ← svc_gone i;
  if negb gone then mret q else
  r ← run_of i;
  emit (EvGone i r);;
  q ← set_st_at q i S_GONE;
  a ← lift (off !! i);
  b ← lift (off !! S i);
  js ← (if decide (b <= length idx)%nat then mret (take (b - a) (drop a idx)) else fault);
  mfold count_down (set_s_left (u32 (s_left q - 1)) q) js.

Definition count_stuck (n : Z) (i : nat) : M Z := gone ← svc_gone i; mret (if (gone : bool) then n else n + 1).

Fixpoint stop_loop (fuel : nat) (off idx : list nat) (deadline : Z) (q : stopst) : M unit :=
  match fuel with
  | O => nofuel
  | S fuel' =>
      now ← now_ms;
      r ← mfold (stop_service now) (q, deadline) (seq 0 n_svc);
      collect;;
      q ← mfold (settle_service off idx) r.1 (seq 0 n_svc);
      if s_left q =? 0 then mret tt else
      now ← now_ms;
      if deadline <=? now then
        stuck ← mfold count_stuck 0 (seq 0 n_svc);
        log_warn (bs "shutdown: " ++ dec stuck ++ bs " service" ++ plural stuck ++ bs " did not stop in order")
      else
      nap;;
      stop_loop fuel' off idx deadline q
  end.

Definition count_live (a : list Z * Z) (i : nat) : M (list Z * Z) :=
  ds ← deps_of i;
  gone ← svc_gone i;
  mret (a.1 ++ [Z.of_nat (length ds)], if (gone : bool) then a.2 else a.2 + 1).

Definition NO_MEM : bytes := bs "shutdown: out of memory, stopping every service at once instead".

Definition stop_ordered : M unit :=
  if (n_svc =? 0)%nat then mret tt else
  p ← build_prereqs;
  match p with
  | None => log_warn NO_MEM
  | Some (off, idx) =>
      ok ← allocs 3;
      if negb ok then log_warn NO_MEM else
      a ← mfold count_live ([], 0) (seq 0 n_svc);
      if a.2 =? 0 then mret tt else
      log_note (bs "shutdown: stopping " ++ dec a.2 ++ bs " service" ++ plural a.2 ++ bs " in dependency order");;
      now ← now_ms;
      stop_loop (S os_patience) off idx (now + STOP_TOTAL_MS)
        (Stop (replicate n_svc S_WAIT) a.1 (replicate n_svc 0) (Z.of_nat n_svc))
  end.

(** ** The end *)

Definition NG_VT_ACTIVATE : Z := 22022.
Definition NG_KDGKBTYPE : Z := 19251.
Definition NG_KDSETMODE : Z := 19258.
Definition NG_KDGETMODE : Z := 19259.
Definition NG_KDGKBMODE : Z := 19268.
Definition NG_KDSKBMODE : Z := 19269.
Definition NG_KD_TEXT : Z := 0.
Definition NG_K_XLATE : Z := 1.
Definition NG_K_UNICODE : Z := 3.

Definition ioctl (fd request arg : Z) : M sysres := call (fun n => os_ioctl n fd request arg).

Definition console_text (con : Z) : M bool :=
  t ← ioctl con NG_KDGKBTYPE 0;
  match t with
  | inr _ => mret false
  | inl _ =>
      m ← ioctl con NG_KDGETMODE 0;
      when (match m with inl mode => negb (mode =? NG_KD_TEXT) | inr _ => false end)
        (log_warn (bs "console: in graphics mode, restoring text");; ioctl con NG_KDSETMODE NG_KD_TEXT;; mret tt);;
      m ← ioctl con NG_KDGKBMODE 0;
      when (match m with inl mode => negb (mode =? NG_K_XLATE) && negb (mode =? NG_K_UNICODE) | inr _ => false end)
        (log_warn (bs "console: keyboard in raw mode, restoring");; ioctl con NG_KDSKBMODE NG_K_UNICODE;; mret tt);;
      mret true
  end.

Definition console_front (text : bool) : M unit :=
  f ← call (fun n => os_open n (bs "/dev/tty0"));
  match f with
  | inr _ => mret tt
  | inl fd =>
      e ← ioctl fd NG_VT_ACTIVATE 1;
      match e with
      | inr err => log_warn (bs "console: cannot switch to tty1: " ++ os_strerror err)
      | inl _ => mret tt
      end;;
      if negb text then mret tt else
      f ← call (fun n => os_open n (bs "/dev/tty1"));
      match f with
      | inr _ => mret tt
      | inl fd => console_text fd;; mret tt
      end
  end.

(** [close(ctl_conn[c].fd)] for each, and the listening socket. *)
Definition close_control : M unit :=
  modify (set_conns []);;
  l ← gets ctl_lfd;
  when (0 <=? l)
    (modify (set_ctl_lfd (-1));;
     act (bs "unlink") (bs "/run/ninit/control");; mret tt).

Definition pause_forever : M unit := fun w => Halt w.

(** It does not return: the machine stops, or pid 1 waits for ever. *)
Definition shutdown_system (how : Z) (what : bytes) : M unit :=
  modify (set_shutting_down true);;
  console_front false;;
  stop_ordered;;
  log_note (what ++ bs ": sending SIGTERM to all processes");;
  kill (-1) SIGTERM;;
  wait_children TERM_GRACE_MS;;
  left_ ← userspace_left;
  when left_
    (log_warn (what ++ bs ": sending SIGKILL to all processes");;
     kill (-1) SIGKILL;;
     wait_children KILL_GRACE_MS);;
  console_front true;;
  log_note (what ++ bs ": saving the clock and disabling swap");;
  save_hwclock;;
  stop_swap;;
  close_control;;
  log_note (what ++ bs ": syncing and remounting read-only");;
  sync;;
  remount_ro;;
  sync;;
  log_note (what ++ bs ": now");;
  emit (EvHalt how);;
  e ← call (fun n => os_act n (bs "reboot") (dec how));
  when (negb (is_ok e)) (log_err (what ++ bs ": reboot(): " ++ err_text e));;
  pause_forever.

End Ops.
