(* ===== verification/Down.v ===== *)
(** * The steps of the shutdown return (src/stop.c, src/shutdown.c)

    Every step keeps the invariant of the supervisor, starts no service and
    ends: a file of /proc has an end, the pending signals run out, and the clock
    ends the loops that wait. *)

From stdpp Require Import gmap.
From S2P Require Import Prelude Ngraph PidMap Ring Log Console Repeat Logged World Sys Inv Live Cgroup Fail Emerg Output State Spawn Release Reap Steady Halt Stop.

(** What a step of the shutdown does: also children may have been collected. *)
Definition going (w w' : world) : Prop := kept (set_waits (waits w') w) w'.

#[export] Instance going_refl : Reflexive going.
Proof. intros w. unfold going. destruct w; simpl. reflexivity. Qed.

#[export] Instance going_trans : Transitive going.
Proof.
  intros w1 w2 w3 [A1 A2 A3 A4 (l & El & Fl)] [B1 B2 B3 B4 (k & Ek & Fk)]. simpl in *.
  constructor; simpl; [congruence|done|congruence|lia|].
  exists (k ++ l). rewrite Ek, El, app_assoc. split; [done|by apply Forall_app].
Qed.

Lemma kept_going w w' : kept w w' -> going w w'.
Proof. intros [A1 A2 A3 A4 A5]. by constructor. Qed.

Section Spec.
Context `{E : Env} `{!EnvOk E}.

(** A handler every run of which during the shutdown is such a step. *)
Definition downM {A} (m : M A) : Prop := forall w, Quiet w -> shutting_down w = true ->
  wp m (fun _ w' => Quiet w' /\ going w w') w.

Lemma downM_of {A} (m : M A) : quietM m -> keptM m -> downM m.
Proof.
  intros Hq Hk w HQ Hw. specialize (Hq w HQ). specialize (Hk w Hw). unfold wp in *.
  destruct (m w); try done. split; [done|by apply kept_going].
Qed.

Lemma downM_tame {A} (m : M A) : tameM m -> keptM m -> downM m.
Proof. intros Ht. by apply downM_of, tameM_quiet. Qed.

Lemma downM_bind {A B} (m : M A) (f : A -> M B) : downM m -> (forall a, downM (f a)) -> downM (m ≫= f).
Proof.
  intros Hm Hf w HQ Hw. apply wp_bind. eapply wp_mono; [by apply Hm|]. intros a w1 [HQ1 G1].
  eapply wp_mono; [apply Hf; [done|by rewrite (kp_shut _ _ G1)]|]. intros b w2 [HQ2 G2]. split; [done|by etrans].
Qed.

Lemma downM_ret {A} (a : A) : downM (mret a).
Proof. apply downM_tame; [apply tameM_ret|apply keptM_ret]. Qed.

Lemma downM_when (b : bool) m : downM m -> downM (when b m).
Proof. destruct b; intros Hm; [done|apply downM_ret]. Qed.

Lemma downM_step {A B} (m : M A) (f : A -> M B) w (Q : B -> world -> Prop) : downM m -> Quiet w -> shutting_down w = true ->
  (forall a w', Quiet w' -> shutting_down w' = true -> going w w' -> wp (f a) Q w') -> wp (m ≫= f) Q w.
Proof.
  intros Hm HQ Hw Hf. apply wp_bind. eapply wp_mono; [by apply Hm|]. intros a w1 [HQ1 G1].
  apply Hf; [done|by rewrite (kp_shut _ _ G1)|done].
Qed.

End Spec.

(** ** Short steps *)

Create HintDb down.

Ltac down_step :=
  match goal with
  | |- downM (_ ≫= _) => apply downM_bind; [|intros ?]
  | |- downM (when _ _) => apply downM_when
  | |- downM (if ?b then _ else _) => destruct b
  | |- downM (match ?x with _ => _ end) => destruct x
  | |- downM _ => solve [eauto with down nocore]
  | |- downM _ => solve [apply downM_tame; [tame_tac|kept_tac]]
  end.

Ltac down_tac := repeat (cbv beta zeta; down_step).

Section Steps.
Context `{E : Env} `{!EnvOk E}.

Lemma act_down what arg : downM (act what arg).
Proof. unfold act. down_tac. Qed.
Hint Resolve act_down : down.

Lemma sync_down : downM sync.
Proof. unfold sync. down_tac. Qed.
Hint Resolve sync_down : down.

Lemma skip_signals_down : downM (skip_signals os_patience).
Proof.
  assert (forall fuel w, Quiet w -> shutting_down w = true ->
    (exists k, (k < fuel)%nat /\ os_signal (calls w + k) = None) ->
    wp (skip_signals fuel) (fun _ w' => Quiet w' /\ going w w') w) as Hs.
  { induction fuel as [|fuel IH]; intros w HQ Hw (k & Hk & He); [lia|]. cbn [skip_signals].
    assert (downM (call os_signal)) as Hd by down_tac.
    specialize (Hd w HQ Hw). unfold call, wp in Hd. apply wp_bind, wp_call. destruct Hd as [HQ1 G1].
    destruct (os_signal (calls w)) as [sg|] eqn:Hsig; [|by apply wp_ret].
    destruct k as [|k]; [rewrite Nat.add_0_r in He; congruence|].
    eapply wp_mono; [apply IH; [done|done|]|].
    - exists k. split; [lia|]. simpl. by rewrite <- Nat.add_succ_r.
    - intros [] w2 [HQ2 G2]. split; [done|by etrans]. }
  intros w HQ Hw. apply Hs; [done..|]. apply ok_signal.
Qed.
Hint Resolve skip_signals_down : down.

(** A nap is at least one call. *)
Lemma nap_down : downM nap.
Proof. unfold nap. down_tac. Qed.

Lemma nap_later w (Q : unit -> world -> Prop) : Quiet w -> shutting_down w = true ->
  (forall w', Quiet w' -> going w w' -> (calls w < calls w')%nat -> Q tt w') -> wp nap Q w.
Proof.
  intros HQ Hw HQ'. unfold nap. assert (downM (call (fun _ : nat => tt))) as Hd by down_tac.
  specialize (Hd w HQ Hw). unfold call, wp in Hd. apply wp_bind, wp_call. destruct Hd as [HQ1 G1].
  assert (downM (s ← gets sfd; when (0 <=? s) (skip_signals os_patience))) as Hn by down_tac.
  eapply wp_mono; [by apply Hn|]. intros [] w2 [HQ2 G2]. apply HQ'; [done|by etrans|].
  pose proof (kp_calls _ _ G2). simpl in *. lia.
Qed.

(** A file of /proc ends. *)
Lemma read_proc_down path what : downM (read_proc path what).
Proof.
  assert (forall fuel fd cap buf t w, Quiet w -> shutting_down w = true ->
    (forall cap, rd_ends (os_fread t fd cap) /\ rd_ends (os_fread (S t) fd cap)) ->
    (calls w <= t)%nat -> (t - calls w < fuel)%nat ->
    wp (read_file fuel fd what cap buf) (fun _ w' => Quiet w' /\ going w w') w) as Hr.
  { induction fuel as [|fuel IH]; intros fd cap buf t w HQ Hw He Ht Hf; [lia|]. cbn [read_file]. cbv zeta.
    set (more := cap <? _). apply wp_bind.
    apply (wp_mono _ (fun _ w' => (Quiet w' /\ going w w') /\ (calls w <= calls w' <= S (calls w))%nat)).
    { assert (downM (if more then call os_alloc else mret true)) as Hd by down_tac.
      specialize (Hd w HQ Hw). unfold wp in *. destruct more; simpl in *; split; try done; lia. }
    intros [] w1 [[HQ1 G1] Hc]; cbn [negb].
    - assert (shutting_down w1 = true) as Hw1 by (by rewrite (kp_shut _ _ G1)).
      set (cap1 := if more then _ else cap). set (f := fun n => os_fread n fd _).
      assert (downM (call f)) as Hd by down_tac. specialize (Hd w1 HQ1 Hw1). unfold call, wp in Hd.
      apply wp_bind, wp_call. destruct Hd as [HQ2 G2].
      assert (forall buf, (calls w1 < t)%nat -> wp (read_file fuel fd what cap1 buf) (fun _ w' => Quiet w' /\ going w w')
        (set_calls (S (calls w1)) w1)) as Hmore.
      { intros buf' Hlt. eapply wp_mono; [apply (IH fd cap1 buf' t); [done|done|done|simpl; lia|simpl; lia]|].
        intros b w3 [HQ3 G3]. split; [done|]. etrans; [exact G1|]. etrans; [exact G2|done]. }
      assert (forall b, f (calls w1) = b -> rd_ends b \/ (calls w1 < t)%nat) as Hend.
      { intros b <-. destruct (Nat.lt_ge_cases (calls w1) t); [by right|left]. unfold f. 
        destruct (He (cap1 - Z.of_nat (length (default [] buf)) - 1)) as [H1 H2].
        assert (calls w1 = t \/ calls w1 = S t) as [-> | ->] by lia; done. }
      assert (going w (set_calls (S (calls w1)) w1)) as G by (by etrans).
      destruct (f (calls w1)) as [d| |e] eqn:Hd; destruct (Hend _ eq_refl) as [Hq|Hq]; try done;
        try (by apply Hmore); try (by apply wp_ret).
      + simpl in Hq. rewrite (proj2 (Z.eqb_neq e EINTR) Hq). by apply wp_ret.
      + destruct (e =? EINTR); [by apply Hmore|by apply wp_ret].
    - assert (downM (log_warn (bs "shutdown: out of memory reading " ++ what);; mret buf)) as Hd by down_tac.
      eapply wp_mono; [apply Hd; [done|by rewrite (kp_shut _ _ G1)]|]. intros b w2 [HQ2 G2]. split; [done|by etrans]. }
  unfold read_proc. apply downM_bind; [down_tac|]. intros [fd|e]; [|apply downM_ret].
  intros w HQ Hw. destruct (ok_file (calls w) fd) as (k & Hk & He).
  apply (Hr _ fd 0 None (calls w + k)%nat); [done|done|done|lia|lia].
Qed.
Hint Resolve read_proc_down : down.

(** ** Filesystems, swap, consoles *)

Lemma list_mounts_down lines mcap mps : downM (list_mounts lines mcap mps).
Proof. revert mcap mps. induction lines as [|l lines IH]; intros mcap mps; cbn [list_mounts]; down_tac. Qed.
Hint Resolve list_mounts_down : down.

Lemma sweep_down step mps : (forall mp, downM (step mp)) -> downM (sweep step mps).
Proof. intros Hs. induction mps as [|[mp|] mps IH]; cbn [sweep]; down_tac. Qed.

Lemma try_ro_down mp : downM (try_ro mp).
Proof. unfold try_ro. down_tac. Qed.
Lemma try_unmount_down mp : downM (try_unmount mp).
Proof. unfold try_unmount. down_tac. Qed.
Lemma try_again_down mp : downM (try_again mp).
Proof. unfold try_again. down_tac. Qed.

Lemma ro_passes_down n mps : downM (ro_passes n mps).
Proof.
  revert mps. induction n as [|n IH]; intros mps; cbn [ro_passes]; [down_tac|].
  apply downM_bind; [apply sweep_down, try_ro_down|]. intros r. down_tac.
Qed.
Hint Resolve ro_passes_down : down.

Lemma root_passes_down n : downM (root_passes n).
Proof. induction n as [|n IH]; cbn [root_passes]; down_tac. Qed.
Hint Resolve root_passes_down : down.

Lemma remount_ro_down : downM remount_ro.
Proof.
  unfold remount_ro. do 3 (apply downM_bind; [down_tac|intros ?]).
  apply downM_bind; [apply sweep_down, try_unmount_down|]. intros r. apply downM_bind; [|intros _; down_tac].
  apply downM_when, downM_bind; [down_tac|]. intros _. apply downM_bind; [apply sweep_down, try_again_down|]. intros _. down_tac.
Qed.

Lemma downM_miter {A} (l : list A) body : (forall x, downM (body x)) -> downM (miter l body).
Proof. intros Hb. induction l as [|x l IH]; simpl; [apply downM_ret|by apply downM_bind]. Qed.

Lemma stop_swap_down : downM stop_swap.
Proof.
  unfold stop_swap. apply downM_bind; [down_tac|]. intros [text|]; [|down_tac].
  apply downM_miter. intros line. unfold swap_off. down_tac.
Qed.

Lemma ioctl_down fd request arg : downM (ioctl fd request arg).
Proof. unfold ioctl. down_tac. Qed.
Hint Resolve ioctl_down : down.

Lemma console_text_down con : downM (console_text con).
Proof. unfold console_text. down_tac. Qed.
Hint Resolve console_text_down : down.

Lemma console_front_down text : downM (console_front text).
Proof. unfold console_front. down_tac. Qed.

Lemma close_control_down : downM close_control.
Proof. unfold close_control. down_tac. Qed.

Lemma user_scan_down names : downM (user_scan names).
Proof. induction names as [|name names IH]; cbn [user_scan]; down_tac. Qed.
Hint Resolve user_scan_down : down.

Lemma userspace_left_down : downM userspace_left.
Proof. unfold userspace_left. down_tac. Qed.
Hint Resolve userspace_left_down : down.

(** ** Loops the clock ends *)

(** [fuel] turns of at least a call each are enough: a minute after [c0] the
    deadline is over. *)
Definition time_left (c0 : nat) (deadline : Z) (fuel : nat) (w : world) : Prop :=
  deadline <= os_ms c0 + 60000 /\ (c0 + os_patience < calls w + fuel)%nat.

Lemma time_start w ms : ms <= 60000 -> time_left (calls w) (os_ms (calls w) + ms) (S os_patience) (set_calls (S (calls w)) w).
Proof. intros Hm. split; simpl; lia. Qed.

(** The clock has not reached the deadline, so there are turns left. *)
Lemma time_next c0 deadline fuel w w1 w2 : time_left c0 deadline fuel w -> (calls w <= calls w1)%nat ->
  os_ms (calls w1) < deadline -> (calls w1 < calls w2)%nat ->
  exists fuel', fuel = S fuel' /\ time_left c0 deadline fuel' w2.
Proof.
  intros [Hd Hc] H1 Hnow H2. destruct (Nat.lt_ge_cases (calls w1) (c0 + os_patience)) as [Hlt|Hge].
  - destruct fuel as [|fuel]; [lia|]. exists fuel. split; [done|]. split; [done|lia].
  - pose proof (ok_mono _ _ Hge). pose proof (ok_time c0). lia.
Qed.

Lemma now_down : downM now_ms.
Proof. apply downM_tame; [tame_tac|kept_tac]. Qed.
Hint Resolve now_down : down.

(** Reading the clock is a call. *)
Lemma wp_now w (Q : Z -> world -> Prop) : Quiet w -> shutting_down w = true ->
  (forall w', Quiet w' -> going w w' -> w' = set_calls (S (calls w)) w -> Q (os_ms (calls w)) w') -> wp now_ms Q w.
Proof.
  intros HQ Hw HQ'. pose proof (now_down w HQ Hw) as Hn. unfold now_ms, call, wp in *. destruct Hn as [HQ1 G1]. by apply HQ'.
Qed.

Lemma wait_pid_down pid ms : ms <= 60000 -> downM (wait_pid_ms pid ms).
Proof.
  intros Hms.
  assert (forall fuel c0 deadline w, Quiet w -> shutting_down w = true -> time_left c0 deadline fuel w -> (0 < fuel)%nat ->
    wp (wait_pid_loop fuel pid deadline) (fun _ w' => Quiet w' /\ going w w') w) as Hl.
  { induction fuel as [|fuel IH]; intros c0 deadline w HQ Hw Ht Hf; [lia|]. cbn [wait_pid_loop].
    eapply downM_step; [down_tac|done|done|]. intros r w1 HQ1 Hw1 G1.
    destruct (match r with WPid _ _ => _ | _ => _ end); [by apply wp_ret|].
    apply wp_bind, wp_now; [done..|]. intros w2 HQ2 G2 E2. assert (going w w2) as G02 by (by etrans).
    destruct (Z.leb_spec (deadline - os_ms (calls w1)) 0) as [|Hlt]; [by apply wp_ret|].
    apply wp_bind, nap_later; [done|by rewrite (kp_shut _ _ G02)|]. intros w3 HQ3 G3 Hc.
    destruct (time_next c0 deadline (S fuel) w w1 w3) as (f & [= <-] & Ht3); [done|apply (kp_calls _ _ G1)|lia|subst w2; simpl in Hc; lia|].
    assert (going w w3) as G03 by (by etrans).
    destruct fuel as [|fuel].
    - exfalso. destruct Ht3 as [Hd Hc3]. destruct Ht as [_ Ht]. pose proof (ok_time c0).
      assert (c0 + os_patience <= calls w1)%nat as Hge by (pose proof (kp_calls _ _ G1); simpl in *; lia).
      pose proof (ok_mono _ _ Hge). lia.
    - eapply wp_mono; [apply (IH c0 deadline w3); [done|by rewrite (kp_shut _ _ G03)|done|lia]|].
      intros b w4 [HQ4 G4]. split; [done|by etrans]. }
  unfold wait_pid_ms. intros w HQ Hw. apply wp_bind, wp_now; [done..|]. intros w1 HQ1 G1 E1.
  eapply wp_mono; [apply (Hl _ (calls w)); [done|by rewrite (kp_shut _ _ G1)| |lia]|].
  - rewrite E1. by apply time_start.
  - intros b w2 [HQ2 G2]. split; [done|by etrans].
Qed.

Lemma rtc_local_down : downM rtc_local.
Proof. unfold rtc_local. down_tac. Qed.
Hint Resolve rtc_local_down : down.

Lemma save_hwclock_down : downM save_hwclock.
Proof.
  assert (forall pid, downM (wait_pid_ms pid HWCLOCK_GRACE_MS)) by (intros; by apply wait_pid_down).
  assert (forall pid, downM (wait_pid_ms pid KILL_GRACE_MS)) by (intros; by apply wait_pid_down).
  assert (forall p sig, downM (kill p sig)) by (intros; apply downM_tame; [unfold kill; tame_tac|kept_tac]).
  unfold save_hwclock. down_tac.
Qed.

(** ** Collecting the children *)

Lemma reap_down : downM reap.
Proof.
  assert (forall fuel w, Quiet w -> shutting_down w = true ->
    (exists k, (k < fuel)%nat /\ (os_wait (waits w + k) = WNone \/ exists e, e <> EINTR /\ os_wait (waits w + k) = WErr e)) ->
    wp (reap_loop fuel) (fun _ w' => Quiet w' /\ going w w') w) as Hr.
  { induction fuel as [|fuel IH]; intros w HQ Hw (k & Hk & He); [lia|]. cbn [reap_loop].
    set (w1 := set_waits (S (waits w)) w).
    assert (Quiet w1) as HQ1.
    { eapply calm_quiet; [|exact HQ]. eapply (tame_calm _ _ (quiet_side _ HQ)). constructor; simpl; auto. reflexivity. }
    assert (going w w1) as G1 by (unfold going, w1; simpl; reflexivity).
    assert (forall w2, Quiet w2 -> going w w2 -> waits w2 = waits w1 -> (0 < k)%nat ->
      wp (reap_loop fuel) (fun _ w' => Quiet w' /\ going w w') w2) as Hmore.
    { intros w2 HQ2 G2 E2 Hk0. eapply wp_mono; [apply IH; [done|by rewrite (kp_shut _ _ G2)|]|].
      - exists (k - 1)%nat. split; [lia|]. rewrite E2. unfold w1. simpl. by replace (S (waits w + (k - 1)))%nat with (waits w + k)%nat by lia.
      - intros a w3 [HQ3 G3]. split; [done|by etrans]. }
    apply wp_bind. change (wp (match os_wait (waits w) with WNone => mret tt | WErr e => if e =? EINTR then reap_loop fuel else mret tt
      | WPid p status => reap_one p status;; reap_loop fuel end) (fun _ w' => Quiet w' /\ going w w') w1).
    destruct (os_wait (waits w)) as [p status| |e] eqn:Hc; [| |].
    - assert (0 < k)%nat as Hk0.
      { destruct k; [|lia]. rewrite Nat.add_0_r, Hc in He. destruct He as [|(? & _ & ?)]; done. }
      pose proof (reap_one_quiet p status (ok_child _ _ _ Hc) w1 HQ1) as Hq.
      pose proof (reap_one_kept p status w1 Hw) as Hkp. apply wp_bind. unfold wp in *.
      destruct (reap_one p status w1) as [[] w2| | |]; try done.
      apply Hmore; [done| |by rewrite (kp_waits _ _ Hkp)|done]. etrans; [exact G1|by apply kept_going].
    - by apply wp_ret.
    - destruct (Z.eqb_spec e EINTR) as [->|]; [|by apply wp_ret]. apply Hmore; [done..|].
      destruct k; [|lia]. rewrite Nat.add_0_r, Hc in He. destruct He as [|(e & Hne & [= <-])]; done. }
  intros w HQ Hw. apply Hr; [done..|]. apply ok_wait.
Qed.
Hint Resolve reap_down : down.

Lemma drain_output_quiet : quietM drain_output.
Proof.
  intros w HQ. unfold drain_output. apply wp_bind, wp_gets.
  assert (forall l w', Quiet w' -> w_lv w' = w_lv w -> Forall (fun k => (k < n_live (w_lv w))%nat) l ->
    wp (miter l (fun k => i ← live_at k; r ← run_of i; when (0 <=? out_fd r) (drain_out i DRAIN_POLL_CHUNKS true)))
      (fun _ w'' => Quiet w'') w') as Hl.
  { induction l as [|k l IH]; intros w' HQ' El HF; cbn [miter]; [by apply wp_ret|].
    apply Forall_cons in HF as [Hk HF]. pose proof (quiet_side _ HQ') as HS.
    apply wp_bind, wp_bind. eapply live_at_spec; [exact HS|by rewrite El|]. intros d Hd _ _.
    eapply (wp_tame _ None); [|exact HS|].
    - apply tameM_bind; [tame_tac|]. intros r. apply tameM_when. intros _. by apply drain_out_tame.
    - intros [] w2 T2. apply IH; [|by rewrite (tm_lv _ _ T2)|done]. eapply calm_quiet; [|exact HQ']. by apply tame_calm. }
  apply Hl; [done..|]. rewrite Forall_forall. intros k Hk. apply list_elem_of_In, in_rev, in_seq in Hk. lia.
Qed.

Lemma log_batch_down : downM (run_log log_batch_begin).
Proof.
  apply downM_tame; [|apply keptM_run_log, log_batch_lsteps]. apply tameM_run_log. apply log_batch_begin_spec.
Qed.

Lemma collect_down : downM collect.
Proof.
  unfold collect. apply downM_bind; [apply log_batch_down|intros _]. apply downM_bind; [down_tac|intros _].
  apply downM_bind; [down_tac|intros _]. apply downM_of; [apply drain_output_quiet|apply drain_output_kept].
Qed.
Hint Resolve collect_down : down.

Lemma wait_children_down grace : grace <= 60000 -> downM (wait_children grace).
Proof.
  intros Hms.
  assert (forall fuel c0 deadline w, Quiet w -> shutting_down w = true -> time_left c0 deadline fuel w -> (0 < fuel)%nat ->
    wp (wait_loop fuel deadline) (fun _ w' => Quiet w' /\ going w w') w) as Hl.
  { induction fuel as [|fuel IH]; intros c0 deadline w HQ Hw Ht Hf; [lia|]. cbn [wait_loop].
    eapply downM_step; [apply collect_down|done|done|]. intros [] w1 HQ1 Hw1 G1.
    eapply downM_step; [down_tac|done|done|]. intros left_ w2 HQ2 Hw2 G2. assert (going w w2) as G02 by (by etrans).
    destruct (negb left_); [by apply wp_ret|].
    apply wp_bind, wp_now; [done..|]. intros w3 HQ3 G3 E3. assert (going w w3) as G03 by (by etrans).
    destruct (Z.leb_spec (deadline - os_ms (calls w2)) 0) as [|Hlt]; [by apply wp_ret|].
    apply wp_bind, nap_later; [done|by rewrite (kp_shut _ _ G03)|]. intros w4 HQ4 G4 Hc.
    assert (going w w4) as G04 by (by etrans).
    destruct (time_next c0 deadline (S fuel) w w2 w4) as (f & [= <-] & Ht4); [done|apply (kp_calls _ _ G02)|lia|subst w3; simpl in Hc; lia|].
    destruct fuel as [|fuel].
    - exfalso. destruct Ht as [Hd Ht]. pose proof (ok_time c0).
      assert (c0 + os_patience <= calls w2)%nat as Hge by (pose proof (kp_calls _ _ G02); simpl in *; lia).
      pose proof (ok_mono _ _ Hge). lia.
    - eapply wp_mono; [apply (IH c0 deadline w4); [done|by rewrite (kp_shut _ _ G04)|done|lia]|].
      intros b w5 [HQ5 G5]. split; [done|by etrans]. }
  unfold wait_children. intros w HQ Hw. apply wp_bind, wp_now; [done..|]. intros w1 HQ1 G1 E1.
  eapply wp_mono; [apply (Hl _ (calls w)); [done|by rewrite (kp_shut _ _ G1)| |lia]|].
  - rewrite E1. by apply time_start.
  - intros b w2 [HQ2 G2]. split; [done|by etrans].
Qed.

End Steps.

#[export] Hint Resolve act_down sync_down skip_signals_down read_proc_down list_mounts_down ro_passes_down root_passes_down ioctl_down console_text_down user_scan_down userspace_left_down now_down rtc_local_down reap_down collect_down : down.
