(* ===== verification/Prereq.v ===== *)
(** * The prerequisites of each service, from the rows of dependents

    [build_prereqs] turns the rows of the graph around: the slice of [idx]
    between two offsets lists the services one waits for. *)

From stdpp Require Import gmap.
From S2P Require Import Prelude Ngraph PidMap Ring Log Console Repeat Logged World Sys Inv Live Cgroup Fail Emerg Output State Spawn Release Reap Steady Halt Stop Down.

(** The sum of the first [n] values. *)
Fixpoint psum (u : nat -> nat) (n : nat) : nat :=
  match n with 0%nat => 0%nat | S n' => (psum u n' + u n')%nat end.

Lemma psum_mono u i j : (i < j)%nat -> (psum u i + u i <= psum u j)%nat.
Proof. induction j as [|j IH]; intros Hij; [lia|]. simpl. destruct (decide (i = j)) as [->|]; [lia|]. pose proof (IH ltac:(lia)). lia. Qed.

Section Mfold.
Context {A B : Type}.

(** A fold keeps an invariant of what has been done. *)
Lemma wp_mfold (I : list A -> B -> world -> Prop) (f : B -> A -> M B) b l (Q : B -> world -> Prop) w :
  I [] b w ->
  (forall done_ x todo b w, l = done_ ++ x :: todo -> I done_ b w -> wp (f b x) (fun b' w' => I (done_ ++ [x]) b' w') w) ->
  (forall b w, I l b w -> Q b w) -> wp (mfold f b l) Q w.
Proof.
  intros H0 Hf HQ.
  assert (forall todo done_ b w, l = done_ ++ todo -> I done_ b w -> wp (mfold f b todo) (fun b' w' => I l b' w') w) as Hl.
  { induction todo as [|x todo IH]; intros done_ b1 w1 El HI; cbn [mfold].
    - apply wp_ret. by rewrite El, app_nil_r.
    - apply wp_bind. eapply wp_mono; [by eapply Hf|]. intros b2 w2 H2. apply (IH (done_ ++ [x])); [|done]. by rewrite <- app_assoc. }
  eapply wp_mono; [by apply (Hl l [])|]. done.
Qed.

(** A step that only reads. *)
Lemma wp_mfold_pure (I : list A -> B -> Prop) (f : B -> A -> M B) b l (Q : B -> world -> Prop) w :
  I [] b ->
  (forall done_ x todo b, l = done_ ++ x :: todo -> I done_ b -> wp (f b x) (fun b' w' => w' = w /\ I (done_ ++ [x]) b') w) ->
  (forall b, I l b -> Q b w) -> wp (mfold f b l) Q w.
Proof.
  intros H0 Hf HQ. apply (wp_mfold (fun d b w' => w' = w /\ I d b)).
  - done.
  - intros d x t b1 w1 El [-> HI]. by eapply Hf.
  - intros b1 w1 [-> HI]. by apply HQ.
Qed.
End Mfold.

Section Spec.
Context `{E : Env} `{!EnvOk E}.

Definition row (j : nat) : list nat := default [] (succs env_g j).

Lemma prow_succs j : (j < n_svc)%nat -> succs env_g j = Some (row j).
Proof. intros Hj. destruct (succs_lookup j Hj) as (ds & Hds & _). unfold row. by rewrite Hds. Qed.

Lemma prow_nodup j : NoDup (row j).
Proof.
  unfold row. destruct (succs env_g j) as [ds|] eqn:Hs; [|constructor]. simpl.
  destruct (succs_lookup j (succs_bound j ds Hs)) as (ds' & Hds & _ & HN). by simplify_eq.
Qed.

Lemma row_edge j d : d ∈ row j <-> edge env_g j d.
Proof.
  unfold row, edge. split.
  - destruct (succs env_g j) as [ds|] eqn:Hs; simpl; [eauto|intros Hx; inversion Hx].
  - intros (ds & Hs & Hd). by rewrite Hs.
Qed.

Lemma row_lt j d : d ∈ row j -> (d < n_svc)%nat.
Proof. intros He%row_edge. apply edge_bound in He. tauto. Qed.

(** The services before [k] that [d] waits for. *)
Definition preds (k d : nat) : list nat := filter (fun j => d ∈ row j) (seq 0 k).

Lemma preds_snoc k d : preds (S k) d = preds k d ++ (if decide (d ∈ row k) then [k] else []).
Proof.
  unfold preds. rewrite seq_S, filter_app. simpl. f_equal.
Qed.

Lemma preds_mono k k' d : (k <= k')%nat -> (length (preds k d) <= length (preds k' d))%nat.
Proof.
  induction 1 as [|k' _ IH]; [done|]. rewrite preds_snoc, length_app. lia.
Qed.

Lemma preds_mult k d : Z.of_nat (length (preds k d)) = sum_upto k (fun j => mult env_g j d).
Proof.
  induction k as [|k IH]; [done|]. rewrite preds_snoc, length_app, Nat2Z.inj_add, IH. simpl.
  assert (mult env_g k d = Z.of_nat (length (if decide (d ∈ row k) then [k] else []))) as ->; [|lia].
  unfold mult, row. pose proof (prow_nodup k) as HN. unfold row in HN. destruct (succs env_g k) as [ds|]; simpl in *.
  - unfold occ. clear IH. induction HN as [|x ds Hx HN IH]; simpl.
    + done.
    + destruct (Nat.eqb_spec x d) as [->|Hne].
      * rewrite decide_True by (by left). assert (cnt (fun x => (x =? d)%nat) ds = 0) as ->; [|done]. apply cnt_zero. intros y Hy. apply Nat.eqb_neq. by intros ->.
      * rewrite IH. destruct (decide (d ∈ ds)) as [Hd|Hd].
        -- rewrite decide_True by (by right). done.
        -- rewrite decide_False; [done|]. rewrite elem_of_cons. intros [->|]; done.
  - done.
Qed.

Lemma preds_in d j : (j < n_svc)%nat -> j ∈ preds n_svc d <-> edge env_g j d.
Proof.
  intros Hj. unfold preds. rewrite list_elem_of_filter, row_edge. split; [by intros []|]. intros He. split; [done|].
  apply list_elem_of_In, in_seq. lia.
Qed.

(** The number of prerequisites of [d], from the graph. *)
Definition n_pre (d : nat) : nat := match g_svc env_g !! d with Some s => Z.to_nat (unmet s) | None => 0%nat end.

Lemma n_pre_length d : (d < n_svc)%nat -> length (preds n_svc d) = n_pre d.
Proof.
  intros Hd. destruct (svc_lookup d Hd) as [s Hs], (pol_lookup d Hd) as [p Hp]. unfold n_pre. rewrite Hs.
  rewrite (sw_unmet _ _ _ _ (gw_each _ ok_graph d s p Hs Hp)). unfold indeg.
  assert (Z.of_nat (length (preds n_svc d)) = sum_upto n_svc (fun j => mult env_g j d)) as HP by apply preds_mult.
  unfold n_svc in *. lia.
Qed.

(** The rows of prerequisites [idx] between the offsets [off]. *)
Definition prereqs_ok (off idx : list nat) : Prop := forall i, (i < n_svc)%nat ->
  exists a b, off !! i = Some a /\ off !! S i = Some b /\ (b <= length idx)%nat /\ take (b - a) (drop a idx) = preds n_svc i.

(** What has been written when the rows before [i] and the services [ds] of its
    own are done. *)
Definition filled (i : nat) (ds : list nat) (m : nat) (a : list nat * list nat) : Prop :=
  length a.1 = m /\ ds ⊆ row i /\ forall d, (d < n_svc)%nat ->
    let pl := preds i d ++ (if decide (d ∈ ds) then [i] else []) in
    a.2 !! d = Some (length pl) /\ forall k x, pl !! k = Some x -> a.1 !! (psum n_pre d + k)%nat = Some x.

Lemma put_prereq_spec off i ds d m a w : (i < n_svc)%nat -> d ∈ row i -> d ∉ ds ->
  off !! d = Some (psum n_pre d) -> (psum n_pre n_svc <= m)%nat -> filled i ds m a ->
  wp (put_prereq off i a d) (fun a' w' => w' = w /\ filled i (ds ++ [d]) m a') w.
Proof.
  intros Hi Hd Hn Ho Hm (Hl & Hsub & HF). pose proof (row_lt i d Hd) as Hdn. destruct (HF d Hdn) as [Hf Hx].
  rewrite decide_False in Hf, Hx by done. rewrite app_nil_r in Hf, Hx.
  assert (length (preds i d) < n_pre d)%nat as Hu.
  { rewrite <- n_pre_length by done. pose proof (preds_mono (S i) n_svc d ltac:(lia)) as HM.
    rewrite preds_snoc, decide_True, length_app in HM by done. simpl in HM. lia. }
  pose proof (psum_mono n_pre d n_svc Hdn) as HS. unfold put_prereq.
  apply wp_bind, (wp_lift _ _ _ _ Ho), wp_bind, (wp_lift _ _ _ _ Hf), wp_bind, wp_store; [lia|].
  apply wp_bind, wp_store; [by apply lookup_lt_Some in Hf|]. apply wp_ret. split; [done|]. split; [simpl; by rewrite length_insert|].
  split; [set_solver|]. intros e He. simpl. destruct (HF e He) as [Hfe Hxe]. destruct (decide (e = d)) as [->|Hne].
  - rewrite decide_True by set_solver. rewrite list_lookup_insert_eq by (by apply lookup_lt_Some in Hf).
    rewrite length_app. split; [f_equal; simpl; lia|]. intros k x [Hk|[Hk Hk2]]%lookup_app_Some.
    + rewrite list_lookup_insert_ne; [by apply Hx|]. apply lookup_lt_Some in Hk. lia.
    + destruct (k - length (preds i d))%nat eqn:Hz; [|done]. simplify_eq/=.
      assert (k = length (preds x d)) as -> by lia. apply list_lookup_insert_eq. lia.
  - rewrite list_lookup_insert_ne by done.
    assert ((if decide (e ∈ ds ++ [d]) then [i] else []) = (if decide (e ∈ ds) then [i] else [])) as ->.
    { destruct (decide (e ∈ ds)); [by rewrite decide_True by set_solver|by rewrite decide_False by set_solver]. }
    split; [done|]. intros k x Hk. rewrite list_lookup_insert_ne; [by apply Hxe|]. apply lookup_lt_Some in Hk.
    assert (length (preds i e ++ (if decide (e ∈ ds) then [i] else [])) <= n_pre e)%nat as Hle.
    { rewrite <- n_pre_length by done. pose proof (preds_mono (S i) n_svc e ltac:(lia)) as HM.
      rewrite preds_snoc, length_app in HM. rewrite length_app. destruct (decide (e ∈ ds)) as [He2|]; simpl; [|lia].
      rewrite decide_True in HM by set_solver. simpl in HM. lia. }
    destruct (Nat.lt_total e d) as [Hlt|[->|Hlt]]; [|done|].
    + pose proof (psum_mono n_pre e d Hlt). lia.
    + pose proof (psum_mono n_pre d e Hlt). lia.
Qed.

Lemma filled_next i m a : filled i (row i) m a -> filled (S i) [] m a.
Proof.
  intros (Hl & _ & HF). split; [done|]. split; [set_solver|]. intros d Hd. specialize (HF d Hd). simpl in HF |- *.
  rewrite preds_snoc. by rewrite app_nil_r.
Qed.

Lemma put_row_spec off i m a w : (i < n_svc)%nat -> (forall d, (d <= n_svc)%nat -> off !! d = Some (psum n_pre d)) ->
  (psum n_pre n_svc <= m)%nat -> filled i [] m a ->
  wp (put_row off a i) (fun a' w' => w' = w /\ filled (S i) [] m a') w.
Proof.
  intros Hi Ho Hm HF. unfold put_row, deps_of. apply wp_bind, (wp_lift _ _ _ _ (prow_succs i Hi)).
  apply (wp_mfold_pure (fun ds a => filled i ds m a)); [done| |].
  - intros ds d todo b El HFb. assert (d ∈ row i) as Hd by (rewrite El; set_solver).
    apply put_prereq_spec; [done|done| | |done|done].
    + pose proof (prow_nodup i) as HN. rewrite El in HN. apply NoDup_app in HN. set_solver.
    + apply Ho. pose proof (row_lt i d Hd). lia.
  - intros b HFb. split; [done|]. by apply filled_next.
Qed.

Lemma sum_unmet_spec off i w : (i < n_svc)%nat -> length off = S i -> (forall j, (j <= i)%nat -> off !! j = Some (psum n_pre j)) ->
  wp (sum_unmet off i) (fun off' w' => w' = w /\ length off' = S (S i) /\ forall j, (j <= S i)%nat -> off' !! j = Some (psum n_pre j)) w.
Proof.
  intros Hi Hl Ho. destruct (svc_lookup i Hi) as [s Hs]. unfold sum_unmet, svc_of.
  apply wp_bind, (wp_lift _ _ _ _ Hs), wp_bind, (wp_lift _ _ _ _ (Ho i ltac:(lia))), wp_ret.
  split; [done|]. rewrite length_app, Hl. split; [simpl; lia|]. intros j Hj.
  destruct (decide (j = S i)) as [->|]; [|rewrite lookup_app_l by lia; apply Ho; lia].
  rewrite lookup_app_r, Hl, Nat.sub_diag by lia. simpl. assert (n_pre i = Z.to_nat (unmet s)) as -> by (unfold n_pre; by rewrite Hs). done.
Qed.

Lemma seq_split n done_ x todo : seq 0 n = done_ ++ x :: todo -> x = length done_ /\ (x < n)%nat /\ done_ = seq 0 x.
Proof.
  intros El. assert (seq 0 n !! length done_ = Some x) as Hx by (rewrite El; by apply list_lookup_middle).
  apply lookup_seq in Hx as [Hx Hlt]. simpl in Hx. split_ands; [lia|lia|]. subst x.
  apply (f_equal (take (length done_))) in El. rewrite take_app_length in El. rewrite take_seq in El. rewrite <- El at 1. f_equal. lia.
Qed.

Lemma allocs_step {B} (f : bool -> M B) n w (Q : B -> world -> Prop) : Quiet w -> shutting_down w = true ->
  (forall ok w', Quiet w' -> shutting_down w' = true -> going w w' -> runs w' = runs w -> wp (f ok) Q w') -> wp (allocs n ≫= f) Q w.
Proof.
  intros HQ Hs Hf. assert (downM (allocs n)) as Hd by (induction n; cbn [allocs]; down_tac).
  assert (forall w, wp (allocs n) (fun _ w' => runs w' = runs w) w) as Hr.
  { clear. induction n as [|n IH]; intros w; cbn [allocs]; [by apply wp_ret|]. apply wp_bind, wp_call, wp_bind.
    eapply wp_mono; [apply IH|]. intros b w1 E1. by apply wp_ret. }
  apply wp_bind. specialize (Hd w HQ Hs). specialize (Hr w). unfold wp in *. destruct (allocs n w) as [ok w1| | |]; try done.
  destruct Hd as [HQ1 G1]. apply Hf; [done|by rewrite (kp_shut _ _ G1)|done|done].
Qed.

(** Building them neither fails nor touches anything: the rows are those of the
    graph, or there is no memory for them. *)
Lemma build_prereqs_spec w : Quiet w -> shutting_down w = true ->
  wp build_prereqs (fun p w' => (Quiet w' /\ going w w' /\ runs w' = runs w) /\ forall off idx, p = Some (off, idx) -> prereqs_ok off idx) w.
Proof.
  intros HQ Hw. unfold build_prereqs. cbv zeta. set (m := length (g_ridx env_g)).
  apply allocs_step; [done..|]. intros ok w1 HQ1 Hw1 G1 Er1. destruct ok; cbn [negb]; [|by apply wp_ret].
  apply wp_bind. apply (wp_mfold_pure (fun ds off => length off = S (length ds) /\ forall j, (j <= length ds)%nat -> off !! j = Some (psum n_pre j))).
  { split; [done|]. intros j Hj. by assert (j = 0%nat) as -> by (simpl in Hj; lia). }
  { intros ds i todo off El [Hl Ho]. destruct (seq_split _ _ _ _ El) as (-> & Hi & _).
    eapply wp_mono; [by apply sum_unmet_spec|]. intros off' w' (-> & Hl' & Ho'). rewrite length_app, Nat.add_1_r. done. }
  intros off [Hl Ho]. rewrite length_seq in Hl, Ho.
  apply wp_bind, (wp_lift _ _ _ _ (Ho n_svc ltac:(lia))). destruct (Nat.eqb_spec (psum n_pre n_svc) m) as [Hm|]; cbn [negb]; [|by apply wp_ret].
  set (M := if (m =? 0)%nat then 1%nat else m). assert (psum n_pre n_svc <= M)%nat as HM by (unfold M; destruct (Nat.eqb_spec m 0); lia).
  apply wp_bind. apply (wp_mfold_pure (fun ds a => filled (length ds) [] M a)).
  - split; [simpl; by rewrite length_replicate|]. split; [set_solver|]. intros d Hd. simpl. split; [apply lookup_replicate_2; lia|].
    intros k x Hk. by destruct k.
  - intros ds i todo b El HF. destruct (seq_split _ _ _ _ El) as (-> & Hi & _).
    rewrite length_app, Nat.add_1_r. by apply put_row_spec.
  - intros a HF. apply wp_ret. split; [done|]. intros off' idx [= <- <-] i Hi. rewrite length_seq in HF. destruct HF as (Hla & _ & HF).
    exists (psum n_pre i), (psum n_pre (S i)). split_ands; [apply Ho; lia|apply Ho; lia| |].
    + rewrite Hla. enough (psum n_pre (S i) <= psum n_pre n_svc)%nat by lia. destruct (decide (S i = n_svc)) as [->|]; [done|].
      pose proof (psum_mono n_pre (S i) n_svc ltac:(lia)). lia.
    + destruct (HF i Hi) as [_ Hx]. rewrite decide_False in Hx by set_solver. rewrite app_nil_r in Hx.
      pose proof (psum_mono n_pre i n_svc Hi). simpl. rewrite Nat.add_comm, Nat.add_sub.
      apply list_eq. intros k. rewrite lookup_take. case_decide as Hk.
      * rewrite lookup_drop. destruct (preds n_svc i !! k) as [x|] eqn:Hp; [by apply Hx|].
        apply lookup_ge_None in Hp. rewrite n_pre_length in Hp by done. lia.
      * symmetry. apply lookup_ge_None. rewrite n_pre_length by done. lia.
Qed.
End Spec.

(** * The order services are stopped in

    What the recorded steps of a shutdown have to look like, and that each step
    of the arrays of [stop_ordered] (src/stop.c) keeps them so. *)

(** ** The specification *)

Definition stop_of (i : nat) (e : event) : option (Z * Z) :=
  match e with EvStop j sig at_ => if decide (i = j) then Some (sig, at_) else None | _ => None end.

(** The signals that have been sent to the service, the newest first, and when. *)
Definition stops (i : nat) (l : list event) : list (Z * Z) := omap (stop_of i) l.

Definition gone_of (i : nat) (e : event) : bool :=
  match e with EvGone j _ => bool_decide (i = j) | _ => false end.

(** The service has been seen gone. *)
Definition is_gone (i : nat) (l : list event) : bool := existsb (gone_of i) l.

(** What may follow the steps [l]: a service gets SIGTERM once, when all that
    depend on it are gone, and SIGKILL once, when its time since then is up; it
    is gone when its process and the one before it have been collected; nothing
    is started. *)
Definition allowed (g : graph) (e : event) (l : list event) : Prop :=
  match e with
  | EvStop i sig at_ =>
      is_gone i l = false /\
      ((sig = SIGTERM /\ stops i l = [] /\ forall d, edge g i d -> is_gone d l = true) \/
       (sig = SIGKILL /\ exists at0 ms, stops i l = [(SIGTERM, at0)] /\ ng_stop_ms g i = Some ms /\ at0 + ms <= at_))
  | EvGone i r => is_gone i l = false /\ pid r <= 0 /\ stale_pid r = 0 /\ forall d, edge g i d -> is_gone d l = true
  | EvFork _ _ _ _ => False
  | _ => True
  end.

Fixpoint in_order (g : graph) (l : list event) : Prop :=
  match l with [] => True | e :: l' => allowed g e l' /\ in_order g l' end.

Lemma stops_quiet i k l : Forall quiet_event k -> stops i (k ++ l) = stops i l.
Proof.
  unfold stops. rewrite omap_app. induction 1 as [|e k He _ IH]; [done|]. by destruct e.
Qed.

Lemma is_gone_quiet i k l : Forall quiet_event k -> is_gone i (k ++ l) = is_gone i l.
Proof. unfold is_gone. rewrite existsb_app. induction 1 as [|e k He _ IH]; [done|]. by destruct e. Qed.

Lemma ordered_quiet g k l : Forall quiet_event k -> in_order g l -> in_order g (k ++ l).
Proof. induction 1 as [|e k He _ IH]; [done|]. intros Hl. split; [by destruct e|by apply IH]. Qed.

(** Nor do steps from before. *)
Lemma stops_before i k l : Forall quiet_event k -> stops i (l ++ k) = stops i l.
Proof.
  intros Hk. assert (stops i k = []) as Hn by (rewrite <- (app_nil_r k); by rewrite stops_quiet).
  unfold stops in *. by rewrite omap_app, Hn, app_nil_r.
Qed.

Lemma is_gone_before i k l : Forall quiet_event k -> is_gone i (l ++ k) = is_gone i l.
Proof.
  intros Hk. assert (is_gone i k = false) as Hn by (rewrite <- (app_nil_r k); by rewrite is_gone_quiet).
  unfold is_gone in *. by rewrite existsb_app, Hn, orb_false_r.
Qed.

Lemma ordered_before g k l : Forall quiet_event k -> in_order g l -> in_order g (l ++ k).
Proof.
  intros Hk. induction l as [|e l IH]; [intros _; rewrite <- (app_nil_r ([] ++ k)); by apply ordered_quiet|].
  intros [Ha Ho]. split; [|by apply IH]. destruct e; try done; simpl in *; rewrite is_gone_before by done.
  - rewrite stops_before by done. destruct Ha as [Hg [(-> & Hs & Hd)|Hk2]]; split; [done| |done|by right].
    left. split_ands; [done..|]. intros d He. rewrite is_gone_before by done. by apply Hd.
  - destruct Ha as (Hg & Hp & Hsp & Hd). split_ands; [done..|]. intros d He. rewrite is_gone_before by done. by apply Hd.
Qed.

(** ** The arrays and the steps *)

Section Turn.
Context `{E : Env} `{!EnvOk E}.

Definition not_gone (l : list stop_state) (i : nat) : bool := negb (bool_decide (l !! i = Some S_GONE)).

(** The dependents of [i] that are not gone. *)
Definition owed (l : list stop_state) (i : nat) : Z := cnt (not_gone l) (row i).

(** What the recorded steps say of a service in each of its states. *)
Definition stage (l : list event) (q : stopst) (i : nat) (s : stop_state) : Prop :=
  is_gone i l = bool_decide (s = S_GONE) /\
  match s with
  | S_WAIT => stops i l = []
  | S_TERM => exists at0 ms, stops i l = [(SIGTERM, at0)] /\ ng_stop_ms env_g i = Some ms /\ stop_at q !! i = Some (at0 + ms)
  | _ => True
  end.

Record staged (l : list event) (q : stopst) : Prop := Turn {
  tu_st : length (st q) = n_svc;
  tu_at : length (stop_at q) = n_svc;
  tu_stage : forall i s, st q !! i = Some s -> stage l q i s;
  tu_waitc : forall i, (i < n_svc)%nat -> waitc q !! i = Some (owed (st q) i);
  tu_left : s_left q = cnt (fun s => negb (bool_decide (s = S_GONE))) (st q);
  tu_ordered : in_order env_g l;
}.

Lemma turn_quiet k l q : Forall quiet_event k -> staged l q -> staged (k ++ l) q.
Proof.
  intros Hk [H1 H2 H3 H4 H5 H6]. constructor; [done..| |done|done|by apply ordered_quiet].
  intros i s Hs. specialize (H3 i s Hs). unfold stage in *. by rewrite is_gone_quiet, stops_quiet by done.
Qed.

(** A service nothing waits for has only gone dependents. *)
Lemma owed_zero l q i d : staged l q -> owed (st q) i = 0 -> edge env_g i d -> is_gone d l = true.
Proof.
  intros HT Ho He. apply row_edge in He. pose proof (proj1 (cnt_zero _ _) Ho d He) as Hz.
  unfold not_gone in Hz. apply negb_false_iff, bool_decide_eq_true in Hz.
  destruct (tu_stage _ _ HT d _ Hz) as [-> _]. done.
Qed.

(** Another state than gone does not change what is owed. *)
Lemma owed_insert l i s s' : l !! i = Some s -> s <> S_GONE -> s' <> S_GONE -> forall j, owed (<[i := s']> l) j = owed l j.
Proof.
  intros Hs Hn Hn' j. apply cnt_ext. intros d _. unfold not_gone. f_equal. apply bool_decide_ext.
  destruct (decide (d = i)) as [->|Hne].
  - rewrite list_lookup_insert_eq by (by apply lookup_lt_Some in Hs). rewrite Hs. split; congruence.
  - by rewrite list_lookup_insert_ne by done.
Qed.

Lemma owed_gone l i s : l !! i = Some s -> s <> S_GONE ->
  forall j, owed (<[i := S_GONE]> l) j = owed l j - (if decide (i ∈ row j) then 1 else 0).
Proof.
  intros Hs Hn j. unfold owed. pose proof (prow_nodup j) as HN. induction HN as [|x r Hx HN IH]; [done|]. simpl. rewrite IH.
  assert (forall d, not_gone (<[i := S_GONE]> l) d = not_gone l d && negb (bool_decide (d = i))) as Hg.
  { intros d. unfold not_gone. destruct (decide (d = i)) as [->|Hne].
    - rewrite list_lookup_insert_eq by (by apply lookup_lt_Some in Hs). rewrite (bool_decide_eq_true_2 (i = i)) by done.
      rewrite bool_decide_eq_true_2 by done. by rewrite andb_false_r.
    - rewrite list_lookup_insert_ne by done. rewrite (bool_decide_eq_false_2 (d = i)) by done. by rewrite andb_true_r. }
  rewrite Hg. destruct (decide (x = i)) as [->|Hne].
  - rewrite (bool_decide_eq_true_2 (i = i)) by done. rewrite andb_false_r. rewrite (decide_False _ _ (P := i ∈ r)) by done.
    rewrite decide_True by (by left). unfold not_gone. rewrite Hs, bool_decide_eq_false_2 by congruence. simpl. lia.
  - rewrite (bool_decide_eq_false_2 (x = i)) by done. rewrite andb_true_r.
    destruct (decide (i ∈ r)); [rewrite decide_True by (by right)|rewrite decide_False by set_solver]; lia.
Qed.

Lemma stops_other i j sig at_ l : j <> i -> stops j (EvStop i sig at_ :: l) = stops j l.
Proof. intros Hn. unfold stops. simpl. by rewrite decide_False. Qed.

Lemma stops_same i sig at_ l : stops i (EvStop i sig at_ :: l) = (sig, at_) :: stops i l.
Proof. unfold stops. simpl. by rewrite decide_True. Qed.

(** A service gets SIGTERM. *)
Lemma turn_term l q i now ms : staged l q -> st q !! i = Some S_WAIT -> waitc q !! i = Some 0 -> ng_stop_ms env_g i = Some ms ->
  staged (EvStop i SIGTERM now :: l) (set_stop_at (<[i := now + ms]> (stop_at q)) (set_st (<[i := S_TERM]> (st q)) q)).
Proof.
  intros HT Hs Hc Hms. pose proof HT as [H1 H2 H3 H4 H5 H6]. destruct (H3 _ _ Hs) as [Hg Hst]. pose proof (lookup_lt_Some _ _ _ Hs) as Hi.
  constructor; simpl.
  - by rewrite length_insert.
  - by rewrite length_insert.
  - intros j s Hj. destruct (decide (j = i)) as [->|Hne].
    + rewrite list_lookup_insert_eq in Hj by done. simplify_eq. split; [done|]. exists now, ms. rewrite stops_same, Hst.
      split_ands; [done..|]. simpl. rewrite list_lookup_insert_eq; [done|lia].
    + rewrite list_lookup_insert_ne in Hj by done. destruct (H3 _ _ Hj) as [Hgj Hstj]. split; [done|].
      destruct s; try done; rewrite stops_other by done; [done|]. simpl. by rewrite list_lookup_insert_ne.
  - intros j Hj. rewrite H4 by done. f_equal. symmetry. by eapply owed_insert.
  - rewrite (cnt_insert _ _ _ _ _ Hs), H5. simpl. lia.
  - split; [|done]. split; [done|]. left. split; [done|]. split; [done|]. intros d He. eapply owed_zero; [done| |done].
    rewrite H4 in Hc by lia. by simplify_eq.
Qed.

(** A service that had its time gets SIGKILL. *)
Lemma turn_kill l q i now at_ : staged l q -> st q !! i = Some S_TERM -> stop_at q !! i = Some at_ -> at_ <= now ->
  staged (EvStop i SIGKILL now :: l) (set_st (<[i := S_KILL]> (st q)) q).
Proof.
  intros HT Hs Ha Hn. pose proof HT as [H1 H2 H3 H4 H5 H6]. destruct (H3 _ _ Hs) as [Hg (at0 & ms & Hst & Hms & Hat)].
  pose proof (lookup_lt_Some _ _ _ Hs) as Hi. constructor; simpl.
  - by rewrite length_insert.
  - done.
  - intros j s Hj. destruct (decide (j = i)) as [->|Hne].
    + rewrite list_lookup_insert_eq in Hj by done. by simplify_eq.
    + rewrite list_lookup_insert_ne in Hj by done. destruct (H3 _ _ Hj) as [Hgj Hstj]. split; [done|].
      destruct s; try done; by rewrite stops_other by done.
  - intros j Hj. rewrite H4 by done. f_equal. symmetry. by eapply owed_insert.
  - rewrite (cnt_insert _ _ _ _ _ Hs), H5. simpl. lia.
  - split; [|done]. split; [done|]. right. split; [done|]. exists at0, ms. split_ands; [done..|]. simplify_eq. done.
Qed.

(** A service is gone, once what is owed has been counted again. *)
Lemma turn_gone l q i s r wc : staged l q -> st q !! i = Some s -> s <> S_GONE -> waitc q !! i = Some 0 ->
  pid r <= 0 -> stale_pid r = 0 ->
  (forall j, (j < n_svc)%nat -> wc !! j = Some (owed (st q) j - (if decide (i ∈ row j) then 1 else 0))) ->
  staged (EvGone i r :: l) (Stop (<[i := S_GONE]> (st q)) wc (stop_at q) (u32 (s_left q - 1))).
Proof.
  intros HT Hs Hn Hc Hp Hsp Hwc. pose proof HT as [H1 H2 H3 H4 H5 H6]. destruct (H3 _ _ Hs) as [Hg _].
  pose proof (lookup_lt_Some _ _ _ Hs) as Hi. rewrite bool_decide_eq_false_2 in Hg by done. constructor; simpl.
  - by rewrite length_insert.
  - done.
  - intros j s' Hj. unfold stage, is_gone. simpl. destruct (decide (j = i)) as [->|Hne].
    + rewrite list_lookup_insert_eq in Hj by done. simplify_eq. by rewrite bool_decide_eq_true_2 by done.
    + rewrite list_lookup_insert_ne in Hj by done. rewrite (bool_decide_eq_false_2 (j = i)) by done. simpl.
      destruct (H3 _ _ Hj) as [Hgj Hstj]. by split.
  - intros j Hj. rewrite Hwc by done. f_equal. by rewrite (owed_gone _ _ _ Hs Hn).
  - rewrite (cnt_insert _ _ _ _ _ Hs), H5. rewrite (bool_decide_eq_false_2 (s = S_GONE)) by done. simpl.
    pose proof (cnt_pos (fun s => negb (bool_decide (s = S_GONE))) _ _ _ Hs ltac:(by destruct s)) as Hpos.
    pose proof (cnt_range (fun s => negb (bool_decide (s = S_GONE))) (st q)). pose proof n_svc_bound.
    rewrite u32_small; lia.
  - split; [|done]. split; [done|]. split; [done|]. split; [done|]. intros d He. eapply owed_zero; [done| |done]. rewrite H4 in Hc by lia. by simplify_eq.
Qed.

(** At the start nothing has been signalled. *)
Lemma turn_start wc : (forall i, (i < n_svc)%nat -> wc !! i = Some (Z.of_nat (length (row i)))) ->
  staged [] (Stop (replicate n_svc S_WAIT) wc (replicate n_svc 0) (Z.of_nat n_svc)).
Proof.
  intros Hwc. constructor; simpl.
  - apply length_replicate.
  - apply length_replicate.
  - intros i s [-> Hi]%lookup_replicate. by split.
  - intros i Hi. rewrite Hwc by done. f_equal. unfold owed.
    assert (forall r, Forall (fun d => d < n_svc)%nat r -> cnt (not_gone (replicate n_svc S_WAIT)) r = Z.of_nat (length r)) as Hr.
    { intros r. induction 1 as [|d r Hd _ IH]; [done|]. simpl. rewrite IH. unfold not_gone.
      rewrite lookup_replicate_2, bool_decide_eq_false_2 by (done || lia). simpl. lia. }
    rewrite Hr; [done|]. apply Forall_forall. intros d Hd. by eapply row_lt.
  - by rewrite cnt_replicate.
  - done.
Qed.
End Turn.
