(* ===== verification/Order.v ===== *)
(** * The ordered stop (src/stop.c)

    [stop_ordered] ends, and what it did is in order. *)

From stdpp Require Import gmap.
From S2P Require Import Prelude Ngraph PidMap Ring Log Console Repeat Logged World Sys Inv Live Cgroup Fail Emerg Output State Spawn Release Reap Steady Halt Stop Down Prereq.

Section Order.
Context `{E : Env} `{!EnvOk E}.

(** The shutdown that began with the steps [T0] recorded, at the call [c], with
    the arrays [q]. *)
Record during (T0 : list event) (c : nat) (q : stopst) (w : world) : Prop := During {
  du_quiet : Quiet w;
  du_shut : shutting_down w = true;
  du_calls : (c <= calls w)%nat;
  du_turn : exists l, trace w = l ++ T0 /\ staged l q;
}.

Lemma during_going T0 c q w w' : during T0 c q w -> Quiet w' -> going w w' -> during T0 c q w'.
Proof.
  intros [HQ Hs Hc (l & El & HT)] HQ' G. pose proof (kp_calls _ _ G) as Hcalls. simpl in Hcalls.
  constructor; [done|by rewrite (kp_shut _ _ G)|lia|]. destruct (kp_trace _ _ G) as (k & Ek & Fk). simpl in Ek.
  exists (k ++ l). rewrite Ek, El, app_assoc. split; [done|by apply turn_quiet].
Qed.

Lemma during_step {A B} (m : M A) (f : A -> M B) T0 c q w (Q : B -> world -> Prop) : downM m -> during T0 c q w ->
  (forall a w', during T0 c q w' -> going w w' -> wp (f a) Q w') -> wp (m ≫= f) Q w.
Proof.
  intros Hm HD Hf. eapply downM_step; [done|apply HD|apply HD|]. intros a w' HQ' _ G. apply Hf; [|done]. by eapply during_going.
Qed.

(** A step that is recorded. *)
Lemma during_emit e q' T0 c q w (Q : unit -> world -> Prop) : during T0 c q w -> event_ok e ->
  (forall l, staged l q -> staged (e :: l) q') ->
  (forall w', during T0 c q' w' -> runs w' = runs w -> calls w' = calls w -> Q tt w') -> wp (emit e) Q w.
Proof.
  intros [HQ Hs Hc (l & El & HT)] He Ht HQ'. unfold emit. apply wp_modify. apply HQ'; [|done..].
  assert (quietM (emit e)) as Hq by (apply tameM_quiet, tameM_emit; done).
  constructor; [by apply (Hq w)|done|done|]. exists (e :: l). simpl. rewrite El. split; [done|by apply Ht].
Qed.

Lemma signal_group_down i sig : (i < n_svc)%nat -> downM (signal_group i sig).
Proof. intros Hi. apply downM_tame; [by apply signal_group_tame|apply signal_group_kept]. Qed.

Lemma svc_gone_down i : (i < n_svc)%nat -> downM (svc_gone i).
Proof. intros Hi. apply downM_tame; [by apply svc_gone_tame|apply svc_gone_kept]. Qed.

Lemma name_of_down i : (i < n_svc)%nat -> downM (name_of i).
Proof. intros Hi. apply downM_tame; [by apply tameM_name|kept_tac]. Qed.

Lemma log_down level text : 0 <= level -> downM (ninit_log level text).
Proof. intros Hl. apply downM_tame; [by apply tameM_log|kept_tac]. Qed.

(** A service that is gone has no process left, nor one that is given up. *)
Definition left_behind (i : nat) (w : world) : Prop :=
  exists r, runs w !! i = Some r /\ pid r <= 0 /\ stale_pid r = 0.

Lemma svc_gone_spec i w : (i < n_svc)%nat -> Quiet w ->
  wp (svc_gone i) (fun b w' => Forall2 mild (runs w) (runs w') /\ (b = true -> left_behind i w')) w.
Proof.
  intros Hi HQ. pose proof (quiet_side _ HQ) as HS. destruct (lookup_lt_is_Some_2 (runs w) i) as [r Hr]; [by rewrite (sd_runs _ _ HS)|].
  assert (Forall2 mild (runs w) (runs w)) as Hrefl by reflexivity. unfold left_behind.
  unfold svc_gone, run_of. apply wp_bind, (wp_rd _ _ _ _ _ Hr).
  destruct (Z.ltb_spec 0 (pid r)); cbn [orb]; [by apply wp_ret|]. destruct (Z.eqb_spec (stale_pid r) 0); cbn [negb]; [|by apply wp_ret].
  destruct (started r =? 0); [apply wp_ret; eauto|].
  apply wp_bind. eapply wp_mono; [exact (cgroup_populated_tame i _ _ HS)|]. intros n w1 HT. apply wp_ret. split; [apply HT|]. intros _.
  destruct (Forall2_lookup_l _ _ _ _ _ (tm_runs _ _ HT) Hr) as (r' & Hr' & M). exists r'. by rewrite (mi_pid _ _ M), (mi_stale _ _ M).
Qed.

Lemma left_behind_mild i w w' : Forall2 mild (runs w) (runs w') -> left_behind i w' -> left_behind i w.
Proof.
  intros HF (r' & Hr' & Hp & Hs). destruct (Forall2_lookup_r _ _ _ _ _ HF Hr') as (r & Hr & M).
  exists r. by rewrite <- (mi_pid _ _ M), <- (mi_stale _ _ M).
Qed.

(** ** One service *)

Lemma during_at T0 c q w i : during T0 c q w -> (i < n_svc)%nat ->
  exists s a, st q !! i = Some s /\ waitc q !! i = Some (owed (st q) i) /\ stop_at q !! i = Some a.
Proof.
  intros [_ _ _ (l & _ & HT)] Hi. destruct (lookup_lt_is_Some_2 (st q) i) as [s Hs]; [by rewrite (tu_st _ _ HT)|].
  destruct (lookup_lt_is_Some_2 (stop_at q) i) as [a Ha]; [by rewrite (tu_at _ _ HT)|].
  exists s, a. by rewrite (tu_waitc _ _ HT).
Qed.

Lemma during_len T0 c q w i s : during T0 c q w -> st q !! i = Some s -> (i < length (st q))%nat /\ (i < length (stop_at q))%nat.
Proof.
  intros [_ _ _ (l & _ & HT)] Hs%lookup_lt_Some. rewrite (tu_at _ _ HT), <- (tu_st _ _ HT). done.
Qed.

(** The fact [HD : during T0 c q w] carried over a step that changes no service's stage. *)
Local Ltac dstep lem := eapply during_step; [solve [apply lem; done || lia || log_level]|eassumption|intros].

Lemma stop_service_spec T0 c now q next i w : (i < n_svc)%nat -> during T0 c q w ->
  wp (stop_service now (q, next) i) (fun a w' => during T0 c a.1 w') w.
Proof.
  intros Hi HD. destruct (during_at _ _ _ _ _ HD Hi) as (s & a & Hs & Hc & Ha). unfold stop_service.
  apply wp_bind, (wp_lift _ _ _ _ Hs), wp_bind, (wp_lift _ _ _ _ Hc).
  destruct (decide (s = S_GONE)) as [->|Hn]; [by apply wp_ret|]. rewrite bool_decide_eq_false_2 by done.
  destruct (Z.eqb_spec (owed (st q) i) 0) as [Ho|]; cbn [negb orb]; [|by apply wp_ret]. rewrite Ho in Hc.
  destruct (stop_ms_lookup i Hi) as [ms Hms].
  assert (downM (if decide (s = S_WAIT) then svc_gone i else mret false)) as Hg.
  { destruct (decide (s = S_WAIT)); [by apply svc_gone_down|apply downM_ret]. }
  eapply during_step; [done..|]. intros gone w1 HD1 _. destruct gone; [by apply wp_ret|].
  apply wp_bind. apply (wp_mono _ (fun q' w' => during T0 c q' w' /\ exists s', st q' !! i = Some s' /\ s' <> S_GONE)).
  { destruct (decide (s = S_WAIT)) as [->|]; [|apply wp_ret; eauto].
    apply wp_bind. eapply during_emit; [done|done|by intros l HT; apply (turn_term l q i now ms)|].
    intros w2 HD2 _ _. dstep signal_group_down. unfold set_st_at.
    destruct (during_len _ _ _ _ _ _ HD Hs) as [Hl1 Hl2].
    apply wp_bind, wp_bind, wp_store; [done|]. apply wp_ret. apply wp_bind, (wp_lift _ _ _ _ Hms), wp_bind, wp_store; [done|].
    apply wp_ret. split; [done|]. exists S_TERM. simpl. by rewrite list_lookup_insert_eq. }
  intros q1 w2 (HD2 & s1 & Hs1 & Hn1). destruct (during_at _ _ _ _ _ HD2 Hi) as (? & a1 & ? & _ & Ha1). simplify_eq.
  apply wp_bind, (wp_lift _ _ _ _ Hs1), wp_bind, (wp_lift _ _ _ _ Ha1), wp_bind.
  apply (wp_mono _ (fun q' w' => during T0 c q' w')).
  { destruct (decide (s1 = S_TERM)) as [->|]; [|rewrite bool_decide_eq_false_2 by done; by apply wp_ret].
    rewrite bool_decide_eq_true_2 by done. destruct (Z.leb_spec a1 now) as [Hle|]; cbn [andb]; [|by apply wp_ret].
    dstep name_of_down. apply wp_bind, (wp_lift _ _ _ _ Hms). dstep log_down.
    apply wp_bind. eapply during_emit; [done|done|by intros l HT; apply (turn_kill l q1 i now a1)|].
    intros w3 HD3 _ _. dstep signal_group_down. unfold set_st_at.
    apply wp_bind, wp_store; [by apply lookup_lt_Some in Hs1|]. by apply wp_ret. }
  intros q2 w3 HD3. destruct (during_at _ _ _ _ _ HD3 Hi) as (s2 & _ & Hs2 & _ & _).
  apply wp_bind, (wp_lift _ _ _ _ Hs2). by apply wp_ret.
Qed.

(** Every prerequisite is owed one service less. *)
Lemma count_down_spec q js w : NoDup js -> (forall j, j ∈ js -> exists v, waitc q !! j = Some v /\ 0 < v < 4294967296) ->
  wp (mfold count_down q js) (fun q' w' => w' = w /\ exists wc, q' = set_waitc wc q /\
    forall j v, waitc q !! j = Some v -> wc !! j = Some (v - (if decide (j ∈ js) then 1 else 0))) w.
Proof.
  intros HN Hpos. apply (wp_mfold_pure (fun ds q' => exists wc, q' = set_waitc wc q /\
    forall j v, waitc q !! j = Some v -> wc !! j = Some (v - (if decide (j ∈ ds) then 1 else 0)))).
  - exists (waitc q). split; [by destruct q|]. intros j v Hv. rewrite decide_False by set_solver. by rewrite Z.sub_0_r.
  - intros ds x todo b El (wc & -> & Hwc). assert (x ∈ js) as Hx by (rewrite El; set_solver).
    assert (x ∉ ds) as Hxn by (rewrite El in HN; apply NoDup_app in HN; set_solver).
    destruct (Hpos x Hx) as (v & Hv & Hr). pose proof (Hwc x v Hv) as Hwx. rewrite decide_False, Z.sub_0_r in Hwx by done.
    unfold count_down. apply wp_bind, (wp_lift _ v); [done|]. destruct (Z.eqb_spec v 0); [lia|].
    apply wp_bind, wp_store; [by apply lookup_lt_Some in Hwx|]. apply wp_ret. split; [done|].
    eexists. split; [done|]. intros j u Hu. simpl. destruct (decide (j = x)) as [->|Hne].
    + rewrite list_lookup_insert_eq by (by apply lookup_lt_Some in Hwx). simplify_eq. rewrite decide_True by set_solver.
      rewrite u32_small by lia. done.
    + rewrite list_lookup_insert_ne by done. rewrite (Hwc j u Hu). f_equal. f_equal.
      destruct (decide (j ∈ ds)); [by rewrite decide_True by set_solver|by rewrite decide_False by set_solver].
  - done.
Qed.

(** ** One turn *)

Definition all_gone (q : stopst) : Prop := forall i, (i < n_svc)%nat -> st q !! i = Some S_GONE.

Lemma gone_step {B} (f : bool -> M B) i T0 c q w (Q : B -> world -> Prop) : (i < n_svc)%nat -> during T0 c q w ->
  (forall b w', during T0 c q w' -> going w w' ->
    Forall2 mild (runs w) (runs w') -> (b = true -> left_behind i w') -> wp (f b) Q w') ->
  wp (svc_gone i ≫= f) Q w.
Proof.
  intros Hi HD Hf. apply wp_bind. pose proof (svc_gone_spec i w Hi (du_quiet _ _ _ _ HD)) as H1.
  pose proof (svc_gone_down i Hi w (du_quiet _ _ _ _ HD) (du_shut _ _ _ _ HD)) as H2.
  unfold wp in *. destruct (svc_gone i w) as [b w1| | |]; try done. destruct H2 as [HQ1 G1], H1. apply Hf; [|done..]. by eapply during_going.
Qed.

Lemma settle_service_spec T0 c off idx q i w : (i < n_svc)%nat -> prereqs_ok off idx -> during T0 c q w ->
  wp (settle_service off idx q i) (fun q' w' => during T0 c q' w' /\ (calls w <= calls w')%nat) w.
Proof.
  intros Hi HP HD. destruct (during_at _ _ _ _ _ HD Hi) as (s & a0 & Hs & Hc & _). unfold settle_service.
  apply wp_bind, (wp_lift _ _ _ _ Hs), wp_bind, (wp_lift _ _ _ _ Hc).
  destruct (decide (s = S_GONE)) as [->|Hn]; [by apply wp_ret|]. rewrite bool_decide_eq_false_2 by done.
  destruct (Z.eqb_spec (owed (st q) i) 0) as [Ho|]; cbn [negb orb]; [|by apply wp_ret]. rewrite Ho in Hc.
  apply gone_step with T0 c q; [done..|]. intros gone w1 HD1 G1 _ Hg. pose proof (kp_calls _ _ G1) as Hcalls. simpl in Hcalls.
  destruct gone; cbn [negb]; [|apply wp_ret; split; [done|lia]].
  destruct (Hg eq_refl) as (r & Hr & Hp & Hsp). unfold run_of. apply wp_bind, (wp_rd _ _ _ _ _ Hr).
  destruct (HP i Hi) as (a & b & Ha & Hb & Hlen & Hjs).
  pose proof (du_turn _ _ _ _ HD1) as (l1 & El1 & HT1).
  assert (forall j, j ∈ preds n_svc i -> exists v, waitc q !! j = Some v /\ 0 < v < 4294967296) as Hpos.
  { intros j [Hj Hj2]%list_elem_of_filter. apply list_elem_of_In, in_seq in Hj2. exists (owed (st q) j).
    split; [apply (tu_waitc _ _ HT1); lia|]. split.
    - unfold owed. apply list_elem_of_lookup_1 in Hj as [k Hk]. apply (cnt_pos _ _ k i Hk).
      unfold not_gone. rewrite Hs, bool_decide_eq_false_2 by congruence. done.
    - pose proof (cnt_range (not_gone (st q)) (row j)) as Hr1. pose proof n_svc_bound. unfold owed.
      pose proof (NoDup_submseteq (row j) (seq 0 n_svc) (prow_nodup j)) as Hsub.
      assert (length (row j) <= length (seq 0 n_svc))%nat as Hle.
      { apply submseteq_length, Hsub. intros d Hd%row_lt. apply list_elem_of_In, in_seq. lia. }
      rewrite length_seq in Hle. lia. }
  assert (quietM (emit (EvGone i r))) as Hq by (by apply tameM_quiet, tameM_emit).
  specialize (Hq w1 (du_quiet _ _ _ _ HD1)). apply wp_bind. unfold emit in *. apply wp_modify.
  destruct (during_len _ _ _ _ _ _ HD Hs) as [Hl _]. unfold set_st_at.
  apply wp_bind, wp_bind, wp_store; [done|]. apply wp_ret. apply wp_bind, (wp_lift _ _ _ _ Ha), wp_bind, (wp_lift _ _ _ _ Hb), wp_bind.
  rewrite decide_True by done. apply wp_ret. rewrite Hjs. eapply wp_mono; [apply count_down_spec|].
  - apply NoDup_filter, NoDup_ListNoDup, seq_NoDup.
  - intros j Hj. simpl. by apply Hpos.
  - intros q' w2 (-> & wc & -> & Hwc). simpl in Hwc. split; [|simpl; lia]. destruct HD1 as [HQ1 Hsh1 Hc1 _].
    constructor; [done|done|done|]. exists (EvGone i r :: l1). simpl. rewrite El1. split; [done|].
    apply (turn_gone l1 q i s); [done..|]. intros j Hj. erewrite Hwc by (by apply (tu_waitc _ _ HT1)). f_equal. f_equal.
    destruct (decide (i ∈ row j)) as [Hr2|Hr2].
    + rewrite decide_True; [done|]. apply list_elem_of_filter. split; [done|]. apply list_elem_of_In, in_seq. lia.
    + rewrite decide_False; [done|]. by intros [? _]%list_elem_of_filter.
Qed.

(** ** The loop *)

(** Why the ordered stop is over: everything is gone, or its time is. *)
Definition over (c : nat) (deadline : Z) (q : stopst) (w : world) : Prop :=
  all_gone q \/ exists k, (c <= k < calls w)%nat /\ deadline <= os_ms k.

Lemma count_stuck_down n : downM (mfold count_stuck n (seq 0 n_svc)).
Proof.
  assert (forall l n, Forall (fun i => i < n_svc)%nat l -> downM (mfold count_stuck n l)) as Hl.
  { induction l as [|i l IH]; intros m Hl; cbn [mfold]; [apply downM_ret|]. inversion Hl; subst.
    apply downM_bind; [|intros m'; by apply IH]. unfold count_stuck. apply downM_bind; [by apply svc_gone_down|intros b]. apply downM_ret. }
  apply Hl, Forall_forall. intros i Hi. apply list_elem_of_In, in_seq in Hi. lia.
Qed.

Lemma wp_turn T0 c now q next w : during T0 c q w ->
  wp (mfold (stop_service now) (q, next) (seq 0 n_svc)) (fun a w' => during T0 c a.1 w') w.
Proof.
  intros HD. apply (wp_mfold (fun _ a w' => during T0 c a.1 w')); [done| |done].
  intros ds i todo [q1 n1] w1 El HD1. destruct (seq_split _ _ _ _ El) as (_ & Hi & _). by apply stop_service_spec.
Qed.

Lemma wp_settle T0 c off idx q w : prereqs_ok off idx -> during T0 c q w ->
  wp (mfold (settle_service off idx) q (seq 0 n_svc)) (fun q' w' => during T0 c q' w' /\ (calls w <= calls w')%nat) w.
Proof.
  intros HP HD. apply (wp_mfold (fun _ q' w' => during T0 c q' w' /\ (calls w <= calls w')%nat)); [done| |done].
  intros ds i todo q1 w1 El [HD1 Hc1]. destruct (seq_split _ _ _ _ El) as (_ & Hi & _).
  eapply wp_mono; [by apply settle_service_spec|]. intros q' w2 [HD2 Hc2]. split; [done|lia].
Qed.

Lemma during_now T0 c q w : during T0 c q w -> during T0 (calls w) q w.
Proof. intros []. by constructor. Qed.

Lemma during_since T0 c c' q w : (c <= c')%nat -> during T0 c' q w -> during T0 c q w.
Proof. intros Hc [H1 H2 H3 H4]. constructor; [done|done|lia|done]. Qed.

Lemma during_clock {B} (f : Z -> M B) T0 c q w (Q : B -> world -> Prop) : during T0 c q w ->
  (during T0 c q (set_calls (S (calls w)) w) -> wp (f (os_ms (calls w))) Q (set_calls (S (calls w)) w)) -> wp (now_ms ≫= f) Q w.
Proof.
  intros HD Hf. apply wp_bind, wp_now; [apply HD..|]. intros w' HQ' G ->. apply Hf. by eapply during_going.
Qed.

(** Nothing is left of what is counted. *)
Lemma during_left T0 c q w : during T0 c q w -> s_left q = 0 -> all_gone q.
Proof.
  intros [_ _ _ (l & _ & HT)] Hz i Hi. destruct (lookup_lt_is_Some_2 (st q) i) as [s Hs]; [by rewrite (tu_st _ _ HT)|].
  rewrite Hs. f_equal. rewrite (tu_left _ _ HT) in Hz. pose proof (proj1 (cnt_zero _ _) Hz s (list_elem_of_lookup_2 _ _ _ Hs)) as Hb.
  apply negb_false_iff, bool_decide_eq_true in Hb. done.
Qed.

Lemma stop_loop_spec T0 c off idx deadline fuel c0 q w : prereqs_ok off idx -> during T0 c q w -> time_left c0 deadline fuel w -> (0 < fuel)%nat ->
  wp (stop_loop fuel off idx deadline q) (fun _ w' => exists q', during T0 c q' w' /\ over c deadline q' w') w.
Proof.
  intros HP. revert q w. induction fuel as [|fuel IH]; intros q w HD Ht Hf; [lia|]. cbn [stop_loop].
  pose proof (du_calls _ _ _ _ HD) as Hcw. apply during_now in HD. apply during_clock with T0 (calls w) q; [done|]. intros HD1.
  apply wp_bind. eapply wp_mono; [by apply wp_turn|]. intros r w2 HD2.
  eapply during_step; [apply collect_down|exact HD2|]. intros [] w3 HD3 _.
  apply wp_bind. eapply wp_mono; [by apply wp_settle|]. intros q4 w4 [HD4 _].
  destruct (Z.eqb_spec (s_left q4) 0) as [Hz|].
  { apply wp_ret. exists q4. split; [by eapply during_since|]. left. by eapply during_left. }
  pose proof (du_calls _ _ _ _ HD4) as Hc4. apply during_clock with T0 (calls w) q4; [done|]. intros HD5.
  destruct (Z.leb_spec deadline (os_ms (calls w4))) as [Hle|Hlt].
  - eapply during_step; [apply count_stuck_down|exact HD5|]. intros stuck w6 HD6 G6.
    eapply wp_mono; [apply (log_down LOG_WARN); [log_level|apply HD6|apply HD6]|]. intros [] w7 [HQ7 G7].
    exists q4. split; [eapply during_since; [exact Hcw|by eapply during_going]|]. right. exists (calls w4).
    pose proof (kp_calls _ _ G6). pose proof (kp_calls _ _ G7). simpl in *. split; [lia|done].
  - apply wp_bind, nap_later; [apply HD5..|]. intros w6 HQ6 G6 Hc6.
    destruct (time_next c0 deadline (S fuel) w w4 w6) as (f & [= <-] & Ht6); [done|done|done|simpl in Hc6; lia|].
    destruct fuel as [|fuel].
    + exfalso. destruct Ht as [Hd Ht]. pose proof (ok_time c0).
      assert (c0 + os_patience <= calls w4)%nat as Hge by lia. pose proof (ok_mono _ _ Hge). lia.
    + eapply wp_mono; [apply (IH q4 w6); [eapply during_since; [exact Hcw|by eapply during_going]|done|lia]|]. done.
Qed.

(** ** The whole of it *)

(** What the ordered stop did to the world [w]: everything is in order, and
    unless it was out of memory every service is gone, was gone, or had its
    time. *)
Definition stopped (w w' : world) : Prop :=
  exists l, trace w' = l ++ trace w /\ in_order env_g l /\
    ((forall i, (i < n_svc)%nat -> is_gone i l = true) \/
     (exists k, (calls w <= k < calls w')%nat /\ os_ms (calls w) + STOP_TOTAL_MS <= os_ms k) \/
     (forall i, (i < n_svc)%nat -> left_behind i w) \/
     EvLog LOG_WARN NO_MEM ∈ l).

(** The services that run, and how many depend on each. *)
Definition counted (w : world) (n : nat) (a : list Z * Z) (w' : world) : Prop :=
  (Quiet w' /\ shutting_down w' = true /\ going w w' /\ Forall2 mild (runs w) (runs w')) /\ length a.1 = n /\
  (forall i, (i < n)%nat -> a.1 !! i = Some (Z.of_nat (length (row i)))) /\
  0 <= a.2 /\ (a.2 = 0 -> forall i, (i < n)%nat -> left_behind i w).

Lemma count_live_spec w : Quiet w -> shutting_down w = true ->
  wp (mfold count_live ([], 0) (seq 0 n_svc)) (fun a w' => counted w n_svc a w') w.
Proof.
  intros HQ Hs. apply (wp_mfold (fun ds a w' => counted w (length ds) a w')).
  - split; [split_ands; [done|done|reflexivity|reflexivity]|]. split; [done|]. split; [simpl; lia|]. simpl. split; [lia|]. lia.
  - intros ds i todo a w1 El ((HQ1 & Hs1 & G1 & M1) & Hl & Hrow & Hpos & Hz).
    destruct (seq_split _ _ _ _ El) as (-> & Hi & _). rewrite length_app, Nat.add_1_r. set (i := length ds) in *. unfold count_live, deps_of.
    apply wp_bind, (wp_lift _ _ _ _ (prow_succs i Hi)).
    apply wp_bind. pose proof (svc_gone_spec i w1 Hi HQ1) as Hg. pose proof (svc_gone_down i Hi w1 HQ1 Hs1) as Hd.
    unfold wp in *. destruct (svc_gone i w1) as [b w2| | |]; try done. destruct Hd as [HQ2 G2], Hg as [M2 Hg]. simpl.
    assert (Forall2 mild (runs w) (runs w2)) as M by (by etrans).
    split; [split_ands; [done|by rewrite (kp_shut _ _ G2)|by etrans|done]|]. simpl. split; [rewrite length_app, Hl; simpl; lia|]. split.
    + intros j Hj. destruct (decide (j = i)) as [->|]; [|rewrite lookup_app_l by lia; apply Hrow; lia].
      rewrite lookup_app_r, Hl, Nat.sub_diag by lia. done.
    + destruct b; split; try lia. intros H0 j Hj. destruct (decide (j = i)) as [->|]; [|apply Hz; [done|lia]].
      by eapply left_behind_mild, Hg.
  - intros a w' H. by rewrite length_seq in H.
Qed.

(** What is said when there is no memory for the arrays. *)
Lemma no_mem_spec w0 w : Quiet w -> shutting_down w = true -> going w0 w ->
  wp (log_warn NO_MEM) (fun _ w' => (Quiet w' /\ going w0 w') /\ stopped w0 w') w.
Proof.
  intros HQ Hs G. assert (downM (log_warn NO_MEM)) as Hd by (apply log_down; log_level).
  assert (wp (log_warn NO_MEM) (fun _ w' => trace w' = EvLog LOG_WARN NO_MEM :: trace w) w) as Ht.
  { apply ninit_log_wp; [log_level|apply (sd_log _ _ (quiet_side _ HQ))|done]. }
  specialize (Hd w HQ Hs). unfold wp in *. destruct (log_warn NO_MEM w) as [a w'| | |]; try done. destruct Hd as [HQ' G'].
  split; [split; [done|by etrans]|]. destruct (kp_trace _ _ G) as (k & Ek & Fk). simpl in Ek.
  exists (EvLog LOG_WARN NO_MEM :: k). rewrite Ht, Ek. split; [done|].
  split; [|right; right; right; by left]. rewrite <- (app_nil_r (_ :: k)). apply ordered_quiet; [|done]. by constructor.
Qed.

Lemma going_stopped w w' : going w w' -> (forall i, (i < n_svc)%nat -> left_behind i w) -> stopped w w'.
Proof.
  intros G Hl. destruct (kp_trace _ _ G) as (k & Ek & Fk). simpl in Ek. exists k. split; [done|].
  split; [rewrite <- (app_nil_r k); by apply ordered_quiet|]. by right; right; left.
Qed.

Lemma stop_ordered_spec w : Quiet w -> shutting_down w = true ->
  wp stop_ordered (fun _ w' => (Quiet w' /\ shutting_down w' = true /\ (calls w <= calls w')%nat) /\ stopped w w') w.
Proof.
  intros HQ Hs. unfold stop_ordered. destruct (Nat.eqb_spec n_svc 0) as [Hn|Hn].
  { apply wp_ret. split; [done|]. apply going_stopped; [reflexivity|lia]. }
  assert (forall m w1, Quiet w1 -> shutting_down w1 = true -> going w w1 -> m = log_warn NO_MEM ->
    wp m (fun _ w' => (Quiet w' /\ shutting_down w' = true /\ (calls w <= calls w')%nat) /\ stopped w w') w1) as Hmem.
  { intros m w1 HQ1 Hs1 G1 ->. eapply wp_mono; [by apply (no_mem_spec w)|]. intros [] w2 [[HQ2 G2] HS].
    split; [|done]. split; [done|]. split; [by rewrite (kp_shut _ _ G2)|apply (kp_calls _ _ G2)]. }
  apply wp_bind. eapply wp_mono; [by apply build_prereqs_spec|]. intros p w1 [(HQ1 & G1 & Er1) HP].
  assert (shutting_down w1 = true) as Hs1 by (by rewrite (kp_shut _ _ G1)).
  destruct p as [[off idx]|]; [|by apply Hmem]. specialize (HP off idx eq_refl).
  apply allocs_step; [done..|]. intros ok w2 HQ2 Hs2 G2 Er2. assert (going w w2) as G02 by (by etrans).
  destruct ok; cbn [negb]; [|by apply Hmem].
  apply wp_bind. eapply wp_mono; [by apply count_live_spec|]. intros a w3 ((HQ3 & Hs3 & G3 & M3) & Hl3 & Hrow & Hpos & Hz).
  assert (going w w3) as G03 by (by etrans). destruct (Z.eqb_spec a.2 0) as [H0|H0].
  { apply wp_ret. split; [split_ands; [done|done|apply (kp_calls _ _ G03)]|]. apply going_stopped; [done|].
    intros i Hi. destruct (Hz H0 i Hi) as (r & Hr & Hp). exists r. by rewrite <- Er1, <- Er2. }
  eapply downM_step; [apply log_down; log_level|done|done|]. intros [] w4 HQ4 Hs4 G4. assert (going w w4) as G04 by (by etrans).
  apply wp_bind, wp_now; [done..|]. intros w5 HQ5 G5 E5. assert (going w w5) as G05 by (by etrans).
  destruct (kp_trace _ _ G05) as (k & Ek & Fk). simpl in Ek. pose proof (kp_calls _ _ G05) as Hc5.
  pose proof (kp_calls _ _ G04) as Hc4. simpl in Hc4, Hc5.
  eapply wp_mono; [apply (stop_loop_spec (trace w) (calls w) off idx _ (S os_patience) (calls w4)); [done| | |lia]|].
  - constructor; [done|by rewrite (kp_shut _ _ G05)|done|]. exists k. split; [done|].
    rewrite <- (app_nil_r k). apply turn_quiet; [done|]. by apply turn_start.
  - rewrite E5. apply time_start. unfold STOP_TOTAL_MS. lia.
  - intros [] w6 (q & [HQ6 Hs6 Hc6 (l & El & HT)] & Ho). split; [done|]. exists l. split; [done|]. split; [apply HT|].
    destruct Ho as [Ha|(j & Hj & Hms)].
    + left. intros i Hi. by destruct (tu_stage _ _ HT i _ (Ha i Hi)) as [-> _].
    + right. left. exists j. split; [done|]. pose proof (ok_mono (calls w) (calls w4) Hc4). lia.
Qed.

(** ** To the end *)

Lemma stopped_after w w1 w2 : stopped w w1 -> going w1 w2 -> stopped w w2.
Proof.
  intros (l & El & Ho & Hout) G. destruct (kp_trace _ _ G) as (k & Ek & Fk). simpl in Ek. pose proof (kp_calls _ _ G) as Hc. simpl in Hc.
  exists (k ++ l). rewrite Ek, El, app_assoc. split; [done|]. split; [by apply ordered_quiet|].
  destruct Hout as [Hg|[(j & Hj & Hms)|[Hl|Hm]]].
  - left. intros i Hi. rewrite is_gone_quiet by done. by apply Hg.
  - right. left. exists j. split; [lia|done].
  - by right; right; left.
  - right. right. right. apply elem_of_app. by right.
Qed.

Lemma stopped_before w0 w w' : going w0 w -> Forall2 mild (runs w0) (runs w) -> stopped w w' -> stopped w0 w'.
Proof.
  intros G M (l & El & Ho & Hout). destruct (kp_trace _ _ G) as (k & Ek & Fk). pose proof (kp_calls _ _ G) as Hc. simpl in Ek, Hc.
  exists (l ++ k). rewrite El, Ek, app_assoc. split; [done|]. split; [by apply ordered_before|].
  destruct Hout as [Hg|[(j & Hj & Hms)|[Hl|Hm]]].
  - left. intros i Hi. rewrite is_gone_before by done. by apply Hg.
  - right. left. exists j. split; [lia|]. pose proof (ok_mono _ _ Hc). lia.
  - right. right. left. intros i Hi. by eapply left_behind_mild, Hl.
  - right. right. right. apply elem_of_app. by left.
Qed.

(** A step after the services have been stopped. *)
Lemma after_step {A B} (m : M A) (f : A -> M B) w0 w (Q : B -> world -> Prop) : downM m ->
  Quiet w -> shutting_down w = true -> stopped w0 w ->
  (forall a w', Quiet w' -> shutting_down w' = true -> stopped w0 w' -> wp (f a) Q w') -> wp (m ≫= f) Q w.
Proof.
  intros Hm HQ Hs HS Hf. eapply downM_step; [done..|]. intros a w' HQ' Hs' G. apply Hf; [done..|]. by eapply stopped_after.
Qed.

(** How the shutdown ends: the services were stopped in order, pid 1 asked the
    kernel for [how], and only messages came after. *)
Definition ended (how : Z) (w0 w : world) : Prop :=
  exists k w1, Forall quiet_event k /\ trace w = k ++ EvHalt how :: trace w1 /\ (calls w1 <= calls w)%nat /\ stopped w0 w1.


Lemma console_front_tame : tameM (console_front false).
Proof. unfold console_front, ioctl. cbn [negb]. tame_tac. Qed.

Lemma kill_down p sig : downM (kill p sig).
Proof. unfold kill. down_tac. Qed.

(** A step that halts pid 1. *)
Definition halts {A} (m : M A) (P : world -> Prop) (w : world) : Prop := exists w', m w = Halt w' /\ P w'.

Lemma halts_step {A B} (m : M A) (f : A -> M B) P w : wp m (fun a w' => halts (f a) P w') w -> halts (m ≫= f) P w.
Proof. unfold wp, halts, mbind, M_bind. destruct (m w) as [a w1| | |]; done. Qed.

Lemma halts_after {A B} (m : M A) (f : A -> M B) P w0 w : downM m -> Quiet w -> shutting_down w = true -> stopped w0 w ->
  (forall a w', Quiet w' -> shutting_down w' = true -> stopped w0 w' -> halts (f a) P w') -> halts (m ≫= f) P w.
Proof.
  intros Hm HQ Hs HS Hf. apply halts_step. eapply wp_mono; [by apply Hm|]. intros a w' [HQ' G].
  apply Hf; [done|by rewrite (kp_shut _ _ G)|by eapply stopped_after].
Qed.

Lemma quiet_shut w : Quiet w -> Quiet (set_shutting_down true w).
Proof. intros [[H1 H2 []] Hq]. split; [|done]. by constructor. Qed.

(** One of the steps between. *)
Local Ltac after :=
  eapply halts_after;
  [first [apply log_down; log_level | apply kill_down | apply wait_children_down; by vm_compute
         | apply console_front_down | apply close_control_down | apply save_hwclock_down | apply stop_swap_down
         | apply remount_ro_down | apply sync_down | apply userspace_left_down]
  |eassumption|eassumption|eassumption|intros ????? ].

(** All that is still alive gets its time, and SIGKILL. *)
Lemma kill_rest_down (left_ : bool) what : downM (when left_
  (log_warn (what ++ bs ": sending SIGKILL to all processes");; kill (-1) SIGKILL;; wait_children KILL_GRACE_MS)).
Proof.
  apply downM_when, downM_bind; [apply log_down; log_level|intros _]. apply downM_bind; [apply kill_down|intros _].
  apply wait_children_down. by vm_compute.
Qed.

(** The machine stops, and pid 1 does not go on if it does not. *)
Lemma halt_spec how what w0 w : Quiet w -> shutting_down w = true -> stopped w0 w ->
  halts (emit (EvHalt how);; e ← call (fun n => os_act n (bs "reboot") (dec how));
    when (negb (is_ok e)) (log_err (what ++ bs ": reboot(): " ++ err_text e));; pause_forever)
    (fun w' => Quiet w' /\ ended how w0 w') w.
Proof.
  intros HQ Hs HS. assert (quietM (emit (EvHalt how))) as Hq by (by apply tameM_quiet, tameM_emit).
  specialize (Hq w HQ). apply halts_step. unfold emit in *. apply wp_modify. unfold wp, modify in Hq.
  set (w1 := set_trace _ w) in *. assert (shutting_down w1 = true) as Hs1 by done.
  assert (downM (e ← call (fun n => os_act n (bs "reboot") (dec how));
    when (negb (is_ok e)) (log_err (what ++ bs ": reboot(): " ++ err_text e)))) as Hd by down_tac.
  specialize (Hd w1 Hq Hs1). unfold wp, halts, mbind, M_bind in *. destruct (call _ w1) as [e w2| | |]; try done.
  destruct (when _ _ w2) as [[] w3| | |]; try done. destruct Hd as [HQ3 G3]. exists w3. split; [done|]. split; [done|].
  destruct (kp_trace _ _ G3) as (k & Ek & Fk). simpl in Ek. pose proof (kp_calls _ _ G3). exists k, w. done.
Qed.

Lemma shutdown_spec how what w : Quiet w ->
  halts (shutdown_system how what) (fun w' => Quiet w' /\ ended how w w') w.
Proof.
  intros HQ. unfold shutdown_system. set (w0 := set_shutting_down true w). apply halts_step, wp_modify.
  assert (Quiet w0) as HQ0 by (by apply quiet_shut). fold w0.
  pose proof (console_front_tame None w0 (quiet_side _ HQ0)) as Ht.
  pose proof (console_front_down false w0 HQ0 eq_refl) as Hd.
  apply halts_step. unfold wp in *. destruct (console_front false w0) as [[] w1| | |]; try done. destruct Hd as [HQ1 G1].
  assert (shutting_down w1 = true) as Hs1 by (by rewrite (kp_shut _ _ G1)).
  apply halts_step. eapply wp_mono; [by apply stop_ordered_spec|]. intros [] w2 [(HQ2 & Hs2 & _) HS].
  assert (stopped w w2) as HS2 by (exact (stopped_before w0 w1 w2 G1 (tm_runs _ _ Ht) HS)). clear HS.
  after. after. after. after.
  eapply halts_after; [apply kill_rest_down|eassumption..|]. intros ?????.
  do 10 after. by apply halt_spec.
Qed.


(** C34. A shutdown gets to its end. Whatever the services do, and whatever the
    kernel answers, the loops that wait for them, for the rest of userspace, for
    hwclock and for the mounts end, and pid 1 asks the kernel for what was asked
    of it, after everything else. *)
Theorem shutdown_reaches_reboot how what w : Quiet w ->
  exists w' k l, shutdown_system how what w = Halt w' /\
    trace w' = k ++ EvHalt how :: l ++ trace w /\ Forall quiet_event k.
Proof.
  intros HQ. destruct (shutdown_spec how what w HQ) as (w' & Hh & _ & k & w1 & Fk & Ek & _ & l & El & _).
  exists w', k, l. by rewrite <- El.
Qed.
End Order.
