(* ===== verification/Mounts.v ===== *)
(** * The filesystems at the end of a shutdown (src/shutdown.c)

    The mount points are read from /proc/self/mounts as the kernel wrote them,
    and each of them is dealt with. *)

From stdpp Require Import gmap.
From S2P Require Import Prelude Ngraph PidMap Ring Log Console Repeat Logged World Sys Inv Live Cgroup Fail Emerg Output State Spawn Release Reap Steady Halt Stop Down Prereq.

(** ** What the kernel writes *)

(** A byte as three octal digits after a backslash. *)
Definition octal_escape (c : Z) : bytes := [92; 48 + Z.shiftr c 6; 48 + Z.land (Z.shiftr c 3) 7; 48 + Z.land c 7].

Definition mangled (c : Z) : bool := (c =? 32) || (c =? 9) || (c =? 10) || (c =? 92).

Fixpoint mangle (s : bytes) : bytes :=
  match s with
  | [] => []
  | c :: s' => (if mangled c then octal_escape c else [c]) ++ mangle s'
  end.

Record mount := Mount { mnt_dev : bytes; mnt_point : bytes; mnt_rest : bytes }.

(** A line of /proc/self/mounts: the rest are the type and the options. *)
Definition mount_line (m : mount) : bytes := mangle (mnt_dev m) ++ [32] ++ mangle (mnt_point m) ++ [32] ++ mnt_rest m.

Definition mount_table (ms : list mount) : bytes := concat ((fun m => mount_line m ++ [10]) <$> ms).

Definition path_ok (s : bytes) : Prop := Forall (fun c => 0 < c < 256) s.

Record mount_ok (m : mount) : Prop := MountOk {
  mo_dev : path_ok (mnt_dev m);
  mo_point : path_ok (mnt_point m);
  mo_rest : path_ok (mnt_rest m);
  mo_line : 10 ∉ mnt_rest m;
}.

Lemma unescape_plain c s : c <> 92 -> unescape_mount (c :: s) = c :: unescape_mount s.
Proof.
  intros Hc. destruct c as [|p|p]; try done. do 7 (destruct p as [p|p|]; try done).
Qed.

Lemma unescape_octal s : unescape_mount (octal_escape 32 ++ s) = 32 :: unescape_mount s /\
  unescape_mount (octal_escape 9 ++ s) = 9 :: unescape_mount s /\
  unescape_mount (octal_escape 10 ++ s) = 10 :: unescape_mount s /\
  unescape_mount (octal_escape 92 ++ s) = 92 :: unescape_mount s.
Proof. done. Qed.

Lemma unescape_mangle s : unescape_mount (mangle s) = s.
Proof.
  induction s as [|c s IH]; [done|]. cbn [mangle]. unfold mangled. destruct (unescape_octal (mangle s)) as (E1 & E2 & E3 & E4).
  destruct (Z.eqb_spec c 32) as [->|H1]; [cbn [orb]; by rewrite E1, IH|].
  destruct (Z.eqb_spec c 9) as [->|H2]; [cbn [orb]; by rewrite E2, IH|].
  destruct (Z.eqb_spec c 10) as [->|H3]; [cbn [orb]; by rewrite E3, IH|].
  destruct (Z.eqb_spec c 92) as [->|H4]; [cbn [orb]; by rewrite E4, IH|].
  cbn [orb app]. by rewrite unescape_plain, IH.
Qed.

(** No separator is left in an escaped path. *)
Lemma mangle_plain s : path_ok s -> Forall (fun c => c <> 0 /\ c <> 10 /\ c <> 32) (mangle s).
Proof.
  induction 1 as [|c s Hc _ IH]; [constructor|]. cbn [mangle]. apply Forall_app. split; [|done]. unfold mangled.
  destruct (Z.eqb_spec c 32) as [->|H1]; [cbn [orb]; by repeat constructor|].
  destruct (Z.eqb_spec c 9) as [->|H2]; [cbn [orb]; by repeat constructor|].
  destruct (Z.eqb_spec c 10) as [->|H3]; [cbn [orb]; by repeat constructor|].
  destruct (Z.eqb_spec c 92) as [->|H4]; [cbn [orb]; by repeat constructor|].
  cbn [orb]. repeat constructor; lia.
Qed.

Lemma plain_not s : Forall (fun c => c <> 0 /\ c <> 10 /\ c <> 32) s -> 0 ∉ s /\ 10 ∉ s /\ 32 ∉ s.
Proof. rewrite Forall_forall. intros H. split_ands; intros Hin; specialize (H _ Hin); tauto. Qed.

Lemma mount_point_line m : mount_ok m -> mount_point (mount_line m) = Some (mnt_point m).
Proof.
  intros [Hd Hp _ _]. destruct (plain_not _ (mangle_plain _ Hd)) as (_ & _ & H1), (plain_not _ (mangle_plain _ Hp)) as (_ & _ & H2).
  unfold mount_point, mount_line. simpl. rewrite past_app by done. simpl. rewrite past_app by done. simpl.
  by rewrite upto_app, unescape_mangle.
Qed.

Lemma mount_line_plain m : mount_ok m -> 0 ∉ mount_line m /\ 10 ∉ mount_line m.
Proof.
  intros [Hd Hp Hr Hl]. destruct (plain_not _ (mangle_plain _ Hd)) as (A1 & A2 & _), (plain_not _ (mangle_plain _ Hp)) as (B1 & B2 & _).
  assert (0 ∉ mnt_rest m) as Hr0 by (intros Hin; unfold path_ok in Hr; rewrite Forall_forall in Hr; specialize (Hr _ Hin); lia).
  unfold mount_line. split; rewrite !not_elem_of_app; split_ands; try done; (apply not_elem_of_cons; split; [done|by apply not_elem_of_nil]).
Qed.

(** *** A text made of lines *)

Lemma split_line cur l s : 10 ∉ l -> split_lines cur (l ++ 10 :: s) = ((cur ++ l) :: (split_lines [] s).1, (split_lines [] s).2).
Proof.
  revert cur. induction l as [|c l IH]; intros cur Hn; simpl; [rewrite app_nil_r; by destruct (split_lines [] s)|].
  apply not_elem_of_cons in Hn as [Hc Hn]. destruct (Z.eqb_spec c 10); [congruence|]. rewrite IH by done. by rewrite <- app_assoc.
Qed.

Lemma split_lines_concat ls : Forall (fun l => 10 ∉ l) ls -> split_lines [] (concat ((fun l => l ++ [10]) <$> ls)) = (ls, []).
Proof.
  intros H. induction H as [|l ls Hl _ IH]; [done|]. rewrite fmap_cons. cbn [concat]. rewrite <- app_assoc. cbn [app].
  by rewrite split_line, IH.
Qed.

Lemma text_lines_concat ls : Forall (fun l => 10 ∉ l) ls -> text_lines (concat ((fun l => l ++ [10]) <$> ls)) = ls.
Proof. intros H. unfold text_lines. by rewrite split_lines_concat, app_nil_r. Qed.

Lemma cut0_plain s : 0 ∉ s -> cut0 s = s.
Proof.
  induction s as [|c s IH]; intros Hn; [done|]. apply not_elem_of_cons in Hn as [Hc Hn]. simpl.
  destruct (Z.eqb_spec c 0); [congruence|]. by rewrite IH.
Qed.

Lemma mount_table_lines ms : Forall mount_ok ms -> text_lines (cut0 (mount_table ms)) = mount_line <$> ms.
Proof.
  intros H. rewrite cut0_plain.
  - assert (mount_table ms = concat ((fun l => l ++ [10]) <$> (mount_line <$> ms))) as ->.
    { unfold mount_table. by rewrite <- list_fmap_compose. }
    apply text_lines_concat, Forall_fmap. eapply Forall_impl; [exact H|]. intros m Hm. apply (mount_line_plain m Hm).
  - unfold mount_table. induction H as [|m ms Hm _ IH]; [set_solver|]. rewrite fmap_cons. cbn [concat].
    rewrite !not_elem_of_app. split; [|exact IH]. split; [apply (mount_line_plain m Hm)|]. apply not_elem_of_cons; split; [done|by apply not_elem_of_nil].
Qed.

(** ** What is done with them *)

Section Spec.
Context `{E : Env} `{!EnvOk E}.

(** The list holds the mount points in order, up to where the memory ends. *)
Lemma list_mounts_spec ms mcap mps w : Quiet w -> shutting_down w = true -> Forall mount_ok ms ->
  wp (list_mounts (mount_line <$> ms) mcap mps) (fun r w' => (Quiet w' /\ going w w') /\
    exists ms1 ms2, ms = ms1 ++ ms2 /\ r = mps ++ (mnt_point <$> ms1) /\
      (ms2 = [] \/ exists k, (calls w <= k < calls w')%nat /\ os_alloc k = false)) w.
Proof.
  intros HQ Hs Hok. revert mcap mps w HQ Hs. induction Hok as [|m ms Hm _ IH]; intros mcap mps w HQ Hs; cbn [list_mounts fmap list_fmap].
  { apply wp_ret. split; [done|]. exists [], []. split_ands; [done|by rewrite app_nil_r|by left]. }
  rewrite mount_point_line by done. cbv zeta. set (full := _ =? mcap).
  apply wp_bind. apply (wp_mono _ (fun ok w1 => (Quiet w1 /\ going w w1) /\ (ok = false -> exists k, (calls w <= k < calls w1)%nat /\ os_alloc k = false))).
  { assert (downM (if full then call os_alloc else mret true)) as Hd by down_tac. specialize (Hd w HQ Hs). unfold wp, call in *.
    destruct full; simpl in *; (split; [done|]); [|done]. intros Ha. exists (calls w). split; [lia|done]. }
  intros ok w1 [[HQ1 G1] Ha]. assert (shutting_down w1 = true) as Hs1 by (by rewrite (kp_shut _ _ G1)). destruct ok; cbn [negb].
  - eapply wp_mono; [by apply IH|]. intros r w2 [[HQ2 G2] (ms1 & ms2 & -> & -> & Hm2)]. split; [split; [done|by etrans]|].
    exists (m :: ms1), ms2. split; [done|]. split; [by rewrite fmap_cons, <- app_assoc|]. destruct Hm2 as [|(k & Hk & Hka)]; [by left|right].
    exists k. pose proof (kp_calls _ _ G1). simpl in *. split; [lia|done].
  - assert (downM (log_warn (bs "shutdown: out of memory listing mounts"))) as Hd by down_tac.
    apply wp_bind. eapply wp_mono; [by apply Hd|]. intros [] w2 [HQ2 G2]. apply wp_ret. split; [split; [done|by etrans]|].
    exists [], (m :: ms). split; [done|]. split; [by rewrite app_nil_r|]. right. destruct (Ha eq_refl) as (k & Hk & Hka). exists k.
    pose proof (kp_calls _ _ G2). simpl in *. split; [lia|done].
Qed.

(** The mount points a shutdown works on are the mounted ones: the table
    the kernel wrote, in which it escapes the spaces, tabs, newlines and
    backslashes of paths, reads back as the paths themselves, in order, all of
    them unless the memory for the list ran out. *)
Theorem mounts_read_back ms w : Quiet w -> shutting_down w = true -> Forall mount_ok ms ->
  wp (list_mounts (text_lines (cut0 (mount_table ms))) 0 []) (fun r w' =>
    exists ms1 ms2, ms = ms1 ++ ms2 /\ r = mnt_point <$> ms1 /\
      (ms2 = [] \/ exists k, (calls w <= k < calls w')%nat /\ os_alloc k = false)) w.
Proof.
  intros HQ Hs Hok. rewrite mount_table_lines by done. eapply wp_mono; [by apply list_mounts_spec|].
  intros r w' [_ H]. exact H.
Qed.

(** *** Every one of them *)

(** The world of the shutdown that began at [w0], with the steps since. *)
Definition shut (w0 w : world) : Prop := Quiet w /\ shutting_down w = true /\ going w0 w.

Definition since (w0 w : world) (e : event) : Prop := exists l, trace w = l ++ trace w0 /\ e ∈ l.

Lemma since_going w0 w w' e : since w0 w e -> going w w' -> since w0 w' e.
Proof.
  intros (l & El & He) G. destruct (kp_trace _ _ G) as (k & Ek & _). simpl in Ek. exists (k ++ l).
  rewrite Ek, El, app_assoc. split; [done|]. apply elem_of_app. by right.
Qed.

Lemma shut_down {A} (m : M A) w0 w : downM m -> shut w0 w -> wp m (fun _ w' => shut w0 w' /\ going w w') w.
Proof.
  intros Hm (HQ & Hs & G). eapply wp_mono; [by apply Hm|]. intros a w' [HQ' G']. split; [|done].
  split; [done|]. split; [by rewrite (kp_shut _ _ G')|by etrans].
Qed.

Lemma wp_and {A} (m : M A) (P Q : A -> world -> Prop) w : wp m P w -> wp m Q w -> wp m (fun a w' => P a w' /\ Q a w') w.
Proof. unfold wp. by destruct (m w). Qed.

Lemma act_spec what arg w0 w : shut w0 w ->
  wp (act what arg) (fun e w' => (shut w0 w' /\ going w w') /\ since w0 w' (EvAct what arg (is_ok e))) w.
Proof.
  intros HS. apply wp_and; [by apply shut_down, HS; apply act_down|]. destruct HS as (_ & _ & G).
  destruct (kp_trace _ _ G) as (k & Ek & _). simpl in Ek. unfold act, emit, is_ok.
  apply wp_bind, wp_call, wp_bind, wp_modify, wp_ret. eexists (_ :: k). simpl. rewrite Ek. split; [done|by left].
Qed.

(** What one mount point may come to: nothing more is to be done, the last has
    been tried, or another step has to. *)
Definition dealt (w0 : world) (mp : bytes) (w : world) : Prop :=
  since w0 w (EvAct (bs "remount-ro") mp true) \/ since w0 w (EvAct (bs "umount") mp true) \/
  exists b, since w0 w (EvAct (bs "detach") mp b).

Lemma dealt_going w0 mp w w' : dealt w0 mp w -> going w w' -> dealt w0 mp w'.
Proof.
  intros [H|[H|(b & H)]] G; [left|right; left|right; right; exists b]; by eapply since_going.
Qed.

(** A mount point after a sweep: it has been dealt with and is gone, or it is
    the root, or it counts as stuck and [K] holds of it. *)
Definition swept (w0 : world) (K : bytes -> world -> Prop) (n : Z) (w : world) (o o' : option bytes) : Prop :=
  match o with
  | None => o' = None
  | Some mp => (o' = None /\ dealt w0 mp w) \/ (o' = Some mp /\ (mp = ROOT \/ (0 < n /\ K mp w)))
  end.

Definition steps_to (w0 : world) (K : bytes -> world -> Prop) (step : bytes -> M (option bool)) : Prop :=
  forall mp w, shut w0 w -> wp (step mp) (fun d w' => (shut w0 w' /\ going w w') /\
    match d with None => mp = ROOT | Some true => dealt w0 mp w' | Some false => K mp w' end) w.

Lemma swept_going w0 (K : bytes -> world -> Prop) n n' w w' o o' : (forall mp, K mp w -> K mp w') -> n <= n' -> going w w' ->
  swept w0 K n w o o' -> swept w0 K n' w' o o'.
Proof.
  intros HK Hn G. destruct o as [mp|]; [|done]. intros [[-> H]|[-> [->|[Hp H]]]].
  - left. split; [done|by eapply dealt_going].
  - right. auto.
  - right. split; [done|]. right. split; [lia|auto].
Qed.

Lemma sweep_spec step w0 (K : bytes -> world -> Prop) mps w : (forall mp w w', K mp w -> going w w' -> K mp w') ->
  steps_to w0 K step -> shut w0 w ->
  wp (sweep step mps) (fun r w' => (shut w0 w' /\ going w w') /\ Forall2 (swept w0 K r.2 w') mps r.1 /\ 0 <= r.2) w.
Proof.
  intros HK Hstep HS. induction mps as [|o mps IH]; cbn [sweep].
  { apply wp_ret. split; [done|]. by split. }
  apply wp_bind. eapply wp_mono; [exact IH|]. intros [l n] w1 [[HS1 G1] [HF Hn]]. simpl in *. destruct o as [mp|].
  - apply wp_bind. eapply wp_mono; [by apply Hstep|]. intros d w2 [[HS2 G2] Hd]. apply wp_ret.
    assert (forall n', n <= n' -> Forall2 (swept w0 K n' w2) mps l) as HF'.
    { intros n' Hn'. eapply Forall2_impl; [exact HF|]. intros o o' Ho. eapply swept_going; [|exact Hn'|done|done]. intros mp' Hk. by eapply HK. }
    assert (going w w2) as G by (by etrans).
    destruct d as [[]|]; simpl; (split; [done|split; [|lia]]); (constructor; [|apply HF'; lia]); simpl.
    + by left.
    + right. split; [done|]. right. split; [lia|done].
    + right. auto.
  - apply wp_ret. split; [done|]. split; [|done]. by constructor.
Qed.

Lemma try_ro_steps w0 : steps_to w0 (fun _ _ => True) try_ro.
Proof.
  intros mp w HS. unfold try_ro. apply wp_bind. eapply wp_mono; [by apply act_spec|]. intros e w1 [H1 H2]. apply wp_ret.
  split; [done|]. destruct (is_ok e); [by left|done].
Qed.

Lemma when_warn_step (b : bool) text w0 w : shut w0 w -> wp (when b (log_warn text)) (fun _ w' => shut w0 w' /\ going w w') w.
Proof. intros HS. apply shut_down; [|done]. down_tac. Qed.

Lemma try_unmount_steps w0 : steps_to w0 (fun _ _ => True) try_unmount.
Proof.
  intros mp w HS. unfold try_unmount. destruct (decide (mp = ROOT)) as [->|]; [by apply wp_ret|].
  apply wp_bind. eapply wp_mono; [by apply act_spec|]. intros e w1 [[H1 G1] H2].
  apply wp_bind. eapply wp_mono; [by apply when_warn_step|]. intros [] w2 [HS2 G2]. apply wp_ret.
  split; [split; [done|by etrans]|]. destruct (is_ok e); [|done]. right. left. by eapply since_going.
Qed.

Lemma try_again_steps w0 : steps_to w0 (dealt w0) try_again.
Proof.
  intros mp w HS. unfold try_again. destruct (decide (mp = ROOT)) as [->|]; [by apply wp_ret|].
  apply wp_bind. eapply wp_mono; [by apply act_spec|]. intros e w1 [[H1 G1] H2]. destruct (is_ok e).
  { apply wp_bind. eapply wp_mono; [apply (when_warn_step true); done|]. intros [] w2 [HS2 G2]. apply wp_ret.
    split; [split; [done|by etrans]|]. left. by eapply since_going. }
  apply wp_bind. eapply wp_mono; [by apply act_spec|]. intros e2 w2 [[H3 G3] H4]. destruct (is_ok e2).
  { apply wp_bind. eapply wp_mono; [apply (when_warn_step true); done|]. intros [] w3 [HS3 G4]. apply wp_ret.
    split; [split; [done|etrans; [done|by etrans]]|]. right. left. by eapply since_going. }
  apply wp_bind. eapply wp_mono; [apply shut_down; [apply downM_tame; [tame_tac|kept_tac]|done]|]. intros [] w3 [HS3 G4].
  apply wp_bind. eapply wp_mono; [by apply act_spec|]. intros e3 w4 [[HS4 G5] H6].
  apply wp_bind. eapply wp_mono; [by apply when_warn_step|]. intros [] w5 [HS5 G6]. apply wp_ret.
  split; [split; [done|do 4 (etrans; [done|]); done]|]. right. right. exists (is_ok e3). by eapply since_going.
Qed.

(** The mount points that are left of [mps]. *)
Definition left_of (w0 w : world) (mps l : list (option bytes)) : Prop :=
  forall k mp, mps !! k = Some (Some mp) -> dealt w0 mp w \/ l !! k = Some (Some mp).

Lemma swept_left w0 K n w w' mps l l' : left_of w0 w mps l -> going w w' -> Forall2 (swept w0 K n w') l l' -> left_of w0 w' mps l'.
Proof.
  intros HL G HF k mp Hk. destruct (HL k mp Hk) as [Ht|Hl]; [left; by eapply dealt_going|].
  destruct (Forall2_lookup_l _ _ _ _ _ HF Hl) as (o' & Ho' & [[-> Ht]|[-> _]]); auto.
Qed.

Lemma ro_passes_spec n w0 mps l w : shut w0 w -> left_of w0 w mps l ->
  wp (ro_passes n l) (fun l' w' => (shut w0 w' /\ going w w') /\ left_of w0 w' mps l') w.
Proof.
  revert l w. induction n as [|n IH]; intros l w HS HL; cbn [ro_passes]; [by apply wp_ret|].
  apply wp_bind. eapply wp_mono; [apply (sweep_spec _ w0 (fun _ _ => True)); [done|apply try_ro_steps|done]|].
  intros [l1 c] w1 [[HS1 G1] [HF _]]. simpl in *. assert (left_of w0 w1 mps l1) as HL1 by (by eapply swept_left).
  destruct (c =? 0); [by apply wp_ret|]. eapply wp_mono; [by apply IH|]. intros l2 w2 [[HS2 G2] HL2].
  split; [split; [done|by etrans]|done].
Qed.

(** The root is remounted in the end. *)
Lemma root_passes_spec n w0 w : shut w0 w -> (0 < n)%nat ->
  wp (root_passes n) (fun _ w' => (shut w0 w' /\ going w w') /\ exists b, since w0 w' (EvAct (bs "remount-ro") ROOT b)) w.
Proof.
  intros HS Hn. destruct n as [|n]; [lia|]. cbn [root_passes].
  apply wp_bind. eapply wp_mono; [by apply act_spec|]. intros e w1 [[HS1 G1] H1].
  destruct (is_ok e); [apply wp_ret; eauto|].
  assert (downM (when (n =? 0)%nat (log_err (bs "shutdown: /: remount read-only failed: " ++ err_text e)))) as Hd by down_tac.
  apply wp_bind. eapply wp_mono; [by apply shut_down|]. intros [] w2 [HS2 G2].
  eapply wp_mono; [apply shut_down; [apply root_passes_down|done]|]. intros [] w3 [HS3 G3].
  split; [split; [done|do 2 (etrans; [done|]); done]|]. exists false. eapply since_going; [by eapply since_going|done].
Qed.

(** All that is mounted, once the table has been read. *)
Lemma remount_list_spec w0 mps w : shut w0 w ->
  wp (mps ← ro_passes RO_PASSES (Some <$> mps);
      r ← sweep try_unmount mps;
      when (negb (r.2 =? 0)) (sync;; sweep try_again r.1;; mret tt);;
      root_passes RO_PASSES)
    (fun _ w' => forall mp, mp ∈ mps -> dealt w0 mp w' \/ (mp = ROOT /\ exists b, since w0 w' (EvAct (bs "remount-ro") mp b))) w.
Proof.
  intros HS. apply wp_bind. eapply wp_mono; [apply (ro_passes_spec _ w0 (Some <$> mps)); [done|]|].
  { intros k mp Hk. by right. }
  intros l1 w1 [[HS1 G1] HL1]. apply wp_bind. eapply wp_mono; [apply (sweep_spec _ w0 (fun _ _ => True)); [done|apply try_unmount_steps|done]|].
  intros [l2 c] w2 [[HS2 G2] [HF2 Hc]]. cbn [fst snd] in *. assert (left_of w0 w2 (Some <$> mps) l2) as HL2 by (by eapply swept_left).
  set (done_ := fun w' mp => dealt w0 mp w' \/ mp = ROOT).
  apply wp_bind. apply (wp_mono _ (fun _ w3 => (shut w0 w3 /\ going w2 w3) /\ forall mp, mp ∈ mps -> done_ w3 mp)).
  - destruct (Z.eqb_spec c 0) as [->|Hne]; cbn [negb when].
    + apply wp_ret. split; [done|]. intros mp [k Hk]%list_elem_of_lookup_1. assert ((Some <$> mps) !! k = Some (Some mp)) as Hk' by (by rewrite list_lookup_fmap, Hk).
      destruct (HL1 k mp Hk') as [Ht|Hl1]; [left; by eapply dealt_going|].
      destruct (Forall2_lookup_l _ _ _ _ _ HF2 Hl1) as (o' & _ & [[_ Ht]|[_ [->|[Hlt _]]]]); [by left|by right|lia].
    + apply wp_bind. eapply wp_mono; [apply shut_down; [apply sync_down|done]|]. intros [] w3 [HS3 G3].
      apply wp_bind. eapply wp_mono; [apply (sweep_spec _ w0 (dealt w0)); [|apply try_again_steps|done]|].
      { intros mp v v' Ht G. by eapply dealt_going. }
      intros [l4 c4] w4 [[HS4 G4] [HF4 _]]. apply wp_ret. split; [split; [done|by etrans]|].
      intros mp [k Hk]%list_elem_of_lookup_1. assert ((Some <$> mps) !! k = Some (Some mp)) as Hk' by (by rewrite list_lookup_fmap, Hk).
      destruct (HL2 k mp Hk') as [Ht|Hl2]; [left; eapply dealt_going; [by eapply dealt_going|done]|].
      destruct (Forall2_lookup_l _ _ _ _ _ HF4 Hl2) as (o' & _ & [[_ Ht]|[_ [->|[_ Ht]]]]); [by left|by right|by left].
  - intros [] w3 [[HS3 G3] Hd]. eapply wp_mono; [apply root_passes_spec; [done|unfold RO_PASSES; lia]|].
    intros [] w4 [[HS4 G4] (b & Hb)] mp Hmp. destruct (Hd mp Hmp) as [Ht| ->]; [left; by eapply dealt_going|right; eauto].
Qed.

End Spec.
