(* ===== verification/Frame.v ===== *)
(** * What the handlers leave alone

    Only the operations of an operator touch the control connections and the
    operation a service is in: every handler of src/ below src/command.c keeps
    both. *)

From stdpp Require Import gmap.
From S2P Require Import Prelude Ngraph PidMap Ring Log Console Repeat Logged World Sys Inv Live Cgroup Fail Emerg Output State Spawn Release Reap.

(** The connections and the operations are the same. *)
Definition same (w w' : world) : Prop := conns w' = conns w /\ ctl_lfd w' = ctl_lfd w /\ (op <$> runs w') = (op <$> runs w).

#[export] Instance same_refl : Reflexive same.
Proof. done. Qed.

#[export] Instance same_trans : Transitive same.
Proof. intros w1 w2 w3 (A1 & A2 & A3) (B1 & B2 & B3). unfold same. split_ands; congruence. Qed.

(** A handler every run of which that returns is such a step. *)
Definition frameM {A} (m : M A) : Prop := forall w, match m w with Ok _ w' => same w w' | _ => True end.

Lemma frameM_ret {A} (a : A) : frameM (mret a).
Proof. intros w. simpl. reflexivity. Qed.

Lemma frameM_bind {A B} (m : M A) (f : A -> M B) : frameM m -> (forall a, frameM (f a)) -> frameM (m ≫= f).
Proof.
  intros Hm Hf w. unfold mbind, M_bind. specialize (Hm w). destruct (m w) as [a w1| | |]; try done.
  specialize (Hf a w1). destruct (f a w1); try done. by etrans.
Qed.

Lemma frameM_modify f : (forall w, same w (f w)) -> frameM (modify f).
Proof. intros Hf w. apply Hf. Qed.

Lemma frameM_lift {A} (o : option A) : frameM (lift o).
Proof. by destruct o. Qed.

Lemma frameM_store {A} (l : list A) i v : frameM (store l i v).
Proof. unfold store. by destruct (decide _). Qed.

Lemma frameM_rd {A} (f : world -> list A) i : frameM (rd f i).
Proof. apply frameM_bind; [done|intros l; apply frameM_lift]. Qed.

Lemma frameM_when (b : bool) m : frameM m -> frameM (when b m).
Proof. by destruct b. Qed.

Lemma frameM_mfor n k body : (forall i, frameM (body i)) -> frameM (mfor n k body).
Proof. intros Hb. revert k. induction n as [|n IH]; intros k; simpl; [done|by apply frameM_bind]. Qed.

Lemma frameM_miter {A} (l : list A) body : (forall x, frameM (body x)) -> frameM (miter l body).
Proof. intros Hb. induction l as [|x l IH]; simpl; [done|by apply frameM_bind]. Qed.

Lemma frameM_run_log `{Env} {A} (m : LM A) : frameM (run_log m).
Proof. intros w. unfold run_log. by destruct (m _) as [[a L]| | |]. Qed.

Lemma frameM_mod_run i f : (forall r, op (f r) = op r) -> frameM (mod_run i f).
Proof.
  intros Hf w. unfold mod_run, run_of, rd, gets, lift, mbind, M_bind. destruct (runs w !! i) as [r|] eqn:Hr; [|done].
  split; [done|]. split; [done|]. change (op <$> <[i := f r]> (runs w) = op <$> runs w). rewrite list_fmap_insert, Hf. apply list_insert_id. by rewrite list_lookup_fmap, Hr.
Qed.

Create HintDb frame.

Ltac head_of t := match t with ?f _ => head_of f | _ => t end.

(** The handlers are unfolded down to the steps that write. *)
Ltac frame_step :=
  match goal with
  | |- frameM (mret _) => apply frameM_ret
  | |- frameM fault => done
  | |- frameM nofuel => done
  | |- frameM (gets _) => done
  | |- frameM (call _) => done
  | |- frameM (_ ≫= _) => apply frameM_bind; [|intros ?]
  | |- frameM (lift _) => apply frameM_lift
  | |- frameM (rd _ _) => apply frameM_rd
  | |- frameM (store _ _ _) => apply frameM_store
  | |- frameM (when _ _) => apply frameM_when
  | |- frameM (mfor _ _ _) => apply frameM_mfor; intros ?
  | |- frameM (miter _ _) => apply frameM_miter; intros ?
  | |- frameM (run_log _) => apply frameM_run_log
  | |- frameM (mod_run _ _) => apply frameM_mod_run; done
  | |- frameM (modify _) => apply frameM_modify; done
  | |- frameM (if ?b then _ else _) => destruct b
  | |- frameM (match ?x with _ => _ end) => destruct x
  | |- frameM _ => solve [eauto with frame nocore]
  | |- frameM ?m => let h := head_of m in unfold h
  end.

Ltac frame_tac := repeat (cbv beta zeta; frame_step).

Section Handlers.
Context `{Env}.

Lemma scan_pid_frame n k p : frameM (scan_pid n k p).
Proof. revert k. induction n as [|n IH]; intros k; cbn [scan_pid]; frame_tac. Qed.
Hint Resolve scan_pid_frame : frame.

Lemma live_loop_frame fuel k body : (forall i, frameM (body i)) -> frameM (live_loop fuel k body).
Proof. intros Hb. revert k. induction fuel as [|fuel IH]; intros k; cbn [live_loop]; frame_tac. Qed.

Lemma signal_pids_frame ls sig n : frameM (signal_pids ls sig n).
Proof. revert n. induction ls as [|l ls IH]; intros n; cbn [signal_pids]; frame_tac. Qed.
Hint Resolve signal_pids_frame : frame.

Lemma signal_chunks_frame fuel fd sig held n : frameM (signal_chunks fuel fd sig held n).
Proof. revert held n. induction fuel as [|fuel IH]; intros held n; cbn [signal_chunks]; frame_tac. Qed.
Hint Resolve signal_chunks_frame : frame.

Lemma log_lines_frame level ls : frameM (log_lines level ls).
Proof. induction ls as [|l ls IH]; cbn [log_lines]; frame_tac. Qed.
Hint Resolve log_lines_frame : frame.

Lemma put_seg_frame fuel i seg : frameM (put_seg fuel i seg).
Proof. revert seg. induction fuel as [|fuel IH]; intros seg; cbn [put_seg]; frame_tac. Qed.
Hint Resolve put_seg_frame : frame.

Lemma absorb_lines_frame i ls : frameM (absorb_lines i ls).
Proof. induction ls as [|l ls IH]; cbn [absorb_lines]; frame_tac. Qed.
Hint Resolve absorb_lines_frame : frame.

Lemma drain_out_frame i chunks b : frameM (drain_out i chunks b).
Proof. induction chunks as [|c IH]; cbn [drain_out]; frame_tac. Qed.
Hint Resolve drain_out_frame : frame.

Lemma reclaim_deps_frame rt ds : frameM (reclaim_deps rt ds).
Proof. revert rt. induction ds as [|d ds IH]; intros rt; cbn [reclaim_deps]; frame_tac. Qed.
Hint Resolve reclaim_deps_frame : frame.

Lemma reclaim_loop_frame fuel rh rt : frameM (reclaim_loop fuel rh rt).
Proof. revert rh rt. induction fuel as [|fuel IH]; intros rh rt; cbn [reclaim_loop]; frame_tac. Qed.
Hint Resolve reclaim_loop_frame : frame.

Lemma skipped_note_frame i p : frameM (skipped_note i p).
Proof. unfold skipped_note. frame_tac. all: apply live_loop_frame; intros; frame_tac. Qed.
Hint Resolve skipped_note_frame : frame.

Lemma release_loop_frame fuel : (forall d, frameM (release_dep d)) -> frameM (release_loop fuel).
Proof. intros Hd. induction fuel as [|fuel IH]; cbn [release_loop]; frame_tac. Qed.

Lemma spawn_frame i : frameM (spawn i).
Proof. frame_tac. Qed.
Hint Resolve spawn_frame : frame.

Lemma svc_release_frame i : frameM (svc_release i).
Proof. unfold svc_release. frame_tac. all: apply release_loop_frame; intros; frame_tac. Qed.
Hint Resolve svc_release_frame : frame.

Lemma drain_notify_frame i chunks : frameM (drain_notify i chunks).
Proof. induction chunks as [|c IH]; cbn [drain_notify]; frame_tac. Qed.
Hint Resolve drain_notify_frame : frame.

Lemma drain_exec_frame fuel i : frameM (drain_exec fuel i).
Proof. induction fuel as [|fuel IH]; cbn [drain_exec]; frame_tac. Qed.
Hint Resolve drain_exec_frame : frame.

Lemma read_intr_frame fuel fd cap : frameM (read_intr fuel fd cap).
Proof. induction fuel as [|fuel IH]; cbn [read_intr]; frame_tac. Qed.
Hint Resolve read_intr_frame : frame.

Lemma wait_call_frame : frameM wait_call.
Proof. done. Qed.
Hint Resolve wait_call_frame : frame.

Lemma reap_loop_frame fuel : frameM (reap_loop fuel).
Proof. induction fuel as [|fuel IH]; cbn [reap_loop]; frame_tac. Qed.
Hint Resolve reap_loop_frame : frame.

Lemma reap_frame : frameM reap.
Proof. frame_tac. Qed.

Lemma fail_report_frame : frameM fail_emergency_report.
Proof. frame_tac. Qed.

Lemma fail_tick_frame : frameM fail_emergency_tick.
Proof. frame_tac. Qed.

Lemma fire_restarts_frame fuel : frameM (fire_restarts fuel).
Proof. frame_tac. all: apply live_loop_frame; intros; frame_tac. Qed.

Lemma svc_can_start_frame i : frameM (svc_can_start i).
Proof. frame_tac. Qed.

End Handlers.

#[export] Hint Resolve scan_pid_frame signal_pids_frame signal_chunks_frame log_lines_frame put_seg_frame absorb_lines_frame
  drain_out_frame reclaim_deps_frame reclaim_loop_frame skipped_note_frame spawn_frame svc_release_frame drain_notify_frame
  drain_exec_frame read_intr_frame reap_frame fail_report_frame fail_tick_frame fire_restarts_frame svc_can_start_frame : frame.
