(* ===== verification/Command.v ===== *)
(** * Operations an operator asks for (src/command.c, src/control.c)

    Starting, stopping and restarting a service, and resuming after failures.
    An operation takes many turns of the event loop; [ctl_tick] moves it on and
    tells the connections that wait for it how it ended. *)

From S2P Require Import Prelude Ngraph PidMap World Sys Inv Live Cgroup Fail Emerg Output State Spawn Release Reap.

Definition CTL_BUF : Z := 1024.
Definition CTL_OUT : Z := 8192.
Definition CTL_MAX : nat := 8.

Definition NCTL_DATA : bytes := bs ". ".
Definition NCTL_OK : bytes := bs "+ ".
Definition NCTL_ERR : bytes := bs "- ".

(** [vsnprintf] into what is left of the output buffer. *)
Definition ctl_out (text : bytes) (c : conn) : conn :=
  let out_len := zlen (c_out c) in
  if c_done c || (CTL_OUT - 128 <=? out_len) then c else
  set_c_out (c_out c ++ take (Z.to_nat (CTL_OUT - out_len - 1)) text) c.

(** The end of a reply. *)
Definition ctl_end (ok : bool) (text : bytes) (c : conn) : conn :=
  if c_done c then c else
  let buf := take (Z.to_nat (CTL_BUF - 1)) text in
  let c := set_c_svc None (set_listing 0 c) in
  set_c_done true (ctl_out ((if ok then NCTL_OK else NCTL_ERR) ++ buf ++ [10]) c).

Section Ops.
Context `{Env}.

Definition state_name (i : nat) : M bytes :=
  s ← st_of i;
  match s with
  | PENDING => mret (bs "pending")
  | RUNNING => mret (bs "starting")
  | DONE => u ← up_of i; mret (if (u : bool) then bs "up" else bs "down")
  | FAILED => mret (bs "failed")
  | SKIPPED => mret (bs "skipped")
  end.

(** The index of the service with this name. *)
Fixpoint find_name (names : list bytes) (nm : bytes) (i : nat) : option nat :=
  match names with
  | [] => None
  | x :: l => if bytes_eqb x nm then Some i else find_name l nm (S i)
  end.

Definition ctl_find (nm : bytes) : option nat := find_name (g_name env_g) nm 0.

Definition svc_op_set (i : nat) (o : svc_op) (at_ : Z) : M unit :=
  r ← run_of i;
  (if eqb (bool_decide (op r = OP_NONE)) (bool_decide (o = OP_NONE)) then mret tt
   else modify (fun w => set_n_ops (u32 (if decide (o = OP_NONE) then n_ops w - 1 else n_ops w + 1)) w));;
  mod_run i (fun r => set_op_at at_ (set_op o r)).

(** Every connection that watches this service learns how its operation ended. *)
Definition tell (i : nat) (ok : bool) (text : bytes) (c : conn) : conn :=
  if decide (c_svc c = Some i) then ctl_end ok text c else c.

Definition svc_op_done (i : nat) (ok : bool) (msg : bytes) : M unit :=
  svc_op_set i OP_NONE 0;;
  mod_run i (set_op_restart false);;
  nm ← name_of i;
  modify (fun w => set_conns (tell i ok (nm ++ bs " " ++ msg) <$> conns w) w);;
  maybe_free i.

Definition svc_op_start (i : nat) : M unit :=
  set_want_at i false;;
  why ← svc_can_start i;
  match why with
  | Some msg =>
      sd ← gets shutting_down;
      r ← run_of i;
      when (negb sd && (pid r <=? 0) && (stale_pid r =? 0))
        (mod_run i (fun r => set_restart_at 0 (set_burst 0 (set_attempt 0 r)));;
         go_down i;;
         svc_mark_pending i);;
      svc_op_done i false msg
  | None =>
      mod_run i (fun r => set_op_restart false (set_restart_at 0 (set_burst 0 (set_attempt 0 r))));;
      svc_mark_pending i;;
      ensure_live i;;
      now ← now_ms;
      sm ← lift (ng_start_ms env_g i);
      svc_op_set i OP_START (now + sm + KILL_GRACE_MS);;
      spawn i
  end.

Definition svc_op_stop (i : nat) (restart : bool) : M unit :=
  set_want_at i true;;
  mod_run i (fun r => set_op_restart restart (set_restart_at 0 r));;
  ensure_live i;;
  gone ← svc_gone i;
  if (gone : bool) then
    if restart then svc_op_start i
    else go_down i;; svc_op_done i true (bs "already stopped")
  else
  signal_group i SIGTERM;;
  now ← now_ms;
  sm ← lift (ng_stop_ms env_g i);
  svc_op_set i OP_TERM (now + sm).

(** One service of [ctl_tick]. *)
Definition tick_one (now : Z) (i : nat) : M unit :=
  gone ← svc_gone i;
  r ← run_of i;
  when ((gone : bool) && (bool_decide (op r = OP_TERM) || bool_decide (op r = OP_KILL))) (go_down i);;
  match op r with
  | OP_TERM =>
      if (gone : bool) then
        if op_restart r then svc_op_start i else svc_op_done i true (bs "stopped")
      else if now <? op_at r then mret tt else
      nm ← name_of i;
      sm ← lift (ng_stop_ms env_g i);
      log_warn (nm ++ bs ": still running " ++ dec sm ++ bs " ms after SIGTERM, killing it");;
      signal_group i SIGKILL;;
      svc_op_set i OP_KILL (now + KILL_GRACE_MS)
  | OP_KILL =>
      if (gone : bool) then
        if op_restart r then svc_op_start i else svc_op_done i true (bs "stopped after SIGKILL")
      else when (op_at r <=? now) (svc_op_done i false (bs "did not stop after SIGKILL"))
  | OP_START =>
      s ← st_of i;
      u ← up_of i;
      if bool_decide (s = DONE) && (u : bool) then svc_op_done i true (bs "up") else
      if decide (s = FAILED \/ s = SKIPPED) then nm ← state_name i; svc_op_done i false nm else
      when (op_at r <=? now) (svc_op_done i false (bs "start timed out"))
  | OP_NONE => mret tt
  end.

Definition ctl_tick (fuel : nat) : M unit :=
  n ← gets n_ops;
  if n =? 0 then mret tt else
  now ← now_ms;
  live_loop fuel 0 (tick_one now).

(** [state[i] = NG_ST_PENDING] for a failed or skipped service. *)
Definition resume_reset (i : nat) : M Z :=
  s ← st_of i;
  if decide (s = FAILED \/ s = SKIPPED) then
    set_state_at i PENDING;;
    mod_run i (fun r => set_burst 0 (set_attempt 0 r));;
    mod_ctr inc_pending;;
    mret 1
  else mret 0.

Definition resume_start (i : nat) : M Z :=
  s ← st_of i;
  if negb (bool_decide (s = PENDING)) then mret 0 else
  t ← lift (is_target env_g i);
  if (t : bool) then
    u ← unmet_of i;
    wn ← want_of i;
    when ((u =? 0) && negb wn) (complete i);;
    mret 0
  else
  ok ← svc_try_start i; mret (b2z ok).

(** The sum of what the body returns. *)
Fixpoint msum (l : list nat) (body : nat -> M Z) : M Z :=
  match l with
  | [] => mret 0
  | x :: l' => a ← body x; b ← msum l' body; mret (a + b)
  end.

Definition ctl_resume (k : nat) : M unit :=
  reset ← msum (seq 0 n_svc) resume_reset;
  if reset =? 0 then modify (fun w => set_conns (alter (ctl_end true (bs "nothing to resume")) k (conns w)) w) else
  started ← msum (seq 0 n_svc) resume_start;
  let text := bs "resuming " ++ dec reset ++ bs " service" ++ plural reset ++ bs ", " ++ dec started
              ++ bs " started" in
  log_note (bs "control: " ++ text);;
  modify (fun w => set_conns (alter (ctl_end true text) k (conns w)) w).

End Ops.

(** ** Every operation keeps the invariant *)

Section Spec.
Context `{E : Env} `{!EnvOk E}.

Lemma n_ops_range x w : side x w -> 0 <= n_ops w <= 8192.
Proof.
  intros HS. rewrite (sd_ops _ _ HS). pose proof (cnt_range op_b (runs w)). rewrite (sd_runs _ _ HS) in *.
  pose proof n_svc_bound. lia.
Qed.

(** Every service keeps the processes it had. *)
Definition keeps_pids (w w' : world) : Prop :=
  forall j r, runs w !! j = Some r -> exists r', runs w' !! j = Some r' /\ pid r' = pid r /\ stale_pid r' = stale_pid r.

(** An operation is recorded; the service is on the live list while it lasts. *)
Lemma svc_op_set_spec i o at_ w : side None w -> (i < n_svc)%nat ->
  (o <> OP_NONE -> i ∈ lset (w_lv w) \/ exists r, runs w !! i = Some r /\ op r <> OP_NONE) ->
  wp (svc_op_set i o at_) (fun _ w' => calm w w' /\ keeps_pids w w') w.
Proof.
  intros HS Hi Ho. unfold svc_op_set. destruct (side_run _ w i HS Hi) as [r Hr].
  pose proof (n_ops_range _ _ HS) as Hrange. pose proof (sd_svc _ _ HS i r Hr) as Hok.
  set (r' := set_op_at at_ (set_op o r)).
  assert (0 < n_ops w \/ op_b r = false) as Hpos.
  { destruct (op_b r) eqn:Hb; [left|by right]. rewrite (sd_ops _ _ HS). by apply (cnt_pos _ _ i r Hr). }
  assert (svc_ok r' (i ∈ lset (w_lv w) \/ None = Some i)) as Hok'.
  { destruct Hok as [H1 H2 H3 H4 H5 H6]. constructor; simpl; auto. intros Hb. unfold busy in Hb. simpl in Hb.
    destruct (decide (o = OP_NONE)) as [->|Hne].
    - apply H4. unfold busy. tauto.
    - destruct (Ho Hne) as [Hin|(r0 & Hr0 & Hop)]; [by left|]. rewrite Hr in Hr0. injection Hr0 as <-.
      apply H4. unfold busy. tauto. }
  assert (forall k, k = n_ops w - b2z (op_b r) + b2z (op_b r') ->
    side None (set_n_ops k (set_runs (<[i:=r']> (runs w)) w))) as HS'.
  { intros k Hk. apply (side_update _ _ i r); try done. apply (pids_keep _ _ _ r); [done..|apply (sd_pids _ _ HS)]. }
  assert (op_b r = negb (bool_decide (op r = OP_NONE))) as Eb by done.
  assert (op_b r' = negb (bool_decide (o = OP_NONE))) as Eb' by done.
  apply wp_bind. eapply wp_rd; [done|]. apply wp_bind.
  apply (wp_mono _ (fun _ w' => w' = set_n_ops (n_ops w - b2z (op_b r) + b2z (op_b r')) w)).
  { rewrite Eb, Eb' in *. destruct (bool_decide (op r = OP_NONE)), (decide (o = OP_NONE)) as [->|Hn]; simpl in *.
    - apply wp_ret. rewrite Z.sub_0_r, Z.add_0_r. by destruct w.
    - rewrite (bool_decide_eq_false_2 (o = OP_NONE)) by done. simpl. apply wp_modify. f_equal.
      rewrite u32_small; lia.
    - apply wp_modify. f_equal. rewrite u32_small; lia || (destruct Hpos; [lia|done]).
    - rewrite (bool_decide_eq_false_2 (o = OP_NONE)) by done. apply wp_ret. simpl.
      replace (n_ops w - 1 + 1) with (n_ops w) by lia. by destruct w. }
  intros [] w1 ->. apply (wp_mod_run _ _ r); [done|]. split; [constructor; try done; apply (HS' _ eq_refl)|].
  intros j rj Hj. simpl. destruct (decide (i = j)) as [<-|].
  - exists r'. rewrite list_lookup_insert_eq by (by apply lookup_lt_Some in Hr).
    rewrite Hr in Hj. injection Hj as <-. done.
  - exists rj. by rewrite list_lookup_insert_ne.
Qed.

Lemma svc_op_done_calm i ok msg : (i < n_svc)%nat -> calmM (svc_op_done i ok msg).
Proof.
  intros Hi. unfold svc_op_done. apply calmM_bind; [|intros _; calm_tac].
  intros w HS. eapply wp_mono; [by apply svc_op_set_spec|]. by intros [] w' [C _].
Qed.

Lemma set_want_quiet i v : (i < n_svc)%nat -> quietM (set_want_at i v).
Proof.
  intros Hi w [[HC HD HS] HQ]. unfold set_want_at. apply wp_bind, wp_gets. apply wp_bind, wp_store.
  { by rewrite (sd_want _ _ HS). }
  apply wp_modify. split; [constructor; [done|done|]|done]. destruct HS. constructor; try done.
  simpl. by rewrite length_insert.
Qed.

Lemma svc_mark_pending_quiet i w : Quiet w -> (i < n_svc)%nat ->
  wp (svc_mark_pending i) (fun _ w' => Quiet w' /\ state (w_ctr w') !! i = Some PENDING /\
    exists c, w' = set_w_ctr c w) w.
Proof.
  intros [[HC HD HS] HQ] Hi. destruct (ctr_state _ i HC Hi) as [s Hs].
  eapply svc_mark_pending_spec; [done|done|]. split; [|split].
  - split; [constructor; [by apply ctr_ok_set|done|destruct HS; by constructor]|done].
  - simpl. apply list_lookup_insert_eq. by apply lookup_lt_Some in Hs.
  - by eexists.
Qed.

(** The service is on the live list afterwards, and nothing else changes. *)
Lemma ensure_live_spec i w : side None w -> (i < n_svc)%nat ->
  wp (ensure_live i) (fun _ w' => calm w w' /\ i ∈ lset (w_lv w') /\ keeps_pids w w') w.
Proof.
  intros HS Hi. unfold ensure_live. apply wp_bind. eapply live_has_spec; [done..|]. intros b Hb.
  apply wp_when; intros Hn.
  - eapply live_add_spec; [done|done| |].
    + intros Hin. apply Hb in Hin. by rewrite Hin in Hn.
    + intros l' rs' Hl HF HS'. rewrite decide_False in HS' by done. split; [by constructor|]. split.
      * simpl. rewrite Hl. apply elem_of_app. right. apply list_elem_of_here.
      * intros j r Hj. destruct (Forall2_lookup_l _ _ _ _ _ HF Hj) as (r' & Hr' & M). exists r'. split; [done|].
        split; [apply (mi_pid _ _ M)|apply (mi_stale _ _ M)].
  - apply negb_false_iff in Hn. split; [by apply calm_refl|]. split; [by apply Hb|]. intros j r Hj. by exists r.
Qed.

Lemma startable_calm w w' i : calm w w' -> keeps_pids w w' -> startable w i -> startable w' i.
Proof.
  intros C HK (H1 & H2 & H3 & r & Hr & Hp & Hst). destruct (HK i r Hr) as (r' & Hr' & E1 & E2).
  split; [by rewrite (cl_shut _ _ C)|]. split; [by rewrite (cl_want _ _ C)|].
  split; [by rewrite (cl_dep _ _ C)|]. exists r'. split; [done|]. by rewrite E1, E2.
Qed.

Lemma svc_op_start_quiet i : (i < n_svc)%nat -> quietM (svc_op_start i).
Proof.
  intros Hi. unfold svc_op_start. apply quietM_bind; [by apply set_want_quiet|]. intros _ w HQ.
  apply wp_bind. eapply svc_can_start_spec; [apply HQ|done|]. intros [why|] Hwhy.
  - refine ((_ : quietM _) w HQ). pose proof (svc_op_done_calm i false why Hi).
    apply quietM_bind; [quiet_tac|intros sd]. apply quietM_bind; [quiet_tac|intros r].
    apply quietM_bind; [|intros _; by apply calmM_quiet]. apply quietM_when; intros _.
    do 2 (apply quietM_bind; [quiet_tac|intros _]). intros w1 HQ1.
    eapply wp_mono; [by apply svc_mark_pending_quiet|]. by intros [] w2 [HQ2 _].
  - specialize (Hwhy eq_refl). destruct (side_run _ w i (quiet_side _ HQ) Hi) as [r Hr].
    apply wp_bind, (mod_run_tame_spec _ _ r); [done|by constructor|]. intros w1 T1 _ _.
    pose proof (calm_quiet _ _ (tame_calm _ _ (quiet_side _ HQ) T1) HQ) as HQ1.
    pose proof (startable_tame _ _ _ T1 Hwhy) as Hst1.
    apply wp_bind. eapply wp_mono; [by apply svc_mark_pending_quiet|]. intros [] w2 (HQ2 & Hs2 & c & Ec).
    assert (startable w2 i) as Hst2 by (by rewrite Ec).
    apply wp_bind. eapply wp_mono; [by apply ensure_live_spec; [apply quiet_side|]|].
    intros [] w3 (C3 & Hin3 & K3). pose proof (calm_quiet _ _ C3 HQ2) as HQ3.
    apply wp_bind. eapply wp_tame; [tame_tac|apply quiet_side, HQ3|]. intros now w4 T4.
    pose proof (calm_quiet _ _ (tame_calm _ _ (quiet_side _ HQ3) T4) HQ3) as HQ4.
    apply wp_bind. eapply wp_tame; [tame_tac|apply quiet_side, HQ4|]. intros sm w5 T5.
    pose proof (calm_quiet _ _ (tame_calm _ _ (quiet_side _ HQ4) T5) HQ4) as HQ5.
    pose proof (tame_trans _ _ _ T4 T5) as T.
    apply wp_bind. eapply wp_mono; [apply svc_op_set_spec; [by apply quiet_side|done|]|].
    { intros _. left. by rewrite (tm_lv _ _ T). }
    intros [] w6 [C6 K6]. pose proof (calm_quiet _ _ C6 HQ5) as HQ6.
    eapply wp_mono; [apply (spawn_spec (fun _ => 0) i PENDING); eauto with quiet|].
    + apply HQ6.
    + apply (startable_calm w5); [done|done|]. apply (startable_tame w3); [done|]. by apply (startable_calm w2).
    + rewrite (cl_ctr _ _ C6), (tm_ctr _ _ T), (cl_ctr _ _ C3). done.
    + intros [] w7 [HI7 HG7]. by apply (grows_quiet i w6).
Qed.

Lemma svc_op_stop_quiet i restart : (i < n_svc)%nat -> quietM (svc_op_stop i restart).
Proof.
  intros Hi. unfold svc_op_stop. pose proof (svc_op_start_quiet i Hi).
  pose proof (svc_op_done_calm i true (bs "already stopped") Hi).
  apply quietM_bind; [by apply set_want_quiet|]. intros _.
  apply quietM_bind; [quiet_tac|]. intros _ w HQ.
  apply wp_bind. eapply wp_mono; [by apply ensure_live_spec; [apply quiet_side|]|].
  intros [] w1 (C1 & Hin & _). pose proof (calm_quiet _ _ C1 HQ) as HQ1.
  apply wp_bind. eapply wp_tame; [by apply svc_gone_tame|apply quiet_side, HQ1|]. intros gone w2 T2.
  pose proof (calm_quiet _ _ (tame_calm _ _ (quiet_side _ HQ1) T2) HQ1) as HQ2.
  destruct gone; [quiet_at|].
  apply wp_bind. eapply wp_tame; [by apply signal_group_tame|apply quiet_side, HQ2|]. intros [] w3 T3.
  pose proof (calm_quiet _ _ (tame_calm _ _ (quiet_side _ HQ2) T3) HQ2) as HQ3.
  apply wp_bind. eapply wp_tame; [tame_tac|apply quiet_side, HQ3|]. intros now w4 T4.
  pose proof (calm_quiet _ _ (tame_calm _ _ (quiet_side _ HQ3) T4) HQ3) as HQ4.
  apply wp_bind. eapply wp_tame; [tame_tac|apply quiet_side, HQ4|]. intros sm w5 T5.
  pose proof (calm_quiet _ _ (tame_calm _ _ (quiet_side _ HQ4) T5) HQ4) as HQ5.
  eapply wp_mono; [apply svc_op_set_spec; [by apply quiet_side|done|]|].
  - intros _. left. by rewrite (tm_lv _ _ T5), (tm_lv _ _ T4), (tm_lv _ _ T3), (tm_lv _ _ T2).
  - intros [] w6 [C6 _]. by apply (calm_quiet w5).
Qed.

(** The kill of a service that does not heed SIGTERM. *)
Lemma op_kill_quiet i now w r : Quiet w -> (i < n_svc)%nat -> runs w !! i = Some r -> op r <> OP_NONE ->
  wp (signal_group i SIGKILL;; svc_op_set i OP_KILL (now + KILL_GRACE_MS)) (fun _ w' => Quiet w') w.
Proof.
  intros HQ Hi Hr Hop. apply wp_bind. eapply wp_tame; [by apply signal_group_tame|apply quiet_side, HQ|].
  intros [] w1 T1. pose proof (calm_quiet _ _ (tame_calm _ _ (quiet_side _ HQ) T1) HQ) as HQ1.
  destruct (tame_run _ _ _ _ T1 Hr) as (r1 & Hr1 & M1).
  eapply wp_mono; [apply svc_op_set_spec; [by apply quiet_side|done|]|].
  - intros _. right. exists r1. split; [done|]. by rewrite (mi_op _ _ M1).
  - intros [] w2 [C2 _]. by apply (calm_quiet w1).
Qed.

Hint Resolve svc_op_start_quiet : quiet.
Hint Resolve svc_op_done_calm : calm.

Lemma state_name_quiet i : (i < n_svc)%nat -> quietM (state_name i).
Proof. intros Hi. unfold state_name. quiet_tac. Qed.

Hint Resolve state_name_quiet : quiet.

Lemma tick_one_quiet now i : (i < n_svc)%nat -> quietM (tick_one now i).
Proof.
  intros Hi. unfold tick_one. intros w HQ. apply wp_bind.
  eapply wp_tame; [by apply svc_gone_tame|apply quiet_side, HQ|]. intros gone w1 T1.
  pose proof (calm_quiet _ _ (tame_calm _ _ (quiet_side _ HQ) T1) HQ) as HQ1.
  destruct (side_run _ w1 i (quiet_side _ HQ1) Hi) as [r Hr]. apply wp_bind. eapply wp_rd; [done|].
  destruct (op r) eqn:Hop; [quiet_at| |quiet_at|quiet_at].
  destruct gone; [quiet_at|]. simpl. apply wp_bind, wp_ret.
  destruct (now <? op_at r); [by apply wp_ret|].
  apply wp_bind. eapply wp_tame; [tame_tac|apply quiet_side, HQ1|]. intros nm w2 T2.
  pose proof (calm_quiet _ _ (tame_calm _ _ (quiet_side _ HQ1) T2) HQ1) as HQ2.
  apply wp_bind. eapply wp_tame; [tame_tac|apply quiet_side, HQ2|]. intros sm w3 T3.
  pose proof (calm_quiet _ _ (tame_calm _ _ (quiet_side _ HQ2) T3) HQ2) as HQ3.
  apply wp_bind. eapply wp_tame; [tame_tac|apply quiet_side, HQ3|]. intros [] w4 T4.
  pose proof (calm_quiet _ _ (tame_calm _ _ (quiet_side _ HQ3) T4) HQ3) as HQ4.
  pose proof (tame_trans _ _ _ T2 (tame_trans _ _ _ T3 T4)) as T.
  destruct (tame_run _ _ _ _ T Hr) as (r4 & Hr4 & M4).
  apply (op_kill_quiet _ _ _ r4); [done|done|done|]. rewrite (mi_op _ _ M4), Hop. done.
Qed.

(** The operations are moved on without losing the invariant. *)
Lemma ctl_tick_safe fuel w : Quiet w -> wlp (ctl_tick fuel) (fun _ w' => Quiet w') w.
Proof.
  intros HQ. unfold ctl_tick. eapply wlp_step; [by apply (tameM_quiet _ (tameM_gets n_ops))|].
  intros n w1 HQ1. destruct (n =? 0); [by apply wp_wlp, wp_ret|].
  eapply wlp_step; [eapply (tameM_quiet now_ms); [tame_tac|done]|]. intros now w2 HQ2.
  apply live_loop_safe; [apply quiet_side| |done]. intros d w3 HQ3 Hd.
  by apply wp_wlp, tick_one_quiet.
Qed.

(** ** Resuming *)

Lemma msum_quiet l body : (forall i, i ∈ l -> quietM (body i)) -> quietM (msum l body).
Proof.
  induction l as [|i l IH]; intros Hb; simpl; [quiet_tac|].
  apply quietM_bind; [apply Hb, list_elem_of_here|]. intros a. apply quietM_bind; [|intros b; quiet_tac].
  apply IH. intros j Hj. by apply Hb, list_elem_of_further.
Qed.

Lemma resume_reset_quiet i : (i < n_svc)%nat -> quietM (resume_reset i).
Proof.
  intros Hi. unfold resume_reset. apply quietM_st; [done|]. intros s w HQ Hs.
  destruct (decide _) as [Hor|]; [|by apply wp_ret]. destruct HQ as [[HC HD HS] HQ].
  apply wp_bind. eapply wp_set_state; [reflexivity|by apply lookup_lt_Some in Hs|].
  destruct (side_run _ w i HS Hi) as [r Hr]. apply wp_bind, (wp_mod_run _ _ r); [done|].
  apply wp_bind, wp_modify. apply wp_ret. simpl.
  assert (tame w (set_runs (<[i:=set_burst 0 (set_attempt 0 r)]> (runs w)) w)) as T.
  { constructor; simpl; auto. by apply (runs_mild _ _ r). }
  pose proof (tame_side _ _ _ T HS) as HS1.
  split; [constructor; [|done|destruct HS1; by constructor]|done]. simpl.
  replace (inc_pending _) with (ctr_move i s PENDING (w_ctr w)); [by apply ctr_ok_set|].
  pose proof (ctr_range _ HC). unfold ctr_move, inc_pending, is_st. apply ctr_eq; simpl; rewrite ?u32_small; try lia;
    destruct Hor as [-> | ->]; simpl; lia.
Qed.

Lemma resume_start_quiet i : (i < n_svc)%nat -> quietM (resume_start i).
Proof.
  intros Hi. unfold resume_start. apply quietM_st; [done|]. intros s w HQ Hs.
  destruct (decide (s = PENDING)) as [->|]; simpl; [|rewrite bool_decide_eq_false_2 by done; by apply wp_ret].
  destruct (target_lookup i Hi) as [t Ht]. apply wp_bind. eapply wp_lift; [done|]. destruct t.
  - destruct HQ as [HI HQ]. apply wp_bind. eapply wp_rd; [apply (de_need _ _ _ (in_dep _ _ HI) _ Hi)|].
    assert (Quiet w) as HQ' by done. quiet_at.
  - apply wp_bind. eapply wp_mono; [by apply svc_try_start_quiet|]. intros b w1 HQ1. by apply wp_ret.
Qed.

Lemma ctl_resume_quiet k : quietM (ctl_resume k).
Proof.
  unfold ctl_resume. apply quietM_bind.
  - apply msum_quiet. intros i Hi%elem_of_seq. apply resume_reset_quiet. lia.
  - intros reset. destruct (reset =? 0); [quiet_tac|]. apply quietM_bind; [|intros started; quiet_tac].
    apply msum_quiet. intros i Hi%elem_of_seq. apply resume_start_quiet. lia.
Qed.

End Spec.

#[export] Hint Resolve svc_op_start_quiet svc_op_stop_quiet tick_one_quiet ctl_resume_quiet : quiet.
#[export] Hint Resolve svc_op_done_calm : calm.
