(* ===== verification/Control.v ===== *)
(** * The control connections (src/control.c, and ctl_cmd of src/command.c)

    Clients send one request each over a socket and get a reply of lines: data
    lines and a last one that says how it ended. *)

From stdpp Require Import gmap.
From S2P Require Import Prelude Ngraph PidMap Ring Log World Sys Live Cgroup Fail Emerg Output State Spawn Release Reap Halt Stop Command.

Definition CTL_WATCH : Z := 4.
Definition NCTL_TAG_LEN : Z := 2.

(** [NCTL_TAG_LEN + NG_MAX_NAME + sizeof(" starting stopped pid 2147483647\n")] *)
Definition CTL_STATUS_LINE : Z := NCTL_TAG_LEN + NG_MAX_NAME + 34.

Definition strtok (line : bytes) : bytes := upto 32 line.

(** What follows the first space of a request, and the spaces after it. *)
Definition argument (line : bytes) : option bytes :=
  match past 32 line with
  | None => None
  | Some a => let a := skip_char 32 a in if decide (a = []) then None else Some a
  end.

Section Ops.
Context `{Env}.

Definition conn_at (k : nat) : M conn := rd conns k.

Definition mod_conn (k : nat) (f : conn -> conn) : M unit :=
  c ← conn_at k; modify (fun w => set_conns (<[k := f c]> (conns w)) w).

(** [*c = ctl_conn[--n_ctl]] *)
Definition ctl_drop (k : nat) : M unit :=
  cs ← gets conns;
  l ← lift (last cs);
  cs ← store cs k l;
  modify (set_conns (take (length cs - 1) cs)).

(** The line of a service in a listing. *)
Definition status_line (i : nat) : M bytes :=
  nm ← name_of i;
  s ← state_name i;
  wn ← want_of i;
  r ← run_of i;
  mret (NCTL_DATA ++ nm ++ [32] ++ s ++ [32] ++ (if (wn : bool) then bs "stopped" else bs "wanted") ++ bs " pid " ++ dec (pid r) ++ [10]).

(** [memcpy] into the output buffer. *)
Definition out_put (k : nat) (text : bytes) : M unit :=
  c ← conn_at k;
  if CTL_OUT <? zlen (c_out c ++ text) then fault else mod_conn k (set_c_out (c_out c ++ text)).

Fixpoint fill_loop (fuel k : nat) : M unit :=
  match fuel with
  | O => nofuel
  | S fuel' =>
      c ← conn_at k;
      if (listing c =? 0) || (CTL_OUT <? zlen (c_out c) + CTL_STATUS_LINE) then mret tt else
      if listing c =? 2 then
        if CTL_OUT - LOG_LINE - NCTL_TAG_LEN <? zlen (c_out c) then mret tt else
        r ← run_log (log_line (log_at c));
        mod_conn k (set_log_at r.2);;
        if decide (r.1 = []) then
          when (negb (watch c)) (mod_conn k (fun c => ctl_end true (bs "end of log") (set_listing 0 c)))
        else out_put k (NCTL_DATA ++ r.1);; fill_loop fuel' k
      else if Z.of_nat n_svc <=? list_at c then
        d ← gets w_dep;
        mod_conn k (fun c => ctl_end true (dec (Z.of_nat n_svc) ++ bs " services, " ++ dec (n_up d) ++ bs " up") (set_listing 0 c))
      else
        mod_conn k (set_list_at (u32 (list_at c + 1)));;
        t ← status_line (Z.to_nat (list_at c));
        mod_conn k (ctl_out t);;
        fill_loop fuel' k
  end.

Definition ctl_fill (k : nat) : M unit := fill_loop (S (Z.to_nat CTL_OUT)) k.

(** 0 while output is pending, 1 when all of it is written, -1 if the peer is
    gone. *)
Fixpoint flush_loop (fuel k : nat) : M Z :=
  match fuel with
  | O => nofuel
  | S fuel' =>
      c ← conn_at k;
      if zlen (c_out c) <=? out_at c then mod_conn k (fun c => set_out_at 0 (set_c_out [] c));; mret 1 else
      let rest := drop (Z.to_nat (out_at c)) (c_out c) in
      r ← call (fun n => os_write n (c_fd c) rest);
      match r with
      | inl n =>
          if 0 <? n then
            emit (EvSent (c_fd c) (take (Z.to_nat n) rest));;
            mod_conn k (set_out_at (u16 (out_at c + n)));;
            flush_loop fuel' k
          else mret (-1)
      | inr e => if e =? EINTR then flush_loop fuel' k else mret (if e =? EAGAIN then 0 else -1)
      end
  end.

Definition flush_fuel : nat := S (Z.to_nat CTL_OUT * S os_patience + os_patience).

Definition ctl_flush (k : nat) : M Z := flush_loop flush_fuel k.

Definition ctl_pump (k : nat) : M unit :=
  ctl_fill k;;
  rc ← ctl_flush k;
  if rc =? 0 then mret tt else
  c ← conn_at k;
  when ((rc <? 0) || c_done c) (ctl_drop k).

(** ** A request *)

Definition refuse (k : nat) (text : bytes) : M unit := mod_conn k (ctl_end false text).

Definition cmd_status (k : nat) (arg : option bytes) : M unit :=
  match arg with
  | None => mod_conn k (fun c => set_list_at 0 (set_listing 1 c))
  | Some nm =>
      match ctl_find nm with
      | None => refuse k (bs "no service named " ++ nm)
      | Some i =>
          t ← status_line i;
          mod_conn k (ctl_out t);;
          nm ← name_of i;
          mod_conn k (ctl_end true nm)
      end
  end.

Definition cmd_log (k : nat) (arg : option bytes) : M unit :=
  b ← gets boot_ms;
  if decide (arg = Some (bs "time")) then
    if b <? 0 then refuse k (bs "boot has not finished") else
    mod_conn k (ctl_out (NCTL_DATA ++ dec b ++ bs " ms" ++ [10]));;
    mod_conn k (ctl_end true (bs "boot time"))
  else
  if bool_decide (arg <> None) && negb (bool_decide (arg = Some (bs "watch")))
  then refuse k (bs "unknown log mode '" ++ default [] arg ++ bs "'") else
  cs ← gets conns;
  if bool_decide (arg <> None) && (CTL_WATCH <=? cnt watch cs) then refuse k (bs "too many log watchers") else
  R ← gets (fun w => l_ring (w_log w));
  mod_conn k (fun c => set_log_at (ring_tail R) (set_listing 2 (set_watch (bool_decide (arg <> None)) c))).

Definition ctl_cmd (k : nat) (line : bytes) : M unit :=
  let cmd := strtok line in
  let arg := argument line in
  if decide (cmd = bs "status") then cmd_status k arg else
  if decide (cmd = bs "log") then cmd_log k arg else
  if decide (cmd = bs "reload") then refuse k (bs "the running graph cannot be replaced, reboot to load a new one") else
  sd ← gets shutting_down;
  if decide (cmd = bs "resume") then
    (if (sd : bool) then refuse k (bs "shutting down") else ctl_resume k) else
  if negb (bool_decide (cmd = bs "restart")) && negb (bool_decide (cmd = bs "stop")) && negb (bool_decide (cmd = bs "start"))
  then refuse k (bs "unknown command '" ++ cmd ++ bs "'") else
  match arg with
  | None => refuse k (cmd ++ bs " needs a service name")
  | Some nm =>
      if (sd : bool) then refuse k (bs "shutting down") else
      match ctl_find nm with
      | None => refuse k (bs "no service named " ++ nm)
      | Some i =>
          t ← lift (is_target env_g i);
          if (t : bool) then refuse k (nm ++ bs " is a target, it has no process") else
          r ← run_of i;
          if negb (bool_decide (op r = OP_NONE)) then refuse k (nm ++ bs " is busy") else
          name ← name_of i;
          log_note (bs "control: " ++ cmd ++ [32] ++ name);;
          mod_conn k (set_c_svc (Some i));;
          if decide (cmd = bs "restart") then svc_op_stop i true
          else if decide (cmd = bs "stop") then svc_op_stop i false
          else svc_op_start i
      end
  end.

(** [k == 0 || (k < 0 && errno != EAGAIN && errno != EINTR)] *)
Definition gone_read (r : rdres) : bool :=
  match r with REof => true | RErr e => negb (e =? EAGAIN) && negb (e =? EINTR) | RData _ => false end.

(** What has come in, up to its newline and the carriage return before it. *)
Definition request (l : bytes) : bytes := upto 13 (cut0 (upto 10 l)).

Definition ctl_read (k : nat) : M unit :=
  c ← conn_at k;
  if c_done c || negb (listing c =? 0) || bool_decide (c_svc c <> None) then
    r ← call (fun n => os_read n (c_fd c) 256);
    when (gone_read r) (ctl_drop k)
  else
  r ← call (fun n => os_read n (c_fd c) (CTL_BUF - zlen (c_in c) - 1));
  match r with
  | RData b =>
      let buf := c_in c ++ b in
      if CTL_BUF - 1 <? zlen buf then fault else
      mod_conn k (set_c_in buf);;
      if decide (10 ∈ buf) then
        ctl_cmd k (request buf);;
        mod_conn k (set_c_in []);;
        ctl_pump k
      else when (CTL_BUF - 1 <=? zlen buf) (refuse k (bs "request too long");; ctl_pump k)
  | _ => when (gone_read r) (ctl_drop k)
  end.

Definition BUSY : bytes := NCTL_ERR ++ bs "too many control connections" ++ [10].

Fixpoint accept_loop (fuel : nat) : M unit :=
  match fuel with
  | O => nofuel
  | S fuel' =>
      a ← call os_accept;
      match a with
      | inr _ => mret tt
      | inl fd =>
          cs ← gets conns;
          if decide (length cs = CTL_MAX) then
            call (fun n => os_write n fd BUSY);; accept_loop fuel'
          else
            modify (set_conns (cs ++ [Conn fd None 0 0 0 false false [] 0 []]));;
            accept_loop fuel'
      end
  end.

Definition ctl_accept : M unit := accept_loop os_patience.

(** ** In the event loop *)

(** [for(c = n_ctl; c-- > 0;)] *)
Fixpoint pump_down (n : nat) : M unit :=
  match n with
  | O => mret tt
  | S c =>
      x ← conn_at c;
      when ((out_at x <? zlen (c_out x)) || negb (listing x =? 0) || c_done x) (ctl_pump c);;
      pump_down c
  end.

Definition pump_all : M unit := cs ← gets conns; pump_down (length cs).

End Ops.
