(* ===== verification/Clients.v ===== *)
(** * The control connections are well-formed

    Each connection stays within its buffers, its reply is made of whole lines,
    and a client that waits for a service waits for an operation that is under
    way. *)

From stdpp Require Import gmap.
From S2P Require Import Prelude Ngraph PidMap Ring Log Console Repeat Logged World Sys Inv Live Cgroup Fail Emerg Output State Spawn Release Reap Halt Stop Frame Command Control.

(** ** Text without a newline *)

Definition flat (t : bytes) : Prop := 10 ∉ t.

Lemma flat_app a b : flat a -> flat b -> flat (a ++ b).
Proof. unfold flat. rewrite not_elem_of_app. done. Qed.

Lemma flat_cons c t : c <> 10 -> flat t -> flat (c :: t).
Proof. unfold flat. rewrite not_elem_of_cons. auto. Qed.

Lemma flat_take n t : flat t -> flat (take n t).
Proof. unfold flat. intros Hf Hin. apply Hf. rewrite <- (take_drop n t). apply elem_of_app. by left. Qed.

Lemma flat_digits fuel x acc : flat acc -> flat (dec_digits fuel x acc).
Proof.
  revert x acc. induction fuel as [|fuel IH]; intros x acc Ha; simpl; [done|].
  pose proof (Z.mod_pos_bound x 10 ltac:(lia)). assert (flat (48 + x mod 10 :: acc)) by (apply flat_cons; [lia|done]).
  destruct (x <? 10); [done|by apply IH].
Qed.

Lemma flat_dec x : flat (dec x).
Proof.
  unfold dec. destruct (x <? 0); [apply flat_cons; [done|]|]; apply flat_digits; by apply not_elem_of_nil.
Qed.

Lemma flat_b (t : bytes) : forallb (fun c => negb (c =? 10)) t = true -> flat t.
Proof. rewrite forallb_forall. intros Hb Hin%list_elem_of_In. by apply Hb in Hin. Qed.

Lemma flat_plural n : flat (plural n).
Proof. unfold plural. destruct (n =? 1); by apply flat_b. Qed.

Create HintDb flat.

#[export] Hint Resolve flat_app flat_take flat_dec flat_plural : flat.
#[export] Hint Extern 2 (flat _) => (apply flat_b; reflexivity) : flat.
#[export] Hint Extern 3 (flat (_ :: _)) => (apply flat_cons; [by vm_compute|]) : flat.

Lemma name_flat `{E : Env} `{!EnvOk E} i nm : ng_name env_g i = Some nm -> flat nm /\ zlen nm <= NG_MAX_NAME.
Proof.
  intros Hn. apply list_elem_of_lookup_2 in Hn. pose proof (gw_usable _ ok_graph nm Hn) as Hu. unfold ng_name_problem in Hu.
  destruct (_ =? 0); [done|]. destruct (Z.ltb_spec NG_MAX_NAME (Z.of_nat (length nm))) as [|Hle]; [done|].
  do 2 (destruct (_ =? _); [done|]). destruct (_ && _ && _); [done|]. split; [|done]. clear -Hu.
  induction nm as [|c nm IH]; [by apply not_elem_of_nil|]. simpl in Hu. destruct (c =? 47), (c =? 44); try done.
  destruct (Z.leb_spec c 32); [done|]. destruct (c =? 127); [done|]. apply flat_cons; [lia|by apply IH].
Qed.

(** ** A line of the log *)

Section LogLine.
Context `{O : LogOs} `{!LogOk O}.

(** The lines a reader of the log gets are whole, and fit the buffer. *)
Lemma log_line_fits at_ L : log_ok L -> lwp (log_line at_) (fun r L' => log_ok L' /\
  (r.1 = [] \/ exists s, r.1 = s ++ [10] /\ flat s) /\ zlen r.1 <= LOG_LINE) L.
Proof.
  intros HL. destruct (Z.ltb_spec at_ (ring_tail (l_ring L))) as [Hlt|Hge].
  - unfold log_line. apply lwp_bind, lwp_gets. rewrite (proj2 (Z.ltb_lt _ _)) by done.
    apply lwp_bind, elapsed_spec. intros ms L' Hst E1 E2 _ _.
    apply lwp_bind. eapply lwp_at; [done|by apply tag_plain_at|]. apply lwp_ret. cbn [fst].
    split; [exact (log_ok_con _ _ Hst (con_step_pend _ _ Hst E1 E2 (lo_pend _ HL)) HL)|].
    set (p := prefix _ _ _). assert (flat p) as Hp.
    { unfold p, prefix, dec3. do 2 apply flat_take. repeat (apply flat_app); auto with flat.
      all: induction (3 - _)%nat; simpl; [by apply not_elem_of_nil|by apply flat_cons]. }
    pose proof (prefix_len LOG_LINE (tag tag_plain LOG_WARN) ms) as Hl. fold p in Hl.
    pose proof (length_dec (u64 (ring_tail (l_ring L) - at_))) as Hd. unfold fit, zlen, blen, LOG_LINE, LOG_PREFIX_MAX in *.
    assert (length (bs "log: skipped " ++ dec (u64 (ring_tail (l_ring L) - at_)%Z) ++ bs " bytes" ++ [10%Z]) <= 41)%nat as Hn.
    { rewrite !length_app. change (length (bs "log: skipped ")) with 13%nat. change (length (bs " bytes")) with 6%nat. simpl. lia. }
    rewrite take_ge by lia. split; [right|rewrite length_app; lia].
    exists (p ++ bs "log: skipped " ++ dec (u64 (ring_tail (l_ring L) - at_)) ++ bs " bytes").
    split; [by rewrite <- !app_assoc|]. auto 6 with flat.
  - destruct (Z.leb_spec (ring_head (l_ring L)) at_) as [Hh|Hh].
    + unfold log_line. apply lwp_bind, lwp_gets. rewrite (proj2 (Z.ltb_ge _ _)), (proj2 (Z.leb_le _ _)) by done.
      apply lwp_ret. split; [done|]. split; [by left|]. by vm_compute.
    + pose proof (lo_ring _ HL) as HR. eapply lwp_mono; [apply log_line_spec; [done|lia]|].
      intros r L' [-> Hr]. cbv zeta in Hr. rewrite Hr. cbn [fst]. split; [done|]. pose proof (ri_head _ _ HR) as Hlen. pose proof (ri_tail _ _ HR).
      unfold blen in Hlen. split; [|pose proof (ri_short _ _ HR (Z.to_nat at_)); unfold zlen, LOG_LINE in *; lia].
      right. apply take_line_nl, ends_line_drop; [|lia]. destruct (ri_ends _ _ HR) as [Et|Et]; [|done]. rewrite Et in Hlen. simpl in Hlen. lia.
Qed.
End LogLine.

(** ** A connection *)

Definition data_line (l : bytes) : Prop := exists t, l = NCTL_DATA ++ t ++ [10] /\ flat t.

(** The line that ends a reply. *)
Definition final_line (l : bytes) : Prop := exists (ok : bool) t, l = (if ok then NCTL_OK else NCTL_ERR) ++ t ++ [10] /\ flat t.

(** What of the reply has not been sent is made of whole lines, and a reply that
    is done ends in its last line. *)
Definition framed (done_ : bool) (out : bytes) : Prop :=
  exists ds f, out = concat ds ++ f /\ Forall data_line ds /\ (if done_ then final_line f else f = []).

Section Conn.
Context `{E : Env} `{!EnvOk E}.

Record conn_ok (c : conn) : Prop := ConnOk {
  co_in : zlen (c_in c) <= CTL_BUF - 1;
  co_out : 0 <= out_at c <= zlen (c_out c);
  co_room : zlen (c_out c) <= CTL_OUT;
  co_lines : framed (c_done c) (c_out c);
  co_mode : listing c = 0 \/ listing c = 1 \/ listing c = 2;
  co_done : c_done c = true -> listing c = 0 /\ c_svc c = None;
  co_wait : c_svc c <> None -> listing c = 0;
  co_idle : c_done c = false -> listing c = 0 -> c_out c = [];
  co_at : 0 <= list_at c <= Z.of_nat n_svc;
}.

(** The connections, and what they wait for but for the service [x]. *)
Record ctl_ok (x : option nat) (w : world) : Prop := CtlOk {
  ct_max : (length (conns w) <= CTL_MAX)%nat;
  ct_conn : Forall conn_ok (conns w);
  ct_wait : forall k c i, conns w !! k = Some c -> c_svc c = Some i -> x <> Some i ->
    exists o, (op <$> runs w) !! i = Some o /\ o <> OP_NONE;
}.

Lemma ctl_ok_weaken x w : ctl_ok None w -> ctl_ok x w.
Proof. intros [H1 H2 H3]. constructor; [done..|]. intros k c i Hk Hc _. by apply (H3 k c i). Qed.

Lemma ctl_ok_same x w w' : same w w' -> ctl_ok x w -> ctl_ok x w'.
Proof. intros (E1 & _ & E2) [H1 H2 H3]. constructor; rewrite ?E1, ?E2; done. Qed.

(** A step that keeps the number of connections, and makes the world that lacks
    [x] one that lacks [y]. *)
Definition ctlM (x y : option nat) {A} (m : M A) : Prop := forall w,
  match m w with Ok _ w' => ctl_ok x w -> ctl_ok y w' /\ length (conns w') = length (conns w) | _ => True end.

Lemma ctlM_frame x {A} (m : M A) : frameM m -> ctlM x x m.
Proof.
  intros Hm w. specialize (Hm w). destruct (m w); try done. intros Hx. split; [by eapply ctl_ok_same|]. by destruct Hm as [-> _].
Qed.

Lemma ctlM_bind x y z {A B} (m : M A) (f : A -> M B) : ctlM x y m -> (forall a, ctlM y z (f a)) -> ctlM x z (m ≫= f).
Proof.
  intros Hm Hf w. unfold mbind, M_bind. specialize (Hm w). destruct (m w) as [a w1| | |]; try done.
  specialize (Hf a w1). destruct (f a w1); try done. intros Hx. destruct (Hm Hx) as [Hy E1]. destruct (Hf Hy) as [Hz E2]. split; [done|congruence].
Qed.

Lemma ctlM_weaken x {A} (m : M A) : ctlM x None m -> ctlM None None m.
Proof.
  intros Hm w. specialize (Hm w). destruct (m w); try done. intros Hn. apply Hm. by apply ctl_ok_weaken.
Qed.

(** The end of a reply, where there is room for it. *)
Lemma ctl_end_ok ok t c : conn_ok c -> c_done c = false -> flat t ->
  zlen (c_out c) < CTL_OUT - 128 -> zlen (c_out c) + Z.min (zlen t) (CTL_BUF - 1) + 3 < CTL_OUT -> conn_ok (ctl_end ok t c).
Proof.
  intros [] Hd Ht H1 H2. unfold ctl_end, ctl_out. rewrite Hd. cbn [c_done c_out set_c_svc set_listing].
  rewrite Hd. rewrite (proj2 (Z.leb_gt _ _)) by (unfold zlen in *; lia). cbn [orb].
  set (t' := take (Z.to_nat (CTL_BUF - 1)) t). assert (zlen t' <= Z.min (zlen t) (CTL_BUF - 1)) as Hl.
  { unfold t', zlen. rewrite length_take. unfold CTL_BUF. lia. }
  set (l := (if ok then NCTL_OK else NCTL_ERR) ++ t' ++ [10]). assert (zlen l = zlen t' + 3) as Hll.
  { unfold l, zlen. rewrite !length_app. destruct ok; simpl; lia. }
  rewrite take_ge by (unfold zlen in *; lia). constructor; cbn.
  - done.
  - unfold zlen in *. rewrite length_app. lia.
  - unfold zlen in *. rewrite length_app. lia.
  - destruct co_lines0 as (ds & f & E1 & HF & Hf). rewrite Hd in Hf. subst f. rewrite app_nil_r in E1.
    exists ds, l. rewrite E1. split; [done|]. split; [done|]. exists ok, t'. split; [done|by apply flat_take].
  - auto.
  - done.
  - done.
  - done.
  - done.
Qed.

(** A reply that has not begun. *)
Lemma ctl_end_idle ok t c : conn_ok c -> c_done c = false -> listing c = 0 -> flat t -> conn_ok (ctl_end ok t c).
Proof.
  intros Hc Hd Hl Ht. pose proof (co_idle _ Hc Hd Hl) as Ho. apply ctl_end_ok; [done..| |]; rewrite Ho; unfold zlen, CTL_OUT, CTL_BUF; simpl; lia.
Qed.

Lemma ctl_end_done ok t c : c_done c = true -> ctl_end ok t c = c.
Proof. intros Hd. unfold ctl_end. by rewrite Hd. Qed.

Lemma ctl_end_svc ok t c i : c_svc (ctl_end ok t c) = Some i -> c_svc c = Some i.
Proof. unfold ctl_end, ctl_out. destruct (c_done c) eqn:Hd; [done|]. cbn. rewrite Hd. by destruct (_ || _). Qed.

Lemma tell_ok i ok t c : conn_ok c -> flat t -> conn_ok (tell i ok t c) /\ c_svc (tell i ok t c) <> Some i /\
  (forall j, c_svc (tell i ok t c) = Some j -> c_svc c = Some j).
Proof.
  intros Hc Ht. unfold tell. destruct (decide (c_svc c = Some i)) as [Hs|]; [|done].
  assert (c_done c = false) as Hd by (destruct (c_done c) eqn:Hd; [|done]; destruct (co_done _ Hc Hd); congruence).
  split; [apply ctl_end_idle; [done..| |done]; apply (co_wait _ Hc); congruence|].
  split; [|intros j; apply ctl_end_svc]. unfold ctl_end, ctl_out. rewrite Hd. cbn. rewrite Hd. by destruct (_ || _).
Qed.
End Conn.

(** ** The operations *)

Section Commands.
Context `{E : Env} `{!EnvOk E}.

(** What a step that returns gives. *)
Definition gives {A} (m : M A) (P : A -> Prop) : Prop := forall w, match m w with Ok a _ => P a | _ => True end.

Lemma gives_ret {A} (a : A) (P : A -> Prop) : P a -> gives (mret a) P.
Proof. by intros Ha w. Qed.

Lemma gives_lift {A} (o : option A) : gives (lift o) (fun a => o = Some a).
Proof. by destruct o. Qed.

Lemma gives_bind {A B} (m : M A) (f : A -> M B) (P : B -> Prop) : (forall a, gives (f a) P) -> gives (m ≫= f) P.
Proof. intros Hf w. unfold mbind, M_bind. destruct (m w) as [a w1| | |]; try done. apply Hf. Qed.

Lemma ctlM_gives x y z {A B} (m : M A) (P : A -> Prop) (f : A -> M B) : ctlM x y m -> gives m P ->
  (forall a, P a -> ctlM y z (f a)) -> ctlM x z (m ≫= f).
Proof.
  intros Hm Hp Hf w. unfold mbind, M_bind. specialize (Hm w). specialize (Hp w). destruct (m w) as [a w1| | |]; try done.
  specialize (Hf a Hp w1). destruct (f a w1); try done. intros Hx. destruct (Hm Hx) as [Hy E1]. destruct (Hf Hy) as [Hz E2]. split; [done|congruence].
Qed.

Lemma name_of_gives i : gives (name_of i) flat.
Proof. intros w. unfold name_of. destruct (ng_name env_g i) as [nm|] eqn:Hn; [|done]. apply (name_flat i nm Hn). Qed.

Lemma svc_can_start_gives i : gives (svc_can_start i) (fun why => forall msg, why = Some msg -> flat msg).
Proof.
  unfold svc_can_start.
  repeat match goal with
  | |- gives (_ ≫= _) _ => apply gives_bind; intros ?
  | |- gives (if ?b then _ else _) _ => destruct b
  | |- gives (mret _) _ => apply gives_ret; intros ? Hm; simplify_eq; auto with flat
  end.
Qed.

Lemma state_name_gives i : gives (state_name i) flat.
Proof.
  unfold state_name.
  repeat match goal with
  | |- gives (_ ≫= _) _ => apply gives_bind; intros ?
  | |- gives (match ?s with _ => _ end) _ => destruct s
  | |- gives (mret _) _ => apply gives_ret
  | |- flat (if ?b then _ else _) => destruct b
  | |- flat _ => auto with flat
  end.
Qed.

(** [op[i]] is set. *)
Lemma op_insert (w : world) i o r at_ : runs w !! i = Some r ->
  (op <$> <[i := set_op_at at_ (set_op o r)]> (runs w)) = <[i := o]> (op <$> runs w).
Proof. intros _. by rewrite list_fmap_insert. Qed.

Lemma svc_op_set_ctl i o at_ : ctlM (Some i) (if decide (o = OP_NONE) then Some i else None) (svc_op_set i o at_).
Proof.
  intros w. unfold svc_op_set, run_of, rd, gets, lift, mod_run, run_of, rd, gets, lift, modify, mbind, M_bind.
  destruct (runs w !! i) as [r|] eqn:Hr; [|done].
  assert (forall n, ctl_ok (Some i) w -> ctl_ok (if decide (o = OP_NONE) then Some i else None)
    (set_runs (<[i := set_op_at at_ (set_op o r)]> (runs w)) (set_n_ops n w))) as Hgo.
  { intros n [H1 H2 H3]. constructor; simpl; [done..|]. intros k c j Hk Hc Hx.
    rewrite (op_insert w i o r at_ Hr). destruct (decide (j = i)) as [->|Hne].
    - destruct (decide (o = OP_NONE)); [done|]. exists o. split; [|done]. apply list_lookup_insert_eq.
      rewrite length_fmap. by apply lookup_lt_Some in Hr.
    - rewrite list_lookup_insert_ne by done. apply (H3 k c j); [done..|]. intros [= ->]. done. }
  unfold mret, M_ret. match goal with |- context [if ?b then (fun _ => _) else _] => destruct b end; cbn -[decide]; rewrite Hr; cbn -[decide].
  - intros Hw. split; [|done]. destruct w; exact (Hgo _ Hw).
  - intros Hw. split; [|done]. exact (Hgo _ Hw).
Qed.

Lemma ctl_tell i ok t w : flat t -> ctl_ok (Some i) w -> ctl_ok None (set_conns (tell i ok t <$> conns w) w).
Proof.
  intros Ht [H1 H2 H3]. constructor; simpl; [by rewrite length_fmap| |].
  - apply Forall_fmap. eapply Forall_impl; [exact H2|]. intros c Hc. by apply (tell_ok i ok t c Hc Ht).
  - intros k c j Hk Hc _. rewrite list_lookup_fmap in Hk. destruct (conns w !! k) as [c0|] eqn:Hk0; [|done]. simplify_eq/=.
    pose proof (proj1 (Forall_lookup _ _) H2 k c0 Hk0) as Hok. destruct (tell_ok i ok t c0 Hok Ht) as (_ & Hne & Hsub).
    apply (H3 k c0 j); [done|by apply Hsub|]. intros [= ->]. by apply Hne.
Qed.

Lemma svc_op_done_ctl i ok msg : flat msg -> ctlM (Some i) None (svc_op_done i ok msg).
Proof.
  intros Hm. unfold svc_op_done. eapply ctlM_bind; [apply (svc_op_set_ctl i OP_NONE 0)|intros _]. simpl.
  eapply ctlM_bind; [apply ctlM_frame; frame_tac|intros _].
  eapply ctlM_gives; [apply ctlM_frame; frame_tac|apply name_of_gives|]. intros nm Hnm.
  apply (ctlM_bind _ None); [|intros _; apply ctlM_frame; frame_tac].
  intros w. simpl. intros Hw. split; [|by rewrite length_fmap]. apply ctl_tell; [|done]. auto with flat.
Qed.

Lemma svc_op_start_ctl i : ctlM (Some i) None (svc_op_start i).
Proof.
  unfold svc_op_start. eapply ctlM_bind; [apply ctlM_frame; frame_tac|intros _].
  eapply ctlM_gives; [apply ctlM_frame; frame_tac|apply svc_can_start_gives|]. intros [msg|] Hmsg.
  - do 2 (eapply ctlM_bind; [apply ctlM_frame; frame_tac|intros ?]).
    eapply ctlM_bind; [apply ctlM_frame; frame_tac|intros _]. apply svc_op_done_ctl. by apply Hmsg.
  - do 5 (eapply ctlM_bind; [apply ctlM_frame; frame_tac|intros ?]).
    eapply ctlM_bind; [apply (svc_op_set_ctl i OP_START)|intros _]. simpl. apply ctlM_frame; frame_tac.
Qed.

Lemma svc_op_stop_ctl i restart : ctlM (Some i) None (svc_op_stop i restart).
Proof.
  unfold svc_op_stop. do 4 (eapply ctlM_bind; [apply ctlM_frame; frame_tac|intros ?]).
  match goal with |- ctlM _ _ (if ?b then _ else _) => destruct b end.
  - destruct restart; [apply svc_op_start_ctl|]. eapply ctlM_bind; [apply ctlM_frame; frame_tac|intros ?].
    apply svc_op_done_ctl. auto with flat.
  - do 3 (eapply ctlM_bind; [apply ctlM_frame; frame_tac|intros ?]). apply (svc_op_set_ctl i OP_TERM).
Qed.

Lemma ctlM_some i {A} (m : M A) : ctlM (Some i) None m -> ctlM None None m.
Proof.
  intros Hm w. specialize (Hm w). destruct (m w); try done. intros Hn. apply Hm. by apply ctl_ok_weaken.
Qed.

Lemma ctlM_live_loop x fuel k body : (forall i, ctlM x x (body i)) -> ctlM x x (live_loop fuel k body).
Proof.
  intros Hb. revert k. induction fuel as [|fuel IH]; intros k; cbn [live_loop]; [done|].
  repeat first [apply ctlM_frame; solve [frame_tac]
    | match goal with
      | |- ctlM _ _ (_ ≫= _) => eapply (ctlM_bind x x); [|intros ?]
      | |- ctlM _ _ (body _) => apply Hb
      | |- ctlM _ _ (live_loop _ _ _) => apply IH
      | |- ctlM _ _ (if ?b then _ else _) => destruct b
      end].
Qed.

Lemma tick_one_ctl now i : ctlM None None (tick_one now i).
Proof.
  unfold tick_one. do 3 (eapply (ctlM_bind None None); [apply ctlM_frame; frame_tac|intros ?]).
  match goal with |- ctlM _ _ (match op ?r with _ => _ end) => destruct (op r) end.
  - apply ctlM_frame. done.
  - repeat match goal with |- ctlM _ _ (if ?b then _ else _) => destruct b end.
    + apply (ctlM_some i), svc_op_start_ctl.
    + apply (ctlM_some i), svc_op_done_ctl. auto with flat.
    + apply ctlM_frame. done.
    + do 4 (eapply (ctlM_bind None None); [apply ctlM_frame; frame_tac|intros ?]).
      apply (ctlM_some i). apply (svc_op_set_ctl i OP_KILL).
  - match goal with |- ctlM _ _ (if ?b then _ else _) => destruct b end.
    + match goal with |- ctlM _ _ (if ?b then _ else _) => destruct b end;
        [apply (ctlM_some i), svc_op_start_ctl|apply (ctlM_some i), svc_op_done_ctl; auto with flat].
    + unfold when. match goal with |- ctlM _ _ (if ?b then _ else _) => destruct b end; [|by apply ctlM_frame].
      apply (ctlM_some i), svc_op_done_ctl. auto with flat.
  - do 2 (eapply (ctlM_bind None None); [apply ctlM_frame; frame_tac|intros ?]).
    match goal with |- ctlM _ _ (if ?b then _ else _) => destruct b end; [apply (ctlM_some i), svc_op_done_ctl; auto with flat|].
    match goal with |- ctlM _ _ (if ?b then _ else _) => destruct b end.
    + eapply (ctlM_gives None None); [apply ctlM_frame; frame_tac|apply state_name_gives|]. intros nm Hnm.
      by apply (ctlM_some i), svc_op_done_ctl.
    + unfold when. match goal with |- ctlM _ _ (if ?b then _ else _) => destruct b end; [|by apply ctlM_frame].
      apply (ctlM_some i), svc_op_done_ctl. auto with flat.
Qed.

Lemma ctl_tick_ctl fuel : ctlM None None (ctl_tick fuel).
Proof.
  unfold ctl_tick. eapply (ctlM_bind None None); [apply ctlM_frame; frame_tac|intros n]. destruct (n =? 0); [by apply ctlM_frame|].
  eapply (ctlM_bind None None); [apply ctlM_frame; frame_tac|intros now]. apply ctlM_live_loop, tick_one_ctl.
Qed.

(** ** Resuming, on a connection whose request is being handled *)

Definition idle (c : conn) : Prop := c_done c = false /\ listing c = 0.

(** What holds when a computation returns. *)
Definition post {A} (m : M A) (P : A -> world -> Prop) (w : world) : Prop := match m w with Ok a w' => P a w' | _ => True end.

Lemma post_frame {A B} (m : M A) (f : A -> M B) P w : frameM m -> (forall a w', same w w' -> post (f a) P w') -> post (m ≫= f) P w.
Proof.
  intros Hm Hf. unfold post, mbind, M_bind in *. specialize (Hm w). destruct (m w) as [a w1| | |]; try done. by apply Hf.
Qed.

Lemma msum_frame l body : (forall i, frameM (body i)) -> frameM (msum l body).
Proof. intros Hb. induction l as [|x l IH]; cbn [msum]; frame_tac. Qed.

Lemma ctl_ok_insert k f c w : ctl_ok None w -> conns w !! k = Some c -> conn_ok (f c) ->
  (forall j, c_svc (f c) = Some j -> c_svc c = Some j) ->
  ctl_ok None (set_conns (<[k := f c]> (conns w)) w).
Proof.
  intros [H1 H2 H3] Hk Hf Hs. constructor; simpl; [by rewrite length_insert|by apply Forall_insert|].
  intros j c' i Hj Hc Hx. destruct (decide (j = k)) as [->|Hne].
  - rewrite list_lookup_insert_eq in Hj by (by apply lookup_lt_Some in Hk). simplify_eq. apply (H3 k c i); [done|by apply Hs|done].
  - rewrite list_lookup_insert_ne in Hj by done. by apply (H3 j c' i).
Qed.

Lemma alter_insert (f : conn -> conn) (l : list conn) (k : nat) c : l !! k = Some c -> alter f k l = <[k := f c]> l.
Proof.
  intros Hk. pose proof (lookup_lt_Some _ _ _ Hk) as Hl. apply list_eq. intros j. destruct (decide (j = k)) as [->|Hne].
  - by rewrite list_lookup_alter_eq, list_lookup_insert_eq, Hk.
  - by rewrite list_lookup_alter_ne, list_lookup_insert_ne by done.
Qed.

Lemma alter_end ok t k w : ctl_ok None w -> (forall c, conns w !! k = Some c -> idle c) -> flat t ->
  ctl_ok None (set_conns (alter (ctl_end ok t) k (conns w)) w).
Proof.
  intros Hw Hi Ht. destruct (conns w !! k) as [c|] eqn:Hk.
  - rewrite (alter_insert _ _ _ _ Hk). pose proof (proj1 (Forall_lookup _ _) (ct_conn _ _ Hw) k c Hk) as Hok.
    destruct (Hi c eq_refl) as [Hd Hl]. apply ctl_ok_insert; [done|done|by apply ctl_end_idle|]. intros j. apply ctl_end_svc.
  - assert (alter (ctl_end ok t) k (conns w) = conns w) as ->; [|by destruct w].
    apply list_eq. intros j. destruct (decide (j = k)) as [->|Hne]; [by rewrite list_lookup_alter_eq, Hk|by rewrite list_lookup_alter_ne].
Qed.

Lemma ctl_resume_ctl k w : ctl_ok None w -> (forall c, conns w !! k = Some c -> idle c) ->
  post (ctl_resume k) (fun _ w' => ctl_ok None w' /\ length (conns w') = length (conns w)) w.
Proof.
  intros Hw Hi. unfold ctl_resume. apply post_frame; [apply msum_frame; intros; frame_tac|]. intros reset w1 S1.
  assert (forall w2, same w w2 -> ctl_ok None w2 /\ (forall c, conns w2 !! k = Some c -> idle c) /\ length (conns w2) = length (conns w)) as Hs.
  { intros w2 S2. split; [by eapply ctl_ok_same|]. destruct S2 as (-> & _ & _). done. }
  destruct (reset =? 0).
  - destruct (Hs w1 S1) as (Hw1 & Hi1 & Hl1). unfold post. simpl. rewrite length_alter. split; [|done].
    apply alter_end; [done..|]. auto with flat.
  - apply post_frame; [apply msum_frame; intros; frame_tac|]. intros started w2 S2. cbv zeta.
    apply post_frame; [frame_tac|]. intros [] w3 S3. destruct (Hs w3) as (Hw3 & Hi3 & Hl3); [do 2 (etrans; [eassumption|]); done|].
    split; [|etrans; [apply length_alter|done]]. apply alter_end; [done..|]. repeat apply flat_app; auto with flat.
Qed.
End Commands.
