(* ===== verification/Serve.v ===== *)
(** * Serving the control connections (src/control.c, ctl_cmd of src/command.c)

    Every step of a connection returns, stays inside its buffers and keeps the
    connections and the supervisor well-formed. *)

From stdpp Require Import gmap.
From S2P Require Import Prelude Ngraph PidMap Ring Log Console Repeat Logged World Sys Inv Live Cgroup Fail Emerg Output State Spawn Release Reap Halt Stop Frame Command Control Clients.

Lemma length_dec_digits_short fuel k x acc : (S k <= fuel)%nat -> 0 <= x < 10 ^ Z.of_nat (S k) ->
  (length (dec_digits fuel x acc) <= S k + length acc)%nat.
Proof.
  revert k x acc. induction fuel as [|fuel IH]; intros k x acc Hf Hx; [lia|]. simpl. destruct (Z.ltb_spec x 10); [simpl; lia|].
  destruct k as [|k]; [simpl in Hx; lia|]. etrans; [apply (IH k); [lia|]|simpl; lia].
  rewrite Nat2Z.inj_succ, Z.pow_succ_r in Hx by lia. split; [apply Z.div_pos; lia|]. apply Z.div_lt_upper_bound; lia.
Qed.

(** A process id is at most ten digits. *)
Lemma length_dec_pid x : 0 <= x <= INT_MAX -> (length (dec x) <= 10)%nat.
Proof.
  intros Hx. unfold dec, INT_MAX in *. rewrite (proj2 (Z.ltb_ge _ _)) by lia.
  pose proof (length_dec_digits_short 20 9 x [] ltac:(lia)). simpl in *. lia.
Qed.

Section Serve.
Context `{E : Env} `{!EnvOk E}.

(** The world between two handlers, its connections included. *)
Definition served (w : world) : Prop := Quiet w /\ ctl_ok None w.

Lemma quiet_conns cs w : Quiet w -> Quiet (set_conns cs w).
Proof. intros [[H1 H2 []] Hq]. split; [|done]. by constructor. Qed.

Lemma served_frame {A} (m : M A) w : quietM m -> frameM m -> served w -> wp m (fun _ w' => served w' /\ same w w') w.
Proof.
  intros Hq Hf [HQ HC]. specialize (Hq w HQ). specialize (Hf w). unfold wp in *. destruct (m w) as [a w'| | |]; try done.
  split; [|done]. split; [done|by eapply ctl_ok_same].
Qed.

Lemma served_step {A B} (m : M A) (f : A -> M B) (Q : B -> world -> Prop) w : quietM m -> frameM m -> served w ->
  (forall a w', served w' -> same w w' -> wp (f a) Q w') -> wp (m ≫= f) Q w.
Proof.
  intros Hq Hf HS HQ. apply wp_bind. eapply wp_mono; [by apply served_frame|]. intros a w' [H1 H2]. by apply HQ.
Qed.

Lemma served_ctl {A} (m : M A) w : quietM m -> ctlM None None m -> served w ->
  wp m (fun _ w' => served w' /\ length (conns w') = length (conns w)) w.
Proof.
  intros Hq Hc [HQ HC]. specialize (Hq w HQ). specialize (Hc w). unfold wp in *. destruct (m w) as [a w'| | |]; try done.
  destruct (Hc HC). done.
Qed.

Lemma served_conn k c w : served w -> conns w !! k = Some c -> conn_ok c.
Proof. intros [_ HC] Hk. by apply (proj1 (Forall_lookup _ _) (ct_conn _ _ HC) k c). Qed.

(** One connection changes. *)
Lemma wp_mod_conn k f c w (Q : unit -> world -> Prop) : conns w !! k = Some c ->
  Q tt (set_conns (<[k := f c]> (conns w)) w) -> wp (mod_conn k f) Q w.
Proof. intros Hk HQ. unfold mod_conn, conn_at. apply wp_bind, (wp_rd _ _ _ _ _ Hk). by apply wp_modify. Qed.

Lemma served_mod k f c w : served w -> conns w !! k = Some c -> conn_ok (f c) ->
  (forall j, c_svc (f c) = Some j -> c_svc c = Some j) -> served (set_conns (<[k := f c]> (conns w)) w).
Proof. intros [HQ HC] Hk Hok Hs. split; [by apply quiet_conns|by apply (ctl_ok_insert k f c)]. Qed.

(** The connection [k] and what the rest of the array is. *)
Definition at_conn (k : nat) (c : conn) (w : world) : Prop := served w /\ conns w !! k = Some c.

Lemma at_conn_mod k f c w (Q : unit -> world -> Prop) : at_conn k c w -> conn_ok (f c) ->
  (forall j, c_svc (f c) = Some j -> c_svc c = Some j) ->
  (forall w', at_conn k (f c) w' -> length (conns w') = length (conns w) -> w' = set_conns (<[k := f c]> (conns w)) w -> Q tt w') ->
  wp (mod_conn k f) Q w.
Proof.
  intros [HS Hk] Hok Hs HQ. apply (wp_mod_conn _ _ c); [done|]. apply HQ; [|simpl; by rewrite length_insert|done].
  split; [by apply served_mod|]. simpl. apply list_lookup_insert_eq. by apply lookup_lt_Some in Hk.
Qed.

Lemma at_conn_same k c w w' : at_conn k c w -> served w' -> same w w' -> at_conn k c w'.
Proof. intros [_ Hk] HS (E1 & _). split; [done|by rewrite E1]. Qed.

Lemma wp_conn_at k c w (Q : conn -> world -> Prop) : at_conn k c w -> Q c w -> wp (conn_at k) Q w.
Proof. intros [_ Hk] HQ. unfold conn_at. by apply (wp_rd _ _ _ _ _ Hk). Qed.

(** ** Filling the reply *)

(** The line of a service reads the world and fits. *)
Lemma status_line_spec i w : served w -> (i < n_svc)%nat ->
  wp (status_line i) (fun t w' => w' = w /\ data_line t /\ zlen t < CTL_STATUS_LINE) w.
Proof.
  intros [HQ _] Hi. pose proof HQ as [[HC HD HS] _]. unfold status_line, name_of.
  destruct (name_lookup i Hi) as [nm Hnm]. destruct (name_flat i nm Hnm) as [Hfl Hlen].
  destruct (lookup_lt_is_Some_2 (state (w_ctr w)) i) as [s Hs]; [by rewrite (ct_len _ HC)|].
  destruct (lookup_lt_is_Some_2 (up (w_dep w)) i) as [u Hu]; [by rewrite (de_up _ _ _ HD)|].
  destruct (side_want _ _ i HS Hi) as [wn Hwn]. destruct (side_run _ _ i HS Hi) as [r Hr].
  pose proof (so_pid _ _ (sd_svc _ _ HS i r Hr)) as Hp. pose proof (length_dec_pid _ Hp) as Hd.
  apply wp_bind, (wp_lift _ _ _ _ Hnm). apply wp_bind. unfold state_name, st_of. apply wp_bind, (wp_rd _ _ _ _ _ Hs).
  apply (wp_mono _ (fun t w' => w' = w /\ flat t /\ (length t <= 8)%nat)).
  { destruct s; try (apply wp_ret; split; [done|]; split; [by apply flat_b|vm_compute; lia]).
    unfold up_of. apply wp_bind, (wp_rd _ _ _ _ _ Hu), wp_ret. destruct u; (split; [done|]; split; [by apply flat_b|vm_compute; lia]). }
  intros t w1 (-> & Ht & Htl). apply wp_bind. unfold want_of, run_of. apply (wp_rd _ _ _ _ _ Hwn). apply wp_bind, (wp_rd _ _ _ _ _ Hr), wp_ret.
  split; [done|]. split.
  - exists (nm ++ [32] ++ t ++ [32] ++ (if wn then bs "stopped" else bs "wanted") ++ bs " pid " ++ dec (pid r)).
    split; [by rewrite <- !app_assoc|].
    repeat apply flat_app; auto with flat. destruct wn; by apply flat_b.
  - unfold zlen, CTL_STATUS_LINE, NCTL_TAG_LEN, NG_MAX_NAME in *. rewrite !length_app. change (length NCTL_DATA) with 2%nat.
    change (length (bs " pid ")) with 5%nat. assert (length (if wn then bs "stopped" else bs "wanted") <= 7)%nat by (destruct wn; simpl; lia).
    simpl. lia.
Qed.

Lemma framed_data out l : framed false out -> data_line l -> framed false (out ++ l).
Proof.
  intros (ds & f & -> & HF & ->) Hl. exists (ds ++ [l]), []. rewrite concat_app, !app_nil_r. simpl. rewrite app_nil_r.
  split; [done|]. split; [|done]. apply Forall_app. split; [done|]. by constructor.
Qed.

Lemma conn_ok_log_at v c : conn_ok c -> conn_ok (set_log_at v c).
Proof. intros []. by constructor. Qed.

Lemma conn_ok_list_at v c : conn_ok c -> 0 <= v <= Z.of_nat n_svc -> conn_ok (set_list_at v c).
Proof. intros [] Hv. by constructor. Qed.

(** A line for a listing that fits. *)
Lemma conn_ok_line l c : conn_ok c -> c_done c = false -> listing c <> 0 -> data_line l ->
  zlen (c_out c) + zlen l <= CTL_OUT -> conn_ok (set_c_out (c_out c ++ l) c).
Proof.
  intros [] Hd Hli Hl Hr. constructor; cbn; try done.
  - unfold zlen in *. rewrite length_app. lia.
  - unfold zlen in *. rewrite length_app. lia.
  - rewrite Hd in *. by apply framed_data.
Qed.

Lemma listing_open c : conn_ok c -> listing c <> 0 -> c_done c = false.
Proof. intros Hc Hl. destruct (c_done c) eqn:Hd; [|done]. by destruct (co_done _ Hc Hd). Qed.

Lemma ctl_out_fits t c : c_done c = false -> zlen (c_out c) + CTL_STATUS_LINE <= CTL_OUT -> zlen t < CTL_STATUS_LINE ->
  ctl_out t c = set_c_out (c_out c ++ t) c.
Proof.
  intros Hd Hr Ht. unfold ctl_out, zlen, CTL_OUT, CTL_STATUS_LINE, NCTL_TAG_LEN, NG_MAX_NAME in *. rewrite Hd.
  rewrite (proj2 (Z.leb_gt _ _)) by lia. cbn [orb]. by rewrite take_ge by lia.
Qed.

Lemma ctl_end_listing ok t c : c_done c = false -> ctl_end ok t (set_listing 0 c) = ctl_end ok t c.
Proof. intros Hd. unfold ctl_end. cbn [c_done set_listing]. by rewrite Hd. Qed.

(** A line of the log. *)
Lemma log_line_step at_ k c w (Q : bytes * Z -> world -> Prop) : at_conn k c w ->
  (forall r w', at_conn k c w' -> same w w' -> (r.1 = [] \/ exists s, r.1 = s ++ [10] /\ flat s) -> zlen r.1 <= LOG_LINE -> Q r w') ->
  wp (run_log (log_line at_)) Q w.
Proof.
  intros HA HQ. pose proof HA as [[HQt HC] _].
  assert (forall L, log_ok L -> lwp (log_line at_) (fun _ => log_ok) L) as Hl.
  { intros L HL. eapply lwp_mono; [by apply log_line_fits|]. by intros r L' [H _]. }
  pose proof (tameM_quiet _ (tameM_run_log _ Hl) w HQt) as H1.
  assert (wp (run_log (log_line at_)) (fun r _ => (r.1 = [] \/ exists s, r.1 = s ++ [10] /\ flat s) /\ zlen r.1 <= LOG_LINE) w) as H2.
  { eapply run_log_spec; [apply log_line_fits, log_ok_calls, quiet_side, HQt|]. by intros r L [_ H]. }
  pose proof (frameM_run_log (log_line at_) w) as H3. unfold wp in *. destruct (run_log _ w) as [r w'| | |]; try done.
  destruct H2 as [H2 H2']. apply HQ; [|done..]. eapply at_conn_same; [done| |done]. split; [done|by eapply ctl_ok_same].
Qed.

(** Filling ends, because each turn of it adds to the reply or ends it. *)
Lemma fill_loop_spec fuel k c w : at_conn k c w -> CTL_OUT - zlen (c_out c) < Z.of_nat fuel ->
  wp (fill_loop fuel k) (fun _ w' => (exists c', at_conn k c' w') /\ length (conns w') = length (conns w)) w.
Proof.
  revert c w. induction fuel as [|fuel IH]; intros c w HA Hf; pose proof (served_conn _ _ _ (proj1 HA) (proj2 HA)) as Hc; pose proof (co_room _ Hc) as Hroom; [lia|].
  cbn [fill_loop]. apply wp_bind, (wp_conn_at k c); [done|].
  destruct (Z.eqb_spec (listing c) 0) as [|Hl0]; cbn [orb]; [apply wp_ret; eauto|].
  destruct (Z.ltb_spec CTL_OUT (zlen (c_out c) + CTL_STATUS_LINE)) as [|Hfit]; [apply wp_ret; eauto|].
  pose proof (listing_open _ Hc Hl0) as Hd. assert (zlen (c_out c) < CTL_OUT - 128) as Hbig by (unfold CTL_OUT, CTL_STATUS_LINE, NCTL_TAG_LEN, NG_MAX_NAME in *; lia).
  destruct (Z.eqb_spec (listing c) 2) as [Hl2|Hl2].
  - destruct (Z.ltb_spec (CTL_OUT - LOG_LINE - NCTL_TAG_LEN) (zlen (c_out c))) as [|Hspace]; [apply wp_ret; eauto|].
    apply wp_bind, (log_line_step _ k c); [done|]. intros r w1 HA1 S1 Hr Hrl.
    assert (length (conns w1) = length (conns w)) as Hlen1 by (by destruct S1 as [-> _]).
    apply wp_bind, (at_conn_mod k _ c); [done|by apply conn_ok_log_at|done|]. intros w2 HA2 Hlen2 _. set (c2 := set_log_at r.2 c) in *.
    assert (conn_ok c2) as Hc2 by (by apply conn_ok_log_at).
    destruct (decide (r.1 = [])) as [Er|Er].
    + apply wp_when; intros Hw; [|split; [eauto|congruence]].
      apply (at_conn_mod k (fun c => ctl_end true (bs "end of log") (set_listing 0 c)) c2); [done| |intros j; apply (ctl_end_svc true (bs "end of log") (set_listing 0 c2))|intros w3 HA3 Hlen3 _; split; [eauto|congruence]].
      rewrite ctl_end_listing by done. apply (ctl_end_ok true (bs "end of log") c2); [done|done|by apply flat_b|done|].
      change (zlen (bs "end of log")) with 10. unfold c2, CTL_BUF, CTL_OUT in *. simpl. lia.
    + destruct Hr as [Hr|(s & Hr & Hs)]; [done|]. unfold out_put. apply wp_bind, wp_bind, (wp_conn_at k c2); [done|].
      assert (zlen (c_out c2) + zlen (NCTL_DATA ++ r.1) <= CTL_OUT) as Hfit2.
      { unfold zlen, NCTL_TAG_LEN in *. rewrite length_app. change (length NCTL_DATA) with 2%nat. unfold c2. simpl. lia. }
      assert (0 < zlen (NCTL_DATA ++ r.1)) as Hpos by (unfold zlen; rewrite length_app; simpl; lia).
      rewrite (proj2 (Z.ltb_ge _ _)) by (unfold zlen in *; rewrite length_app; lia).
      apply (at_conn_mod k _ c2); [done| |done|].
      { apply conn_ok_line; [done..| |done]. exists s. split; [by rewrite Hr|done]. }
      intros w3 HA3 Hlen3 _. eapply wp_mono; [apply (IH _ w3 HA3)|].
      * assert (zlen (c_out (set_c_out (c_out c2 ++ NCTL_DATA ++ r.1) c2)) = zlen (c_out c) + zlen (NCTL_DATA ++ r.1)) as -> by (unfold zlen; cbn [c_out set_c_out c2 set_log_at]; rewrite length_app; lia). lia.
      * intros [] w4 [H4 H5]. split; [done|congruence].
  - pose proof (co_at _ Hc) as Hat. destruct (Z.leb_spec (Z.of_nat n_svc) (list_at c)) as [|Hlt].
    + apply wp_bind, wp_gets. set (t := _ ++ _). apply (at_conn_mod k (fun c => ctl_end true t (set_listing 0 c)) c); [done| | |intros w3 HA3 Hlen3 _; split; [eauto|done]].
      * rewrite ctl_end_listing by done. apply (ctl_end_ok true t c); [done|done| |done|].
        { unfold t. repeat apply flat_app; auto with flat. }
        assert (zlen t <= 57). { unfold t, zlen. rewrite !length_app. pose proof (length_dec (Z.of_nat n_svc)). pose proof (length_dec (n_up (w_dep w))).
          change (length (bs " services, ")) with 11%nat. change (length (bs " up")) with 3%nat. lia. }
        unfold CTL_BUF, CTL_OUT in *. lia.
      * intros j. apply (ctl_end_svc true t (set_listing 0 c)).
    + pose proof n_svc_bound. apply wp_bind, (at_conn_mod k _ c); [done| |done|].
      { apply conn_ok_list_at; [done|]. rewrite u32_small; lia. }
      intros w1 HA1 Hlen1 Ew1. rewrite u32_small in * by lia. set (c1 := set_list_at _ c) in *.
      apply wp_bind. eapply wp_mono; [apply status_line_spec; [apply HA1|lia]|]. intros t w2 (-> & Ht & Htl).
      pose proof (served_conn _ _ _ (proj1 HA1) (proj2 HA1)) as Hc1.
      assert (ctl_out t c1 = set_c_out (c_out c1 ++ t) c1) as Eout by (by apply ctl_out_fits).
      apply wp_bind, (at_conn_mod k _ c1); [done| |by rewrite Eout|].
      { rewrite Eout. apply conn_ok_line; [done..|]. unfold c1. simpl. lia. }
      intros w3 HA3 Hlen3 _. eapply wp_mono; [apply (IH _ w3 HA3)|].
      * rewrite Eout. destruct Ht as (t' & -> & _). unfold zlen, c1 in *. simpl. rewrite !length_app. simpl. lia.
      * intros [] w4 [H4 H5]. split; [done|congruence].
Qed.
End Serve.
