(* ===== verification/Requests.v ===== *)
(** * Replies and requests of the control connections (src/control.c)

    Writing a reply, dropping a connection, handling the request a connection
    has sent, and accepting a new one: each returns and keeps the connections
    and the supervisor well-formed. *)

From stdpp Require Import gmap.
From S2P Require Import Prelude Ngraph PidMap Ring Log Console Repeat Logged World Sys Inv Live Cgroup Fail Emerg Output State Spawn Release Reap Halt Stop Frame Command Control Clients Serve.

Section Requests.
Context `{E : Env} `{!EnvOk E}.

(** ** Writing *)

Lemma conn_ok_out_at v c : conn_ok c -> 0 <= v <= zlen (c_out c) -> conn_ok (set_out_at v c).
Proof. intros [] Hv. by constructor. Qed.

Lemma emit_quiet e : event_ok e -> quietM (emit e).
Proof. intros He. by apply tameM_quiet, tameM_emit. Qed.

Lemma call_quiet {A} (f : nat -> A) : quietM (call f).
Proof. apply tameM_quiet, tameM_call. Qed.

Lemma emit_frame e : frameM (emit e).
Proof. by intros w. Qed.

Lemma call_frame {A} (f : nat -> A) : frameM (call f).
Proof. by intros w. Qed.

(** A call, on a connection. *)
Lemma at_conn_call {A B} (g : nat -> A) (f : A -> M B) (Q : B -> world -> Prop) k c w : at_conn k c w ->
  (forall w', at_conn k c w' -> length (conns w') = length (conns w) -> calls w' = S (calls w) -> trace w' = trace w -> wp (f (g (calls w))) Q w') ->
  wp (call g ≫= f) Q w.
Proof.
  intros HA HQ. pose proof (served_frame (call g) w (call_quiet g) (call_frame g) (proj1 HA)) as H1. unfold wp in *. simpl in *.
  destruct H1 as [H1 H2]. apply HQ; [|done..]. by eapply at_conn_same.
Qed.

(** What has been written to a descriptor, from the latest event back. *)
Fixpoint sent (fd : Z) (l : list event) : bytes :=
  match l with
  | [] => []
  | EvSent f b :: l' => sent fd l' ++ (if f =? fd then b else [])
  | _ :: l' => sent fd l'
  end.

(** How a flush from [w0] ends: what was written is the part of the output it
    has moved past, and what is left waits, the peer is gone, or all is written,
    and then the connection [k] of [w1] starts over. *)
Definition flushed (w0 : world) (k : nat) (c : conn) (rc : Z) (w : world) : Prop := exists at_ w1,
  at_conn k (set_out_at at_ c) w1 /\ out_at c <= at_ /\
  sent (c_fd c) (trace w1) = sent (c_fd c) (trace w0) ++ take (Z.to_nat (at_ - out_at c)) (drop (Z.to_nat (out_at c)) (c_out c)) /\
  ((rc = 0 \/ rc = -1) /\ w = w1 \/
   rc = 1 /\ at_ = zlen (c_out c) /\ w = set_conns (<[k := set_out_at 0 (set_c_out [] c)]> (conns w1)) w1).

Lemma flushed_here rc k c w w1 : at_conn k c w1 -> trace w1 = trace w -> rc = 0 \/ rc = -1 -> flushed w k c rc w1.
Proof.
  intros HA Et Hrc. exists (out_at c), w1. assert (set_out_at (out_at c) c = c) as -> by (by destruct c).
  rewrite Et, Z.sub_diag. simpl. rewrite app_nil_r. split; [done|]. split; [lia|]. split; [done|]. by left.
Qed.

Lemma flush_loop_spec fuel d k c w : at_conn k c w ->
  (forall b, os_write (calls w + d)%nat (c_fd c) b <> inr EINTR) -> (d < os_patience)%nat ->
  (Z.to_nat (zlen (c_out c) - out_at c) * S os_patience + d < fuel)%nat ->
  wp (flush_loop fuel k) (fun rc w' => flushed w k c rc w' /\ length (conns w') = length (conns w)) w.
Proof.
  revert d c w. induction fuel as [|fuel IH]; intros d c w HA Hd Hdp Hf; [by apply Nat.nlt_0_r in Hf|].
  pose proof (served_conn _ _ _ (proj1 HA) (proj2 HA)) as Hc. pose proof (co_out _ Hc) as Hat. pose proof (co_room _ Hc) as Hroom.
  cbn [flush_loop]. apply wp_bind, (wp_conn_at k c); [done|].
  destruct (Z.leb_spec (zlen (c_out c)) (out_at c)) as [Hdone|Hmore].
  - apply wp_bind, (wp_mod_conn _ _ c); [apply HA|]. apply wp_ret. split; [|simpl; by rewrite length_insert].
    exists (out_at c), w. assert (set_out_at (out_at c) c = c) as -> by (by destruct c). split; [done|]. split; [lia|].
    rewrite Z.sub_diag. simpl. rewrite app_nil_r. split; [done|]. right. split; [done|]. split; [lia|done].
  - set (rest := drop _ _). assert (0 < zlen rest <= zlen (c_out c) - out_at c) as Hrest by (unfold zlen in *; subst rest; rewrite length_drop; lia).
    apply (at_conn_call _ _ _ k c); [done|]. intros w1 HA1 Hlen1 Ec1 Et1.
    destruct (os_write (calls w) (c_fd c) rest) as [n|e] eqn:Hw.
    + pose proof (ok_write _ _ _ _ Hw) as Hn. unfold blen in Hn. change (Z.of_nat (length rest)) with (zlen rest) in Hn.
      destruct (Z.ltb_spec 0 n) as [Hpos|Hnon]; [|apply wp_ret; split; [apply flushed_here; auto|done]].
      apply wp_bind. unfold emit at 1. apply wp_modify. set (w2 := set_trace _ w1).
      assert (at_conn k c w2) as HA2.
      { pose proof (served_frame (emit (EvSent (c_fd c) (take (Z.to_nat n) rest))) w1 (emit_quiet (EvSent (c_fd c) (take (Z.to_nat n) rest)) I) (emit_frame _) (proj1 HA1)) as [H1 H2].
        by eapply (at_conn_same k c w1). }
      rewrite u16_small by (unfold CTL_OUT in *; lia).
      apply wp_bind, (at_conn_mod k _ c); [done|apply conn_ok_out_at; [done|lia]|done|]. intros w3 HA3 Hlen3 Ew3.
      destruct (ok_wintr (calls w3) (c_fd c)) as (d3 & Hd3 & Hi3).
      eapply wp_mono; [apply (IH d3 (set_out_at (out_at c + n) c) w3); [done|done|done|]|].
      * cbn [c_out out_at set_out_at]. nia.
      * intros rc w4 [(at4 & w5 & H5 & Hge & Hs5 & H6) Hl4]. split; [|etrans; [exact Hl4|]; etrans; [exact Hlen3|done]].
        exists at4, w5. cbn [out_at c_out c_fd set_out_at] in *.
        assert (set_out_at at4 (set_out_at (out_at c + n) c) = set_out_at at4 c) as Eat by (by destruct c). rewrite Eat in H5.
        split; [done|]. split; [lia|]. split; [|by destruct c].
        rewrite Hs5, Ew3. cbn [trace set_conns]. unfold w2. cbn [trace set_trace sent]. rewrite Z.eqb_refl, Et1, <- app_assoc. f_equal.
        replace (Z.to_nat (at4 - out_at c)) with (Z.to_nat n + Z.to_nat (at4 - (out_at c + n)))%nat by lia.
        rewrite <- take_take_drop. f_equal. unfold rest. rewrite drop_drop. do 2 f_equal. lia.
    + destruct (Z.eqb_spec e EINTR) as [->|Hne].
      * destruct d as [|d]; [rewrite Nat.add_0_r in Hd; by apply Hd in Hw|].
        eapply wp_mono; [apply (IH d c w1 HA1)|].
        -- intros b. rewrite Ec1. replace (S (calls w) + d)%nat with (calls w + S d)%nat by lia. apply Hd.
        -- lia.
        -- lia.
        -- intros rc w4 [(at4 & w5 & H4) H5]. split; [|congruence]. exists at4, w5. by rewrite Et1 in H4.
      * apply wp_ret. split; [|done]. apply flushed_here; [done|done|]. destruct (e =? EAGAIN); auto.
Qed.

Lemma ctl_flush_spec k c w : at_conn k c w ->
  wp (ctl_flush k) (fun rc w' => flushed w k c rc w' /\ length (conns w') = length (conns w)) w.
Proof.
  intros HA. destruct (ok_wintr (calls w) (c_fd c)) as (d & Hd & Hi). eapply flush_loop_spec; [done|done|done|].
  pose proof (served_conn _ _ _ (proj1 HA) (proj2 HA)) as Hc. pose proof (co_out _ Hc) as Hat. pose proof (co_room _ Hc) as Hroom.
  unfold flush_fuel. assert (Z.to_nat (zlen (c_out c) - out_at c) <= Z.to_nat CTL_OUT)%nat by lia. nia.
Qed.

(** ** Dropping a connection *)

(** The last connection takes the place of the one that is dropped. *)
Lemma dropped_lookup (cs : list conn) (k : nat) (l : conn) j c : last cs = Some l -> (k < length cs)%nat ->
  take (length cs - 1) (<[k := l]> cs) !! j = Some c -> exists j', j' <> k /\ cs !! j' = Some c.
Proof.
  intros Hl Hk Hj. rewrite last_lookup in Hl. apply lookup_take_Some in Hj as [Hj Hlt].
  destruct (decide (j = k)) as [->|Hne].
  - rewrite list_lookup_insert_eq in Hj by done. simplify_eq. exists (pred (length cs)). split; [lia|done].
  - rewrite list_lookup_insert_ne in Hj by done. by exists j.
Qed.

Lemma ctl_drop_spec k c w : served w -> (k < length (conns w))%nat ->
  wp (ctl_drop k) (fun _ w' => served w' /\ length (conns w') = (length (conns w) - 1)%nat) (set_conns (<[k := c]> (conns w)) w).
Proof.
  intros [HQ [H1 H2 H3]] Hk. unfold ctl_drop. apply wp_bind, wp_gets. set (cs := conns (set_conns _ w)).
  assert (cs = <[k := c]> (conns w)) as Ecs by done. assert (length cs = length (conns w)) as Hlen by (by rewrite Ecs, length_insert).
  destruct (last cs) as [l|] eqn:Hl; [|apply last_None in Hl; rewrite Hl in Hlen; simpl in Hlen; lia].
  apply wp_bind. eapply wp_lift; [done|]. apply wp_bind. unfold store. rewrite decide_True by lia. apply wp_ret. apply wp_modify.
  rewrite length_insert. assert (forall j c', take (length cs - 1) (<[k:=l]> cs) !! j = Some c' -> exists j', conns w !! j' = Some c') as Hsub.
  { intros j c' Hj. destruct (dropped_lookup cs k l j c') as (j' & Hne & Hj'); [done|lia|done|].
    exists j'. rewrite Ecs, list_lookup_insert_ne in Hj' by done. done. }
  split; [|simpl; rewrite length_take, length_insert; lia]. split; [apply quiet_conns; by apply quiet_conns|]. constructor; simpl.
  - rewrite length_take, length_insert. lia.
  - apply Forall_lookup. intros j c' Hj. destruct (Hsub j c' Hj) as [j' Hj']. by eapply Forall_lookup_1.
  - intros j c' i Hj Hc Hx. destruct (Hsub j c' Hj) as [j' Hj']. by apply (H3 j' c' i).
Qed.

Lemma ctl_drop_served k c w : at_conn k c w ->
  wp (ctl_drop k) (fun _ w' => served w' /\ length (conns w') = (length (conns w) - 1)%nat) w.
Proof.
  intros [HS Hk]. pose proof (ctl_drop_spec k c w HS (lookup_lt_Some _ _ _ Hk)) as Hd. rewrite (list_insert_id _ _ _ Hk) in Hd.
  by destruct w.
Qed.

(** At most one connection fewer. *)
Definition shrinks (w w' : world) : Prop := (length (conns w) - 1 <= length (conns w') <= length (conns w))%nat.

Lemma shrinks_refl w w' : length (conns w') = length (conns w) -> shrinks w w'.
Proof. unfold shrinks. lia. Qed.

(** A reply that is done is dropped when all of it is written, so no connection
    is left with a last line behind it. *)
Lemma ctl_pump_spec k c w : at_conn k c w -> wp (ctl_pump k) (fun _ w' => served w' /\ shrinks w w') w.
Proof.
  intros HA. unfold ctl_pump, ctl_fill. pose proof (served_conn _ _ _ (proj1 HA) (proj2 HA)) as Hc0.
  apply wp_bind. eapply wp_mono; [apply (fill_loop_spec _ k c); [done|]|].
  { unfold zlen. lia. }
  intros [] w1 [[c1 HA1] Hlen1]. pose proof (served_conn _ _ _ (proj1 HA1) (proj2 HA1)) as Hc.
  apply wp_bind. eapply wp_mono; [by apply ctl_flush_spec|]. intros rc w2 [(at_ & w3 & HA3 & _ & _ & Hrc) Hlen2].
  destruct Hrc as [[Hrc ->]|(-> & _ & Ew2)].
  - destruct (Z.eqb_spec rc 0) as [->|Hne]; [apply wp_ret; split; [apply HA3|apply shrinks_refl; congruence]|].
    apply wp_bind, (wp_conn_at k _ _ _ HA3). apply wp_when; intros _.
    + eapply wp_mono; [by apply (ctl_drop_served k _ _ HA3)|]. intros [] w4 [H4 H5]. split; [done|unfold shrinks; lia].
    + split; [apply HA3|apply shrinks_refl; congruence].
  - simpl. assert (k < length (conns w3))%nat as Hk3 by (by apply (lookup_lt_Some _ _ _ (proj2 HA3))).
    apply wp_bind. unfold conn_at. assert (conns w2 !! k = Some (set_out_at 0 (set_c_out [] c1))) as Hk2 by (rewrite Ew2; simpl; by apply list_lookup_insert_eq). apply (wp_rd _ _ _ _ _ Hk2).
    change (c_done (set_out_at 0 (set_c_out [] c1))) with (c_done c1).
    apply wp_when; intros Hd.
    + rewrite Ew2 in *. simpl in Hlen2. rewrite length_insert in Hlen2. eapply wp_mono; [apply ctl_drop_spec; [apply HA3|done]|]. intros [] w4 [H4 H5]. split; [done|]. unfold shrinks. lia.
    + rewrite Ew2 in *. simpl in Hlen2. rewrite length_insert in Hlen2. split; [|apply shrinks_refl; simpl; rewrite length_insert; congruence].
      pose proof (served_conn _ _ _ (proj1 HA3) (proj2 HA3)) as Hc3.
      assert (set_out_at 0 (set_c_out [] c1) = (fun c => set_out_at 0 (set_c_out [] c)) (set_out_at at_ c1)) as -> by (by destruct c1).
      apply (served_mod k (fun c => set_out_at 0 (set_c_out [] c)) (set_out_at at_ c1)); [apply HA3|apply HA3| |done].
      destruct Hc3. constructor; cbn in *; try done.
      rewrite Hd in *. exists [], []. by split_ands.
Qed.

(** ** The text of a request *)

Lemma flat_sub (a b : bytes) : (forall x, x ∈ a -> x ∈ b) -> flat b -> flat a.
Proof. unfold flat. auto. Qed.

Lemma upto_sub c (s : bytes) x : x ∈ upto c s -> x ∈ s.
Proof.
  induction s as [|y s IH]; simpl; [done|]. destruct (y =? c); [by intros ?%not_elem_of_nil|].
  rewrite !elem_of_cons. naive_solver.
Qed.

Lemma upto_flat (s : bytes) : flat (upto 10 s).
Proof.
  unfold flat. induction s as [|y s IH]; simpl; [by apply not_elem_of_nil|]. destruct (Z.eqb_spec y 10); [by apply not_elem_of_nil|].
  rewrite not_elem_of_cons. auto.
Qed.

Lemma cut0_sub (s : bytes) x : x ∈ cut0 s -> x ∈ s.
Proof.
  induction s as [|y s IH]; simpl; [done|]. destruct (y =? 0); [by intros ?%not_elem_of_nil|].
  rewrite !elem_of_cons. naive_solver.
Qed.

Lemma request_flat l : flat (request l).
Proof. unfold request. apply (flat_sub _ (upto 10 l)); [|apply upto_flat]. intros x Hx%upto_sub. by apply cut0_sub. Qed.

Lemma past_sub c (s a : bytes) x : past c s = Some a -> x ∈ a -> x ∈ s.
Proof.
  induction s as [|y s IH]; simpl; [done|]. destruct (y =? c); [intros [= ->]; by right|]. intros Hp Hx. right. by apply IH.
Qed.

Lemma skip_char_sub c (s : bytes) x : x ∈ skip_char c s -> x ∈ s.
Proof. induction s as [|y s IH]; simpl; [done|]. destruct (y =? c); [|done]. intros Hx. right. by apply IH. Qed.

Lemma strtok_flat line : flat line -> flat (strtok line).
Proof. apply flat_sub. intros x. apply upto_sub. Qed.

Lemma argument_flat line a : flat line -> argument line = Some a -> flat a.
Proof.
  unfold argument. intros Hl. destruct (past 32 line) as [b|] eqn:Hp; [|done]. destruct (decide _); [done|]. intros [= <-].
  revert Hl. apply flat_sub. intros x Hx%skip_char_sub. by eapply past_sub.
Qed.
End Requests.

(** * Handling a request *)

Section Commands.
Context `{E : Env} `{!EnvOk E}.

(** What a request leaves: as many connections, all of them good. *)
Definition answers (w : world) (m : M unit) : Prop := wp m (fun _ w' => served w' /\ length (conns w') = length (conns w)) w.

(** A reply of one data line. *)
Lemma conn_ok_reply l t c : conn_ok c -> idle c -> c_svc c = None -> data_line l -> zlen l < CTL_STATUS_LINE + 1 -> flat t ->
  conn_ok (ctl_end true t (ctl_out l c)).
Proof.
  intros Hc [Hd Hli] Hsv Hl Hn Ht. pose proof (co_idle _ Hc Hd Hli) as Ho.
  unfold CTL_STATUS_LINE, NCTL_TAG_LEN, NG_MAX_NAME in Hn.
  assert (ctl_out l c = set_c_out l c) as ->.
  { unfold ctl_out. rewrite Hd, Ho. change (zlen (@nil Z)) with 0. change (CTL_OUT - 128 <=? 0) with false. cbn [orb app].
    rewrite take_ge; [done|]. unfold CTL_OUT, zlen in *. lia. }
  set (c1 := set_listing 1 (set_c_out l c)).
  assert (conn_ok c1) as Hc1.
  { destruct Hc. constructor; cbn in *; try done; try (by auto).
    - rewrite Ho in *. change (zlen (@nil Z)) with 0 in *. pose proof (Zle_0_nat (length l)). unfold zlen. lia.
    - unfold CTL_OUT, zlen in *. lia.
    - rewrite Hd. exists [l], []. simpl. rewrite !app_nil_r. split; [done|]. split; [by constructor|done].
    - intros Hcd. congruence. }
  assert (ctl_end true t (set_c_out l c) = ctl_end true t c1) as ->.
  { unfold c1. unfold ctl_end. cbn [c_done set_listing set_c_out]. by rewrite Hd. }
  assert (zlen (c_out c1) = zlen l) as Hz by done. pose proof (Zle_0_nat (length t)).
  apply ctl_end_ok; [done|done|done| |]; rewrite Hz; unfold CTL_OUT, CTL_BUF in *; lia.
Qed.

(** The connection is about to be answered. *)
Definition asks (k : nat) (c : conn) (w : world) : Prop := at_conn k c w /\ idle c /\ c_svc c = None.

Lemma asks_frame {B} (m : M B) (f : B -> M unit) k c w : quietM m -> frameM m -> asks k c w ->
  (forall a w', asks k c w' -> same w w' -> answers w' (f a)) -> answers w (m ≫= f).
Proof.
  intros Hq Hf [HA Hi] HQ. eapply served_step; [done|done|apply HA|]. intros a w' HS S.
  eapply wp_mono; [apply (HQ a w'); [split; [by eapply at_conn_same|done]|done]|].
  intros [] w2 [H1 H2]. split; [done|]. by destruct S as [<- _].
Qed.

Lemma answers_conn k f c w : asks k c w -> conn_ok (f c) -> (forall j, c_svc (f c) = Some j -> c_svc c = Some j) -> answers w (mod_conn k f).
Proof.
  intros [HA _] Hok Hs. apply (at_conn_mod k f c); [done..|]. intros w' HA' Hl _. split; [apply HA'|done].
Qed.

Lemma refuse_spec k t c w : asks k c w -> flat t -> answers w (refuse k t).
Proof.
  intros HA Ht. pose proof HA as ([HS Hk] & [Hd Hl] & Hs). apply (answers_conn k _ c); [done| |intros j; apply ctl_end_svc].
  apply ctl_end_idle; [by apply (served_conn k c w)|done..].
Qed.

(** Two changes of the connection, with nothing between them. *)
Lemma reply_spec k l t c w : asks k c w -> data_line l -> zlen l < CTL_STATUS_LINE + 1 -> flat t ->
  answers w (mod_conn k (ctl_out l);; mod_conn k (ctl_end true t)).
Proof.
  intros ([HS Hk] & Hi & Hs) Hl Hn Ht. pose proof (lookup_lt_Some _ _ _ Hk) as Hlt.
  apply wp_bind, (wp_mod_conn _ _ c); [done|]. set (w1 := set_conns _ w).
  assert (conns w1 !! k = Some (ctl_out l c)) as Hk1 by (simpl; by apply list_lookup_insert_eq).
  apply (wp_mod_conn _ _ _ _ _ Hk1). simpl. rewrite list_insert_insert_eq. split; [|by rewrite length_insert].
  apply (served_mod k (fun c => ctl_end true t (ctl_out l c)) c w); [done..| |].
  - by apply conn_ok_reply; [apply (served_conn k c w)|..].
  - intros j Hj%ctl_end_svc. unfold ctl_out in Hj. by destruct (_ || _).
Qed.

Lemma name_of_spec i w : (i < n_svc)%nat -> wp (name_of i) (fun nm w' => w' = w /\ flat nm) w.
Proof.
  intros Hi. destruct (name_lookup i Hi) as [nm Hnm]. unfold name_of. eapply wp_lift; [done|]. split; [done|]. by apply (name_flat i nm Hnm).
Qed.

Lemma find_name_lt names nm k i : find_name names nm k = Some i -> (k <= i < k + length names)%nat.
Proof.
  revert k. induction names as [|x names IH]; intros k; simpl; [done|]. destruct (bytes_eqb x nm).
  - intros [= ->]. lia.
  - intros Hf%IH. lia.
Qed.

Lemma ctl_find_lt nm i : ctl_find nm = Some i -> (i < n_svc)%nat.
Proof. intros Hf%find_name_lt. pose proof (gw_name _ ok_graph) as Hl. unfold n_svc. lia. Qed.

Lemma cmd_status_spec k arg c w : asks k c w -> (forall a, arg = Some a -> flat a) -> answers w (cmd_status k arg).
Proof.
  intros HA Ha. pose proof HA as ([HS Hk] & [Hd Hl] & Hs). pose proof (served_conn _ _ _ HS Hk) as Hc. destruct arg as [nm|]; cbn [cmd_status].
  - destruct (ctl_find nm) as [i|] eqn:Hf; [|apply (refuse_spec k _ c); [done|]; apply flat_app; [by apply flat_b|by apply Ha]].
    pose proof (ctl_find_lt _ _ Hf) as Hi. apply wp_bind. eapply wp_mono; [by apply status_line_spec|]. intros t w1 (-> & Ht & Htl).
    destruct (name_lookup i Hi) as [nm' Hnm]. destruct (name_flat i nm' Hnm) as [Hfl _].
    pose proof (reply_spec k t nm' c w HA Ht ltac:(lia) Hfl) as HR.
    unfold answers, wp, mbind, M_bind, name_of, lift in *. rewrite Hnm. destruct (mod_conn k (ctl_out t) w) as [[] w1| | |]; done.
  - apply (answers_conn k _ c); [done| |done]. pose proof n_svc_bound. pose proof (co_idle _ Hc Hd Hl) as Ho.
    destruct Hc. constructor; cbn in *; try done; try lia. intros Hw. congruence.
Qed.

Lemma cmd_log_spec k arg c w : asks k c w -> (forall a, arg = Some a -> flat a) -> answers w (cmd_log k arg).
Proof.
  intros HA Ha. pose proof HA as ([HS Hk] & [Hd Hl] & Hs). pose proof (served_conn _ _ _ HS Hk) as Hc. unfold cmd_log.
  apply wp_bind, wp_gets. destruct (decide (arg = Some (bs "time"))) as [_|_].
  { destruct (_ <? 0); [apply (refuse_spec k _ c); [done|by apply flat_b]|].
    apply (reply_spec k _ _ c); [done| | |by apply flat_b].
    - exists (dec (boot_ms w) ++ bs " ms"). split; [by rewrite <- !app_assoc|]. auto with flat.
    - pose proof (length_dec (boot_ms w)). unfold zlen, CTL_STATUS_LINE, NCTL_TAG_LEN, NG_MAX_NAME. rewrite !length_app. simpl. lia. }
  destruct (_ && _).
  { apply (refuse_spec k _ c); [done|]. repeat apply flat_app; try (by apply flat_b). destruct arg as [a|]; [by apply Ha|by apply not_elem_of_nil]. }
  apply wp_bind, wp_gets. destruct (_ && _); [apply (refuse_spec k _ c); [done|by apply flat_b]|].
  apply wp_bind, wp_gets. apply (answers_conn k _ c); [done| |done]. pose proof (co_idle _ Hc Hd Hl) as Ho.
  destruct Hc. constructor; cbn in *; try done; try lia; auto. all: intros ?; congruence.
Qed.

(** An operation of an operator on the service [i]. *)
Lemma operate_spec k c i m w : asks k c w -> (i < n_svc)%nat -> quietM m -> ctlM (Some i) None m ->
  answers w (mod_conn k (set_c_svc (Some i));; m).
Proof.
  intros ([[HQ HC] Hk] & [Hd Hl] & Hs) Hi Hq Hm. apply wp_bind, (wp_mod_conn _ _ c); [done|]. set (w1 := set_conns _ w).
  assert (Quiet w1) as HQ1 by (by apply quiet_conns).
  pose proof (served_conn k c w (conj HQ HC) Hk) as Hok. pose proof (co_idle _ Hok Hd Hl) as Ho.
  assert (ctl_ok (Some i) w1) as HC1.
  { destruct HC as [H1 H2 H3]. constructor; simpl; [by rewrite length_insert| |].
    - apply Forall_insert; [done|]. destruct Hok. constructor; cbn in *; try done; auto. intros ?; congruence.
    - intros j c' i' Hj Hc' Hne. destruct (decide (j = k)) as [->|Hjk].
      + rewrite list_lookup_insert_eq in Hj by (by apply lookup_lt_Some in Hk). simplify_eq/=.
      + rewrite list_lookup_insert_ne in Hj by done. by apply (H3 j c' i'). }
  specialize (Hq w1 HQ1). specialize (Hm w1). unfold wp in *. destruct (m w1) as [a w'| | |]; try done.
  destruct (Hm HC1) as [H1 H2]. split; [done|]. rewrite H2. simpl. by rewrite length_insert.
Qed.

Lemma run_of_quiet i : (i < n_svc)%nat -> quietM (run_of i).
Proof. intros Hi. by apply tameM_quiet, tameM_run_of. Qed.

(** ctl_cmd: whatever the request, it is answered or its answer is under way. *)
Lemma ctl_cmd_spec k line c w : asks k c w -> flat line -> answers w (ctl_cmd k line).
Proof.
  intros HA Hline. pose proof HA as ([HS Hk] & [Hd Hl] & Hs). pose proof (strtok_flat _ Hline) as Hcmd.
  pose proof (fun a => argument_flat line a Hline) as Harg. unfold ctl_cmd.
  assert (forall t, flat t -> answers w (refuse k t)) as Href by (intros t; by apply (refuse_spec k t c)).
  destruct (decide (_ = bs "status")); [by apply (cmd_status_spec k _ c)|].
  destruct (decide (_ = bs "log")); [by apply (cmd_log_spec k _ c)|].
  destruct (decide (_ = bs "reload")); [apply Href; by apply flat_b|].
  apply wp_bind, wp_gets. destruct (decide (_ = bs "resume")).
  { destruct (shutting_down w); [apply Href; by apply flat_b|]. destruct HS as [HQ HC].
    pose proof (ctl_resume_quiet k w HQ) as H1.
    pose proof (ctl_resume_ctl k w HC) as H2. unfold answers, wp, post in *. destruct (ctl_resume k w); try done.
    destruct H2 as [H2 H3]; [|done]. intros c' Hc'. by simplify_eq. }
  destruct (_ && _); [apply Href; repeat apply flat_app; first [done|by apply flat_b]|].
  destruct (argument line) as [nm|] eqn:Ha; [|apply Href, flat_app; [done|by apply flat_b]]. specialize (Harg nm eq_refl).
  destruct (shutting_down w); [apply Href; by apply flat_b|].
  destruct (ctl_find nm) as [i|] eqn:Hf; [|apply Href, flat_app; [by apply flat_b|done]]. pose proof (ctl_find_lt _ _ Hf) as Hi.
  destruct (target_lookup i Hi) as [t Ht]. apply wp_bind. eapply wp_lift; [done|]. destruct t; [apply Href, flat_app; [done|by apply flat_b]|].
  eapply (asks_frame (run_of i)); [by apply run_of_quiet|frame_tac|done|]. intros r w1 HA1 S1.
  destruct (negb _). { apply (refuse_spec k _ c); [done|]. apply flat_app; [done|by apply flat_b]. }
  eapply (asks_frame (name_of i)); [apply tameM_quiet; by apply tameM_name|frame_tac|done|]. intros name w2 HA2 S2.
  eapply (asks_frame (log_note _)); [apply tameM_quiet; tame_tac|frame_tac|done|]. intros [] w3 HA3 S3.
  apply (operate_spec k c i); [done|done| |].
  - destruct (decide _); [by apply svc_op_stop_quiet|]. destruct (decide _); [by apply svc_op_stop_quiet|by apply svc_op_start_quiet].
  - destruct (decide _); [by apply svc_op_stop_ctl|]. destruct (decide _); [by apply svc_op_stop_ctl|by apply svc_op_start_ctl].
Qed.
End Commands.

(** * Reading, accepting, and the sweep of the event loop *)

Section Turn.
Context `{E : Env} `{!EnvOk E}.

Lemma conn_ok_in v c : conn_ok c -> zlen v <= CTL_BUF - 1 -> conn_ok (set_c_in v c).
Proof. intros [] Hv. by constructor. Qed.

Lemma drop_gone_spec (b : bool) k c w : at_conn k c w -> wp (when b (ctl_drop k)) (fun _ w' => served w' /\ shrinks w w') w.
Proof.
  intros HA. apply wp_when; intros _; [|split; [apply HA|by apply shrinks_refl]].
  eapply wp_mono; [by apply (ctl_drop_served k c)|]. intros [] w' [H1 H2]. split; [done|unfold shrinks; lia].
Qed.

Lemma shrinks_len w w1 w' : length (conns w1) = length (conns w) -> shrinks w1 w' -> shrinks w w'.
Proof. unfold shrinks. lia. Qed.

Lemma ctl_read_spec k c w : at_conn k c w -> wp (ctl_read k) (fun _ w' => served w' /\ shrinks w w') w.
Proof.
  intros HA. unfold ctl_read. apply wp_bind, (wp_conn_at k c); [done|]. pose proof (served_conn _ _ _ (proj1 HA) (proj2 HA)) as Hc.
  destruct (c_done c || _ || _) eqn:Hb.
  { apply (at_conn_call _ _ _ k c); [done|]. intros w1 HA1 Hl1 _ _. eapply wp_mono; [by apply (drop_gone_spec _ k c)|].
    intros [] w2 [H1 H2]. split; [done|by eapply shrinks_len]. }
  apply orb_false_iff in Hb as [[Hd Hl]%orb_false_iff Hs]. apply negb_false_iff, Z.eqb_eq in Hl. apply bool_decide_eq_false in Hs.
  assert (c_svc c = None) as Hsv by (by destruct (c_svc c); [destruct Hs|]).
  apply (at_conn_call _ _ _ k c); [done|]. intros w1 HA1 Hl1 _ _.
  destruct (os_read _ _ _) as [b| |e] eqn:Hr.
  2, 3: eapply wp_mono; [by apply (drop_gone_spec _ k c)|]; intros [] w2 [H1 H2]; split; [done|by eapply shrinks_len].
  pose proof (ok_read _ _ _ _ Hr) as Hb. pose proof (co_in _ Hc) as Hin.
  assert (zlen (c_in c ++ b) <= CTL_BUF - 1) as Hn by (unfold zlen in *; rewrite length_app; lia). rewrite (proj2 (Z.ltb_ge _ _)) by done.
  apply wp_bind, (at_conn_mod k (set_c_in (c_in c ++ b)) c); [done|by apply conn_ok_in|done|]. intros w2 HA2 Hl2 _. set (c2 := set_c_in _ c) in *.
  assert (asks k c2 w2) as HK by done.
  pose proof (lookup_lt_Some _ _ _ (proj2 HA2)) as Hk2.
  destruct (decide (10 ∈ c_in c ++ b)) as [Hnl|_].
  - apply wp_bind. eapply wp_mono; [apply (ctl_cmd_spec k _ c2 w2 HK), request_flat|]. intros [] w3 [HS3 Hl3].
    destruct (lookup_lt_is_Some_2 (conns w3) k) as [c3 Hk3]; [by rewrite Hl3|].
    apply wp_bind, (at_conn_mod k _ c3); [done|apply conn_ok_in; [by apply (served_conn k c3 w3)|by vm_compute]|done|]. intros w4 HA4 Hl4 _.
    eapply wp_mono; [by apply (ctl_pump_spec k _ w4 HA4)|]. intros [] w5 [H5 H6]. split; [done|]. eapply shrinks_len; [|done]. congruence.
  - apply wp_when; intros _; [|split; [apply HA2|apply shrinks_refl; congruence]].
    apply wp_bind. eapply wp_mono; [apply (refuse_spec k _ c2 w2 HK); by apply flat_b|]. intros [] w3 [HS3 Hl3].
    destruct (lookup_lt_is_Some_2 (conns w3) k) as [c3 Hk3]; [by rewrite Hl3|].
    eapply wp_mono; [by apply (ctl_pump_spec k c3 w3)|]. intros [] w5 [H5 H6]. split; [done|]. eapply shrinks_len; [|done]. congruence.
Qed.

(** A new connection has nothing to say yet. *)
Lemma fresh_conn_ok fd : conn_ok (Conn fd None 0 0 0 false false [] 0 []).
Proof.
  constructor; cbn; try done; try (by left); try (change (zlen (@nil Z)) with 0; unfold CTL_OUT, CTL_BUF; lia).
  exists [], []. by split_ands.
Qed.

Lemma accept_loop_spec fuel d w e e' : served w -> (d < fuel)%nat ->
  os_accept (calls w + d) = inr e -> os_accept (S (calls w + d)) = inr e' ->
  wp (accept_loop fuel) (fun _ w' => served w') w.
Proof.
  revert d w. induction fuel as [|fuel IH]; intros d w HS Hd Hd0 Hd1; [lia|]. cbn [accept_loop].
  assert (forall (f : nat -> sum Z Z) w, served w -> exists w', call f w = Ok (f (calls w)) w' /\ served w' /\ calls w' = S (calls w)) as Hcall.
  { intros f v HV. pose proof (served_frame (call f) v (call_quiet f) (call_frame f) HV) as [H1 _]. eexists. by split_ands. }
  unfold wp, mbind, M_bind. destruct (Hcall os_accept w HS) as (w1 & -> & HS1 & E1).
  destruct (os_accept (calls w)) as [fd|] eqn:Ha; [|done]. destruct d as [|d]; [rewrite Nat.add_0_r in Hd0; congruence|].
  unfold gets. destruct (decide (length (conns w1) = CTL_MAX)) as [Hm|Hm].
  - destruct (Hcall (fun n => os_write n fd BUSY) w1 HS1) as (w2 & E2 & HS2 & E3).
    rewrite E2. destruct d as [|d].
    + replace (S (calls w + 1)) with (calls w2 + 0)%nat in Hd1 by lia.
      destruct fuel as [|fuel]; [lia|]. cbn [accept_loop]. unfold mbind, M_bind. destruct (Hcall os_accept w2 HS2) as (w3 & -> & HS3 & E4).
      rewrite Nat.add_0_r in Hd1. by rewrite Hd1.
    + apply (IH d w2 HS2); [lia| |].
      * by replace (calls w2 + d)%nat with (calls w + S (S d))%nat by lia.
      * by replace (calls w2 + d)%nat with (calls w + S (S d))%nat by lia.
  - unfold modify. set (w2 := set_conns _ w1). assert (served w2) as HS2.
    { destruct HS1 as [HQ [H1 H2 H3]]. split; [by apply quiet_conns|]. constructor; simpl.
      - rewrite length_app. simpl. lia.
      - apply Forall_app. split; [done|]. constructor; [apply fresh_conn_ok|done].
      - intros k c i Hk Hc. apply lookup_app_Some in Hk as [Hk|[_ Hk]]; [by apply (H3 k c i)|].
        apply list_lookup_singleton_Some in Hk as [_ <-]. done. }
    apply (IH d w2 HS2); [lia| |].
    + by replace (calls w2 + d)%nat with (calls w + S d)%nat by (simpl; lia).
    + by replace (calls w2 + d)%nat with (calls w + S d)%nat by (simpl; lia).
Qed.

Lemma ctl_accept_spec w : served w -> wp ctl_accept (fun _ w' => served w') w.
Proof.
  intros HS. destruct (ok_accept (calls w)) as (d & e & e' & Hd & H1 & H2). by eapply accept_loop_spec.
Qed.

Lemma pump_down_spec n w : served w -> (n <= length (conns w))%nat -> wp (pump_down n) (fun _ w' => served w') w.
Proof.
  revert w. induction n as [|n IH]; intros w HS Hn; cbn [pump_down]; [by apply wp_ret|].
  destruct (lookup_lt_is_Some_2 (conns w) n) as [c Hk]; [lia|].
  apply wp_bind, (wp_conn_at n c); [done|]. apply wp_bind. apply wp_when; intros _; [|by apply IH; [|lia]].
  eapply wp_mono; [by apply (ctl_pump_spec n c)|]. intros [] w' [H1 H2]. apply IH; [done|]. unfold shrinks in H2. lia.
Qed.

Lemma pump_all_spec w : served w -> wp pump_all (fun _ w' => served w') w.
Proof. intros HS. unfold pump_all. apply wp_bind, wp_gets. by apply pump_down_spec. Qed.
End Turn.
