(* ===== verification/Loop.v ===== *)
(** * The event loop (src/ninit.c, src/signals.c)

    The start of the graph, the deadlines, and one turn of the loop of [main]
    for the services, the emergency shell, the control connections and the
    signals. *)

From stdpp Require Import gmap.
From S2P Require Import Prelude Ngraph PidMap Ring Log Console Repeat Logged World Sys Inv Live Cgroup Fail Emerg Output State Spawn Release Reap Steady Halt Stop Down Prereq Order Frame Command Control Clients Serve Requests.

Definition STALL_MS : Z := 10000.
Definition SIGNAL_POLL_MS : Z := 200.

Definition SIGINT : Z := 2.
Definition SIGUSR1 : Z := 10.
Definition SIGUSR2 : Z := 12.
Definition SIGCHLD : Z := 17.

Definition POLLIN : Z := 1.
Definition POLLOUT : Z := 4.
Definition POLLERR : Z := 8.
Definition POLLHUP : Z := 16.
Definition POLLNVAL : Z := 32.

Definition RB_AUTOBOOT : Z := 19088743.
(** 0xcdef0123 as an [int]. *)
Definition RB_HALT_SYSTEM : Z := -839974621.
Definition RB_POWER_OFF : Z := 1126301404.

(** [for(pid_mask = 64; pid_mask < 4 * n_svc; pid_mask *= 2)], ten doublings
    pass 4 * NG_MAX_SVC. *)
Fixpoint table_size (fuel : nat) (size n : Z) : Z :=
  match fuel with
  | O => size
  | S fuel' => if size <? 4 * n then table_size fuel' (size * 2) n else size
  end.

Definition zero_run : run :=
  Run 0 0 0 (-1) (-1) 0 0 0 false false 0 false false false false OP_NONE false [] [] 0 0.

Definition first_emerg : emerg := Emerg (-1) (-1) 0 (0, 0) 0 0 false 0 false 0 0.

(** What [start_graph] allocates: [table] is whether the pid table could be
    allocated, [cg] whether there are control groups, [L] the log by then, [sf]
    and [lfd] the descriptors of [setup_signals] and [ctl_init]. *)
Definition first_world (g : graph) (table cg : bool) (L : logst) (sf lfd : Z) : world :=
  let n := g_n g in
  {| w_ctr := Ctr (replicate n PENDING) 0 0 (Z.of_nat n);
     w_dep := Dep (replicate n false) 0 (unmet <$> g_svc g) (replicate n false) (replicate n 0%nat)
                0 0 false (replicate n 0%nat);
     w_lv := Lvs (replicate n 0%nat) 0;
     want := replicate n false;
     runs := replicate n zero_run;
     pids := if table then Some (pid_empty (table_size 10 64 (Z.of_nat n))) else None;
     n_ops := 0; drain_left := 0; drain_rotor := 0; shutting_down := false; boot_ms := -1;
     cg_ok := cg; clone3_ok := true; conns := []; w_emerg := first_emerg;
     w_log := L; sfd := sf; ctl_lfd := lfd;
     calls := 0; waits := 0; trace := [] |}.

Section Ops.
Context `{Env}.

Definition start_root (i : nat) : M unit :=
  t ← lift (is_target env_g i);
  if (t : bool) then nm ← name_of i; log_done nm;; complete i
  else svc_try_start i;; mret tt.

Definition start_graph : M unit :=
  log_note (bs "boot: " ++ dec (Z.of_nat n_svc) ++ bs " services, " ++ dec (Z.of_nat (g_roots env_g))
            ++ bs " roots");;
  mfor (g_roots env_g) 0 start_root.

(** One service of [check_timeouts]. *)
Definition timeout_one (now : Z) (i : nat) : M unit :=
  r ← run_of i;
  sm ← lift (ng_start_ms env_g i);
  if negb (starting r) || timedout r || (now - started r <? sm) then mret tt else
  when (0 <=? ntf_fd r)
    (if ntf_exec r then drain_exec os_patience i else drain_notify i DRAIN_FINAL_CHUNKS);;
  r ← run_of i;
  when (starting r && negb (timedout r))
    (nm ← name_of i;
     log_err (nm ++ bs ": start timed out after " ++ dec sm ++ bs " ms");;
     mod_run i (set_timedout true);;
     s ← st_of i;
     if decide (s = RUNNING) then service_failed i FAIL_ST_TIMEOUT else start_failed i FAIL_ST_TIMEOUT).

Definition check_timeouts (fuel : nat) : M unit :=
  now ← now_ms;
  sd ← gets shutting_down;
  if (sd : bool) then mret tt else live_loop fuel 0 (timeout_one now).

(** The soonest deadline of a service, -1 for none. *)
Definition due_of (now best : Z) (i : nat) : M Z :=
  r ← run_of i;
  sm ← lift (ng_start_ms env_g i);
  let best := if restart_at r =? 0 then best else ms_sooner best (ms_until (restart_at r) now) in
  let best := if starting r && negb (timedout r)
              then ms_sooner best (ms_until (started r + sm) now) else best in
  mret (if decide (op r = OP_NONE) then best else ms_sooner best (ms_until (op_at r) now)).

Fixpoint live_due_from (n k : nat) (now best : Z) : M Z :=
  match n with
  | O => mret best
  | S n' => i ← live_at k; best ← due_of now best i; live_due_from n' (S k) now best
  end.

Definition live_due (now : Z) : M Z := n ← n_live_of; live_due_from n 0 now (-1).

(** Whether a live service is about to start again. *)
Fixpoint boot_busy (n k : nat) : M bool :=
  match n with
  | O => mret false
  | S n' =>
      i ← live_at k; r ← run_of i;
      if negb (restart_at r =? 0) || negb (stale_pid r =? 0) then mret true else boot_busy n' (S k)
  end.

Definition check_boot_done (boot_t0 : Z) : M unit :=
  w ← gets id;
  if (0 <=? boot_ms w) || shutting_down w || (n_svc =? 0)%nat || negb (n_active (w_ctr w) =? 0)
  then mret tt else
  n ← n_live_of;
  busy ← boot_busy n 0;
  if (busy : bool) then mret tt else
  now ← now_ms;
  modify (set_boot_ms (now - boot_t0));;
  fail_summary;;
  c ← gets w_ctr;
  when (negb (n_pending c =? 0))
    (log_warn (bs "boot: " ++ dec (n_pending c) ++ bs " service" ++ plural (n_pending c)
               ++ bs " never started"));;
  log_note (bs "boot: " ++ dec (n_done c) ++ bs " of " ++ dec (Z.of_nat n_svc) ++ bs " services up in "
            ++ dec (now - boot_t0) ++ bs " ms").

(** The timeout of [poll]. *)
Definition poll_wait : M Z :=
  w ← gets id;
  let wait := if negb (n_active (w_ctr w) =? 0) && negb (shutting_down w) then STALL_MS else -1 in
  now ← now_ms;
  due ← live_due now;
  shell ← fail_emergency_due;
  log ← run_log log_due;
  s ← gets sfd;
  let wait := ms_sooner (ms_sooner (ms_sooner wait due) shell) log in
  mret (if s <? 0 then ms_sooner wait SIGNAL_POLL_MS else wait).

(** What a polled descriptor belongs to. *)
Inductive pf :=
  | PF_OUT (i : nat)
  | PF_NOTIFY (i : nat)
  | PF_EXEC (i : nat)
  | PF_SHELL
  | PF_LISTEN
  | PF_CTL (k : nat) (fd events : Z)
  | PF_CONSOLE.

(** [pfds[k].events] *)
Definition pf_events (p : pf) : Z :=
  match p with PF_CTL _ _ events => events | PF_CONSOLE => POLLOUT | _ => POLLIN end.

(** What [poll] reports of a descriptor: what was asked for, and errors. *)
Definition revents (events v : Z) : Z := Z.land v (Z.lor events (Z.lor POLLERR (Z.lor POLLHUP POLLNVAL))).

(** The descriptors of the service in slot [k] of the live list. *)
Definition poll_slot (k : nat) : M (list pf) :=
  i ← live_at k;
  r ← run_of i;
  mret ((if 0 <=? out_fd r then [PF_OUT i] else [])
        ++ (if 0 <=? ntf_fd r then [if ntf_exec r then PF_EXEC i else PF_NOTIFY i] else [])).

(** The slots from [start] on, around the list. *)
Fixpoint poll_slots (n start n_live : nat) : M (list pf) :=
  match n with
  | O => mret []
  | S n' =>
      let start := if decide (n_live <= start)%nat then O else start in
      a ← poll_slot start; b ← poll_slots n' (S start) n_live; mret (a ++ b)
  end.

(** A watcher that has caught up waits for new lines. *)
Definition ctl_events (R : ring) (c : conn) : Z :=
  if (out_at c <? zlen (c_out c)) || (negb (listing c =? 0) && (negb (listing c =? 2) || (log_at c <? ring_head R)))
  then Z.lor POLLIN POLLOUT else POLLIN.

Definition poll_ctl : M (list pf) :=
  lfd ← gets ctl_lfd;
  cs ← gets conns;
  R ← gets (fun w => l_ring (w_log w));
  mret (if 0 <=? lfd then PF_LISTEN :: imap (fun k c => PF_CTL k (c_fd c) (ctl_events R c)) cs else []).

Definition poll_set : M (list pf) :=
  n ← n_live_of;
  start ← (if decide (n = O) then mret O else
           i ← gets drain_rotor;
           l ← live_has i;
           if (l : bool) then r ← run_of i; mret (live_pos r) else mret O);
  a ← poll_slots n start n;
  e ← em;
  con ← run_log log_pending_fd;
  c ← poll_ctl;
  mret (a ++ (if 0 <=? emerg_bar e then [PF_SHELL] else []) ++ c ++ (if 0 <=? con then [PF_CONSOLE] else [])).

(** Whether the slot [k] still holds the connection that was polled: a reply may
    have closed and reshuffled the slots. *)
Definition ctl_here (k : nat) (fd : Z) : M bool :=
  cs ← gets conns;
  mret (match cs !! k with Some c => c_fd c =? fd | None => false end).

Definition handle_ctl (k : nat) (fd re : Z) : M unit :=
  here ← ctl_here k fd;
  if negb here then mret tt else
  when (negb (Z.land re (Z.lor POLLOUT (Z.lor POLLERR POLLHUP)) =? 0)) (ctl_pump k);;
  here ← ctl_here k fd;
  when (here && negb (Z.land re (Z.lor POLLIN (Z.lor POLLERR POLLHUP)) =? 0)) (ctl_read k).

Definition handle_pf (p : pf) (re : Z) : M unit :=
  match p with
  | PF_SHELL => fail_emergency_report
  | PF_LISTEN => ctl_accept
  | PF_CTL k fd _ => handle_ctl k fd re
  | PF_CONSOLE => run_log log_flush
  | PF_EXEC i => drain_exec os_patience i;; l ← live_has i; when l (maybe_free i)
  | PF_NOTIFY i => drain_notify i DRAIN_POLL_CHUNKS;; l ← live_has i; when l (maybe_free i)
  | PF_OUT i => drain_out i DRAIN_POLL_CHUNKS true;; l ← live_has i; when l (maybe_free i)
  end.

Definition report_stalls : M unit :=
  n ← n_live_of;
  mfor n 0 (fun k =>
    i ← live_at k;
    r ← run_of i;
    when (starting r)
      (nm ← name_of i;
       now ← now_ms;
       log_wait (nm ++ bs ": still running after " ++ dec (Z.quot (now - started r) 1000) ++ bs " s"))).

Definition dispatch_signal (signo : Z) : M unit :=
  if signo =? SIGCHLD then reap else
  if (signo =? SIGTERM) || (signo =? SIGINT) then shutdown_system RB_AUTOBOOT (bs "reboot") else
  if signo =? SIGUSR1 then shutdown_system RB_HALT_SYSTEM (bs "halt") else
  if signo =? SIGUSR2 then shutdown_system RB_POWER_OFF (bs "poweroff") else mret tt.

(** The signals that are pending. *)
Fixpoint handle_signals (fuel : nat) : M unit :=
  match fuel with
  | O => nofuel
  | S fuel' =>
      s ← call os_signal;
      match s with
      | None => mret tt
      | Some signo => dispatch_signal signo;; handle_signals fuel'
      end
  end.

(** Without a signalfd the signals are looked for. *)
Definition poll_signals : M unit :=
  s ← call os_signalfd;
  modify (set_sfd (match s with inl fd => fd | inr _ => -1 end));;
  s ← gets sfd;
  when (0 <=? s) (log_note (bs "signalfd: recovered"));;
  handle_signals os_patience.

(** The deadlines, before the loop waits. *)
Definition before_poll (fuel : nat) (boot_t0 : Z) : M unit :=
  run_log log_batch_begin;;
  modify (set_drain_left DRAIN_BUDGET);;
  fire_restarts fuel;;
  check_timeouts fuel;;
  ctl_tick fuel;;
  run_log log_tick;;
  pump_all;;
  check_boot_done boot_t0;;
  fail_emergency_tick;;
  s ← gets sfd;
  when (s <? 0) poll_signals.

(** The descriptors [poll] reports, in the order of the set. *)
Fixpoint handle_ready (n : nat) (k : nat) (l : list pf) : M unit :=
  match l with
  | [] => mret tt
  | p :: l' =>
      let re := revents (pf_events p) (os_poll n k) in
      when (negb (re =? 0)) (handle_pf p re);; handle_ready n (S k) l'
  end.

(** One turn of the loop: the deadlines, [poll], the signals, the descriptors
    that are ready. *)
Definition turn (fuel : nat) (boot_t0 : Z) : M unit :=
  before_poll fuel boot_t0;;
  l ← poll_set;
  poll_wait;;
  n ← call (fun n => n);
  when (negb (revents POLLIN (os_poll n 0) =? 0)) (handle_signals os_patience);;
  handle_ready n 1 l.

End Ops.

(** ** The start *)

Section Spec.
Context `{E : Env} `{!EnvOk E}.

Lemma root_lookup r : (r < g_roots env_g)%nat -> (r < n_svc)%nat /\ is_root r.
Proof.
  intros Hr. pose proof (gw_roots _ ok_graph). assert (r < n_svc)%nat as Hn by (unfold n_svc; lia). split; [done|].
  intros j He. destruct (svc_lookup r Hn) as [s Hs], (pol_lookup r Hn) as [p Hp].
  pose proof (gw_each _ ok_graph r s p Hs Hp) as W.
  pose proof (sw_unmet _ _ _ _ W) as Hu. rewrite (proj1 (sw_root _ _ _ _ W)) in Hu by done.
  pose proof (mult_edge j r He) as Hm. destruct (edge_bound j r He) as [Hj _].
  pose proof (sum_upto_zero n_svc (fun j => mult env_g j r)) as Hz.
  rewrite Hz in Hm; [lia|intros; apply mult_nonneg|by rewrite Hu|done].
Qed.

Lemma table_size_pow fuel e n : 0 <= e -> Z.of_nat fuel + e <= 40 ->
  exists e', 0 <= e <= e' /\ table_size fuel (2 ^ e) n = 2 ^ e' /\ (4 * n <= 2 ^ (e + Z.of_nat fuel) -> 4 * n <= 2 ^ e').
Proof.
  revert e. induction fuel as [|fuel IH]; intros e He Hf; simpl.
  { exists e. rewrite Z.add_0_r. by split_ands. }
  destruct (Z.ltb_spec (2 ^ e) (4 * n)); [|exists e; split_ands; done || lia].
  rewrite Z.mul_comm, <- Z.pow_succ_r by lia.
  destruct (IH (Z.succ e)) as (e' & H1 & H2 & H3); [lia|lia|]. exists e'. split; [lia|]. split; [done|].
  intros Hn. apply H3. by replace (Z.succ e + Z.of_nat fuel) with (e + Z.of_nat (S fuel)) by lia.
Qed.

Lemma first_pids_ok (table : bool) rs :
  pids_ok (if table then Some (pid_empty (table_size 10 64 (Z.of_nat (g_n env_g)))) else None) rs.
Proof.
  destruct table; [|done].
  destruct (table_size_pow 10 6 (Z.of_nat (g_n env_g))) as (e & He & Hsz & Hbig); [lia|lia|].
  change (2 ^ 6) with 64 in Hsz. rewrite Hsz. exists e, ∅. pose proof n_svc_bound as Hn. unfold n_svc in *.
  split_ands; [lia| | | |done].
  - apply Hbig. simpl. lia.
  - pose proof (Z.pow_le_mono_r 2 6 e). lia.
  - apply repr_empty. lia.
Qed.

Lemma first_world_quiet table cg L sf lfd : log_ok L -> Quiet (first_world env_g table cg L sf lfd).
Proof.
  intros HL.
  assert (forall j, rel_b (w_dep (first_world env_g table cg L sf lfd)) j = false) as Hrel.
  { intros j. unfold rel_b. simpl. destruct (replicate (g_n env_g) false !! j) as [b|] eqn:Hj; [|done].
    by apply lookup_replicate in Hj as [-> _]. }
  assert (forall i r, runs (first_world env_g table cg L sf lfd) !! i = Some r -> r = zero_run) as Hrun.
  { intros i r Hr. simpl in Hr. by apply lookup_replicate in Hr as [-> _]. }
  split; [constructor|done].
  - constructor; simpl; rewrite ?length_replicate, ?cnt_replicate; unfold n_svc; try done; simpl; lia.
  - constructor; simpl; rewrite ?length_replicate, ?length_fmap, ?cnt_replicate; unfold n_svc; try done.
    + apply (gw_svc _ ok_graph).
    + intros d u Hu. apply list_lookup_fmap_Some in Hu as (s & -> & Hs).
      pose proof (lookup_lt_Some _ _ _ Hs) as Hd. rewrite (gw_svc _ ok_graph) in Hd.
      destruct (pol_lookup d Hd) as [p Hp]. pose proof (gw_each _ ok_graph d s p Hs Hp) as W.
      pose proof (sw_unmet_lt _ _ _ _ W). pose proof n_svc_bound. unfold n_svc in *. lia.
    + intros d Hd. destruct (svc_lookup d Hd) as [s Hs], (pol_lookup d Hd) as [p Hp].
      pose proof (gw_each _ ok_graph d s p Hs Hp) as W. apply list_lookup_fmap_Some. exists s. split; [|done].
      rewrite (sw_unmet _ _ _ _ W), Z.add_0_r. apply sum_upto_ext. intros j _.
      by rewrite (Hrel j : rel_b (Dep _ _ _ _ _ _ _ _ _) j = false).
    + intros j Hj. by rewrite Hrel in Hj.
  - constructor; simpl; rewrite ?length_replicate; unfold n_svc; try done.
    + constructor; simpl; rewrite ?length_replicate; [done|lia|]. intros k i Hk. done.
    + intros i r Hr. rewrite (Hrun i r Hr). constructor; simpl; unfold zlen, LINE_CAP, TAIL_CAP, INT_MAX; simpl; try lia.
      intros Hb. unfold busy in Hb. simpl in Hb. destruct Hb as [?|[?|[?|[?|?]]]]; lia || done.
    + apply (first_pids_ok table).
    + by rewrite cnt_replicate.
    + by right.
Qed.

(** The roots not yet started wait. *)
Definition waits_from (k : nat) (w : world) : Prop :=
  forall r, (k <= r < g_roots env_g)%nat -> state (w_ctr w) !! r = Some PENDING.

Lemma start_root_spec k w : Quiet w -> waits_from k w -> (k < g_roots env_g)%nat ->
  wp (start_root k) (fun _ w' => Quiet w' /\ waits_from (S k) w') w.
Proof.
  intros HQ HW Hk. destruct (root_lookup k Hk) as [Hn Hroot]. unfold start_root.
  destruct (target_lookup k Hn) as [t Ht]. apply wp_bind. eapply wp_lift; [done|]. destruct t.
  - apply wp_bind. eapply wp_tame; [by apply tameM_name|apply quiet_side, HQ|]. intros nm w1 T1.
    pose proof (calm_quiet _ _ (tame_calm _ _ (quiet_side _ HQ) T1) HQ) as HQ1.
    apply wp_bind. eapply wp_tame; [tame_tac|apply quiet_side, HQ1|]. intros [] w2 T2.
    pose proof (calm_quiet _ _ (tame_calm _ _ (quiet_side _ HQ1) T2) HQ1) as HQ2.
    eapply wp_mono; [by apply complete_spec|]. intros [] w3 (HQ3 & _ & _ & Hst). split; [done|].
    intros r Hr. rewrite Hst; [|apply root_lookup; lia|lia]. rewrite (tm_ctr _ _ T2), (tm_ctr _ _ T1). apply HW. lia.
  - apply wp_bind. destruct HQ as [HI HQ].
    eapply wp_mono; [apply (svc_try_start_spec (fun _ => 0)); eauto with quiet; apply HW; lia|].
    intros b w1 [HI1 HG]. apply wp_ret. split; [by apply (grows_quiet k w)|].
    intros r Hr. rewrite (gr_root _ _ _ HG); [|apply root_lookup; lia|lia]. apply HW. lia.
Qed.

Lemma start_graph_quiet table cg L sf lfd : log_ok L ->
  wp start_graph (fun _ w' => Quiet w') (first_world env_g table cg L sf lfd).
Proof.
  intros HL. pose proof (first_world_quiet table cg L sf lfd HL) as HQ. unfold start_graph.
  apply wp_bind. eapply wp_tame; [tame_tac|apply quiet_side, HQ|]. intros [] w1 T1.
  pose proof (calm_quiet _ _ (tame_calm _ _ (quiet_side _ HQ) T1) HQ) as HQ1.
  apply (wp_mfor (fun k w => Quiet w /\ waits_from k w)).
  - split; [done|]. intros r Hr. rewrite (tm_ctr _ _ T1). simpl. apply lookup_replicate.
    split; [done|]. pose proof (gw_roots _ ok_graph). lia.
  - intros j w Hj [HQj HWj]. apply start_root_spec; [done|done|lia].
  - by intros w [HQw _].
Qed.

(** ** One turn *)

Lemma quietM_mfor n k body : (forall j, (k <= j < k + n)%nat -> quietM (body j)) -> quietM (mfor n k body).
Proof.
  intros Hb w HQ. apply (wp_mfor (fun _ => Quiet)); [done| |done]. intros j w' Hj HQ'. by apply Hb.
Qed.

Lemma timeout_one_quiet now i : (i < n_svc)%nat -> quietM (timeout_one now i).
Proof.
  intros Hi. unfold timeout_one. apply quietM_bind; [quiet_tac|intros r].
  apply quietM_bind; [quiet_tac|intros sm]. destruct (_ || _); [quiet_tac|].
  apply quietM_bind; [quiet_tac|intros _]. apply quietM_bind; [quiet_tac|intros r'].
  apply quietM_when; intros _. do 3 (apply quietM_bind; [quiet_tac|intros ?]).
  apply quietM_st; [done|]. intros s w HQ Hs.
  destruct (decide (s = RUNNING)) as [->|]; [by apply service_failed_quiet|quiet_at].
Qed.

Lemma now_quiet : quietM now_ms.
Proof. apply tameM_quiet. tame_tac. Qed.

Lemma live_loop_quiet fuel body w : Quiet w -> (forall d, (d < n_svc)%nat -> quietM (body d)) ->
  wlp (live_loop fuel 0 body) (fun _ w' => Quiet w') w.
Proof.
  intros HQ Hb. apply live_loop_safe; [apply quiet_side| |done]. intros d w' HQ' Hd. by apply wp_wlp, Hb.
Qed.

Lemma check_timeouts_safe fuel w : Quiet w -> wlp (check_timeouts fuel) (fun _ w' => Quiet w') w.
Proof.
  intros HQ. unfold check_timeouts. eapply wlp_step; [by apply now_quiet|]. intros now w1 HQ1.
  eapply wlp_step; [by apply (tameM_quiet _ (tameM_gets shutting_down))|]. intros [] w2 HQ2; [by apply wp_wlp, wp_ret|].
  apply live_loop_quiet; [done|]. intros d Hd. by apply timeout_one_quiet.
Qed.

Lemma fire_restarts_safe fuel w : Quiet w -> wlp (fire_restarts fuel) (fun _ w' => Quiet w') w.
Proof.
  intros HQ. unfold fire_restarts. eapply wlp_step; [by apply now_quiet|]. intros now w1 HQ1.
  eapply wlp_step; [by apply (tameM_quiet _ (tameM_gets shutting_down))|]. intros [] w2 HQ2; [by apply wp_wlp, wp_ret|].
  apply live_loop_quiet; [done|]. intros d Hd. by apply fire_restart_quiet.
Qed.

(** The steps of the log. *)
Lemma run_log_quiet {A} (m : LM A) : (forall L, log_ok L -> lwp m (fun _ => log_ok) L) -> quietM (run_log m).
Proof. intros Hm. by apply tameM_quiet, tameM_run_log. Qed.

Lemma log_tick_quiet : quietM (run_log log_tick).
Proof. apply run_log_quiet. intros L HL. eapply lwp_mono; [by apply log_tick_spec|]. by intros [] L' []. Qed.

Lemma log_due_quiet : quietM (run_log log_due).
Proof. apply run_log_quiet. apply log_due_spec. Qed.

Lemma log_batch_begin_quiet : quietM (run_log log_batch_begin).
Proof. apply run_log_quiet. apply log_batch_begin_spec. Qed.

Lemma log_flush_quiet : quietM (run_log log_flush).
Proof. apply run_log_quiet. apply log_flush_ok. Qed.

Lemma log_pending_quiet : quietM (run_log log_pending_fd).
Proof. by apply run_log_quiet. Qed.

#[local] Hint Resolve log_tick_quiet log_due_quiet log_batch_begin_quiet log_flush_quiet : quiet.

(** Reading the live list changes nothing. *)
Lemma boot_busy_spec x w n k : side x w -> (k + n <= n_live (w_lv w))%nat ->
  wp (boot_busy n k) (fun _ w' => w' = w) w.
Proof.
  intros HS. revert k. induction n as [|n IH]; intros k Hk; simpl; [by apply wp_ret|].
  apply wp_bind. eapply live_at_spec; [done|lia|]. intros d Hd _ _.
  destruct (side_run _ w d HS Hd) as [r Hr]. apply wp_bind. eapply wp_rd; [done|].
  destruct (_ || _); [by apply wp_ret|]. apply IH. lia.
Qed.

Lemma fail_summary_quiet : quietM fail_summary.
Proof.
  unfold fail_summary. apply quietM_bind; [quiet_tac|intros st]. cbv zeta.
  destruct (_ && _); [quiet_tac|]. apply quietM_bind; [quiet_tac|intros _].
  apply quietM_bind; [|intros _]; apply quietM_mfor; intros j Hj; assert (j < n_svc)%nat by lia; quiet_tac.
Qed.

Lemma check_boot_done_quiet t0 : quietM (check_boot_done t0).
Proof.
  intros w HQ. unfold check_boot_done. apply wp_bind, wp_gets. simpl.
  destruct (_ || _); [by apply wp_ret|]. apply wp_bind, wp_gets. apply wp_bind.
  eapply wp_mono; [eapply boot_busy_spec; [apply quiet_side, HQ|lia]|]. intros [] w' ->; [by apply wp_ret|].
  pose proof fail_summary_quiet. quiet_at.
Qed.

Definition pf_ok (p : pf) : Prop :=
  match p with PF_OUT i | PF_NOTIFY i | PF_EXEC i => (i < n_svc)%nat | _ => True end.

Lemma poll_slot_spec x w k : side x w -> (k < n_live (w_lv w))%nat ->
  wp (poll_slot k) (fun l w' => w' = w /\ Forall pf_ok l) w.
Proof.
  intros HS Hk. unfold poll_slot. apply wp_bind. eapply live_at_spec; [done|done|]. intros d Hd _ _.
  destruct (side_run _ w d HS Hd) as [r Hr]. apply wp_bind. eapply wp_rd; [done|]. apply wp_ret.
  split; [done|]. destruct (0 <=? out_fd r), (0 <=? ntf_fd r); simpl; repeat constructor; try done; by destruct (ntf_exec r).
Qed.

Lemma poll_slots_spec x w n start : side x w -> (n <= n_live (w_lv w))%nat ->
  wp (poll_slots n start (n_live (w_lv w))) (fun l w' => w' = w /\ Forall pf_ok l) w.
Proof.
  intros HS. revert start. induction n as [|n IH]; intros start Hn; simpl; [apply wp_ret; by split|].
  apply wp_bind. eapply wp_mono; [eapply poll_slot_spec; [done|]|].
  { destruct (decide _); lia. }
  intros l1 w1 [-> H1]. apply wp_bind. eapply wp_mono; [apply IH; lia|]. intros l2 w2 [-> H2].
  apply wp_ret. split; [done|]. by apply Forall_app.
Qed.

Lemma poll_ctl_spec w : wp poll_ctl (fun l w' => w' = w /\ Forall pf_ok l) w.
Proof.
  unfold poll_ctl. do 3 apply wp_bind, wp_gets. apply wp_ret. split; [done|]. destruct (0 <=? _); [|done].
  constructor; [done|]. apply Forall_lookup. intros j p Hp. rewrite list_lookup_imap in Hp.
  destruct (conns w !! j); [|done]. simpl in Hp. by simplify_eq.
Qed.

Lemma poll_set_frame : frameM poll_set.
Proof.
  assert (forall n start m, frameM (poll_slots n start m)) as H1.
  { induction n as [|n IH]; intros start m; cbn [poll_slots]; frame_tac; apply IH. }
  unfold poll_set. frame_tac.
Qed.

Lemma poll_set_spec w : served w -> wp poll_set (fun l w' => served w' /\ Forall pf_ok l) w.
Proof.
  intros [HQ HC]. pose proof poll_set_frame w as HF.
  enough (wp poll_set (fun l w' => Quiet w' /\ Forall pf_ok l) w) as Hw.
  { unfold wp in *. destruct (poll_set w) as [l w'| | |]; try done. destruct Hw as [H1 H2]. split; [|done].
    split; [done|by eapply ctl_ok_same]. }
  clear HC HF. pose proof (quiet_side _ HQ) as HS. unfold poll_set. apply wp_bind, wp_gets.
  apply wp_bind. apply (wp_mono _ (fun _ w' => w' = w)).
  { destruct (decide (n_live (w_lv w) = 0%nat)) as [|Hne]; [by apply wp_ret|].
    apply wp_bind, wp_gets. pose proof (lo_n _ _ (sd_live _ _ HS)) as Hle.
    assert (drain_rotor w < n_svc)%nat as Hr by (destruct (sd_rotor _ _ HS); lia).
    apply wp_bind. eapply live_has_spec; [done|done|]. intros [] _; [|by apply wp_ret].
    destruct (side_run _ w _ HS Hr) as [r Hrr]. apply wp_bind. eapply wp_rd; [done|]. by apply wp_ret. }
  intros start w1 ->. apply wp_bind. eapply wp_mono; [by eapply poll_slots_spec|].
  intros l w1 [-> Hl]. apply wp_bind, wp_gets. apply wp_bind.
  eapply wp_mono; [by apply log_pending_quiet|]. intros con w2 HQ2.
  apply wp_bind. eapply wp_mono; [apply poll_ctl_spec|]. intros c w3 [-> Hc]. apply wp_ret. split; [done|].
  apply Forall_app. split; [done|]. apply Forall_app. split; [by destruct (0 <=? _); repeat constructor|].
  apply Forall_app. split; [done|]. by destruct (0 <=? _); repeat constructor.
Qed.

(** A handler of the services, seen from the connections. *)
Lemma served_keep {A} (m : M A) w : quietM m -> frameM m -> served w -> wp m (fun _ => served) w.
Proof. intros Hq Hf HS. eapply wp_mono; [by apply served_frame|]. by intros a w' []. Qed.

Lemma served_safe {A} (m : M A) w : wlp m (fun _ => Quiet) w -> frameM m -> served w -> wlp m (fun _ => served) w.
Proof.
  intros Hq Hf [HQ HC]. specialize (Hf w). unfold wlp in *. destruct (m w) as [a w'| | |]; try done.
  split; [done|by eapply ctl_ok_same].
Qed.

Lemma ctl_here_spec k fd w : wp (ctl_here k fd) (fun b w' => w' = w /\ (b = true -> (k < length (conns w))%nat)) w.
Proof.
  unfold ctl_here. apply wp_bind, wp_gets, wp_ret. split; [done|]. destruct (conns w !! k) eqn:Hk; [|done]. intros _. by apply lookup_lt_Some in Hk.
Qed.

Lemma handle_ctl_served k fd re w : served w -> wp (handle_ctl k fd re) (fun _ => served) w.
Proof.
  intros HS. unfold handle_ctl. apply wp_bind. eapply wp_mono; [apply ctl_here_spec|]. intros b w1 [-> Hb].
  destruct b; cbn [negb]; [|by apply wp_ret]. destruct (lookup_lt_is_Some_2 (conns w) k) as [c Hc]; [by apply Hb|].
  apply wp_bind. apply (wp_mono _ (fun _ => served)).
  { apply wp_when; intros _; [|done]. eapply wp_mono; [by apply (ctl_pump_spec k c)|]. by intros [] w' []. }
  intros [] w1 HS1. apply wp_bind. eapply wp_mono; [apply ctl_here_spec|]. intros b w2 [-> Hb1].
  apply wp_when; intros Hw; [|done]. apply andb_true_iff in Hw as [-> _].
  destruct (lookup_lt_is_Some_2 (conns w1) k) as [c1 Hc1]; [by apply Hb1|].
  eapply wp_mono; [by apply (ctl_read_spec k c1)|]. by intros [] w' [].
Qed.

Lemma handle_pf_served p re w : pf_ok p -> served w -> wp (handle_pf p re) (fun _ => served) w.
Proof.
  destruct p; cbn [pf_ok handle_pf]; intros Hp HS.
  4, 7: apply served_keep; [quiet_tac|frame_tac|done].
  4: by apply ctl_accept_spec.
  4: by apply handle_ctl_served.
  all: apply served_keep; [quiet_tac|frame_tac|done].
Qed.

Lemma handle_ready_served n k l w : Forall pf_ok l -> served w -> wp (handle_ready n k l) (fun _ => served) w.
Proof.
  intros Hl. revert k w. induction Hl as [|p l Hp Hl IH]; intros k w HS; cbn [handle_ready]; [by apply wp_ret|].
  apply wp_bind. apply (wp_mono _ (fun _ => served)); [|by intros [] w' HS'; apply IH]. apply wp_when; [intros _; by apply handle_pf_served|done].
Qed.

Lemma report_stalls_quiet : quietM report_stalls.
Proof.
  intros w HQ. unfold report_stalls. apply wp_bind, wp_gets.
  apply (wp_mfor (fun _ w' => Quiet w' /\ w_lv w' = w_lv w)); [done| |by intros w' [HQ' _]].
  intros j w' Hj [HQ' El]. apply wp_bind. eapply live_at_spec; [by apply quiet_side|rewrite El; lia|].
  intros d Hd _ _. eapply (wp_tame _ None); [tame_tac|by apply quiet_side|]. intros [] w2 T2. split.
  - eapply calm_quiet; [by apply tame_calm; [apply quiet_side|]|done].
  - by rewrite (tm_lv _ _ T2).
Qed.

Lemma report_stalls_served w : served w -> wp report_stalls (fun _ => served) w.
Proof. apply served_keep; [apply report_stalls_quiet|frame_tac]. Qed.

Lemma served_wlp {A B} (m : M A) (f : A -> M B) (Q : B -> world -> Prop) w : quietM m -> frameM m -> served w ->
  (forall a w', served w' -> wlp (f a) Q w') -> wlp (m ≫= f) Q w.
Proof. intros Hq Hf HS HQ. eapply wlp_step; [by apply served_keep|]. exact HQ. Qed.

Lemma handle_signals_safe fuel w : served w -> wlp (handle_signals fuel) (fun _ => served) w.
Proof.
  revert w. induction fuel as [|fuel IH]; intros w HS; [done|]. cbn [handle_signals].
  apply served_wlp; [by apply call_quiet|by apply call_frame|done|]. intros [signo|] w1 HS1; [|by apply wp_wlp, wp_ret].
  apply wlp_bind. apply (wlp_mono _ (fun _ => served)); [|by intros [] w2 HS2; apply IH].
  unfold dispatch_signal. destruct (signo =? SIGCHLD).
  { apply served_safe; [by apply reap_safe, HS1|by apply reap_frame|done]. }
  assert (forall how what, wlp (shutdown_system how what) (fun _ => served) w1) as Hs.
  { intros how what. destruct (shutdown_spec how what w1 (proj1 HS1)) as (w' & E1 & _). unfold wlp. by rewrite E1. }
  destruct (_ || _); [apply Hs|]. do 2 (destruct (_ =? _); [apply Hs|]). by apply wp_wlp, wp_ret.
Qed.

Lemma poll_signals_safe w : served w -> wlp poll_signals (fun _ => served) w.
Proof.
  intros HS. unfold poll_signals. do 4 (apply served_wlp; [quiet_tac|frame_tac|done|]; clear w HS; intros ? w HS).
  by apply handle_signals_safe.
Qed.

Lemma timeout_one_frame now i : frameM (timeout_one now i).
Proof. frame_tac. Qed.

Lemma check_timeouts_frame fuel : frameM (check_timeouts fuel).
Proof. unfold check_timeouts. do 2 (apply frameM_bind; [done|intros ?]). destruct a0; [done|]. apply live_loop_frame, timeout_one_frame. Qed.

Lemma boot_busy_frame n k : frameM (boot_busy n k).
Proof. revert k. induction n as [|n IH]; intros k; cbn [boot_busy]; frame_tac. Qed.
Hint Resolve boot_busy_frame : frame.

Lemma check_boot_done_frame t0 : frameM (check_boot_done t0).
Proof. frame_tac. Qed.

Lemma live_due_frame n k now best : frameM (live_due_from n k now best).
Proof. revert k best. induction n as [|n IH]; intros k best; cbn [live_due_from]; frame_tac. Qed.
Hint Resolve live_due_frame : frame.

(** The operations of the operator keep the connections well-formed. *)
Lemma ctl_tick_served fuel w : served w -> wlp (ctl_tick fuel) (fun _ => served) w.
Proof.
  intros [HQ HC]. pose proof (ctl_tick_safe fuel w HQ) as Hq. pose proof (ctl_tick_ctl fuel w) as Hc.
  unfold wlp in *. destruct (ctl_tick fuel w); try done. split; [done|by apply Hc].
Qed.

Lemma before_poll_safe fuel t0 w : served w -> wlp (before_poll fuel t0) (fun _ => served) w.
Proof.
  intros HS. unfold before_poll. apply served_wlp; [apply log_batch_begin_quiet|frame_tac|done|]. clear w HS. intros [] w HS.
  apply served_wlp; [quiet_tac|frame_tac|done|]. clear w HS. intros [] w HS.
  apply wlp_bind. eapply wlp_mono; [apply served_safe; [by apply fire_restarts_safe, HS|apply fire_restarts_frame|done]|]. clear w HS. intros [] w HS.
  apply wlp_bind. eapply wlp_mono; [apply served_safe; [by apply check_timeouts_safe, HS|apply check_timeouts_frame|done]|]. clear w HS. intros [] w HS.
  apply wlp_bind. eapply wlp_mono; [by apply ctl_tick_served|]. clear w HS. intros [] w HS.
  apply served_wlp; [apply log_tick_quiet|frame_tac|done|]. clear w HS. intros [] w HS.
  eapply wlp_step; [by apply pump_all_spec|]. clear w HS. intros [] w HS.
  apply served_wlp; [apply check_boot_done_quiet|apply check_boot_done_frame|done|]. clear w HS. intros [] w HS.
  apply served_wlp; [quiet_tac|apply fail_tick_frame|done|]. clear w HS. intros [] w HS.
  apply served_wlp; [by apply (tameM_quiet _ (tameM_gets sfd))|done|done|]. intros s w' HS'.
  apply wlp_when; [|done]. intros _. by apply poll_signals_safe.
Qed.

Lemma due_of_spec now best i w r (Q : Z -> world -> Prop) : runs w !! i = Some r -> (i < n_svc)%nat ->
  (forall b, Q b w) -> wp (due_of now best i) Q w.
Proof.
  intros Hr Hi HQ. unfold due_of. apply wp_bind. eapply wp_rd; [done|].
  destruct (start_ms_lookup i Hi) as [sm Hsm]. apply wp_bind. eapply wp_lift; [done|]. apply wp_ret, HQ.
Qed.

Lemma live_due_from_spec x w n k now best : side x w -> (k + n <= n_live (w_lv w))%nat ->
  wp (live_due_from n k now best) (fun _ w' => w' = w) w.
Proof.
  intros HS. revert k best. induction n as [|n IH]; intros k best Hk; simpl; [by apply wp_ret|].
  apply wp_bind. eapply live_at_spec; [done|lia|]. intros d Hd _ _.
  destruct (side_run _ w d HS Hd) as [r Hr]. apply wp_bind. eapply due_of_spec; [done|done|]. intros b.
  apply IH. lia.
Qed.

Lemma poll_wait_quiet : quietM poll_wait.
Proof.
  intros w HQ. unfold poll_wait. apply wp_bind, wp_gets. cbv zeta.
  apply wp_bind. eapply wp_mono; [by apply now_quiet|]. intros now w1 HQ1.
  apply wp_bind. unfold live_due. apply wp_bind, wp_gets.
  eapply wp_mono; [eapply live_due_from_spec; [apply quiet_side, HQ1|lia]|]. intros due w2 ->.
  assert (tameM fail_emergency_due) by (unfold fail_emergency_due, em; tame_tac). quiet_at.
Qed.

Lemma poll_wait_frame : frameM poll_wait.
Proof. frame_tac. Qed.

Lemma turn_safe fuel t0 w : served w -> wlp (turn fuel t0) (fun _ => served) w.
Proof.
  intros HS. unfold turn. apply wlp_bind. eapply wlp_mono; [by apply before_poll_safe|].
  intros [] w1 HS1. eapply wlp_step; [by apply poll_set_spec|]. intros l w2 [HS2 Hl].
  apply served_wlp; [by apply poll_wait_quiet|apply poll_wait_frame|done|]. intros wait w3 HS3.
  apply served_wlp; [by apply call_quiet|by apply call_frame|done|]. intros n w4 HS4.
  apply wlp_bind. apply (wlp_mono _ (fun _ => served)).
  - apply wlp_when; [|done]. intros _. by apply handle_signals_safe.
  - intros [] w5 HS5. by apply wp_wlp, handle_ready_served.
Qed.

End Spec.
