(* ===== verification/Supervisor.v ===== *)
(** * Every world pid 1 can reach

    The program as a transition system: it starts the graph, then takes turns
    of the event loop, in which clients connect and send their requests; a
    request may also be handled between two turns. What the invariant promises is stated here for every reachable
    world, in the terms of the program's own arrays. *)

From stdpp Require Import gmap.
From S2P Require Import Prelude Ngraph PidMap Ring Log Console Repeat Logged World Sys Inv Live Cgroup Fail Emerg Output Deps State Spawn Release Reap Halt Stop Frame Command Control Clients Serve Requests Loop.

Section Reach.
Context `{E : Env}.

Inductive step (w w' : world) : Prop :=
  | step_turn fuel t0 (Hs : turn fuel t0 w = Ok tt w')
  | step_stalls (Hs : report_stalls w = Ok tt w')
  | step_degraded fuel (Hs : drain_all fuel w = Ok tt w')
  | step_request k c line (Hk : asks k c w) (Hl : flat line) (Hs : ctl_cmd k line w = Ok tt w').

Inductive reachable : world -> Prop :=
  | reach_start table cg L s lfd w (HL : log_ok L) (Hs : start_graph (first_world env_g table cg L s lfd) = Ok tt w) : reachable w
  | reach_step w w' (Hr : reachable w) (Hs : step w w') : reachable w'.

End Reach.

Section Safety.
Context `{E : Env} `{!EnvOk E}.

Lemma wp_ok {A} (m : M A) (Q : A -> world -> Prop) w a w' : wp m Q w -> m w = Ok a w' -> Q a w'.
Proof. unfold wp. intros Hw Hm. by rewrite Hm in Hw. Qed.

Lemma wlp_ok {A} (m : M A) (Q : A -> world -> Prop) w a w' : wlp m Q w -> m w = Ok a w' -> Q a w'.
Proof. unfold wlp. intros Hw Hm. by rewrite Hm in Hw. Qed.

Lemma drain_all_frame fuel : frameM (drain_all fuel).
Proof. apply live_loop_frame. intros i. frame_tac. Qed.

Lemma drain_all_safe fuel w : served w -> wlp (drain_all fuel) (fun _ => served) w.
Proof.
  intros HS. apply served_safe; [|apply drain_all_frame|done]. apply live_loop_quiet; [apply HS|]. intros d Hd. by apply drain_one_quiet.
Qed.

Lemma start_graph_served table cg L s lfd : log_ok L -> wp start_graph (fun _ => served) (first_world env_g table cg L s lfd).
Proof.
  intros HL. pose proof (start_graph_quiet table cg L s lfd HL) as Hq.
  assert (frameM start_graph) as Hf by frame_tac. specialize (Hf (first_world env_g table cg L s lfd)).
  unfold wp in *. destruct (start_graph _) as [a w'| | |]; try done. split; [done|].
  eapply ctl_ok_same; [done|]. constructor; simpl; [unfold CTL_MAX; lia|done|done].
Qed.

Lemma step_served w w' : served w -> step w w' -> served w'.
Proof.
  intros HS [fuel t0 Hs|Hs|fuel Hs|k c line Hk Hl Hs].
  - apply (wlp_ok _ _ _ _ _ (turn_safe fuel t0 w HS) Hs).
  - apply (wp_ok _ _ _ _ _ (report_stalls_served w HS) Hs).
  - apply (wlp_ok _ _ _ _ _ (drain_all_safe fuel w HS) Hs).
  - apply (wp_ok _ _ _ _ _ (ctl_cmd_spec k line c w Hk Hl) Hs).
Qed.

Lemma reachable_served w : reachable w -> served w.
Proof.
  induction 1 as [table cg L s lfd w HL Hs|w w' _ IH Hs].
  - apply (wp_ok _ _ _ _ _ (start_graph_served table cg L s lfd HL) Hs).
  - by apply (step_served w).
Qed.

Lemma reachable_quiet w : reachable w -> Quiet w.
Proof. intros Hr. apply (reachable_served w Hr). Qed.

(** A connection whose client has not been answered. *)
Lemma reachable_asks w k c : reachable w -> conns w !! k = Some c -> idle c -> c_svc c = None -> asks k c w.
Proof. intros Hr Hk Hi Hs. split; [|done]. split; [by apply reachable_served|done]. Qed.

(** C1. Start safety. Whenever pid 1 forked a process for service [i], nobody
    held [i] stopped, every prerequisite of [i] had been handed over at that
    moment, and each of them that is not order-only was up. *)
Theorem start_after_prerequisites w i p dp wn :
  reachable w -> EvFork i p dp wn ∈ trace w ->
  wn = false /\ 0 < p /\ forall j, edge env_g j i ->
    released dp !! j = Some true /\ (ng_order_only env_g j = Some false -> up dp !! j = Some true).
Proof.
  intros Hr Hin. pose proof (sd_trace _ _ (quiet_side _ (reachable_quiet _ Hr))) as HT.
  rewrite Forall_forall in HT. destruct (HT _ Hin) as (Hw & Hp & Hj). split; [done|]. split; [done|].
  intros j He. destruct (Hj j He) as [H1 H2]. unfold rel_b, up_b, oo_b in *. split.
  - by destruct (released dp !! j) as [[]|].
  - intros Hoo. rewrite Hoo in H2. specialize (H2 eq_refl). by destruct (up dp !! j) as [[]|].
Qed.


(** C11. The request of a client, what its connection sends and the connections
    that wait to be accepted are handled to the end, and so is the exit of any
    child: the loops of the hand-over, of taking services down, of giving up on
    them and of writing a reply all terminate, and the world after them is as
    good as before. *)
Theorem commands_return w : reachable w ->
  (forall k c line, conns w !! k = Some c -> idle c -> c_svc c = None -> flat line ->
     exists w', ctl_cmd k line w = Ok tt w' /\ reachable w' /\ length (conns w') = length (conns w)) /\
  (forall k, (k < length (conns w))%nat -> exists w', ctl_read k w = Ok tt w' /\ served w') /\
  (exists w', ctl_accept w = Ok tt w' /\ served w') /\
  (forall p status, 0 < p -> exists w', reap_one p status w = Ok tt w' /\ Quiet w').
Proof.
  intros Hr. pose proof (reachable_served w Hr) as HS.
  assert (forall (m : M unit) (Q : world -> Prop), wp m (fun _ => Q) w -> exists w', m w = Ok tt w' /\ Q w') as Hm.
  { intros m Q Hw. unfold wp in Hw. destruct (m w) as [[] w'| | |]; try done. eauto. }
  split_ands.
  - intros k c line Hk Hi Hs Hl. pose proof (reachable_asks w k c Hr Hk Hi Hs) as HA.
    destruct (Hm _ _ (ctl_cmd_spec k line c w HA Hl)) as (w' & Hs' & _ & H2). exists w'. split; [done|]. split; [|done].
    eapply reach_step; [done|]. by eapply step_request.
  - intros k Hk. destruct (lookup_lt_is_Some_2 _ _ Hk) as [c Hc].
    destruct (Hm _ _ (ctl_read_spec k c w (conj HS Hc))) as (w' & H1 & H2 & _). by exists w'.
  - apply Hm. by apply ctl_accept_spec.
  - intros p status Hp. apply Hm. apply reap_one_quiet; [done|apply HS].
Qed.

(** C27. The control connections are well-formed in every reachable world:
    there are at most [CTL_MAX] of them, each is within its buffers and holds
    whole lines with the last line of the reply, if any, at the end, and a
    client that waits for a service waits for an operation that is under way,
    so that its reply will come. *)
Theorem control_well_formed w : reachable w ->
  (length (conns w) <= CTL_MAX)%nat /\
  forall k c, conns w !! k = Some c ->
    conn_ok c /\ forall i, c_svc c = Some i -> exists r, runs w !! i = Some r /\ op r <> OP_NONE.
Proof.
  intros [_ [H1 H2 H3]]%reachable_served. split; [done|]. intros k c Hk. split; [by eapply Forall_lookup_1|].
  intros i Hi. destruct (H3 k c i Hk Hi) as (o & Ho & Hne); [done|]. rewrite list_lookup_fmap in Ho.
  destruct (runs w !! i) as [r|]; [|done]. exists r. simpl in Ho. by simplify_eq.
Qed.

(** C26. The counters of the event loop are the numbers of services in each
    state, and [n_up] the number of services that are up. *)
Theorem counters_count w : reachable w ->
  n_active (w_ctr w) = cnt (is_st RUNNING) (state (w_ctr w)) /\
  n_done (w_ctr w) = cnt (is_st DONE) (state (w_ctr w)) /\
  n_pending (w_ctr w) = cnt (is_st PENDING) (state (w_ctr w)) /\
  n_up (w_dep w) = cnt id (up (w_dep w)) /\
  n_ops w = cnt op_b (runs w) /\
  length (state (w_ctr w)) = n_svc.
Proof.
  intros [[HC HD HS] _]%reachable_quiet. destruct HC. split_ands; try done.
  - apply (de_n_up _ _ _ HD).
  - apply (sd_ops _ _ HS).
Qed.

(** C2. [unmet[d]] is the number of prerequisites of [d] that have not been
    handed over, so it is zero exactly when all of them have been; and what has
    been handed over is up, unless only its order matters. *)
Theorem unmet_counts w d : reachable w -> (d < n_svc)%nat ->
  d_unmet (w_dep w) !! d = Some (sum_upto n_svc (fun j => if rel_b (w_dep w) j then 0 else mult env_g j d)) /\
  (d_unmet (w_dep w) !! d = Some 0 <-> forall j, edge env_g j d -> rel_b (w_dep w) j = true) /\
  (forall j, rel_b (w_dep w) j = true -> oo_b j = false -> up_b (w_dep w) j = true).
Proof.
  intros [[HC HD HS] _]%reachable_quiet Hd. pose proof (de_need _ _ _ HD d Hd) as Hu. simpl in Hu.
  rewrite Z.add_0_r in Hu. split_ands; [done| |].
  - rewrite Hu. split.
    + intros [= Hz] j He. destruct (rel_b (w_dep w) j) eqn:Hr; [done|].
      pose proof (need_edge (w_dep w) j d He Hr). lia.
    + intros Hall. f_equal. apply need_zero. done.
  - intros j H1 H2. by destruct (de_rel_up _ _ _ HD j H1 H2) as [|].
Qed.

(** C39. The live list holds no service twice, each listed service knows its
    slot, and every service with a process, an open pipe or an operation under
    way is listed, so the event loop looks at it. *)
Theorem live_list_complete w : reachable w ->
  NoDup (lset (w_lv w)) /\ (n_live (w_lv w) <= n_svc)%nat /\
  (forall k i, lset (w_lv w) !! k = Some i -> exists r, runs w !! i = Some r /\ live_pos r = k) /\
  (forall i r, runs w !! i = Some r -> busy r -> i ∈ lset (w_lv w)).
Proof.
  intros HS%reachable_quiet%quiet_side. pose proof (sd_live _ _ HS) as HL. split_ands.
  - by apply (lset_nodup _ (runs w)).
  - apply (lo_n _ _ HL).
  - apply (lo_pos _ _ HL).
  - intros i r Hr Hb. by destruct (so_live _ _ (sd_svc _ _ HS i r Hr) Hb) as [|].
Qed.

(** The search for the service of a child ends within the table or the
    list, and the service it gives knows that process, as its own or as one it
    gave up on; no service has both. *)
Theorem find_pid_sound w p : reachable w -> 0 < p ->
  exists f, find_pid p w = Ok f w /\
    match f with
    | Some (i, stale) => exists r, runs w !! i = Some r /\
        (if stale then stale_pid r = p /\ pid r = 0 else pid r = p /\ stale_pid r = 0)
    | None => True
    end.
Proof.
  intros HS%reachable_quiet%quiet_side Hp.
  pose proof (find_pid_spec _ w p HS Hp) as Hf. unfold wp in Hf.
  destruct (find_pid p w) as [f w'| | |]; try done. destruct Hf as [-> Hf]. exists f. split; [done|].
  destruct f as [[i b]|]; [|done]. destruct (Hf _ _ eq_refl) as (_ & r & Hr & Hb). exists r. split; [done|].
  pose proof (so_one _ _ (sd_svc _ _ HS i r Hr)). destruct b; (split; [done|lia]).
Qed.

End Safety.
