(* ===== verification/Replies.v ===== *)
(** * What a client of pid 1 is told

    The listing of the services, the bytes that reach the client, and the
    requests that are refused. *)

From stdpp Require Import gmap.
From S2P Require Import Prelude Ngraph PidMap Ring Log Console Repeat Logged World Sys Inv Live Cgroup Fail Emerg Output State Spawn Release Reap Halt Stop Frame Command Control Clients Serve Requests Loop Supervisor.

Section Replies.
Context `{E : Env} `{!EnvOk E}.

(** ** The listing *)

Definition state_text (s : svc_state) (u : bool) : bytes :=
  match s with
  | PENDING => bs "pending"
  | RUNNING => bs "starting"
  | DONE => if u then bs "up" else bs "down"
  | FAILED => bs "failed"
  | SKIPPED => bs "skipped"
  end.

(** The line of a service: its name, its state, whether it is wanted, its process. *)
Definition status_text (w : world) (i : nat) : bytes :=
  match ng_name env_g i, state (w_ctr w) !! i, up (w_dep w) !! i, want w !! i, runs w !! i with
  | Some nm, Some s, Some u, Some stopped, Some r =>
      NCTL_DATA ++ nm ++ [32] ++ state_text s u ++ [32] ++ (if (stopped : bool) then bs "stopped" else bs "wanted") ++ bs " pid " ++ dec (pid r) ++ [10]
  | _, _, _, _, _ => []
  end.

Lemma status_line_text i w : served w -> (i < n_svc)%nat -> status_line i w = Ok (status_text w i) w.
Proof.
  intros [HQ _] Hi. pose proof HQ as [[HC HD HS] _].
  destruct (name_lookup i Hi) as [nm Hnm].
  destruct (lookup_lt_is_Some_2 (state (w_ctr w)) i) as [s Hs]; [by rewrite (ct_len _ HC)|].
  destruct (lookup_lt_is_Some_2 (up (w_dep w)) i) as [u Hu]; [by rewrite (de_up _ _ _ HD)|].
  destruct (side_want _ _ i HS Hi) as [wn Hwn]. destruct (side_run _ _ i HS Hi) as [r Hr].
  unfold status_text, status_line, name_of, state_name, st_of, up_of, want_of, run_of, rd, gets, lift, mbind, M_bind, mret, M_ret.
  rewrite Hnm, Hs, Hu, Hwn, Hr. destruct s; cbn [state_text]; rewrite ?Hu, ?Hwn, ?Hr; try done.
Qed.

(** The lines of the services from [a] up to [b]. *)
Definition status_lines (w : world) (a b : Z) : bytes :=
  concat (status_text w <$> seq (Z.to_nat a) (Z.to_nat (b - a))).

Lemma status_lines_step w a b : 0 <= a < b -> status_lines w a b = status_text w (Z.to_nat a) ++ status_lines w (a + 1) b.
Proof.
  intros Hab. unfold status_lines. replace (Z.to_nat (b - a)) with (S (Z.to_nat (b - (a + 1)))) by lia.
  cbn [seq fmap list_fmap concat]. by replace (Z.to_nat (a + 1)) with (S (Z.to_nat a)) by lia.
Qed.

Definition summary (w : world) : bytes := dec (Z.of_nat n_svc) ++ bs " services, " ++ dec (n_up (w_dep w)) ++ bs " up".

(** What filling makes of a connection that lists the services: the next lines,
    in order, each service once, and then either the summary, when all services
    have been listed, or a buffer with no room for another line. *)
Definition listed (w : world) (c c' : conn) : Prop := exists m,
  list_at c <= m <= Z.of_nat n_svc /\ list_at c' = m /\ out_at c' = out_at c /\ c_fd c' = c_fd c /\
  (m = Z.of_nat n_svc /\ c_done c' = true /\ listing c' = 0 /\
   c_out c' = c_out c ++ status_lines w (list_at c) m ++ NCTL_OK ++ summary w ++ [10] \/
   c_done c' = false /\ listing c' = 1 /\ c_out c' = c_out c ++ status_lines w (list_at c) m /\
   CTL_OUT < zlen (c_out c') + CTL_STATUS_LINE).

Lemma ctl_end_open t c : c_done c = false -> zlen (c_out c) + CTL_STATUS_LINE <= CTL_OUT -> zlen t <= 57 ->
  ctl_end true t c = set_c_done true (set_c_out (c_out c ++ NCTL_OK ++ t ++ [10]) (set_c_svc None (set_listing 0 c))).
Proof.
  intros Hd Hr Ht. unfold ctl_end, ctl_out. rewrite Hd. cbn [c_done c_out set_c_svc set_listing]. rewrite Hd.
  unfold CTL_OUT, CTL_STATUS_LINE, NCTL_TAG_LEN, NG_MAX_NAME, CTL_BUF in *.
  rewrite (proj2 (Z.leb_gt _ _)) by lia. cbn [orb]. rewrite (take_ge t) by (unfold zlen in *; lia).
  rewrite take_ge; [done|]. rewrite !length_app. unfold zlen in *. simpl. lia.
Qed.

Lemma zlen_summary w : zlen (summary w) <= 57.
Proof.
  unfold summary, zlen. rewrite !length_app. pose proof (length_dec (Z.of_nat n_svc)). pose proof (length_dec (n_up (w_dep w))).
  change (length (bs " services, ")) with 11%nat. change (length (bs " up")) with 3%nat. lia.
Qed.

Lemma conn_at_run {B} (f : conn -> M B) k c w : conns w !! k = Some c -> (conn_at k ≫= f) w = f c w.
Proof. intros Hk. unfold conn_at, rd, gets, lift, mbind, M_bind. by rewrite Hk. Qed.

Lemma mod_conn_run f k c w : conns w !! k = Some c -> mod_conn k f w = Ok tt (set_conns (<[k := f c]> (conns w)) w).
Proof. intros Hk. unfold mod_conn. by rewrite (conn_at_run _ _ c). Qed.

Lemma bind_run {A B} (m : M A) (f : A -> M B) a w w' : m w = Ok a w' -> (m ≫= f) w = f a w'.
Proof. intros Hm. unfold mbind, M_bind. by rewrite Hm. Qed.

Lemma at_conn_set k f c w : at_conn k c w -> conn_ok (f c) -> (forall j, c_svc (f c) = Some j -> c_svc c = Some j) ->
  at_conn k (f c) (set_conns (<[k := f c]> (conns w)) w).
Proof.
  intros HA Hok Hs. pose proof (at_conn_mod k f c w (fun _ w' => at_conn k (f c) w') HA Hok Hs) as Hw.
  unfold wp in Hw. rewrite (mod_conn_run f k c) in Hw by apply HA. by apply Hw.
Qed.

Lemma fill_listed fuel k c w : at_conn k c w -> listing c = 1 -> CTL_OUT - zlen (c_out c) < Z.of_nat fuel ->
  exists c', fill_loop fuel k w = Ok tt (set_conns (<[k := c']> (conns w)) w) /\ listed w c c'.
Proof.
  revert c w. induction fuel as [|fuel IH]; intros c w HA Hl Hf; pose proof (served_conn _ _ _ (proj1 HA) (proj2 HA)) as Hc;
    pose proof (co_room _ Hc) as Hroom; pose proof (co_at _ Hc) as Hat; [lia|].
  pose proof (proj2 HA) as Hk. pose proof (listing_open _ Hc) as Hd. rewrite Hl in Hd. specialize (Hd ltac:(done)).
  assert (set_conns (<[k := c]> (conns w)) w = w) as Eself by (rewrite (list_insert_id _ _ _ Hk); by destruct w).
  cbn [fill_loop]. rewrite (conn_at_run _ _ c) by done. rewrite Hl. cbn [Z.eqb Pos.eqb orb].
  destruct (Z.ltb_spec CTL_OUT (zlen (c_out c) + CTL_STATUS_LINE)) as [Hfull|Hfit].
  { exists c. split; [by rewrite Eself|]. exists (list_at c). split; [lia|]. do 3 (split; [done|]). right. split; [done|]. split; [done|].
    unfold status_lines. rewrite Z.sub_diag. simpl. by rewrite app_nil_r. }
  destruct (Z.leb_spec (Z.of_nat n_svc) (list_at c)) as [Hend|Hmore].
  - rewrite (bind_run _ _ (w_dep w) w w) by done. rewrite (mod_conn_run _ k c) by done.
    eexists. split; [done|]. exists (list_at c).
    change (dec _ ++ _ ++ _ ++ _) with (summary w). rewrite ctl_end_listing by done. rewrite ctl_end_open by (done || apply zlen_summary).
    cbn. split; [lia|]. do 3 (split; [done|]). left. split; [lia|]. split; [done|]. split; [done|].
    unfold status_lines. rewrite Z.sub_diag. done.
  - clear Eself. pose proof n_svc_bound. rewrite u32_small by lia.
    pose proof (at_conn_set k (set_list_at (list_at c + 1)) c w HA (conn_ok_list_at (list_at c + 1) _ Hc ltac:(lia)) (fun j H => H)) as HA1.
    erewrite bind_run by (by apply (mod_conn_run _ k c)). set (c1 := set_list_at _ c) in *. set (w1 := set_conns _ w) in *.
    pose proof (served_conn _ _ _ (proj1 HA1) (proj2 HA1)) as Hc1. pose proof (proj2 HA1) as Hk1.
    assert (Z.to_nat (list_at c) < n_svc)%nat as Hi by lia.
    pose proof (status_line_spec (Z.to_nat (list_at c)) w1 (proj1 HA1) Hi) as Hst. unfold wp in Hst.
    pose proof (status_line_text _ w1 (proj1 HA1) Hi) as Est. rewrite Est in Hst. destruct Hst as (_ & Ht & Htl).
    rewrite (bind_run _ _ _ _ _ Est).
    change (status_text w1) with (status_text w) in *. set (t := status_text w (Z.to_nat (list_at c))) in *.
    assert (ctl_out t c1 = set_c_out (c_out c1 ++ t) c1) as Eout by (by apply ctl_out_fits).
    assert (conn_ok (ctl_out t c1)) as Hok2 by (rewrite Eout; apply conn_ok_line; [done|done|by unfold c1; simpl; rewrite Hl|done|unfold c1; simpl; lia]).
    pose proof (at_conn_set k (ctl_out t) c1 w1 HA1 Hok2 ltac:(by rewrite Eout)) as HA2.
    erewrite bind_run by (by apply (mod_conn_run _ k c1)).
    set (w2 := set_conns _ w1) in *. rewrite Eout in HA2. set (c2 := set_c_out _ c1) in *.
    assert (0 < zlen t) as Hpos. { destruct Ht as (t' & -> & _). unfold zlen. rewrite !length_app. simpl. lia. }
    destruct (IH c2 w2 HA2) as (c' & Hr & m & Hm & H1 & H2 & H3 & H4); [done| |].
    { assert (zlen (c_out c2) = zlen (c_out c) + zlen t) as -> by (unfold zlen, c2; cbn [c_out set_c_out c1 set_list_at]; rewrite length_app; lia). lia. }
    exists c'. split.
    { rewrite Hr. f_equal. unfold w2, w1. simpl. by rewrite !list_insert_insert_eq. }
    exists m. cbn in Hm. split; [lia|]. split; [done|]. split; [done|]. split; [done|]. rewrite (status_lines_step w) by lia. cbn [list_at c2 set_c_out c1 set_list_at c_out] in H4.
    change (status_lines w2) with (status_lines w) in H4. change (summary w2) with (summary w) in H4. fold t.
    rewrite <- !app_assoc in *. exact H4.
Qed.


Lemma ctl_fill_served k c w : at_conn k c w -> exists w', ctl_fill k w = Ok tt w' /\ served w'.
Proof.
  intros HA. pose proof (fill_loop_spec (S (Z.to_nat CTL_OUT)) k c w HA) as Hw. unfold ctl_fill, wp in *.
  destruct (fill_loop _ k w) as [[] w'| | |]; [|destruct Hw; unfold zlen; lia..]. exists w'. split; [done|].
  destruct Hw as [(c1 & H1 & _) _]; [unfold zlen; lia|done].
Qed.

(** The listing of the services is complete and in order: filling the
    reply of a client that asked for it adds the lines of the next services, one
    each, and ends either with all of them listed and the summary, or with no
    room for another line, to go on from there; it changes nothing but that
    connection. *)
Theorem ctl_fill_lists w k c : reachable w -> conns w !! k = Some c -> listing c = 1 ->
  exists c', ctl_fill k w = Ok tt (set_conns (<[k := c']> (conns w)) w) /\ listed w c c'.
Proof.
  intros Hr Hk Hl. apply fill_listed; [split; [by apply reachable_served|done]|done|]. unfold zlen. lia.
Qed.

(** ** What is written *)

(** C38. In a world between two handlers ([served], which holds of every
    reachable world and is kept by every step of a connection), no byte of a
    reply is lost, repeated or reordered on its way to the
    client: a flush writes a part of the output that starts where the last one
    stopped, it says that all is written only when it is, and otherwise it keeps
    the rest for the next time. *)
Theorem ctl_flush_sends w k c : served w -> conns w !! k = Some c ->
  exists rc w' n, ctl_flush k w = Ok rc w' /\ 0 <= n <= zlen (c_out c) - out_at c /\
    sent (c_fd c) (trace w') = sent (c_fd c) (trace w) ++ take (Z.to_nat n) (drop (Z.to_nat (out_at c)) (c_out c)) /\
    ((rc = 0 \/ rc = -1) /\ conns w' !! k = Some (set_out_at (out_at c + n) c) \/
     rc = 1 /\ n = zlen (c_out c) - out_at c /\ conns w' !! k = Some (set_out_at 0 (set_c_out [] c))).
Proof.
  intros HS Hk. pose proof (ctl_flush_spec k c w (conj HS Hk)) as Hw.
  unfold wp in Hw. destruct (ctl_flush k w) as [rc w'| | |]; try done. destruct Hw as [(at_ & w1 & HA & Hge & Hsent & Hend) _].
  pose proof (served_conn _ _ _ (proj1 HA) (proj2 HA)) as Hc. pose proof (co_out _ Hc) as Hat. cbn [out_at c_out set_out_at] in Hat.
  exists rc, w', (at_ - out_at c). replace (out_at c + (at_ - out_at c)) with at_ by lia. split; [done|]. split; [lia|].
  destruct Hend as [[Hrc ->]|(-> & -> & ->)].
  - split; [done|]. left. split; [done|apply HA].
  - split; [done|]. right. split; [done|]. split; [done|]. simpl. apply list_lookup_insert_eq. by apply (lookup_lt_Some _ _ _ (proj2 HA)).
Qed.

(** ** What is refused *)

(** The reason a request is refused for, if it is. *)
Definition refusal (w : world) (line : bytes) : option bytes :=
  let cmd := strtok line in
  let no_service nm := if decide (ctl_find nm = None) then Some (bs "no service named " ++ nm) else None in
  if decide (cmd = bs "status") then nm ← argument line; no_service nm else
  if decide (cmd = bs "log") then
    nm ← argument line;
    if decide (nm = bs "time") then if boot_ms w <? 0 then Some (bs "boot has not finished") else None else
    if decide (nm = bs "watch") then if CTL_WATCH <=? cnt watch (conns w) then Some (bs "too many log watchers") else None else
    Some (bs "unknown log mode '" ++ nm ++ bs "'") else
  if decide (cmd = bs "reload") then Some (bs "the running graph cannot be replaced, reboot to load a new one") else
  if decide (cmd = bs "resume") then if shutting_down w then Some (bs "shutting down") else None else
  if decide (cmd ∈ [bs "restart"; bs "stop"; bs "start"]) then
    match argument line with
    | None => Some (cmd ++ bs " needs a service name")
    | Some nm =>
        if shutting_down w then Some (bs "shutting down") else
        match ctl_find nm with
        | None => no_service nm
        | Some i =>
            if decide (is_target env_g i = Some true) then Some (nm ++ bs " is a target, it has no process") else
            if decide (op <$> runs w !! i = Some OP_NONE) then None else Some (nm ++ bs " is busy")
        end
    end else Some (bs "unknown command '" ++ cmd ++ bs "'").

Lemma refusal_sound w line t : served w -> refusal w line = Some t -> forall k, ctl_cmd k line w = refuse k t w.
Proof.
  intros [HQ HC] Ht k. unfold refusal in Ht. unfold ctl_cmd, cmd_status, cmd_log. cbv zeta in *.
  destruct (decide (strtok line = bs "status")) as [_|H1].
  { destruct (argument line) as [nm|]; [|done]. simpl in Ht. destruct (decide _) as [->|]; [|done]. by simplify_eq. }
  destruct (decide (strtok line = bs "log")) as [_|H2].
  { unfold mbind at 1, M_bind at 1. cbn [gets]. destruct (argument line) as [nm|]; [|done]. simpl in Ht.
    destruct (decide (nm = bs "time")) as [->|Hnt].
    { rewrite decide_True by done. destruct (_ <? 0); [|done]. by simplify_eq. }
    rewrite decide_False by congruence. rewrite bool_decide_true by done.
    destruct (decide (nm = bs "watch")) as [->|Hnw].
    { rewrite (bool_decide_true (Some (bs "watch") = Some (bs "watch"))) by done. cbn [andb negb].
      unfold mbind at 1, M_bind at 1. cbn [gets]. destruct (_ <=? _); [|done]. by simplify_eq. }
    rewrite bool_decide_false by congruence. cbn [andb negb default]. by simplify_eq. }
  destruct (decide (strtok line = bs "reload")) as [_|H3]; [by simplify_eq|].
  unfold mbind at 1, M_bind at 1. cbn [gets].
  destruct (decide (strtok line = bs "resume")) as [_|H4].
  { destruct (shutting_down w); [|done]. by simplify_eq. }
  assert (negb (bool_decide (strtok line = bs "restart")) && negb (bool_decide (strtok line = bs "stop"))
    && negb (bool_decide (strtok line = bs "start")) = negb (bool_decide (strtok line ∈ [bs "restart"; bs "stop"; bs "start"]))) as Eb.
  { destruct (bool_decide_reflect (strtok line = bs "restart")) as [->|N1]; [done|].
    destruct (bool_decide_reflect (strtok line = bs "stop")) as [->|N2]; [done|].
    destruct (bool_decide_reflect (strtok line = bs "start")) as [->|N3]; [done|].
    symmetry. apply negb_true_iff, bool_decide_eq_false. rewrite !elem_of_cons, elem_of_nil. tauto. }
  rewrite Eb. destruct (decide (strtok line ∈ _)) as [Hin|Hin].
  - rewrite bool_decide_true by done. cbn [negb]. destruct (argument line) as [nm|]; [|by simplify_eq].
    destruct (shutting_down w); [by simplify_eq|]. destruct (ctl_find nm) as [i|] eqn:Hf.
    + pose proof (ctl_find_lt _ _ Hf) as Hi. destruct (target_lookup i Hi) as [tg Htg]. rewrite Htg in *.
      destruct tg; [rewrite decide_True in Ht by done; by simplify_eq|]. rewrite decide_False in Ht by congruence.
      destruct (side_run _ w i (quiet_side _ HQ) Hi) as [r Hr]. rewrite Hr in Ht.
      rewrite (bind_run _ _ false w w) by done. cbv iota beta. rewrite (bind_run _ _ r w w) by (unfold run_of, rd, gets, mbind, M_bind; by rewrite Hr).
      simpl in Ht. destruct (decide (Some (op r) = Some OP_NONE)) as [|Hne]; [done|]. rewrite bool_decide_false by congruence. cbn [negb]. by simplify_eq.
    + rewrite decide_True in Ht by done. by simplify_eq.
  - rewrite bool_decide_false by done. cbn [negb]. by simplify_eq.
Qed.

(** C37. A request that is refused, because it is not understood, names no
    service or one that cannot take it, or comes at the wrong time, changes
    nothing but the reply of its own connection, which is one line that says
    why. *)
Theorem refused_changes_nothing w k c line t : reachable w ->
  conns w !! k = Some c -> idle c -> refusal w line = Some t ->
  exists c', ctl_cmd k line w = Ok tt (set_conns (<[k := c']> (conns w)) w) /\
    c_out c' = NCTL_ERR ++ take (Z.to_nat (CTL_BUF - 1)) t ++ [10] /\ c_done c' = true.
Proof.
  intros Hr%reachable_served Hk [Hd Hl] Ht. rewrite (refusal_sound w line t Hr Ht k). unfold refuse. rewrite (mod_conn_run _ k c) by done.
  eexists. split; [done|]. pose proof (served_conn _ _ _ Hr Hk) as Hc. pose proof (co_idle _ Hc Hd Hl) as Ho.
  unfold ctl_end, ctl_out. rewrite Hd. cbn [c_done c_out set_c_svc set_listing]. rewrite Hd, Ho. cbn. split; [|done].
  set (l := take _ t). assert (length l <= 1023)%nat by (unfold l; rewrite length_take; change (Z.to_nat (CTL_BUF - 1)) with 1023%nat; lia).
  change (CTL_OUT - 128 <=? zlen []) with false. cbv iota. cbn [c_out set_c_out]. rewrite take_ge; [done|]. change (zlen []) with 0.
  simpl length. rewrite length_app. simpl length. clearbody l. unfold CTL_OUT. lia.
Qed.
End Replies.
