(* ===== verification/Demo.v ===== *)
(** * A concrete machine

    A graph of three services, a kernel whose every call has a fixed answer,
    and the worlds a boot on it goes through. They show that the hypotheses of
    the theorems about pid 1 hold somewhere: the kernel keeps what [EnvOk] asks,
    and the worlds are reachable. *)

From stdpp Require Import gmap.
From S2P Require Import Prelude Ngraph Accept PidMap Ring Log Console Repeat Logged World Sys Inv Live Cgroup Fail Emerg Output Lines Deps State Spawn Release Reap Command Steady Halt Stop Down Prereq Order Mounts Frame Control Clients Serve Requests Loop Supervisor.

(** The graph of the image of [Accept]: a oneshot [fs], a daemon [dbus] that
    needs it, and a target [basic] that needs both. *)
Definition demo_g : graph := Eval vm_compute in
  match decode demo_image with VOk g => g | _ => Graph 0 0 [] [] [] [] [] end.

Lemma demo_g_wf : graph_wf demo_g.
Proof.
  constructor; try done.
  - simpl. lia.
  - intros j Hj. simpl in Hj. destruct j as [|[|[|j]]]; try lia; eexists; (split; [vm_compute; reflexivity|]);
      split; repeat constructor; simpl; lia.
  - intros i s p Hs Hp. destruct i as [|[|[|i]]]; simpl in Hs, Hp; try done; injection Hs as <-; injection Hp as <-;
      constructor; simpl; try done; try lia; auto.
    all: try (right; split; [unfold NG_NOTIFY_MIN, NG_NOTIFY_MAX; lia|done]).
    all: intros d sd (l & Hl & Hd) Hsd; vm_compute in Hl; injection Hl as <-.
    all: apply list_elem_of_In in Hd; simpl in Hd.
    all: repeat destruct Hd as [<-|Hd]; [..|done]; simpl in Hsd; injection Hsd as <-; simpl; lia.
  - apply NoDup_ListNoDup. repeat constructor; simpl; intuition discriminate.
  - intros nm Hn. apply list_elem_of_In in Hn. simpl in Hn. by repeat destruct Hn as [<-|Hn].
Qed.

(** The kernel: the clock ticks a second per call, nothing can be read, every
    fork succeeds, and the first child to exit is the first one forked. With
    [client] something also connects, sends [line] over and over, and takes
    whatever is written to it. *)
Definition machine (client : bool) (line : bytes) (open : nat -> bytes -> sysres) (fread : nat -> Z -> Z -> rdres) : Env := {|
  env_g := demo_g;
  os_clock n := (Z.of_nat n, 0);
  os_read n fd cap := if client && (fd =? 7) && (0 <? zlen line) && (zlen line <=? cap) then RData line else RErr EAGAIN;
  os_fread := fread;
  os_open := open;
  os_write n fd b := if client && (fd =? 7) then inl (blen b) else inr EINVAL;
  os_mkdir n p := None;
  os_rmdir n p := None;
  os_pipe n := inl (2 * Z.of_nat n + 10, 2 * Z.of_nat n + 11);
  os_clone n fd := inr ENOSYS;
  os_fork n := inl (100 + Z.of_nat n mod 30000);
  os_wait n := match n with O => WPid 103 0 | _ => WNone end;
  os_console n := inl 5;
  os_shell n := inl 99;
  os_accept n := if client && (n mod 3 =? 0)%nat then inl 7 else inr EAGAIN;
  os_poll n k := if client || (k =? 0)%nat then POLLIN else 0;
  os_signal n := if Nat.odd n then Some SIGCHLD else None;
  os_strerror e := bs "error";
  os_signalfd n := inl 3;
  os_alloc n := true;
  os_dir n path := None;
  os_ioctl n fd request arg := inr 25;
  os_act n what arg := None;
  os_waitpid n p := WErr 10;
  os_patience := 100;
|}.

(** A machine a file can be read on, if every file ends. *)
Lemma machine_ok client line open fread : (forall n fd cap b, fread n fd cap = RData b -> 0 < Z.of_nat (length b) <= cap) ->
  (forall n fd, exists k, (k < 100)%nat /\ forall cap, rd_ends (fread (n + k)%nat fd cap) /\ rd_ends (fread (S (n + k)) fd cap)) ->
  EnvOk (machine client line open fread).
Proof.
  intros Hr He. constructor; cbn -[Z.mul Z.div Z.modulo Nat.modulo]; try done.
  - apply demo_g_wf.
  - intros n fd cap b. destruct (client && _ && (0 <? zlen line)) eqn:Hc; [|done]. apply andb_true_iff in Hc as [_ Hc%Z.ltb_lt].
    cbn [andb]. destruct (Z.leb_spec (zlen line) cap); [|done]. intros [= <-]. unfold zlen in *. lia.
  - intros n a b [= <- <-]. lia.
  - intros n p [= <-]. pose proof (Z.mod_pos_bound (Z.of_nat n) 30000). unfold INT_MAX. lia.
  - intros n p [= <-]. lia.
  - intros n. lia.
  - intros n fd. exists 0%nat. split; [lia|]. intros cap. by destruct (client && _ && _ && _).
  - intros [|n] p st; simpl; [|done]. intros [= <- <-]. lia.
  - intros n. exists 1%nat. split; [lia|]. left. by rewrite Nat.add_1_r.
  - intros n fd b k. destruct (_ && _); [|done]. intros [= <-]. done.
  - intros n fd. exists 0%nat. split; [lia|]. intros b. by destruct (_ && _).
  - intros n. destruct (Nat.odd n) eqn:Hn; [exists 1%nat|exists 0%nat]; (split; [lia|]).
    + by rewrite Nat.add_1_r, Nat.odd_succ, <- Nat.negb_odd, Hn.
    + by rewrite Nat.add_0_r, Hn.
  - intros n. exists (4 - n mod 3)%nat, EAGAIN, EAGAIN. pose proof (Nat.mod_upper_bound n 3).
    pose proof (Nat.div_mod_eq n 3) as Hn. split; [lia|].
    replace (n + (4 - n mod 3))%nat with (1 + (n / 3 + 1) * 3)%nat by lia.
    replace (S (1 + (n / 3 + 1) * 3))%nat with (2 + (n / 3 + 1) * 3)%nat by lia.
    rewrite !Nat.Div0.mod_add. change (1 mod 3)%nat with 1%nat. change (2 mod 3)%nat with 2%nat. by destruct client.
  - intros m n Hmn. unfold os_ms. simpl. lia.
  - intros n. unfold os_ms. simpl. lia.
Qed.

#[export] Instance demo : Env := machine false [] (fun n p => inr ENOENT) (fun n fd cap => REof).

#[export] Instance demo_ok : EnvOk demo.
Proof. apply machine_ok; [done|]. intros n fd. exists 0%nat. split; [lia|done]. Qed.

(** The world after the start of the graph, and after a turn in which the child
    of [fs] has exited with status 0. *)
Definition after {A} (r : res A) (w0 : world) : world := match r with Ok _ w => w | _ => w0 end.

Definition returned (r : res unit) : bool := match r with Ok _ _ => true | _ => false end.

Lemma returned_after r w0 : returned r = true -> r = Ok tt (after r w0).
Proof. by destruct r as [[] | | |]. Qed.

Definition world0 : world := first_world demo_g true false (log_start_state 0 1 false) 3 (-1).
Definition world1 : world := after (start_graph world0) world0.
Definition world2 : world := after (turn 10 0 world1) world1.

Lemma world1_started : start_graph world0 = Ok tt world1.
Proof. apply returned_after. vm_compute. reflexivity. Qed.

Lemma world2_turned : turn 10 0 world1 = Ok tt world2.
Proof. apply returned_after. vm_compute. reflexivity. Qed.

Lemma world2_reachable : reachable world2.
Proof.
  apply (reach_step world1); [|by eapply step_turn, world2_turned].
  apply (reach_start true false (log_start_state 0 1 false) 3 (-1)); [apply log_start_ok|apply world1_started].
Qed.

Lemma world2_log : log_ok (w_log world2).
Proof. apply (sd_log None), quiet_side, reachable_quiet, world2_reachable. Qed.

(** The latest start of a service in the trace. *)
Fixpoint fork_of (i : nat) (l : list event) : option (Z * dep * bool) :=
  match l with
  | [] => None
  | EvFork j p dp wn :: l' => if (j =? i)%nat then Some (p, dp, wn) else fork_of i l'
  | _ :: l' => fork_of i l'
  end.

Lemma fork_of_in i l p dp wn : fork_of i l = Some (p, dp, wn) -> EvFork i p dp wn ∈ l.
Proof.
  induction l as [|e l IH]; simpl; [done|]. destruct e; try (intros Hf; right; by apply IH).
  destruct (Nat.eqb_spec i0 i) as [->|]; [intros [= -> -> ->]; by left|]. intros Hf. right. by apply IH.
Qed.

(** [dbus] was started after [fs] had come up. *)
Lemma start_after_prerequisites_witness : exists p dp wn,
  fork_of 1 (trace world2) = Some (p, dp, wn) /\ p = 120 /\ wn = false /\
  released dp !! 0%nat = Some true /\ up dp !! 0%nat = Some true.
Proof.
  destruct (fork_of 1 (trace world2)) as [[[p dp] wn]|] eqn:Hf; [|vm_compute in Hf; discriminate].
  exists p, dp, wn. split; [done|]. split; [by vm_compute in Hf; injection Hf as <- _ _|].
  destruct (start_after_prerequisites world2 1 p dp wn world2_reachable (fork_of_in _ _ _ _ _ Hf))
    as (Hw & Hp & Hj). split; [done|].
  destruct (Hj 0%nat) as [H1 H2].
  { exists [1%nat; 2%nat]. split; [vm_compute; reflexivity|by left]. }
  split; [done|]. apply H2. vm_compute. reflexivity.
Defined.

Lemma counters_count_witness : n_active (w_ctr world2) = cnt (is_st RUNNING) [DONE; RUNNING; PENDING].
Proof. apply (counters_count world2 world2_reachable). Defined.

Lemma unmet_counts_witness : d_unmet (w_dep world2) !! 1%nat = Some 0 /\ rel_b (w_dep world2) 0 = true.
Proof.
  assert (d_unmet (w_dep world2) !! 1%nat = Some 0) as Hu by (vm_compute; reflexivity). split; [done|].
  destruct (unmet_counts world2 1 world2_reachable) as (_ & [Hz _] & _); [vm_compute; lia|]. apply (Hz Hu).
  exists [1%nat; 2%nat]. split; [vm_compute; reflexivity|by left].
Defined.

Lemma live_list_complete_witness : 1%nat ∈ lset (w_lv world2).
Proof.
  destruct (runs world2 !! 1%nat) as [r|] eqn:Hr; [|vm_compute in Hr; discriminate].
  apply (proj2 (proj2 (proj2 (live_list_complete world2 world2_reachable))) 1%nat r Hr).
  left. vm_compute in Hr. injection Hr as <-. simpl. lia.
Defined.

Lemma find_pid_sound_witness : exists f, find_pid 120 world2 = Ok f world2 /\ f = Some (1%nat, false).
Proof.
  destruct (find_pid_sound world2 120 world2_reachable) as (f & Hf & _); [lia|].
  exists f. split; [done|].
  assert (match find_pid 120 world2 with Ok f _ => f | _ => None end = Some (1%nat, false)) as E by (vm_compute; reflexivity).
  rewrite Hf in E. exact E.
Defined.

(** [fs] fails: [dbus], which waits for it, can no longer start, and neither can
    [basic], a target that had completed and is down. *)
Lemma fail_poison_least_witness : exists p,
  fail_poison demo_g 0 [RUNNING; PENDING; DONE] [false; false; false] (runs world2) = Some p /\
  p_state p = [FAILED; SKIPPED; SKIPPED] /\ p_count p + p_undone p = 2.
Proof.
  destruct (fail_poison_least [false; false; false] (runs world2) [RUNNING; PENDING; DONE] 0) as (p & Hp & _ & _ & _ & Hc);
    [reflexivity|vm_compute; reflexivity|reflexivity|vm_compute; lia|].
  exists p. split; [exact Hp|]. vm_compute in Hp. injection Hp as <-. split; [reflexivity|]. rewrite Hc. reflexivity.
Defined.

(** [fs] writes a line and a half. *)
Lemma absorb_keeps_output_witness : exists w', absorb 0 (bs "a" ++ [10] ++ bs "b") world2 = Ok tt w' /\
  r_line <$> runs w' !! 0%nat = Some (bs "b").
Proof.
  destruct (runs world2 !! 0%nat) as [r|] eqn:Hr; [|vm_compute in Hr; discriminate].
  assert (0 < n_svc)%nat as H0 by (vm_compute; lia).
  destruct (absorb_keeps_output 0 H0 (bs "fs") eq_refl (bs "a" ++ [10] ++ bs "b") world2 r Hr world2_log) as (w' & r' & ls & Hw & Hr' & _);
    [vm_compute in Hr; injection Hr as <-; vm_compute; discriminate..|].
  exists w'. split; [exact Hw|].
  assert (r_line <$> runs (after (absorb 0 (bs "a" ++ [10] ++ bs "b") world2) world2) !! 0%nat = Some (bs "b")) as E
    by (vm_compute; reflexivity).
  rewrite Hw in E. exact E.
Defined.

Lemma emergency_bounded_witness : exists w', fail_emergency_shell (bs "why") world0 = Ok tt w' /\
  em_ok (w_emerg w').
Proof.
  destruct (emergency_bounded world0 0 0 (bs "why")) as ((w' & Hw & [Hok _ _]) & _).
  { intros _. vm_compute. repeat split; discriminate. }
  { apply log_start_ok. }
  exists w'. split; [exact Hw|exact Hok].
Defined.

(** ** A shutdown *)

Lemma world2_quiet : Quiet world2.
Proof. apply reachable_quiet, world2_reachable. Qed.


Lemma shutdown_reaches_reboot_witness : exists w', shutdown_system RB_POWER_OFF (bs "poweroff") world2 = Halt w' /\
  EvHalt RB_POWER_OFF ∈ trace w'.
Proof.
  destruct (shutdown_reaches_reboot RB_POWER_OFF (bs "poweroff") world2 world2_quiet) as (w' & k & l & Hh & Et & _).
  exists w'. split; [exact Hh|]. rewrite Et. apply elem_of_app. right. by left.
Defined.

(** A mount table with a space and a backslash in a path. *)
Definition demo_mounts : list mount :=
  [Mount (bs "/dev/sda1") (bs "/") (bs "ext4 rw 0 0"); Mount (bs "/dev/sdb 1") (bs "/mnt/a \b") (bs "vfat rw 0 0")].

Lemma demo_mounts_ok : Forall mount_ok demo_mounts.
Proof.
  repeat apply List.Forall_cons; [| |apply List.Forall_nil].
  all: split; [vm_compute; by repeat constructor..|].
  all: intros Hin%list_elem_of_In; vm_compute in Hin; repeat (destruct Hin as [Hin|Hin]; [discriminate|]); exact Hin.
Qed.

Lemma mounts_read_back_witness : exists r w',
  list_mounts (text_lines (cut0 (mount_table demo_mounts))) 0 [] (set_shutting_down true world2) = Ok r w' /\
  r = [bs "/"; bs "/mnt/a \b"].
Proof.
  pose proof (mounts_read_back demo_mounts (set_shutting_down true world2) (quiet_shut _ world2_quiet) eq_refl demo_mounts_ok) as H.
  unfold wp in H. destruct (list_mounts _ _ _ _) as [r w'| | |]; [|destruct H..].
  exists r, w'. split; [reflexivity|]. destruct H as (ms1 & ms2 & E & -> & [->|(k & _ & Hk)]); [|discriminate Hk].
  rewrite app_nil_r in E. rewrite <- E. reflexivity.
Defined.

(** The same table, on a machine where the file with it can be read. *)
Definition reading : Env :=
  machine false [] (fun n p => inl 7) (fun n fd cap => if (n =? 2)%nat && (zlen (mount_table demo_mounts) <=? cap) then RData (mount_table demo_mounts) else REof).

Lemma reading_ok : EnvOk reading.
Proof.
  apply machine_ok.
  - intros n fd cap b. destruct (n =? 2)%nat, (Z.leb_spec (zlen (mount_table demo_mounts)) cap) as [Hle|]; try done.
    intros [= <-]. split; [vm_compute; reflexivity|exact Hle].
  - intros n fd. exists 3%nat. split; [lia|]. intros cap.
    destruct (Nat.eqb_spec (n + 3) 2), (Nat.eqb_spec (S (n + 3)) 2); try lia; done.
Qed.

