(* ===== verification/Chat.v ===== *)
(** * A client of pid 1

    The machine of [Demo] with a client that connects, asks for a service to be
    stopped, and reads what it is told. *)

From stdpp Require Import gmap.
From S2P Require Import Prelude Ngraph PidMap Ring Log Console Repeat Logged World Sys Inv Live Cgroup Fail Emerg Output State Spawn Release Reap Halt Stop Frame Command Control Clients Serve Requests Loop Supervisor Replies Demo.

#[export] Instance chat : Env := machine true (bs "stop dbus" ++ [10]) (fun n p => inr ENOENT) (fun n fd cap => REof).

#[export] Instance chat_ok : EnvOk chat.
Proof. apply machine_ok; [done|]. intros n fd. exists 0%nat. split; [lia|done]. Qed.

Definition chat0 : world := first_world demo_g true false (log_start_state 0 1 false) 3 4.
Definition chat1 : world := after (start_graph chat0) chat0.
Definition chat2 : world := after (turn 10 0 chat1) chat1.
Definition chat3 : world := after (turn 10 0 chat2) chat2.
Definition chat4 : world := after (turn 10 0 chat3) chat3.


Lemma chat1_started : start_graph chat0 = Ok tt chat1.
Proof. apply returned_after. vm_compute. reflexivity. Qed.

Lemma chat2_turned : turn 10 0 chat1 = Ok tt chat2.
Proof. apply returned_after. vm_compute. reflexivity. Qed.

Lemma chat3_turned : turn 10 0 chat2 = Ok tt chat3.
Proof. apply returned_after. vm_compute. reflexivity. Qed.

Lemma chat2_reachable : reachable chat2.
Proof.
  apply (reach_step chat1); [|by eapply step_turn, chat2_turned].
  apply (reach_start true false (log_start_state 0 1 false) 3 4); [apply log_start_ok|apply chat1_started].
Qed.

Lemma chat3_reachable : reachable chat3.
Proof. apply (reach_step chat2); [apply chat2_reachable|]. by eapply step_turn, chat3_turned. Qed.

(** The connection the client has made. *)
Lemma chat2_conn : conns chat2 !! 0%nat = Some (Conn 7 None 0 0 0 false false [] 0 []).
Proof. vm_compute. reflexivity. Qed.


Lemma commands_return_witness : exists w', ctl_cmd 0 (bs "stop dbus") chat2 = Ok tt w' /\ reachable w'.
Proof.
  destruct (commands_return chat2 chat2_reachable) as (Hc & _).
  destruct (Hc 0%nat _ (bs "stop dbus") chat2_conn) as (w' & Hs & Hr & _); [done|done|by apply flat_b|].
  exists w'. split; [exact Hs|exact Hr].
Defined.

(** The client that asked for [dbus] to be stopped waits for its end. *)
Lemma control_well_formed_witness : c_svc <$> conns chat3 !! 0%nat = Some (Some 1%nat) /\
  exists r, runs chat3 !! 1%nat = Some r /\ op r <> OP_NONE.
Proof.
  assert (c_svc <$> conns chat3 !! 0%nat = Some (Some 1%nat)) as Hs by (vm_compute; reflexivity). split; [exact Hs|].
  destruct (conns chat3 !! 0%nat) as [c|] eqn:Hc; [|discriminate]. injection Hs as Hs.
  apply (proj2 (proj2 (control_well_formed chat3 chat3_reachable) 0%nat c Hc) 1%nat Hs).
Defined.

(** ** A client that asks for the listing *)

(** [chat2] once the client has asked for the status, and no reply has been
    filled in yet. *)
Definition asked : world := after (ctl_cmd 0 (bs "status") chat2) chat2.

Lemma asked_reachable : reachable asked.
Proof.
  apply (reach_step chat2); [apply chat2_reachable|]. eapply (step_request chat2 asked 0 _ (bs "status")).
  - by apply (reachable_asks chat2 0 _ chat2_reachable chat2_conn).
  - by apply flat_b.
  - apply returned_after. vm_compute. reflexivity.
Qed.

Lemma asked_conn : conns asked !! 0%nat = Some (Conn 7 None 0 0 1 false false [] 0 []).
Proof. vm_compute. reflexivity. Qed.

Lemma ctl_fill_lists_witness : exists c', ctl_fill 0 asked = Ok tt (set_conns (<[0%nat := c']> (conns asked)) asked) /\
  c_out c' = bs ". fs up wanted pid 0" ++ [10] ++ bs ". dbus starting wanted pid 120" ++ [10] ++
    bs ". basic pending wanted pid 0" ++ [10] ++ bs "+ 3 services, 1 up" ++ [10].
Proof.
  destruct (ctl_fill_lists asked 0 _ asked_reachable asked_conn eq_refl) as (c' & Hf & _). exists c'. split; [exact Hf|].
  assert (match ctl_fill 0 asked with Ok _ w => c_out <$> conns w !! 0%nat | _ => None end =
    Some (bs ". fs up wanted pid 0" ++ [10] ++ bs ". dbus starting wanted pid 120" ++ [10] ++
      bs ". basic pending wanted pid 0" ++ [10] ++ bs "+ 3 services, 1 up" ++ [10])) as E by (vm_compute; reflexivity).
  rewrite Hf in E. cbn [conns set_conns] in E. rewrite list_lookup_insert_eq in E by (vm_compute; lia). injection E as E. exact E.
Defined.

(** The world with the listing in the buffer. *)
Definition filled : world := after (ctl_fill 0 asked) asked.

Lemma filled_served : served filled.
Proof.
  destruct (ctl_fill_served 0 _ asked (conj (reachable_served _ asked_reachable) asked_conn)) as (w' & Hf & Hs).
  unfold filled. by rewrite Hf.
Qed.

(** The whole listing reaches the client. *)
Lemma ctl_flush_sends_witness : exists w', ctl_flush 0 filled = Ok 1 w' /\
  sent 7 (trace w') = bs ". fs up wanted pid 0" ++ [10] ++ bs ". dbus starting wanted pid 120" ++ [10] ++
    bs ". basic pending wanted pid 0" ++ [10] ++ bs "+ 3 services, 1 up" ++ [10].
Proof.
  destruct (conns filled !! 0%nat) as [c|] eqn:Hc; [|vm_compute in Hc; discriminate].
  destruct (ctl_flush_sends filled 0 c filled_served Hc) as (rc & w' & n & Hf & _).
  assert (match ctl_flush 0 filled with Ok rc w => Some (rc, sent 7 (trace w)) | _ => None end =
    Some (1, bs ". fs up wanted pid 0" ++ [10] ++ bs ". dbus starting wanted pid 120" ++ [10] ++
      bs ". basic pending wanted pid 0" ++ [10] ++ bs "+ 3 services, 1 up" ++ [10])) as E by (vm_compute; reflexivity).
  rewrite Hf in E. injection E as -> E. exists w'. split; [exact Hf|exact E].
Defined.

(** A request for a service there is none of. *)
Lemma refused_changes_nothing_witness : exists c',
  ctl_cmd 0 (bs "stop cups") chat2 = Ok tt (set_conns (<[0%nat := c']> (conns chat2)) chat2) /\
  c_out c' = bs "- no service named cups" ++ [10].
Proof.
  destruct (refused_changes_nothing chat2 0 _ (bs "stop cups") (bs "no service named cups") chat2_reachable chat2_conn)
    as (c' & Hc & Ho & _); [done|vm_compute; reflexivity|].
  exists c'. split; [exact Hc|]. rewrite Ho. vm_compute. reflexivity.
Defined.
