(* ===== verification/Build.v ===== *)
(** * The graph compiler: its data and its ways to end (ctl/init.h, ctl/parser/parser.h)

    [ninitctl init] works on arrays and dies with a message when the services do
    not make a graph. A computation of it is [Built] with a result, [Die] with
    the message as data, [OutOfBounds] when it accesses an array outside its
    bounds, or [Unfinished] when a loop used up the steps the model gives it. *)

From stdpp Require Import sorting.
From S2P Require Import Prelude Ngraph.

(** What the parser leaves of a service file, as far as the compiler reads it. *)
Record src := Src {
  s_name : bytes;
  s_script : option bytes;
  s_type : Z;
  s_onfail : Z;
  s_have_onfail : bool;
  s_restart : Z;
  s_notify : Z;
  s_start_ms : Z;
  s_stop_ms : Z;
  s_retry_ms : Z;
  s_start_tries : Z;
  s_pflags : Z;
  s_depon : list bytes;
  s_depof : list bytes;
  s_exec_pre : list bytes;
  s_exec_suf : list bytes;
  s_direct : list bytes;
}.

(** [edges[k].b] waits for [edges[k].a]. *)
Abbreviation arc := (nat * nat)%type (only parsing).

(** The messages of [die] and [cycle_death]. *)
Inductive death : Type :=
  | NamesNoService (i : nat) (rev : bool) (name : bytes)
  | DependsOnItself (i : nat)
  | DependencyCycle (path : list nat)
  | NoReadyNode (remaining : nat)
  | WarnWithDependents (i : nat) (nd : Z)
  | FailedVerification (why : string).

Inductive built (A : Type) : Type :=
  | Built (a : A)
  | Die (d : death)
  | OutOfBounds
  | Unfinished.
Arguments Built {A} a.
Arguments Die {A} d.
Arguments OutOfBounds {A}.
Arguments Unfinished {A}.

#[export] Instance built_ret : MRet built := fun A => Built.

#[export] Instance built_bind : MBind built := fun A B f m =>
  match m with
  | Built a => f a
  | Die d => Die d
  | OutOfBounds => OutOfBounds
  | Unfinished => Unfinished
  end.

(** Accesses to an array. *)
Definition get {A} (l : list A) (i : nat) : built A :=
  match l !! i with Some x => Built x | None => OutOfBounds end.

Definition put {A} (l : list A) (i : nat) (x : A) : built (list A) :=
  match l !! i with Some _ => Built (<[i := x]> l) | None => OutOfBounds end.

Definition upd {A} (l : list A) (i : nat) (f : A -> A) : built (list A) :=
  match l !! i with Some x => Built (<[i := f x]> l) | None => OutOfBounds end.

(** A [for] loop over the items of a list. *)
Fixpoint each {S B} (f : S -> B -> built S) (s : S) (l : list B) : built S :=
  match l with
  | [] => Built s
  | x :: l' => s' ← f s x; each f s' l'
  end.

(** ** How a computation ends

    [ends m P D]: [m] neither leaves an array nor runs on for ever; its result
    satisfies [P] and the message it dies with [D]. *)
Definition ends {A} (m : built A) (P : A -> Prop) (D : death -> Prop) : Prop :=
  match m with
  | Built a => P a
  | Die d => D d
  | _ => False
  end.

Section Ends.
Context {A B : Type}.
Implicit Types (P : A -> Prop) (Q : B -> Prop) (D : death -> Prop).

Lemma ends_ret (a : A) P D : P a -> ends (mret a) P D.
Proof. done. Qed.

Lemma ends_bind (m : built A) (f : A -> built B) Q D :
  ends m (fun a => ends (f a) Q D) D -> ends (m ≫= f) Q D.
Proof. by destruct m. Qed.

Lemma ends_mono (m : built A) P P' D D' : ends m P D -> (forall a, P a -> P' a) ->
  (forall d, D d -> D' d) -> ends m P' D'.
Proof. destruct m; simpl; auto. Qed.

Lemma ends_get (l : list A) i x P D : l !! i = Some x -> P x -> ends (get l i) P D.
Proof. unfold get. by intros ->. Qed.

Lemma ends_put (l : list A) i x (P : list A -> Prop) D :
  (i < length l)%nat -> P (<[i := x]> l) -> ends (put l i x) P D.
Proof. unfold put. intros Hi. by destruct (lookup_lt_is_Some_2 l i Hi) as [y ->]. Qed.

Lemma ends_upd (l : list A) i x f (P : list A -> Prop) D :
  l !! i = Some x -> P (<[i := f x]> l) -> ends (upd l i f) P D.
Proof. unfold upd. by intros ->. Qed.

Lemma ends_built (m : built A) P : ends m P (fun _ => False) -> exists a, m = Built a /\ P a.
Proof. destruct m; simpl; [eauto|done..]. Qed.
End Ends.

(** The invariant of a loop: [I done s] after the items [done]. *)
Lemma ends_each {A B} (I : list B -> A -> Prop) (f : A -> B -> built A) s l (D : death -> Prop) :
  I [] s -> (forall done s x rest, l = done ++ x :: rest -> I done s -> ends (f s x) (I (done ++ [x])) D) ->
  ends (each f s l) (I l) D.
Proof.
  intros H0 Hstep.
  assert (forall rest done s, l = done ++ rest -> I done s -> ends (each f s rest) (I l) D) as Hgen.
  { induction rest as [|x rest IH]; intros dn s0 Hl Hs; simpl.
    - rewrite app_nil_r in Hl. by subst dn.
    - apply ends_bind. eapply ends_mono; [by apply (Hstep dn s0 x rest)| |done].
      intros s1 H1. apply (IH (dn ++ [x])); [|done]. by rewrite <- app_assoc. }
  by apply (Hgen l []).
Qed.

(** ** strcmp *)

Fixpoint strcmp (a b : bytes) : comparison :=
  match a, b with
  | [], [] => Eq
  | [], _ => Lt
  | _, [] => Gt
  | x :: a', y :: b' => match x ?= y with Eq => strcmp a' b' | c => c end
  end.

Lemma strcmp_eq a b : strcmp a b = Eq <-> a = b.
Proof.
  revert b. induction a as [|x a IH]; intros [|y b]; simpl; try done.
  destruct (Z.compare_spec x y) as [->|H|H].
  - rewrite IH. split; congruence.
  - split; [done|]. intros [= -> ->]. lia.
  - split; [done|]. intros [= -> ->]. lia.
Qed.

Lemma strcmp_refl a : strcmp a a = Eq.
Proof. by apply strcmp_eq. Qed.

Lemma strcmp_flip a b : strcmp b a = CompOpp (strcmp a b).
Proof.
  revert b. induction a as [|x a IH]; intros [|y b]; simpl; try done.
  rewrite (Z.compare_antisym x y). destruct (x ?= y) eqn:E; simpl; [apply IH|done..].
Qed.

Lemma strcmp_lt_trans a b c : strcmp a b = Lt -> strcmp b c <> Gt -> strcmp a c = Lt.
Proof.
  revert b c. induction a as [|x a IH]; intros [|y b] [|z c]; simpl; try done.
  destruct (Z.compare_spec x y), (Z.compare_spec y z), (Z.compare_spec x z); subst; try done; try lia.
  apply IH.
Qed.

(** ** qsort

    The array becomes a sorted permutation of itself. *)
Definition qsort {A} (R : relation A) `{forall x y, Decision (R x y)} (l : list A) : list A :=
  merge_sort R l.
