(* ===== verification/Link.v ===== *)
(** * Linking the services (link_graph in ctl/graph.c, first half)

    The names in depon: and depof: are looked up, the edges they give are sorted
    and made unique, and laid out as rows of dependents. *)

From stdpp Require Import sorting.
From S2P Require Import Prelude Build.

(** ** Looking a name up *)

Definition by_name (names : list bytes) (x y : nat) : Prop := strcmp (names !!! x) (names !!! y) <> Gt.

#[export] Instance by_name_dec names x y : Decision (by_name names x y).
Proof. unfold by_name. destruct (strcmp _ _); [left|left|right]; auto. Defined.

#[export] Instance by_name_total names : Total (by_name names).
Proof. intros x y. unfold by_name. rewrite (strcmp_flip (names !!! x)). destruct (strcmp _ _); simpl; auto. Qed.

#[export] Instance by_name_trans names : Transitive (by_name names).
Proof.
  intros x y z. unfold by_name. intros H1 H2. destruct (strcmp (names !!! x) (names !!! y)) eqn:E; [|..].
  - apply strcmp_eq in E. congruence.
  - by rewrite (strcmp_lt_trans _ _ _ E H2).
  - done.
Qed.

(** The binary search of [lookup]. *)
Fixpoint lookup_name (fuel : nat) (names : list bytes) (byname : list nat) (lo hi : nat) (name : bytes)
    : built (option nat) :=
  match fuel with
  | O => Unfinished
  | S fuel' =>
      if (lo <? hi)%nat then
        let mid := (lo + (hi - lo) / 2)%nat in
        x ← get byname mid;
        nm ← get names x;
        match strcmp nm name with
        | Eq => mret (Some x)
        | Lt => lookup_name fuel' names byname (mid + 1) hi name
        | Gt => lookup_name fuel' names byname lo mid name
        end
      else mret None
  end.

(** ** The edges *)

(** The references of a service in the order they are read, [true] for depof:. *)
Definition refs (s : src) : list (bool * bytes) :=
  ((fun nm => (false, nm)) <$> s_depon s) ++ ((fun nm => (true, nm)) <$> s_depof s).

Definition resolve (names : list bytes) (byname : list nat) (i : nat) (r : bool * bytes) : built arc :=
  o ← lookup_name (S (length names)) names byname 0 (length names) r.2;
  match o with
  | None => Die (NamesNoService i r.1 r.2)
  | Some o =>
      if (o =? i)%nat then Die (DependsOnItself i)
      else mret (if r.1 then (i, o) else (o, i))
  end.

Definition link_refs (srcs : list src) : built (list arc) :=
  let names := s_name <$> srcs in
  let byname := qsort (by_name names) (seq 0 (length srcs)) in
  each (fun es i =>
          s ← get srcs i;
          each (fun es r => e ← resolve names byname i r; mret (es ++ [e])) es (refs s))
    [] (seq 0 (length srcs)).

(** [cmp_edge] as an order. *)
Definition arc_le (x y : arc) : Prop := (x.1 < y.1)%nat \/ (x.1 = y.1 /\ (x.2 <= y.2)%nat).
Definition arc_lt (x y : arc) : Prop := (x.1 < y.1)%nat \/ (x.1 = y.1 /\ (x.2 < y.2)%nat).

#[export] Instance arc_le_dec x y : Decision (arc_le x y).
Proof. unfold arc_le. apply _. Defined.

#[export] Instance arc_le_total : Total arc_le.
Proof. intros [a b] [c d]. unfold arc_le. simpl. lia. Qed.

#[export] Instance arc_le_trans : Transitive arc_le.
Proof. intros [a b] [c d] [e f]. unfold arc_le. simpl. lia. Qed.

Definition sort_edges (es : list arc) : list arc := qsort arc_le es.

(** The loop that keeps an edge when it differs from the last one kept. *)
Fixpoint squeeze (kept es : list arc) : list arc :=
  match es with
  | [] => kept
  | e :: es' =>
      if bool_decide (last kept = Some e) then squeeze kept es' else squeeze (kept ++ [e]) es'
  end.

(** ** The rows *)

(** [off[v]] to [off[v + 1]] bound the dependents of [v] in [idx]; [indeg] counts
    prerequisites; [height] is filled in by the search for cycles. *)
Record lgraph := LGraph {
  l_n : nat;
  l_off : list nat;
  l_idx : list nat;
  l_indeg : list nat;
  l_height : list nat;
}.

Definition count_edges (n : nat) (es : list arc) : built (list nat * list nat) :=
  each (fun '(off, indeg) e =>
          off ← upd off (e.1 + 1) S;
          indeg ← upd indeg e.2 S;
          mret (off, indeg))
    (replicate (n + 1) 0%nat, replicate n 0%nat) es.

(** [off[i + 1] += off[i]] *)
Definition sum_offsets (n : nat) (off : list nat) : built (list nat) :=
  each (fun off i => x ← get off i; upd off (i + 1) (Nat.add x)) off (seq 0 n).

(** [idx[off[a] + fill[a]++] = b] *)
Definition fill_rows (n : nat) (off : list nat) (es : list arc) : built (list nat) :=
  r ← each (fun '(idx, fill) e =>
          o ← get off e.1;
          f ← get fill e.1;
          idx ← put idx (o + f) e.2;
          fill ← upd fill e.1 S;
          mret (idx, fill))
    (replicate (length es) 0%nat, replicate n 0%nat) es;
  mret r.1.

Definition lay_out (n : nat) (es : list arc) : built lgraph :=
  '(off, indeg) ← count_edges n es;
  off ← sum_offsets n off;
  idx ← fill_rows n off es;
  mret (LGraph n off idx indeg (replicate n 0%nat)).

(** ** The name lookup is right *)

Lemma sorted_lookup {A} (R : relation A) l i j x y : StronglySorted R l -> (i < j)%nat ->
  l !! i = Some x -> l !! j = Some y -> R x y.
Proof.
  intros HS. revert i j. induction HS as [|z l HS IH HF]; intros i j Hij Hi Hj; [done|].
  destruct j as [|j]; [lia|]. destruct i as [|i]; simpl in *.
  - injection Hi as ->. rewrite Forall_forall in HF. apply HF. by eapply list_elem_of_lookup_2.
  - apply (IH i j); [lia|done|done].
Qed.

Section Lookup.
Context (names : list bytes) (byname : list nat) (name : bytes).
Context (Hperm : byname ≡ₚ seq 0 (length names)) (Hsort : StronglySorted (by_name names) byname).

Lemma byname_at k : (k < length names)%nat ->
  exists x nm, byname !! k = Some x /\ names !! x = Some nm.
Proof.
  intros Hk. destruct (lookup_lt_is_Some_2 byname k) as [x Hx]; [by rewrite Hperm, length_seq|].
  assert (x ∈ seq 0 (length names)) as Hin by (rewrite <- Hperm; by eapply list_elem_of_lookup_2).
  apply elem_of_seq in Hin. destruct (lookup_lt_is_Some_2 names x) as [nm Hnm]; [lia|]. eauto.
Qed.

(** What the search has excluded. *)
Definition below (lo : nat) : Prop := forall k x nm, (k < lo)%nat -> byname !! k = Some x ->
  names !! x = Some nm -> strcmp nm name = Lt.
Definition above (hi : nat) : Prop := forall k x nm, (hi <= k)%nat -> byname !! k = Some x ->
  names !! x = Some nm -> strcmp nm name = Gt.

Lemma names_by_name k k' x x' nm nm' : (k < k')%nat -> byname !! k = Some x -> byname !! k' = Some x' ->
  names !! x = Some nm -> names !! x' = Some nm' -> strcmp nm nm' <> Gt.
Proof.
  intros Hk H1 H2 H3 H4. pose proof (sorted_lookup _ _ _ _ _ _ Hsort Hk H1 H2) as HR. unfold by_name in HR.
  by rewrite (list_lookup_total_correct _ _ _ H3), (list_lookup_total_correct _ _ _ H4) in HR.
Qed.

Lemma lookup_name_from fuel lo hi : (hi - lo < fuel)%nat -> (hi <= length names)%nat ->
  below lo -> above hi ->
  ends (lookup_name fuel names byname lo hi name)
    (fun r => match r with Some o => names !! o = Some name | None => name ∉ names end) (fun _ => False).
Proof.
  revert lo hi. induction fuel as [|fuel IH]; intros lo hi Hf Hhi Hlo Hab; [lia|]. cbn [lookup_name].
  destruct (Nat.ltb_spec lo hi) as [Hlt|Hge].
  - set (mid := (lo + (hi - lo) / 2)%nat).
    assert (lo <= mid < hi)%nat as Hmid by (unfold mid; pose proof (Nat.div_lt (hi - lo) 2); lia).
    destruct (byname_at mid) as (x & nm & Hx & Hnm); [lia|].
    apply ends_bind, (ends_get _ _ x); [done|]. apply ends_bind, (ends_get _ _ nm); [done|].
    destruct (strcmp nm name) eqn:Ec; [|apply IH; try lia; try done|apply IH; try lia; try done].
    + apply strcmp_eq in Ec. apply ends_ret. by subst.
    + intros k x' nm' Hk Hx' Hnm'. destruct (decide (k < lo)%nat); [by apply (Hlo k x')|].
      destruct (decide (k = mid)) as [->|]; [congruence|].
      pose proof (names_by_name k mid x' x nm' nm ltac:(lia) Hx' Hx Hnm' Hnm) as HR.
      destruct (strcmp nm' nm) eqn:E2; [|by rewrite (strcmp_lt_trans nm' nm name) by (done || by rewrite Ec)|done].
      apply strcmp_eq in E2. congruence.
    + intros k x' nm' Hk Hx' Hnm'. destruct (decide (hi <= k)%nat); [by apply (Hab k x')|].
      destruct (decide (k = mid)) as [->|]; [congruence|].
      pose proof (names_by_name mid k x x' nm nm' ltac:(lia) Hx Hx' Hnm Hnm') as HR.
      rewrite strcmp_flip. rewrite (strcmp_lt_trans name nm nm'); [done| |done]. by rewrite strcmp_flip, Ec.
  - apply ends_ret. intros (o & Ho)%list_elem_of_lookup.
    assert (o ∈ byname) as (k & Hk)%list_elem_of_lookup.
    { rewrite Hperm, elem_of_seq. apply lookup_lt_Some in Ho. lia. }
    destruct (decide (k < lo)%nat) as [H|H].
    + pose proof (Hlo k o name H Hk Ho) as Hc. by rewrite strcmp_refl in Hc.
    + pose proof (Hab k o name ltac:(lia) Hk Ho) as Hc. by rewrite strcmp_refl in Hc.
Qed.
End Lookup.

Lemma lookup_name_spec names name :
  let byname := qsort (by_name names) (seq 0 (length names)) in
  ends (lookup_name (S (length names)) names byname 0 (length names) name)
    (fun r => match r with Some o => names !! o = Some name | None => name ∉ names end) (fun _ => False).
Proof.
  intros byname. apply lookup_name_from; try lia.
  - apply merge_sort_Permutation.
  - apply StronglySorted_merge_sort; apply _.
  - intros k x nm Hk. lia.
  - intros k x nm Hk Hx. apply lookup_lt_Some in Hx. unfold byname, qsort in Hx.
    rewrite merge_sort_Permutation, length_seq in Hx. lia.
Qed.

(** ** The edges are those the services declare *)

Section Refs.
Context (srcs : list src).

Abbreviation names := (s_name <$> srcs).

(** Service [i] has the reference [r]. *)
Definition refers (i : nat) (r : bool * bytes) : Prop := exists s, srcs !! i = Some s /\ r ∈ refs s.

(** [e.2] names [e.1] as a prerequisite, or [e.1] names [e.2] as a dependent. *)
Definition declared (e : arc) : Prop :=
  (exists nm, names !! e.1 = Some nm /\ refers e.2 (false, nm)) \/
  (exists nm, names !! e.2 = Some nm /\ refers e.1 (true, nm)).

(** The messages, where they hold. *)
Definition bad_ref (d : death) : Prop :=
  match d with
  | NamesNoService i rev nm => refers i (rev, nm) /\ nm ∉ names
  | DependsOnItself i => exists rev nm, refers i (rev, nm) /\ names !! i = Some nm
  | _ => False
  end.

(** The edge [e] comes from the reference [r] of service [i]. *)
Definition arc_of (i : nat) (r : bool * bytes) (e : arc) : Prop :=
  exists o, names !! o = Some r.2 /\ o <> i /\ e = if r.1 then (i, o) else (o, i).

Lemma resolve_spec i r : (i < length srcs)%nat -> refers i r ->
  ends (resolve names (qsort (by_name names) (seq 0 (length srcs))) i r) (arc_of i r) bad_ref.
Proof.
  intros Hi Hr. unfold resolve. apply ends_bind. pose proof (lookup_name_spec names r.2) as Hl.
  cbv zeta in Hl. rewrite length_fmap in *.
  eapply ends_mono; [exact Hl| |done]. intros [o|] Ho.
  - destruct (Nat.eqb_spec o i) as [->|Hne]; simpl.
    + exists r.1, r.2. by destruct r.
    + by exists o.
  - simpl. by destruct r.
Qed.

(** The references of one service. *)
Lemma link_service_spec i s es : NoDup names -> srcs !! i = Some s ->
  ends (each (fun es r => e ← resolve names (qsort (by_name names) (seq 0 (length srcs))) i r; mret (es ++ [e])) es (refs s))
    (fun es' => (forall r, r ∈ refs s -> exists e, arc_of i r e) /\
                forall e, e ∈ es' <-> e ∈ es \/ exists r, r ∈ refs s /\ arc_of i r e) bad_ref.
Proof.
  intros HN Hs. apply (ends_each (fun dr es' => (forall r, r ∈ dr -> exists e, arc_of i r e) /\
    forall e, e ∈ es' <-> e ∈ es \/ exists r, r ∈ dr /\ arc_of i r e)).
  { split; [intros r []%not_elem_of_nil|]. intros e. split; [auto|]. intros [?|(r & []%not_elem_of_nil & _)]. done. }
  intros dr es' r rest Hl [Hall Hes].
  assert (refers i r) as Hr by (exists s; split; [done|]; rewrite Hl; apply elem_of_app; right; by left).
  apply ends_bind. eapply ends_mono; [apply resolve_spec; [by apply lookup_lt_Some in Hs|done]| |done].
  intros e0 He0. apply ends_ret. split.
  { intros r' [?|Hr']%elem_of_app; [auto|]. apply list_elem_of_singleton in Hr' as ->. eauto. }
  intros e. rewrite elem_of_app, list_elem_of_singleton, Hes. split.
  - intros [[?|(r' & Hr' & ?)]| ->]; [by left|right; exists r'; split; [apply elem_of_app; by left|done]|].
    right. exists r. split; [apply elem_of_app; right; by left|done].
  - intros [?|(r' & Hr' & Ha)]; [by do 2 left|]. apply elem_of_app in Hr' as [?|Hr'%list_elem_of_singleton]; [eauto|].
    subst r'. right. destruct He0 as (o & Ho & _ & ->), Ha as (o' & Ho' & _ & ->).
    assert (o' = o) as -> by (eapply NoDup_lookup; eauto). done.
Qed.

(** Those of all. *)
Lemma link_refs_arcs : NoDup names -> ends (link_refs srcs)
  (fun es => (forall i r, refers i r -> exists e, arc_of i r e) /\
             forall e, e ∈ es <-> exists i r, refers i r /\ arc_of i r e) bad_ref.
Proof.
  intros HN. unfold link_refs. eapply ends_mono; [apply (ends_each
    (fun dn es => (forall i r, i ∈ dn -> refers i r -> exists e, arc_of i r e) /\
       forall e, e ∈ es <-> exists i r, i ∈ dn /\ refers i r /\ arc_of i r e))| |done].
  - split; [intros i r []%not_elem_of_nil|].
    intros e. split; [intros []%not_elem_of_nil|]. intros (i & r & []%not_elem_of_nil & _).
  - intros dn es i rest Hl [Hall Hes].
    assert (i ∈ seq 0 (length srcs)) as Hi%elem_of_seq by (rewrite Hl; apply elem_of_app; right; by left).
    destruct (lookup_lt_is_Some_2 srcs i) as [s Hs]; [lia|]. apply ends_bind, (ends_get _ _ s); [done|].
    eapply ends_mono; [by apply link_service_spec| |done]. cbv beta. intros es' [Hall' Hes']. split.
    + intros i' r [?|Hin]%elem_of_app Hr; [by apply Hall|]. apply list_elem_of_singleton in Hin as ->.
      destruct Hr as (s' & Hs' & Hr). simplify_eq. auto.
    + intros e. rewrite Hes', Hes. split.
      * intros [(i' & r & Hin & Hr & Ha)|(r & Hr & Ha)]; [exists i', r; split; [apply elem_of_app; by left|done]|].
        exists i, r. split_ands; [apply elem_of_app; right; by left|by exists s|done].
      * intros (i' & r & Hin & Hr & Ha). apply elem_of_app in Hin; rewrite list_elem_of_singleton in Hin; destruct Hin as [?| ->]; [left; eauto|].
        right. destruct Hr as (s' & Hs' & Hr). simplify_eq. eauto.
  - cbv beta. intros es [Hall Hes]. assert (forall i r, refers i r -> i ∈ seq 0 (length srcs)) as Hin.
    { intros i r (s & Hs & _). apply lookup_lt_Some in Hs. apply elem_of_seq. lia. }
    split; [intros i r Hr; apply (Hall i r); [by eapply Hin|done]|].
    intros e. rewrite Hes. split; [intros (i & r & _ & H); by exists i, r|].
    intros (i & r & Hr & Ha). exists i, r. split_ands; [by eapply Hin|done|done].
Qed.

(** The services an edge joins. *)
Definition arc_in (n : nat) (e : arc) : Prop := e.1 <> e.2 /\ (e.1 < n)%nat /\ (e.2 < n)%nat.

Lemma link_refs_spec : NoDup names -> ends (link_refs srcs)
  (fun es => (forall e, e ∈ es <-> declared e) /\ Forall (arc_in (length srcs)) es) bad_ref.
Proof.
  intros HN. eapply ends_mono; [by apply link_refs_arcs| |done]. cbv beta. intros es [Hall Hes].
  assert (forall i r e, refers i r -> arc_of i r e -> arc_in (length srcs) e) as Hin.
  { intros i r e (s & Hs & _) (o & Ho & Hne & ->). apply lookup_lt_Some in Hs, Ho. rewrite length_fmap in Ho.
    unfold arc_in. destruct r.1; simpl; lia. }
  split.
  - intros [a b]. rewrite Hes. unfold declared. simpl. split.
    + intros (i & [[] nm] & Hr & o & Ho & _ & He); simpl in *; injection He as -> ->; eauto.
    + intros [(nm & Hn & Hr)|(nm & Hn & Hr)]; destruct (Hall _ _ Hr) as (e & o & Ho & Hne & _); simpl in Ho.
      * assert (o = a) as -> by (eapply NoDup_lookup; eauto). exists b, (false, nm). split; [done|]. by exists a.
      * assert (o = b) as -> by (eapply NoDup_lookup; eauto). exists a, (true, nm). split; [done|]. by exists b.
  - apply Forall_forall. intros e (i & r & Hr & Ha)%Hes. by eapply Hin.
Qed.

End Refs.

(** ** Sorting and squeezing *)

Lemma arc_lt_le x y : arc_lt x y -> arc_le x y.
Proof. unfold arc_lt, arc_le. lia. Qed.

Lemma arc_le_lt x y : arc_le x y -> x <> y -> arc_lt x y.
Proof. destruct x, y. unfold arc_lt, arc_le. simpl. intros H Hne. destruct (decide (n0 = n2)); subst; [|lia]. destruct H; [lia|]. destruct H as [-> _]. done. Qed.

Lemma arc_lt_irrefl x y : arc_lt x y -> arc_le y x -> False.
Proof. destruct x, y. unfold arc_lt, arc_le. simpl. lia. Qed.

Lemma sort_edges_sorted es : StronglySorted arc_le (sort_edges es).
Proof. apply StronglySorted_merge_sort; apply _. Qed.

Lemma sort_edges_perm es : sort_edges es ≡ₚ es.
Proof. apply merge_sort_Permutation. Qed.

Lemma squeeze_from kept es : StronglySorted arc_lt kept -> StronglySorted arc_le es ->
  (forall x y, x ∈ kept -> y ∈ es -> arc_le x y) ->
  StronglySorted arc_lt (squeeze kept es) /\ forall e, e ∈ squeeze kept es <-> e ∈ kept \/ e ∈ es.
Proof.
  revert kept. induction es as [|e es IH]; intros kept Hk He Hke; simpl.
  { split; [done|]. intros e. rewrite elem_of_nil. tauto. }
  apply StronglySorted_inv in He as [He Hall]. rewrite Forall_forall in Hall. case_bool_decide as Hlast.
  - destruct (IH kept Hk He) as [H1 H2]; [intros x y Hx Hy; apply Hke; [done|by right]|]. split; [done|].
    intros x. rewrite H2, elem_of_cons. apply last_Some in Hlast as (l & ->).
    rewrite elem_of_app, list_elem_of_singleton. tauto.
  - assert (forall x, x ∈ kept -> arc_lt x e) as Hlt.
    { intros x Hx. apply arc_le_lt; [apply Hke; [done|by left]|]. intros ->.
      destruct (last kept) as [y|] eqn:Hl; [|apply last_None in Hl; subst; by apply not_elem_of_nil in Hx].
      apply last_Some in Hl as (l & ->). apply elem_of_app in Hx as [Hx|Hx%list_elem_of_singleton]; [|congruence].
      apply (arc_lt_irrefl e y).
      - apply StronglySorted_app in Hk as (Hk & _ & _). apply Hk; [done|by left].
      - apply Hke; [apply elem_of_app; right; by left|by left]. }
    destruct (IH (kept ++ [e])) as [H1 H2].
    + apply StronglySorted_app. split_ands; [|done|repeat constructor].
      intros x y Hx Hy%list_elem_of_singleton. subst y. by apply Hlt.
    + done.
    + intros x y [Hx|Hx%list_elem_of_singleton]%elem_of_app Hy; [apply Hke; [done|by right]|]. subst x. by apply Hall.
    + split; [done|]. intros x. rewrite H2, elem_of_app, list_elem_of_singleton, elem_of_cons. tauto.
Qed.

Lemma squeeze_spec es : StronglySorted arc_le es ->
  StronglySorted arc_lt (squeeze [] es) /\ forall e, e ∈ squeeze [] es <-> e ∈ es.
Proof.
  intros He. destruct (squeeze_from [] es) as [H1 H2]; [constructor|done|intros x y []%not_elem_of_nil|].
  split; [done|]. intros e. rewrite H2, elem_of_nil. tauto.
Qed.

(** ** The rows hold the edges *)

(** How many edges start before [v], at [v], end at [v]; the dependents of [v]. *)
Definition n_before (v : nat) (es : list arc) : nat := length (filter (fun e => (e.1 < v)%nat) es).
Definition n_at (v : nat) (es : list arc) : nat := length (filter (fun e => e.1 = v) es).
Definition n_into (v : nat) (es : list arc) : nat := length (filter (fun e => e.2 = v) es).
Definition out (v : nat) (es : list arc) : list nat := (fun e => e.2) <$> filter (fun e => e.1 = v) es.

Lemma n_before_S v es : n_before (S v) es = (n_before v es + n_at v es)%nat.
Proof.
  unfold n_before, n_at. induction es as [|e es IH]; [done|]. rewrite !filter_cons.
  repeat case_decide; simpl; lia.
Qed.

Lemma n_app v es1 es2 : n_before v (es1 ++ es2) = (n_before v es1 + n_before v es2)%nat /\
  n_at v (es1 ++ es2) = (n_at v es1 + n_at v es2)%nat /\ n_into v (es1 ++ es2) = (n_into v es1 + n_into v es2)%nat.
Proof. unfold n_before, n_at, n_into. by rewrite !filter_app, !length_app. Qed.

Lemma n_at_snoc v es e : n_at v (es ++ [e]) = (n_at v es + if decide (e.1 = v) then 1 else 0)%nat.
Proof. destruct (n_app v es [e]) as (_ & -> & _). unfold n_at at 2. rewrite filter_cons. by case_decide. Qed.

Lemma n_into_snoc v es e : n_into v (es ++ [e]) = (n_into v es + if decide (e.2 = v) then 1 else 0)%nat.
Proof. destruct (n_app v es [e]) as (_ & _ & ->). unfold n_into at 2. rewrite filter_cons. by case_decide. Qed.

Lemma n_before_none v es : (forall e, e ∈ es -> (v <= e.1)%nat) -> n_before v es = 0%nat.
Proof.
  intros H. unfold n_before. rewrite filter_none; [done|]. intros e He. specialize (H e He). lia.
Qed.

(** When nothing starts after [v], every edge starts before it or at it. *)
Lemma n_split v es : (forall e, e ∈ es -> (e.1 <= v)%nat) -> (n_before v es + n_at v es)%nat = length es.
Proof.
  intros H. rewrite <- n_before_S. unfold n_before. f_equal. apply filter_all. intros e He. specialize (H e He). lia.
Qed.

Section Rows.
Context (n : nat) (es : list arc).
Context (Hin : Forall (arc_in n) es) (Hsort : StronglySorted arc_lt es).

(** The rows of the edges. *)
Record rows (g : lgraph) : Prop := Rows {
  ro_n : l_n g = n;
  ro_off : forall v, (v <= n)%nat -> l_off g !! v = Some (n_before v es);
  ro_idx : l_idx g = (fun e => e.2) <$> es;
  ro_indeg_len : length (l_indeg g) = n;
  ro_indeg : forall v, (v < n)%nat -> l_indeg g !! v = Some (n_into v es);
  ro_height : length (l_height g) = n;
}.

Lemma arc_bound e : e ∈ es -> (e.1 < n)%nat /\ (e.2 < n)%nat.
Proof. rewrite Forall_forall in Hin. intros He. apply Hin in He as (_ & ? & ?). done. Qed.

Lemma count_edges_spec D : ends (count_edges n es)
  (fun r => length r.1 = (n + 1)%nat /\ r.1 !! 0%nat = Some 0%nat /\
            (forall v, (v < n)%nat -> r.1 !! S v = Some (n_at v es)) /\ length r.2 = n /\
            forall v, (v < n)%nat -> r.2 !! v = Some (n_into v es)) D.
Proof.
  unfold count_edges. apply (ends_each (fun dn r => length r.1 = (n + 1)%nat /\ r.1 !! 0%nat = Some 0%nat /\
    (forall v, (v < n)%nat -> r.1 !! S v = Some (n_at v dn)) /\ length r.2 = n /\
    forall v, (v < n)%nat -> r.2 !! v = Some (n_into v dn))).
  { simpl. rewrite !length_replicate. split_ands; try done.
    - by rewrite lookup_replicate_2 by lia.
    - intros v Hv. by rewrite lookup_replicate_2 by lia.
    - intros v Hv. by rewrite lookup_replicate_2 by lia. }
  intros dn [off indeg] e rest Hl (L1 & Z1 & A1 & L2 & A2). simpl in *.
  assert (e ∈ es) as [B1 B2]%arc_bound by (rewrite Hl; apply elem_of_app; right; by left).
  apply ends_bind, (ends_upd _ _ (n_at e.1 dn)); [rewrite Nat.add_1_r; by apply A1|].
  apply ends_bind, (ends_upd _ _ (n_into e.2 dn)); [by apply A2|]. apply ends_ret. simpl.
  rewrite !length_insert. split_ands; try done.
  - by rewrite list_lookup_insert_ne by lia.
  - intros v Hv. rewrite n_at_snoc, Nat.add_1_r. case_decide as Hd.
    + subst v. rewrite list_lookup_insert_eq by lia. f_equal. lia.
    + rewrite list_lookup_insert_ne, A1 by lia. f_equal. lia.
  - intros v Hv. rewrite n_into_snoc. case_decide as Hd.
    + subst v. rewrite list_lookup_insert_eq by lia. f_equal. lia.
    + rewrite list_lookup_insert_ne, A2 by lia. f_equal. lia.
Qed.

Lemma sum_offsets_long L off D : (n < L)%nat -> length off = L -> off !! 0%nat = Some 0%nat ->
  (forall v, (v < n)%nat -> off !! S v = Some (n_at v es)) ->
  ends (sum_offsets n off) (fun off' => length off' = L /\
    forall v, (v <= n)%nat -> off' !! v = Some (n_before v es)) D.
Proof.
  intros HL L0 Z0 A0. unfold sum_offsets. eapply ends_mono; [apply (ends_each
    (fun dn off' => length off' = L /\
       (forall v, (v <= length dn)%nat -> off' !! v = Some (n_before v es)) /\
       forall v, (length dn <= v < n)%nat -> off' !! S v = Some (n_at v es)))| |done].
  - split_ands; [done| |intros; apply A0; lia]. intros v Hv. simpl in Hv. replace v with 0%nat by lia.
    rewrite n_before_none by lia. done.
  - intros dn off' i rest Hl (L1 & B1 & A1). assert (i = length dn /\ (i < n)%nat) as [-> Hi].
    { assert (seq 0 n !! length dn = Some i) as Hs by (by rewrite Hl, list_lookup_middle).
      apply lookup_seq in Hs. lia. }
    apply ends_bind, (ends_get _ _ (n_before (length dn) es)); [by apply B1|].
    apply (ends_upd _ _ (n_at (length dn) es)); [rewrite Nat.add_1_r; by apply A1|].
    rewrite length_insert, length_app. simpl. rewrite !(Nat.add_1_r (length dn)). split_ands; [done| |].
    + intros v Hv. destruct (decide (v = S (length dn))) as [->|].
      * rewrite list_lookup_insert_eq by lia. by rewrite n_before_S.
      * rewrite list_lookup_insert_ne by lia. apply B1. lia.
    + intros v Hv. rewrite list_lookup_insert_ne by lia. apply A1. lia.
  - cbv beta. rewrite length_seq. intros off' (H1 & H2 & _). by split.
Qed.

Lemma sum_offsets_spec off D : length off = (n + 1)%nat -> off !! 0%nat = Some 0%nat ->
  (forall v, (v < n)%nat -> off !! S v = Some (n_at v es)) ->
  ends (sum_offsets n off) (fun off' => length off' = (n + 1)%nat /\
    forall v, (v <= n)%nat -> off' !! v = Some (n_before v es)) D.
Proof. apply sum_offsets_long. lia. Qed.

(** Where the next dependent goes is where the row of its prerequisite ends. *)
Lemma fill_position dn e rest : es = dn ++ e :: rest -> (n_before e.1 es + n_at e.1 dn)%nat = length dn.
Proof.
  intros Hl. pose proof Hsort as HS. rewrite Hl in HS. apply StronglySorted_app in HS as (Hx & Hd & Hr).
  apply StronglySorted_inv in Hr as [_ Hr]. rewrite Forall_forall in Hr.
  destruct (n_app e.1 dn (e :: rest)) as (Hb & _ & _). rewrite Hl, Hb.
  rewrite (n_before_none _ (e :: rest)).
  - rewrite <- (n_split e.1 dn); [lia|]. intros x Hin'. specialize (Hx x e Hin' ltac:(by left)). unfold arc_lt in Hx. lia.
  - intros x [->|Hin']%elem_of_cons; [done|]. specialize (Hr x Hin'). unfold arc_lt in Hr. lia.
Qed.

Lemma fill_rows_spec off D : length off = (n + 1)%nat ->
  (forall v, (v <= n)%nat -> off !! v = Some (n_before v es)) ->
  ends (fill_rows n off es) (fun idx => idx = (fun e => e.2) <$> es) D.
Proof.
  intros Lo Ho. unfold fill_rows. apply ends_bind. eapply ends_mono; [apply (ends_each
    (fun dn r => r.1 = ((fun e => e.2) <$> dn) ++ replicate (length es - length dn) 0%nat /\ length r.2 = n /\
       forall v, (v < n)%nat -> r.2 !! v = Some (n_at v dn)))| |done].
  - simpl. rewrite Nat.sub_0_r, length_replicate. split_ands; [done|done|].
    intros v Hv. by rewrite lookup_replicate_2 by lia.
  - intros dn [idx fill] e rest Hl (E1 & L2 & A2). simpl in *.
    assert (e ∈ es) as [B1 B2]%arc_bound by (rewrite Hl; apply elem_of_app; right; by left).
    apply ends_bind, (ends_get _ _ (n_before e.1 es)); [apply Ho; lia|].
    apply ends_bind, (ends_get _ _ (n_at e.1 dn)); [by apply A2|].
    rewrite (fill_position _ _ _ Hl).
    assert (length es = length dn + S (length rest))%nat as Hlen by (rewrite Hl, length_app; simpl; lia).
    apply ends_bind, ends_put.
    { rewrite E1, length_app, length_fmap, length_replicate. lia. }
    apply ends_bind, (ends_upd _ _ (n_at e.1 dn)); [by apply A2|]. apply ends_ret. simpl.
    rewrite length_insert. split_ands; [|done|].
    + rewrite E1, Hlen. replace (length dn + S (length rest) - length dn)%nat with (S (length rest)) by lia.
      rewrite insert_app_r_alt by (by rewrite length_fmap). rewrite length_fmap, Nat.sub_diag. simpl.
      rewrite fmap_app, <- app_assoc. simpl. rewrite length_app. simpl. do 3 f_equal. lia.
    + intros v Hv. rewrite n_at_snoc. case_decide as Hd.
      * subst v. rewrite list_lookup_insert_eq by lia. f_equal. lia.
      * rewrite list_lookup_insert_ne, A2 by lia. f_equal. lia.
  - cbv beta. intros [idx fill] (E1 & _ & _). simpl in *. by rewrite E1, Nat.sub_diag, app_nil_r.
Qed.

Lemma lay_out_spec D : ends (lay_out n es) rows D.
Proof.
  unfold lay_out. apply ends_bind. eapply ends_mono; [apply count_edges_spec| |done].
  intros [off indeg] (L1 & Z1 & A1 & L2 & A2). simpl in *. apply ends_bind.
  eapply ends_mono; [by apply sum_offsets_spec| |done]. intros off' (L3 & A3). apply ends_bind.
  eapply ends_mono; [by apply fill_rows_spec| |done]. intros idx Hidx. apply ends_ret.
  constructor; simpl; try done. by rewrite length_replicate.
Qed.

(** Cutting a row out. *)
Lemma row_cut v : take (n_at v es) (drop (n_before v es) ((fun e => e.2) <$> es)) = out v es.
Proof.
  unfold out. rewrite <- fmap_drop, <- fmap_take. f_equal. clear Hin. unfold n_at, n_before.
  induction Hsort as [|e l HS IH HF]; [done|]. rewrite !filter_cons. rewrite Forall_forall in HF.
  assert (forall x, x ∈ l -> (e.1 <= x.1)%nat) as Hge by (intros x Hx; specialize (HF x Hx); unfold arc_lt in HF; lia).
  destruct (decide (e.1 < v)%nat), (decide (e.1 = v)); try lia; simpl.
  - by apply IH.
  - pose proof (n_before_none v l) as Hz. unfold n_before in Hz.
    rewrite Hz in * by (intros x Hx; specialize (Hge x Hx); lia). simpl in *. f_equal. by apply IH.
  - pose proof (n_before_none v l) as Hz. unfold n_before in Hz.
    rewrite Hz by (intros x Hx; specialize (Hge x Hx); lia). simpl.
    destruct (filter (fun e0 : arc => e0.1 = v) l) as [|x l'] eqn:E; [done|].
    assert (x ∈ filter (fun e0 : arc => e0.1 = v) l) as [H1 H2]%list_elem_of_filter by (rewrite E; by left).
    specialize (Hge x H2). lia.
Qed.

(** Entry [k] of the row of [v]. *)
Lemma row_lookup v k : (k < n_at v es)%nat ->
  exists w, ((fun e => e.2) <$> es) !! (n_before v es + k)%nat = Some w /\ out v es !! k = Some w.
Proof.
  intros Hk. destruct (lookup_lt_is_Some_2 (out v es) k) as [w Hw]; [unfold out; by rewrite length_fmap|].
  exists w. split; [|done]. rewrite <- row_cut, lookup_take_lt, lookup_drop in Hw by done. done.
Qed.

End Rows.
