(* ===== verification/Visit.v ===== *)
(** * The search for cycles (visit and link_graph in ctl/graph.c)

    A depth first search with an explicit stack. It dies with a cycle the
    services declare, or leaves in [height] how many steps the longest chain of
    dependents of each service has. *)

From S2P Require Import Prelude Build Link.

(** [path] and [iter] up to [depth] are one stack, the top first. *)
Record dfs := Dfs {
  d_color : list nat;
  d_height : list nat;
  d_stack : list (nat * nat);
}.

(** What [cycle_death] prints, for the path from the bottom of the stack. *)
Definition cycle_path (path : list nat) (v : nat) : list nat :=
  match list_find (fun x => x = v) path with
  | Some (start, _) => drop start path ++ [v]
  | None => path ++ [v]
  end.

(** The stack has room for [g->n] services. *)
Definition push (g : lgraph) (s : dfs) (w : nat) : built dfs :=
  color ← put (d_color s) w 1%nat;
  lo ← get (l_off g) w;
  if (l_n g <=? length (d_stack s))%nat then OutOfBounds
  else mret (Dfs color (d_height s) ((w, lo) :: d_stack s)).

(** One more than the tallest child, 0 for none. *)
Definition tallest (g : lgraph) (height : list nat) (lo hi : nat) : built nat :=
  each (fun h j =>
          w ← get (l_idx g) j;
          x ← get height w;
          mret (if (h <? x + 1)%nat then (x + 1)%nat else h))
    0%nat (seq lo (hi - lo)).

Fixpoint visit_loop (fuel : nat) (g : lgraph) (s : dfs) : built dfs :=
  match fuel with
  | O => Unfinished
  | S fuel' =>
      match d_stack s with
      | [] => mret s
      | (v, it) :: below =>
          hi ← get (l_off g) (v + 1);
          if (it <? hi)%nat then
            w ← get (l_idx g) it;
            let s := Dfs (d_color s) (d_height s) ((v, (it + 1)%nat) :: below) in
            c ← get (d_color s) w;
            if (c =? 1)%nat then Die (DependencyCycle (cycle_path (reverse ((v, it) :: below).*1) w))
            else if (c =? 2)%nat then visit_loop fuel' g s
            else s ← push g s w; visit_loop fuel' g s
          else
            lo ← get (l_off g) v;
            h ← tallest g (d_height s) lo hi;
            height ← put (d_height s) v h;
            color ← put (d_color s) v 2%nat;
            visit_loop fuel' g (Dfs color height below)
      end
  end.

Definition visit (g : lgraph) (s : dfs) (root : nat) : built dfs :=
  c ← get (d_color s) root;
  if negb (c =? 0)%nat then mret s else
  s ← push g s root;
  visit_loop (S (l_n g + length (l_idx g))) g s.

(** The whole of [link_graph]: its edges and its rows. *)
Definition link_graph (srcs : list src) : built (list arc * lgraph) :=
  let n := length srcs in
  es ← link_refs srcs;
  let es := squeeze [] (sort_edges es) in
  g ← lay_out n es;
  s ← each (visit g) (Dfs (replicate n 0%nat) (l_height g) []) (seq 0 n);
  mret (es, LGraph (l_n g) (l_off g) (l_idx g) (l_indeg g) (d_height s)).

(** ** What the search establishes *)

(** A walk along the edges, and one that comes back. *)
Fixpoint walk (es : list arc) (l : list nat) : Prop :=
  match l with
  | x :: ((y :: _) as l') => (x, y) ∈ es /\ walk es l'
  | _ => True
  end.

Definition closed_walk (es : list arc) (l : list nat) : Prop :=
  walk es l /\ exists w mid, l = w :: mid ++ [w].

(** The height of [v] is one more than the greatest of its dependents. *)
Definition height_ok (es : list arc) (hs : list nat) (v : nat) : Prop :=
  exists h, hs !! v = Some h /\
    (forall w, w ∈ out v es -> exists hw, hs !! w = Some hw /\ (hw < h)%nat) /\
    (h = 0%nat \/ exists w, w ∈ out v es /\ hs !! w = Some (h - 1)%nat).

Lemma walk_app es l1 x l2 : walk es (l1 ++ [x]) -> walk es (x :: l2) -> walk es (l1 ++ x :: l2).
Proof.
  induction l1 as [|y l1 IH]; [done|]. destruct l1 as [|z l1]; simpl in *; [tauto|].
  intros [H1 H2] H3. split; [done|]. by apply IH.
Qed.

Lemma walk_drop es k l : walk es l -> walk es (drop k l).
Proof.
  revert l. induction k as [|k IH]; intros [|x l] H; simpl; try done. apply IH.
  destruct l; [done|]. by destruct H.
Qed.

(** Along a walk the height goes down, so there is no way back. *)
Lemma walk_height es hs l x y : (forall v w, (v, w) ∈ es -> (hs w < hs v)%nat) ->
  walk es (x :: l ++ [y]) -> (hs y < hs x)%nat.
Proof.
  intros Hh. revert x. induction l as [|z l IH]; intros x; simpl.
  - intros [H _]. by apply Hh.
  - intros [H1 H2]. apply Hh in H1. specialize (IH z H2). lia.
Qed.

Section Search.
Context (n : nat) (es : list arc) (g : lgraph).
Context (Hin : Forall (arc_in n) es) (Hsort : StronglySorted arc_lt es) (Hrows : rows n es g).

Lemma elem_of_out v w : w ∈ out v es <-> (v, w) ∈ es.
Proof.
  unfold out. rewrite list_elem_of_fmap. split.
  - intros ([a b] & -> & H). apply list_elem_of_filter in H as [H1 H2]. simpl in *. by subst.
  - intros H. exists (v, w). split; [done|]. apply list_elem_of_filter. done.
Qed.

Lemma out_bound v w : w ∈ out v es -> (w < n)%nat.
Proof. intros H%elem_of_out. by apply (arc_bound n es Hin) in H as [_ ?]. Qed.

Lemma length_out v : length (out v es) = n_at v es.
Proof. unfold out. by rewrite length_fmap. Qed.

(** The row of [v]. *)
Lemma off_at v : (v <= n)%nat -> l_off g !! v = Some (n_before v es).
Proof. apply (ro_off _ _ _ Hrows). Qed.

Lemma row_at v k : (k < n_at v es)%nat ->
  exists w, l_idx g !! (n_before v es + k)%nat = Some w /\ out v es !! k = Some w.
Proof.
  rewrite (ro_idx _ _ _ Hrows). by apply row_lookup.
Qed.

(** A frame: the first [k] dependents of [v] are finished, but for the child
    the frame above stands for. *)
Definition frame (col : list nat) (child : option nat) (v it : nat) : Prop :=
  (v < n)%nat /\ exists k, it = (n_before v es + k)%nat /\ (k <= n_at v es)%nat /\
    (forall w, w ∈ take k (out v es) -> col !! w = Some 2%nat \/ child = Some w) /\
    (forall c, child = Some c -> c ∈ out v es).

Fixpoint frames (col : list nat) (child : option nat) (st : list (nat * nat)) : Prop :=
  match st with
  | [] => True
  | (v, it) :: below => frame col child v it /\ frames col (Some v) below
  end.

Record search (s : dfs) : Prop := Search {
  se_color : length (d_color s) = n;
  se_height : length (d_height s) = n;
  se_range : forall v c, d_color s !! v = Some c -> (c <= 2)%nat;
  se_nodup : NoDup (d_stack s).*1;
  se_one : forall v, d_color s !! v = Some 1%nat <-> v ∈ (d_stack s).*1;
  se_frames : frames (d_color s) None (d_stack s);
  se_done : forall v, d_color s !! v = Some 2%nat ->
    height_ok es (d_height s) v /\ forall w, w ∈ out v es -> d_color s !! w = Some 2%nat;
}.

Lemma frame_mono col col' child v it : (forall w, col !! w = Some 2%nat -> col' !! w = Some 2%nat) ->
  frame col child v it -> frame col' child v it.
Proof. intros Hc (H1 & k & -> & H2 & H3 & H4). split; [done|]. exists k. split_ands; [done|done| |done]. intros w Hw. destruct (H3 w Hw); auto. Qed.

Lemma frames_mono col col' child st : (forall w, col !! w = Some 2%nat -> col' !! w = Some 2%nat) ->
  frames col child st -> frames col' child st.
Proof.
  intros Hc. revert child. induction st as [|[v it] st IH]; intros child; simpl; [done|].
  intros [H1 H2]. split; [by eapply frame_mono|by apply IH].
Qed.

Lemma frames_node col child st v : frames col child st -> v ∈ st.*1 -> (v < n)%nat.
Proof.
  revert child. induction st as [|[u it] st IH]; intros child; simpl; [intros _ []%not_elem_of_nil|].
  intros [[H1 _] H2] [->|Hv]%elem_of_cons; [done|by eapply IH].
Qed.

(** The stack from its bottom is a walk. *)
Lemma frames_walk col child st : frames col child st -> walk es (reverse st.*1).
Proof.
  revert child. induction st as [|[v it] st IH]; intros child; simpl; [done|]. intros [_ H2].
  specialize (IH _ H2). rewrite reverse_cons. destruct st as [|[u it'] st]; [done|]. simpl in *.
  rewrite reverse_cons in *. rewrite <- app_assoc. simpl. apply walk_app; [done|]. simpl. split; [|done].
  destruct H2 as [(_ & k & _ & _ & _ & Hc) _]. by apply elem_of_out, Hc.
Qed.

(** A child that is on the path closes a cycle. *)
Lemma cycle_path_closed path v w : walk es (path ++ [v]) -> (v, w) ∈ es -> w ∈ path ++ [v] ->
  closed_walk es (cycle_path (path ++ [v]) w).
Proof.
  intros Hw He Hp. unfold cycle_path.
  destruct (list_find (fun x => x = w) (path ++ [v])) as [[start x]|] eqn:Hf.
  - apply list_find_Some in Hf as (Hs & -> & _). split.
    + assert (drop start (path ++ [v]) ++ [w] = drop start (path ++ v :: [w])) as ->.
      { apply lookup_lt_Some in Hs. rewrite length_app in Hs. simpl in Hs.
        rewrite !drop_app_le by lia. by rewrite <- app_assoc. }
      apply walk_drop, walk_app; [done|]. by simpl.
    + rewrite (drop_S _ _ _ Hs). simpl. by eexists _, _.
  - exfalso. apply list_find_None in Hf. rewrite Forall_forall in Hf. by apply (Hf w Hp).
Qed.

(** How much is left to do: the services not yet seen with their rows, and the
    rest of the rows of those on the stack. *)
Definition unseen (col : list nat) (v : nat) : Z :=
  if decide (col !! v = Some 0%nat) then Z.of_nat (n_at v es) + 1 else 0.

Definition left_of (f : nat * nat) : Z := Z.of_nat (n_before (S f.1) es) - Z.of_nat f.2 + 1.

Fixpoint left_all (st : list (nat * nat)) : Z :=
  match st with [] => 0 | f :: st' => left_of f + left_all st' end.

Definition work (s : dfs) : Z := sum_upto n (unseen (d_color s)) + left_all (d_stack s).

Lemma left_all_nonneg col child st : frames col child st -> 0 <= left_all st.
Proof.
  revert child. induction st as [|[v it] st IH]; intros child; simpl; [lia|]. intros [(_ & k & -> & Hk & _) H2].
  apply IH in H2. unfold left_of. simpl. rewrite n_before_S. lia.
Qed.

Lemma work_nonneg s : search s -> 0 <= work s.
Proof.
  intros [_ _ _ _ _ HF _]. apply left_all_nonneg in HF. unfold work.
  assert (0 <= sum_upto n (unseen (d_color s))); [|lia]. apply sum_upto_nonneg. intros i _. unfold unseen. case_decide; lia.
Qed.

(** ** The steps *)

Lemma depth_lt st w : NoDup st -> (forall v, v ∈ st -> (v < n)%nat) -> (w < n)%nat -> w ∉ st -> (length st < n)%nat.
Proof.
  intros HN Hst Hw Hni. assert (NoDup (w :: st)) as H1 by (by constructor).
  assert (w :: st ⊆+ seq 0 n) as H2%submseteq_length.
  { apply NoDup_submseteq; [done|]. intros x Hx. apply elem_of_seq. apply elem_of_cons in Hx as [->|Hx]; [lia|]. apply Hst in Hx. lia. }
  rewrite length_seq in H2. simpl in H2. lia.
Qed.

(** A service not seen yet is put on the stack of [s], whose top may wait for it. *)
Lemma push_spec s w D : length (d_color s) = n -> NoDup (d_stack s).*1 ->
  (forall v, v ∈ (d_stack s).*1 -> (v < n)%nat) -> (w < n)%nat -> w ∉ (d_stack s).*1 ->
  ends (push g s w) (fun s' => s' = Dfs (<[w := 1%nat]> (d_color s)) (d_height s) ((w, n_before w es) :: d_stack s)) D.
Proof.
  intros HL HN Hst Hw Hni. unfold push. apply ends_bind, ends_put; [lia|].
  apply ends_bind, (ends_get _ _ (n_before w es)); [apply off_at; lia|].
  rewrite (ro_n _ _ _ Hrows). pose proof (depth_lt _ w HN Hst Hw Hni) as Hd. rewrite length_fmap in Hd.
  destruct (Nat.leb_spec n (length (d_stack s))); [lia|]. by apply ends_ret.
Qed.

Lemma pushed_search s w it0 below v : search s -> d_stack s = (v, it0) :: below ->
  (n_before v es <= it0)%nat -> out v es !! (it0 - n_before v es)%nat = Some w -> d_color s !! w = Some 0%nat ->
  search (Dfs (<[w := 1%nat]> (d_color s)) (d_height s) ((w, n_before w es) :: (v, (it0 + 1)%nat) :: below)).
Proof.
  intros [L1 L2 R N O F Dn] Hst Hge Hout Hc. rewrite Hst in *. simpl in F, N.
  assert (w < n)%nat as Hw by (by eapply out_bound, list_elem_of_lookup_2).
  assert (forall x, d_color s !! x = Some 2%nat -> <[w:=1%nat]> (d_color s) !! x = Some 2%nat) as Hmono.
  { intros x Hx. rewrite list_lookup_insert_ne; [done|]. intros ->. congruence. }
  assert (w ∉ v :: below.*1) as Hni by (intros Hx%O; congruence).
  constructor; simpl; [by rewrite length_insert|done|..].
  - intros x c. destruct (decide (x = w)) as [->|]; [rewrite list_lookup_insert_eq by lia; intros [= <-]; lia|].
    rewrite list_lookup_insert_ne by done. apply R.
  - by constructor.
  - intros x. destruct (decide (x = w)) as [->|Hne].
    + rewrite list_lookup_insert_eq by lia. split; [intros _; by left|done].
    + rewrite list_lookup_insert_ne by done. rewrite O. simpl. rewrite (elem_of_cons _ x w). tauto.
  - split; [|split].
    + split; [done|]. exists 0%nat. rewrite Nat.add_0_r. split_ands; [done|lia| |done].
      intros x []%not_elem_of_nil.
    + destruct F as [(Hv & k & -> & Hk & Hd & _) _]. split; [done|].
      replace (n_before v es + k - n_before v es)%nat with k in Hout by lia.
      exists (S k). split_ands; [lia|apply lookup_lt_Some in Hout; rewrite length_out in Hout; lia| |].
      * intros x. rewrite (take_S_r _ _ _ Hout). intros [Hx|Hx%list_elem_of_singleton]%elem_of_app; [|subst; by right].
        destruct (Hd x Hx) as [?|?]; [left; by apply Hmono|done].
      * intros c [= <-]. by eapply list_elem_of_lookup_2.
    + eapply frames_mono; [exact Hmono|]. apply F.
  - intros x. destruct (decide (x = w)) as [->|]; [by rewrite list_lookup_insert_eq by lia|].
    rewrite list_lookup_insert_ne by done. intros Hx. destruct (Dn x Hx) as [H1 H2]. split; [done|].
    intros y Hy. by apply Hmono, H2.
Qed.

Lemma sum_unseen_insert col w c : length col = n -> (w < n)%nat -> c <> 0%nat ->
  sum_upto n (unseen (<[w := c]> col)) = sum_upto n (unseen col) - unseen col w.
Proof.
  intros HL Hw Hc. rewrite (sum_upto_upd n (unseen col) _ w) by (done || (intros j _ Hj; unfold unseen; by rewrite list_lookup_insert_ne)).
  unfold unseen at 3. rewrite list_lookup_insert_eq by lia. rewrite decide_False by congruence. lia.
Qed.

Lemma tallest_spec hs v D : (v < n)%nat -> (forall w, w ∈ out v es -> exists hw, hs !! w = Some hw) ->
  ends (tallest g hs (n_before v es) (n_before (S v) es))
    (fun h => (forall w, w ∈ out v es -> exists hw, hs !! w = Some hw /\ (hw < h)%nat) /\
              (h = 0%nat \/ exists w, w ∈ out v es /\ hs !! w = Some (h - 1)%nat)) D.
Proof.
  intros Hv Hhs. unfold tallest. rewrite n_before_S. replace (n_before v es + n_at v es - n_before v es)%nat with (n_at v es) by lia.
  eapply ends_mono; [apply (ends_each (fun dn h =>
    (forall w, w ∈ take (length dn) (out v es) -> exists hw, hs !! w = Some hw /\ (hw < h)%nat) /\
    (h = 0%nat \/ exists w, w ∈ out v es /\ hs !! w = Some (h - 1)%nat)))| |done].
  - split; [intros w []%not_elem_of_nil|by left].
  - intros dn h j rest Hl [H1 H2]. assert (seq (n_before v es) (n_at v es) !! length dn = Some j) as Hj by (by rewrite Hl, list_lookup_middle).
    apply lookup_seq in Hj as [-> Hj]. destruct (row_at v (length dn) Hj) as (w & Hw & Ho).
    assert (w ∈ out v es) as Hwo by (by eapply list_elem_of_lookup_2). destruct (Hhs w Hwo) as [x Hx].
    apply ends_bind, (ends_get _ _ w); [done|]. apply ends_bind, (ends_get _ _ x); [done|]. apply ends_ret.
    rewrite length_app, Nat.add_1_r. rewrite (take_S_r _ _ _ Ho). split.
    + intros u [Hu|Hu%list_elem_of_singleton]%elem_of_app.
      * destruct (H1 u Hu) as (hw & ? & ?). exists hw. split; [done|]. destruct (Nat.ltb_spec h (x + 1)); lia.
      * subst u. exists x. split; [done|]. destruct (Nat.ltb_spec h (x + 1)); lia.
    + destruct (Nat.ltb_spec h (x + 1)); [|done]. right. exists w. split; [done|]. rewrite Hx. f_equal. lia.
  - cbv beta. rewrite length_seq. intros h. rewrite <- length_out, firstn_all. done.
Qed.

Lemma frames_pop col col' v st : (forall w, col !! w = Some 2%nat -> col' !! w = Some 2%nat) ->
  col' !! v = Some 2%nat -> frames col (Some v) st -> frames col' None st.
Proof.
  intros Hm Hv. destruct st as [|[u it] st]; [done|]. intros [(H1 & k & -> & H2 & H3 & H4) HF]. split.
  - split; [done|]. exists k. split_ands; [done|done| |done]. intros w Hw. left.
    destruct (H3 w Hw) as [?|[= <-]]; auto.
  - by eapply frames_mono.
Qed.

Lemma popped_search s v it below h : search s -> d_stack s = (v, it) :: below -> (n_before (S v) es <= it)%nat ->
  (forall w, w ∈ out v es -> exists hw, d_height s !! w = Some hw /\ (hw < h)%nat) ->
  (h = 0%nat \/ exists w, w ∈ out v es /\ d_height s !! w = Some (h - 1)%nat) ->
  search (Dfs (<[v := 2%nat]> (d_color s)) (<[v := h]> (d_height s)) below).
Proof.
  intros [L1 L2 R N O F Dn] Hst Hge Hh1 Hh2. rewrite Hst in *. simpl in F, N. apply NoDup_cons in N as [Hni N].
  destruct F as [(Hv & k & -> & Hk & Hd & _) F]. rewrite n_before_S in Hge.
  assert (k = n_at v es) as -> by lia. rewrite <- length_out, firstn_all in Hd.
  assert (d_color s !! v = Some 1%nat) as Hc1 by (apply O; by left).
  assert (forall w, w ∈ out v es -> d_color s !! w = Some 2%nat) as Hout.
  { intros w Hw. by destruct (Hd w Hw). }
  assert (forall w, d_color s !! w = Some 2%nat -> w <> v) as Hne by (intros w Hw ->; congruence).
  assert (forall w, d_color s !! w = Some 2%nat -> <[v:=2%nat]> (d_color s) !! w = Some 2%nat) as Hmono.
  { intros w Hw. specialize (Hne w Hw). by rewrite list_lookup_insert_ne. }
  constructor; simpl; [by rewrite length_insert|by rewrite length_insert| |done|..].
  - intros x c. destruct (decide (x = v)) as [->|]; [rewrite list_lookup_insert_eq by lia; intros [= <-]; lia|].
    rewrite list_lookup_insert_ne by done. apply R.
  - intros x. destruct (decide (x = v)) as [->|Hx].
    + rewrite list_lookup_insert_eq by lia. split; [done|]. by intros H.
    + rewrite list_lookup_insert_ne by done. rewrite O. simpl. rewrite (elem_of_cons _ x v). tauto.
  - eapply frames_pop; [exact Hmono|by rewrite list_lookup_insert_eq by lia|exact F].
  - intros x. destruct (decide (x = v)) as [->|Hx].
    + intros _. split; [|intros w Hw; by apply Hmono, Hout]. exists h. rewrite list_lookup_insert_eq by lia. split_ands; [done| |].
      * intros w Hw. rewrite list_lookup_insert_ne by (intros ->; by apply (Hne w); [apply Hout|]). by apply Hh1.
      * destruct Hh2 as [?|(w & Hw & ?)]; [by left|right]. exists w. split; [done|].
        rewrite list_lookup_insert_ne by (intros ->; by apply (Hne w); [apply Hout|]). done.
    + rewrite list_lookup_insert_ne by done. intros Hx2. destruct (Dn x Hx2) as [(hx & A1 & A2 & A3) Hxo]. split.
      * exists hx. rewrite list_lookup_insert_ne by done. split_ands; [done| |].
        -- intros w Hw. rewrite list_lookup_insert_ne by (intros ->; by apply (Hne w); [apply Hxo|]). by apply A2.
        -- destruct A3 as [?|(w & Hw & ?)]; [by left|right]. exists w. split; [done|].
           rewrite list_lookup_insert_ne by (intros ->; by apply (Hne w); [apply Hxo|]). done.
      * intros w Hw. by apply Hmono, Hxo.
Qed.

(** The message of the search is a cycle of the edges. *)
Definition real_cycle (d : death) : Prop := exists p, d = DependencyCycle p /\ closed_walk es p.

(** What has been seen stays so. *)
Definition seen (s s' : dfs) : Prop := forall v, d_color s !! v <> Some 0%nat -> d_color s' !! v <> Some 0%nat.

Definition searched (s s' : dfs) : Prop := search s' /\ d_stack s' = [] /\ seen s s'.

Lemma seen_insert s h st v c : c <> 0%nat -> seen s (Dfs (<[v := c]> (d_color s)) h st).
Proof.
  intros Hc x Hx. simpl. destruct (decide (x = v)) as [->|]; [|by rewrite list_lookup_insert_ne].
  intros Hi. apply list_lookup_insert_Some in Hi as [(_ & ? & _)|(? & _)]; congruence.
Qed.

Lemma searched_step s s1 s' : seen s s1 -> searched s1 s' -> searched s s'.
Proof. intros H1 (H2 & H3 & H4). unfold searched; split_ands; [done|done|]. intros v Hv. by apply H4, H1. Qed.

Lemma search_nodes s v : search s -> v ∈ (d_stack s).*1 -> (v < n)%nat.
Proof. intros HS Hv. eapply frames_node; [apply (se_frames _ HS)|done]. Qed.

(** The top of the stack takes a step. *)
Lemma advance_search s v k below : search s -> d_stack s = (v, (n_before v es + k)%nat) :: below -> (k < n_at v es)%nat ->
  (exists w, out v es !! k = Some w /\ d_color s !! w = Some 2%nat) ->
  search (Dfs (d_color s) (d_height s) ((v, (n_before v es + k + 1)%nat) :: below)).
Proof.
  intros [L1 L2 R N O F Dn] Hst Hk (w & Hw & Hc). rewrite Hst in *. constructor; simpl; try done.
  destruct F as [(Hv & k' & E & _ & Hd & _) F]. split; [|done]. assert (k' = k) as -> by lia.
  split; [done|]. exists (S k). split_ands; [lia|lia| |done]. intros x. rewrite (take_S_r _ _ _ Hw).
  intros [Hx|Hx%list_elem_of_singleton]%elem_of_app; [by apply Hd|]. subst x. by left.
Qed.

Lemma visit_loop_spec fuel s : search s -> work s < Z.of_nat fuel ->
  ends (visit_loop fuel g s) (searched s) real_cycle.
Proof.
  revert s. induction fuel as [|fuel IH]; intros s HS Hf; [pose proof (work_nonneg s HS); lia|]. cbn [visit_loop].
  destruct (d_stack s) as [|[v it] below] eqn:Hst; [apply ends_ret; split; [exact HS|split; [exact Hst|exact (fun _ H => H)]]|].
  pose proof (se_frames _ HS) as HF. rewrite Hst in HF. destruct HF as [(Hv & k & -> & Hk & Hd & _) HF].
  apply ends_bind, (ends_get _ _ (n_before (S v) es)); [rewrite Nat.add_1_r; apply off_at; lia|].
  destruct (Nat.ltb_spec (n_before v es + k) (n_before (S v) es)) as [Hlt|Hge].
  - rewrite n_before_S in Hlt. destruct (row_at v k) as (w & Hw & Ho); [lia|].
    assert (w ∈ out v es) as Hwo by (by eapply list_elem_of_lookup_2). pose proof (out_bound _ _ Hwo) as Hwn.
    apply ends_bind, (ends_get _ _ w); [done|]. cbv zeta.
    destruct (lookup_lt_is_Some_2 (d_color s) w) as [c Hc]; [by rewrite (se_color _ HS)|].
    apply ends_bind, (ends_get _ _ c); [done|]. pose proof (se_range _ HS _ _ Hc) as Hr.
    destruct (Nat.eqb_spec c 1) as [->|].
    { exists (cycle_path (reverse ((v, (n_before v es + k)%nat) :: below).*1) w). split; [done|].
      pose proof (frames_walk _ _ _ (se_frames _ HS)) as Hwalk. rewrite Hst in Hwalk. rewrite fmap_cons, reverse_cons in *.
      apply cycle_path_closed; [done|by apply elem_of_out|]. apply (se_one _ HS) in Hc. rewrite Hst, fmap_cons in Hc.
      apply elem_of_app. rewrite elem_of_reverse, list_elem_of_singleton. apply elem_of_cons in Hc. tauto. }
    destruct (Nat.eqb_spec c 2) as [->|].
    + eapply ends_mono; [apply IH| |done].
      * eapply advance_search; eauto. lia.
      * unfold work in *. rewrite Hst in Hf. simpl in *. unfold left_of in *. simpl in *. lia.
      * intros s' H'. eapply searched_step; [|exact H']. exact (fun _ H => H).
    + assert (c = 0%nat) as -> by lia.
      assert (search (Dfs (<[w := 1%nat]> (d_color s)) (d_height s) ((w, n_before w es) :: (v, (n_before v es + k + 1)%nat) :: below))) as HP.
      { eapply pushed_search; eauto; [lia|]. by replace (n_before v es + k - n_before v es)%nat with k by lia. }
      apply ends_bind. eapply ends_mono; [apply push_spec; simpl| |done].
      * apply (se_color _ HS).
      * pose proof (se_nodup _ HS) as HN. by rewrite Hst in HN.
      * intros x Hx. apply (search_nodes s x HS). by rewrite Hst.
      * done.
      * intros Hx. assert (d_color s !! w = Some 1%nat); [|congruence]. apply (se_one _ HS). by rewrite Hst.
      * simpl. intros s1 ->. eapply ends_mono; [apply IH; [done|]| |done].
        -- unfold work in *. rewrite Hst in Hf. simpl in *. rewrite sum_unseen_insert by (done || apply (se_color _ HS)).
           unfold left_of in *. simpl in *. rewrite (n_before_S w).
           assert (unseen (d_color s) w = Z.of_nat (n_at w es) + 1) as Hu by (unfold unseen; by rewrite decide_True). lia.
        -- intros s' H'. eapply searched_step; [|exact H']. by apply seen_insert.
  - assert (k = n_at v es) as -> by (rewrite n_before_S in Hge; lia).
    apply ends_bind, (ends_get _ _ (n_before v es)); [apply off_at; lia|]. apply ends_bind.
    eapply ends_mono; [apply tallest_spec; [done|]| |done].
    { intros w Hw. apply lookup_lt_is_Some_2. rewrite (se_height _ HS). by eapply out_bound. }
    cbv beta. intros h [Hh1 Hh2]. apply ends_bind, ends_put; [by rewrite (se_height _ HS)|].
    apply ends_bind, ends_put; [by rewrite (se_color _ HS)|].
    assert (d_color s !! v = Some 1%nat) as Hcv by (apply (se_one _ HS); rewrite Hst; by left).
    eapply ends_mono; [apply IH| |done].
    + by eapply popped_search.
    + unfold work in *. rewrite Hst in Hf. simpl in *. rewrite sum_unseen_insert by (done || apply (se_color _ HS)).
      unfold left_of in *. simpl in *. rewrite n_before_S in Hf.
      assert (unseen (d_color s) v = 0) as Hu by (unfold unseen; rewrite decide_False by congruence; done). lia.
    + intros s' H'. eapply searched_step; [|exact H']. by apply seen_insert.
Qed.

Lemma work_total k : sum_upto k (fun v => Z.of_nat (n_at v es) + 1) = Z.of_nat (n_before k es) + Z.of_nat k.
Proof.
  induction k as [|k IH]; simpl; [by rewrite n_before_none by lia|]. rewrite IH, (n_before_S k). lia.
Qed.

Lemma unseen_total col : sum_upto n (unseen col) <= Z.of_nat (l_n g + length (l_idx g)).
Proof.
  transitivity (Z.of_nat (n_before n es) + Z.of_nat n).
  - rewrite <- work_total. apply sum_upto_le. intros i _. unfold unseen. case_decide; lia.
  - rewrite (ro_n _ _ _ Hrows), (ro_idx _ _ _ Hrows), length_fmap.
    pose proof (length_filter (fun e : arc => (e.1 < n)%nat) es). unfold n_before. lia.
Qed.

Lemma visit_spec s root : search s -> d_stack s = [] -> (root < n)%nat ->
  ends (visit g s root) (fun s' => searched s s' /\ d_color s' !! root <> Some 0%nat) real_cycle.
Proof.
  intros HS Hst Hr. unfold visit. destruct (lookup_lt_is_Some_2 (d_color s) root) as [c Hc]; [by rewrite (se_color _ HS)|].
  apply ends_bind, (ends_get _ _ c); [done|]. destruct (Nat.eqb_spec c 0) as [->|Hne]; simpl.
  2: { split; [split; [exact HS|split; [exact Hst|exact (fun _ H => H)]]|congruence]. }
  apply ends_bind. eapply ends_mono; [apply push_spec; rewrite ?Hst; simpl| |done].
  - apply (se_color _ HS).
  - constructor.
  - intros v []%not_elem_of_nil.
  - done.
  - apply not_elem_of_nil.
  - cbv beta. intros s1 ->. rewrite Hst. set (s1 := Dfs _ _ _).
    assert (search s1) as HS1.
    { destruct HS as [L1 L2 R N O F Dn]. constructor; simpl; [by rewrite length_insert|done|..].
      - intros x c0. destruct (decide (x = root)) as [->|]; [rewrite list_lookup_insert_eq by lia; intros [= <-]; lia|].
        rewrite list_lookup_insert_ne by done. apply R.
      - apply NoDup_singleton.
      - intros x. rewrite list_elem_of_singleton. destruct (decide (x = root)) as [->|].
        + rewrite list_lookup_insert_eq by lia. done.
        + rewrite list_lookup_insert_ne by done. rewrite O, Hst. simpl. rewrite elem_of_nil. tauto.
      - split; [|done]. split; [done|]. exists 0%nat. rewrite Nat.add_0_r. split_ands; [done|lia| |done].
        intros x []%not_elem_of_nil.
      - intros x. destruct (decide (x = root)) as [->|]; [by rewrite list_lookup_insert_eq by lia|].
        rewrite list_lookup_insert_ne by done. intros Hx. destruct (Dn x Hx) as [H1 H2]. split; [done|].
        intros y Hy. specialize (H2 y Hy). rewrite list_lookup_insert_ne by congruence. done. }
    refine (ends_mono _ _ _ _ _ (visit_loop_spec (S (l_n g + length (l_idx g))) s1 HS1 _) _ (fun _ H => H)).
    + unfold work, s1. simpl. rewrite sum_unseen_insert by (done || apply (se_color _ HS)).
      assert (unseen (d_color s) root = Z.of_nat (n_at root es) + 1) as Hu by (unfold unseen; by rewrite decide_True).
      pose proof (unseen_total (d_color s)). unfold left_of. simpl. rewrite (n_before_S root). lia.
    + intros s' H'. split; [eapply searched_step; [by apply seen_insert|exact H']|].
      destruct H' as (_ & _ & H'). apply H'. simpl. rewrite list_lookup_insert_eq by (rewrite (se_color _ HS); lia). done.
Qed.

Lemma visit_all_spec : ends (each (visit g) (Dfs (replicate n 0%nat) (l_height g) []) (seq 0 n))
  (fun s => length (d_height s) = n /\ forall v, (v < n)%nat -> height_ok es (d_height s) v) real_cycle.
Proof.
  eapply ends_mono; [apply (ends_each (fun dn s => search s /\ d_stack s = [] /\
    forall v, v ∈ dn -> d_color s !! v <> Some 0%nat))| |done].
  - split_ands; [|done|intros v []%not_elem_of_nil]. constructor; simpl.
    + by rewrite length_replicate.
    + apply (ro_height _ _ _ Hrows).
    + intros v c [-> _]%lookup_replicate. lia.
    + constructor.
    + intros v. rewrite elem_of_nil. split; [|done]. intros [? _]%lookup_replicate. done.
    + done.
    + intros v [? _]%lookup_replicate. done.
  - intros dn s root rest Hl (HS & Hst & Hdn).
    assert (root ∈ seq 0 n) as Hr%elem_of_seq by (rewrite Hl; apply elem_of_app; right; by left).
    eapply ends_mono; [apply visit_spec; [done|done|lia]| |done]. intros s' [(H1 & H2 & H3) H4].
    split_ands; [done|done|]. intros v [Hv|Hv%list_elem_of_singleton]%elem_of_app; [by apply H3, Hdn|congruence].
  - cbv beta. intros s (HS & Hst & Hdn). split; [apply (se_height _ HS)|]. intros v Hv.
    destruct (lookup_lt_is_Some_2 (d_color s) v) as [c Hc]; [by rewrite (se_color _ HS)|].
    pose proof (se_range _ HS _ _ Hc). destruct c as [|[|[|c]]]; try lia.
    + exfalso. apply (Hdn v); [apply elem_of_seq; lia|done].
    + apply (se_one _ HS) in Hc. rewrite Hst in Hc. by apply not_elem_of_nil in Hc.
    + by apply (se_done _ HS).
Qed.

End Search.

(** What [link_graph] leaves: the edges the services declare, sorted, their
    rows, and heights that go down along every edge. *)
Record linked (srcs : list src) (es : list arc) (g : lgraph) : Prop := Linked {
  li_in : Forall (arc_in (length srcs)) es;
  li_sorted : StronglySorted arc_lt es;
  li_rows : rows (length srcs) es g;
  li_height : forall v, (v < length srcs)%nat -> height_ok es (l_height g) v;
}.

(** With heights there are no cycles. *)
Lemma heights_acyclic n es hs : Forall (arc_in n) es -> (forall v, (v < n)%nat -> height_ok es hs v) ->
  forall p, ~ closed_walk es p.
Proof.
  intros HF Hh p [Hw (w & mid & ->)].
  assert (forall v u, (v, u) ∈ es -> (hs !!! u < hs !!! v)%nat) as Hdown.
  { intros v u He. rewrite Forall_forall in HF. destruct (HF _ He) as (_ & Hv & _). simpl in Hv.
    destruct (Hh v Hv) as (h & Hhv & Hlt & _). destruct (Hlt u) as (hu & Hhu & ?); [by apply elem_of_out|].
    by rewrite (list_lookup_total_correct _ _ _ Hhv), (list_lookup_total_correct _ _ _ Hhu). }
  apply (walk_height _ (fun v => hs !!! v) _ _ _ Hdown) in Hw. lia.
Qed.

Lemma link_graph_linked srcs : NoDup (s_name <$> srcs) -> ends (link_graph srcs)
  (fun r => linked srcs r.1 r.2 /\ forall e, e ∈ r.1 <-> declared srcs e)
  (fun d => bad_ref srcs d \/ exists es p, d = DependencyCycle p /\ (forall e, e ∈ es -> declared srcs e) /\ closed_walk es p).
Proof.
  intros HN. unfold link_graph. apply ends_bind. eapply ends_mono; [by apply link_refs_spec| |by left].
  intros es0 [Hd0 Hin0]. cbv zeta. destruct (squeeze_spec (sort_edges es0) (sort_edges_sorted es0)) as [Hs He].
  set (es := squeeze [] (sort_edges es0)) in *.
  assert (forall e, e ∈ es <-> declared srcs e) as Hd by (intros e; by rewrite He, sort_edges_perm, Hd0).
  assert (Forall (arc_in (length srcs)) es) as Hin.
  { apply Forall_forall. intros e Hin1. rewrite Forall_forall in Hin0. apply Hin0. by rewrite Hd0, <- Hd. }
  apply ends_bind. eapply ends_mono; [apply (lay_out_spec _ _ Hin Hs (fun _ => False))| |done]. intros g Hg.
  apply ends_bind. eapply ends_mono; [by apply (visit_all_spec _ es)| |].
  - intros s [HL Hh]. apply ends_ret. split; [|done]. constructor; [done|done| |done].
    destruct Hg as [A1 A2 A3 A4 A5 A6]. constructor; done.
  - intros d (p & -> & Hp). right. exists es, p. split_ands; [done| |done]. intros e. by rewrite Hd.
Qed.
