(* ===== verification/Heap.v ===== *)
(** * The queue of services that are ready (struct ready in ctl/graph.c)

    A binary heap in an array. The next service out is one without
    prerequisites, then one with the longest chain of dependents, then the one
    that comes first. *)

From S2P Require Import Prelude Build Link.

Definition ready_before (g : lgraph) (a b : nat) : built bool :=
  ia ← get (l_indeg g) a;
  ib ← get (l_indeg g) b;
  let ra := (ia =? 0)%nat in
  let rb := (ib =? 0)%nat in
  if negb (bool_decide (ra = rb)) then mret ra else
  ha ← get (l_height g) a;
  hb ← get (l_height g) b;
  if negb (ha =? hb)%nat then mret (hb <? ha)%nat
  else mret (a <? b)%nat.

Fixpoint sift_up (fuel : nat) (g : lgraph) (v : list nat) (i : nat) : built (list nat) :=
  match fuel with
  | O => Unfinished
  | S fuel' =>
      if (i =? 0)%nat then mret v else
      let p := ((i - 1) / 2)%nat in
      x ← get v i;
      y ← get v p;
      b ← ready_before g x y;
      if negb b then mret v else
      v ← put v i y;
      v ← put v p x;
      sift_up fuel' g v p
  end.

(** The array has room for [g->n] services. *)
Definition ready_push (g : lgraph) (q : list nat) (x : nat) : built (list nat) :=
  if (l_n g <=? length q)%nat then OutOfBounds
  else sift_up (S (length q)) g (q ++ [x]) (length q).

(** [v[c]] when [c] is in the heap and goes before [v[b]]. *)
Definition better (g : lgraph) (v : list nat) (c b : nat) : built nat :=
  if (c <? length v)%nat then
    x ← get v c;
    y ← get v b;
    t ← ready_before g x y;
    mret (if (t : bool) then c else b)
  else mret b.

Fixpoint sift_down (fuel : nat) (g : lgraph) (v : list nat) (i : nat) : built (list nat) :=
  match fuel with
  | O => Unfinished
  | S fuel' =>
      let l := (2 * i + 1)%nat in
      let r := (l + 1)%nat in
      b ← better g v l i;
      b ← better g v r b;
      if (b =? i)%nat then mret v else
      x ← get v i;
      y ← get v b;
      v ← put v i y;
      v ← put v b x;
      sift_down fuel' g v b
  end.

(** The last service takes the place of the first; with none left the array is
    empty and its first slot no longer counts. *)
Definition ready_pop (g : lgraph) (q : list nat) : built (nat * list nat) :=
  top ← get q 0;
  let m := (length q - 1)%nat in
  x ← get q m;
  let v := take m q in
  match v with
  | [] => mret (top, [])
  | _ =>
      v ← put v 0 x;
      v ← sift_down (S m) g v 0;
      mret (top, v)
  end.

(** ** The order of the queue *)

Section Order.
Context (g : lgraph).

(** [ready_before] without the accesses. *)
Definition before (a b : nat) : Prop :=
  let ia := l_indeg g !!! a in
  let ib := l_indeg g !!! b in
  let ha := l_height g !!! a in
  let hb := l_height g !!! b in
  (ia = 0%nat /\ ib <> 0%nat) \/
  ((ia = 0%nat <-> ib = 0%nat) /\ ((hb < ha)%nat \/ (ha = hb /\ (a < b)%nat))).

#[export] Instance before_dec a b : Decision (before a b).
Proof. unfold before. apply _. Defined.

Lemma before_irrefl a : ~ before a a.
Proof. unfold before. lia. Qed.

Lemma before_trans a b c : before a b -> before b c -> before a c.
Proof. unfold before. lia. Qed.

Lemma before_total a b : a <> b -> before a b \/ before b a.
Proof. unfold before. lia. Qed.

Lemma before_asym a b : before a b -> ~ before b a.
Proof. unfold before. lia. Qed.

(** "Not after", which is transitive since the order is total. *)
Lemma not_before_trans a b c : ~ before b a -> ~ before c b -> ~ before c a.
Proof. unfold before. lia. Qed.

End Order.

Section Queue.
Context (g : lgraph) (n : nat) (Hlen : length (l_indeg g) = n /\ length (l_height g) = n).

Abbreviation before := (before g).

Lemma ready_before_spec a b : (a < n)%nat -> (b < n)%nat ->
  ready_before g a b = Built (bool_decide (before a b)).
Proof.
  intros Ha Hb. destruct Hlen as [Hindeg Hheight]. unfold ready_before, get.
  destruct (lookup_lt_is_Some_2 (l_indeg g) a) as [ia Hia]; [lia|]. destruct (lookup_lt_is_Some_2 (l_indeg g) b) as [ib Hib]; [lia|].
  destruct (lookup_lt_is_Some_2 (l_height g) a) as [ha Hha]; [lia|]. destruct (lookup_lt_is_Some_2 (l_height g) b) as [hb Hhb]; [lia|].
  rewrite Hia, Hib, Hha, Hhb. simpl.
  assert (before a b <-> (ia = 0%nat /\ ib <> 0%nat) \/
    ((ia = 0%nat <-> ib = 0%nat) /\ ((hb < ha)%nat \/ (ha = hb /\ (a < b)%nat)))) as HB.
  { unfold Heap.before. by rewrite (list_lookup_total_correct _ _ _ Hia), (list_lookup_total_correct _ _ _ Hib),
      (list_lookup_total_correct _ _ _ Hha), (list_lookup_total_correct _ _ _ Hhb). }
  rewrite (bool_decide_ext _ _ HB).
  destruct (Nat.eqb_spec ia 0), (Nat.eqb_spec ib 0); simpl; try (f_equal; symmetry; (apply bool_decide_eq_true || apply bool_decide_eq_false); lia);
  destruct (Nat.eqb_spec ha hb); simpl; unfold mret, built_ret; f_equal; apply eq_true_iff_eq; rewrite bool_decide_eq_true, Nat.ltb_lt; lia.
Qed.

(** ** The heap property *)

Definition parent (i : nat) : nat := ((i - 1) / 2)%nat.

Lemma parent_lt i : (0 < i)%nat -> (parent i < i)%nat.
Proof. intros Hi. unfold parent. apply Nat.Div0.div_lt_upper_bound. lia. Qed.

Lemma parent_child i j : (0 < j)%nat -> parent j = i <-> (j = 2 * i + 1 \/ j = 2 * i + 2)%nat.
Proof.
  intros Hj. unfold parent. pose proof (Nat.div_mod (j - 1) 2 ltac:(lia)). pose proof (Nat.mod_upper_bound (j - 1) 2 ltac:(lia)). lia.
Qed.

(** [v[j]] does not go before its parent. *)
Definition in_place (v : list nat) (j : nat) : Prop := forall x y, v !! j = Some x -> v !! parent j = Some y -> ~ before x y.

Definition heap (v : list nat) : Prop := forall j, (0 < j)%nat -> in_place v j.

Lemma heap_min v i x y : heap v -> v !! 0%nat = Some x -> v !! i = Some y -> ~ before y x.
Proof.
  intros HV H0. revert y. induction (lt_wf i) as [i _ IH]. intros y Hy.
  destruct (decide (i = 0%nat)) as [->|]; [simplify_eq; apply before_irrefl|].
  pose proof (parent_lt i ltac:(lia)) as Hp.
  destruct (lookup_lt_is_Some_2 v (parent i)) as [z Hz]; [apply lookup_lt_Some in Hy; lia|].
  apply (not_before_trans g x z y); [by apply (IH (parent i))|by apply (HV i ltac:(lia))].
Qed.

(** What is known while [i] moves up, and while it moves down. *)
Definition skips (v : list nat) (i : nat) : Prop := forall j x z, (0 < j)%nat -> parent j = i -> (0 < i)%nat ->
  v !! j = Some x -> v !! parent i = Some z -> ~ before x z.

Definition rising (v : list nat) (i : nat) : Prop :=
  (forall j, (0 < j)%nat -> j <> i -> in_place v j) /\ skips v i.

Definition sinking (v : list nat) (i : nat) : Prop :=
  (forall j, (0 < j)%nat -> parent j <> i -> in_place v j) /\ skips v i.

(** Reading an array in which two slots have been exchanged. *)
Lemma swap_lookup (v : list nat) i p x y j z : v !! i = Some x -> v !! p = Some y -> i <> p ->
  <[p := x]> (<[i := y]> v) !! j = Some z ->
  (j = p /\ z = x) \/ (j = i /\ z = y) \/ (j <> p /\ j <> i /\ v !! j = Some z).
Proof.
  intros Hi Hp Hne. apply lookup_lt_Some in Hi as Li. apply lookup_lt_Some in Hp as Lp.
  destruct (decide (j = p)) as [->|].
  - rewrite list_lookup_insert_eq by (by rewrite length_insert). intros [= <-]. auto.
  - rewrite list_lookup_insert_ne by done. destruct (decide (j = i)) as [->|].
    + rewrite list_lookup_insert_eq by done. intros [= <-]. auto.
    + rewrite list_lookup_insert_ne by done. auto.
Qed.

Lemma rising_step v i x y : rising v i -> (0 < i)%nat -> v !! i = Some x -> v !! parent i = Some y ->
  before x y -> rising (<[parent i := x]> (<[i := y]> v)) (parent i).
Proof.
  intros [HV HS] Hi Hx Hy Hb. pose proof (parent_lt i Hi) as Hlt. apply before_asym in Hb as Hnb. split.
  - intros j Hj Hne a b Ha Hpb.
    apply (swap_lookup v i (parent i) x y) in Ha, Hpb; [|done|done|lia|done|done|lia].
    pose proof (parent_lt j Hj) as Hlj.
    destruct Ha as [[? _]|[[-> ->]|(_ & Hji & Ha)]]; [done|..].
    + destruct Hpb as [[_ ->]|[[? _]|(? & _ & _)]]; [done|lia|done].
    + destruct Hpb as [[Hp ->]|[[Hp ->]|(_ & Hp & Hpb)]].
      * apply (not_before_trans g x y a); [done|]. apply (HV j Hj Hji a y Ha). by rewrite Hp.
      * by apply (HS j a y).
      * by apply (HV j Hj Hji).
  - intros j a z Hj Hp Hpi Ha Hz. pose proof (parent_lt (parent i) Hpi) as Hlp.
    apply (swap_lookup v i (parent i) x y) in Ha, Hz; [|done|done|lia|done|done|lia].
    destruct Hz as [[? _]|[[? _]|(_ & _ & Hz)]]; [lia|lia|].
    assert (~ before y z) as Hyz by (by apply (HV (parent i) Hpi ltac:(lia))).
    pose proof (parent_lt j Hj). destruct Ha as [[? _]|[[-> ->]|(_ & Hji & Ha)]]; [lia|done|].
    apply (not_before_trans g z y a); [done|]. apply (HV j Hj Hji a y Ha). by rewrite Hp.
Qed.

Lemma sift_up_spec fuel v i D : (i < fuel)%nat -> (i < length v)%nat -> Forall (fun x => (x < n)%nat) v -> rising v i ->
  ends (sift_up fuel g v i) (fun v' => heap v' /\ v' ≡ₚ v) D.
Proof.
  revert v i. induction fuel as [|fuel IH]; intros v i Hf Hi HF HR; [lia|]. cbn [sift_up].
  destruct (Nat.eqb_spec i 0) as [->|Hne]; [apply ends_ret; split; [|done]; intros j Hj; apply HR; lia|].
  cbv zeta. fold (parent i). pose proof (parent_lt i ltac:(lia)) as Hp.
  destruct (lookup_lt_is_Some_2 v i Hi) as [x Hx]. destruct (lookup_lt_is_Some_2 v (parent i)) as [y Hy]; [lia|].
  apply ends_bind, (ends_get _ _ x); [done|]. apply ends_bind, (ends_get _ _ y); [done|].
  rewrite ready_before_spec by (by eapply (Forall_lookup_1 _ _ _ _ HF)). apply ends_bind, ends_ret.
  case_bool_decide as Hb; simpl.
  - apply ends_bind, ends_put; [done|]. apply ends_bind, ends_put; [rewrite length_insert; lia|].
    pose proof (Permutation_insert_swap _ _ _ _ _ Hx Hy) as HP.
    eapply ends_mono; [apply IH| |done].
    + lia.
    + rewrite !length_insert. lia.
    + by rewrite HP.
    + by apply rising_step; [|lia|..].
    + intros v' [H1 H2]. split; [done|]. by rewrite H2.
  - split; [|done]. intros j Hj. destruct (decide (j = i)) as [->|]; [|by apply HR].
    intros a b Ha Hpb. by simplify_eq.
Qed.

Lemma ready_push_spec q x D : l_n g = n -> heap q -> Forall (fun x => (x < n)%nat) q -> (x < n)%nat -> (length q < n)%nat ->
  ends (ready_push g q x) (fun q' => heap q' /\ q' ≡ₚ x :: q) D.
Proof.
  intros Hn HQ HF Hx Hl. unfold ready_push. rewrite Hn. destruct (Nat.leb_spec n (length q)); [lia|].
  eapply ends_mono; [apply sift_up_spec| |done].
  - lia.
  - rewrite length_app. simpl. lia.
  - apply Forall_app. split; [done|]. by constructor.
  - split.
    + intros j Hj Hne a b Ha Hb. pose proof (parent_lt j Hj).
      apply lookup_lt_Some in Ha as Hl'. rewrite length_app in Hl'. simpl in Hl'.
      rewrite lookup_app_l in Ha, Hb by lia. by apply (HQ j Hj).
    + intros j a z Hj Hp _ Ha _. pose proof (parent_lt j Hj). apply lookup_lt_Some in Ha.
      rewrite length_app in Ha. simpl in Ha. lia.
  - cbv beta. intros q' [H1 H2]. split; [done|]. rewrite H2. by rewrite Permutation_app_comm.
Qed.

(** [better] picks the one that goes first. *)
Lemma better_spec v c b y D : Forall (fun x => (x < n)%nat) v -> v !! b = Some y ->
  ends (better g v c b) (fun b' => exists y', v !! b' = Some y' /\ (b' = b \/ b' = c) /\ ~ before y y' /\
    (b' <> b -> before y' y) /\ forall x, v !! c = Some x -> ~ before x y') D.
Proof.
  intros HF Hb. unfold better. destruct (Nat.ltb_spec c (length v)) as [Hc|Hc].
  - destruct (lookup_lt_is_Some_2 v c Hc) as [x Hx]. apply ends_bind, (ends_get _ _ x); [done|].
    apply ends_bind, (ends_get _ _ y); [done|]. rewrite ready_before_spec by (by eapply (Forall_lookup_1 _ _ _ _ HF)).
    apply ends_bind, ends_ret. case_bool_decide as Hxy; apply ends_ret.
    + exists x. split_ands; [done|by right|by apply before_asym|done|]. intros x' Hx'. simplify_eq. apply before_irrefl.
    + exists y. split_ands; [done|by left|apply before_irrefl|done|]. intros x' Hx'. by simplify_eq.
  - apply ends_ret. exists y. split_ands; [done|by left|apply before_irrefl|done|].
    intros x Hx. apply lookup_lt_Some in Hx. lia.
Qed.

Lemma sinking_step v i b x y : sinking v i -> (b = 2 * i + 1 \/ b = 2 * i + 2)%nat -> v !! i = Some x -> v !! b = Some y ->
  before y x -> (forall j z, (j = 2 * i + 1 \/ j = 2 * i + 2)%nat -> v !! j = Some z -> ~ before z y) ->
  sinking (<[b := x]> (<[i := y]> v)) b.
Proof.
  intros [HV HS] Hbi Hx Hy Hb Hmin. apply before_asym in Hb as Hnb.
  assert (parent b = i) as Hpb by (apply parent_child; lia).
  split.
  - intros j Hj Hpj a c Ha Hc. apply (swap_lookup v i b x y) in Ha, Hc; [|done|done|lia|done|done|lia].
    pose proof (parent_lt j Hj). destruct Hc as [[? _]|[[Hp ->]|(_ & Hp & Hc)]]; [done|..].
    + destruct Ha as [[_ ->]|[[? _]|(_ & _ & Ha)]]; [done|lia|].
      apply (Hmin j); [by apply parent_child|done].
    + destruct Ha as [[-> _]|[[-> ->]|(_ & _ & Ha)]]; [done| |by apply (HV j Hj)].
      apply (HS b y c); [lia|done|lia|done|done].
  - intros j a z Hj Hp Hb0 Ha Hz. rewrite Hpb in Hz.
    apply (swap_lookup v i b x y) in Ha, Hz; [|done|done|lia|done|done|lia].
    pose proof (parent_lt j Hj). destruct Hz as [[? _]|[[_ ->]|(_ & ? & _)]]; [lia| |done].
    destruct Ha as [[? _]|[[? _]|(_ & _ & Ha)]]; [lia|lia|].
    apply (HV j Hj ltac:(lia) a y Ha). by rewrite Hp.
Qed.

Lemma sift_down_spec fuel v i D : (length v < fuel + i)%nat -> (i < length v)%nat -> Forall (fun x => (x < n)%nat) v -> sinking v i ->
  ends (sift_down fuel g v i) (fun v' => heap v' /\ v' ≡ₚ v) D.
Proof.
  revert v i. induction fuel as [|fuel IH]; intros v i Hf Hi HF HR; [lia|]. cbn [sift_down]. cbv zeta.
  destruct (lookup_lt_is_Some_2 v i Hi) as [x Hx].
  apply ends_bind. eapply ends_mono; [by apply better_spec| |done]. intros b1 (y1 & Hy1 & Hb1 & Hn1 & Hs1 & Hm1).
  apply ends_bind. eapply ends_mono; [by apply better_spec| |done]. intros b (y & Hy & Hb & Hn2 & Hs2 & Hm2).
  assert (forall j z, (j = 2 * i + 1 \/ j = 2 * i + 2)%nat -> v !! j = Some z -> ~ before z y) as Hmin.
  { intros j z [-> | ->] Hz; [|apply Hm2; by replace (2 * i + 1 + 1)%nat with (2 * i + 2)%nat by lia].
    apply (not_before_trans g y y1 z); [done|by apply Hm1]. }
  destruct (Nat.eqb_spec b i) as [->|Hne].
  - apply ends_ret. split; [|done]. intros j Hj. destruct (decide (parent j = i)) as [Hp|]; [|by apply HR].
    intros a c Ha Hc. rewrite Hp in Hc. simplify_eq. apply (Hmin j); [by apply parent_child|done].
  - assert (before y x) as Hyx.
    { destruct Hb as [->| ->]; [|destruct Hb1 as [->| ->]].
      - destruct Hb1 as [->| ->]; [done|]. simplify_eq. by apply Hs1.
      - simplify_eq. by apply Hs2.
      - simplify_eq. pose proof (Hs2 ltac:(lia)) as H2. pose proof (Hs1 ltac:(lia)) as H1.
        by apply (before_trans g y y1 x). }
    apply ends_bind, (ends_get _ _ x); [done|]. apply ends_bind, (ends_get _ _ y); [done|].
    apply ends_bind, ends_put; [done|]. apply ends_bind, ends_put; [rewrite length_insert; by apply lookup_lt_Some in Hy|].
    pose proof (Permutation_insert_swap _ _ _ _ _ Hx Hy) as HP. apply lookup_lt_Some in Hy as Hbl.
    eapply ends_mono; [apply IH| |done].
    + rewrite !length_insert. lia.
    + by rewrite !length_insert.
    + by rewrite HP.
    + apply sinking_step; [done|lia|done|done|done|done].
    + intros v' [H1 H2]. split; [done|]. by rewrite H2.
Qed.

Lemma ready_pop_spec q D : heap q -> Forall (fun x => (x < n)%nat) q -> q <> [] ->
  ends (ready_pop g q) (fun r => heap r.2 /\ q ≡ₚ r.1 :: r.2 /\ forall y, y ∈ r.2 -> ~ before y r.1) D.
Proof.
  intros HQ HF Hne. unfold ready_pop. destruct q as [|top q]; [done|].
  assert (forall y, y ∈ top :: q -> ~ before y top) as Hmin.
  { intros y (i & Hi)%list_elem_of_lookup. by apply (heap_min (top :: q) i). }
  apply ends_bind, (ends_get _ _ top); [done|]. cbv zeta.
  destruct q as [|x q _] using rev_ind.
  { apply ends_bind, (ends_get _ _ top); [done|]. simpl. split_ands; [|done|intros y []%not_elem_of_nil].
    intros j Hj a b Ha. done. }
  replace (length (top :: q ++ [x]) - 1)%nat with (S (length q)) by (simpl; rewrite length_app; simpl; lia).
  apply ends_bind, (ends_get _ _ x); [simpl; by rewrite lookup_app_r, Nat.sub_diag by lia|].
  cbn [take]. rewrite take_app_length. apply ends_bind. apply ends_put; [simpl; lia|]. simpl insert.
  assert (top :: q ++ [x] ≡ₚ top :: x :: q) as HP by (by rewrite (Permutation_app_comm q)).
  apply ends_bind. eapply ends_mono; [apply sift_down_spec| |done].
  - simpl. lia.
  - simpl. lia.
  - rewrite HP in HF. by inversion HF.
  - split.
    + intros [|j] Hj Hp a b Ha Hb; [lia|]. pose proof (parent_lt (S j) Hj) as Hpj.
      destruct (parent (S j)) as [|k] eqn:Ek; [done|]. simpl in Ha, Hb.
      apply (HQ (S j) Hj a b); simpl.
      * apply lookup_app_l_Some, Ha.
      * rewrite Ek. simpl. apply lookup_app_l_Some, Hb.
    + intros j a z _ _ H0. lia.
  - intros v' [H1 H2]. apply ends_ret. simpl. split_ands; [done|by rewrite H2|].
    intros y Hy. apply Hmin. rewrite HP. rewrite H2 in Hy. by right.
Qed.
End Queue.
