(* ===== verification/Schedule.v ===== *)
(** * The start order (schedule and order_graph in ctl/graph.c)

    The services in an order in which every prerequisite comes first, the roots
    at the front. The order is that of list scheduling: at each place the best
    of the services all of whose prerequisites are placed. *)

From stdpp Require Import sorting.
From S2P Require Import Prelude Build Link Visit Heap.

(** [--left[w]] on a [uint32_t]. *)
Definition dec32 (x : nat) : nat := match x with O => Z.to_nat UINT32_MAX | S y => y end.

(** The dependents of [best], which has just been placed. *)
Definition ready_row (g : lgraph) (best : nat) (left q : list nat) : built (list nat * list nat) :=
  lo ← get (l_off g) best;
  hi ← get (l_off g) (best + 1);
  each (fun '(left, q) i =>
          w ← get (l_idx g) i;
          x ← get left w;
          left ← put left w (dec32 x);
          if (dec32 x =? 0)%nat then q ← ready_push g q w; mret (left, q)
          else mret (left, q))
    (left, q) (seq lo (hi - lo)).

(** [order] has room for [g->n] services. *)
Fixpoint schedule_loop (fuel : nat) (g : lgraph) (order left q : list nat) : built (list nat) :=
  match fuel with
  | O => Unfinished
  | S fuel' =>
      match q with
      | [] => mret order
      | _ =>
          '(best, q) ← ready_pop g q;
          if (l_n g <=? length order)%nat then OutOfBounds else
          '(left, q) ← ready_row g best left q;
          schedule_loop fuel' g (order ++ [best]) left q
      end
  end.

Definition schedule (g : lgraph) : built (list nat) :=
  q ← each (fun q i => x ← get (l_indeg g) i; if (x =? 0)%nat then ready_push g q i else mret q)
        [] (seq 0 (l_n g));
  order ← schedule_loop (S (l_n g)) g [] (l_indeg g) q;
  if negb (length order =? l_n g)%nat then Die (NoReadyNode (l_n g - length order))
  else mret order.

(** [order_graph]: the order, the number of roots and the edges between places. *)
Record ordered := Ordered {
  o_order : list nat;
  o_nroots : nat;
  o_edges : list arc;
}.

Definition order_graph (es : list arc) (g : lgraph) : built ordered :=
  order ← schedule g;
  inv ← each (fun inv i => x ← get order i; put inv x i) (replicate (l_n g) 0%nat) (seq 0 (l_n g));
  nroots ← each (fun k i => x ← get (l_indeg g) i; mret (if (x =? 0)%nat then S k else k)) 0%nat (seq 0 (l_n g));
  es ← each (fun es' e => a ← get inv e.1; b ← get inv e.2; mret (es' ++ [(a, b)])) [] es;
  mret (Ordered order nroots (sort_edges es)).

(** ** List scheduling *)

(** How many prerequisites of [w] are not placed yet. *)
Definition pend (es : list arc) (order : list nat) (w : nat) : nat :=
  length (filter (fun e => e.2 = w /\ (e.1 ∉ order)) es).

(** What may be placed next. *)
Definition avail (n : nat) (es : list arc) (order : list nat) (x : nat) : Prop :=
  (x < n)%nat /\ (x ∉ order) /\ forall a, (a, x) ∈ es -> a ∈ order.

(** Each place has the best of what could be there. *)
Definition greedy (g : lgraph) (n : nat) (es : list arc) (order : list nat) : Prop :=
  forall k x, order !! k = Some x -> avail n es (take k order) x /\
    forall y, avail n es (take k order) y -> y = x \/ before g x y.

Lemma pend_zero es order w : pend es order w = 0%nat <-> forall a, (a, w) ∈ es -> a ∈ order.
Proof.
  unfold pend. split.
  - intros Hz a He. apply length_zero_iff_nil in Hz. destruct (decide (a ∈ order)) as [|Hn]; [done|].
    assert ((a, w) ∈ filter (fun e : arc => e.2 = w /\ (e.1 ∉ order)) es) as Hin by (by apply list_elem_of_filter).
    rewrite Hz in Hin. by apply not_elem_of_nil in Hin.
  - intros H. apply length_zero_iff_nil. destruct (filter _ es) as [|e l] eqn:E; [done|].
    assert (e ∈ filter (fun e : arc => e.2 = w /\ (e.1 ∉ order)) es) as Hin by (rewrite E; by left).
    apply list_elem_of_filter in Hin as [[<- Hn] He]. destruct e as [a b]. by destruct (Hn (H a He)).
Qed.

Lemma pend_nil es w : pend es [] w = n_into w es.
Proof.
  unfold pend, n_into. f_equal. apply list_filter_iff. intros e. split; [by intros []|]. split; [done|]. apply not_elem_of_nil.
Qed.

Lemma count_one (es : list arc) e : NoDup es -> length (filter (fun x => x = e) es) = if decide (e ∈ es) then 1%nat else 0%nat.
Proof.
  induction 1 as [|x es Hx HN IH]; [by rewrite decide_False by apply not_elem_of_nil|].
  rewrite filter_cons. destruct (decide (x = e)) as [->|Hne]; simpl.
  - rewrite IH, decide_False, decide_True; [done|by left|done].
  - rewrite IH. destruct (decide (e ∈ es)) as [Hi|Hi]; [by rewrite decide_True by (by right)|].
    rewrite decide_False; [done|]. by intros [->|?]%elem_of_cons.
Qed.

(** Placing [b] takes one off each of its dependents. *)
Lemma pend_snoc es order b w : NoDup es -> b ∉ order ->
  pend es order w = (pend es (order ++ [b]) w + if decide (w ∈ out b es) then 1 else 0)%nat.
Proof.
  intros HN Hb.
  assert (w ∈ out b es <-> (b, w) ∈ es) as Hout by apply elem_of_out.
  transitivity (pend es (order ++ [b]) w + length (filter (fun x => x = (b, w)) es))%nat.
  2: { rewrite count_one by done. destruct (decide ((b, w) ∈ es)), (decide (w ∈ out b es)); tauto. }
  clear HN Hout. unfold pend. induction es as [|[x y] es IH]; [done|]. rewrite !filter_cons. simpl.
  assert (x ∉ order ++ [b] <-> (x ∉ order) /\ x <> b) as Hx by (rewrite not_elem_of_app, list_elem_of_singleton; done).
  destruct (decide ((x, y) = (b, w))) as [E|E].
  - injection E as -> ->. rewrite decide_True by done. rewrite decide_False by (rewrite Hx; tauto). simpl. lia.
  - destruct (decide (y = w /\ (x ∉ order))) as [[-> Hn]|Hn].
    + rewrite decide_True by (rewrite Hx; split; [done|]; split; [done|]; congruence). simpl. lia.
    + rewrite decide_False by (rewrite Hx; tauto). done.
Qed.

Section Sched.
Context (n : nat) (es : list arc) (g : lgraph).
Context (Hin : Forall (arc_in n) es) (Hsort : StronglySorted arc_lt es) (Hrows : rows n es g).
Context (Hh : forall v, (v < n)%nat -> height_ok es (l_height g) v).

Lemma arcs_nodup : NoDup es.
Proof.
  clear -Hsort. induction Hsort as [|e l HS IH HF]; constructor; [|by apply IH]. intros He.
  rewrite Forall_forall in HF. specialize (HF e He). unfold arc_lt in HF. lia.
Qed.

Lemma rows_len : length (l_indeg g) = n /\ length (l_height g) = n.
Proof. split; [apply (ro_indeg_len _ _ _ Hrows)|apply (ro_height _ _ _ Hrows)]. Qed.

(** The arrays while [order] has been placed. *)
Record placing (order left q : list nat) : Prop := Placing {
  pl_len : length left = n;
  pl_left : forall w, (w < n)%nat -> left !! w = Some (pend es order w);
  pl_nodup : NoDup (order ++ q);
  pl_mem : forall x, x ∈ order ++ q <-> left !! x = Some 0%nat;
  pl_heap : heap g q;
  pl_greedy : greedy g n es order;
}.

Lemma placing_bound order left q : placing order left q -> Forall (fun x => (x < n)%nat) (order ++ q).
Proof.
  intros HP. apply Forall_forall. intros x Hx%(pl_mem _ _ _ HP). apply lookup_lt_Some in Hx. by rewrite (pl_len _ _ _ HP) in Hx.
Qed.

(** What may be placed is what is in the queue. *)
Lemma avail_queue order left q y : placing order left q -> avail n es order y <-> y ∈ q.
Proof.
  intros HP. split.
  - intros (Hy & Hni & Ha). assert (y ∈ order ++ q) as Hq.
    { apply (pl_mem _ _ _ HP). rewrite (pl_left _ _ _ HP) by done. f_equal. by apply pend_zero. }
    apply elem_of_app in Hq. tauto.
  - intros Hy. assert (y ∈ order ++ q) as Hq by (apply elem_of_app; by right).
    pose proof (placing_bound _ _ _ HP) as HB. rewrite Forall_forall in HB. unfold avail; split_ands; [by apply HB| |].
    + pose proof (pl_nodup _ _ _ HP) as HN. apply NoDup_app in HN as (_ & HN & _). intros Ho. by apply (HN y).
    + apply pend_zero. specialize (HB y Hq). apply (pl_mem _ _ _ HP) in Hq. rewrite (pl_left _ _ _ HP) in Hq by done. congruence.
Qed.

(** Placing the best keeps the order greedy. *)
Lemma greedy_snoc order left q best q' : placing order left q -> q ≡ₚ best :: q' ->
  (forall y, y ∈ q' -> ~ before g y best) -> greedy g n es (order ++ [best]).
Proof.
  intros HP Hq Hmin k x Hx. destruct (decide (k < length order)%nat) as [Hk|Hk].
  - rewrite lookup_app_l in Hx by done. rewrite take_app_le by lia. by apply (pl_greedy _ _ _ HP).
  - rewrite lookup_app_r in Hx by lia. apply list_lookup_singleton_Some in Hx as [Hk0 <-].
    rewrite take_app_length' by lia. split.
    + apply (avail_queue _ _ _ _ HP). rewrite Hq. by left.
    + intros y Hy. apply (avail_queue _ _ _ _ HP) in Hy. rewrite Hq in Hy. apply elem_of_cons in Hy as [->|Hy]; [by left|].
      destruct (decide (y = best)) as [->|Hne]; [by left|right].
      destruct (before_total g y best Hne) as [Hb|Hb]; [|done]. by destruct (Hmin y Hy).
Qed.

(** The arrays in the loop over the dependents of [best], those in [d] done. *)
Record rowing (order : list nat) (best : nat) (d left q : list nat) : Prop := Rowing {
  rw_len : length left = n;
  rw_left : forall w, (w < n)%nat ->
    left !! w = Some (pend es order w - if decide (w ∈ d) then 1 else 0)%nat;
  rw_nodup : NoDup ((order ++ [best]) ++ q);
  rw_mem : forall x, x ∈ (order ++ [best]) ++ q <-> left !! x = Some 0%nat;
  rw_heap : heap g q;
}.

Lemma out_nodup v : NoDup (out v es).
Proof.
  unfold out. apply NoDup_fmap_2_strong; [|apply NoDup_filter, arcs_nodup].
  intros [a b] [c d] [H1 _]%list_elem_of_filter [H2 _]%list_elem_of_filter. simpl in *. congruence.
Qed.

Lemma rowing_step order best d left q w : rowing order best d left q -> w ∈ out best es -> w ∉ d ->
  exists x, left !! w = Some (S x) /\ (x <> 0%nat -> rowing order best (d ++ [w]) (<[w := x]> left) q) /\
    (x = 0%nat -> forall q', heap g q' -> q' ≡ₚ w :: q -> rowing order best (d ++ [w]) (<[w := x]> left) q').
Proof.
  intros [L A N M H] Hw Hd. pose proof (out_bound n es Hin _ _ Hw) as Hwn.
  assert (best ∉ order) as Hb.
  { apply NoDup_app in N as (N & _ & _). apply NoDup_app in N as (_ & N & _). intros Ho. apply (N best Ho). by left. }
  pose proof (pend_snoc es order best w arcs_nodup Hb) as Hp. rewrite decide_True in Hp by done.
  pose proof (A w Hwn) as Aw. rewrite decide_False in Aw by done.
  assert (w ∉ (order ++ [best]) ++ q) as Hni by (rewrite M, Aw; intros [= ?]; lia).
  exists (pend es order w - 1)%nat. split; [rewrite Aw; f_equal; lia|].
  set (x := (pend es order w - 1)%nat).
  assert (length (<[w := x]> left) = n) as L' by (by rewrite length_insert).
  assert (forall v, (v < n)%nat -> <[w := x]> left !! v =
    Some (pend es order v - if decide (v ∈ d ++ [w]) then 1 else 0)%nat) as A'.
  { intros v Hv. destruct (decide (v = w)) as [->|Hne].
    - rewrite list_lookup_insert_eq by lia. rewrite decide_True by (apply elem_of_app; right; by left). done.
    - rewrite list_lookup_insert_ne, A by done.
      destruct (decide (v ∈ d)) as [Hv'|Hv']; [rewrite decide_True by (apply elem_of_app; by left); done|].
      rewrite decide_False; [done|]. rewrite elem_of_app, list_elem_of_singleton. tauto. }
  assert (forall v, v <> w -> <[w := x]> left !! v = left !! v) as A'' by (intros v Hv; by rewrite list_lookup_insert_ne).
  split.
  - intros Hx. constructor; [done|done|done| |done]. intros v. rewrite M. destruct (decide (v = w)) as [->|Hne].
    + rewrite list_lookup_insert_eq by lia. rewrite Aw. split; intros [= ?]; lia.
    + by rewrite A''.
  - intros Hx q' Hq' HP. constructor; [done|done| | |done].
    + rewrite HP. rewrite <- Permutation_middle. by constructor.
    + intros v. rewrite HP, <- Permutation_middle, elem_of_cons, M. destruct (decide (v = w)) as [->|Hne].
      * rewrite list_lookup_insert_eq by lia. split; [intros _; congruence|by left].
      * rewrite A'' by done. tauto.
Qed.

Lemma dec32_S x : dec32 (S x) = x.
Proof. done. Qed.

Lemma ready_row_spec order best left q D : rowing order best [] left q -> (best < n)%nat ->
  ends (ready_row g best left q) (fun r => rowing order best (out best es) r.1 r.2) D.
Proof.
  intros HR Hb. unfold ready_row.
  apply ends_bind, (ends_get _ _ (n_before best es)); [apply (off_at n es g Hrows); lia|].
  apply ends_bind, (ends_get _ _ (n_before (S best) es)); [rewrite Nat.add_1_r; apply (off_at n es g Hrows); lia|].
  rewrite n_before_S. replace (n_before best es + n_at best es - n_before best es)%nat with (n_at best es) by lia.
  eapply ends_mono; [apply (ends_each (fun dn r => rowing order best (take (length dn) (out best es)) r.1 r.2))| |done].
  - done.
  - intros dn [left1 q1] j rest Hl HR1. cbv beta in HR1. cbn [fst snd] in HR1.
    assert (seq (n_before best es) (n_at best es) !! length dn = Some j) as Hj by (by rewrite Hl, list_lookup_middle).
    apply lookup_seq in Hj as [-> Hj]. destruct (row_at n es g Hsort Hrows best (length dn) Hj) as (w & Hw & Ho).
    assert (w ∈ out best es) as Hwo by (by eapply list_elem_of_lookup_2).
    assert (w ∉ take (length dn) (out best es)) as Hni.
    { intros (k & Hk)%list_elem_of_lookup. apply lookup_take_Some in Hk as [Hk Hlt].
      pose proof (NoDup_lookup _ _ _ _ (out_nodup best) Hk Ho). lia. }
    destruct (rowing_step _ _ _ _ _ _ HR1 Hwo Hni) as (x & Hx & S1 & S2).
    rewrite length_app, Nat.add_1_r, (take_S_r _ _ _ Ho).
    apply ends_bind, (ends_get _ _ w); [done|]. apply ends_bind, (ends_get _ _ (S x)); [done|]. rewrite dec32_S.
    apply ends_bind, ends_put; [by apply lookup_lt_Some in Hx|].
    destruct (Nat.eqb_spec x 0) as [H0|H0]; [|by apply ends_ret, S1].
    assert (Forall (fun x => (x < n)%nat) ((order ++ [best]) ++ q1)) as HB.
    { apply Forall_forall. intros y Hy%(rw_mem _ _ _ _ _ HR1). apply lookup_lt_Some in Hy. by rewrite (rw_len _ _ _ _ _ HR1) in Hy. }
    pose proof (out_bound n es Hin _ _ Hwo) as Hwn.
    assert (w ∉ (order ++ [best]) ++ q1) as Hnq by (rewrite (rw_mem _ _ _ _ _ HR1); congruence).
    apply Forall_app in HB as [_ HB]. apply not_elem_of_app in Hnq as [_ Hnq].
    pose proof (rw_nodup _ _ _ _ _ HR1) as HN. apply NoDup_app in HN as (_ & _ & HN).
    apply ends_bind. eapply ends_mono; [apply (ready_push_spec g n rows_len); try done| |done].
    + apply (ro_n _ _ _ Hrows).
    + apply (rw_heap _ _ _ _ _ HR1).
    + rewrite Forall_forall in HB. by apply (depth_lt n q1 w).
    + intros q' [Hq1 Hq2]. by apply ends_ret, S2.
  - cbv beta. rewrite length_seq, <- length_out, firstn_all. done.
Qed.

(** A service out of the queue, with its row. *)
Lemma rowing_start order left q best q' : placing order left q -> q ≡ₚ best :: q' -> heap g q' ->
  rowing order best [] left q'.
Proof.
  intros [L A N M H G] HP Hq'.
  assert ((order ++ [best]) ++ q' ≡ₚ order ++ q) as HE by (by rewrite HP, <- app_assoc).
  constructor; [done| |by rewrite HE|intros x; by rewrite HE|done].
  intros w Hw. rewrite A by done. rewrite decide_False by apply not_elem_of_nil. f_equal. lia.
Qed.

Lemma rowing_end order left0 q0 best left q : placing order left0 q0 -> greedy g n es (order ++ [best]) ->
  rowing order best (out best es) left q -> placing (order ++ [best]) left q.
Proof.
  intros HP HG [L A N M H]. constructor; try done. intros w Hw. rewrite A by done.
  assert (best ∉ order) as Hb.
  { apply NoDup_app in N as (N & _ & _). apply NoDup_app in N as (_ & N & _). intros Ho. apply (N best Ho). by left. }
  rewrite (pend_snoc es order best w arcs_nodup Hb). f_equal. destruct (decide _); lia.
Qed.

Lemma schedule_loop_spec fuel order left q D : placing order left q -> (n < fuel + length order)%nat ->
  ends (schedule_loop fuel g order left q) (fun order' => exists left', placing order' left' []) D.
Proof.
  revert order left q. induction fuel as [|fuel IH]; intros order left q HP Hf.
  { pose proof (pl_nodup _ _ _ HP) as HN. apply NoDup_app in HN as (HN & _ & _).
    pose proof (placing_bound _ _ _ HP) as HB. apply Forall_app in HB as [HB _]. rewrite Forall_forall in HB.
    assert (order ⊆+ seq 0 n) as Hs%submseteq_length.
    { apply NoDup_submseteq; [done|]. intros x Hx. apply elem_of_seq. specialize (HB x Hx). lia. }
    rewrite length_seq in Hs. lia. }
  cbn [schedule_loop]. destruct q as [|x q]; [apply ends_ret; by exists left|].
  pose proof (placing_bound _ _ _ HP) as HB. apply Forall_app in HB as [HBo HBq].
  apply ends_bind. eapply ends_mono; [apply (ready_pop_spec g n rows_len); [apply (pl_heap _ _ _ HP)|done|done]| |done].
  intros [best q'] (Hq' & HPq & Hmin). cbn [fst snd] in *.
  pose proof (rowing_start _ _ _ _ _ HP HPq Hq') as HR. pose proof (greedy_snoc _ _ _ _ _ HP HPq Hmin) as HG.
  assert (best < n)%nat as Hb by (rewrite HPq in HBq; by inversion HBq).
  assert (length order < n)%nat as Hlen.
  { pose proof (rw_nodup _ _ _ _ _ HR) as HN. apply NoDup_app in HN as (HN & _ & _).
    apply NoDup_app in HN as (HN & HN2 & _). rewrite Forall_forall in HBo.
    apply (depth_lt n order best HN HBo Hb). intros Ho. apply (HN2 best Ho). by left. }
  rewrite (ro_n _ _ _ Hrows). destruct (Nat.leb_spec n (length order)); [lia|].
  apply ends_bind. eapply ends_mono; [by apply ready_row_spec| |done]. intros [left1 q1] HR1. cbn [fst snd] in *.
  apply IH; [by eapply rowing_end|]. rewrite length_app. simpl. lia.
Qed.

(** The roots fill the queue. *)
Lemma roots_spec D :
  ends (each (fun q i => x ← get (l_indeg g) i; if (x =? 0)%nat then ready_push g q i else mret q) [] (seq 0 n))
    (placing [] (l_indeg g)) D.
Proof.
  eapply ends_mono; [apply (ends_each (fun dn q => heap g q /\ NoDup q /\
    forall x, x ∈ q <-> x ∈ dn /\ l_indeg g !! x = Some 0%nat))| |done].
  - split_ands; [intros j Hj a b Ha; done|constructor|]. intros x. rewrite elem_of_nil. tauto.
  - intros dn q i rest Hl (HQ & HN & HM).
    assert (NoDup (dn ++ i :: rest)) as HND by (rewrite <- Hl; apply NoDup_seq).
    assert (i ∈ seq 0 n) as Hi%elem_of_seq by (rewrite Hl; apply elem_of_app; right; by left).
    assert (i ∉ dn) as Hid.
    { apply NoDup_app in HND as (_ & HND & _). intros Hd. apply (HND i Hd). by left. }
    apply ends_bind, (ends_get _ _ (n_into i es)); [apply (ro_indeg _ _ _ Hrows); lia|].
    assert (l_indeg g !! i = Some (n_into i es)) as Hii by (apply (ro_indeg _ _ _ Hrows); lia).
    destruct (Nat.eqb_spec (n_into i es) 0) as [Hz|Hz].
    + assert (Forall (fun x => (x < n)%nat) q) as HB.
      { apply Forall_forall. intros x [_ Hx]%HM. apply lookup_lt_Some in Hx. by rewrite (proj1 rows_len) in Hx. }
      assert (i ∉ q) as Hiq by (rewrite HM; tauto).
      eapply ends_mono; [apply (ready_push_spec g n rows_len); try done| |done].
      * apply (ro_n _ _ _ Hrows).
      * lia.
      * rewrite Forall_forall in HB. apply (depth_lt n q i); [done|done|lia|done].
      * intros q' [Hq' HP]. split_ands; [done|rewrite HP; by constructor|].
        intros x. rewrite HP, elem_of_cons, HM, elem_of_app, list_elem_of_singleton. split; [|tauto].
        intros [->|?]; [|tauto]. split; [by right|]. congruence.
    + apply ends_ret. split_ands; [done|done|]. intros x. rewrite HM, elem_of_app, list_elem_of_singleton.
      split; [tauto|]. intros [[?| ->] ?]; [done|congruence].
  - cbv beta. intros q (HQ & HN & HM). constructor.
    + apply (ro_indeg_len _ _ _ Hrows).
    + intros w Hw. rewrite pend_nil. by apply (ro_indeg _ _ _ Hrows).
    + done.
    + intros x. simpl. rewrite HM, elem_of_seq. split; [tauto|]. intros Hx. split; [|done].
      apply lookup_lt_Some in Hx. rewrite (proj1 rows_len) in Hx. lia.
    + done.
    + intros k x. by rewrite lookup_nil.
Qed.

(** With no service left in the queue all are placed: of the services that are
    not, one would have the greatest height. *)
Lemma placed_all order left : placing order left [] -> order ≡ₚ seq 0 n.
Proof.
  intros HP. pose proof (pl_nodup _ _ _ HP) as HN. rewrite app_nil_r in HN.
  pose proof (placing_bound _ _ _ HP) as HB. rewrite app_nil_r, Forall_forall in HB.
  assert (forall x, (x < n)%nat -> x ∉ order -> exists a, (a < n)%nat /\ (a ∉ order) /\ (a, x) ∈ es) as Hup.
  { intros x Hx Hno. assert (pend es order x <> 0%nat) as Hp.
    { intros Hp. apply Hno. assert (x ∈ order ++ []) as Hin'; [|by rewrite app_nil_r in Hin'].
      apply (pl_mem _ _ _ HP). rewrite (pl_left _ _ _ HP) by done. by rewrite Hp. }
    unfold pend in Hp. destruct (filter _ es) as [|[a b] l] eqn:E; [done|].
    assert ((a, b) ∈ filter (fun e : arc => e.2 = x /\ (e.1 ∉ order)) es) as Hf by (rewrite E; by left).
    apply list_elem_of_filter in Hf as [[H1 H2] H3]. simpl in *. subst b. exists a. split_ands; [|done|done].
    by destruct (arc_bound n es Hin _ H3). }
  assert (forall x, (x < n)%nat -> x ∉ order -> forall k, exists y h,
    (y < n)%nat /\ (y ∉ order) /\ l_height g !! y = Some h /\ (k <= h)%nat) as Hhigh.
  { intros x Hx Hno k. induction k as [|k (y & h & Hy & Hyo & Hhy & Hk)].
    - destruct (Hh x Hx) as (h & Hhx & _). exists x, h. split_ands; [done|done|done|lia].
    - destruct (Hup y Hy Hyo) as (a & Ha & Hao & He). destruct (Hh a Ha) as (ha & Hha & Hlt & _).
      destruct (Hlt y) as (h' & Hh' & ?); [by apply elem_of_out|]. simplify_eq.
      exists a, ha. split_ands; [done|done|done|lia]. }
  apply NoDup_Permutation; [done|apply NoDup_seq|]. intros x. rewrite elem_of_seq. split.
  - intros Hx. specialize (HB x Hx). lia.
  - intros [_ Hx]. destruct (decide (x ∈ order)) as [|Hno]; [done|]. exfalso.
    destruct (Hhigh x ltac:(lia) Hno (S (max_list (l_height g)))) as (y & h & _ & _ & Hhy & Hk).
    assert (h <= max_list (l_height g))%nat; [|lia]. apply max_list_elem_of_le. by eapply list_elem_of_lookup_2.
Qed.

Lemma schedule_spec D : ends (schedule g) (fun order => order ≡ₚ seq 0 n /\ greedy g n es order) D.
Proof.
  unfold schedule. rewrite (ro_n _ _ _ Hrows). apply ends_bind. eapply ends_mono; [apply roots_spec| |done].
  intros q Hq. apply ends_bind. eapply ends_mono; [apply (schedule_loop_spec (S n) [] _ _ D Hq); simpl; lia| |done].
  intros order (left & HP). pose proof (placed_all _ _ HP) as Hperm.
  rewrite Hperm, length_seq, Nat.eqb_refl. apply ends_ret. split; [done|]. apply (pl_greedy _ _ _ HP).
Qed.

(** *** What follows for the order *)

Section Greedy.
Context (order : list nat) (Hperm : order ≡ₚ seq 0 n) (Hgreedy : greedy g n es order).

Lemma order_nodup : NoDup order.
Proof. rewrite Hperm. apply NoDup_seq. Qed.

Lemma order_length : length order = n.
Proof. by rewrite Hperm, length_seq. Qed.

Lemma order_bound k x : order !! k = Some x -> (x < n)%nat.
Proof. intros Hx%list_elem_of_lookup_2. rewrite Hperm in Hx. apply elem_of_seq in Hx. lia. Qed.

Lemma order_at x : (x < n)%nat -> exists k, (k < n)%nat /\ order !! k = Some x.
Proof.
  intros Hx. assert (x ∈ order) as (k & Hk)%list_elem_of_lookup by (rewrite Hperm, elem_of_seq; lia).
  exists k. split; [|done]. apply lookup_lt_Some in Hk. by rewrite order_length in Hk.
Qed.

(** A prerequisite has an earlier place. *)
Lemma order_forward i j a b : order !! i = Some a -> order !! j = Some b -> (a, b) ∈ es -> (i < j)%nat.
Proof.
  intros Hi Hj He. destruct (Hgreedy j b Hj) as [(_ & _ & Hpre) _]. specialize (Hpre a He).
  apply list_elem_of_lookup in Hpre as (k & Hk). apply lookup_take_Some in Hk as [Hk Hlt].
  pose proof (NoDup_lookup _ _ _ _ order_nodup Hi Hk). lia.
Qed.

(** A root has an earlier place than what is none. *)
Lemma order_roots_first i j a b : order !! i = Some a -> order !! j = Some b ->
  l_indeg g !! a = Some 0%nat -> l_indeg g !! b <> Some 0%nat -> (i < j)%nat.
Proof.
  intros Hi Hj Ha Hb. destruct (decide (j < i)%nat) as [Hji|]; [|destruct (decide (i = j)); [simplify_eq|lia]].
  destruct (Hgreedy j b Hj) as [_ Hbest]. destruct (Hbest a) as [->|Hbef]; [|done|].
  - unfold avail; split_ands; [by eapply order_bound| |].
    + intros (k & Hk)%list_elem_of_lookup. apply lookup_take_Some in Hk as [Hk Hlt].
      pose proof (NoDup_lookup _ _ _ _ order_nodup Hi Hk). lia.
    + pose proof (order_bound _ _ Hi) as Han. rewrite (ro_indeg _ _ _ Hrows) in Ha by done. injection Ha as Ha.
      rewrite <- pend_nil in Ha. intros c Hc. apply (proj1 (pend_zero es [] a) Ha) in Hc. by apply not_elem_of_nil in Hc.
  - exfalso. pose proof (order_bound _ _ Hj) as Hbn. rewrite (ro_indeg _ _ _ Hrows) in Hb by done.
    apply list_lookup_total_correct in Ha. unfold before in Hbef. rewrite Ha in Hbef.
    rewrite (list_lookup_total_correct _ _ _ (ro_indeg _ _ _ Hrows b Hbn)) in Hbef.
    assert (n_into b es <> 0%nat) by congruence. lia.
Qed.

(** The roots are the places before [nroots]. *)
Lemma order_root_places k x : order !! k = Some x ->
  (k < length (filter (fun x => l_indeg g !! x = Some 0%nat) order))%nat <-> l_indeg g !! x = Some 0%nat.
Proof.
  intros Hk. set (R := fun x => l_indeg g !! x = Some 0%nat).
  assert (length (filter R order) = length (filter R (take k order)) + length (filter R (drop k order)))%nat as Hsplit
    by (by rewrite <- length_app, <- filter_app, take_drop).
  apply lookup_lt_Some in Hk as Hkl. split.
  - intros Hlt. destruct (decide (l_indeg g !! x = Some 0%nat)) as [|Hn]; [done|]. exfalso.
    rewrite (filter_none R (drop k order)) in Hsplit.
    + pose proof (length_filter R (take k order)) as Hle. rewrite length_take in Hle. simpl in Hsplit. lia.
    + intros y (j & Hj)%list_elem_of_lookup Hy. rewrite lookup_drop in Hj.
      pose proof (order_roots_first _ _ _ _ Hj Hk Hy Hn). lia.
  - intros Hx. rewrite (filter_all R (take k order)) in Hsplit.
    + rewrite length_take in Hsplit. rewrite (drop_S _ _ _ Hk), filter_cons_True in Hsplit by done. simpl in Hsplit. lia.
    + intros y (j & Hj)%list_elem_of_lookup. apply lookup_take_Some in Hj as [Hj Hlt].
      destruct (decide (R y)) as [|Hn]; [done|]. pose proof (order_roots_first _ _ _ _ Hk Hj Hx Hn). lia.
Qed.

(** [inv] gives each service its place. *)
Lemma inv_spec D :
  ends (each (fun inv i => x ← get order i; put inv x i) (replicate n 0%nat) (seq 0 n))
    (fun inv => forall k x, order !! k = Some x -> inv !! x = Some k) D.
Proof.
  eapply ends_mono; [apply (ends_each (fun dn inv => length inv = n /\
    forall k x, (k < length dn)%nat -> order !! k = Some x -> inv !! x = Some k))| |done].
  - rewrite length_replicate. split; [done|]. simpl. lia.
  - intros dn inv i rest Hl [HL HI]. assert (i = length dn /\ (i < n)%nat) as [-> Hi].
    { assert (seq 0 n !! length dn = Some i) as Hs by (by rewrite Hl, list_lookup_middle).
      apply lookup_seq in Hs. lia. }
    destruct (lookup_lt_is_Some_2 order (length dn)) as [x Hx]; [by rewrite order_length|].
    apply ends_bind, (ends_get _ _ x); [done|]. pose proof (order_bound _ _ Hx) as Hxn. apply ends_put; [lia|].
    rewrite length_insert, length_app. simpl. split; [done|]. intros k y Hk Hy.
    destruct (decide (y = x)) as [->|Hne].
    + rewrite list_lookup_insert_eq by lia. by rewrite (NoDup_lookup _ _ _ _ order_nodup Hx Hy).
    + rewrite list_lookup_insert_ne by done. apply HI; [|done]. destruct (decide (k = length dn)); [congruence|lia].
  - cbv beta. rewrite length_seq. intros inv [_ HI] k x Hk. apply HI; [|done]. apply lookup_lt_Some in Hk. by rewrite order_length in Hk.
Qed.
End Greedy.

Lemma nroots_spec D :
  ends (each (fun k i => x ← get (l_indeg g) i; mret (if (x =? 0)%nat then S k else k)) 0%nat (seq 0 n))
    (fun k => k = length (filter (fun x => l_indeg g !! x = Some 0%nat) (seq 0 n))) D.
Proof.
  apply (ends_each (fun dn k => k = length (filter (fun x => l_indeg g !! x = Some 0%nat) dn))); [done|].
  intros dn k i rest Hl ->. assert (i ∈ seq 0 n) as Hi%elem_of_seq by (rewrite Hl; apply elem_of_app; right; by left).
  assert (l_indeg g !! i = Some (n_into i es)) as Hii by (apply (ro_indeg _ _ _ Hrows); lia).
  apply ends_bind, (ends_get _ _ (n_into i es)); [done|]. apply ends_ret.
  rewrite filter_app, length_app, filter_cons. destruct (Nat.eqb_spec (n_into i es) 0) as [Hz|Hz].
  - rewrite decide_True by congruence. simpl. lia.
  - rewrite decide_False by congruence. simpl. lia.
Qed.

Lemma sorted_strict l : StronglySorted arc_le l -> NoDup l -> StronglySorted arc_lt l.
Proof.
  induction 1 as [|e l HS IH HF]; intros HN; [constructor|]. apply NoDup_cons in HN as [Hni HN].
  constructor; [by apply IH|]. rewrite Forall_forall in *. intros x Hx. apply arc_le_lt; [by apply HF|]. by intros ->.
Qed.

(** What [order_graph] leaves. *)
Record ordering (o : ordered) : Prop := Ordering {
  or_perm : o_order o ≡ₚ seq 0 n;
  or_greedy : greedy g n es (o_order o);
  or_roots : forall k x, o_order o !! k = Some x -> (k < o_nroots o)%nat <-> l_indeg g !! x = Some 0%nat;
  or_nroots : (o_nroots o <= n)%nat;
  or_edges : forall i j, (i, j) ∈ o_edges o <->
    exists a b, o_order o !! i = Some a /\ o_order o !! j = Some b /\ (a, b) ∈ es;
  or_forward : Forall (fun e => (e.1 < e.2 < n)%nat) (o_edges o);
  or_sorted : StronglySorted arc_lt (o_edges o);
}.

Lemma order_graph_spec D : ends (order_graph es g) ordering D.
Proof.
  unfold order_graph. rewrite (ro_n _ _ _ Hrows). apply ends_bind. eapply ends_mono; [apply schedule_spec| |done].
  intros order [Hp Hg]. apply ends_bind. eapply ends_mono; [by apply (inv_spec order)| |done]. intros inv Hinv.
  cbv beta in Hinv. apply ends_bind. eapply ends_mono; [apply nroots_spec| |done]. intros k ->.
  assert (forall a b, (a, b) ∈ es -> exists i j, order !! i = Some a /\ order !! j = Some b) as Hat.
  { intros a b He. destruct (arc_bound n es Hin _ He) as [Ha Hb]. simpl in *.
    destruct (order_at order Hp a Ha) as (i & _ & Hi), (order_at order Hp b Hb) as (j & _ & Hj). eauto. }
  apply ends_bind. eapply ends_mono; [apply (ends_each (fun dn es' => NoDup es' /\ forall i j, (i, j) ∈ es' <->
    exists a b, order !! i = Some a /\ order !! j = Some b /\ (a, b) ∈ dn))| |done].
  - split; [constructor|]. intros i j. rewrite elem_of_nil. split; [done|]. intros (a & b & _ & _ & H). by apply not_elem_of_nil in H.
  - intros dn es' [a b] rest Hl [HN HE]. simpl.
    assert ((a, b) ∈ es) as He by (rewrite Hl; apply elem_of_app; right; by left).
    destruct (Hat a b He) as (i & j & Hi & Hj).
    apply ends_bind, (ends_get _ _ i); [by apply Hinv|]. apply ends_bind, (ends_get _ _ j); [by apply Hinv|]. apply ends_ret.
    assert (forall i' a', order !! i' = Some a' -> (a' = a <-> i' = i)) as Ha.
    { intros i' a' Hi'. split; [intros ->; by eapply (NoDup_lookup _ _ _ _ (order_nodup order Hp))|intros ->; congruence]. }
    assert (forall j' b', order !! j' = Some b' -> (b' = b <-> j' = j)) as Hb.
    { intros j' b' Hj'. split; [intros ->; by eapply (NoDup_lookup _ _ _ _ (order_nodup order Hp))|intros ->; congruence]. }
    split.
    + apply NoDup_app. split_ands; [done| |apply NoDup_singleton].
      intros x Hx Hx'%list_elem_of_singleton. subst x. apply HE in Hx as (a' & b' & Hi' & Hj' & Hd).
      pose proof arcs_nodup as HD. rewrite Hl in HD. apply NoDup_app in HD as (_ & HD & _).
      assert (a' = a) as -> by congruence. assert (b' = b) as -> by congruence.
      apply (HD _ Hd). by left.
    + intros i' j'. rewrite elem_of_app, list_elem_of_singleton, HE. split.
      * intros [(a' & b' & ? & ? & ?)|[= -> ->]]; [exists a', b'|exists a, b]; (split_ands; [done|done|]);
          apply elem_of_app; [by left|right; by left].
      * intros (a' & b' & Hi' & Hj' & Hd). apply elem_of_app in Hd as [Hd|Hd%list_elem_of_singleton]; [left; eauto|].
        injection Hd as -> ->. right. f_equal; [by apply (Ha i' a)|by apply (Hb j' b)].
  - cbv beta. intros es' [HN HE]. apply ends_ret.
    assert (forall i j, (i, j) ∈ sort_edges es' <->
      exists a b, order !! i = Some a /\ order !! j = Some b /\ (a, b) ∈ es) as HE'.
    { intros i j. by rewrite sort_edges_perm. }
    constructor; simpl; try done.
    + intros k x Hk. rewrite <- (order_root_places order Hp Hg k x Hk). by rewrite Hp.
    + etransitivity; [apply length_filter|]. by rewrite length_seq.
    + apply Forall_forall. intros [i j] (a & b & Hi & Hj & He)%HE'. simpl.
      pose proof (order_forward order Hp Hg _ _ _ _ Hi Hj He). apply lookup_lt_Some in Hj. rewrite (order_length order Hp) in Hj. lia.
    + apply sorted_strict; [apply sort_edges_sorted|]. by rewrite sort_edges_perm.
Qed.
End Sched.
