(* ===== verification/Compiler.v ===== *)
(** * The graph that ninitctl builds

    What [link_graph] and [order_graph] promise to the writer of the image and
    to the person who wrote the services: each error message is true, a graph
    that is built is the declared one and has no cycle, its heights are the
    longest chains of dependents, and the start order is that of list
    scheduling. *)

From stdpp Require Import sorting.
From S2P Require Import Prelude Build Link Visit Heap Schedule.

(** C28. [link_graph] on services with distinct names ends in one of four ways, and
    says the truth: the edges are exactly the declared ones, each once and in
    order, and no walk along them comes back; or a service refers to a name that
    no service has; or to itself; or the services on the path shown depend on
    one another in a circle. It accesses no array out of bounds. *)
Theorem link_graph_outcome srcs : NoDup (s_name <$> srcs) ->
  match link_graph srcs with
  | Built (es, g) =>
      (forall e, e ∈ es <-> declared srcs e) /\ StronglySorted arc_lt es /\ rows (length srcs) es g /\
      forall p, ~ closed_walk es p
  | Die (NamesNoService i rev nm) => refers srcs i (rev, nm) /\ nm ∉ s_name <$> srcs
  | Die (DependsOnItself i) => exists rev nm, refers srcs i (rev, nm) /\ (s_name <$> srcs) !! i = Some nm
  | Die (DependencyCycle p) => exists es, (forall e, e ∈ es -> declared srcs e) /\ closed_walk es p
  | _ => False
  end.
Proof.
  intros HN. pose proof (link_graph_linked srcs HN) as H. unfold ends in H.
  destruct (link_graph srcs) as [[es g]|d| |]; [|..|done|done].
  - destruct H as [[Hi Hs Hr Hh] Hd]. split_ands; [done|done|done|]. by eapply heights_acyclic.
  - destruct H as [H|(es & p & -> & H)]; [|eauto]. by destruct d.
Qed.

Section Chains.
Context (n : nat) (es : list arc) (hs : list nat).
Context (Hin : Forall (arc_in n) es) (Hh : forall v, (v < n)%nat -> height_ok es hs v).

Lemma walk_steps v l h : hs !! v = Some h -> walk es (v :: l) -> (length l <= h)%nat.
Proof.
  revert v h. induction l as [|w l IH]; intros v h Hv; simpl; [lia|]. intros [He Hw].
  rewrite Forall_forall in Hin. destruct (Hin _ He) as (_ & Hvn & _). simpl in Hvn.
  destruct (Hh v Hvn) as (h' & Hh' & Hlt & _). simplify_eq.
  destruct (Hlt w) as (hw & Hhw & ?); [by apply elem_of_out|]. specialize (IH w hw Hhw Hw). lia.
Qed.

Lemma walk_longest h v : (v < n)%nat -> hs !! v = Some h -> exists l, walk es (v :: l) /\ length l = h.
Proof.
  revert v. induction h as [|h IH]; intros v Hv Hhv; [by exists []|].
  destruct (Hh v Hv) as (h' & Hh' & _ & [->|(w & Hw & Hhw)]); simplify_eq.
  apply elem_of_out in Hw as He. simpl in Hhw. rewrite Nat.sub_0_r in Hhw. rewrite Forall_forall in Hin.
  destruct (Hin _ He) as (_ & _ & Hwn). destruct (IH w Hwn Hhw) as (l & Hl & HL).
  exists (w :: l). split; [by split|]. simpl. by rewrite HL.
Qed.
End Chains.

(** In a linked graph the height of a service is the number of edges on a
    longest chain of dependents that starts at it. *)
Theorem heights_longest srcs es g v : NoDup (s_name <$> srcs) -> link_graph srcs = Built (es, g) ->
  (v < length srcs)%nat ->
  exists h, l_height g !! v = Some h /\
    (forall l, walk es (v :: l) -> (length l <= h)%nat) /\
    (exists l, walk es (v :: l) /\ length l = h).
Proof.
  intros HN Hl Hv. pose proof (link_graph_linked srcs HN) as H. rewrite Hl in H. destruct H as [[Hi Hs Hr Hh] _].
  simpl in *. destruct (Hh v Hv) as (h & Hhv & _). exists h. split_ands; [done| |].
  - intros l Hw. by eapply walk_steps.
  - by eapply walk_longest.
Qed.

(** ** List scheduling as a program *)

Fixpoint best (g : lgraph) (l : list nat) : option nat :=
  match l with
  | [] => None
  | x :: l' =>
      match best g l' with
      | Some y => Some (if decide (before g y x) then y else x)
      | None => Some x
      end
  end.

Definition can_place (es : list arc) (placed : list nat) (x : nat) : Prop := (x ∉ placed) /\ pend es placed x = 0%nat.

#[export] Instance can_place_dec es placed x : Decision (can_place es placed x).
Proof. unfold can_place. apply _. Defined.

(** [k] more places, each for the best service that can have it. *)
Fixpoint list_schedule (g : lgraph) (n : nat) (es : list arc) (k : nat) (placed : list nat) : list nat :=
  match k with
  | O => placed
  | S k' =>
      match best g (filter (can_place es placed) (seq 0 n)) with
      | Some x => list_schedule g n es k' (placed ++ [x])
      | None => placed
      end
  end.

Lemma best_spec g l : match best g l with
  | Some x => x ∈ l /\ forall y, y ∈ l -> y = x \/ before g x y
  | None => l = []
  end.
Proof.
  induction l as [|x l IH]; [done|]. simpl. destruct (best g l) as [y|]; [|subst; split; [by left|]].
  - destruct IH as [Hy Hmin]. destruct (decide (before g y x)) as [Hb|Hb].
    + split; [by right|]. intros z [->|Hz]%elem_of_cons; [by right|by apply Hmin].
    + split; [by left|]. intros z [->|Hz]%elem_of_cons; [by left|]. destruct (decide (z = x)) as [->|Hzx]; [by left|right].
      destruct (before_total g x z) as [?|Hzb]; [done|done|]. exfalso.
      destruct (Hmin z Hz) as [->|Hyz]; [done|]. by apply Hb, (before_trans g y z x).
  - intros y Hy%list_elem_of_singleton. by left.
Qed.

Lemma list_schedule_greedy g n es order k : order ≡ₚ seq 0 n -> greedy g n es order -> (k <= n)%nat ->
  list_schedule g n es k (take (n - k) order) = order.
Proof.
  intros Hp Hg. assert (length order = n) as Hlen by (by rewrite Hp, length_seq).
  induction k as [|k IH]; intros Hk; [simpl; rewrite take_ge by lia; done|]. cbn [list_schedule].
  destruct (lookup_lt_is_Some_2 order (n - S k)) as [x Hx]; [lia|].
  destruct (Hg _ _ Hx) as [Hav Hbest]. set (placed := take (n - S k) order) in *.
  assert (forall y, y ∈ filter (can_place es placed) (seq 0 n) <-> avail n es placed y) as Hf.
  { intros y. rewrite list_elem_of_filter, elem_of_seq. unfold can_place, avail. rewrite pend_zero.
    split; [intros [[? ?] ?]|intros (? & ? & ?)]; split_ands; try done; lia. }
  pose proof (best_spec g (filter (can_place es placed) (seq 0 n))) as HB.
  destruct (best g _) as [y|].
  - destruct HB as [Hy Hmin]. apply Hf in Hy. assert (y = x) as ->.
    { destruct (Hbest y Hy) as [->|Hxy]; [done|]. destruct (Hmin x) as [->|Hyx]; [by apply Hf|done|].
      by destruct (before_asym g x y Hxy). }
    unfold placed. rewrite <- (take_S_r _ _ _ Hx). replace (S (n - S k)) with (n - k)%nat by lia. apply IH. lia.
  - apply Hf in Hav. rewrite HB in Hav. by apply not_elem_of_nil in Hav.
Qed.

(** C29. On a graph that was linked, [schedule], with its heap and its counters of
    prerequisites, computes the list schedule: at each place the best service
    all of whose prerequisites have been placed. It places every service and
    never dies. *)
Theorem schedule_is_list_scheduling srcs es g : NoDup (s_name <$> srcs) -> link_graph srcs = Built (es, g) ->
  schedule g = Built (list_schedule g (length srcs) es (length srcs) []) /\
  list_schedule g (length srcs) es (length srcs) [] ≡ₚ seq 0 (length srcs).
Proof.
  intros HN Hl. pose proof (link_graph_linked srcs HN) as H. rewrite Hl in H. destruct H as [[Hi Hs Hr Hh] _].
  cbn [fst snd] in *. destruct (ends_built _ _ (schedule_spec _ _ _ Hi Hs Hr Hh (fun _ => False))) as (order & Hord & Hp & Hg).
  pose proof (list_schedule_greedy _ _ _ _ (length srcs) Hp Hg ltac:(lia)) as E.
  rewrite Nat.sub_diag, take_0 in E. by rewrite E.
Qed.

(** [order_graph] on a linked graph gives an order of all services in which
    the roots, and only they, come first, and rewrites the edges to places: an
    edge joins two places when the services there are joined, it goes from an
    earlier place to a later one, and the edges are sorted without repetition. *)
Theorem order_graph_forward srcs es g : NoDup (s_name <$> srcs) -> link_graph srcs = Built (es, g) ->
  exists o, order_graph es g = Built o /\
    o_order o ≡ₚ seq 0 (length srcs) /\
    (forall k x, o_order o !! k = Some x -> (k < o_nroots o)%nat <-> ~ exists a, declared srcs (a, x)) /\
    (forall i j, (i, j) ∈ o_edges o <->
       exists a b, o_order o !! i = Some a /\ o_order o !! j = Some b /\ declared srcs (a, b)) /\
    Forall (fun e => (e.1 < e.2 < length srcs)%nat) (o_edges o) /\ StronglySorted arc_lt (o_edges o).
Proof.
  intros HN Hl. pose proof (link_graph_linked srcs HN) as H. rewrite Hl in H. destruct H as [[Hi Hs Hr Hh] Hd].
  simpl in *. destruct (ends_built _ _ (order_graph_spec _ _ _ Hi Hs Hr Hh (fun _ => False))) as (o & Ho & [O1 O2 O3 O4 O5 O6 O7]).
  exists o. split_ands; try done.
  - intros k x Hk. rewrite (O3 k x Hk). apply list_elem_of_lookup_2 in Hk as Hx. rewrite O1, elem_of_seq in Hx.
    rewrite (ro_indeg _ _ _ Hr) by lia. rewrite <- pend_nil. split.
    + intros [= Hz] (a & Ha). apply Hd in Ha. apply (proj1 (pend_zero es [] x) Hz) in Ha. by apply not_elem_of_nil in Ha.
    + intros Hno. f_equal. apply pend_zero. intros a Ha. destruct Hno. exists a. by apply Hd.
  - intros i j. rewrite O5. split; intros (a & b & H1 & H2 & H3); exists a, b; split_ands; try done; by apply Hd.
Qed.
