(* ===== verification/Desc.v ===== *)
(** * Counting descendants (the first half of write_image in ctl/image.c)

    The number of services that depend on a service, directly or through
    others, decides its default policy and is stored in the image. It is counted
    with one bit set per service, filled from the last service to the first. *)

From stdpp Require Import relations.
From S2P Require Import Prelude Ngraph Verify Build Link Visit Heap Schedule.

(** [roff] of the image: the same two loops as in [link_graph]. *)
Definition row_offsets (n : nat) (es : list arc) : built (list nat) :=
  off ← each (fun off e => upd off (e.1 + 1) S) (replicate (n + 1) 0%nat) es;
  sum_offsets n off.

(** Words in a set of [n] bits. *)
Definition words (n : nat) : nat := ((n + 63) / 64)%nat.

(** [d[k >> 6] |= 1ull << (k & 63)] *)
Definition set_bit (d : list Z) (k : nat) : built (list Z) :=
  upd d (k / 64) (fun x => Z.lor x (Z.shiftl 1 (Z.of_nat (k mod 64)))).

(** The set of service [i]: its dependents and their sets. *)
Definition desc_row (roff ridx : list nat) (desc : list (list Z)) (i : nat) : built (list Z) :=
  r0 ← get roff i;
  r1 ← get roff (i + 1);
  d ← get desc i;
  each (fun d j =>
          k ← get ridx j;
          sub ← get desc k;
          d ← set_bit d k;
          mret (zip_with Z.lor d sub))
    d (seq r0 (r1 - r0)).

Definition descendants (n : nat) (roff ridx : list nat) : built (list (list Z)) :=
  each (fun desc i => d ← desc_row roff ridx desc i; put desc i d)
    (replicate n (replicate (words n) 0)) (reverse (seq 0 n)).

(** [__builtin_popcountll] *)
Definition popcount (x : Z) : Z := cnt (fun k => Z.testbit x (Z.of_nat k)) (seq 0 64).

Definition count_bits (d : list Z) : Z := foldl (fun nd x => u32 (nd + popcount x)) 0 d.

(** ** Sets of bits *)

Definition bit (d : list Z) (k : nat) : bool :=
  match d !! (k / 64)%nat with Some x => Z.testbit x (Z.of_nat (k mod 64)) | None => false end.

Lemma bit_set d k d' j : set_bit d k = Built d' -> bit d' j = bit d j || (j =? k)%nat.
Proof.
  unfold set_bit, upd. destruct (d !! (k / 64)%nat) as [x|] eqn:Hx; [|done]. intros [= <-]. unfold bit.
  assert (forall i, (i = 64 * (i / 64) + i mod 64)%nat) as Hdm by (intros i; apply Nat.div_mod; lia).
  destruct (decide (j / 64 = k / 64)%nat) as [E|Hne].
  - rewrite E, list_lookup_insert_eq, Hx by (by apply lookup_lt_Some in Hx). rewrite Z.lor_spec. f_equal.
    rewrite Z.shiftl_1_l, Z.pow2_bits_eqb by lia.
    destruct (Nat.eqb_spec j k) as [->|Hne]; [apply Z.eqb_refl|]. apply Z.eqb_neq. intros Hm. apply Hne.
    pose proof (Hdm j) as Dj. pose proof (Hdm k) as Dk. apply Nat2Z.inj in Hm. transitivity (64 * (j / 64) + j mod 64)%nat; [exact Dj|]. rewrite E, <- Hm. symmetry. exact Dk.
  - rewrite list_lookup_insert_ne by done. destruct (Nat.eqb_spec j k) as [->|]; [done|]. by rewrite orb_false_r.
Qed.

Lemma bit_or d d' j : length d = length d' -> bit (zip_with Z.lor d d') j = bit d j || bit d' j.
Proof.
  intros Hl. unfold bit. rewrite lookup_zip_with. set (q := (j / 64)%nat).
  destruct (d !! q) as [x|] eqn:Hx.
  - destruct (lookup_lt_is_Some_2 d' q) as [y ->]; [rewrite <- Hl; by apply lookup_lt_Some in Hx|]. apply Z.lor_spec.
  - destruct (d' !! q) as [y|] eqn:Hy; [|done]. apply lookup_lt_Some in Hy. apply lookup_ge_None in Hx. lia.
Qed.

Lemma bit_zero w j : bit (replicate w 0) j = false.
Proof.
  unfold bit. destruct (replicate w 0 !! (j / 64)%nat) as [x|] eqn:Hx; [|done].
  apply lookup_replicate in Hx as [-> _]. apply Z.testbit_0_l.
Qed.

(** The members of a set. *)
Definition members (d : list Z) : list nat := filter (fun k => bit d k = true) (seq 0 (64 * length d)).

Lemma bit_cons_low x d k : (k < 64)%nat -> bit (x :: d) k = Z.testbit x (Z.of_nat k).
Proof. intros Hk. unfold bit. by rewrite Nat.div_small, Nat.mod_small by done. Qed.

Lemma bit_cons_high x d k : bit (x :: d) (64 + k) = bit d k.
Proof.
  unfold bit. replace (64 + k)%nat with (k + 1 * 64)%nat by lia.
  by rewrite Nat.div_add, Nat.Div0.mod_add, Nat.add_1_r by lia.
Qed.

Lemma members_cnt d : Z.of_nat (length (members d)) = cnt (bit d) (seq 0 (64 * length d)).
Proof. unfold members. by rewrite cnt_filter. Qed.

Lemma members_cons x d : Z.of_nat (length (members (x :: d))) = popcount x + Z.of_nat (length (members d)).
Proof.
  rewrite !members_cnt. cbn [length]. replace (64 * S (length d))%nat with (64 + 64 * length d)%nat by lia.
  rewrite seq_app, cnt_app. apply (f_equal2 Z.add).
  - apply cnt_ext. intros k Hk%elem_of_seq. apply bit_cons_low. lia.
  - change (0 + 64)%nat with (64 + 0)%nat. rewrite <- fmap_add_seq, cnt_fmap. apply cnt_ext. intros k _. apply bit_cons_high.
Qed.

Lemma popcount_range x : 0 <= popcount x <= 64.
Proof. unfold popcount. pose proof (cnt_range (fun k => Z.testbit x (Z.of_nat k)) (seq 0 64)) as H. rewrite length_seq in H. lia. Qed.

(** The counter holds the size of the set. *)
Lemma count_bits_members d : Z.of_nat (length d) < 2 ^ 20 -> count_bits d = Z.of_nat (length (members d)).
Proof.
  intros Hd. unfold count_bits.
  assert (forall nd, 0 <= nd -> nd + 64 * Z.of_nat (length d) < 4294967296 ->
    foldl (fun nd x => u32 (nd + popcount x)) nd d = nd + Z.of_nat (length (members d))) as Hg.
  { clear Hd. induction d as [|x d IH]; intros nd H0 H1; simpl foldl; [simpl; lia|].
    pose proof (popcount_range x). rewrite u32_small by (simpl length in H1; lia).
    rewrite IH, members_cons by (simpl length in H1; lia). lia. }
  rewrite Hg; lia.
Qed.

(** ** The sets hold the descendants *)

Section Descendants.
Context (n : nat) (es : list arc).
Context (Hfwd : Forall (fun e => (e.1 < e.2 < n)%nat) es) (Hsort : StronglySorted arc_lt es).

(** [k] depends on [i], directly or through others. *)
Definition depends (i k : nat) : Prop := tc (fun a b => (a, b) ∈ es) i k.

Lemma fwd_in : Forall (arc_in n) es.
Proof. eapply Forall_impl; [exact Hfwd|]. intros [a b]. unfold arc_in. simpl. lia. Qed.

Lemma fwd_arc a b : (a, b) ∈ es -> (a < b < n)%nat.
Proof. rewrite Forall_forall in Hfwd. apply Hfwd. Qed.

Lemma depends_bound i k : depends i k -> (i < k < n)%nat.
Proof. induction 1 as [a b He|a b c He _ IH]; apply fwd_arc in He; lia. Qed.

Lemma depends_out i k : depends i k <-> exists j, j ∈ out i es /\ (k = j \/ depends j k).
Proof.
  split.
  - destruct 1 as [a b He|a b c He Hd]; exists b; (split; [by apply elem_of_out|by auto]).
  - intros (j & Hj%elem_of_out & [->|Hd]); [by apply tc_once|by eapply tc_l].
Qed.

Lemma row_offsets_spec D : ends (row_offsets n es)
  (fun off => length off = (n + 1)%nat /\ forall v, (v <= n)%nat -> off !! v = Some (n_before v es)) D.
Proof.
  unfold row_offsets. apply ends_bind. eapply ends_mono; [apply (ends_each (fun dn off => length off = (n + 1)%nat /\
    off !! 0%nat = Some 0%nat /\ forall v, (v < n)%nat -> off !! S v = Some (n_at v dn)))| |done].
  - rewrite length_replicate. split_ands; [done|by rewrite lookup_replicate_2 by lia|].
    intros v Hv. by rewrite lookup_replicate_2 by lia.
  - intros dn off e rest Hl (L1 & Z1 & A1).
    assert (e ∈ es) as He by (rewrite Hl; apply elem_of_app; right; by left).
    destruct e as [a b]. apply fwd_arc in He. cbn [fst snd] in *.
    apply (ends_upd _ _ (n_at a dn)); [rewrite Nat.add_1_r; apply A1; lia|]. rewrite length_insert. split_ands; [done| |].
    + by rewrite list_lookup_insert_ne by lia.
    + intros v Hv. rewrite n_at_snoc, Nat.add_1_r. simpl. case_decide as Hd.
      * subst v. rewrite list_lookup_insert_eq by lia. f_equal. lia.
      * rewrite list_lookup_insert_ne, A1 by lia. f_equal. lia.
  - cbv beta. intros off (L1 & Z1 & A1). by apply sum_offsets_spec.
Qed.

Context (roff ridx : list nat).
Context (Hroff : forall v, (v <= n)%nat -> roff !! v = Some (n_before v es)) (Hridx : ridx = (fun e => e.2) <$> es).

Lemma word_lt k : (k < n)%nat -> (k / 64 < words n)%nat.
Proof.
  intros Hk. unfold words. apply Nat.Div0.div_lt_upper_bound.
  pose proof (Nat.div_mod (n + 63) 64 ltac:(lia)). pose proof (Nat.mod_upper_bound (n + 63) 64 ltac:(lia)). lia.
Qed.

(** The set [d] is that of service [i]. *)
Definition set_of (i : nat) (d : list Z) : Prop := length d = words n /\ forall k, bit d k = true <-> depends i k.

Lemma desc_row_spec desc i D : (i < n)%nat -> desc !! i = Some (replicate (words n) 0) ->
  (forall j, (i < j < n)%nat -> exists d, desc !! j = Some d /\ set_of j d) ->
  ends (desc_row roff ridx desc i) (set_of i) D.
Proof.
  intros Hi H0 Hj. unfold desc_row.
  apply ends_bind, (ends_get _ _ (n_before i es)); [apply Hroff; lia|].
  apply ends_bind, (ends_get _ _ (n_before (S i) es)); [rewrite Nat.add_1_r; apply Hroff; lia|].
  apply ends_bind, (ends_get _ _ (replicate (words n) 0)); [done|].
  rewrite n_before_S. replace (n_before i es + n_at i es - n_before i es)%nat with (n_at i es) by lia.
  eapply ends_mono; [apply (ends_each (fun dn d => length d = words n /\
    forall k, bit d k = true <-> exists j, j ∈ take (length dn) (out i es) /\ (k = j \/ depends j k)))| |done].
  - rewrite length_replicate. split; [done|]. intros k. rewrite bit_zero. split; [done|]. intros (j & []%not_elem_of_nil & _).
  - intros dn d x rest Hl [HL HB].
    assert (seq (n_before i es) (n_at i es) !! length dn = Some x) as Hx by (by rewrite Hl, list_lookup_middle).
    apply lookup_seq in Hx as [-> Hx]. destruct (row_lookup es Hsort i (length dn) Hx) as (w & Hw & Ho).
    rewrite <- Hridx in Hw. assert ((i, w) ∈ es) as He by (by eapply elem_of_out, list_elem_of_lookup_2).
    apply fwd_arc in He as Hb. destruct (Hj w Hb) as (sub & Hsub & HLs & HBs).
    apply ends_bind, (ends_get _ _ w); [done|]. apply ends_bind, (ends_get _ _ sub); [done|].
    destruct (lookup_lt_is_Some_2 d (w / 64)) as [y Hy]; [rewrite HL; apply word_lt; lia|].
    assert (exists d', set_bit d w = Built d' /\ length d' = length d) as (d' & Hd' & HL').
    { unfold set_bit, upd. rewrite Hy. eexists. split; [done|]. apply length_insert. }
    rewrite Hd'. apply ends_bind, ends_ret, ends_ret. cbv beta.
    rewrite length_zip_with, HL', HL, HLs, Nat.min_id. split; [done|]. intros k.
    rewrite bit_or by congruence. rewrite (bit_set _ _ _ k Hd'), length_app, Nat.add_1_r, (take_S_r _ _ _ Ho).
    rewrite !orb_true_iff, HB, HBs, Nat.eqb_eq. split.
    + intros [[(j & Hin & Hk)| ->]|Hd]; [exists j|exists w|exists w]; (split; [|by auto]); apply elem_of_app;
        [by left|right; by left|right; by left].
    + intros (j & Hin & Hk). apply elem_of_app in Hin as [Hin|Hin%list_elem_of_singleton]; [left; left; eauto|].
      subst j. destruct Hk as [->|Hk]; [left; by right|by right].
  - cbv beta. rewrite length_seq. intros d [HL HB]. split; [done|]. intros k. rewrite HB, depends_out.
    by rewrite take_ge by (unfold out; rewrite length_fmap; done).
Qed.

Lemma descendants_spec D : ends (descendants n roff ridx)
  (fun desc => length desc = n /\ forall i, (i < n)%nat -> exists d, desc !! i = Some d /\ set_of i d) D.
Proof.
  unfold descendants. eapply ends_mono; [apply (ends_each (fun dn desc => length desc = n /\
    (forall i, (n <= i + length dn)%nat -> (i < n)%nat -> exists d, desc !! i = Some d /\ set_of i d) /\
    forall i, (i + length dn < n)%nat -> desc !! i = Some (replicate (words n) 0)))| |done].
  - rewrite length_replicate. split_ands; [done|simpl; lia|]. intros i Hi. rewrite lookup_replicate_2; [done|]. lia.
  - intros dn desc x rest Hl (HL & HD & H0).
    assert (x = (n - S (length dn))%nat /\ (length dn < n)%nat) as [-> Hlt].
    { assert (reverse (seq 0 n) !! length dn = Some x) as Hx by (by rewrite Hl, list_lookup_middle).
      apply lookup_lt_Some in Hx as Hlt. rewrite length_reverse, length_seq in Hlt.
      rewrite reverse_lookup in Hx by (by rewrite length_seq). apply lookup_seq in Hx. rewrite length_seq in Hx. lia. }
    apply ends_bind. eapply ends_mono; [apply desc_row_spec| |done].
    + lia.
    + apply H0. lia.
    + intros j Hj. apply HD; lia.
    + intros d Hd. apply ends_put; [lia|]. rewrite length_insert, length_app. simpl. split_ands; [done| |].
      * intros i Hi Hin. destruct (decide (i = (n - S (length dn))%nat)) as [->|Hne].
        -- rewrite list_lookup_insert_eq by lia. eauto.
        -- rewrite list_lookup_insert_ne by lia. apply HD; lia.
      * intros i Hi. rewrite list_lookup_insert_ne by lia. apply H0. lia.
  - cbv beta. rewrite length_reverse, length_seq. intros desc (HL & HD & _). split; [done|]. intros i Hi. apply HD; lia.
Qed.

(** ** How many there are *)

(** The descendants of [i] as a list. *)
Lemma members_spec i d k : (i < n)%nat -> set_of i d -> k ∈ members d <-> depends i k.
Proof.
  intros Hi [HL HB]. unfold members. rewrite list_elem_of_filter, elem_of_seq, HB, HL. split; [tauto|].
  intros Hk. split; [done|]. apply depends_bound in Hk as Hb. pose proof (word_lt k ltac:(lia)) as Hw.
  pose proof (Nat.div_mod k 64 ltac:(lia)). pose proof (Nat.mod_upper_bound k 64 ltac:(lia)). lia.
Qed.

Lemma members_nodup d : NoDup (members d).
Proof. apply NoDup_filter, NoDup_seq. Qed.

(** A dependent has fewer descendants. *)
Lemma members_lt i j d d' : (i < n)%nat -> set_of i d -> set_of j d' -> (i, j) ∈ es -> (length (members d') < length (members d))%nat.
Proof.
  intros Hi Hd Hd' He. apply fwd_arc in He as Hb.
  assert (j :: members d' ⊆+ members d) as Hs%submseteq_length; [|simpl in Hs; lia].
  apply NoDup_submseteq.
  - constructor; [|apply members_nodup]. rewrite (members_spec j d') by (done || lia). intros Hdj%depends_bound. lia.
  - intros k [->|Hk]%elem_of_cons; apply (members_spec i d); try done; [by apply tc_once|].
    apply (members_spec j d') in Hk; [|lia|done]. by eapply tc_l.
Qed.

Lemma members_le i d : (i < n)%nat -> set_of i d -> (length (members d) <= n - 1 - i)%nat.
Proof.
  intros Hi Hd. assert (members d ⊆+ seq (S i) (n - S i)) as Hs%submseteq_length; [|rewrite length_seq in Hs; lia].
  apply NoDup_submseteq; [apply members_nodup|]. intros k Hk. apply (members_spec i d) in Hk; [|done|done].
  apply depends_bound in Hk. apply elem_of_seq. lia.
Qed.

Lemma members_out i d : (i < n)%nat -> set_of i d -> NoDup (out i es) -> (n_at i es <= length (members d))%nat.
Proof.
  intros Hi Hd HN. assert (out i es ⊆+ members d) as Hs%submseteq_length; [|unfold out in Hs; by rewrite length_fmap in Hs].
  apply NoDup_submseteq; [done|]. intros k Hk%elem_of_out. apply (members_spec i d); [done|done|]. by apply tc_once.
Qed.

Lemma members_none i d : (i < n)%nat -> set_of i d -> length (members d) = 0%nat <-> n_at i es = 0%nat.
Proof.
  intros Hi Hd. unfold n_at. rewrite !length_zero_iff_nil. split.
  - intros Hm. apply filter_none. intros [a b] He Ha. simpl in Ha. subst a.
    assert (b ∈ members d) as Hb by (apply (members_spec i d); [done|done|by apply tc_once]). rewrite Hm in Hb. by apply not_elem_of_nil in Hb.
  - intros Ho. destruct (members d) as [|k l] eqn:Hm; [done|]. exfalso.
    assert (depends i k) as Hk by (apply (members_spec i d); [done|done|rewrite Hm; by left]).
    apply depends_out in Hk as (j & Hj & _). unfold out in Hj. rewrite Ho in Hj. by apply not_elem_of_nil in Hj.
Qed.

End Descendants.

(** * Writing the image (write_image in ctl/image.c)

    The service and policy records in start order, the string table, the layout
    of the file, its checksum, and the check of the result with [ng_verify]
    before it is written. *)

(** ** Bytes of the structures, little endian *)

Definition le16 (x : Z) : bytes := [x mod 256; (x / 256) mod 256].
Definition le32 (x : Z) : bytes := le16 x ++ le16 (x / 65536).
Definition le64 (x : Z) : bytes := le32 x ++ le32 (x / 4294967296).

Definition enc_hdr (h : ng_hdr) : bytes :=
  le32 (magic h) ++ le32 (version h) ++ le32 (hdr_crc32 h) ++ le32 (total_len h) ++
  le32 (n_svc h) ++ le32 (n_roots h) ++ le32 (n_edges h) ++ le32 (blob_len h) ++
  le32 (off_svc h) ++ le32 (off_rdep_off h) ++ le32 (off_rdep_idx h) ++ le32 (off_blob h) ++
  le32 (off_pol h) ++ le32 (reserved h) ++ le64 (srcs_hash h).

Definition enc_svc (s : ng_svc) : bytes :=
  le16 (unmet s) ++ [type s mod 256] ++ [flags s mod 256] ++ le16 (n_desc s) ++ le16 (notify_fd s) ++
  le32 (script_off s) ++ le32 (name_off s).

Definition enc_pol (p : ng_pol) : bytes :=
  le32 (start_ms p) ++ le32 (stop_ms p) ++ le16 (retry_ms p) ++ [start_tries p mod 256] ++ [pflags p mod 256] ++
  le32 (exec_off p).

Definition enc_words (l : list nat) : bytes := concat ((fun x => le32 (Z.of_nat x)) <$> l).

(** ** The string table *)

(** The offset of the new string, and the table with it and its NUL. *)
Definition blob_add (b s : bytes) : Z * bytes := (u32 (Z.of_nat (length b)), b ++ s ++ [0]).

Definition blob_add_all (b : bytes) (l : list bytes) : bytes := foldl (fun b s => (blob_add b s).2) b l.

(** The argv of a service: its flag, its offset and the table with it. *)
Definition emit_exec (s : src) (b : bytes) : Z * Z * bytes :=
  match s_exec_pre s with
  | p0 :: pre =>
      let '(at_, b) := blob_add b p0 in
      let b := blob_add_all b pre in
      let b := (blob_add b []).2 in
      let b := blob_add_all b (s_exec_suf s) in
      let b := (blob_add b []).2 in
      (NG_FLAG_INTERP, at_, b)
  | [] =>
      match s_direct s with
      | p0 :: rest =>
          let '(at_, b) := blob_add b p0 in
          let b := blob_add_all b rest in
          let b := (blob_add b []).2 in
          (NG_FLAG_DIRECT, at_, b)
      | [] => (0, NG_NO_EXEC, b)
      end
  end.

(** ** The records *)

Record emitted := Emitted {
  e_svc : list ng_svc;
  e_pol : list ng_pol;
  e_blob : bytes;
  e_vague : nat;
}.

(** The policy of a service with [nd] descendants. *)
Definition emit_policy (s : src) (oi : nat) (nd : Z) : built Z :=
  if s_have_onfail s then
    if (s_onfail s =? NG_ONFAIL_WARN) && negb (nd =? 0) then Die (WarnWithDependents oi nd)
    else mret (s_onfail s)
  else mret (if negb (nd =? 0) then NG_ONFAIL_STOP else NG_ONFAIL_WARN).

(** One iteration of the loop over the services. *)
Definition emit_service (srcs : list src) (g : lgraph) (order roff : list nat) (desc : list (list Z))
    (em : emitted) (i : nat) : built emitted :=
  oi ← get order i;
  s ← get srcs oi;
  d ← get desc i;
  let nd := count_bits d in
  pol ← emit_policy s oi nd;
  r0 ← get roff i;
  r1 ← get roff (i + 1);
  let vague := (s_type s =? NG_TYPE_DAEMON) && (s_notify s =? 0) && negb (r0 =? r1)%nat in
  ind ← get (l_indeg g) oi;
  let fl := Z.lor pol (if negb (s_restart s =? 0) then NG_FLAG_RESTART else 0) in
  let '(name_at, b) := blob_add (e_blob em) (s_name s) in
  let '(script_at, b) :=
    match s_script s with Some sc => blob_add b sc | None => (NG_NO_SCRIPT, b) end in
  let '(xflag, exec_at, b) := emit_exec s b in
  let sv := NgSvc (u16 (Z.of_nat ind)) (s_type s) (Z.lor fl xflag) (u16 nd) (s_notify s) script_at name_at in
  let pl := NgPol (s_start_ms s) (s_stop_ms s) (s_retry_ms s) (s_start_tries s) (s_pflags s) exec_at in
  mret (Emitted (e_svc em ++ [sv]) (e_pol em ++ [pl]) b
          (if vague then S (e_vague em) else e_vague em)).

(** ** The file *)

(** The header for tables of these sizes, without its checksum. *)
Definition lay_header (n m nroots : nat) (blob : Z) (hash : Z) : ng_hdr :=
  let zn := Z.of_nat n in
  let zm := Z.of_nat m in
  let o1 := SIZEOF_HDR in
  let o2 := o1 + zn * SIZEOF_SVC in
  let o3 := o2 + (zn + 1) * 4 in
  let o4 := o3 + zm * 4 in
  let o5 := o4 + zn * SIZEOF_POL in
  NgHdr NG_MAGIC NG_VERSION 0 (u32 (o5 + blob)) zn (Z.of_nat nroots) zm (u32 blob)
    (u32 o1) (u32 o2) (u32 o3) (u32 o5) (u32 o4) 0 hash.

Definition with_crc (c : Z) (h : ng_hdr) : ng_hdr :=
  NgHdr (magic h) (version h) c (total_len h) (n_svc h) (n_roots h) (n_edges h) (blob_len h)
    (off_svc h) (off_rdep_off h) (off_rdep_idx h) (off_blob h) (off_pol h) (reserved h) (srcs_hash h).

Definition write_image (mem : bool) (addr : Z) (srcs : list src) (g : lgraph) (o : ordered) (hash : Z)
    : built (bytes * nat) :=
  let n := length srcs in
  let es := o_edges o in
  roff ← row_offsets n es;
  let ridx := (fun e => e.2) <$> es in
  desc ← descendants n roff ridx;
  em ← each (emit_service srcs g (o_order o) roff desc) (Emitted [] [] [] 0) (seq 0 n);
  let body := concat (enc_svc <$> e_svc em) ++ enc_words roff ++ enc_words ridx ++
              concat (enc_pol <$> e_pol em) ++ e_blob em in
  let h := lay_header n (length es) (o_nroots o) (Z.of_nat (length (e_blob em))) hash in
  let img := enc_hdr (with_crc (ng_image_crc32c (enc_hdr h ++ body)) h) ++ body in
  match ng_verify mem addr img with
  | VOk _ => mret (img, e_vague em)
  | VBad why => Die (FailedVerification why)
  | VFault => OutOfBounds
  | VDiverge => Unfinished
  end.

(** What [cmd_init] does between reading the services and writing the file. *)
Definition build_image (mem : bool) (addr : Z) (srcs : list src) (hash : Z) : built (bytes * nat) :=
  '(es, g) ← link_graph srcs;
  o ← order_graph es g;
  write_image mem addr srcs g o hash.
