(* ===== verification/Layout.v ===== *)
(** * Bytes at a place of the image

    Reading back what the writer of the image has laid down: the encodings of
    ctl/image.c and the accessors of ngraph.h are inverse to each other, for
    words, records, tables of records and strings. *)

From stdpp Require Import sorting.
From S2P Require Import Prelude Ngraph Verify Build Link Visit Desc.

(** * Counting forward edges

    Bounds on the edges of a graph whose nodes are numbered in start order, and
    what renumbering the nodes keeps. *)

Section Arcs.
Context (n : nat) (es : list arc).
Context (Hfwd : Forall (fun e => (e.1 < e.2 < n)%nat) es) (Hsort : StronglySorted arc_lt es).

Lemma sorted_nodup : NoDup es.
Proof.
  clear Hfwd. induction Hsort as [|e l HS IH HF]; constructor; [|by apply IH]. intros He.
  rewrite Forall_forall in HF. specialize (HF e He). unfold arc_lt in HF. lia.
Qed.

Lemma row_sorted v : StronglySorted lt (out v es).
Proof.
  clear Hfwd. unfold out. induction Hsort as [|e l HS IH HF]; [constructor|]. rewrite filter_cons.
  case_decide as Hd; [|by apply IH]. rewrite fmap_cons. constructor; [by apply IH|].
  rewrite Forall_forall. rewrite Forall_forall in HF. intros w (x & -> & Hx)%list_elem_of_fmap.
  apply list_elem_of_filter in Hx as [Hv Hx]. specialize (HF x Hx). unfold arc_lt in HF. lia.
Qed.

Lemma sorted_lt_nodup (l : list nat) : StronglySorted lt l -> NoDup l.
Proof.
  induction 1 as [|a l HS IH HF]; constructor; [|done]. intros Ha. rewrite Forall_forall in HF. specialize (HF a Ha). lia.
Qed.

Lemma row_nodup v : NoDup (out v es).
Proof. apply sorted_lt_nodup, row_sorted. Qed.

Lemma n_at_le v : (v < n)%nat -> (n_at v es <= n - 1 - v)%nat.
Proof.
  intros Hv. rewrite <- length_out. assert (out v es ⊆+ seq (S v) (n - 1 - v)) as Hs%submseteq_length; [|by rewrite length_seq in Hs].
  apply NoDup_submseteq; [apply row_nodup|]. intros w Hw%elem_of_out. rewrite Forall_forall in Hfwd.
  specialize (Hfwd _ Hw). simpl in Hfwd. apply elem_of_seq. lia.
Qed.

(** A graph of [n] nodes has room for [n (n - 1) / 2] edges. *)
Lemma arcs_le : 2 * Z.of_nat (length es) <= Z.of_nat n * (Z.of_nat n - 1).
Proof.
  assert (forall k, (k <= n)%nat -> 2 * Z.of_nat (n_before k es) <= Z.of_nat k * (2 * Z.of_nat n - 1 - Z.of_nat k)) as Hk.
  { induction k as [|k IH]; intros Hk; [rewrite n_before_none by lia; simpl; lia|]. rewrite n_before_S.
    pose proof (n_at_le k ltac:(lia)). specialize (IH ltac:(lia)). nia. }
  assert (n_before n es = length es) as E.
  { unfold n_before. f_equal. apply filter_all. intros e He. rewrite Forall_forall in Hfwd. specialize (Hfwd e He). lia. }
  specialize (Hk n ltac:(lia)). rewrite E in Hk. nia.
Qed.

(** The prerequisites of a node come before it. *)
Lemma n_into_lt v : (v < n)%nat -> (n_into v es <= v)%nat.
Proof.
  intros Hv. unfold n_into. rewrite <- (length_fmap fst).
  assert ((filter (fun e => e.2 = v) es).*1 ⊆+ seq 0 v) as Hs%submseteq_length; [|by rewrite length_seq in Hs].
  apply NoDup_submseteq.
  - apply NoDup_fmap_2_strong; [|apply NoDup_filter, sorted_nodup].
    intros [a b] [c d] [H1 _]%list_elem_of_filter [H2 _]%list_elem_of_filter. simpl in *. intros ->. by subst.
  - intros a ([x y] & -> & [H1 H2]%list_elem_of_filter)%list_elem_of_fmap. simpl in *. rewrite Forall_forall in Hfwd.
    specialize (Hfwd _ H2). simpl in Hfwd. apply elem_of_seq. lia.
Qed.
End Arcs.

(** Renumbering the nodes keeps the number of prerequisites. *)
Lemma n_into_renumber (order : list nat) (es es' : list arc) i x :
  NoDup order -> NoDup es -> NoDup es' -> order !! i = Some x ->
  (forall e, e ∈ es -> e.1 ∈ order) ->
  (forall i j, (i, j) ∈ es' <-> exists a b, order !! i = Some a /\ order !! j = Some b /\ (a, b) ∈ es) ->
  n_into i es' = n_into x es.
Proof.
  intros HO HN HN' Hi Hin HE. unfold n_into. set (f := fun e : arc => (order !!! e.1, order !!! e.2)).
  rewrite <- (length_fmap f). apply Permutation_length, NoDup_Permutation.
  - apply NoDup_fmap_2_strong; [|by apply NoDup_filter].
    intros [a b] [c d] [H1 H2]%list_elem_of_filter [H3 H4]%list_elem_of_filter. unfold f. simpl in *. subst b d.
    apply HE in H2 as (a1 & ? & Ha & _), H4 as (c1 & ? & Hc & _).
    rewrite (list_lookup_total_correct _ _ _ Ha), (list_lookup_total_correct _ _ _ Hc). intros [= ->].
    by rewrite (NoDup_lookup _ _ _ _ HO Ha Hc).
  - by apply NoDup_filter.
  - intros [a b]. rewrite list_elem_of_fmap, list_elem_of_filter. split.
    + intros ([k j] & E & [H1 H2]%list_elem_of_filter). simpl in H1. subst j. unfold f in E. simpl in E.
      apply HE in H2 as (a1 & b1 & Ha & Hb & He). assert (b1 = x) as -> by congruence.
      rewrite (list_lookup_total_correct _ _ _ Ha), (list_lookup_total_correct _ _ _ Hi) in E. by injection E as -> ->.
    + intros [Hb He]. simpl in Hb. subst b. destruct (proj1 (list_elem_of_lookup _ _) (Hin _ He)) as [k Hk]. simpl in Hk.
      exists (k, i). unfold f. simpl. rewrite (list_lookup_total_correct _ _ _ Hk), (list_lookup_total_correct _ _ _ Hi).
      split; [done|]. apply list_elem_of_filter. split; [done|]. apply HE. eauto.
Qed.

(** The bytes [l] are at offset [off]. *)
Definition holds (img : bytes) (off : Z) (l : bytes) : Prop :=
  exists pre post, img = pre ++ l ++ post /\ Z.of_nat (length pre) = off.

Lemma holds_app img off l1 l2 : holds img off (l1 ++ l2) ->
  holds img off l1 /\ holds img (off + Z.of_nat (length l1)) l2.
Proof.
  intros (pre & post & -> & <-). split.
  - exists pre, (l2 ++ post). by rewrite <- app_assoc.
  - exists (pre ++ l1), post. rewrite length_app. split; [by rewrite <- !app_assoc|lia].
Qed.

Lemma holds_l img off l1 l2 : holds img off (l1 ++ l2) -> holds img off l1.
Proof. by intros [? _]%holds_app. Qed.

Lemma holds_r img off l1 l2 : holds img off (l1 ++ l2) -> holds img (off + Z.of_nat (length l1)) l2.
Proof. by intros [_ ?]%holds_app. Qed.

(** A place within what is held. *)
Lemma holds_in img off l k l' : holds img off l -> holds l k l' -> holds img (off + k) l'.
Proof.
  intros (pre & post & -> & <-) (pre' & post' & -> & <-). exists (pre ++ pre'), (post' ++ post).
  rewrite length_app, <- !app_assoc. split; [done|lia].
Qed.

Lemma holds_all l : holds l 0 l.
Proof. exists [], []. by rewrite app_nil_r. Qed.

Lemma holds_grow img x off l : holds img off l -> holds (img ++ x) off l.
Proof. intros (pre & post & -> & <-). exists pre, (post ++ x). by rewrite <- !app_assoc. Qed.

Lemma holds_end img l : holds (img ++ l) (Z.of_nat (length img)) l.
Proof. exists img, []. by rewrite app_nil_r. Qed.

Lemma holds_bound img off l : holds img off l -> 0 <= off /\ off + Z.of_nat (length l) <= Z.of_nat (length img).
Proof. intros (pre & post & -> & <-). rewrite !length_app. lia. Qed.

Lemma holds_lookup img off l k x : holds img off l -> l !! k = Some x -> img !! (Z.to_nat off + k)%nat = Some x.
Proof.
  intros (pre & post & -> & <-) Hk. rewrite Nat2Z.id, lookup_app_r by lia.
  replace (length pre + k - length pre)%nat with k by lia. by apply lookup_app_l_Some.
Qed.

Lemma holds_drop img off l : holds img off l -> exists post, drop (Z.to_nat off) img = l ++ post.
Proof. intros (pre & post & -> & <-). exists post. by rewrite Nat2Z.id, drop_app_length. Qed.

(** ** Words *)

Lemma length_le16 x : length (le16 x) = 2%nat.
Proof. done. Qed.

Lemma length_le32 x : length (le32 x) = 4%nat.
Proof. done. Qed.

Lemma length_le64 x : length (le64 x) = 8%nat.
Proof. done. Qed.

Lemma rd8_holds img off b : holds img off [b] -> rd8 img off = VOk b.
Proof.
  intros H. unfold rd8. pose proof (holds_bound _ _ _ H) as [H0 _]. destruct (Z.ltb_spec off 0); [lia|].
  pose proof (holds_lookup _ _ _ 0 b H eq_refl) as Hl. rewrite Nat.add_0_r in Hl. by rewrite Hl.
Qed.

Lemma rd16_holds img off x : holds img off (le16 x) -> 0 <= x < 65536 -> rd16 img off = VOk x.
Proof.
  intros H Hx. change (le16 x) with ([x mod 256] ++ [(x / 256) mod 256]) in H. apply holds_app in H as [H1 H2].
  change (Z.of_nat (length [x mod 256])) with 1 in H2. unfold rd16. rewrite (rd8_holds _ _ _ H1). simpl. rewrite (rd8_holds _ _ _ H2). simpl. f_equal.
  rewrite (Z.mod_small (x / 256)) by (split; [apply Z.div_pos|apply Z.div_lt_upper_bound]; lia).
  pose proof (Z.div_mod x 256). lia.
Qed.

Lemma le16_mod x : le16 (x mod 65536) = le16 x.
Proof.
  unfold le16. f_equal; [|f_equal].
  - by rewrite <- (Z.mod_mod_divide x 65536 256) by (by exists 256).
  - change 65536 with (256 * 256). rewrite Z.rem_mul_r, Z.add_comm, Z.mul_comm, Z.div_add_l by lia.
    rewrite (Z.div_small (x mod 256)) by (apply Z.mod_pos_bound; lia). by rewrite Z.add_0_r, Z.mod_mod by lia.
Qed.

Lemma rd32_holds img off x : holds img off (le32 x) -> 0 <= x < 4294967296 -> rd32 img off = VOk x.
Proof.
  intros [H1 H2]%holds_app Hx. change (Z.of_nat (length (le16 x))) with 2 in H2. unfold rd32. rewrite <- le16_mod in H1.
  rewrite (rd16_holds _ _ _ H1) by (apply Z.mod_pos_bound; lia). simpl.
  rewrite (rd16_holds _ _ _ H2) by (split; [apply Z.div_pos|apply Z.div_lt_upper_bound]; lia). simpl. f_equal.
  pose proof (Z.div_mod x 65536). lia.
Qed.

Lemma le32_mod x : le32 (x mod 4294967296) = le32 x.
Proof.
  unfold le32. f_equal.
  - rewrite <- (le16_mod x), <- (le16_mod (x mod 4294967296)). f_equal. symmetry.
    by rewrite <- (Z.mod_mod_divide x 4294967296 65536) by (by exists 65536).
  - rewrite <- (le16_mod (x / 65536)). f_equal. change 4294967296 with (65536 * 65536).
    rewrite Z.rem_mul_r, Z.add_comm, Z.mul_comm, Z.div_add_l by lia.
    rewrite (Z.div_small (x mod 65536)) by (apply Z.mod_pos_bound; lia). by rewrite Z.add_0_r.
Qed.

Lemma rd64_holds img off x : holds img off (le64 x) -> 0 <= x < 18446744073709551616 -> rd64 img off = VOk x.
Proof.
  intros [H1 H2]%holds_app Hx. change (Z.of_nat (length (le32 x))) with 4 in H2. unfold rd64. rewrite <- le32_mod in H1.
  rewrite (rd32_holds _ _ _ H1) by (apply Z.mod_pos_bound; lia). simpl.
  rewrite (rd32_holds _ _ _ H2) by (split; [apply Z.div_pos|apply Z.div_lt_upper_bound]; lia). simpl. f_equal.
  pose proof (Z.div_mod x 4294967296). lia.
Qed.

Lemma le16_bytes x : Forall is_byte (le16 x).
Proof. unfold le16. repeat constructor; apply Z.mod_pos_bound; lia. Qed.

Lemma le32_bytes x : Forall is_byte (le32 x).
Proof. apply Forall_app; split; apply le16_bytes. Qed.

Lemma le64_bytes x : Forall is_byte (le64 x).
Proof. apply Forall_app; split; apply le32_bytes. Qed.

(** ** Records *)

(** Splits a held record into its fields, each at a constant distance. *)
Ltac place H :=
  match type of H with
  | holds _ (_ + Z.of_nat (length ?l)) _ =>
      let v := eval cbv in (Z.of_nat (length l)) in change (Z.of_nat (length l)) with v in H
  end;
  try match type of H with
  | holds _ (?p + ?a + ?b) _ => rewrite <- (Z.add_assoc p a b) in H;
      let v := eval cbv in (a + b) in change (a + b) with v in H
  end.

Ltac fields H :=
  repeat match type of H with
  | holds _ _ (_ ++ _) => let H' := fresh "F" in apply holds_app in H as [H' H]; place H
  end.

Record svc_range (s : ng_svc) : Prop := SvcRange {
  sr_unmet : 0 <= unmet s < 65536;
  sr_type : 0 <= type s < 256;
  sr_flags : 0 <= flags s < 256;
  sr_desc : 0 <= n_desc s < 65536;
  sr_notify : 0 <= notify_fd s < 65536;
  sr_script : 0 <= script_off s < 4294967296;
  sr_name : 0 <= name_off s < 4294967296;
}.

Record pol_range (p : ng_pol) : Prop := PolRange {
  pr_start : 0 <= start_ms p < 4294967296;
  pr_stop : 0 <= stop_ms p < 4294967296;
  pr_retry : 0 <= retry_ms p < 65536;
  pr_tries : 0 <= start_tries p < 256;
  pr_pflags : 0 <= pflags p < 256;
  pr_exec : 0 <= exec_off p < 4294967296;
}.

Lemma length_enc_svc s : length (enc_svc s) = 16%nat.
Proof. done. Qed.

Lemma length_enc_pol p : length (enc_pol p) = 16%nat.
Proof. done. Qed.

Lemma length_enc_hdr h : length (enc_hdr h) = 64%nat.
Proof. done. Qed.

Lemma svcs_holds img h i s : holds img (off_svc h + SIZEOF_SVC * i) (enc_svc s) -> svc_range s -> ng_svcs img h i = VOk s.
Proof.
  intros H [R1 R2 R3 R4 R5 R6 R7]. unfold ng_svcs. cbv zeta. set (p := off_svc h + SIZEOF_SVC * i) in *.
  unfold enc_svc in H. fields H.
  rewrite (rd16_holds _ _ _ F) by done. cbn [vbind]. rewrite (rd8_holds _ _ _ F0). cbn [vbind]. rewrite (rd8_holds _ _ _ F1). cbn [vbind].
  rewrite (rd16_holds _ _ _ F2) by done. cbn [vbind]. rewrite (rd16_holds _ _ _ F3) by done. cbn [vbind].
  rewrite (rd32_holds _ _ _ F4) by done. cbn [vbind]. rewrite (rd32_holds _ _ _ H) by done. cbn [vbind].
  rewrite !Z.mod_small by done. by destruct s.
Qed.

Lemma pol_holds img h i p : holds img (off_pol h + SIZEOF_POL * i) (enc_pol p) -> pol_range p -> ng_pol_at img h i = VOk p.
Proof.
  intros H [R1 R2 R3 R4 R5 R6]. unfold ng_pol_at. cbv zeta. set (q := off_pol h + SIZEOF_POL * i) in *.
  unfold enc_pol in H. fields H.
  rewrite (rd32_holds _ _ _ F) by done. cbn [vbind]. rewrite (rd32_holds _ _ _ F0) by done. cbn [vbind].
  rewrite (rd16_holds _ _ _ F1) by done. cbn [vbind]. rewrite (rd8_holds _ _ _ F2). cbn [vbind]. rewrite (rd8_holds _ _ _ F3). cbn [vbind].
  rewrite (rd32_holds _ _ _ H) by done. cbn [vbind]. rewrite !Z.mod_small by done. by destruct p.
Qed.

Definition word (x : Z) : Prop := 0 <= x < 4294967296.

Record hdr_range (h : ng_hdr) : Prop := HdrRange {
  hr_words : Forall word [magic h; version h; hdr_crc32 h; total_len h; n_svc h; n_roots h; n_edges h;
    blob_len h; off_svc h; off_rdep_off h; off_rdep_idx h; off_blob h; off_pol h; reserved h];
  hr_hash : 0 <= srcs_hash h < 18446744073709551616;
}.

Lemma hdr_holds img h : holds img 0 (enc_hdr h) -> hdr_range h -> rd_hdr img = VOk h.
Proof.
  intros H [HW Hh]. unfold enc_hdr in H. fields H. rewrite ?Z.add_0_l in *.
  repeat match type of HW with Forall _ (_ :: _) => let R := fresh "R" in apply Forall_cons in HW as [R HW] end.
  unfold rd_hdr.
  repeat match goal with
  | F : holds img ?o (le32 ?x) |- context [rd32 img ?o] => rewrite (rd32_holds img o x F) by done; cbn [vbind]
  end.
  rewrite (rd64_holds _ _ _ H) by done. cbn [vbind]. by destruct h.
Qed.

(** ** Tables *)

Lemma concat_holds {A} (enc : A -> bytes) (w : nat) l i x : (forall y, length (enc y) = w) -> l !! i = Some x ->
  holds (concat (enc <$> l)) (Z.of_nat w * Z.of_nat i) (enc x).
Proof.
  intros Hw. revert i. induction l as [|y l IH]; intros i Hi; [done|]. destruct i as [|i]; simpl in Hi.
  - injection Hi as ->. exists [], (concat (enc <$> l)). split; [done|]. simpl. lia.
  - destruct (IH i Hi) as (pre & post & E & Hl). exists (enc y ++ pre), post. split.
    + rewrite fmap_cons. cbn [concat]. by rewrite E, <- app_assoc.
    + rewrite length_app, Hw. lia.
Qed.

Lemma length_concat {A} (enc : A -> bytes) (w : nat) l : (forall y, length (enc y) = w) ->
  length (concat (enc <$> l)) = (w * length l)%nat.
Proof.
  intros Hw. induction l as [|y l IH]; [simpl; lia|]. rewrite fmap_cons. cbn [concat length]. rewrite length_app, Hw, IH. lia.
Qed.

Lemma concat_bytes {A} (enc : A -> bytes) l : (forall y, Forall is_byte (enc y)) -> Forall is_byte (concat (enc <$> l)).
Proof. intros Hb. induction l as [|y l IH]; [constructor|]. rewrite fmap_cons. cbn [concat]. by apply Forall_app. Qed.

Lemma enc_svc_bytes s : Forall is_byte (enc_svc s).
Proof. unfold enc_svc. rewrite !Forall_app, !Forall_singleton. split_ands; try apply le16_bytes; try apply le32_bytes; apply Z.mod_pos_bound; lia. Qed.

Lemma enc_pol_bytes s : Forall is_byte (enc_pol s).
Proof. unfold enc_pol. rewrite !Forall_app, !Forall_singleton. split_ands; try apply le16_bytes; try apply le32_bytes; apply Z.mod_pos_bound; lia. Qed.

Lemma enc_hdr_bytes h : Forall is_byte (enc_hdr h).
Proof. unfold enc_hdr. rewrite !Forall_app. split_ands; try apply le32_bytes; apply le64_bytes. Qed.

(** ** Strings *)

(** A C string has no NUL inside. *)
Definition text (s : bytes) : Prop := Forall (fun c => 0 < c < 256) s.

Lemma cstr_of_app s post : text s -> cstr_of (s ++ 0 :: post) = VOk s.
Proof.
  induction 1 as [|c s Hc Hs IH]; simpl; [done|]. destruct (Z.eqb_spec c 0); [lia|]. by rewrite IH.
Qed.

Lemma cstr_holds img p s : holds img p (s ++ [0]) -> text s -> cstr img p = VOk s.
Proof.
  intros H Hs. unfold cstr. pose proof (holds_bound _ _ _ H) as [H0 _]. destruct (Z.ltb_spec p 0); [lia|].
  destruct (holds_drop _ _ _ H) as (post & ->). rewrite <- app_assoc. simpl. by apply cstr_of_app.
Qed.

Lemma strlen_holds img p s : holds img p (s ++ [0]) -> text s -> strlen img p = VOk (Z.of_nat (length s)).
Proof. intros H Hs. unfold strlen. by rewrite (cstr_holds _ _ s). Qed.

Lemma mem_chr_app s post n : (length s < n)%nat -> mem_chr (s ++ 0 :: post) 0 n = VOk true.
Proof.
  revert n. induction s as [|c s IH]; intros [|n] Hn; simpl in *; try lia; [done|].
  destruct (c =? 0); [done|]. apply IH. lia.
Qed.

Lemma str_fits_holds img blob blob_len off s cap : holds img (blob + off) (s ++ [0]) ->
  0 <= off -> off + Z.of_nat (length s) < blob_len -> Z.of_nat (length s) <= cap ->
  str_fits img blob blob_len off cap = VOk true.
Proof.
  intros H H0 Hl Hc. unfold str_fits, memchr. destruct (Z.leb_spec blob_len off); [lia|].
  pose proof (holds_bound _ _ _ H) as [Hb _]. destruct (Z.ltb_spec (blob + off) 0); [lia|].
  destruct (holds_drop _ _ _ H) as (post & ->). rewrite <- app_assoc. simpl. apply mem_chr_app.
  destruct (Z.ltb_spec (cap + 1) (blob_len - off)); lia.
Qed.

Lemma fits_or_holds img blob blob_len off s cap why : holds img (blob + off) (s ++ [0]) ->
  0 <= off -> off + Z.of_nat (length s) < blob_len -> Z.of_nat (length s) <= cap ->
  fits_or img blob blob_len off cap why = VOk tt.
Proof. intros. unfold fits_or. by rewrite (str_fits_holds _ _ _ _ s). Qed.

(** ** Lists of strings *)

Definition strings (l : list bytes) : bytes := concat ((fun s => s ++ [0]) <$> l).

Lemma strings_cons s l : strings (s :: l) = s ++ [0] ++ strings l.
Proof. unfold strings. rewrite fmap_cons. cbn [concat]. by rewrite <- app_assoc. Qed.

Lemma blob_add_all_strings b l : blob_add_all b l = b ++ strings l.
Proof.
  revert b. induction l as [|s l IH]; intros b; [by rewrite app_nil_r|].
  unfold blob_add_all in *. simpl. rewrite IH, strings_cons, <- !app_assoc. done.
Qed.

(** An argument the verifier lets through. *)
Definition arg_ok (s : bytes) : Prop := text s /\ s <> [] /\ Z.of_nat (length s) <= NG_MAX_EXEC_ARG.

(** The first byte of a list that ends in an empty string. *)
Lemma args_first img p s x : holds img p (s ++ x) -> s <> [] -> text s ->
  exists c, rd8 img p = VOk c /\ c <> 0 /\ head s = Some c.
Proof.
  intros H Hne Ht. destruct s as [|c s]; [done|]. exists c. apply (holds_app _ _ [c]) in H as [H _].
  rewrite (rd8_holds _ _ _ H). split; [done|]. split; [|done]. inversion Ht; subst. lia.
Qed.

Lemma exec_list_holds img blob blob_len l off args fuel : Forall arg_ok l ->
  holds img (blob + off) (strings l ++ [0]) -> 0 <= off -> off + Z.of_nat (length (strings l)) < blob_len ->
  0 <= args -> args + Z.of_nat (length l) <= NG_MAX_EXEC_ARGS -> (length l <= fuel)%nat ->
  exec_list fuel img blob blob_len off args =
    VOk (off + Z.of_nat (length (strings l)), args + Z.of_nat (length l)).
Proof.
  intros HF. revert off args fuel. induction HF as [|s l (Ht & Hne & Hc) HF IH]; intros off args fuel H H0 Hb Ha Hn Hf.
  - simpl in H. assert (exec_list fuel img blob blob_len off args = VOk (off, args)) as ->.
    { destruct fuel; cbn [exec_list]; by rewrite (rd8_holds _ _ 0 H). }
    simpl. by rewrite !Z.add_0_r.
  - rewrite strings_cons in *. rewrite <- !app_assoc in H. rewrite !length_app in *. cbn [length] in *.
    destruct fuel as [|fuel]; [lia|]. cbn [exec_list].
    destruct (args_first _ _ _ _ H Hne Ht) as (c & -> & Hc0 & _). simpl vbind.
    destruct (Z.eqb_spec c 0); [done|]. destruct (Z.ltb_spec NG_MAX_EXEC_ARGS (args + 1)); [lia|].
    cbn [bad_if vbind]. rewrite (app_assoc s [0]) in H. pose proof (holds_l _ _ _ _ H) as Hs.
    rewrite (fits_or_holds _ _ _ _ s) by (done || lia). cbn [vbind]. rewrite (strlen_holds _ _ s) by done. cbn [vbind].
    destruct (Z.leb_spec blob_len (off + Z.of_nat (length s) + 1)); [lia|]. cbn [bad_if vbind].
    apply holds_r in H. rewrite length_app in H. cbn [length] in H. rewrite IH.
    + f_equal. f_equal; lia.
    + by replace (blob + (off + Z.of_nat (length s) + 1)) with (blob + off + Z.of_nat (length s + 1)) by lia.
    + lia.
    + lia.
    + lia.
    + lia.
    + lia.
Qed.

Lemma exec_problem_holds img blob blob_len pre suf off p0 rest : pre = p0 :: rest -> head p0 = Some 47 ->
  Z.of_nat (length p0) <= NG_MAX_INTERP -> Forall arg_ok pre -> Forall arg_ok suf ->
  Z.of_nat (length pre) + Z.of_nat (length suf) <= NG_MAX_EXEC_ARGS ->
  holds img (blob + off) (strings pre ++ [0] ++ strings suf ++ [0]) -> 0 <= off ->
  off + Z.of_nat (length (strings pre ++ [0] ++ strings suf ++ [0])) <= blob_len ->
  exec_problem img blob blob_len off = VOk tt.
Proof.
  intros Epre Hsl Hint Hpre Hsuf Hn H H0 Hb. rewrite !length_app in Hb. cbn [length] in Hb.
  pose proof Hpre as Hp0. rewrite Epre in Hp0. apply Forall_cons in Hp0 as [(Ht & Hne & Hc) _].
  assert (holds img (blob + off) (p0 ++ [0])) as Hs.
  { rewrite Epre, strings_cons in H. rewrite <- !app_assoc, (app_assoc p0 [0]) in H. by apply holds_l in H. }
  assert (Z.of_nat (length p0) + 1 <= Z.of_nat (length (strings pre))) as Hlen.
  { rewrite Epre, strings_cons, !length_app. cbn [length]. lia. }
  unfold exec_problem. destruct (Z.leb_spec blob_len off); [lia|]. cbn [bad_if vbind].
  destruct (args_first _ _ _ _ Hs Hne Ht) as (c & -> & Hc0 & Hhd). cbn [vbind].
  assert (c = 47) as -> by congruence. cbn [bad_if vbind Z.eqb negb Pos.eqb].
  rewrite (fits_or_holds _ _ _ _ p0) by (done || lia). cbn [vbind]. unfold NG_MAX_EXEC_ARGS in *.
  rewrite (app_assoc (strings pre) [0]) in H. apply holds_app in H as [K1 K2].
  rewrite (exec_list_holds _ _ _ pre) by (done || lia || (unfold exec_fuel, NG_MAX_EXEC_ARGS; lia)). cbn [vbind].
  destruct (Z.leb_spec blob_len (off + Z.of_nat (length (strings pre)) + 1)); [lia|]. cbn [bad_if vbind].
  rewrite length_app in K2. cbn [length] in K2.
  rewrite (exec_list_holds _ _ _ suf); [done|done| |lia|lia|lia|unfold NG_MAX_EXEC_ARGS; lia|unfold exec_fuel; lia].
  by replace (blob + (off + Z.of_nat (length (strings pre)) + 1)) with (blob + off + Z.of_nat (length (strings pre) + 1)) by lia.
Qed.

Lemma direct_args_holds img blob blob_len l s off args fuel : text s -> Forall arg_ok l ->
  holds img (blob + off) (s ++ [0] ++ strings l ++ [0]) -> 0 <= off ->
  off + Z.of_nat (length s) + 1 + Z.of_nat (length (strings l)) < blob_len ->
  0 <= args -> args + Z.of_nat (length l) <= NG_MAX_EXEC_ARGS -> (length l < fuel)%nat ->
  direct_args fuel img blob blob_len off args = VOk tt.
Proof.
  intros Hs HF. revert s Hs off args fuel. induction HF as [|t l (Ht & Hne & Hc) HF IH]; intros s Hs off args fuel H H0 Hb Ha Hn Hf.
  all: destruct fuel as [|fuel]; [simpl in Hf; lia|]; cbn [direct_args]; rewrite (app_assoc s [0]) in H; apply holds_app in H as [K1 K2].
  all: rewrite (strlen_holds _ _ s) by done; cbn [vbind]; destruct (Z.leb_spec blob_len (off + Z.of_nat (length s) + 1)); [lia|]; cbn [bad_if vbind].
  all: rewrite length_app in K2; cbn [length] in K2.
  all: replace (blob + off + Z.of_nat (length s + 1)) with (blob + (off + Z.of_nat (length s) + 1)) in K2 by lia.
  - by rewrite (rd8_holds _ _ 0 K2).
  - rewrite strings_cons in *. rewrite <- !app_assoc in K2. rewrite !length_app in *. cbn [length] in *.
    destruct (args_first _ _ _ _ K2 Hne Ht) as (c & -> & Hc0 & _). cbn [vbind]. destruct (Z.eqb_spec c 0); [done|].
    destruct (Z.ltb_spec NG_MAX_EXEC_ARGS (args + 1)); [lia|]. cbn [bad_if vbind].
    rewrite (fits_or_holds _ _ _ _ t); [cbn [vbind]; apply (IH t Ht); [done|lia..]| |lia|lia|done].
    rewrite (app_assoc t [0]) in K2. by apply holds_l in K2.
Qed.

(** The command of a direct argv. *)
Definition cmd_ok (c : bytes) : Prop := text c /\ c <> [] /\ Z.of_nat (length c) <= NG_MAX_INTERP /\
  (head c = Some 47 \/ 47 ∉ c).

Lemma direct_problem_holds img blob blob_len c rest off : cmd_ok c -> Forall arg_ok rest ->
  1 + Z.of_nat (length rest) <= NG_MAX_EXEC_ARGS -> holds img (blob + off) (strings (c :: rest) ++ [0]) -> 0 <= off ->
  off + Z.of_nat (length (strings (c :: rest) ++ [0])) <= blob_len ->
  direct_problem img blob blob_len off = VOk tt.
Proof.
  intros (Ht & Hne & Hlc & Hsl) Hr Hn H H0 Hb. rewrite strings_cons in *. rewrite <- !app_assoc in *. rewrite !length_app in Hb. cbn [length] in Hb.
  unfold direct_problem. destruct (Z.leb_spec blob_len off); [lia|]. cbn [bad_if vbind].
  destruct (args_first _ _ _ _ H Hne Ht) as (x & -> & Hx0 & Hhd). cbn [vbind]. destruct (Z.eqb_spec x 0); [done|].
  cbn [bad_if vbind]. assert (holds img (blob + off) (c ++ [0])) as Hs by (rewrite (app_assoc c [0]) in H; by apply holds_l in H).
  rewrite (fits_or_holds _ _ _ _ c) by (done || lia). cbn [vbind]. rewrite (cstr_holds _ _ c) by done. cbn [vbind].
  assert (negb (x =? 47) && existsb (Z.eqb 47) c = false) as ->.
  { destruct Hsl as [Hsl|Hsl]; [assert (x = 47) as -> by congruence; done|]. apply andb_false_iff. right.
    apply not_true_is_false. intros (y & Hy & E)%existsb_exists. apply Z.eqb_eq in E as <-. by apply Hsl, list_elem_of_In. }
  cbn [bad_if vbind]. unfold NG_MAX_EXEC_ARGS in *.
  apply (direct_args_holds _ _ _ rest c); try done; try lia; unfold exec_fuel, NG_MAX_EXEC_ARGS; lia.
Qed.
