(* ===== verification/Emit.v ===== *)
(** * The records of the image (the loop over the services in ctl/image.c)

    What the loop of [write_image] leaves for each service, when the services
    are as the parser promises them: records within their ranges whose offsets
    point at the strings of the service, in a string table of bounded size. *)

From S2P Require Import Prelude Ngraph Verify Build Link Visit Schedule Desc Layout.

(** What parse_src and the language parsers establish of a service. *)
Record src_ok (s : src) : Prop := SrcOk {
  so_name : ng_name_problem (s_name s) = None;
  so_text : text (s_name s);
  so_script : match s_script s with
    | Some sc => text sc /\ Z.of_nat (length sc) <= NG_MAX_SCRIPT /\ s_type s <> NG_TYPE_TARGET
    | None => s_type s = NG_TYPE_TARGET
    end;
  so_type : NG_TYPE_ONESHOT <= s_type s <= NG_TYPE_TARGET;
  so_onfail : NG_ONFAIL_WARN <= s_onfail s <= NG_ONFAIL_SHELL;
  so_restart : s_restart s = 0 \/ s_type s = NG_TYPE_DAEMON;
  so_notify : s_notify s = 0 \/ (NG_NOTIFY_MIN <= s_notify s <= NG_NOTIFY_MAX /\ s_type s = NG_TYPE_DAEMON);
  so_start : 0 <= s_start_ms s <= NG_MAX_MS;
  so_stop : 0 <= s_stop_ms s <= NG_MAX_MS;
  so_retry : 0 <= s_retry_ms s < 65536;
  so_tries : 0 <= s_start_tries s <= NG_MAX_TRIES;
  so_pflags : s_pflags s = 0 \/ s_pflags s = NG_PF_ORDER_ONLY;
  so_pre : match s_exec_pre s with
    | [] => True
    | p0 :: pre => s_type s <> NG_TYPE_TARGET /\ head p0 = Some 47 /\ Z.of_nat (length p0) <= NG_MAX_INTERP /\
        Forall arg_ok (p0 :: pre) /\ Forall arg_ok (s_exec_suf s) /\
        Z.of_nat (length (p0 :: pre)) + Z.of_nat (length (s_exec_suf s)) <= NG_MAX_EXEC_ARGS
    end;
  so_direct : s_exec_pre s = [] -> match s_direct s with
    | [] => True
    | c :: rest => s_type s <> NG_TYPE_TARGET /\ cmd_ok c /\ Forall arg_ok rest /\ 1 + Z.of_nat (length rest) <= NG_MAX_EXEC_ARGS
    end;
}.

(** The argv of [s] is in the table at [at_]. *)
Definition exec_built (blob : bytes) (s : src) (x at_ : Z) : Prop :=
  match s_exec_pre s with
  | p0 :: pre => x = NG_FLAG_INTERP /\ holds blob at_ (strings (p0 :: pre) ++ [0] ++ strings (s_exec_suf s) ++ [0])
  | [] =>
      match s_direct s with
      | c :: rest => x = NG_FLAG_DIRECT /\ holds blob at_ (strings (c :: rest) ++ [0])
      | [] => x = 0 /\ at_ = NG_NO_EXEC
      end
  end.

(** The records of [s], which waits for [ind] services and has [nd] descendants. *)
Record svc_built (blob : bytes) (s : src) (ind nd : nat) (sv : ng_svc) (pl : ng_pol) : Prop := SvcBuilt {
  sb_unmet : unmet sv = Z.of_nat ind;
  sb_type : type sv = s_type s;
  sb_desc : n_desc sv = Z.of_nat nd;
  sb_notify : notify_fd sv = s_notify s;
  sb_flags : exists pol x, flags sv = Z.lor (Z.lor pol (if negb (s_restart s =? 0) then NG_FLAG_RESTART else 0)) x /\
    (pol = NG_ONFAIL_WARN /\ nd = 0%nat \/ pol = NG_ONFAIL_STOP \/ pol = NG_ONFAIL_SHELL) /\
    (s_have_onfail s = true -> pol = s_onfail s) /\ exec_built blob s x (exec_off pl);
  sb_name : holds blob (name_off sv) (s_name s ++ [0]);
  sb_script : match s_script s with
    | Some sc => holds blob (script_off sv) (sc ++ [0])
    | None => script_off sv = NG_NO_SCRIPT
    end;
  sb_pol : start_ms pl = s_start_ms s /\ stop_ms pl = s_stop_ms s /\ retry_ms pl = s_retry_ms s /\
    start_tries pl = s_start_tries s /\ pflags pl = s_pflags s;
}.

Lemma exec_built_grow blob x s f at_ : exec_built blob s f at_ -> exec_built (blob ++ x) s f at_.
Proof.
  unfold exec_built. destruct (s_exec_pre s); [destruct (s_direct s)|]; intros [-> H]; (split; [done|]); try done; by apply holds_grow.
Qed.

Lemma svc_built_grow blob x s ind nd sv pl : svc_built blob s ind nd sv pl -> svc_built (blob ++ x) s ind nd sv pl.
Proof.
  intros [B1 B2 B3 B4 (pol & f & B5 & B6 & B7 & B8) B9 B10 B11]. constructor; try done.
  - exists pol, f. split_ands; try done. by apply exec_built_grow.
  - by apply holds_grow.
  - destruct (s_script s); [|done]. by apply holds_grow.
Qed.

(** ** Sizes *)

(** The most one service adds to the table. *)
Definition per_service : Z := 256 + 131072 + 65554.

Lemma strings_length l : Forall arg_ok l -> Z.of_nat (length (strings l)) <= 4097 * Z.of_nat (length l).
Proof.
  induction 1 as [|s l (_ & _ & Hs) HF IH]; [done|]. rewrite strings_cons, !length_app. cbn [length].
  unfold NG_MAX_EXEC_ARG in Hs. lia.
Qed.

Lemma strings_app_nil l : strings l ++ [0] = strings (l ++ [[]]).
Proof. unfold strings. rewrite fmap_app, concat_app. done. Qed.

Lemma name_length s : src_ok s -> Z.of_nat (length (s_name s)) <= NG_MAX_NAME.
Proof.
  intros Hs. pose proof (so_name _ Hs) as H. unfold ng_name_problem in H. cbv zeta in H.
  destruct (Z.of_nat (length (s_name s)) =? 0); [done|]. destruct (Z.ltb_spec NG_MAX_NAME (Z.of_nat (length (s_name s)))); [done|lia].
Qed.

Lemma text_bytes s : text s -> Forall is_byte s.
Proof. intros H. eapply Forall_impl; [exact H|]. intros c. unfold is_byte. simpl. lia. Qed.

Lemma strings_bytes l : Forall arg_ok l -> Forall is_byte (strings l).
Proof.
  induction 1 as [|s l (Ht & _ & _) HF IH]; [constructor|]. rewrite strings_cons, !Forall_app. split_ands; [by apply text_bytes| |done].
  repeat constructor; lia.
Qed.

Lemma nul_byte : Forall is_byte [0].
Proof. repeat constructor; lia. Qed.

(** What a step adds at the end of the table. *)
Record adds (b b' : bytes) (most : Z) : Prop := Adds {
  ad_more : exists x, b' = b ++ x /\ Z.of_nat (length x) <= most /\ Forall is_byte x;
}.

Lemma adds_trans b1 b2 b3 m1 m2 : adds b1 b2 m1 -> adds b2 b3 m2 -> adds b1 b3 (m1 + m2).
Proof.
  intros [(x & -> & Hx & Bx)] [(y & -> & Hy & By)]. constructor. exists (x ++ y).
  rewrite length_app, <- app_assoc, Forall_app. split_ands; [done|lia|done|done].
Qed.

Lemma adds_grow (P : bytes -> Prop) b b' m : adds b b' m -> P b -> (forall x, P b -> P (b ++ x)) -> P b'.
Proof. intros [(x & -> & _)] H HP. by apply HP. Qed.

Lemma emit_exec_spec s b : src_ok s -> Z.of_nat (length b) < 4294967296 ->
  let '(x, at_, b') := emit_exec s b in exec_built b' s x at_ /\ adds b b' 65554 /\ 0 <= at_ < 4294967296.
Proof.
  intros Hs Hb. pose proof (so_pre _ Hs) as Hpre. pose proof (so_direct _ Hs) as Hdir.
  unfold emit_exec, exec_built, blob_add. cbn [snd]. rewrite u32_small by lia.
  destruct (s_exec_pre s) as [|p0 pre].
  - specialize (Hdir eq_refl). destruct (s_direct s) as [|c rest].
    + split_ands; [done|done| |done|done]. constructor. exists []. rewrite app_nil_r. split_ands; [done|done|constructor].
    + destruct Hdir as (_ & (Ht & _ & Hl & _) & Hr & Hn). rewrite blob_add_all_strings.
      assert ((((b ++ c ++ [0]) ++ strings rest) ++ [] ++ [0]) = b ++ (strings (c :: rest) ++ [0])) as ->
        by (rewrite strings_cons, <- !app_assoc; done).
      split_ands; [done|apply holds_end| |lia|lia]. constructor. eexists. split; [done|].
      pose proof (strings_length rest Hr). rewrite strings_cons, !length_app, !Forall_app. cbn [length].
      unfold NG_MAX_INTERP, NG_MAX_EXEC_ARGS in *.
      split_ands; [lia|by apply text_bytes|apply nul_byte|by apply strings_bytes|apply nul_byte].
  - destruct Hpre as (_ & _ & _ & Hp & Hsf & Hn). rewrite !blob_add_all_strings.
    assert (((((b ++ p0 ++ [0]) ++ strings pre) ++ [] ++ [0]) ++ strings (s_exec_suf s)) ++ [] ++ [0] =
      b ++ (strings (p0 :: pre) ++ [0] ++ strings (s_exec_suf s) ++ [0])) as -> by (rewrite strings_cons, <- !app_assoc; done).
    split_ands; [done|apply holds_end| |lia|lia]. constructor. eexists. split; [done|].
    pose proof (strings_length _ Hp). pose proof (strings_length _ Hsf). rewrite !length_app, !Forall_app. cbn [length] in *.
    unfold NG_MAX_EXEC_ARGS in *.
    split_ands; [lia|by apply strings_bytes|apply nul_byte|by apply strings_bytes|apply nul_byte].
Qed.

(** The table ends in a NUL. *)
Definition closed (b : bytes) : Prop := exists x, b = x ++ [0].

Lemma emit_exec_closed s b : closed b -> let '(_, _, b') := emit_exec s b in closed b'.
Proof.
  intros Hb. unfold emit_exec, blob_add. cbn [snd]. destruct (s_exec_pre s); [destruct (s_direct s); [done|]|]; by eexists.
Qed.

(** The script of a service. *)
Lemma emit_script_spec s b : src_ok s -> Z.of_nat (length b) < 4294967296 -> closed b ->
  let '(at_, b') := match s_script s with Some sc => blob_add b sc | None => (NG_NO_SCRIPT, b) end in
  match s_script s with Some sc => holds b' at_ (sc ++ [0]) | None => at_ = NG_NO_SCRIPT end /\
  adds b b' 131072 /\ 0 <= at_ < 4294967296 /\ closed b'.
Proof.
  intros Hs Hb Hc. pose proof (so_script _ Hs) as Hsc. destruct (s_script s) as [sc|].
  - destruct Hsc as (Ht & Hl & _). unfold NG_MAX_SCRIPT in Hl. unfold blob_add. rewrite u32_small by lia.
    split_ands; [apply holds_end| |lia|lia|exists (b ++ sc); by rewrite app_assoc].
    constructor. eexists. split; [done|]. rewrite length_app, Forall_app. cbn [length]. split_ands; [lia|by apply text_bytes|apply nul_byte].
  - split_ands; [done| |done|done|done]. constructor. exists []. rewrite app_nil_r. split_ands; [done|done|constructor].
Qed.

(** All the strings of a service. *)
Lemma emit_strings s b : src_ok s -> Z.of_nat (length b) + per_service < 4294967296 ->
  let '(name_at, b1) := blob_add b (s_name s) in
  let '(script_at, b2) := match s_script s with Some sc => blob_add b1 sc | None => (NG_NO_SCRIPT, b1) end in
  let '(xflag, exec_at, b3) := emit_exec s b2 in
  (holds b3 name_at (s_name s ++ [0]) /\
   match s_script s with Some sc => holds b3 script_at (sc ++ [0]) | None => script_at = NG_NO_SCRIPT end /\
   exec_built b3 s xflag exec_at) /\
  (word name_at /\ word script_at /\ word exec_at) /\ adds b b3 per_service /\ closed b3.
Proof.
  intros Hs Hb. unfold per_service in *. pose proof (name_length s Hs) as Hl. unfold NG_MAX_NAME in Hl. unfold blob_add at 1.
  rewrite u32_small by lia. set (b1 := b ++ s_name s ++ [0]).
  assert (adds b b1 256) as A1.
  { constructor. eexists. split; [done|]. rewrite length_app, Forall_app. cbn [length]. split_ands; [lia|apply text_bytes, Hs|apply nul_byte]. }
  assert (Z.of_nat (length b1) <= Z.of_nat (length b) + 256) as L1 by (unfold b1; rewrite !length_app; cbn [length]; lia).
  assert (closed b1) as C1 by (exists (b ++ s_name s); unfold b1; by rewrite app_assoc).
  pose proof (emit_script_spec s b1 Hs ltac:(lia) C1) as H2.
  destruct (match s_script s with Some _ => _ | None => _ end) as [script_at b2]. destruct H2 as (H2 & A2 & R2 & C2).
  pose proof (adds_trans _ _ _ _ _ A1 A2) as A12. pose proof A12 as [(x2 & E2 & Hx2 & _)].
  pose proof (emit_exec_spec s b2 Hs) as H3. pose proof (emit_exec_closed s b2 C2) as C3.
  destruct (emit_exec s b2) as [[xf exec_at] b3]. destruct H3 as (H3 & A3 & R3); [rewrite E2, length_app; lia|].
  pose proof A3 as [(x3 & E3 & _)]. split_ands; try done.
  - rewrite E3. apply holds_grow. destruct A2 as [(x & -> & _)]. apply holds_grow, holds_end.
  - destruct (s_script s); [rewrite E3; by apply holds_grow|done].
  - unfold word. lia.
  - apply (adds_trans _ _ _ _ _ A12 A3).
Qed.

(** ** The loop *)

Section Emit.
Context (srcs : list src) (g : lgraph) (order roff : list nat) (desc : list (list Z)) (es : list arc).
Abbreviation n := (length srcs).
Context (Hok : Forall src_ok srcs) (Hn : Z.of_nat n <= NG_MAX_SVC).
Context (Hfwd : Forall (fun e => (e.1 < e.2 < n)%nat) es) (Hsort : StronglySorted arc_lt es).
Context (Horder : order ≡ₚ seq 0 n).
Context (Hindeg : length (l_indeg g) = n) (Hind : forall x k, l_indeg g !! x = Some k -> (k < n)%nat).
Context (Hroff : forall v, (v <= n)%nat -> roff !! v = Some (n_before v es)).
Context (Hdesc : forall i, (i < n)%nat -> exists d, desc !! i = Some d /\ set_of n es i d).

(** The message about a service whose failure was to be a mere warning. *)
Definition warned (d : death) : Prop := exists i oi s k, order !! i = Some oi /\ srcs !! oi = Some s /\
  s_have_onfail s = true /\ s_onfail s = NG_ONFAIL_WARN /\ (0 < k)%nat /\ d = WarnWithDependents oi (Z.of_nat k) /\
  exists l, NoDup l /\ length l = k /\ forall j, j ∈ l <-> depends es i j.

(** The records of place [i]. *)
Definition place_built (em : emitted) (i : nat) : Prop := exists oi s ind d sv pl,
  order !! i = Some oi /\ srcs !! oi = Some s /\ l_indeg g !! oi = Some ind /\
  set_of n es i d /\ e_svc em !! i = Some sv /\ e_pol em !! i = Some pl /\
  svc_built (e_blob em) s ind (length (members d)) sv pl /\ svc_range sv /\ pol_range pl.

Record emit_inv (k : nat) (em : emitted) : Prop := EmitInv {
  ei_svc : length (e_svc em) = k;
  ei_pol : length (e_pol em) = k;
  ei_all : forall i, (i < k)%nat -> place_built em i;
  ei_size : Z.of_nat (length (e_blob em)) <= per_service * Z.of_nat k;
  ei_bytes : Forall is_byte (e_blob em);
  ei_end : (0 < k)%nat -> closed (e_blob em);
}.

Lemma policy_range pol : pol = NG_ONFAIL_WARN \/ pol = NG_ONFAIL_STOP \/ pol = NG_ONFAIL_SHELL ->
  forall r x, (r = 0 \/ r = NG_FLAG_RESTART) -> (x = 0 \/ x = NG_FLAG_INTERP \/ x = NG_FLAG_DIRECT) ->
  0 <= Z.lor (Z.lor pol r) x < 256.
Proof. intros [-> | [-> | ->]] r x [-> | ->] [-> | [-> | ->]]; by compute. Qed.

Lemma exec_flag blob s x at_ : exec_built blob s x at_ -> x = 0 \/ x = NG_FLAG_INTERP \/ x = NG_FLAG_DIRECT.
Proof. unfold exec_built. destruct (s_exec_pre s); [destruct (s_direct s)|]; intros [-> _]; auto. Qed.

(** The policy stored for a service. *)
Lemma emit_policy_spec s oi nd : src_ok s -> 0 <= nd ->
  ends (emit_policy s oi nd) (fun pol => (pol = NG_ONFAIL_WARN /\ nd = 0 \/ pol = NG_ONFAIL_STOP \/ pol = NG_ONFAIL_SHELL) /\
      (s_have_onfail s = true -> pol = s_onfail s))
    (fun d => s_have_onfail s = true /\ s_onfail s = NG_ONFAIL_WARN /\ 0 < nd /\ d = WarnWithDependents oi nd).
Proof.
  intros Hs H0. pose proof (so_onfail _ Hs) as Ho. unfold emit_policy, NG_ONFAIL_WARN, NG_ONFAIL_STOP, NG_ONFAIL_SHELL in *.
  destruct (s_have_onfail s).
  - destruct (Z.eqb_spec (s_onfail s) 0), (Z.eqb_spec nd 0); simpl; (split_ands || idtac); try done; try lia.
  - destruct (Z.eqb_spec nd 0); simpl; split; try done; lia.
Qed.

(** The records fit their fields. *)
Lemma built_svc_range blob s ind nd sv pl : src_ok s -> svc_built blob s ind nd sv pl ->
  (ind < n)%nat -> (nd < n)%nat -> word (script_off sv) -> word (name_off sv) -> svc_range sv.
Proof.
  intros Hs [B1 B2 B3 B4 (pol & x & B5 & B6 & _ & B8) _ _ _] H1 H2 H3 H4. unfold NG_MAX_SVC in Hn.
  pose proof (so_type _ Hs) as Ht. pose proof (so_notify _ Hs) as Hnf.
  unfold NG_TYPE_ONESHOT, NG_TYPE_TARGET, NG_NOTIFY_MIN, NG_NOTIFY_MAX in *.
  constructor; try done; rewrite ?B1, ?B2, ?B3, ?B4, ?B5; try lia.
  apply policy_range; [intuition| |by eapply exec_flag]. destruct (negb _); auto.
Qed.

Lemma built_pol_range blob s ind nd sv pl : src_ok s -> svc_built blob s ind nd sv pl -> word (exec_off pl) -> pol_range pl.
Proof.
  intros Hs [_ _ _ _ _ _ _ (P1 & P2 & P3 & P4 & P5)] Hx.
  pose proof (so_start _ Hs). pose proof (so_stop _ Hs). pose proof (so_retry _ Hs). pose proof (so_tries _ Hs). pose proof (so_pflags _ Hs).
  unfold NG_MAX_MS, NG_MAX_TRIES, NG_PF_ORDER_ONLY in *. constructor; rewrite ?P1, ?P2, ?P3, ?P4, ?P5; try done; lia.
Qed.

Lemma emit_service_spec i em : (i < n)%nat -> emit_inv i em ->
  ends (emit_service srcs g order roff desc em i) (emit_inv (S i)) warned.
Proof.
  intros Hi [L1 L2 HA HS HB HE]. unfold emit_service.
  destruct (lookup_lt_is_Some_2 order i) as [oi Hoi]; [by rewrite Horder, length_seq|].
  assert (oi < n)%nat as Hoin.
  { apply list_elem_of_lookup_2 in Hoi as Hin. rewrite Horder, elem_of_seq in Hin. lia. }
  destruct (lookup_lt_is_Some_2 srcs oi Hoin) as [s Hs]. pose proof (Forall_lookup_1 _ _ _ _ Hok Hs) as Hso.
  destruct (Hdesc i Hi) as (d & Hd & Hset). destruct (lookup_lt_is_Some_2 (l_indeg g) oi) as [ind Hindo]; [lia|].
  apply ends_bind, (ends_get _ _ oi); [done|]. apply ends_bind, (ends_get _ _ s); [done|].
  apply ends_bind, (ends_get _ _ d); [done|]. cbv zeta.
  unfold NG_MAX_SVC in *.
  assert (Z.of_nat (length d) < 2 ^ 20) as Hdl.
  { destruct Hset as [-> _]. unfold words. pose proof (Nat.Div0.div_le_upper_bound (n + 63) 64 (n + 63) ltac:(lia)). lia. }
  rewrite (count_bits_members d Hdl). pose proof (members_le n es Hfwd i d Hi Hset) as Hml. set (nd := length (members d)) in *.
  apply ends_bind. eapply ends_mono; [apply (emit_policy_spec s oi (Z.of_nat nd) Hso); lia| |].
  2: { intros dd (H1 & H2 & H3 & ->). exists i, oi, s, nd. split_ands; try done; try lia.
       exists (members d). split_ands; [apply members_nodup|done|]. intros j. by apply (members_spec n es Hfwd). }
  intros pol [Hp1 Hp2].
  apply ends_bind, (ends_get _ _ (n_before i es)); [apply Hroff; lia|].
  apply ends_bind, (ends_get _ _ (n_before (i + 1) es)); [apply Hroff; lia|].
  apply ends_bind, (ends_get _ _ ind); [done|].
  pose proof (Hind oi ind Hindo) as Hindn. pose proof (name_length s Hso) as Hnl. unfold NG_MAX_NAME in Hnl.
  pose proof (emit_strings s (e_blob em) Hso ltac:(unfold per_service in *; lia)) as Hstr.
  destruct (blob_add (e_blob em) (s_name s)) as [name_at b1].
  destruct (match s_script s with Some _ => _ | None => _ end) as [script_at b2].
  destruct (emit_exec s b2) as [[xf exec_at] b3]. destruct Hstr as ((S1 & S2 & S3) & (W1 & W2 & W3) & [(x & Ex & Hxl & Hxb)] & C3).
  apply ends_ret. rewrite !u16_small by lia. set (sv := NgSvc _ _ _ _ _ _ _). set (pl := NgPol _ _ _ _ _ _).
  assert (svc_built b3 s ind nd sv pl) as Hbuilt.
  { constructor; simpl; try done. exists pol, xf. split_ands; try done. destruct Hp1 as [[-> H0]|?]; [left|by right]. split; [done|lia]. }
  constructor; simpl; try (rewrite length_app; simpl; lia).
  - intros j Hj. destruct (decide (j = i)) as [->|Hne].
    + exists oi, s, ind, d, sv, pl. simpl. rewrite !lookup_app_r, ?L1, ?L2, Nat.sub_diag by lia.
      split_ands; try done; [apply (built_svc_range b3 s ind nd sv pl); (done || lia)|by apply (built_pol_range b3 s ind nd sv pl)].
    + destruct (HA j ltac:(lia)) as (oj & sj & kj & dj & svj & plj & P1 & P2 & P3 & P4 & P5 & P6 & P7 & P8).
      exists oj, sj, kj, dj, svj, plj. simpl. rewrite !lookup_app_l by lia. split_ands; try done; try apply P8.
      rewrite Ex. by apply svc_built_grow.
  - rewrite Ex, length_app. lia.
  - rewrite Ex. by apply Forall_app.
  - intros _. exact C3.
Qed.

Lemma emit_all D : (forall d, warned d -> D d) ->
  ends (each (emit_service srcs g order roff desc) (Emitted [] [] [] 0) (seq 0 n)) (emit_inv n) D.
Proof.
  intros HD. eapply ends_mono; [apply (ends_each (fun dn em => emit_inv (length dn) em))| |exact HD].
  - constructor; simpl; try done; try lia.
  - intros dn em i rest Hl HI. assert (i = length dn /\ (i < n)%nat) as [-> Hi].
    { assert (seq 0 n !! length dn = Some i) as Hs by (by rewrite Hl, list_lookup_middle). apply lookup_seq in Hs. lia. }
    rewrite length_app, Nat.add_1_r. by apply emit_service_spec.
  - cbv beta. by rewrite length_seq.
Qed.
End Emit.
