(* ===== verification/Pass.v ===== *)
(** * The verifier accepts what the compiler lays out

    The checks of [ng_verify] one by one, on an image whose tables hold the
    records of the services in start order, the rows of the edges and the string
    table. *)

From stdpp Require Import sorting.
From S2P Require Import Prelude PidMap Ngraph Verify Build Link Visit Schedule Desc Layout Emit.

Lemma pass_if {A} c why (k : vres A) r : c = false -> k = r -> vbind (bad_if c why) (fun _ => k) = r.
Proof. by intros -> ->. Qed.

Lemma pass_last c why : c = false -> bad_if c why = VOk tt.
Proof. by intros ->. Qed.

Lemma pass_on {A B} (m : vres A) a (f : A -> vres B) r : m = VOk a -> f a = r -> vbind m f = r.
Proof. by intros -> <-. Qed.

(** The flags of a service record, one part at a time. *)
Lemma flag_parts pol (r : Z) x : (pol = NG_ONFAIL_WARN \/ pol = NG_ONFAIL_STOP \/ pol = NG_ONFAIL_SHELL) ->
  (r = 0 \/ r = NG_FLAG_RESTART) -> (x = 0 \/ x = NG_FLAG_INTERP \/ x = NG_FLAG_DIRECT) ->
  let f := Z.lor (Z.lor pol r) x in
  Z.land f NG_ONFAIL_MASK = pol /\ Z.land f NG_FLAG_RESTART = r /\ Z.land f (Z.lnot NG_FLAG_MASK) = 0 /\
  Z.land f (Z.lor NG_FLAG_INTERP NG_FLAG_DIRECT) = x /\ Z.land f NG_FLAG_INTERP = Z.land x NG_FLAG_INTERP /\
  Z.land f NG_FLAG_DIRECT = Z.land x NG_FLAG_DIRECT.
Proof. intros [-> | [-> | ->]] [-> | ->] [-> | [-> | ->]]; by compute. Qed.

(** The tables of [img] under the header [h]. *)
Record laid (img : bytes) (h : ng_hdr) (sv : list ng_svc) (pl : list ng_pol) (es : list arc) (blob : bytes) : Prop := Laid {
  la_n : n_svc h = Z.of_nat (length sv);
  la_m : n_edges h = Z.of_nat (length es);
  la_blob : blob_len h = Z.of_nat (length blob);
  la_svc : forall i s, sv !! i = Some s -> ng_svcs img h (Z.of_nat i) = VOk s;
  la_pol : forall i p, pl !! i = Some p -> ng_pol_at img h (Z.of_nat i) = VOk p;
  la_roff : forall v, (v <= length sv)%nat -> ng_rdep_off img h (Z.of_nat v) = VOk (Z.of_nat (n_before v es));
  la_ridx : forall k e, es !! k = Some e -> ng_rdep_idx img h (Z.of_nat k) = VOk (Z.of_nat e.2);
  la_str : forall off l, holds blob off l -> holds img (off_blob h + off) l;
}.

Section Pass.
Context (img : bytes) (h : ng_hdr) (svs : list ng_svc) (pls : list ng_pol) (es : list arc) (blob : bytes).
Context (HL : laid img h svs pls es blob).
Abbreviation n := (length svs).
Context (Hn : Z.of_nat n <= NG_MAX_SVC).
Context (Hfwd : Forall (fun e => (e.1 < e.2 < n)%nat) es) (Hsort : StronglySorted arc_lt es).

(** The service [s] is at place [i]. *)
Record at_place (i : nat) (s : src) (d : list Z) (sv : ng_svc) (pl : ng_pol) : Prop := AtPlace {
  ap_svc : svs !! i = Some sv;
  ap_pol : pls !! i = Some pl;
  ap_ok : src_ok s;
  ap_set : set_of n es i d;
  ap_built : svc_built blob s (n_into i es) (length (members d)) sv pl;
}.

Context (Hplace : forall i, (i < n)%nat -> exists s d sv pl, at_place i s d sv pl).
Context (Hroots : forall i, (i < n)%nat -> (Z.of_nat i < n_roots h <-> n_into i es = 0%nat)).

Lemma pass_edge i s d sv pl j : at_place i s d sv pl -> (j < n_at i es)%nat ->
  verify_edge img h sv (Z.of_nat i) (Z.of_nat (n_before i es)) (Z.of_nat (n_before i es + j)) = VOk tt.
Proof.
  intros HP Hj. pose proof (ap_svc _ _ _ _ _ HP) as Hi. apply lookup_lt_Some in Hi as Hin.
  destruct (row_lookup es Hsort i j Hj) as (w & Hw & Ho). apply list_elem_of_lookup_2 in Ho as He.
  apply elem_of_out in He. apply (fwd_arc n es Hfwd) in He as Hb.
  assert (forall k w', ((fun e => e.2) <$> es) !! k = Some w' -> ng_rdep_idx img h (Z.of_nat k) = VOk (Z.of_nat w')) as Hidx.
  { intros k w' Hk. rewrite list_lookup_fmap in Hk. destruct (es !! k) as [e|] eqn:Ek; [|done]. injection Hk as <-. by apply (la_ridx _ _ _ _ _ _ HL). }
  unfold verify_edge. eapply pass_on; [by apply Hidx|]. rewrite (la_n _ _ _ _ _ _ HL).
  apply pass_if; [lia|]. apply pass_if; [lia|]. apply (pass_on _ tt).
  - destruct (Z.ltb_spec (Z.of_nat (n_before i es)) (Z.of_nat (n_before i es + j))); [|done].
    destruct j as [|j]; [lia|]. destruct (row_lookup es Hsort i j ltac:(lia)) as (w0 & Hw0 & Ho0).
    replace (Z.of_nat (n_before i es + S j) - 1) with (Z.of_nat (n_before i es + j)) by lia.
    eapply pass_on; [by apply Hidx|]. apply pass_last.
    pose proof (sorted_lookup _ _ _ _ _ _ (row_sorted es Hsort i) (Nat.lt_succ_diag_r j) Ho0 Ho). lia.
  - destruct (Hplace w ltac:(lia)) as (s' & d' & sv' & pl' & HP').
    eapply pass_on; [apply (la_svc _ _ _ _ _ _ HL), HP'|]. apply pass_last.
    rewrite (sb_desc _ _ _ _ _ _ (ap_built _ _ _ _ _ HP)), (sb_desc _ _ _ _ _ _ (ap_built _ _ _ _ _ HP')).
    pose proof (members_lt n es Hfwd i w d d' Hin (ap_set _ _ _ _ _ HP) (ap_set _ _ _ _ _ HP') He). lia.
Qed.

Lemma exec_built_flag s x at_ : exec_built blob s x at_ -> x = 0 \/ x = NG_FLAG_INTERP \/ x = NG_FLAG_DIRECT.
Proof. unfold exec_built. destruct (s_exec_pre s); [destruct (s_direct s)|]; intros [-> _]; auto. Qed.

(** The flags of a placed service. *)
Lemma place_flags i s d sv pl : at_place i s d sv pl -> exists pol x,
  Z.land (flags sv) NG_ONFAIL_MASK = pol /\ Z.land (flags sv) NG_FLAG_RESTART = (if negb (s_restart s =? 0) then NG_FLAG_RESTART else 0) /\
  Z.land (flags sv) (Z.lnot NG_FLAG_MASK) = 0 /\ Z.land (flags sv) (Z.lor NG_FLAG_INTERP NG_FLAG_DIRECT) = x /\
  Z.land (flags sv) NG_FLAG_INTERP = Z.land x NG_FLAG_INTERP /\ Z.land (flags sv) NG_FLAG_DIRECT = Z.land x NG_FLAG_DIRECT /\
  (pol = NG_ONFAIL_WARN /\ n_at i es = 0%nat \/ pol = NG_ONFAIL_STOP \/ pol = NG_ONFAIL_SHELL) /\ exec_built blob s x (exec_off pl).
Proof.
  intros HP. destruct (sb_flags _ _ _ _ _ _ (ap_built _ _ _ _ _ HP)) as (pol & x & E & Hp & _ & Hx).
  pose proof (exec_built_flag _ _ _ Hx) as Hx'. exists pol, x. rewrite E.
  destruct (flag_parts pol (if negb (s_restart s =? 0) then NG_FLAG_RESTART else 0) x) as (F1 & F2 & F3 & F4 & F5 & F6);
    [tauto|destruct (negb _); auto|done|].
  split_ands; try done. pose proof (ap_svc _ _ _ _ _ HP) as Hi%lookup_lt_Some.
  destruct Hp as [[-> H0]|?]; [left|by right]. split; [done|].
  by apply (members_none n es Hfwd i d Hi (ap_set _ _ _ _ _ HP)).
Qed.

Lemma pass_fields i s d sv pl : at_place i s d sv pl ->
  verify_fields h sv (Z.of_nat i) (Z.of_nat (n_before i es)) (Z.of_nat (n_before (S i) es)) = VOk tt.
Proof.
  intros HP. pose proof (place_flags _ _ _ _ _ HP) as (pol & x & F1 & F2 & F3 & _ & _ & _ & Hp & _).
  pose proof (ap_svc _ _ _ _ _ HP) as Hi%lookup_lt_Some. pose proof (ap_ok _ _ _ _ _ HP) as Hs.
  destruct (ap_built _ _ _ _ _ HP) as [B1 B2 B3 B4 _ _ _ _].
  pose proof (n_into_lt n es Hfwd Hsort i Hi). pose proof (members_le n es Hfwd i d Hi (ap_set _ _ _ _ _ HP)).
  pose proof (members_out n es Hfwd i d Hi (ap_set _ _ _ _ _ HP) (row_nodup es Hsort i)).
  pose proof (n_before_S i es). pose proof (so_type _ Hs). pose proof (so_notify _ Hs) as Hnf. pose proof (so_restart _ Hs) as Hre.
  unfold verify_fields. rewrite (la_n _ _ _ _ _ _ HL), B1, B2, B3, B4, F1, F2, F3.
  unfold NG_TYPE_ONESHOT, NG_TYPE_TARGET, NG_TYPE_DAEMON, NG_NOTIFY_MIN, NG_NOTIFY_MAX, NG_ONFAIL_WARN, NG_ONFAIL_STOP, NG_ONFAIL_SHELL in *.
  do 8 (apply pass_if; [lia|]). apply pass_if; [destruct Hp as [[-> ?]|[-> | ->]]; simpl; lia|].
  apply pass_last. destruct Hre as [-> | ->]; [done|]. simpl. lia.
Qed.

Lemma holds_fits off s cap : holds blob off (s ++ [0]) -> Z.of_nat (length s) <= cap ->
  0 <= off < blob_len h /\ forall why, fits_or img (off_blob h) (blob_len h) off cap why = VOk tt.
Proof.
  intros Hh Hc. pose proof (holds_bound _ _ _ Hh) as [H0 H1]. rewrite length_app in H1. cbn [length] in H1.
  rewrite (la_blob _ _ _ _ _ _ HL). split; [lia|]. intros why. apply (fits_or_holds _ _ _ _ s); [by apply (la_str _ _ _ _ _ _ HL)|lia..].
Qed.

Lemma place_name i s d sv pl : at_place i s d sv pl ->
  ng_name_at img h (Z.of_nat i) = VOk (s_name s) /\ cstr img (off_blob h + name_off sv) = VOk (s_name s).
Proof.
  intros HP. assert (cstr img (off_blob h + name_off sv) = VOk (s_name s)) as E.
  { apply cstr_holds; [apply (la_str _ _ _ _ _ _ HL), (sb_name _ _ _ _ _ _ (ap_built _ _ _ _ _ HP))|apply (so_text _ (ap_ok _ _ _ _ _ HP))]. }
  split; [|done]. unfold ng_name_at. by rewrite (la_svc _ _ _ _ _ _ HL _ _ (ap_svc _ _ _ _ _ HP)).
Qed.

Lemma pass_strings i s d sv pl : at_place i s d sv pl -> verify_strings img h sv (Z.of_nat i) = VOk tt.
Proof.
  intros HP. pose proof (ap_svc _ _ _ _ _ HP) as Hi%lookup_lt_Some. pose proof (ap_ok _ _ _ _ _ HP) as Hs.
  destruct (place_name _ _ _ _ _ HP) as [_ Hc]. destruct (ap_built _ _ _ _ _ HP) as [B1 B2 _ _ _ B6 B7 _].
  destruct (holds_fits _ _ NG_MAX_NAME B6 (name_length s Hs)) as [Hb Hf].
  unfold verify_strings. apply pass_if; [lia|]. eapply pass_on; [apply Hf|]. eapply pass_on; [exact Hc|].
  apply pass_if; [by rewrite (so_name _ Hs)|]. specialize (Hroots i Hi). rewrite B1, B2.
  apply pass_if; [lia|]. apply pass_if; [lia|]. pose proof (so_script _ Hs) as Hsc.
  destruct (s_script s) as [sc|].
  - destruct Hsc as (_ & Hl & Ht). destruct (Z.eqb_spec (s_type s) NG_TYPE_TARGET); [done|].
    destruct (holds_fits _ _ NG_MAX_SCRIPT B7 Hl) as [Hb' Hf']. apply pass_if; [lia|]. apply Hf'.
  - rewrite Hsc, B7. done.
Qed.

Lemma pass_exec i s d sv pl x : at_place i s d sv pl -> exec_built blob s x (exec_off pl) ->
  (x = 0 /\ exec_off pl = NG_NO_EXEC) \/
  (x = NG_FLAG_INTERP /\ s_type s <> NG_TYPE_TARGET /\ exec_problem img (off_blob h) (blob_len h) (exec_off pl) = VOk tt) \/
  (x = NG_FLAG_DIRECT /\ s_type s <> NG_TYPE_TARGET /\ direct_problem img (off_blob h) (blob_len h) (exec_off pl) = VOk tt).
Proof.
  intros HP Hx. pose proof (ap_ok _ _ _ _ _ HP) as Hs. pose proof (so_pre _ Hs) as Hpre. pose proof (so_direct _ Hs) as Hdir.
  unfold exec_built in Hx. destruct (s_exec_pre s) as [|p0 pre].
  - specialize (Hdir eq_refl). destruct (s_direct s) as [|c rest]; [by left|]. right. right.
    destruct Hx as [-> Hx]. destruct Hdir as (Ht & Hc & Hr & Hl). split_ands; [done|done|].
    pose proof (holds_bound _ _ _ Hx) as [H0 H1]. rewrite (la_blob _ _ _ _ _ _ HL).
    apply (direct_problem_holds _ _ _ c rest); try done. by apply (la_str _ _ _ _ _ _ HL).
  - right. left. destruct Hx as [-> Hx]. destruct Hpre as (Ht & Hh & Hl & Hp & Hsf & Hm). split_ands; [done|done|].
    pose proof (holds_bound _ _ _ Hx) as [H0 H1]. rewrite (la_blob _ _ _ _ _ _ HL).
    apply (exec_problem_holds _ _ _ (p0 :: pre) (s_exec_suf s) _ p0 pre); try done. by apply (la_str _ _ _ _ _ _ HL).
Qed.

Lemma pass_policy i s d sv pl : at_place i s d sv pl -> verify_policy img h sv (Z.of_nat i) = VOk tt.
Proof.
  intros HP. pose proof (ap_ok _ _ _ _ _ HP) as Hs. destruct (sb_pol _ _ _ _ _ _ (ap_built _ _ _ _ _ HP)) as (P1 & P2 & _ & P4 & P5).
  pose proof (place_flags _ _ _ _ _ HP) as (pol & x & _ & _ & _ & F4 & F5 & F6 & _ & Hx).
  pose proof (so_start _ Hs). pose proof (so_stop _ Hs). pose proof (so_tries _ Hs). pose proof (so_pflags _ Hs) as Hpf.
  unfold verify_policy, has_flag. eapply pass_on; [apply (la_pol _ _ _ _ _ _ HL), HP|]. rewrite P1, P2, P4, P5, F4, F5, F6.
  rewrite (sb_type _ _ _ _ _ _ (ap_built _ _ _ _ _ HP)).
  apply pass_if; [lia|]. apply pass_if; [lia|]. apply pass_if; [by destruct Hpf as [-> | ->]|].
  destruct (pass_exec _ _ _ _ _ _ HP Hx) as [[-> He]|[(-> & Ht & He)|(-> & Ht & He)]].
  - rewrite He. done.
  - apply pass_if; [done|]. apply Z.eqb_neq in Ht. simpl. by rewrite Ht.
  - apply pass_if; [done|]. apply Z.eqb_neq in Ht. simpl. by rewrite Ht.
Qed.

Lemma pass_service i : (i < n)%nat -> verify_service img h (Z.of_nat i) = VOk tt.
Proof.
  intros Hi. destruct (Hplace i Hi) as (s & d & sv & pl & HP). unfold verify_service.
  eapply pass_on; [apply (la_svc _ _ _ _ _ _ HL), HP|]. eapply pass_on; [apply (la_roff _ _ _ _ _ _ HL); lia|].
  replace (Z.of_nat i + 1) with (Z.of_nat (S i)) by lia. eapply pass_on; [apply (la_roff _ _ _ _ _ _ HL); lia|].
  pose proof (n_before_S i es) as HS.
  assert (n_before (S i) es <= length es)%nat by apply length_filter. rewrite (la_m _ _ _ _ _ _ HL).
  apply pass_if; [lia|]. apply (pass_on _ tt).
  - apply vfor_ok. intros k Hk. replace k with (Z.of_nat (n_before i es + Z.to_nat (k - Z.of_nat (n_before i es)))) by lia.
    eapply pass_edge; [done|]. lia.
  - eapply pass_on; [by eapply pass_fields|]. eapply pass_on; [by eapply pass_strings|]. by eapply pass_policy.
Qed.

(** ** The cross checks *)

Context (Himg : Forall is_byte img) (Hh : hdr_ok img h) (Hlo : loop_ok img h).
Context (names : list bytes) (Hnames : NoDup names).
Context (Hname : forall i s d sv pl, at_place i s d sv pl -> names !! i = Some (s_name s)).

Lemma pass_counts : returns (vfold (Z.to_nat (n_edges h)) 0 (replicate (Z.to_nat (n_svc h)) 0) (count_edge img h))
  (fun sc => length sc = n /\ forall v, (v < n)%nat -> sc !! v = Some (Z.of_nat (n_into v es))).
Proof.
  rewrite (la_n _ _ _ _ _ _ HL), (la_m _ _ _ _ _ _ HL), !Nat2Z.id. eapply returns_mono.
  - apply (returns_vfold (fun k sc => length sc = n /\
      forall v, (v < n)%nat -> sc !! v = Some (Z.of_nat (n_into v (take (Z.to_nat k) es))))).
    + rewrite length_replicate. split; [done|]. intros v Hv. by rewrite lookup_replicate_2 by lia.
    + intros k sc Hk [HLs HS]. destruct (lookup_lt_is_Some_2 es (Z.to_nat k)) as [e He]; [lia|].
      pose proof (la_ridx _ _ _ _ _ _ HL _ _ He) as Hi. rewrite Z2Nat.id in Hi by lia.
      apply list_elem_of_lookup_2 in He as Hin. rewrite Forall_forall in Hfwd. specialize (Hfwd e Hin).
      unfold count_edge. rewrite Hi. simpl. rewrite Nat2Z.id, HS by lia. simpl. rewrite length_insert. split; [done|].
      replace (Z.to_nat (k + 1)) with (S (Z.to_nat k)) by lia. intros v Hv.
      rewrite (take_S_r _ _ _ He), n_into_snoc. case_decide as Hd.
      * subst v. rewrite list_lookup_insert_eq by lia. f_equal. rewrite u32_small; [lia|].
        assert (n_into e.2 (take (Z.to_nat k) es) <= length es)%nat.
        { unfold n_into. etransitivity; [apply length_filter|]. rewrite length_take. lia. }
        pose proof (ho_m_max _ _ Hh). pose proof (ho_len _ _ Hh). pose proof (ho_ridx _ _ Hh). rewrite (la_m _ _ _ _ _ _ HL) in *. lia.
      * rewrite list_lookup_insert_ne by done. rewrite HS by done. f_equal. lia.
  - intros sc [HLs HS]. split; [done|]. intros v Hv. rewrite HS by done. by rewrite Z.add_0_l, Nat2Z.id, firstn_all.
Qed.

Lemma pass_indegree sc i : (i < n)%nat -> length sc = n -> (forall v, (v < n)%nat -> sc !! v = Some (Z.of_nat (n_into v es))) ->
  check_indegree img h sc (Z.of_nat i) = VOk tt.
Proof.
  intros Hi _ Hsc. destruct (Hplace i Hi) as (s & d & sv & pl & HP). unfold check_indegree.
  eapply pass_on; [apply (la_svc _ _ _ _ _ _ HL), HP|]. rewrite Nat2Z.id, Hsc by done. cbn [of_opt vbind].
  apply pass_last. by rewrite (sb_unmet _ _ _ _ _ _ (ap_built _ _ _ _ _ HP)), Z.eqb_refl.
Qed.

(** The name of service [i] is not among those before it. *)
Lemma name_probe_new fuel tab i mask at_ s d sv pl why : at_place i s d sv pl ->
  (forall j x, tab !! j = Some x -> 0 <= x <= Z.of_nat i) ->
  name_probe fuel img h tab mask (Z.of_nat i) at_ (s_name s) <> VBad why.
Proof.
  intros HP Htab. revert at_. induction fuel as [|fuel IH]; intros at_; [done|]. cbn [name_probe].
  destruct (tab !! Z.to_nat at_) as [x|] eqn:Hx; [|done]. cbn [of_opt vbind]. destruct (Z.eqb_spec x 0); [done|].
  pose proof (Htab _ _ Hx). pose proof (ap_svc _ _ _ _ _ HP) as Hi%lookup_lt_Some.
  destruct (Hplace (Z.to_nat (x - 1)) ltac:(lia)) as (s' & d' & sv' & pl' & HP').
  destruct (place_name _ _ _ _ _ HP') as [_ Hc]. pose proof (la_svc _ _ _ _ _ _ HL _ _ (ap_svc _ _ _ _ _ HP')) as Hs'.
  rewrite Z2Nat.id in Hs' by lia. rewrite Hs'. cbn [vbind]. rewrite Hc. cbn [vbind].
  destruct (bytes_eqb (s_name s') (s_name s)) eqn:Hb; [|apply IH]. exfalso. apply bytes_eqb_eq in Hb.
  pose proof (Hname _ _ _ _ _ HP) as N1. pose proof (Hname _ _ _ _ _ HP') as N2. rewrite Hb in N2.
  pose proof (NoDup_lookup _ _ _ _ Hnames N1 N2). lia.
Qed.

Lemma pass_names k : 0 <= k -> Z.of_nat n < 2 ^ k ->
  returns (vfold (Z.to_nat (n_svc h)) 0 (replicate (Z.to_nat (2 ^ k)) 0) (check_name img h (2 ^ k))) (fun _ => True).
Proof.
  intros Hk Hroom. rewrite <- (la_n _ _ _ _ _ _ HL) in Hroom. pose proof (N_pos k Hk) as HN. pose proof (ho_n _ _ Hh) as Hn0.
  eapply returns_mono; [apply (returns_vfold (tab_inv img h k))|done].
  - constructor; try lia.
    + apply length_replicate.
    + intros j s [-> _]%lookup_replicate. lia.
    + by rewrite cnt_replicate.
  - intros q tab Hq HI. apply returns_safe; [apply check_name_safe; (done || lia)|]. intros why.
    destruct (Hplace (Z.to_nat q)) as (s & d & sv & pl & HP); [rewrite (la_n _ _ _ _ _ _ HL) in Hq; lia|].
    destruct (place_name _ _ _ _ _ HP) as [_ Hc]. pose proof (la_svc _ _ _ _ _ _ HL _ _ (ap_svc _ _ _ _ _ HP)) as Hs.
    pose proof (name_probe_new (Z.to_nat (2 ^ k)) tab _ (2 ^ k - 1) (Z.land (name_hash (s_name s)) (2 ^ k - 1)) _ _ _ _ why HP) as Hp.
    rewrite Z2Nat.id in * by lia. unfold check_name. rewrite Hs. cbn [vbind]. rewrite Hc. cbn [vbind].
    apply Hp. intros j x Hx. by apply (ti_slot _ _ _ _ _ HI) in Hx.
Qed.

Lemma pass_cross : verify_cross true img h = VOk tt.
Proof.
  unfold verify_cross. destruct (Z.eqb_spec (n_svc h) 0); [done|]. apply pass_if; [done|].
  destruct (proj1 (returns_ex _ _) pass_counts) as (sc & Hsc & HLs & HS). eapply pass_on; [exact Hsc|].
  destruct (hash_size_room (n_svc h)) as (k & Hk & -> & Hroom); [apply (ho_n _ _ Hh)|].
  rewrite (la_n _ _ _ _ _ _ HL) in Hroom. apply (pass_on _ tt).
  - apply vfor_ok. rewrite (la_n _ _ _ _ _ _ HL). intros i Hi. replace i with (Z.of_nat (Z.to_nat i)) by lia.
    apply pass_indegree; [lia|done|done].
  - destruct (proj1 (returns_ex _ _) (pass_names k Hk Hroom)) as (tab & Htab & _). by eapply pass_on; [exact Htab|].
Qed.

(** ** What is read back *)

(** The graph that [decode] gives. *)
Definition laid_graph : graph :=
  Graph n (Z.to_nat (n_roots h)) svs pls ((fun v => n_before v es) <$> seq 0 (S n)) ((fun e => e.2) <$> es) names.

Lemma laid_vtab {A} (f : Z -> vres A) l m : Z.to_nat m = length l ->
  (forall i x, l !! i = Some x -> f (Z.of_nat i) = VOk x) -> vtab (Z.to_nat m) 0 f = VOk l.
Proof.
  intros Hm Hf. apply vtab_ok. split; [done|]. intros k Hk. destruct (lookup_lt_is_Some_2 l k) as [x Hx]; [lia|].
  exists x. split; [|done]. rewrite Z.add_0_l. by apply Hf.
Qed.

Lemma laid_decode : rd_hdr img = VOk h -> length pls = n -> length names = n -> decode img = VOk laid_graph.
Proof.
  intros Hrd Hpl Hnm. unfold decode. rewrite Hrd. cbn [vbind].
  rewrite (laid_vtab _ svs) by (apply HL || by rewrite (la_n _ _ _ _ _ _ HL), Nat2Z.id). cbn [vbind].
  rewrite (laid_vtab _ pls) by (apply HL || by rewrite (la_n _ _ _ _ _ _ HL), Nat2Z.id). cbn [vbind].
  replace (S (Z.to_nat (n_svc h))) with (Z.to_nat (n_svc h + 1)) by (rewrite (la_n _ _ _ _ _ _ HL); lia).
  rewrite (laid_vtab _ ((fun v => Z.of_nat (n_before v es)) <$> seq 0 (S n))).
  2: { rewrite length_fmap, length_seq, (la_n _ _ _ _ _ _ HL). lia. }
  2: { intros i x (v & -> & Hv)%list_lookup_fmap_Some. apply lookup_seq in Hv as [-> Hv]. apply (la_roff _ _ _ _ _ _ HL). lia. }
  cbn [vbind]. rewrite (laid_vtab _ ((fun e => Z.of_nat e.2) <$> es)).
  2: { by rewrite length_fmap, (la_m _ _ _ _ _ _ HL), Nat2Z.id. }
  2: { intros i x (e & -> & He)%list_lookup_fmap_Some. by apply (la_ridx _ _ _ _ _ _ HL). }
  cbn [vbind]. rewrite (laid_vtab _ names).
  2: { by rewrite Hnm, (la_n _ _ _ _ _ _ HL), Nat2Z.id. }
  2: { intros i x Hx. destruct (Hplace i) as (s & d & sv & pl & HP); [apply lookup_lt_Some in Hx; lia|].
       destruct (place_name _ _ _ _ _ HP) as [Hc _]. rewrite (Hname _ _ _ _ _ HP) in Hx. by injection Hx as <-. }
  cbn [vbind]. unfold laid_graph. rewrite (la_n _ _ _ _ _ _ HL), Nat2Z.id. do 2 f_equal.
  - rewrite <- list_fmap_compose. apply list_fmap_ext. intros. simpl. apply Nat2Z.id.
  - rewrite <- list_fmap_compose. apply list_fmap_ext. intros. simpl. apply Nat2Z.id.
Qed.

(** The row of a service in it. *)
Lemma laid_succs i : (i < n)%nat -> succs laid_graph i = Some (out i es).
Proof.
  intros Hi. unfold succs, laid_graph. cbn [g_roff g_ridx].
  rewrite !list_lookup_fmap, !lookup_seq_lt by lia. cbn [fmap option_fmap option_map].
  rewrite length_fmap, !Nat.add_0_l, n_before_S. pose proof (n_before_S i es) as HS.
  assert (n_before (S i) es <= length es)%nat by apply length_filter.
  destruct (Nat.leb_spec (n_before i es + n_at i es) (length es)); [|lia]. f_equal. rewrite <- (row_cut es Hsort i). f_equal. lia.
Qed.
End Pass.
