(* ===== verification/Assemble.v ===== *)
(** * The file that the compiler writes

    The header, the tables and the string table one after the other, as
    [write_image] of ctl/image.c copies them into its buffer: the header passes
    its checks and each table is found where the header says. *)

From stdpp Require Import sorting.
From S2P Require Import Prelude PidMap Ngraph Verify Build Link Visit Schedule Desc Layout Emit Pass.

Section Assemble.
Context (svs : list ng_svc) (pls : list ng_pol) (roff : list nat) (es : list arc) (blob : bytes) (nroots : nat) (hash c : Z).
Abbreviation n := (length svs).
Context (Hpl : length pls = n) (Hn : Z.of_nat n <= NG_MAX_SVC).
Context (Hfwd : Forall (fun e => (e.1 < e.2 < n)%nat) es) (Hsort : StronglySorted arc_lt es).
Context (Hroff : length roff = S n) (Hoff : forall v, (v <= n)%nat -> roff !! v = Some (n_before v es)).
Context (Hsv : Forall svc_range svs) (Hpr : Forall pol_range pls).
Context (Hblob : Forall is_byte blob) (Hsize : Z.of_nat (length blob) <= per_service * Z.of_nat n) (Hend : (0 < n)%nat -> closed blob).
Context (Hnr : (nroots <= n)%nat) (Hhash : 0 <= hash < 18446744073709551616) (Hc : word c).

Definition img_body : bytes :=
  concat (enc_svc <$> svs) ++ enc_words roff ++ enc_words ((fun e => e.2) <$> es) ++ concat (enc_pol <$> pls) ++ blob.
Definition img_hdr : ng_hdr := lay_header n (length es) nroots (Z.of_nat (length blob)) hash.
Definition img_file : bytes := enc_hdr (with_crc c img_hdr) ++ img_body.
Abbreviation h := (with_crc c img_hdr).

Lemma length_words l : length (enc_words l) = (4 * length l)%nat.
Proof. unfold enc_words. by apply length_concat. Qed.

Lemma words_bytes l : Forall is_byte (enc_words l).
Proof. unfold enc_words. apply concat_bytes. intros. apply le32_bytes. Qed.

Lemma words_hold l i x : l !! i = Some x -> holds (enc_words l) (4 * Z.of_nat i) (le32 (Z.of_nat x)).
Proof. intros Hx. by apply (concat_holds (fun x => le32 (Z.of_nat x)) 4). Qed.

(** The sizes of the parts. *)
Lemma body_lengths :
  length (concat (enc_svc <$> svs)) = (16 * n)%nat /\ length (enc_words roff) = (4 * S n)%nat /\
  length (enc_words ((fun e => e.2) <$> es)) = (4 * length es)%nat /\ length (concat (enc_pol <$> pls)) = (16 * n)%nat.
Proof.
  split_ands; [by apply length_concat|by rewrite length_words, Hroff|by rewrite length_words, length_fmap|].
  rewrite (length_concat _ 16) by done. by rewrite Hpl.
Qed.

Lemma file_size : Z.of_nat (length img_file) =
  64 + 16 * Z.of_nat n + 4 * (Z.of_nat n + 1) + 4 * Z.of_nat (length es) + 16 * Z.of_nat n + Z.of_nat (length blob).
Proof.
  destruct body_lengths as (L1 & L2 & L3 & L4). unfold img_file, img_body. rewrite !length_app, length_enc_hdr, L1, L2, L3, L4. lia.
Qed.

Lemma sizes : 2 * Z.of_nat (length es) <= Z.of_nat n * (Z.of_nat n - 1) /\ Z.of_nat (length es) <= 33550336 /\
  Z.of_nat (length img_file) < 4294967296.
Proof.
  pose proof (arcs_le n es Hfwd Hsort) as Hm. rewrite file_size. unfold NG_MAX_SVC, per_service in *.
  assert (Z.of_nat n * (Z.of_nat n - 1) <= 8192 * 8191) by nia. lia.
Qed.

Lemma hdr_fields :
  total_len h = Z.of_nat (length img_file) /\ n_svc h = Z.of_nat n /\ n_roots h = Z.of_nat nroots /\
  n_edges h = Z.of_nat (length es) /\ blob_len h = Z.of_nat (length blob) /\ off_svc h = 64 /\
  off_rdep_off h = 64 + 16 * Z.of_nat n /\ off_rdep_idx h = 64 + 16 * Z.of_nat n + 4 * (Z.of_nat n + 1) /\
  off_pol h = 64 + 16 * Z.of_nat n + 4 * (Z.of_nat n + 1) + 4 * Z.of_nat (length es) /\
  off_blob h = 64 + 16 * Z.of_nat n + 4 * (Z.of_nat n + 1) + 4 * Z.of_nat (length es) + 16 * Z.of_nat n.
Proof.
  pose proof sizes as (_ & _ & Hs). rewrite file_size in *. unfold img_hdr, lay_header, with_crc, SIZEOF_HDR, SIZEOF_SVC, SIZEOF_POL in *.
  cbn -[Z.add Z.mul u32 Z.of_nat] in *. rewrite !u32_small by lia. split_ands; lia.
Qed.

Lemma file_hdr_range : hdr_range h.
Proof.
  destruct hdr_fields as (F1 & F2 & F3 & F4 & F5 & F6 & F7 & F8 & F9 & F10). pose proof sizes as (_ & _ & Hs). rewrite file_size in Hs.
  constructor; [|exact Hhash]. rewrite F1, F2, F3, F4, F5, F6, F7, F8, F9, F10, file_size. unfold word in *.
  repeat (apply Forall_cons; split); try lia; try (simpl; lia); try apply Hc; done.
Qed.

Lemma file_bytes : Forall is_byte img_file.
Proof.
  unfold img_file, img_body. rewrite !Forall_app. split_ands; try apply words_bytes; try done.
  - apply enc_hdr_bytes.
  - apply concat_bytes. intros. apply enc_svc_bytes.
  - apply concat_bytes. intros. apply enc_pol_bytes.
Qed.

Lemma file_rd_hdr : rd_hdr img_file = VOk h.
Proof. apply hdr_holds; [|apply file_hdr_range]. eapply holds_l. apply holds_all. Qed.

Lemma holds_at img a b l : holds img a l -> a = b -> holds img b l.
Proof. by intros H <-. Qed.

(** Where each table is. *)
Lemma file_tables :
  holds img_file (off_svc h) (concat (enc_svc <$> svs)) /\ holds img_file (off_rdep_off h) (enc_words roff) /\
  holds img_file (off_rdep_idx h) (enc_words ((fun e => e.2) <$> es)) /\ holds img_file (off_pol h) (concat (enc_pol <$> pls)) /\
  holds img_file (off_blob h) blob.
Proof.
  destruct hdr_fields as (_ & _ & _ & _ & _ & -> & -> & -> & -> & ->). destruct body_lengths as (L1 & L2 & L3 & L4).
  pose proof (holds_all img_file : holds img_file 0 (enc_hdr h ++ img_body)) as H. unfold img_body in H. apply holds_r in H. rewrite length_enc_hdr in H.
  apply holds_app in H as [H1 H]. rewrite L1 in H. apply holds_app in H as [H2 H]. rewrite L2 in H.
  apply holds_app in H as [H3 H]. rewrite L3 in H. apply holds_app in H as [H4 H]. rewrite L4 in H.
  split_ands; (eapply holds_at; [eassumption|]); lia.
Qed.

Lemma file_laid : laid img_file h svs pls es blob.
Proof.
  destruct hdr_fields as (F1 & F2 & F3 & F4 & F5 & _). destruct file_tables as (T1 & T2 & T3 & T4 & T5).
  pose proof sizes as (_ & Hm & _). unfold NG_MAX_SVC in Hn. constructor; try done.
  - intros i s Hs. apply svcs_holds; [|by apply (Forall_lookup_1 _ _ _ _ Hsv Hs)].
    eapply holds_in; [exact T1|]. by apply (concat_holds _ 16).
  - intros i p Hp. apply pol_holds; [|by apply (Forall_lookup_1 _ _ _ _ Hpr Hp)].
    eapply holds_in; [exact T4|]. by apply (concat_holds _ 16).
  - intros v Hv. unfold ng_rdep_off. apply rd32_holds; [eapply holds_in; [exact T2|]; apply words_hold; by apply Hoff|].
    assert (n_before v es <= length es)%nat by apply length_filter. lia.
  - intros k e He. unfold ng_rdep_idx. apply rd32_holds.
    + eapply holds_in; [exact T3|]. apply words_hold. by rewrite list_lookup_fmap, He.
    + apply list_elem_of_lookup_2 in He. rewrite Forall_forall in Hfwd. specialize (Hfwd e He). lia.
  - intros off l Hl. by eapply holds_in.
Qed.

Lemma land3 x : x mod 4 = 0 -> Z.land x (4 - 1) = 0.
Proof. intros <-. apply (land_mask_mod x 2). lia. Qed.

Lemma range_fits off nb total align : Z.land off (align - 1) = 0 -> off + nb <= total -> range_ok off nb total align = true.
Proof. intros H1 H2. unfold range_ok. rewrite H1. simpl. lia. Qed.

(** One section after another. *)
Lemma spans_chain (l : list ng_span) : Forall (fun s => lo s <= hi s) l ->
  StronglySorted (fun a b => hi a <= lo b) l -> spans_disjoint l = true.
Proof.
  intros HF HS. induction HS as [|a l HS IH Ha]; [done|]. apply Forall_cons in HF as [Hr HF]. simpl. rewrite IH by done.
  destruct (lo a =? hi a); [done|]. destruct (existsb (span_overlap a) l) eqn:E; [|done].
  apply existsb_exists in E as (b & Hb%list_elem_of_In & Ho). rewrite Forall_forall in Ha. specialize (Ha b Hb).
  unfold span_overlap in Ho. destruct (lo b =? hi b); [done|]. lia.
Qed.

Lemma file_header addr : Z.land addr 7 = 0 -> c = ng_image_crc32c img_file -> verify_header addr img_file = VOk h.
Proof.
  intros Ha Ecrc. destruct hdr_fields as (F1 & F2 & F3 & F4 & F5 & F6 & F7 & F8 & F9 & F10). pose proof sizes as (Hm & _ & Hs).
  unfold verify_header, sections. apply pass_if; [rewrite file_size; unfold SIZEOF_HDR; lia|].
  apply pass_if; [change (alignof_hdr - 1) with 7; by rewrite Ha|]. eapply pass_on; [apply file_rd_hdr|].
  rewrite F1, F2, F3, F4, F5, F6, F7, F8, F9, F10. cbv zeta. unfold SIZEOF_HDR, SIZEOF_SVC, SIZEOF_POL.
  assert (forall x, (4 * x) mod 4 = 0) as M4 by (intros x; rewrite Z.mul_comm; apply Z.mod_mul; lia).
  do 2 (apply pass_if; [done|]). do 3 (apply pass_if; [lia|]). apply pass_if; [done|]. apply pass_if; [lia|]. apply pass_if.
  { apply Z.ltb_ge, Z.div_le_lower_bound; [lia|]. destruct (decide (n = 0%nat)) as [E|Hne]; [rewrite E in *; simpl; lia|].
    rewrite u32_small by (unfold NG_MAX_SVC in Hn; lia). lia. }
  rewrite file_size in *.
  assert (forall off a nb, off = 4 * a -> off + nb <= 64 + 16 * Z.of_nat n + 4 * (Z.of_nat n + 1) + 4 * Z.of_nat (length es) + 16 * Z.of_nat n + Z.of_nat (length blob) ->
    negb (range_ok off nb (64 + 16 * Z.of_nat n + 4 * (Z.of_nat n + 1) + 4 * Z.of_nat (length es) + 16 * Z.of_nat n + Z.of_nat (length blob)) 4) = false) as R4.
  { intros off a nb -> Hb. apply negb_false_iff, range_fits; [by apply land3|done]. }
  apply pass_if; [apply negb_false_iff, range_fits; [done|lia]|].
  apply pass_if; [apply (R4 _ (16 + 4 * Z.of_nat n)); lia|].
  apply pass_if; [apply (R4 _ (16 + 4 * Z.of_nat n + Z.of_nat n + 1)); lia|].
  apply pass_if; [apply negb_false_iff, range_fits; [apply Z.land_0_r|lia]|].
  apply pass_if; [apply (R4 _ (16 + 4 * Z.of_nat n + Z.of_nat n + 1 + Z.of_nat (length es))); lia|].
  apply pass_if; [apply negb_false_iff, spans_chain|apply pass_if; [rewrite <- Ecrc; simpl; by rewrite Z.eqb_refl|done]].
  - repeat (apply Forall_cons; split); simpl; try lia. constructor.
  - repeat (apply SSorted_cons); try constructor; repeat (apply Forall_cons; split); simpl; try lia; constructor.
Qed.

Lemma file_ends : verify_ends img_file h = VOk tt.
Proof.
  destruct hdr_fields as (_ & F2 & _ & F4 & F5 & _). pose proof file_laid as HL. unfold verify_ends. rewrite F2, F4, F5.
  apply (pass_on _ tt).
  - destruct (Z.eqb_spec (Z.of_nat (length blob)) 0) as [|Hne]; [done|].
    assert (closed blob) as [x E].
    { apply Hend. destruct (decide (n = 0%nat)) as [E|]; [rewrite E in Hsize; unfold per_service in Hsize; lia|lia]. }
    apply (pass_on _ 0); [|done]. apply rd8_holds.
    replace (off_blob h + Z.of_nat (length blob) - 1) with (off_blob h + Z.of_nat (length x)) by (rewrite E, length_app; simpl; lia).
    apply (la_str _ _ _ _ _ _ HL). rewrite E. apply holds_end.
  - apply (pass_on _ tt).
    + destruct (Z.eqb_spec (Z.of_nat n) 0) as [|Hne]; [done|]. eapply pass_on; [apply (la_roff _ _ _ _ _ _ HL 0); lia|].
      apply pass_last. by rewrite n_before_none by lia.
    + eapply pass_on; [apply (la_roff _ _ _ _ _ _ HL); lia|]. apply pass_last.
      assert (n_before n es = length es) as ->; [|by rewrite Z.eqb_refl].
      unfold n_before. f_equal. apply filter_all. intros e He. rewrite Forall_forall in Hfwd. specialize (Hfwd e He). lia.
Qed.

(** With the services in their places the whole check passes. *)
Lemma file_verifies addr names (Hnames : NoDup names) :
  Z.land addr 7 = 0 -> c = ng_image_crc32c img_file ->
  (forall i, (i < n)%nat -> exists s d sv pl, at_place svs pls es blob i s d sv pl /\ names !! i = Some (s_name s)) ->
  (forall i, (i < n)%nat -> (i < nroots)%nat <-> n_into i es = 0%nat) ->
  ng_verify true addr img_file = VOk tt.
Proof.
  intros Ha Hcrc Hpl' Hr. pose proof file_laid as HL. pose proof (file_header addr Ha Hcrc) as Hhd.
  pose proof (safe_ok _ _ _ (verify_header_safe img_file file_bytes addr) Hhd) as Hok.
  destruct hdr_fields as (_ & F2 & F3 & _).
  assert (forall i, (i < n)%nat -> exists s d sv pl, at_place svs pls es blob i s d sv pl) as Hplace.
  { intros i Hi. destruct (Hpl' i Hi) as (s & d & sv & pl & HP & _). eauto. }
  assert (vfor (Z.to_nat (n_svc h)) 0 (verify_service img_file h) = VOk tt) as Hsvc.
  { apply vfor_ok. rewrite F2. intros i Hi. replace i with (Z.of_nat (Z.to_nat i)) by lia.
    apply (pass_service _ _ svs pls es blob); try done; [|lia]. intros j Hj. rewrite F3. specialize (Hr j Hj). lia. }
  unfold ng_verify. eapply pass_on; [exact Hhd|]. eapply pass_on; [exact file_ends|]. eapply pass_on; [exact Hsvc|].
  apply (pass_cross _ _ svs pls es blob HL Hfwd Hplace Hok) with (names := names); try done.
  - apply verify_loop_ok; [done|apply file_ends|done].
  - intros i s d sv pl HP. destruct (Hpl' i) as (s' & d' & sv' & pl' & HP' & Hnm); [apply (lookup_lt_Some _ _ sv), HP|].
    rewrite Hnm. f_equal. pose proof (place_name _ _ _ _ _ _ HL _ _ _ _ _ HP) as [E1 _].
    pose proof (place_name _ _ _ _ _ _ HL _ _ _ _ _ HP') as [E2 _]. congruence.
Qed.
End Assemble.

(** The checksum does not depend on the field it goes into. *)
Lemma image_crc_field a c h body :
  ng_image_crc32c (enc_hdr (with_crc a h) ++ body) = ng_image_crc32c (enc_hdr (with_crc c h) ++ body).
Proof. unfold ng_image_crc32c. rewrite !length_app, !length_enc_hdr. reflexivity. Qed.

Lemma image_crc_word img : word (ng_image_crc32c img).
Proof.
  unfold ng_image_crc32c. destruct (_ <? _); [by compute|]. unfold not32, u32, UINT32_MAX, word.
  match goal with |- context [?x mod _] => pose proof (Z.mod_pos_bound x 4294967296) end. lia.
Qed.
