(* ===== verification/Built.v ===== *)
(** * The image that ninitctl writes

    [build_image] on services as the parser leaves them: the error it ends with
    is true, or the image it writes passes [ng_verify] and holds the services in
    start order, each with its records, strings and row of dependents. *)

From stdpp Require Import sorting relations.
From S2P Require Import Prelude PidMap Ngraph Verify Build Link Visit Heap Schedule Desc Layout Emit Pass Assemble.

(** What is found in the image [img] of the services [srcs]. *)
Record holds_build (srcs : list src) (hash : Z) (img : bytes) (es : list arc) (o : ordered)
    (h : ng_hdr) (svs : list ng_svc) (pls : list ng_pol) (blob : bytes) : Prop := HoldsBuild {
  hb_hdr : rd_hdr img = VOk h;
  hb_small : Z.of_nat (length img) < 4294967296;
  hb_n : n_svc h = Z.of_nat (length srcs);
  hb_laid : laid img h svs pls (o_edges o) blob;
  hb_svc : length svs = length srcs;
  hb_pol : length pls = length srcs;
  hb_roots : n_roots h = Z.of_nat (o_nroots o);
  hb_hash : srcs_hash h = hash;
  hb_fwd : Forall (fun e => (e.1 < e.2 < length srcs)%nat) (o_edges o);
  hb_sorted : StronglySorted arc_lt (o_edges o);
  hb_order : o_order o ≡ₚ seq 0 (length srcs);
  hb_place : forall i x s, o_order o !! i = Some x -> srcs !! x = Some s ->
    exists d sv pl, at_place svs pls (o_edges o) blob i s d sv pl;
}.

(** The message about [onfail:warn] is right: as many services as it says
    depend on the service, directly or through others. *)
Definition warn_true (srcs : list src) (es : list arc) (d : death) : Prop := exists x s k,
  d = WarnWithDependents x (Z.of_nat k) /\ srcs !! x = Some s /\ s_have_onfail s = true /\ s_onfail s = NG_ONFAIL_WARN /\
  (0 < k)%nat /\ exists l, NoDup l /\ length l = k /\ forall y, y ∈ l <-> tc (fun a b => (a, b) ∈ es) x y.

Section Places.
Context (n : nat) (es es' : list arc) (order : list nat).
Context (Hperm : order ≡ₚ seq 0 n) (Hin : forall a b, (a, b) ∈ es -> (a < n)%nat /\ (b < n)%nat).
Context (Hedges : forall i j, (i, j) ∈ es' <-> exists a b, order !! i = Some a /\ order !! j = Some b /\ (a, b) ∈ es).

Lemma place_of x : (x < n)%nat -> exists i, order !! i = Some x.
Proof. intros Hx. apply list_elem_of_lookup. rewrite Hperm, elem_of_seq. lia. Qed.

Lemma place_inj i j x : order !! i = Some x -> order !! j = Some x -> i = j.
Proof. apply NoDup_lookup. rewrite Hperm. apply NoDup_seq. Qed.

(** To depend on a service and on its place are the same. *)
Lemma depends_services i x : order !! i = Some x -> forall y,
  tc (fun a b => (a, b) ∈ es) x y <-> exists j, order !! j = Some y /\ depends es' i j.
Proof.
  intros Hi y. split.
  - intros Ht. revert i Hi. induction Ht as [a b He|a b c He _ IH]; intros i Hi; destruct (Hin _ _ He) as [_ Hb];
      destruct (place_of b Hb) as [j Hj]; assert ((i, j) ∈ es') as He' by (apply Hedges; eauto).
    + exists j. split; [done|]. by apply tc_once.
    + destruct (IH j Hj) as (k & Hk & Hd). exists k. split; [done|]. by eapply tc_l.
  - intros (j & Hj & Hd). revert x Hi y Hj. induction Hd as [a b He|a b c He _ IH]; intros x Hx y Hy;
      apply Hedges in He as (x' & z & Hx' & Hz & He); rewrite Hx in Hx'; injection Hx' as <-.
    + rewrite Hy in Hz. injection Hz as <-. by apply tc_once.
    + eapply tc_l; [exact He|]. by apply IH.
Qed.

Lemma depends_renumber i x l : order !! i = Some x -> NoDup l -> (forall j, j ∈ l <-> depends es' i j) ->
  exists l', NoDup l' /\ length l' = length l /\ forall y, y ∈ l' <-> tc (fun a b => (a, b) ∈ es) x y.
Proof.
  intros Hi HN Hl. exists ((fun j => order !!! j) <$> l). rewrite length_fmap.
  assert (forall j, j ∈ l -> exists y, order !! j = Some y) as Hat.
  { intros j Hj. apply Hl in Hj.
    clear -Hj Hedges. induction Hj as [a b He|a b c He _ IH]; [|done]. apply Hedges in He as (_ & y & _ & Hy & _). eauto. }
  split_ands; [|done|].
  - apply NoDup_fmap_2_strong; [|done]. intros j k Hj Hk E. destruct (Hat j Hj) as [y Hy], (Hat k Hk) as [z Hz].
    rewrite (list_lookup_total_correct _ _ _ Hy), (list_lookup_total_correct _ _ _ Hz) in E. subst z. by apply (place_inj j k y).
  - intros y. rewrite (depends_services i x Hi y), list_elem_of_fmap. split.
    + intros (j & -> & Hj). destruct (Hat j Hj) as [z Hz]. exists j. rewrite (list_lookup_total_correct _ _ _ Hz).
      split; [done|]. by apply Hl.
    + intros (j & Hj & Hd). exists j. rewrite (list_lookup_total_correct _ _ _ Hj). split; [done|]. by apply Hl.
Qed.
End Places.

Section Write.
Context (addr : Z) (srcs : list src) (hash : Z) (es : list arc) (g : lgraph) (o : ordered).
Abbreviation n := (length srcs).
Context (Hok : Forall src_ok srcs) (Hnames : NoDup (s_name <$> srcs)) (Hn : Z.of_nat n <= NG_MAX_SVC).
Context (Haddr : Z.land addr 7 = 0) (Hhash : 0 <= hash < 18446744073709551616).
Context (Hin : Forall (arc_in n) es) (Hsort : StronglySorted arc_lt es) (Hrows : rows n es g) (Ho : ordering n es g o).

Lemma order_at_lt i x : o_order o !! i = Some x -> (i < n)%nat /\ (x < n)%nat.
Proof.
  intros Hi. apply lookup_lt_Some in Hi as Hl. rewrite (or_perm _ _ _ _ Ho), length_seq in Hl. split; [done|].
  apply list_elem_of_lookup_2 in Hi. rewrite (or_perm _ _ _ _ Ho), elem_of_seq in Hi. lia.
Qed.

Lemma order_at_place i : (i < n)%nat -> exists x s, o_order o !! i = Some x /\ srcs !! x = Some s.
Proof.
  intros Hi. destruct (lookup_lt_is_Some_2 (o_order o) i) as [x Hx]; [by rewrite (or_perm _ _ _ _ Ho), length_seq|].
  destruct (order_at_lt _ _ Hx) as [_ Hl]. destruct (lookup_lt_is_Some_2 srcs x Hl) as [s Hs]. eauto.
Qed.

(** The counters of the linker are those of the places. *)
Lemma place_indegree i x : o_order o !! i = Some x -> n_into i (o_edges o) = n_into x es /\ l_indeg g !! x = Some (n_into x es).
Proof.
  intros Hi. destruct (order_at_lt _ _ Hi) as [_ Hx]. split; [|by apply (ro_indeg _ _ _ Hrows)].
  apply (n_into_renumber (o_order o)); try done.
  - rewrite (or_perm _ _ _ _ Ho). apply NoDup_seq.
  - by apply sorted_nodup.
  - apply sorted_nodup, Ho.
  - intros e He. apply (arc_bound n es Hin) in He as [He _]. rewrite (or_perm _ _ _ _ Ho), elem_of_seq. lia.
  - apply Ho.
Qed.

Lemma indegree_lt x k : l_indeg g !! x = Some k -> (k < n)%nat.
Proof.
  intros Hk. apply lookup_lt_Some in Hk as Hx. rewrite (ro_indeg_len _ _ _ Hrows) in Hx.
  assert (x ∈ o_order o) as [i Hi]%list_elem_of_lookup by (rewrite (or_perm _ _ _ _ Ho), elem_of_seq; lia).
  destruct (place_indegree i x Hi) as [E1 E2]. destruct (order_at_lt _ _ Hi) as [Hl _].
  pose proof (n_into_lt n (o_edges o) (or_forward _ _ _ _ Ho) (or_sorted _ _ _ _ Ho) i Hl). rewrite Hk in E2. injection E2 as ->. lia.
Qed.

(** The names at their places. *)
Definition placed_names : list bytes := (fun x => (s_name <$> srcs) !!! x) <$> o_order o.

Lemma placed_name i x s : o_order o !! i = Some x -> srcs !! x = Some s -> placed_names !! i = Some (s_name s).
Proof.
  intros Hi Hs. unfold placed_names. rewrite list_lookup_fmap, Hi. simpl. f_equal.
  apply list_lookup_total_correct. by rewrite list_lookup_fmap, Hs.
Qed.

Lemma placed_distinct : NoDup placed_names.
Proof.
  apply NoDup_alt. intros i j nm Hi Hj. unfold placed_names in Hi, Hj.
  apply list_lookup_fmap_Some in Hi as (x & -> & Hi), Hj as (y & E & Hj).
  destruct (order_at_lt _ _ Hi) as [_ Hx], (order_at_lt _ _ Hj) as [_ Hy].
  destruct (lookup_lt_is_Some_2 (s_name <$> srcs) x) as [a Ha]; [by rewrite length_fmap|].
  destruct (lookup_lt_is_Some_2 (s_name <$> srcs) y) as [b Hb]; [by rewrite length_fmap|].
  rewrite (list_lookup_total_correct _ _ _ Ha), (list_lookup_total_correct _ _ _ Hb) in E. subst b.
  rewrite (NoDup_lookup _ _ _ _ Hnames Ha Hb) in Hi. by apply (place_inj n (o_order o) (or_perm _ _ _ _ Ho) i j y).
Qed.

Lemma warned_true d : warned srcs (o_order o) (o_edges o) d -> warn_true srcs es d.
Proof.
  intros (i & x & s & k & Hi & Hs & H1 & H2 & Hk & -> & l & HN & Hl & Hd).
  destruct (depends_renumber n es (o_edges o) (o_order o) (or_perm _ _ _ _ Ho)) with (i := i) (x := x) (l := l)
    as (l' & HN' & Hl' & Hd'); try done.
  - intros a b He. by apply (arc_bound n es Hin) in He.
  - apply Ho.
  - exists x, s, k. split_ands; try done. exists l'. split_ands; [done|congruence|done].
Qed.

(** The image of the records that the loop leaves. *)
Definition final_image (roff : list nat) (em : emitted) : bytes :=
  let body := img_body (e_svc em) (e_pol em) roff (o_edges o) (e_blob em) in
  let h := lay_header n (length (o_edges o)) (o_nroots o) (Z.of_nat (length (e_blob em))) hash in
  enc_hdr (with_crc (ng_image_crc32c (enc_hdr h ++ body)) h) ++ body.

Lemma emitted_place em i x s : emit_inv srcs g (o_order o) (o_edges o) n em -> o_order o !! i = Some x -> srcs !! x = Some s ->
  exists d sv pl, at_place (e_svc em) (e_pol em) (o_edges o) (e_blob em) i s d sv pl /\ svc_range sv /\ pol_range pl.
Proof.
  intros HE Hi Hs. destruct (order_at_lt _ _ Hi) as [Hil _].
  destruct (ei_all _ _ _ _ _ _ HE i Hil) as (x' & s' & ind & d & sv & pl & P1 & P2 & P3 & P4 & P5 & P6 & P7 & P8 & P9).
  rewrite Hi in P1. injection P1 as <-. rewrite Hs in P2. injection P2 as <-.
  destruct (place_indegree i x Hi) as [E1 E2]. rewrite P3 in E2. injection E2 as ->. rewrite <- E1 in P7.
  exists d, sv, pl. split; [|done]. constructor; try done; [by apply (Forall_lookup_1 _ _ _ _ Hok Hs)|].
  by rewrite (ei_svc _ _ _ _ _ _ HE).
Qed.

Lemma emitted_ranges em : emit_inv srcs g (o_order o) (o_edges o) n em -> Forall svc_range (e_svc em) /\ Forall pol_range (e_pol em).
Proof.
  intros HE. split; apply Forall_lookup; intros i y Hy; apply lookup_lt_Some in Hy as Hi;
    rewrite ?(ei_svc _ _ _ _ _ _ HE), ?(ei_pol _ _ _ _ _ _ HE) in Hi;
    destruct (order_at_place i Hi) as (x & s & Hx & Hs); destruct (emitted_place em i x s HE Hx Hs) as (d & sv & pl & HP & R1 & R2).
  - rewrite (ap_svc _ _ _ _ _ _ _ _ _ HP) in Hy. by injection Hy as <-.
  - rewrite (ap_pol _ _ _ _ _ _ _ _ _ HP) in Hy. by injection Hy as <-.
Qed.

Lemma final_image_spec roff em : emit_inv srcs g (o_order o) (o_edges o) n em -> length roff = (n + 1)%nat ->
  (forall v, (v <= n)%nat -> roff !! v = Some (n_before v (o_edges o))) ->
  ng_verify true addr (final_image roff em) = VOk tt /\
  exists h svs pls blob, holds_build srcs hash (final_image roff em) es o h svs pls blob.
Proof.
  intros HE HLr Hroff. pose proof (ei_svc _ _ _ _ _ _ HE) as L1. pose proof (ei_pol _ _ _ _ _ _ HE) as L2.
  destruct (emitted_ranges em HE) as [R1 R2]. pose proof (or_forward _ _ _ _ Ho) as Hf. pose proof (or_sorted _ _ _ _ Ho) as Hs.
  set (svs := e_svc em) in *. set (pls := e_pol em) in *. set (blob := e_blob em).
  set (body := img_body svs pls roff (o_edges o) blob). set (hd := img_hdr svs (o_edges o) blob (o_nroots o) hash).
  set (c := ng_image_crc32c (enc_hdr hd ++ body)).
  assert (final_image roff em = img_file svs pls roff (o_edges o) blob (o_nroots o) hash c) as Eimg.
  { unfold c, hd, body, img_file, img_hdr, final_image. cbv zeta. fold svs pls blob. by rewrite L1. }
  assert (c = ng_image_crc32c (final_image roff em)) as Ec.
  { rewrite Eimg. unfold c, img_file. fold hd body. apply (image_crc_field 0 c hd body). }
  pose proof (image_crc_word (enc_hdr hd ++ body)) as Hc. fold c in Hc. rewrite <- L1 in Hn, Hf, HLr, Hroff. rewrite Eimg in *.
  assert (length roff = S (length svs)) as HLr' by lia. assert (length pls = length svs) as HLp by congruence.
  pose proof (ei_size _ _ _ _ _ _ HE) as Hsz. rewrite <- L1 in Hsz. fold blob in Hsz.
  pose proof (ei_bytes _ _ _ _ _ _ HE) as Hb. pose proof (ei_end _ _ _ _ _ _ HE) as He. rewrite <- L1 in He.
  pose proof (or_nroots _ _ _ _ Ho) as Hnr. rewrite <- L1 in Hnr.
  split.
  - apply (file_verifies svs pls roff (o_edges o) blob (o_nroots o) hash c HLp Hn Hf Hs HLr' Hroff R1 R2 Hb Hsz He Hnr Hhash Hc addr
      placed_names placed_distinct Haddr Ec).
    + intros i Hi. rewrite L1 in Hi. destruct (order_at_place i Hi) as (x & s & Hx & Hsx).
      destruct (emitted_place em i x s HE Hx Hsx) as (d & sv & pl & HP & _). exists s, d, sv, pl. split; [done|]. by apply (placed_name i x).
    + intros i Hi. rewrite L1 in Hi. destruct (order_at_place i Hi) as (x & s & Hx & _).
      destruct (place_indegree i x Hx) as [E1 E2]. rewrite (or_roots _ _ _ _ Ho i x Hx), E2, E1. split; [by intros [= ->]|by intros ->].
  - exists (with_crc c hd), svs, pls, blob. constructor.
    + by apply file_rd_hdr.
    + by apply (sizes svs pls roff (o_edges o) blob (o_nroots o) hash c).
    + rewrite <- L1. by apply (hdr_fields svs pls roff (o_edges o) blob (o_nroots o) hash c).
    + by apply file_laid.
    + done.
    + done.
    + done.
    + done.
    + by rewrite L1 in Hf.
    + done.
    + apply Ho.
    + intros i x s Hx Hsx. destruct (emitted_place em i x s HE Hx Hsx) as (d & sv & pl & HP & _). eauto.
Qed.

Lemma write_image_spec : ends (write_image true addr srcs g o hash)
  (fun r => ng_verify true addr r.1 = VOk tt /\ exists h svs pls blob, holds_build srcs hash r.1 es o h svs pls blob)
  (warn_true srcs es).
Proof.
  pose proof (or_forward _ _ _ _ Ho) as Hf. pose proof (or_sorted _ _ _ _ Ho) as Hs.
  unfold write_image. apply ends_bind. eapply ends_mono; [apply (row_offsets_spec n (o_edges o) Hf)| |done].
  intros roff [HLr Hroff]. cbv zeta. apply ends_bind.
  eapply ends_mono; [apply (descendants_spec n (o_edges o) Hf Hs roff _ Hroff eq_refl)| |done]. intros desc [_ Hdesc].
  apply ends_bind. refine (ends_mono _ _ _ _ _ (emit_all srcs g (o_order o) roff desc (o_edges o) Hok Hn Hf
    (or_perm _ _ _ _ Ho) (ro_indeg_len _ _ _ Hrows) indegree_lt Hroff Hdesc (warn_true srcs es) warned_true) _ (fun _ H => H)).
  intros em HE. destruct (final_image_spec roff em HE HLr Hroff) as [HV HB].
  change (ends (match ng_verify true addr (final_image roff em) with
    | VOk _ => mret (final_image roff em, e_vague em) | VBad why => Die (FailedVerification why) | VFault => OutOfBounds | VDiverge => Unfinished end)
    (fun r => ng_verify true addr r.1 = VOk tt /\ exists h svs pls blob, holds_build srcs hash r.1 es o h svs pls blob) (warn_true srcs es)).
  rewrite HV. by apply ends_ret.
Qed.
End Write.

(** ** The compiler as a whole *)

(** The message [d] is true of the services. *)
Definition truthful (srcs : list src) (d : death) : Prop :=
  match d with
  | NamesNoService i rev nm => refers srcs i (rev, nm) /\ nm ∉ s_name <$> srcs
  | DependsOnItself i => exists rev nm, refers srcs i (rev, nm) /\ (s_name <$> srcs) !! i = Some nm
  | DependencyCycle p => exists es, (forall e, e ∈ es -> declared srcs e) /\ closed_walk es p
  | WarnWithDependents x nd => exists s l, srcs !! x = Some s /\ s_have_onfail s = true /\ s_onfail s = NG_ONFAIL_WARN /\
      0 < nd /\ nd = Z.of_nat (length l) /\ NoDup l /\ forall y, y ∈ l <-> tc (fun a b => declared srcs (a, b)) x y
  | NoReadyNode _ | FailedVerification _ => False
  end.

Lemma tc_ext {A} (R R' : relation A) x y : (forall a b, R a b <-> R' a b) -> tc R x y <-> tc R' x y.
Proof.
  assert (forall R R' : relation A, (forall a b, R a b -> R' a b) -> tc R x y -> tc R' x y) as H.
  { intros R1 R2 HR Ht. clear -HR Ht. induction Ht as [a b Hab|a b c Hab _ IH]; [apply tc_once|eapply tc_l]; eauto. }
  intros HR. split; apply H; intros a b; apply HR.
Qed.

Section Whole.
Context (addr : Z) (srcs : list src) (hash : Z).
Abbreviation n := (length srcs).
Context (Hok : Forall src_ok srcs) (Hnames : NoDup (s_name <$> srcs)) (Hn : Z.of_nat n <= NG_MAX_SVC).
Context (Haddr : Z.land addr 7 = 0) (Hhash : 0 <= hash < 18446744073709551616).

Lemma build_image_spec : ends (build_image true addr srcs hash)
  (fun r => ng_verify true addr r.1 = VOk tt /\ exists es o h svs pls blob,
    (forall e, e ∈ es <-> declared srcs e) /\
    (forall i j, (i, j) ∈ o_edges o <-> exists a b, o_order o !! i = Some a /\ o_order o !! j = Some b /\ (a, b) ∈ es) /\
    (forall i x, o_order o !! i = Some x -> (i < o_nroots o)%nat <-> n_into x es = 0%nat) /\
    holds_build srcs hash r.1 es o h svs pls blob) (truthful srcs).
Proof.
  unfold build_image. apply ends_bind. eapply ends_mono; [apply (link_graph_linked srcs Hnames)| |].
  2: { intros d [Hb|(es & p & -> & Hp)]; [by destruct d|]. simpl. eauto. }
  intros [es g] [[Hi Hs Hr Hh] Hd]. cbn [fst snd] in *.
  apply ends_bind. eapply ends_mono; [apply (order_graph_spec n es g Hi Hs Hr Hh)| |intros d Hf; exact Hf]. intros o Ho.
  eapply ends_mono; [apply (write_image_spec addr srcs hash es g o Hok Hnames Hn Haddr Hhash Hi Hs Hr Ho)| |].
  - intros r [HV (h & svs & pls & blob & HB)]. split; [done|]. exists es, o, h, svs, pls, blob. split_ands; [done|apply Ho| |done].
    intros i x Hx. rewrite (or_roots _ _ _ _ Ho i x Hx). destruct (place_indegree srcs es g o Hi Hs Hr Ho i x Hx) as [_ ->].
    split; [by intros [= ->]|by intros ->].
  - intros d (x & s & k & -> & Hx & H1 & H2 & Hk & l & HN & Hl & Hd'). exists s, l. split_ands; try done; try lia.
    intros y. rewrite Hd'. apply tc_ext. intros a b. apply Hd.
Qed.
End Whole.

(** The graph [gr] is that of the services, the service [x] at the place where
    [order] has it. *)
Record graph_of (srcs : list src) (order : list nat) (gr : graph) : Prop := GraphOf {
  go_order : order ≡ₚ seq 0 (length srcs);
  go_n : g_n gr = length srcs;
  go_name : forall i x s, order !! i = Some x -> srcs !! x = Some s -> g_name gr !! i = Some (s_name s);
  go_edge : forall i j x y, order !! i = Some x -> order !! j = Some y -> edge gr i j <-> declared srcs (x, y);
  go_root : forall i x, order !! i = Some x -> (i < g_roots gr)%nat <-> ~ exists a, declared srcs (a, x);
  go_svc : forall i x s, order !! i = Some x -> srcs !! x = Some s -> exists sv p l,
    g_svc gr !! i = Some sv /\ g_pol gr !! i = Some p /\
    type sv = s_type s /\ notify_fd sv = s_notify s /\ ng_restart gr i = Some (negb (s_restart s =? 0)) /\
    (s_have_onfail s = true -> ng_onfail gr i = Some (s_onfail s)) /\
    start_ms p = s_start_ms s /\ stop_ms p = s_stop_ms s /\ retry_ms p = s_retry_ms s /\
    start_tries p = s_start_tries s /\ pflags p = s_pflags s /\
    n_desc sv = Z.of_nat (length l) /\ NoDup l /\ forall y, y ∈ l <-> tc (fun a b => declared srcs (a, b)) x y;
}.

Lemma n_into_none x (es : list arc) : n_into x es = 0%nat <-> ~ exists a, (a, x) ∈ es.
Proof.
  rewrite <- pend_nil, pend_zero. split.
  - intros H [a He]. apply H in He. by apply not_elem_of_nil in He.
  - intros H a He. destruct H. eauto.
Qed.

Section Read.
Context (srcs : list src) (hash : Z) (img : bytes) (es : list arc) (o : ordered) (h : ng_hdr).
Context (svs : list ng_svc) (pls : list ng_pol) (blob : bytes).
Context (HB : holds_build srcs hash img es o h svs pls blob) (Hd : forall e, e ∈ es <-> declared srcs e).
Context (Hin : forall a b, (a, b) ∈ es -> (a < length srcs)%nat /\ (b < length srcs)%nat).
Context (Hedges : forall i j, (i, j) ∈ o_edges o <-> exists a b, o_order o !! i = Some a /\ o_order o !! j = Some b /\ (a, b) ∈ es).
Context (Hroots : forall i x, o_order o !! i = Some x -> (i < o_nroots o)%nat <-> n_into x es = 0%nat).

Lemma read_lt i x : o_order o !! i = Some x -> (i < length srcs)%nat /\ (x < length srcs)%nat.
Proof.
  intros Hi. apply lookup_lt_Some in Hi as Hl. rewrite (hb_order _ _ _ _ _ _ _ _ _ HB), length_seq in Hl. split; [done|].
  apply list_elem_of_lookup_2 in Hi. rewrite (hb_order _ _ _ _ _ _ _ _ _ HB), elem_of_seq in Hi. lia.
Qed.

Lemma read_svc i x s d sv pl gr : o_order o !! i = Some x -> srcs !! x = Some s -> at_place svs pls (o_edges o) blob i s d sv pl ->
  g_svc gr = svs -> g_pol gr = pls -> exists sv p l,
    g_svc gr !! i = Some sv /\ g_pol gr !! i = Some p /\
    type sv = s_type s /\ notify_fd sv = s_notify s /\ ng_restart gr i = Some (negb (s_restart s =? 0)) /\
    (s_have_onfail s = true -> ng_onfail gr i = Some (s_onfail s)) /\
    start_ms p = s_start_ms s /\ stop_ms p = s_stop_ms s /\ retry_ms p = s_retry_ms s /\
    start_tries p = s_start_tries s /\ pflags p = s_pflags s /\
    n_desc sv = Z.of_nat (length l) /\ NoDup l /\ forall y, y ∈ l <-> tc (fun a b => declared srcs (a, b)) x y.
Proof.
  intros Hi Hs HP E1 E2. destruct (read_lt _ _ Hi) as [Hil Hxl]. pose proof (hb_fwd _ _ _ _ _ _ _ _ _ HB) as Hf.
  rewrite <- (hb_svc _ _ _ _ _ _ _ _ _ HB) in Hf, Hil.
  destruct (depends_renumber (length srcs) es (o_edges o) (o_order o) (hb_order _ _ _ _ _ _ _ _ _ HB) Hin Hedges i x (members d) Hi (members_nodup d))
    as (l & HN & Hl & Hdep).
  { intros j. by apply (members_spec (length svs) (o_edges o) Hf i d j Hil (ap_set _ _ _ _ _ _ _ _ _ HP)). }
  destruct (ap_built _ _ _ _ _ _ _ _ _ HP) as [B1 B2 B3 B4 (pol & f & B5 & Bp & Bq & Bx) B6 B7 (P1 & P2 & P3 & P4 & P5)].
  destruct (flag_parts pol (if negb (s_restart s =? 0) then NG_FLAG_RESTART else 0) f) as (F1 & F2 & _);
    [tauto|destruct (negb _); auto|by eapply exec_built_flag|]. rewrite <- B5 in F1, F2.
  exists sv, pl, l. unfold ng_restart, ng_onfail. rewrite E1, E2, (ap_svc _ _ _ _ _ _ _ _ _ HP), (ap_pol _ _ _ _ _ _ _ _ _ HP). simpl.
  split_ands; try done; [| | |].
  - rewrite F2. by destruct (negb (s_restart s =? 0)).
  - intros Hho. by rewrite F1, (Bq Hho).
  - by rewrite B3, Hl.
  - intros y. rewrite Hdep. apply tc_ext. intros a b. apply Hd.
Qed.

Lemma read_graph : exists gr, decode img = VOk gr /\ graph_of srcs (o_order o) gr.
Proof.
  pose proof (hb_laid _ _ _ _ _ _ _ _ _ HB) as HL. pose proof (hb_svc _ _ _ _ _ _ _ _ _ HB) as L1. pose proof (hb_pol _ _ _ _ _ _ _ _ _ HB) as L2.
  pose proof (hb_order _ _ _ _ _ _ _ _ _ HB) as Hp. pose proof (hb_sorted _ _ _ _ _ _ _ _ _ HB) as Hs.
  set (names := (fun x => (s_name <$> srcs) !!! x) <$> o_order o).
  assert (length names = length svs) as Ln by (unfold names; by rewrite length_fmap, Hp, length_seq).
  assert (forall i x s, o_order o !! i = Some x -> srcs !! x = Some s -> names !! i = Some (s_name s)) as Hnm.
  { intros i x s Hi Hsx. unfold names. rewrite list_lookup_fmap, Hi. simpl. f_equal.
    apply list_lookup_total_correct. by rewrite list_lookup_fmap, Hsx. }
  assert (forall i, (i < length svs)%nat -> exists x s, o_order o !! i = Some x /\ srcs !! x = Some s) as Hat.
  { intros i Hi. destruct (lookup_lt_is_Some_2 (o_order o) i) as [x Hx]; [rewrite Hp, length_seq; lia|].
    destruct (read_lt _ _ Hx) as [_ Hl]. destruct (lookup_lt_is_Some_2 srcs x Hl) as [s Hsx]. eauto. }
  exists (laid_graph h svs pls (o_edges o) names). split.
  - apply (laid_decode img h svs pls (o_edges o) blob HL); [| |apply HB|congruence|done].
    + intros i Hi. destruct (Hat i Hi) as (x & s & Hx & Hsx). destruct (hb_place _ _ _ _ _ _ _ _ _ HB i x s Hx Hsx) as (d & sv & pl & HP). eauto.
    + intros i s d sv pl HP. destruct (Hat i) as (x & s' & Hx & Hsx); [apply (lookup_lt_Some _ _ sv), HP|].
      destruct (hb_place _ _ _ _ _ _ _ _ _ HB i x s' Hx Hsx) as (d' & sv' & pl' & HP'). rewrite (Hnm _ _ _ Hx Hsx). f_equal.
      pose proof (place_name _ _ _ _ _ _ HL _ _ _ _ _ HP) as [E1 _]. pose proof (place_name _ _ _ _ _ _ HL _ _ _ _ _ HP') as [E2 _]. congruence.
  - constructor; [done|done|exact Hnm| | |].
    + intros i j x y Hi Hj. destruct (read_lt _ _ Hi) as [Hil _]. rewrite <- L1 in Hil. unfold edge. rewrite (laid_succs _ _ _ _ Hs) by done.
      rewrite <- Hd. split.
      * intros (l & [= <-] & He). apply elem_of_out in He. apply Hedges in He as (a & b & Ha & Hb & He).
        rewrite Hi in Ha. rewrite Hj in Hb. by injection Ha as <-; injection Hb as <-.
      * intros He. eexists. split; [done|]. apply elem_of_out, Hedges. eauto.
    + intros i x Hi. cbn [g_roots laid_graph]. rewrite (hb_roots _ _ _ _ _ _ _ _ _ HB), Nat2Z.id, (Hroots i x Hi), n_into_none.
      split; intros Hno [a Ha]; apply Hno; exists a; by apply Hd.
    + intros i x s Hi Hsx. destruct (hb_place _ _ _ _ _ _ _ _ _ HB i x s Hi Hsx) as (d & sv & pl & HP).
      by apply (read_svc i x s d sv pl).
Qed.
End Read.

(** Compiling ends, with a message that is true or an image that is accepted and
    decodes to the services. *)
Lemma build_image_outcome addr srcs hash : Forall src_ok srcs -> NoDup (s_name <$> srcs) ->
  Z.of_nat (length srcs) <= NG_MAX_SVC -> Z.land addr 7 = 0 -> 0 <= hash < 2 ^ 64 ->
  ends (build_image true addr srcs hash)
    (fun r => (forall addr', Z.land addr' 7 = 0 -> ng_verify true addr' r.1 = VOk tt) /\
       exists gr order h, decode r.1 = VOk gr /\ graph_of srcs order gr /\ rd_hdr r.1 = VOk h /\ srcs_hash h = hash) (truthful srcs).
Proof.
  intros Hok HN Hn Ha Hh. eapply ends_mono; [apply (build_image_spec addr srcs hash Hok HN Hn Ha Hh)| |done].
  intros [img v] [HV (es & o & h & svs & pls & blob & Hd & He & Hr & Hb)]. cbn [fst] in *. split.
  - intros addr' Ha'. unfold ng_verify, verify_header in *. change (alignof_hdr - 1) with 7 in *. by rewrite Ha' in *; rewrite Ha in HV.
  - assert (forall a b, (a, b) ∈ es -> (a < length srcs)%nat /\ (b < length srcs)%nat) as Hin.
    { intros a b Hab. apply Hd in Hab as [(nm & Hnm & s & Hs & _)|(nm & Hnm & s & Hs & _)]; simpl in *;
        apply lookup_lt_Some in Hnm, Hs; rewrite length_fmap in Hnm; done. }
    destruct (read_graph srcs hash img es o h svs pls blob Hb Hd Hin He Hr) as (gr & Hdec & Hg).
    exists gr, (o_order o), h. split_ands; [done|done|apply Hb|apply Hb].
Qed.

(** The file is one that [load_graph] takes. *)
Lemma build_image_file addr srcs hash : Forall src_ok srcs -> NoDup (s_name <$> srcs) ->
  Z.of_nat (length srcs) <= NG_MAX_SVC -> Z.land addr 7 = 0 -> 0 <= hash < 2 ^ 64 ->
  ends (build_image true addr srcs hash)
    (fun r => Z.of_nat (length r.1) < 4294967296 /\ exists h, rd_hdr r.1 = VOk h /\ n_svc h = Z.of_nat (length srcs)) (truthful srcs).
Proof.
  intros Hok HN Hn Ha Hh. eapply ends_mono; [apply (build_image_spec addr srcs hash Hok HN Hn Ha Hh)| |done].
  intros r [_ (es & o & h & svs & pls & blob & _ & _ & _ & [])]. split; [done|]. by exists h.
Qed.

(** C9. [ninitctl init] on services as the parser promises them, no two with one
    name, never fails on its own: it accesses no array out of bounds, every loop
    ends, the internal error of a graph that fails its own verification does not
    occur, and neither does that of a node that never gets ready. It either
    reports something that is true of the services (a name nobody has, a service
    that depends on itself, a cycle, a warning policy on a service with as many
    dependents as it says) or writes an image that [ng_verify] accepts, wherever
    it is loaded. *)
Theorem build_image_accepted addr srcs hash : Forall src_ok srcs -> NoDup (s_name <$> srcs) ->
  Z.of_nat (length srcs) <= NG_MAX_SVC -> Z.land addr 7 = 0 -> 0 <= hash < 2 ^ 64 ->
  match build_image true addr srcs hash with
  | Built (img, _) => forall addr', Z.land addr' 7 = 0 -> ng_verify true addr' img = VOk tt
  | Die d => truthful srcs d
  | OutOfBounds | Unfinished => False
  end.
Proof.
  intros Hok HN Hn Ha Hh. pose proof (build_image_outcome addr srcs hash Hok HN Hn Ha Hh) as H.
  destruct (build_image true addr srcs hash) as [[img v]|d| |]; simpl in H; try done. apply H.
Qed.

(** C8. Compiling and loading: the image that [ninitctl init] writes decodes to
    the graph of the services. There is an order of the services such that each
    is found at its place with its name, type, policy and number of dependents,
    an edge joins two places exactly when one of the services there declares it,
    and the roots are the services without a prerequisite. *)
Theorem build_image_decodes addr srcs hash img vague : Forall src_ok srcs -> NoDup (s_name <$> srcs) ->
  Z.of_nat (length srcs) <= NG_MAX_SVC -> Z.land addr 7 = 0 -> 0 <= hash < 2 ^ 64 ->
  build_image true addr srcs hash = Built (img, vague) ->
  exists gr order h, decode img = VOk gr /\ graph_of srcs order gr /\ rd_hdr img = VOk h /\ srcs_hash h = hash.
Proof.
  intros Hok HN Hn Ha Hh HB. pose proof (build_image_outcome addr srcs hash Hok HN Hn Ha Hh) as H. rewrite HB in H. apply H.
Qed.
