(* ===== verification/Argv.v ===== *)
(** * What a child executes (child_exec and exec_direct in src/spawn.c)

    After the fork the child builds its argument vector from the strings of the
    image, in an array of fixed size on its stack, and execs. A service with
    arguments of its own interpreter, or a bare command, is executed as it is;
    any other script goes to the shell. When nothing can be executed the child
    leaves a message for the log of the service and a status. *)

From stdpp Require Import sorting.
From stdpp Require Import sorting relations.
From S2P Require Import Prelude Ngraph PidMap Verify Build Link Visit Schedule Desc Layout Emit Pass Assemble Built.

Definition NG_SHELL : bytes := bs "/bin/bash".
Definition NG_SHELL_ARGV0 : bytes := bs "bash".
Definition NG_PATH : bytes := bs "PATH=/usr/local/sbin:/usr/local/bin:/usr/sbin:/usr/bin:/sbin:/bin".

(** [sizeof(NG_PATH) + NG_MAX_INTERP] *)
Definition EXEC_PATH_MAX : Z := Z.of_nat (length NG_PATH) + 1 + NG_MAX_INTERP.

Definition E_NOENT : Z := 2.
Definition E_NOEXEC : Z := 8.
Definition E_ACCES : Z := 13.
Definition E_NOTDIR : Z := 20.

(** ** Buffers of fixed size *)

(** [argv[k++] = s], and the NULL at the end. *)
Definition ARGV_SLOTS : Z := NG_MAX_EXEC_ARGS + 2.

Definition arg_put (argv : list bytes) (s : bytes) : vres (list bytes) :=
  if ARGV_SLOTS <=? Z.of_nat (length argv) then VFault else VOk (argv ++ [s]).

Definition arg_null (argv : list bytes) : vres (list bytes) :=
  if ARGV_SLOTS <=? Z.of_nat (length argv) then VFault else VOk argv.

(** [dst] of [cap] bytes holds [at] bytes so far. *)
Definition put_str (cap : Z) (dst s : bytes) : vres bytes :=
  if cap <? Z.of_nat (length dst + length s) then VFault else VOk (dst ++ s).

(** The digits of [v], the last first, in the slots left of [tmp]. *)
Fixpoint num_digits (slots : nat) (v : Z) (tmp : bytes) : vres bytes :=
  match slots with
  | O => VFault
  | S slots' =>
      let tmp := tmp ++ [48 + v mod 10] in
      if v / 10 =? 0 then VOk tmp else num_digits slots' (v / 10) tmp
  end.

Definition put_num (cap : Z) (dst : bytes) (v : Z) : vres bytes :=
  (vlet tmp := num_digits 10 v [] in put_str cap dst (reverse tmp))%vres.

(** The path tried: a directory, a slash and the command, with its NUL. *)
Definition put_path (s : bytes) : vres bytes :=
  if EXEC_PATH_MAX + 1 <? Z.of_nat (length s) + 1 then VFault else VOk s.

(** ** The search for a command *)

(** The text before the first [c], and the text after it. *)
Fixpoint str_cut (s : bytes) (c : Z) : bytes * bytes :=
  match s with
  | [] => ([], [])
  | x :: s' => if x =? c then ([], s') else let '(t, r) := str_cut s' c in (x :: t, r)
  end.

(** [execve] either replaces the process or gives an errno. *)
Inductive tried :=
  | Runs (prog : bytes) (argv : list bytes)
  | Fails (prog : bytes) (err : Z).

Section Exec.
Context (execve : bytes -> list bytes -> option Z).

(** The loop over the directories: [inl] when the command runs, else the errno
    to report and the directory it came from. *)
Fixpoint path_search (fuel : nat) (dirs cmd : bytes) (argv : list bytes) (err : Z) (hit : bytes)
    : vres (tried + Z * bytes) :=
  match dirs with
  | [] => VOk (inr (err, hit))
  | _ =>
      match fuel with
      | O => VDiverge
      | S fuel' =>
          let '(d, dirs') := str_cut dirs 58 in
          (vlet path := put_path (d ++ [47] ++ cmd) in
           match execve path argv with
           | None => VOk (inl (Runs path argv))
           | Some e =>
               if (e =? E_NOENT) || (e =? E_NOTDIR) then path_search fuel' dirs' cmd argv err hit
               else if negb (e =? E_ACCES) then VOk (inr (e, d))
               else path_search fuel' dirs' cmd argv e d
           end)%vres
      end
  end.

(** What follows when [path] was found and gave [err]. *)
Definition exec_found (argv : list bytes) (path : bytes) (err : Z) : tried :=
  if negb (err =? E_NOEXEC) then Fails path err
  else
    let argv := [NG_SHELL_ARGV0; path] ++ drop 2 argv in
    match execve NG_SHELL argv with
    | None => Runs NG_SHELL argv
    | Some e => Fails NG_SHELL e
    end.

(** [argv[0]] is free, the command is [argv[1]]. *)
Definition exec_direct (argv : list bytes) : vres tried :=
  (vlet cmd := of_opt (argv !! 1%nat) in
   if existsb (Z.eqb 47) cmd then
     vlet path := put_path cmd in
     match execve path (drop 1 argv) with
     | None => VOk (Runs path (drop 1 argv))
     | Some e => VOk (exec_found argv path e)
     end
   else
     vlet r := path_search (length NG_PATH) (drop 5 NG_PATH) cmd (drop 1 argv) E_NOENT [] in
     match r with
     | inl t => VOk t
     | inr (err, hit) =>
         if (length hit =? 0)%nat then VOk (Fails cmd err)
         else vlet path := put_path (hit ++ [47] ++ cmd) in VOk (exec_found argv path err)
     end)%vres.

(** ** The strings of the image *)

(** [for(; *p; p += strlen(p) + 1) argv[k++] = p]; the array is full before the
    steps run out. *)
Fixpoint read_args (fuel : nat) (img : bytes) (p : Z) (argv : list bytes) : vres (Z * list bytes) :=
  (vlet c := rd8 img p in
   if c =? 0 then VOk (p, argv) else
   match fuel with
   | O => VDiverge
   | S fuel' =>
       vlet s := cstr img p in
       vlet argv := arg_put argv s in
       read_args fuel' img (p + Z.of_nat (length s) + 1) argv
   end)%vres.

Definition args_fuel : nat := 19.

(** How the child goes on from the argument vector. *)
Definition child_run (img : bytes) (h : ng_hdr) (i : Z) : vres tried :=
  (vlet s := ng_svcs img h i in
   if has_flag (flags s) NG_FLAG_INTERP then
     vlet pl := ng_pol_at img h i in
     vlet (p, argv) := read_args args_fuel img (off_blob h + exec_off pl) [] in
     vlet sc := cstr img (off_blob h + script_off s) in
     vlet argv := arg_put argv sc in
     vlet (_, argv) := read_args args_fuel img (p + 1) argv in
     vlet argv := arg_null argv in
     vlet prog := of_opt (argv !! 0%nat) in
     match execve prog argv with
     | None => VOk (Runs prog argv)
     | Some e => VOk (Fails prog e)
     end
   else if has_flag (flags s) NG_FLAG_DIRECT then
     vlet pl := ng_pol_at img h i in
     vlet (_, argv) := read_args args_fuel img (off_blob h + exec_off pl) [[]] in
     vlet argv := arg_null argv in
     exec_direct argv
   else
     vlet sc := cstr img (off_blob h + script_off s) in
     vlet nm := ng_name_at img h i in
     let argv := [NG_SHELL_ARGV0; bs "-c"; sc; nm] in
     match execve NG_SHELL argv with
     | None => VOk (Runs NG_SHELL argv)
     | Some e => VOk (Fails NG_SHELL e)
     end)%vres.

(** The child runs a program, or leaves a message and exits. *)
Inductive child_end :=
  | Executes (prog : bytes) (argv : list bytes)
  | Exits (status : Z) (msg : bytes).

Definition fail_msg (prog : bytes) (err : Z) : vres bytes :=
  let cap := EXEC_PATH_MAX + 64 in
  (vlet m := put_str cap [] (bs "ninit: exec ") in
   vlet m := put_str cap m prog in
   vlet m := put_str cap m (bs ": errno ") in
   vlet m := put_num cap m err in
   put_str cap m [10])%vres.

Definition child_exec (img : bytes) (h : ng_hdr) (i : Z) : vres child_end :=
  (vlet t := child_run img h i in
   match t with
   | Runs prog argv => VOk (Executes prog argv)
   | Fails prog err =>
       vlet m := fail_msg prog (u32 err) in
       VOk (Exits (if err =? E_ACCES then 126 else 127) m)
   end)%vres.
End Exec.

(** ** The buffers are large enough *)

Lemma put_str_fits cap dst s : Z.of_nat (length dst + length s) <= cap -> put_str cap dst s = VOk (dst ++ s).
Proof. intros H. unfold put_str. destruct (Z.ltb_spec cap (Z.of_nat (length dst + length s))); [lia|done]. Qed.

Lemma num_digits_fit slots v tmp : (0 < slots)%nat -> 0 <= v < 10 ^ Z.of_nat slots ->
  returns (num_digits slots v tmp) (fun d => (length d <= length tmp + slots)%nat).
Proof.
  revert v tmp. induction slots as [|k IH]; intros v tmp H0 Hv; [lia|]. cbn [num_digits].
  destruct (Z.eqb_spec (v / 10) 0) as [|Hne]; [simpl; rewrite length_app; simpl; lia|].
  rewrite Nat2Z.inj_succ, Z.pow_succ_r in Hv by lia.
  assert (0 <= v / 10 < 10 ^ Z.of_nat k) by (split; [apply Z.div_pos; lia|apply Z.div_lt_upper_bound; lia]).
  destruct k as [|k]; [simpl in *; lia|]. eapply returns_mono; [apply IH; [lia|done]|]. intros d. rewrite length_app. simpl. lia.
Qed.

Lemma put_num_fits cap dst v : 0 <= v < 4294967296 -> Z.of_nat (length dst) + 10 <= cap ->
  returns (put_num cap dst v) (fun d => (length d <= length dst + 10)%nat).
Proof.
  intros Hv Hc. unfold put_num. eapply returns_bind; [apply (num_digits_fit 10 v []); [lia|simpl; lia]|].
  intros d Hd. simpl in Hd. rewrite put_str_fits by (rewrite length_reverse; lia). simpl. rewrite length_app, length_reverse. lia.
Qed.

Lemma fail_msg_fits prog err : Z.of_nat (length prog) <= EXEC_PATH_MAX -> returns (fail_msg prog (u32 err)) (fun _ => True).
Proof.
  intros Hp. unfold fail_msg. cbv zeta.
  assert (0 <= u32 err < 4294967296) as He by (apply Z.mod_pos_bound; lia). set (e := u32 err) in *. clearbody e.
  set (p := bs "ninit: exec ") in *. assert (length p = 12%nat) as Lp by reflexivity.
  set (q := bs ": errno "). assert (length q = 8%nat) as Lq by reflexivity. clearbody p q.
  rewrite put_str_fits by (simpl; lia). cbn [vbind app]. rewrite put_str_fits by lia. cbn [vbind].
  rewrite put_str_fits by (rewrite length_app; lia). cbn [vbind].
  eapply returns_bind; [apply put_num_fits; [done|rewrite !length_app; lia]|]. intros d Hd. rewrite !length_app in Hd.
  by rewrite put_str_fits by (simpl; lia).
Qed.

Lemma str_cut_lengths s c : let '(t, r) := str_cut s c in
  (length t + length r <= length s)%nat /\ (s <> [] -> (length r < length s)%nat).
Proof.
  induction s as [|x s IH]; simpl; [done|]. destruct (x =? c); [simpl; split; lia|].
  destruct (str_cut s c) as [t r]. destruct IH as [H1 H2]. simpl. split; [lia|]. intros _. lia.
Qed.

Section Bounds.
Context (execve : bytes -> list bytes -> option Z).

(** The program that could not be executed has a name that fits the message. *)
Definition named (t : tried) : Prop := match t with Fails prog _ => Z.of_nat (length prog) <= EXEC_PATH_MAX | _ => True end.

Lemma exec_found_named argv path err : Z.of_nat (length path) <= EXEC_PATH_MAX -> named (exec_found execve argv path err).
Proof.
  intros Hp. unfold exec_found. destruct (negb _); [done|]. cbv zeta. destruct (execve _ _); [|done]. simpl. unfold EXEC_PATH_MAX, NG_MAX_INTERP. simpl. lia.
Qed.

Lemma put_path_fits s : Z.of_nat (length s) <= EXEC_PATH_MAX -> put_path s = VOk s.
Proof. intros H. unfold put_path. destruct (Z.ltb_spec (EXEC_PATH_MAX + 1) (Z.of_nat (length s) + 1)); [lia|done]. Qed.

Lemma path_search_fits fuel dirs cmd argv err hit : (length dirs <= fuel)%nat -> (length dirs < length NG_PATH)%nat ->
  (length hit < length NG_PATH)%nat -> Z.of_nat (length cmd) <= NG_MAX_INTERP ->
  returns (path_search execve fuel dirs cmd argv err hit)
    (fun r => match r with inl t => named t | inr (_, d) => (length d < length NG_PATH)%nat end).
Proof.
  revert dirs err hit. induction fuel as [|fuel IH]; intros dirs err hit Hf Hd Hh Hc; destruct dirs as [|x dirs]; try done; [simpl in Hf; lia|].
  cbn [path_search]. pose proof (str_cut_lengths (x :: dirs) 58) as Hcut. destruct (str_cut (x :: dirs) 58) as [d r].
  destruct Hcut as [H1 H2]. specialize (H2 ltac:(done)).
  cbn [length] in *. assert (Z.of_nat (length (d ++ [47] ++ cmd)) <= EXEC_PATH_MAX) as Hp.
  { rewrite !length_app. cbn [length]. unfold EXEC_PATH_MAX. lia. }
  rewrite (put_path_fits _ Hp). cbn [vbind].
  destruct (execve _ _) as [e|]; [|done]. destruct (_ || _); [apply IH; lia|]. destruct (negb _); [cbn [returns]; lia|apply IH; lia].
Qed.

Lemma exec_direct_fits a0 cmd argv : Z.of_nat (length cmd) <= NG_MAX_INTERP -> returns (exec_direct execve (a0 :: cmd :: argv)) named.
Proof.
  intros Hc. unfold exec_direct. cbn [of_opt vbind lookup list_lookup]. destruct (existsb _ _).
  - rewrite put_path_fits by (unfold EXEC_PATH_MAX; lia). cbn [vbind]. destruct (execve _ _); [|done].
    apply exec_found_named. unfold EXEC_PATH_MAX. lia.
  - eapply returns_bind; [apply path_search_fits; [simpl; lia|simpl; lia|simpl; lia|done]|].
    intros [t|[err hit]] Hr; [done|]. destruct (length hit =? 0)%nat; [simpl; unfold EXEC_PATH_MAX; lia|].
    assert (Z.of_nat (length (hit ++ [47] ++ cmd)) <= EXEC_PATH_MAX) as Hp.
    { rewrite !length_app. cbn [length]. unfold EXEC_PATH_MAX. lia. }
    rewrite (put_path_fits _ Hp). cbn [vbind]. by apply exec_found_named.
Qed.
End Bounds.

(** ** What the verifier has read, the child can read *)

Lemma arg_put_fits argv s : Z.of_nat (length argv) < ARGV_SLOTS -> arg_put argv s = VOk (argv ++ [s]).
Proof. intros H. unfold arg_put. destruct (Z.leb_spec ARGV_SLOTS (Z.of_nat (length argv))); [lia|done]. Qed.

Lemma strlen_cstr img p n : strlen img p = VOk n -> exists s, cstr img p = VOk s /\ n = Z.of_nat (length s).
Proof. unfold strlen. intros H. vok_inv. eauto. Qed.

Lemma fits_or_bound img blob blob_len off cap why s : fits_or img blob blob_len off cap why = VOk tt ->
  cstr img (blob + off) = VOk s -> Z.of_nat (length s) <= cap.
Proof.
  unfold fits_or, str_fits, memchr, cstr. intros H Hs. vok_inv. apply negb_false_iff in H. subst a.
  destruct (blob_len <=? off); [done|]. destruct (blob + off <? 0); [done|].
  set (k := if cap + 1 <? blob_len - off then cap + 1 else blob_len - off) in *.
  assert (Z.of_nat (length s) < Z.of_nat (Z.to_nat k)) as Hlt; [|unfold k in Hlt; destruct (Z.ltb_spec (cap + 1) (blob_len - off)); lia].
  clearbody k. revert s Hs Hv. generalize (drop (Z.to_nat (blob + off)) img) as l. clear. induction (Z.to_nat k) as [|n IH]; intros l s Hs Hm; [done|].
  destruct l as [|b l]; [done|]. cbn [cstr_of mem_chr] in *. destruct (b =? 0); [injection Hs as <-; simpl; lia|]. vok_inv.
  specialize (IH l a Hv Hm). simpl. lia.
Qed.

(** The strings of a list the verifier went over. *)
Definition first_is (img : bytes) (p : Z) (l : list bytes) : Prop :=
  forall c s, rd8 img p = VOk c -> c <> 0 -> cstr img p = VOk s -> exists l', l = s :: l'.

Lemma read_args_end fuel img p argv : rd8 img p = VOk 0 -> read_args fuel img p argv = VOk (p, argv).
Proof. intros H. destruct fuel; cbn [read_args]; by rewrite H. Qed.

Lemma read_args_next fuel img p argv c s : rd8 img p = VOk c -> c <> 0 -> cstr img p = VOk s ->
  Z.of_nat (length argv) < ARGV_SLOTS ->
  read_args (S fuel) img p argv = read_args fuel img (p + Z.of_nat (length s) + 1) (argv ++ [s]).
Proof.
  intros Hc Hne Hs Ha. cbn [read_args]. rewrite Hc. cbn [vbind]. destruct (Z.eqb_spec c 0); [done|]. rewrite Hs. cbn [vbind].
  by rewrite arg_put_fits.
Qed.

Lemma exec_list_read fuel img blob blob_len off args off' args' : exec_list fuel img blob blob_len off args = VOk (off', args') ->
  forall fuel' argv, (fuel <= fuel')%nat -> Z.of_nat (length argv) + (args' - args) < ARGV_SLOTS ->
  exists l, read_args fuel' img (blob + off) argv = VOk (blob + off', argv ++ l) /\ Z.of_nat (length l) = args' - args /\
    first_is img (blob + off) l.
Proof.
  revert off args. induction fuel as [|fuel IH]; intros off args H fuel' argv Hf Ha; cbn [exec_list] in H;
    apply vbind_ok in H as (c & Hc & H); destruct (Z.eqb_spec c 0) as [->|Hne].
  1, 3: injection H as <- <-; exists []; rewrite app_nil_r, (read_args_end _ _ _ _ Hc); split_ands; [done|simpl; lia|];
    intros c s Hc'; congruence.
  - done.
  - vok_inv. match goal with E : strlen _ _ = VOk _ |- _ => apply strlen_cstr in E as (s & Hs & ->) end.
    assert (args + 1 <= args') as Hge.
    { clear -H. revert H. generalize (off + Z.of_nat (length s) + 1) as o, (args + 1) as x. induction fuel as [|fuel IH]; intros o x H; cbn [exec_list] in H;
        apply vbind_ok in H as (c & _ & H); destruct (c =? 0); [injection H; lia|done|injection H; lia|]. vok_inv. apply IH in H. lia. }
    destruct fuel' as [|fuel']; [lia|]. destruct (IH _ _ H fuel' (argv ++ [s])) as (l & Hl & Hlen & _);
      [lia|rewrite length_app; simpl; lia|].
    exists (s :: l). split_ands.
    + rewrite (read_args_next fuel' img _ _ c s) by (done || lia).
      replace (blob + off + Z.of_nat (length s) + 1) with (blob + (off + Z.of_nat (length s) + 1)) by lia.
      rewrite Hl, <- app_assoc. done.
    + simpl. lia.
    + intros c' s' _ _ Hs'. rewrite Hs in Hs'. injection Hs' as <-. eauto.
Qed.

Lemma direct_args_read fuel img blob blob_len off args : direct_args fuel img blob blob_len off args = VOk tt -> args <= NG_MAX_EXEC_ARGS ->
  forall fuel' argv c, (fuel <= fuel')%nat -> rd8 img (blob + off) = VOk c -> c <> 0 ->
  Z.of_nat (length argv) + (17 - args) < ARGV_SLOTS ->
  exists p l, read_args fuel' img (blob + off) argv = VOk (p, argv ++ l) /\ Z.of_nat (length l) <= 17 - args /\
    first_is img (blob + off) l.
Proof.
  unfold NG_MAX_EXEC_ARGS. revert off args. induction fuel as [|fuel IH]; intros off args H Hn fuel' argv c Hf Hc Hne Ha; cbn [direct_args] in H; [done|].
  apply vbind_ok in H as (k & (s & Hs & ->)%strlen_cstr & H). apply vbind_ok in H as ([] & _ & H). apply vbind_ok in H as (c2 & Hc2 & H).
  destruct fuel' as [|fuel']; [lia|]. rewrite (read_args_next fuel' img _ _ c s) by (done || lia).
  replace (blob + off + Z.of_nat (length s) + 1) with (blob + (off + Z.of_nat (length s) + 1)) by lia.
  destruct (Z.eqb_spec c2 0) as [->|Hne2].
  - rewrite (read_args_end _ _ _ _ Hc2). eexists _, [s]. split_ands; [done|simpl; lia|].
    intros c' s' _ _ Hs'. rewrite Hs in Hs'. injection Hs' as <-. eauto.
  - vok_inv. unfold NG_MAX_EXEC_ARGS in *.
    destruct (IH _ _ H ltac:(lia) fuel' (argv ++ [s]) c2) as (p & l & Hl & Hlen & _); [lia|done|done|rewrite length_app; simpl; lia|].
    exists p, (s :: l). rewrite Hl, <- app_assoc. split_ands; [done|simpl; lia|].
    intros c' s' _ _ Hs'. rewrite Hs in Hs'. injection Hs' as <-. eauto.
Qed.

Section Accepted.
Context (img : bytes) (Himg : Forall is_byte img) (h : ng_hdr) (Hh : hdr_ok img h).
Context (execve : bytes -> list bytes -> option Z).

Lemma cstr_not_bad p why : cstr img p <> VBad why.
Proof.
  unfold cstr. destruct (p <? 0); [done|]. induction (drop (Z.to_nat p) img) as [|b l IH]; [done|]. cbn [cstr_of].
  destruct (b =? 0); [done|]. by destruct (cstr_of l).
Qed.

Lemma fits_reads off cap why : 0 <= off -> 0 <= cap -> fits_or img (off_blob h) (blob_len h) off cap why = VOk tt ->
  exists s, cstr img (off_blob h + off) = VOk s.
Proof.
  intros H0 Hc H. pose proof (safe_ok _ _ _ (safe_fits_or img h Hh off cap why H0 Hc) H) as (k & Hk & _ & Hz). destruct Hh.
  assert (safe (cstr img (off_blob h + off)) (fun _ => True)) as Hs.
  { eapply safe_mono; [apply (safe_cstr img _ (off_blob h + k)); [lia|lia|done]|done]. }
  destruct (proj1 (returns_ex _ _) (returns_safe _ _ Hs (cstr_not_bad _))) as (s & E & _). eauto.
Qed.

Lemma attempt_named prog argv : Z.of_nat (length prog) <= EXEC_PATH_MAX ->
  returns (match execve prog argv with None => VOk (Runs prog argv) | Some e => VOk (Fails prog e) end) named.
Proof. intros Hp. by destruct (execve prog argv). Qed.

(** The three ways to make the vector. *)
Lemma run_interp i s pl : ng_svcs img h i = VOk s -> ng_pol_at img h i = VOk pl -> has_flag (flags s) NG_FLAG_INTERP = true ->
  0 <= exec_off pl -> exec_problem img (off_blob h) (blob_len h) (exec_off pl) = VOk tt ->
  (exists sc, cstr img (off_blob h + script_off s) = VOk sc) -> returns (child_run execve img h i) named.
Proof.
  intros Hs Hpl Hf H0 Hx [sc Hsc]. pose proof (safe_exec_list img Himg h Hh) as Hsafe.
  unfold exec_problem in Hx. apply vbind_ok in Hx as ([] & Hlt & Hx). apply bad_if_ok in Hlt. apply vbind_ok in Hx as (c & Hc & Hx).
  apply vbind_ok in Hx as ([] & Hsl & Hx). apply bad_if_ok in Hsl. apply vbind_ok in Hx as ([] & Hfit & Hx).
  apply vbind_ok in Hx as ([off1 args1] & Hl1 & Hx). apply vbind_ok in Hx as ([] & Hlt1 & Hx). apply bad_if_ok in Hlt1.
  apply vbind_ok in Hx as ([off2 args2] & Hl2 & _).
  assert (0 <= off1 < blob_len h /\ 0 <= args1 <= 16) as [R1 R1'].
  { pose proof (safe_ok _ _ _ (Hsafe exec_fuel (exec_off pl) 0 ltac:(lia) ltac:(unfold exec_fuel; lia) ltac:(lia)) Hl1) as [? ?]. lia. }
  assert (args1 <= args2 <= 16) as R2.
  { pose proof (safe_ok _ _ _ (Hsafe exec_fuel (off1 + 1) args1 ltac:(lia) ltac:(unfold exec_fuel; lia) ltac:(lia)) Hl2) as [_ ?]. lia. }
  destruct (exec_list_read _ _ _ _ _ _ _ _ Hl1 args_fuel [] ltac:(unfold exec_fuel, args_fuel; lia)) as (l1 & E1 & N1 & F1);
    [unfold ARGV_SLOTS, NG_MAX_EXEC_ARGS; cbn [length]; lia|].
  destruct (fits_reads _ NG_MAX_INTERP _ H0 ltac:(unfold NG_MAX_INTERP; lia) Hfit) as [p0 Hp0].
  assert (c <> 0) as Hc0 by lia. destruct (F1 c p0 Hc Hc0 Hp0) as [l1' ->].
  destruct (exec_list_read _ _ _ _ _ _ _ _ Hl2 args_fuel ((p0 :: l1') ++ [sc]) ltac:(unfold exec_fuel, args_fuel; lia)) as (l2 & E2 & N2 & _);
    [rewrite length_app; unfold ARGV_SLOTS, NG_MAX_EXEC_ARGS; cbn [length] in *; lia|].
  unfold child_run. rewrite Hs. cbn [vbind]. rewrite Hf, Hpl. cbn [vbind]. rewrite E1. cbn [vbind app]. rewrite Hsc. cbn [vbind].
  rewrite arg_put_fits by (unfold ARGV_SLOTS, NG_MAX_EXEC_ARGS; cbn [length] in *; lia). cbn [vbind].
  replace (off_blob h + off1 + 1) with (off_blob h + (off1 + 1)) by lia. change ((p0 :: l1') ++ [sc]) with (p0 :: l1' ++ [sc]) in E2. cbn [app] in *. rewrite E2. cbn [vbind].
  unfold arg_null. destruct (Z.leb_spec ARGV_SLOTS (Z.of_nat (length (p0 :: (l1' ++ [sc]) ++ l2)))) as [Hle|_].
  { exfalso. cbn [length] in Hle, N1. rewrite !length_app in Hle. cbn [length] in Hle. unfold ARGV_SLOTS, NG_MAX_EXEC_ARGS in Hle. lia. }
  cbn [vbind lookup list_lookup of_opt]. apply attempt_named.
  pose proof (fits_or_bound _ _ _ _ _ _ _ Hfit Hp0). unfold EXEC_PATH_MAX. lia.
Qed.

Lemma run_direct i s pl : ng_svcs img h i = VOk s -> ng_pol_at img h i = VOk pl -> has_flag (flags s) NG_FLAG_INTERP = false ->
  has_flag (flags s) NG_FLAG_DIRECT = true -> 0 <= exec_off pl ->
  direct_problem img (off_blob h) (blob_len h) (exec_off pl) = VOk tt -> returns (child_run execve img h i) named.
Proof.
  intros Hs Hpl Hi Hf H0 Hx. unfold direct_problem in Hx. apply vbind_ok in Hx as ([] & Hlt & Hx). apply vbind_ok in Hx as (c & Hc & Hx).
  apply vbind_ok in Hx as ([] & Hne & Hx). apply bad_if_ok, Z.eqb_neq in Hne. apply vbind_ok in Hx as ([] & Hfit & Hx).
  apply vbind_ok in Hx as (cmd & Hcmd & Hx). apply vbind_ok in Hx as ([] & _ & Hx).
  destruct (direct_args_read _ _ _ _ _ _ Hx ltac:(unfold NG_MAX_EXEC_ARGS; lia) args_fuel [[]] c ltac:(unfold exec_fuel, args_fuel; lia) Hc Hne)
    as (p & l & E & Hl & F); [unfold ARGV_SLOTS, NG_MAX_EXEC_ARGS; cbn [length]; lia|].
  destruct (F c cmd Hc Hne Hcmd) as [l' ->]. unfold child_run. rewrite Hs. cbn [vbind]. rewrite Hi, Hf, Hpl. cbn [vbind]. rewrite E. cbn [vbind app].
  unfold arg_null. destruct (Z.leb_spec ARGV_SLOTS (Z.of_nat (length ([] :: cmd :: l')))) as [Hle|_].
  { exfalso. cbn [length] in *. unfold ARGV_SLOTS, NG_MAX_EXEC_ARGS in Hle. lia. }
  cbn [vbind]. apply exec_direct_fits. by apply (fits_or_bound _ _ _ _ _ _ _ Hfit Hcmd).
Qed.

Lemma run_shell i s nm : ng_svcs img h i = VOk s -> has_flag (flags s) NG_FLAG_INTERP = false -> has_flag (flags s) NG_FLAG_DIRECT = false ->
  (exists sc, cstr img (off_blob h + script_off s) = VOk sc) -> cstr img (off_blob h + name_off s) = VOk nm ->
  returns (child_run execve img h i) named.
Proof.
  intros Hs Hi Hf [sc Hsc] Hnm. unfold child_run, ng_name_at. rewrite Hs. cbn [vbind]. rewrite Hi, Hf, Hsc. cbn [vbind]. rewrite Hnm. cbn [vbind].
  apply attempt_named. by compute.
Qed.

Lemma child_run_fits i s : 0 <= i < n_svc h -> ng_svcs img h i = VOk s -> type s <> NG_TYPE_TARGET ->
  verify_strings img h s i = VOk tt -> verify_policy img h s i = VOk tt -> returns (child_run execve img h i) named.
Proof.
  intros Hi Hs Ht Hst Hpo. pose proof (safe_ok _ _ _ (safe_svcs img Himg h Hh i Hi) Hs) as ((_ & Hno & Hso) & _).
  unfold verify_strings in Hst. do 2 (apply vbind_ok in Hst as ([] & _ & Hst)). apply vbind_ok in Hst as (nm & Hnm & Hst).
  do 3 (apply vbind_ok in Hst as ([] & _ & Hst)). apply Z.eqb_neq in Ht. rewrite Ht in Hst. apply vbind_ok in Hst as ([] & _ & Hfit).
  pose proof (fits_reads _ NG_MAX_SCRIPT _ Hso ltac:(unfold NG_MAX_SCRIPT; lia) Hfit) as Hsc.
  unfold verify_policy in Hpo. apply vbind_ok in Hpo as (pl & Hpl & Hpo). do 4 (apply vbind_ok in Hpo as ([] & _ & Hpo)).
  pose proof (safe_ok _ _ _ (safe_pol img Himg h Hh i Hi) Hpl) as He.
  destruct (has_flag (flags s) NG_FLAG_INTERP) eqn:Ei.
  - apply vbind_ok in Hpo as ([] & _ & Hpo). by apply (run_interp i s pl).
  - destruct (has_flag (flags s) NG_FLAG_DIRECT) eqn:Ed.
    + apply vbind_ok in Hpo as ([] & _ & Hpo). by apply (run_direct i s pl).
    + by apply (run_shell i s nm).
Qed.
End Accepted.

(** C30. The child of any service with a process, in any image that [ng_verify]
    accepts, reads only strings inside the image, stays inside its argument
    vector of [NG_MAX_EXEC_ARGS + 2] entries, its path buffer and its message
    buffer, and returns from the search for the command, whatever [execve]
    answers. *)
Theorem child_exec_bounded execve mem addr img h i s : Forall is_byte img -> ng_verify mem addr img = VOk tt ->
  rd_hdr img = VOk h -> 0 <= i < n_svc h -> ng_svcs img h i = VOk s -> type s <> NG_TYPE_TARGET ->
  exists e, child_exec execve img h i = VOk e.
Proof.
  intros Himg Hv Hrd Hi Hs Ht. unfold ng_verify in Hv. apply vbind_ok in Hv as (h' & Hhd & Hv).
  pose proof (safe_ok _ _ _ (verify_header_safe img Himg addr) Hhd) as Hh.
  assert (h' = h) as ->.
  { unfold verify_header in Hhd. vok_inv. congruence. }
  apply vbind_ok in Hv as ([] & _ & Hv). apply vbind_ok in Hv as ([] & Hl & _).
  apply vfor_ok with (k := i) in Hl; [|lia]. unfold verify_service in Hl. vok_inv.
  match goal with E : ng_svcs img h i = VOk ?x |- _ => assert (x = s) as -> by congruence end.
  assert (returns (child_run execve img h i) named) as Hr by (by apply (child_run_fits img Himg h Hh execve i s)).
  unfold child_exec. destruct (proj1 (returns_ex _ _) Hr) as (t & -> & Hn). cbn [vbind]. destruct t as [prog argv|prog err]; [eauto|].
  destruct (proj1 (returns_ex _ _) (fail_msg_fits prog err Hn)) as (m & -> & _). cbn [vbind]. eauto.
Qed.

(** * From the service file to execve

    The two programs together: what the compiler stores for a service is what
    the child of process 1 executes. *)

(** Reading a stored list of strings back. *)
Lemma read_args_holds img l : Forall arg_ok l -> forall p fuel argv, holds img p (strings l ++ [0]) ->
  (length l <= fuel)%nat -> Z.of_nat (length argv + length l) <= ARGV_SLOTS ->
  read_args fuel img p argv = VOk (p + Z.of_nat (length (strings l)), argv ++ l).
Proof.
  induction 1 as [|s l (Ht & Hne & Hc) HF IH]; intros p fuel argv H Hf Ha.
  - rewrite app_nil_r, Z.add_0_r. apply read_args_end. apply rd8_holds. exact H.
  - rewrite strings_cons in *. rewrite <- !app_assoc in H. cbn [length] in *. destruct fuel as [|fuel]; [lia|].
    destruct (args_first _ _ _ _ H Hne Ht) as (c & Hc' & Hc0 & _). rewrite (app_assoc s [0]) in H.
    apply holds_app in H as [H1 H2]. rewrite length_app in H2. cbn [length] in H2.
    rewrite (read_args_next fuel img p argv c s); [|done|done|by apply cstr_holds|lia].
    replace (p + Z.of_nat (length s + 1)) with (p + Z.of_nat (length s) + 1) in H2 by lia.
    rewrite (IH _ fuel (argv ++ [s]) H2); [|lia|rewrite length_app; cbn [length]; lia].
    rewrite !length_app, <- app_assoc. cbn [length app]. do 2 f_equal. lia.
Qed.

Section Intended.
Context (execve : bytes -> list bytes -> option Z).

(** What the service file asks for: its own interpreter with the script between
    its arguments, or the command line itself, or the script under the shell. *)
Definition intended (s : src) (sc : bytes) : vres tried :=
  match s_exec_pre s with
  | p0 :: pre =>
      let argv := (p0 :: pre) ++ [sc] ++ s_exec_suf s in
      VOk (match execve p0 argv with None => Runs p0 argv | Some e => Fails p0 e end)
  | [] =>
      match s_direct s with
      | c :: rest => exec_direct execve ([] :: c :: rest)
      | [] =>
          let argv := [NG_SHELL_ARGV0; bs "-c"; sc; s_name s] in
          VOk (match execve NG_SHELL argv with None => Runs NG_SHELL argv | Some e => Fails NG_SHELL e end)
      end
  end.

Context (img : bytes) (h : ng_hdr) (svs : list ng_svc) (pls : list ng_pol) (es : list arc) (blob : bytes).
Context (HL : laid img h svs pls es blob) (Hfwd : Forall (fun e => (e.1 < e.2 < length svs)%nat) es).

Lemma place_runs i s d sv pl sc : at_place svs pls es blob i s d sv pl -> s_script s = Some sc ->
  child_run execve img h (Z.of_nat i) = intended s sc.
Proof.
  intros HP Hsc. pose proof (ap_ok _ _ _ _ _ _ _ _ _ HP) as Hs. pose proof (so_script _ Hs) as Hst. rewrite Hsc in Hst. destruct Hst as (Htx & _ & Hnt).
  pose proof (place_flags svs pls es blob Hfwd _ _ _ _ _ HP) as (pol & x & _ & _ & _ & _ & F5 & F6 & _ & Hx).
  pose proof (sb_script _ _ _ _ _ _ (ap_built _ _ _ _ _ _ _ _ _ HP)) as Bsc. rewrite Hsc in Bsc.
  assert (cstr img (off_blob h + script_off sv) = VOk sc) as Esc by (apply cstr_holds; [by apply (la_str _ _ _ _ _ _ HL)|done]).
  destruct (place_name _ _ _ _ _ _ HL _ _ _ _ _ HP) as [Enm _]. pose proof (so_pre _ Hs) as Hpre. pose proof (so_direct _ Hs) as Hdir.
  pose proof (la_svc _ _ _ _ _ _ HL _ _ (ap_svc _ _ _ _ _ _ _ _ _ HP)) as Esv. pose proof (la_pol _ _ _ _ _ _ HL _ _ (ap_pol _ _ _ _ _ _ _ _ _ HP)) as Epl.
  unfold child_run, intended. rewrite Esv. cbn [vbind]. unfold has_flag. rewrite F5, F6. unfold exec_built in Hx.
  unfold NG_MAX_EXEC_ARGS in *. destruct (s_exec_pre s) as [|p0 pre].
  - specialize (Hdir eq_refl). destruct (s_direct s) as [|c rest].
    + destruct Hx as [-> _]. cbn [Z.land Z.eqb negb]. rewrite Esc. cbn [vbind]. rewrite Enm. cbn [vbind]. cbv zeta. by destruct (execve _ _).
    + destruct Hx as [-> Hx]. destruct Hdir as (_ & (Hct & Hcn & Hcl & _) & Hr & Hl). change (negb (Z.land NG_FLAG_DIRECT NG_FLAG_INTERP =? 0)) with false.
      change (negb (Z.land NG_FLAG_DIRECT NG_FLAG_DIRECT =? 0)) with true. cbv iota. rewrite Epl. cbn [vbind].
      assert (Forall arg_ok (c :: rest)) as Hall.
      { constructor; [|done]. split; [done|]. split; [done|]. unfold NG_MAX_INTERP, NG_MAX_EXEC_ARG in *. lia. }
      rewrite (read_args_holds img (c :: rest) Hall); [|by apply (la_str _ _ _ _ _ _ HL)|unfold args_fuel; cbn [length]; lia|unfold ARGV_SLOTS, NG_MAX_EXEC_ARGS; cbn [length]; lia].
      cbn [vbind app]. unfold arg_null. destruct (Z.leb_spec ARGV_SLOTS (Z.of_nat (length ([] :: c :: rest)))) as [Hle|_]; [|done].
      unfold ARGV_SLOTS, NG_MAX_EXEC_ARGS in Hle. cbn [length] in Hle. lia.
  - destruct Hx as [-> Hx]. destruct Hpre as (_ & _ & _ & Hp & Hsf & Hl). change (negb (Z.land NG_FLAG_INTERP NG_FLAG_INTERP =? 0)) with true.
    cbv iota. rewrite Epl. cbn [vbind].
    apply (la_str _ _ _ _ _ _ HL) in Hx. rewrite (app_assoc (strings (p0 :: pre)) [0]) in Hx. apply holds_app in Hx as [H1 H2].
    rewrite (read_args_holds img (p0 :: pre) Hp); [|done|unfold args_fuel; lia|unfold ARGV_SLOTS, NG_MAX_EXEC_ARGS; cbn [length] in *; lia].
    cbn [vbind app]. rewrite Esc. cbn [vbind].
    rewrite arg_put_fits by (unfold ARGV_SLOTS, NG_MAX_EXEC_ARGS; cbn [length] in *; lia). cbn [vbind].
    rewrite length_app in H2. cbn [length] in H2.
    replace (off_blob h + exec_off pl + Z.of_nat (length (strings (p0 :: pre)) + 1))
      with (off_blob h + exec_off pl + Z.of_nat (length (strings (p0 :: pre))) + 1) in H2 by lia.
    rewrite (read_args_holds img (s_exec_suf s) Hsf); [|done|unfold args_fuel; cbn [length] in *; lia|].
    2: { unfold ARGV_SLOTS, NG_MAX_EXEC_ARGS. rewrite length_app. cbn [length] in *. lia. }
    cbn [vbind]. unfold arg_null. destruct (Z.leb_spec ARGV_SLOTS (Z.of_nat (length (((p0 :: pre) ++ [sc]) ++ s_exec_suf s)))) as [Hle|_].
    { exfalso. rewrite !length_app in Hle. unfold ARGV_SLOTS, NG_MAX_EXEC_ARGS in Hle. cbn [length] in *. lia. }
    rewrite <- app_assoc. cbn [vbind app of_opt lookup list_lookup]. cbv zeta. by destruct (execve _ _).
Qed.
End Intended.

(** C15. The child of a service, in an image that [ninitctl init] wrote, executes
    what the service file asks for: its interpreter with the script between the
    interpreter's arguments, the bare command line looked up in the path, or the
    script under the shell with the name of the service as [$0]. *)
Theorem child_runs_service execve addr srcs hash img vague h : Forall src_ok srcs -> NoDup (s_name <$> srcs) ->
  Z.of_nat (length srcs) <= NG_MAX_SVC -> Z.land addr 7 = 0 -> 0 <= hash < 2 ^ 64 ->
  build_image true addr srcs hash = Built (img, vague) -> rd_hdr img = VOk h ->
  exists order, order ≡ₚ seq 0 (length srcs) /\ forall i x s sc, order !! i = Some x -> srcs !! x = Some s ->
    s_script s = Some sc -> child_run execve img h (Z.of_nat i) = intended execve s sc.
Proof.
  intros Hok HN Hn Ha Hh HB Hrd. pose proof (build_image_spec addr srcs hash Hok HN Hn Ha Hh) as H. rewrite HB in H.
  destruct H as [_ (es & o & h' & svs & pls & blob & _ & _ & _ & Hb)]. cbn [fst] in Hb.
  assert (h' = h) as -> by (pose proof (hb_hdr _ _ _ _ _ _ _ _ _ Hb); congruence).
  exists (o_order o). split; [apply Hb|]. intros i x s sc Hi Hs Hsc.
  destruct (hb_place _ _ _ _ _ _ _ _ _ Hb i x s Hi Hs) as (d & sv & pl & HP).
  apply (place_runs execve img h svs pls (o_edges o) blob (hb_laid _ _ _ _ _ _ _ _ _ Hb)) with (s := s) (d := d) (sv := sv) (pl := pl); try done.
  rewrite (hb_svc _ _ _ _ _ _ _ _ _ Hb). apply Hb.
Qed.
