(* ===== verification/Sample.v ===== *)
(** * Three services, compiled

    A target [basic] that needs a daemon [dbus] and a oneshot [fs], which the
    daemon needs too: the theorems about the graph compiler at this directory. *)

From stdpp Require Import sorting.
From S2P Require Import Prelude Ngraph Verify Build Link Visit Heap Schedule Compiler Desc Layout Emit Built Argv.

Definition sample_src (nm : string) (script : option bytes) (ty : Z) (pre direct depon : list bytes) : src :=
  Src (bs nm) script ty 0 false 0 0 0 0 0 0 0 depon [] pre [] direct.

Definition sample : list src :=
  [ sample_src "basic" None NG_TYPE_TARGET [] [] [bs "fs"; bs "dbus"];
    sample_src "dbus" (Some (bs "exec dbusd -n")) NG_TYPE_DAEMON [] [bs "dbusd"; bs "-n"] [bs "fs"];
    sample_src "fs" (Some (bs "mount -a")) NG_TYPE_ONESHOT [bs "/bin/sh"; bs "-e"] [] [] ].

Definition sample_edges : list arc := [(1, 0); (2, 0); (2, 1)]%nat.

Definition sample_graph : lgraph := Eval vm_compute in
  match link_graph sample with Built (_, g) => g | _ => LGraph 0 [] [] [] [] end.

Lemma sample_linked : link_graph sample = Built (sample_edges, sample_graph).
Proof. vm_compute. reflexivity. Qed.

Lemma sample_names : NoDup (s_name <$> sample).
Proof. apply NoDup_ListNoDup. repeat constructor; simpl; intuition discriminate. Qed.

Lemma link_graph_outcome_witness : match link_graph sample with
  | Built (es, g) => (forall e, e ∈ es <-> declared sample e) /\ forall p, ~ closed_walk es p
  | _ => False
  end.
Proof.
  pose proof (link_graph_outcome sample sample_names) as H. rewrite sample_linked in *.
  destruct H as (H1 & _ & _ & H2). by split.
Defined.

Lemma heights_longest_witness : exists h, l_height sample_graph !! 2%nat = Some h /\
  (forall l, walk sample_edges (2%nat :: l) -> (length l <= h)%nat) /\
  (exists l, walk sample_edges (2%nat :: l) /\ length l = h).
Proof. apply (heights_longest sample sample_edges sample_graph 2%nat sample_names sample_linked). simpl. lia. Defined.

Lemma schedule_is_list_scheduling_witness :
  schedule sample_graph = Built [2; 1; 0]%nat.
Proof.
  destruct (schedule_is_list_scheduling sample sample_edges sample_graph sample_names sample_linked) as [-> _].
  vm_compute. reflexivity.
Defined.

Lemma order_graph_forward_witness : exists o, order_graph sample_edges sample_graph = Built o /\
  Forall (fun e => (e.1 < e.2 < 3)%nat) (o_edges o) /\ o_nroots o = 1%nat.
Proof.
  destruct (order_graph_forward sample sample_edges sample_graph sample_names sample_linked)
    as (o & Ho & _ & _ & _ & Hf & _).
  exists o. split; [done|]. split; [exact Hf|]. vm_compute in Ho. by injection Ho as <-.
Defined.

(** ** The image *)

Lemma text_bs s : forallb (fun c => (0 <? c) && (c <? 256)) (bs s) = true -> text (bs s).
Proof. intros H. apply Forall_forall. intros c Hc%list_elem_of_In. rewrite forallb_forall in H. specialize (H c Hc). lia. Qed.

Lemma arg_bs s : forallb (fun c => (0 <? c) && (c <? 256)) (bs s) = true -> bs s <> [] ->
  Z.of_nat (length (bs s)) <= NG_MAX_EXEC_ARG -> arg_ok (bs s).
Proof. intros H1 H2 H3. split; [by apply text_bs|by split]. Qed.

Lemma sample_ok : Forall src_ok sample.
Proof.
  unfold sample. repeat (apply Forall_cons; split); [..|constructor]; constructor; simpl; try done; try (by apply text_bs); auto.
  - split; [by apply text_bs|done].
  - intros _. split; [done|]. split; [|split; [|done]].
    + split; [by apply text_bs|]. split_ands; try done. right. intros H%list_elem_of_In. simpl in H. intuition discriminate.
    + apply Forall_cons. split; [by apply arg_bs|constructor].
  - split; [by apply text_bs|done].
  - split_ands; try done. repeat (apply Forall_cons; split); [by apply arg_bs|by apply arg_bs|constructor].
Qed.

Definition sample_image : bytes := Eval vm_compute in
  match build_image true 4096 sample 7 with Built (img, _) => img | _ => [] end.

Lemma sample_built : build_image true 4096 sample 7 = Built (sample_image, 1%nat).
Proof. vm_compute. reflexivity. Qed.

Lemma build_image_accepted_witness : ng_verify true 8192 sample_image = VOk tt.
Proof.
  pose proof (build_image_accepted 4096 sample 7 sample_ok sample_names) as H. rewrite sample_built in H.
  apply H; [by compute|done|by compute|done].
Defined.

Lemma build_image_decodes_witness : exists gr order h, decode sample_image = VOk gr /\ graph_of sample order gr /\
  rd_hdr sample_image = VOk h /\ srcs_hash h = 7.
Proof.
  apply (build_image_decodes 4096 sample 7 sample_image 1%nat sample_ok sample_names); [by compute|done|by compute|apply sample_built].
Defined.

(** ** The children *)

Definition sample_hdr : ng_hdr := Eval vm_compute in
  match rd_hdr sample_image with VOk h => h | _ => NgHdr 0 0 0 0 0 0 0 0 0 0 0 0 0 0 0 end.

Definition sample_svc : ng_svc := Eval vm_compute in
  match ng_svcs sample_image sample_hdr 1 with VOk s => s | _ => NgSvc 0 0 0 0 0 0 0 end.

(** Only files of /usr/bin can be executed. *)
Definition sample_execve (path : bytes) (argv : list bytes) : option Z :=
  if bytes_eqb (take 9 path) (bs "/usr/bin/") then None else Some E_NOENT.

Lemma sample_bytes : Forall is_byte sample_image.
Proof. unfold sample_image. repeat (apply Forall_cons; split); try (unfold is_byte; lia). constructor. Qed.

Lemma child_exec_bounded_witness : exists e, child_exec sample_execve sample_image sample_hdr 1 = VOk e.
Proof.
  apply (child_exec_bounded sample_execve true 8192 sample_image sample_hdr 1 sample_svc sample_bytes);
    [vm_compute; reflexivity|vm_compute; reflexivity|vm_compute; split; congruence|vm_compute; reflexivity|done].
Defined.

Lemma child_runs_service_witness : child_run sample_execve sample_image sample_hdr 1 = VOk (Runs (bs "/usr/bin/dbusd") [bs "dbusd"; bs "-n"]) /\
  exists order, order ≡ₚ seq 0 3 /\ forall i x s sc, order !! i = Some x -> sample !! x = Some s ->
    s_script s = Some sc -> child_run sample_execve sample_image sample_hdr (Z.of_nat i) = intended sample_execve s sc.
Proof.
  split; [vm_compute; reflexivity|].
  apply (child_runs_service sample_execve 4096 sample 7 sample_image 1%nat sample_hdr sample_ok sample_names);
    [by compute|done|by compute|apply sample_built|vm_compute; reflexivity].
Defined.
