(* ===== verification/Text.v ===== *)
(** * Reading text in ninitctl (ctl/util.c, ctl/parser/directives.c)

    How the parsers end, with what they have written to stderr, and the parts of
    the C library they use. *)

From S2P Require Import Prelude.

(** ** How a parser ends

    It gives a result, or [die]s with a message; [Misread] is an access outside
    a buffer and [Endless] the end of the model's fuel. What has been written to
    stderr before is kept. *)
Inductive parsed (A : Type) : Type :=
  | Parsed (a : A) (err : list bytes)
  | Refused (msg : bytes) (err : list bytes)
  | Misread
  | Endless.
Arguments Parsed {A} a err.
Arguments Refused {A} msg err.
Arguments Misread {A}.
Arguments Endless {A}.

Definition PM (A : Type) : Type := list bytes -> parsed A.

#[export] Instance PM_ret : MRet PM := fun A a err => Parsed a err.

#[export] Instance PM_bind : MBind PM := fun A B f m err =>
  match m err with
  | Parsed a err' => f a err'
  | Refused msg err' => Refused msg err'
  | Misread => Misread
  | Endless => Endless
  end.

Definition die {A} (msg : bytes) : PM A := fun err => Refused msg err.

Definition warn (line : bytes) : PM unit := fun err => Parsed tt (err ++ [line]).

Definition misread {A} : PM A := fun _ => Misread.

Definition endless {A} : PM A := fun _ => Endless.

Definition die_when (b : bool) (msg : bytes) : PM unit := if b then die msg else mret tt.

(** [m] neither leaves a buffer nor runs on for ever; what it gives, if it gives
    something, satisfies [P]. *)
Definition yields {A} (m : PM A) (P : A -> Prop) : Prop := forall err,
  match m err with Parsed a _ => P a | Refused _ _ => True | _ => False end.

Section Yields.
Context {A B : Type}.
Implicit Types (P : A -> Prop) (Q : B -> Prop).

Lemma yields_ret (a : A) P : P a -> yields (mret a) P.
Proof. by intros Ha err. Qed.

Lemma yields_die msg P : yields (die msg) P.
Proof. by intros err. Qed.

Lemma yields_bind (m : PM A) (f : A -> PM B) P Q : yields m P -> (forall a, P a -> yields (f a) Q) -> yields (m ≫= f) Q.
Proof.
  intros Hm Hf err. unfold mbind, PM_bind. specialize (Hm err). destruct (m err) as [a err'| | |]; try done. by apply Hf.
Qed.

Lemma yields_mono (m : PM A) P P' : yields m P -> (forall a, P a -> P' a) -> yields m P'.
Proof. intros Hm HP err. specialize (Hm err). destruct (m err); auto. Qed.

Lemma yields_if (b : bool) (m1 m2 : PM A) P : (b = true -> yields m1 P) -> (b = false -> yields m2 P) -> yields (if b then m1 else m2) P.
Proof. destruct b; auto. Qed.
End Yields.

Lemma yields_die_when (b : bool) msg : yields (die_when b msg) (fun _ => b = false).
Proof. destruct b; [apply yields_die|by apply yields_ret]. Qed.

Lemma yields_when {B} (b : bool) msg (f : unit -> PM B) Q : (b = false -> yields (f tt) Q) -> yields (die_when b msg ≫= f) Q.
Proof. intros Hf. eapply yields_bind; [apply yields_die_when|]. intros []. exact Hf. Qed.

Lemma yields_warn line : yields (warn line) (fun _ => True).
Proof. by intros err. Qed.

(** ** The C library *)

(** [isspace] *)
Definition isspace (c : Z) : bool := (c =? 32) || ((9 <=? c) && (c <=? 13)).

Definition isdigit (c : Z) : bool := (48 <=? c) && (c <=? 57).

Fixpoint skip_isspace (s : bytes) : bytes :=
  match s with
  | c :: s' => if isspace c then skip_isspace s' else s
  | [] => []
  end.

(** The digits at the start of [s] as a number, and the text after them. *)
Fixpoint digits_at (s : bytes) (acc : Z) : Z * bytes :=
  match s with
  | c :: s' => if isdigit c then digits_at s' (acc * 10 + (c - 48)) else (acc, s)
  | [] => (acc, [])
  end.

Definition ULLONG_MAX : Z := 18446744073709551615.

(** [strtoull(s, &end, 10)]: the number, the text at [end], and whether errno is
    ERANGE. *)
Definition strtoull (s : bytes) : Z * bytes * bool :=
  let t := skip_isspace s in
  let '(neg, t) := match t with 45 :: t' => (true, t') | 43 :: t' => (false, t') | _ => (false, t) end in
  match t with
  | c :: _ =>
      if isdigit c then
        let '(v, rest) := digits_at t 0 in
        if ULLONG_MAX <? v then (ULLONG_MAX, rest, true) else (if neg : bool then (- v) mod (ULLONG_MAX + 1) else v, rest, false)
      else (0, s, false)
  | [] => (0, s, false)
  end.

Lemma digits_at_nonneg s acc : 0 <= acc -> 0 <= (digits_at s acc).1.
Proof.
  revert acc. induction s as [|c s IH]; intros acc Ha; simpl; [done|]. unfold isdigit.
  destruct (Z.leb_spec 48 c), (Z.leb_spec c 57); simpl; try done. apply IH. lia.
Qed.

Lemma strtoull_nonneg s : 0 <= (strtoull s).1.1.
Proof.
  unfold strtoull. cbv zeta. destruct (match skip_isspace s with 45 :: t' => _ | 43 :: t' => _ | _ => _ end) as [neg t].
  destruct t as [|c t]; [done|]. destruct (isdigit c); [|done]. pose proof (digits_at_nonneg (c :: t) 0 ltac:(lia)) as Hd.
  destruct (digits_at (c :: t) 0) as [v rest]. simpl in Hd. destruct (_ <? v); [done|]. simpl. destruct neg; [|done].
  by apply Z.mod_pos_bound.
Qed.

(** ** Buffers rewritten in place

    A buffer of [length s] bytes and a NUL behind them. *)
Definition rd (s : bytes) (i : nat) : PM Z :=
  match s !! i with
  | Some c => mret c
  | None => if decide (i = length s) then mret 0 else misread
  end.

(** [out] has been written over the start of [s]. *)
Definition buf (out s : bytes) : bytes := out ++ drop (length out) s.

(** The bytes from [i] up to [e]. *)
Definition slice (s : bytes) (i e : nat) : bytes := take (e - i) (drop i s).

(** The length of the longest start of [s] that satisfies [f]. *)
Fixpoint run_of (f : Z -> bool) (s : bytes) : nat :=
  match s with
  | c :: s' => if f c then S (run_of f s') else O
  | [] => O
  end.

Lemma run_of_le f s : (run_of f s <= length s)%nat.
Proof. induction s as [|c s IH]; simpl; [lia|]. destruct (f c); lia. Qed.

(** How often [c] occurs. *)
Definition occ (c : Z) (s : bytes) : nat := length (filter (fun x => x = c) s).

Lemma count_app c a b : occ c (a ++ b) = (occ c a + occ c b)%nat.
Proof. unfold occ. by rewrite filter_app, length_app. Qed.

Lemma count_cons c x s : occ c (x :: s) = ((if decide (x = c) then 1 else 0) + occ c s)%nat.
Proof. unfold occ. rewrite filter_cons. by destruct (decide (x = c)). Qed.

Lemma occ_none c s : c ∉ s -> occ c s = 0%nat.
Proof.
  induction s as [|x s IH]; [done|]. rewrite not_elem_of_cons, count_cons. intros [Hx Hs]. rewrite decide_False by congruence. by rewrite IH.
Qed.

Lemma occ_replicate c n : occ c (replicate n c) = n.
Proof. induction n as [|n IH]; [done|]. simpl. by rewrite count_cons, decide_True, IH by done. Qed.

Lemma buf_drop out s i : (length out <= i)%nat -> drop i (buf out s) = drop i s.
Proof. intros Hi. unfold buf. rewrite drop_app_ge, drop_drop by done. f_equal. lia. Qed.

Lemma buf_length out s : (length out <= length s)%nat -> length (buf out s) = length s.
Proof. intros Hl. unfold buf. rewrite length_app, length_drop. lia. Qed.

Lemma buf_lookup out s i : (length out <= i)%nat -> buf out s !! i = s !! i.
Proof. intros Hi. rewrite <- (Nat.add_0_r i), <- !lookup_drop, buf_drop by done. done. Qed.

Lemma buf_last out s i : length out = S i -> buf out s !! i = last out.
Proof. intros Hl. unfold buf. rewrite last_lookup, Hl. simpl. apply lookup_app_l. lia. Qed.

Lemma drop_slice s i e : (i <= e)%nat -> drop i s = slice s i e ++ drop e s.
Proof. intros Hie. unfold slice. rewrite <- (take_drop (e - i) (drop i s)) at 1. rewrite drop_drop. do 2 f_equal. lia. Qed.

Lemma length_slice s i e : (i <= e <= length s)%nat -> length (slice s i e) = (e - i)%nat.
Proof. intros Hie. unfold slice. rewrite length_take, length_drop. lia. Qed.

Lemma slice_sub s i e x : x ∈ slice s i e -> x ∈ s.
Proof.
  unfold slice. intros (k & Hk & _)%elem_of_take. rewrite lookup_drop in Hk. by eapply list_elem_of_lookup_2.
Qed.

(** A read inside the buffer or at its NUL. *)
Lemma rd_ok s i : (i <= length s)%nat -> exists c, (forall err, rd s i err = Parsed c err) /\
  (s !! i = Some c \/ i = length s /\ s !! i = None /\ c = 0).
Proof.
  intros Hi. unfold rd. destruct (s !! i) as [c|] eqn:Hc; [exists c; auto|]. rewrite decide_True; [exists 0|]; [|apply lookup_ge_None in Hc; lia].
  split; [done|]. right. apply lookup_ge_None in Hc. split; [lia|done].
Qed.

Lemma yields_rd {B} s i (f : Z -> PM B) Q : (i <= length s)%nat ->
  (forall c, s !! i = Some c \/ i = length s /\ s !! i = None /\ c = 0 -> yields (f c) Q) -> yields (rd s i ≫= f) Q.
Proof.
  intros Hi Hf err. destruct (rd_ok s i Hi) as (c & Hc & Hs). unfold mbind, PM_bind. rewrite Hc. by apply Hf.
Qed.

(** A read inside the buffer. *)
Lemma yields_rd_in {B} s i (f : Z -> PM B) Q : (i < length s)%nat -> (forall c, s !! i = Some c -> yields (f c) Q) -> yields (rd s i ≫= f) Q.
Proof.
  intros Hi Hf. apply yields_rd; [lia|]. intros c [Hc|(He & _)]; [by apply Hf|lia].
Qed.
