(* ===== verification/Directives.v ===== *)
(** * The header of a service file (ctl/parser/directives.c, ctl/parser/parser.h)

    Directives are the lines [#%key: value] before the first command. They are
    read into a [psrc]; what follows is stored by the language of the file, which
    is an interface here as it is in the code ([struct lang]). *)

From S2P Require Import Prelude Ngraph Build Text.

(** ** What is left of a file *)

(** [struct src]: what the compiler reads, and what only the parser does. *)
Record psrc := PSrc {
  p_src : src;
  have_type : bool;
  interp : bytes;
  iargs : list bytes;
  stripped : bool;
  (** [name] of the language the script is in *)
  p_lang : bytes;
}.

Definition set_src (f : src -> src) (p : psrc) : psrc := PSrc (f (p_src p)) (have_type p) (interp p) (iargs p) (stripped p) (p_lang p).
Definition set_have_type (v : bool) (p : psrc) : psrc := PSrc (p_src p) v (interp p) (iargs p) (stripped p) (p_lang p).
Definition set_interp (v : bytes) (p : psrc) : psrc := PSrc (p_src p) (have_type p) v (iargs p) (stripped p) (p_lang p).
Definition set_iargs (v : list bytes) (p : psrc) : psrc := PSrc (p_src p) (have_type p) (interp p) v (stripped p) (p_lang p).
Definition set_stripped (v : bool) (p : psrc) : psrc := PSrc (p_src p) (have_type p) (interp p) (iargs p) v (p_lang p).
Definition set_lang (v : bytes) (p : psrc) : psrc := PSrc (p_src p) (have_type p) (interp p) (iargs p) (stripped p) v.

Definition set_script (v : option bytes) (s : src) : src :=
  Src (s_name s) v (s_type s) (s_onfail s) (s_have_onfail s) (s_restart s) (s_notify s) (s_start_ms s) (s_stop_ms s) (s_retry_ms s)
    (s_start_tries s) (s_pflags s) (s_depon s) (s_depof s) (s_exec_pre s) (s_exec_suf s) (s_direct s).
Definition set_type (v : Z) (s : src) : src :=
  Src (s_name s) (s_script s) v (s_onfail s) (s_have_onfail s) (s_restart s) (s_notify s) (s_start_ms s) (s_stop_ms s) (s_retry_ms s)
    (s_start_tries s) (s_pflags s) (s_depon s) (s_depof s) (s_exec_pre s) (s_exec_suf s) (s_direct s).
Definition set_onfail (v : Z) (s : src) : src :=
  Src (s_name s) (s_script s) (s_type s) v true (s_restart s) (s_notify s) (s_start_ms s) (s_stop_ms s) (s_retry_ms s)
    (s_start_tries s) (s_pflags s) (s_depon s) (s_depof s) (s_exec_pre s) (s_exec_suf s) (s_direct s).
Definition set_restart (v : Z) (s : src) : src :=
  Src (s_name s) (s_script s) (s_type s) (s_onfail s) (s_have_onfail s) v (s_notify s) (s_start_ms s) (s_stop_ms s) (s_retry_ms s)
    (s_start_tries s) (s_pflags s) (s_depon s) (s_depof s) (s_exec_pre s) (s_exec_suf s) (s_direct s).
Definition set_notify (v : Z) (s : src) : src :=
  Src (s_name s) (s_script s) (s_type s) (s_onfail s) (s_have_onfail s) (s_restart s) v (s_start_ms s) (s_stop_ms s) (s_retry_ms s)
    (s_start_tries s) (s_pflags s) (s_depon s) (s_depof s) (s_exec_pre s) (s_exec_suf s) (s_direct s).
Definition set_start_ms (v : Z) (s : src) : src :=
  Src (s_name s) (s_script s) (s_type s) (s_onfail s) (s_have_onfail s) (s_restart s) (s_notify s) v (s_stop_ms s) (s_retry_ms s)
    (s_start_tries s) (s_pflags s) (s_depon s) (s_depof s) (s_exec_pre s) (s_exec_suf s) (s_direct s).
Definition set_stop_ms (v : Z) (s : src) : src :=
  Src (s_name s) (s_script s) (s_type s) (s_onfail s) (s_have_onfail s) (s_restart s) (s_notify s) (s_start_ms s) v (s_retry_ms s)
    (s_start_tries s) (s_pflags s) (s_depon s) (s_depof s) (s_exec_pre s) (s_exec_suf s) (s_direct s).
Definition set_retry_ms (v : Z) (s : src) : src :=
  Src (s_name s) (s_script s) (s_type s) (s_onfail s) (s_have_onfail s) (s_restart s) (s_notify s) (s_start_ms s) (s_stop_ms s) v
    (s_start_tries s) (s_pflags s) (s_depon s) (s_depof s) (s_exec_pre s) (s_exec_suf s) (s_direct s).
Definition set_start_tries (v : Z) (s : src) : src :=
  Src (s_name s) (s_script s) (s_type s) (s_onfail s) (s_have_onfail s) (s_restart s) (s_notify s) (s_start_ms s) (s_stop_ms s) (s_retry_ms s)
    v (s_pflags s) (s_depon s) (s_depof s) (s_exec_pre s) (s_exec_suf s) (s_direct s).
Definition set_pflags (v : Z) (s : src) : src :=
  Src (s_name s) (s_script s) (s_type s) (s_onfail s) (s_have_onfail s) (s_restart s) (s_notify s) (s_start_ms s) (s_stop_ms s) (s_retry_ms s)
    (s_start_tries s) v (s_depon s) (s_depof s) (s_exec_pre s) (s_exec_suf s) (s_direct s).
Definition set_depon (v : list bytes) (s : src) : src :=
  Src (s_name s) (s_script s) (s_type s) (s_onfail s) (s_have_onfail s) (s_restart s) (s_notify s) (s_start_ms s) (s_stop_ms s) (s_retry_ms s)
    (s_start_tries s) (s_pflags s) v (s_depof s) (s_exec_pre s) (s_exec_suf s) (s_direct s).
Definition set_depof (v : list bytes) (s : src) : src :=
  Src (s_name s) (s_script s) (s_type s) (s_onfail s) (s_have_onfail s) (s_restart s) (s_notify s) (s_start_ms s) (s_stop_ms s) (s_retry_ms s)
    (s_start_tries s) (s_pflags s) (s_depon s) v (s_exec_pre s) (s_exec_suf s) (s_direct s).
Definition set_exec (pre suf : list bytes) (s : src) : src :=
  Src (s_name s) (s_script s) (s_type s) (s_onfail s) (s_have_onfail s) (s_restart s) (s_notify s) (s_start_ms s) (s_stop_ms s) (s_retry_ms s)
    (s_start_tries s) (s_pflags s) (s_depon s) (s_depof s) pre suf (s_direct s).
Definition set_direct (v : list bytes) (s : src) : src :=
  Src (s_name s) (s_script s) (s_type s) (s_onfail s) (s_have_onfail s) (s_restart s) (s_notify s) (s_start_ms s) (s_stop_ms s) (s_retry_ms s)
    (s_start_tries s) (s_pflags s) (s_depon s) (s_depof s) (s_exec_pre s) (s_exec_suf s) v.

(** The zeroed record, with the name. *)
Definition first_src (fname : bytes) : src := Src fname None 0 0 false 0 0 0 0 0 0 0 [] [] [] [] [].

(** ** Text *)

Fixpoint trim_left (s : bytes) : bytes :=
  match s with
  | c :: s' => if (c =? 32) || (c =? 9) then trim_left s' else s
  | [] => []
  end.

Fixpoint trim_right (s : bytes) : bytes :=
  match s with
  | [] => []
  | c :: s' =>
      match trim_right s' with
      | [] => if (c =? 32) || (c =? 9) || (c =? 13) then [] else [c]
      | t => c :: t
      end
  end.

Definition trim (s : bytes) : bytes := trim_right (trim_left s).

Definition is_sep (comma : bool) (c : Z) : bool := (c =? 32) || (c =? 9) || (comma && (c =? 44)).

(** The words of [val]; [w] is the word being read. *)
Fixpoint split_into (comma : bool) (val w : bytes) : list bytes :=
  match val with
  | [] => if decide (w = []) then [] else [w]
  | c :: val' =>
      if is_sep comma c then (if decide (w = []) then [] else [w]) ++ split_into comma val' []
      else split_into comma val' (w ++ [c])
  end.

(** Whether a line has something other than blanks and a comment; [bol] at the
    beginning of a line. *)
Fixpoint has_code_from (bol : bool) (buf : bytes) : bool :=
  match buf with
  | [] => false
  | c :: buf' =>
      if bol && ((c =? 32) || (c =? 9)) then has_code_from true buf' else
      if c =? 10 then has_code_from true buf' else
      if bol && negb (c =? 35) && negb (c =? 13) then true else has_code_from false buf'
  end.

Definition has_code (buf : bytes) : bool := has_code_from true (cut0 buf).

Section Parse.
Context (g_dir : bytes).

Definition at_ (fname : bytes) : bytes := g_dir ++ bs "/" ++ fname ++ bs ": ".

Definition starts_minus (val : bytes) : bool := match val with 45 :: _ => true | _ => false end.

Definition parse_ms (val fname key : bytes) : PM Z :=
  let '(v, end_, range) := strtoull val in
  die_when (starts_minus val || range || bool_decide (end_ = val)) (at_ fname ++ key ++ bs ":" ++ val ++ bs " is not a duration");;
  mul ← (if decide (end_ = bs "ms") then mret 1 else
         if decide (end_ = []) then mret 1 else
         if decide (end_ = bs "s") then mret 1000 else
         if decide (end_ = bs "m") then mret 60000 else
         if decide (end_ = bs "h") then mret 3600000 else
         die (at_ fname ++ key ++ bs ":" ++ val ++ bs " has an unknown unit '" ++ end_ ++ bs "', expected ms, s, m or h"));
  die_when (NG_MAX_MS / mul <? v) (at_ fname ++ key ++ bs ":" ++ val ++ bs " exceeds the " ++ dec NG_MAX_MS ++ bs " ms maximum");;
  die_when (v * mul =? 0) (at_ fname ++ key ++ bs ":" ++ val ++ bs " must not be zero");;
  mret (v * mul).

(** A number between two bounds, and nothing after it. *)
Definition in_bounds (val : bytes) (lo hi : Z) (msg : bytes) : PM Z :=
  let '(v, end_, range) := strtoull val in
  die_when (starts_minus val || range || bool_decide (end_ = val) || bool_decide (end_ <> []) || (v <? lo) || (hi <? v)) msg;;
  mret v.

(** One directive. *)
Definition directive (fname key val : bytes) (p : psrc) : PM psrc :=
  if decide (key = bs "name") then
    die_when (negb (bool_decide (val = fname))) (at_ fname ++ bs "name:" ++ val ++ bs " does not match its filename");; mret p
  else if decide (key = bs "depon") then mret (set_src (fun s => set_depon (s_depon s ++ split_into true val []) s) p)
  else if decide (key = bs "depof") then mret (set_src (fun s => set_depof (s_depof s ++ split_into true val []) s) p)
  else if decide (key = bs "onfail") then
    if decide (val = bs "warn") then mret (set_src (set_onfail NG_ONFAIL_WARN) p)
    else if decide (val = bs "stop") then mret (set_src (set_onfail NG_ONFAIL_STOP) p)
    else if decide (val = bs "shell") then mret (set_src (set_onfail NG_ONFAIL_SHELL) p)
    else die (at_ fname ++ bs "unknown onfail:" ++ val ++ bs ", expected warn, stop or shell")
  else if decide (key = bs "restart") then
    if decide (val = bs "always") then mret (set_src (set_restart 1) p)
    else if decide (val = bs "no" \/ val = bs "never") then mret (set_src (set_restart 0) p)
    else die (at_ fname ++ bs "unknown restart:" ++ val ++ bs ", expected always or no")
  else if decide (key = bs "notify") then
    fd ← in_bounds val NG_NOTIFY_MIN NG_NOTIFY_MAX
           (at_ fname ++ bs "notify:" ++ val ++ bs " must be between " ++ dec NG_NOTIFY_MIN ++ bs " and " ++ dec NG_NOTIFY_MAX);
    mret (set_src (set_notify (u16 fd)) p)
  else if decide (key = bs "start-timeout") then ms ← parse_ms val fname key; mret (set_src (set_start_ms ms) p)
  else if decide (key = bs "stop-timeout") then ms ← parse_ms val fname key; mret (set_src (set_stop_ms ms) p)
  else if decide (key = bs "start-delay") then
    ms ← parse_ms val fname key;
    die_when (65535 <? ms) (at_ fname ++ bs "start-delay:" ++ val ++ bs " exceeds the " ++ dec 65535 ++ bs " ms maximum");;
    mret (set_src (set_retry_ms (u16 ms)) p)
  else if decide (key = bs "start-tries") then
    t ← in_bounds val 1 NG_MAX_TRIES (at_ fname ++ bs "start-tries:" ++ val ++ bs " must be between 1 and " ++ dec NG_MAX_TRIES);
    mret (set_src (set_start_tries (u8 t)) p)
  else if decide (key = bs "deps") then
    if decide (val = bs "uptime") then mret (set_src (fun s => set_pflags (Z.land (s_pflags s) (255 - NG_PF_ORDER_ONLY)) s) p)
    else if decide (val = bs "order") then mret (set_src (fun s => set_pflags (Z.lor (s_pflags s) NG_PF_ORDER_ONLY) s) p)
    else die (at_ fname ++ bs "unknown deps:" ++ val ++ bs ", expected uptime or order")
  else if decide (key = bs "type") then
    if decide (val = bs "oneshot") then mret (set_have_type true (set_src (set_type NG_TYPE_ONESHOT) p))
    else if decide (val = bs "daemon") then mret (set_have_type true (set_src (set_type NG_TYPE_DAEMON) p))
    else if decide (val = bs "target") then mret (set_have_type true (set_src (set_type NG_TYPE_TARGET) p))
    else die (at_ fname ++ bs "unknown type:" ++ val)
  else die (at_ fname ++ bs "unknown directive '" ++ key ++ bs "'").

(** A line of the header: nothing, or a directive. *)
Definition header_line (fname line : bytes) (p : psrc) : PM psrc :=
  match trim line with
  | 35 :: 37 :: rest =>
      let key := trim rest in
      if decide (key = []) then mret p else
      match past 58 key with
      | None => die (at_ fname ++ bs "directive without a key: #%" ++ key)
      | Some val => directive fname (trim (upto 58 key)) (trim val) p
      end
  | _ => mret p
  end.

Definition starts_hash (key : bytes) : bool := match key with 35 :: _ => true | _ => false end.

(** The lines up to the first that is a command; what is left from it on, the
    length of which is the offset of the code from the end. *)
Fixpoint header (fuel : nat) (fname line : bytes) (p : psrc) : PM (psrc * bytes) :=
  match fuel with
  | O => endless
  | S fuel' =>
      match line with
      | [] => mret (p, [])
      | _ =>
          let key := trim (upto 10 line) in
          if negb (bool_decide (key = [])) && negb (starts_hash key) then mret (p, line) else
          p ← header_line fname (upto 10 line) p;
          match past 10 line with
          | None => mret (p, [])
          | Some rest => header fuel' fname rest p
          end
      end
  end.

End Parse.
