(* ===== verification/Lang.v ===== *)
(** * The language of a service file (ctl/parser/lang.c, ctl/parser/lang.h)

    The interpreter a [#!] line names, through env and its options, selects the
    language that stores the script; the interpreter is looked up once, so that
    pid 1 can run it directly. *)

From S2P Require Import Prelude Ngraph Argv Build Text Directives.

(** ** Words *)

Definition word_sep (c : Z) : bool := (c =? 32) || (c =? 9) || (c =? 13).

Fixpoint skip_seps (s : bytes) : bytes :=
  match s with
  | c :: s' => if word_sep c then skip_seps s' else s
  | [] => []
  end.

Fixpoint word_upto (s : bytes) : bytes * bytes :=
  match s with
  | c :: s' => if word_sep c then ([], s) else let '(w, r) := word_upto s' in (c :: w, r)
  | [] => ([], [])
  end.

(** The next word, and the text after it. *)
Definition word_at (s : bytes) : bytes * bytes := word_upto (skip_seps s).

(** All the words of [s]. *)
Fixpoint words_of (fuel : nat) (s : bytes) : list bytes :=
  match fuel with
  | O => []
  | S fuel' => let '(w, r) := word_at s in if decide (w = []) then [] else w :: words_of fuel' r
  end.

Fixpoint rtrim (s : bytes) : bytes :=
  match s with
  | [] => []
  | c :: s' => match rtrim s' with [] => if word_sep c then [] else [c] | t => c :: t end
  end.

(** The text after the last slash. *)
Fixpoint str_base (s : bytes) : bytes :=
  match s with
  | [] => []
  | c :: s' => if decide (47 ∈ s') then str_base s' else if c =? 47 then s' else s
  end.

Definition str_prefix (s pre : bytes) : bool := bool_decide (take (length pre) s = pre).

(** ** A [#!] line *)

Inductive env_kind := ENV_PROG | ENV_SKIP | ENV_ARG | ENV_SPLIT (off : nat) | ENV_END.

(** A cluster of short options; [k] is the offset of [l] in the word. *)
Fixpoint env_cluster (l : bytes) (k : nat) : env_kind :=
  match l with
  | [] => ENV_SKIP
  | c :: l' =>
      if c =? 83 then ENV_SPLIT (S k) else
      if (c =? 97) || (c =? 67) || (c =? 117) then (if decide (l' = []) then ENV_ARG else ENV_SKIP) else
      env_cluster l' (S k)
  end.

(** What a word of an env command line is. *)
Definition env_word (w : bytes) (opts : bool) : env_kind :=
  let plain := if decide (61 ∈ w) then ENV_SKIP else ENV_PROG in
  if negb opts then plain else
  match w with
  | [45] => ENV_SKIP
  | 45 :: 45 :: l =>
      let name := upto 61 l in
      let eq := bool_decide (61 ∈ l) in
      if decide (name = []) then ENV_END else
      if str_prefix (bs "split-string") name then ENV_SPLIT (if eq then 3 + length name else length w) else
      if negb eq && (str_prefix (bs "argv0") name || str_prefix (bs "chdir") name || str_prefix (bs "unset") name) then ENV_ARG else
      ENV_SKIP
  | 45 :: l => env_cluster l 1
  | _ => plain
  end.

(** [while(what == ENV_SPLIT && off < w.n)] *)
Fixpoint env_split (fuel : nat) (w : bytes) (opts : bool) : bytes * env_kind :=
  match fuel with
  | O => (w, ENV_SKIP)
  | S fuel' =>
      match env_word w opts with
      | ENV_SPLIT off => if (off <? length w)%nat then env_split fuel' (drop off w) opts else (w, ENV_SPLIT off)
      | what => (w, what)
      end
  end.

(** The words after env, up to the program. *)
Fixpoint env_words (fuel : nat) (w rest : bytes) (opts : bool) : option (bytes * bytes) :=
  match fuel with
  | O => None
  | S fuel' =>
      if decide (w = []) then None else
      let '(w, what) := env_split (length w) w opts in
      match what with
      | ENV_PROG => Some (w, rest)
      | ENV_END => let '(w, rest) := word_at rest in env_words fuel' w rest false
      | ENV_ARG =>
          let '(a, rest) := word_at rest in
          if decide (a = []) then None else let '(w, rest) := word_at rest in env_words fuel' w rest opts
      | _ => let '(w, rest) := word_at rest in env_words fuel' w rest opts
      end
  end.

(** The program a [#!] line runs, and what follows it. *)
Definition parse_shebang (line : bytes) : option (bytes * bytes) :=
  let '(w, rest) := word_at (drop 2 line) in
  if decide (w = []) then None else
  if decide (str_base w = bs "env") then let '(w, rest) := word_at rest in env_words (S (length line)) w rest true
  else Some (w, rest).

Definition shebang_interp (line : bytes) : bytes :=
  match parse_shebang line with Some (prog, _) => str_base prog | None => [] end.

(** NAME followed by nothing but a version. *)
Definition claims_versioned (base name : bytes) : bool :=
  str_prefix base name && forallb (fun c => isdigit c || (c =? 46)) (drop (length name) base).

(** NAME with [q] and backslash escaped, between [head] and [tail]. *)
Definition escape_name (head name : bytes) (q : Z) (tail : bytes) : bytes :=
  head ++ concat ((fun c => if (c =? q) || (c =? 92) then [92; c] else [c]) <$> name) ++ tail.

(** Header lines become empty lines. *)
Definition blank_header (body : bytes) (code_off : nat) : bytes :=
  filter (fun c => c = 10) (take code_off body) ++ drop code_off body.

(** ** Languages *)

(** Why an argument of a [#!] line is refused. *)
Definition ARG_SCRIPT : bytes := bs "replaces the script".
Definition ARG_CODE : bytes := bs "adds code outside the script".
Definition ARG_EXIT : bytes := bs "exits before the script runs".
Definition ARG_LOOP : bytes := bs "loops the script over stdin, which is /dev/null".

(** [struct lang]: [store] gives the text to be stored; [bad_arg] the
    word that keeps the script from running as it is stored, and why; [check_argv]
    the program and the arguments that check the syntax of a script read from stdin. *)
Record lang := Lang {
  claims : bytes -> bool;
  store : psrc -> bytes -> nat -> PM (psrc * bytes);
  exec_args : option (src -> psrc -> list bytes * list bytes);
  bad_arg : list bytes -> option (bytes * bytes);
  lname : bytes;
  check_argv : psrc -> bytes * list bytes;
}.

(** The file system: the calls of ctl/util.c with their results. The root is the
    one of [--root], the second field of it what realpath(3) made of it. *)
Class FileSys := {
  g_dir : bytes;
  g_root : option (bytes * bytes);
  (** the mode of a path, or an errno *)
  os_stat : bytes -> Z + Z;
  (** access(2) for execution, realpath(3) *)
  os_access : bytes -> option Z;
  os_realpath : bytes -> option bytes;
  (** openat2(2) below the root, for a directory or anything; fstat(2) and the link in /proc/self/fd *)
  os_open_root : bytes -> bool -> Z + Z;
  os_fstat : Z -> Z + Z;
  os_fd_link : Z -> bytes;
  fs_strerror : Z -> bytes;
}.

Definition ENOSYS_ : Z := 38.
Definition EACCES_ : Z := 13.

Section Select.
Context `{FileSys}.

Fixpoint strip_slashes (s : bytes) : bytes :=
  match s with
  | [] => []
  | c :: s' => match strip_slashes s' with [] => if c =? 47 then [] else [c] | t => c :: t end
  end.

Definition g_root_pfx : bytes := match g_root with Some (dir, _) => strip_slashes dir | None => [] end.

Definition late_directive (fname line : bytes) : PM unit :=
  warn (bs "ninitctl: warning: " ++ at_ g_dir fname ++ bs "'" ++ rtrim line ++ bs "' follows a command, treating it as a comment").

(** [sys_open] below the root. *)
Definition sys_open (path : bytes) (dir : bool) : PM (Z + Z) :=
  match os_open_root path dir with
  | inl fd => mret (inl fd)
  | inr e => die_when (e =? ENOSYS_) (bs "--root: openat2: " ++ fs_strerror e);; mret (inr e)
  end.

Definition sys_stat (path : bytes) : PM (Z + Z) :=
  match g_root with
  | None => mret (os_stat path)
  | Some _ => fd ← sys_open path false; mret (match fd with inl fd => os_fstat fd | inr e => inr e end)
  end.

(** Services run as root, which may execute a file with any execute bit set. *)
Definition sys_exec_ok (path : bytes) (mode : Z) : option Z :=
  match g_root with
  | None => os_access path
  | Some _ => if negb (Z.land mode 73 =? 0) then None else Some EACCES_
  end.

Definition sys_realpath (dir : bytes) : PM (option bytes) :=
  match g_root with
  | None => mret (os_realpath dir)
  | Some (_, root_real) =>
      fd ← sys_open dir true;
      mret match fd with
      | inr _ => None
      | inl fd =>
          let buf := os_fd_link fd in
          if decide (buf = []) then None else
          if (length root_real =? 1)%nat then Some buf else
          if negb (str_prefix buf root_real) then None else
          match drop (length root_real) buf with
          | [] => Some [47]
          | (c :: _) as rest => if c =? 47 then Some rest else None
          end
      end
  end.

Definition is_reg (mode : Z) : bool := Z.land mode 61440 =? 32768.

Definition runnable (path : bytes) : PM bool :=
  st ← sys_stat path;
  mret (match st with inl mode => is_reg mode && bool_decide (sys_exec_ok path mode = None) | inr _ => false end).

(** DIR/PROG with DIR canonical. *)
Definition found_in (dir prog : bytes) : PM (option bytes) :=
  real ← sys_realpath dir;
  mret (match real with
        | None => None
        | Some real => if NG_MAX_INTERP <? Z.of_nat (length real + 1 + length prog) then None else Some (real ++ [47] ++ prog)
        end).

Fixpoint search_dirs (fuel : nat) (dirs prog : bytes) : PM (option bytes) :=
  match fuel with
  | O => endless
  | S fuel' =>
      if decide (dirs = []) then mret None else
      let '(d, dirs) := str_cut dirs 58 in
      if NG_MAX_INTERP <? Z.of_nat (length d + 1 + length prog) then search_dirs fuel' dirs prog else
      ok ← runnable (d ++ [47] ++ prog);
      if (ok : bool) then real ← found_in d prog; mret (Some (default (d ++ [47] ++ prog) real))
      else search_dirs fuel' dirs prog
  end.

Definition starts_slash (s : bytes) : bool := match s with 47 :: _ => true | _ => false end.

(** The interpreter as an absolute path. *)
Definition resolve (fname prog : bytes) : PM bytes :=
  if decide (47 ∈ prog) then
    die_when (negb (starts_slash prog)) (at_ g_dir fname ++ bs "'" ++ prog ++ bs "' is not an absolute path");;
    die_when (NG_MAX_INTERP <? Z.of_nat (length prog))
      (at_ g_dir fname ++ bs "the interpreter path is " ++ dec (Z.of_nat (length prog)) ++ bs " bytes, the maximum is " ++ dec NG_MAX_INTERP);;
    st ← sys_stat prog;
    match st with
    | inr e => die (at_ g_dir fname ++ g_root_pfx ++ prog ++ bs ": " ++ fs_strerror e)
    | inl mode =>
        die_when (negb (is_reg mode)) (at_ g_dir fname ++ g_root_pfx ++ prog ++ bs " is not a regular file");;
        match sys_exec_ok prog mode with
        | Some e => die (at_ g_dir fname ++ g_root_pfx ++ prog ++ bs ": " ++ fs_strerror e)
        | None => mret prog
        end
    end
  else
    path ← search_dirs (S (length NG_PATH)) (drop 5 NG_PATH) prog;
    match path with
    | Some path => mret path
    | None => die (at_ g_dir fname ++ bs "'" ++ prog ++ bs "' is not in " ++ drop 5 NG_PATH ++
                   match g_root with Some (r, _) => bs " below " ++ r | None => [] end)
    end.

(** The language a [#!] line selects, the shell for anything no language claims. *)
Definition lang_select (g_sh_lexed : bool) (lang_shell : lang) (langs : list lang) (fname body : bytes) (p : psrc) : PM (psrc * lang) :=
  let p := set_interp NG_SHELL p in
  if negb (str_prefix body (bs "#!")) then mret (p, lang_shell) else
  let line := upto 10 body in
  let w := shebang_interp line in
  if bool_decide (w = []) || bool_decide (w = str_base NG_SHELL) || bool_decide (w = str_base NG_SHELL_ARGV0)
     || (g_sh_lexed && bool_decide (w = bs "sh"))
  then mret (p, lang_shell) else
  match find (fun l => claims l w) langs with
  | Some l =>
      let '(prog, rest) := default ([], []) (parse_shebang line) in
      let p := set_iargs (iargs p ++ words_of (S (length rest)) rest) p in
      match bad_arg l (iargs p) with
      | Some (word, why) => die (at_ g_dir fname ++ bs "#! argument '" ++ word ++ bs "' " ++ why)
      | None => path ← resolve fname prog; mret (set_interp path p, l)
      end
  | None =>
      warn (bs "ninitctl: warning: " ++ at_ g_dir fname ++ bs "'" ++ rtrim line ++ bs "' is ignored, the script runs under " ++ NG_SHELL);;
      mret (p, lang_shell)
  end.

(** The arguments pid 1 passes must fit the graph format. *)
Definition check_exec_args (fname : bytes) (pre suf : list bytes) : PM unit :=
  let n := Z.of_nat (length (pre ++ suf)) in
  die_when (NG_MAX_EXEC_ARGS <? n)
    (at_ g_dir fname ++ dec n ++ bs " interpreter arguments, the maximum is " ++ dec NG_MAX_EXEC_ARGS);;
  match find (fun a => NG_MAX_EXEC_ARG <? Z.of_nat (length a)) (pre ++ suf) with
  | Some a => die (at_ g_dir fname ++ bs "an interpreter argument is " ++ dec (Z.of_nat (length a)) ++ bs " bytes, the maximum is " ++ dec NG_MAX_EXEC_ARG)
  | None => mret tt
  end.

(** ** A whole file (parse_src) *)

Definition parse_src (g_sh_lexed : bool) (lang_shell : lang) (langs : list lang) (fname body : bytes) : PM psrc :=
  let len := length body in
  '(p, rest) ← header g_dir (S len) fname (cut0 body) (PSrc (set_type NG_TYPE_TARGET (first_src fname)) false NG_SHELL [] false (bs "shell"));
  die_when (negb (bool_decide (length (cut0 body) = len))) (at_ g_dir fname ++ bs "contains a NUL byte");;
  let code := has_code body in
  let p := if have_type p then p else set_src (set_type (if code then NG_TYPE_ONESHOT else NG_TYPE_TARGET)) p in
  let s := p_src p in
  die_when (negb (s_notify s =? 0) && negb (s_type s =? NG_TYPE_DAEMON))
    (at_ g_dir fname ++ bs "notify: requires type:daemon, not type:" ++ bs (ng_typename (s_type s)));;
  die_when (negb (s_restart s =? 0) && negb (s_type s =? NG_TYPE_DAEMON))
    (at_ g_dir fname ++ bs "restart: requires type:daemon, not type:" ++ bs (ng_typename (s_type s)));;
  if s_type s =? NG_TYPE_TARGET then
    die_when code (at_ g_dir fname ++ bs "type:target must contain no commands");; mret p
  else
    die_when (negb code) (at_ g_dir fname ++ bs "type:" ++ bs (ng_typename (s_type s)) ++ bs " has no commands to run");;
    '(p, l) ← lang_select g_sh_lexed lang_shell langs fname body p;
    let p := set_lang (lname l) p in
    '(p, script) ← store l p body (len - length rest);
    die_when (NG_MAX_SCRIPT <? Z.of_nat (length script))
      (at_ g_dir fname ++ bs "script is " ++ dec (Z.of_nat (length script)) ++ bs " bytes" ++
       (if stripped p then bs " without comments" else []) ++ bs ", the maximum is " ++ dec NG_MAX_SCRIPT);;
    match exec_args l with
    | None => mret (set_src (set_script (Some script)) p)
    | Some f =>
        let '(pre, suf) := f (p_src p) p in
        check_exec_args fname pre suf;;
        mret (set_src (fun s => set_script (Some script) (set_exec pre suf s)) p)
    end.

End Select.
