(* ===== verification/Kept.v ===== *)
(** * Rewriting a script in place

    What the strippers of the languages have in common: what is left of a line
    stays on that line, in its order. *)

From S2P Require Import Prelude Text.

(** [a] is [b] without some of its bytes, but with all its newlines: each line of
    [a] is a subsequence of the line of [b] with the same number. *)
Inductive lines_sub : bytes -> bytes -> Prop :=
  | lines_nil : lines_sub [] []
  | lines_keep c a b : lines_sub a b -> lines_sub (c :: a) (c :: b)
  | lines_drop c a b : c <> 10 -> lines_sub a b -> lines_sub a (c :: b).

#[export] Hint Constructors lines_sub : core.

(** What is neither a blank that may stand for others nor a carriage return. *)
Definition ink (c : Z) : Prop := c <> 32 /\ c <> 13.

Definition inked (s : bytes) : bytes := filter ink s.

Lemma lines_app a b c d : lines_sub a b -> lines_sub c d -> lines_sub (a ++ c) (b ++ d).
Proof. intros H1 H2. induction H1; cbn; auto. Qed.

Lemma lines_refl a : lines_sub a a.
Proof. induction a; auto. Qed.

Lemma lines_trans a b c : lines_sub a b -> lines_sub b c -> lines_sub a c.
Proof.
  intros H1 H2. revert a H1. induction H2 as [|x b c H2 IH|x b c Hx H2 IH]; intros a H1; [done| |auto].
  inversion H1; subst; auto.
Qed.

Lemma lines_occ a b : lines_sub a b -> occ 10 a = occ 10 b.
Proof. induction 1 as [|c a b H IH|c a b Hc H IH]; [done| |]; rewrite ?count_cons, IH; [done|]. by rewrite decide_False. Qed.

(** Bytes that are all left out. *)
Lemma lines_none l : 10 ∉ l -> lines_sub [] l.
Proof. induction l as [|x l IH]; [done|]. intros [Hx Hl]%not_elem_of_cons. apply lines_drop; [congruence|auto]. Qed.

Lemma inked_app a b : inked (a ++ b) = inked a ++ inked b.
Proof. apply filter_app. Qed.

Lemma lines_inked l : lines_sub (inked l) l.
Proof.
  induction l as [|c l IH]; [constructor|]. unfold inked. rewrite filter_cons. destruct (decide (ink c)) as [|Hc]; [by constructor|].
  constructor; [|done]. intros ->. by apply Hc.
Qed.

(** The newlines of a text that is left out. *)
Lemma lines_newlines l : lines_sub (replicate (occ 10 l) 10) l.
Proof.
  induction l as [|c l IH]; [constructor|]. rewrite count_cons. destruct (decide (c = 10)) as [->|Hc]; cbn; by constructor.
Qed.

Lemma inked_newlines n : inked (replicate n 10) = replicate n 10.
Proof. induction n as [|n IH]; [done|]. unfold inked in *. cbn [replicate]. rewrite filter_cons, decide_True by done. by rewrite IH. Qed.

(** The lines of the script stay where they are, but for empty ones at the end: a
    script may lose those, and gets one more where the newline of its last line was
    missing. *)
Definition lines_stay (body r : bytes) : Prop := exists k l,
  lines_sub (inked r ++ replicate k 10) (body ++ replicate l 10) /\ (l = 0%nat \/ l = 1%nat /\ last body <> Some 10).

Lemma lines_stay_whole body r : lines_sub (inked r) body -> lines_stay body r.
Proof. intros Hr. exists 0%nat, 0%nat. rewrite !app_nil_r. by split; [|left]. Qed.

Section Strip.
Context (s : bytes).

(** What has been written, when [i] bytes have been read. *)
Definition kept (out : bytes) (i : nat) : Prop :=
  (i <= length s)%nat /\ lines_sub (inked out) (take i s) /\ Forall (fun x => x ∈ s \/ x ∈ [32; 10; 13]) out.

Lemma take_slice i e : (i <= e <= length s)%nat -> take e s = take i s ++ slice s i e.
Proof.
  intros Hie. unfold slice. replace e with (i + (e - i))%nat at 1 by lia. by rewrite take_take_drop.
Qed.

Lemma kept_lines out a i e : (i <= e <= length s)%nat -> lines_sub (inked a) (slice s i e) -> Forall (fun x => x ∈ s \/ x ∈ [32; 10; 13]) a ->
  kept out i -> kept (out ++ a) e.
Proof.
  intros Hie Ha Hb (H1 & H2 & H3). split; [lia|]. split; [|by apply Forall_app]. rewrite inked_app, (take_slice i e) by done. by apply lines_app.
Qed.

Lemma kept_skip out i e : (i <= e <= length s)%nat -> 10 ∉ slice s i e -> kept out i -> kept out e.
Proof. intros Hie Hn Hk. rewrite <- (app_nil_r out). apply (kept_lines _ _ i); [done|by apply lines_none|constructor|done]. Qed.

Lemma kept_copy out i e : (i <= e <= length s)%nat -> kept out i -> kept (out ++ slice s i e) e.
Proof.
  intros Hie Hk. apply (kept_lines _ _ i); [done|apply lines_inked| |done]. apply Forall_forall. intros x Hx. left. by eapply slice_sub.
Qed.

Lemma kept_blank out i : kept out i -> kept (out ++ [32]) i.
Proof.
  intros (H1 & H2 & H3). split; [done|]. split; [rewrite inked_app; change (inked [32]) with (@nil Z); by rewrite app_nil_r|].
  apply Forall_app. split; [done|]. constructor; [|done]. right. by left.
Qed.

Lemma kept_pend (b : bool) out i : kept out i -> kept (if b then out ++ [32] else out) i.
Proof. destruct b; [apply kept_blank|done]. Qed.

(** A carriage return before the last newline is nothing the line had. *)
Lemma kept_cr out i : kept (out ++ [10]) i -> kept (out ++ [13; 10]) i.
Proof.
  intros (H1 & H2 & H3). split; [done|]. split; [rewrite inked_app in *; exact H2|]. apply Forall_app in H3 as [H3 _]. apply Forall_app. split; [done|].
  constructor; [right; apply list_elem_of_In; cbn; tauto|]. constructor; [right; apply list_elem_of_In; cbn; tauto|constructor].
Qed.

Lemma slice_one i c : s !! i = Some c -> slice s i (S i) = [c].
Proof.
  intros Hc. unfold slice. replace (S i - i)%nat with 1%nat by lia. rewrite (drop_S s c i Hc). done.
Qed.

(** What a stripper leaves. *)
Definition stripped_of (r : bytes) : Prop :=
  (length r <= length s)%nat /\ lines_sub (inked r) s /\ Forall (fun x => x ∈ s \/ x ∈ [32; 10; 13]) r.

Lemma kept_end out : kept out (length s) -> (length out <= length s)%nat -> stripped_of out.
Proof. intros (_ & H2 & H3) Hl. rewrite take_ge in H2 by lia. by split. Qed.

(** The rest of the text, as it is. *)
Lemma kept_rest out i : kept out i -> (length out <= i)%nat -> stripped_of (out ++ drop i (buf out s)).
Proof.
  intros Hk Hl. pose proof Hk as (H1 & _). rewrite buf_drop by done.
  assert (drop i s = slice s i (length s)) as -> by (unfold slice; by rewrite take_ge by (rewrite length_drop; lia)).
  apply kept_end; [apply kept_copy; [lia|done]|]. rewrite length_app, length_slice by lia. lia.
Qed.

(** Before the first byte of the code is read. *)
Lemma kept_first code : (code <= length s)%nat -> kept (take code s) code.
Proof.
  intros Hc. split; [done|]. split; [apply lines_inked|]. apply Forall_forall. intros x Hx. left. rewrite <- (take_drop code s). apply elem_of_app. by left.
Qed.

End Strip.

Lemma run_of_all f (l : bytes) x : x ∈ take (run_of f l) l -> f x = true.
Proof.
  induction l as [|y l IH]; simpl; [by intros ?%not_elem_of_nil|]. destruct (f y) eqn:Hy; [|by intros ?%not_elem_of_nil]. cbn [take].
  rewrite elem_of_cons. intros [->|Hx]; [done|by apply IH].
Qed.

Section Run.
Context (s : bytes).

(** A run of bytes that are skipped. *)
Lemma kept_run out i (f : Z -> bool) : kept s out i -> f 10 = false ->
  kept s out (i + run_of f (drop i s))%nat /\ (i + run_of f (drop i s) <= length s)%nat.
Proof.
  intros Hk Hf. pose proof Hk as (H1 & _). pose proof (run_of_le f (drop i s)) as Hr. rewrite length_drop in Hr. split; [|lia].
  apply (kept_skip _ _ i); [lia| |done]. unfold slice. replace (i + _ - i)%nat with (run_of f (drop i s)) by lia.
  intros Hin%run_of_all. congruence.
Qed.
End Run.
