(* ===== verification/Service.v ===== *)
(** * What the parsers promise the compiler

    A file that [parse_src] accepts leaves a service the compiler can take
    ([src_ok]), if its language keeps the rules of its interface. *)

From S2P Require Import Prelude Ngraph Verify Argv Build Link Visit Schedule Desc Layout Emit Text Directives Lang Kept.

(** ** The header *)

(** The fields a directive sets are within their ranges. *)
Record header_ok (fname : bytes) (p : psrc) : Prop := HeaderOk {
  ho_name : s_name (p_src p) = fname;
  ho_script : s_script (p_src p) = None;
  ho_type : NG_TYPE_ONESHOT <= s_type (p_src p) <= NG_TYPE_TARGET;
  ho_onfail : NG_ONFAIL_WARN <= s_onfail (p_src p) <= NG_ONFAIL_SHELL;
  ho_notify : s_notify (p_src p) = 0 \/ NG_NOTIFY_MIN <= s_notify (p_src p) <= NG_NOTIFY_MAX;
  ho_start : 0 <= s_start_ms (p_src p) <= NG_MAX_MS;
  ho_stop : 0 <= s_stop_ms (p_src p) <= NG_MAX_MS;
  ho_retry : 0 <= s_retry_ms (p_src p) < 65536;
  ho_tries : 0 <= s_start_tries (p_src p) <= NG_MAX_TRIES;
  ho_pflags : s_pflags (p_src p) = 0 \/ s_pflags (p_src p) = NG_PF_ORDER_ONLY;
  ho_exec : s_exec_pre (p_src p) = [] /\ s_exec_suf (p_src p) = [] /\ s_direct (p_src p) = [];
  ho_iargs : iargs p = [];
}.

Section Header.
Context (g_dir : bytes).

Lemma parse_ms_ok val fname key : yields (parse_ms g_dir val fname key) (fun v => 0 < v <= NG_MAX_MS).
Proof.
  unfold parse_ms. pose proof (strtoull_nonneg val) as Hv. destruct (strtoull val) as [[v end_] range]. simpl in Hv.
  apply yields_when; intros _. apply (yields_bind _ _ (fun mul => 1 <= mul)).
  { repeat (destruct (decide _); [by apply yields_ret|]). apply yields_die. }
  intros mul Hm. apply yields_when; intros Hmax. apply yields_when; intros Hz. apply yields_ret.
  apply Z.ltb_ge in Hmax. apply Z.eqb_neq in Hz. pose proof (Z.mul_div_le NG_MAX_MS mul ltac:(lia)). nia.
Qed.

Lemma in_bounds_ok val lo hi msg : yields (in_bounds val lo hi msg) (fun v => lo <= v <= hi).
Proof.
  unfold in_bounds. destruct (strtoull val) as [[v end_] range]. apply yields_when; intros Hb. apply yields_ret.
  apply orb_false_iff in Hb as [[_ Hlo]%orb_false_iff Hhi]. apply Z.ltb_ge in Hlo, Hhi. lia.
Qed.

Lemma directive_ok fname key val p : header_ok fname p -> yields (directive g_dir fname key val p) (header_ok fname).
Proof.
  intros Hp. pose proof Hp as []. unfold directive.
  repeat match goal with
  | |- yields (if decide _ then _ else _) _ => destruct (decide _)
  | |- yields (mret _) _ => apply yields_ret
  | |- yields (die _) _ => apply yields_die
  | |- yields (die_when _ _ ≫= _) _ => apply yields_when; intros ?
  | |- yields (in_bounds _ _ _ _ ≫= _) _ => eapply yields_bind; [apply in_bounds_ok|cbv beta; intros ? ?]
  | |- yields (parse_ms _ _ _ _ ≫= _) _ => eapply yields_bind; [apply parse_ms_ok|cbv beta; intros ? ?]
  | |- header_ok _ p => exact Hp
  end; (constructor; cbn; try done).
  all: unfold NG_NOTIFY_MIN, NG_NOTIFY_MAX, NG_MAX_MS, NG_MAX_TRIES, NG_TYPE_ONESHOT, NG_TYPE_DAEMON, NG_TYPE_TARGET, NG_ONFAIL_WARN, NG_ONFAIL_STOP, NG_ONFAIL_SHELL in *.
  all: try match goal with H : (_ <? _) = false |- _ => apply Z.ltb_ge in H end.
  all: unfold u16, u8; rewrite ?Z.mod_small by lia; try lia.
  - left. by destruct ho_pflags0 as [-> | ->].
  - right. by destruct ho_pflags0 as [-> | ->].
Qed.

Lemma header_line_ok fname line p : header_ok fname p -> yields (header_line g_dir fname line p) (header_ok fname).
Proof.
  intros Hp. unfold header_line.
  repeat match goal with
  | |- yields (match ?x with _ => _ end) _ => destruct x
  | |- yields (mret _) _ => by apply yields_ret
  | |- yields (die _) _ => apply yields_die
  | |- yields (directive _ _ _ _ _) _ => by apply directive_ok
  | |- yields (let x := _ in _) _ => cbv zeta
  end.
Qed.

Lemma past_shorter c (s r : bytes) : past c s = Some r -> (length r < length s)%nat /\ exists u, s = u ++ r.
Proof.
  induction s as [|x s IH]; simpl; [done|]. destruct (x =? c).
  - intros [= ->]. split; [lia|]. by exists [x].
  - intros [Hl [u ->]]%IH. split; [lia|]. by exists (x :: u).
Qed.

(** A line that is no command has no code in it. *)
Lemma no_code_tail (l t : bytes) : 10 ∉ l -> has_code_from false (l ++ 10 :: t) = has_code_from true t /\ has_code_from false l = false.
Proof.
  induction l as [|c l IH]; [done|]. intros [Hc Hl]%not_elem_of_cons. cbn. destruct (Z.eqb_spec c 10); [done|]. by apply IH.
Qed.

Lemma trim_right_nil (l : bytes) : trim_right l = [] -> Forall (fun c => c = 32 \/ c = 9 \/ c = 13) l.
Proof.
  induction l as [|c l IH]; [constructor|]. cbn. destruct (trim_right l); [|done].
  destruct (_ || _) eqn:Hb; [|done]. intros _. constructor; [lia|by apply IH].
Qed.

Lemma trim_right_head (l : bytes) : starts_hash (trim_right l) = true -> head l = Some 35.
Proof.
  destruct l as [|c l]; [done|]. cbn. assert (starts_hash [c] = true -> c = 35) as H1 by (cbn; by repeat (destruct c as [|c|c]; try done)).
  assert (forall t, starts_hash (c :: t) = true -> c = 35) as H2 by (intros t; cbn; by repeat (destruct c as [|c|c]; try done)).
  destruct (trim_right l); [destruct (_ || _); [done|]|]; intros Hs; f_equal; eauto.
Qed.

Lemma no_code_line (l t : bytes) : 10 ∉ l -> trim l = [] \/ starts_hash (trim l) = true ->
  has_code_from true (l ++ 10 :: t) = has_code_from true t /\ has_code_from true l = false.
Proof.
  intros Hl Ht. unfold trim in Ht. induction l as [|c l IH]; [done|]. apply not_elem_of_cons in Hl as [Hc Hl]. cbn [app has_code_from trim_left andb] in *.
  destruct ((c =? 32) || (c =? 9)) eqn:Hb; [by apply IH|]. destruct (Z.eqb_spec c 10); [done|].
  assert (negb (c =? 35) && negb (c =? 13) = false) as ->; [|by apply no_code_tail].
  destruct Ht as [Ht|Ht].
  - apply trim_right_nil, Forall_cons in Ht as [Ht _]. lia.
  - apply trim_right_head in Ht. injection Ht as ->. done.
Qed.

Lemma upto_past c (s : bytes) : c ∉ upto c s /\ s = upto c s ++ match past c s with Some r => c :: r | None => [] end.
Proof.
  induction s as [|x s [IH1 IH2]]; cbn; [split; [by intros ?%not_elem_of_nil|done]|]. destruct (Z.eqb_spec x c) as [->|Hx].
  - split; [by intros ?%not_elem_of_nil|done].
  - split; [by apply not_elem_of_cons|]. cbn. by rewrite <- IH2.
Qed.

Lemma header_spec fuel fname line p : (length line < fuel)%nat -> header_ok fname p ->
  yields (header g_dir fuel fname line p) (fun r => header_ok fname r.1 /\ (exists u, line = u ++ r.2) /\
    has_code_from true line = has_code_from true r.2).
Proof.
  revert line p. induction fuel as [|fuel IH]; intros line p Hf Hp; [lia|]. cbn [header].
  destruct line as [|c line]; [apply yields_ret; by split; [|split; [exists []|]]|]. set (l := c :: line) in *. cbv zeta.
  destruct (_ && _) eqn:Hkey; [apply yields_ret; by split; [|split; [exists []|]]|].
  assert (trim (upto 10 l) = [] \/ starts_hash (trim (upto 10 l)) = true) as Hk.
  { apply andb_false_iff in Hkey as [Hkey|Hkey]; apply negb_false_iff in Hkey; [left; by apply bool_decide_eq_true in Hkey|by right]. }
  destruct (upto_past 10 l) as [Hup Hl].
  eapply yields_bind; [by apply header_line_ok|]. intros p' Hp'. cbv beta in Hp'.
  destruct (past 10 l) as [rest|] eqn:Hr.
  - destruct (no_code_line _ rest Hup Hk) as [Hcode _]. destruct (past_shorter _ _ _ Hr) as [Hlen [u Hu]].
    eapply yields_mono; [apply IH; [lia|done]|]. intros [p2 r2] (H1 & [v Hv] & H2). split; [done|]. split.
    + exists (u ++ v). simpl in *. by rewrite Hu, Hv, app_assoc.
    + rewrite Hl, Hcode. done.
  - rewrite app_nil_r in Hl. destruct (no_code_line _ [] Hup Hk) as [_ Hcode]. apply yields_ret. split; [done|]. split; [exists l; by rewrite app_nil_r|].
    by rewrite Hl, Hcode.
Qed.
End Header.

(** ** The language *)

(** A word of an argv. *)
Definition word_ok (a : bytes) : Prop := text a /\ a <> [].

Definition direct_ok (d : list bytes) : Prop :=
  match d with
  | [] => True
  | c :: rest => cmd_ok c /\ Forall arg_ok rest /\ 1 + Z.of_nat (length rest) <= NG_MAX_EXEC_ARGS
  end.

(** What [parse_src] relies on of a language. *)
Class LangOk (l : lang) : Prop := {
  lang_store : forall p body off, text body -> (off < length body)%nat -> direct_ok (s_direct (p_src p)) ->
    yields (store l p body off) (fun r => text r.2 /\ (length r.2 <= length body)%nat /\ lines_stay body r.2 /\
      exists d b, r.1 = set_stripped b (set_src (set_direct d) p) /\ direct_ok d);
  lang_args : forall f s p, exec_args l = Some f -> word_ok (s_name s) -> Forall word_ok (iargs p) -> word_ok (interp p) ->
    exists pre, (f s p).1 = interp p :: pre /\ Forall word_ok pre /\ Forall word_ok (f s p).2;
}.

(** What is documented of the file system: a canonical path is absolute. *)
Class FileSysOk (F : FileSys) : Prop := {
  fso_realpath : forall d r, os_realpath d = Some r -> head r = Some 47 /\ text r;
  fso_link : forall fd, os_fd_link fd = [] \/ (head (os_fd_link fd) = Some 47 /\ text (os_fd_link fd));
}.

Lemma text_app a b : text (a ++ b) <-> text a /\ text b.
Proof. apply Forall_app. Qed.

Lemma text_sub (a b : bytes) : (forall x, x ∈ a -> x ∈ b) -> text b -> text a.
Proof. unfold text. rewrite !Forall_forall. auto. Qed.

Lemma text_drop n (s : bytes) : text s -> text (drop n s).
Proof. intros Ht. rewrite <- (take_drop n s) in Ht. by apply text_app in Ht as [_ Ht]. Qed.

Lemma skip_seps_suffix s : exists u, s = u ++ skip_seps s.
Proof. induction s as [|c s [u IH]]; simpl; [by exists []|]. destruct (word_sep c); [exists (c :: u); by rewrite IH at 1|by exists []]. Qed.

Lemma word_upto_app s : s = (word_upto s).1 ++ (word_upto s).2.
Proof. induction s as [|c s IH]; simpl; [done|]. destruct (word_sep c); [done|]. destruct (word_upto s) as [w r]. simpl in *. by rewrite IH at 1. Qed.

Lemma word_at_text s : text s -> text (word_at s).1 /\ text (word_at s).2.
Proof.
  intros Ht. destruct (skip_seps_suffix s) as [u Hu]. rewrite Hu in Ht. apply text_app in Ht as [_ Ht]. unfold word_at.
  rewrite (word_upto_app (skip_seps s)) in Ht. by apply text_app in Ht as [??].
Qed.

Lemma words_of_ok fuel s : text s -> Forall word_ok (words_of fuel s).
Proof.
  revert s. induction fuel as [|fuel IH]; intros s Ht; simpl; [done|]. pose proof (word_at_text s Ht) as [H1 H2].
  destruct (word_at s) as [w r]. destruct (decide (w = [])); [done|]. constructor; [done|by apply IH].
Qed.

Lemma env_split_text fuel w opts : text w -> w <> [] -> text (env_split fuel w opts).1 /\ (env_split fuel w opts).1 <> [].
Proof.
  revert w. induction fuel as [|fuel IH]; intros w Ht Hw; simpl; [done|]. destruct (env_word w opts) as [| | |off|]; try done.
  destruct (Nat.ltb_spec off (length w)) as [Hlt|]; [|done]. apply IH.
  - by apply text_drop.
  - intros E%(f_equal length). rewrite length_drop in E. simpl in E. lia.
Qed.

Lemma env_words_ok fuel w rest opts prog r : text w -> text rest -> env_words fuel w rest opts = Some (prog, r) ->
  word_ok prog /\ text r.
Proof.
  revert w rest opts. induction fuel as [|fuel IH]; intros w rest opts Hw Hr; simpl; [done|]. destruct (decide (w = [])) as [|Hne]; [done|].
  pose proof (env_split_text (length w) w opts Hw Hne) as [H1 H2]. destruct (env_split (length w) w opts) as [w1 what]. simpl in *.
  pose proof (word_at_text rest Hr) as [Ha Hb].
  assert (forall o, (let '(w, rest) := word_at rest in env_words fuel w rest o) = Some (prog, r) -> word_ok prog /\ text r) as Hnext.
  { intros o. destruct (word_at rest) as [w2 r2]. by apply IH. }
  destruct what; try apply Hnext.
  - intros [= <- <-]. done.
  - destruct (word_at rest) as [a r2]. destruct (decide (a = [])); [done|]. simpl in *.
    pose proof (word_at_text r2 Hb) as [Hc Hd]. destruct (word_at r2) as [w3 r3]. by apply IH.
Qed.

Lemma parse_shebang_ok line prog r : text line -> parse_shebang line = Some (prog, r) -> word_ok prog /\ text r.
Proof.
  intros Ht. unfold parse_shebang. pose proof (text_drop 2 line Ht) as Hd.
  pose proof (word_at_text _ Hd) as [H1 H2]. destruct (word_at (drop 2 line)) as [w rest]. simpl in *.
  destruct (decide (w = [])) as [|Hw]; [done|]. destruct (decide _).
  - pose proof (word_at_text rest H2) as [H3 H4]. destruct (word_at rest) as [w2 r2]. by apply (env_words_ok (S (length line)) w2 r2 true).
  - intros [= <- <-]. done.
Qed.

(** ** The interpreter *)

Section Interp.
Context `{F : FileSys} `{!FileSysOk F}.

(** Every directory of a search path is absolute. *)
Fixpoint all_abs (fuel : nat) (dirs : bytes) : bool :=
  match fuel with
  | O => false
  | S fuel' =>
      if decide (dirs = []) then true else
      let '(d, dirs) := str_cut dirs 58 in bool_decide (head d = Some 47) && all_abs fuel' dirs
  end.

Lemma str_cut_text s c : text s -> text (str_cut s c).1 /\ text (str_cut s c).2.
Proof.
  induction 1 as [|x s Hx Hs [IH1 IH2]]; simpl; [split; constructor|]. destruct (x =? c); [by split; [constructor|]|].
  destruct (str_cut s c) as [t r]. split; [by constructor|done].
Qed.

Lemma sys_stat_ok path : yields (sys_stat path) (fun _ => True).
Proof.
  unfold sys_stat. destruct g_root; [|by apply yields_ret]. unfold sys_open.
  apply (yields_bind _ _ (fun _ => True)); [|intros fd _; by apply yields_ret].
  destruct (os_open_root _ _); [by apply yields_ret|]. apply yields_when; intros _. by apply yields_ret.
Qed.

Lemma sys_realpath_ok d : yields (sys_realpath d) (fun r => forall p, r = Some p -> head p = Some 47 /\ text p).
Proof.
  unfold sys_realpath. destruct g_root as [[dir root_real]|].
  - unfold sys_open. apply (yields_bind _ _ (fun _ => True)).
    { destruct (os_open_root _ _); [by apply yields_ret|]. apply yields_when; intros _. by apply yields_ret. }
    intros [fd|e] _; apply yields_ret; [|done]. intros p. destruct (fso_link fd) as [->|[Hh Ht]]; [done|].
    destruct (decide (os_fd_link fd = [])); [done|]. destruct (_ =? 1)%nat; [by intros [= <-]|].
    destruct (str_prefix _ _); [|done]. simpl. pose proof (text_drop (length root_real) _ Ht) as Hd.
    destruct (drop _ _) as [|c r]; [intros [= <-]; split; [done|]; constructor; [lia|constructor]|].
    destruct (Z.eqb_spec c 47) as [->|]; [|done]. by intros [= <-].
  - apply yields_ret. intros p. apply fso_realpath.
Qed.

(** The interpreter is an absolute path that fits. *)
Definition interp_ok (path : bytes) : Prop := head path = Some 47 /\ Z.of_nat (length path) <= NG_MAX_INTERP /\ text path.

Lemma search_dirs_ok fuel dirs prog : all_abs fuel dirs = true -> text dirs -> text prog ->
  yields (search_dirs fuel dirs prog) (fun r => forall p, r = Some p -> interp_ok p).
Proof.
  revert dirs. induction fuel as [|fuel IH]; intros dirs Ha Ht Hp; [done|]. cbn [search_dirs all_abs] in *.
  destruct (decide (dirs = [])); [by apply yields_ret|]. pose proof (str_cut_text dirs 58 Ht) as [Hd Hr].
  destruct (str_cut dirs 58) as [d r]. apply andb_true_iff in Ha as [Hh%bool_decide_eq_true Ha]. simpl in *.
  destruct (Z.ltb_spec NG_MAX_INTERP (Z.of_nat (length d + 1 + length prog))) as [|Hlen]; [by apply IH|].
  assert (interp_ok (d ++ 47 :: prog)) as Hdef.
  { split; [by destruct d|]. split; [rewrite length_app; simpl; lia|]. apply text_app. split; [done|]. constructor; [lia|done]. }
  apply (yields_bind _ _ (fun _ => True)).
  { unfold runnable. eapply yields_bind; [apply sys_stat_ok|]. intros st _. by apply yields_ret. }
  intros [] _; [|by apply IH]. apply (yields_bind _ _ (fun r => forall p, r = Some p -> interp_ok p)).
  - unfold found_in. eapply yields_bind; [apply sys_realpath_ok|]. intros [real|] Hreal; apply yields_ret; [|done].
    destruct (Hreal real eq_refl) as [H1 H2]. destruct (Z.ltb_spec NG_MAX_INTERP (Z.of_nat (length real + 1 + length prog))); [done|].
    intros p [= <-]. split; [by destruct real|]. split; [rewrite length_app; simpl; lia|]. apply text_app. split; [done|]. constructor; [lia|done].
  - intros real Hreal. apply yields_ret. intros p [= <-]. destruct real as [real|]; [by apply Hreal|done].
Qed.

Lemma resolve_ok fname prog : text prog -> yields (resolve fname prog) interp_ok.
Proof.
  intros Hp. unfold resolve. destruct (decide (47 ∈ prog)).
  - apply yields_when; intros Hs. apply yields_when; intros Hl. eapply yields_bind; [apply sys_stat_ok|]. intros [mode|er] _; [|apply yields_die].
    apply yields_when; intros _. destruct (sys_exec_ok prog mode); [apply yields_die|]. apply yields_ret. apply Z.ltb_ge in Hl.
    split; [|done]. unfold starts_slash in Hs. destruct prog as [|c prog]; [done|]. simpl. apply negb_false_iff in Hs.
    destruct (decide (c = 47)) as [->|Hc]; [done|]. exfalso. by repeat (destruct c as [|c|c]; try done).
  - eapply yields_bind; [apply (search_dirs_ok (S (length NG_PATH)) (drop 5 NG_PATH) prog)|].
    + by vm_compute.
    + apply Forall_forall. intros x Hx. revert x Hx. apply Forall_forall. vm_compute. repeat (constructor; [split; reflexivity|]). constructor.
    + done.
    + intros [path|] Hpath; [|apply yields_die]. apply yields_ret. by apply Hpath.
Qed.
End Interp.

(** ** What the strippers share *)

Lemma text_kept (s r : bytes) : text s -> Forall (fun x => x ∈ s \/ x ∈ [32; 10; 13]) r -> text r.
Proof.
  unfold text. rewrite !Forall_forall. intros Hs Hr x Hx. destruct (Hr x Hx) as [Hin|Hin]; [by apply Hs|].
  apply list_elem_of_In in Hin. simpl in Hin. lia.
Qed.

Lemma text_b (t : bytes) : forallb (fun c => (0 <? c) && (c <? 256)) t = true -> text t.
Proof.
  rewrite forallb_forall. intros Hb. apply Forall_forall. intros x Hx%list_elem_of_In. specialize (Hb x Hx). lia.
Qed.

Lemma occ_le c s : (occ c s <= length s)%nat.
Proof. apply length_filter. Qed.

Lemma bs_word s : forallb (fun c => (0 <? c) && (c <? 256)) (bs s) = true -> bs s <> [] -> word_ok (bs s).
Proof. intros Hb Hne. split; [by apply text_b|done]. Qed.

(** The header leaves its newlines. *)
Lemma blank_header_ok body off : (off <= length body)%nat ->
  length (blank_header body off) = (occ 10 (take off body) + (length body - off))%nat /\
  take (occ 10 (take off body)) (blank_header body off) = replicate (occ 10 (take off body)) 10 /\
  lines_sub (blank_header body off) body /\ (forall x, x ∈ blank_header body off -> x ∈ body).
Proof.
  intros Ho. unfold blank_header. set (nl := filter _ (take off body)).
  assert (nl = replicate (occ 10 (take off body)) 10) as Enl.
  { unfold nl, occ. induction (take off body) as [|c l IH]; [done|]. rewrite filter_cons. destruct (decide (c = 10)) as [->|]; [|done].
    simpl. by rewrite IH at 1. }
  assert (length nl = occ 10 (take off body)) as Hlen by (by rewrite Enl, length_replicate).
  split; [by rewrite length_app, length_drop, Hlen|]. split; [rewrite take_app_le, take_ge by lia; done|]. split.
  - rewrite <- (take_drop off body) at 2. apply lines_app; [rewrite Enl; apply lines_newlines|apply lines_refl].
  - intros x [Hx|Hx]%elem_of_app; rewrite <- (take_drop off body); apply elem_of_app; [left|by right].
    unfold nl in Hx. by apply list_elem_of_filter in Hx as [_ Hx].
Qed.

(** What a stripper leaves of the script, its header blanked. *)
Lemma stripped_store body off r : text body -> (off <= length body)%nat -> stripped_of (blank_header body off) r ->
  text r /\ (length r <= length body)%nat /\ lines_sub (inked r) body.
Proof.
  intros Ht Ho (A1 & A2 & A3). destruct (blank_header_ok body off Ho) as (H1 & H2 & H3 & H4). split; [|split].
  - eapply text_kept; [|exact A3]. eapply text_sub; [exact H4|done].
  - etrans; [exact A1|]. rewrite H1. pose proof (occ_le 10 (take off body)). rewrite length_take in *. lia.
  - by eapply lines_trans.
Qed.

Lemma escape_name_text head name q tail : text head -> text name -> text tail -> text (escape_name head name q tail).
Proof.
  intros Hh Hn Ht. unfold escape_name. apply text_app. split; [done|]. apply text_app. split; [|done].
  induction Hn as [|c name Hc Hn IH]; [constructor|]. cbn [fmap list_fmap concat]. apply text_app. split; [|done].
  destruct (_ || _); repeat (constructor; [lia|]); constructor.
Qed.

(** ** The whole file *)

Section File.
Context `{F : FileSys} `{!FileSysOk F}.
Context (lexed : bool) (shell : lang) (langs : list lang).
Context (Hshell : LangOk shell) (Hlangs : Forall LangOk langs).

Lemma text_sublist_upto c (s : bytes) : text s -> text (upto c s).
Proof. induction 1 as [|x s Hx Hs IH]; simpl; [constructor|]. destruct (x =? c); [constructor|by constructor]. Qed.

Lemma interp_word path : interp_ok path -> word_ok path.
Proof. intros (Hh & _ & Ht). split; [done|]. by intros ->. Qed.

Lemma NG_SHELL_ok : interp_ok NG_SHELL.
Proof. split; [done|]. split; [done|]. vm_compute. repeat (constructor; [split; reflexivity|]). constructor. Qed.

Lemma lang_select_ok fname body p : text body -> iargs p = [] ->
  yields (lang_select lexed shell langs fname body p) (fun r => LangOk r.2 /\ p_src r.1 = p_src p /\
    interp_ok (interp r.1) /\ Forall word_ok (iargs r.1)).
Proof.
  intros Ht Hi. unfold lang_select. set (p0 := set_interp NG_SHELL p).
  assert (LangOk shell /\ p_src p0 = p_src p /\ interp_ok (interp p0) /\ Forall word_ok (iargs p0)) as Hs.
  { split; [done|]. split; [done|]. split; [apply NG_SHELL_ok|]. unfold p0. simpl. by rewrite Hi. }
  destruct (negb _); [by apply yields_ret|]. cbv zeta. set (line := upto 10 body).
  assert (text line) as Hline by (by apply text_sublist_upto).
  destruct (_ || _ || _ || _) eqn:Hb; [by apply yields_ret|].
  destruct (find _ langs) as [l|] eqn:Hf.
  - apply find_some in Hf as [Hin Hclaims]. assert (LangOk l) as Hl.
    { rewrite Forall_forall in Hlangs. apply Hlangs. by apply list_elem_of_In. }
    unfold shebang_interp in Hb, Hclaims. destruct (parse_shebang line) as [[prog rest]|] eqn:Hp; [|done]. cbn [default from_option id].
    destruct (parse_shebang_ok line prog rest Hline Hp) as [[Hprog _] Hrest].
    destruct (bad_arg l _) as [[word why]|]; [apply yields_die|].
    eapply yields_bind; [by apply resolve_ok|]. intros path Hpath. apply yields_ret. cbn. split; [done|]. split; [done|]. split; [done|].
    rewrite Hi. apply (words_of_ok (S (length rest))), Hrest.
  - eapply yields_bind; [apply yields_warn|]. intros [] _. by apply yields_ret.
Qed.

Lemma check_exec_args_ok fname pre suf : Forall word_ok pre -> Forall word_ok suf ->
  yields (check_exec_args fname pre suf) (fun _ => Forall arg_ok pre /\ Forall arg_ok suf /\
    Z.of_nat (length pre) + Z.of_nat (length suf) <= NG_MAX_EXEC_ARGS).
Proof.
  intros H1 H2. unfold check_exec_args. apply yields_when; intros Hn. apply Z.ltb_ge in Hn. rewrite length_app in Hn.
  destruct (find _ _) as [a|] eqn:Hf; [apply yields_die|]. apply yields_ret.
  assert (forall a, a ∈ pre ++ suf -> Z.of_nat (length a) <= NG_MAX_EXEC_ARG) as Hlen.
  { intros a Ha. apply list_elem_of_In in Ha. pose proof (find_none _ _ Hf a Ha) as Hb. simpl in Hb. by apply Z.ltb_ge in Hb. }
  split; [|split; [|lia]]; apply Forall_forall; intros a Ha.
  - rewrite Forall_forall in H1. destruct (H1 a Ha) as [Ht Hne]. split; [done|]. split; [done|]. apply Hlen, elem_of_app. by left.
  - rewrite Forall_forall in H2. destruct (H2 a Ha) as [Ht Hne]. split; [done|]. split; [done|]. apply Hlen, elem_of_app. by right.
Qed.

Lemma first_header_ok fname b i : header_ok fname (PSrc (set_type NG_TYPE_TARGET (first_src fname)) b i [] false (bs "shell")).
Proof.
  constructor; cbn; try done; auto; unfold NG_TYPE_ONESHOT, NG_TYPE_TARGET, NG_ONFAIL_WARN, NG_ONFAIL_SHELL, NG_MAX_MS, NG_MAX_TRIES; lia.
Qed.

Lemma header_set_type fname p t : header_ok fname p -> NG_TYPE_ONESHOT <= t <= NG_TYPE_TARGET -> header_ok fname (set_src (set_type t) p).
Proof. intros [] Ht. by constructor. Qed.

Lemma cut0_whole (s : bytes) : Forall is_byte s -> length (cut0 s) = length s -> text s /\ cut0 s = s.
Proof.
  induction 1 as [|c s Hc Hs IH]; simpl; [by split; [constructor|]|]. destruct (Z.eqb_spec c 0) as [|Hne]; [done|]. simpl. intros [= Hl].
  destruct (IH Hl) as [H1 H2]. split; [|by rewrite H2]. constructor; [unfold is_byte in Hc; lia|done].
Qed.

(** parse_src returns for every file, and reads nothing outside it. *)
Lemma parse_src_spec fname body : ng_name_problem fname = None -> text fname -> Forall is_byte body ->
  yields (parse_src lexed shell langs fname body) (fun p => src_ok (p_src p) /\ s_name (p_src p) = fname /\
    forall sc, s_script (p_src p) = Some sc -> lines_stay body sc).
Proof.
  intros Hname Htn Hbody. unfold parse_src. cbv zeta.
  assert (length (cut0 body) <= length body)%nat as Hcut.
  { clear. induction body as [|c s IH]; simpl; [done|]. destruct (c =? 0); simpl; lia. }
  eapply yields_bind; [apply header_spec; [lia|apply first_header_ok]|]. intros [p rest] (Hp & [u Hu] & Hcode). cbn [fst snd] in *.
  apply yields_when; intros Hnul. apply negb_false_iff, bool_decide_eq_true in Hnul.
  destruct (cut0_whole body Hbody Hnul) as [Htext Hsame]. rewrite Hsame in Hu.
  set (p1 := if have_type p then p else _).
  assert (header_ok fname p1) as Hp1.
  { unfold p1. destruct (have_type p); [done|]. apply header_set_type; [done|]. destruct (has_code body); done. }
  clearbody p1. clear p Hp. rename p1 into p, Hp1 into Hp. pose proof Hp as [].
  apply yields_when; intros Hn. apply yields_when; intros Hr.
  assert (s_notify (p_src p) = 0 \/ NG_NOTIFY_MIN <= s_notify (p_src p) <= NG_NOTIFY_MAX /\ s_type (p_src p) = NG_TYPE_DAEMON) as Hnotify.
  { destruct (Z.eqb_spec (s_notify (p_src p)) 0) as [|H0]; [by left|]. destruct (Z.eqb_spec (s_type (p_src p)) NG_TYPE_DAEMON); [|done].
    right. split; [|done]. by destruct ho_notify0. }
  assert (s_restart (p_src p) = 0 \/ s_type (p_src p) = NG_TYPE_DAEMON) as Hrestart.
  { destruct (Z.eqb_spec (s_restart (p_src p)) 0) as [|H0]; [by left|]. destruct (Z.eqb_spec (s_type (p_src p)) NG_TYPE_DAEMON); [|done]. by right. }
  destruct ho_exec0 as (Epre & Esuf & Edir).
  destruct (Z.eqb_spec (s_type (p_src p)) NG_TYPE_TARGET) as [Etgt|Htgt].
  - apply yields_when; intros _. apply yields_ret. rewrite ho_script0. split; [|done]. constructor; rewrite ?ho_name0, ?ho_script0, ?Epre, ?Edir; done.
  - apply yields_when; intros Hhas. apply negb_false_iff in Hhas. unfold has_code in Hhas. rewrite Hsame in *.
    assert (length rest <> 0%nat /\ length rest <= length body)%nat as [Hrest Hle].
    { rewrite Hu, length_app. split; [|lia]. destruct rest; [|done]. by rewrite Hcode in Hhas. }
    eapply yields_bind; [by apply lang_select_ok|]. intros [p1 l] (Hl & E1 & Hint & Hia). cbn [fst snd] in *.
    pose (q := set_lang (lname l) p1). change (p_src q = p_src p) in E1. change (interp_ok (interp q)) in Hint. change (Forall word_ok (iargs q)) in Hia. fold q. clearbody q. clear p1. rename q into p1.
    eapply yields_bind; [apply lang_store; [done|lia|by rewrite E1, Edir]|]. intros [p2 script] (Hts & _ & Hlines & d & b & E2 & Hdir). cbn [fst snd] in *. subst p2.
    apply yields_when; intros Hmax. apply Z.ltb_ge in Hmax.
    destruct (exec_args l) as [f|] eqn:Hex.
    + set (p2 := set_stripped b _). set (s2 := p_src p2).
      destruct (lang_args f s2 p2 Hex) as (pre & Ef & Hpre & Hsuf).
      { unfold s2, p2. simpl. rewrite E1, ho_name0. split; [done|]. by intros ->. }
      { done. }
      { by apply interp_word. }
      destruct (f s2 p2) as [pre' suf]. simpl in Ef. subst pre'.
      eapply yields_bind; [apply check_exec_args_ok; [constructor; [by apply interp_word|done]|done]|]. intros [] (Ha & Hb & Hc). apply yields_ret.
      split; [|split; [cbn; by rewrite E1|by intros sc [= <-]]]. unfold s2, p2 in *. constructor; cbn in *; rewrite ?E1, ?ho_name0; try done.
      destruct Hint as (Hh & Hlen & _). split; [done|]. split; [done|]. split; [done|]. split; [done|]. split; [done|]. lia.
    + apply yields_ret. split; [|split; [cbn; by rewrite E1|by intros sc [= <-]]]. constructor; cbn in *; rewrite ?E1, ?ho_name0; try done.
      * by rewrite Epre.
      * intros _. destruct d as [|c rest']; [done|]. by destruct Hdir.
Qed.
End File.
