(* ===== verification/Written.v ===== *)
(** * Reading back a header (ctl/parser/directives.c)

    The directives of a service, written one per line, are read back to the same
    service, and what follows them is the code. *)

From S2P Require Import Prelude Ngraph Argv Build Text Directives Service.

(** ** Writing *)

Fixpoint join (ws : list bytes) : bytes :=
  match ws with
  | [] => []
  | [w] => w
  | w :: ws => w ++ [32] ++ join ws
  end.

Definition onfail_word (v : Z) : bytes :=
  if v =? NG_ONFAIL_WARN then bs "warn" else if v =? NG_ONFAIL_STOP then bs "stop" else bs "shell".

(** A directive that is not needed for the default. *)
Definition field (b : bool) (key val : bytes) : list (bytes * bytes) := if b then [(key, val)] else [].

(** The directives of a service. *)
Definition fields (s : src) : list (bytes * bytes) :=
  [(bs "type", bs (ng_typename (s_type s)))] ++
  field (negb (bool_decide (s_depon s = []))) (bs "depon") (join (s_depon s)) ++
  field (negb (bool_decide (s_depof s = []))) (bs "depof") (join (s_depof s)) ++
  field (s_have_onfail s) (bs "onfail") (onfail_word (s_onfail s)) ++
  field (negb (s_restart s =? 0)) (bs "restart") (bs "always") ++
  field (negb (s_notify s =? 0)) (bs "notify") (dec (s_notify s)) ++
  field (negb (s_start_ms s =? 0)) (bs "start-timeout") (dec (s_start_ms s)) ++
  field (negb (s_stop_ms s =? 0)) (bs "stop-timeout") (dec (s_stop_ms s)) ++
  field (negb (s_retry_ms s =? 0)) (bs "start-delay") (dec (s_retry_ms s)) ++
  field (negb (s_start_tries s =? 0)) (bs "start-tries") (dec (s_start_tries s)) ++
  field (negb (s_pflags s =? 0)) (bs "deps") (bs "order").

Definition write_line (kv : bytes * bytes) : bytes := [35; 37] ++ kv.1 ++ [58; 32] ++ kv.2 ++ [10].

Definition write_header (s : src) : bytes := concat (write_line <$> fields s).

(** ** Words *)

(** A byte that is in no word of a list, and ends no line. *)
Definition clean (w : bytes) : Prop := w <> [] /\ Forall (fun c => 32 < c /\ c <> 44) w.

(** What [trim] leaves alone. *)
Definition solid (w : bytes) : Prop :=
  (exists c, head w = Some c /\ 32 < c) /\ (exists c, last w = Some c /\ 32 < c) /\ 10 ∉ w.

Lemma trim_left_id w c : head w = Some c -> 32 < c -> trim_left w = w.
Proof. destruct w as [|x w]; [done|]. intros [= ->] Hc. cbn. by destruct (Z.eqb_spec c 32), (Z.eqb_spec c 9); try lia. Qed.

Lemma trim_right_id w c : last w = Some c -> 32 < c -> trim_right w = w.
Proof.
  induction w as [|x w IH]; [done|]. intros Hl Hc. cbn [trim_right]. destruct w as [|y w].
  - injection Hl as ->. cbn. by destruct (Z.eqb_spec c 32), (Z.eqb_spec c 9), (Z.eqb_spec c 13); try lia.
  - rewrite IH by done. done.
Qed.

Lemma trim_id w : solid w -> trim w = w.
Proof.
  intros ((c & Hc & Hc') & (d & Hd & Hd') & _). unfold trim. rewrite (trim_left_id w c), (trim_right_id w d) by done. done.
Qed.

Lemma clean_solid w : clean w -> solid w.
Proof.
  intros [Hne Hw]. split; [|split].
  - destruct w as [|c w]; [done|]. exists c. apply Forall_cons in Hw as [[? _] _]. done.
  - destruct (last w) as [c|] eqn:Hl; [|by apply last_None in Hl]. exists c. split; [done|].
    rewrite Forall_forall in Hw. apply (Hw c). apply last_Some in Hl as [l' ->]. apply elem_of_app. right. by left.
  - intros Hin. rewrite Forall_forall in Hw. specialize (Hw 10 Hin). lia.
Qed.

Lemma solid_app a b c : solid a -> solid b -> 10 ∉ c -> solid (a ++ c ++ b).
Proof.
  intros ((x & Hx & Hx') & _ & Ha) (_ & (y & Hy & Hy') & Hb) Hc. split; [|split].
  - exists x. split; [|done]. by destruct a.
  - exists y. split; [|done]. rewrite !last_app, Hy. done.
  - rewrite !not_elem_of_app. done.
Qed.

Lemma join_solid ws : ws <> [] -> Forall clean ws -> solid (join ws).
Proof.
  induction ws as [|w ws IH]; [done|]. intros _ [Hw Hws]%Forall_cons. destruct ws as [|v ws]; [by apply clean_solid|].
  change (join (w :: v :: ws)) with (w ++ [32] ++ join (v :: ws)).
  apply solid_app; [by apply clean_solid|by apply IH|by intros ?%list_elem_of_singleton].
Qed.

Lemma split_word w t acc : Forall (fun c => 32 < c /\ c <> 44) w -> split_into true (w ++ t) acc = split_into true t (acc ++ w).
Proof.
  intros Hw. revert acc. induction Hw as [|c w Hc Hw IH]; intros acc; [by rewrite app_nil_r|]. cbn [app split_into].
  assert (is_sep true c = false) as -> by (unfold is_sep; lia). by rewrite IH, <- app_assoc.
Qed.

Lemma split_join ws : Forall clean ws -> split_into true (join ws) [] = ws.
Proof.
  induction ws as [|w ws IH]; [done|]. intros [[Hne Hw] Hws]%Forall_cons. destruct ws as [|v ws].
  - cbn [join]. rewrite <- (app_nil_r w) at 1. rewrite split_word by done. cbn. by rewrite decide_False.
  - change (join (w :: v :: ws)) with (w ++ [32] ++ join (v :: ws)). rewrite split_word by done. cbn [app split_into].
    change (is_sep true 32) with true. cbv iota. by rewrite decide_False, IH.
Qed.

(** ** Numbers *)

Lemma digits_dec fuel x acc : 0 <= x < 10 ^ Z.of_nat fuel -> digits_at (dec_digits fuel x acc) 0 = digits_at acc x.
Proof.
  revert x acc. induction fuel as [|fuel IH]; intros x acc Hx; [change (10 ^ Z.of_nat 0) with 1 in Hx; replace x with 0 by lia; done|].
  cbn [dec_digits]. cbv zeta. pose proof (Z.mod_pos_bound x 10 ltac:(lia)). pose proof (Z.div_mod x 10 ltac:(lia)).
  assert (forall a, digits_at ((48 + x mod 10) :: acc) a = digits_at acc (a * 10 + x mod 10)) as Hd.
  { intros a. cbn [digits_at]. assert (isdigit (48 + x mod 10) = true) as -> by (unfold isdigit; lia). do 2 f_equal. lia. }
  destruct (Z.ltb_spec x 10).
  - rewrite Hd. f_equal. rewrite Z.mod_small by lia. lia.
  - rewrite IH, Hd; [f_equal; lia|]. rewrite Nat2Z.inj_succ, Z.pow_succ_r in Hx by lia.
    split; [apply Z.div_pos; lia|]. apply Z.div_lt_upper_bound; lia.
Qed.

Lemma dec_digits_all fuel x acc : Forall (fun c => 48 <= c <= 57) acc -> Forall (fun c => 48 <= c <= 57) (dec_digits fuel x acc).
Proof.
  revert x acc. induction fuel as [|fuel IH]; intros x acc Ha; [done|]. cbn [dec_digits]. cbv zeta. pose proof (Z.mod_pos_bound x 10 ltac:(lia)).
  assert (Forall (fun c => 48 <= c <= 57) (48 + x mod 10 :: acc)) by (constructor; [lia|done]). destruct (x <? 10); [done|by apply IH].
Qed.

Lemma dec_digits_ne fuel x acc : acc <> [] -> dec_digits fuel x acc <> [].
Proof. revert x acc. induction fuel as [|fuel IH]; intros x acc Ha; [done|]. cbn [dec_digits]. cbv zeta. destruct (x <? 10); [done|by apply IH]. Qed.

Lemma dec_digits_some fuel x : dec_digits (S fuel) x [] <> [].
Proof. cbn [dec_digits]. cbv zeta. destruct (x <? 10); [done|]. by apply dec_digits_ne. Qed.

Lemma dec_ok x : 0 <= x -> Forall (fun c => 48 <= c <= 57) (dec x) /\ dec x <> [].
Proof.
  intros Hx. unfold dec. destruct (Z.ltb_spec x 0); [lia|]. split; [by apply dec_digits_all|].
  apply (dec_digits_some 19).
Qed.

Lemma dec_clean x : 0 <= x -> clean (dec x).
Proof. intros [Hd Hne]%dec_ok. split; [done|]. eapply Forall_impl; [exact Hd|]. intros c Hc. cbn in Hc. lia. Qed.

(** [strtoull] reads back what [%u] wrote. *)
Lemma strtoull_dec x : 0 <= x <= ULLONG_MAX -> strtoull (dec x) = (x, [], false).
Proof.
  intros Hx. destruct (dec_ok x ltac:(lia)) as [Hd Hne]. assert (digits_at (dec x) 0 = (x, [])) as Hat.
  { unfold dec. destruct (Z.ltb_spec x 0); [lia|]. rewrite digits_dec; [done|]. unfold ULLONG_MAX in Hx. lia. }
  unfold strtoull. destruct (dec x) as [|c t]; [done|]. apply Forall_cons in Hd as [Hc _].
  assert (skip_isspace (c :: t) = c :: t) as ->. { cbn. assert (isspace c = false) as -> by (unfold isspace; lia). done. }
  cbv zeta. assert (match c :: t with 45 :: t' => (true, t') | 43 :: t' => (false, t') | _ => (false, c :: t) end = (false, c :: t)) as ->.
  { repeat (destruct c as [|c|c]; try done; try lia). }
  assert (isdigit c = true) as -> by (unfold isdigit; lia). rewrite Hat. destruct (Z.ltb_spec ULLONG_MAX x); [lia|done].
Qed.

(** ** Reading a line *)

(** A key as the directives have it. *)
Definition key_ok (k : bytes) : bool := forallb (fun c => (32 <? c) && negb (c =? 58) && negb (c =? 44)) k && negb (bool_decide (k = [])).

Lemma key_clean k : key_ok k = true -> clean k /\ 58 ∉ k.
Proof.
  intros [Hk Hne%negb_true_iff%bool_decide_eq_false]%andb_true_iff. rewrite forallb_forall in Hk. split; [split; [done|]|].
  - apply Forall_forall. intros c Hc%list_elem_of_In. specialize (Hk c Hc). lia.
  - intros Hin%list_elem_of_In. specialize (Hk 58 Hin). done.
Qed.

Lemma past_none c (s : bytes) : c ∉ s -> past c s = None /\ upto c s = s.
Proof.
  induction s as [|x s IH]; [done|]. intros [Hx Hs]%not_elem_of_cons. cbn. destruct (Z.eqb_spec x c); [done|]. destruct (IH Hs) as [-> ->]. done.
Qed.

Lemma past_first c (s t : bytes) : c ∉ s -> past c (s ++ c :: t) = Some t /\ upto c (s ++ c :: t) = s.
Proof.
  induction s as [|x s IH]; [cbn; by rewrite Z.eqb_refl|]. intros [Hx Hs]%not_elem_of_cons. cbn. destruct (Z.eqb_spec x c); [done|].
  destruct (IH Hs) as [-> ->]. done.
Qed.

Section Lines.
Context (g_dir fname : bytes).

Lemma header_line_read k v p : key_ok k = true -> solid v ->
  header_line g_dir fname ([35; 37] ++ k ++ [58; 32] ++ v) p = directive g_dir fname k v p.
Proof.
  intros [Hk Hcolon]%key_clean Hv. pose proof (clean_solid k Hk) as Hks. unfold header_line.
  assert (solid (k ++ [58; 32] ++ v)) as Hkv.
  { apply solid_app; [done|done|]. intros Hin%list_elem_of_In. cbn in Hin. lia. }
  assert (trim ([35; 37] ++ k ++ [58; 32] ++ v) = [35; 37] ++ k ++ [58; 32] ++ v) as ->.
  { apply trim_id. pose proof Hkv as (_ & (d & Hd & Hd') & Hn). split; [by exists 35|]. split; [exists d; by rewrite last_app, Hd|].
    rewrite not_elem_of_app. split; [|done]. intros Hin%list_elem_of_In. cbn in Hin. lia. }
  set (kv := k ++ [58; 32] ++ v) in *. cbn [app]. rewrite (trim_id kv Hkv). cbv zeta. destruct (decide _) as [He|_]; [by destruct k|].
  unfold kv. change ([58; 32] ++ v) with (58 :: [32] ++ v).
  destruct (past_first 58 k ([32] ++ v) Hcolon) as [-> ->]. rewrite (trim_id k Hks).
  assert (trim ([32] ++ v) = v) as ->; [|done]. unfold trim. cbn [app trim_left]. change ((32 =? 32) || (32 =? 9)) with true. cbv iota. by apply trim_id.
Qed.

(** The lines of directives, one after the other. *)
Fixpoint read_fields (l : list (bytes * bytes)) (p : psrc) : PM psrc :=
  match l with
  | [] => mret p
  | (k, v) :: l => p ← directive g_dir fname k v p; read_fields l p
  end.

Definition field_ok (kv : bytes * bytes) : Prop := key_ok kv.1 = true /\ solid kv.2.

Lemma header_fields l code p fuel err : Forall field_ok l -> (length l < fuel)%nat ->
  code <> [] -> trim (upto 10 code) <> [] -> starts_hash (trim (upto 10 code)) = false ->
  header g_dir fuel fname (concat (write_line <$> l) ++ code) p err = (p ← read_fields l p; mret (p, code)) err.
Proof.
  intros Hl. revert p fuel err. induction Hl as [|[k v] l [Hk Hv] Hl IH]; intros p fuel err Hf Hc Ht Hh; destruct fuel as [|fuel]; try (cbn in Hf; lia).
  - cbn [fmap list_fmap concat app header]. destruct code as [|c code]; [done|]. cbv zeta. by rewrite Hh, bool_decide_eq_false_2.
  - cbn [fst snd] in Hk, Hv. set (line := [35; 37] ++ k ++ [58; 32] ++ v). cbn [fmap list_fmap concat].
    assert (write_line (k, v) = line ++ [10]) as -> by (unfold write_line, line; cbn [fst snd]; by rewrite <- !app_assoc).
    rewrite <- !app_assoc. cbn [app header]. set (rest := concat (write_line <$> l) ++ code).
    assert (10 ∉ line) as Hn.
    { destruct (key_clean k Hk) as [Hkc _]. destruct (clean_solid k Hkc) as (_ & _ & Hk10), Hv as (_ & _ & Hv10). unfold line.
      rewrite !not_elem_of_app. split_ands; [intros Hin%list_elem_of_In; cbn in Hin; lia|done|intros Hin%list_elem_of_In; cbn in Hin; lia|done]. }
    destruct (past_first 10 line rest Hn) as [Hp Hu]. change (10 :: rest) with ([10] ++ rest) in *. destruct (line ++ [10] ++ rest) as [|x y] eqn:Hxy; [by destruct line|].
    rewrite <- Hxy in *. cbv zeta. rewrite Hu.
    assert (trim line = line) as Htl.
    { apply trim_id. destruct Hv as (_ & (d & Hd & Hd') & _). split; [by exists 35|]. split; [exists d; unfold line; by rewrite !last_app, Hd|done]. }
    assert (negb (bool_decide (trim line = [])) && negb (starts_hash (trim line)) = false) as -> by (rewrite Htl; by rewrite andb_false_r).
    rewrite Hp. unfold line. rewrite header_line_read by done. cbn [read_fields]. unfold mbind, PM_bind.
    destruct (directive g_dir fname k v p err); [|done..]. unfold rest. rewrite IH; [done|cbn in Hf; lia|done..].
Qed.

Lemma read_fields_app l1 l2 p err : read_fields (l1 ++ l2) p err = (p ← read_fields l1 p; read_fields l2 p) err.
Proof.
  revert p err. induction l1 as [|[k v] l1 IH]; intros p err; [done|]. cbn [app read_fields]. unfold mbind, PM_bind in *.
  destruct (directive g_dir fname k v p err); [|done..]. by rewrite IH.
Qed.

(** Directives that do nothing but set their field. *)
Definition sets (l : list (bytes * bytes)) (p p' : psrc) : Prop := forall err, read_fields l p err = Parsed p' err.

Lemma sets_app l1 l2 p p1 p2 : sets l1 p p1 -> sets l2 p1 p2 -> sets (l1 ++ l2) p p2.
Proof. intros H1 H2 err. rewrite read_fields_app. unfold mbind, PM_bind. by rewrite H1. Qed.

Lemma sets_field (b : bool) k v p p1 : (b = true -> forall err, directive g_dir fname k v p err = Parsed p1 err) ->
  sets (field b k v) p (if b then p1 else p).
Proof. destruct b; intros Hb err; [|done]. cbn [field read_fields]. unfold mbind, PM_bind. by rewrite Hb. Qed.

(** A field that is not written is as it is. *)
Lemma sets_kept (b : bool) k v p p1 : (b = true -> forall err, directive g_dir fname k v p err = Parsed p1 err) -> (b = false -> p1 = p) ->
  sets (field b k v) p p1.
Proof.
  intros H1 H2. assert (p1 = if b then p1 else p) as -> by (destruct b; auto). apply sets_field. intros ->. by apply H1.
Qed.

Lemma parse_ms_dec x key err : 0 < x <= NG_MAX_MS -> parse_ms g_dir (dec x) fname key err = Parsed x err.
Proof.
  intros Hx. unfold parse_ms. rewrite strtoull_dec by (unfold NG_MAX_MS, ULLONG_MAX in *; lia). destruct (dec_ok x ltac:(lia)) as [Hd Hne].
  assert (starts_minus (dec x) = false) as ->.
  { destruct (dec x) as [|c t]; [done|]. apply Forall_cons in Hd as [Hc _]. repeat (destruct c as [|c|c]; try done; try lia). }
  rewrite bool_decide_eq_false_2 by done. unfold mbind, PM_bind, die_when. cbn [orb]. unfold mret, PM_ret.
  rewrite (decide_False (P := [] = bs "ms")), decide_True by done.
  rewrite Z.div_1_r, Z.mul_1_r. destruct (Z.ltb_spec NG_MAX_MS x); [lia|]. destruct (Z.eqb_spec x 0); [lia|]. done.
Qed.

Lemma in_bounds_dec x lo hi msg err : 0 <= x -> lo <= x <= hi -> x <= ULLONG_MAX -> in_bounds (dec x) lo hi msg err = Parsed x err.
Proof.
  intros H0 Hx Hm. unfold in_bounds. rewrite strtoull_dec by lia. destruct (dec_ok x H0) as [Hd Hne].
  assert (starts_minus (dec x) = false) as ->.
  { destruct (dec x) as [|c t]; [done|]. apply Forall_cons in Hd as [Hc _]. repeat (destruct c as [|c|c]; try done; try lia). }
  rewrite (bool_decide_eq_false_2 ([] = dec x)), (bool_decide_eq_false_2 ([] <> [])) by auto. cbn [orb].
  destruct (Z.ltb_spec x lo); [lia|]. destruct (Z.ltb_spec hi x); [lia|]. done.
Qed.
End Lines.


(** ** The whole header *)

(** What a header can say of a service. *)
Record written_ok (fname : bytes) (s : src) : Prop := WrittenOk {
  wo_name : s_name s = fname;
  wo_script : s_script s = None;
  wo_type : NG_TYPE_ONESHOT <= s_type s <= NG_TYPE_TARGET;
  wo_onfail : if s_have_onfail s then NG_ONFAIL_WARN <= s_onfail s <= NG_ONFAIL_SHELL else s_onfail s = 0;
  wo_restart : 0 <= s_restart s <= 1;
  wo_notify : s_notify s = 0 \/ NG_NOTIFY_MIN <= s_notify s <= NG_NOTIFY_MAX;
  wo_start : 0 <= s_start_ms s <= NG_MAX_MS;
  wo_stop : 0 <= s_stop_ms s <= NG_MAX_MS;
  wo_retry : 0 <= s_retry_ms s <= 65535;
  wo_tries : 0 <= s_start_tries s <= NG_MAX_TRIES;
  wo_pflags : s_pflags s = 0 \/ s_pflags s = NG_PF_ORDER_ONLY;
  wo_depon : Forall clean (s_depon s);
  wo_depof : Forall clean (s_depof s);
  wo_exec : s_exec_pre s = [] /\ s_exec_suf s = [] /\ s_direct s = [];
}.

Section Whole.
Context (g_dir fname : bytes) (s : src).
Context (Hs : written_ok fname s).
Notation sets := (sets g_dir fname).
Notation directive_ := (directive g_dir fname).

Lemma on_type p : sets [(bs "type", bs (ng_typename (s_type s)))] p (set_have_type true (set_src (set_type (s_type s)) p)).
Proof.
  intros err. destruct Hs as [_ _ Ht _]. unfold NG_TYPE_ONESHOT, NG_TYPE_TARGET in Ht.
  assert (s_type s = 0 \/ s_type s = 1 \/ s_type s = 2) as [-> | [-> | ->]] by lia; reflexivity.
Qed.

Lemma on_depon p err : directive_ (bs "depon") (join (s_depon s)) p err = Parsed (set_src (fun t => set_depon (s_depon t ++ s_depon s) t) p) err.
Proof.
  transitivity (Parsed (set_src (fun t => set_depon (s_depon t ++ split_into true (join (s_depon s)) []) t) p) err); [reflexivity|].
  by rewrite split_join by apply Hs.
Qed.

Lemma on_depof p err : directive_ (bs "depof") (join (s_depof s)) p err = Parsed (set_src (fun t => set_depof (s_depof t ++ s_depof s) t) p) err.
Proof.
  transitivity (Parsed (set_src (fun t => set_depof (s_depof t ++ split_into true (join (s_depof s)) []) t) p) err); [reflexivity|].
  by rewrite split_join by apply Hs.
Qed.

Lemma on_onfail p err : s_have_onfail s = true -> directive_ (bs "onfail") (onfail_word (s_onfail s)) p err = Parsed (set_src (set_onfail (s_onfail s)) p) err.
Proof.
  intros Hh. pose proof (wo_onfail _ _ Hs) as Ho. rewrite Hh in Ho. unfold NG_ONFAIL_WARN, NG_ONFAIL_SHELL in Ho.
  assert (s_onfail s = 0 \/ s_onfail s = 1 \/ s_onfail s = 2) as [-> | [-> | ->]] by lia; reflexivity.
Qed.

Lemma on_notify p err : s_notify s <> 0 -> directive_ (bs "notify") (dec (s_notify s)) p err = Parsed (set_src (set_notify (s_notify s)) p) err.
Proof.
  intros H0. pose proof (wo_notify _ _ Hs) as [?|Hn]; [done|]. unfold NG_NOTIFY_MIN, NG_NOTIFY_MAX in *.
  transitivity ((fd ← in_bounds (dec (s_notify s)) NG_NOTIFY_MIN NG_NOTIFY_MAX (at_ g_dir fname ++ bs "notify:" ++ dec (s_notify s) ++ bs " must be between " ++ dec NG_NOTIFY_MIN ++ bs " and " ++ dec NG_NOTIFY_MAX); mret (set_src (set_notify (u16 fd)) p)) err); [reflexivity|].
  unfold mbind, PM_bind. rewrite in_bounds_dec by (unfold NG_NOTIFY_MIN, NG_NOTIFY_MAX, ULLONG_MAX; lia). unfold u16. by rewrite Z.mod_small by lia.
Qed.

Lemma on_start p err : 0 < s_start_ms s -> directive_ (bs "start-timeout") (dec (s_start_ms s)) p err = Parsed (set_src (set_start_ms (s_start_ms s)) p) err.
Proof.
  intros H0. pose proof (wo_start _ _ Hs).
  transitivity ((ms ← parse_ms g_dir (dec (s_start_ms s)) fname (bs "start-timeout"); mret (set_src (set_start_ms ms) p)) err); [reflexivity|].
  unfold mbind, PM_bind. by rewrite parse_ms_dec by lia.
Qed.

Lemma on_stop p err : 0 < s_stop_ms s -> directive_ (bs "stop-timeout") (dec (s_stop_ms s)) p err = Parsed (set_src (set_stop_ms (s_stop_ms s)) p) err.
Proof.
  intros H0. pose proof (wo_stop _ _ Hs).
  transitivity ((ms ← parse_ms g_dir (dec (s_stop_ms s)) fname (bs "stop-timeout"); mret (set_src (set_stop_ms ms) p)) err); [reflexivity|].
  unfold mbind, PM_bind. by rewrite parse_ms_dec by lia.
Qed.

Lemma on_retry p err : 0 < s_retry_ms s -> directive_ (bs "start-delay") (dec (s_retry_ms s)) p err = Parsed (set_src (set_retry_ms (s_retry_ms s)) p) err.
Proof.
  intros H0. pose proof (wo_retry _ _ Hs).
  transitivity ((ms ← parse_ms g_dir (dec (s_retry_ms s)) fname (bs "start-delay");
    die_when (65535 <? ms) (at_ g_dir fname ++ bs "start-delay:" ++ dec (s_retry_ms s) ++ bs " exceeds the " ++ dec 65535 ++ bs " ms maximum");;
    mret (set_src (set_retry_ms (u16 ms)) p)) err); [reflexivity|].
  unfold mbind, PM_bind. rewrite parse_ms_dec by (unfold NG_MAX_MS; lia). destruct (Z.ltb_spec 65535 (s_retry_ms s)); [lia|].
  cbn [die_when]. unfold u16. by rewrite Z.mod_small by lia.
Qed.

Lemma on_tries p err : 0 < s_start_tries s -> directive_ (bs "start-tries") (dec (s_start_tries s)) p err = Parsed (set_src (set_start_tries (s_start_tries s)) p) err.
Proof.
  intros H0. pose proof (wo_tries _ _ Hs). unfold NG_MAX_TRIES in *.
  transitivity ((t ← in_bounds (dec (s_start_tries s)) 1 NG_MAX_TRIES (at_ g_dir fname ++ bs "start-tries:" ++ dec (s_start_tries s) ++ bs " must be between 1 and " ++ dec NG_MAX_TRIES); mret (set_src (set_start_tries (u8 t)) p)) err); [reflexivity|].
  unfold mbind, PM_bind. rewrite in_bounds_dec by (unfold NG_MAX_TRIES, ULLONG_MAX; lia). unfold u8. by rewrite Z.mod_small by lia.
Qed.

Lemma fields_ok : Forall field_ok (fields s).
Proof.
  destruct Hs. unfold fields.
  assert (forall b k v, key_ok k = true -> (b = true -> solid v) -> Forall field_ok (field b k v)) as Hf.
  { intros [] k v Hk Hv; [constructor; [by split; [|apply Hv]|constructor]|constructor]. }
  assert (forall x, 0 <= x -> solid (dec x)) as Hdec by (intros; by apply clean_solid, dec_clean).
  assert (forall w, forallb (fun c => (32 <? c) && negb (c =? 44)) w && negb (bool_decide (w = [])) = true -> solid w) as Hw.
  { intros w [Hb Hne%negb_true_iff%bool_decide_eq_false]%andb_true_iff. apply clean_solid. split; [done|]. apply Forall_forall.
    intros c Hc%list_elem_of_In. rewrite forallb_forall in Hb. specialize (Hb c Hc). lia. }
  repeat (apply Forall_app; split); try (apply Hf; [reflexivity|]).
  - constructor; [|constructor]. split; [reflexivity|]. apply Hw. unfold NG_TYPE_ONESHOT, NG_TYPE_TARGET in *.
    assert (s_type s = 0 \/ s_type s = 1 \/ s_type s = 2) as [-> | [-> | ->]] by lia; reflexivity.
  - intros Hne%negb_true_iff%bool_decide_eq_false. by apply join_solid.
  - intros Hne%negb_true_iff%bool_decide_eq_false. by apply join_solid.
  - intros _. apply Hw. unfold onfail_word. by destruct (_ =? _); [|destruct (_ =? _)].
  - intros _. by apply Hw.
  - intros _. apply Hdec. unfold NG_NOTIFY_MIN in *. lia.
  - intros _. apply Hdec. lia.
  - intros _. apply Hdec. lia.
  - intros _. apply Hdec. lia.
  - intros _. apply Hdec. lia.
  - intros _. by apply Hw.
Qed.

(** The psrc a header starts from. *)
Definition blank : psrc := PSrc (set_type NG_TYPE_TARGET (first_src fname)) false NG_SHELL [] false (bs "shell").

(** The fields read so far. *)
Definition part (dn df : list bytes) (honf : bool) (onf r n st sp rt tr pf : Z) : psrc :=
  PSrc (Src fname None (s_type s) onf honf r n st sp rt tr pf dn df [] [] []) true NG_SHELL [] false (bs "shell").

Lemma fields_read : sets (fields s) blank (PSrc s true NG_SHELL [] false (bs "shell")).
Proof.
  assert (forall b : bool, negb b = false -> b = true) as Hb by (by intros []).
  assert (forall x : Z, negb (x =? 0) = false -> x = 0) as Hz by (intros x Hx%Hb; by apply Z.eqb_eq).
  assert (forall x : Z, negb (x =? 0) = true -> x <> 0) as Hnz by (intros x Hx%negb_true_iff; by apply Z.eqb_neq).
  pose proof Hs as []. unfold NG_NOTIFY_MIN in *.
  unfold fields. apply (sets_app _ _ _ _ _ (part [] [] false 0 0 0 0 0 0 0 0)); [apply on_type|].
  apply (sets_app _ _ _ _ _ (part (s_depon s) [] false 0 0 0 0 0 0 0 0)).
  { apply sets_kept; [intros _ err; apply on_depon|]. intros E%Hb%bool_decide_eq_true. by rewrite E. }
  apply (sets_app _ _ _ _ _ (part (s_depon s) (s_depof s) false 0 0 0 0 0 0 0 0)).
  { apply sets_kept; [intros _ err; apply on_depof|]. intros E%Hb%bool_decide_eq_true. by rewrite E. }
  apply (sets_app _ _ _ _ _ (part (s_depon s) (s_depof s) (s_have_onfail s) (s_onfail s) 0 0 0 0 0 0 0)).
  { apply sets_kept; [intros E err; rewrite on_onfail by done; by rewrite E|]. intros E. rewrite E in *. by rewrite wo_onfail0. }
  apply (sets_app _ _ _ _ _ (part (s_depon s) (s_depof s) (s_have_onfail s) (s_onfail s) (s_restart s) 0 0 0 0 0 0)).
  { apply sets_kept; [intros E%Hnz err; assert (s_restart s = 1) as -> by lia; reflexivity|]. intros E%Hz. by rewrite E. }
  apply (sets_app _ _ _ _ _ (part (s_depon s) (s_depof s) (s_have_onfail s) (s_onfail s) (s_restart s) (s_notify s) 0 0 0 0 0)).
  { apply sets_kept; [intros E%Hnz err; by rewrite on_notify|]. intros E%Hz. by rewrite E. }
  apply (sets_app _ _ _ _ _ (part (s_depon s) (s_depof s) (s_have_onfail s) (s_onfail s) (s_restart s) (s_notify s) (s_start_ms s) 0 0 0 0)).
  { apply sets_kept; [intros E%Hnz err; by rewrite on_start by lia|]. intros E%Hz. by rewrite E. }
  apply (sets_app _ _ _ _ _ (part (s_depon s) (s_depof s) (s_have_onfail s) (s_onfail s) (s_restart s) (s_notify s) (s_start_ms s) (s_stop_ms s) 0 0 0)).
  { apply sets_kept; [intros E%Hnz err; by rewrite on_stop by lia|]. intros E%Hz. by rewrite E. }
  apply (sets_app _ _ _ _ _ (part (s_depon s) (s_depof s) (s_have_onfail s) (s_onfail s) (s_restart s) (s_notify s) (s_start_ms s) (s_stop_ms s) (s_retry_ms s) 0 0)).
  { apply sets_kept; [intros E%Hnz err; by rewrite on_retry by lia|]. intros E%Hz. by rewrite E. }
  apply (sets_app _ _ _ _ _ (part (s_depon s) (s_depof s) (s_have_onfail s) (s_onfail s) (s_restart s) (s_notify s) (s_start_ms s) (s_stop_ms s) (s_retry_ms s) (s_start_tries s) 0)).
  { apply sets_kept; [intros E%Hnz err; by rewrite on_tries by lia|]. intros E%Hz. by rewrite E. }
  assert (PSrc s true NG_SHELL [] false (bs "shell") = part (s_depon s) (s_depof s) (s_have_onfail s) (s_onfail s) (s_restart s) (s_notify s) (s_start_ms s) (s_stop_ms s) (s_retry_ms s) (s_start_tries s) (s_pflags s)) as ->.
  { unfold part. destruct s. cbn in *. destruct wo_exec0 as (-> & -> & ->). by subst. }
  apply sets_kept; [|intros E%Hz; by rewrite E]. intros E%Hnz err. by destruct wo_pflags0 as [?| ->].
Qed.

(** C32. What is written is read back: the directives of a service, one per line,
    followed by code, are read to the same service, with nothing said to stderr,
    and the code is where they end. *)
Theorem header_reads_back code err : code <> [] -> trim (upto 10 code) <> [] -> starts_hash (trim (upto 10 code)) = false ->
  header g_dir (S (length (write_header s ++ code))) fname (write_header s ++ code) blank err = Parsed (PSrc s true NG_SHELL [] false (bs "shell"), code) err.
Proof.
  intros Hc Ht Hh. unfold write_header. rewrite header_fields; [|apply fields_ok| |done..].
  - unfold mbind, PM_bind. by rewrite fields_read.
  - rewrite length_app. assert (length (fields s) <= length (concat (write_line <$> fields s)))%nat; [|lia].
    generalize (fields s). intros l. induction l as [|kv l IH]; [done|]. cbn [fmap list_fmap concat length]. rewrite length_app. unfold write_line at 1. cbn [app length]. lia.
Qed.
End Whole.

(** A daemon with every directive. *)
Definition every_field : src :=
  Src (bs "web") None NG_TYPE_DAEMON NG_ONFAIL_STOP true 1 3 30000 5000 250 7 NG_PF_ORDER_ONLY [bs "net"; bs "disk"] [bs "all"] [] [] [].

Lemma header_reads_back_witness :
  write_header every_field = bs "#%type: daemon" ++ [10] ++ bs "#%depon: net disk" ++ [10] ++ bs "#%depof: all" ++ [10] ++ bs "#%onfail: stop" ++ [10] ++
    bs "#%restart: always" ++ [10] ++ bs "#%notify: 3" ++ [10] ++ bs "#%start-timeout: 30000" ++ [10] ++ bs "#%stop-timeout: 5000" ++ [10] ++
    bs "#%start-delay: 250" ++ [10] ++ bs "#%start-tries: 7" ++ [10] ++ bs "#%deps: order" ++ [10] /\
  header (bs "/etc/ninit") (S (length (write_header every_field ++ bs "exec web"))) (bs "web") (write_header every_field ++ bs "exec web") (blank (bs "web")) [] =
    Parsed (PSrc every_field true NG_SHELL [] false (bs "shell"), bs "exec web") [].
Proof.
  split; [vm_compute; reflexivity|]. apply header_reads_back; [|vm_compute; congruence..].
  constructor; try (vm_compute; intuition congruence).
  - refine (bool_decide_unpack (Forall (fun w : bytes => w <> [] /\ Forall (fun c => 32 < c /\ c <> 44) w) _) _). vm_compute. exact I.
  - refine (bool_decide_unpack (Forall (fun w : bytes => w <> [] /\ Forall (fun c => 32 < c /\ c <> 44) w) _) _). vm_compute. exact I.
Defined.
