(* ===== verification/Lua.v ===== *)
(** * Lua scripts (ctl/parser/lua.c)

    The stripper takes comments and blanks out of the text, in place, so that a
    script is stored as short as it runs; the line numbers stay. *)

From S2P Require Import Prelude Ngraph Verify Build Link Visit Schedule Desc Layout Emit Argv Text Directives Lang Kept Service.

Definition lua_claims (base : bytes) : bool := claims_versioned base (bs "lua") || str_prefix base (bs "luajit").

Definition lua_blank (c : Z) : bool := (c =? 32) || (c =? 9) || (c =? 11) || (c =? 12).

(** The level of a long bracket opening at [s[i]], plus one, or 0. *)
Definition lua_sep (s : bytes) (i : nat) : PM nat :=
  let k := (S i + run_of (Z.eqb 61) (drop (S i) s))%nat in
  c ← rd s k; mret (if c =? 91 then (k - i)%nat else 0%nat).

(** After the long bracket that closes level [lv]. *)
Fixpoint lua_close (fuel : nat) (s : bytes) (i lv : nat) : PM (option nat) :=
  match fuel with
  | O => endless
  | S fuel' =>
      if decide (length s <= i)%nat then mret None else
      c ← rd s i;
      if negb (c =? 93) then lua_close fuel' s (S i) lv else
      let k := (S i + run_of (Z.eqb 61) (drop (S i) s))%nat in
      x ← rd s k;
      if bool_decide (k < length s)%nat && (x =? 93) && bool_decide (k - i - 1 = lv)%nat then mret (Some (S k))
      else lua_close fuel' s (S i) lv
  end.

Fixpoint lua_str_from (fuel : nat) (s : bytes) (q : Z) (i : nat) : PM (option nat) :=
  match fuel with
  | O => endless
  | S fuel' =>
      if decide (length s <= i)%nat then mret None else
      c ← rd s i;
      if c =? q then mret (Some (S i)) else
      if (c =? 10) || (c =? 13) then mret None else
      if negb (c =? 92) then lua_str_from fuel' s q (S i) else
      c1 ← rd s (i + 1);
      if c1 =? 122 then
        lua_str_from fuel' s q (i + 2 + run_of (fun c => lua_blank c || (c =? 10)%Z || (c =? 13)%Z) (drop (i + 2) s))%nat
      else
        c2 ← (if (c1 =? 13) || (c1 =? 10) then rd s (i + 2) else mret 0);
        let two := ((c1 =? 13) && (c2 =? 10)) || ((c1 =? 10) && (c2 =? 13)) in
        lua_str_from fuel' s q (if two then i + 3 else i + 2)%nat
  end.

Definition lua_str (s : bytes) (i : nat) : PM (option nat) := q ← rd s i; lua_str_from (S (length s)) s q (S i).

(** Whether a carriage return that no newline follows is on the line. *)
Fixpoint lone_cr (s : bytes) : bool :=
  match s with
  | [] => false
  | c :: s' =>
      if c =? 10 then false else
      if (c =? 13) && negb (match s' with 10 :: _ => true | _ => false end) then true else lone_cr s'
  end.

(** The state of [lua_strip]: [j] is the length of [out], which has been
    written over the start of the text. *)
Record lstate := LState { li : nat; lout : bytes; lpend : bool; lbol : bool; lcrlf : bool }.

(** How a turn of its inner loop ends: with the next one, at the start of the next line, or
    with the rest of the text as it is. *)
Inductive lnext := Go (st : lstate) | NewLine (st : lstate) | Bail (st : lstate).

Section Strip.
Context (code : nat) (s : bytes).

(** A block comment at [i], of level [lv]. *)
Definition lua_comment (b : bytes) (lv : nat) (st : lstate) : PM lnext :=
  let i := li st in
  e ← lua_close (S (length b)) b (i + 2 + lv + 1) (lv - 1);
  match e with
  | None => mret (Bail st)
  | Some e =>
      let text := slice b i e in
      if decide (13 ∈ text) then mret (Bail st) else
      let nl := occ 10 text in
      mret (Go (if decide (nl = 0%nat) then LState e (lout st) (negb (lbol st)) (lbol st) (lcrlf st)
                else LState e (lout st ++ replicate nl 10) false true (lcrlf st)))
  end.

(** A line comment at [i]. *)
Definition lua_line_comment (b : bytes) (st : lstate) : lnext :=
  let i := li st in
  if lone_cr (drop i b) then Bail st
  else Go (LState (i + run_of (fun c => negb (c =? 10)%Z) (drop i b)) (lout st) false (lbol st) (lcrlf st)).

(** A carriage return with no newline after it: a newline written before it
    pairs with it only where they met in the file. *)
Definition lua_cr (b : bytes) (st : lstate) : PM lnext :=
  let out := lout st in
  let bail out := mret (Bail (LState (li st) out (lpend st) (lbol st) (lcrlf st))) in
  if bool_decide (code < length out)%nat && bool_decide (last out = Some 10) then
    p ← rd b (li st - 1);
    if negb (p =? 10) then bail (out ++ [32]) else
    if lcrlf st then bail (take (length out - 1) out ++ [13; 10]) else bail out
  else bail out.

(** Anything else: a string, a long bracket, or one byte. *)
Definition lua_token (c : Z) (st : lstate) : PM lnext :=
  let i := li st in
  let out := if lpend st then lout st ++ [32] else lout st in
  let b := buf out s in
  let st := LState i out false false (lcrlf st) in
  e ← (if (c =? 39) || (c =? 34) then lua_str b i else
       if c =? 91 then lv ← lua_sep b i; if decide (lv = 0%nat) then mret (Some (S i)) else lua_close (S (length b)) b (i + lv + 1) (lv - 1)
       else mret (Some (S i)));
  match e with
  | None => mret (Bail st)
  | Some e => mret (Go (LState e (out ++ slice b i e) false false (lcrlf st)))
  end.

Definition lua_step (st : lstate) : PM lnext :=
  let '(LState i out pend bol crlf) := st in
  let b := buf out s in
  c ← rd b i;
  if c =? 10 then
    crlf ← (if bool_decide (code < i)%nat then p ← rd b (i - 1); mret (p =? 13) else mret false);
    mret (NewLine (LState (S i) (out ++ [10]) pend bol crlf))
  else if lua_blank c then mret (Go (LState (S i) out (negb bol) bol crlf))
  else if c =? 13 then
    c1 ← rd b (i + 1);
    if c1 =? 10 then mret (Go (LState (S i) out pend bol crlf)) else lua_cr b st
  else
    c1 ← (if c =? 45 then rd b (i + 1) else mret 0);
    if (c =? 45) && (c1 =? 45) then
      c2 ← rd b (i + 2);
      lv ← (if c2 =? 91 then lua_sep b (i + 2) else mret 0%nat);
      if decide (lv = 0%nat) then mret (lua_line_comment b st) else lua_comment b lv st
    else lua_token c st.

(** The start of a line. *)
Definition lua_line (st : lstate) : lstate :=
  let i := li st in
  LState (i + run_of lua_blank (drop i (buf (lout st) s))) (lout st) false true (lcrlf st).

Fixpoint lua_lines (fuel : nat) (st : lstate) : PM bytes :=
  match fuel with
  | O => endless
  | S fuel' =>
      if decide (length s <= li st)%nat then mret (lout st) else
      r ← lua_step st;
      match r with
      | Go st => lua_lines fuel' st
      | NewLine st => lua_lines fuel' (lua_line st)
      | Bail st =>
          let out := if lpend st then lout st ++ [32] else lout st in
          mret (out ++ drop (li st) (buf out s))
      end
  end.

Definition lua_strip : PM bytes := lua_lines (S (length s)) (lua_line (LState code (take code s) false true false)).

End Strip.

Definition lua_store (p : psrc) (body : bytes) (code_off : nat) : PM (psrc * bytes) :=
  let b := blank_header body code_off in
  script ← lua_strip (length b - (length body - code_off)) b;
  mret (set_stripped true p, script).

(** A first chunk sets arg[0] and flushes stdout per line for the log. *)
Definition lua_exec_args (s : src) (p : psrc) : list bytes * list bytes :=
  let pre := escape_name (bs "io.stdout:setvbuf(" ++ [34] ++ bs "line" ++ [34] ++ bs ") arg = { [0] = " ++ [34]) (s_name s) 34 ([34] ++ bs " }") in
  ([interp p] ++ iargs p ++ [bs "-e"; pre; bs "-e"], []).

(** The first word that keeps the script from running as it is stored. *)
Fixpoint lua_bad_arg (a : list bytes) : option (bytes * bytes) :=
  match a with
  | [] => None
  | w :: a' =>
      match w with
      | 45 :: c :: rest =>
          if bool_decide (w = bs "--") || (c =? 98) then Some (w, ARG_SCRIPT) else
          if c =? 101 then Some (w, ARG_CODE) else
          if ((c =? 108) || (c =? 106)) && bool_decide (rest = []) then
            match a' with [] => Some (w, ARG_EXIT) | _ :: a'' => lua_bad_arg a'' end
          else lua_bad_arg a'
      | _ => Some (w, ARG_SCRIPT)
      end
  end.

(** load() compiles the chunk without running it. *)
Definition lua_check_argv (p : psrc) : bytes * list bytes :=
  (interp p, [interp p; bs "-e";
     bs "local f, e = (loadstring or load)(io.read('*a'), '=lua') if not f then io.stderr:write(e, '\n') os.exit(1) end"]).

Definition lang_lua : lang := Lang lua_claims lua_store (Some lua_exec_args) lua_bad_arg (bs "lua") lua_check_argv.

(** * What the stripper of Lua scripts keeps (ctl/parser/lua.c)

    It reads nothing outside the text, writes nothing over what it has still to
    read, and ends for every text; every line stays where it is. *)

Lemma lua_sep_ok s i : (i < length s)%nat -> yields (lua_sep s i) (fun lv => lv = 0%nat \/ (0 < lv /\ i + lv < length s)%nat).
Proof.
  intros Hi. unfold lua_sep. pose proof (run_of_le (Z.eqb 61) (drop (S i) s)) as Hr. rewrite length_drop in Hr.
  apply yields_rd; [lia|]. intros c Hc. apply yields_ret. destruct (Z.eqb_spec c 91) as [->|]; [|by left]. right.
  destruct Hc as [Hc|(_ & _ & ?)]; [|done]. apply lookup_lt_Some in Hc. lia.
Qed.

Lemma lua_close_ok fuel s i lv : (length s - i < fuel)%nat ->
  yields (lua_close fuel s i lv) (fun r => forall e, r = Some e -> (i < e <= length s)%nat /\ s !! (e - 1)%nat = Some 93).
Proof.
  revert i. induction fuel as [|fuel IH]; intros i Hf; [lia|]. cbn [lua_close].
  destruct (decide (length s <= i)%nat) as [|Hi]; [by apply yields_ret|].
  apply yields_rd_in; [lia|]. intros c Hc.
  assert (yields (lua_close fuel s (S i) lv) (fun r => forall e, r = Some e -> (i < e <= length s)%nat /\ s !! (e - 1)%nat = Some 93)) as Hnext.
  { eapply yields_mono; [apply IH; lia|]. intros r Hr e He. destruct (Hr e He). split; [lia|done]. }
  destruct (negb (c =? 93)); [done|]. pose proof (run_of_le (Z.eqb 61) (drop (S i) s)) as Hr. rewrite length_drop in Hr.
  apply yields_rd; [lia|]. intros x Hx. destruct (bool_decide_reflect (S i + run_of (Z.eqb 61) (drop (S i) s) < length s)%nat); cbn [andb]; [|done].
  destruct (Z.eqb_spec x 93) as [->|]; cbn [andb]; [|done]. destruct (bool_decide _); [|done]. apply yields_ret. intros e [= <-]. split; [lia|].
  destruct Hx as [Hx|(? & _)]; [|lia]. by rewrite Nat.sub_succ, Nat.sub_0_r.
Qed.

Lemma lua_str_from_ok fuel s q i : (length s - i < fuel)%nat ->
  yields (lua_str_from fuel s q i) (fun r => forall e, r = Some e -> (i < e <= length s)%nat /\ s !! (e - 1)%nat = Some q).
Proof.
  revert i. induction fuel as [|fuel IH]; intros i Hf; [lia|]. cbn [lua_str_from].
  destruct (decide (length s <= i)%nat) as [|Hi]; [by apply yields_ret|].
  apply yields_rd_in; [lia|]. intros c Hc. destruct (Z.eqb_spec c q) as [->|]; [apply yields_ret; intros e [= <-]; split; [lia|by rewrite Nat.sub_succ, Nat.sub_0_r]|].
  assert (forall k, (i < k)%nat -> yields (lua_str_from fuel s q k) (fun r => forall e, r = Some e -> (i < e <= length s)%nat /\ s !! (e - 1)%nat = Some q)) as Hnext.
  { intros k Hk. eapply yields_mono; [apply IH; lia|]. intros r Hr e He. destruct (Hr e He). split; [lia|done]. }
  destruct (_ || _); [by apply yields_ret|]. destruct (negb (c =? 92)); [apply Hnext; lia|].
  apply yields_rd; [lia|]. intros c1 Hc1. destruct (c1 =? 122); [apply Hnext; lia|].
  apply (yields_bind _ _ (fun _ => True)).
  - destruct ((c1 =? 13) || (c1 =? 10)) eqn:Hb; [|by apply yields_ret]. intros err.
    destruct (rd_ok s (i + 2)) as (x & Hx & _); [|by rewrite Hx].
    destruct Hc1 as [Hc1|(_ & _ & ->)]; [|done]. apply lookup_lt_Some in Hc1. lia.
  - intros c2 _. destruct (_ || _); apply Hnext; lia.
Qed.

Lemma lua_str_ok s i : (i < length s)%nat -> yields (lua_str s i) (fun r => forall e, r = Some e -> (i < e <= length s)%nat /\ s !! (e - 1)%nat = s !! i).
Proof.
  intros Hi. unfold lua_str. apply yields_rd_in; [done|]. intros q Hq. eapply yields_mono; [apply lua_str_from_ok; lia|].
  intros r Hr e He. destruct (Hr e He). split; [lia|congruence].
Qed.

Section Strip.
Context (code : nat) (s : bytes).

#[local] Notation kept := (kept s).

(** The turns of the loop. The two bytes a carriage return may make of a newline
    fit since the first of the pair was dropped. *)
Record linv (st : lstate) : Prop := LInv {
  lv_kept : kept (lout st) (li st);
  lv_code : (code <= length (lout st))%nat;
  lv_room : (length (lout st) + (if lpend st then 1 else 0) <= li st)%nat;
  lv_pend : lpend st = true -> last (lout st) <> Some 10;
  lv_bol : lbol st = false -> last (lout st) <> Some 10;
  lv_cr : (code < length (lout st))%nat -> last (lout st) <> Some 13;
  lv_crlf : lcrlf st = true -> last (lout st) = Some 10 -> (length (lout st) < li st)%nat;
}.

Definition binv (st : lstate) : Prop :=
  kept (lout st) (li st) /\ (length (lout st) + (if lpend st then 1 else 0) <= li st)%nat.

Lemma linv_binv st : linv st -> binv st.
Proof. intros []. by split. Qed.

(** A turn goes on, on the same line or the next, or leaves the rest as it is. *)
Definition stepped (i : nat) (r : lnext) : Prop :=
  match r with
  | Go st => linv st /\ (i < li st)%nat
  | NewLine st => linv (LState (li st) (lout st) false true (lcrlf st)) /\ (i < li st)%nat
  | Bail st => binv st
  end.

(** A run of bytes that are skipped. *)
Lemma linv_skip st f : linv st -> f 10 = false ->
  let e := (li st + run_of f (drop (li st) s))%nat in
  kept (lout st) e /\ (length (lout st) + (if lpend st then 1 else 0) <= e)%nat /\ (li st <= e)%nat.
Proof.
  intros [] Hf e. destruct (kept_run s (lout st) (li st) f) as [Hk Hr]; [done..|]. split; [done|]. unfold e. lia.
Qed.

Lemma lua_line_ok st : linv (LState (li st) (lout st) false true (lcrlf st)) -> linv (lua_line s st) /\ (li st <= li (lua_line s st))%nat.
Proof.
  intros Hst. pose proof Hst as []. cbn in *. unfold lua_line. rewrite buf_drop by lia.
  destruct (linv_skip _ lua_blank Hst eq_refl) as (H1 & H2 & H3). cbn in *. split; [|done]. constructor; cbn; try done; try lia.
  intros Hc Hl. specialize (lv_crlf0 Hc Hl). lia.
Qed.

Lemma lua_line_comment_ok st : linv st -> (li st < length s)%nat -> s !! li st = Some 45 ->
  stepped (li st) (lua_line_comment (buf (lout st) s) st).
Proof.
  intros Hst Hi Hc. pose proof Hst as []. unfold lua_line_comment. rewrite buf_drop by lia.
  destruct (lone_cr _); [by apply linv_binv|].
  destruct (linv_skip st (fun c => negb (c =? 10)) Hst eq_refl) as (H1 & H2 & H3). cbv zeta in *. split.
  - constructor; cbn; try done; try lia. intros Hcr Hl. specialize (lv_crlf0 Hcr Hl). lia.
  - cbn. rewrite (drop_S s 45) by done. simpl. lia.
Qed.

Lemma lua_comment_ok lv st : linv st -> s !! li st = Some 45 -> (li st + 2 + lv < length s)%nat ->
  yields (lua_comment (buf (lout st) s) lv st) (stepped (li st)).
Proof.
  intros Hst H45 Hi. pose proof Hst as []. unfold lua_comment. pose proof lv_kept0 as (Hle & A2 & A3).
  assert (length (buf (lout st) s) = length s) as Hlen by (apply buf_length; lia).
  eapply yields_bind; [apply lua_close_ok; lia|]. intros [e|] He; [|apply yields_ret; by apply linv_binv].
  destruct (He e eq_refl) as [He' _]. clear He. rename He' into He. rewrite Hlen in He. cbv zeta.
  assert (slice (buf (lout st) s) (li st) e = slice s (li st) e) as Es by (unfold slice; by rewrite buf_drop by lia). rewrite Es.
  destruct (decide (13 ∈ _)); [apply yields_ret; by apply linv_binv|]. apply yields_ret.
  assert (kept (lout st ++ replicate (occ 10 (slice s (li st) e)) 10) e) as Hkept.
  { apply (kept_lines s _ _ (li st)); [lia|rewrite inked_newlines; apply lines_newlines| |done]. apply Forall_replicate. right. by right; left. }
  destruct (decide (occ 10 _ = 0%nat)) as [H0|H0].
  - rewrite H0 in Hkept. cbn [replicate] in Hkept. rewrite app_nil_r in Hkept. split; [|simpl; lia]. constructor; cbn; try done; try lia.
    + destruct (lbol st); simpl; destruct (lpend st); lia.
    + intros Hb. apply lv_bol0. by apply negb_true_iff in Hb.
  - assert (occ 10 (slice s (li st) e) < e - li st)%nat as Hroom.
    { rewrite <- (length_slice s (li st) e) by lia. unfold occ. apply (length_filter_lt _ _ 45); [|done].
      unfold slice. rewrite (drop_S s 45) by done. destruct (e - li st)%nat as [|m] eqn:Em; [lia|]. by left. }
    set (nl := occ 10 (slice s (li st) e)) in *. split; [|simpl; lia].
    assert (last (lout st ++ replicate nl 10) = Some 10) as Hlast.
    { destruct nl as [|m]; [done|]. by rewrite replicate_S_end, app_assoc, last_snoc. }
    constructor; cbn -[occ replicate]; rewrite ?length_app, ?length_replicate; try done; try lia.
    + by rewrite Hlast.
Qed.

Lemma lua_cr_ok st : linv st -> (li st < length s)%nat -> yields (lua_cr code (buf (lout st) s) st) (fun r => match r with Bail st' => binv st' | _ => False end).
Proof.
  intros Hst Hi. pose proof Hst as []. pose proof lv_kept0 as (Hle & A2 & A3). unfold lua_cr. cbv zeta.
  assert (binv (LState (li st) (lout st) (lpend st) (lbol st) (lcrlf st))) as Hb by (by split).
  destruct (bool_decide_reflect (code < length (lout st))%nat) as [Hcode|]; cbn [andb]; [|by apply yields_ret].
  destruct (bool_decide_reflect (last (lout st) = Some 10)) as [Hlast|]; [|by apply yields_ret].
  assert (lpend st = false) as Hp by (destruct (lpend st); [by destruct (lv_pend0 eq_refl)|done]). rewrite Hp in *.
  assert (length (buf (lout st) s) = length s) as Hlen by (apply buf_length; lia).
  apply yields_rd_in; [lia|]. intros p Hpp. destruct (Z.eqb_spec p 10) as [->|Hne]; cbn [negb].
  - destruct (lcrlf st) eqn:Hcr; [|by apply yields_ret]. specialize (lv_crlf0 eq_refl Hlast).
    apply last_Some in Hlast as [o Ho]. rewrite Ho in *. rewrite length_app in *. cbn [length] in *.
    rewrite take_app_le, take_ge by lia. apply yields_ret. split; cbn; [|rewrite length_app; simpl; lia].
    by apply kept_cr.
  - apply yields_ret. split; cbn; [by apply kept_blank|]. rewrite length_app. simpl.
    assert (length (lout st) <> li st); [|lia]. intros E. apply Hne. rewrite <- E in Hpp.
    rewrite (buf_last _ _ (length (lout st) - 1)), Hlast in Hpp by lia. by injection Hpp.
Qed.

Lemma lua_token_ok c st : linv st -> s !! li st = Some c -> c <> 10 -> c <> 13 ->
  yields (lua_token s c st) (stepped (li st)).
Proof.
  intros Hst Hc H10 H13. pose proof Hst as []. pose proof (lookup_lt_Some _ _ _ Hc) as Hi. unfold lua_token. cbv zeta.
  set (out := if lpend st then lout st ++ [32] else lout st).
  assert (length out <= li st)%nat as Hout by (unfold out; destruct (lpend st); rewrite ?length_app; simpl; lia).
  assert (kept out (li st)) as Hk by (by apply kept_pend).
  assert (code <= length out)%nat as Hco by (unfold out; destruct (lpend st); rewrite ?length_app; simpl; lia).
  assert (length (buf out s) = length s) as Hlen by (apply buf_length; lia).
  assert (forall r : option nat, (forall e, r = Some e -> (li st < e <= length s)%nat /\ exists x, buf out s !! (e - 1)%nat = Some x /\ x <> 10 /\ x <> 13) ->
    stepped (li st) (match r with None => Bail (LState (li st) out false false (lcrlf st))
                     | Some e => Go (LState e (out ++ slice (buf out s) (li st) e) false false (lcrlf st)) end)) as Hend.
  { intros [e|] He; [|by split; cbn; [|lia]]. destruct (He e eq_refl) as (He1 & x & Hx & Hx1 & Hx2). split; [|cbn; lia].
    rewrite buf_lookup in Hx by lia.
    assert (slice (buf out s) (li st) e = slice s (li st) e) as -> by (unfold slice; by rewrite buf_drop by lia).
    assert (last (out ++ slice s (li st) e) = Some x) as El.
    { rewrite last_app. assert (last (slice s (li st) e) = Some x) as ->; [|done]. rewrite last_lookup, length_slice by lia.
      unfold slice. rewrite lookup_take_lt, lookup_drop by lia. rewrite <- Hx. f_equal. lia. }
    constructor; cbn; rewrite ?El; try done; try congruence.
    - apply kept_copy; [lia|done].
    - rewrite length_app. lia.
    - rewrite length_app, length_slice by lia. lia. }
  assert (buf out s !! li st = Some c) as Hcb by (by rewrite buf_lookup by lia).
  destruct ((c =? 39) || (c =? 34)) eqn:Hq.
  - eapply yields_bind; [apply lua_str_ok; lia|]. intros r Hr. assert (c = 39 \/ c = 34) as Hc' by lia.
    destruct r as [e|]; [|apply yields_ret; by apply (Hend None)]. apply yields_ret, (Hend (Some e)). intros e' [= <-].
    destruct (Hr e eq_refl) as [H1 H2]. rewrite Hlen in H1. split; [lia|]. exists c. split; [congruence|]. lia.
  - apply (yields_bind _ _ (fun r => forall e, r = Some e -> (li st < e <= length s)%nat /\ exists x, buf out s !! (e - 1)%nat = Some x /\ x <> 10 /\ x <> 13)).
    + assert (forall e, Some (S (li st)) = Some e -> (li st < e <= length s)%nat /\ exists x, buf out s !! (e - 1)%nat = Some x /\ x <> 10 /\ x <> 13) as Hone.
      { intros e [= <-]. split; [lia|]. exists c. by rewrite Nat.sub_succ, Nat.sub_0_r. }
      destruct (c =? 91); [|by apply yields_ret]. eapply yields_bind; [apply lua_sep_ok; lia|]. intros lv Hlv. cbv beta in Hlv.
      destruct (decide (lv = 0%nat)); [by apply yields_ret|]. eapply yields_mono; [apply lua_close_ok; lia|].
      intros r Hr e He. destruct (Hr e He) as [H1 H2]. split; [lia|]. by exists 93.
    + intros [e|] Hr; [by apply yields_ret, (Hend (Some e))|by apply yields_ret, (Hend None)].
Qed.

Lemma lua_step_ok st : linv st -> (li st < length s)%nat -> yields (lua_step code s st) (stepped (li st)).
Proof.
  intros Hst Hi. pose proof Hst as []. pose proof lv_kept0 as (Hle & A2 & A3). pose proof (linv_binv _ Hst) as Hb.
  assert (length (buf (lout st) s) = length s) as Hlen by (apply buf_length; lia).
  unfold lua_step. destruct st as [i out pend bol crlf]. cbn [li lout lpend lbol lcrlf] in *. cbv zeta.
  apply yields_rd_in; [lia|]. intros c Hc. pose proof Hc as Hcs. rewrite buf_lookup in Hcs by lia.
  assert (slice s i (S i) = [c]) as Hone by (by apply slice_one).
  destruct (Z.eqb_spec c 10) as [->|H10].
  - apply (yields_bind _ _ (fun b => b = true -> (length out < i)%nat)).
    + destruct (bool_decide_reflect (code < i)%nat); [|by apply yields_ret]. apply yields_rd_in; [lia|]. intros p Hp. apply yields_ret. intros ->%Z.eqb_eq.
      assert (length out <> i); [|destruct pend; lia]. intros E. rewrite (buf_last _ _ (i - 1)) in Hp by lia. destruct pend; [lia|]. apply lv_cr0; [lia|done].
    + intros b Hcrlf. apply yields_ret. split; [|simpl; lia]. constructor; cbn; rewrite ?last_snoc, ?length_app; cbn; try done; try lia.
      * rewrite <- Hone. apply kept_copy; [lia|done].
      * intros Hcr _. specialize (Hcrlf Hcr). lia.
  - assert (10 ∉ slice s i (S i)) as Hn10 by (rewrite Hone; intros Hin%list_elem_of_singleton; congruence).
    assert (kept out (S i)) as Hskip by (apply (kept_skip s _ i); [lia|done..]).
    destruct (lua_blank c).
    { apply yields_ret. split; [|simpl; lia]. constructor; cbn; try done; try lia.
      - destruct bol; simpl; destruct pend; lia.
      - intros Hbol. apply lv_bol0. by apply negb_true_iff in Hbol. }
    destruct (Z.eqb_spec c 13) as [->|H13].
    + apply yields_rd; [lia|]. intros c1 Hc1. destruct (c1 =? 10).
      * apply yields_ret. split; [|simpl; lia]. constructor; cbn; try done; lia.
      * eapply yields_mono; [by apply (lua_cr_ok (LState i out pend bol crlf))|]. intros [st|st|st]; done.
    + apply (yields_bind _ _ (fun c1 => c = 45 -> c1 = 45 -> (i + 1 < length s)%nat)).
      { destruct (Z.eqb_spec c 45) as [->|]; [|by apply yields_ret]. intros err. destruct (rd_ok (buf out s) (i + 1)) as (x & Hx & Hx'); [lia|].
        rewrite Hx. intros _ ->. destruct Hx' as [Hx'|(_ & _ & ?)]; [|done]. apply lookup_lt_Some in Hx'. lia. }
      intros c1 Hc1. destruct (Z.eqb_spec c 45) as [->|Hne]; cbn [andb].
      * destruct (Z.eqb_spec c1 45) as [->|]; [|by apply lua_token_ok]. specialize (Hc1 eq_refl eq_refl).
        apply yields_rd; [lia|]. intros c2 Hc2.
        apply (yields_bind _ _ (fun lv => lv = 0%nat \/ (i + 2 + lv < length s)%nat)).
        { destruct (Z.eqb_spec c2 91) as [->|]; [|apply yields_ret; by left]. destruct Hc2 as [Hc2|(_ & _ & ?)]; [|done]. apply lookup_lt_Some in Hc2.
          eapply yields_mono; [apply lua_sep_ok; lia|]. intros lv Hlv. cbv beta in Hlv. lia. }
        intros lv Hlv. cbv beta in Hlv. destruct (decide (lv = 0%nat)).
        -- apply yields_ret. by apply (lua_line_comment_ok (LState i out pend bol crlf)).
        -- apply (lua_comment_ok lv (LState i out pend bol crlf)); [done|done|cbn; lia].
      * by apply lua_token_ok.
Qed.

Lemma lua_lines_ok fuel st : linv st -> (length s - li st < fuel)%nat -> yields (lua_lines code s fuel st) (stripped_of s).
Proof.
  revert st. induction fuel as [|fuel IH]; intros st Hst Hf; [lia|]. cbn [lua_lines].
  destruct (decide (length s <= li st)%nat) as [Hend|Hi].
  - apply yields_ret. destruct Hst. assert (li st = length s) as E by (destruct lv_kept0; lia). rewrite E in *. apply kept_end; [done|lia].
  - eapply yields_bind; [apply lua_step_ok; [done|lia]|]. intros [st'|st'|st']; cbn [stepped].
    + intros [Hst' Hlt]. apply IH; [done|lia].
    + intros [Hst' Hlt]. destruct (lua_line_ok st' Hst') as [H1 H2]. apply IH; [done|lia].
    + intros [Hk Hroom]. apply yields_ret. apply kept_rest; [by apply kept_pend|]. destruct (lpend st'); rewrite ?length_app; simpl; lia.
Qed.

Lemma lua_strip_ok : (code <= length s)%nat -> 13 ∉ take code s -> yields (lua_strip code s) (stripped_of s).
Proof.
  intros Hcode Hcr. assert (length (take code s) = code) as Hl by (rewrite length_take; lia).
  set (st := LState code (take code s) false true false).
  assert (linv st) as Hst.
  { constructor; cbn; try done; try lia. by apply kept_first. }
  unfold lua_strip. fold st. destruct (lua_line_ok st Hst) as [H1 H2]. apply lua_lines_ok; [done|lia].
Qed.
End Strip.


Lemma lua_store_ok p body off : text body -> (off <= length body)%nat -> yields (lua_store p body off) (fun r =>
  r.1 = set_stripped true p /\ text r.2 /\ (length r.2 <= length body)%nat /\ lines_sub (inked r.2) body).
Proof.
  intros Ht Ho. unfold lua_store. cbv zeta. destruct (blank_header_ok body off Ho) as (H1 & H2 & H3 & H4).
  eapply yields_bind; [apply lua_strip_ok|].
  - rewrite H1. lia.
  - rewrite H1. replace (occ 10 (take off body) + (length body - off) - (length body - off))%nat with (occ 10 (take off body)) by lia.
    rewrite H2. intros Hin%elem_of_replicate. by destruct Hin.
  - intros r Hr. apply yields_ret. split; [done|]. by eapply stripped_store.
Qed.

#[export] Instance lang_lua_ok : LangOk lang_lua.
Proof.
  split.
  - intros p body off Ht Ho Hd. eapply yields_mono; [apply lua_store_ok; [done|lia]|]. intros [p' sc] (H1 & H2 & H3 & H4). cbn in *. split; [done|]. split; [done|]. split; [by apply lines_stay_whole|].
    exists (s_direct (p_src p)), true. split; [|done]. rewrite H1. unfold set_stripped, set_src, set_direct. by destruct p as [[] ].
  - intros f s p [= <-] [Hn _] Hi Hp. eexists. split; [reflexivity|]. split; [|constructor].
    apply Forall_app. split; [done|]. constructor; [by apply bs_word|]. constructor; [|constructor; [by apply bs_word|constructor]].
    split; [|done]. apply escape_name_text; [by apply text_b|done|by apply text_b].
Qed.
