(* ===== verification/Python.v ===== *)
(** * Python scripts (ctl/parser/python.c)

    The stripper follows strings, with the replacement fields of f-strings,
    brackets and continued lines, since indentation is syntax only where a
    logical line begins. *)

From S2P Require Import Prelude Ngraph Verify Build Link Visit Schedule Desc Layout Emit Argv Text Directives Lang Kept Service Lua.

Definition python_claims (base : bytes) : bool := claims_versioned base (bs "python").

Definition PY_DEPTH : nat := 32.

Definition py_ident (c : Z) : bool :=
  ((97 <=? c) && (c <=? 122)) || ((65 <=? c) && (c <=? 90)) || ((48 <=? c) && (c <=? 57)) || (c =? 95) || (128 <=? c).

(** Whether [w] is the prefix of a string, and of one with fields. *)
Definition py_prefix (w : bytes) : option bool :=
  let low c := Z.lor c 32 in
  let fmt a := (a =? 102) || (a =? 116) in
  match w with
  | [c] => let a := low c in if (a =? 114) || (a =? 117) || (a =? 98) || fmt a then Some (fmt a) else None
  | [c; c'] =>
      let a := low c in let b := low c' in
      if negb (a =? 114) && negb (b =? 114) then None else
      let a := if a =? 114 then b else a in
      if (a =? 98) || fmt a then Some (fmt a) else None
  | _ => None
  end.

Definition is_quote (c : Z) : bool := (c =? 39) || (c =? 34).

(** [py_str], its loop, [py_field] and the loop of a format spec; [None] is
    SIZE_MAX. *)
Fixpoint py_str (fuel : nat) (s : bytes) (i : nat) (fmt : bool) (d : nat) : PM (option nat) :=
  match fuel with
  | O => endless
  | S fuel' =>
      q ← rd s i;
      c1 ← rd s (i + 1);
      c2 ← (if c1 =? q then rd s (i + 2) else mret 0);
      let triple := (c1 =? q) && (c2 =? q) in
      if decide (PY_DEPTH < d)%nat then mret None else
      if negb triple && (c1 =? q) then mret (Some (i + 2)%nat) else
      py_str_from fuel' s (i + if triple then 3 else 1)%nat q triple fmt d
  end
with py_str_from (fuel : nat) (s : bytes) (i : nat) (q : Z) (triple fmt : bool) (d : nat) : PM (option nat) :=
  match fuel with
  | O => endless
  | S fuel' =>
      if decide (length s <= i)%nat then mret None else
      c ← rd s i;
      if c =? 92 then
        c1 ← rd s (i + 1);
        c2 ← (if c1 =? 13 then rd s (i + 2) else mret 0);
        py_str_from fuel' s (i + if (c1 =? 13)%Z && (c2 =? 10)%Z then 3 else 2)%nat q triple fmt d
      else
        c1 ← (if (c =? q) && triple then rd s (i + 1) else mret 0);
        c2 ← (if (c =? q) && triple && (c1 =? q) then rd s (i + 2) else mret 0);
        if (c =? q) && (negb triple || ((c1 =? q) && (c2 =? q))) then mret (Some (i + if triple then 3 else 1)%nat) else
        if negb triple && ((c =? 10) || (c =? 13)) then mret None else
        if fmt && (c =? 123) then
          c1 ← rd s (i + 1);
          if c1 =? 123 then py_str_from fuel' s (i + 2) q triple fmt d else
          e ← py_field fuel' s (i + 1) q triple (d + 1) O;
          match e with None => mret None | Some e => py_str_from fuel' s e q triple fmt d end
        else py_str_from fuel' s (i + 1) q triple fmt d
  end
with py_field (fuel : nat) (s : bytes) (i : nat) (q : Z) (triple : bool) (d depth : nat) : PM (option nat) :=
  match fuel with
  | O => endless
  | S fuel' =>
      if decide (PY_DEPTH < d)%nat then mret None else
      if decide (length s <= i)%nat then mret None else
      let next e := match e with None => mret None | Some e => py_field fuel' s e q triple d depth end in
      c ← rd s i;
      if is_quote c then e ← py_str fuel' s i false (d + 1); next e else
      if py_ident c && negb ((48 <=? c) && (c <=? 57)) then
        let e := (i + run_of py_ident (drop i s))%nat in
        x ← rd s e;
        match (if is_quote x then py_prefix (slice s i e) else None) with
        | Some f => e ← py_str fuel' s e f (d + 1); next e
        | None => next (Some e)
        end
      else if c =? 35 then next (Some (i + run_of (fun c => negb (c =? 10)%Z) (drop i s))%nat) else
      if (c =? 40) || (c =? 91) || (c =? 123) then py_field fuel' s (i + 1) q triple d (S depth) else
      if ((c =? 41) || (c =? 93) || (c =? 125)) && bool_decide (0 < depth)%nat then py_field fuel' s (i + 1) q triple d (depth - 1) else
      if c =? 125 then mret (Some (i + 1)%nat) else
      if (c =? 58) && bool_decide (depth = 0%nat) then py_spec fuel' s (i + 1) q triple d else
      c1 ← (if c =? 13 then rd s (i + 1) else mret 10);
      if (c =? 13) && negb (c1 =? 10) then mret None else next (Some (i + 1)%nat)
  end
with py_spec (fuel : nat) (s : bytes) (i : nat) (q : Z) (triple : bool) (d : nat) : PM (option nat) :=
  match fuel with
  | O => endless
  | S fuel' =>
      if decide (length s <= i)%nat then mret None else
      c ← rd s i;
      if c =? 125 then mret (Some (i + 1)%nat) else
      if (c =? q) || (negb triple && (c =? 10)) then mret None else
      if c =? 123 then
        e ← py_field fuel' s (i + 1) q triple (d + 1) O;
        match e with None => mret None | Some e => py_spec fuel' s e q triple d end
      else py_spec fuel' s (i + if (c =? 92)%Z then 2 else 1)%nat q triple d
  end.

(** What is left of the text from [i] on bounds the turns of all four. *)
Definition py_fuel (s : bytes) : nat := 2 * length s + 4.

(** The state of [py_strip]; [j] is the length of [pout]. *)
Record pstate := PState { pi : nat; pout : bytes; pdepth : nat; pcont : bool; pempty : bool; ppend : bool; pbol : bool }.

Inductive pnext := PGo (st : pstate) | PLine (st : pstate) | PBail (st : pstate).

Definition py_blank (c : Z) : bool := (c =? 32) || (c =? 9) || (c =? 12).

Section Strip.
Context `{FileSys}.
Context (code : nat) (last_ : Z) (fname s : bytes).

(** The start of a line. *)
Definition py_line (st : pstate) : PM pstate :=
  let i := pi st in
  let b := buf (pout st) s in
  let e := (i + run_of py_blank (drop i b))%nat in
  if negb (pcont st) && bool_decide (pdepth st = 0%nat) then
    c ← (if decide (e < length s)%nat then rd b e else mret 10);
    c1 ← (if c =? 13 then rd b (e + 1) else mret 0);
    let keep := bool_decide (e < length s)%nat && negb (c =? 10) && negb (c =? 35) && negb ((c =? 13) && (c1 =? 10)) in
    mret (PState e (if keep then pout st ++ slice b i e else pout st) (pdepth st) false true false true)
  else mret (PState e (pout st) (pdepth st) false (pempty st) false true).

(** A comment. *)
Definition py_comment (b : bytes) (st : pstate) : PM pnext :=
  let i := pi st in
  let e := (i + run_of (fun c => negb (c =? 10)%Z) (drop i b))%nat in
  if lone_cr (drop i b) then mret (PBail st) else
  c1 ← rd b (i + 1);
  (if pbol st && (c1 =? 37) then late_directive fname (slice b i e) else mret tt);;
  mret (PGo (PState e (pout st) (pdepth st) (pcont st) (pempty st) false (pbol st))).

(** Anything else, with the blank before it. *)
Definition py_token (c : Z) (st : pstate) : PM pnext :=
  let i := pi st in
  let out := if ppend st then pout st ++ [32] else pout st in
  let b := buf out s in
  if c =? 92 then
    c1 ← rd b (i + 1);
    c2 ← (if c1 =? 13 then rd b (i + 2) else mret 0);
    if (c1 =? 10) || ((c1 =? 13) && (c2 =? 10))
    then mret (PLine (PState (i + if (c1 =? 10)%Z then 2 else 3)%nat (out ++ [92; 10]) (pdepth st) (negb (pempty st)) (pempty st) false false))
    else mret (PBail (PState i out (pdepth st) (pcont st) (pempty st) false false))
  else
    e ← (if is_quote c then py_str (py_fuel b) b i false 0 else
         if py_ident c then
           let e := (i + run_of py_ident (drop i b))%nat in
           x ← rd b e;
           match (if is_quote x && negb ((48 <=? c) && (c <=? 57)) then py_prefix (slice b i e) else None) with
           | Some fmt => py_str (py_fuel b) b e fmt 0
           | None => mret (Some e)
           end
         else mret (Some (S i)));
    let depth := if is_quote c || py_ident c then pdepth st else
                 if (c =? 40) || (c =? 91) || (c =? 123) then S (pdepth st) else
                 if (c =? 41) || (c =? 93) || (c =? 125) then (pdepth st - 1)%nat else pdepth st in
    match e with
    | None => mret (PBail (PState i out depth (pcont st) false false false))
    | Some e => mret (PGo (PState e (out ++ slice b i e) depth (pcont st) false false false))
    end.

Definition py_step (st : pstate) : PM pnext :=
  let '(PState i out depth cont empty pend bol) := st in
  let b := buf out s in
  c ← rd b i;
  if c =? 10 then mret (PLine (PState (S i) (out ++ [10]) depth cont empty pend bol)) else
  if py_blank c then mret (PGo (PState (S i) out depth cont empty true bol)) else
  if c =? 13 then
    c1 ← rd b (i + 1);
    mret (if negb (c1 =? 10) then PBail st else PGo (PState (S i) out depth cont empty pend bol))
  else if c =? 35 then py_comment b st
  else py_token c st.

Fixpoint py_lines (fuel : nat) (st : pstate) : PM bytes :=
  match fuel with
  | O => endless
  | S fuel' =>
      if decide (length s <= pi st)%nat then
        (* a last line without a newline, emptied, stays a line *)
        mret (if negb (last_ =? 10) && (bool_decide (length (pout st) = code) || bool_decide (last (pout st) = Some 10))
              then pout st ++ [10] else pout st)
      else
      r ← py_step st;
      match r with
      | PGo st => py_lines fuel' st
      | PLine st => if decide (length s <= pi st)%nat then py_lines fuel' st else st ← py_line st; py_lines fuel' st
      | PBail st =>
          let out := if ppend st then pout st ++ [32] else pout st in
          mret (out ++ drop (pi st) (buf out s))
      end
  end.

Definition py_strip : PM bytes :=
  let st := PState code (take code s) 0 false true false true in
  if decide (length s <= code)%nat then py_lines 1 st else st ← py_line st; py_lines (2 + length s) st.

End Strip.

Section Store.
Context `{FileSys}.

(** Whether python sees a line in the header that the stripper does not. *)
Fixpoint hidden_line (code_off : nat) (body : bytes) : bool :=
  match code_off, body with
  | S n, c :: body' => ((c =? 13) && negb (match body' with 10 :: _ => true | _ => false end)) || hidden_line n body'
  | _, _ => false
  end.

Definition python_store (p : psrc) (body : bytes) (code_off : nat) : PM (psrc * bytes) :=
  if hidden_line code_off body then mret (p, body) else
  let b := blank_header body code_off in
  script ← py_strip (length b - (length body - code_off)) (default 10 (last body)) (s_name (p_src p)) b;
  mret (set_stripped true p, script).

Definition python_exec_args (s : src) (p : psrc) : list bytes * list bytes :=
  ([interp p; bs "-I"; bs "-B"; bs "-u"] ++ iargs p ++ [bs "-c"], [s_name s]).

(** A cluster of options: [inl true] when the last takes the next word. *)
Fixpoint python_cluster (c : bytes) : bool + bytes :=
  match c with
  | [] => inl false
  | x :: c' =>
      if (x =? 99) || (x =? 109) then inr ARG_SCRIPT else
      if (x =? 104) || (x =? 63) || (x =? 86) then inr ARG_EXIT else
      if (x =? 87) || (x =? 88) then inl (bool_decide (c' = [])) else python_cluster c'
  end.

Fixpoint python_bad_arg (a : list bytes) : option (bytes * bytes) :=
  match a with
  | [] => None
  | w :: a' =>
      let takes_next := match a' with [] => Some (w, ARG_SCRIPT) | _ :: a'' => python_bad_arg a'' end in
      match w with
      | 45 :: 45 :: [] => Some (w, ARG_SCRIPT)
      | 45 :: 45 :: _ =>
          if str_prefix w (bs "--help") || bool_decide (w = bs "--version") then Some (w, ARG_EXIT) else
          if decide (w = bs "--check-hash-based-pycs") then takes_next else python_bad_arg a'
      | 45 :: _ :: _ =>
          match python_cluster (drop 1 w) with
          | inr why => Some (w, why)
          | inl true => takes_next
          | inl false => python_bad_arg a'
          end
      | _ => Some (w, ARG_SCRIPT)
      end
  end.

(** compile() checks the syntax and find_spec() finds the modules the imports at the
    top name; neither runs any of the script. *)
Definition python_check_prog : bytes := concat ((fun l => l ++ [10]) <$> [
   bs "import ast, importlib.util, sys";
   bs "src = sys.stdin.buffer.read()";
   bs "try:";
   bs "    compile(src, 'python', 'exec')";
   bs "except SyntaxError as e:";
   bs "    sys.exit('python: line %d: %s' % (e.lineno, e.msg))";
   bs "for k, node in enumerate(ast.parse(src).body):";
   bs "    if isinstance(node, ast.Import):";
   bs "        names = [a.name for a in node.names]";
   bs "    elif isinstance(node, ast.ImportFrom) and not node.level:";
   bs "        names = [node.module]";
   bs "    elif k == 0 and isinstance(node, ast.Expr) and isinstance(node.value, ast.Constant):";
   bs "        continue";
   bs "    else:";
   bs "        break";
   bs "    for name in names:";
   bs "        top = name.partition('.')[0]";
   bs "        if importlib.util.find_spec(top) is None:";
   bs "            sys.exit(" ++ [34] ++ bs "python: line %d: no module named '%s'" ++ [34] ++ bs " % (node.lineno, top))"]).

Definition python_check_argv (p : psrc) : bytes * list bytes :=
  (interp p, [interp p; bs "-I"; bs "-B"; bs "-c"; python_check_prog]).

Definition lang_python : lang := Lang python_claims python_store (Some python_exec_args) python_bad_arg (bs "python") python_check_argv.

End Store.

(** * What the stripper of Python scripts keeps (ctl/parser/python.c)

    It reads nothing outside the text, writes nothing over what it has still to
    read, and ends for every text; every line stays where it is, and a last line
    that was emptied stays a line. *)

(** Where a string or a field ends, if it ends. *)
Definition ends (s : bytes) (i : nat) (r : option nat) : Prop := forall e, r = Some e -> (i < e <= length s)%nat.

Lemma ends_none s i : ends s i None.
Proof. done. Qed.

Lemma ends_some s i e : (i < e <= length s)%nat -> ends s i (Some e).
Proof. by intros He e' [= <-]. Qed.

Lemma ends_later s i k m : (i <= k)%nat -> yields m (ends s k) -> yields m (ends s i).
Proof. intros Hk Hm. eapply yields_mono; [exact Hm|]. intros r Hr e He. specialize (Hr e He). lia. Qed.

(** A read past a byte that is not the NUL is inside the buffer. *)
Lemma yields_rd_next {B} s i c (f : Z -> PM B) Q : (s !! i = Some c \/ i = length s /\ s !! i = None /\ c = 0) -> c <> 0 ->
  (forall x, s !! (i + 1)%nat = Some x \/ (i + 1)%nat = length s /\ s !! (i + 1)%nat = None /\ x = 0 -> yields (f x) Q) -> yields (rd s (i + 1) ≫= f) Q.
Proof.
  intros [Hc|(_ & _ & ->)] Hne Hf; [|done]. apply lookup_lt_Some in Hc. apply yields_rd; [lia|done].
Qed.

Definition inside (s : bytes) (i : nat) : Prop := (i < length s)%nat.

Section Strings.
Context (s : bytes).
Notation str_spec fuel := (forall i fmt d, (i < length s)%nat -> (forall c, s !! i = Some c -> c <> 0) -> (2 * (length s - i) < fuel)%nat -> yields (py_str fuel s i fmt d) (ends s i)).
Notation from_spec fuel := (forall i q triple fmt d, q <> 0 -> (2 * (length s - i) < fuel)%nat -> yields (py_str_from fuel s i q triple fmt d) (ends s i)).
Notation field_spec fuel := (forall i q triple d depth, q <> 0 -> (2 * (length s - i) + 1 < fuel)%nat -> yields (py_field fuel s i q triple d depth) (ends s i)).
Notation spec_spec fuel := (forall i q triple d, q <> 0 -> (2 * (length s - i) < fuel)%nat -> yields (py_spec fuel s i q triple d) (ends s i)).

(** A read only made when the byte before it was a given one. *)
Lemma yields_rd_if {B} (b : bool) i dflt (f : Z -> PM B) Q : (b = true -> (i <= length s)%nat) ->
  (forall x, (b = true -> s !! i = Some x \/ i = length s /\ s !! i = None /\ x = 0) -> (b = false -> x = dflt) -> yields (f x) Q) ->
  yields ((if b then rd s i else mret dflt) ≫= f) Q.
Proof.
  destruct b; intros Hi Hf.
  - apply yields_rd; [by apply Hi|]. intros x Hx. by apply Hf.
  - apply (yields_bind _ _ (fun x => x = dflt)); [by apply yields_ret|]. intros x ->. by apply Hf.
Qed.

Lemma got_lt i x : (s !! i = Some x \/ i = length s /\ s !! i = None /\ x = 0) -> x <> 0 -> (i < length s)%nat.
Proof. intros [Hx|(_ & _ & ->)]; [by apply lookup_lt_Some in Hx|done]. Qed.

Lemma py_str_step fuel : from_spec fuel -> str_spec (S fuel).
Proof.
  intros Hfrom i fmt d Hi Hnz Hf. cbn [py_str]. apply yields_rd_in; [done|]. intros q Hq. specialize (Hnz q Hq).
  apply yields_rd; [lia|]. intros c1 Hc1. apply yields_rd_if.
  { intros ->%Z.eqb_eq. pose proof (got_lt _ _ Hc1 Hnz). lia. }
  intros c2 Hc2 Hc2'. destruct (decide _); [by apply yields_ret|]. cbv zeta.
  destruct (Z.eqb_spec c1 q) as [->|Hne]; cbn [andb].
  - pose proof (got_lt _ _ Hc1 Hnz). destruct (Z.eqb_spec c2 q); cbn [negb andb].
    + apply (ends_later _ _ (i + 3)); [lia|]. apply Hfrom; [done|lia].
    + apply yields_ret, ends_some. lia.
  - cbn [negb andb]. apply (ends_later _ _ (i + 1)); [lia|]. apply Hfrom; [done|lia].
Qed.

Lemma py_from_step fuel : from_spec fuel -> field_spec fuel -> from_spec (S fuel).
Proof.
  intros Hfrom Hfield i q triple fmt d Hq Hf. cbn [py_str_from]. destruct (decide _) as [|Hi]; [by apply yields_ret|].
  apply yields_rd_in; [lia|]. intros c Hc.
  assert (forall k, (i < k)%nat -> yields (py_str_from fuel s k q triple fmt d) (ends s i)) as Hnext.
  { intros k Hk. apply (ends_later _ _ k); [lia|]. apply Hfrom; [done|lia]. }
  destruct (Z.eqb_spec c 92) as [->|_].
  { apply yields_rd; [lia|]. intros c1 Hc1. apply yields_rd_if; [intros ->%Z.eqb_eq; pose proof (got_lt _ _ Hc1 ltac:(done)); lia|].
    intros c2 _ _. apply Hnext. destruct (_ && _); lia. }
  apply yields_rd_if; [intros; lia|]. intros c1 Hc1 Hc1'. apply yields_rd_if.
  { intros [Hb ->%Z.eqb_eq]%andb_true_iff. pose proof (got_lt _ _ (Hc1 Hb) Hq). lia. }
  intros c2 Hc2 Hc2'. destruct ((c =? q) && (negb triple || _)) eqn:Hend.
  { apply yields_ret, ends_some. apply andb_true_iff in Hend as [Hcq Hend]. rewrite Hcq in *. destruct triple; [|lia]. cbn in *.
    apply andb_true_iff in Hend as [->%Z.eqb_eq ->%Z.eqb_eq]. rewrite Z.eqb_refl in Hc2. pose proof (got_lt _ _ (Hc2 eq_refl) Hq). lia. }
  destruct (negb triple && _); [by apply yields_ret|]. destruct (fmt && _); [|apply Hnext; lia].
  apply yields_rd; [lia|]. intros c1' _. destruct (c1' =? 123); [apply Hnext; lia|].
  eapply yields_bind; [apply Hfield; [done|lia]|]. intros [e|] He; [|by apply yields_ret]. specialize (He e eq_refl). apply Hnext. lia.
Qed.

Lemma py_spec_step fuel : spec_spec fuel -> field_spec fuel -> spec_spec (S fuel).
Proof.
  intros Hspec Hfield i q triple d Hq Hf. cbn [py_spec]. destruct (decide _) as [|Hi]; [by apply yields_ret|].
  apply yields_rd_in; [lia|]. intros c Hc. destruct (c =? 125); [apply yields_ret, ends_some; lia|].
  assert (forall k, (i < k)%nat -> yields (py_spec fuel s k q triple d) (ends s i)) as Hnext.
  { intros k Hk. apply (ends_later _ _ k); [lia|]. apply Hspec; [done|lia]. }
  destruct (_ || _); [by apply yields_ret|]. destruct (c =? 123); [|apply Hnext; destruct (_ =? _); lia].
  eapply yields_bind; [apply Hfield; [done|lia]|]. intros [e|] He; [|by apply yields_ret]. specialize (He e eq_refl). apply Hnext. lia.
Qed.

Lemma run_first (f : Z -> bool) (i : nat) c : s !! i = Some c -> f c = true -> (0 < run_of f (drop i s) <= length s - i)%nat.
Proof. intros Hc Hf. pose proof (run_of_le f (drop i s)) as Hr. rewrite length_drop in Hr. rewrite (drop_S s c) in * by done. cbn in *. rewrite Hf in *. lia. Qed.

Lemma quote_nz c : is_quote c = true -> c <> 0.
Proof. unfold is_quote. lia. Qed.

Lemma py_field_step fuel : str_spec fuel -> field_spec fuel -> spec_spec fuel -> field_spec (S fuel).
Proof.
  intros Hstr Hfield Hspec i q triple d depth Hq Hf. cbn [py_field]. destruct (decide _); [by apply yields_ret|].
  destruct (decide _) as [|Hi]; [by apply yields_ret|]. cbv zeta. apply yields_rd_in; [lia|]. intros c Hc.
  assert (forall k depth, (i < k)%nat -> yields (py_field fuel s k q triple d depth) (ends s i)) as Hnext.
  { intros k depth' Hk. apply (ends_later _ _ k); [lia|]. apply Hfield; [done|lia]. }
  assert (forall k m, (i <= k)%nat -> yields m (ends s k) -> yields (e ← m; match e with None => mret None | Some e => py_field fuel s e q triple d depth end) (ends s i)) as Hafter.
  { intros k m Hk Hm. eapply yields_bind; [exact Hm|]. intros [e|] He; [|by apply yields_ret]. apply Hnext. specialize (He e eq_refl). lia. }
  destruct (is_quote c) eqn:Hqc.
  { apply (Hafter i); [lia|]. apply Hstr; [lia| |lia]. intros c'. rewrite Hc. intros [= <-]. by apply quote_nz. }
  destruct (py_ident c && _) eqn:Hid.
  { apply andb_true_iff in Hid as [Hid _]. pose proof (run_first py_ident i c Hc Hid) as Hr.
    apply yields_rd; [lia|]. intros x Hx. destruct (is_quote x) eqn:Hqx; [|apply Hnext; lia]. destruct (py_prefix _) as [f|]; [|apply Hnext; lia].
    pose proof (got_lt _ _ Hx (quote_nz _ Hqx)). apply (Hafter (i + run_of py_ident (drop i s))%nat); [lia|]. apply Hstr; [lia| |lia].
    intros c' Hc'. destruct Hx as [Hx|(? & _)]; [|lia]. rewrite Hx in Hc'. injection Hc' as <-. by apply quote_nz. }
  destruct (Z.eqb_spec c 35) as [->|_]; [apply Hnext; pose proof (run_first (fun c => negb (c =? 10)) i 35 Hc eq_refl); lia|].
  destruct (_ || _); [apply Hnext; lia|]. destruct (_ && bool_decide _); [apply Hnext; lia|].
  destruct (c =? 125); [apply yields_ret, ends_some; lia|].
  destruct (_ && bool_decide _); [apply (ends_later _ _ (i + 1)); [lia|]; apply Hspec; [done|lia]|].
  apply (yields_bind _ _ (fun _ => True)).
  { destruct (c =? 13); [|by apply yields_ret]. intros err. destruct (rd_ok s (i + 1)) as (x & -> & _); [lia|done]. }
  intros c1 _. apply yields_if; intros _; [by apply yields_ret|apply Hnext; lia].
Qed.

Lemma py_all fuel : str_spec fuel /\ from_spec fuel /\ field_spec fuel /\ spec_spec fuel.
Proof.
  induction fuel as [|fuel (H1 & H2 & H3 & H4)]; [repeat split; intros; lia|].
  split; [by apply py_str_step|]. split; [by apply py_from_step|]. split; [by apply py_field_step|by apply py_spec_step].
Qed.

Lemma py_str_ok i fmt d : (i < length s)%nat -> (forall c, s !! i = Some c -> c <> 0) -> yields (py_str (py_fuel s) s i fmt d) (ends s i).
Proof. intros Hi Hc. apply py_all; [done|done|unfold py_fuel; lia]. Qed.
End Strings.

Section Strip.
Context `{FileSys}.
Context (code : nat) (last_ : Z) (fname s : bytes).
#[local] Notation kept := (kept s).

(** The turns of the loop. Where nothing was dropped, what was written ends as
    what was read. *)
Record pinv (st : pstate) : Prop := PInv {
  pv_kept : kept (pout st) (pi st);
  pv_room : (length (pout st) + (if ppend st then 1 else 0) <= pi st)%nat;
  pv_last : length (pout st) = pi st -> last (pout st) = Some 10 -> s !! (pi st - 1)%nat = Some 10;
}.

Definition pstepped (i : nat) (r : pnext) : Prop :=
  match r with
  | PGo st | PLine st => pinv st /\ (i < pi st)%nat
  | PBail st => kept (pout st) (pi st) /\ (length (pout st) + (if ppend st then 1 else 0) <= pi st)%nat
  end.

Lemma pinv_bail i st : pinv st -> pstepped i (PBail st).
Proof. intros []. by split. Qed.

Lemma last_slice (l : bytes) i e : (i < e <= length l)%nat -> last (slice l i e) = l !! (e - 1)%nat.
Proof.
  intros He. rewrite last_lookup, length_slice by lia. unfold slice. rewrite lookup_take_lt, lookup_drop by lia. f_equal. lia.
Qed.

Lemma last_copy out i e : (i < e <= length s)%nat -> last (out ++ slice s i e) = s !! (e - 1)%nat.
Proof.
  intros He. rewrite last_app, last_slice by done. by destruct (lookup_lt_is_Some_2 s (e - 1)) as [x ->]; [lia|].
Qed.

(** What is copied keeps the invariant. *)
Lemma pinv_copy out i e depth cont empty bol : kept out i -> (length out <= i)%nat -> (i < e <= length s)%nat ->
  pinv (PState e (out ++ slice s i e) depth cont empty false bol).
Proof.
  intros Hk Hl He. constructor; cbn.
  - apply kept_copy; [lia|done].
  - rewrite length_app, length_slice by lia. lia.
  - intros _. by rewrite last_copy.
Qed.

(** So does what is left out. *)
Lemma pinv_skip out i e depth cont empty pend bol : kept out e -> (length out <= i)%nat -> (i < e <= length s)%nat -> 
  pinv (PState e out depth cont empty pend bol).
Proof. intros Hk Hl He. constructor; cbn; [done|destruct pend; lia|lia]. Qed.

Lemma py_line_ok st : pinv st -> (pi st < length s)%nat -> yields (py_line s st) (fun st' => pinv st' /\ (pi st <= pi st')%nat).
Proof.
  intros [Hk Hr Hlast] Hi. unfold py_line. cbv zeta.
  assert (length (pout st) <= pi st)%nat as Ho by (destruct (ppend st); lia).
  assert (length (buf (pout st) s) = length s) as Hlen by (apply buf_length; lia). rewrite buf_drop by done.
  destruct (kept_run s (pout st) (pi st) py_blank Hk eq_refl) as [Hk' He]. set (e := (pi st + run_of py_blank (drop (pi st) s))%nat) in *.
  assert (forall c m p b, pinv (PState e (pout st) c m p false b)) as Hskip.
  { intros. destruct (decide (e = pi st)) as [Ee|Hne]; [|apply (pinv_skip _ (pi st)); [done|done|unfold e in *; lia]].
    rewrite Ee in *. constructor; cbn; [done|lia|done]. }
  destruct (negb (pcont st) && _); [|apply yields_ret; split; [apply Hskip|unfold e; cbn; lia]].
  apply (yields_bind _ _ (fun c => c <> 10 -> (e < length s)%nat)).
  { destruct (decide (e < length s)%nat); [|by apply yields_ret]. intros err. destruct (rd_ok (buf (pout st) s) e) as (x & -> & _); [lia|done]. }
  intros c Hc. apply (yields_bind _ _ (fun _ => True)).
  { destruct (Z.eqb_spec c 13) as [->|]; [|by apply yields_ret]. specialize (Hc ltac:(done)). intros err.
    destruct (rd_ok (buf (pout st) s) (e + 1)) as (x & -> & _); [lia|done]. }
  intros c1 _. apply yields_ret. split; [|unfold e; cbn; lia]. destruct (_ && _ && _ && _); [|apply Hskip].
  assert (slice (buf (pout st) s) (pi st) e = slice s (pi st) e) as -> by (unfold slice; by rewrite buf_drop by lia).
  destruct (decide (e = pi st)) as [Ee|Hne]; [|apply pinv_copy; [done|done|unfold e in *; lia]].
  unfold slice. rewrite Ee, Nat.sub_diag. cbn [take]. rewrite app_nil_r. constructor; cbn; [done|lia|done].
Qed.

Lemma py_comment_ok st : pinv st -> s !! pi st = Some 35 -> yields (py_comment fname (buf (pout st) s) st) (pstepped (pi st)).
Proof.
  intros Hst Hc. pose proof Hst as [Hk Hr Hlast]. pose proof (lookup_lt_Some _ _ _ Hc) as Hi. unfold py_comment. cbv zeta.
  assert (length (pout st) <= pi st)%nat as Ho by (destruct (ppend st); lia).
  assert (length (buf (pout st) s) = length s) as Hlen by (apply buf_length; lia). rewrite buf_drop by done.
  destruct (lone_cr _); [by apply yields_ret, pinv_bail|]. apply yields_rd; [lia|]. intros c1 _.
  apply (yields_bind _ _ (fun _ => True)); [destruct (_ && _); [apply yields_warn|by apply yields_ret]|]. intros _ _. apply yields_ret.
  pose proof (run_first s (fun c => negb (c =? 10)) (pi st) 35 Hc eq_refl). destruct (kept_run s (pout st) (pi st) (fun c => negb (c =? 10)) Hk eq_refl) as [Hk' He].
  split; [|cbn; lia]. apply (pinv_skip _ (pi st)); [done|done|lia].
Qed.

Lemma py_token_ok c st : pinv st -> s !! pi st = Some c -> yields (py_token s c st) (pstepped (pi st)).
Proof.
  intros [Hk Hr Hlast] Hc. pose proof (lookup_lt_Some _ _ _ Hc) as Hi. unfold py_token. cbv zeta.
  set (out := if ppend st then pout st ++ [32] else pout st).
  assert (length out <= pi st)%nat as Ho by (unfold out; destruct (ppend st); rewrite ?length_app; cbn; lia).
  assert (kept out (pi st)) as Hko by (by apply kept_pend).
  assert (length (buf out s) = length s) as Hlen by (apply buf_length; lia).
  assert (buf out s !! pi st = Some c) as Hcb by (by rewrite buf_lookup).
  assert (forall d m p b, pstepped (pi st) (PBail (PState (pi st) out d m p false b))) as Hbail by (intros; split; [done|cbn; lia]).
  destruct (Z.eqb_spec c 92) as [->|_].
  - apply yields_rd; [lia|]. intros c1 Hc1. apply yields_rd_if; [intros ->%Z.eqb_eq; pose proof (got_lt _ _ _ Hc1 ltac:(done)); lia|].
    intros c2 Hc2 Hc2'. destruct (_ || _) eqn:Hnl; [|by apply yields_ret]. apply yields_ret.
    assert (kept (out ++ [92]) (pi st + 1)) as Hk1.
    { rewrite <- (slice_one s _ _ Hc). rewrite Nat.add_1_r. apply kept_copy; [lia|done]. }
    assert (exists n, (pi st + (if (c1 =? 10)%Z then 2 else 3) = S n)%nat /\ s !! n = Some 10 /\ kept (out ++ [92]) n /\ (pi st + 1 <= n < length s)%nat) as (n & En & Hn & Hkn & Hnl').
    { destruct (Z.eqb_spec c1 10) as [->|H10].
      - pose proof (got_lt _ _ _ Hc1 ltac:(done)). exists (pi st + 1)%nat. split; [lia|]. destruct Hc1 as [Hc1|(? & _)]; [|lia].
        rewrite buf_lookup in Hc1 by lia. split; [done|]. split; [done|lia].
      - cbn [orb] in Hnl. apply andb_true_iff in Hnl as [->%Z.eqb_eq ->%Z.eqb_eq]. specialize (Hc2 eq_refl).
        pose proof (got_lt _ _ _ Hc2 ltac:(done)). exists (pi st + 2)%nat. split; [lia|]. destruct Hc2 as [Hc2|(? & _)]; [|lia].
        rewrite buf_lookup in Hc2 by lia. split; [done|]. split; [|lia]. apply (kept_skip s _ (pi st + 1)); [lia| |done].
        replace (pi st + 2)%nat with (S (pi st + 1)) by lia. destruct Hc1 as [Hc1|(? & _)]; [|lia]. rewrite buf_lookup in Hc1 by lia.
        rewrite (slice_one s _ _ Hc1). by intros ?%list_elem_of_singleton. }
    rewrite En. split; [|cbn; lia]. constructor; cbn.
    + change [92; 10] with ([92] ++ [10]). rewrite app_assoc, <- (slice_one s n 10 Hn). apply kept_copy; [lia|done].
    + rewrite length_app. cbn. lia.
    + intros _ _. by rewrite Nat.sub_0_r.
  - apply (yields_bind _ _ (ends (buf out s) (pi st))).
    + destruct (is_quote c) eqn:Hq.
      { apply py_str_ok; [lia|]. intros c'. rewrite Hcb. intros [= <-]. by apply quote_nz. }
      destruct (py_ident c) eqn:Hid; [|apply yields_ret, ends_some; lia].
      rewrite buf_drop by done. pose proof (run_first s py_ident (pi st) c Hc Hid) as Hrun. apply yields_rd; [lia|]. intros x Hx.
      destruct (is_quote x && _) eqn:Hqx; [|apply yields_ret, ends_some; lia]. destruct (py_prefix _) as [f|]; [|apply yields_ret, ends_some; lia].
      apply andb_true_iff in Hqx as [Hqx _]. pose proof (got_lt _ _ _ Hx (quote_nz _ Hqx)) as Hlt.
      apply (ends_later _ _ (pi st + run_of py_ident (drop (pi st) s))); [lia|]. apply py_str_ok; [lia|].
      intros c' Hc'. destruct Hx as [Hx|(? & _)]; [|lia]. rewrite Hx in Hc'. injection Hc' as <-. by apply quote_nz.
    + intros [e|] He; apply yields_ret; [|apply Hbail]. specialize (He e eq_refl). rewrite Hlen in He.
      assert (slice (buf out s) (pi st) e = slice s (pi st) e) as -> by (unfold slice; by rewrite buf_drop by lia).
      split; [|cbn; lia]. by apply pinv_copy.
Qed.

Lemma py_step_ok st : pinv st -> (pi st < length s)%nat -> yields (py_step fname s st) (pstepped (pi st)).
Proof.
  intros Hst Hi. pose proof Hst as [Hk Hr Hlast]. unfold py_step. destruct st as [i out depth cont empty pend bol]. cbn [pi pout ppend] in *. cbv zeta.
  assert (length out <= i)%nat as Ho by (destruct pend; lia).
  assert (length (buf out s) = length s) as Hlen by (apply buf_length; lia).
  apply yields_rd_in; [lia|]. intros c Hc. rewrite buf_lookup in Hc by done. pose proof (slice_one s i c Hc) as Hone.
  destruct (Z.eqb_spec c 10) as [->|H10].
  { apply yields_ret. split; [|cbn; lia]. constructor; cbn; rewrite ?length_app; cbn.
    - rewrite <- Hone. apply kept_copy; [lia|done].
    - destruct pend; lia.
    - intros _ _. by rewrite Nat.sub_0_r. }
  assert (kept out (S i)) as Hskip.
  { apply (kept_skip s _ i); [lia| |done]. rewrite Hone. by intros ?%list_elem_of_singleton. }
  assert (forall e, (i < e <= length s)%nat -> slice (buf out s) i e = slice s i e) as Hsl by (intros; unfold slice; by rewrite buf_drop by lia).
  destruct (py_blank c); [apply yields_ret; split; [apply (pinv_skip _ i); [done|done|lia]|cbn; lia]|].
  destruct (Z.eqb_spec c 13) as [->|H13].
  { apply yields_rd; [lia|]. intros c1 Hc1. destruct (c1 =? 10); apply yields_ret; cbn [negb]; [|by apply pinv_bail].
    split; [|cbn; lia]. constructor; cbn; [done|destruct pend; lia|lia]. }
  destruct (Z.eqb_spec c 35) as [->|_]; [by apply (py_comment_ok (PState i out depth cont empty pend bol))|].
  by apply (py_token_ok c (PState i out depth cont empty pend bol)).
Qed.

(** What the stripper leaves. *)
Definition py_left (r : bytes) : Prop :=
  (length r <= length s)%nat /\ Forall (fun x => x ∈ s \/ x ∈ [32; 10; 13]) r /\
  (lines_sub (inked r) s \/ last_ <> 10 /\ lines_sub (inked r) (s ++ [10])).

Context (Hlast_ : last_ <> 10 -> (code < length s)%nat /\ last s <> Some 10).

Lemma py_end_ok st : pinv st -> (length s <= pi st)%nat ->
  py_left (if negb (last_ =? 10) && (bool_decide (length (pout st) = code) || bool_decide (last (pout st) = Some 10)) then pout st ++ [10] else pout st).
Proof.
  intros [(Hi & Hlines & Hb) Hr Hl] He. rewrite take_ge in Hlines by lia.
  destruct (Z.eqb_spec last_ 10) as [|Hne]; cbn [negb andb]; [split; [destruct (ppend st); lia|by split; [|left]]|].
  destruct (Hlast_ Hne) as [Hcode Hls]. destruct (_ || _) eqn:Hcond; [|split; [destruct (ppend st); lia|by split; [|left]]].
  split; [|split].
  - rewrite length_app. cbn. assert (length (pout st) <> length s); [|destruct (ppend st); lia]. intros E.
    apply orb_true_iff in Hcond as [Hcond%bool_decide_eq_true|Hcond%bool_decide_eq_true]; [lia|].
    assert (pi st = length s) as Ei by lia. apply Hls. rewrite last_lookup, <- Ei. replace (pred (pi st)) with (pi st - 1)%nat by lia. apply Hl; [lia|done].
  - apply Forall_app. split; [done|]. constructor; [|done]. right. by right; left.
  - right. split; [done|]. rewrite inked_app. apply lines_app; [done|apply lines_refl].
Qed.

Lemma py_lines_ok fuel st : pinv st -> (length s - pi st < fuel)%nat -> yields (py_lines code last_ fname s fuel st) py_left.
Proof.
  revert st. induction fuel as [|fuel IH]; intros st Hst Hf; [lia|]. cbn [py_lines].
  destruct (decide (length s <= pi st)%nat) as [Hend|Hi]; [apply yields_ret; by apply py_end_ok|].
  eapply yields_bind; [apply py_step_ok; [done|lia]|]. intros [st'|st'|st']; cbn [pstepped].
  - intros [Hst' Hlt]. apply IH; [done|lia].
  - intros [Hst' Hlt]. destruct (decide _); [apply IH; [done|lia]|].
    eapply yields_bind; [apply py_line_ok; [done|lia]|]. intros st2 [Hst2 Hle]. apply IH; [done|lia].
  - intros [Hk Hroom]. apply yields_ret. destruct (kept_rest s (if ppend st' then pout st' ++ [32] else pout st') (pi st')) as (H1 & H2 & H3).
    + by apply kept_pend.
    + destruct (ppend st'); rewrite ?length_app; cbn; lia.
    + split; [done|]. split; [done|by left].
Qed.

Lemma py_strip_ok : (code <= length s)%nat -> yields (py_strip code last_ fname s) py_left.
Proof.
  intros Hcode. assert (length (take code s) = code) as Hl by (rewrite length_take; lia).
  assert (pinv (PState code (take code s) 0 false true false true)) as Hst.
  { constructor; cbn; [|lia|].
    - by apply kept_first.
    - intros _. rewrite last_lookup, Hl. intros Hlk. rewrite lookup_take_Some in Hlk. destruct Hlk as [Hlk _]. rewrite <- Hlk. f_equal. lia. }
  unfold py_strip. cbv zeta. destruct (decide _) as [|Hi]; [apply py_lines_ok; [done|cbn; lia]|].
  eapply yields_bind; [apply py_line_ok; [done|cbn; lia]|]. intros st [Hst2 Hle]. apply py_lines_ok; [done|lia].
Qed.
End Strip.

Section Store.
Context `{FileSys}.

Lemma blank_header_last body off : (off < length body)%nat -> last (blank_header body off) = last body.
Proof.
  intros Ho. unfold blank_header. rewrite last_app, (last_lookup (drop off body)), lookup_drop, length_drop, (last_lookup body).
  replace (off + pred (length body - off))%nat with (pred (length body)) by lia.
  destruct (lookup_lt_is_Some_2 body (pred (length body))) as [x Hx]; [lia|]. by rewrite Hx.
Qed.

Lemma python_store_ok p body off : text body -> (off < length body)%nat -> yields (python_store p body off) (fun r =>
  (r.1 = p \/ r.1 = set_stripped true p) /\ text r.2 /\ (length r.2 <= length body)%nat /\ lines_stay body r.2).
Proof.
  intros Ht Ho. unfold python_store. destruct (hidden_line off body).
  { apply yields_ret. split; [by left|]. split; [done|]. split; [done|]. by apply lines_stay_whole, lines_inked. }
  cbv zeta. destruct (blank_header_ok body off ltac:(lia)) as (H1 & H2 & H3 & H4). pose proof (blank_header_last body off Ho) as Hl.
  set (b := blank_header body off) in *. set (code := (length b - (length body - off))%nat).
  assert (default 10 (last body) <> 10 -> last body <> Some 10) as Hd by (intros Hd E; by rewrite E in Hd).
  assert (length b <= length body)%nat as Hbl.
  { rewrite H1. pose proof (occ_le 10 (take off body)). rewrite length_take in *. lia. }
  eapply yields_bind.
  { apply (py_strip_ok code); [|unfold code; lia]. intros Hne. split; [unfold code; lia|]. rewrite Hl. by apply Hd. }
  intros r (A1 & A2 & A3). apply yields_ret. cbn [fst snd]. split; [by right|]. split; [|split; [lia|]].
  - eapply text_kept; [|exact A2]. eapply text_sub; [exact H4|done].
  - destruct A3 as [A3|[A3 A4]]; [by apply lines_stay_whole; eapply lines_trans|]. exists 0%nat, 1%nat. rewrite app_nil_r.
    split; [|by right; split; [|apply Hd]]. eapply lines_trans; [exact A4|]. apply lines_app; [done|apply lines_refl].
Qed.

#[export] Instance lang_python_ok : LangOk lang_python.
Proof.
  split.
  - intros p body off Ht Ho Hd. eapply yields_mono; [by apply python_store_ok|]. intros [p' sc] (H1 & H2 & H3 & H4). cbn in *. split; [done|]. split; [done|]. split; [done|].
    destruct H1 as [-> | ->]; [exists (s_direct (p_src p)), (stripped p)|exists (s_direct (p_src p)), true]; (split; [|done]); by destruct p as [[] ].
  - intros f s p [= <-] Hn Hi Hp. assert (forall w, word_ok w -> Forall word_ok [w]) as Hone by (intros; by constructor).
    exists ([bs "-I"; bs "-B"; bs "-u"] ++ iargs p ++ [bs "-c"]). split; [done|]. split; [|by apply Hone].
    constructor; [by apply bs_word|]. constructor; [by apply bs_word|]. constructor; [by apply bs_word|].
    apply Forall_app. split; [done|]. by apply Hone, bs_word.
Qed.
End Store.
