(* ===== verification/Perl.v ===== *)
(** * Perl scripts (ctl/parser/perl.c)

    What / and << mean in Perl depends on what comes before: the stripper keeps
    what perl expects next, and stops where only perl can tell. A script has no
    NUL ([parse_src]). *)

From S2P Require Import Prelude Ngraph Verify Build Link Visit Schedule Desc Layout Emit Argv Text Directives Lang Kept Service.

Definition perl_claims (base : bytes) : bool := claims_versioned base (bs "perl").

Definition PL_TAG : nat := 128.
Definition PL_HD : nat := 8.
Definition PL_NEST : nat := 64.

(** What perl expects after the previous token. *)
Inductive pl_expect := PL_STMT | PL_TERM | PL_OPER | PL_OPEN | PL_BRACE | PL_WORD.

#[export] Instance pl_expect_dec : EqDecision pl_expect.
Proof. solve_decision. Defined.

(** What a brace opened. *)
Inductive pl_nest := PL_BLOCK | PL_SUBSCRIPT | PL_EITHER.

Record pl_hd := PlHd { pl_tag : bytes; pl_indent : bool }.

Definition pl_word (c : Z) : bool :=
  ((97 <=? c) && (c <=? 122)) || ((65 <=? c) && (c <=? 90)) || isdigit c || (c =? 95) || (128 <=? c).

Definition pl_alpha (c : Z) : bool := ((97 <=? c) && (c <=? 122)) || ((65 <=? c) && (c <=? 90)).

Definition pl_blank (c : Z) : bool := (c =? 32) || (c =? 9) || (c =? 12).

Definition sp_tab (c : Z) : bool := (c =? 32) || (c =? 9).

(** [strchr] in a constant *)
Definition chr (set : bytes) (c : Z) : bool := bool_decide (c ∈ set).

(** A word with its :: parts, at the start of [t]. *)
Fixpoint ident_len (t : bytes) : nat :=
  match t with
  | [] => O
  | c :: t' => if pl_word c then S (ident_len t') else match t' with 58 :: t'' => if c =? 58 then S (S (ident_len t'')) else O | _ => O end
  end.

Definition pl_ident (s : bytes) (i : nat) : nat := (i + ident_len (drop i s))%nat.

Definition pl_opwords : list bytes := bs <$> ["and"; "or"; "not"; "xor"; "if"; "unless"; "while"; "until"; "lt"; "gt"; "le"; "ge"; "eq"; "ne"; "cmp"; "isa"]%string.

Definition pl_termwords : list bytes := bs <$> ["return"; "split"; "grep"; "map"; "join"; "push"; "unshift"; "print"; "printf"; "say"; "die"; "warn";
  "eval"; "do"; "defined"; "ref"; "scalar"; "my"; "our"; "local"; "state"; "sort"; "reverse"; "keys"; "values"; "each"; "delete"; "exists"; "chomp";
  "chop"; "lc"; "uc"; "length"; "sprintf"; "open"; "close"; "unlink"; "exit"; "foreach"; "for"; "elsif"; "when"]%string.

Definition pl_blockwords : list bytes := bs <$> ["else"; "BEGIN"; "END"; "INIT"; "CHECK"; "UNITCHECK"; "default"]%string.
Definition pl_fhwords : list bytes := bs <$> ["print"; "printf"; "say"; "exec"; "system"; "sort"]%string.
Definition pl_tokens : list bytes := bs <$> ["__FILE__"; "__LINE__"; "__PACKAGE__"; "__SUB__"]%string.
Definition pl_endwords : list bytes := bs <$> ["__END__"; "__DATA__"]%string.
Definition pl_quote1 : list bytes := bs <$> ["q"; "qq"; "qw"; "qx"]%string.
Definition pl_match : list bytes := bs <$> ["m"; "qr"]%string.
Definition pl_subst : list bytes := bs <$> ["s"; "tr"; "y"]%string.

Definition pl_is (w : bytes) (l : list bytes) : bool := bool_decide (w ∈ l).

(** ** Quoted text *)

Definition closing (o : Z) : Z := if o =? 40 then 41 else if o =? 91 then 93 else if o =? 123 then 125 else if o =? 60 then 62 else o.

(** The length of a delimited part, after its opening delimiter. *)
Fixpoint part_len (o : Z) (depth : nat) (t : bytes) : option nat :=
  let c := closing o in
  match t with
  | [] => None
  | x :: t' =>
      if x =? 92 then match t' with [] => None | _ :: t'' => Nat.add 2 <$> part_len o depth t'' end else
      if negb (c =? o) && (x =? o) then S <$> part_len o (S depth) t' else
      if x =? c then (if decide (depth = 1%nat) then Some 1%nat else S <$> part_len o (depth - 1) t') else
      S <$> part_len o depth t'
  end.

Definition pl_part (s : bytes) (i : nat) : PM (option nat) :=
  o ← rd s i; mret (Nat.add (S i) <$> part_len o 1 (drop (S i) s)).

(** A here-document inside quoted text [t]. *)
Fixpoint pl_hidden_hd (t : bytes) : bool :=
  match t with
  | [] => false
  | c :: t' =>
      match t' with
      | d :: x :: _ => ((c =? 60) && (d =? 60) && (chr [126; 34; 39; 92; 95] x || pl_alpha x)) || pl_hidden_hd t'
      | _ => false
      end
  end.

Definition pl_quote (s : bytes) (i : nat) (two mods : bool) : PM (option nat) :=
  e ← pl_part s i;
  e ← match e with
      | Some e =>
          if two then
            o ← rd s i;
            if chr (bs "([{<") o then
              let e := (e + run_of sp_tab (drop e s))%nat in
              c ← rd s e;
              if (c =? 0) || pl_word c || chr ([32; 9; 13; 10] ++ bs "#=,;") c then mret None else pl_part s e
            else pl_part s (e - 1)
          else mret (Some e)
      | None => mret None
      end;
  mret (match e with Some e => Some (if mods : bool then e + run_of pl_alpha (drop e s) else e)%nat | None => None end).

(** ** Here-documents and pod *)

Definition hd_stop (q : Z) (c : Z) : bool := (c =? q) || (c =? 92) || (c =? 10).

(** The tag of the here-document at [i], and where it ends. *)
Definition pl_hd_tag (s : bytes) (i : nat) : PM (option (nat * pl_hd)) :=
  let k := (i + 2)%nat in
  c ← rd s k;
  let indent := c =? 126 in
  let k := if indent then S k else k in
  let k' := (k + run_of sp_tab (drop k s))%nat in
  c ← rd s k';
  if bool_decide (k < k')%nat && negb (chr [34; 39] c) then mret None else
  if chr [34; 39; 96] c then
    let b := S k' in
    let e := (b + run_of (fun x => negb (hd_stop c x)) (drop b s))%nat in
    x ← rd s e;
    mret (if negb (x =? c) then None else if decide (PL_TAG <= e - b)%nat then None else Some (S e, PlHd (slice s b e) indent))
  else
    let b := if c =? 92 then S k' else k' in
    x ← rd s b;
    if negb (pl_word x) || isdigit x then mret None else
    let e := (b + run_of pl_word (drop b s))%nat in
    mret (if decide (PL_TAG <= e - b)%nat then None else Some (e, PlHd (slice s b e) indent)).

(** After the body of a here-document that begins at [i]. *)
Fixpoint pl_hd_body (fuel : nat) (s : bytes) (i : nat) (h : pl_hd) : PM (option nat) :=
  match fuel with
  | O => endless
  | S fuel' =>
      if decide (length s <= i)%nat then mret None else
      let eol := (i + run_of (fun c => negb (c =? 10)%Z) (drop i s))%nat in
      let nl := bool_decide (eol < length s)%nat in
      let b := if pl_indent h then (i + run_of sp_tab (slice s i eol))%nat else i in
      x ← (if nl && bool_decide (b < eol)%nat then rd s (eol - 1) else mret 0);
      let le := if x =? 13 then (eol - 1)%nat else eol in
      let next := if nl then S eol else length s in
      if decide (slice s b le = pl_tag h) then mret (Some next) else pl_hd_body fuel' s next h
  end.

Definition pl_cut (t : bytes) : bool := str_prefix t (bs "=cut").

(** After the pod that begins at [i]: at the newline of its =cut line, or at the
    end. *)
Fixpoint pl_pod (fuel : nat) (s : bytes) (i : nat) : PM nat :=
  match fuel with
  | O => endless
  | S fuel' =>
      if decide (length s <= i)%nat then mret (length s) else
      let eol := (i + run_of (fun c => negb (c =? 10)%Z) (drop i s))%nat in
      let i := if decide (eol < length s)%nat then S eol else length s in
      let t := drop i s in
      if pl_cut t && negb (match drop 4 t with c :: _ => pl_word c | [] => false end)
      then mret (i + run_of (fun c => negb (c =? 10)%Z) t)%nat
      else pl_pod fuel' s i
  end.

(** [#line N "file"], at the start of [t]. *)
Definition pl_line_directive (t : bytes) : bool :=
  let u := drop 1 t in
  let u := drop (run_of sp_tab u) u in
  str_prefix u (bs "line") && match drop 4 u with c :: _ => sp_tab c | [] => false end.

(** The lines of the pod from [k] up to [e], empty, over the start of [s]. *)
Fixpoint pod_lines (fuel : nat) (s : bytes) (k e : nat) (out : bytes) : PM bytes :=
  match fuel with
  | O => endless
  | S fuel' =>
      if decide (e <= k)%nat then mret out else
      c ← rd (buf out s) k;
      if negb (c =? 10) then pod_lines fuel' s (S k) e out else
      let out := out ++ [10] in
      let b := buf out s in
      x ← (if decide (k + 1 < e)%nat then rd b (k + 1) else mret 0);
      if (x =? 35) && pl_line_directive (drop (k + 1) b) then
        let line := slice b (k + 1) (Nat.min e (k + 1 + run_of (fun c => negb (c =? 10)%Z) (drop (k + 1) b))) in
        pod_lines fuel' s (k + 1 + length line) e (out ++ line)
      else pod_lines fuel' s (S k) e out
  end.

(** ** Numbers *)

Definition pl_digit (hex : bool) (c : Z) : bool :=
  isdigit c || (c =? 95) || (hex && ((97 <=? Z.lor c 32) && (Z.lor c 32 <=? 102))).

Definition decimal_len (t : bytes) : nat :=
  let a := run_of (pl_digit false) t in
  let t := drop a t in
  let b := match t with 46 :: (d :: _) as t' => if isdigit d then S (run_of (pl_digit false) t') else O | _ => O end in
  let t := drop b t in
  let c := match t with
           | x :: y :: t' =>
               if ((x =? 101) || (x =? 69)) && (pl_digit false y || (((y =? 45) || (y =? 43)) && match t' with z :: _ => pl_digit false z | [] => false end))
               then S (S (run_of (pl_digit false) t')) else O
           | _ => O
           end in
  (a + b + c)%nat.

Definition number_len (t : bytes) : nat :=
  match t with
  | c :: x :: t' => if (c =? 48) && chr (bs "xXbB") x then S (S (run_of (pl_digit true) t')) else decimal_len t
  | _ => decimal_len t
  end.

(** ** Tokens *)

(** What the stripper keeps from one token to the next. *)
Record plx := Plx {
  x_ex : pl_expect; x_arrow : bool; x_block : bool; x_sub : bool; x_fhword : bool; x_fh : bool;
  x_nest : list pl_nest; x_parens : nat; x_hd : list pl_hd;
}.

Definition x_expect (ex : pl_expect) (x : plx) : plx := Plx ex (x_arrow x) (x_block x) (x_sub x) (x_fhword x) (x_fh x) (x_nest x) (x_parens x) (x_hd x).
Definition x_put_arrow (b : bool) (x : plx) : plx := Plx (x_ex x) b (x_block x) (x_sub x) (x_fhword x) (x_fh x) (x_nest x) (x_parens x) (x_hd x).
Definition x_put_word (block sub : bool) (x : plx) : plx := Plx (x_ex x) (x_arrow x) block sub (x_fhword x) (x_fh x) (x_nest x) (x_parens x) (x_hd x).
Definition x_put_fhword (b : bool) (x : plx) : plx := Plx (x_ex x) (x_arrow x) (x_block x) (x_sub x) b (x_fh x) (x_nest x) (x_parens x) (x_hd x).
Definition x_put_fh (b : bool) (x : plx) : plx := Plx (x_ex x) (x_arrow x) (x_block x) (x_sub x) (x_fhword x) b (x_nest x) (x_parens x) (x_hd x).
Definition x_put_nest (l : list pl_nest) (x : plx) : plx := Plx (x_ex x) (x_arrow x) (x_block x) (x_sub x) (x_fhword x) (x_fh x) l (x_parens x) (x_hd x).
Definition x_put_parens (n : nat) (x : plx) : plx := Plx (x_ex x) (x_arrow x) (x_block x) (x_sub x) (x_fhword x) (x_fh x) (x_nest x) n (x_hd x).
Definition x_put_hd (l : list pl_hd) (x : plx) : plx := Plx (x_ex x) (x_arrow x) (x_block x) (x_sub x) (x_fhword x) (x_fh x) (x_nest x) (x_parens x) l.

Definition oper (x : plx) : bool := bool_decide (x_ex x = PL_OPER).
Definition term_next (x : plx) : bool := bool_decide (x_ex x = PL_STMT \/ x_ex x = PL_TERM \/ x_ex x = PL_OPEN).

(** A token ends at a place, or the stripper stops: [goto bail]. *)
Notation token := (option (nat * plx)).

Section Token.
(** The memory, the place of the token, its byte [c] and the two bytes after it; [x] is
    the state with the flags of the token before cleared. *)
Context (code : nat) (s : bytes) (i : nat) (c c1 c2 : Z).

Fixpoint dollars (t : bytes) : nat :=
  match t with
  | 36 :: (d :: _) as t' => if pl_word d || chr [36; 123; 58] d then S (dollars t') else O
  | _ => O
  end.

(** A variable; [fw] after a word that takes a filehandle. *)
Definition tok_scalar (fw : bool) (x : plx) : PM token :=
  let x := x_put_fh (fw || bool_decide (x_ex x = PL_WORD)) x in
  if (c1 =? 35) && ((c2 =? 123) || (c2 =? 36)) then mret (Some ((i + 2)%nat, x_expect PL_TERM x)) else
  let e := if c1 =? 35 then (i + 2)%nat else (i + 1)%nat in
  let e := (e + dollars (drop e s))%nat in
  y ← rd s e;
  if y =? 123 then mret (Some (e, x_expect PL_TERM x)) else
  z ← (if y =? 0 then mret 0 else rd s (e + 1));
  let x := x_expect PL_OPER x in
  if (y =? 94) && (65 <=? z) && (z <=? 90) then mret (Some ((e + 2)%nat, x)) else
  if pl_word y || ((y =? 58) && (z =? 58)) then mret (Some (pl_ident s e, x)) else
  if bool_decide (e = i + 1)%nat && negb (y =? 0) && negb (pl_blank y) && negb (y =? 10) then mret (Some ((e + 1)%nat, x)) else
  if decide (e = i + 1)%nat then mret None else mret (Some (e, x)).

(** @ % & * before a name. *)
Definition tok_sigil (x : plx) : token :=
  let e := S i in
  if (c1 =? 123) || (c1 =? 36) then Some (e, x_expect PL_TERM x) else
  if pl_word c1 || ((c1 =? 58) && (c2 =? 58)) then Some (pl_ident s e, x_expect PL_OPER x) else
  if ((c =? 64) || (c =? 37)) && ((c1 =? 45) || (c1 =? 43)) then Some (S e, x_expect PL_OPER x) else None.

(** Quoted text that hides no here-document. *)
Definition quoted_end (e : option nat) (x : plx) : token :=
  match e with Some e => if pl_hidden_hd (slice s i e) then None else Some (e, x_expect PL_OPER x) | None => None end.

Definition tok_string (x : plx) : PM token :=
  p ← (if (c =? 39) && bool_decide (code < i)%nat then rd s (i - 1) else mret 0);
  if (c =? 39) && bool_decide (code < i)%nat && pl_word p then mret None else
  e ← pl_part s i; mret (quoted_end e x).

Definition tok_slash (x : plx) : PM token :=
  if negb (term_next x) then mret None else e ← pl_quote s i false true; mret (quoted_end e x).

Definition tok_heredoc (x : plx) : PM token :=
  if negb (term_next x) || bool_decide (length (x_hd x) = PL_HD) then mret None else
  h ← pl_hd_tag s i;
  mret (match h with Some (e, h) => Some (e, x_expect PL_OPER (x_put_hd (x_hd x ++ [h]) x)) | None => None end).

Definition tok_glob (x : plx) : PM token :=
  let e := (S i + run_of (fun c => negb (chr [62; 10; 35; 34; 39]%Z c)) (drop (S i) s))%nat in
  y ← rd s e; mret (if y =? 62 then Some (S e, x_expect PL_OPER x) else None).

Definition tok_number (x : plx) : PM token :=
  let e := (i + number_len (drop i s))%nat in
  y ← rd s e; mret (if pl_word y then None else Some (e, x_expect PL_OPER x)).

(** A word; [sb] after sub. *)
Definition tok_word (sb : bool) (x : plx) : PM token :=
  let e := pl_ident s i in
  let w := slice s i e in
  y ← rd s e;
  z ← (if y =? 39 then rd s (e + 1) else mret 0);
  if ((y =? 39) && pl_word z) || pl_is w pl_endwords then mret None else
  if x_arrow x then mret (Some (e, x_expect PL_OPER (x_put_arrow false x))) else
  let k := (e + run_of sp_tab (drop e s))%nat in
  y ← rd s k;
  z ← (if y =? 61 then rd s (k + 1) else mret 0);
  if (y =? 61) && (z =? 62) then mret (Some (e, x_expect PL_OPER x)) else
  let two := pl_is w pl_subst in
  let mods := pl_is w pl_match || two in
  if pl_is w pl_quote1 || mods then
    p ← (if decide (code < i)%nat then rd s (i - 1) else mret 0);
    if (bool_decide (e < k)%nat && negb (chr (bs "{([</|!" ++ [34; 39]) y) && negb (y =? 0)) || (y =? 0) || pl_word y || chr ([32; 9; 13; 10] ++ bs "=,;)}") y
       || (bool_decide (code < i)%nat && (p =? 45)) then mret None
    else e ← pl_quote s k two mods; mret (quoted_end e x)
  else if bool_decide (x_ex x = PL_STMT) && bool_decide (w = bs "format") then mret None
  else if pl_is w pl_tokens then mret (Some (e, x_expect PL_OPER x))
  else if pl_is w pl_opwords || pl_is w pl_termwords || (bool_decide (w = bs "x") && oper x)
  then mret (Some (e, x_expect PL_TERM (x_put_fhword (pl_is w pl_fhwords) x)))
  else mret (Some (e, x_expect PL_WORD (x_put_word (pl_is w pl_blockwords || sb) (bool_decide (w = bs "sub")) x))).

(** An opening brace; [last_] and [before] are the bytes written before it, [bl] after a
    word that takes a block. *)
Definition tok_open_brace (bl : bool) (last_ before : Z) (x : plx) : token :=
  if decide (length (x_nest x) = PL_NEST) then None else
  let kind :=
    if (oper x || bool_decide (x_ex x = PL_BRACE)) && (pl_word last_ || (last_ =? 93) || (last_ =? 125)) then PL_SUBSCRIPT else
    if bool_decide (x_ex x = PL_TERM) && (last_ =? 62) && (before =? 45) then PL_SUBSCRIPT else
    if bl || (last_ =? 41) || ((last_ =? 32) && (before =? 41)) then PL_BLOCK else PL_EITHER in
  Some (S i, x_expect PL_OPEN (x_put_nest (kind :: x_nest x) x)).

Definition tok_close_brace (x : plx) : token :=
  match x_nest x with
  | [] => None
  | k :: l => Some (S i, x_expect (match k with PL_BLOCK => PL_STMT | PL_SUBSCRIPT => PL_OPER | PL_EITHER => PL_BRACE end) (x_put_nest l x))
  end.

Definition tok_operator (x : plx) : token :=
  let two := (chr (bs "/&*<>|.") c && (c1 =? c)) || ((c =? 61) && chr (bs "~=>") c1) || ((c =? 33) && (c1 =? 126)) in
  Some (if two then S (S i) else S i, x_expect PL_TERM x).

(** The chain of conditions on [c]. *)
Definition pl_token (bl sb fw : bool) (last_ before : Z) (x : plx) : PM token :=
  let e := S i in
  if c =? 36 then tok_scalar fw x else
  if (c =? 64) || (((c =? 37) || (c =? 38) || (c =? 42)) && negb (oper x)) then mret (tok_sigil x) else
  if (c =? 39) || (c =? 34) || (c =? 96) then tok_string x else
  if (c =? 47) && negb (oper x) then tok_slash x else
  if (c =? 60) && (c1 =? 60) && negb (oper x) && (chr [126; 34; 39; 92; 95; 32; 9] c2 || pl_alpha c2) then tok_heredoc x else
  if (c =? 60) && negb (oper x) && negb (c1 =? 60) && negb (c1 =? 61) then tok_glob x else
  if isdigit c || ((c =? 46) && negb (oper x) && isdigit c1) then tok_number x else
  if pl_word c then tok_word sb x else
  if (c =? 45) && (c1 =? 62) then mret (Some (S e, x_expect PL_TERM (x_put_arrow (pl_word c2) x))) else
  if (c =? 45) && negb (oper x) && chr (bs "rwxoRWXOezsfdlpSbctugkTBAMC") c1 && negb (pl_word c2) then mret (Some (S e, x_expect PL_TERM x)) else
  if ((c =? 45) || (c =? 43)) && (c1 =? c) then mret (Some (S e, x_expect (if oper x then PL_OPER else PL_TERM) x)) else
  if c =? 123 then mret (tok_open_brace bl last_ before x) else
  if c =? 125 then mret (tok_close_brace x) else
  if (c =? 40) || (c =? 91) then mret (Some (e, x_expect PL_TERM (x_put_parens (x_parens x + if (c =? 40)%Z then 1 else 0)%nat x))) else
  if (c =? 41) || (c =? 93) then mret (Some (e, x_expect PL_OPER (x_put_parens (x_parens x - if (c =? 41)%Z then 1 else 0)%nat x))) else
  if c =? 59 then mret (Some (e, x_expect PL_STMT x)) else
  if (c =? 92) && ((c1 =? 10) || (c1 =? 0)) then mret None else
  mret (tok_operator x).

End Token.

(** ** The loop *)

(** [rout] has been written over the start of the script; [rls] is where the line
    begins. *)
Record plst := Plst { ri : nat; rout : bytes; rpend : bool; rbol : bool; rls : nat; rx : plx }.

Inductive plnext := RGo (st : plst) | RLine (st : plst) | RBail (st : plst).

Section Strip.
Context `{FileSys}.
Context (code : nat) (fname s : bytes).

(** The start of a line; =word there can begin pod, an indented one keeps a
    blank. *)
Definition pl_line (st : plst) : PM plst :=
  let b := buf (rout st) s in
  let i := (ri st + run_of pl_blank (drop (ri st) b))%nat in
  c ← rd b i;
  c1 ← (if c =? 61 then rd b (i + 1) else mret 0);
  mret (Plst i (rout st) (bool_decide (ri st < i)%nat && (c =? 61) && pl_alpha c1) true (ri st) (rx st)).

(** The bodies of the here-documents begun on the line. *)
Fixpoint pl_bodies (hs : list pl_hd) (st : plst) : PM (bool * plst) :=
  match hs with
  | [] => mret (true, st)
  | h :: hs =>
      let b := buf (rout st) s in
      e ← pl_hd_body (S (length s)) b (ri st) h;
      match e with
      | None => mret (false, st)
      | Some e => pl_bodies hs (Plst e (rout st ++ slice b (ri st) e) (rpend st) (rbol st) (rls st) (rx st))
      end
  end.

Definition pl_newline (st : plst) : PM plnext :=
  r ← pl_bodies (x_hd (rx st)) (Plst (S (ri st)) (rout st ++ [10]) false (rbol st) (rls st) (rx st));
  let st := r.2 in
  mret (if r.1 : bool then RLine (Plst (ri st) (rout st) (rpend st) (rbol st) (rls st) (x_put_hd [] (rx st))) else RBail st).

Definition pl_comment (b : bytes) (c1 : Z) (st : plst) : PM plnext :=
  let i := ri st in
  let e := (i + run_of (fun c => negb (c =? 10)%Z) (drop i b))%nat in
  let keep := bool_decide (i = rls st) && pl_line_directive (drop i b) in
  (if negb keep && rbol st && (c1 =? 37) then late_directive fname (slice b i e) else mret tt);;
  mret (RGo (Plst e (if keep then rout st ++ slice b i e else rout st) false (rbol st) (rls st) (rx st))).

(** Any token, with the blank before it. *)
Definition pl_other (c c1 c2 : Z) (st : plst) : PM plnext :=
  let i := ri st in
  let x := rx st in
  let out := if rpend st then rout st ++ [32] else rout st in
  let b := buf out s in
  let last_ := if decide (code < length out)%nat then default 10 (last out) else 10 in
  let before := if decide (code + 1 < length out)%nat then default 10 (out !! (length out - 2)%nat) else 10 in
  let bail := mret (RBail (Plst i out false false (rls st) x)) in
  if oper x && x_fh x && ((c =? 47) || ((c =? 60) && (c1 =? 60))) then bail else
  let x' := x_put_fh false (x_put_fhword false (x_put_word false false x)) in
  r ← pl_token code b i c c1 c2 (x_block x) (x_sub x) (x_fhword x) last_ before x';
  match r with
  | None => bail
  | Some (e, x) => mret (RGo (Plst e (out ++ slice b i e) false false (rls st) x))
  end.

Definition pl_step (st : plst) : PM plnext :=
  let i := ri st in
  let b := buf (rout st) s in
  c ← rd b i;
  if c =? 10 then pl_newline st else
  if pl_blank c then mret (RGo (Plst (S i) (rout st) (negb (rbol st)) (rbol st) (rls st) (rx st))) else
  c1 ← rd b (i + 1);
  if c =? 13 then
    mret (if negb (c1 =? 10) then RBail st else RGo (Plst (S i) (rout st) (rpend st) (rbol st) (rls st) (rx st)))
  else if c =? 35 then pl_comment b c1 st
  else
    c2 ← (if c1 =? 0 then mret 0 else rd b (i + 2));
    if (c =? 61) && bool_decide (i = rls st) && pl_alpha c1 then
      if bool_decide (x_ex (rx st) = PL_STMT) && bool_decide (x_parens (rx st) = 0%nat) && negb (pl_cut (drop i b)) then
        e ← pl_pod (S (length b)) b i;
        out ← pod_lines (S (length s)) s i e (rout st);
        mret (RGo (Plst e out (rpend st) (rbol st) (rls st) (rx st)))
      else if bool_decide (x_ex (rx st) = PL_TERM) || oper (rx st) then pl_other c c1 c2 st
      else mret (RBail st)
    else pl_other c c1 c2 st.

(** [bail]: the rest of the script, as it is. *)
Definition pl_bail (st : plst) : bytes :=
  let out := if rpend st then rout st ++ [32] else rout st in
  out ++ drop (ri st) (buf out s).

Fixpoint pl_lines (fuel : nat) (st : plst) : PM bytes :=
  match fuel with
  | O => endless
  | S fuel' =>
      if decide (length s <= ri st)%nat then mret (if decide (x_hd (rx st) <> []) then pl_bail st else rout st) else
      r ← pl_step st;
      match r with
      | RGo st => pl_lines fuel' st
      | RLine st => if decide (length s <= ri st)%nat then pl_lines fuel' st else st ← pl_line st; pl_lines fuel' st
      | RBail st => mret (pl_bail st)
      end
  end.

Definition pl_strip : PM bytes :=
  let st := Plst code (take code s) false true code (Plx PL_STMT false false false false false [] 0 []) in
  if decide (length s <= code)%nat then pl_lines 1 st else st ← pl_line st; pl_lines (2 + length s) st.

End Strip.

Section Store.
Context `{FileSys}.

Definition perl_store (p : psrc) (body : bytes) (code_off : nat) : PM (psrc * bytes) :=
  let b := blank_header body code_off in
  script ← pl_strip (length b - (length body - code_off)) (s_name (p_src p)) b;
  mret (set_stripped true p, script).

(** A first line flushes stdout per line for the log and names the script. *)
Definition perl_exec_args (s : src) (p : psrc) : list bytes * list bytes :=
  let pre := escape_name (bs "$| = 1; $0 = '") (s_name s) 39 (bs "';") in
  ([interp p] ++ iargs p ++ [bs "-e"; pre; bs "-e"; bs "#line 1"; bs "-e"], []).

Definition isxdigit (c : Z) : bool := isdigit c || ((97 <=? Z.lor c 32) && (Z.lor c 32 <=? 102)).
Definition octal (c : Z) : bool := (48 <=? c) && (c <=? 55).

(** Why one cluster of switches is refused; [inl true] when its argument is the
    next word. *)
Fixpoint perl_cluster (fuel : nat) (c : bytes) : bool + bytes :=
  match fuel with
  | O => inl false
  | S fuel' =>
      match c with
      | [] => inl false
      | x :: c' =>
          if chr (bs "eE") x then inr ARG_CODE else
          if x =? 120 then inr ARG_SCRIPT else
          if chr (bs "chuvV") x then inr ARG_EXIT else
          if chr (bs "aFnp") x then inr ARG_LOOP else
          if x =? 73 then inl (bool_decide (c' = [])) else
          if x =? 100 then
            let c' := if bool_decide (head c' = Some 116) then drop 1 c' else c' in
            if bool_decide (head c' = Some 58) then inl false else inr ARG_EXIT
          else if chr (bs "DimM") x then inl false else
          if x =? 48 then
            if bool_decide (head c' = Some 120 \/ head c' = Some 88)
            then perl_cluster fuel' (drop (run_of isxdigit (drop 1 c')) (drop 1 c'))
            else perl_cluster fuel' (drop (run_of octal c') c')
          else if x =? 108 then perl_cluster fuel' (drop (run_of octal c') c')
          else if x =? 67 then perl_cluster fuel' (drop (run_of (chr (bs "0123456789IOEioSALaD")) c') c')
          else perl_cluster fuel' c'
      end
  end.

Fixpoint perl_bad_arg (a : list bytes) : option (bytes * bytes) :=
  match a with
  | [] => None
  | w :: a' =>
      if negb (bool_decide (head w = Some 45)) || bool_decide (w = [45]) || bool_decide (w = bs "--") then Some (w, ARG_SCRIPT) else
      match perl_cluster (S (length w)) (drop 1 w) with
      | inr why => Some (w, why)
      | inl true => match a' with [] => Some (w, ARG_SCRIPT) | _ :: a'' => perl_bad_arg a'' end
      | inl false => perl_bad_arg a'
      end
  end.

Definition perl_check_argv (p : psrc) : bytes * list bytes := (interp p, [interp p; bs "-c"; bs "-"]).

Definition lang_perl : lang := Lang perl_claims perl_store (Some perl_exec_args) perl_bad_arg (bs "perl") perl_check_argv.

End Store.

(** * What the stripper of Perl scripts keeps (ctl/parser/perl.c)

    It reads nothing outside the text, writes nothing over what it has still to
    read, and ends for every text; every line stays where it is. *)

(** Where a token ends, if the stripper follows it. *)
Definition tok_end {A} (s : bytes) (i : nat) (r : option (nat * A)) : Prop := forall e a, r = Some (e, a) -> (i < e <= length s)%nat.

Definition part_end (s : bytes) (i : nat) (r : option nat) : Prop := forall e, r = Some e -> (i < e <= length s)%nat.

Lemma read_in' s i c : (s !! i = Some c \/ i = length s /\ s !! i = None /\ c = 0) -> c <> 0 -> (i < length s)%nat.
Proof. intros [Hx|(_ & _ & ->)]; [by apply lookup_lt_Some in Hx|done]. Qed.

Lemma run_in f s i : (i <= length s)%nat -> (i <= i + run_of f (drop i s) <= length s)%nat.
Proof. intros Hi. pose proof (run_of_le f (drop i s)) as Hr. rewrite length_drop in Hr. lia. Qed.

Lemma chr_nz set c : chr set c = true -> 0 ∉ set -> c <> 0.
Proof. intros Hc%bool_decide_eq_true Hs ->. done. Qed.

(** A read that is made only when [b] holds. *)
Lemma yields_rd_when {B} (b : bool) s i dflt (f : Z -> PM B) Q : (b = true -> (i <= length s)%nat) ->
  (forall x, yields (f x) Q) -> yields ((if b then rd s i else mret dflt) ≫= f) Q.
Proof.
  intros Hi Hf. destruct b; [apply yields_rd; auto|]. apply (yields_bind _ _ (fun _ => True)); [by apply yields_ret|auto].
Qed.

Lemma ident_len_le t : (ident_len t <= length t)%nat.
Proof.
  assert (forall n t, (length t <= n)%nat -> (ident_len t <= length t)%nat) as Hn; [|by apply (Hn (length t))].
  clear t. induction n as [|n IH]; intros t Hl; [by destruct t; [|cbn in Hl; lia]|]. destruct t as [|c t]; [done|]. cbn [ident_len length] in *.
  destruct (pl_word c); [specialize (IH t ltac:(lia)); lia|]. destruct t as [|d t]; [lia|]. cbn [length] in Hl. specialize (IH t ltac:(lia)). cbn [length].
  repeat (destruct d as [|d|d]; try lia). destruct (c =? 58); lia.
Qed.

Lemma ident_len_pos c t : pl_word c = true \/ (c = 58 /\ head t = Some 58) -> (0 < ident_len (c :: t))%nat.
Proof.
  cbn [ident_len]. destruct (pl_word c) eqn:Hw; [lia|]. intros [?|[-> Hh]]; [done|]. destruct t as [|d t]; [done|]. injection Hh as ->. cbn. lia.
Qed.

Section Text.
Context (s : bytes).

Lemma pl_ident_ok i c c1 : s !! i = Some c -> (s !! S i = Some c1 \/ S i = length s /\ s !! S i = None /\ c1 = 0) ->
  pl_word c = true \/ (c = 58 /\ c1 = 58) -> (i < pl_ident s i <= length s)%nat.
Proof.
  intros Hc Hc1 Hw. unfold pl_ident. pose proof (ident_len_le (drop i s)) as Hl. rewrite length_drop in Hl. pose proof (lookup_lt_Some _ _ _ Hc) as Hi.
  assert (0 < ident_len (drop i s))%nat; [|lia]. rewrite (drop_S s c i Hc). apply ident_len_pos. destruct Hw as [Hw|[-> ->]]; [by left|right].
  split; [done|]. destruct Hc1 as [Hc1|(_ & _ & ?)]; [|done]. by rewrite (drop_S s 58 (S i) Hc1).
Qed.

Lemma part_len_le o depth t k : part_len o depth t = Some k -> (0 < k <= length t)%nat.
Proof.
  assert (forall n t depth k, (length t <= n)%nat -> part_len o depth t = Some k -> (0 < k <= length t)%nat) as Hn; [|by apply (Hn (length t))].
  clear. induction n as [|n IH]; intros t depth k Hl; [by destruct t; [|cbn in Hl; lia]|]. destruct t as [|x t]; [done|]. cbn [part_len length] in *.
  assert (forall d k, S <$> part_len o d t = Some k -> (0 < k <= S (length t))%nat) as H1.
  { intros d k' Hk. apply fmap_Some in Hk as (y & Hy & ->). specialize (IH t d y ltac:(lia) Hy). lia. }
  destruct (x =? 92).
  { destruct t as [|y t]; [done|]. intros Hk. apply fmap_Some in Hk as (z & Hz & ->). cbn [length] in *. specialize (IH t depth z ltac:(lia) Hz). lia. }
  destruct (_ && _); [apply H1|]. destruct (x =? closing o); [|apply H1]. destruct (decide _); [intros [= <-]; lia|apply H1].
Qed.

Lemma pl_part_ok i : (i < length s)%nat -> yields (pl_part s i) (fun r => forall e, r = Some e -> (S i < e <= length s)%nat).
Proof.
  intros Hi. unfold pl_part. apply yields_rd_in; [done|]. intros o _. apply yields_ret. intros e He. apply fmap_Some in He as (k & Hk & ->).
  apply part_len_le in Hk. rewrite length_drop in Hk. lia.
Qed.

Lemma pl_quote_ok i two mods : (i < length s)%nat -> yields (pl_quote s i two mods) (part_end s i).
Proof.
  intros Hi. unfold pl_quote. eapply yields_bind; [by apply pl_part_ok|]. intros e He.
  apply (yields_bind _ _ (part_end s i)).
  - destruct e as [e|]; [|by apply yields_ret]. specialize (He e eq_refl). destruct two; [|apply yields_ret; intros e' [= <-]; lia].
    apply yields_rd_in; [done|]. intros o _. destruct (chr _ o).
    + cbv zeta. destruct (run_in sp_tab s e ltac:(lia)) as [H1 H2]. apply yields_rd; [done|]. intros c Hc.
      destruct ((c =? 0) || pl_word c || _) eqn:Hb; [by apply yields_ret|]. pose proof (read_in' _ _ _ Hc ltac:(lia)).
      eapply yields_mono; [by apply pl_part_ok|]. intros r Hr e' He'. specialize (Hr e' He'). lia.
    + eapply yields_mono; [apply pl_part_ok; lia|]. intros r Hr e' He'. specialize (Hr e' He'). lia.
  - intros [e'|] He'; apply yields_ret; [|done]. specialize (He' e' eq_refl). intros e2 [= <-].
    destruct mods; [|done]. pose proof (run_in pl_alpha s e'). lia.
Qed.

Lemma pl_hd_tag_ok i : (i + 2 <= length s)%nat -> yields (pl_hd_tag s i) (tok_end s i).
Proof.
  intros Hi. unfold pl_hd_tag. cbv zeta. apply yields_rd; [done|]. intros c Hc.
  set (k := if c =? 126 then S (i + 2) else (i + 2)%nat). assert (i + 2 <= k <= length s)%nat as Hk.
  { unfold k. destruct (Z.eqb_spec c 126) as [->|]; [|lia]. pose proof (read_in' _ _ _ Hc ltac:(done)). lia. }
  destruct (run_in sp_tab s k ltac:(lia)) as [H1 H2]. set (k' := (k + run_of sp_tab (drop k s))%nat) in *.
  apply yields_rd; [done|]. intros q Hq. destruct (_ && _); [by apply yields_ret|]. destruct (chr [34; 39; 96] q) eqn:Hquote.
  - assert (q <> 0) as Hq0 by (apply (chr_nz _ _ Hquote); by apply (bool_decide_unpack _)). pose proof (read_in' _ _ _ Hq Hq0) as Hlt.
    destruct (run_in (fun x => negb (hd_stop q x)) s (S k') ltac:(lia)) as [H3 H4]. apply yields_rd; [lia|]. intros x Hx. apply yields_ret.
    destruct (Z.eqb_spec x q) as [->|]; cbn [negb]; [|done]. pose proof (read_in' _ _ _ Hx Hq0). destruct (decide _); [done|]. intros e a [= <- _]. lia.
  - set (b := if q =? 92 then S k' else k'). assert (i < b <= length s)%nat as Hb.
    { unfold b. destruct (Z.eqb_spec q 92) as [->|]; [|lia]. pose proof (read_in' _ _ _ Hq ltac:(done)). lia. }
    apply yields_rd; [lia|]. intros x Hx. destruct (_ || _); [by apply yields_ret|]. apply yields_ret. destruct (run_in pl_word s b ltac:(lia)).
    destruct (decide _); [done|]. intros e a [= <- _]. lia.
Qed.

Lemma pl_hd_body_ok fuel i h : (i <= length s)%nat -> (length s - i < fuel)%nat -> yields (pl_hd_body fuel s i h) (part_end s i).
Proof.
  revert i. induction fuel as [|fuel IH]; intros i Hi Hf; [lia|]. cbn [pl_hd_body]. destruct (decide _); [by apply yields_ret|]. cbv zeta.
  destruct (run_in (fun c => negb (c =? 10)) s i Hi) as [H1 H2]. set (eol := (i + run_of (fun c => negb (c =? 10)%Z) (drop i s))%nat) in *.
  apply yields_rd_when; [intros _; lia|]. intros x.
  assert (i < (if bool_decide (eol < length s)%nat then S eol else length s) <= length s)%nat as Hnext by (destruct (bool_decide_reflect (eol < length s)%nat); lia).
  destruct (decide _); [apply yields_ret; intros ? [= <-]; lia|].
  eapply yields_mono; [apply IH; lia|]. intros r Hr e He. specialize (Hr e He). lia.
Qed.

Lemma pl_pod_ok fuel i : (i <= length s)%nat -> (length s - i < fuel)%nat -> yields (pl_pod fuel s i) (fun e => (i <= e <= length s)%nat /\ ((i < length s)%nat -> (i < e)%nat)).
Proof.
  revert i. induction fuel as [|fuel IH]; intros i Hi Hf; [lia|]. cbn [pl_pod]. destruct (decide _); [apply yields_ret; lia|]. cbv zeta.
  destruct (run_in (fun c => negb (c =? 10)) s i Hi) as [H1 H2]. set (eol := (i + run_of (fun c => negb (c =? 10)%Z) (drop i s))%nat) in *.
  set (j := if decide (eol < length s)%nat then S eol else length s). assert (i < j <= length s)%nat as Hj by (unfold j; destruct (decide _); lia).
  destruct (_ && _).
  - apply yields_ret. pose proof (run_in (fun c => negb (c =? 10)) s j ltac:(lia)). lia.
  - eapply yields_mono; [apply IH; lia|]. intros e [He _]. cbn in *. lia.
Qed.

Lemma pod_lines_ok fuel k e out : kept s out k -> (length out <= k)%nat -> (k <= e <= length s)%nat -> (e - k < fuel)%nat ->
  yields (pod_lines fuel s k e out) (fun out' => kept s out' e /\ (length out' <= e)%nat).
Proof.
  revert k out. induction fuel as [|fuel IH]; intros k out Hk Hl Hke Hf; [lia|]. cbn [pod_lines].
  destruct (decide _); [apply yields_ret; assert (k = e) as -> by lia; done|]. assert (length (buf out s) = length s) as Hlen by (apply buf_length; lia).
  apply yields_rd_in; [lia|]. intros c Hc. rewrite buf_lookup in Hc by done. pose proof (slice_one s k c Hc) as Hone.
  destruct (Z.eqb_spec c 10) as [->|Hne]; cbn [negb].
  2: { apply IH; [|lia|lia|lia]. apply (kept_skip s _ k); [lia| |done]. rewrite Hone. intros Hin%list_elem_of_singleton. congruence. }
  cbv zeta. assert (kept s (out ++ [10]) (S k)) as Hk1 by (rewrite <- Hone; apply kept_copy; [lia|done]).
  assert (length (out ++ [10%Z]) <= S k)%nat as Hl1 by (rewrite length_app; cbn; lia). set (out1 := out ++ [10]) in *. clearbody out1.
  assert (length (buf out1 s) = length s) as Hlen1 by (apply buf_length; lia). replace (k + 1)%nat with (S k) by lia.
  apply (yields_bind _ _ (fun x => x <> 0 -> (S k < e)%nat)).
  { destruct (decide (S k < e)%nat); [|by apply yields_ret]. intros err. destruct (rd_ok (buf out1 s) (S k)) as (x & -> & _); [lia|done]. }
  intros x Hx. destruct (Z.eqb_spec x 35) as [->|]; cbn [andb]; [|by apply IH; [|lia|lia|lia]]. specialize (Hx ltac:(done)).
  destruct (pl_line_directive _); [|by apply IH; [|lia|lia|lia]]. rewrite !buf_drop by lia.
  destruct (run_in (fun c => negb (c =? 10)) s (S k) ltac:(lia)) as [H1 H2]. set (m := Nat.min e _). assert (S k <= m <= e)%nat as Hm by (unfold m; lia).
  assert (slice (buf out1 s) (S k) m = slice s (S k) m) as -> by (unfold slice; by rewrite buf_drop by lia).
  rewrite length_slice by lia. replace (S k + (m - S k))%nat with m by lia. apply IH; [apply kept_copy; [lia|done]| |lia|lia].
  rewrite length_app, length_slice by lia. lia.
Qed.

Lemma number_len_pos c t : isdigit c = true \/ (c = 46 /\ exists d t', t = d :: t' /\ isdigit d = true) -> (0 < number_len (c :: t))%nat.
Proof.
  assert (pl_digit false c = true \/ (c = 46 /\ exists d t', t = d :: t' /\ isdigit d = true) -> (0 < decimal_len (c :: t))%nat) as Hd.
  { unfold decimal_len. cbv zeta. intros [Hc|(-> & d & t' & -> & Hdd)].
    - cbn [run_of]. rewrite Hc. lia.
    - cbn [run_of]. change (pl_digit false 46) with false. cbn [drop]. rewrite Hdd. lia. }
  intros Hc. assert (0 < decimal_len (c :: t))%nat as Hp.
  { apply Hd. destruct Hc as [Hc|Hc]; [left|by right]. unfold pl_digit. by rewrite Hc. }
  unfold number_len. destruct t as [|x t]; [done|]. destruct (_ && _); [lia|done].
Qed.

Lemma decimal_len_le t : (decimal_len t <= length t)%nat.
Proof.
  unfold decimal_len. cbv zeta. pose proof (run_of_le (pl_digit false) t) as Ha. set (a := run_of (pl_digit false) t) in *.
  assert (length (drop a t) = (length t - a)%nat) as Hla by apply length_drop. set (t1 := drop a t) in *.
  set (b := match t1 with 46 :: (d :: _) as t' => _ | _ => O end). assert (b <= length t1)%nat as Hb.
  { unfold b. clear. destruct t1 as [|x t1]; [done|]. repeat (destruct x as [|x|x]; try (cbn; lia)). destruct t1 as [|d t1]; [cbn; lia|].
    pose proof (run_of_le (pl_digit false) (d :: t1)). destruct (isdigit d); cbn [length] in *; lia. }
  assert (length (drop b t1) = (length t1 - b)%nat) as Hlb by apply length_drop. set (t2 := drop b t1) in *. clearbody b t1.
  destruct t2 as [|x [|y t2]]; cbn [length] in *; try lia. destruct (_ && _); [|lia]. pose proof (run_of_le (pl_digit false) t2). lia.
Qed.

Lemma number_len_le t : (number_len t <= length t)%nat.
Proof.
  unfold number_len. destruct t as [|c [|x t]]; [apply decimal_len_le..|]. destruct (_ && _); [|apply decimal_len_le].
  pose proof (run_of_le (pl_digit true) t). cbn [length]. lia.
Qed.
End Text.

(** ** Tokens *)

Section Token.
Context (code : nat) (s : bytes) (i : nat) (c c1 c2 : Z).
Hypothesis Hc : s !! i = Some c.
Hypothesis Hc1 : s !! (i + 1)%nat = Some c1 \/ (i + 1)%nat = length s /\ s !! (i + 1)%nat = None /\ c1 = 0.

Lemma at_in : (i < length s)%nat.
Proof. by apply lookup_lt_Some in Hc. Qed.

Lemma one_in : c1 <> 0 -> (i + 1 < length s)%nat.
Proof. by apply read_in'. Qed.

Lemma tok_none (r : option (nat * plx)) : r = None -> tok_end s i r.
Proof. by intros ->. Qed.

Lemma tok_some e (x : plx) : (i < e <= length s)%nat -> tok_end s i (Some (e, x)).
Proof. by intros He e' x' [= <- <-]. Qed.

Lemma dollars_le t : (dollars t <= length t)%nat.
Proof.
  induction t as [|d t IH]; [done|]. cbn [dollars length]. repeat (destruct d as [|d|d]; try lia). destruct t as [|y t]; [lia|].
  destruct (_ || _); lia.
Qed.

(** A read after a byte that is not the NUL. *)
Lemma yields_rd_after e y {B} (f : Z -> PM B) Q : (s !! e = Some y \/ e = length s /\ s !! e = None /\ y = 0) ->
  (forall z, (z <> 0 -> (e + 1 < length s)%nat) -> yields (f z) Q) -> yields ((if y =? 0 then mret 0 else rd s (e + 1)) ≫= f) Q.
Proof.
  intros Hy Hf. apply (yields_bind _ _ (fun z => z <> 0 -> (e + 1 < length s)%nat)); [|done].
  destruct (Z.eqb_spec y 0) as [->|Hy0]; [by apply yields_ret|]. pose proof (read_in' _ _ _ Hy Hy0). intros err.
  destruct (rd_ok s (e + 1)) as (z & -> & Hz); [lia|]. by apply read_in'.
Qed.

Lemma tok_scalar_ok fw x : yields (tok_scalar s i c1 c2 fw x) (tok_end s i).
Proof.
  pose proof at_in. unfold tok_scalar. cbv zeta. set (e0 := if c1 =? 35 then (i + 2)%nat else (i + 1)%nat).
  assert ((i < e0 <= length s)%nat /\ (c1 = 35 -> (i + 2 <= length s)%nat)) as [He0 H2].
  { unfold e0. destruct (Z.eqb_spec c1 35) as [Hh|]; [pose proof (one_in ltac:(lia)); lia|lia]. }
  destruct ((c1 =? 35) && _) eqn:Hsharp; [apply yields_ret, tok_some; apply andb_true_iff in Hsharp as [Hs%Z.eqb_eq _]; specialize (H2 Hs); lia|].
  pose proof (dollars_le (drop e0 s)) as Hd. rewrite length_drop in Hd. set (e := (e0 + dollars (drop e0 s))%nat) in *.
  apply yields_rd; [lia|]. intros y Hy. destruct (y =? 123); [apply yields_ret, tok_some; lia|].
  apply yields_rd_after; [done|]. intros z Hz. destruct ((y =? 94) && _ && _) eqn:Hv; [apply yields_ret, tok_some; specialize (Hz ltac:(lia)); lia|].
  apply yields_if; intros _.
  { apply yields_ret, tok_some. unfold pl_ident. pose proof (ident_len_le (drop e s)) as Hl. rewrite length_drop in Hl. lia. }
  apply yields_if; intros Hb.
  { pose proof (read_in' _ _ _ Hy ltac:(lia)). apply yields_ret, tok_some. lia. }
  destruct (decide _); [by apply yields_ret|]. apply yields_ret, tok_some. lia.
Qed.

Lemma pl_ident_end k : (i < k <= length s)%nat -> (i < pl_ident s k <= length s)%nat.
Proof. intros Hk. unfold pl_ident. pose proof (ident_len_le (drop k s)) as Hl. rewrite length_drop in Hl. lia. Qed.

Lemma tok_sigil_ok x : tok_end s i (tok_sigil s i c c1 c2 x).
Proof.
  pose proof at_in. unfold tok_sigil. cbv zeta. destruct (_ || _); [apply tok_some; lia|].
  destruct (_ || _); [apply tok_some, pl_ident_end; lia|]. destruct (((c =? 64) || (c =? 37)) && _) eqn:Hb; [|done].
  pose proof (one_in ltac:(lia)). apply tok_some. lia.
Qed.

Lemma quoted_end_ok e x : part_end s i e -> tok_end s i (quoted_end s i e x).
Proof. intros He. unfold quoted_end. destruct e as [e|]; [|done]. destruct (pl_hidden_hd _); [done|]. by apply tok_some, He. Qed.

Lemma tok_string_ok x : yields (tok_string code s i c x) (tok_end s i).
Proof.
  pose proof at_in. unfold tok_string. apply yields_rd_when; [intros _; lia|]. intros p. destruct (_ && _ && _); [by apply yields_ret|].
  eapply yields_bind; [by apply pl_part_ok|]. intros e He. apply yields_ret, quoted_end_ok. intros e' He'. specialize (He e' He'). lia.
Qed.

Lemma tok_slash_ok x : yields (tok_slash s i x) (tok_end s i).
Proof.
  pose proof at_in. unfold tok_slash. destruct (negb _); [by apply yields_ret|]. eapply yields_bind; [by apply pl_quote_ok|].
  intros e He. by apply yields_ret, quoted_end_ok.
Qed.

Lemma tok_heredoc_ok x : c1 <> 0 -> yields (tok_heredoc s i x) (tok_end s i).
Proof.
  intros H1. pose proof (one_in H1). unfold tok_heredoc. destruct (_ || _); [by apply yields_ret|].
  eapply yields_bind; [apply pl_hd_tag_ok; lia|]. intros [[e h]|] He; apply yields_ret; [|done]. apply tok_some. by apply (He e h).
Qed.

Lemma tok_glob_ok x : yields (tok_glob s i x) (tok_end s i).
Proof.
  pose proof at_in. unfold tok_glob. cbv zeta. destruct (run_in (fun c => negb (chr [62; 10; 35; 34; 39] c)) s (S i) ltac:(lia)) as [H1 H2].
  apply yields_rd; [lia|]. intros y Hy. apply yields_ret. destruct (Z.eqb_spec y 62) as [->|]; [|done]. pose proof (read_in' _ _ _ Hy ltac:(done)).
  apply tok_some. lia.
Qed.

Lemma tok_number_ok x : isdigit c = true \/ c = 46 /\ isdigit c1 = true -> yields (tok_number s i x) (tok_end s i).
Proof.
  intros Hd. pose proof at_in. unfold tok_number. cbv zeta. pose proof (number_len_le (drop i s)) as Hl. rewrite length_drop in Hl.
  assert (0 < number_len (drop i s))%nat as Hp.
  { rewrite (drop_S s c i Hc). apply number_len_pos. destruct Hd as [Hd|[-> Hd]]; [by left|right]. split; [done|].
    replace (S i) with (i + 1)%nat by lia. destruct Hc1 as [Hs|(_ & _ & ->)]; [|done]. rewrite (drop_S s c1 (i + 1) Hs). by eexists _, _. }
  apply yields_rd; [lia|]. intros y _. apply yields_ret. destruct (pl_word y); [done|]. apply tok_some. lia.
Qed.

Lemma tok_word_ok sb x : pl_word c = true -> yields (tok_word code s i sb x) (tok_end s i).
Proof.
  intros Hw. pose proof at_in. unfold tok_word. cbv zeta.
  assert (i < pl_ident s i <= length s)%nat as He.
  { unfold pl_ident. pose proof (ident_len_le (drop i s)) as Hl. rewrite length_drop in Hl. rewrite (drop_S s c i Hc) in *.
    pose proof (ident_len_pos c (drop (S i) s) (or_introl Hw)). lia. }
  set (e := pl_ident s i) in *. apply yields_rd; [lia|]. intros y Hy.
  apply yields_rd_when. { intros ->%Z.eqb_eq. pose proof (read_in' _ _ _ Hy ltac:(done)). lia. }
  intros z. destruct (_ || _); [by apply yields_ret|]. destruct (x_arrow x); [by apply yields_ret, tok_some|].
  destruct (run_in sp_tab s e ltac:(lia)) as [H1 H2]. set (k := (e + run_of sp_tab (drop e s))%nat) in *.
  apply yields_rd; [lia|]. intros y' Hy'. apply yields_rd_when. { intros ->%Z.eqb_eq. pose proof (read_in' _ _ _ Hy' ltac:(done)). lia. }
  intros z'. destruct (_ && _); [by apply yields_ret, tok_some|]. destruct (_ || _).
  - apply (yields_bind _ _ (fun _ => True)).
    { destruct (decide _); [|by apply yields_ret]. intros err. destruct (rd_ok s (i - 1)) as (p & -> & _); [lia|done]. }
    intros p _. destruct (_ || (y' =? 0) || _ || _ || _) eqn:Hb; [by apply yields_ret|].
    pose proof (read_in' _ _ _ Hy' ltac:(lia)). eapply yields_bind; [by apply pl_quote_ok|]. intros r Hr. apply yields_ret, quoted_end_ok.
    intros e' He'. specialize (Hr e' He'). lia.
  - repeat (destruct (_ && _) || destruct (_ || _) || destruct (pl_is _ _)); try (by apply yields_ret); by apply yields_ret, tok_some.
Qed.

Lemma two_bytes (x : plx) : c1 <> 0 -> tok_end s i (Some (S (S i), x)).
Proof. intros Hne. pose proof (one_in Hne). apply tok_some. lia. Qed.

Lemma pl_token_ok bl sb fw l b x : yields (pl_token code s i c c1 c2 bl sb fw l b x) (tok_end s i).
Proof.
  pose proof at_in. unfold pl_token. cbv zeta.
  repeat match goal with |- yields (if _ then _ else _) _ => apply yields_if; [intros Hb|intros _] end;
    first [apply tok_scalar_ok | apply tok_string_ok | apply tok_slash_ok | apply tok_glob_ok | apply tok_word_ok; done | idtac].
  - apply yields_ret, tok_sigil_ok.
  - apply tok_heredoc_ok. lia.
  - apply tok_number_ok. apply orb_true_iff in Hb as [Hb|[[Hb%Z.eqb_eq _]%andb_true_iff Hd]%andb_true_iff]; [by left|by right].
  - apply yields_ret, two_bytes. lia.
  - apply yields_ret, two_bytes. apply andb_true_iff in Hb as [[_ Hb]%andb_true_iff _]. by apply (chr_nz _ _ Hb), (bool_decide_unpack _).
  - apply yields_ret, two_bytes. lia.
  - apply yields_ret. unfold tok_open_brace. destruct (decide _); [done|]. apply tok_some. lia.
  - apply yields_ret. unfold tok_close_brace. destruct (x_nest x); [done|]. apply tok_some. lia.
  - apply yields_ret, tok_some. lia.
  - apply yields_ret, tok_some. lia.
  - apply yields_ret, tok_some. lia.
  - by apply yields_ret.
  - apply yields_ret. unfold tok_operator. cbv zeta. destruct (_ || _ || _) eqn:Hb; [|apply tok_some; lia]. apply two_bytes.
    apply orb_true_iff in Hb as [[[H1 ->%Z.eqb_eq]%andb_true_iff|[_ H1]%andb_true_iff]%orb_true_iff|H1]; [| |lia];
      by apply (chr_nz _ _ H1), (bool_decide_unpack _).
Qed.
End Token.

(** ** The loop *)

Section Strip.
Context `{FileSys}.
Context (code : nat) (fname s : bytes).
#[local] Notation kept := (kept s).

(** The turns of the loop. *)
Definition fitting (st : plst) : Prop := kept (rout st) (ri st) /\ (length (rout st) + (if rpend st then 1 else 0) <= ri st)%nat.

(** A blank was dropped after the start of the line. *)
Definition rinv (st : plst) : Prop := fitting st /\ (rls st + (if rpend st then 1 else 0) <= ri st)%nat.

Definition rstepped (i : nat) (r : plnext) : Prop :=
  match r with
  | RGo st | RLine st => rinv st /\ (i < ri st)%nat
  | RBail st => fitting st
  end.

Lemma rinv_room st : rinv st -> (length (rout st) <= ri st)%nat /\ (ri st <= length s)%nat /\ length (buf (rout st) s) = length s.
Proof.
  intros [[(H1 & _) H2] _]. assert (length (rout st) <= ri st)%nat by (destruct (rpend st); lia). split; [done|]. split; [done|]. apply buf_length. lia.
Qed.

Lemma pl_line_ok st : rinv st -> yields (pl_line s st) (fun st' => rinv st' /\ (ri st <= ri st')%nat).
Proof.
  intros Hst. destruct (rinv_room st Hst) as (Hl & Hi & Hlen). destruct Hst as [[Hk _] _]. unfold pl_line. cbv zeta. rewrite buf_drop by done.
  destruct (kept_run s (rout st) (ri st) pl_blank Hk eq_refl) as [Hk' He]. set (i := (ri st + run_of pl_blank (drop (ri st) s))%nat) in *.
  apply yields_rd; [lia|]. intros c Hc. apply yields_rd_when. { intros ->%Z.eqb_eq. pose proof (read_in' _ _ _ Hc ltac:(done)). lia. }
  intros c1. apply yields_ret. split; [|unfold i; cbn; lia]. split; [split; [done|]|]; cbn;
    (destruct (bool_decide_reflect (ri st < i)%nat); cbn [andb]; [destruct (_ && _); lia|unfold i in *; lia]).
Qed.

Lemma pl_bodies_ok hs st : rinv st -> rpend st = false -> yields (pl_bodies s hs st) (fun r => rinv r.2 /\ rpend r.2 = false /\ (ri st <= ri r.2)%nat).
Proof.
  revert st. induction hs as [|h hs IH]; intros st Hst Hp; [by apply yields_ret|]. cbn [pl_bodies]. cbv zeta.
  destruct (rinv_room st Hst) as (Hl & Hi & Hlen). destruct Hst as [[Hk Hr] Hs]. eapply yields_bind; [apply pl_hd_body_ok; lia|].
  intros [e|] He; [|by apply yields_ret]. specialize (He e eq_refl). rewrite Hlen in He.
  assert (slice (buf (rout st) s) (ri st) e = slice s (ri st) e) as -> by (unfold slice; by rewrite buf_drop).
  eapply yields_mono; [apply IH; [|done]|].
  - split; [split|]; cbn; [apply kept_copy; [lia|done]| |lia]. rewrite Hp, length_app, length_slice by lia. lia.
  - intros r (H1 & H2 & H3). split; [done|]. split; [done|]. cbn in H3. lia.
Qed.

Lemma pl_newline_ok st : rinv st -> s !! ri st = Some 10 -> yields (pl_newline s st) (rstepped (ri st)).
Proof.
  intros Hst Hc. destruct (rinv_room st Hst) as (Hl & Hi & Hlen). destruct Hst as [[Hk Hr] Hs]. pose proof (lookup_lt_Some _ _ _ Hc). unfold pl_newline.
  eapply yields_bind; [apply pl_bodies_ok; [|done]|].
  - split; [split|]; cbn; [|rewrite length_app; cbn; lia|lia]. rewrite <- (slice_one s _ _ Hc). apply kept_copy; [lia|done].
  - intros [ok st'] (H1 & H2 & H3). cbn in *. apply yields_ret. destruct ok; cbn; [|apply H1]. split; [done|lia].
Qed.

Lemma pl_comment_ok c1 st : rinv st -> s !! ri st = Some 35 -> yields (pl_comment fname (buf (rout st) s) c1 st) (rstepped (ri st)).
Proof.
  intros Hst Hc. destruct (rinv_room st Hst) as (Hl & Hi & Hlen). destruct Hst as [[Hk Hr] Hs]. pose proof (lookup_lt_Some _ _ _ Hc). unfold pl_comment. cbv zeta.
  rewrite buf_drop by done. destruct (kept_run s (rout st) (ri st) (fun c => negb (c =? 10)) Hk eq_refl) as [Hk' He].
  set (e := (ri st + run_of (fun c => negb (c =? 10)%Z) (drop (ri st) s))%nat) in *.
  assert (ri st < e)%nat as Hlt by (unfold e; rewrite (drop_S s 35) by done; cbn; lia).
  apply (yields_bind _ _ (fun _ => True)); [destruct (_ && _ && _); [apply yields_warn|by apply yields_ret]|]. intros _ _. apply yields_ret.
  split; [|done]. assert (slice (buf (rout st) s) (ri st) e = slice s (ri st) e) as -> by (unfold slice; by rewrite buf_drop).
  destruct (_ && _); (split; [split|]); cbn; [apply kept_copy; [lia|done]| |lia|done|lia|lia]. rewrite length_app, length_slice by lia. lia.
Qed.

Lemma pl_other_ok c c1 c2 st : rinv st -> s !! ri st = Some c ->
  (s !! (ri st + 1)%nat = Some c1 \/ (ri st + 1)%nat = length s /\ s !! (ri st + 1)%nat = None /\ c1 = 0) ->
  yields (pl_other code s c c1 c2 st) (rstepped (ri st)).
Proof.
  intros Hst Hc Hc1. destruct Hst as [[Hk Hr] Hs]. pose proof (lookup_lt_Some _ _ _ Hc) as Hi. unfold pl_other. cbv zeta.
  set (out := if rpend st then rout st ++ [32] else rout st).
  assert (length out <= ri st)%nat as Ho by (unfold out; destruct (rpend st); rewrite ?length_app; cbn; lia).
  assert (kept out (ri st)) as Hko by (by apply kept_pend).
  assert (length (buf out s) = length s) as Hlen by (apply buf_length; lia).
  assert (forall x, rstepped (ri st) (RBail (Plst (ri st) out false false (rls st) x))) as Hbail by (intros x; split; [done|cbn; lia]).
  apply yields_if; intros _; [by apply yields_ret|].
  eapply yields_bind; [apply (pl_token_ok code (buf out s) (ri st) c c1 c2); rewrite ?buf_lookup by lia; rewrite ?Hlen; done|].
  intros [[e x]|] He; apply yields_ret; [|done]. specialize (He e x eq_refl). rewrite Hlen in He.
  assert (slice (buf out s) (ri st) e = slice s (ri st) e) as -> by (unfold slice; by rewrite buf_drop).
  split; [|cbn; lia]. split; [split|]; cbn; [apply kept_copy; [lia|done]| |lia]. rewrite length_app, length_slice by lia. lia.
Qed.

Lemma pl_step_ok st : rinv st -> (ri st < length s)%nat -> yields (pl_step code fname s st) (rstepped (ri st)).
Proof.
  intros Hst Hi. pose proof (rinv_room st Hst) as (Hl & _ & Hlen). unfold pl_step. cbv zeta. apply yields_rd_in; [lia|]. intros c Hc. rewrite buf_lookup in Hc by done.
  destruct (Z.eqb_spec c 10) as [->|H10]; [by apply pl_newline_ok|]. pose proof Hst as [[Hk Hr] Hs].
  assert (kept (rout st) (S (ri st))) as Hskip.
  { apply (kept_skip s _ (ri st)); [lia| |done]. rewrite (slice_one s _ c Hc). intros Hin%list_elem_of_singleton. congruence. }
  destruct (pl_blank c); [apply yields_ret; split; [split; [split|]; cbn; [done|destruct (negb _); lia..]|cbn; lia]|].
  apply yields_rd; [lia|]. intros c1 Hc1. rewrite Hlen, buf_lookup in Hc1 by lia.
  destruct (c =? 13).
  { destruct (negb _); apply yields_ret; [by split|]. split; [split; [split|]; cbn; [done|destruct (rpend st); lia..]|cbn; lia]. }
  destruct (Z.eqb_spec c 35) as [->|_]; [by apply pl_comment_ok|].
  apply (yields_bind _ _ (fun _ => True)).
  { destruct (Z.eqb_spec c1 0) as [|Hne]; [by apply yields_ret|]. pose proof (read_in' _ _ _ Hc1 Hne). intros err.
    destruct (rd_ok (buf (rout st) s) (ri st + 2)) as (x & -> & _); [lia|done]. }
  intros c2 _. apply yields_if; [intros Hpod|intros _; by apply pl_other_ok].
  apply yields_if; intros _; [|apply yields_if; intros _; [by apply pl_other_ok|by apply yields_ret; split]].
  eapply yields_bind; [apply pl_pod_ok; lia|]. intros e [He1 He2]. rewrite Hlen in *. specialize (He2 Hi).
  eapply yields_bind; [apply pod_lines_ok; [done|done|lia|lia]|]. intros out [H1 H2]. apply yields_ret. split; [|cbn; lia].
  assert (rpend st = false) as Hp.
  { apply andb_true_iff in Hpod as [[_ Hls%bool_decide_eq_true]%andb_true_iff _]. destruct (rpend st); [lia|done]. }
  split; [split|]; cbn; rewrite ?Hp; [done|lia|lia].
Qed.

Lemma pl_bail_ok st : fitting st -> stripped_of s (pl_bail s st).
Proof. intros [Hk Hr]. apply kept_rest; [by apply kept_pend|]. destruct (rpend st); rewrite ?length_app; cbn; lia. Qed.

Lemma pl_lines_ok fuel st : rinv st -> (length s - ri st < fuel)%nat -> yields (pl_lines code fname s fuel st) (stripped_of s).
Proof.
  revert st. induction fuel as [|fuel IH]; intros st Hst Hf; [lia|]. cbn [pl_lines].
  destruct (decide (length s <= ri st)%nat) as [Hend|Hi].
  - apply yields_ret. destruct (decide _); [apply pl_bail_ok, Hst|]. destruct Hst as [[Hk Hr] _].
    assert (ri st = length s) as E by (destruct Hk; lia). rewrite E in *. apply kept_end; [done|destruct (rpend st); lia].
  - eapply yields_bind; [apply pl_step_ok; [done|lia]|]. intros [st'|st'|st']; cbn [rstepped].
    + intros [Hst' Hlt]. apply IH; [done|lia].
    + intros [Hst' Hlt]. destruct (decide _); [apply IH; [done|lia]|]. eapply yields_bind; [by apply pl_line_ok|].
      intros st2 [Hst2 Hle]. apply IH; [done|lia].
    + intros Hfit. by apply yields_ret, pl_bail_ok.
Qed.

Lemma pl_strip_ok : (code <= length s)%nat -> yields (pl_strip code fname s) (stripped_of s).
Proof.
  intros Hcode. unfold pl_strip. cbv zeta. set (st := Plst code (take code s) _ _ _ _).
  assert (rinv st) as Hst.
  { split; [split|]; cbn; rewrite ?length_take; [|lia|lia]. by apply kept_first. }
  destruct (decide _) as [|Hi]; [apply pl_lines_ok; [done|cbn; lia]|].
  eapply yields_bind; [by apply pl_line_ok|]. intros st2 [Hst2 Hle]. apply pl_lines_ok; [done|lia].
Qed.
End Strip.

Section Store.
Context `{FileSys}.

Lemma perl_store_ok p body off : text body -> (off <= length body)%nat -> yields (perl_store p body off) (fun r =>
  r.1 = set_stripped true p /\ text r.2 /\ (length r.2 <= length body)%nat /\ lines_sub (inked r.2) body).
Proof.
  intros Ht Ho. unfold perl_store. cbv zeta. destruct (blank_header_ok body off Ho) as (H1 & H2 & H3 & H4).
  eapply yields_bind; [apply pl_strip_ok; lia|]. intros r Hr. apply yields_ret. split; [done|]. cbn [fst snd].
  by eapply stripped_store.
Qed.

#[export] Instance lang_perl_ok : LangOk lang_perl.
Proof.
  split.
  - intros p body off Ht Ho Hd. eapply yields_mono; [apply perl_store_ok; [done|lia]|]. intros [p' sc] (H1 & H2 & H3 & H4). cbn in *.
    split; [done|]. split; [done|]. split; [by apply lines_stay_whole|]. exists (s_direct (p_src p)), true. split; [|done]. rewrite H1. unfold set_stripped, set_src, set_direct. by destruct p as [[] ].
  - intros f s p [= <-] [Hn _] Hi Hp. eexists. split; [reflexivity|]. split; [|constructor].
    apply Forall_app. split; [done|]. constructor; [by apply bs_word|]. constructor.
    { split; [apply escape_name_text; [by apply text_b|done|by apply text_b]|]. done. }
    constructor; [by apply bs_word|]. constructor; [by apply bs_word|]. constructor; [by apply bs_word|constructor].
Qed.
End Store.
