(* ===== verification/Compact.v ===== *)
(** * Shell scripts, compacted (ctl/parser/compact.c)

    The compactor takes comments and blanks out of a script, in place, following
    the shell's lexer: words, quotes, expansions, here-documents, case patterns.
    Where it cannot follow, it leaves the rest as it is. *)

From S2P Require Import Prelude Ngraph Text Directives Lang Kept.

Definition CZ_DEPTH : nat := 32.
Definition CZ_TAG : nat := 128.
Definition CZ_HD : nat := 16.
Definition CZ_KW : Z := 1.
Definition CZ_NAME : Z := 2.
Definition CZ_TIME : Z := 4.

(** A here-document that starts with the next line. *)
Record cz_hd := CzHd { dash : bool; quoted : bool; tag : bytes }.

(** What has been written over the start of the script, and how much of it is
    kept. *)
Record cz_out := CzOut { co : bytes; ckeep : nat }.

Definition cz_meta (c : Z) : bool :=
  (c =? 59) || (c =? 38) || (c =? 124) || (c =? 40) || (c =? 41) || (c =? 60) || (c =? 62).

Definition cz_blank (c : Z) : bool := (c =? 32) || (c =? 9).

Definition cz_delim (c : Z) : bool := (c =? 0) || cz_blank c || (c =? 10) || cz_meta c.

Definition alpha_ (c : Z) : bool := ((97 <=? c) && (c <=? 122)) || ((65 <=? c) && (c <=? 90)) || (c =? 95).

Definition cz_ident (t : bytes) : nat :=
  match t with
  | c :: _ => if alpha_ c then run_of (fun c => alpha_ c || isdigit c) t else O
  | [] => O
  end.

(** [t] starts with [w], and a delimiter or its end follows. *)
Definition cz_word (w t : bytes) : bool :=
  str_prefix t w && match drop (length w) t with [] => true | c :: _ => cz_delim c end.

Definition cz_kw : list (bytes * Z) :=
  ((fun w => (bs w, CZ_KW)) <$> ["if"; "then"; "else"; "elif"; "fi"; "do"; "done"; "while"; "until"; "!"; "{"; "}"]%string) ++
  [(bs "time", Z.lor CZ_KW CZ_TIME); (bs "coproc", Z.lor CZ_KW CZ_NAME); (bs "for", CZ_NAME); (bs "select", CZ_NAME); (bs "function", CZ_NAME)].

(** What may follow a reserved word. *)
Definition cz_lead (t : bytes) (rw : Z) : Z :=
  if negb (Z.land rw CZ_TIME =? 0) && (cz_word (bs "-p") t || cz_word (bs "--") t) then Z.lor CZ_KW CZ_TIME else
  match find (fun kw => cz_word kw.1 t) cz_kw with Some kw => kw.2 | None => 0 end.

Definition sk_sq (s : bytes) (i : nat) : nat :=
  let i := (i + run_of (fun c => negb (c =? 39)%Z) (drop i s))%nat in if decide (i < length s)%nat then S i else length s.

(** The length of [t] up to after [end_], a backslash hides one byte. *)
Fixpoint esc_len (end_ : Z) (t : bytes) : nat :=
  match t with
  | [] => O
  | c :: t' => if c =? end_ then 1%nat else if c =? 92 then match t' with [] => 1%nat | _ :: t'' => S (S (esc_len end_ t'')) end else S (esc_len end_ t')
  end.

Definition sk_esc (s : bytes) (i : nat) (end_ : Z) : nat := (i + esc_len end_ (drop i s))%nat.

(** ** Here-documents *)

(** The word that ends a here-document, inside quotes [q] or outside; what
    follows it, and what it is. *)
Fixpoint hd_word (q : option Z) (t acc : bytes) (quo : bool) : option (bytes * bytes * bool) :=
  match q with
  | None =>
      match t with
      | [] => Some ([], acc, quo)
      | c :: t' =>
          if cz_delim c then Some (t, acc, quo) else
          if (c =? 36) || (c =? 96) then None else
          if (c =? 39) || (c =? 34) then hd_word (Some c) t' acc true else
          if c =? 92 then
            match t' with
            | x :: t'' =>
                if x =? 10 then hd_word None t'' acc quo else
                if decide (length acc = CZ_TAG) then None else hd_word None t'' (acc ++ [x]) true
            | [] => if decide (length acc = CZ_TAG) then None else hd_word None t' (acc ++ [c]) true
            end
          else if decide (length acc = CZ_TAG) then None else hd_word None t' (acc ++ [c]) quo
      end
  | Some q =>
      match t with
      | [] => None
      | c :: t' =>
          if c =? q then hd_word None t' acc quo else
          if c =? 10 then None else
          match t' with
          | x :: t'' =>
              if (q =? 34) && (c =? 92) && (x =? 10) then hd_word (Some q) t'' acc quo else
              if decide (length acc = CZ_TAG) then None else
              if (q =? 34) && (c =? 92) && ((x =? 34) || (x =? 92) || (x =? 36) || (x =? 96) || (x =? 0)) then hd_word (Some q) t'' (acc ++ [x]) quo else
              hd_word (Some q) t' (acc ++ [c]) quo
          | [] => if decide (length acc = CZ_TAG) then None else hd_word (Some q) t' (acc ++ [c]) quo
          end
      end
  end.

(** The word after [<<], and where it ends. *)
Definition hd_tag (s : bytes) (i : nat) : PM (option (nat * cz_hd)) :=
  c ← rd s (i + 2);
  let dash := c =? 45 in
  let i := (i + 2 + if dash then 1 else 0)%nat in
  let i := (i + run_of cz_blank (drop i s))%nat in
  mret (match hd_word None (drop i s) [] false with
        | Some (rest, tag, quo) =>
            if bool_decide (tag = []) || match rest with c :: _ => (c =? 40) || (c =? 41) | [] => false end then None
            else Some (length s - length rest, CzHd dash quo tag)%nat
        | None => None
        end).

(** A line of a here-document from [p], with those a backslash joins to it: where
    its last newline is, where it ends, and whether it is the tag. *)
Fixpoint hd_line (fuel : nat) (s : bytes) (p m : nat) (is_tag : bool) (h : cz_hd) : PM (nat * nat * bool) :=
  match fuel with
  | O => endless
  | S fuel' =>
      let eol := (p + run_of (fun c => negb (c =? 10)%Z) (drop p s))%nat in
      let nl := bool_decide (eol < length s)%nat in
      let end_ := if nl then S eol else length s in
      let slashes := run_of (Z.eqb 92) (rev (slice s p eol)) in
      let join := negb (quoted h) && nl && Nat.odd slashes in
      let seg := (eol - p - if join then 1 else 0)%nat in
      let is_tag := is_tag && bool_decide (seg <= length (tag h) - m)%nat && bool_decide (slice s p (p + seg) = slice (tag h) m (m + seg)) in
      if join then hd_line fuel' s end_ (m + seg) is_tag h
      else mret (eol, end_, is_tag && bool_decide (m + seg = length (tag h))%nat)
  end.

(** The memory the compactor reads, with what it has written, if it writes. *)
Definition view (e : option cz_out) (s : bytes) : bytes := match e with Some o => buf (co o) s | None => s end.

Fixpoint hd_body (fuel : nat) (s : bytes) (i : nat) (h : cz_hd) (e : option cz_out) : PM (nat * option cz_out) :=
  match fuel with
  | O => endless
  | S fuel' =>
      if decide (length s <= i)%nat then mret (i, e) else
      let m := view e s in
      let b := if dash h then (i + run_of (Z.eqb 9) (drop i m))%nat else i in
      '(eol, end_, is_tag) ← hd_line (S (length s)) m b 0 true h;
      let e := match e with
               | Some o => let out := co o ++ slice m b end_ in
                           Some (CzOut out (if (is_tag : bool) then length out - (end_ - eol) else length out)%nat)
               | None => None
               end in
      if (is_tag : bool) then mret (end_, e) else hd_body fuel' s end_ h e
  end.

Definition cz_copy (e : option cz_out) (s : bytes) (from to : nat) : option cz_out :=
  match e with
  | Some o => let out := co o ++ slice (view e s) from to in Some (CzOut out (length out))
  | None => None
  end.

Definition cz_put (e : option cz_out) (c : Z) : option cz_out :=
  match e with Some o => Some (CzOut (co o ++ [c]) (ckeep o)) | None => None end.

(** ** Words *)

(** What the word the lexer is at may be. *)
Record czw := CzW { rw : Z; cin : nat; ncs : nat; pat : bool; cond : bool; cmd : bool; sub : option nat }.

Definition kw (r : Z) : bool := negb (Z.land r CZ_KW =? 0).
Definition put_rw (r : Z) (w : czw) : czw := CzW r (cin w) (ncs w) (pat w) (cond w) (cmd w) (sub w).
Definition put_cmd (b : bool) (w : czw) : czw := CzW (rw w) (cin w) (ncs w) (pat w) (cond w) b (sub w).
Definition put_pat (b : bool) (w : czw) : czw := CzW (rw w) (cin w) (ncs w) b (cond w) (cmd w) (sub w).
Definition put_sub (k : option nat) (w : czw) : czw := CzW (rw w) (cin w) (ncs w) (pat w) (cond w) (cmd w) k.

(** The beginning of a word [t], at [i]. *)
Definition cz_start (t : bytes) (i : nat) (w : czw) : czw :=
  let l := cz_ident t in
  let r := rw w in
  let w := put_rw (if negb (Z.land r CZ_NAME =? 0) then CZ_KW else 0) w in
  let w :=
    if bool_decide (cin w <> O) then
      let isin := bool_decide (cin w = 2%nat) && cz_word (bs "in") t in
      CzW (if isin then CZ_KW else rw w) (if decide (cin w = 1%nat) then 2 else 0)%nat (ncs w) (isin || pat w) (cond w) (cmd w) (sub w)
    else if kw r && bool_decide (ncs w <> O) && cz_word (bs "esac") t then CzW CZ_KW (cin w) (ncs w - 1) false (cond w) (cmd w) (sub w)
    else if cond w then (if cz_word (bs "]]") t then CzW CZ_KW (cin w) (ncs w) (pat w) false (cmd w) (sub w) else w)
    else if kw r && negb (pat w) then
      if cz_word (bs "case") t then CzW (rw w) 1 (S (ncs w)) (pat w) (cond w) (cmd w) (sub w)
      else if cz_word (bs "[[") t then CzW (rw w) (cin w) (ncs w) (pat w) true (cmd w) (sub w)
      else put_rw (Z.lor (rw w) (cz_lead t r)) w
    else w in
  let assigns := match drop l t with c :: t' => (c =? 61) || ((c =? 43) && bool_decide (head t' = Some 61)) | [] => false end in
  if cmd w && bool_decide (l <> O) && bool_decide (head (drop l t) = Some 91) then put_sub (Some (i + l)%nat) w
  else if negb (cmd w) || bool_decide (l = O) || negb assigns then put_cmd (kw (rw w)) w
  else w.

(** ** Commands *)

(** The state of [sk_cmd] between two tokens. *)
Record czs := CzS {
  zi : nat; zw : czw; zhd : list cz_hd; zdepth : nat; zcomp : nat;
  zws : bool; zbol : bool; zpend : bool; zeq : bool; ztight : bool; zrop : bool; ze : option cz_out;
}.

Definition put_ws (b : bool) (z : czs) : czs := CzS (zi z) (zw z) (zhd z) (zdepth z) (zcomp z) b (zbol z) (zpend z) (zeq z) (ztight z) (zrop z) (ze z).
Definition put_w (f : czw -> czw) (z : czs) : czs := CzS (zi z) (f (zw z)) (zhd z) (zdepth z) (zcomp z) (zws z) (zbol z) (zpend z) (zeq z) (ztight z) (zrop z) (ze z).
Definition put_parens (d c : nat) (z : czs) : czs := CzS (zi z) (zw z) (zhd z) d c (zws z) (zbol z) (zpend z) (zeq z) (ztight z) (zrop z) (ze z).
Definition put_hd (h : list cz_hd) (z : czs) : czs := CzS (zi z) (zw z) h (zdepth z) (zcomp z) (zws z) (zbol z) (zpend z) (zeq z) (ztight z) (zrop z) (ze z).
Definition put_eq (b : bool) (z : czs) : czs := CzS (zi z) (zw z) (zhd z) (zdepth z) (zcomp z) (zws z) (zbol z) (zpend z) b (ztight z) (zrop z) (ze z).
Definition put_tight (b : bool) (z : czs) : czs := CzS (zi z) (zw z) (zhd z) (zdepth z) (zcomp z) (zws z) (zbol z) (zpend z) (zeq z) b (zrop z) (ze z).
Definition put_rop (b : bool) (z : czs) : czs := CzS (zi z) (zw z) (zhd z) (zdepth z) (zcomp z) (zws z) (zbol z) (zpend z) (zeq z) (ztight z) b (ze z).
Definition put_e (i : nat) (e : option cz_out) (z : czs) : czs := CzS i (zw z) (zhd z) (zdepth z) (zcomp z) (zws z) (zbol z) (zpend z) (zeq z) (ztight z) (zrop z) e.

(** How the token at [at] ends: at [i], with the bytes still to be copied; at a
    command inside it, which copies its own; with the closing parenthesis of
    this command; or where the lexer gives up. *)
Inductive czto := Tok (i : nat) (z : czs) | Inner (z : czs) | Close (i : nat) | Bail_.

(** Reserved words may come next. *)
Definition fresh (w : czw) : czw := put_rw CZ_KW (put_cmd true w).

Section Token.
(** The skippers of the level. *)
Context (quoted_ dollar_ : nat -> PM nat) (pair_ : nat -> Z -> Z -> nat -> PM nat) (regex_ : nat -> PM nat).
Context (s : bytes) (at_i : nat) (after_eq nested : bool).

Definition tok_plain (c : Z) (z : czs) : PM czto :=
  let i := at_i in
  let done_ i z := mret (Tok i (put_ws false z)) in
  if bool_decide (sub (zw z) = Some i) then
    i ← pair_ (i + 1)%nat 91 93 1%nat;
    c ← rd s i;
    c1 ← (if c =? 43 then rd s (i + 1) else mret 0);
    done_ i (put_w (fun w => put_cmd ((c =? 61) || ((c =? 43) && (c1 =? 61))) (put_sub None w)) z)
  else if (c =? 91) && zws z && bool_decide (zcomp z <> O) && bool_decide (zdepth z = zcomp z) then
    i ← pair_ (i + 1)%nat 91 93 1%nat; done_ i z
  else
    c1 ← rd s (i + 1);
    if (c1 =? 40) && ((c =? 64) || (c =? 33) || (c =? 42) || (c =? 43) || (c =? 63)) then i ← pair_ (i + 2)%nat 40 41 1%nat; done_ i z
    else
      c2 ← (if c1 =? 126 then rd s (i + 2) else mret 1);
      if cond (zw z) && zws z && (c =? 61) && (c1 =? 126) && cz_delim c2 then i ← regex_ (i + 2)%nat; done_ i z
      else done_ (S i) (put_eq (c =? 61) z).

Definition tok_open (z : czs) : PM czto :=
  let i := at_i in
  c1 ← rd s (i + 1);
  if c1 =? 40 then
    e ← pair_ (i + 2)%nat 40 41 2%nat;
    mret (Tok e (put_ws true (put_w (fun w => put_rw CZ_KW (put_cmd false w)) z)))
  else if pat (zw z) then mret (Tok (S i) (put_ws true (put_w (put_rw 0) z)))
  else
    let d := S (zdepth z) in
    let z := put_parens d (if after_eq && negb (zws z) then d else zcomp z) z in
    mret (Tok (S i) (put_ws true (put_w fresh z))).

Definition tok_close (z : czs) : czto :=
  let i := at_i in
  let z := put_ws true (put_w fresh z) in
  if pat (zw z) then Tok (S i) (put_w (put_pat false) z) else
  if decide (zdepth z <> O) then
    let z := if decide (zdepth z = zcomp z) then put_parens (zdepth z) 0 (put_ws false (put_w (put_rw 0) z)) else z in
    Tok (S i) (put_parens (zdepth z - 1) (zcomp z) z)
  else if nested then (if decide (zhd z <> []) then Bail_ else Close (S i))
  else Tok (S i) z.

Definition tok_redirect (c : Z) (z : czs) : PM czto :=
  let i := at_i in
  let z := put_w (put_rw 0) z in
  c1 ← rd s (i + 1);
  c2 ← (if (c1 =? 40) || (c1 =? 60) then rd s (i + 2) else mret 0);
  if (c1 =? 40) && (c2 =? 40) then e ← pair_ (i + 3)%nat 40 41 2%nat; mret (Tok e (put_ws false z)) else
  if c1 =? 40 then mret (Inner (put_ws false z)) else
  if (c =? 60) && (c1 =? 60) && (c2 =? 60) then mret (Tok (i + 3)%nat (put_ws true (put_rop true z))) else
  if (c =? 60) && (c1 =? 60) then
    if decide (length (zhd z) = CZ_HD) then mret Bail_ else
    h ← hd_tag s i;
    mret (match h with None => Bail_ | Some (e, h) => Tok e (put_ws false (put_hd (zhd z ++ [h]) z)) end)
  else mret (Tok (S i) (put_ws true (put_rop true z))).

Definition tok_list (c : Z) (z : czs) : PM czto :=
  let i := S at_i in
  x ← rd s i;
  let w := zw z in
  let w := if zrop z || ((c =? 38) && (x =? 62)) then w else
           let w := put_rw (if pat w && (c =? 124) then 0 else CZ_KW) (put_cmd true w) in
           if (c =? 59) && bool_decide (ncs w <> O) && ((x =? 59) || (x =? 38)) then put_pat true w else w in
  mret (Tok i (put_tight false (put_ws true (put_w (fun _ => w) z)))).

(** [switch(c)] *)
Definition cz_token (c : Z) (z : czs) : PM czto :=
  let i := at_i in
  if c =? 92 then
    c1 ← rd s (i + 1);
    mret (Tok (if decide (i + 1 < length s)%nat then i + 2 else i + 1)%nat (if c1 =? 10 then z else put_ws false z))
  else if (c =? 39) || (c =? 34) || (c =? 96) then e ← quoted_ i; mret (Tok e (put_ws false z))
  else if c =? 36 then
    c1 ← rd s (i + 1);
    c2 ← (if c1 =? 40 then rd s (i + 2) else mret 0);
    if (c1 =? 40) && negb (c2 =? 40) then mret (Inner (put_ws false z))
    else e ← dollar_ i; mret (Tok e (put_ws false z))
  else if c =? 40 then tok_open z
  else if c =? 41 then mret (tok_close z)
  else if (c =? 60) || (c =? 62) then tok_redirect c z
  else if (c =? 59) || (c =? 38) || (c =? 124) then tok_list c z
  else tok_plain c z.

End Token.

(** A token begins: a word is looked at where one can start. *)
Definition cz_begin (c : Z) (joined : bool) (t : bytes) (z : czs) : czs :=
  let word := zws z && negb (zrop z) && (bool_decide (zcomp z = O) || negb (bool_decide (zdepth z = zcomp z))) && negb (cz_meta c) && negb joined in
  let w := if word then cz_start t (zi z) (zw z) else zw z in
  let rop := if negb (cz_meta c) && negb joined then false else zrop z in
  CzS (zi z) w (zhd z) (zdepth z) (zcomp z) (zws z) false false false (negb joined) rop (ze z).

(** The end of a line, and of the here-documents it began. *)
Fixpoint hd_bodies (s : bytes) (i : nat) (hs : list cz_hd) (e : option cz_out) : PM (nat * option cz_out) :=
  match hs with
  | [] => mret (i, e)
  | h :: hs => '(i, e) ← hd_body (S (length s)) s i h e; hd_bodies s i hs e
  end.

Definition cz_newline (s : bytes) (z : czs) : PM czs :=
  let e := cz_put (ze z) 10 in
  let e := match e with Some o => Some (CzOut (co o) (if decide (zhd z <> []) then length (co o) else ckeep o)) | None => None end in
  '(i, e) ← hd_bodies s (S (zi z)) (zhd z) e;
  mret (CzS i (fresh (zw z)) [] (zdepth z) (zcomp z) true true false (zeq z) false (zrop z) e).

Section Compact.
Context `{FileSys}.
Context (code_off : nat) (fname : bytes).

(** A comment, up to the newline. *)
Definition cz_comment (m : bytes) (z : czs) : PM czs :=
  let i := zi z in
  let end_ := (i + run_of (fun c => negb (c =? 10)%Z) (drop i m))%nat in
  c1 ← rd m (i + 1);
  (if bool_decide (ze z <> None) && zbol z && (c1 =? 37) && bool_decide (code_off <= i)%nat then late_directive fname (slice m i end_) else mret tt);;
  mret (CzS end_ (zw z) (zhd z) (zdepth z) (zcomp z) (zws z) (zbol z) false (zeq z) false (zrop z) (ze z)).

Definition cz_first (i : nat) (nested : bool) (e : option cz_out) : czs :=
  CzS i (CzW CZ_KW 0 0 false false true None) [] 0 0 true (negb nested) false false false false e.

(** ** The recursion

    A call of one of the skippers, or a turn of the loop of one. They give the
    position after what they skip; [d] counts the levels. [SkCmd] without output
    only skips. *)
Inductive skip :=
  | SkDq (i d : nat)
  | SkBrace (i d : nat)
  | SkUntil (stop : Z) (dq : bool) (i d : nat)
  | SkPair (open close : Z) (depth i d : nat)
  | SkPairs (open close : Z) (depth i d : nat)
  | SkRegex (i d : nat)
  | SkCmd (e : option cz_out) (nested : bool) (i d : nat)
  | SkTokens (nested : bool) (z : czs) (d : nat).

Section Calls.
Context (call : bytes -> skip -> PM (nat * option cz_out)).
Context (s : bytes).

(** A call that writes nothing. *)
Definition pos (m : bytes) (k : skip) : PM nat := r ← call m k; mret r.1.

Definition sk_dollar (m : bytes) (i d : nat) (dq : bool) : PM nat :=
  c1 ← rd m (i + 1);
  if c1 =? 40 then
    c2 ← rd m (i + 2);
    if c2 =? 40 then pos m (SkPair 40 41 2 (i + 3) d) else pos m (SkCmd None true (i + 2) d)
  else if c1 =? 123 then pos m (SkBrace (i + 2) d)
  else if (c1 =? 39) && negb dq then mret (sk_esc m (i + 2) 39)
  else if (c1 =? 34) && negb dq then pos m (SkDq (i + 2) d)
  else mret (i + 1)%nat.

Definition sk_quoted (m : bytes) (i d : nat) (dq : bool) : PM nat :=
  c ← rd m i;
  if c =? 92 then mret (i + 2)%nat else
  if c =? 39 then mret (if dq then i + 1 else sk_sq m (i + 1))%nat else
  if c =? 34 then pos m (SkDq (i + 1) d) else
  if c =? 96 then mret (sk_esc m (i + 1) 96) else
  if c =? 36 then sk_dollar m i d dq else mret (i + 1)%nat.

(** Up to after [stop]: the loops of [sk_dq] and [sk_brace]. *)
Definition sk_until (stop : Z) (dq : bool) (i d : nat) : PM nat :=
  if decide (length s <= i)%nat then mret (length s) else
  c ← rd s i;
  if c =? stop then mret (S i) else i ← sk_quoted s i d dq; pos s (SkUntil stop dq i d).

Definition sk_pairs (open close : Z) (depth i d : nat) : PM nat :=
  if decide (length s <= i)%nat then mret (length s) else
  c ← rd s i;
  if c =? open then pos s (SkPairs open close (S depth) (S i) d) else
  if c =? close then (if decide (depth = 1%nat) then mret (S i) else pos s (SkPairs open close (depth - 1) (S i) d)) else
  i ← sk_quoted s i d false; pos s (SkPairs open close depth i d).

Definition sk_regex (i d : nat) : PM nat :=
  if decide (length s <= i)%nat then mret (length s) else
  c ← rd s i;
  if cz_blank c || (c =? 10) then mret i else
  i ← (if c =? 40 then pos s (SkPair 40 41 1 (i + 1) d) else sk_quoted s i d false);
  pos s (SkRegex i d).

(** Any token but a blank, a newline or a comment. *)
Definition cz_other (nested : bool) (c : Z) (z : czs) (d : nat) : PM (nat * option cz_out) :=
  let i := zi z in
  c1 ← (if c =? 92 then rd (view (ze z) s) (i + 1) else mret 0);
  let joined := (c =? 92) && (c1 =? 10) in
  if joined && ztight z then mret (length s, cz_copy (ze z) s i (length s)) else
  let e := if zpend z then cz_put (ze z) 32 else ze z in
  let m := view e s in
  r ← cz_token (fun i => sk_quoted m i d false) (fun i => sk_dollar m i d false)
        (fun i open close depth => pos m (SkPair open close depth i d)) (fun i => pos m (SkRegex (i + run_of cz_blank (drop i m)) d))
        m i (zeq z) nested c (cz_begin c joined (drop i m) z);
  match r with
  | Tok i' z => call s (SkTokens nested (put_e i' (cz_copy e s i i') z) d)
  | Inner z =>
      r ← call s (SkCmd (cz_copy e s i (i + 2)) true (i + 2) d);
      call s (SkTokens nested (put_e r.1 r.2 z) d)
  | Close i' => mret (i', cz_copy e s i i')
  | Bail_ => mret (length s, cz_copy e s i (length s))
  end.

Definition sk_tokens (nested : bool) (z : czs) (d : nat) : PM (nat * option cz_out) :=
  let i := zi z in
  if decide (length s <= i)%nat then mret (length s, ze z) else
  let m := view (ze z) s in
  c ← rd m i;
  if cz_blank c then
    call s (SkTokens nested (CzS (S i) (zw z) (zhd z) (zdepth z) (zcomp z) true (zbol z) (negb (zbol z)) (zeq z) false (zrop z) (ze z)) d)
  else if c =? 10 then z ← cz_newline s z; call s (SkTokens nested z d)
  else if (c =? 35) && zws z then z ← cz_comment m z; call s (SkTokens nested z d)
  else cz_other nested c z d.

(** [++d > CZ_DEPTH] *)
Definition too_deep (d : nat) : bool := bool_decide (CZ_DEPTH < S d)%nat.

Definition skip_step (k : skip) : PM (nat * option cz_out) :=
  let only (m : PM nat) : PM (nat * option cz_out) := i ← m; mret (i, None) in
  match k with
  | SkDq i d => if too_deep d then mret (length s, None) else call s (SkUntil 34 true i (S d))
  | SkBrace i d => if too_deep d then mret (length s, None) else call s (SkUntil 125 false i (S d))
  | SkUntil stop dq i d => only (sk_until stop dq i d)
  | SkPair open close depth i d => if too_deep d then mret (length s, None) else call s (SkPairs open close depth i (S d))
  | SkPairs open close depth i d => only (sk_pairs open close depth i d)
  | SkRegex i d => only (sk_regex i d)
  | SkCmd e nested i d =>
      if too_deep d then mret (length s, cz_copy e s i (length s)) else call s (SkTokens nested (cz_first i nested e) (S d))
  | SkTokens nested z d => sk_tokens nested z d
  end.

End Calls.

Fixpoint skip_from (fuel : nat) (s : bytes) (k : skip) : PM (nat * option cz_out) :=
  match fuel with
  | O => endless
  | S fuel' => skip_step (skip_from fuel') s k
  end.

(** Two calls for each byte: a skipper, and the first turn of its loop. *)
Definition cz_fuel (s : bytes) : nat := 2 * S (length s) + 2.

Definition compact (s : bytes) : PM bytes :=
  r ← skip_from (cz_fuel s) s (SkCmd (Some (CzOut [] 0)) false 0 0);
  match r.2 with Some o => mret (take (ckeep o) (co o)) | None => misread end.

End Compact.

(** * What the compactor keeps (ctl/parser/compact.c)

    It reads nothing outside the script, writes nothing over what it has still
    to read, and ends for every text, however its quotes and parentheses nest;
    every line stays where it is. *)

(** ** What has been written *)

Section Room.
Context (s : bytes).

(** [b]: the compactor writes. *)
Definition fits (b : bool) (e : option cz_out) (i : nat) : Prop :=
  match e with
  | None => b = false
  | Some o => b = true /\ kept s (co o) i /\ (length (co o) <= i)%nat
  end.

(** After what is kept there are only newlines. *)
Definition keeps (e : option cz_out) : Prop :=
  match e with
  | None => True
  | Some o => (ckeep o <= length (co o))%nat /\ Forall (fun c => c = 10) (drop (ckeep o) (co o))
  end.

Definition room (b : bool) (e : option cz_out) (i : nat) : Prop := fits b e i /\ keeps e.

Lemma view_length b e i : fits b e i -> (i <= length s)%nat -> length (view e s) = length s.
Proof. destruct e as [o|]; [|done]. intros (_ & _ & Hl) Hi. apply buf_length. lia. Qed.

Lemma view_drop b e i k : fits b e i -> (i <= k)%nat -> drop k (view e s) = drop k s.
Proof. destruct e as [o|]; [|done]. intros (_ & _ & Hl) Hk. apply buf_drop. lia. Qed.

Lemma view_lookup b e i k : fits b e i -> (i <= k)%nat -> view e s !! k = s !! k.
Proof. destruct e as [o|]; [|done]. intros (_ & _ & Hl) Hk. apply buf_lookup. lia. Qed.

Lemma view_slice b e i k l : fits b e i -> (i <= k)%nat -> slice (view e s) k l = slice s k l.
Proof. intros Hr Hk. unfold slice. by rewrite (view_drop b _ i). Qed.

Lemma room_copy b e i k : fits b e i -> (i <= k <= length s)%nat -> room b (cz_copy e s i k) k.
Proof.
  intros Hr Hk. unfold cz_copy. destruct e as [o|]; [|done]. rewrite (view_slice b _ i) by (done || lia). destruct Hr as (-> & H1 & H2).
  split; cbn.
  - split; [done|]. split; [apply kept_copy; [lia|done]|]. rewrite length_app, length_slice by lia. lia.
  - split; [done|]. by rewrite drop_ge.
Qed.

Lemma fits_skip b e i k : fits b e i -> (i <= k <= length s)%nat -> 10 ∉ slice s i k -> fits b e k.
Proof.
  destruct e as [o|]; [|done]. intros (-> & H1 & H2) Hk Hn. split; [done|]. split; [by apply (kept_skip s _ i)|lia].
Qed.

Lemma fits_run b e i f : fits b e i -> (i <= length s)%nat -> f 10 = false -> fits b e (i + run_of f (drop i s))%nat.
Proof.
  intros Hr Hi Hf. destruct e as [o|]; [|done]. destruct Hr as (-> & H1 & H2). destruct (kept_run s (co o) i f H1 Hf) as [Hk Hl].
  split; [done|]. split; [done|lia].
Qed.

(** A blank for those that were dropped. *)
Definition spare (p : bool) (e : option cz_out) (i : nat) : Prop :=
  match e with Some o => (length (co o) + (if p then 1 else 0) <= i)%nat | None => True end.

Lemma fits_pend p b e i : fits b e i -> spare p e i -> fits b (if p then cz_put e 32 else e) i.
Proof.
  destruct p; [|done]. destruct e as [o|]; [|done]. intros (-> & H1 & H2) Hp. cbn in *.
  split; [done|]. split; [by apply kept_blank|]. rewrite length_app. cbn. lia.
Qed.
End Room.

(** ** Here-documents *)

Lemma hd_word_rest q t acc quo r tag quo' : hd_word q t acc quo = Some (r, tag, quo') -> exists u, t = u ++ r.
Proof.
  assert (forall n q t acc quo, (length t <= n)%nat -> hd_word q t acc quo = Some (r, tag, quo') -> exists u, t = u ++ r) as Hn.
  2: { by apply (Hn (length t)). }
  clear. induction n as [|n IH]; intros q t acc quo Hl.
  { destruct t; [|cbn in Hl; lia]. destruct q; [done|]. intros [= -> _ _]. by exists []. }
  assert (forall c q t acc quo, (length t <= n)%nat -> hd_word q t acc quo = Some (r, tag, quo') -> exists u, c :: t = u ++ r) as H1.
  { intros c q' t' acc' quo2 Hl' [u ->]%IH; [by exists (c :: u)|done]. }
  assert (forall c x q t acc quo, (length t <= n)%nat -> hd_word q t acc quo = Some (r, tag, quo') -> exists u, c :: x :: t = u ++ r) as H2.
  { intros c x q' t' acc' quo2 Hl' [u ->]%IH; [by exists (c :: x :: u)|done]. }
  destruct t as [|c t]; [destruct q; [done|]; intros [= -> _ _]; by exists []|]. cbn in Hl.
  destruct q as [q|]; cbn [hd_word].
  - destruct (c =? q); [apply H1; lia|]. destruct (c =? 10); [done|]. destruct t as [|x t].
    { destruct (decide _); [done|]. apply H1. cbn. lia. }
    cbn in Hl. destruct (_ && _ && (x =? 10)); [apply H2; lia|]. destruct (decide _); [done|]. destruct (_ && _); [apply H2; lia|apply H1; cbn; lia].
  - destruct (cz_delim c); [intros [= -> _ _]; by exists []|]. destruct (_ || _); [done|]. destruct (_ || _); [apply H1; lia|].
    destruct (c =? 92); [|destruct (decide _); [done|]; apply H1; lia]. destruct t as [|x t].
    { destruct (decide _); [done|]. apply H1. cbn. lia. }
    cbn in Hl. destruct (x =? 10); [apply H2; lia|]. destruct (decide _); [done|]. apply H2. lia.
Qed.

Lemma hd_tag_ok s i : (i + 2 <= length s)%nat -> yields (hd_tag s i) (fun r => forall e h, r = Some (e, h) -> (i + 2 <= e <= length s)%nat).
Proof.
  intros Hi. unfold hd_tag. apply yields_rd; [done|]. intros c Hc. apply yields_ret. cbv zeta.
  set (i1 := (i + 2 + (if (c =? 45)%Z then 1 else 0))%nat).
  assert (i + 2 <= i1 <= length s)%nat as H1.
  { unfold i1. destruct (Z.eqb_spec c 45) as [->|]; [|lia]. destruct Hc as [Hc|(_ & _ & ?)]; [|done]. apply lookup_lt_Some in Hc. lia. }
  pose proof (run_of_le cz_blank (drop i1 s)) as Hr. rewrite length_drop in Hr. set (i2 := (i1 + run_of cz_blank (drop i1 s))%nat) in *.
  destruct (hd_word _ _ _ _) as [[[r tag] quo]|] eqn:Hw; [|done]. destruct (_ || _); [done|]. intros e h [= <- _].
  destruct (hd_word_rest _ _ _ _ _ _ _ Hw) as [u Hu]. apply (f_equal length) in Hu. rewrite length_drop, length_app in Hu. lia.
Qed.

Lemma hd_line_ok fuel s p m t h : (p <= length s)%nat -> (length s - p < fuel)%nat -> yields (hd_line fuel s p m t h) (fun r =>
  (p <= r.1.1 <= r.1.2)%nat /\ (r.1.2 <= length s)%nat /\ ((p < length s)%nat -> (p < r.1.2)%nat) /\
  (r.1.1 = r.1.2 \/ s !! r.1.1 = Some 10 /\ r.1.2 = S r.1.1)).
Proof.
  revert p m t. induction fuel as [|fuel IH]; intros p m t Hp Hf; [lia|]. cbn [hd_line]. cbv zeta.
  pose proof (run_of_le (fun c => negb (c =? 10)) (drop p s)) as Hr. rewrite length_drop in Hr.
  set (eol := (p + run_of (fun c => negb (c =? 10)%Z) (drop p s))%nat) in *.
  assert ((eol < length s)%nat -> s !! eol = Some 10) as Heol.
  { unfold eol. clear. revert p. induction s as [|c s' IH]; intros p; [rewrite drop_nil; cbn; lia|]. destruct p as [|p].
    - cbn. destruct (Z.eqb_spec c 10) as [->|]; [done|]. cbn. intros Hl. specialize (IH O). rewrite drop_0 in IH. apply IH. cbn. lia.
    - cbn. intros Hl. apply IH. lia. }
  destruct (bool_decide_reflect (eol < length s)%nat) as [Hnl|Hnl].
  - destruct (_ && _ && _) eqn:Hj.
    + eapply yields_mono; [apply IH; lia|]. intros [[eol' end'] t'] (H1 & H2 & H3 & H4). cbn in *. split; [lia|]. split; [done|]. split; [lia|done].
    + apply yields_ret. cbn. split; [lia|]. split; [lia|]. split; [lia|]. right. by split; [apply Heol|].
  - rewrite andb_false_r. cbn [andb]. apply yields_ret. cbn. split; [lia|]. split; [lia|]. split; [lia|]. left. lia.
Qed.

Lemma hd_body_ok s b h e i fuel : (length s - i < fuel)%nat -> (i <= length s)%nat -> room s b e i ->
  yields (hd_body fuel s i h e) (fun r => (i <= r.1 <= length s)%nat /\ room s b r.2 r.1).
Proof.
  revert e i. induction fuel as [|fuel IH]; intros e i Hf Hi Hr; [lia|]. cbn [hd_body].
  destruct (decide _); [by apply yields_ret|]. pose proof Hr as [Hfit Hkeep]. cbv zeta.
  pose proof (view_length s b e i Hfit Hi) as Hlen. rewrite (view_drop s b e i i Hfit) by done.
  set (k := if dash h then (i + run_of (Z.eqb 9) (drop i s))%nat else i).
  assert (fits s b e k) as Hk by (unfold k; destruct (dash h); [by apply fits_run|done]).
  assert (i <= k <= length s)%nat as Hik.
  { unfold k. pose proof (run_of_le (Z.eqb 9) (drop i s)) as Hl. rewrite length_drop in Hl. destruct (dash h); lia. }
  eapply yields_bind; [apply hd_line_ok; lia|]. intros [[eol end_] t] (H1 & H2 & H3 & H4). cbn [fst snd] in *. rewrite Hlen in *.
  assert (i < end_)%nat as Hprog by (destruct (decide (k = i)); lia).
  set (e' := match e with Some o => _ | None => _ end).
  assert (room s b e' end_) as Hroom.
  { pose proof (room_copy s b e k end_ Hk ltac:(lia)) as [Hfit' Hkeep']. unfold cz_copy in *. unfold e'. destruct e as [o|]; [|done].
    destruct t; [|done]. split; [done|]. cbn [keeps co ckeep]. rewrite (view_slice s b _ k) in * by (done || lia). split; [lia|].
    destruct H4 as [->|[Hnl ->]]; [rewrite Nat.sub_diag, Nat.sub_0_r; apply Hkeep'|].
    replace (S eol - eol)%nat with 1%nat by lia. rewrite (view_lookup s b _ k) in Hnl by (done || lia). assert (slice s k (S eol) = slice s k eol ++ [10]) as ->.
    2: { rewrite app_assoc, length_app. cbn. rewrite Nat.add_sub, drop_app_length. by constructor. }
    unfold slice. replace (S eol - k)%nat with (S (eol - k)) by lia. apply take_S_r. rewrite lookup_drop. rewrite <- Hnl. f_equal. lia. }
  destruct t; [apply yields_ret; cbn; split; [lia|done]|]. eapply yields_mono; [apply IH; [lia|lia|done]|].
  intros [x e2] [A1 A2]. cbn in *. split; [lia|done].
Qed.

Lemma hd_bodies_ok s b hs e i : (i <= length s)%nat -> room s b e i ->
  yields (hd_bodies s i hs e) (fun r => (i <= r.1 <= length s)%nat /\ room s b r.2 r.1).
Proof.
  revert i e. induction hs as [|h hs IH]; intros i e Hi Hr; [by apply yields_ret|]. cbn [hd_bodies].
  eapply yields_bind; [apply (hd_body_ok s b); [lia|done|done]|]. intros [i' e'] [H1 H2]. cbn in *.
  eapply yields_mono; [apply IH; [lia|done]|]. intros [x e2] [A1 A2]. cbn in *. split; [lia|done].
Qed.

(** ** The skippers *)

(** Where a call is, with its rank among the calls at the same place. *)
Definition place (k : skip) : nat * nat :=
  match k with
  | SkDq i _ | SkBrace i _ | SkPair _ _ _ i _ | SkCmd _ _ i _ => (i, 1%nat)
  | SkUntil _ _ i _ | SkPairs _ _ _ i _ | SkRegex i _ => (i, O)
  | SkTokens _ z _ => (zi z, O)
  end.

Definition cost (s : bytes) (k : skip) : nat := 2 * (length s + 1 - (place k).1) + (place k).2.

(** What a call relies on, [b] whether it writes. *)
Definition before (s : bytes) (b : bool) (k : skip) : Prop :=
  match k with
  | SkDq i _ | SkBrace i _ | SkPair _ _ _ i _ => (i <= length s)%nat
  | SkUntil _ _ _ _ | SkPairs _ _ _ _ _ | SkRegex _ _ => True
  | SkCmd e _ i _ => (i <= length s)%nat /\ room s b e i
  | SkTokens _ z _ => (zi z <= length s)%nat /\ room s b (ze z) (zi z) /\ spare (zpend z) (ze z) (zi z)
  end.

(** It ends further on, or at the end of the text; a command that is not inside
    another at the end. *)
Definition further (s : bytes) (i e : nat) : Prop := (e <= length s)%nat /\ ((i <= e)%nat \/ e = length s).

Definition after (s : bytes) (b : bool) (k : skip) (r : nat * option cz_out) : Prop :=
  further s (place k).1 r.1 /\ match k with SkCmd _ nested _ _ | SkTokens nested _ _ => room s b r.2 r.1 /\ (nested = false -> r.1 = length s) | _ => True end.

Definition call_ok (call : bytes -> skip -> PM (nat * option cz_out)) (fuel : nat) : Prop :=
  forall s b k, before s b k -> (cost s k < fuel)%nat -> yields (call s k) (after s b k).

Section Calls.
Context (call : bytes -> skip -> PM (nat * option cz_out)) (fuel : nat).
Hypothesis Hcall : call_ok call fuel.

Definition ahead (s : bytes) (i e : nat) : Prop := (i < e <= length s)%nat.

Lemma pos_ok s b k i : before s b k -> (cost s k < fuel)%nat -> (i < length s)%nat -> (i < (place k).1)%nat -> yields (pos call s k) (ahead s i).
Proof.
  intros Hb Hc Hi Hk. unfold pos. eapply yields_bind; [by apply (Hcall s b)|]. intros [e o] [[H1 H2] _]. apply yields_ret. unfold ahead. cbn in *. lia.
Qed.

Lemma sk_sq_ok s i : (i <= length s)%nat -> (i <= sk_sq s i <= length s)%nat.
Proof.
  intros Hi. unfold sk_sq. cbv zeta. pose proof (run_of_le (fun c => negb (c =? 39)) (drop i s)) as Hr. rewrite length_drop in Hr.
  destruct (decide _); lia.
Qed.

Lemma esc_len_le end_ t : (esc_len end_ t <= length t)%nat.
Proof.
  assert (forall n t, (length t <= n)%nat -> (esc_len end_ t <= length t)%nat) as Hn; [|by apply (Hn (length t))].
  clear t. induction n as [|n IH]; intros t Hl; [by destruct t; [|cbn in Hl; lia]|]. destruct t as [|c t]; [done|]. cbn in *.
  destruct (c =? end_); [lia|]. destruct (c =? 92); [|specialize (IH t ltac:(lia)); lia]. destruct t as [|x t]; [lia|]. cbn in *. specialize (IH t ltac:(lia)). lia.
Qed.

Lemma sk_esc_ok s i end_ : (i <= length s)%nat -> (i <= sk_esc s i end_ <= length s)%nat.
Proof. intros Hi. unfold sk_esc. pose proof (esc_len_le end_ (drop i s)) as Hl. rewrite length_drop in Hl. lia. Qed.

(** A byte that is not the NUL lies before the end. *)
Lemma read_in s i c : (s !! i = Some c \/ i = length s /\ s !! i = None /\ c = 0) -> c <> 0 -> (i < length s)%nat.
Proof. intros [Hx|(_ & _ & ->)]; [by apply lookup_lt_Some in Hx|done]. Qed.

Lemma sk_dollar_ok s i d dq : (i < length s)%nat -> (2 * (length s + 1 - i) <= fuel)%nat -> yields (sk_dollar call s i d dq) (ahead s i).
Proof.
  intros Hi Hf. unfold sk_dollar. apply yields_rd; [lia|]. intros c1 Hc1. unfold ahead.
  destruct (Z.eqb_spec c1 40) as [->|_].
  { pose proof (read_in _ _ _ Hc1 ltac:(done)). apply yields_rd; [lia|]. intros c2 Hc2. destruct (Z.eqb_spec c2 40) as [->|_].
    - pose proof (read_in _ _ _ Hc2 ltac:(done)). apply (pos_ok s false); [cbn; lia|unfold cost; cbn; lia|done|cbn; lia].
    - apply (pos_ok s false); [cbn; split; [lia|done]|unfold cost; cbn; lia|done|cbn; lia]. }
  destruct (Z.eqb_spec c1 123) as [->|_].
  { pose proof (read_in _ _ _ Hc1 ltac:(done)). apply (pos_ok s false); [cbn; lia|unfold cost; cbn; lia|done|cbn; lia]. }
  destruct (Z.eqb_spec c1 39) as [->|_]; [|destruct (Z.eqb_spec c1 34) as [->|_]]; cbn [andb]; [destruct (negb dq)..|].
  - pose proof (read_in _ _ _ Hc1 ltac:(done)). apply yields_ret. pose proof (sk_esc_ok s (i + 2) 39). lia.
  - apply yields_ret. lia.
  - pose proof (read_in _ _ _ Hc1 ltac:(done)). apply (pos_ok s false); [cbn; lia|unfold cost; cbn; lia|done|cbn; lia].
  - apply yields_ret. lia.
  - apply yields_ret. lia.
Qed.

Lemma sk_quoted_ok s i d dq : (i < length s)%nat -> (2 * (length s + 1 - i) <= fuel)%nat ->
  yields (sk_quoted call s i d dq) (fun e => (i < e)%nat /\ ((e <= length s)%nat \/ s !! i = Some 92)).
Proof.
  intros Hi Hf. unfold sk_quoted. apply yields_rd_in; [done|]. intros c Hc.
  assert (forall m, yields m (ahead s i) -> yields m (fun e => (i < e)%nat /\ ((e <= length s)%nat \/ s !! i = Some 92))) as Ha.
  { intros m Hm. eapply yields_mono; [exact Hm|]. intros e [H1 H2]. split; [done|by left]. }
  destruct (Z.eqb_spec c 92) as [->|_]; [apply yields_ret; split; [lia|by right]|]. 
  destruct (c =? 39); [apply Ha, yields_ret; unfold ahead; pose proof (sk_sq_ok s (i + 1)); destruct dq; lia|].
  destruct (c =? 34); [apply Ha, (pos_ok s false); [cbn; lia|unfold cost; cbn; lia|done|cbn; lia]|].
  destruct (c =? 96); [apply Ha, yields_ret; unfold ahead; pose proof (sk_esc_ok s (i + 1) 96); lia|].
  destruct (c =? 36); [by apply Ha, sk_dollar_ok|]. apply Ha, yields_ret. unfold ahead. lia.
Qed.

(** The turn of a loop goes on from [i'] to the end of the call. *)
Lemma pos_further s k i : before s false k -> (cost s k < fuel)%nat -> (i <= (place k).1)%nat -> yields (pos call s k) (further s i).
Proof.
  intros Hb Hc Hk. unfold pos. eapply yields_bind; [by apply (Hcall s false)|]. intros [e o] [[H1 H2] _]. apply yields_ret. unfold further. cbn in *. lia.
Qed.

Lemma sk_until_ok s stop dq i d : (2 * (length s + 1 - i) <= fuel)%nat -> yields (sk_until call s stop dq i d) (further s i).
Proof.
  intros Hf. unfold sk_until, further. destruct (decide _); [apply yields_ret; lia|]. apply yields_rd_in; [lia|]. intros c Hc.
  destruct (c =? stop); [apply yields_ret; lia|]. eapply yields_bind; [apply sk_quoted_ok; lia|]. intros e [He _].
  apply pos_further; [done|unfold cost; cbn; lia|cbn; lia].
Qed.

Lemma sk_pairs_ok s open close depth i d : (2 * (length s + 1 - i) <= fuel)%nat -> yields (sk_pairs call s open close depth i d) (further s i).
Proof.
  intros Hf. unfold sk_pairs, further. destruct (decide _); [apply yields_ret; lia|]. apply yields_rd_in; [lia|]. intros c Hc.
  destruct (c =? open); [apply pos_further; [done|unfold cost; cbn; lia|cbn; lia]|].
  destruct (c =? close). { destruct (decide _); [apply yields_ret; lia|]. apply pos_further; [done|unfold cost; cbn; lia|cbn; lia]. }
  eapply yields_bind; [apply sk_quoted_ok; lia|]. intros e [He _]. apply pos_further; [done|unfold cost; cbn; lia|cbn; lia].
Qed.

Lemma sk_regex_ok s i d : (2 * (length s + 1 - i) <= fuel)%nat -> yields (sk_regex call s i d) (further s i).
Proof.
  intros Hf. unfold sk_regex, further. destruct (decide _); [apply yields_ret; lia|]. apply yields_rd_in; [lia|]. intros c Hc.
  destruct (_ || _); [apply yields_ret; lia|]. apply (yields_bind _ _ (fun e => (i < e)%nat)).
  - destruct (c =? 40).
    + eapply yields_mono; [apply (pos_ok s false _ i); [cbn; lia|unfold cost; cbn; lia|lia|cbn; lia]|]. by intros e [].
    + eapply yields_mono; [apply sk_quoted_ok; lia|]. by intros e [].
  - intros e He. apply pos_further; [done|unfold cost; cbn; lia|cbn; lia].
Qed.
End Calls.

(** ** Tokens *)

Section Token.
Context (quoted_ dollar_ : nat -> PM nat) (pair_ : nat -> Z -> Z -> nat -> PM nat) (regex_ : nat -> PM nat).
Context (s : bytes) (i : nat) (after_eq nested : bool).
Hypothesis Hi : (i < length s)%nat.
Hypothesis Hquoted : yields (quoted_ i) (fun e => (i < e)%nat /\ ((e <= length s)%nat \/ s !! i = Some 92)).
Hypothesis Hdollar : yields (dollar_ i) (ahead s i).
Hypothesis Hpair : forall j a b d, (i < j <= length s)%nat -> yields (pair_ j a b d) (ahead s i).
Hypothesis Hregex : forall j, (i < j <= length s)%nat -> yields (regex_ j) (ahead s i).

(** How a token ends. *)
Definition tok_ok (r : czto) : Prop :=
  match r with
  | Tok e z => ahead s i e /\ zpend z = false
  | Inner z => (i + 2 <= length s)%nat /\ zpend z = false
  | Close e => ahead s i e /\ nested = true
  | Bail_ => True
  end.

Lemma tok_plain_ok c z : zpend z = false -> yields (tok_plain pair_ regex_ s i c z) tok_ok.
Proof.
  intros Hz. unfold tok_plain. cbv zeta.
  assert (forall e z', ahead s i e -> zpend z' = false -> yields (mret (Tok e (put_ws false z'))) tok_ok) as Hdone by (intros; by apply yields_ret).
  destruct (bool_decide _).
  - eapply yields_bind; [apply Hpair; lia|]. intros e [He1 He2]. apply yields_rd; [lia|]. intros c' Hc'. apply (yields_bind _ _ (fun _ => True)).
    { destruct (Z.eqb_spec c' 43) as [->|]; [|by apply yields_ret]. pose proof (read_in _ _ _ Hc' ltac:(done)). intros err.
      destruct (rd_ok s (e + 1)) as (x & -> & _); [lia|done]. }
    intros c1 _. by apply Hdone.
  - destruct (_ && bool_decide _ && _); [eapply yields_bind; [apply Hpair; lia|]; intros e He; by apply Hdone|].
    apply yields_rd; [lia|]. intros c1 Hc1. destruct (Z.eqb_spec c1 40) as [->|_]; cbn [andb].
    { pose proof (read_in _ _ _ Hc1 ltac:(done)). destruct (_ || _); [eapply yields_bind; [apply Hpair; lia|]; intros e He; by apply Hdone|].
      change (40 =? 126) with false. apply (yields_bind _ _ (fun _ => True)); [by apply yields_ret|]. intros c2 _. rewrite andb_false_r. cbn [andb]. apply Hdone; [split; lia|done]. }
    apply (yields_bind _ _ (fun _ => True)).
    { destruct (Z.eqb_spec c1 126) as [->|]; [|by apply yields_ret]. pose proof (read_in _ _ _ Hc1 ltac:(done)). intros err.
      destruct (rd_ok s (i + 2)) as (x & -> & _); [lia|done]. }
    intros c2 _. destruct (_ && _ && _ && _ && _) eqn:Hb; [|apply Hdone; [split; lia|done]].
    assert (c1 = 126) as ->.
    { apply andb_true_iff in Hb as [Hb _]. by apply andb_true_iff in Hb as [_ Hb%Z.eqb_eq]. }
    pose proof (read_in _ _ _ Hc1 ltac:(done)). eapply yields_bind; [apply Hregex; lia|]. intros e He. by apply Hdone.
Qed.

Lemma tok_open_ok z : zpend z = false -> yields (tok_open pair_ s i after_eq z) tok_ok.
Proof.
  intros Hz. unfold tok_open. cbv zeta. apply yields_rd; [lia|]. intros c1 Hc1. destruct (Z.eqb_spec c1 40) as [->|_].
  - pose proof (read_in _ _ _ Hc1 ltac:(done)). eapply yields_bind; [apply Hpair; lia|]. intros e He. by apply yields_ret.
  - destruct (pat _); apply yields_ret; (split; [split; lia|done]).
Qed.

Lemma tok_close_ok z : zpend z = false -> tok_ok (tok_close i nested z).
Proof.
  intros Hz. unfold tok_close. cbv zeta. assert (ahead s i (S i)) as Ha by (split; lia).
  destruct (pat _); [done|]. destruct (decide (zdepth _ <> O)).
  - split; [done|]. by destruct (decide (_ = _)).
  - destruct nested eqn:En; [|done]. destruct (decide _); [done|]. by split.
Qed.

Lemma tok_redirect_ok c z : zpend z = false -> yields (tok_redirect pair_ s i c z) tok_ok.
Proof.
  intros Hz. unfold tok_redirect. cbv zeta. apply yields_rd; [lia|]. intros c1 Hc1.
  apply (yields_bind _ _ (fun c2 => c2 <> 0 -> (i + 2 < length s)%nat)).
  { destruct ((c1 =? 40) || (c1 =? 60)) eqn:Hb; [|by apply yields_ret]. pose proof (read_in _ _ _ Hc1 ltac:(lia)). intros err.
    destruct (rd_ok s (i + 2)) as (x & -> & Hx); [lia|]. by apply read_in. }
  intros c2 Hc2. destruct (Z.eqb_spec c1 40) as [->|H40]; cbn [andb].
  { pose proof (read_in _ _ _ Hc1 ltac:(done)). destruct (Z.eqb_spec c2 40) as [->|_].
    - specialize (Hc2 ltac:(done)). eapply yields_bind; [apply Hpair; lia|]. intros e He. by apply yields_ret.
    - apply yields_ret. split; [lia|done]. }
  destruct (Z.eqb_spec c1 60) as [->|_]; [|rewrite !andb_false_r; apply yields_ret; split; [split; lia|done]].
  pose proof (read_in _ _ _ Hc1 ltac:(done)). rewrite !andb_true_r. destruct ((c =? 60) && (c2 =? 60)) eqn:Hb.
  { apply andb_true_iff in Hb as [_ ->%Z.eqb_eq]. specialize (Hc2 ltac:(done)). apply yields_ret. split; [split; lia|done]. }
  destruct (c =? 60); [|apply yields_ret; split; [split; lia|done]]. destruct (decide _); [by apply yields_ret|].
  eapply yields_bind; [apply hd_tag_ok; lia|]. intros [[e h]|] He; apply yields_ret; [|done]. specialize (He e h eq_refl). split; [split; lia|done].
Qed.

Lemma tok_list_ok c z : zpend z = false -> yields (tok_list s i c z) tok_ok.
Proof. intros Hz. unfold tok_list. cbv zeta. apply yields_rd; [lia|]. intros x _. apply yields_ret. split; [split; lia|done]. Qed.

Lemma cz_token_ok c z : s !! i = Some c -> zpend z = false ->
  yields (cz_token quoted_ dollar_ pair_ regex_ s i after_eq nested c z) tok_ok.
Proof.
  intros Hc Hz. unfold cz_token. cbv zeta. destruct (Z.eqb_spec c 92) as [->|H92].
  { apply yields_rd; [lia|]. intros c1 _. apply yields_ret. split; [destruct (decide _); split; lia|by destruct (c1 =? 10)]. }
  destruct (_ || _).
  { eapply yields_bind; [exact Hquoted|]. intros e [H1 H2]. apply yields_ret. split; [|done]. split; [done|]. destruct H2 as [H2|H2]; [done|congruence]. }
  destruct (c =? 36).
  { apply yields_rd; [lia|]. intros c1 Hc1. apply (yields_bind _ _ (fun _ => True)).
    { destruct (Z.eqb_spec c1 40) as [->|]; [|by apply yields_ret]. pose proof (read_in _ _ _ Hc1 ltac:(done)). intros err.
      destruct (rd_ok s (i + 2)) as (x & -> & _); [lia|done]. }
    intros c2 _. destruct (Z.eqb_spec c1 40) as [->|_]; cbn [andb].
    - pose proof (read_in _ _ _ Hc1 ltac:(done)). destruct (negb _); [apply yields_ret; split; [lia|done]|].
      eapply yields_bind; [exact Hdollar|]. intros e He. by apply yields_ret.
    - eapply yields_bind; [exact Hdollar|]. intros e He. by apply yields_ret. }
  destruct (c =? 40); [by apply tok_open_ok|]. destruct (c =? 41); [by apply yields_ret, tok_close_ok|].
  destruct (_ || _); [by apply tok_redirect_ok|]. destruct (_ || _); [by apply tok_list_ok|]. by apply tok_plain_ok.
Qed.
End Token.

(** ** The loop *)

Section Turns.
Context `{FileSys}.
Context (code_off : nat) (fname : bytes).
Context (call : bytes -> skip -> PM (nat * option cz_out)) (fuel : nat).
Hypothesis Hcall : call_ok call fuel.
Context (s : bytes) (b : bool).

Lemma spare_false e i : fits s b e i -> spare false e i.
Proof. destruct e as [o|]; [|done]. intros (_ & _ & Hl). cbn. lia. Qed.

Lemma spare_le p e i : spare p e i -> spare false e i.
Proof. destruct e as [o|]; [|done]. cbn. destruct p; lia. Qed.

Lemma skip_one e i c : room s b e i -> s !! i = Some c -> c <> 10 -> room s b e (S i).
Proof.
  intros [Hf Hk] Hc Hne. pose proof (lookup_lt_Some _ _ _ Hc) as Hi. split; [|done]. apply (fits_skip _ _ _ i); [done|lia|].
  rewrite (slice_one s i c Hc). intros E%list_elem_of_singleton. congruence.
Qed.

Lemma cz_newline_ok z : s !! zi z = Some 10 -> room s b (ze z) (zi z) ->
  yields (cz_newline s z) (fun z' => (zi z < zi z' <= length s)%nat /\ room s b (ze z') (zi z') /\ zpend z' = false).
Proof.
  intros Hc [Hf Hk]. pose proof (lookup_lt_Some _ _ _ Hc) as Hi. unfold cz_newline. cbv zeta.
  set (e := match cz_put (ze z) 10 with Some o => _ | None => _ end).
  assert (room s b e (S (zi z))) as Hr.
  { unfold e. destruct (ze z) as [o|]; [|done]. cbn [cz_put co ckeep]. destruct Hf as (-> & H1 & H2), Hk as [H3 H4]. split.
    - split; [done|]. cbn. split; [rewrite <- (slice_one s _ _ Hc); apply kept_copy; [lia|done]|]. rewrite length_app. cbn. lia.
    - cbn. destruct (decide _); [by rewrite drop_ge|]. split; [rewrite length_app; lia|]. rewrite drop_app_le by done.
      apply Forall_app. split; [done|by constructor]. }
  eapply yields_bind; [apply (hd_bodies_ok s b); [lia|exact Hr]|]. intros [i e'] [H1 H2]. cbn in *. apply yields_ret. cbn. split; [lia|done].
Qed.

Lemma cz_comment_ok z : s !! zi z = Some 35 -> room s b (ze z) (zi z) ->
  yields (cz_comment code_off fname (view (ze z) s) z) (fun z' => (zi z < zi z' <= length s)%nat /\ room s b (ze z') (zi z') /\ zpend z' = false).
Proof.
  intros Hc [Hf Hk]. pose proof (lookup_lt_Some _ _ _ Hc) as Hi. unfold cz_comment. cbv zeta.
  rewrite (view_drop s b _ (zi z)) by done. pose proof (view_length s b _ _ Hf ltac:(lia)) as Hlen.
  apply yields_rd; [lia|]. intros c1 _. apply (yields_bind _ _ (fun _ => True)).
  { destruct (_ && _ && _ && _); [apply yields_warn|by apply yields_ret]. }
  intros _ _. apply yields_ret. cbn. pose proof (run_of_le (fun c => negb (c =? 10)) (drop (zi z) s)) as Hr. rewrite length_drop in Hr.
  split; [|split; [|done]].
  - rewrite (drop_S s 35) in * by done. cbn [run_of] in *. change (negb (35 =? 10)) with true in *. cbv iota in *. lia.
  - split; [|done]. apply fits_run; [done|lia|done].
Qed.

Lemma next_ok nested z d i : (zi z <= length s)%nat -> room s b (ze z) (zi z) -> spare (zpend z) (ze z) (zi z) -> (i < zi z)%nat -> (i < length s)%nat ->
  (2 * (length s + 1 - i) <= fuel)%nat -> yields (call s (SkTokens nested z d)) (fun r => further s i r.1 /\ room s b r.2 r.1 /\ (nested = false -> r.1 = length s)).
Proof.
  intros Hz Hr Hs Hi Hn Hf. eapply yields_mono; [by apply (Hcall s b); [|unfold cost; cbn; lia]|].
  intros r [[H1 H2] H3]. split; [|done]. unfold further. cbn in *. lia.
Qed.

Lemma next_ok' nested z d i : (i < zi z <= length s)%nat -> room s b (ze z) (zi z) -> zpend z = false ->
  (2 * (length s + 1 - i) <= fuel)%nat -> yields (call s (SkTokens nested z d)) (fun r => further s i r.1 /\ room s b r.2 r.1 /\ (nested = false -> r.1 = length s)).
Proof.
  intros Hz Hr Hp Hf. apply next_ok; [lia|done| |lia|lia|done]. rewrite Hp. apply spare_false. apply Hr.
Qed.

Lemma cz_other_ok nested c z d : (zi z < length s)%nat -> s !! zi z = Some c -> room s b (ze z) (zi z) -> spare (zpend z) (ze z) (zi z) ->
  (2 * (length s + 1 - zi z) <= fuel)%nat -> yields (cz_other call s nested c z d) (fun r => further s (zi z) r.1 /\ room s b r.2 r.1 /\ (nested = false -> r.1 = length s)).
Proof.
  intros Hi Hc [Hfit Hkeep] Hs Hf. unfold cz_other. cbv zeta. pose proof (view_length s b _ _ Hfit ltac:(lia)) as Hlen.
  apply (yields_bind _ _ (fun _ => True)).
  { destruct (c =? 92); [|by apply yields_ret]. intros err. destruct (rd_ok (view (ze z) s) (zi z + 1)) as (x & -> & _); [lia|done]. }
  intros c1 _. assert (forall e, fits s b e (zi z) -> further s (zi z) (length s) /\ room s b (cz_copy e s (zi z) (length s)) (length s) /\ (nested = false -> length s = length s)) as Hbail.
  { intros e He. split; [unfold further; lia|]. split; [|done]. apply room_copy; [done|lia]. }
  destruct (_ && ztight z); [by apply yields_ret, Hbail|].
  set (e := if zpend z then cz_put (ze z) 32 else ze z). assert (fits s b e (zi z)) as Hfe by (by apply fits_pend).
  pose proof (view_length s b e _ Hfe ltac:(lia)) as Hle. set (m := view e s) in *.
  assert (m !! zi z = Some c) as Hmc by (unfold m; by rewrite (view_lookup s b _ (zi z))).
  eapply yields_bind.
  { apply cz_token_ok; [lia| | | | |done|done]; rewrite <- ?Hle in Hf.
    - apply (sk_quoted_ok call fuel Hcall); lia.
    - apply (sk_dollar_ok call fuel Hcall); lia.
    - intros j a b' depth Hj. apply (pos_ok call fuel Hcall m false); [cbn; lia|unfold cost; cbn; lia|lia|cbn; lia].
    - intros j Hj. apply (pos_ok call fuel Hcall m false); [done| |lia|cbn].
      + unfold cost. cbn. lia.
      + lia. }
  intros [i' z'|z'|i'|]; cbn [tok_ok]; unfold ahead; rewrite ?Hle.
  - intros [Ha Hp]. apply next_ok'; [cbn; lia|cbn; apply room_copy; [done|lia]|done|done].
  - intros [Ha Hp]. eapply yields_bind.
    { apply (Hcall s b); [cbn; split; [lia|apply room_copy; [done|lia]]|unfold cost; cbn; lia]. }
    intros [i' e'] [[H1 H2] [H3 _]]. cbn in *. apply next_ok'; [cbn; lia|done|done|done].
  - intros [Ha ->]. apply yields_ret. split; [unfold further; cbn; lia|]. split; [|done]. cbn; apply room_copy; [done|lia].
  - intros _. by apply yields_ret, Hbail.
Qed.

Lemma sk_tokens_ok nested z d : (zi z <= length s)%nat -> room s b (ze z) (zi z) -> spare (zpend z) (ze z) (zi z) ->
  (2 * (length s + 1 - zi z) <= fuel)%nat -> yields (sk_tokens code_off fname call s nested z d) (fun r => further s (zi z) r.1 /\ room s b r.2 r.1 /\ (nested = false -> r.1 = length s)).
Proof.
  intros Hi Hr Hs Hf. pose proof Hr as [Hfit Hkeep]. unfold sk_tokens. cbv zeta. destruct (decide _) as [Hend|Hn].
  { apply yields_ret. assert (zi z = length s) as E by lia. rewrite E in *. split; [unfold further; cbn; lia|]. by split. }
  pose proof (view_length s b _ _ Hfit Hi) as Hlen. apply yields_rd_in; [lia|]. intros c Hc. rewrite (view_lookup s b _ (zi z)) in Hc by done.
  destruct (cz_blank c) eqn:Hb.
  { apply next_ok; cbn; [lia|apply (skip_one _ _ c); [done|done|by intros ->]| |lia|lia|done].
    apply spare_le in Hs. destruct (ze z); [|done]. cbn in *. destruct (negb _); lia. }
  destruct (Z.eqb_spec c 10) as [->|H10].
  { eapply yields_bind; [by apply cz_newline_ok|]. intros z' (H1 & H2 & H3). by apply next_ok'. }
  destruct ((c =? 35) && zws z) eqn:Hh.
  { apply andb_true_iff in Hh as [->%Z.eqb_eq _]. eapply yields_bind; [by apply cz_comment_ok|]. intros z' (H1 & H2 & H3). by apply next_ok'. }
  apply cz_other_ok; [lia|done..].
Qed.
End Turns.

Section Compact.
Context `{FileSys}.
Context (code_off : nat) (fname : bytes).

Lemma skip_step_ok call fuel : call_ok call fuel -> call_ok (fun s k => skip_step code_off fname call s k) (S fuel).
Proof.
  intros Hcall s b k Hb Hc. unfold skip_step.
  assert (forall i m, yields m (further s i) -> yields (j ← m; mret (j, None)) (fun r : nat * option cz_out => further s i r.1 /\ True)) as Honly.
  { intros i m Hm. eapply yields_bind; [exact Hm|]. intros j Hj. by apply yields_ret. }
  assert (forall i k', before s b k' -> (cost s k' < fuel)%nat -> (place k').1 = i -> yields (call s k') (fun r => further s i r.1 /\ True)) as Hgo.
  { intros i k' H1 H2 <-. eapply yields_mono; [by apply (Hcall s b)|]. intros r [H3 _]. done. }
  destruct k as [i d|i d|stop dq i d|open close depth i d|open close depth i d|i d|e nested i d|nested z d]; unfold after; cbn [place fst before cost] in *; unfold cost in Hc; cbn in Hc.
  - destruct (too_deep d); [apply yields_ret; split; [unfold further; cbn; lia|done]|]. apply Hgo; [done|unfold cost; cbn; lia|done].
  - destruct (too_deep d); [apply yields_ret; split; [unfold further; cbn; lia|done]|]. apply Hgo; [done|unfold cost; cbn; lia|done].
  - apply Honly, (sk_until_ok call fuel Hcall). lia.
  - destruct (too_deep d); [apply yields_ret; split; [unfold further; cbn; lia|done]|]. apply Hgo; [done|unfold cost; cbn; lia|done].
  - apply Honly, (sk_pairs_ok call fuel Hcall). lia.
  - apply Honly, (sk_regex_ok call fuel Hcall). lia.
  - destruct Hb as [Hi Hr]. destruct (too_deep d).
    + apply yields_ret. cbn. split; [unfold further; cbn; lia|]. split; [|done]. apply room_copy; [apply Hr|lia].
    + eapply yields_mono; [apply (Hcall s b); [|unfold cost; cbn; lia]|by intros r].
      cbn. split; [done|]. split; [done|]. apply (spare_false s b), Hr.
  - destruct Hb as (Hi & Hr & Hs). apply (sk_tokens_ok code_off fname call fuel Hcall); [done..|lia].
Qed.

Lemma skip_from_ok fuel : call_ok (skip_from code_off fname fuel) fuel.
Proof.
  induction fuel as [|fuel IH]; [intros s b k _ Hc; lia|]. apply (skip_step_ok _ _ IH).
Qed.

(** What is left of a script: empty lines at its end are not. *)
Definition compacted (s r : bytes) : Prop :=
  (length r <= length s)%nat /\ Forall (fun x => x ∈ s \/ x ∈ [32; 10; 13]) r /\ exists k, lines_sub (inked r ++ replicate k 10) s.

Lemma all_newlines (l : bytes) : Forall (fun c => c = 10) l -> l = replicate (length l) 10.
Proof. induction 1 as [|c l -> Hl IH]; [done|]. cbn. by rewrite <- IH. Qed.

Lemma compact_ok s : yields (compact code_off fname s) (compacted s).
Proof.
  unfold compact, compacted. eapply yields_bind.
  { apply (skip_from_ok _ s true); [|unfold cost, cz_fuel; cbn; lia]. cbn. split; [lia|]. split; cbn; [|by split; [|constructor]].
    split; [done|]. split; [|lia]. split; [lia|]. split; [constructor|constructor]. }
  intros [i e] [[H1 H2] [[Hf Hk] Hend]]. cbn in *. specialize (Hend eq_refl). subst i. destruct e as [o|]; [|done].
  destruct Hf as (_ & (_ & H3 & H4) & H5), Hk as [H6 H7]. apply yields_ret. rewrite take_ge in H3 by lia.
  rewrite <- (take_drop (ckeep o) (co o)) in H3, H4. apply Forall_app in H4 as [H4 _]. rewrite inked_app in H3.
  split; [rewrite length_take; lia|]. split; [done|]. exists (length (drop (ckeep o) (co o))).
  rewrite (all_newlines _ H7), inked_newlines in H3. exact H3.
Qed.

(** C31. The compactor ends for every script, however deep it nests. It reads only
    what it is given, and writes only where it has read: what it leaves is no longer than the script, no
    byte of it is new but for a blank, a newline or a carriage return, and every
    line is where it was, so that the shell's line numbers hold. *)
Theorem compact_stays s : yields (compact code_off fname s) (compacted s).
Proof. apply compact_ok. Qed.
End Compact.
