(* ===== verification/Sh.v ===== *)
(** * Shell scripts (ctl/parser/shell.c)

    A script is stored compacted, if its shell is one the compactor follows; one
    that is left as a single exec line of plain words runs without the shell. *)

From S2P Require Import Prelude Ngraph Verify Build Link Visit Schedule Desc Layout Emit Argv Text Directives Lang Kept Service Compact.

(** The shells whose lexer the compactor follows. *)
Definition sh_lexed (argv0 : bytes) : bool :=
  bool_decide (str_base argv0 ∈ (bs <$> ["sh"; "bash"; "dash"; "ash"; "ksh"; "mksh"; "oksh"; "loksh"; "yash"; "posh"]%string)).

(** The characters of a word the shell passes through unchanged. *)
Definition plain_char (c : Z) : bool :=
  ((97 <=? c) && (c <=? 122)) || ((65 <=? c) && (c <=? 90)) || isdigit c || (c =? 95) || (c =? 46) || (c =? 47) || (c =? 58) || (c =? 44)
  || (c =? 61) || (c =? 43) || (c =? 37) || (c =? 64) || (c =? 45).

Fixpoint skip_byte (c : Z) (s : bytes) : bytes :=
  match s with
  | x :: s' => if x =? c then skip_byte c s' else s
  | [] => []
  end.

(** A word of the exec line may be an argument of execve, the first one its
    path or a name to be looked up. *)
Definition direct_word (direct : list bytes) (w : bytes) : bool :=
  let n := Z.of_nat (length w) in
  forallb plain_char w &&
  (if decide (direct = []) then
     negb (bool_decide (head w = Some 45)) && (n <=? NG_MAX_INTERP) && (bool_decide (head w = Some 47) || negb (bool_decide (47 ∈ w)))
   else n <=? NG_MAX_EXEC_ARG) &&
  negb (Z.of_nat (length direct) =? NG_MAX_EXEC_ARGS).

(** The words of an exec line, none where one is not plain. *)
Fixpoint direct_words (fuel : nat) (t : bytes) (direct : list bytes) : list bytes :=
  match fuel with
  | O => []
  | S fuel' =>
      let t := skip_byte 32 t in
      if decide (t = []) then direct else
      let n := run_of (fun c => negb (c =? 32)) t in
      if direct_word direct (take n t) then direct_words fuel' (drop n t) (direct ++ [take n t]) else []
  end.

Definition detect_direct (direct : list bytes) (body : bytes) : list bytes :=
  let p := skip_byte 10 body in
  if bool_decide (10 ∈ p) || negb (str_prefix p (bs "exec ")) then direct
  else direct_words (S (length p)) (drop 5 p) direct.

Section Shell.
Context `{FileSys}.
Context (g_sh_lexed : bool).

Definition shell_store (p : psrc) (body : bytes) (code_off : nat) : PM (psrc * bytes) :=
  if negb g_sh_lexed then mret (p, body) else
  script ← compact code_off (s_name (p_src p)) body;
  mret (set_src (fun s => set_direct (detect_direct (s_direct s) script) s) (set_stripped true p), script).

(** -n never runs the shopt that turns extglob on, so bash would refuse its patterns. *)
Definition shell_check_argv (p : psrc) : bytes * list bytes :=
  (NG_SHELL, [NG_SHELL_ARGV0] ++ (if decide (str_base NG_SHELL = bs "bash") then [bs "-O"; bs "extglob"] else []) ++ [bs "-n"]).

Definition lang_shell : lang := Lang (fun _ => false) shell_store None (fun _ => None) (bs "shell") shell_check_argv.

End Shell.

(** * What shell scripts keep (ctl/parser/shell.c)

    A compacted script is the text the interface promises, and what runs without
    the shell is the argv the shell would make of its only line. *)

(** ** What runs without the shell *)

Lemma skip_byte_spec c s : exists k, s = replicate k c ++ skip_byte c s /\ head (skip_byte c s) <> Some c.
Proof.
  induction s as [|x s [k [IH1 IH2]]]; cbn; [by exists O|]. destruct (Z.eqb_spec x c) as [->|Hx].
  - exists (S k). cbn. by rewrite <- IH1.
  - exists O. cbn. split; [done|]. by intros [= ->].
Qed.

Lemma split_into_skip t k : split_into false (replicate k 32 ++ t) [] = split_into false t [].
Proof. induction k as [|k IH]; [done|]. exact IH. Qed.

Lemma plain_no_blank c : plain_char c = true -> c <> 32 /\ c <> 9.
Proof. unfold plain_char, isdigit. intros Hc. split; intros ->; done. Qed.

Lemma plain_all w : forallb plain_char w = true -> 32 ∉ w /\ 9 ∉ w.
Proof. rewrite forallb_forall. intros Hw. split; intros Hin%list_elem_of_In; by apply Hw, plain_no_blank in Hin as [??]. Qed.

Lemma split_into_word w t acc : 32 ∉ w -> 9 ∉ w -> split_into false (w ++ t) acc = split_into false t (acc ++ w).
Proof.
  revert acc. induction w as [|c w IH]; intros acc; [by rewrite app_nil_r|]. intros [H1 Hw1]%not_elem_of_cons [H2 Hw2]%not_elem_of_cons.
  cbn [app split_into]. assert (is_sep false c = false) as -> by (unfold is_sep; lia). by rewrite IH, <- app_assoc.
Qed.

Lemma run_split f (t : bytes) : exists r, t = take (run_of f t) t ++ r /\ drop (run_of f t) t = r /\ forall c r', r = c :: r' -> f c = false.
Proof.
  exists (drop (run_of f t) t). split; [by rewrite take_drop|]. split; [done|]. induction t as [|x t IH]; cbn; [done|].
  destruct (f x) eqn:Hx; cbn; [exact IH|]. by intros c r' [= <- _].
Qed.

(** The next word of a line of words, and what follows it. *)
Lemma next_word (u : bytes) : head u <> Some 32 -> u <> [] -> 9 ∉ u -> exists w r,
  u = w ++ r /\ w <> [] /\ take (run_of (fun c => negb (c =? 32)) u) u = w /\ drop (run_of (fun c => negb (c =? 32)) u) u = r /\
  split_into false u [] = w :: split_into false r [].
Proof.
  intros Hh Hu H9. destruct (run_split (fun c => negb (c =? 32)) u) as (r & Hr1 & Hr2 & Hr3). set (w := take _ u) in *.
  assert (32 ∉ w) as Hw by (by intros Hx%run_of_all). exists w, r. rewrite Hr1 in H9. apply not_elem_of_app in H9 as [H9 _].
  assert (w <> []) as Hne.
  { destruct u as [|c u']; [done|]. unfold w. cbn. destruct (Z.eqb_spec c 32) as [->|]; [by destruct Hh|done]. }
  split_ands; try done. rewrite Hr1, split_into_word by done. cbn [app]. destruct r as [|c r']; cbn [split_into]; [by rewrite decide_False|].
  specialize (Hr3 c r' eq_refl). apply negb_false_iff, Z.eqb_eq in Hr3 as ->. cbn. by rewrite decide_False.
Qed.

(** The words of a line may be the argv. *)
Fixpoint direct_all (direct ws : list bytes) : bool :=
  match ws with
  | [] => true
  | w :: ws => direct_word direct w && direct_all (direct ++ [w]) ws
  end.

Lemma direct_words_line fuel t direct : (length t < fuel)%nat -> 9 ∉ t ->
  direct_words fuel t direct = if direct_all direct (split_into false t []) then direct ++ split_into false t [] else [].
Proof.
  revert t direct. induction fuel as [|fuel IH]; intros t direct Hf H9; [lia|]. cbn [direct_words]. cbv zeta.
  destruct (skip_byte_spec 32 t) as (k & Hk & Hh). set (u := skip_byte 32 t) in *.
  pose proof (f_equal (fun t => split_into false t []) Hk) as Es. cbv beta in Es. rewrite split_into_skip in Es. rewrite Es.
  destruct (decide (u = [])) as [->|Hu]; [cbn; by rewrite app_nil_r|]. rewrite Hk in H9. apply not_elem_of_app in H9 as [_ H9].
  destruct (next_word u Hh Hu H9) as (w & r & H1 & H2 & H3 & H4 & ->). rewrite H3, H4. cbn [direct_all].
  destruct (direct_word direct w); [|done]. cbn [andb]. rewrite IH, <- app_assoc; [done| |].
  - apply (f_equal length) in Hk, H1. rewrite length_app in Hk, H1. destruct w; [done|]. cbn in H1. lia.
  - rewrite H1 in H9. by apply not_elem_of_app in H9 as [_ ?].
Qed.

(** A tab is in no plain word. *)
Lemma direct_words_tab fuel t direct : (length t < fuel)%nat -> 9 ∈ t -> direct_words fuel t direct = [].
Proof.
  revert t direct. induction fuel as [|fuel IH]; intros t direct Hf H9; [lia|]. cbn [direct_words]. cbv zeta.
  destruct (skip_byte_spec 32 t) as (k & Hk & Hh). set (u := skip_byte 32 t) in *. rewrite Hk in H9.
  apply elem_of_app in H9 as [H9|H9]; [by apply elem_of_replicate in H9 as [? _]|].
  rewrite decide_False by (intros ->; by apply not_elem_of_nil in H9).
  destruct (run_split (fun c => negb (c =? 32)) u) as (r & Hr1 & Hr2 & Hr3). set (w := take _ u) in *. rewrite Hr2.
  destruct (direct_word direct w) eqn:Hw; [|done]. apply andb_true_iff in Hw as [[[_ Hp]%plain_all _]%andb_true_iff _].
  rewrite Hr1 in H9. apply elem_of_app in H9 as [H9|H9]; [done|]. apply IH; [|done].
  assert (w <> []) as Hwn.
  { destruct r as [|c r']; [by apply not_elem_of_nil in H9|]. intros Hw0. rewrite Hw0 in Hr1. cbn in Hr1. rewrite Hr1 in Hh. cbn in Hh.
    specialize (Hr3 c r' eq_refl). destruct (Z.eqb_spec c 32) as [->|]; [by apply Hh|done]. }
  apply (f_equal length) in Hk, Hr1. rewrite length_app in Hk, Hr1. destruct w; [done|]. cbn in Hr1. lia.
Qed.

(** The characters of the portable character set that no shell gives a meaning, within
    a word. *)
Definition unquoted : bytes := bs "abcdefghijklmnopqrstuvwxyzABCDEFGHIJKLMNOPQRSTUVWXYZ0123456789@%+=:,./_-".

Lemma plain_unquoted c : plain_char c = true <-> c ∈ unquoted.
Proof.
  assert (Forall (fun c => bool_decide (plain_char c = true <-> c ∈ unquoted) = true) (seqZ 0 128)) as Hall.
  { refine (bool_decide_unpack (Forall (fun c => bool_decide (plain_char c = true <-> c ∈ unquoted) = true) (seqZ 0 128)) _). vm_compute. exact I. }
  assert (Forall (fun c => 0 <= c < 128) unquoted) as Hr.
  { refine (bool_decide_unpack (Forall (fun c => 0 <= c < 128) unquoted) _). vm_compute. exact I. }
  rewrite Forall_forall in Hall, Hr. assert (forall x, 0 <= x < 128 -> plain_char x = true <-> x ∈ unquoted) as H.
  { intros x Hx. refine (proj1 (bool_decide_eq_true _) (Hall x _)). apply elem_of_seqZ. lia. }
  split; intros Hc; [apply H, Hc; unfold plain_char, isdigit in Hc; lia|by apply H, Hc; apply Hr].
Qed.

Lemma plain_words ws : Forall (fun w => forallb plain_char w = true) ws <-> Forall (fun w => Forall (fun c => c ∈ unquoted) w) ws.
Proof.
  apply Forall_iff. intros w. rewrite forallb_forall, Forall_forall. split; intros Hw c Hc.
  - by apply plain_unquoted, Hw, list_elem_of_In.
  - by apply plain_unquoted, Hw, list_elem_of_In.
Qed.

(** Words the kernel takes as they are: no more than it keeps, none too long, the
    first one no option of [exec] and a path or a name. *)
Definition plain_argv (ws : list bytes) : Prop :=
  Forall (fun w => Forall (fun c => c ∈ unquoted) w) ws /\ Z.of_nat (length ws) <= NG_MAX_EXEC_ARGS /\
  match ws with
  | [] => False
  | c :: rest => head c <> Some 45 /\ Z.of_nat (length c) <= NG_MAX_INTERP /\ (head c = Some 47 \/ 47 ∉ c) /\
      Forall (fun w => Z.of_nat (length w) <= NG_MAX_EXEC_ARG) rest
  end.

Lemma direct_all_rest direct ws : direct <> [] -> Z.of_nat (length direct) <= NG_MAX_EXEC_ARGS -> direct_all direct ws = true <->
  Forall (fun w => forallb plain_char w = true) ws /\ Forall (fun w => Z.of_nat (length w) <= NG_MAX_EXEC_ARG) ws /\
  (ws = [] \/ Z.of_nat (length direct + length ws) <= NG_MAX_EXEC_ARGS).
Proof.
  revert direct. induction ws as [|w ws IH]; intros direct Hd Hm; cbn [direct_all length]; [split; [intros _; repeat constructor|done]|].
  unfold direct_word. rewrite (decide_False (P := direct = [])) by done. cbv zeta. rewrite !andb_true_iff, Z.leb_le, negb_true_iff, Z.eqb_neq, !Forall_cons.
  destruct (decide (Z.of_nat (length direct) = NG_MAX_EXEC_ARGS)) as [E|E]; [split; [lia|intros (_ & _ & [?|?]); [done|lia]]|].
  rewrite IH by (rewrite ?length_app; cbn; first [lia|by destruct direct]). rewrite length_app. cbn [length].
  split; [intros ([[??]?] & ? & ? & [-> | ?]); split_ands; try done; right; cbn; lia|].
  intros ([??] & [??] & [?|?]); [done|]. split_ands; try done. destruct ws; [by left|right; cbn in *; lia].
Qed.

Lemma direct_all_argv ws : ws <> [] -> direct_all [] ws = true <-> plain_argv ws.
Proof.
  destruct ws as [|c ws]; [done|]. intros _. cbn [direct_all app]. unfold direct_word, plain_argv. rewrite <- plain_words, decide_True by done. cbv zeta.
  rewrite !andb_true_iff, Z.leb_le, direct_all_rest, negb_true_iff, bool_decide_eq_false, orb_true_iff, negb_true_iff, bool_decide_eq_true, bool_decide_eq_false, Forall_cons by done.
  cbn [length]. split.
  - intros ([[? [[??]?]] _] & ? & ? & Hl). split_ands; try done. destruct Hl as [-> |Hl]; [done|]. lia.
  - intros ([??] & ? & ? & ? & ? & ?). split_ands; try done. right. lia.
Qed.

(** C13. The script that runs without the shell is the one the shell would have done
    nothing with but run: one [exec] line, after empty ones, of plain words, in
    the bounds of the format. Such a script is stored as exactly the argv the
    shell would pass to execve, and every other one is left to the shell. *)
Theorem detect_direct_exact body ws : ws <> [] -> detect_direct [] body = ws <-> exists k t,
  body = replicate k 10 ++ bs "exec " ++ t /\ 10 ∉ t /\ 9 ∉ t /\ split_into false t [] = ws /\ plain_argv ws.
Proof.
  intros Hne. unfold detect_direct. cbv zeta. destruct (skip_byte_spec 10 body) as (k & Hk & Hh). set (p := skip_byte 10 body) in *. split.
  - destruct (bool_decide_reflect (10 ∈ p)) as [|Hn]; [intros <-; done|]. cbn [orb]. destruct (str_prefix p (bs "exec ")) eqn:He; [|intros <-; done].
    apply bool_decide_eq_true in He. cbn [negb]. assert (p = bs "exec " ++ drop 5 p) as Hp by (rewrite <- He; symmetry; apply take_drop).
    assert (length (drop 5 p) < S (length p))%nat as Hl by (rewrite length_drop; lia).
    destruct (decide (9 ∈ drop 5 p)) as [H9|H9]; [rewrite direct_words_tab by done; intros <-; done|].
    rewrite direct_words_line by done. destruct (direct_all [] _) eqn:Ha; [|intros <-; done]. cbn [app]. intros Hws. rewrite Hws in Ha.
    exists k, (drop 5 p). split; [by rewrite <- Hp|]. split; [intros Hin; apply Hn; rewrite Hp; apply elem_of_app; by right|].
    split; [done|]. split; [done|]. by apply direct_all_argv.
  - intros (k' & t & Hb & H10 & H9 & Hs & Hw). assert (p = bs "exec " ++ t) as Hp.
    { unfold p. rewrite Hb. clear. induction k' as [|k' IH]; [done|]. exact IH. }
    assert (10 ∉ p) as Hn by (rewrite Hp, not_elem_of_app; split; [by apply (bool_decide_unpack (10 ∉ bs "exec "))|done]).
    rewrite bool_decide_eq_false_2 by done. assert (str_prefix p (bs "exec ") = true) as -> by (rewrite Hp; by apply bool_decide_eq_true).
    cbn [orb negb]. rewrite Hp. change (drop 5 (bs "exec " ++ t)) with t. rewrite direct_words_line; [|rewrite length_app; lia|done].
    rewrite Hs. apply direct_all_argv in Hw as ->; done.
Qed.

Lemma detect_direct_exact_witness : let body := [10; 10] ++ bs "exec  /sbin/agetty tty1 -L=38400 " in
  detect_direct [] body = [bs "/sbin/agetty"; bs "tty1"; bs "-L=38400"] /\
  (detect_direct [] body = [bs "/sbin/agetty"; bs "tty1"; bs "-L=38400"] <-> exists k t,
    body = replicate k 10 ++ bs "exec " ++ t /\ 10 ∉ t /\ 9 ∉ t /\ split_into false t [] = [bs "/sbin/agetty"; bs "tty1"; bs "-L=38400"] /\
    plain_argv [bs "/sbin/agetty"; bs "tty1"; bs "-L=38400"]).
Proof. split; [vm_compute; reflexivity|apply detect_direct_exact; discriminate]. Defined.

Lemma plain_text w : forallb plain_char w = true -> text w.
Proof.
  rewrite forallb_forall. intros Hw. apply Forall_forall. intros x Hx%list_elem_of_In. specialize (Hw x Hx).
  unfold plain_char, isdigit in Hw. lia.
Qed.

Lemma direct_words_ok fuel t direct : direct_ok direct -> direct_ok (direct_words fuel t direct).
Proof.
  revert t direct. induction fuel as [|fuel IH]; intros t direct Hd; [done|]. cbn [direct_words]. cbv zeta. set (u := skip_byte 32 t).
  destruct (decide (u = [])); [done|]. destruct (run_split (fun c => negb (c =? 32)) u) as (r & _ & Hr2 & Hr3).
  destruct (direct_word _ _) eqn:Hw; [|done]. set (w := take _ u) in *. apply IH.
  apply andb_true_iff in Hw as [[Hp Hfirst]%andb_true_iff Hn%negb_true_iff]. apply Z.eqb_neq in Hn.
  assert (w <> []) as Hwn.
  { unfold w. destruct (skip_byte_spec 32 t) as (k & _ & Hh). fold u in Hh. destruct u as [|c u']; [done|]. cbn. destruct (Z.eqb_spec c 32) as [->|]; [by destruct Hh|done]. }
  pose proof (plain_text w Hp) as Ht. destruct direct as [|c rest].
  - rewrite decide_True in Hfirst by done. apply andb_true_iff in Hfirst as [[_ Hl]%andb_true_iff Hs].
    split; [|by split; [constructor|]]. split; [done|]. split; [done|]. split; [by apply Z.leb_le in Hl|].
    apply orb_true_iff in Hs as [Hs%bool_decide_eq_true|Hs%negb_true_iff%bool_decide_eq_false]; [by left|by right].
  - rewrite decide_False in Hfirst by done. destruct Hd as (H1 & H2 & H3). cbn. split; [done|]. split.
    + apply Forall_app. split; [done|]. constructor; [|done]. split; [done|]. split; [done|]. by apply Z.leb_le in Hfirst.
    + rewrite length_app. cbn in *. lia.
Qed.

Lemma detect_direct_ok direct body : direct_ok direct -> direct_ok (detect_direct direct body).
Proof. intros Hd. unfold detect_direct. cbv zeta. destruct (_ || _); [done|]. by apply direct_words_ok. Qed.

Section Shell.
Context `{FileSys}.

Lemma shell_store_ok lexed p body off : text body -> direct_ok (s_direct (p_src p)) -> yields (shell_store lexed p body off) (fun r =>
  text r.2 /\ compacted body r.2 /\ exists d b, r.1 = set_stripped b (set_src (set_direct d) p) /\ direct_ok d).
Proof.
  intros Ht Hd. unfold shell_store. destruct lexed; cbn [negb].
  - eapply yields_bind; [apply compact_ok|]. intros script Hs. apply yields_ret. cbn [fst snd]. split; [|split; [done|]].
    + destruct Hs as (_ & Hb & _). by eapply text_kept.
    + exists (detect_direct (s_direct (p_src p)) script), true. split; [done|by apply detect_direct_ok].
  - apply yields_ret. split; [done|]. split.
    + split; [done|]. split; [apply Forall_forall; intros x Hx; by left|]. exists 0%nat. rewrite app_nil_r. apply lines_inked.
    + exists (s_direct (p_src p)), (stripped p). split; [|done]. by destruct p as [[] ].
Qed.

#[export] Instance lang_shell_ok lexed : LangOk (lang_shell lexed).
Proof.
  split; [|done]. intros p body off Ht Ho Hd. eapply yields_mono; [by apply shell_store_ok|].
  intros r (H1 & (H2 & _ & k & H3) & H4). split; [done|]. split; [done|]. split; [|done].
  exists k, 0%nat. cbn [replicate]. rewrite app_nil_r. by split; [|left].
Qed.
End Shell.
