(* ===== verification/Parser.v ===== *)
(** * A whole service file (parse_src, with the languages of ctl/parser/)

    The parser as [ninitctl init] runs it, with the languages it knows, and what
    it promises of every file. *)

From S2P Require Import Prelude Ngraph Verify Argv Build Link Visit Schedule Desc Layout Emit Text Directives Lang Kept Service Lua Python Perl Compact Sh.

Section Parser.
Context `{F : FileSys}.

(** The languages [lang_select] asks in turn. *)
Definition langs : list lang := [lang_python; lang_lua; lang_perl].

(** [g_sh_lexed = sh_lexed(NG_SHELL_ARGV0)] *)
Definition parse_file (fname body : bytes) : PM psrc :=
  let g_sh_lexed := sh_lexed NG_SHELL_ARGV0 in
  parse_src g_sh_lexed (lang_shell g_sh_lexed) langs fname body.

Context `{!FileSysOk F}.

Lemma langs_ok : Forall LangOk langs.
Proof. repeat (constructor; [apply _|]). constructor. Qed.

Lemma parse_file_spec fname body : ng_name_problem fname = None -> text fname -> Forall is_byte body ->
  yields (parse_file fname body) (fun p => src_ok (p_src p) /\ s_name (p_src p) = fname /\
    forall sc, s_script (p_src p) = Some sc -> lines_stay body sc).
Proof.
  intros Hn Ht Hb. unfold parse_file. cbv zeta.
  apply parse_src_spec; [apply _|apply langs_ok|done..].
Qed.

End Parser.

(** C12. For every file, whatever is in it, the parser ends: with the message of
    what it refuses, or with a service whose fields are all within their types and
    the bounds of the format, under the name of the file, and with a script every
    line of which is where the file has it. The parser never reads past the end of
    the file, in any of its languages, and never writes over what it has not read. *)
Theorem parse_file_ok `{F : FileSys} `{!FileSysOk F} fname body : ng_name_problem fname = None -> text fname -> Forall is_byte body ->
  yields (parse_file fname body) (fun p => src_ok (p_src p) /\ s_name (p_src p) = fname /\
    forall sc, s_script (p_src p) = Some sc -> lines_stay body sc).
Proof. apply parse_file_spec. Qed.

(** ** A machine with one interpreter *)

(** [/usr/bin/python3] can be executed, and nothing else is there. *)
Definition one_python : FileSys := {|
  g_dir := bs "/etc/ninit";
  g_root := None;
  os_stat p := if decide (p = bs "/usr/bin/python3") then inl 33261 else inr 2;
  os_access p := if decide (p = bs "/usr/bin/python3") then None else Some 13;
  os_realpath d := if decide (d = bs "/usr/bin") then Some d else None;
  os_open_root _ _ := inr 2;
  os_fstat _ := inr 2;
  os_fd_link _ := [];
  fs_strerror _ := bs "No such file or directory";
|}.

#[export] Instance one_python_ok : FileSysOk one_python.
Proof.
  split; [|by left]. intros d r. cbn. destruct (decide _) as [->|]; [|done]. intros [= <-]. split; [done|].
  refine (bool_decide_unpack (Forall (fun c => 0 < c < 256) _) _). vm_compute. exact I.
Qed.

Definition greet : bytes := bs "#!/usr/bin/env -S python3 -u" ++ [10] ++ bs "#%type: daemon" ++ [10] ++ bs "#%depon: net, disk" ++ [10] ++
  bs "x = 1   # one" ++ [10] ++ [10] ++ bs "# done" ++ [10] ++ bs "print('# x')" ++ [10].

Lemma parse_file_ok_witness :
  match parse_file (F := one_python) (bs "greet") greet [] with
  | Parsed p err => err = [] /\ s_type (p_src p) = NG_TYPE_DAEMON /\ s_depon (p_src p) = [bs "net"; bs "disk"] /\
      s_exec_pre (p_src p) <> [] /\ s_script (p_src p) = Some ([10; 10; 10] ++ bs "x = 1" ++ [10; 10; 10] ++ bs "print('# x')" ++ [10])
  | _ => False
  end /\
  yields (parse_file (F := one_python) (bs "greet") greet) (fun p => src_ok (p_src p) /\ s_name (p_src p) = bs "greet" /\
    forall sc, s_script (p_src p) = Some sc -> lines_stay greet sc).
Proof.
  split; [vm_compute; repeat split; discriminate|]. apply (parse_file_ok (F := one_python)).
  - reflexivity.
  - refine (bool_decide_unpack (Forall (fun c => 0 < c < 256) _) _). vm_compute. exact I.
  - refine (bool_decide_unpack (Forall (fun c => 0 <= c < 256) _) _). vm_compute. exact I.
Defined.
