(* ===== verification/Sources.v ===== *)
(** * The directory of services (ctl/sources.c, [graph_image] of ctl/output.c)

    Every regular file of the directory is a service, but for compiled graphs
    and the output itself; each is parsed, and what was read is hashed. The last
    section is [ninitctl init] as a whole, from the directory to the image. *)

From stdpp Require Import sorting.
From S2P Require Import Prelude Ngraph Verify Argv Build Link Visit Schedule Compiler Desc Layout Emit Built Text Directives Lang Kept Service Parser.

Definition NG_MAX_SRC : Z := NG_MAX_SCRIPT + 4096.

(** An entry of the directory: its name, the results of stat and open, and what
    is read from it. It does not change while [ninitctl] runs. *)
Record entry := Entry { d_name : bytes; d_stat : Z + Z; d_size : Z; d_open : option Z; d_data : bytes }.

Definition keep (d : entry) : bool := negb (bool_decide (head (d_name d) = Some 46)).

(** strcmp gives an order. *)
Definition name_le (a b : entry) : Prop := strcmp (d_name a) (d_name b) <> Gt.

#[export] Instance name_le_dec a b : Decision (name_le a b).
Proof. unfold name_le. solve_decision. Defined.

(** [scandir(dir, &ents, keep, cmp_dirent)] *)
Definition scandir (l : list entry) : list entry := merge_sort name_le (filter (fun d => keep d = true) l).

Definition is_artifact (name : bytes) (base : option bytes) : bool :=
  match base with
  | None => false
  | Some b => str_prefix name b && (let r := drop (length b) name in bool_decide (r = []) || bool_decide (r = bs ".old") || bool_decide (r = bs ".tmp"))
  end.

Definition is_graph (data : bytes) (len : Z) : bool :=
  match rd32 data 0, rd32 data 12 with
  | VOk m, VOk t => (SIZEOF_HDR <=? Z.of_nat (length data)) && (m =? NG_MAGIC) && (t =? len)
  | _, _ => false
  end.

Definition graph_image (d : entry) : bool :=
  bool_decide (d_open d = None) && (SIZEOF_HDR <=? d_size d) && is_graph (d_data d) (u32 (d_size d)).

Definition is_dir (mode : Z) : bool := Z.land mode 61440 =? 16384.

(** FNV-1a *)
Definition fnv (h c : Z) : Z := u64 (Z.lxor h c * 1099511628211).

Section Sources.
Context `{F : FileSys}.
Context (out_base : option bytes).

(** What has been read: the services, the hash and the mode of the output. *)
Record sources := Sources { b_srcs : list psrc; b_hash : Z; b_out_mode : Z }.

Definition slurp (d : entry) (path : bytes) : PM bytes :=
  match d_open d with
  | Some e => die (bs "open " ++ path ++ bs ": " ++ fs_strerror e)
  | None =>
      die_when (NG_MAX_SRC <? d_size d) (path ++ bs ": is " ++ dec (d_size d) ++ bs " bytes, the maximum is " ++ dec NG_MAX_SRC);;
      mret (take (Z.to_nat (d_size d)) (d_data d))
  end.

Definition clear (mode : Z) (bits : Z) : Z := Z.land mode (4095 - bits).

Definition read_source (b : sources) (d : entry) : PM sources :=
  let name := d_name d in
  let path := g_dir ++ bs "/" ++ name in
  die_when (bool_decide (4096 <= length path)%nat) (path ++ bs ": path is too long");;
  match d_stat d with
  | inr e => die (bs "stat " ++ path ++ bs ": " ++ fs_strerror e)
  | inl mode =>
      let is_out := is_artifact name out_base in
      if is_out || ng_reserved_name name then
        if negb (is_reg mode) || negb (graph_image d) then
          die_when (is_out && negb (bool_decide (drop (length (default [] out_base)) name = bs ".tmp")))
            (path ++ bs ": the output would replace this, and it is not a depgraph");;
          (if negb (is_dir mode) then warn (bs "ninitctl: warning: " ++ path ++ bs " has a reserved name, skipping it") else mret tt);;
          mret b
        else mret b
      else if negb (is_reg mode) then mret b else
      match ng_name_problem name with
      | Some why => die (path ++ bs ": filename " ++ bs why)
      | None =>
          let m := b_out_mode b in
          let m := if Z.land mode 32 =? 0 then clear m 48 else m in
          let m := if Z.land mode 4 =? 0 then clear m 6 else m in
          let skip := warn (bs "ninitctl: warning: " ++ path ++ bs " is a compiled depgraph, skipping it");; mret (Sources (b_srcs b) (b_hash b) m) in
          if (NG_MAX_SRC <? d_size d) && graph_image d then skip else
          buf ← slurp d path;
          if is_graph buf (Z.of_nat (length buf)) then skip else
          let hash := foldl fnv (b_hash b) (name ++ [0] ++ buf ++ [0]) in
          p ← parse_file name buf;
          mret (Sources (b_srcs b ++ [p]) hash m)
      end
  end.

Fixpoint read_each (b : sources) (l : list entry) : PM sources :=
  match l with
  | [] => mret b
  | d :: l => b ← read_source b d; read_each b l
  end.

Definition read_sources (ents : list entry + Z) : PM sources :=
  match ents with
  | inr e => die (bs "scandir " ++ g_dir ++ bs ": " ++ fs_strerror e)
  | inl l =>
      let l := scandir l in
      die_when (NG_MAX_SVC + 4 <? Z.of_nat (length l))
        (dec (Z.of_nat (length l)) ++ bs " entries in " ++ g_dir ++ bs ", the maximum is " ++ dec NG_MAX_SVC);;
      b ← read_each (Sources [] 14695981039346656037 420) l;
      let n := Z.of_nat (length (b_srcs b)) in
      die_when (n =? 0) (bs "no services in " ++ g_dir);;
      die_when (NG_MAX_SVC <? n) (dec n ++ bs " services in " ++ g_dir ++ bs ", the maximum is " ++ dec NG_MAX_SVC);;
      mret b
  end.

(** [ninitctl init] without the syntax checks, up to the writing of the image. *)
Definition init (addr : Z) (ents : list entry + Z) : PM (sources * built (bytes * nat)) :=
  b ← read_sources ents;
  mret (b, build_image true addr (p_src <$> b_srcs b) (b_hash b)).

(** ** What it reads *)

Context `{!FileSysOk F}.

(** A directory has each name once; names and files are bytes. *)
Record dir_ok (l : list entry) : Prop := DirOk {
  dir_names : NoDup (d_name <$> l);
  dir_bytes : Forall (fun d => Forall is_byte (d_name d) /\ Forall is_byte (d_data d)) l;
}.

(** [p] is one of the files, by its name and its script. *)
Definition from_file (l : list entry) (s : src) : Prop := exists d, d ∈ l /\ s_name s = d_name d /\
  forall sc, s_script s = Some sc -> lines_stay (take (Z.to_nat (d_size d)) (d_data d)) sc.

(** What has been read after the entries [done]. *)
Record read_ok (done : list entry) (b : sources) : Prop := ReadOk {
  ro_srcs : Forall (fun p => src_ok (p_src p)) (b_srcs b);
  ro_names : sublist ((fun p => s_name (p_src p)) <$> b_srcs b) (d_name <$> done);
  ro_hash : 0 <= b_hash b < 2 ^ 64;
  ro_files : Forall (fun p => from_file done (p_src p)) (b_srcs b);
}.

Lemma name_text name : Forall is_byte name -> ng_name_problem name = None -> text name.
Proof.
  intros Hb Hn. assert (name_chars name = None) as Hc.
  { unfold ng_name_problem in Hn. repeat (destruct (_ : bool) in Hn; [done|]). exact Hn. }
  clear Hn. induction Hb as [|c name Hc' Hb IH]; [constructor|]. cbn in Hc. destruct (c =? 47); [done|]. destruct (c =? 44); [done|].
  destruct ((c <=? 32) || (c =? 127)) eqn:He; [done|]. constructor; [unfold is_byte in Hc'; lia|by apply IH].
Qed.

Lemma fnv_range l h : 0 <= h < 2 ^ 64 -> 0 <= foldl fnv h l < 2 ^ 64.
Proof.
  revert h. induction l as [|c l IH]; intros h Hh; [done|]. apply IH. unfold fnv, u64. apply Z.mod_pos_bound. done.
Qed.

Lemma files_more done d l : Forall (fun p => from_file done (p_src p)) l -> Forall (fun p => from_file (done ++ [d]) (p_src p)) l.
Proof. intros Hl. eapply Forall_impl; [exact Hl|]. intros p (d' & H1 & H2). exists d'. split; [|done]. apply elem_of_app. by left. Qed.

(** An entry that is no service. *)
Lemma read_skip done d b m : read_ok done b -> read_ok (done ++ [d]) (Sources (b_srcs b) (b_hash b) m).
Proof.
  intros []. constructor; cbn; [done| |done|by apply files_more]. rewrite fmap_app. by apply sublist_inserts_r.
Qed.

Lemma read_skip' done d b : read_ok done b -> read_ok (done ++ [d]) b.
Proof. destruct b as [srcs h m]. apply (read_skip done d (Sources srcs h m) m). Qed.

Lemma read_source_ok done d b : read_ok done b -> Forall is_byte (d_name d) -> Forall is_byte (d_data d) ->
  yields (read_source b d) (read_ok (done ++ [d])).
Proof.
  intros Hb Hbn Hbd. unfold read_source. cbv zeta. apply yields_when; intros _. destruct (d_stat d) as [mode|er]; [|apply yields_die].
  apply yields_if; intros _.
  { apply yields_if; intros _; [|by apply yields_ret, read_skip']. apply yields_when; intros _. apply (yields_bind _ _ (fun _ => True)).
    - destruct (negb _); [apply yields_warn|by apply yields_ret].
    - intros _ _. by apply yields_ret, read_skip'. }
  apply yields_if; intros _; [by apply yields_ret, read_skip'|]. destruct (ng_name_problem (d_name d)) as [why|] eqn:Hname; [apply yields_die|].
  set (m := if Z.land mode 4 =? 0 then _ else _). clearbody m.
  assert (forall w, yields (warn w;; mret (Sources (b_srcs b) (b_hash b) m)) (read_ok (done ++ [d]))) as Hskip.
  { intros w. eapply yields_bind; [apply yields_warn|]. intros _ _. by apply yields_ret, read_skip. }
  apply yields_if; intros _; [apply Hskip|].
  apply (yields_bind _ _ (fun buf => buf = take (Z.to_nat (d_size d)) (d_data d))).
  { unfold slurp. destruct (d_open d); [apply yields_die|]. apply yields_when; intros _. by apply yields_ret. }
  intros buf ->. apply yields_if; intros _; [apply Hskip|].
  eapply yields_bind; [apply (parse_file_spec (d_name d)); [done|by apply name_text|by apply Forall_take]|].
  intros p (H1 & H2 & H3). apply yields_ret. destruct Hb. constructor; cbn.
  - apply Forall_app. split; [done|by constructor].
  - rewrite !fmap_app. cbn. rewrite H2. by apply sublist_app.
  - by apply fnv_range.
  - apply Forall_app. split; [by apply files_more|]. constructor; [|constructor]. exists d. split; [|done]. apply elem_of_app. right. by left.
Qed.

Lemma read_each_ok l done b : read_ok done b -> Forall (fun d => Forall is_byte (d_name d) /\ Forall is_byte (d_data d)) l ->
  yields (read_each b l) (read_ok (done ++ l)).
Proof.
  revert done b. induction l as [|d l IH]; intros done b Hb Hl; cbn [read_each]; [rewrite app_nil_r; by apply yields_ret|].
  apply Forall_cons in Hl as [[Hn Hd] Hl]. eapply yields_bind; [by apply read_source_ok|]. intros b' Hb'.
  change (d :: l) with ([d] ++ l). rewrite app_assoc. by apply IH.
Qed.

Lemma scandir_in l d : d ∈ scandir l -> d ∈ l.
Proof. unfold scandir. rewrite merge_sort_Permutation. by intros [_ ?]%list_elem_of_filter. Qed.

(** No two services have one name. *)
Lemma read_names l b : dir_ok l -> read_ok (scandir l) b -> NoDup (s_name <$> (p_src <$> b_srcs b)).
Proof.
  intros Hl []. rewrite <- list_fmap_compose. eapply sublist_NoDup; [|exact ro_names0]. unfold scandir. rewrite merge_sort_Permutation.
  eapply sublist_NoDup; [|apply fmap_sublist, sublist_filter]. apply Hl.
Qed.

Lemma read_sources_ok l : dir_ok l -> yields (read_sources (inl l)) (fun b =>
  read_ok (scandir l) b /\ b_srcs b <> [] /\ Z.of_nat (length (b_srcs b)) <= NG_MAX_SVC).
Proof.
  intros [Hn Hb]. unfold read_sources. cbv zeta. apply yields_when; intros _.
  eapply yields_bind; [apply (read_each_ok _ [])|].
  - constructor; cbn; [constructor|constructor|lia|constructor].
  - apply Forall_forall. intros d Hd%scandir_in. rewrite Forall_forall in Hb. by apply Hb.
  - intros b Hr. apply yields_when; intros H0. apply yields_when; intros Hl. apply yields_ret. split; [done|]. split; [by intros E; rewrite E in H0|lia].
Qed.

(** What the compiled services are made from, and what they become. *)
Definition init_result (l : list entry) (r : sources * built (bytes * nat)) : Prop :=
  let srcs := p_src <$> b_srcs r.1 in
  Forall (from_file l) srcs /\
  match r.2 with
  | Built (img, _) => (forall addr, Z.land addr 7 = 0 -> ng_verify true addr img = VOk tt) /\
      exists gr order, decode img = VOk gr /\ graph_of srcs order gr
  | Die d => truthful srcs d
  | OutOfBounds | Unfinished => False
  end.

End Sources.

(** A directory with a target, a script that is only an exec line, a Python script
    that needs both, a hidden file and a directory. *)
Definition a_file (name data : bytes) : entry := Entry name (inl 33188) (Z.of_nat (length data)) None data.

Definition a_directory : list entry := [
  a_file (bs "net") (bs "#%depon: disk" ++ [10]);
  a_file (bs ".swp") [1; 2; 3];
  a_file (bs "greet") greet;
  Entry (bs "conf") (inl 16877) 4096 (Some 21) [];
  a_file (bs "disk") (bs "#!/bin/sh" ++ [10] ++ bs "# mount them" ++ [10] ++ bs "exec  /bin/mount -a" ++ [10])].

(** What came of it: the names in the order of the table, and how the image ends. *)
Definition shown (r : parsed (sources * built (bytes * nat))) : option (list bytes * list (list bytes) * option Z) :=
  match r with
  | Parsed (b, out) [] => Some ((fun p => s_name (p_src p)) <$> b_srcs b, (fun p => s_direct (p_src p)) <$> b_srcs b,
      match out with Built (img, _) => Some (Z.of_nat (length img)) | _ => None end)
  | _ => None
  end.

