(* ===== verification/Replace.v ===== *)
(** * Replacing the graph file (ctl/output.c)

    [write_atomic] on a file system of directory entries and inodes, where each
    call may fail and the power may be lost between any two: what is then on the
    disk is one of the directories since the last time it was synchronised, and of
    each file its bytes if they were, and anything if they were not. *)

From stdpp Require Import gmap.
From S2P Require Import Prelude Ngraph Verify Ring Log Console World Sys Emerg Demo Build Desc Emit Built Sample.

(** ** The file system *)

Record inode := Inode { i_data : bytes; i_mode : Z; i_synced : bool }.

Notation dirs := (gmap bytes nat).

(** What a loss of power finds. *)
Record snap := Snap { sn_dirs : list dirs; sn_ino : gmap nat inode }.

(** How a call ends: as asked, for [write] with fewer bytes, or with an errno. *)
Inductive sysr := Good | Short (k : nat) | Bad (errno : Z).

(** [d_past] are the directories since it was synchronised, the present one first;
    [d_calls] is how the calls to come end, and those after them succeed; [d_seen]
    is every moment so far. *)
Record disk := Disk {
  d_dir : dirs; d_past : list dirs; d_ino : gmap nat inode; d_calls : list sysr; d_seen : list snap;
}.

Definition now (d : disk) : snap := Snap (d_past d) (d_ino d).

(** What can be on the disk when the power comes back. *)
Definition after_crash (s : snap) (dir : dirs) (data : nat -> option bytes) : Prop :=
  dir ∈ sn_dirs s /\ forall i n, sn_ino s !! i = Some n -> i_synced n = true -> data i = Some (i_data n).

Definition file_at (dir : dirs) (data : nat -> option bytes) (p : bytes) : option bytes := i ← dir !! p; data i.

(** ** Programs that change it *)

Inductive outc (A : Type) : Type :=
  | Did (a : A) (d : disk)
  | Died (msg : bytes) (d : disk)
  | Stuck.
Arguments Did {A} a d.
Arguments Died {A} msg d.
Arguments Stuck {A}.

Definition FM (A : Type) : Type := disk -> outc A.

#[export] Instance FM_ret : MRet FM := fun A a d => Did a d.
#[export] Instance FM_bind : MBind FM := fun A B f m d =>
  match m d with Did a d' => f a d' | Died msg d' => Died msg d' | Stuck => Stuck end.

Definition fdie {A} (msg : bytes) : FM A := fun d => Died msg d.
Definition fdie_when (b : bool) (msg : bytes) : FM unit := if b then fdie msg else mret tt.

(** The next result. *)
Definition next : FM sysr := fun d =>
  match d_calls d with
  | [] => Did Good d
  | r :: l => Did r (Disk (d_dir d) (d_past d) (d_ino d) l (d_seen d))
  end.

Definition note (d : disk) : disk := Disk (d_dir d) (d_past d) (d_ino d) (d_calls d) (now d :: d_seen d).

Definition put_dir (dir : dirs) : FM unit := fun d => Did tt (note (Disk dir (dir :: d_past d) (d_ino d) (d_calls d) (d_seen d))).
Definition put_ino (f : gmap nat inode -> gmap nat inode) : FM unit := fun d =>
  Did tt (note (Disk (d_dir d) (d_past d) (f (d_ino d)) (d_calls d) (d_seen d))).
Definition get_disk : FM disk := fun d => Did d d.

(** *** System calls: [None], or errno *)

Definition plain_call : FM (option Z) := r ← next; mret (match r with Bad e => Some e | _ => None end).

(** [mkostemp], for the name it settles on; the file is for its owner alone. *)
Definition mkostemp (p : bytes) : FM (nat + Z) :=
  r ← next; d ← get_disk;
  match r, d_dir d !! p with
  | Bad e, _ => mret (inr e)
  | _, Some _ => mret (inr EEXIST)
  | _, None =>
      let i := fresh (dom (d_ino d)) in
      put_ino (fun m => <[i := Inode [] 384 false]> m);;
      put_dir (<[p := i]> (d_dir d));;
      mret (inl i)
  end.

Definition fchmod (i : nat) (mode : Z) : FM (option Z) :=
  e ← plain_call;
  match e with
  | Some _ => mret e
  | None => put_ino (alter (fun n => Inode (i_data n) mode (i_synced n)) i);; mret None
  end.

(** The bytes written, or errno. *)
Definition sys_write (i : nat) (b : bytes) : FM (nat + Z) :=
  r ← next;
  let done_ k := put_ino (alter (fun n => Inode (i_data n ++ take k b) (i_mode n) false) i);; mret (inl (Nat.min k (length b))) in
  match r with
  | Good => done_ (length b)
  | Short k => done_ k
  | Bad e => mret (inr e)
  end.

Definition fsync_file (i : nat) : FM (option Z) :=
  e ← plain_call;
  match e with
  | Some _ => mret e
  | None => put_ino (alter (fun n => Inode (i_data n) (i_mode n) true) i);; mret None
  end.

Definition settle_dir : FM unit := fun d => Did tt (note (Disk (d_dir d) [d_dir d] (d_ino d) (d_calls d) (d_seen d))).

Definition fsync_dir : FM (option Z) :=
  e ← plain_call;
  match e with
  | Some _ => mret e
  | None => settle_dir;; mret None
  end.

Definition link_ (a b : bytes) : FM (option Z) :=
  e ← plain_call; d ← get_disk;
  match e, d_dir d !! a, d_dir d !! b with
  | Some _, _, _ => mret e
  | _, None, _ => mret (Some ENOENT)
  | _, _, Some _ => mret (Some EEXIST)
  | _, Some i, None => put_dir (<[b := i]> (d_dir d));; mret None
  end.

(** Two names of one file are left as they are. *)
Definition rename_ (a b : bytes) : FM (option Z) :=
  e ← plain_call; d ← get_disk;
  match e, d_dir d !! a with
  | Some _, _ => mret e
  | _, None => mret (Some ENOENT)
  | _, Some i =>
      if decide (d_dir d !! b = Some i) then mret None else
      put_dir (delete a (<[b := i]> (d_dir d)));; mret None
  end.

Definition unlink_ (a : bytes) : FM unit :=
  e ← plain_call; d ← get_disk;
  match e with Some _ => mret tt | None => put_dir (delete a (d_dir d)) end.

(** ** [write_atomic] *)

(** What is before the last slash, and after it. *)
Fixpoint split_slash (s : bytes) : option (bytes * bytes) :=
  match s with
  | [] => None
  | c :: s' => match split_slash s' with
               | Some (a, b) => Some (c :: a, b)
               | None => if c =? 47 then Some ([], s') else None
               end
  end.

Definition dir_of (path : bytes) : bytes := match split_slash path with Some ([], _) => [47] | Some (p, _) => p | None => [46] end.
Definition base_of (path : bytes) : bytes := match split_slash path with Some (_, b) => b | None => path end.

Section Replace.
Context (strerror : Z -> bytes).

Definition lock_dir (path : bytes) : FM unit :=
  e ← plain_call;
  match e with Some e => fdie (bs "open " ++ path ++ bs ": " ++ strerror e) | None => mret tt end;;
  e ← plain_call;
  match e with Some e => fdie (bs "lock " ++ path ++ bs ": " ++ strerror e) | None => mret tt end.

(** Each turn writes a byte or more, or takes a result. *)
Fixpoint write_turns (fuel : nat) (i : nat) (b : bytes) : FM (option Z) :=
  match fuel with
  | O => fun _ => Stuck
  | S fuel' =>
      if decide (b = []) then mret None else
      r ← sys_write i b;
      match r with
      | inl O => mret (Some 0)
      | inl k => write_turns fuel' i (drop k b)
      | inr e => if e =? EINTR then write_turns fuel' i b else mret (Some e)
      end
  end.

Definition write_all (i : nat) (b : bytes) : FM (option Z) :=
  d ← get_disk; write_turns (S (length b + length (d_calls d))) i b.

(** Before the message the file is removed. *)
Definition or_die (e : option Z) (tmp : bytes) (what : bytes) : FM unit :=
  match e with Some e => unlink_ tmp;; fdie (what ++ bs ": " ++ strerror e) | None => mret tt end.

(** [sfx] is what [mkostemp] puts for XXXXXX, [held] whether the directory is the
    one this process has locked. *)
Definition tmp_of (path sfx : bytes) : bytes := dir_of path ++ bs "/." ++ base_of path ++ bs "." ++ sfx.

Definition write_atomic (path buf : bytes) (mode um : Z) (held : bool) (sfx : bytes) : FM unit :=
  let too_long := bs "output path is too long: " ++ path in
  fdie_when (4104 <=? Z.of_nat (length path)) too_long;;
  let tmp := tmp_of path sfx in
  let old := path ++ bs ".old" in
  fdie_when ((8224 <=? Z.of_nat (length (dir_of path ++ bs "/." ++ base_of path ++ bs ".XXXXXX"))) || (4104 <=? Z.of_nat (length old))) too_long;;
  (if held then mret tt else lock_dir (dir_of path));;
  fd ← mkostemp tmp;
  match fd with
  | inr e => fdie (bs "mkstemp " ++ tmp ++ bs ": " ++ strerror e)
  | inl fd =>
      e ← fchmod fd (Z.land mode (4095 - um)); or_die e tmp (bs "fchmod " ++ tmp);;
      e ← write_all fd buf; or_die e tmp (bs "write " ++ tmp);;
      e ← fsync_file fd; or_die e tmp (bs "fsync " ++ tmp);;
      let keep := tmp ++ bs ".old" in
      e ← link_ path keep;
      match e with
      | None =>
          e ← rename_ keep old;
          match e with
          | Some e => unlink_ keep;; unlink_ tmp;; fdie (bs "rename " ++ keep ++ bs " -> " ++ old ++ bs ": " ++ strerror e)
          | None => mret tt
          end
      | Some e =>
          if negb (e =? ENOENT) then unlink_ tmp;; fdie (bs "link " ++ path ++ bs " -> " ++ keep ++ bs ": " ++ strerror e) else mret tt
      end;;
      e ← rename_ tmp path; or_die e tmp (bs "rename " ++ tmp ++ bs " -> " ++ path);;
      e ← fsync_dir;
      match e with
      | Some e => fdie (path ++ bs ": written, but fsync " ++ dir_of path ++ bs " failed: " ++ strerror e)
      | None => mret tt
      end
  end.

End Replace.

(** ** Reasoning about them *)

Definition sat {A} (m : FM A) (d : disk) (Q : A -> disk -> Prop) (E : disk -> Prop) : Prop :=
  match m d with Did a d' => Q a d' | Died _ d' => E d' | Stuck => False end.

Lemma sat_bind {A B} (m : FM A) (f : A -> FM B) d Q E R : sat m d R E -> (forall a d', R a d' -> sat (f a) d' Q E) -> sat (m ≫= f) d Q E.
Proof. unfold sat, mbind, FM_bind. intros H1 H2. destruct (m d); [by apply H2|done|done]. Qed.

Lemma sat_mono {A} (m : FM A) d (Q R : A -> disk -> Prop) E : sat m d R E -> (forall a d', R a d' -> Q a d') -> sat m d Q E.
Proof. unfold sat. intros H1 H2. destruct (m d); [by apply H2|done|done]. Qed.

Lemma sat_ret {A} (a : A) d (Q : A -> disk -> Prop) E : Q a d -> sat (mret a) d Q E.
Proof. done. Qed.

Lemma split_slash_length s a b : split_slash s = Some (a, b) -> length s = (length a + 1 + length b)%nat.
Proof.
  revert a b. induction s as [|c s IH]; intros a b; [done|]. cbn. destruct (split_slash s) as [[x y]|].
  - intros [= <- <-]. cbn. rewrite (IH x y) by done. lia.
  - destruct (c =? 47); [|done]. intros [= <- <-]. done.
Qed.

Lemma tmp_longer path sfx : length sfx = 6%nat -> (length path + 4 < length (tmp_of path sfx))%nat.
Proof.
  intros Hs. unfold tmp_of. rewrite !length_app. change (length (bs "/.")) with 2%nat. change (length (bs ".")) with 1%nat. rewrite Hs.
  unfold dir_of, base_of. destruct (split_slash path) as [[[|c a] b]|] eqn:He; [apply split_slash_length in He; cbn in *; lia..|cbn; lia].
Qed.

Section Safe.
Context (strerror : Z -> bytes) (path buf sfx : bytes) (perm : Z) (d0 : disk).
Context (Hsfx : length sfx = 6%nat).

Notation tmp := (tmp_of path sfx).
Notation old := (path ++ bs ".old").
Notation spare := (tmp ++ bs ".old").

Lemma names_differ : path <> old /\ path <> tmp /\ path <> spare /\ old <> tmp /\ old <> spare /\ tmp <> spare.
Proof.
  pose proof (tmp_longer path sfx Hsfx) as Ht.
  split_ands; intros E%(f_equal length); rewrite ?length_app in E; change (length (bs ".old")) with 4%nat in E; lia.
Qed.

(** The new file, whole and on the disk. *)
Definition whole (ino : gmap nat inode) (i : nat) : Prop := ino !! i = Some (Inode buf perm true).

(** A directory that a loss of power may leave. *)
Record okdir (ino : gmap nat inode) (dir : dirs) : Prop := OkDir {
  od_path : dir !! path = d_dir d0 !! path \/ exists i, dir !! path = Some i /\ whole ino i;
  od_old : dir !! old = d_dir d0 !! old \/ (dir !! old = d_dir d0 !! path /\ is_Some (d_dir d0 !! path));
  od_other : forall p, p <> path -> p <> old -> p <> tmp -> p <> spare -> dir !! p = d_dir d0 !! p;
}.

Definition snap_ok (s : snap) : Prop := (forall dir, dir ∈ sn_dirs s -> okdir (sn_ino s) dir) /\ d_ino d0 ⊆ sn_ino s.

Record inv (d : disk) : Prop := Inv {
  in_seen : Forall snap_ok (d_seen d);
  in_now : snap_ok (now d);
  in_dir : d_dir d ∈ d_past d;
  in_calls : Forall (fun r => r <> Bad ENOENT) (d_calls d);
}.

(** The file [i] is being made: nothing but its own name leads to it. *)
Record making (i : nat) (n : inode) (d : disk) : Prop := Making {
  mk_inv : inv d;
  mk_new : d_ino d0 !! i = None;
  mk_quiet : forall dir, dir ∈ d_past d -> dir !! path = d_dir d0 !! path;
  mk_dir : d_dir d = <[tmp := i]> (d_dir d0);
  mk_ino : d_ino d !! i = Some n;
}.

Lemma inv_dir d : inv d -> okdir (d_ino d) (d_dir d).
Proof. intros [_ [H _] H' _]. by apply H. Qed.

Lemma sat_next d Q E : inv d -> (forall r d', inv d' -> d_dir d' = d_dir d -> d_past d' = d_past d -> d_ino d' = d_ino d -> r <> Bad ENOENT ->
  (length (d_calls d') <= length (d_calls d))%nat /\ (r = Good \/ (length (d_calls d') < length (d_calls d))%nat) -> Q r d') -> sat next d Q E.
Proof.
  intros [H1 H2 H3 H4] HQ. unfold sat, next. destruct (d_calls d) as [|r l] eqn:Hc.
  - apply HQ; try done; [by constructor; rewrite ?Hc|]. split; [by rewrite Hc|by left].
  - apply Forall_cons in H4 as [Hr Hl]. apply HQ; try done. cbn. split; [lia|right; lia].
Qed.

Lemma sat_plain d Q E : inv d -> (forall e d', inv d' -> d_dir d' = d_dir d -> d_past d' = d_past d -> d_ino d' = d_ino d -> e <> Some ENOENT -> Q e d') ->
  sat plain_call d Q E.
Proof.
  intros Hd HQ. eapply sat_bind; [apply (sat_next _ _ _ Hd)|].
  { intros r d' H1 H2 H3 H4 H5 _. exact (conj H1 (conj H2 (conj H3 (conj H4 H5)))). }
  intros r d' (H1 & H2 & H3 & H4 & H5). apply sat_ret. apply HQ; try done. destruct r; congruence.
Qed.

Lemma inv_put_dir d dir : inv d -> okdir (d_ino d) dir -> inv (note (Disk dir (dir :: d_past d) (d_ino d) (d_calls d) (d_seen d))).
Proof.
  intros [H1 [H2 H2'] H3 H4] Hd. assert (snap_ok (Snap (dir :: d_past d) (d_ino d))) as Hn.
  { split; [|done]. cbn. intros x [->|Hx]%elem_of_cons; [done|by apply H2]. }
  constructor; cbn; [by constructor|done|by left|done].
Qed.

Lemma sat_put_dir d dir Q E : inv d -> okdir (d_ino d) dir ->
  (forall d', inv d' -> d_dir d' = dir -> d_past d' = dir :: d_past d -> d_ino d' = d_ino d -> Q tt d') -> sat (put_dir dir) d Q E.
Proof. intros Hd Hk HQ. apply HQ; [by apply inv_put_dir|done..]. Qed.

(** The names of the work files are nobody's business. *)
Lemma okdir_delete ino dir p : p = tmp \/ p = spare -> okdir ino dir -> okdir ino (delete p dir).
Proof.
  intros Hp [H1 H2 H3]. pose proof names_differ as (_ & N1 & N2 & N3 & N4 & _).
  assert (p <> path /\ p <> old) as [Np No] by (destruct Hp as [-> | ->]; done).
  constructor; rewrite ?lookup_delete_ne by done; [done..|]. intros q Q1 Q2 Q3 Q4. rewrite lookup_delete_ne by (destruct Hp as [-> | ->]; done). by apply H3.
Qed.

Lemma okdir_insert ino dir p i : p = tmp \/ p = spare -> okdir ino dir -> okdir ino (<[p := i]> dir).
Proof.
  intros Hp [H1 H2 H3]. pose proof names_differ as (_ & N1 & N2 & N3 & N4 & _).
  assert (p <> path /\ p <> old) as [Np No] by (destruct Hp as [-> | ->]; done).
  constructor; rewrite ?lookup_insert_ne by done; [done..|]. intros q Q1 Q2 Q3 Q4. rewrite lookup_insert_ne by (destruct Hp as [-> | ->]; done). by apply H3.
Qed.

Lemma sat_unlink p d (Q : unit -> disk -> Prop) E : inv d -> p = tmp \/ p = spare -> (forall d', inv d' -> Q tt d') -> sat (unlink_ p) d Q E.
Proof.
  intros Hd Hp HQ. eapply sat_bind; [apply (sat_plain d (fun _ d' => inv d') E Hd); by intros e d' H|]. intros e d' Hd'.
  apply (sat_bind _ _ _ _ _ (fun x d2 => x = d' /\ d2 = d')); [done|]. intros x d2 [-> ->]. destruct e; [by apply HQ|].
  apply sat_put_dir; [done|by apply okdir_delete, inv_dir|]. intros d3 H3 _ _ _. by apply HQ.
Qed.

Lemma sat_or_die e d what Q : inv d -> (e = None -> Q tt d) -> sat (or_die strerror e tmp what) d Q inv.
Proof.
  intros Hd HQ. destruct e as [e|]; [|by apply HQ]. cbn [or_die]. eapply sat_bind; [apply (sat_unlink _ _ (fun _ => inv) _ Hd); auto|]. intros [] d' Hd'. exact Hd'.
Qed.

(** Before the file is made. *)
Definition same (d : disk) : Prop := inv d /\ d_dir d = d_dir d0 /\ d_past d = d_past d0 /\ d_ino d = d_ino d0.

Lemma same_step d d' : same d -> inv d' -> d_dir d' = d_dir d -> d_past d' = d_past d -> d_ino d' = d_ino d -> same d'.
Proof. intros (_ & H2 & H3 & H4) H1 A2 A3 A4. split; [done|]. by rewrite A2, A3, A4. Qed.

Lemma sat_plain_same d E : same d -> sat plain_call d (fun _ => same) E.
Proof. intros Hd. apply sat_plain; [apply Hd|]. intros e d' H1 H2 H3 H4 _. by eapply same_step. Qed.

Lemma sat_lock d dir Q : same d -> (forall d', same d' -> Q tt d') -> sat (lock_dir strerror dir) d Q inv.
Proof.
  intros Hd HQ. unfold lock_dir.
  eapply sat_bind; [by apply sat_plain_same|]. intros e d1 S1.
  apply (sat_bind _ _ _ _ _ (fun _ => same)); [destruct e; [apply S1|exact S1]|]. intros _ d2 S2.
  eapply sat_bind; [by apply sat_plain_same|]. intros e' d3 S3. destruct e'; [apply S3|by apply HQ].
Qed.

Context (Hpast : d_past d0 = [d_dir d0]).

Lemma sat_mkostemp d Q : same d ->
  (forall i d', making i (Inode [] 384 false) d' -> Q (inl i) d') -> (forall e d', inv d' -> Q (inr e) d') -> sat (mkostemp tmp) d Q inv.
Proof.
  intros Hd HQ HE. unfold mkostemp.
  eapply sat_bind; [apply (sat_next d (fun _ => same) inv (proj1 Hd)); intros r d' A1 A2 A3 A4 _ _; by eapply same_step|].
  intros r d1 S1. pose proof S1 as (B1 & B2 & B3 & B4). apply (sat_bind _ _ _ _ _ (fun x d2 => x = d1 /\ d2 = d1)); [done|]. intros x d2 [-> ->].
  set (i := fresh (dom (d_ino d1))).
  assert (d_ino d1 !! i = None) as Hi by (apply not_elem_of_dom, is_fresh).
  assert (forall Q', (forall d', making i (Inode [] 384 false) d' -> Q' (inl i) d') ->
    sat (put_ino (fun m => <[i := Inode [] 384 false]> m);; put_dir (<[tmp := i]> (d_dir d1));; mret (inl i : nat + Z)) d1 Q' inv) as Hmake.
  { intros Q' HQ'.
    assert (forall dir, dir ∈ d_past d1 -> dir !! path = d_dir d0 !! path) as Hq by (rewrite B3, Hpast; by intros dir ->%list_elem_of_singleton).
    apply (sat_bind _ _ _ _ _ (fun _ d2 => inv d2 /\ d_dir d2 = d_dir d1 /\ d_past d2 = d_past d1 /\ d_ino d2 = <[i := Inode [] 384 false]> (d_ino d1))).
    - cbn. split; [|done]. destruct B1 as [C1 [C2 C2'] C3 C4].
      assert (snap_ok (Snap (d_past d1) (<[i := Inode [] 384 false]> (d_ino d1)))) as Hn.
      { split; cbn; [|by rewrite <- B4; apply insert_subseteq]. intros dir Hdir. destruct (C2 dir Hdir) as [D1 D2 D3]. constructor; [left; by apply Hq|done|done]. }
      constructor; cbn; [by constructor|done..].
    - intros _ d2 (C1 & C2 & C3 & C4). apply (sat_bind _ _ _ _ _ (fun _ d3 => making i (Inode [] 384 false) d3)); [|intros _ d3 Hd3; by apply HQ'].
      assert (okdir (d_ino d2) (<[tmp := i]> (d_dir d1))) as Hk by (rewrite <- C2; apply okdir_insert, inv_dir; [by left|done]).
      apply sat_put_dir; [done|done|]. intros d3 D1 D2 D3 D4. pose proof names_differ as (_ & N1 & _). constructor; [done| | | |].
      + by rewrite <- B4.
      + rewrite D3, C3. intros dir [->|Hdir]%elem_of_cons; [rewrite lookup_insert_ne by done; by rewrite B2|by apply Hq].
      + by rewrite D2, B2.
      + by rewrite D4, C4, lookup_insert_eq. }
  destruct r as [|k|e]; [destruct (d_dir d1 !! tmp); [by apply sat_ret, HE|apply Hmake, HQ]..|by apply sat_ret, HE].
Qed.

(** A change of the file being made. *)
Lemma making_alter i n d f : making i n d ->
  making i (f n) (note (Disk (d_dir d) (d_past d) (alter f i (d_ino d)) (d_calls d) (d_seen d))).
Proof.
  intros [[C1 [C2 C2'] C3 C4] H2 H3 H4 H5].
  assert (snap_ok (Snap (d_past d) (alter f i (d_ino d)))) as Hn.
  { split; cbn.
    - intros dir Hdir. destruct (C2 dir Hdir) as [D1 D2 D3]. constructor; [left; by apply H3|done|done].
    - apply map_subseteq_spec. intros j m Hj. rewrite lookup_alter_ne by congruence. by eapply lookup_weaken. }
  constructor; cbn; [constructor; cbn; [by constructor|done..]|done..|]. by rewrite lookup_alter_eq, H5.
Qed.

Lemma making_calls i n d d' : making i n d -> inv d' -> d_dir d' = d_dir d -> d_past d' = d_past d -> d_ino d' = d_ino d -> making i n d'.
Proof. intros [] H1 H2 H3 H4. constructor; [done|done|by rewrite H3|by rewrite H2|by rewrite H4]. Qed.

Lemma sat_plain_making i n d E : making i n d -> sat plain_call d (fun e d' => making i n d' /\ e <> Some ENOENT) E.
Proof. intros Hd. apply sat_plain; [apply Hd|]. intros e d' H1 H2 H3 H4 H5. split; [by eapply making_calls|done]. Qed.

Lemma sat_fchmod i n d mode : making i n d ->
  sat (fchmod i mode) d (fun e d' => match e with None => making i (Inode (i_data n) mode (i_synced n)) d' | Some _ => inv d' end) inv.
Proof.
  intros Hd. eapply sat_bind; [by apply sat_plain_making|]. intros e d' [Hd' _]. destruct e; [apply Hd'|].
  apply (making_alter _ _ _ (fun n => Inode (i_data n) mode (i_synced n)) Hd').
Qed.

Lemma sat_fsync i n d : making i n d ->
  sat (fsync_file i) d (fun e d' => match e with None => making i (Inode (i_data n) (i_mode n) true) d' | Some _ => inv d' end) inv.
Proof.
  intros Hd. eapply sat_bind; [by apply sat_plain_making|]. intros e d' [Hd' _]. destruct e; [apply Hd'|].
  apply (making_alter _ _ _ (fun n => Inode (i_data n) (i_mode n) true) Hd').
Qed.

Lemma sat_write i n b d : making i n d -> sat (sys_write i b) d (fun r d' => (length (d_calls d') <= length (d_calls d))%nat /\
  match r with
  | inl k => (k <= length b)%nat /\ making i (Inode (i_data n ++ take k b) (i_mode n) false) d'
  | inr e => making i n d' /\ (length (d_calls d') < length (d_calls d))%nat
  end) inv.
Proof.
  intros Hd. unfold sys_write. eapply sat_bind; [apply (sat_next d (fun r d' => making i n d' /\
    (length (d_calls d') <= length (d_calls d))%nat /\ (r = Good \/ (length (d_calls d') < length (d_calls d))%nat)) inv (mk_inv _ _ _ Hd))|].
  { intros r d' A1 A2 A3 A4 _ A5. split; [by eapply making_calls|done]. }
  intros r d' [Hd' [Hle Hlt]].
  assert (forall k, sat (put_ino (alter (fun n => Inode (i_data n ++ take k b) (i_mode n) false) i);; mret (inl (Nat.min k (length b)) : nat + Z)) d'
    (fun r d' => (length (d_calls d') <= length (d_calls d))%nat /\
      match r with
      | inl k => (k <= length b)%nat /\ making i (Inode (i_data n ++ take k b) (i_mode n) false) d'
      | inr e => making i n d' /\ (length (d_calls d') < length (d_calls d))%nat
      end) inv) as Hdone.
  { intros k. pose proof (making_alter _ _ _ (fun n => Inode (i_data n ++ take k b) (i_mode n) false) Hd') as Hm. cbn in *.
    split; [done|]. split; [lia|].
    assert (take (Nat.min k (length b)) b = take k b) as -> by (destruct (Nat.le_ge_cases k (length b)); [by rewrite Nat.min_l|by rewrite Nat.min_r, !take_ge by lia]).
    exact Hm. }
  destruct r; [apply Hdone|apply Hdone|]. apply sat_ret. split; [done|]. split; [done|]. by destruct Hlt.
Qed.

Lemma sat_write_turns fuel i n b d : making i n d -> i_synced n = false \/ b <> [] -> (length b + length (d_calls d) < fuel)%nat ->
  sat (write_turns fuel i b) d (fun e d' => match e with None => exists sy, making i (Inode (i_data n ++ b) (i_mode n) sy) d' | Some _ => inv d' end) inv.
Proof.
  revert n b d. induction fuel as [|fuel IH]; intros n b d Hd Hs Hf; [lia|]. cbn [write_turns]. destruct (decide (b = [])) as [->|Hb].
  { apply sat_ret. exists (i_synced n). rewrite app_nil_r. by destruct n. }
  eapply sat_bind; [by apply sat_write|]. intros r d' [Hle Hr]. destruct r as [[|k]|e].
  - apply sat_ret, Hr.
  - destruct Hr as [Hk Hm]. eapply sat_mono; [apply (IH _ _ _ Hm); [by left|rewrite length_drop; lia]|].
    intros [e|] d2; [done|]. cbn. by rewrite <- app_assoc, take_drop.
  - destruct Hr as [Hm Hlt]. destruct (e =? EINTR); [apply IH; [done|by right|lia]|apply sat_ret, Hm].
Qed.

Lemma sat_write_all i n b d : making i n d ->
  sat (write_all i b) d (fun e d' => match e with None => exists sy, making i (Inode (i_data n ++ b) (i_mode n) sy) d' | Some _ => inv d' end) inv.
Proof.
  intros Hd. unfold write_all. apply (sat_bind _ _ _ _ _ (fun x d' => x = d /\ d' = d)); [done|]. intros x d' [-> ->].
  destruct (decide (b = [])) as [->|Hb]; [|apply sat_write_turns; [done|by right|lia]].
  apply sat_ret. exists (i_synced n). rewrite app_nil_r. by destruct n.
Qed.

(** The file is whole; only names are left to change. *)
Record written (i : nat) (o : option nat) (d : disk) : Prop := Written {
  wr_inv : inv d;
  wr_new : d_ino d0 !! i = None;
  wr_whole : whole (d_ino d) i;
  wr_tmp : d_dir d !! tmp = Some i;
  wr_path : d_dir d !! path = d_dir d0 !! path;
  wr_old : d_dir d !! old = o;
}.

Lemma making_written i d : making i (Inode buf perm true) d -> written i (d_dir d0 !! old) d.
Proof.
  intros []. pose proof names_differ as (_ & N1 & _ & N3 & _). constructor; [done|done|done|by rewrite mk_dir0, lookup_insert_eq|..].
  - by rewrite mk_dir0, lookup_insert_ne.
  - by rewrite mk_dir0, lookup_insert_ne.
Qed.

Lemma written_same i o d d' : written i o d -> inv d' -> d_dir d' = d_dir d -> d_ino d' = d_ino d -> written i o d'.
Proof. intros [] H1 H2 H3. by constructor; rewrite ?H2, ?H3. Qed.

Lemma sat_plain_written i o d E : written i o d ->
  sat plain_call d (fun e d' => written i o d' /\ d_dir d' = d_dir d /\ d_ino d' = d_ino d /\ e <> Some ENOENT) E.
Proof. intros Hd. apply sat_plain; [apply Hd|]. intros e d' H1 H2 H3 H4 H5. split; [by eapply written_same|done]. Qed.

Lemma sat_get {B} d (f : disk -> FM B) Q E : sat (f d) d Q E -> sat (x ← get_disk; f x) d Q E.
Proof. done. Qed.

Lemma sat_link i o d : written i o d -> sat (link_ path spare) d (fun e d' =>
  match e with
  | None => exists j, d_dir d0 !! path = Some j /\ written i o d' /\ d_dir d' !! spare = Some j
  | Some e => if e =? ENOENT then d_dir d0 !! path = None /\ written i o d' else inv d'
  end) inv.
Proof.
  intros Hd. unfold link_. eapply sat_bind; [by apply (sat_plain_written i o)|]. intros e d' (Hd' & H2 & H3 & H4). apply sat_get.
  pose proof Hd' as []. destruct e as [e|].
  { apply sat_ret. assert ((e =? ENOENT) = false) as -> by (apply Z.eqb_neq; congruence). done. }
  rewrite wr_path0. destruct (d_dir d0 !! path) as [j|] eqn:E0; [|by apply sat_ret]. destruct (d_dir d' !! spare); [by apply sat_ret|].
  apply (sat_bind _ _ _ _ _ (fun _ d2 => written i o d2 /\ d_dir d2 !! spare = Some j)); [|intros _ d2 [A1 A2]; apply sat_ret; by exists j].
  pose proof names_differ as (_ & _ & N2 & _ & N4 & N5).
  apply sat_put_dir; [done|by apply okdir_insert, inv_dir; [right|]|]. intros d2 A1 A2 A3 A4. rewrite A2, lookup_insert_eq. split; [|done].
  constructor; rewrite ?A2, ?A4; try done; by rewrite lookup_insert_ne, ?E0.
Qed.

Lemma sat_rename_keep i o d j : written i o d -> d_dir d0 !! path = Some j -> d_dir d !! spare = Some j ->
  sat (rename_ spare old) d (fun e d' => match e with None => written i (Some j) d' | Some _ => inv d' end) inv.
Proof.
  intros Hd Hj Hk. unfold rename_. eapply sat_bind; [by apply (sat_plain_written i o)|]. intros e d' (Hd' & H2 & H3 & H4). apply sat_get.
  pose proof Hd' as []. destruct e as [e|]; [by apply sat_ret|]. rewrite H2, Hk, <- H2.
  destruct (decide (d_dir d' !! old = Some j)) as [Ho|Ho]; [apply sat_ret; by constructor|].
  apply (sat_bind _ _ _ _ _ (fun _ d2 => written i (Some j) d2)); [|intros _ d2 A1; by apply sat_ret].
  pose proof names_differ as (N0 & N1 & N2 & N3 & N4 & N5).
  assert (okdir (d_ino d') (delete spare (<[old := j]> (d_dir d')))) as Hok.
  { apply okdir_delete; [by right|]. destruct (inv_dir d' wr_inv0) as [O1 O2 O3]. constructor.
    - by rewrite lookup_insert_ne.
    - right. rewrite lookup_insert_eq, Hj. by split.
    - intros p P1 P2 P3 P4. rewrite lookup_insert_ne by done. by apply O3. }
  apply sat_put_dir; [done|done|]. intros d2 A1 A2 A3 A4. constructor; rewrite ?A2, ?A4; try done.
  - by rewrite lookup_delete_ne, lookup_insert_ne.
  - by rewrite lookup_delete_ne, lookup_insert_ne.
  - by rewrite lookup_delete_ne, lookup_insert_eq.
Qed.

(** The graph is replaced. *)
Record replaced (o : option nat) (d : disk) : Prop := Replaced {
  rp_inv : inv d;
  rp_path : exists i, d_dir d !! path = Some i /\ whole (d_ino d) i;
  rp_old : d_dir d !! old = o;
  rp_tmp : d_dir d !! tmp = None;
}.

(** Every name is of a file. *)
Context (Hclosed : forall p j, d_dir d0 !! p = Some j -> is_Some (d_ino d0 !! j)).

Lemma sat_rename_tmp i o d : written i o d ->
  sat (rename_ tmp path) d (fun e d' => match e with None => replaced o d' | Some _ => inv d' end) inv.
Proof.
  intros Hd. unfold rename_. eapply sat_bind; [by apply (sat_plain_written i o)|]. intros e d' (Hd' & H2 & H3 & H4). apply sat_get.
  pose proof Hd' as []. destruct e as [e|]; [by apply sat_ret|]. rewrite wr_tmp0.
  rewrite decide_False by (rewrite wr_path0; intros E%Hclosed; rewrite wr_new0 in E; by destruct E).
  apply (sat_bind _ _ _ _ _ (fun _ d2 => replaced o d2)); [|intros _ d2 A1; by apply sat_ret].
  pose proof names_differ as (N0 & N1 & N2 & N3 & N4 & N5).
  assert (okdir (d_ino d') (delete tmp (<[path := i]> (d_dir d')))) as Hok.
  { apply okdir_delete; [by left|]. destruct (inv_dir d' wr_inv0) as [O1 O2 O3]. constructor.
    - right. exists i. by rewrite lookup_insert_eq.
    - by rewrite lookup_insert_ne.
    - intros p P1 P2 P3 P4. rewrite lookup_insert_ne by done. by apply O3. }
  apply sat_put_dir; [done|done|]. intros d2 A1 A2 A3 A4. constructor; rewrite ?A2, ?A4; try done.
  - exists i. by rewrite lookup_delete_ne, lookup_insert_eq.
  - by rewrite lookup_delete_ne, lookup_insert_ne.
  - by rewrite lookup_delete_eq.
Qed.

Lemma sat_fsync_dir o d : replaced o d ->
  sat fsync_dir d (fun e d' => match e with None => replaced o d' /\ d_past d' = [d_dir d'] | Some _ => inv d' end) inv.
Proof.
  intros []. unfold fsync_dir. eapply sat_bind; [apply (sat_plain d (fun _ => replaced o) inv rp_inv0)|].
  { intros e d' A1 A2 A3 A4 _. constructor; rewrite ?A2, ?A4; done. }
  intros e d' []. destruct e as [e|]; [by apply sat_ret|].
  assert (snap_ok (Snap [d_dir d'] (d_ino d'))) as Hn.
  { split; cbn; [|apply rp_inv1]. intros dir ->%list_elem_of_singleton. by apply inv_dir. }
  split; [|done]. destruct rp_inv1. constructor; cbn; [constructor; cbn; [by constructor|done|by left|done]|done..].
Qed.

Lemma okdir_file s dir data p : snap_ok s -> after_crash s dir data ->
  (forall q j, d_dir d0 !! q = Some j -> exists n, d_ino d0 !! j = Some n /\ i_synced n = true) ->
  dir !! p = d_dir d0 !! p -> file_at dir data p = i ← d_dir d0 !! p; i_data <$> d_ino d0 !! i.
Proof.
  intros [_ Hsub] [_ Hdata] Hs Hp. unfold file_at. rewrite Hp. destruct (d_dir d0 !! p) as [j|] eqn:Hj; [|done]. cbn.
  destruct (Hs p j Hj) as (n & Hn & Hsn). rewrite Hn. apply Hdata; [by eapply lookup_weaken|done].
Qed.
End Safe.

(** ** What a loss of power leaves *)

Definition content (d : disk) (p : bytes) : option bytes := i ← d_dir d !! p; i_data <$> d_ino d !! i.

(** Everything is on the disk: the directory, and every file it names. And a call
    says ENOENT only for a name that is not there. *)
Record on_disk (d : disk) : Prop := OnDisk {
  on_past : d_past d = [d_dir d];
  on_seen : d_seen d = [];
  on_files : forall p j, d_dir d !! p = Some j -> exists n, d_ino d !! j = Some n /\ i_synced n = true;
  on_calls : Forall (fun r => r <> Bad ENOENT) (d_calls d);
}.

Section Outcome.
Context (strerror : Z -> bytes) (path buf : bytes) (mode um : Z) (held : bool) (sfx : bytes) (d : disk).
Context (Hsfx : length sfx = 6%nat) (Hd : on_disk d).

Notation perm := (Z.land mode (4095 - um)).
Notation old := (path ++ bs ".old").
Notation inv := (inv path buf sfx perm d).

Definition previous : option nat := match d_dir d !! path with Some i => Some i | None => d_dir d !! old end.

Lemma inv_start : inv d.
Proof.
  destruct Hd. assert (snap_ok path buf sfx perm d (now d)) as Hn.
  { split; [|done]. cbn. rewrite on_past0. intros dir ->%list_elem_of_singleton. constructor; [by left|by left|done]. }
  constructor; [by rewrite on_seen0|done|rewrite on_past0; by left|done].
Qed.

Lemma sat_write_atomic : sat (write_atomic strerror path buf mode um held sfx) d
  (fun _ d' => replaced path buf sfx perm d previous d' /\ d_past d' = [d_dir d']) inv.
Proof.
  pose proof inv_start as Hi. destruct Hd. unfold write_atomic. cbv zeta.
  assert (same path buf sfx perm d d) as Hs by done.
  eapply (sat_bind _ _ _ _ _ (fun _ => same path buf sfx perm d)); [by destruct (4104 <=? Z.of_nat (length path))|]. intros _ d1 S1.
  eapply (sat_bind _ _ _ _ _ (fun _ => same path buf sfx perm d)); [destruct (_ || _); [apply S1|exact S1]|]. intros _ d2 S2.
  eapply (sat_bind _ _ _ _ _ (fun _ => same path buf sfx perm d)); [destruct held; [exact S2|by eapply sat_lock]|]. intros _ d3 S3.
  eapply (sat_bind _ _ _ _ _ (fun r d4 => match r with inl i => making path buf sfx perm d i (Inode [] 384 false) d4 | inr _ => inv d4 end)).
  { by eapply sat_mkostemp. }
  intros [i|e4] d4 M4; [|exact M4].
  eapply sat_bind; [by eapply sat_fchmod|]. intros e5 d5 M5.
  eapply (sat_bind _ _ _ _ _ (fun _ d' => making path buf sfx perm d i (Inode [] perm false) d')).
  { eapply sat_or_die; [done|destruct e5; [exact M5|apply M5]|]. intros ->. exact M5. }
  intros _ d6 M6. eapply sat_bind; [by eapply sat_write_all|]. intros e7 d7 M7.
  eapply (sat_bind _ _ _ _ _ (fun _ d' => exists sy, making path buf sfx perm d i (Inode buf perm sy) d')).
  { eapply sat_or_die; [done|destruct e7; [exact M7|by destruct M7 as [? []]]|]. intros ->. exact M7. }
  intros _ d8 [sy M8]. eapply sat_bind; [by eapply sat_fsync|]. intros e9 d9 M9.
  eapply (sat_bind _ _ _ _ _ (fun _ d' => making path buf sfx perm d i (Inode buf perm true) d')).
  { eapply sat_or_die; [done|destruct e9; [exact M9|apply M9]|]. intros ->. exact M9. }
  intros _ d10 M10. apply making_written in M10; [|done].
  eapply sat_bind; [by eapply sat_link|]. intros e11 d11 M11.
  eapply (sat_bind _ _ _ _ _ (fun _ d' => written path buf sfx perm d i previous d')).
  { destruct e11 as [e|].
    - destruct (e =? ENOENT); cbn [negb].
      + destruct M11 as [Hno M11]. apply sat_ret. unfold previous. by rewrite Hno.
      + eapply sat_bind; [eapply (sat_unlink _ _ _ _ _ Hsfx _ _ (fun _ => inv)); [exact M11|by left|auto]|]. intros [] d12 M12. exact M12.
    - destruct M11 as (j & Hj & M11 & Hk). eapply sat_bind; [by eapply sat_rename_keep|]. intros [e|] d12 M12.
      + eapply sat_bind; [eapply (sat_unlink _ _ _ _ _ Hsfx _ _ (fun _ => inv)); [exact M12|by right|auto]|]. intros [] d13 M13.
        eapply sat_bind; [eapply (sat_unlink _ _ _ _ _ Hsfx _ _ (fun _ => inv)); [exact M13|by left|auto]|]. intros [] d14 M14. exact M14.
      + apply sat_ret. unfold previous. by rewrite Hj. }
  intros _ d12 M12. eapply sat_bind; [eapply sat_rename_tmp; [done| |exact M12]; intros p j Hj; destruct (on_files0 p j Hj) as (n & Hn & _); by exists n|]. intros e13 d13 M13.
  eapply (sat_bind _ _ _ _ _ (fun _ d' => replaced path buf sfx perm d previous d')).
  { eapply sat_or_die; [done|destruct e13; [exact M13|apply M13]|]. intros ->. exact M13. }
  intros _ d14 M14. eapply sat_bind; [by eapply sat_fsync_dir|]. intros [e|] d15 M15; exact M15.
Qed.

(** A moment, and what is then at the names. *)
Lemma inv_survives d' s dir data : inv d' -> s ∈ now d' :: d_seen d' -> after_crash s dir data ->
  (file_at dir data path = content d path \/ file_at dir data path = Some buf) /\
  (file_at dir data old = content d old \/ (file_at dir data old = content d path /\ is_Some (content d path))) /\
  forall p, p <> path -> p <> old -> p <> tmp_of path sfx -> p <> tmp_of path sfx ++ bs ".old" -> file_at dir data p = content d p.
Proof.
  intros Hi Hs Hc. destruct Hd. assert (snap_ok path buf sfx perm d s) as Hok.
  { destruct Hi. apply elem_of_cons in Hs as [->|Hs]; [done|]. rewrite Forall_forall in in_seen0. by apply in_seen0. }
  pose proof (okdir_file path buf sfx perm d) as Hf. pose proof Hc as [Hdir Hdata]. destruct (proj1 Hok dir Hdir) as [O1 O2 O3]. split; [|split].
  - destruct O1 as [O1|(i & Hi1 & Hi2)]; [left; by eapply Hf|right]. unfold file_at. rewrite Hi1. cbn. by rewrite (Hdata i _ Hi2).
  - destruct O2 as [O2|[O2 [j Hj]]]; [left; by eapply Hf|right].
    destruct (on_files0 path j Hj) as (n & Hn & Hsn). unfold file_at, content. rewrite O2, Hj. cbn. rewrite Hn. cbn.
    split; [|by eexists]. apply Hdata; [|done]. destruct Hok as [_ Hsub]. by eapply lookup_weaken.
  - intros p P1 P2 P3 P4. eapply Hf; [done|done|done|by apply O3].
Qed.
End Outcome.

(** C6. A loss of power at any moment of [write_atomic], with any of its calls
    failing, short or interrupted, leaves at the path of the graph the graph that
    was there, or the new one, in whole; next to it at .old what was there, or the
    graph that was at the path; and no other file changed. [write_atomic] ends, and
    when it ends well the new graph is at the path, with its mode, the one before it
    at .old, and all of it on the disk. *)
Theorem power_loss_keeps_a_graph strerror path buf mode um held sfx d : length sfx = 6%nat -> on_disk d ->
  let safe d' := forall s dir data, s ∈ now d' :: d_seen d' -> after_crash s dir data ->
    (file_at dir data path = content d path \/ file_at dir data path = Some buf) /\
    (file_at dir data (path ++ bs ".old") = content d (path ++ bs ".old") \/
      (file_at dir data (path ++ bs ".old") = content d path /\ is_Some (content d path))) /\
    forall p, p <> path -> p <> path ++ bs ".old" -> p <> tmp_of path sfx -> p <> tmp_of path sfx ++ bs ".old" -> file_at dir data p = content d p in
  match write_atomic strerror path buf mode um held sfx d with
  | Did _ d' => safe d' /\ d_past d' = [d_dir d'] /\ content d' path = Some buf /\
      (exists i n, d_dir d' !! path = Some i /\ d_ino d' !! i = Some n /\ i_mode n = Z.land mode (4095 - um) /\ i_synced n = true) /\
      d_dir d' !! (path ++ bs ".old") = previous path d
  | Died _ d' => safe d'
  | Stuck => False
  end.
Proof.
  intros Hs Hd safe. pose proof (sat_write_atomic strerror path buf mode um held sfx d Hs Hd) as H. unfold sat in H.
  destruct (write_atomic _ _ _ _ _ _ _ d) as [[] d'|msg d'|]; [|intros s dir data; by eapply inv_survives|done].
  destruct H as [[] Hp]. destruct rp_path0 as (i & Hi & Hw). split; [intros s dir data; by eapply inv_survives|]. split; [done|]. split.
  - unfold content. rewrite Hi. cbn. by rewrite Hw.
  - split; [|done]. exists i, (Inode buf (Z.land mode (4095 - um)) true). by rewrite Hi.
Qed.

(** ** Loading (load_graph of src/boot.c, load_previous of src/ninit.c) *)

(** What the calls on the file of a graph give: open, fstat, mmap with the address
    or errno, the bytes [read_full] got or errno, and mprotect; and whether the
    verifier gets its memory. *)
Record opened := Opened {
  lo_open : option Z; lo_regular : bool; lo_size : Z; lo_mmap : Z + Z; lo_read : bytes + Z; lo_mprotect : option Z; lo_mem : bool;
}.

(** An image in memory, or why there is none. *)
Inductive loaded := Loaded (img : bytes) | NotLoaded (why : bytes) | LoadFault.

Section Load.
Context `{E : Env}.

Definition load_graph (f : opened) : loaded :=
  match lo_open f with
  | Some e => NotLoaded (os_strerror e)
  | None =>
      if negb (lo_regular f) || (lo_size f <=? 0) then NotLoaded (bs "not a regular file") else
      if UINT32_MAX <? lo_size f then NotLoaded (bs "larger than 4 GiB") else
      match lo_mmap f with
      | inr e => NotLoaded (os_strerror e)
      | inl addr =>
          match lo_read f with
          | inr e => NotLoaded (os_strerror e)
          | inl m =>
              if negb (Z.of_nat (length m) =? lo_size f) then NotLoaded (bs "unexpected end of file") else
              match lo_mprotect f with
              | Some e => NotLoaded (os_strerror e)
              | None =>
                  match ng_verify (lo_mem f) addr m, rd_hdr m with
                  | VBad why, _ => NotLoaded (bs why)
                  | VOk _, VOk h => if Ngraph.n_svc h =? 0 then NotLoaded (bs "no services to start") else Loaded m
                  | _, _ => LoadFault
                  end
              end
          end
      end
  end.

(** The graph the last [ninitctl init] replaced boots in place of one that fails to
    load; [acc] is whether access(2) finds it. *)
Definition load_previous (graph why : bytes) (acc : bool) (f : opened) : M (option bytes) :=
  let old := graph ++ bs ".old" in
  let msg (p why : bytes) := take (Z.to_nat 4223) (bs "depgraph: " ++ p ++ bs ": " ++ why) in
  if (4096 <=? Z.of_nat (length old)) || negb acc then fail_emergency_shell (msg graph why);; mret None else
  log_err (bs "depgraph: " ++ graph ++ bs ": " ++ why);;
  match load_graph f with
  | Loaded m => log_warn (bs "depgraph: loaded " ++ old ++ bs " instead");; mret (Some m)
  | NotLoaded why => fail_emergency_shell (msg old why);; mret None
  | LoadFault => fault
  end.

(** [map = load_graph(graph, &why); if(!map) map = load_previous(graph, why);] *)
Definition load_map (graph : bytes) (acc : bool) (f fold : opened) : M (option bytes) :=
  match load_graph f with
  | Loaded m => mret (Some m)
  | NotLoaded why => load_previous graph why acc fold
  | LoadFault => fault
  end.

(** An image that boots, wherever it is mapped. *)
Definition bootable (img : bytes) : Prop := 0 < Z.of_nat (length img) <= UINT32_MAX /\
  (forall addr, Z.land addr 7 = 0 -> ng_verify true addr img = VOk tt) /\ exists h, rd_hdr img = VOk h /\ Ngraph.n_svc h <> 0.

(** What is documented of these calls on a file of a file system that works: they
    give the file. *)
Record reads (f : opened) (b : bytes) : Prop := Reads {
  re_open : lo_open f = None /\ lo_regular f = true /\ lo_size f = Z.of_nat (length b);
  re_map : exists addr, lo_mmap f = inl addr /\ Z.land addr 7 = 0;
  re_read : lo_read f = inl b /\ lo_mprotect f = None /\ lo_mem f = true;
}.

Lemma load_bootable f b : bootable b -> reads f b -> load_graph f = Loaded b.
Proof.
  intros (Hl & Hv & h & Hh & Hn) [(H1 & H2 & H3) (addr & H4 & Ha) (H5 & H6 & H7)]. unfold load_graph.
  rewrite H1, H2, H3, H4, H5, H6, H7, Hv, Hh by done. cbn [negb orb]. assert ((Z.of_nat (length b) <=? 0) = false) as -> by lia.
  assert ((UINT32_MAX <? Z.of_nat (length b)) = false) as -> by lia. rewrite Z.eqb_refl. cbn [negb].
  by assert ((Ngraph.n_svc h =? 0) = false) as -> by lia.
Qed.

(** C16. Power lost while the graph is replaced, then booted: if a graph that boots
    was at the path, pid 1 comes up with it or with the new one, from the path
    itself, and starts no emergency shell; if there was none, it finds the new one
    or none. *)
Theorem boot_after_power_loss strerror path buf mode um held sfx d b dir data s acc (f : bytes -> opened) fold w : length sfx = 6%nat -> on_disk d ->
  content d path = Some b -> bootable b -> bootable buf ->
  match write_atomic strerror path buf mode um held sfx d with Did _ d' | Died _ d' => s ∈ now d' :: d_seen d' | Stuck => True end ->
  after_crash s dir data -> (forall x, file_at dir data path = Some x -> reads (f x) x) ->
  exists img, (img = b \/ img = buf) /\ file_at dir data path = Some img /\ load_map path acc (f img) fold w = Ok (Some img) w.
Proof.
  intros Hs Hd Hb Hbb Hbuf Hin Hc Hf. pose proof (sat_write_atomic strerror path buf mode um held sfx d Hs Hd) as H. unfold sat in H.
  assert (file_at dir data path = content d path \/ file_at dir data path = Some buf) as Hp.
  { destruct (write_atomic _ _ _ _ _ _ _ d) as [[] d'|msg d'|]; [destruct H as [[] _]; by eapply inv_survives|by eapply inv_survives|done]. }
  assert (exists img, (img = b \/ img = buf) /\ file_at dir data path = Some img) as (img & Hi & Hat).
  { destruct Hp as [Hp|Hp]; [exists b; rewrite Hp; auto|exists buf; auto]. }
  exists img. split; [done|]. split; [done|]. unfold load_map. rewrite (load_bootable (f img) img); [done| |by apply Hf].
  by destruct Hi as [-> | ->].
Qed.
End Load.

(** What [ninitctl init] writes is such an image, if there is a service. *)
Lemma built_bootable addr srcs hash img v : Forall src_ok srcs -> NoDup (s_name <$> srcs) -> srcs <> [] ->
  Z.of_nat (length srcs) <= NG_MAX_SVC -> Z.land addr 7 = 0 -> 0 <= hash < 2 ^ 64 ->
  build_image true addr srcs hash = Built (img, v) -> bootable img.
Proof.
  intros Hok HN Hne Hn Ha Hh HB. pose proof (build_image_outcome addr srcs hash Hok HN Hn Ha Hh) as H1.
  pose proof (build_image_file addr srcs hash Hok HN Hn Ha Hh) as H2. rewrite HB in H1, H2. destruct H1 as [Hv _], H2 as [Hl (h & Hr & Hs)].
  cbn [fst] in *. split; [|split; [done|exists h; split; [done|destruct srcs; [done|cbn in Hs; lia]]]]. unfold UINT32_MAX.
  destruct img; [|cbn [length] in *; lia]. vm_compute in Hr. done.
Qed.

(** ** A disk *)

Definition graph_path : bytes := bs "/etc/ninit.d/depgraph".
Definition sfx0 : bytes := bs "a8Kz3q".
Definition err (e : Z) : bytes := bs "error".

(** The graph of [Sample] is at the path, and [calls] is how the calls end. *)
Definition disk_with (b : bytes) (more : dirs) (calls : list sysr) : disk :=
  let dir := <[graph_path := 1%nat]> more in
  Disk dir [dir] {[1%nat := Inode b 420 true; 2%nat := Inode [7] 420 true]} calls [].

Lemma disk_with_ok b more calls : (forall p j, more !! p = Some j -> j = 1%nat \/ j = 2%nat) -> Forall (fun r => r <> Bad ENOENT) calls ->
  on_disk (disk_with b more calls).
Proof.
  intros Hm Hc. constructor; [done|done| |done]. cbn. intros p j [[_ <-]|[_ Hj]]%lookup_insert_Some; [by eexists|].
  destruct (Hm p j Hj) as [-> | ->]; by eexists.
Qed.

(** A [write] that gives three bytes, then is interrupted, and a rename that fails. *)
Definition one_more : dirs := {[graph_path ++ bs ".old" := 2%nat]}.

Lemma one_more_ok p j : one_more !! p = Some j -> j = 1%nat \/ j = 2%nat.
Proof. unfold one_more. rewrite lookup_singleton_Some. intros [_ <-]. by right. Qed.

Definition disk0 : disk := disk_with [1; 2; 3] one_more [Good; Good; Good; Good; Short 3; Bad EINTR].

Definition run0 : outc unit := write_atomic err graph_path [4; 5; 6; 7] 420 18 false sfx0 disk0.

Lemma disk0_ok : on_disk disk0.
Proof. apply disk_with_ok; [apply one_more_ok|repeat constructor; discriminate]. Qed.

Lemma run0_did : match run0 with
  | Did _ d' => bool_decide (content d' (graph_path ++ bs ".old") = Some [1; 2; 3])
  | _ => false
  end = true.
Proof. vm_compute. reflexivity. Qed.

Lemma power_loss_keeps_a_graph_witness :
  match run0 with
  | Did _ d' => content d' graph_path = Some [4; 5; 6; 7] /\ content d' (graph_path ++ bs ".old") = Some [1; 2; 3] /\
      forall s dir data, s ∈ now d' :: d_seen d' -> after_crash s dir data ->
        file_at dir data graph_path = Some [1; 2; 3] \/ file_at dir data graph_path = Some [4; 5; 6; 7]
  | _ => False
  end.
Proof.
  pose proof (power_loss_keeps_a_graph err graph_path [4; 5; 6; 7] 420 18 false sfx0 disk0 eq_refl disk0_ok) as H. cbv zeta in H.
  change (write_atomic err graph_path [4; 5; 6; 7] 420 18 false sfx0 disk0) with run0 in H.
  pose proof run0_did as E. destruct run0 as [u d'|msg d'|]; [|discriminate..]. destruct H as (H1 & _ & H3 & _ & _).
  split; [exact H3|]. split; [by apply bool_decide_eq_true in E|].
  intros s dir data Hs Hc. exact (proj1 (H1 s dir data Hs Hc)).
Defined.

Definition at_once (b : bytes) : opened := Opened None true (Z.of_nat (length b)) (inl 65536) (inl b) None true.

Lemma at_once_reads b : reads (at_once b) b.
Proof. constructor; [done|by exists 65536|done]. Qed.

Lemma sample_bootable : bootable sample_image.
Proof. apply (built_bootable 4096 sample 7 sample_image 1%nat sample_ok sample_names); [done|by compute|done|by compute|apply sample_built]. Qed.

Definition sample_disk : disk := disk_with sample_image one_more [].
Definition sample_run : outc unit := write_atomic err graph_path sample_image 420 18 true sfx0 sample_disk.

(** What the disk holds at the end is one of the things a loss of power may leave. *)
Lemma left_as_is d : d_dir d ∈ d_past d -> after_crash (now d) (d_dir d) (fun i => i_data <$> d_ino d !! i).
Proof. intros H. split; [done|]. intros i n E _. cbn [now sn_ino] in E. by rewrite E. Qed.

Lemma boot_after_power_loss_witness : match sample_run with
  | Did _ d' | Died _ d' =>
      after_crash (now d') (d_dir d') (fun i => i_data <$> d_ino d' !! i) /\
      load_map graph_path true (at_once sample_image) (at_once [7]) world0 = Ok (Some sample_image) world0
  | Stuck => False
  end.
Proof.
  assert (on_disk sample_disk) as Hd by (apply disk_with_ok; [apply one_more_ok|constructor]).
  pose proof (sat_write_atomic err graph_path sample_image 420 18 true sfx0 sample_disk eq_refl Hd) as H.
  pose proof (fun s dir data => boot_after_power_loss err graph_path sample_image 420 18 true sfx0 sample_disk sample_image dir data s true at_once (at_once [7]) world0
    eq_refl Hd eq_refl sample_bootable sample_bootable) as HB.
  fold sample_run in H, HB. unfold sat in H. fold sample_run in H. destruct sample_run as [[] d'|msg d'|]; [|..|done].
  - destruct H as [[H _ _ _] _]. pose proof (left_as_is d' (in_dir _ _ _ _ _ _ H)) as Hc. split; [exact Hc|].
    destruct (HB (now d') _ _ ltac:(by left) Hc (fun x _ => at_once_reads x)) as (img & [-> | ->] & _ & Hl); exact Hl.
  - pose proof (left_as_is d' (in_dir _ _ _ _ _ _ H)) as Hc. split; [exact Hc|].
    destruct (HB (now d') _ _ ltac:(by left) Hc (fun x _ => at_once_reads x)) as (img & [-> | ->] & _ & Hl); exact Hl.
Defined.

(** ** Two corners *)

(** When the graph and its .old are one file, as they are after a run whose last
    rename failed, the next run leaves the name it made for the link: rename(2) does
    nothing between two names of one file, and says it succeeded. *)
Definition run1 : outc unit :=
  write_atomic err graph_path [4; 5; 6; 7] 420 18 false sfx0
    (disk_with [1; 2; 3] one_more [Good; Good; Good; Good; Good; Good; Good; Good; Bad 5]).

Definition run2 : outc unit :=
  match run1 with
  | Died _ d => write_atomic err graph_path [8] 420 18 false (bs "Zt81pw") (Disk (d_dir d) (d_past d) (d_ino d) [] [])
  | _ => Stuck
  end.

Lemma link_left_behind : match run2 with
  | Did _ d => content d graph_path = Some [8] /\ content d (tmp_of graph_path (bs "Zt81pw") ++ bs ".old") = Some [1; 2; 3]
  | _ => False
  end.
Proof. vm_compute. by split. Qed.

(** A graph at the path that does not load replaces the one at .old that does before
    the new graph is there: between the two renames a loss of power leaves only that
    graph, twice. *)
Definition only_bad (s : snap) : bool :=
  existsb (fun dir => bool_decide (dir !! graph_path = Some 1%nat) && bool_decide (dir !! (graph_path ++ bs ".old") = Some 1%nat)) (sn_dirs s).

Lemma fallback_replaced_first :
  content (disk_with [1; 2; 3] one_more []) graph_path = Some [1; 2; 3] /\
  content (disk_with [1; 2; 3] one_more []) (graph_path ++ bs ".old") = Some [7] /\
  match write_atomic err graph_path [4; 5; 6; 7] 420 18 false sfx0 (disk_with [1; 2; 3] one_more []) with
  | Did _ d => existsb only_bad (d_seen d) = true
  | _ => False
  end.
Proof. split; [vm_compute; reflexivity|]. split; [vm_compute; reflexivity|]. vm_compute. reflexivity. Qed.
