(* ===== verification/Client.v ===== *)
(** * The client that asks pid 1 (ctl/ctl.c)

    The options of a command, the line that is sent, the reply as it comes in
    reads of any size, the table of the services, the lines of the log and the
    exit code. *)

From stdpp Require Import gmap.
From S2P Require Import Prelude Ngraph PidMap Ring Log Console Repeat Logged World Sys Inv Live Cgroup Fail Emerg Output State Spawn Release Reap Halt Stop Frame Command Control Clients Serve Requests Loop Supervisor Mounts Replies.

Definition CTL_LINE : Z := 4096.
Definition NCTL_EXIT_OK : Z := 0.
Definition NCTL_EXIT_FAIL : Z := 1.
Definition NCTL_EXIT_USAGE : Z := 2.

(** [strncmp(s, p, strlen(p)) == 0] *)
Definition begins (p s : bytes) : bool := bool_decide (take (length p) s = p).

Definition nl : bytes := [10].

(** ** The table of the services *)

Record sty := Sty { dim : bytes; green : bytes; yellow : bytes; red : bytes; reset : bytes; bar : bytes; none : bytes }.

Definition sgr (s : string) : bytes := 27 :: bs s.

Definition sty_tty : sty := Sty (sgr "[2m") (sgr "[32m") (sgr "[33m") (sgr "[1;31m") (sgr "[0m") [226; 148; 128] [226; 128; 148].
Definition sty_plain : sty := Sty [] [] [] [] [] (bs "-") (bs "-").

Fixpoint skip_sp (s : bytes) : bytes :=
  match s with
  | [] => []
  | c :: s' => if c =? 32 then skip_sp s' else s
  end.

(** The word at the head of a text, and the text from its end on. *)
Definition st_word (s : bytes) : bytes := upto 32 s.
Definition past_word (s : bytes) : bytes := drop (length (st_word s)) s.

(** [i] is the token, of [k] to come. *)
Fixpoint st_tokens (k : nat) (i : Z) (tok3 s : bytes) : option (bytes * bytes) :=
  match k with
  | O => Some (tok3, s)
  | S k' =>
      let s := skip_sp s in
      if decide (s = []) then None else
      st_tokens k' (i + 1) (if i =? 3 then s else tok3) (past_word s)
  end.

Definition st_shaped (s : bytes) : bool :=
  match st_tokens 5 0 [] s with
  | None => false
  | Some (tok3, s) => bool_decide (skip_sp s = []) && begins (bs "pid ") tok3
  end.

Record srow := Srow { r_name : bytes; r_state : bytes; r_want : bytes; r_pid : bytes }.

(** A field, and the text after the byte that ends it. *)
Definition st_field (q : bytes) : bytes * bytes := let q := skip_sp q in (st_word q, tail (past_word q)).

Definition st_split (dup : bytes) : srow :=
  let '(nm, q) := st_field dup in
  let '(st, q) := st_field q in
  let '(wn, q) := st_field q in
  let '(_, q) := st_field q in
  let '(pd, _) := st_field q in
  Srow nm st wn pd.

Definition state_colour (st : sty) (state : bytes) : bytes :=
  if decide (state = bs "up") then green st else
  if decide (state = bs "failed") then red st else
  if bool_decide (state = bs "starting") || bool_decide (state = bs "down") then yellow st else
  dim st.

(** [%*s] and [%-*s] *)
Definition lpad (n : nat) (s : bytes) : bytes := replicate (n - length s) 32 ++ s.
Definition rpad (n : nat) (s : bytes) : bytes := s ++ replicate (n - length s) 32.

Definition gone (r : srow) : bool := bool_decide (r_pid r = bs "0").
Definition unwanted (r : srow) : bool := bool_decide (r_want r <> bs "wanted").

Definition widest (f : srow -> nat) (w : nat) (rows : list srow) : nat := foldl (fun w r => if decide (w < f r)%nat then f r else w) w rows.

Definition pid_width (r : srow) : nat := if gone r then 1 else length (r_pid r).

Section Table.
Context (st : sty) (wi wn ws wp : nat) (held : bool).

Definition head_line : bytes :=
  dim st ++ bs "  " ++ lpad wi (bs "#") ++ bs "  " ++ rpad wn (bs "service") ++ bs "  " ++ rpad ws (bs "state") ++ bs "  " ++
  lpad wp (bs "pid") ++ (if held then bs "  held" else []) ++ reset st ++ nl.

Definition rule_line : bytes :=
  dim st ++ bs "  " ++ concat (replicate (wi + wn + ws + wp + 6 + (if held then 6 else 0)) (bar st)) ++ reset st ++ nl.

Definition row_line (i : nat) (r : srow) : bytes :=
  bs "  " ++ dim st ++ lpad wi (dec (Z.of_nat i)) ++ reset st ++ bs "  " ++ rpad wn (r_name r) ++ bs "  " ++
  state_colour st (r_state r) ++ r_state r ++ reset st ++ replicate (ws - length (r_state r)) 32 ++ bs "  " ++
  replicate (wp - pid_width r) 32 ++ (if gone r then dim st ++ none st ++ reset st else r_pid r) ++
  (if held && unwanted r then bs "  yes" else []) ++ nl.
End Table.

Definition table_text (st : sty) (rows : list srow) : bytes :=
  let wi := length (dec (Z.of_nat (length rows) - 1)) in
  let wn := widest (fun r => length (r_name r)) 7 rows in
  let ws := widest (fun r => length (r_state r)) 5 rows in
  let wp := widest pid_width 3 rows in
  let held := existsb unwanted rows in
  head_line st wi wn ws wp held ++ rule_line st wi wn ws wp held ++ concat (imap (row_line st wi wn ws wp held) rows).

(** ** A line of the log *)

(** The text at the tag of a line "[sss.mmm] TAG > text". *)
Definition log_tag (l : bytes) : option bytes :=
  match l with
  | 91 :: _ =>
      match past 93 l with
      | Some (32 :: t) => if (length t <? 7)%nat || negb (bool_decide (take 3 (drop 4 t) = bs " > ")) then None else Some t
      | _ => None
      end
  | _ => None
  end.

Definition tag_colours : list (bytes * bytes) :=
  [(bs "DONE", sgr "[32m"); (bs "NOTE", sgr "[36m"); (bs "WAIT", sgr "[1;34m"); (bs "WARN", sgr "[33m"); (bs "FAIL", sgr "[31m")].

(** Where "! (" is last, in [strstr] after [strstr]. *)
Fixpoint last_bang (i : nat) (q : bytes) (e : option nat) : option nat :=
  match q with
  | [] => e
  | _ :: q' => last_bang (S i) q' (if begins (bs "! (") q then Some i else e)
  end.

Definition log_text (l : bytes) (errors tty : bool) : bytes :=
  let t := log_tag l in
  let tagged w := match t with Some t => begins w t | None => false end in
  if errors && negb (tagged (bs "WARN")) && negb (tagged (bs "FAIL")) then [] else
  let welcome := if tty && bool_decide (t = None) && begins (bs "Welcome to ") l then last_bang 0 (drop 11 l) None else None in
  match welcome with
  | Some e => bs "Welcome to " ++ sgr "[1m" ++ take e (drop 11 l) ++ sgr "[0m" ++ drop e (drop 11 l) ++ nl
  | None =>
      match t, (if tty then List.find (fun c => tagged c.1) tag_colours else None) with
      | Some t, Some (_, col) => take (length l - length t) l ++ col ++ take 4 t ++ sgr "[0m" ++ drop 4 t ++ nl
      | _, _ => l ++ nl
      end
  end.

(** ** The command line *)

Record copts := Copts { o_end : bool; o_errors : bool; o_watch : bool; o_boot : bool; o_name : option bytes }.

Definition says (t : bytes) : bytes := bs "ninitctl: " ++ t ++ nl.

(** The options, or what is said of them. *)
Fixpoint ctl_args (verb : bytes) (argv : list bytes) (o : copts) : copts + bytes :=
  match argv with
  | [] => inl o
  | a :: argv' =>
      let log := bool_decide (verb = bs "log") in
      let opt (short long : string) := negb (o_end o) && log && (bool_decide (a = bs short) || bool_decide (a = bs long)) in
      if negb (o_end o) && bool_decide (a = bs "--") then ctl_args verb argv' (Copts true (o_errors o) (o_watch o) (o_boot o) (o_name o)) else
      if opt "-e"%string "--error"%string then ctl_args verb argv' (Copts (o_end o) true (o_watch o) (o_boot o) (o_name o)) else
      if opt "-w"%string "--watch"%string then ctl_args verb argv' (Copts (o_end o) (o_errors o) true (o_boot o) (o_name o)) else
      if opt "-t"%string "--time"%string then ctl_args verb argv' (Copts (o_end o) (o_errors o) (o_watch o) true (o_name o)) else
      if negb (o_end o) && begins (bs "-") a && (1 <? length a)%nat then inr (says (verb ++ bs ": unknown option '" ++ a ++ bs "'")) else
      match o_name o with
      | Some _ => inr (says (verb ++ bs " takes at most one service name"))
      | None => ctl_args verb argv' (Copts (o_end o) (o_errors o) (o_watch o) (o_boot o) (Some a))
      end
  end.

Definition is_verb (verb : bytes) (l : list string) : bool := existsb (fun s => bool_decide (verb = bs s)) l.

(** The line that is sent. *)
Definition request_line (verb : bytes) (name : option bytes) : bytes :=
  verb ++ (match name with Some n => 32 :: n | None => [] end) ++ nl.

Definition ctl_request (verb : bytes) (argv : list bytes) : (copts * option bytes * bytes) + bytes :=
  match ctl_args verb argv (Copts false false false false None) with
  | inr e => inr e
  | inl o =>
      let name := o_name o in
      if bool_decide (name = None) && negb (is_verb verb ["status"; "resume"; "reload"; "log"]%string) then inr (says (verb ++ bs " needs a service name")) else
      if bool_decide (name <> None) && is_verb verb ["resume"; "reload"; "log"]%string then inr (says (verb ++ bs " takes no arguments")) else
      if o_boot o && (o_errors o || o_watch o) then inr (says (bs "log: '-t' excludes '-e' and '-w'")) else
      let name := if o_watch o then Some (bs "watch") else name in
      let name := if o_boot o then Some (bs "time") else name in
      let line := request_line verb name in
      if CTL_LINE <=? Z.of_nat (length line) then inr (says (verb ++ bs ": name is too long")) else
      inl (o, name, line)
  end.

(** ** The reply *)

(** What of a reply the client holds: the rows of the table with [t_raw] of a line
    that is none, what it wrote to stdout and stderr, its exit code. [k_mem] says of
    each row to come whether there is memory for it; those after them have. *)
Record client := Cl { k_rows : list bytes; t_raw : bool; k_mem : list bool; k_out : bytes; k_err : bytes; k_rc : Z; k_end : bool }.

Definition client0 (mem : list bool) : client := Cl [] false mem [] [] NCTL_EXIT_USAGE false.

Definition put_out (t : bytes) (c : client) : client := Cl (k_rows c) (t_raw c) (k_mem c) (k_out c ++ t) (k_err c) (k_rc c) (k_end c).
Definition put_err (t : bytes) (c : client) : client := Cl (k_rows c) (t_raw c) (k_mem c) (k_out c) (k_err c ++ t) (k_rc c) (k_end c).
Definition reply_ended (rc : Z) (c : client) : client := Cl (k_rows c) (t_raw c) (k_mem c) (k_out c) (k_err c) rc true.

(** Without memory nothing is added. *)
Definition stab_add (line : bytes) (c : client) : bool * client :=
  match k_mem c with
  | false :: m => (false, Cl (k_rows c) (t_raw c) m (k_out c) (k_err c) (k_rc c) (k_end c))
  | _ => (true, Cl (k_rows c ++ [line]) (t_raw c || negb (st_shaped line)) (tail (k_mem c)) (k_out c) (k_err c) (k_rc c) (k_end c))
  end.

(** The rows are printed and let go; the result is whether they were a table. *)
Definition stab_print (tty : bool) (c : client) : bool * client :=
  let text := if t_raw c then concat ((fun l => l ++ nl) <$> k_rows c) else table_text (if tty then sty_tty else sty_plain) (st_split <$> k_rows c) in
  if decide (k_rows c = []) then (false, c) else
  (negb (t_raw c), Cl [] false (k_mem c) (k_out c ++ text) (k_err c) (k_rc c) (k_end c)).

Section Reply.
Context (strerror : Z -> bytes) (verb : bytes) (o : copts) (name : option bytes) (tty : bool).

Notation log := (bool_decide (verb = bs "log")).
Notation tabular := (bool_decide (verb = bs "status")).

(** A record of the reply; it is used up to its first NUL. *)
Definition on_record (l : bytes) (c : client) : client :=
  let p := cut0 l in let t := drop (Z.to_nat NCTL_TAG_LEN) p in
  if begins NCTL_DATA p then
    if o_boot o then put_out (t ++ nl) c else
    if log then put_out (log_text t (o_errors o) tty) c else
    if negb tabular then put_out (t ++ nl) c else
    match stab_add t c with (true, c) => c | (false, c) => put_out (t ++ nl) c end
  else if begins NCTL_OK p then
    let '(shown, c) := stab_print tty c in
    let c := if negb log && (negb tabular || bool_decide (name = None)) then put_out ((if shown then nl else []) ++ t ++ nl) c else c in
    reply_ended NCTL_EXIT_OK c
  else if begins NCTL_ERR p then
    reply_ended NCTL_EXIT_FAIL (put_err (says t) (stab_print tty c).2)
  else if decide (p = []) then c
  else put_err (says (bs "malformed reply: " ++ p)) c.

(** What a [read] of the socket finds: bytes that have come, an interruption, or an
    error; after the last of them the other side has closed it. *)
Inductive rx := RxBytes (b : bytes) | RxIntr | RxFail (errno : Z).

(** [buf] has room for 8191 bytes. *)
Definition REPLY_MAX : nat := Z.to_nat (CTL_LINE * 2 - 1).
#[global] Arguments REPLY_MAX : simpl never.

(** [Some] errno, none at the end of the reply; [EndLong] is the record that does
    not fit. *)
Inductive rend := EndEof | EndErr (errno : Z) | EndLong | EndFuel.

(** A turn takes what there is room for, the rest of the bytes is there for the next. *)
Fixpoint read_loop (fuel : nat) (rs : list rx) (held : bytes) (c : client) : rend * client :=
  match fuel with
  | O => (EndFuel, c)
  | S fuel' =>
      match rs with
      | [] => (EndEof, c)
      | RxIntr :: rs' => read_loop fuel' rs' held c
      | RxFail e :: _ => (EndErr e, c)
      | RxBytes b :: rs' =>
          if decide (b = []) then (EndEof, c) else
          let n := Nat.min (length b) (REPLY_MAX - length held) in
          let '(ls, held) := split_lines [] (held ++ take n b) in
          let c := foldl (fun c l => on_record l c) c ls in
          if (REPLY_MAX <=? length held)%nat then (EndLong, c) else
          read_loop fuel' (if decide (drop n b = []) then rs' else RxBytes (drop n b) :: rs') held c
      end
  end.

Definition rx_size (r : rx) : nat := match r with RxBytes b => S (length b) | _ => 1%nat end.

Definition read_reply (rs : list rx) (mem : list bool) : rend * client := read_loop (S (list_sum (rx_size <$> rs))) rs [] (client0 mem).

(** The exit code, stdout and stderr. *)
Definition finish (r : rend * client) : option (Z * bytes * bytes) :=
  let '(e, c) := r in
  let c := (stab_print tty c).2 in
  match e with
  | EndFuel => None
  | EndLong => Some (1, k_out c, k_err c ++ says (bs "reply record too long"))
  | EndErr e => Some (1, k_out c, k_err c ++ says (bs "read: " ++ strerror e))
  | EndEof =>
      if negb (k_end c) then Some (1, k_out c, k_err c ++ says (verb ++ bs ": connection closed without a result"))
      else Some (k_rc c, k_out c, k_err c)
  end.
End Reply.

(** ** The command *)

Section Command.
Context (strerror : Z -> bytes).

Definition NINIT_CTL_SOCK : bytes := bs "/run/ninit/control".
Definition EACCES : Z := 13.

(** [socket] and [connect], with errno when they fail. *)
Definition ctl_connect (sock conn : option Z) : option bytes :=
  match sock, conn with
  | Some e, _ => Some (says (bs "socket: " ++ strerror e))
  | None, Some e => Some (says (NINIT_CTL_SOCK ++ bs ": " ++ strerror e) ++
      (if e =? ENOENT then says (bs "pid 1 is not ninit") else if e =? EACCES then says (bs "permission denied") else []))
  | None, None => None
  end.

(** [write_all] on the socket; [ws] is how the writes end, and those after them
    take all. What was sent, and errno. *)
Fixpoint send_all (ws : list (Z + Z)) (b sent : bytes) : bytes * option Z :=
  match ws with
  | [] => (sent ++ b, None)
  | w :: ws' =>
      if decide (b = []) then (sent, None) else
      match w with
      | inl k => if 0 <? k then send_all ws' (drop (Z.to_nat k) b) (sent ++ take (Z.to_nat k) b) else (sent, Some 0)
      | inr e => if e =? EINTR then send_all ws' b sent else (sent, Some e)
      end
  end.

(** The exit code, stdout, stderr, and the bytes sent. *)
Definition cmd_ctl (verb : bytes) (argv : list bytes) (tty : bool) (sock conn : option Z) (ws : list (Z + Z)) (rs : list rx) (mem : list bool)
    : option (Z * bytes * bytes * bytes) :=
  match ctl_request verb argv with
  | inr e => Some (NCTL_EXIT_USAGE, [], e, [])
  | inl (o, name, line) =>
      match ctl_connect sock conn with
      | Some e => Some (NCTL_EXIT_FAIL, [], e, [])
      | None =>
          match send_all ws line [] with
          | (sent, Some e) => Some (NCTL_EXIT_FAIL, [], says (bs "write: " ++ strerror e), sent)
          | (sent, None) => r ← finish strerror verb tty (read_reply verb o name tty rs mem); Some (r, sent)
          end
      end
  end.
End Command.

(** ** A reply is its bytes *)

Section Whole.
Context (verb : bytes) (o : copts) (name : option bytes) (tty : bool).

Notation on_rec := (on_record verb o name tty).
Notation reads := (read_loop verb o name tty).

(** The bytes of the reply, and how it ends. *)
Fixpoint reply_bytes (rs : list rx) : bytes * rend :=
  match rs with
  | [] => ([], EndEof)
  | RxIntr :: rs' => reply_bytes rs'
  | RxFail e :: _ => ([], EndErr e)
  | RxBytes b :: rs' => if decide (b = []) then ([], EndEof) else (b ++ (reply_bytes rs').1, (reply_bytes rs').2)
  end.

(** The records in order, up to one that is too long. *)
Fixpoint play (ls : list bytes) (rest : bytes) (e : rend) (c : client) : rend * client :=
  match ls with
  | [] => if (REPLY_MAX <=? length rest)%nat then (EndLong, c) else (e, c)
  | l :: ls' => if (REPLY_MAX <=? length l)%nat then (EndLong, c) else play ls' rest e (on_rec l c)
  end.

Definition play_bytes (b : bytes) (e : rend) (c : client) : rend * client := play (split_lines [] b).1 (split_lines [] b).2 e c.

Lemma split_lines_held cur s : 10 ∉ cur -> split_lines [] (cur ++ s) = split_lines cur s.
Proof.
  assert (forall x, split_lines x (cur ++ s) = split_lines (x ++ cur) s \/ 10 ∈ cur) as H.
  { induction cur as [|c l IH]; intros x; [left; by rewrite app_nil_r|]. simpl. destruct (Z.eqb_spec c 10) as [->|Hc]; [right; by left|].
    destruct (IH (x ++ [c])) as [->|Hin]; [left; by rewrite <- app_assoc|right; by right]. }
  intros Hn. by destruct (H []).
Qed.

Lemma split_lines_app cur a b : split_lines cur (a ++ b) =
  ((split_lines cur a).1 ++ (split_lines (split_lines cur a).2 b).1, (split_lines (split_lines cur a).2 b).2).
Proof.
  revert cur. induction a as [|c a IH]; intros cur; simpl; [by destruct (split_lines cur b)|].
  destruct (c =? 10); [|apply IH]. rewrite (IH []). by destruct (split_lines [] a).
Qed.

Lemma split_lines_bounds cur a : 10 ∉ cur -> 10 ∉ (split_lines cur a).2 /\ (length (split_lines cur a).2 <= length cur + length a)%nat /\
  Forall (fun l => (length l < length cur + length a)%nat) (split_lines cur a).1.
Proof.
  revert cur. induction a as [|c a IH]; intros cur Hn; simpl; [split; [done|]; split; [lia|constructor]|].
  destruct (Z.eqb_spec c 10) as [->|Hc].
  - destruct (IH [] (not_elem_of_nil _)) as (H1 & H2 & H3). destruct (split_lines [] a) as [ls r]. simpl in *. split; [done|]. split; [lia|].
    constructor; [lia|]. eapply Forall_impl; [exact H3|]. cbn. lia.
  - destruct (IH (cur ++ [c])) as (H1 & H2 & H3).
    { rewrite not_elem_of_app, list_elem_of_singleton. intuition congruence. }
    rewrite length_app in *. simpl in *. split; [done|]. split; [lia|]. eapply Forall_impl; [exact H3|]. cbn. lia.
Qed.

(** What is held too long stays so, whatever comes. *)
Lemma play_too_long cur s e c : 10 ∉ cur -> (REPLY_MAX <= length cur)%nat -> play_bytes (cur ++ s) e c = (EndLong, c).
Proof.
  intros Hn Hl. unfold play_bytes. rewrite split_lines_held by done. revert cur Hn Hl.
  induction s as [|x s IH]; intros cur Hn Hl; cbn [split_lines fst snd play]; [by rewrite (proj2 (Nat.leb_le _ _))|].
  destruct (Z.eqb_spec x 10) as [->|Hx].
  - destruct (split_lines [] s). cbn [fst snd play]. by rewrite (proj2 (Nat.leb_le _ _)).
  - apply IH; [rewrite not_elem_of_app, list_elem_of_singleton; intuition congruence|rewrite length_app; lia].
Qed.

Lemma play_short ls ls' rest e c : Forall (fun l => (length l < REPLY_MAX)%nat) ls ->
  play (ls ++ ls') rest e c = play ls' rest e (foldl (fun c l => on_rec l c) c ls).
Proof.
  intros H. revert c. induction H as [|l ls Hl _ IH]; intros c; [done|]. cbn [app foldl play]. rewrite (proj2 (Nat.leb_gt _ _)) by done. apply IH.
Qed.

Lemma read_loop_plays fuel rs held c : 10 ∉ held -> (length held < REPLY_MAX)%nat -> (list_sum (rx_size <$> rs) < fuel)%nat ->
  reads fuel rs held c = play_bytes (held ++ (reply_bytes rs).1) (reply_bytes rs).2 c.
Proof.
  revert rs held c. induction fuel as [|fuel IH]; intros rs held c Hn Hl Hf; [lia|]. cbn [Client.read_loop].
  assert (forall e, play_bytes (held ++ []) e c = (e, c)) as Hend.
  { intros e. unfold play_bytes. rewrite split_lines_held by done. cbn [split_lines fst snd play]. by rewrite (proj2 (Nat.leb_gt _ _)). }
  destruct rs as [|[b| |e] rs]; [by rewrite Hend| |cbn [reply_bytes]; apply IH; [done|done|csimpl in Hf; simpl in Hf; lia]|by rewrite Hend].
  cbn [reply_bytes]. destruct (decide (b = [])) as [->|Hb]; [by rewrite Hend|].
  set (n := Nat.min (length b) (REPLY_MAX - length held)).
  assert (0 < n <= length b /\ n + length held <= REPLY_MAX)%nat as (Hn0 & Hroom) by (unfold n; destruct b; [done|simpl length; lia]).
  assert (length (take n b) = n) as Htl by (rewrite length_take; lia).
  rewrite split_lines_held by done. destruct (split_lines_bounds held (take n b) Hn) as (H1 & H2 & H3).
  pose proof (split_lines_app held (take n b) (drop n b ++ (reply_bytes rs).1)) as Happ. rewrite app_assoc, take_drop in Happ.
  destruct (split_lines held (take n b)) as [ls r]. cbn [fst snd] in *. rewrite Htl in *.
  assert (forall e, play_bytes (held ++ b ++ (reply_bytes rs).1) e c =
    play_bytes (r ++ drop n b ++ (reply_bytes rs).1) e (foldl (fun c l => on_rec l c) c ls)) as Hstep.
  { intros e. unfold play_bytes. rewrite (split_lines_held held), (split_lines_held r), Happ by done. cbn [fst snd].
    apply play_short. eapply Forall_impl; [exact H3|]. cbn. lia. }
  rewrite Hstep. destruct (Nat.leb_spec REPLY_MAX (length r)) as [Hlong|Hshort]; [by rewrite play_too_long|].
  destruct (decide (drop n b = [])) as [Hd|Hd].
  - rewrite IH; [by rewrite Hd|done|done|]. csimpl in Hf. simpl in Hf. lia.
  - rewrite IH; [|done|done|].
    + cbn [reply_bytes]. rewrite decide_False by done. done.
    + csimpl. csimpl in Hf. simpl in Hf |- *. rewrite length_drop. lia.
Qed.

End Whole.
