(* ===== verification/Asked.v ===== *)
(** * What a user of ninitctl sees

    The client of ctl/ctl.c against pid 1: a command line that is sent reaches the
    server as it was typed, and the listing of the services is printed as a table
    with a row for each. *)

From stdpp Require Import gmap.
From S2P Require Import Prelude Ngraph PidMap Ring Log Console Repeat Logged World Sys Inv Live Cgroup Fail Emerg Output State Spawn Release Reap Halt Stop Frame Command Control Clients Serve Requests Loop Supervisor Mounts Written Replies Client Demo.

(** ** Words of a line *)

Definition plain_word (s : bytes) : Prop := s <> [] /\ 32 ∉ s.

Lemma skip_sp_word s x : plain_word s -> skip_sp (s ++ x) = s ++ x.
Proof. intros [Hne Hs]. destruct s as [|c s]; [done|]. apply not_elem_of_cons in Hs as [Hc _]. simpl. by destruct (Z.eqb_spec c 32). Qed.

Lemma word_end s : 32 ∉ s -> st_word s = s.
Proof.
  unfold st_word. induction s as [|c s IH]; intros Hs; [done|]. apply not_elem_of_cons in Hs as [Hc Hs]. simpl.
  destruct (Z.eqb_spec c 32); [congruence|]. by rewrite IH.
Qed.

Lemma word_space s x : 32 ∉ s -> st_word (s ++ 32 :: x) = s.
Proof. apply upto_app. Qed.

Lemma past_word_space s x : 32 ∉ s -> past_word (s ++ 32 :: x) = 32 :: x.
Proof. intros Hs. unfold past_word. rewrite word_space by done. by rewrite drop_app_length. Qed.

Lemma past_word_end s : 32 ∉ s -> past_word s = [].
Proof. intros Hs. unfold past_word. rewrite word_end by done. apply drop_all. Qed.

Lemma st_field_space s x : plain_word s -> st_field (s ++ 32 :: x) = (s, x).
Proof. intros H. unfold st_field. rewrite skip_sp_word by done. by rewrite word_space, past_word_space by apply H. Qed.

Lemma st_field_end s : plain_word s -> st_field s = (s, []).
Proof.
  intros H. unfold st_field. rewrite <- (app_nil_r s), skip_sp_word by done. rewrite app_nil_r.
  by rewrite word_end, past_word_end by apply H.
Qed.

Lemma st_tokens_space k i t s x : plain_word s ->
  st_tokens (S k) i t (s ++ 32 :: x) = st_tokens k (i + 1) (if i =? 3 then s ++ 32 :: x else t) (32 :: x).
Proof.
  intros H. cbn [st_tokens]. rewrite skip_sp_word by done. rewrite decide_False by (by destruct s). by rewrite past_word_space by apply H.
Qed.

Lemma st_tokens_skip k i t s : st_tokens (S k) i t (32 :: s) = st_tokens (S k) i t s.
Proof. done. Qed.

(** The line of a service without its tag and newline. *)
Definition row_text (r : srow) : bytes := r_name r ++ 32 :: r_state r ++ 32 :: r_want r ++ 32 :: bs "pid" ++ 32 :: r_pid r.

Record row_ok (r : srow) : Prop := RowOk {
  rk_name : plain_word (r_name r); rk_state : plain_word (r_state r); rk_want : plain_word (r_want r); rk_pid : plain_word (r_pid r);
}.

Lemma plain_pid : plain_word (bs "pid").
Proof. split; [done|]. vm_compute. intros H. by repeat (apply elem_of_cons in H as [H|H]; [done|]); apply elem_of_nil in H. Qed.

Lemma row_text_shaped r : row_ok r -> st_shaped (row_text r) = true.
Proof.
  intros [H1 H2 H3 H4]. unfold st_shaped, row_text.
  rewrite st_tokens_space, st_tokens_skip, st_tokens_space, st_tokens_skip, st_tokens_space, st_tokens_skip by done.
  rewrite (st_tokens_space _ _ _ (bs "pid")), st_tokens_skip by apply plain_pid. cbn [Z.eqb Z.add Pos.eqb Pos.add Pos.succ].
  cbn [st_tokens]. rewrite <- (app_nil_r (r_pid r)), skip_sp_word by done. rewrite app_nil_r. rewrite decide_False by apply H4.
  rewrite past_word_end by apply H4. done.
Qed.

Lemma row_text_split r : row_ok r -> st_split (row_text r) = r.
Proof.
  intros [H1 H2 H3 H4]. unfold st_split, row_text.
  rewrite !st_field_space by (done || apply plain_pid). rewrite st_field_end by done. by destruct r.
Qed.

(** ** The reply of pid 1 to "status" *)

Section Asked.
Context `{E : Env} `{!EnvOk E}.

(** What the server knows of a service. *)
Definition service_row (w : world) (i : nat) : srow :=
  match ng_name env_g i, state (w_ctr w) !! i, up (w_dep w) !! i, want w !! i, runs w !! i with
  | Some nm, Some s, Some u, Some stopped, Some r =>
      Srow nm (state_text s u) (if (stopped : bool) then bs "stopped" else bs "wanted") (dec (pid r))
  | _, _, _, _, _ => Srow [] [] [] []
  end.

Lemma usable_plain i nm : ng_name env_g i = Some nm -> plain_word nm /\ Forall (fun c => 32 < c) nm.
Proof.
  intros Hn. apply list_elem_of_lookup_2 in Hn. pose proof (gw_usable _ ok_graph nm Hn) as Hu. unfold ng_name_problem in Hu.
  destruct (Z.eqb_spec (Z.of_nat (length nm)) 0) as [|Hne]; [done|]. destruct (_ <? _); [done|].
  do 2 (destruct (_ =? _); [done|]). destruct (_ && _ && _); [done|].
  assert (Forall (fun c => 32 < c) nm) as Hall.
  { clear Hne Hn. induction nm as [|c nm IH]; [constructor|]. cbn [name_chars] in Hu. destruct (c =? 47), (c =? 44); try done.
    destruct (Z.leb_spec c 32); [done|]. destruct (c =? 127); [done|]. constructor; [lia|by apply IH]. }
  split; [|done]. split; [by intros ->|]. rewrite Forall_forall in Hall. intros H%Hall. lia.
Qed.

Definition graphic (s : bytes) : Prop := s <> [] /\ Forall (fun c => 32 < c) s.

Lemma graphic_plain s : graphic s -> plain_word s.
Proof. intros [H1 H2]. split; [done|]. rewrite Forall_forall in H2. intros H%H2. lia. Qed.

Lemma graphic_bs s : bs s <> [] -> forallb (fun c => 32 <? c) (bs s) = true -> graphic (bs s).
Proof. intros H1 H2. split; [done|]. apply Forall_forall. intros c Hc%list_elem_of_In. rewrite forallb_forall in H2. apply H2 in Hc. lia. Qed.

Lemma graphic_dec x : 0 <= x -> graphic (dec x).
Proof.
  intros Hx. destruct (dec_ok x Hx) as [H1 H2]. split; [done|]. eapply Forall_impl; [exact H1|]. cbn. lia.
Qed.

Definition row_graphic (r : srow) : Prop := graphic (r_name r) /\ graphic (r_state r) /\ graphic (r_want r) /\ graphic (r_pid r).

Lemma service_row_ok w i : served w -> (i < n_svc)%nat ->
  row_graphic (service_row w i) /\
  status_text w i = NCTL_DATA ++ row_text (service_row w i) ++ nl.
Proof.
  intros [HQ _] Hi. pose proof HQ as [[HC HD HS] _].
  destruct (name_lookup i Hi) as [nm Hnm]. destruct (usable_plain i nm Hnm) as [Hp Hg].
  destruct (lookup_lt_is_Some_2 (state (w_ctr w)) i) as [s Hs]; [by rewrite (ct_len _ HC)|].
  destruct (lookup_lt_is_Some_2 (up (w_dep w)) i) as [u Hu]; [by rewrite (de_up _ _ _ HD)|].
  destruct (side_want _ _ i HS Hi) as [wn Hwn]. destruct (side_run _ _ i HS Hi) as [r Hr].
  pose proof (so_pid _ _ (sd_svc _ _ HS i r Hr)) as Hpid.
  unfold service_row, status_text. rewrite Hnm, Hs, Hu, Hwn, Hr. cbn [r_name r_state r_want r_pid]. split.
  - unfold row_graphic. cbn [r_name r_state r_want r_pid]. split; [split; [apply Hp|done]|]. split; [destruct s, u; by apply graphic_bs|]. split; [destruct wn; by apply graphic_bs|].
    apply graphic_dec. lia.
  - unfold row_text. cbn [r_name r_state r_want r_pid]. unfold nl. rewrite <- !app_assoc. cbn [app]. rewrite <- !app_assoc. cbn [app].
    destruct wn; rewrite <- ?app_assoc; reflexivity.
Qed.

(** The listing, as the server sends it: each line is of the time it was made. *)
Definition listing_lines (ws : nat -> world) (w' : world) : list bytes :=
  ((fun i => NCTL_DATA ++ row_text (service_row (ws i) i)) <$> seq 0 n_svc) ++ [NCTL_OK ++ summary w'].

Definition listing_reply (ws : nat -> world) (w' : world) : bytes :=
  concat ((fun i => status_text (ws i) i) <$> seq 0 n_svc) ++ NCTL_OK ++ summary w' ++ nl.

Definition service_rows (ws : nat -> world) : list srow := (fun i => service_row (ws i) i) <$> seq 0 n_svc.

Definition clean (s : bytes) : Prop := 0 ∉ s /\ 10 ∉ s.

Lemma clean_app a b : clean a -> clean b -> clean (a ++ b).
Proof. unfold clean. rewrite !not_elem_of_app. tauto. Qed.

Lemma clean_cons c s : c <> 0 -> c <> 10 -> clean s -> clean (c :: s).
Proof. unfold clean. rewrite !not_elem_of_cons. intuition congruence. Qed.

Lemma graphic_clean s : graphic s -> clean s.
Proof. intros [_ H]. rewrite Forall_forall in H. split; intros Hin%H; lia. Qed.

Lemma row_text_clean r : row_graphic r -> clean (row_text r).
Proof.
  intros (H1 & H2 & H3 & H4). unfold row_text. change (bs "pid" ++ 32 :: r_pid r) with (112 :: 105 :: 100 :: 32 :: r_pid r).
  repeat (apply clean_app || (apply clean_cons; [done..|]) || by apply graphic_clean).
Qed.

Lemma clean_sp s : forallb (fun c => 31 <? c) s = true -> clean s.
Proof. rewrite forallb_forall. intros H. split; intros Hin%list_elem_of_In%H; lia. Qed.

Lemma summary_clean w : clean (summary w) .
Proof.
  unfold summary. assert (forall x, clean (dec x)) as Hd.
  { intros x. destruct (Z.leb_spec 0 x); [by apply graphic_clean, graphic_dec|]. unfold dec. rewrite (proj2 (Z.ltb_lt _ _)) by done.
    apply clean_cons; [done..|]. pose proof (dec_digits_all 20 (- x) [] ltac:(constructor)) as Hf. rewrite Forall_forall in Hf.
    split; intros Hin%Hf; lia. }
  repeat apply clean_app; try apply Hd; by apply clean_sp.
Qed.

Lemma listing_reply_lines ws w' : (forall i, (i < n_svc)%nat -> served (ws i)) ->
  listing_reply ws w' = concat ((fun l => l ++ nl) <$> listing_lines ws w') /\
  Forall (fun l => clean l /\ (length l < REPLY_MAX)%nat) (listing_lines ws w').
Proof.
  intros Hw. unfold listing_reply, listing_lines. split.
  - rewrite fmap_app, concat_app. f_equal; [|by rewrite list_fmap_singleton; cbn [concat]; rewrite app_nil_r, <- app_assoc].
    f_equal. rewrite <- list_fmap_compose. apply list_fmap_ext. intros j i Hi%list_elem_of_lookup_2%elem_of_seq. change (status_text (ws i) i = (NCTL_DATA ++ row_text (service_row (ws i) i)) ++ nl).
    destruct (service_row_ok (ws i) i) as [_ ->]; [apply Hw; lia|lia|]. by rewrite <- app_assoc.
  - apply Forall_app. split.
    + apply Forall_fmap, Forall_forall. intros i Hi%elem_of_seq. unfold compose. assert (served (ws i)) as Hs by (apply Hw; lia).
      destruct (service_row_ok (ws i) i) as [Hr Et]; [done|lia|]. split; [apply clean_app; [by apply clean_sp|by apply row_text_clean]|].
      pose proof (status_line_spec i (ws i) Hs ltac:(lia)) as Hl. unfold wp in Hl. rewrite status_line_text in Hl by (done || lia).
      destruct Hl as (_ & _ & Hl). rewrite Et in Hl. unfold zlen in Hl. rewrite app_assoc, length_app in Hl.
      apply Nat2Z.inj_lt. unfold REPLY_MAX, CTL_LINE, CTL_STATUS_LINE, NCTL_TAG_LEN, NG_MAX_NAME in *. rewrite Z2Nat.id by done. lia.
    + apply Forall_singleton. split; [apply clean_app; [by apply clean_sp|apply summary_clean]|].
      pose proof (zlen_summary w') as Hl. unfold zlen in Hl. rewrite length_app. change (length NCTL_OK) with 2%nat.
      apply Nat2Z.inj_lt. unfold REPLY_MAX, CTL_LINE. rewrite Z2Nat.id by done. lia.
Qed.

Notation status := (bs "status").
Notation o0 := (Copts false false false false None).

Lemma rows_recorded tty rows r0 : Forall row_graphic rows ->
  foldl (fun c l => on_record status o0 None tty l c) (Cl r0 false [] [] [] NCTL_EXIT_USAGE false) ((fun r => NCTL_DATA ++ row_text r) <$> rows) =
  Cl (r0 ++ (row_text <$> rows)) false [] [] [] NCTL_EXIT_USAGE false.
Proof.
  intros H. revert r0. induction H as [|r rows Hr _ IH]; intros r0; [by rewrite app_nil_r|]. rewrite !fmap_cons. cbn [foldl].
  assert (on_record status o0 None tty (NCTL_DATA ++ row_text r) (Cl r0 false [] [] [] NCTL_EXIT_USAGE false) =
    Cl (r0 ++ [row_text r]) false [] [] [] NCTL_EXIT_USAGE false) as ->; [|by rewrite IH, <- app_assoc].
  unfold on_record. rewrite cut0_plain by (apply clean_app; [by apply clean_sp|by apply row_text_clean]).
  change (begins NCTL_DATA (NCTL_DATA ++ row_text r)) with true. change (drop (Z.to_nat NCTL_TAG_LEN) (NCTL_DATA ++ row_text r)) with (row_text r).
  cbv iota zeta. change (negb _) with false. unfold stab_add. cbn [o_boot k_mem k_rows t_raw k_out k_err k_rc k_end orb tail]. rewrite row_text_shaped; [done|]. destruct Hr as (H1 & H2 & H3 & H4). constructor; by apply graphic_plain.
Qed.

Lemma rows_printed tty rows m o e rc k : rows <> [] -> Forall row_graphic rows ->
  stab_print tty (Cl (row_text <$> rows) false m o e rc k) = (true, Cl [] false m (o ++ table_text (if tty then sty_tty else sty_plain) rows) e rc k).
Proof.
  intros Hne Hrows. unfold stab_print. cbn [k_rows t_raw k_mem k_out k_err k_rc k_end negb]. rewrite decide_False by (by intros H%fmap_nil_inv).
  assert (st_split <$> (row_text <$> rows) = rows) as ->; [|done].
  rewrite <- list_fmap_compose. rewrite <- (list_fmap_id rows) at 2. apply list_fmap_ext. intros j r Hr%list_elem_of_lookup_2.
  rewrite Forall_forall in Hrows. destruct (Hrows r Hr) as (H1 & H2 & H3 & H4). apply row_text_split. constructor; by apply graphic_plain.
Qed.

Lemma summary_recorded tty w rows : rows <> [] -> Forall row_graphic rows ->
  on_record status o0 None tty (NCTL_OK ++ summary w) (Cl (row_text <$> rows) false [] [] [] NCTL_EXIT_USAGE false) =
  Cl [] false [] (table_text (if tty then sty_tty else sty_plain) rows ++ nl ++ summary w ++ nl) [] NCTL_EXIT_OK true.
Proof.
  intros Hne Hrows. unfold on_record. rewrite cut0_plain by (apply clean_app; [by apply clean_sp|apply summary_clean]).
  change (begins NCTL_DATA (NCTL_OK ++ summary w)) with false. change (begins NCTL_OK (NCTL_OK ++ summary w)) with true.
  cbv iota zeta. by rewrite rows_printed.
Qed.

End Asked.

(** ** The line that is sent *)

Definition ctl_verbs : list bytes := [bs "status"; bs "log"; bs "reload"; bs "resume"; bs "start"; bs "stop"; bs "restart"].

Lemma verb_graphic verb : verb ∈ ctl_verbs -> graphic verb.
Proof. unfold ctl_verbs. intros H. repeat (apply elem_of_cons in H as [-> | H]; [by apply graphic_bs|]). by apply elem_of_nil in H. Qed.

Lemma send_all_whole ws b sent x : send_all ws b sent = (x, None) -> x = sent ++ b.
Proof.
  revert b sent. induction ws as [|[k|e] ws IH]; intros b sent H; cbn [send_all] in H; [by simplify_eq| |].
  - destruct (decide (b = [])) as [->|]; [simplify_eq; by rewrite app_nil_r|]. destruct (0 <? k); [|done].
    apply IH in H as ->. by rewrite <- app_assoc, take_drop.
  - destruct (decide (b = [])) as [->|]; [simplify_eq; by rewrite app_nil_r|]. destruct (e =? EINTR); [by apply IH|done].
Qed.

(** What the options come to. *)
Lemma ctl_request_line verb argv o name line : ctl_request verb argv = inl (o, name, line) ->
  line = request_line verb name /\ Z.of_nat (length line) < CTL_LINE.
Proof.
  unfold ctl_request. destruct (ctl_args _ _ _) as [o'|]; [|done]. do 3 (destruct (_ && _); [done|]). cbv zeta.
  destruct (Z.leb_spec CTL_LINE (Z.of_nat (length (request_line verb (if o_boot o' then Some (bs "time") else if o_watch o' then Some (bs "watch") else o_name o'))))) as [|Hl]; [done|].
  intros [= <- <- <-]. done.
Qed.

Lemma request_parts verb name : graphic verb -> (forall n, name = Some n -> graphic n) ->
  strtok (request (request_line verb name)) = verb /\ argument (request (request_line verb name)) = name.
Proof.
  intros Hv Hn. set (s := verb ++ match name with Some n => 32 :: n | None => [] end).
  assert (clean s /\ 13 ∉ s) as [[H0 H10] H13].
  { assert (forall x, graphic x -> 13 ∉ x) as Hg by (intros x [_ Hx]; rewrite Forall_forall in Hx; intros Hin%Hx; lia).
    unfold s. destruct name as [n|].
    - specialize (Hn n eq_refl). split; [apply clean_app; [by apply graphic_clean|apply clean_cons; [done..|by apply graphic_clean]]|].
      rewrite not_elem_of_app, not_elem_of_cons. split; [by apply Hg|]. split; [done|by apply Hg].
    - rewrite app_nil_r. split; [by apply graphic_clean|by apply Hg]. }
  assert (request (request_line verb name) = s) as ->.
  { unfold request, request_line, nl. rewrite app_assoc. fold s. rewrite upto_app, cut0_plain by done. apply past_none, H13. }
  assert (32 ∉ verb) as Hsp by apply graphic_plain, Hv. unfold strtok, argument, s. destruct name as [n|].
  - rewrite upto_app, past_app by done. split; [done|]. destruct (Hn n eq_refl) as [Hne Hg]. destruct n as [|c n]; [done|].
    apply Forall_cons in Hg as [Hc _]. cbn [skip_char]. destruct (Z.eqb_spec c 32); [lia|]. by rewrite decide_False.
  - rewrite app_nil_r. by destruct (past_none 32 verb) as [-> ->].
Qed.


(** ** A reply in pieces *)

Definition no_error (e : Z) : bytes := bs "error".

(** The first five bytes, an interruption, then the rest. *)
Definition in_pieces (r : bytes) : list rx := [RxBytes (take 5 r); RxIntr; RxBytes (drop 5 r)].

Lemma in_pieces_bytes r : (5 < length r)%nat -> reply_bytes (in_pieces r) = (r, EndEof).
Proof.
  intros Hl. unfold in_pieces. cbn [reply_bytes]. rewrite decide_False by (destruct r; [simpl in Hl; lia|done]).
  rewrite decide_False by (intros H%(f_equal length); rewrite length_drop in H; simpl in H; lia). cbn [fst snd]. by rewrite app_nil_r, take_drop.
Qed.

Definition demo_table : bytes :=
  bs "  #  service  state     pid" ++ nl ++
  bs "  -------------------------" ++ nl ++
  bs "  0  fs       up          -" ++ nl ++
  bs "  1  dbus     starting  120" ++ nl ++
  bs "  2  basic    pending     -" ++ nl.

Lemma demo_shown : table_text sty_plain (service_rows (fun _ => world2)) = demo_table /\ summary world2 = bs "3 services, 1 up".
Proof. split; vm_compute; reflexivity. Qed.


