(* ===== verification/Tool.v ===== *)
(** * The tools that ask for a shutdown (tools/shutdown.c)

    shutdown, reboot, poweroff, halt and telinit: the options, the time, the wait in
    the foreground, and the signal to pid 1, or what is done when pid 1 is another
    init or the caller may not signal it. *)

From stdpp Require Import gmap.
From S2P Require Import Prelude Ngraph PidMap Ring Log Console World Sys Live Cgroup Fail Emerg Output State Spawn Release Reap Halt Stop Command Control Loop Text Lang Replace.

(** ** What is asked for *)

Inductive tact := ACT_REBOOT | ACT_POWEROFF | ACT_HALT.

Definition act_name (a : tact) : bytes :=
  match a with ACT_REBOOT => bs "reboot" | ACT_POWEROFF => bs "poweroff" | ACT_HALT => bs "halt" end.
Definition act_signal (a : tact) : Z := match a with ACT_REBOOT => SIGTERM | ACT_POWEROFF => SIGUSR2 | ACT_HALT => SIGUSR1 end.
Definition act_rb (a : tact) : Z := match a with ACT_REBOOT => RB_AUTOBOOT | ACT_POWEROFF => RB_POWER_OFF | ACT_HALT => RB_HALT_SYSTEM end.

(** The kernel and the other programs, as the tool meets them; an [option Z] of a
    call is its errno. *)
Record kern := Kern {
  n_comm : option bytes;          (* what is read of /proc/1/comm, if anything *)
  n_self : option bytes;          (* the link /proc/self/exe *)
  n_setgid : option Z; n_setuid : option Z; n_exec : option Z;
  n_tm : option (Z * Z * Z);      (* the local hour, minute and second *)
  n_uid : Z; n_rberr : Z;
  n_kill0 : bool; n_kill : option Z;
  n_console : bool;
  n_sleeps : list Z;              (* what each [sleep] leaves, none after them *)
  n_pipe : bool; n_fork : bool;   (* dbus-send, asked whether it can *)
  n_reply : list (bytes + Z);
  n_wait : option (option Z);     (* what [waitpid] gives when not interrupted *)
  n_fork2 : bool; n_wait2 : option (option Z);
}.

(** What the tool does, in order. *)
Inductive deed :=
  | AExec (path : bytes) (argv : list bytes)
  | ADbus (argv : list bytes)
  | AConsole (msg : bytes)
  | ASleep (asked left : Z)
  | ASync
  | AReboot (rb : Z)
  | AKill (p sig : Z).

(** The exit code, none when another program takes its place. *)
Record done_ := Done { d_exit : option Z; d_out : bytes; d_err : bytes; d_did : list deed }.

Definition fails (code : Z) (err : bytes) (did : list deed) : done_ := Done (Some code) [] err did.

(** ** The time *)

(** Seconds until the moment described, or -1; the numbers start with a digit. *)
Definition strtoll_at (s : bytes) : Z * bytes * bool :=
  let '(v, rest) := digits_at s 0 in if INT64_MAX <? v then (INT64_MAX, rest, true) else (v, rest, false).

Definition digit_first (s : bytes) : bool := match s with c :: _ => isdigit c | [] => false end.

(** +MINUTES, after the sign. *)
Definition minutes_when (s : bytes) : Z :=
  if negb (digit_first s) then -1 else
  let '(v, end_, range) := strtoll_at s in
  if range || bool_decide (end_ <> []) || (INT64_MAX <? v * 60) then -1 else v * 60.

(** HH:MM *)
Definition clock_when (tm : option (Z * Z * Z)) (s : bytes) : Z :=
  if negb (digit_first s) then -1 else
  let '(hh, end_, range) := strtoll_at s in
  match end_ with
  | [] => -1
  | c :: s' =>
      if range || negb (c =? 58) || (23 <? hh) || negb (digit_first s') then -1 else
      let '(mm, end_, range) := strtoll_at s' in
      if range || bool_decide (end_ <> []) || (59 <? mm) then -1 else
      match tm with
      | None => -1
      | Some (h, m, sec) =>
          let delta := (hh - h) * 3600 + (mm - m) * 60 - sec in
          if delta <? 0 then delta + 24 * 3600 else delta
      end
  end.

Definition parse_when (tm : option (Z * Z * Z)) (s : bytes) : Z :=
  if decide (s = bs "now") then 0 else
  match s with
  | [] => -1
  | c :: s' => if c =? 43 then minutes_when s' else if bool_decide (58 ∈ s) then clock_when tm s else -1
  end.

(** ** The command line *)

Definition one_of (a : bytes) (l : list string) : bool := existsb (fun s => bool_decide (a = bs s)) l.

Definition NL : bytes := [10].

Definition usage (me : bytes) : bytes :=
  bs "usage: " ++ me ++ bs " [OPTION]..." ++ (if one_of (str_base me) ["shutdown"; "ninit-shutdown"]%string then bs " TIME" else []) ++ NL ++
  NL ++
  bs "  -r         reboot" ++ NL ++
  bs "  -h, -P     power off" ++ NL ++
  bs "  -H         halt without powering off" ++ NL ++
  bs "  -f         reboot directly, without signalling pid 1" ++ NL ++
  bs "  -c         report how to cancel a pending shutdown" ++ NL ++
  bs "      --help display this help and exit" ++ NL ++
  NL ++
  bs "TIME is now, +MINUTES or HH:MM" ++ NL ++
  bs "reboot, poweroff and halt accept the same options" ++ NL.

Record topts := Topts { t_act : tact; t_when : Z; t_force : bool; t_have : bool }.

Definition set_act (a : tact) (o : topts) : topts := Topts a (t_when o) (t_force o) (t_have o).

Section Options.
Context (tm : option (Z * Z * Z)) (me : bytes).

Notation is_telinit := (bool_decide (me = bs "telinit")).
Notation is_shutdown := (one_of me ["shutdown"; "ninit-shutdown"]%string).

(** One argument, or the end of the program. *)
Definition operand (a : bytes) (o : topts) : topts + done_ :=
  if is_telinit then
    if decide (a = bs "0") then inl (Topts ACT_POWEROFF (t_when o) (t_force o) true) else
    if decide (a = bs "6") then inl (Topts ACT_REBOOT (t_when o) (t_force o) true) else
    if one_of a ["q"; "Q"]%string then inr (fails 0 [] []) else
    inr (fails 2 (me ++ bs ": unknown runlevel '" ++ a ++ bs "', expected 0 or 6" ++ NL) [])
  else if t_have o then inl o else
  let w := parse_when tm a in
  if w <? 0 then inr (fails 2 (me ++ bs ": invalid time '" ++ a ++ bs "'" ++ NL) []) else
  inl (Topts (t_act o) w (t_force o) true).

Fixpoint options (argv : list bytes) (o : topts) : topts + done_ :=
  match argv with
  | [] => inl o
  | a :: argv' =>
      if decide (a = bs "--help") then inr (Done (Some 0) (usage me) [] []) else
      if decide (a = bs "-r") then options argv' (set_act ACT_REBOOT o) else
      if one_of a ["-h"; "-P"]%string then options argv' (set_act ACT_POWEROFF o) else
      if decide (a = bs "-H") then options argv' (set_act ACT_HALT o) else
      if decide (a = bs "-p") then options argv' (set_act ACT_POWEROFF o) else
      if decide (a = bs "-f") then options argv' (Topts (t_act o) (t_when o) true (t_have o)) else
      if decide (a = bs "-c") then
        inr (fails 1 (me ++ bs ": a pending shutdown runs in the foreground, interrupt it instead" ++ NL) []) else
      if one_of a ["-t"; "-k"; "-n"; "-w"; "-d"]%string then
        match argv' with
        | _ :: argv'' => if decide (a = bs "-t") then options argv'' o else options argv' o
        | [] => inl o
        end
      else if bool_decide (take 1 a = bs "-") && (1 <? length a)%nat then
        inr (fails 2 (me ++ bs ": unrecognized option '" ++ a ++ bs "'" ++ NL ++ usage me) []) else
      match operand a o with
      | inl o => options argv' o
      | inr r => inr r
      end
  end.

Definition first_act : tact :=
  if decide (me = bs "reboot") then ACT_REBOOT else
  if decide (me = bs "poweroff") then ACT_POWEROFF else
  if decide (me = bs "halt") then ACT_HALT else ACT_POWEROFF.

Definition command (argv : list bytes) : topts + done_ :=
  match options argv (Topts first_act 0 false false) with
  | inr r => inr r
  | inl o =>
      if is_telinit && negb (t_have o) then inr (fails 2 (me ++ bs ": missing runlevel operand" ++ NL) []) else
      if is_shutdown && negb (t_have o) then inr (fails 2 (me ++ bs ": missing time operand" ++ NL ++ usage me) []) else
      inl o
  end.
End Options.

(** ** Another init *)

Section Tool.
Context (strerror : Z -> bytes).

(** [None] when /proc/1/comm cannot be read. *)
Definition pid1_is_ninit (k : kern) : option bool :=
  match n_comm k with
  | None | Some [] => None
  | Some b => Some (bool_decide (upto 10 (cut0 b) = bs "ninit"))
  end.

Definition NINIT_SBINDIR : bytes := bs "/sbin".

(** The tool the other init brought, which ninit kept as [name].old. *)
Definition fallback_path (k : kern) (name : bytes) : bytes :=
  take (Z.to_nat (4096 + 128 - 1)) (match n_self k with
    | Some (c :: s) => let self := cut0 (c :: s) in match split_slash self with Some (d, _) => d | None => self end
    | _ => NINIT_SBINDIR
    end ++ bs "/" ++ name ++ bs ".old").

Definition fallback (k : kern) (name : bytes) (argv : list bytes) : done_ :=
  let path := fallback_path k name in
  match n_setgid k, n_setuid k with
  | Some e, _ => fails 1 (name ++ bs ": setgid: " ++ strerror e ++ NL) []
  | None, Some e => fails 1 (name ++ bs ": setuid: " ++ strerror e ++ NL) []
  | None, None =>
      let ex := [AExec path (take 63 name :: argv)] in
      match n_exec k with
      | None => Done None [] [] ex
      | Some e => fails 1 (name ++ bs ": pid 1 is not ninit and " ++ path ++ bs ": " ++ strerror e ++ NL) ex
      end
  end.

(** ** Through logind *)

Definition exited_0 (w : option (option Z)) : bool := match w with Some (Some 0) => true | _ => false end.

Definition method (a : tact) : bytes := match a with ACT_REBOOT => bs "Reboot" | ACT_POWEROFF => bs "PowerOff" | ACT_HALT => bs "Halt" end.
Definition manager : bytes := bs "org.freedesktop.login1.Manager.".

Definition try_logind (k : kern) (a : tact) : bool * list deed :=
  if negb (n_fork2 k) then (false, []) else
  (exited_0 (n_wait2 k),
   [ADbus [bs "dbus-send"; bs "--system"; bs "--dest=org.freedesktop.login1"; bs "/org/freedesktop/login1"; manager ++ method a; bs "boolean:true"]]).

(** The answer, in a buffer of 31 bytes; an interruption is tried again. *)
Fixpoint dbus_reply (rs : list (bytes + Z)) (buf : bytes) : bytes :=
  match rs with
  | [] => buf
  | r :: rs' =>
      if (31 <=? Z.of_nat (length buf)) then buf else
      match r with
      | inl [] => buf
      | inl b => dbus_reply rs' (buf ++ take (31 - length buf) b)
      | inr e => if e =? EINTR then dbus_reply rs' buf else buf
      end
  end.

Definition blank3 (c : Z) : bool := (c =? 32) || (c =? 9) || (c =? 10).
Fixpoint skip_blank3 (s : bytes) : bytes := match s with c :: s' => if blank3 c then skip_blank3 s' else s | [] => [] end.
Fixpoint to_blank3 (s : bytes) : bytes := match s with c :: s' => if blank3 c then [] else c :: to_blank3 s' | [] => [] end.

Definition logind_can (k : kern) (a : tact) : bool * list deed :=
  if negb (n_pipe k) || negb (n_fork k) then (false, []) else
  let w := to_blank3 (skip_blank3 (cut0 (dbus_reply (n_reply k) []))) in
  (exited_0 (n_wait k) && one_of w ["yes"; "challenge"]%string,
   [ADbus [bs "dbus-send"; bs "--system"; bs "--print-reply=literal"; bs "--dest=org.freedesktop.login1"; bs "/org/freedesktop/login1"; manager ++ bs "Can" ++ method a]]).

(** ** The wait *)

Definition warn_console (k : kern) (me : bytes) (a : tact) (secs : Z) : list deed :=
  let n := if 60 <=? secs then Z.quot secs 60 else secs in
  let unit_ := if 60 <=? secs then bs " minute" else bs " second" in
  if n_console k then [AConsole (take 159 ([13; 10] ++ me ++ bs ": " ++ act_name a ++ bs " in " ++ dec n ++ unit_ ++ plural n ++ [13; 10]))] else [].

(** [sleep] leaves at most what it was asked for. *)
Fixpoint sleep_loop (fuel : nat) (when : Z) (sleeps : list Z) : option (list deed) :=
  match fuel with
  | O => None
  | S fuel' =>
      if when <=? 0 then Some [] else
      let s := if UINT32_MAX <? when then UINT32_MAX else when in
      let left := match sleeps with l :: _ => Z.max 0 (Z.min l s) | [] => 0 end in
      l ← sleep_loop fuel' (when - (s - left)) (tail sleeps);
      Some (ASleep s left :: l)
  end.

Definition sleeping (k : kern) (when : Z) : option (list deed) := sleep_loop (S (length (n_sleeps k) + Z.to_nat (when / UINT32_MAX + 1))) when (n_sleeps k).

(** ** main *)

Definition denied (me : bytes) : bytes := me ++ bs ": permission denied, must be run as root" ++ NL.

(** The wait announced and slept, and what was done before. *)
Definition carry_out (k : kern) (me : bytes) (o : topts) : option done_ :=
  let act := t_act o in
  if t_force o then
    if negb (n_uid k =? 0) then Some (fails 1 (me ++ bs ": -f requires root" ++ NL) []) else
    Some (fails 1 (me ++ bs ": reboot: " ++ strerror (n_rberr k) ++ NL) [ASync; AReboot (s32 (u32 (act_rb act)))])
  else
  let privileged := n_kill0 k in
  let '(can, asked) := if (0 <? t_when o) && negb privileged then logind_can k act else (true, []) in
  if negb can then Some (fails 1 (denied me) asked) else
  let said := if 0 <? t_when o then me ++ bs ": " ++ act_name act ++ bs " in " ++ dec (t_when o) ++ bs " seconds" ++ NL else [] in
  slept ← (if 0 <? t_when o then sleeping k (t_when o) else Some []);
  let before := asked ++ (if 0 <? t_when o then warn_console k me act (t_when o) else []) ++ slept in
  if negb privileged then
    let '(ok, did) := try_logind k act in
    Some (if ok then Done (Some 0) said [] (before ++ did) else Done (Some 1) said (denied me) (before ++ did))
  else
    match n_kill k with
    | Some e => Some (Done (Some 1) said (me ++ bs ": cannot signal pid 1: " ++ strerror e ++ NL) (before ++ [AKill 1 (act_signal act)]))
    | None => Some (Done (Some 0) said [] (before ++ [AKill 1 (act_signal act)]))
    end.

(** [argv] is what follows the name. *)
Definition tool (k : kern) (argv0 : option bytes) (argv : list bytes) : option done_ :=
  let me := match argv0 with Some a => str_base a | None => bs "ninit-shutdown" end in
  if decide (pid1_is_ninit k = Some false) then Some (fallback k me argv) else
  match command (n_tm k) me argv with
  | inr r => Some r
  | inl o => carry_out k me o
  end.
End Tool.

(** ** The times that are understood *)

Definition digits (s : bytes) : Prop := Forall (fun c => isdigit c = true) s.

Lemma digits_at_app ds rest acc : digits ds -> digit_first rest = false -> digits_at (ds ++ rest) acc = ((digits_at ds acc).1, rest).
Proof.
  intros H Hr. revert acc. induction H as [|c ds Hc _ IH]; intros acc; cbn [app digits_at]; [|rewrite Hc; apply IH].
  destruct rest as [|c rest]; [done|]. cbn [digits_at digit_first] in *. by rewrite Hr.
Qed.

Lemma digits_at_split s acc : exists ds, s = ds ++ (digits_at s acc).2 /\ digits ds /\ digit_first (digits_at s acc).2 = false /\
  (digits_at ds acc).1 = (digits_at s acc).1 /\ (digit_first s = true -> ds <> []).
Proof.
  revert acc. induction s as [|c s IH]; intros acc; [exists []; split_ands; try done; constructor|]. cbn [digits_at digit_first]. destruct (isdigit c) eqn:Hc.
  - destruct (IH (acc * 10 + (c - 48))) as (ds & H1 & H2 & H3 & H4 & _). exists (c :: ds). cbn [app digits_at]. rewrite Hc.
    split; [by f_equal|]. split; [by constructor|]. done.
  - exists []. cbn [digit_first fst snd]. split_ands; try done. constructor.
Qed.

(** A decimal number, with any zeros before it. *)
Definition number (s : bytes) (v : Z) : Prop := s <> [] /\ digits s /\ (digits_at s 0).1 = v.

Lemma number_first s v rest : number s v -> digit_first (s ++ rest) = true.
Proof. intros (Hne & Hd & _). destruct s; [done|]. by apply Forall_cons in Hd as [Hc _]. Qed.

Lemma strtoll_number s v rest : number s v -> digit_first rest = false -> v <= INT64_MAX -> strtoll_at (s ++ rest) = (v, rest, false).
Proof. intros (_ & Hd & Hv) Hr Hm. unfold strtoll_at. rewrite digits_at_app by done. rewrite Hv. by rewrite (proj2 (Z.ltb_ge _ _)). Qed.

Lemma strtoll_at_inv s v rest : digit_first s = true -> strtoll_at s = (v, rest, false) ->
  exists ds, s = ds ++ rest /\ number ds v /\ digit_first rest = false /\ 0 <= v <= INT64_MAX.
Proof.
  intros Hf. unfold strtoll_at. destruct (digits_at_split s 0) as (ds & H1 & H2 & H3 & H4 & H5). pose proof (digits_at_nonneg s 0 ltac:(lia)) as H0.
  destruct (digits_at s 0) as [v' rest']. cbn [fst snd] in *. destruct (Z.ltb_spec INT64_MAX v'); intros [= <- <-].
  exists ds. split; [done|]. split; [split; [by apply H5|done]|]. split; [done|lia].
Qed.

(** The moment a time describes is so many seconds away: on the clock it is the next
    at which the local time is the one given. *)
Inductive moment (tm : option (Z * Z * Z)) : bytes -> Z -> Prop :=
  | moment_now : moment tm (bs "now") 0
  | moment_minutes ds n : number ds n -> n * 60 <= INT64_MAX -> moment tm (43 :: ds) (n * 60)
  | moment_clock hs hh ms mm h m sec d : number hs hh -> number ms mm -> hh <= 23 -> mm <= 59 -> tm = Some (h, m, sec) ->
      0 <= d < 86400 -> (h * 3600 + m * 60 + sec + d) mod 86400 = hh * 3600 + mm * 60 -> moment tm (hs ++ 58 :: ms) d.

(** What [localtime_r] fills in, a leap second included. *)
Definition tm_ok (tm : option (Z * Z * Z)) : Prop :=
  match tm with Some (h, m, sec) => 0 <= h <= 23 /\ 0 <= m <= 59 /\ 0 <= sec <= 60 | None => True end.

Lemma number_nonneg s v : number s v -> 0 <= v.
Proof. intros (_ & _ & <-). by apply digits_at_nonneg. Qed.

(** The wait until a time of the day. *)
Lemma delta_next target now_ : 0 <= target < 86400 -> 0 <= now_ <= 86400 ->
  let d := if target - now_ <? 0 then target - now_ + 24 * 3600 else target - now_ in 0 <= d < 86400 /\ (now_ + d) mod 86400 = target.
Proof.
  intros Ht Hn. cbv zeta. destruct (Z.ltb_spec (target - now_) 0).
  - split; [lia|]. replace (now_ + _) with (target + 1 * 86400) by lia. rewrite Z.mod_add by lia. by apply Z.mod_small.
  - split; [lia|]. replace (now_ + _) with target by lia. by apply Z.mod_small.
Qed.

Lemma minutes_when_spec tm s : minutes_when s = -1 \/ moment tm (43 :: s) (minutes_when s).
Proof.
  unfold minutes_when. destruct (digit_first s) eqn:Hf; [|by left]. cbn [negb]. destruct (strtoll_at s) as [[v e] r] eqn:H1. destruct r; [by left|].
  destruct (decide (e = [])) as [->|Hne]; [|by left; rewrite bool_decide_true]. rewrite bool_decide_false by (intros Hx; by apply Hx).
  cbn [orb]. destruct (Z.ltb_spec INT64_MAX (v * 60)); [by left|]. right.
  destruct (strtoll_at_inv _ _ _ Hf H1) as (ds & E1 & N1 & _ & _). rewrite app_nil_r in E1. subst ds. by constructor.
Qed.

Lemma clock_when_spec tm s : tm_ok tm -> clock_when tm s = -1 \/ moment tm s (clock_when tm s).
Proof.
  intros Htm. unfold clock_when. destruct (digit_first s) eqn:Hf; [|by left]. cbn [negb].
  destruct (strtoll_at s) as [[hh e] r] eqn:H1. destruct e as [|c s']; [by left|]. destruct r; [by left|].
  destruct (Z.eqb_spec c 58) as [->|Hc]; [|by left]. destruct (Z.ltb_spec 23 hh); [by left|]. destruct (digit_first s') eqn:Hf'; [|by left].
  cbn [negb orb]. destruct (strtoll_at s') as [[mm e2] r2] eqn:H2. destruct r2; [by left|].
  destruct (decide (e2 = [])) as [->|Hne]; [|by left; rewrite bool_decide_true]. rewrite bool_decide_false by (intros Hx; by apply Hx).
  destruct (Z.ltb_spec 59 mm); [by left|]. cbn [orb]. destruct tm as [[[h m] sec]|]; [|by left]. right.
  destruct (strtoll_at_inv _ _ _ Hf H1) as (hs & E1 & N1 & _ & B1), (strtoll_at_inv _ _ _ Hf' H2) as (ms & E2 & N2 & _ & B2).
  rewrite app_nil_r in E2. subst s' s. destruct Htm as (T1 & T2 & T3).
  destruct (delta_next (hh * 3600 + mm * 60) (h * 3600 + m * 60 + sec)) as [D1 D2]; [lia..|].
  replace ((hh - h) * 3600 + (mm - m) * 60 - sec) with (hh * 3600 + mm * 60 - (h * 3600 + m * 60 + sec)) by lia. by eapply moment_clock.
Qed.

Lemma parse_when_sound tm s : tm_ok tm -> parse_when tm s = -1 \/ moment tm s (parse_when tm s).
Proof.
  intros Htm. unfold parse_when. destruct (decide (s = bs "now")) as [->|_]; [right; constructor|].
  destruct s as [|c s]; [by left|]. destruct (Z.eqb_spec c 43) as [->|Hc]; [apply minutes_when_spec|].
  destruct (bool_decide _); [by apply clock_when_spec|by left].
Qed.

Lemma digits_not c s : digits s -> isdigit c = false -> c ∉ s.
Proof. unfold digits. rewrite Forall_forall. intros H Hc Hin%H. congruence. Qed.

Lemma parse_when_complete tm s v : tm_ok tm -> moment tm s v -> parse_when tm s = v.
Proof.
  intros Htm [|ds n Hn Hm|hs hh ms mm h m sec d Hh Hmi B1 B2 -> Hd Hmod]; [done| |].
  - unfold parse_when. rewrite decide_False by done. cbn [Z.eqb Pos.eqb]. unfold minutes_when.
    rewrite <- (app_nil_r ds). rewrite (number_first ds n) by done. cbn [negb]. pose proof (number_nonneg _ _ Hn).
    rewrite (strtoll_number ds n) by (done || lia). cbn [orb]. rewrite bool_decide_false by (intros Hx; by apply Hx). cbn [orb].
    by rewrite (proj2 (Z.ltb_ge _ _)).
  - pose proof (number_nonneg _ _ Hh) as P1. pose proof (number_nonneg _ _ Hmi) as P2. assert (INT64_MAX = 9223372036854775807) as EM by done.
    pose proof (number_first hs hh (58 :: ms) Hh) as F1. pose proof (number_first ms mm [] Hmi) as F2. rewrite app_nil_r in F2.
    assert (parse_when (Some (h, m, sec)) (hs ++ 58 :: ms) = clock_when (Some (h, m, sec)) (hs ++ 58 :: ms)) as ->.
    { unfold parse_when. rewrite decide_False by (intros E; rewrite E in F1; done).
      destruct (hs ++ 58 :: ms) as [|c s1] eqn:E; [done|]. cbn [digit_first] in F1. destruct (Z.eqb_spec c 43) as [->|]; [done|].
      rewrite bool_decide_true; [done|]. rewrite <- E. apply elem_of_app. right. by left. }
    unfold clock_when. rewrite F1. cbn [negb]. rewrite (strtoll_number hs hh) by (done || lia). cbn [Z.eqb Pos.eqb negb orb].
    rewrite (proj2 (Z.ltb_ge _ _)) by done. rewrite F2. cbn [negb orb]. rewrite <- (app_nil_r ms), (strtoll_number ms mm) by (done || lia).
    rewrite bool_decide_false by (intros Hx; by apply Hx). rewrite (proj2 (Z.ltb_ge _ _)) by done. cbn [orb]. cbv zeta.
    destruct Htm as (T1 & T2 & T3).
    destruct (delta_next (hh * 3600 + mm * 60) (h * 3600 + m * 60 + sec)) as [D1 D2]; [lia..|].
    replace ((hh - h) * 3600 + (mm - m) * 60 - sec) with (hh * 3600 + mm * 60 - (h * 3600 + m * 60 + sec)) by lia.
    set (x := if _ <? _ then _ else _) in *. pose proof (Z.div_mod (h * 3600 + m * 60 + sec + d) 86400 ltac:(lia)).
    pose proof (Z.div_mod (h * 3600 + m * 60 + sec + x) 86400 ltac:(lia)). lia.
Qed.

(** C25. The times that shutdown takes are exactly "now", a number of minutes after a
    plus sign whose seconds fit 64 bits, and an hour and a minute of the day; what it
    makes of them is the number of seconds until then, for a time of the day the next
    moment at which the clock shows it, within a day; anything else, with blanks,
    signs, missing or trailing characters or numbers out of range, is refused. *)
Theorem parse_when_exact tm s : tm_ok tm ->
  (forall v, moment tm s v <-> parse_when tm s = v /\ 0 <= v) /\ ((forall v, ~ moment tm s v) -> parse_when tm s = -1).
Proof.
  intros Htm. assert (forall v, moment tm s v -> 0 <= v) as Hpos by (intros v [|ds n Hn _| ]; [done|pose proof (number_nonneg _ _ Hn); lia|lia]).
  destruct (parse_when_sound tm s Htm) as [H1|H1]; split.
  - intros v. split; [intros Hm; split; [by apply parse_when_complete|by apply Hpos]|lia].
  - done.
  - intros v. split; [intros Hm; split; [by apply parse_when_complete|by apply Hpos]|]. by intros [<- _].
  - intros Hn. by destruct (Hn _ H1).
Qed.

(** ** What the tool does *)

(** The seconds slept. *)
Fixpoint slept (l : list deed) : Z :=
  match l with
  | [] => 0
  | ASleep s rem :: l' => s - rem + slept l'
  | _ :: l' => slept l'
  end.

Lemma slept_app a b : slept (a ++ b) = slept a + slept b.
Proof. induction a as [|[] a IH]; cbn [app slept]; lia. Qed.

(** Waiting is all there is in [l], and no longer than [sleep] can be asked for. *)
Definition naps (l : list deed) : Prop := Forall (fun d => exists s rem, d = ASleep s rem /\ 0 <= rem <= s /\ s <= UINT32_MAX) l.

Lemma sleep_loop_spec fuel (when : Z) sleeps :
  (length sleeps + (if (when <=? 0)%Z then 0 else Z.to_nat (when / UINT32_MAX + 1)) < fuel)%nat ->
  exists l, sleep_loop fuel when sleeps = Some l /\ naps l /\ slept l = Z.max 0 when.
Proof.
  revert when sleeps. induction fuel as [|fuel IH]; intros when sleeps Hf; [lia|]. cbn [sleep_loop].
  destruct (Z.leb_spec when 0); [exists []; split_ands; [done|constructor|simpl; lia]|].
  assert (UINT32_MAX = 4294967295) as EU by done.
  set (s := if UINT32_MAX <? when then UINT32_MAX else when). assert (0 < s <= when /\ s <= UINT32_MAX /\ (s = when \/ s = UINT32_MAX)) as (Hs & Hs2 & Hs3).
  { unfold s. destruct (Z.ltb_spec UINT32_MAX when); lia. }
  set (rem := match sleeps with l :: _ => _ | [] => 0 end). assert (0 <= rem <= s) as Hl by (unfold rem; destruct sleeps; lia).
  assert ((when - (s - rem)) / UINT32_MAX <= when / UINT32_MAX) as Hdiv by (apply Z.div_le_mono; lia).
  pose proof (Z.div_pos when UINT32_MAX ltac:(lia) ltac:(lia)) as Hpos.
  destruct (IH (when - (s - rem)) (tail sleeps)) as (l & -> & Hn & Hsl).
  { destruct sleeps as [|x sleeps]; cbn [tail length] in *.
    - unfold rem. destruct Hs3 as [-> | ->]; [rewrite (proj2 (Z.leb_le _ _)) by lia; lia|].
      replace (when - (UINT32_MAX - 0)) with (when + (-1) * UINT32_MAX) by lia. rewrite Z.div_add by lia. destruct (_ <=? 0); lia.
    - destruct (_ <=? 0); lia. }
  cbn. exists (ASleep s rem :: l). split; [done|]. split; [constructor; [by exists s, rem|done]|]. cbn [slept]. rewrite Hsl. lia.
Qed.

Lemma sleeping_spec k when : exists l, sleeping k when = Some l /\ naps l /\ slept l = Z.max 0 when.
Proof. apply sleep_loop_spec. destruct (_ <=? 0); lia. Qed.

(** Neither a signal nor the end of the machine. *)
Definition calm (d : deed) : Prop := match d with AKill _ _ | AReboot _ => False | _ => True end.

Lemma naps_calm l : naps l -> Forall calm l.
Proof. intros H. eapply Forall_impl; [exact H|]. by intros d (s & r & -> & _). Qed.

Lemma calm_not l : Forall calm l -> (forall p s, AKill p s ∉ l) /\ (forall rb, AReboot rb ∉ l).
Proof. rewrite Forall_forall. intros H. split; intros; intros Hin%H; done. Qed.

Section Deeds.
Context (strerror : Z -> bytes) (k : kern) (me : bytes).

Lemma logind_can_calm a : Forall calm (logind_can k a).2 /\ slept (logind_can k a).2 = 0.
Proof. unfold logind_can. destruct (_ || _); split; try done; by repeat constructor. Qed.

Lemma try_logind_calm a : Forall calm (try_logind k a).2 /\ slept (try_logind k a).2 = 0.
Proof. unfold try_logind. destruct (negb _); split; try done; by repeat constructor. Qed.

Lemma warn_console_calm a s : Forall calm (warn_console k me a s) /\ slept (warn_console k me a s) = 0.
Proof. unfold warn_console. destruct (n_console k); split; try done; by repeat constructor. Qed.

(** What is done for a request that is understood. *)
Record carried (o : topts) (r : done_) : Prop := Carried {
  ca_force : t_force o = true -> n_uid k = 0 -> d_did r = [ASync; AReboot (s32 (u32 (act_rb (t_act o))))];
  ca_refused : t_force o = true -> n_uid k <> 0 -> d_did r = [];
  ca_signal : t_force o = false -> n_kill0 k = true -> exists l, d_did r = l ++ [AKill 1 (act_signal (t_act o))] /\
    Forall calm l /\ slept l = Z.max 0 (t_when o) /\ (d_exit r = Some 0 <-> n_kill k = None);
  ca_calm : t_force o = false -> n_kill0 k = false -> Forall calm (d_did r);
}.

Lemma carry_out_spec o : exists r, carry_out strerror k me o = Some r /\ carried o r.
Proof.
  unfold carry_out. destruct (t_force o) eqn:Hfo.
  { destruct (Z.eqb_spec (n_uid k) 0); eexists; (split; [done|]); constructor; intros; first [done|congruence]. }
  assert (exists l, (if 0 <? t_when o then sleeping k (t_when o) else Some []) = Some l /\ Forall calm l /\ slept l = Z.max 0 (t_when o)) as (l & El & Cl & Sl).
  { destruct (Z.ltb_spec 0 (t_when o)); [|exists []; split_ands; [done|constructor|simpl; lia]].
    destruct (sleeping_spec k (t_when o)) as (l & H1 & H2 & H3). exists l. by split_ands; try apply naps_calm. }
  rewrite El. clear El. destruct (n_kill0 k) eqn:Hk; cbn [negb].
  - rewrite andb_false_r. cbn [negb mbind option_bind app].
    set (c := if 0 <? t_when o then warn_console _ _ _ _ else _). assert (Forall calm c /\ slept c = 0) as [Cc Sc] by (unfold c; destruct (_ <? _); [apply warn_console_calm|by split]).
    assert (Forall calm (c ++ l) /\ slept (c ++ l) = Z.max 0 (t_when o)) as [Ccl Scl] by (rewrite Forall_app, slept_app; split; [done|lia]).
    destruct (n_kill k) as [e|] eqn:Hkill; eexists; (split; [done|]); constructor; intros; try congruence; exists (c ++ l); cbn [d_did d_exit]; (split; [by rewrite <- app_assoc|]); (split; [done|]); (split; [done|]); rewrite Hkill; split; congruence.
  - rewrite andb_true_r. assert (forall b : bool, Forall calm (if b then logind_can k (t_act o) else (true, [])).2) as Cd by (intros []; [apply logind_can_calm|constructor]).
    specialize (Cd (0 <? t_when o)). destruct (if 0 <? t_when o then logind_can k (t_act o) else (true, [])) as [can asked]. cbn [snd] in Cd.
    destruct can; cbn [negb]; [|eexists; split; [done|]; constructor; intros; first [done|congruence]]. cbn [mbind option_bind].
    set (c := if 0 <? t_when o then warn_console _ _ _ _ else _). assert (Forall calm c) as Cc by (unfold c; destruct (_ <? _); [apply warn_console_calm|constructor]).
    pose proof (try_logind_calm (t_act o)) as [Ct _]. destruct (try_logind k (t_act o)) as [ok did]. cbn [snd] in Ct.
    destruct ok; eexists; (split; [done|]); constructor; intros; try congruence; cbn [d_did]; by rewrite !Forall_app.
Qed.
End Deeds.

Lemma options_calm tm me argv o r : options tm me argv o = inr r -> d_did r = [].
Proof.
  remember (length argv) as n eqn:Hn. revert argv o Hn. induction (lt_wf n) as [n _ IH]. intros [|a argv] o ->; [done|]. cbn [options].
  assert (forall b o, (length b < length (a :: argv))%nat -> options tm me b o = inr r -> d_did r = []) as IH' by (intros b o' Hb; by eapply (IH (length b))).
  clear IH. destruct (decide (a = bs "--help")); [by intros [= <-]|]. do 5 (case_match; [by apply IH'; simpl; lia|]).
  destruct (decide (a = bs "-c")); [by intros [= <-]|]. case_match.
  { destruct argv as [|x argv]; [done|]. case_match; apply IH'; simpl; lia. }
  case_match; [by intros [= <-]|]. destruct (operand tm me a o) as [o'|r'] eqn:Hop; [apply IH'; simpl; lia|]. intros [= ->].
  unfold operand in Hop. repeat case_match; by simplify_eq.
Qed.

Lemma command_calm tm me argv r : command tm me argv = inr r -> d_did r = [].
Proof.
  unfold command. destruct (options _ _ _ _) as [o|r'] eqn:Ho; [|intros [= <-]; by eapply options_calm].
  destruct (_ && _); [by intros [= <-]|]. destruct (_ && _); [by intros [= <-]|done].
Qed.


(** ** A reboot in a minute *)

Definition kern0 : kern :=
  Kern (Some (bs "ninit" ++ NL)) None None None None (Some (10, 30, 15)) 0 0 true None true [20; 0] true true [] None true None.

Definition tool_err (e : Z) : bytes := bs "error".

Lemma reboot_soon : tool tool_err kern0 (Some (bs "/sbin/shutdown")) [bs "-P"; bs "-r"; bs "+1"] = Some (Done (Some 0)
  (bs "shutdown: reboot in 60 seconds" ++ NL) []
  [AConsole ([13; 10] ++ bs "shutdown: reboot in 1 minute" ++ [13; 10]); ASleep 60 20; ASleep 20 0; AKill 1 15]).
Proof. vm_compute. reflexivity. Qed.

Lemma parse_when_exact_witness : parse_when (Some (10, 30, 15)) (bs "10:30") = 86385 /\ moment (Some (10, 30, 15)) (bs "010:31") 45.
Proof.
  split; [vm_compute; reflexivity|]. apply (proj1 (parse_when_exact (Some (10, 30, 15)) (bs "010:31") ltac:(cbn; lia))).
  split; [vm_compute; reflexivity|lia].
Defined.
