(* ===== verification/Locale.v ===== *)
(** * The locale of the services (src/ngraph.c, load_locale of src/boot.c)

    /etc/locale.conf is read as the assignments of a shell script would be, and what
    it sets becomes part of the environment of every child (child_exec of
    src/spawn.c). *)

From stdpp Require Import gmap.
From S2P Require Import Prelude Ngraph Cgroup Mounts Written.

Definition NG_LOCALE_MAX : nat := 14.
Definition NG_LOCALE_LEN : nat := 128.
Definition NG_LOCALE_FILE : Z := 8192.
Definition NG_FALLBACK_LANG : bytes := bs "C.UTF-8".
Definition NG_LOCALE_CONF : bytes := bs "/etc/locale.conf".

Definition locale_vars : list bytes :=
  [bs "LANG"; bs "LC_ALL"; bs "LC_CTYPE"; bs "LC_NUMERIC"; bs "LC_TIME"; bs "LC_COLLATE"; bs "LC_MONETARY"; bs "LC_MESSAGES";
   bs "LC_PAPER"; bs "LC_NAME"; bs "LC_ADDRESS"; bs "LC_TELEPHONE"; bs "LC_MEASUREMENT"; bs "LC_IDENTIFICATION"].

Definition locale_char (c : Z) : bool :=
  ((97 <=? c) && (c <=? 122)) || ((65 <=? c) && (c <=? 90)) || ((48 <=? c) && (c <=? 57)) || (c =? 95) || (c =? 46) || (c =? 45) || (c =? 64).

Definition locale_value_ok (v : bytes) : bool := negb (bool_decide (v = [])) && forallb locale_char v.

(** The text from the first byte that is none of [cs], and the text before the first
    that is one. *)
Fixpoint skip_of (cs s : bytes) : bytes := match s with c :: s' => if bool_decide (c ∈ cs) then skip_of cs s' else s | [] => [] end.
Fixpoint upto_of (cs s : bytes) : bytes := match s with c :: s' => if bool_decide (c ∈ cs) then [] else c :: upto_of cs s' | [] => [] end.

Definition chop_of (cs s : bytes) : bytes := rev (skip_of cs (rev s)).

Fixpoint var_at (k : nat) (nm : bytes) (vars : list bytes) : option nat :=
  match vars with
  | [] => None
  | v :: vars' => if decide (nm = v) then Some k else var_at (S k) nm vars'
  end.

(** A line sets a variable, is passed over, or is a mistake. *)
Inductive lline := LSkip | LNote (msg : string) | LSet (k : nat) (v : bytes).

Definition locale_value (k : nat) (v : bytes) : lline :=
  if negb (locale_value_ok v) then LNote "has a value that is not a locale name" else
  if (NG_LOCALE_LEN <=? length (nth k locale_vars []) + 1 + length v)%nat then LNote "has a value that is too long" else
  LSet k v.

Definition is_mark (c : Z) : bool := (c =? 34) || (c =? 39).

Definition locale_line (l : bytes) : lline :=
  let name := skip_of [32; 9] l in
  if bool_decide (take 1 name = [35]) || bool_decide (name = []) then LSkip else
  match past 61 name with
  | None => LNote "has a line that is not name=value"
  | Some v =>
      let v := skip_of [32; 9] v in
      match var_at 0 (chop_of [32; 9] (upto 61 name)) locale_vars with
      | None => LSkip
      | Some k =>
          match v with
          | q :: v' =>
              if is_mark q then
                match past q v' with
                | None => LNote "has a value with no closing quote"
                | Some rest =>
                    let rest := skip_of [32; 9; 13] rest in
                    if negb (bool_decide (rest = [])) && negb (bool_decide (take 1 rest = [35])) then LNote "has trailing text after a quoted value" else
                    locale_value k (upto q v')
                end
              else locale_value k (upto_of [32; 9; 13; 35] v)
          | [] => locale_value k []
          end
      end
  end.

(** The values, where that of each variable is with 0 for none, and the first
    mistake. *)
Record lstate_ := Lst { l_vals : list bytes; l_seen : list nat; l_why : option string }.

Definition note_why (msg : string) (s : lstate_) : lstate_ :=
  Lst (l_vals s) (l_seen s) (match l_why s with None => Some msg | w => w end).

Definition locale_entry (k : nat) (v : bytes) : bytes := nth k locale_vars [] ++ 61 :: v.

Definition locale_step (max : nat) (s : lstate_) (l : bytes) : lstate_ :=
  match locale_line l with
  | LSkip => s
  | LNote msg => note_why msg s
  | LSet k v =>
      match nth k (l_seen s) 0%nat with
      | S j => Lst (<[j := locale_entry k v]> (l_vals s)) (l_seen s) (l_why s)
      | O =>
          if decide (length (l_vals s) = max) then note_why "sets more variables than ninit can carry" s else
          Lst (l_vals s ++ [locale_entry k v]) (<[k := S (length (l_vals s))]> (l_seen s)) (l_why s)
      end
  end.

(** The lines of the buffer: a NUL ends it. *)
Definition conf_lines (raw : bytes) : list bytes := let '(ls, rest) := split_lines [] (cut0 raw) in ls ++ [rest].

(** [None] is a file that cannot be opened, [inr] one that cannot be read. *)
Definition ng_locale_fd (f : option (bytes + Z)) (max : nat) : list bytes * option string :=
  match f with
  | None => ([], None)
  | Some c =>
      if (max =? 0)%nat then ([], None) else
      match c with
      | inr _ => ([], Some "could not be read"%string)
      | inl raw =>
          if NG_LOCALE_FILE <=? Z.of_nat (length raw) then ([], Some "is larger than 8 KiB"%string) else
          let s := foldl (locale_step max) (Lst [] (replicate NG_LOCALE_MAX 0%nat) None) (conf_lines raw) in
          (l_vals s, l_why s)
      end
  end.

(** The environment of the services, and the warning. *)
Definition load_locale (f : option (bytes + Z)) : list bytes * option bytes :=
  let '(vals, why) := ng_locale_fd f NG_LOCALE_MAX in
  (match vals with [] => [bs "LANG=" ++ NG_FALLBACK_LANG] | _ => vals end,
   (fun w => bs "locale: " ++ NG_LOCALE_CONF ++ bs " " ++ bs w ++ bs ", ignoring the rest") <$> why).

(** [envp] of a child, without the NULL after it. *)
Definition child_env (path : bytes) (env_locale : list bytes) : list bytes := [path; bs "HOME=/"; bs "TERM=linux"] ++ env_locale.

(** ** What a file sets *)

Definition assigns (ls : list bytes) : list (nat * bytes) :=
  omap (fun l => match locale_line l with LSet k v => Some (k, v) | _ => None end) ls.

Definition mistakes (ls : list bytes) : list string :=
  omap (fun l => match locale_line l with LNote msg => Some msg | _ => None end) ls.

(** Each variable has the value of the last line that sets it. *)
Definition last_wins (l : list (nat * bytes)) (m : gmap nat bytes) : gmap nat bytes := foldl (fun m kv => <[kv.1 := kv.2]> m) m l.

Definition shown (m : gmap nat bytes) (ks : list nat) : list bytes := (fun k => locale_entry k (default [] (m !! k))) <$> ks.

(** [ks] are the variables in the order in which they were first set. *)
Record carries (ks : list nat) (m : gmap nat bytes) (s : lstate_) : Prop := Carries {
  cr_nodup : NoDup ks;
  cr_vals : l_vals s = shown m ks;
  cr_keys : forall k, k ∈ ks <-> is_Some (m !! k);
  cr_range : forall k, k ∈ ks -> (k < NG_LOCALE_MAX)%nat;
  cr_len : length (l_seen s) = NG_LOCALE_MAX;
  cr_seen : forall k j, l_seen s !! k = Some (S j) <-> ks !! j = Some k;
}.

Lemma var_at_range k nm vars i : var_at k nm vars = Some i -> (k <= i < k + length vars)%nat.
Proof.
  revert k. induction vars as [|v vars IH]; intros k; cbn [var_at length]; [done|]. destruct (decide _); [intros [= <-]; lia|].
  intros H%IH. lia.
Qed.

Lemma locale_value_set k v k' v' : locale_value k v = LSet k' v' -> k' = k /\ v' = v /\ locale_value_ok v = true /\ (length (locale_entry k v) < NG_LOCALE_LEN)%nat.
Proof.
  unfold locale_value. destruct (locale_value_ok v) eqn:Hv; [|done]. cbn [negb]. destruct (Nat.leb_spec NG_LOCALE_LEN (length (nth k locale_vars []) + 1 + length v)); [done|].
  intros [= <- <-]. split_ands; try done. unfold locale_entry. rewrite length_app. cbn [length]. lia.
Qed.

(** What a line sets is a locale name, and fits. *)
Lemma locale_line_set l k v : locale_line l = LSet k v -> (k < NG_LOCALE_MAX)%nat /\ locale_value_ok v = true /\ (length (locale_entry k v) < NG_LOCALE_LEN)%nat.
Proof.
  unfold locale_line. destruct (_ || _); [done|]. destruct (past 61 _) as [x|]; [|done]. destruct (var_at 0 _ locale_vars) as [i|] eqn:Hi; [|done].
  apply var_at_range in Hi. change (length locale_vars) with NG_LOCALE_MAX in Hi.
  assert (forall y, locale_value i y = LSet k v -> (k < NG_LOCALE_MAX)%nat /\ locale_value_ok v = true /\ (length (locale_entry k v) < NG_LOCALE_LEN)%nat) as Hval.
  { intros y (-> & -> & H1 & H2)%locale_value_set. split; [lia|done]. }
  destruct (skip_of [32; 9] x) as [|q v']; [apply Hval|]. destruct (is_mark q); [|apply Hval]. destruct (past q v') as [rest|]; [|done].
  destruct (_ && _); [done|apply Hval].
Qed.

Lemma shown_insert m ks k v j : NoDup ks -> ks !! j = Some k -> <[j := locale_entry k v]> (shown m ks) = shown (<[k := v]> m) ks.
Proof.
  intros Hn Hj. apply list_eq. intros i. destruct (decide (i = j)) as [->|Hi].
  - rewrite list_lookup_insert_eq by (unfold shown; rewrite length_fmap; by eapply lookup_lt_Some).
    unfold shown. rewrite list_lookup_fmap, Hj. cbn. by rewrite lookup_insert_eq.
  - rewrite list_lookup_insert_ne by done. unfold shown. rewrite !list_lookup_fmap. destruct (ks !! i) as [k'|] eqn:Hk; [|done]. cbn.
    rewrite lookup_insert_ne; [done|]. intros ->. apply Hi. by eapply NoDup_lookup.
Qed.

Lemma shown_more m ks k v : k ∉ ks -> shown m ks ++ [locale_entry k v] = shown (<[k := v]> m) (ks ++ [k]).
Proof.
  intros Hk. unfold shown. rewrite fmap_app. cbn. rewrite lookup_insert_eq. f_equal. apply list_fmap_ext. intros i x Hx%list_elem_of_lookup_2.
  rewrite lookup_insert_ne; [done|]. by intros ->.
Qed.

Lemma locale_room (ks : list nat) n k : NoDup ks -> (forall x, x ∈ ks -> (x < n)%nat) -> (k < n)%nat -> k ∉ ks -> (length ks < n)%nat.
Proof.
  intros Hn Hr Hk Hnk. assert (length (k :: ks) <= length (seq 0 n))%nat as H; [|rewrite length_seq in H; simpl in H; lia].
  apply submseteq_length, NoDup_submseteq; [by constructor|]. intros x [->|Hx]%elem_of_cons; apply elem_of_seq; [lia|]. apply Hr in Hx. lia.
Qed.

Lemma locale_step_ok ks m s l : carries ks m s -> exists ks', carries ks' (last_wins (assigns [l]) m) (locale_step NG_LOCALE_MAX s l) /\
  l_why (locale_step NG_LOCALE_MAX s l) = match l_why s with None => head (mistakes [l]) | w => w end.
Proof.
  intros [H1 H2 H3 H4 H5 H6]. unfold locale_step, assigns, mistakes. cbn [omap list_omap]. destruct (locale_line l) as [|msg|k v] eqn:Hl.
  - exists ks. split; [by constructor|]. cbn. by destruct (l_why s).
  - exists ks. split; [by constructor|]. cbn. by destruct (l_why s).
  - apply locale_line_set in Hl as (Hk & _ & _). cbn [last_wins foldl fst snd head].
    destruct (lookup_lt_is_Some_2 (l_seen s) k) as [n Hn]; [by rewrite H5|]. rewrite (nth_lookup_Some _ _ _ _ Hn). destruct n as [|j].
    + assert (k ∉ ks) as Hnk. { intros [j Hj]%list_elem_of_lookup_1. apply H6 in Hj. congruence. }
      assert (length (l_vals s) = length ks) as Elen by (rewrite H2; unfold shown; by rewrite length_fmap).
      pose proof (locale_room ks NG_LOCALE_MAX k H1 H4 Hk Hnk) as Hroom. rewrite Elen. rewrite decide_False by lia.
      exists (ks ++ [k]). split; [|cbn; by destruct (l_why s)]. constructor; cbn [l_vals l_seen].
      * apply NoDup_app. split; [done|]. split; [intros x Hx ->%list_elem_of_singleton; done|apply NoDup_singleton].
      * rewrite H2. by apply shown_more.
      * intros x. rewrite elem_of_app, list_elem_of_singleton, H3. destruct (decide (x = k)) as [->|Hx]; [rewrite lookup_insert_eq; by split; auto|].
        rewrite lookup_insert_ne by done. tauto.
      * intros x [Hx| ->%list_elem_of_singleton]%elem_of_app; [by apply H4|done].
      * by rewrite length_insert.
      * intros x j. destruct (decide (x = k)) as [->|Hx].
        -- rewrite list_lookup_insert_eq by lia. split; [intros [= <-]; by apply list_lookup_middle|].
           intros Hj. f_equal. f_equal. destruct (decide (j < length ks)%nat) as [Hlt|Hge].
           ++ rewrite lookup_app_l in Hj by done. destruct Hnk. by eapply list_elem_of_lookup_2.
           ++ apply lookup_lt_Some in Hj. rewrite length_app in Hj. simpl in Hj. lia.
        -- rewrite list_lookup_insert_ne by done. rewrite H6. split; [intros Hj; by apply lookup_app_l_Some|].
           intros [Hj|[_ Hj]]%lookup_app_Some; [done|]. destruct (j - length ks)%nat; [by simplify_eq/=|done].
    + exists ks. split; [|cbn; by destruct (l_why s)]. pose proof (proj1 (H6 k j) Hn) as Hj. constructor; cbn [l_vals l_seen]; try done.
      * rewrite H2. by apply shown_insert.
      * intros x. rewrite H3. destruct (decide (x = k)) as [->|Hx]; [|by rewrite lookup_insert_ne].
        rewrite lookup_insert_eq. split; [done|]. intros _. apply H3. by eapply list_elem_of_lookup_2.
Qed.

Lemma locale_steps_ok ls ks m s : carries ks m s -> exists ks', carries ks' (last_wins (assigns ls) m) (foldl (locale_step NG_LOCALE_MAX) s ls) /\
  l_why (foldl (locale_step NG_LOCALE_MAX) s ls) = match l_why s with None => head (mistakes ls) | w => w end.
Proof.
  revert ks m s. induction ls as [|l ls IH]; intros ks m s Hc; [exists ks; split; [done|]; cbn; by destruct (l_why s)|].
  destruct (locale_step_ok ks m s l Hc) as (k1 & H1 & W1). cbn [foldl]. destruct (IH k1 _ _ H1) as (k2 & H2 & W2). exists k2. split.
  - assert (last_wins (assigns (l :: ls)) m = last_wins (assigns ls) (last_wins (assigns [l]) m)) as ->; [|done].
    unfold assigns, last_wins. cbn [omap list_omap]. by destruct (locale_line l).
  - rewrite W2, W1. unfold mistakes. cbn [omap list_omap]. destruct (l_why s); [done|]. by destruct (locale_line l).
Qed.

Lemma carries_start : carries [] ∅ (Lst [] (replicate NG_LOCALE_MAX 0%nat) None).
Proof.
  constructor; cbn [l_vals l_seen]; [constructor|done| | |done|].
  - intros k. rewrite lookup_empty. split; [by intros ?%elem_of_nil|by intros [? ?]].
  - by intros k ?%elem_of_nil.
  - intros k j. split; [|done]. intros [? _]%lookup_replicate_1. done.
Qed.

(** ** A file as one is written *)

(** An assignment, with the quote around its value if there is one. *)
Record setting := Setting { st_quote : option Z; st_var : nat; st_value : bytes }.

Definition setting_line (a : setting) : bytes :=
  nth (st_var a) locale_vars [] ++ 61 :: match st_quote a with None => st_value a | Some q => q :: st_value a ++ [q] end.

Record setting_ok (a : setting) : Prop := SettingOk {
  sg_quote : match st_quote a with None => True | Some q => is_mark q = true end;
  sg_var : (st_var a < NG_LOCALE_MAX)%nat;
  sg_value : locale_value_ok (st_value a) = true;
  sg_fits : (length (locale_entry (st_var a) (st_value a)) < NG_LOCALE_LEN)%nat;
}.

Lemma line_of_name k w : (k < NG_LOCALE_MAX)%nat -> locale_line (nth k locale_vars [] ++ 61 :: w) =
  match skip_of [32; 9] w with
  | q :: v' =>
      if is_mark q then
        match past q v' with
        | None => LNote "has a value with no closing quote"
        | Some rest =>
            let rest := skip_of [32; 9; 13] rest in
            if negb (bool_decide (rest = [])) && negb (bool_decide (take 1 rest = [35])) then LNote "has trailing text after a quoted value" else
            locale_value k (upto q v')
        end
      else locale_value k (upto_of [32; 9; 13; 35] (skip_of [32; 9] w))
  | [] => locale_value k []
  end.
Proof. unfold NG_LOCALE_MAX. intros Hk. do 14 (destruct k as [|k]; [reflexivity|]). lia. Qed.

Lemma value_chars v : locale_value_ok v = true -> v <> [] /\ Forall (fun c => locale_char c = true) v.
Proof.
  intros [H1 H2]%andb_true_iff. split; [by intros ->|]. apply Forall_forall. intros c Hc%list_elem_of_In. rewrite forallb_forall in H2. by apply H2.
Qed.

Lemma char_plain c x : locale_char c = true -> x ∈ [32; 9; 13; 35; 34; 39; 10; 0; 61] -> c <> x.
Proof. intros Hc Hx ->. repeat (apply elem_of_cons in Hx as [-> | Hx]; [done|]). by apply elem_of_nil in Hx. Qed.

Lemma upto_of_plain cs v : (forall c, c ∈ v -> c ∉ cs) -> upto_of cs v = v.
Proof.
  induction v as [|c v IH]; intros H; [done|]. cbn [upto_of]. rewrite bool_decide_false by (apply H; by left). f_equal. apply IH.
  intros x Hx. apply H. by right.
Qed.

Lemma setting_line_set a : setting_ok a -> locale_line (setting_line a) = LSet (st_var a) (st_value a).
Proof.
  destruct a as [q k v]. intros [Hq Hk Hv Hf]. cbn [st_quote st_var st_value setting_line] in *. unfold setting_line. cbn [st_quote st_var st_value].
  rewrite line_of_name by done. destruct (value_chars v Hv) as [Hne Hall]. rewrite Forall_forall in Hall.
  assert (locale_value k v = LSet k v) as Hset.
  { unfold locale_value. rewrite Hv. cbn [negb]. unfold locale_entry in Hf. rewrite length_app in Hf. cbn [length] in Hf.
    by rewrite (proj2 (Nat.leb_gt _ _)) by lia. }
  destruct q as [q|].
  - assert (q ∉ v) as Hqv. { intros Hin%Hall. destruct (orb_prop _ _ Hq) as [->%Z.eqb_eq | ->%Z.eqb_eq]; done. }
    assert (skip_of [32; 9] (q :: v ++ [q]) = q :: v ++ [q]) as -> by (destruct (orb_prop _ _ Hq) as [->%Z.eqb_eq | ->%Z.eqb_eq]; done).
    rewrite Hq, past_app, upto_app by done. cbn. exact Hset.
  - destruct v as [|c v]; [done|]. assert (locale_char c = true) as Hc by (apply Hall; by left).
    assert (skip_of [32; 9] (c :: v) = c :: v) as ->.
    { cbn [skip_of]. rewrite bool_decide_false; [done|]. intros Hin. refine (char_plain c c Hc _ eq_refl). revert Hin. rewrite !elem_of_cons. tauto. }
    assert (is_mark c = false) as ->.
    { destruct (is_mark c) eqn:Hm; [|done]. destruct (orb_prop _ _ Hm) as [->%Z.eqb_eq | ->%Z.eqb_eq]; done. }
    rewrite upto_of_plain; [exact Hset|]. intros x Hx%Hall Hin. refine (char_plain x x Hx _ eq_refl). revert Hin. rewrite !elem_of_cons. tauto.
Qed.

Definition conf_text (l : list setting) : bytes := concat ((fun a => setting_line a ++ [10]) <$> l).

Lemma setting_line_clean a : setting_ok a -> 0 ∉ setting_line a /\ 10 ∉ setting_line a.
Proof.
  destruct a as [q k v]. intros [Hq Hk Hv _]. cbn [st_quote st_var st_value] in *. unfold setting_line. cbn [st_quote st_var st_value].
  destruct (value_chars v Hv) as [_ Hall]. rewrite Forall_forall in Hall.
  assert (forall x, x ∈ [0; 10] -> x ∉ nth k locale_vars [] /\ x ∉ v /\ (forall y, q = Some y -> x <> y)) as H.
  { intros x Hx. split_ands.
    - unfold NG_LOCALE_MAX in Hk. intros Hin.
      assert (forallb (fun c => 10 <? c) (nth k locale_vars []) = true) as Hb by (do 14 (destruct k as [|k]; [reflexivity|]); lia).
      rewrite forallb_forall in Hb. apply list_elem_of_In, Hb in Hin. apply elem_of_cons in Hx as [-> | ->%list_elem_of_singleton]; done.
    - intros Hin%Hall. refine (char_plain x x Hin _ eq_refl). revert Hx. rewrite !elem_of_cons. tauto.
    - intros y -> ->. cbn in Hq. destruct (orb_prop _ _ Hq) as [->%Z.eqb_eq | ->%Z.eqb_eq]; by repeat (apply elem_of_cons in Hx as [Hx|Hx]; [done|]); apply elem_of_nil in Hx. }
  assert (forall x, x ∈ [0; 10] -> x ∉ nth k locale_vars [] ++ 61 :: match q with None => v | Some q => q :: v ++ [q] end) as Hg.
  { intros x Hx. destruct (H x Hx) as (A & B & C). rewrite not_elem_of_app, not_elem_of_cons. split; [done|].
    split; [intros ->; by repeat (apply elem_of_cons in Hx as [Hx|Hx]; [done|]); apply elem_of_nil in Hx|].
    destruct q as [q|]; [|done]. specialize (C q eq_refl). rewrite not_elem_of_cons, not_elem_of_app, list_elem_of_singleton. done. }
  split; apply Hg; [by left|by right; left].
Qed.

Lemma conf_lines_text l : Forall setting_ok l -> conf_lines (conf_text l) = (setting_line <$> l) ++ [[]].
Proof.
  intros H. unfold conf_lines. rewrite cut0_plain.
  - unfold conf_text. assert ((fun a => setting_line a ++ [10]) <$> l = (fun s => s ++ [10]) <$> (setting_line <$> l)) as -> by (by rewrite <- list_fmap_compose).
    rewrite split_lines_concat; [done|]. apply Forall_fmap. eapply Forall_impl; [exact H|]. intros a Ha. by apply setting_line_clean.
  - unfold conf_text. induction H as [|a l Ha _ IH]; [by apply not_elem_of_nil|]. rewrite fmap_cons. cbn [concat]. rewrite !not_elem_of_app.
    split; [split; [by apply setting_line_clean|]|done]. by rewrite list_elem_of_singleton.
Qed.

Lemma settings_assigned l : Forall setting_ok l ->
  assigns (conf_lines (conf_text l)) = (fun a => (st_var a, st_value a)) <$> l /\ mistakes (conf_lines (conf_text l)) = [].
Proof.
  intros H. rewrite conf_lines_text by done. unfold assigns, mistakes. induction H as [|a l Ha _ [IH1 IH2]]; [done|].
  rewrite fmap_cons. cbn [app omap list_omap]. rewrite setting_line_set by done. cbn. split; [f_equal; exact IH1|exact IH2].
Qed.

(** C23. The locale of the services is what a shell would make of /etc/locale.conf:
    of whatever the file holds, each variable of the locale that a line sets to a
    locale name has the value of the last such line, once, in a string that fits its
    place, and what is wrong with the file is what is wrong with its first bad line;
    the environment of a child fits its array. And a file written as assignments,
    with quotes or without, sets exactly those, without a warning. *)
Theorem locale_last_wins raw path : Z.of_nat (length raw) < NG_LOCALE_FILE ->
  let m := last_wins (assigns (conf_lines raw)) ∅ in
  (exists ks, NoDup ks /\ (forall k, k ∈ ks <-> is_Some (m !! k)) /\
    ng_locale_fd (Some (inl raw)) NG_LOCALE_MAX = (shown m ks, head (mistakes (conf_lines raw))) /\
    (load_locale (Some (inl raw))).1 = (if decide (ks = []) then [bs "LANG=C.UTF-8"] else shown m ks) /\
    Forall (fun e => (length e < NG_LOCALE_LEN)%nat) (shown m ks) /\
    (length (child_env path (load_locale (Some (inl raw))).1) < 4 + NG_LOCALE_MAX)%nat) /\
  (forall l, Forall setting_ok l -> raw = conf_text l ->
    m = last_wins ((fun a => (st_var a, st_value a)) <$> l) ∅ /\ mistakes (conf_lines raw) = []).
Proof.
  intros Hl m. split.
  - destruct (locale_steps_ok (conf_lines raw) [] ∅ _ carries_start) as (ks & [H1 H2 H3 H4 H5 H6] & W). fold m in H2, H3. exists ks.
    assert (ng_locale_fd (Some (inl raw)) NG_LOCALE_MAX = (shown m ks, head (mistakes (conf_lines raw)))) as Efd.
    { cbn [ng_locale_fd]. change (NG_LOCALE_MAX =? 0)%nat with false. cbv iota. rewrite (proj2 (Z.leb_gt _ _)) by done. cbv zeta. by rewrite H2, W. }
    assert (length (shown m ks) <= NG_LOCALE_MAX)%nat as Hlen.
    { unfold shown. rewrite length_fmap, <- (length_seq NG_LOCALE_MAX 0). apply submseteq_length, NoDup_submseteq; [done|].
      intros k Hk%H4. apply elem_of_seq. lia. }
    assert ((load_locale (Some (inl raw))).1 = (if decide (ks = []) then [bs "LANG=C.UTF-8"] else shown m ks)) as Eload.
    { unfold load_locale. rewrite Efd. cbn [fst]. destruct ks; [done|]. by rewrite decide_False. }
    do 4 (split; [done|]). split.
    + apply Forall_fmap, Forall_forall. intros k [v Hv]%H3. unfold compose. rewrite Hv. cbn [default].
      assert (forall ls x, (forall y, x !! k = Some y -> (length (locale_entry k y) < NG_LOCALE_LEN)%nat) ->
        forall y, last_wins (assigns ls) x !! k = Some y -> (length (locale_entry k y) < NG_LOCALE_LEN)%nat) as Hfit.
      { induction ls as [|l ls IH]; intros x Hx y; [apply Hx|]. unfold assigns, last_wins. cbn [omap list_omap].
        destruct (locale_line l) as [| |k' v'] eqn:E; try by apply IH. apply IH. intros z. apply locale_line_set in E as (_ & _ & E). cbn [fst snd].
        intros [[-> ->]|[_ Hz]]%lookup_insert_Some; [done|by apply Hx]. }
      by apply (Hfit (conf_lines raw) ∅).
    + rewrite Eload. unfold child_env. rewrite length_app. simpl length. destruct (decide (ks = [])); [simpl; unfold NG_LOCALE_MAX; lia|lia].
  - intros l Hok ->. destruct (settings_assigned l Hok) as [E1 E2]. unfold m. by rewrite E1.
Qed.

(** Two assignments to one variable, one in quotes, and a line that is none. *)
Definition conf0 : bytes := bs "LANG=de_DE.UTF-8" ++ [10] ++ bs "oops" ++ [10] ++ bs "LC_TIME = 'C'" ++ [10] ++ bs "LANG=en_US.UTF-8 # mine" ++ [10].

(** The warning speaks of the rest of the file, but the lines after the bad one
    count. *)
Lemma rest_not_ignored : load_locale (Some (inl conf0)) =
  ([bs "LANG=en_US.UTF-8"; bs "LC_TIME=C"], Some (bs "locale: /etc/locale.conf has a line that is not name=value, ignoring the rest")).
Proof. vm_compute. reflexivity. Qed.

Lemma locale_last_wins_witness : (load_locale (Some (inl conf0))).1 = [bs "LANG=en_US.UTF-8"; bs "LC_TIME=C"] /\
  (length (child_env [] (load_locale (Some (inl conf0))).1) < 18)%nat.
Proof.
  destruct (locale_last_wins conf0 [] ltac:(vm_compute; reflexivity)) as [(ks & _ & _ & _ & _ & _ & H) _]. split; [by rewrite rest_not_ignored|exact H].
Defined.
