(* ===== verification/Checks.v ===== *)
(** * The syntax checks (ctl/check.c)

    [ninitctl init] has the interpreter of each script check it before the graph is
    written, several at a time, each with a deadline. The checks end in any order,
    and what they say is printed in the order of the services. *)

From S2P Require Import Prelude Ngraph Cgroup.

Definition CHECK_MS : Z := 30000.
Definition CHECK_MSG : Z := 4096.

(** What is used of a service; [j_check] is the program [check_argv] of its language
    gives, and its arguments. *)
Record job := Job { j_name : bytes; j_script : option bytes; j_interp : bytes; j_shell : bool; j_check : bytes * list bytes }.

Inductive wstat := Exited (code : Z) | Signaled.

(** What [waitpid] gives, and the clock when it gives nothing. *)
Inductive wev := WNone (now : Z) | WPid (p : Z) (st : wstat) | WErr (e : Z).

Record slot := Slot { sl_pid : Z; sl_who : nat; sl_due : Z }.

Inductive cev := CStart (i : nat) (cmd : bytes * list bytes) | CEnd (i : nat) (late : bool) (st : wstat).

(** [live] is the length of the slots; [c_trace] is what happened, the latest first. *)
Record checks := Checks {
  c_slots : list slot; c_failed : list (option bytes); c_late : list bool; c_bad : Z; c_unchecked : Z; c_giveup : bool;
  c_said : bytes; c_trace : list cev;
}.

Definition warns (t : bytes) : bytes := bs "ninitctl: " ++ t ++ [10].

(** The calls: making the memory files, writing the script, forking with the pid, the
    clock then, and what a check has written to stderr. *)
Class Kernel := {
  k_memfd : nat -> option Z; k_stage : nat -> option Z; k_fork : nat -> Z + Z; k_start : nat -> Z; k_stderr : nat -> bytes;
  k_strerror : Z -> bytes;
}.

Section Checks.
Context `{K : Kernel}.

(** Those whose time is up are killed, and marked. *)
Definition expire (now : Z) (l : list slot) : list slot :=
  (fun s => if (0 <=? sl_due s) && (sl_due s <=? now) then Slot (sl_pid s) (sl_who s) (-1) else s) <$> l.

Definition set_slots (l : list slot) (c : checks) : checks :=
  Checks l (c_failed c) (c_late c) (c_bad c) (c_unchecked c) (c_giveup c) (c_said c) (c_trace c).

Fixpoint pid_slot (p : Z) (l : list slot) (k : nat) : option (nat * slot) :=
  match l with
  | [] => None
  | s :: l' => if sl_pid s =? p then Some (k, s) else pid_slot p l' (S k)
  end.

Definition good_exit (st : wstat) : bool := match st with Exited n => n =? 0 | Signaled => false end.

(** The last slot takes the place of [k]. *)
Definition drop_slot (k : nat) (l : list slot) : list slot :=
  match last l with Some s => take (length l - 1) (<[k := s]> l) | None => [] end.

Definition finish_slot (k : nat) (s : slot) (st : wstat) (c : checks) : checks :=
  let late := sl_due s <? 0 in
  let slots := drop_slot k (c_slots c) in
  let trace := CEnd (sl_who s) late st :: c_trace c in
  if late || negb (good_exit st) then
    let head := if late then bs "the syntax check did not finish in " ++ dec (Z.quot CHECK_MS 1000) ++ bs " s" ++ [10] else [] in
    let msg := head ++ take (Z.to_nat (CHECK_MSG - 1) - length head) (k_stderr (sl_who s)) in
    Checks slots (<[sl_who s := Some (cut0 msg)]> (c_failed c)) (if late then <[sl_who s := true]> (c_late c) else c_late c)
      (if late then c_bad c else c_bad c + 1) (if late then c_unchecked c + 1 else c_unchecked c) (c_giveup c) (c_said c) trace
  else Checks slots (c_failed c) (c_late c) (c_bad c) (c_unchecked c) (c_giveup c) (c_said c) trace.

(** [reap_check] and what is done with the child it returns; [None] is a wait that
    does not end. *)
Fixpoint collect_one (evs : list wev) (c : checks) : option (checks * list wev) :=
  match evs with
  | [] => None
  | WNone now :: evs' => collect_one evs' (set_slots (expire now (c_slots c)) c)
  | WErr e :: evs' =>
      if e =? EINTR then collect_one evs' c else
      Some (Checks [] (c_failed c) (c_late c) (c_bad c) (c_unchecked c + Z.of_nat (length (c_slots c))) true
              (c_said c ++ warns (bs "warning: wait: " ++ k_strerror e)) (c_trace c), evs')
  | WPid p st :: evs' =>
      match pid_slot p (c_slots c) 0 with
      | None => collect_one evs' c
      | Some (k, s) => Some (finish_slot k s st c, evs')
      end
  end.

Definition skipped (giveup : bool) (t : bytes) (c : checks) : checks :=
  Checks (c_slots c) (c_failed c) (c_late c) (c_bad c) (c_unchecked c + 1) (c_giveup c || giveup) (c_said c ++ t) (c_trace c).

(** [inr] is the message of a failed fork. *)
Definition start_one (dir : bytes) (i : nat) (j : job) (c : checks) : checks + bytes :=
  match k_memfd i with
  | Some e => inl (skipped true (warns (bs "warning: memfd_create: " ++ k_strerror e ++ bs ", skipping the syntax check")) c)
  | None =>
      match k_stage i with
      | Some e => inl (skipped false (warns (bs "warning: " ++ dir ++ bs "/" ++ j_name j ++ bs ": cannot stage the script for the syntax check: " ++ k_strerror e)) c)
      | None =>
          match k_fork i with
          | inr e => inr (bs "fork: " ++ k_strerror e)
          | inl p =>
              inl (Checks (c_slots c ++ [Slot p i (k_start i + CHECK_MS)]) (c_failed c) (c_late c) (c_bad c) (c_unchecked c) (c_giveup c)
                     (c_said c) (CStart i (j_check j) :: c_trace c))
          end
      end
  end.

(** [while(live == nslot || (giveup && live))]; a turn ends a check, or all. *)
Fixpoint make_room (fuel nslot : nat) (evs : list wev) (c : checks) : option (checks * list wev) :=
  if negb (length (c_slots c) =? nslot)%nat && negb (c_giveup c && negb (bool_decide (c_slots c = []))) then Some (c, evs) else
  match fuel with
  | O => None
  | S fuel' => '(c, evs) ← collect_one evs c; make_room fuel' nslot evs c
  end.

Fixpoint wait_all (fuel : nat) (evs : list wev) (c : checks) : option checks :=
  if decide (c_slots c = []) then Some c else
  match fuel with
  | O => None
  | S fuel' => '(c, evs) ← collect_one evs c; wait_all fuel' evs c
  end.

Inductive verdict := Passed | Refused (msg : bytes) | Broken (msg : bytes) | Waits.

Section Jobs.
Context (dir : bytes) (nslot : nat) (shell_ok : bool).

Definition checkable (j : job) : bool := negb (bool_decide (j_script j = None)) && (negb (j_shell j) || shell_ok).

(** [inr] is a fork that failed, [None] a wait that does not end. *)
Fixpoint run_jobs (i : nat) (js : list job) (evs : list wev) (c : checks) : option (checks + bytes) :=
  match js with
  | [] => inl <$> wait_all (length (c_slots c)) evs c
  | j :: js' =>
      '(c, evs) ← make_room (length (c_slots c)) nslot evs c;
      if negb (checkable j) then run_jobs (S i) js' evs c else
      if c_giveup c then run_jobs (S i) js' evs (skipped false [] c) else
      match start_one dir i j c with
      | inr msg => Some (inr msg)
      | inl c => run_jobs (S i) js' evs c
      end
  end.
End Jobs.

(** *** The report *)

Definition print_failure (dir name msg : bytes) : bytes :=
  let '(ls, rest) := split_lines [] msg in
  concat ((fun q => if decide (q = []) then [] else warns (dir ++ bs "/" ++ name ++ bs ": " ++ q)) <$> (ls ++ [rest])).

(** The interpreter all failed scripts share, if they do. *)
Definition shared (what : option bytes) (interp : bytes) : option bytes :=
  match what with None => Some interp | Some w => if decide (w = interp) then what else Some [] end.

Fixpoint report_each (dir : bytes) (i : nat) (js : list job) (c : checks) (what : option bytes) : bytes * option bytes :=
  match js with
  | [] => ([], what)
  | j :: js' =>
      match nth i (c_failed c) None with
      | None => report_each dir (S i) js' c what
      | Some msg =>
          let r := report_each dir (S i) js' c (if nth i (c_late c) false then what else shared what (j_interp j)) in
          (print_failure dir (j_name j) msg ++ r.1, r.2)
      end
  end.

Definition report (dir : bytes) (js : list job) (c : checks) : bytes * verdict :=
  let '(text, what) := report_each dir 0 js c None in
  let w := match what with Some w => if decide (w = []) then [] else w ++ [32] | None => [] end in
  (c_said c ++ text,
   if negb (c_bad c =? 0) then Refused (dec (c_bad c) ++ bs " service script" ++ plural (c_bad c) ++ bs " failed the " ++ w ++ bs "syntax check")
   else if negb (c_unchecked c =? 0) then
     Refused (dec (c_unchecked c) ++ bs " service script" ++ plural (c_unchecked c) ++ bs " could not be checked, use --no-check to skip")
   else Passed).

(** How entering the other root ended without a namespace of its own, and with one:
    the exit code of the child, [None] when it was killed; [inr] is a fork or a wait
    that failed. *)
Definition root_errno (plain userns : option Z + Z) : Z * bool :=
  let code (r : option Z) := match r with Some c => c | None => 1 end in
  match plain with
  | inr e => (e, false)
  | inl r =>
      if code r =? 0 then (0, false) else
      match userns with
      | inr e => (e, false)
      | inl u => if code u =? 0 then (0, true) else (code r, false)
      end
  end.

Definition slots_of (ncpu : Z) : nat := Z.to_nat (Z.min 32 (if 1 <? ncpu then u32 ncpu else 1)).

(** [root] is the other root and how it can be entered; what is said and the end, and
    what happened. *)
Definition check_syntax (dir g_root_pfx : bytes) (shell_ok : bool) (ncpu : Z) (root : option (bytes * (option Z + Z) * (option Z + Z)))
    (js : list job) (evs : list wev) : bytes * verdict * list cev :=
  let said := if shell_ok then [] else warns (bs "warning: " ++ g_root_pfx ++ bs "/bin/bash is not executable, skipping the syntax check of shell scripts") in
  let '(giveup, t) := match root with
    | None => (false, [])
    | Some (r, p, u) => let e := (root_errno p u).1 in
        if e =? 0 then (false, []) else (true, warns (bs "warning: chroot " ++ r ++ bs ": " ++ k_strerror e ++ bs ", skipping the syntax check"))
    end in
  let c := Checks [] (replicate (length js) None) (replicate (length js) false) 0 0 giveup (said ++ t) [] in
  match run_jobs dir (slots_of ncpu) shell_ok 0 js evs c with
  | None => (c_said c, Waits, [])
  | Some (inr msg) => (c_said c, Broken msg, [])
  | Some (inl c) => (report dir js c, c_trace c)
  end.
End Checks.

(** ** The slots *)

Lemma insert_perm {A} (l : list A) k s x : l !! k = Some s -> x :: l ≡ₚ s :: <[k := x]> l.
Proof.
  intros Hk. pose proof (lookup_lt_Some _ _ _ Hk) as Hlt. rewrite insert_take_drop by done.
  rewrite <- (take_drop_middle l k s Hk) at 1. rewrite <- !Permutation_middle. apply Permutation_swap.
Qed.

Lemma drop_slot_perm k l s : l !! k = Some s -> l ≡ₚ s :: drop_slot k l.
Proof.
  intros Hk. destruct l as [|x l _] using rev_ind; [done|]. unfold drop_slot. rewrite last_snoc, length_app, Nat.add_sub.
  destruct (decide (k < length l)%nat) as [Hlt|Hge].
  - rewrite take_insert_lt by done. rewrite take_app_length. rewrite lookup_app_l in Hk by done.
    rewrite <- (insert_perm l k s x Hk). by rewrite Permutation_app_comm.
  - rewrite take_insert_ge by lia. rewrite take_app_length.
    pose proof (lookup_lt_Some _ _ _ Hk) as Hlt. rewrite length_app in Hlt. simpl in Hlt. assert (k = length l) as -> by lia.
    rewrite list_lookup_middle in Hk by done. injection Hk as <-. by rewrite Permutation_app_comm.
Qed.

Lemma pid_slot_lookup p l k k' s : pid_slot p l k = Some (k', s) -> (k <= k')%nat /\ l !! (k' - k)%nat = Some s.
Proof.
  revert k. induction l as [|x l IH]; intros k; cbn [pid_slot]; [done|]. destruct (sl_pid x =? p).
  - intros [= <- <-]. split; [lia|]. by rewrite Nat.sub_diag.
  - intros [H1 H2]%IH. split; [lia|]. replace (k' - k)%nat with (S (k' - S k)) by lia. done.
Qed.

Notation whos l := (sl_who <$> l).

Lemma whos_expire now_ l : whos (expire now_ l) = whos l.
Proof. unfold expire. rewrite <- list_fmap_compose. apply list_fmap_ext. intros _ s _. unfold compose. by destruct (_ && _). Qed.

(** The checks under way, by what happened. *)
Fixpoint running (tr : list cev) : Z :=
  match tr with [] => 0 | CStart _ _ :: tr' => running tr' + 1 | CEnd _ _ _ :: tr' => running tr' - 1 end.

Section Verdict.
Context `{K : Kernel} (dir : bytes) (nslot : nat) (shell_ok : bool) (js : list job).

(** The services with a script there is something to check. *)
Definition wanted (w : nat) : Prop := exists j, js !! w = Some j /\ checkable shell_ok j = true.

(** The first [i] services have been seen to. *)
Record seen_to (i : nat) (c : checks) : Prop := SeenTo {
  se_room : (length (c_slots c) <= nslot)%nat;
  se_nodup : NoDup (whos (c_slots c));
  se_live : forall w, w ∈ whos (c_slots c) -> (w < i)%nat /\ wanted w /\ forall late st, CEnd w late st ∉ c_trace c;
  se_ended : forall w late st, CEnd w late st ∈ c_trace c -> (w < i)%nat;
  se_bad0 : 0 <= c_bad c;
  se_bad : c_bad c = 0 -> forall w st, CEnd w false st ∈ c_trace c -> good_exit st = true;
  se_bad_one : c_bad c <> 0 -> exists w st, CEnd w false st ∈ c_trace c /\ good_exit st = false;
  se_un0 : 0 <= c_unchecked c;
  se_late : c_unchecked c = 0 -> forall w late st, CEnd w late st ∈ c_trace c -> late = false;
  se_all : c_unchecked c = 0 -> forall w, (w < i)%nat -> wanted w -> w ∈ whos (c_slots c) \/ exists st, CEnd w false st ∈ c_trace c;
  se_un_one : c_unchecked c <> 0 -> exists w, (w < i)%nat /\ wanted w /\ w ∉ whos (c_slots c) /\ forall st, CEnd w false st ∉ c_trace c;
  se_run : forall a b, c_trace c = a ++ b -> running b <= Z.of_nat nslot;
  se_count : c_giveup c = true \/ running (c_trace c) = Z.of_nat (length (c_slots c));
  se_asked : forall w, w ∈ whos (c_slots c) \/ (exists late st, CEnd w late st ∈ c_trace c) -> exists j, js !! w = Some j /\ CStart w (j_check j) ∈ c_trace c;
}.

Lemma run_suffix_cons e tr : (forall a b, tr = a ++ b -> running b <= Z.of_nat nslot) -> running (e :: tr) <= Z.of_nat nslot ->
  forall a b, e :: tr = a ++ b -> running b <= Z.of_nat nslot.
Proof. intros H He [|x a] b E; simplify_eq/=; [done|by eapply H]. Qed.

Lemma expired_seen i now_ c : seen_to i c -> seen_to i (set_slots (expire now_ (c_slots c)) c).
Proof.
  assert (length (expire now_ (c_slots c)) = length (c_slots c)) as El by (unfold expire; by rewrite length_fmap).
  intros []. constructor; cbn [set_slots c_slots c_trace c_bad c_unchecked c_giveup]; rewrite ?whos_expire, ?El; done.
Qed.

Lemma finish_seen i k s st c : seen_to i c -> c_slots c !! k = Some s -> seen_to i (finish_slot k s st c) /\
  (length (c_slots (finish_slot k s st c)) < length (c_slots c))%nat.
Proof.
  intros H Hk. pose proof (drop_slot_perm _ _ _ Hk) as Hp. pose proof (Permutation_length Hp) as Hlen. cbn [length] in Hlen.
  pose proof (fmap_Permutation sl_who _ _ Hp) as Hw. rewrite fmap_cons in Hw.
  assert (sl_who s ∈ whos (c_slots c)) as Hin by (rewrite Hw; by left).
  assert (forall w, w ∈ whos (drop_slot k (c_slots c)) -> w ∈ whos (c_slots c)) as Hsub by (intros w Hx; rewrite Hw; by right).
  destruct H as [H1 H2 H3 H4 H5 H6 H7 H8 H9 HA HB HC HD HE].
  assert (sl_who s ∉ whos (drop_slot k (c_slots c)) /\ NoDup (whos (drop_slot k (c_slots c)))) as [Hnot Hnd] by (rewrite Hw in H2; by apply NoDup_cons).
  destruct (H3 _ Hin) as (Hi & Hwant & Hnone).
  set (late := sl_due s <? 0). set (tr := CEnd (sl_who s) late st :: c_trace c).
  assert (c_trace (finish_slot k s st c) = tr) as Etr by (unfold finish_slot; fold late; by destruct (late || _)).
  assert (c_slots (finish_slot k s st c) = drop_slot k (c_slots c)) as Esl by (unfold finish_slot; fold late; by destruct (late || _)).
  assert (c_giveup (finish_slot k s st c) = c_giveup c) as Egi by (unfold finish_slot; fold late; by destruct (late || _)).
  assert (c_unchecked (finish_slot k s st c) = if late then c_unchecked c + 1 else c_unchecked c) as Eun
    by (unfold finish_slot; fold late; by destruct late, (good_exit st)).
  assert (c_bad (finish_slot k s st c) = if late then c_bad c else if good_exit st then c_bad c else c_bad c + 1) as Eba
    by (unfold finish_slot; fold late; by destruct late, (good_exit st)).
  split; [|rewrite Esl; lia]. clear Hk Hp. constructor; rewrite ?Etr, ?Esl, ?Egi, ?Eun, ?Eba; try done; try lia.
  - intros w Hx. destruct (H3 w (Hsub w Hx)) as (A & B & C). split; [done|]. split; [done|]. intros l t [E|Hin']%elem_of_cons; [|by eapply C].
    injection E as -> _ _. done.
  - intros w l t [E|Hx]%elem_of_cons; [by injection E as -> _ _|by eapply H4].
  - destruct late, (good_exit st); lia.
  - intros Hb w t [E|Hx]%elem_of_cons; [injection E as _ <- ->; destruct (good_exit st); [done|lia]|].
    apply (H6 ltac:(destruct late, (good_exit st); lia) w t Hx).
  - intros Hb. destruct (decide (late = false /\ good_exit st = false)) as [[El Eg]|Hn].
    + exists (sl_who s), st. split; [unfold tr; rewrite El; by left|done].
    + destruct H7 as (w & t & Hx & Hg); [destruct late, (good_exit st); tauto|]. exists w, t. split; [by right|done].
  - destruct late; lia.
  - intros Hu w l t [E|Hx]%elem_of_cons; [injection E as _ -> _; destruct late; [lia|done]|]. by eapply H9; [destruct late; lia|].
  - intros Hu w Hwi Hww. destruct (HA ltac:(destruct late; lia) w Hwi Hww) as [Hx|[t Hx]]; [|right; exists t; by right].
    rewrite Hw in Hx. apply elem_of_cons in Hx as [->|Hx]; [|by left]. right. exists st. destruct late; [lia|]. by left.
  - intros Hu. destruct late eqn:El.
    + exists (sl_who s). split_ands; try done. intros t [E|Hx]%elem_of_cons; [done|by eapply Hnone].
    + destruct (HB Hu) as (w & A & B & C & D). exists w. split_ands; try done; [by intros Hx%Hsub|].
      intros t [E|Hx]%elem_of_cons; [|by eapply D]. injection E as -> _. done.
  - apply run_suffix_cons; [done|]. cbn [running tr]. unfold tr. cbn [running]. pose proof (HC [] _ eq_refl). lia.
  - destruct HD as [HD|HD]; [by left|right]. unfold tr. cbn [running]. lia.
  - intros w Hx. destruct (HE w) as (j & Hj & Hs); [|exists j; split; [done|by right]].
    destruct Hx as [Hx|(l & t & [E|Hx]%elem_of_cons)]; [left; by apply Hsub|left; by injection E as -> _ _|right; by exists l, t].
Qed.

Lemma collect_seen i evs c c' evs' : seen_to i c -> c_slots c <> [] -> collect_one evs c = Some (c', evs') ->
  seen_to i c' /\ (length (c_slots c') < length (c_slots c))%nat.
Proof.
  revert c. induction evs as [|[now_|p st|e] evs IH]; intros c H Hne; cbn [collect_one]; [done| | |].
  - intros HE. apply IH in HE; [|by apply expired_seen|cbn; by destruct (c_slots c)]. cbn in HE. unfold expire in HE. by rewrite length_fmap in HE.
  - destruct (pid_slot p (c_slots c) 0) as [[k s]|] eqn:Hs; [|by apply IH]. intros [= <- <-]. apply pid_slot_lookup in Hs as [_ Hs].
    rewrite Nat.sub_0_r in Hs. by apply finish_seen.
  - destruct (e =? EINTR); [by apply IH|]. intros [= <- <-]. cbn [c_slots length]. split; [|destruct (c_slots c); [done|simpl; lia]].
    destruct H as [H1 H2 H3 H4 H5 H6 H7 H8 H9 HA HB HC HD HE].
    assert (0 < length (c_slots c))%nat by (destruct (c_slots c); [done|simpl; lia]).
    constructor; cbn [c_slots c_trace c_bad c_unchecked c_giveup]; try done; try lia.
    + simpl. lia.
    + constructor.
    + by intros w ?%elem_of_nil.
    + intros _. destruct (c_slots c) as [|s l]; [done|]. destruct (H3 (sl_who s)) as (A & B & C); [by left|].
      exists (sl_who s). split_ands; try done. by apply not_elem_of_nil.
    + intros w [?%elem_of_nil|Hx]; [done|]. apply HE. by right.
Qed.

Lemma room_seen i fuel evs c c' evs' : (0 < nslot)%nat -> seen_to i c -> make_room fuel nslot evs c = Some (c', evs') ->
  seen_to i c' /\ (length (c_slots c') < nslot)%nat.
Proof.
  intros Hns. revert evs c. induction fuel as [|fuel IH]; intros evs c H; cbn [make_room].
  - destruct (Nat.eqb_spec (length (c_slots c)) nslot) as [He|He]; cbn [negb andb]; [done|]. destruct (_ && _); [done|]. intros [= <- <-].
    split; [done|]. pose proof (se_room _ _ H). lia.
  - destruct (Nat.eqb_spec (length (c_slots c)) nslot) as [He|He]; cbn [negb andb].
    + destruct (collect_one evs c) as [[c1 e1]|] eqn:Hc; [|done]. cbn. apply IH. eapply collect_seen; [done| |done]. destruct (c_slots c); [simpl in He; lia|done].
    + destruct (c_giveup c && negb (bool_decide (c_slots c = []))) eqn:Hg; cbn [negb].
      * destruct (collect_one evs c) as [[c1 e1]|] eqn:Hc; [|done]. cbn. apply IH. eapply collect_seen; [done| |done].
        intros E. rewrite E, andb_false_r in Hg. done.
      * intros [= <- <-]. split; [done|]. pose proof (se_room _ _ H). lia.
Qed.

Lemma wait_seen i fuel evs c c' : seen_to i c -> wait_all fuel evs c = Some c' -> seen_to i c' /\ c_slots c' = [].
Proof.
  revert evs c. induction fuel as [|fuel IH]; intros evs c H; cbn [wait_all]; destruct (decide (c_slots c = [])); try done; [by intros [= <-]..|].
  destruct (collect_one evs c) as [[c1 e1]|] eqn:Hc; [|done]. cbn. apply IH. by eapply collect_seen.
Qed.

(** A service passed over, and one that cannot be checked. *)
Lemma pass_seen i j c : js !! i = Some j -> checkable shell_ok j = false -> seen_to i c -> seen_to (S i) c.
Proof.
  intros Hj Hn []. assert (~ wanted i) as Hnw by (intros (j' & ? & ?); congruence). constructor; try done.
  - intros w Hw. destruct (se_live0 w Hw) as (? & ?). split; [lia|done].
  - intros w l t Hw. apply se_ended0 in Hw. lia.
  - intros Hu w Hwi Hww. apply se_all0; [done| |done]. destruct (decide (w = i)) as [->|]; [done|lia].
  - intros Hu. destruct (se_un_one0 Hu) as (w & ? & ?). exists w. split; [lia|done].
Qed.

Lemma skip_seen i j g t c : js !! i = Some j -> checkable shell_ok j = true -> seen_to i c -> seen_to (S i) (skipped g t c).
Proof.
  intros Hj Hw []. constructor; cbn [skipped c_slots c_trace c_bad c_unchecked c_giveup]; try done; try lia.
  - intros w Hx. destruct (se_live0 w Hx) as (? & ?). split; [lia|done].
  - intros w l st Hx. apply se_ended0 in Hx. lia.
  - intros _. exists i. split; [lia|]. split; [by exists j|]. split; [intros Hx; apply se_live0 in Hx as (? & _); lia|].
    intros st Hx. apply se_ended0 in Hx. lia.
  - destruct se_count0 as [->|]; [by left|by right].
Qed.

Lemma start_seen i j c c' : js !! i = Some j -> checkable shell_ok j = true -> seen_to i c -> (length (c_slots c) < nslot)%nat ->
  c_giveup c = false -> start_one dir i j c = inl c' -> seen_to (S i) c'.
Proof.
  intros Hj Hw H Hroom Hg. unfold start_one. destruct (k_memfd i); [intros [= <-]; by eapply skip_seen|].
  destruct (k_stage i); [intros [= <-]; by eapply skip_seen|]. destruct (k_fork i) as [p|]; [|done]. intros [= <-].
  destruct H as [H1 H2 H3 H4 H5 H6 H7 H8 H9 HA HB HC HD HE]. destruct HD as [HD|HD]; [congruence|].
  assert (forall e w st late, CEnd w late st ∈ e :: c_trace c -> (forall x, e = CStart i x -> CEnd w late st ∈ c_trace c)) as Hold.
  { intros e w st late [E|Hx]%elem_of_cons x ->; [done|done]. }
  constructor; cbn [c_slots c_trace c_bad c_unchecked c_giveup]; rewrite ?fmap_app, ?length_app; cbn [fmap list_fmap length]; try done; try lia.
  - apply NoDup_app. split; [done|]. split; [|apply NoDup_singleton]. intros w Hx ->%list_elem_of_singleton. apply H3 in Hx as (? & _). cbn in *. lia.
  - intros w [Hx| ->%list_elem_of_singleton]%elem_of_app.
    + destruct (H3 w Hx) as (A & B & C). split; [lia|]. split; [done|]. intros l t Hin. eapply C. by eapply Hold.
    + cbn [sl_who]. split; [lia|]. split; [by exists j|]. intros l t Hin. eapply Hold in Hin; [|done]. apply H4 in Hin. lia.
  - intros w l t Hin. eapply Hold in Hin; [|done]. apply H4 in Hin. lia.
  - intros Hb w t Hin. eapply Hold in Hin; [|done]. by eapply H6.
  - intros Hb. destruct (H7 Hb) as (w & t & A & B). exists w, t. split; [by right|done].
  - intros Hu w l t Hin. eapply Hold in Hin; [|done]. by eapply H9.
  - intros Hu w Hwi Hww. destruct (decide (w = i)) as [->|Hne]; [left; apply elem_of_app; right; by left|].
    destruct (HA Hu w ltac:(lia) Hww) as [A|[t A]]; [left; apply elem_of_app; by left|right; exists t; by right].
  - intros Hu. destruct (HB Hu) as (w & A & B & C & D). exists w. split; [lia|]. split; [done|]. split.
    + intros [Hx| ->%list_elem_of_singleton]%elem_of_app; [done|cbn in A; lia].
    + intros t Hin. eapply Hold in Hin; [|done]. by eapply D.
  - apply run_suffix_cons; [done|]. cbn [running]. lia.
  - right. cbn [running]. lia.
  - intros w [[Hx| ->%list_elem_of_singleton]%elem_of_app|(l & t & Hin)].
    + destruct (HE w) as (j' & Hj' & Hs); [by left|]. exists j'. split; [done|by right].
    + exists j. split; [done|by left].
    + eapply Hold in Hin; [|done]. destruct (HE w) as (j' & Hj' & Hs); [right; by exists l, t|]. exists j'. split; [done|by right].
Qed.

Lemma run_seen rest done_js evs c c' : (0 < nslot)%nat -> js = done_js ++ rest -> seen_to (length done_js) c ->
  run_jobs dir nslot shell_ok (length done_js) rest evs c = Some (inl c') -> seen_to (length js) c' /\ c_slots c' = [].
Proof.
  intros Hns. revert done_js evs c. induction rest as [|j rest IH]; intros dj evs c Ejs H; cbn [run_jobs].
  - rewrite app_nil_r in Ejs. subst dj. destruct (wait_all _ _ _) as [c1|] eqn:Hw; [|done]. intros [= <-]. by eapply wait_seen.
  - assert (js !! length dj = Some j) as Hj by (rewrite Ejs; by apply list_lookup_middle).
    assert (forall e x, seen_to (S (length dj)) x -> run_jobs dir nslot shell_ok (S (length dj)) rest e x = Some (inl c') ->
      seen_to (length js) c' /\ c_slots c' = []) as Hnext.
    { intros e x Hx. specialize (IH (dj ++ [j]) e x). rewrite length_app, Nat.add_comm in IH. cbn [length Nat.add] in IH.
      apply IH; [by rewrite <- app_assoc|done]. }
    destruct (make_room _ _ _ _) as [[c1 e1]|] eqn:Hm; [|done]. cbn [mbind option_bind].
    destruct (room_seen _ _ _ _ _ _ Hns H Hm) as [H1 Hr]. destruct (checkable shell_ok j) eqn:Hc; cbn [negb].
    + destruct (c_giveup c1) eqn:Hg; [apply Hnext; by eapply skip_seen|].
      destruct (start_one dir (length dj) j c1) as [c2|msg] eqn:Hs; [apply Hnext; by eapply start_seen|done].
    + apply Hnext. by eapply pass_seen.
Qed.
End Verdict.

Lemma slots_of_range ncpu : ncpu < 2 ^ 32 -> (0 < slots_of ncpu <= 32)%nat.
Proof. unfold slots_of. intros H. destruct (Z.ltb_spec 1 ncpu); [rewrite u32_small by lia|]; lia. Qed.

Lemma seen_to_start nslot shell_ok (js : list job) f l g t : seen_to nslot shell_ok js 0 (Checks [] f l 0 0 g t []).
Proof.
  constructor; cbn [c_slots c_trace c_bad c_unchecked c_giveup]; try done; try lia.
  - simpl. lia.
  - constructor.
  - by intros w ?%elem_of_nil.
  - by intros w ? ? ?%elem_of_nil.
  - by intros _ w ? ?%elem_of_nil.
  - by intros _ w ? ? ?%elem_of_nil.
  - intros a b E. symmetry in E. apply app_eq_nil in E as [_ ->]. simpl. lia.
  - by right.
  - intros w [?%elem_of_nil|(l' & t' & ?%elem_of_nil)]; done.
Qed.

(** What is true of the end [v] of the checks, by what happened. *)
Definition told (shell_ok : bool) (js : list job) (v : verdict) (tr : list cev) : Prop :=
  (forall a b, tr = a ++ b -> running b <= 32) /\
  match v with
  | Passed =>
      (forall i j, js !! i = Some j -> checkable shell_ok j = true -> CStart i (j_check j) ∈ tr /\ CEnd i false (Exited 0) ∈ tr) /\
      forall i late st, CEnd i late st ∈ tr -> late = false /\ st = Exited 0
  | Refused _ =>
      (exists i st, CEnd i false st ∈ tr /\ st <> Exited 0) \/
      (exists i j, js !! i = Some j /\ checkable shell_ok j = true /\ forall st, CEnd i false st ∉ tr)
  | Broken _ | Waits => True
  end.

Lemma check_told `{K : Kernel} dir pfx shell_ok ncpu root js evs : ncpu < 2 ^ 32 ->
  told shell_ok js (check_syntax dir pfx shell_ok ncpu root js evs).1.2 (check_syntax dir pfx shell_ok ncpu root js evs).2.
Proof.
  intros Hn. destruct (slots_of_range ncpu Hn) as [Hs0 Hs]. unfold told, check_syntax.
  destruct (match root with Some _ => _ | None => _ end) as [g t]. set (c := Checks [] _ _ _ _ _ _ _).
  assert (forall a b : list cev, [] = a ++ b -> running b <= 32) as Hnil by (intros a b E; symmetry in E; apply app_eq_nil in E as [_ ->]; simpl; lia).
  assert (forall st, good_exit st = true <-> st = Exited 0) as Hgood.
  { intros [n|]; cbn; [rewrite Z.eqb_eq; split; congruence|done]. }
  destruct (run_jobs dir (slots_of ncpu) shell_ok 0 js evs c) as [[c1|msg]|] eqn:Hr; [|by split..].
  destruct (run_seen dir (slots_of ncpu) shell_ok js js [] evs c c1 Hs0 eq_refl (seen_to_start _ _ _ _ _ _ _) Hr) as [HS Hno].
  unfold report. destruct (report_each dir 0 js c1 None) as [text what]. cbn [fst snd]. split; [intros a b E; pose proof (se_run _ _ _ _ _ HS a b E); lia|].
  destruct (Z.eqb_spec (c_bad c1) 0) as [Hb|Hb]; cbn [negb].
  - destruct (Z.eqb_spec (c_unchecked c1) 0) as [Hu|Hu]; cbn [negb].
    + split.
      * intros i j Hj Hc. assert (CEnd i false (Exited 0) ∈ c_trace c1) as Hend; [|split; [|done]].
        2: { destruct (se_asked _ _ _ _ _ HS i) as (j' & Hj' & Hx); [right; by exists false, (Exited 0)|]. by simplify_eq. }
        destruct (se_all _ _ _ _ _ HS Hu i) as [Hx|[st Hx]]; [by eapply lookup_lt_Some|by exists j|rewrite Hno in Hx; by apply elem_of_nil in Hx|].
        by pose proof (proj1 (Hgood st) (se_bad _ _ _ _ _ HS Hb _ _ Hx)) as ->.
      * intros i late st Hx. pose proof (se_late _ _ _ _ _ HS Hu _ _ _ Hx) as ->. split; [done|]. by apply Hgood, (se_bad _ _ _ _ _ HS Hb i).
    + right. destruct (se_un_one _ _ _ _ _ HS Hu) as (w & _ & (j & Hj & Hc) & _ & Hx). by exists w, j.
  - left. destruct (se_bad_one _ _ _ _ _ HS Hb) as (w & st & Hx & Hg). exists w, st. split; [done|]. intros ->. done.
Qed.

(** C19. The syntax checks say what is true of the scripts, in whatever order the
    checks end and whenever their time runs out: they pass only if every script that
    there is an interpreter for was handed to the check of its language, which ended
    in time with exit code 0, and no check ended otherwise; they refuse only if one ended otherwise, or
    a script was not checked to the end; and no more than 32 checks are ever under
    way at once. *)
Theorem check_verdict `{K : Kernel} dir pfx shell_ok ncpu root js evs : ncpu < 2 ^ 32 ->
  (forall a b, (check_syntax dir pfx shell_ok ncpu root js evs).2 = a ++ b -> running b <= 32) /\
  match (check_syntax dir pfx shell_ok ncpu root js evs).1.2 with
  | Passed =>
      (forall i j, js !! i = Some j -> checkable shell_ok j = true ->
        CStart i (j_check j) ∈ (check_syntax dir pfx shell_ok ncpu root js evs).2 /\ CEnd i false (Exited 0) ∈ (check_syntax dir pfx shell_ok ncpu root js evs).2) /\
      forall i late st, CEnd i late st ∈ (check_syntax dir pfx shell_ok ncpu root js evs).2 -> late = false /\ st = Exited 0
  | Refused _ =>
      (exists i st, CEnd i false st ∈ (check_syntax dir pfx shell_ok ncpu root js evs).2 /\ st <> Exited 0) \/
      (exists i j, js !! i = Some j /\ checkable shell_ok j = true /\ forall st, CEnd i false st ∉ (check_syntax dir pfx shell_ok ncpu root js evs).2)
  | Broken _ | Waits => True
  end.
Proof. intros Hn. by apply check_told. Qed.

(** ** Three scripts, two at a time *)

#[export] Instance kernel0 : Kernel := {
  k_memfd _ := None; k_stage _ := None; k_fork i := inl (100 + Z.of_nat i); k_start _ := 0; k_stderr _ := bs "x: 1: oops" ++ [10]; k_strerror _ := bs "error";
}.

Definition jobs0 : list job :=
  [Job (bs "fs") (Some (bs "mount -a")) (bs "/bin/sh") true (bs "/bin/bash", [bs "bash"; bs "-n"]); Job (bs "basic") None (bs "/bin/sh") true (bs "/bin/bash", [bs "bash"; bs "-n"]);
   Job (bs "web") (Some (bs "serve()")) (bs "/usr/bin/lua") false (bs "/usr/bin/lua", []); Job (bs "log") (Some (bs "log")) (bs "/bin/sh") true (bs "/bin/bash", [bs "bash"; bs "-n"])].

Definition in_order0 : list wev := [WNone 5; WPid 102 (Exited 0); WPid 7 Signaled; WPid 100 (Exited 0); WPid 103 (Exited 0)].

(** One that fails, and one that does not end in time. *)
Lemma refused0 : (check_syntax (bs "/etc/ninit.d") [] true 2 None jobs0 [WPid 102 (Exited 1); WNone 30000; WPid 100 Signaled; WPid 103 Signaled]).1 =
  (bs "ninitctl: /etc/ninit.d/fs: the syntax check did not finish in 30 s" ++ [10] ++ bs "ninitctl: /etc/ninit.d/fs: x: 1: oops" ++ [10] ++
   bs "ninitctl: /etc/ninit.d/web: x: 1: oops" ++ [10] ++
   bs "ninitctl: /etc/ninit.d/log: the syntax check did not finish in 30 s" ++ [10] ++ bs "ninitctl: /etc/ninit.d/log: x: 1: oops" ++ [10],
   Refused (bs "1 service script failed the /usr/bin/lua syntax check")).
Proof. vm_compute. reflexivity. Qed.

Lemma check_verdict_witness :
  (check_syntax (bs "/etc/ninit.d") [] true 2 None jobs0 in_order0).1.2 = Passed /\
  CEnd 2 false (Exited 0) ∈ (check_syntax (bs "/etc/ninit.d") [] true 2 None jobs0 in_order0).2.
Proof.
  assert ((check_syntax (bs "/etc/ninit.d") [] true 2 None jobs0 in_order0).1.2 = Passed) as E by (vm_compute; reflexivity).
  destruct (check_verdict (bs "/etc/ninit.d") [] true 2 None jobs0 in_order0 ltac:(lia)) as [_ H]. rewrite E in H.
  split; [exact E|]. refine (proj2 (proj1 H 2%nat (Job (bs "web") (Some (bs "serve()")) (bs "/usr/bin/lua") false (bs "/usr/bin/lua", [])) _ _)); reflexivity.
Defined.
