(* ===== verification/Move.v ===== *)
(** * Adding and removing services (ctl/add.c)

    A service is removed by moving its file into the directory "unused" beside the
    others, and added again by moving it back; a relative symbolic link is written
    anew so that it still leads where it did. *)

From stdpp Require Import gmap.
From S2P Require Import Prelude Ngraph Sys Replace Client.

Definition SVC_UNUSED : bytes := bs "unused".
(** What [readlink] has room for, and the last of the names that are tried. *)
Definition LINK_MAX : nat := Z.to_nat 4095.
Definition TRIES : nat := Z.to_nat 999.

(** What a name of a directory is. *)
Inductive node := NFile | NDir | NSpecial | NLink (target : bytes).

Notation entries := (gmap bytes node).

(** The two directories. *)
Record places := Places { in_dir_ : entries; in_unused : entries }.

Definition from_of (enable : bool) (p : places) : entries := if enable then in_unused p else in_dir_ p.
Definition to_of (enable : bool) (p : places) : entries := if enable then in_dir_ p else in_unused p.
Definition both (enable : bool) (a b : entries) : places := if enable then Places b a else Places a b.

(** How the calls end, by the name they are for: errno, or none; [io_leads] is what a
    link in the directory services are taken from leads to, [io_taken] how many of the
    names for a new link are taken before one is free. An EEXIST of [io_mkdir] is
    none. *)
Record mio := Mio {
  io_mkdir : option Z; io_open : option Z; io_lock : option Z; io_sync : option Z; io_usync : option (option Z);
  io_leads : bytes -> option node; io_readlink : bytes -> option Z; io_rename : bytes -> option Z;
  io_taken : bytes -> nat; io_symlink : bytes -> option Z; io_settle : bytes -> option Z;
}.

(** The state of a run: the directories, stdout, stderr, and the counts. *)
Record mv := Mv { m_place : places; m_out : bytes; m_err : bytes; m_moved : Z; m_bad : Z }.

Section Move.
Context (strerror : Z -> bytes) (io : mio) (self : Z).

Definition refuse_name (t : bytes) (s : mv) : mv := Mv (m_place s) (m_out s) (m_err s ++ says t) (m_moved s) (m_bad s + 1).

(** [join], with a buffer of [cap] bytes. *)
Definition join_path (cap : Z) (dir name : bytes) : option bytes :=
  if cap <? Z.of_nat (length dir) + Z.of_nat (length name) + 2 then None else Some (dir ++ 47 :: name).

(** *** A link that is moved *)

Definition dotdot : bytes := bs "../".

Definition fixed_of (enable : bool) (target : bytes) : bytes :=
  if enable then if begins dotdot target then drop 3 target else SVC_UNUSED ++ 47 :: target
  else dotdot ++ target.

(** The name of the new link before it takes the place of the old one, the [t]-th. *)
Definition tmp_link (path : bytes) (t : nat) : bytes :=
  (match split_slash path with Some (d, _) => d ++ [47] | None => [] end) ++ bs ".ninitctl." ++ dec self ++ bs "." ++ dec (Z.of_nat t) ++ bs ".tmp".

(** The new target, or none when the link was left as it was; symlink(2) takes no
    empty target. *)
Definition relink (name path target : bytes) (enable : bool) : option bytes :=
  let fixed := fixed_of enable target in
  if 4200 <=? Z.of_nat (length fixed) then None else
  if decide (fixed = []) then None else
  let t := io_taken io name in
  if existsb (fun k => 4200 <=? Z.of_nat (length (tmp_link path k))) (seq 0 (S (Nat.min t TRIES))) then None else
  if (TRIES <? t)%nat then None else
  match io_symlink io name, io_settle io name with
  | None, None => Some fixed
  | _, _ => None
  end.

(** *** One service *)

Definition verb_of (enable : bool) : bytes := if enable then bs "add" else bs "del".

(** The file is renamed, never over another, and its link written anew. *)
Definition move_file (enable : bool) (from_dir to_dir to name : bytes) (nd : node) (s : mv) : mv :=
  let a := from_of enable (m_place s) in let b := to_of enable (m_place s) in
  match io_rename io name, b !! name with
  | Some e, _ =>
      refuse_name (if e =? ENOENT then name ++ bs ": not in " ++ from_dir else if e =? EEXIST then name ++ bs ": already in " ++ to_dir
                   else verb_of enable ++ bs " " ++ name ++ bs ": " ++ strerror e) s
  | None, Some _ => refuse_name (name ++ bs ": already in " ++ to_dir) s
  | None, None =>
      let relative := match nd with NLink t => if bool_decide (t = []) || begins [47] t then None else Some (take LINK_MAX t) | _ => None end in
      let fixed := t ← relative; relink name to t enable in
      let nd' := match fixed with Some f => NLink f | None => nd end in
      let failed := bool_decide (relative <> None) && bool_decide (fixed = None) in
      Mv (both enable (delete name a) (<[name := nd']> b)) (m_out s ++ (if enable then bs "added " else bs "removed ") ++ name ++ nl)
        (if failed then m_err s ++ says (name ++ bs ": moved, but its symlink was not updated") else m_err s)
        (m_moved s + 1) (if failed then m_bad s + 1 else m_bad s)
  end.

Definition move_one (enable : bool) (dir unused name : bytes) (s : mv) : mv :=
  let from_dir := if enable then unused else dir in
  let to_dir := if enable then dir else unused in
  match ng_name_problem name with
  | Some why => refuse_name (bs "'" ++ name ++ bs "' " ++ bs why) s
  | None =>
      if ng_reserved_name name then refuse_name (bs "'" ++ name ++ bs "' is a reserved name") s else
      match join_path 4096 from_dir name, join_path 4096 to_dir name with
      | Some _, Some to =>
          let a := from_of enable (m_place s) in
          match (match a !! name with Some (NLink _) => io_leads io name | n => n end) with
          | None => refuse_name (name ++ bs ": not in " ++ from_dir) s
          | Some NDir => refuse_name (name ++ bs ": is a directory") s
          | Some NSpecial | Some (NLink _) => refuse_name (name ++ bs ": is a special file") s
          | Some NFile =>
              match a !! name, io_readlink io name with
              | Some (NLink _), Some e => refuse_name (bs "readlink " ++ name ++ bs ": " ++ strerror e) s
              | n, _ => move_file enable from_dir to_dir to name (default NFile n) s
              end
          end
      | _, _ => refuse_name (name ++ bs ": path is too long") s
      end
  end.

(** *** The command *)

(** The directory, whether it was given, and the names, or what is said of the
    arguments. *)
Fixpoint move_args (verb : bytes) (argv : list bytes) (endopts : bool) (d : bytes * bool) (names : list bytes) : (bytes * bool * list bytes) + bytes :=
  match argv with
  | [] => inl (d, names)
  | a :: argv' =>
      if endopts then move_args verb argv' true d (names ++ [a]) else
      if decide (a = bs "--") then move_args verb argv' true d names else
      if bool_decide (a = bs "-d") || bool_decide (a = bs "--dir") then
        match argv' with
        | [] => inr (says (verb ++ bs ": " ++ a ++ bs " needs a directory"))
        | x :: argv'' => move_args verb argv'' false (x, true) names
        end
      else if begins (bs "-") a then inr (says (verb ++ bs ": unknown option '" ++ a ++ bs "'"))
      else move_args verb argv' false d (names ++ [a])
  end.

(** The directory in single quotes, as a shell reads it. *)
Definition sh_quoted (s : bytes) : bytes := [39] ++ concat ((fun c => if c =? 39 then [39; 92; 39; 39] else [c]) <$> s) ++ [39].

Definition rebuild_hint (dir : bytes) (custom : bool) : bytes :=
  if custom then bs "run: ninitctl init -d " ++ sh_quoted dir ++ nl else bs "run: ninitctl init" ++ nl.

(** The exit code, and the end of the run. *)
Definition svc_move (enable : bool) (argv : list bytes) (p : places) : Z * mv :=
  let verb := verb_of enable in
  let stop code err := (code, Mv p [] err 0 0) in
  match move_args verb argv false (NG_DEFAULT_DIR, false) [] with
  | inr err => stop 2 err
  | inl (dir, custom, names) =>
      if bool_decide (names = []) then stop 2 (says (verb ++ bs " needs at least one service name")) else
      match join_path 4096 dir SVC_UNUSED with
      | None => stop 2 (says (verb ++ bs ": directory path is too long"))
      | Some unused =>
          match (if enable then None else io_mkdir io), io_open io, io_lock io with
          | Some e, _, _ => stop 1 (says (bs "mkdir " ++ unused ++ bs ": " ++ strerror e))
          | None, Some e, _ => stop 1 (says (bs "open " ++ dir ++ bs ": " ++ strerror e))
          | None, None, Some e => stop 1 (says (bs "lock " ++ dir ++ bs ": " ++ strerror e))
          | None, None, None =>
              let s := foldl (fun s name => move_one enable dir unused name s) (Mv p [] [] 0 0) names in
              let sync := match io_sync io with Some e => says (bs "sync " ++ dir ++ bs ": " ++ strerror e) | None => [] end ++
                          match io_usync io with Some (Some e) => says (bs "sync " ++ unused ++ bs ": " ++ strerror e) | _ => [] end in
              let moved := negb (m_moved s =? 0) in
              (if m_bad s =? 0 then 0 else 1,
               Mv (m_place s) (if moved then m_out s ++ rebuild_hint dir custom else m_out s) (if moved then m_err s ++ sync else m_err s) (m_moved s) (m_bad s))
          end
      end
  end.
End Move.

(** ** Where a link leads *)

(** The names of a path between its slashes. *)
Fixpoint comps (s : bytes) : list bytes :=
  match s with
  | [] => [[]]
  | c :: s' => if c =? 47 then [] :: comps s' else match comps s' with [] => [[c]] | w :: l => (c :: w) :: l end
  end.

(** The directories on the way, the innermost first. *)
Fixpoint walk_path (at_ : list bytes) (cs : list bytes) : list bytes :=
  match cs with
  | [] => at_
  | c :: cs' => walk_path (if bool_decide (c = []) || bool_decide (c = bs ".") then at_ else if bool_decide (c = bs "..") then tail at_ else c :: at_) cs'
  end.

(** A relative path from a directory. *)
Definition leads (at_ : list bytes) (t : bytes) : list bytes := walk_path at_ (comps t).

Definition relative_path (t : bytes) : Prop := t <> [] /\ begins [47] t = false.

Lemma comps_slash w s : 47 ∉ w -> comps (w ++ 47 :: s) = w :: comps s.
Proof.
  induction w as [|c w IH]; intros Hw; cbn [app comps]; [done|]. apply not_elem_of_cons in Hw as [Hc Hw].
  destruct (Z.eqb_spec c 47); [congruence|]. by rewrite IH.
Qed.

Lemma begins_app p s : begins p s = true -> s = p ++ drop (length p) s.
Proof. intros H%bool_decide_eq_true. rewrite <- H at 1. by rewrite take_drop. Qed.

Lemma fixed_leads (enable : bool) (d : list bytes) t : relative_path t -> begins (bs "..//") t = false ->
  leads (if enable then d else SVC_UNUSED :: d) (fixed_of enable t) = leads (if enable then SVC_UNUSED :: d else d) t /\
  begins [47] (fixed_of enable t) = false.
Proof.
  intros [Hne Hrel] Hs. unfold leads, fixed_of. destruct enable.
  - destruct (begins dotdot t) eqn:Hd.
    + pose proof (begins_app _ _ Hd) as E. change (length dotdot) with 3%nat in E. set (r := drop 3 t) in *. rewrite E.
      change (dotdot ++ r) with ([46; 46] ++ 47 :: r). rewrite comps_slash by (vm_compute; intros H; by repeat (apply elem_of_cons in H as [H|H]; [done|]); apply elem_of_nil in H).
      split; [done|]. rewrite E in Hs. destruct r as [|c r]; [done|]. apply bool_decide_eq_false. intros [= ->]. done.
    + split; [|done]. rewrite comps_slash; [done|]. intros H. repeat (apply elem_of_cons in H as [H|H]; [done|]). by apply elem_of_nil in H.
  - split; [|done]. change (dotdot ++ t) with ([46; 46] ++ 47 :: t).
    rewrite comps_slash by (vm_compute; intros H; by repeat (apply elem_of_cons in H as [H|H]; [done|]); apply elem_of_nil in H). done.
Qed.

(** A link that begins with "..//" leads elsewhere once it is moved back. *)
Lemma fixed_goes_astray : fixed_of true (bs "..//etc/x") = bs "/etc/x" /\
  leads [bs "unused"; bs "ninit.d"; bs "srv"] (bs "..//etc/x") = [bs "x"; bs "etc"; bs "ninit.d"; bs "srv"].
Proof. by split. Qed.

(** ** No service is lost *)

Section Kept.
Context (strerror : Z -> bytes) (io : mio) (self : Z) (enable : bool).

(** A service and what its move makes of it. *)
Definition moved_node (nd nd' : node) : Prop :=
  nd' = nd \/ exists t, nd = NLink t /\ begins [47] t = false /\ nd' = NLink (fixed_of enable (take LINK_MAX t)).

(** A name is where it was, or moved, over nothing. *)
Definition kept (p p' : places) (x : bytes) : Prop :=
  (in_dir_ p' !! x = in_dir_ p !! x /\ in_unused p' !! x = in_unused p !! x) \/
  (exists nd nd', from_of enable p !! x = Some nd /\ to_of enable p !! x = None /\
     from_of enable p' !! x = None /\ to_of enable p' !! x = Some nd' /\ moved_node nd nd').

(** A name that was moved, its link too. *)
Definition arrived (p p' : places) (x : bytes) : Prop :=
  exists nd nd', from_of enable p !! x = Some nd /\ from_of enable p' !! x = None /\ to_of enable p' !! x = Some nd' /\
    match nd with NLink t => nd' = if bool_decide (t = []) || begins [47] t then NLink t else NLink (fixed_of enable (take LINK_MAX t)) | _ => nd' = nd end.

Lemma from_both a b : from_of enable (both enable a b) = a /\ to_of enable (both enable a b) = b.
Proof. by destruct enable. Qed.

Lemma same_both p p' x : (in_dir_ p' !! x = in_dir_ p !! x /\ in_unused p' !! x = in_unused p !! x) <->
  (from_of enable p' !! x = from_of enable p !! x /\ to_of enable p' !! x = to_of enable p !! x).
Proof. destruct enable; cbn; tauto. Qed.

Lemma relink_fixed name path t f : relink io self name path t enable = Some f -> f = fixed_of enable t.
Proof.
  unfold relink. destruct (_ <=? _); [done|]. destruct (decide _); [done|]. destruct (existsb _ _); [done|]. destruct (TRIES <? _)%nat; [done|].
  destruct (io_symlink io name), (io_settle io name); try done. by intros [= <-].
Qed.

(** One service: nothing but its name is touched; it is where it was and counted as
    bad, or it is moved, and counted as bad only if its link was not written anew. *)
Definition step_ok (x : bytes) (s s' : mv) : Prop :=
  (forall y, kept (m_place s) (m_place s') y) /\
  (forall y, y <> x -> from_of enable (m_place s') !! y = from_of enable (m_place s) !! y /\ to_of enable (m_place s') !! y = to_of enable (m_place s) !! y) /\
  m_bad s <= m_bad s' /\ (m_bad s' = m_bad s -> arrived (m_place s) (m_place s') x).

Lemma refuse_ok t x s : step_ok x s (refuse_name t s).
Proof. split; [intros y; by left|]. split; [done|]. cbn. split; lia. Qed.

Lemma move_file_ok from_dir to_dir to x nd s : from_of enable (m_place s) !! x = Some nd ->
  step_ok x s (move_file strerror io self enable from_dir to_dir to x nd s).
Proof.
  intros Hnd. unfold move_file. destruct (io_rename io x); [apply refuse_ok|].
  set (a := from_of enable (m_place s)) in *. set (b := to_of enable (m_place s)). destruct (b !! x) eqn:Hb; [apply refuse_ok|]. cbv zeta.
  set (relative := match nd with NLink t => _ | _ => None end). set (fixed := t ← relative; relink io self x to t enable).
  set (failed := bool_decide (relative <> None) && bool_decide (fixed = None)).
  set (nd' := match fixed with Some f => NLink f | None => nd end). unfold step_ok. cbn [m_place m_bad].
  destruct (from_both (delete x a) (<[x := nd']> b)) as [Ef Et].
  assert (forall y, y <> x -> from_of enable (both enable (delete x a) (<[x := nd']> b)) !! y = a !! y /\
    to_of enable (both enable (delete x a) (<[x := nd']> b)) !! y = b !! y) as Hother.
  { intros y Hy. rewrite Ef, Et, lookup_delete_ne, lookup_insert_ne by done. done. }
  assert (forall f, fixed = Some f -> exists t, nd = NLink t /\ begins [47] t = false /\ f = fixed_of enable (take LINK_MAX t)) as Hfix.
  { intros f Hf. unfold fixed, relative in Hf. destruct nd as [| | |t]; try done. destruct (bool_decide (t = [])), (begins [47] t) eqn:Hb47; try done.
    cbn in Hf. exists t. by apply relink_fixed in Hf. }
  split; [|split; [exact Hother|split; [destruct failed; lia|]]].
  - intros y. destruct (decide (y = x)) as [->|Hy]; [|left; apply same_both; by apply Hother]. right. exists nd, nd'.
    rewrite Ef, Et, lookup_delete_eq, lookup_insert_eq. split_ands; try done. unfold nd'. destruct fixed as [f|] eqn:Hf; [|by left].
    right. destruct (Hfix f eq_refl) as (t & -> & H2 & ->). by exists t.
  - intros Hbad. exists nd, nd'. rewrite Ef, Et, lookup_delete_eq, lookup_insert_eq. split_ands; try done.
    assert (failed = false) as Hok by (destruct failed; [lia|done]). unfold failed, nd', fixed, relative in *. destruct nd as [| | |t]; try done.
    destruct (bool_decide (t = []) || begins [47] t); [done|]. cbn in *. destruct (relink io self x to (take LINK_MAX t) enable) as [f|] eqn:Hr; [|done].
    by apply relink_fixed in Hr as ->.
Qed.

Lemma move_one_ok dir unused x s : step_ok x s (move_one strerror io self enable dir unused x s).
Proof.
  unfold move_one. destruct (ng_name_problem x); [apply refuse_ok|]. destruct (ng_reserved_name x); [apply refuse_ok|].
  destruct (join_path _ _ _); [|apply refuse_ok]. destruct (join_path _ _ _) as [to|]; [|apply refuse_ok]. cbv zeta.
  destruct (from_of enable (m_place s) !! x) as [nd|] eqn:Hnd; [|apply refuse_ok].
  destruct nd as [| | |t]; try apply refuse_ok; [by apply move_file_ok|].
  destruct (io_leads io x) as [[]|]; try apply refuse_ok. destruct (io_readlink io x); [apply refuse_ok|by apply move_file_ok].
Qed.

(** What has been moved stays where it is. *)
Lemma kept_trans p p' p'' x : kept p p' x -> kept p' p'' x -> kept p p'' x.
Proof.
  intros [[H1 H2]|(nd & nd' & A & B & C & D & M)] [[G1 G2]|(md & md' & A' & B' & C' & D' & M')].
  - left. by rewrite G1, G2.
  - right. exists md, md'. destruct (proj1 (same_both p p' x) (conj H1 H2)) as [E1 E2]. by rewrite <- E1, <- E2.
  - right. exists nd, nd'. destruct (proj1 (same_both p' p'' x) (conj G1 G2)) as [E1 E2]. by rewrite E1, E2.
  - congruence.
Qed.
End Kept.

Section Moved.
Context (strerror : Z -> bytes) (io : mio) (self : Z) (enable : bool).

Notation untouched p p' y := (from_of enable p' !! y = from_of enable p !! y /\ to_of enable p' !! y = to_of enable p !! y).

Lemma move_all_ok dir unused names s : let s' := foldl (fun s x => move_one strerror io self enable dir unused x s) s names in
  (forall y, kept enable (m_place s) (m_place s') y) /\ (forall y, y ∉ names -> untouched (m_place s) (m_place s') y) /\
  m_bad s <= m_bad s' /\ (m_bad s' = m_bad s -> forall x, x ∈ names -> arrived enable (m_place s) (m_place s') x).
Proof.
  revert s. induction names as [|x names IH]; intros s; cbn [foldl].
  { split; [intros y; by left|]. split; [done|]. split; [lia|]. by intros _ x ?%elem_of_nil. }
  destruct (move_one_ok strerror io self enable dir unused x s) as (K1 & U1 & B1 & A1). set (s1 := move_one _ _ _ _ _ _ _ _) in *.
  destruct (IH s1) as (K2 & U2 & B2 & A2). set (s2 := foldl _ _ _) in *. cbv zeta. split_ands.
  - intros y. by eapply kept_trans.
  - intros y [Hy Hn]%not_elem_of_cons. destruct (U1 y Hy) as [E1 E2], (U2 y Hn) as [F1 F2]. by rewrite F1, F2.
  - lia.
  - intros Hb y Hy. specialize (A1 ltac:(lia)). specialize (A2 ltac:(lia)).
    assert (x ∉ names) as Hx.
    { intros Hin. destruct (A2 x Hin) as (nd & _ & H1 & _), A1 as (_ & _ & _ & H2 & _). congruence. }
    apply elem_of_cons in Hy as [->|Hy].
    + destruct A1 as (nd & nd' & H1 & H2 & H3 & H4), (U2 x Hx) as [E1 E2]. exists nd, nd'. by rewrite E1, E2.
    + destruct (A2 y Hy) as (nd & nd' & H1 & H2 & H3 & H4). destruct (U1 y) as [E1 E2]; [by intros ->|]. exists nd, nd'. by rewrite <- E1.
Qed.

(** C20. Adding and removing services loses none, whatever the names and however the
    calls fail: every file of the two directories is where it was, or in the other
    one under its name, where there was none, and only files that were named are
    moved; when the command succeeds all of them were, their links written anew. A
    relative link written anew leads where it led, unless it begins with "..//". *)
Theorem services_kept argv p :
  (forall x, kept enable p (m_place (svc_move strerror io self enable argv p).2) x) /\
  (forall dir custom names, move_args (verb_of enable) argv false (NG_DEFAULT_DIR, false) [] = inl (dir, custom, names) ->
    (forall y, y ∉ names -> untouched p (m_place (svc_move strerror io self enable argv p).2) y) /\
    ((svc_move strerror io self enable argv p).1 = 0 -> forall x, x ∈ names -> arrived enable p (m_place (svc_move strerror io self enable argv p).2) x)) /\
  (forall (d : list bytes) t, relative_path t -> begins (bs "..//") t = false ->
    leads (if enable then d else SVC_UNUSED :: d) (fixed_of enable t) = leads (if enable then SVC_UNUSED :: d else d) t).
Proof.
  assert (forall y, kept enable p p y) as Hk0 by (intros y; by left). refine ((fun H L => conj (proj1 H) (conj (proj2 H) L)) _ _); [|intros d t H1 H2; by apply fixed_leads].
  unfold svc_move. destruct (move_args _ _ _ _ _) as [[[dir custom] names]|err]; [|by split].
  assert (forall code err, code <> 0 -> (forall x, kept enable p (m_place (code, Mv p [] err 0 0).2) x) /\
    (forall dir0 custom0 names0, inl (dir, custom, names) = inl (A:=bytes * bool * list bytes) (B:=bytes) (dir0, custom0, names0) ->
      (forall y, y ∉ names0 -> untouched p (m_place (code, Mv p [] err 0 0).2) y) /\
      ((code, Mv p [] err 0 0).1 = 0 -> forall x, x ∈ names0 -> arrived enable p (m_place (code, Mv p [] err 0 0).2) x))) as Hstop.
  { intros code err Hc. split; [done|]. intros d1 c1 n1 _. split; [done|]. by cbn. }
  destruct (bool_decide _); [by apply Hstop|]. destruct (join_path _ _ _) as [unused|]; [|by apply Hstop].
  destruct (if enable then None else io_mkdir io); [by apply Hstop|]. destruct (io_open io); [by apply Hstop|]. destruct (io_lock io); [by apply Hstop|].
  cbv zeta. destruct (move_all_ok dir unused names (Mv p [] [] 0 0)) as (K & U & B & A). set (s := foldl _ _ _) in *. cbn [fst snd m_place m_bad] in *.
  split; [exact K|]. intros d1 c1 n1 [= <- <- <-]. split; [exact U|]. destruct (Z.eqb_spec (m_bad s) 0) as [Hb|]; [|done]. intros _. by apply A.
Qed.
End Moved.

(** ** The hint *)

(** A word of a command line as a shell reads it, with single quotes and
    backslashes. *)
Fixpoint sh_word (inside : bool) (s : bytes) : option bytes :=
  match s with
  | [] => if inside then None else Some []
  | c :: s' =>
      if inside then if c =? 39 then sh_word false s' else cons c <$> sh_word true s'
      else if c =? 39 then sh_word true s'
      else if c =? 92 then match s' with [] => None | d :: s'' => cons d <$> sh_word false s'' end
      else cons c <$> sh_word false s'
  end.

Lemma sh_quoted_reads_back s : sh_word false (sh_quoted s) = Some s.
Proof.
  unfold sh_quoted. cbn [app sh_word Z.eqb Pos.eqb]. induction s as [|c s IH]; [done|]. rewrite fmap_cons. cbn [concat].
  destruct (Z.eqb_spec c 39) as [->|Hc]; cbn [app sh_word Z.eqb Pos.eqb].
  - by rewrite IH.
  - rewrite (proj2 (Z.eqb_neq c 39)) by done. by rewrite IH.
Qed.

(** ** Away and back *)

Definition mio0 : mio := Mio None None None None (Some None) (fun _ => Some NFile) (fun _ => None) (fun _ => None) (fun _ => 2%nat) (fun _ => None) (fun _ => None).

Definition place0 : places := Places {[bs "sshd" := NFile; bs "web" := NLink (bs "shared/web")]} ∅.

Lemma away_and_back :
  let r := svc_move (fun _ => bs "error") mio0 42 false [bs "-d"; bs "it's"; bs "web"; bs "sshd"] place0 in
  r.1 = 0 /\ in_unused (m_place r.2) !! bs "web" = Some (NLink (bs "../shared/web")) /\ in_dir_ (m_place r.2) !! bs "web" = None /\
  m_out r.2 = bs "removed web" ++ nl ++ bs "removed sshd" ++ nl ++ bs "run: ninitctl init -d 'it'\''s'" ++ nl /\
  in_dir_ (m_place (svc_move (fun _ => bs "error") mio0 42 true [bs "-d"; bs "it's"; bs "--"; bs "web"] (m_place r.2)).2) !! bs "web" = Some (NLink (bs "shared/web")).
Proof. vm_compute. by split_ands. Qed.
