(* ===== verification/Init.v ===== *)
(** * The command [ninitctl init] (ctl/build.c, the end of write_image in ctl/image.c)

    From the arguments to the exit code: the options, the directory read and parsed,
    the scripts checked, the graph compiled, the file replaced, and what is said of
    it. The parts are those of the other files; here they are one program, on a disk
    that may lose its power. *)

From stdpp Require Import gmap sorting.
From S2P Require Import Prelude Ngraph Verify Argv Build Link Visit Schedule Compiler Desc Layout Emit Built Text Directives Lang Service Sh Parser Sources Checks Replace Locale Sample.

(** ** A run *)

(** What has been written to stdout and stderr. *)
Record said := Said { to_out : bytes; to_err : bytes }.

(** A step gives a value, or [exit]s; [IWaits] waits for a check for ever, [IBroken]
    is an access outside an array or the end of the model's fuel. *)
Inductive iend (A : Type) : Type :=
  | IGoes (a : A) (d : disk) (o : said)
  | IExit (code : Z) (d : disk) (o : said)
  | IWaits (d : disk) (o : said)
  | IBroken.
Arguments IGoes {A} a d o.
Arguments IExit {A} code d o.
Arguments IWaits {A} d o.
Arguments IBroken {A}.

Definition IM (A : Type) : Type := disk -> said -> iend A.

#[export] Instance IM_ret : MRet IM := fun A a d o => IGoes a d o.
#[export] Instance IM_bind : MBind IM := fun A B f m d o =>
  match m d o with
  | IGoes a d o => f a d o
  | IExit c d o => IExit c d o
  | IWaits d o => IWaits d o
  | IBroken => IBroken
  end.

Definition print (t : bytes) : IM unit := fun d o => IGoes tt d (Said (to_out o ++ t) (to_err o)).
Definition eprint (t : bytes) : IM unit := fun d o => IGoes tt d (Said (to_out o) (to_err o ++ t)).
Definition exits {A} (code : Z) : IM A := fun d o => IExit code d o.
Definition waits {A} : IM A := fun d o => IWaits d o.
Definition broken {A} : IM A := fun _ _ => IBroken.

Definition idie {A} (msg : bytes) : IM A := eprint (warns msg);; exits 1.
Definition usage_die {A} (msg : bytes) : IM A := eprint (warns msg);; exits 2.

(** The parts, as steps of the run. *)
Definition of_pm {A} (m : PM A) : IM A :=
  match m [] with
  | Parsed a err => eprint (concat ((fun l => l ++ [10]) <$> err));; mret a
  | Text.Refused msg err => eprint (concat ((fun l => l ++ [10]) <$> err));; idie msg
  | Misread | Endless => broken
  end.

Definition of_fm {A} (m : FM A) : IM A := fun d o =>
  match m d with
  | Did a d => IGoes a d o
  | Died msg d => idie msg d o
  | Stuck => IBroken
  end.

(** ** The machine *)

(** What the calls answer. The file system is indexed by the root of [--root] and
    what realpath(3) makes of it; its [g_dir] and [g_root] are not used. *)
Class Machine := {
  mc_kernel :: Kernel;
  mc_fs : option (bytes * bytes) -> FileSys;
  mc_open_root : bytes -> option Z;
  mc_realpath : bytes -> bytes + Z;
  mc_strerror : Z -> bytes;
  (** whether two paths are one directory *)
  mc_same_dir : bytes -> bytes -> bool;
  mc_ents : bytes -> list entry + Z;
  (** stat(2), and [graph_image] *)
  mc_mode : bytes -> option Z;
  mc_graph : bytes -> bool;
  mc_ncpu : Z;
  mc_chroot : (option Z + Z) * (option Z + Z);
  mc_waits : list wev;
  mc_addr : Z;
  mc_umask : Z;
  mc_sfx : bytes;
  mc_dev : bytes -> Z;
  (** /etc/locale.conf, or the errno of its open *)
  mc_locale : (bytes + Z) + Z;
}.

Fixpoint joined (sep : bytes) (ws : list bytes) : bytes :=
  match ws with [] => [] | [w] => w | w :: ws' => w ++ sep ++ joined sep ws' end.

Section Init.
Context `{M : Machine}.

(** The directory and the root the options set. *)
Definition fs_at (dir : bytes) (root : option (bytes * bytes)) : FileSys := {|
  g_dir := dir;
  g_root := root;
  os_stat := @os_stat (mc_fs root);
  os_access := @os_access (mc_fs root);
  os_realpath := @os_realpath (mc_fs root);
  os_open_root := @os_open_root (mc_fs root);
  os_fstat := @os_fstat (mc_fs root);
  os_fd_link := @os_fd_link (mc_fs root);
  fs_strerror := @fs_strerror (mc_fs root);
|}.

(** ** The options *)

Record opts := Opts {
  o_dir : bytes; o_custom : bool; o_out : option bytes; o_dry : bool; o_nocheck : bool; o_root : option (bytes * bytes);
}.

Definition opts0 : opts := Opts NG_DEFAULT_DIR false None false false None.

(** The message and the exit code. *)
Abbreviation stop := (bytes * Z)%type (only parsing).

Definition needs {A} (a what : bytes) : A + stop := inr (bs "init: " ++ a ++ bs " needs a " ++ what, 2).

Definition set_root (dir : bytes) : (bytes * bytes) + stop :=
  match mc_open_root dir with
  | Some e => inr (bs "open " ++ dir ++ bs ": " ++ mc_strerror e, 1)
  | None =>
      match mc_realpath dir with
      | inr e => inr (bs "realpath " ++ dir ++ bs ": " ++ mc_strerror e, 1)
      | inl real => inl (dir, real)
      end
  end.

Fixpoint init_args (args : list bytes) (o : opts) : opts + stop :=
  match args with
  | [] => inl o
  | a :: args' =>
      if bool_decide (a = bs "-d" \/ a = bs "--dir") then
        match args' with
        | [] => needs a (bs "directory")
        | v :: args'' => init_args args'' (Opts v true (o_out o) (o_dry o) (o_nocheck o) (o_root o))
        end
      else if bool_decide (a = bs "-o" \/ a = bs "--out") then
        match args' with
        | [] => needs a (bs "file")
        | v :: args'' => init_args args'' (Opts (o_dir o) (o_custom o) (Some v) (o_dry o) (o_nocheck o) (o_root o))
        end
      else if bool_decide (a = bs "-n" \/ a = bs "--dry-run") then init_args args' (Opts (o_dir o) (o_custom o) (o_out o) true (o_nocheck o) (o_root o))
      else if bool_decide (a = bs "--no-check") then init_args args' (Opts (o_dir o) (o_custom o) (o_out o) (o_dry o) true (o_root o))
      else if bool_decide (a = bs "--root") then
        match args' with
        | [] => needs a (bs "directory")
        | v :: args'' =>
            match set_root v with
            | inl r => init_args args'' (Opts (o_dir o) (o_custom o) (o_out o) (o_dry o) (o_nocheck o) (Some r))
            | inr e => inr e
            end
        end
      else inr (bs "init: unexpected argument '" ++ a ++ bs "'", 2)
  end.

(** The directory of the services, and whether the options name it. *)
Definition dir_for (o : opts) : bytes * bool :=
  match o_root o with
  | Some (r, _) => if o_custom o then (o_dir o, true) else (strip_slashes r ++ NG_DEFAULT_DIR, true)
  | None => (o_dir o, o_custom o)
  end.

(** [snprintf] into [outbuf]. *)
Definition out_for (o : opts) : bytes + stop :=
  let '(dir, custom) := dir_for o in
  match o_out o with
  | Some p => inl p
  | None =>
      if negb custom then inl NG_DEFAULT_FILE else
      if 4096 <=? Z.of_nat (length (dir ++ bs "/depgraph")) then inr (bs "init: directory path is too long: " ++ dir, 2)
      else inl (dir ++ bs "/depgraph")
  end.

(** The base name of the output when it is in the directory that is scanned. *)
Definition output_base (dir out : bytes) : option bytes + stop :=
  if 4096 <=? Z.of_nat (length out) then inr (bs "init: output path is too long: " ++ out, 2) else
  inl (if bool_decide (base_of out = []) || negb (mc_same_dir dir (dir_of out)) then None else Some (base_of out)).

(** What the arguments ask for: the options, the directory, the output, and its name
    in the directory. *)
Record task := Task { t_opts : opts; t_dir : bytes; t_out : bytes; t_base : option bytes }.

Definition task_of (args : list bytes) : task + stop :=
  match init_args args opts0 with
  | inr e => inr e
  | inl o =>
      match out_for o with
      | inr e => inr e
      | inl out =>
          match output_base (dir_for o).1 out with
          | inr e => inr e
          | inl base => inl (Task o (dir_for o).1 out base)
          end
      end
  end.

Definition of_task {A} (r : A + stop) : IM A :=
  match r with inl a => mret a | inr (msg, code) => eprint (warns msg);; exits code end.

(** ** The steps *)

(** The directory scan does not see an output elsewhere. *)
Definition refuse_nongraph (path : bytes) : IM unit :=
  match mc_mode path with
  | None => mret tt
  | Some mode =>
      if negb (is_reg mode) || negb (mc_graph path)
      then idie (path ++ bs ": the output would replace this, and it is not a depgraph") else mret tt
  end.

Definition refuse_both (out : bytes) : IM unit :=
  if 4104 <=? Z.of_nat (length (out ++ bs ".old")) then usage_die (bs "init: output path is too long: " ++ out)
  else refuse_nongraph out;; refuse_nongraph (out ++ bs ".old").

(** [s->lang] *)
Definition lang_named (F : FileSys) (name : bytes) : lang :=
  let shell := Sh.lang_shell (sh_lexed NG_SHELL_ARGV0) in
  default shell (find (fun l => bool_decide (lname l = name)) (langs ++ [shell])).

Definition job_of (F : FileSys) (p : psrc) : job :=
  Job (s_name (p_src p)) (s_script (p_src p)) (interp p) (bool_decide (p_lang p = bs "shell")) (check_argv (lang_named F (p_lang p)) p).

(** Whether the shell that scripts run under can be executed. *)
Definition shell_runs (F : FileSys) : PM bool :=
  st ← sys_stat NG_SHELL;
  mret (match st with inl mode => bool_decide (sys_exec_ok NG_SHELL mode = None) | inr _ => false end).

(** [check_syntax(b.srcs, b.n, dir)] *)
Definition checks_of (dir : bytes) (root : option (bytes * bytes)) (shell_ok : bool) (ps : list psrc) : bytes * verdict * list cev :=
  let F := fs_at dir root in
  check_syntax dir g_root_pfx shell_ok mc_ncpu ((fun r => (r.1, mc_chroot.1, mc_chroot.2)) <$> root) (job_of F <$> ps) mc_waits.

Definition check_all (dir : bytes) (root : option (bytes * bytes)) (ps : list psrc) : IM unit :=
  shell_ok ← of_pm (shell_runs (fs_at dir root));
  let '(text, v, _) := checks_of dir root shell_ok ps in
  eprint text;;
  match v with
  | Passed => mret tt
  | Checks.Refused msg | Broken msg => idie msg
  | Waits => waits
  end.

Definition death_text (dir : bytes) (srcs : list src) (d : death) : bytes :=
  let name i := match srcs !! i with Some s => s_name s | None => [] end in
  match d with
  | NamesNoService i rev nm => dir ++ bs "/" ++ name i ++ bs ": " ++ (if rev then bs "depof" else bs "depon") ++ bs ":" ++ nm ++ bs " names no service in " ++ dir
  | DependsOnItself i => dir ++ bs "/" ++ name i ++ bs ": depends on itself"
  | DependencyCycle path => bs "dependency cycle:" ++ [10] ++ bs "  " ++ joined (bs " -> ") (name <$> path)
  | NoReadyNode k => bs "internal error: no ready node with " ++ dec (Z.of_nat k) ++ bs " remaining"
  | WarnWithDependents i nd =>
      dir ++ bs "/" ++ name i ++ bs ": onfail:warn but " ++ dec nd ++ bs " service" ++ plural nd ++ bs " depend" ++ (if nd =? 1 then bs "s" else []) ++ bs " on it"
  | FailedVerification why => bs "internal error: the built graph failed verification: " ++ bs why
  end.

(** What the compiler leaves for what follows: the prerequisites of each service, the
    order, the rows of the dependents, and the image. *)
Record compiled := Compiled { k_indeg : list nat; k_order : ordered; k_roff : list nat; k_img : bytes; k_vague : nat }.

(** [link_graph], [order_graph] and [write_image] up to the writing. *)
Definition compile (srcs : list src) (hash : Z) : built compiled :=
  '(es, g) ← link_graph srcs;
  o ← order_graph es g;
  roff ← row_offsets (length srcs) (o_edges o);
  '(img, vague) ← write_image true mc_addr srcs g o hash;
  mret (Compiled (l_indeg g) o roff img vague).

Definition of_built {A} (dir : bytes) (srcs : list src) (r : built A) : IM A :=
  match r with
  | Built a => mret a
  | Die d => idie (death_text dir srcs d)
  | OutOfBounds | Unfinished => broken
  end.

(** [%04o] of a mode without the type. *)
Definition oct4 (m : Z) : bytes := [48 + Z.land (Z.shiftr m 9) 7; 48 + Z.land (Z.shiftr m 6) 7; 48 + Z.land (Z.shiftr m 3) 7; 48 + Z.land m 7].

Definition vague_note (srcs : list src) (c : compiled) : bytes :=
  let nv := Z.of_nat (k_vague c) in
  if nv =? 0 then [] else
  warns (bs "warning: " ++ dec nv ++ bs " daemon" ++ plural nv ++ bs " with dependents " ++ (if nv =? 1 then bs "has" else bs "have") ++
         bs " no notify:, their dependents start on exec, not on readiness") ++
  concat ((fun i => match srcs !! nth i (o_order (k_order c)) 0%nat with
                    | Some s => if (s_type s =? NG_TYPE_DAEMON) && (s_notify s =? 0) && negb (nth i (k_roff c) 0 =? nth (S i) (k_roff c) 0)%nat
                                then warns (bs "  " ++ s_name s) else []
                    | None => []
                    end) <$> seq 0 (length srcs)).

(** The end of [write_image]. *)
Definition put_image (t : task) (srcs : list src) (mode : Z) (c : compiled) : IM unit :=
  let counts := dec (Z.of_nat (length srcs)) ++ bs " services, " ++ dec (Z.of_nat (length (o_edges (k_order c)))) ++ bs " edges, " ++
                dec (Z.of_nat (o_nroots (k_order c))) ++ bs " roots, " ++ dec (Z.of_nat (length (k_img c))) ++ bs " bytes" in
  (if o_dry (t_opts t) then print (t_out t ++ bs ": would write " ++ counts ++ bs ", mode " ++ oct4 mode ++ [10]) else
   of_fm (write_atomic mc_strerror (t_out t) (k_img c) mode mc_umask (mc_same_dir (t_dir t) (dir_of (t_out t))) mc_sfx);;
   print (t_out t ++ bs ": " ++ counts ++ [10]));;
  eprint (vague_note srcs c).

(** An interpreter on a file system of its own is there at boot only once something
    has mounted it. *)
Fixpoint interp_notes (dir : bytes) (root : option (bytes * bytes)) (indeg : list nat) (i : nat) (ps : list psrc) : IM unit :=
  let F := fs_at dir root in
  match ps with
  | [] => mret tt
  | p :: ps' =>
      (if bool_decide (s_script (p_src p) = None) || bool_decide (p_lang p = bs "shell") || negb (nth i indeg 0 =? 0)%nat then mret tt else
       st ← of_pm (sys_stat (interp p));
       match st with
       | inl _ =>
           if negb (mc_dev (interp p) =? mc_dev (bs "/")) then
             eprint (warns (bs "warning: " ++ dir ++ bs "/" ++ s_name (p_src p) ++ bs ": " ++ g_root_pfx ++ interp p ++
               bs " is on another filesystem than " ++ g_root_pfx ++ bs "/, and the service has no prerequisite"))
           else mret tt
       | inr _ => mret tt
       end);;
      interp_notes dir root indeg (S i) ps'
  end.

Definition interp_fs_note (dir : bytes) (root : option (bytes * bytes)) (ps : list psrc) (indeg : list nat) : IM unit :=
  st ← of_pm (sys_stat (H := fs_at dir root) (bs "/"));
  match st with
  | inr _ => mret tt
  | inl _ => interp_notes dir root indeg 0 ps
  end.

Definition locale_note (root : option (bytes * bytes)) : IM unit :=
  let pfx := match root with Some (r, _) => strip_slashes r | None => [] end in
  let conf := pfx ++ NG_LOCALE_CONF in
  match root, mc_locale with
  | Some _, inr e => if e =? ENOSYS_ then idie (bs "--root: openat2: " ++ mc_strerror e) else mret tt
  | _, _ => mret tt
  end;;
  let '(vals, bad) := ng_locale_fd (match mc_locale with inl f => Some f | inr _ => None end) NG_LOCALE_MAX in
  (match bad with Some why => eprint (warns (bs "warning: " ++ conf ++ bs " " ++ bs why)) | None => mret tt end);;
  if decide (vals = []) then
    eprint (warns (conf ++ bs " " ++ (match mc_locale with inr _ => bs "is missing" | inl _ => bs "sets no locale variable" end) ++
                   bs ", services will run with LANG=" ++ NG_FALLBACK_LANG) ++
            warns (bs "for example: printf 'LANG=en_US.UTF-8\n' > " ++ conf))
  else mret tt.

(** [cmd_init] once the options have been read. *)
Definition run_task (t : task) : IM Z :=
  let dir := t_dir t in
  let root := o_root (t_opts t) in
  of_fm (lock_dir mc_strerror dir);;
  (match t_base t with None => refuse_both (t_out t) | Some _ => mret tt end);;
  b ← of_pm (read_sources (F := fs_at dir root) (t_base t) (mc_ents dir));
  (if o_nocheck (t_opts t) then mret tt else check_all dir root (b_srcs b));;
  let srcs := p_src <$> b_srcs b in
  c ← of_built dir srcs (compile srcs (b_hash b));
  put_image t srcs (b_out_mode b) c;;
  interp_fs_note dir root (b_srcs b) (k_indeg c);;
  locale_note root;;
  mret 0.

Definition cmd_init (args : list bytes) : IM Z := t ← of_task (task_of args); run_task t.
End Init.

(** ** Reasoning about a run *)

Section Holds.
Context (E : Z -> disk -> Prop) (W : disk -> Prop).

(** [m] goes on as [Q] says, exits as [E] says, or waits as [W] says. *)
Definition holds {A} (m : IM A) (d : disk) (Q : A -> disk -> Prop) : Prop := forall o,
  match m d o with IGoes a d' _ => Q a d' | IExit c d' _ => E c d' | IWaits d' _ => W d' | IBroken => False end.

Lemma holds_ret {A} (a : A) d Q : Q a d -> holds (mret a) d Q.
Proof. by intros H o. Qed.

Lemma holds_bind {A B} (m : IM A) (f : A -> IM B) d P Q : holds m d P -> (forall a d', P a d' -> holds (f a) d' Q) -> holds (m ≫= f) d Q.
Proof. intros Hm Hf o. unfold mbind, IM_bind. specialize (Hm o). destruct (m d o); try done. by apply Hf. Qed.

Lemma holds_mono {A} (m : IM A) d (P Q : A -> disk -> Prop) : holds m d P -> (forall a d', P a d' -> Q a d') -> holds m d Q.
Proof. intros Hm HP o. specialize (Hm o). destruct (m d o); auto. Qed.

Lemma holds_eprint t d (Q : unit -> disk -> Prop) : Q tt d -> holds (eprint t) d Q.
Proof. by intros H o. Qed.

Lemma holds_print t d (Q : unit -> disk -> Prop) : Q tt d -> holds (print t) d Q.
Proof. by intros H o. Qed.

Lemma holds_idie {A} msg d (Q : A -> disk -> Prop) : E 1 d -> holds (idie msg) d Q.
Proof. by intros H o. Qed.

Lemma holds_pm {A} (m : PM A) d P (Q : A -> disk -> Prop) : yields m P -> E 1 d -> (forall a err, m [] = Parsed a err -> P a -> Q a d) -> holds (of_pm m) d Q.
Proof.
  intros Hm He HQ. unfold of_pm. pose proof (Hm []) as H. destruct (m []) as [a err|msg err| |] eqn:Em; try done.
  - intros o. by apply (HQ a err).
  - by intros o.
Qed.

Lemma holds_fm {A} (m : FM A) d (Q : A -> disk -> Prop) : sat m d Q (E 1) -> holds (of_fm m) d Q.
Proof. intros Hm o. unfold of_fm, sat in *. destruct (m d); done. Qed.
End Holds.

(** A step that leaves the disk as it is, and may end with exit code 1. *)
Definition quiet {A} (m : IM A) : Prop := forall d, holds (fun c d' => c = 1 /\ d' = d) (fun _ => False) m d (fun _ d' => d' = d).

Lemma quiet_bind {A B} (m : IM A) (f : A -> IM B) : quiet m -> (forall a, quiet (f a)) -> quiet (m ≫= f).
Proof. intros Hm Hf d. eapply holds_bind; [apply Hm|]. intros a d' ->. apply Hf. Qed.

Lemma quiet_ret {A} (a : A) : quiet (mret a).
Proof. intros d. by apply holds_ret. Qed.

Lemma quiet_eprint t : quiet (eprint t).
Proof. intros d. by apply holds_eprint. Qed.

Lemma quiet_idie {A} msg : quiet (idie (A := A) msg).
Proof. intros d. by apply holds_idie. Qed.

Lemma quiet_pm {A} (m : PM A) P : yields m P -> quiet (of_pm m).
Proof. intros Hm d. by eapply holds_pm. Qed.

#[export] Hint Resolve quiet_ret quiet_eprint quiet_idie : quiet.

Lemma quiet_holds {A} (m : IM A) E W d (Q : A -> disk -> Prop) : quiet m -> E 1 d -> (forall a, Q a d) -> holds E W m d Q.
Proof.
  intros Hm He HQ o. specialize (Hm d o). destruct (m d o); [subst; apply HQ|by destruct Hm; subst|done..].
Qed.

Section Quiet.
Context `{M : Machine}.

Lemma sys_stat_yields (F : FileSys) p : yields (sys_stat p) (fun _ => True).
Proof.
  unfold sys_stat. destruct g_root; [|by apply yields_ret]. apply (yields_bind _ _ (fun _ => True)); [|intros; by apply yields_ret].
  unfold sys_open. destruct (os_open_root p false); [by apply yields_ret|]. apply yields_when. intros _. by apply yields_ret.
Qed.

Lemma interp_notes_quiet dir root indeg i ps : quiet (interp_notes dir root indeg i ps).
Proof.
  revert i. induction ps as [|p ps IH]; intros i; cbn [interp_notes]; [auto with quiet|]. apply quiet_bind; [|intros _; apply IH].
  destruct (_ || _); [auto with quiet|]. apply quiet_bind; [eapply quiet_pm, sys_stat_yields|]. intros [mode|e]; [|auto with quiet].
  destruct (negb _); auto with quiet.
Qed.

Lemma interp_fs_note_quiet dir root ps indeg : quiet (interp_fs_note dir root ps indeg).
Proof.
  apply quiet_bind; [eapply quiet_pm, sys_stat_yields|]. intros [mode|e]; [apply interp_notes_quiet|auto with quiet].
Qed.

Lemma locale_note_quiet root : quiet (locale_note root).
Proof.
  unfold locale_note. apply quiet_bind; [destruct root, mc_locale as [f|e]; try destruct (e =? ENOSYS_); auto with quiet|]. intros _.
  destruct (ng_locale_fd _ _) as [vals bad]. apply quiet_bind; [destruct bad; auto with quiet|]. intros _. destruct (decide _); auto with quiet.
Qed.
End Quiet.

(** ** The disk *)

(** Nothing has been written. *)
Record kept (d d' : disk) : Prop := Kept { kp_on : on_disk d'; kp_dir : d_dir d' = d_dir d; kp_ino : d_ino d' = d_ino d }.

(** Whatever the power leaves of [d'], the path has what it had or [img], .old what it
    had or what the path had, and every other file is as it was. *)
Definition survives (d : disk) (path sfx img : bytes) (d' : disk) : Prop := forall s dir data, s ∈ now d' :: d_seen d' -> after_crash s dir data ->
  (file_at dir data path = content d path \/ file_at dir data path = Some img) /\
  (file_at dir data (path ++ bs ".old") = content d (path ++ bs ".old") \/
    (file_at dir data (path ++ bs ".old") = content d path /\ is_Some (content d path))) /\
  forall p, p <> path -> p <> path ++ bs ".old" -> p <> tmp_of path sfx -> p <> tmp_of path sfx ++ bs ".old" -> file_at dir data p = content d p.

(** The new file is at the path, and on the disk. *)
Record settled (d : disk) (path img : bytes) (perm : Z) (d' : disk) : Prop := Settled {
  st_synced : d_past d' = [d_dir d'];
  st_path : exists i, d_dir d' !! path = Some i /\ d_ino d' !! i = Some (Inode img perm true);
  st_old : d_dir d' !! (path ++ bs ".old") = previous path d;
}.

Lemma kept_refl d : on_disk d -> kept d d.
Proof. by constructor. Qed.

Lemma kept_survives d d' path sfx img d2 : kept d d' -> survives d' path sfx img d2 -> survives d path sfx img d2.
Proof. intros [_ H1 H2] Hs s dir data Hin Hc. specialize (Hs s dir data Hin Hc). unfold content in *. by rewrite H1, H2 in Hs. Qed.

Lemma write_survives strerror path buf mode um held sfx d : length sfx = 6%nat -> on_disk d ->
  sat (write_atomic strerror path buf mode um held sfx) d
    (fun _ d' => survives d path sfx buf d' /\ settled d path buf (Z.land mode (4095 - um)) d') (survives d path sfx buf).
Proof.
  intros Hs Hd. pose proof (sat_write_atomic strerror path buf mode um held sfx d Hs Hd) as H. unfold sat in *.
  destruct (write_atomic _ _ _ _ _ _ _ d) as [[] d'|msg d'|]; [|intros s dir data; by eapply inv_survives|done].
  destruct H as [[] Hp]. split; [intros s dir data; by eapply inv_survives|]. by constructor.
Qed.

Lemma plain_kept d d0 E : kept d0 d -> sat plain_call d (fun _ => kept d0) E.
Proof.
  intros Hk. unfold plain_call, next, sat, mbind, FM_bind. destruct (d_calls d) as [|r l] eqn:Hc; [exact Hk|].
  destruct Hk as [[H1 H2 H3 H4] H5 H6]. cbn. constructor; [|done..]. constructor; [done..|]. rewrite Hc in H4. by apply Forall_cons in H4 as [_ H4].
Qed.

Lemma lock_kept strerror dir d : on_disk d -> sat (lock_dir strerror dir) d (fun _ => kept d) (kept d).
Proof.
  intros Hd. unfold lock_dir. eapply sat_bind; [by apply plain_kept, kept_refl|]. intros e d1 K1.
  apply (sat_bind _ _ _ _ _ (fun _ => kept d)); [by destruct e|]. intros _ d2 K2.
  eapply sat_bind; [by apply plain_kept|]. intros e' d3 K3. by destruct e'.
Qed.

(** ** What is read *)

Section Read.
Context `{F : FileSys} (base : option bytes).

(** The build replaces the output and its .old, never its .tmp. *)
Definition spared (e : entry) : Prop := is_artifact (d_name e) base = true -> drop (length (default [] base)) (d_name e) <> bs ".tmp" ->
  exists mode, d_stat e = inl mode /\ is_reg mode = true /\ graph_image e = true.

Lemma parsed_when {A} (b : bool) msg (f : unit -> PM A) err r err' : (die_when b msg ≫= f) err = Parsed r err' -> b = false /\ f tt err = Parsed r err'.
Proof. by destruct b. Qed.

Lemma read_source_spared b e err b' err' : read_source base b e err = Parsed b' err' -> spared e.
Proof.
  unfold read_source. cbv zeta. intros [_ H]%parsed_when Ha Ht. destruct (d_stat e) as [mode|er]; [|done]. exists mode. split; [done|].
  rewrite Ha in H. cbn [orb] in H. destruct (is_reg mode), (graph_image e); cbn [negb orb] in H; [done|..].
  all: apply parsed_when in H as [H _]; by rewrite bool_decide_eq_false_2 in H.
Qed.

Lemma read_each_spared l b err b' err' : read_each base b l err = Parsed b' err' -> Forall spared l.
Proof.
  revert b err. induction l as [|e l IH]; intros b err; cbn [read_each]; [constructor|]. unfold mbind, PM_bind.
  destruct (read_source base b e err) as [b1 err1| | |] eqn:Hr; try done. intros H. constructor; [by eapply read_source_spared|by eapply IH].
Qed.

Lemma read_sources_spared l err b err' : read_sources base (inl l) err = Parsed b err' -> Forall spared (scandir l).
Proof.
  unfold read_sources, die_when. cbv zeta. destruct (_ <? _); [done|]. unfold mbind, PM_bind. cbn [mret PM_ret]. unfold PM_ret.
  destruct (read_each base _ (scandir l) err) as [b1 err1| | |] eqn:Hr; try done. intros _. by eapply read_each_spared.
Qed.

(** Those that are not hidden are scanned. *)
Lemma scandir_has l e : e ∈ l -> head (d_name e) <> Some 46 -> e ∈ scandir l.
Proof.
  intros He Hh. unfold scandir. rewrite merge_sort_Permutation. apply list_elem_of_filter. split; [|done]. unfold Sources.keep.
  by rewrite bool_decide_eq_false_2.
Qed.
End Read.

(** [compile] is [build_image] with what it has found on the way. *)
Lemma compile_build `{M : Machine} srcs hash : build_image true mc_addr srcs hash =
  match compile srcs hash with
  | Built c => Built (k_img c, k_vague c)
  | Die x => Die x
  | OutOfBounds => OutOfBounds
  | Unfinished => Unfinished
  end.
Proof.
  unfold compile, build_image. destruct (link_graph srcs) as [[es g]| | |]; [|done..]. cbn [mbind built_bind].
  destruct (order_graph es g) as [o| | |]; [|done..]. cbn [mbind built_bind].
  destruct (row_offsets (length srcs) (o_edges o)) as [roff| | |] eqn:Hr; cbn [mbind built_bind].
  - destruct (write_image true mc_addr srcs g o hash) as [[img v]| | |]; done.
  - unfold write_image. by rewrite Hr.
  - unfold write_image. by rewrite Hr.
  - unfold write_image. by rewrite Hr.
Qed.

(** ** What the command does *)

(** What is assumed of the machine: a directory has a name once, memory is aligned,
    mkostemp puts six bytes. *)
Class MachineOk (M : Machine) : Prop := {
  mo_fs root : FileSysOk (mc_fs root);
  mo_ents dir l : mc_ents dir = inl l -> dir_ok l;
  mo_addr : Z.land mc_addr 7 = 0;
  mo_ncpu : mc_ncpu < 2 ^ 32;
  mo_sfx : length mc_sfx = 6%nat;
}.

Section Command.
Context `{M : Machine}.

(** The image is of the services [b] in the directory, and their scripts are
    checked if they are to be. *)
Record image_of (t : task) (l : list entry) (b : sources) (img : bytes) : Prop := ImageOf {
  io_ents : mc_ents (t_dir t) = inl l;
  io_read : exists err, read_sources (F := fs_at (t_dir t) (o_root (t_opts t))) (t_base t) (inl l) [] = Parsed b err;
  io_files : Forall (from_file l) (p_src <$> b_srcs b);
  io_checked : o_nocheck (t_opts t) = false -> exists shell_ok err,
    let F := fs_at (t_dir t) (o_root (t_opts t)) in
    let r := checks_of (t_dir t) (o_root (t_opts t)) shell_ok (b_srcs b) in
    shell_runs F [] = Parsed shell_ok err /\ r.1.2 = Passed /\ told shell_ok (job_of F <$> b_srcs b) Passed r.2;
  io_boots : bootable img;
  io_decodes : exists gr order, decode img = VOk gr /\ graph_of (p_src <$> b_srcs b) order gr;
}.

Definition nothing_or_graph (p : bytes) : Prop := match mc_mode p with None => True | Some mode => is_reg mode = true /\ mc_graph p = true end.

(** What the output and its .old replace is a graph, if it is anything: an output
    elsewhere is looked at by its path, one in the directory by the scan, which does
    not see hidden files. *)
Definition only_graphs (t : task) (l : list entry) : Prop :=
  match t_base t with
  | None => forall p, p = t_out t \/ p = t_out t ++ bs ".old" -> nothing_or_graph p
  | Some b => head b <> Some 46 -> forall e, e ∈ l -> d_name e = b \/ d_name e = b ++ bs ".old" ->
      exists mode, d_stat e = inl mode /\ is_reg mode = true /\ Sources.graph_image e = true
  end.

Definition init_done (t : task) (d d' : disk) : Prop := exists l b img, image_of t l b img /\ only_graphs t l /\
  if o_dry (t_opts t) then kept d d' else
  survives d (t_out t) mc_sfx img d' /\ settled d (t_out t) img (Z.land (b_out_mode b) (4095 - mc_umask)) d'.

(** An exit with an error has touched nothing, or ended while the new graph was put
    in place. *)
Definition init_failed (t : task) (d : disk) (code : Z) (d' : disk) : Prop := (code = 1 \/ code = 2) /\
  (kept d d' \/ (code = 1 /\ o_dry (t_opts t) = false /\ exists l b img, image_of t l b img /\ survives d (t_out t) mc_sfx img d')).

(** A wait that does not end is one for a check. *)
Definition init_waits (t : task) (d d' : disk) : Prop := kept d d' /\ o_nocheck (t_opts t) = false.

#[export] Instance fs_at_ok dir root : MachineOk M -> FileSysOk (fs_at dir root).
Proof. intros H. destruct (mo_fs root) as [H1 H2]. by constructor. Qed.

Lemma shell_runs_yields F : yields (shell_runs F) (fun _ => True).
Proof. eapply yields_bind; [apply sys_stat_yields|]. intros st _. by apply yields_ret. Qed.

Section Task.
Context (t : task) (d : disk) (HM : MachineOk M).

Abbreviation holds := (holds (init_failed t d) (init_waits t d)).

Lemma failed_kept code d' : code = 1 \/ code = 2 -> kept d d' -> init_failed t d code d'.
Proof. intros Hc Hk. split; [done|by left]. Qed.

Lemma refuse_holds p d' (Q : unit -> disk -> Prop) : kept d d' ->
  (nothing_or_graph p -> Q tt d') -> holds (refuse_nongraph p) d' Q.
Proof.
  intros Hk HQ. unfold refuse_nongraph, nothing_or_graph in *. destruct (mc_mode p) as [mode|]; [|by apply holds_ret, HQ].
  destruct (is_reg mode), (mc_graph p); cbn [negb orb]; [by apply holds_ret, HQ|..]; apply holds_idie, failed_kept; auto.
Qed.

Lemma refuse_both_holds out d' : kept d d' -> holds (refuse_both out) d' (fun _ d2 => kept d d2 /\
  forall p, p = out \/ p = out ++ bs ".old" -> nothing_or_graph p).
Proof.
  intros Hk. unfold refuse_both. destruct (_ <=? _).
  - intros o. by apply failed_kept; [right|].
  - apply (holds_bind _ _ _ _ _ (fun _ d1 => kept d d1 /\ nothing_or_graph out)); [by apply refuse_holds|]. intros _ d1 [K1 H1].
    apply refuse_holds; [done|]. intros H2. split; [done|]. by intros p [-> | ->].
Qed.

Lemma check_all_holds ps d' : kept d d' -> o_nocheck (t_opts t) = false ->
  holds (check_all (t_dir t) (o_root (t_opts t)) ps) d' (fun _ d2 => d2 = d' /\ exists shell_ok err,
    let F := fs_at (t_dir t) (o_root (t_opts t)) in let r := checks_of (t_dir t) (o_root (t_opts t)) shell_ok ps in
    shell_runs F [] = Parsed shell_ok err /\ r.1.2 = Passed /\ told shell_ok (job_of F <$> ps) Passed r.2).
Proof.
  intros Hk Hno. unfold check_all. set (F := fs_at _ _). eapply (holds_bind _ _ _ _ _ (fun ok d2 => d2 = d' /\ exists err, shell_runs F [] = Parsed ok err)).
  { eapply holds_pm; [apply shell_runs_yields|apply failed_kept; auto|]. intros ok err E _. split; [done|by exists err]. }
  intros ok d2 [-> [err E]].
  assert (told ok (job_of F <$> ps) (checks_of (t_dir t) (o_root (t_opts t)) ok ps).1.2 (checks_of (t_dir t) (o_root (t_opts t)) ok ps).2) as Ht
    by apply check_told, mo_ncpu.
  destruct (checks_of (t_dir t) (o_root (t_opts t)) ok ps) as [[text v] tr] eqn:Ec. cbn [fst snd] in Ht.
  apply (holds_bind _ _ _ _ _ (fun _ d2 => d2 = d')); [by apply holds_eprint|]. intros _ d2 ->. destruct v.
  - apply holds_ret. split; [done|]. exists ok, err. cbv zeta. by rewrite Ec.
  - apply holds_idie, failed_kept; auto.
  - apply holds_idie, failed_kept; auto.
  - by intros o.
Qed.

Lemma read_holds d' : kept d d' ->
  holds (of_pm (read_sources (F := fs_at (t_dir t) (o_root (t_opts t))) (t_base t) (mc_ents (t_dir t)))) d' (fun b d2 => d2 = d' /\ exists l err,
    mc_ents (t_dir t) = inl l /\ read_sources (F := fs_at (t_dir t) (o_root (t_opts t))) (t_base t) (inl l) [] = Parsed b err /\
    dir_ok l /\ read_ok (scandir l) b /\ b_srcs b <> [] /\ Z.of_nat (length (b_srcs b)) <= NG_MAX_SVC).
Proof.
  intros Hk. destruct (mc_ents (t_dir t)) as [l|e] eqn:El.
  - eapply holds_pm; [apply (read_sources_ok _ _ (mo_ents _ _ El))|apply failed_kept; auto|]. intros b err E (H1 & H2 & H3). split; [done|].
    exists l, err. split_ands; try done. by apply (mo_ents (t_dir t)).
  - intros o. exact (failed_kept 1 d' (or_introl eq_refl) Hk).
Qed.

Lemma graphs_only d' : kept d d' -> holds (match t_base t with None => refuse_both (t_out t) | Some _ => mret tt end) d' (fun _ d2 => kept d d2 /\
  (t_base t = None -> forall p, p = t_out t \/ p = t_out t ++ bs ".old" -> nothing_or_graph p)).
Proof.
  intros Hk. destruct (t_base t); [by apply holds_ret|]. eapply holds_mono; [by apply refuse_both_holds|]. intros _ d2 [H1 H2]. done.
Qed.

Lemma base_spared b0 l b err : t_base t = Some b0 -> b0 <> [] ->
  read_sources (F := fs_at (t_dir t) (o_root (t_opts t))) (t_base t) (inl l) [] = Parsed b err -> only_graphs t l.
Proof.
  intros Eb Hne Hr. apply read_sources_spared in Hr. rewrite Forall_forall in Hr. unfold only_graphs. rewrite Eb in *. intros Hh e He Hn.
  assert (drop (length b0) (d_name e) = [] \/ drop (length b0) (d_name e) = bs ".old") as Hd.
  { destruct Hn as [-> | ->]; [left; apply drop_all|right; by rewrite drop_app_length]. }
  apply (Hr e); cbn [default].
  - apply scandir_has; [done|]. destruct Hn as [-> | ->]; [done|]. by destruct b0.
  - unfold is_artifact. assert (str_prefix (d_name e) b0 = true) as ->.
    { unfold str_prefix. destruct Hn as [-> | ->]; [apply bool_decide_eq_true_2; by rewrite firstn_all|apply bool_decide_eq_true_2; by rewrite take_app_length]. }
    cbn [andb]. destruct Hd as [-> | ->]; by vm_compute.
  - intros Ht. change (drop (length b0) (d_name e) = bs ".tmp") in Ht. destruct Hd as [Hd|Hd]; rewrite Hd in Ht; discriminate.
Qed.

(** An image that is compiled from what was read boots, and is what was read. *)
Lemma compile_holds l b d' : dir_ok l -> read_ok (scandir l) b -> Z.of_nat (length (b_srcs b)) <= NG_MAX_SVC -> b_srcs b <> [] -> kept d d' ->
  holds (of_built (t_dir t) (p_src <$> b_srcs b) (compile (p_src <$> b_srcs b) (b_hash b))) d' (fun c d2 => d2 = d' /\ bootable (k_img c) /\
    exists gr order, decode (k_img c) = VOk gr /\ graph_of (p_src <$> b_srcs b) order gr).
Proof.
  intros Hl [] Hn Hne Hk. set (srcs := p_src <$> b_srcs b).
  assert (NoDup (s_name <$> srcs)) as HN by (eapply read_names; [exact Hl|by constructor]).
  assert (Forall src_ok srcs) as Hok by (by apply Forall_fmap).
  assert (Z.of_nat (length srcs) <= NG_MAX_SVC) as Hlen by (unfold srcs; by rewrite length_fmap).
  pose proof (build_image_outcome mc_addr srcs (b_hash b) Hok HN Hlen mo_addr ro_hash) as Ho.
  pose proof (compile_build srcs (b_hash b)) as Hb. destruct (compile srcs (b_hash b)) as [c|x| |]; rewrite Hb in Ho; try done.
  - apply holds_ret. split; [done|]. destruct Ho as [_ (gr & order & h & H1 & H2 & _)]. split; [|by exists gr, order].
    eapply built_bootable; [exact Hok|exact HN| |exact Hlen|apply mo_addr|exact ro_hash|exact Hb]. unfold srcs. by destruct (b_srcs b).
  - apply holds_idie, failed_kept; auto.
Qed.

Lemma put_holds b l c d' : kept d d' -> image_of t l b (k_img c) -> only_graphs t l ->
  holds (put_image t (p_src <$> b_srcs b) (b_out_mode b) c) d' (fun _ d2 => init_done t d d2 /\ init_failed t d 1 d2).
Proof.
  intros Hk Hi Hg. unfold put_image. cbv zeta.
  apply (holds_bind _ _ _ _ _ (fun _ d2 => init_done t d d2 /\ init_failed t d 1 d2)); [|intros _ d2 H; by apply holds_eprint].
  destruct (o_dry (t_opts t)) eqn:Edry.
  - apply holds_print. split; [|apply failed_kept; auto]. exists l, b, (k_img c). by rewrite Edry.
  - apply (holds_bind _ _ _ _ _ (fun _ d2 => init_done t d d2 /\ init_failed t d 1 d2)); [|intros _ d2 H; by apply holds_print].
    assert (forall d2, survives d' (t_out t) mc_sfx (k_img c) d2 -> init_failed t d 1 d2) as Hf.
    { intros d2 Hs. split; [by left|]. right. split; [done|]. split; [done|]. exists l, b, (k_img c). split; [done|]. by eapply kept_survives. }
    apply holds_fm. pose proof (write_survives mc_strerror (t_out t) (k_img c) (b_out_mode b) mc_umask (mc_same_dir (t_dir t) (dir_of (t_out t))) mc_sfx d' mo_sfx (kp_on _ _ Hk)) as Hw.
    unfold sat in *. destruct (write_atomic _ _ _ _ _ _ _ d') as [[] d2|msg d2|]; [|by apply Hf|done].
    destruct Hw as [Hs [H1 H2 H3]]. split; [|by apply Hf]. exists l, b, (k_img c). split; [done|]. split; [done|]. rewrite Edry.
    split; [by eapply kept_survives|]. constructor; [done|done|]. unfold previous in *. by rewrite (kp_dir _ _ Hk) in H3.
Qed.

Lemma run_task_holds : on_disk d -> t_base t <> Some [] -> holds (run_task t) d (fun rc d' => rc = 0 /\ init_done t d d').
Proof.
  intros Hd Hbase. unfold run_task. cbv zeta.
  apply (holds_bind _ _ _ _ _ (fun _ => kept d)).
  { apply holds_fm. pose proof (lock_kept mc_strerror (t_dir t) d Hd) as H. unfold sat in *. destruct (lock_dir _ _ d); [done| |done]. apply failed_kept; auto. }
  intros _ d1 K1. eapply holds_bind; [by apply graphs_only|]. intros _ d2 [K2 Hg].
  eapply holds_bind; [by apply read_holds|]. intros b d3 [-> (l & err & El & Er & Hl & Hr & Hne & Hn)].
  assert (only_graphs t l) as Hog.
  { destruct (t_base t) as [b0|] eqn:Eb; [|unfold only_graphs; rewrite Eb; by apply Hg]. eapply base_spared; [exact Eb|by intros ->|]. by rewrite Eb. }
  apply (holds_bind _ _ _ _ _ (fun _ d4 => d4 = d2 /\ (o_nocheck (t_opts t) = false -> exists shell_ok err,
    let F := fs_at (t_dir t) (o_root (t_opts t)) in let r := checks_of (t_dir t) (o_root (t_opts t)) shell_ok (b_srcs b) in
    shell_runs F [] = Parsed shell_ok err /\ r.1.2 = Passed /\ told shell_ok (job_of F <$> b_srcs b) Passed r.2))).
  { destruct (o_nocheck (t_opts t)) eqn:Eno; [by apply holds_ret|]. eapply holds_mono; [by apply check_all_holds|]. by intros _ d4 [-> H]. }
  intros _ d4 [-> Hck]. eapply holds_bind; [by apply (compile_holds l b)|]. intros c d5 [-> [Hb Hdec]].
  eapply holds_bind; [apply (put_holds b l c); [done| |done]|].
  { constructor; [done|by exists err| |done..]. apply Forall_fmap. eapply Forall_impl; [exact (ro_files _ _ Hr)|]. intros p (e & He & H). exists e. split; [by apply scandir_in|done]. }
  intros _ d6 [Hdone Hfail]. apply (holds_bind _ _ _ _ _ (fun _ d7 => d7 = d6)); [by apply quiet_holds; [apply interp_fs_note_quiet|..]|]. intros _ d7 ->.
  apply (holds_bind _ _ _ _ _ (fun _ d7 => d7 = d6)); [by apply quiet_holds; [apply locale_note_quiet|..]|]. intros _ d7 ->. by apply holds_ret.
Qed.
End Task.
End Command.

Lemma task_base_name `{M : Machine} args t : task_of args = inl t -> t_base t <> Some [].
Proof.
  unfold task_of, output_base. destruct (init_args args opts0) as [o|e]; [|done]. destruct (out_for o) as [out|e]; [|done]. destruct (_ <=? _); [done|].
  intros [= <-]. cbn. destruct (bool_decide (base_of out = [])) eqn:Eb; [done|]. apply bool_decide_eq_false in Eb. cbn [orb]. destruct (mc_same_dir _ _); cbn; congruence.
Qed.

Lemma args_code `{M : Machine} args o msg code : init_args args o = inr (msg, code) -> code = 1 \/ code = 2.
Proof.
  intros H. assert (forall o e, (init_args args o = inr e -> e.2 = 1 \/ e.2 = 2) /\ (init_args (drop 1 args) o = inr e -> e.2 = 1 \/ e.2 = 2)) as Hall.
  { clear. induction args as [|a args IH]; intros o e; [done|]. split; [|apply IH]. cbn [init_args].
    assert (forall what, needs (A := opts) a what = inr e -> e.2 = 1 \/ e.2 = 2) as Hneeds by (intros what [= <-]; by right).
    destruct (bool_decide (a = _ \/ _)); [destruct args; [apply Hneeds|apply IH]|].
    destruct (bool_decide (a = _ \/ _)); [destruct args; [apply Hneeds|apply IH]|].
    destruct (bool_decide (a = _ \/ _)); [apply IH|]. destruct (bool_decide (a = _)); [apply IH|].
    destruct (bool_decide (a = _)); [|intros [= <-]; by right]. destruct args as [|v args]; [apply Hneeds|]. unfold set_root.
    destruct (mc_open_root v); [intros [= <-]; by left|]. destruct (mc_realpath v); [apply IH|intros [= <-]; by left]. }
  exact (proj1 (Hall o (msg, code)) H).
Qed.

Lemma task_code `{M : Machine} args msg code : task_of args = inr (msg, code) -> code = 1 \/ code = 2.
Proof.
  unfold task_of, out_for, output_base. destruct (init_args args opts0) as [o|e] eqn:Ea; [|intros [= ->]; by eapply args_code].
  destruct (dir_for o) as [dir custom]. destruct (o_out o) as [out|]; [|destruct (negb custom); [|destruct (_ <=? _); [intros [= _ <-]; auto|]]]; (destruct (_ <=? _); [intros [= _ <-]; auto|done]).
Qed.

(** C4. [ninitctl init], from its arguments to its exit code, on a machine whose calls
    may fail and whose power may be lost at any moment. It ends, but for a check the
    kernel never reports the end of. With exit code 0 it has put at the output an
    image that boots and that decodes to the services of the directory, each made
    from a file of it; each script was passed by the check of its language, unless
    the checks were turned off; the image is on the disk, with the mode of the
    sources, and what was at the output before is at its .old; a dry run has written
    nothing. What it replaced was a graph, or nothing, unless the output is a hidden
    file of the directory. With any other exit code it has touched nothing, or leaves
    at the output what was there or such an image, whole, and every other file as it
    was. *)
Theorem init_command `{M : Machine} args d : MachineOk M -> on_disk d ->
  match cmd_init args d (Said [] []) with
  | IGoes rc d' _ => rc = 0 /\ exists t, task_of args = inl t /\ init_done t d d'
  | IExit code d' _ => (code = 1 \/ code = 2) /\ match task_of args with inl t => init_failed t d code d' | inr _ => d' = d end
  | IWaits d' _ => exists t, task_of args = inl t /\ init_waits t d d'
  | IBroken => False
  end.
Proof.
  intros HM Hd. unfold cmd_init. destruct (task_of args) as [t|[msg code]] eqn:Et.
  - change ((t0 ← of_task (inl t : task + (bytes * Z)); run_task t0) d (Said [] [])) with (run_task t d (Said [] [])).
    pose proof (run_task_holds t d HM Hd (task_base_name args t Et) (Said [] [])) as H.
    destruct (run_task t d (Said [] [])) as [rc d' o|code d' o|d' o|]; [|by split; [apply H|]|by exists t|done].
    destruct H as [-> H]. split; [done|by exists t].
  - cbn. split; [|done]. by eapply task_code.
Qed.

(** ** A run *)

(** A machine with the directory of the example of [Sources], one interpreter, and a
    check of the second service that ends well. *)
#[export] Instance desk : Machine := {|
  mc_kernel := kernel0;
  mc_fs _ := one_python;
  mc_open_root _ := Some 2;
  mc_realpath _ := inr 2;
  mc_strerror := err;
  mc_same_dir a b := bool_decide (a = b);
  mc_ents _ := inl a_directory;
  mc_mode _ := None;
  mc_graph _ := false;
  mc_ncpu := 4;
  mc_chroot := (inl (Some 1), inl (Some 1));
  mc_waits := [WNone 5; WPid 101 (Exited 0)];
  mc_addr := 4096;
  mc_umask := 18;
  mc_sfx := sfx0;
  mc_dev _ := 1;
  mc_locale := inr 2;
|}.

Lemma a_directory_ok : dir_ok a_directory.
Proof.
  split.
  - refine (bool_decide_unpack (NoDup (d_name <$> a_directory)) _). vm_compute. exact I.
  - refine (bool_decide_unpack (Forall (fun d => Forall (fun c => 0 <= c < 256) (d_name d) /\ Forall (fun c => 0 <= c < 256) (d_data d)) a_directory) _).
    vm_compute. exact I.
Qed.

Lemma desk_ok : MachineOk desk.
Proof. constructor; [intros root; apply one_python_ok|intros dir l E; injection E as E; rewrite <- E; apply a_directory_ok|done..]. Qed.

Abbreviation run_desk := (cmd_init [bs "-o"; graph_path] sample_disk (Said [] [])).

Lemma run_desk_did : match run_desk with
  | IGoes rc d' o => (rc =? 0) && bool_decide (to_out o = bs "/etc/ninit.d/depgraph: 3 services, 3 edges, 1 roots, 304 bytes" ++ [10])
  | _ => false
  end = true.
Proof. vm_compute. reflexivity. Qed.

Lemma run_desk_goes : exists rc d' o, run_desk = IGoes rc d' o.
Proof. pose proof run_desk_did as E. destruct run_desk as [rc d' o|code d' o|d' o|]; [by eexists _, _, _|discriminate..]. Qed.

Definition desk_task : task := Task (Opts NG_DEFAULT_DIR false (Some graph_path) false false None) NG_DEFAULT_DIR graph_path (Some (bs "depgraph")).

Lemma desk_task_of : task_of [bs "-o"; graph_path] = inl desk_task.
Proof. vm_compute. reflexivity. Qed.

Lemma init_command_witness : exists d' o, run_desk = IGoes 0 d' o /\ d_past d' = [d_dir d'] /\
  exists img gr, content d' graph_path = Some img /\ bootable img /\ decode img = VOk gr.
Proof.
  assert (on_disk sample_disk) as Hd by (apply disk_with_ok; [apply one_more_ok|constructor]).
  pose proof (init_command [bs "-o"; graph_path] sample_disk desk_ok Hd) as H.
  destruct run_desk_goes as (rc & d' & o & E). rewrite E in H. destruct H as (-> & t & Et & H). exists d', o. split; [exact E|]. clear E.
  rewrite desk_task_of in Et. assert (t = desk_task) as -> by congruence. destruct H as (l & b & img & Hi & _ & Hw).
  change (o_dry (t_opts desk_task)) with false in Hw. destruct Hw as [_ [H1 (i & H2 & H3) _]]. split; [exact H1|].
  destruct (io_decodes _ _ _ _ Hi) as (gr & order & Hdec & _). exists img, gr. split; [|split; [exact (io_boots _ _ _ _ Hi)|exact Hdec]].
  unfold content. change (t_out desk_task) with graph_path in H2. rewrite H2. cbn [mbind option_bind]. by rewrite H3.
Defined.

(** An output that is a hidden file of the directory is replaced whatever it is: the
    scan that would refuse it does not see it. *)
Definition hidden_path : bytes := bs "/etc/ninit.d/.swp".
Definition hidden_disk : disk := Disk {[hidden_path := 1%nat]} [{[hidden_path := 1%nat]}] {[1%nat := Inode [1; 2; 3] 420 true]} [] [].

Lemma hidden_replaced :
  content hidden_disk hidden_path = Some [1; 2; 3] /\ is_graph [1; 2; 3] 3 = false /\
  match cmd_init [bs "-o"; hidden_path] hidden_disk (Said [] []) with
  | IGoes rc d' _ => (rc =? 0) && negb (bool_decide (content d' hidden_path = Some [1; 2; 3]))
  | _ => false
  end = true.
Proof. split; [vm_compute; reflexivity|]. split; vm_compute; reflexivity. Qed.
