(* ===== verification/Show.v ===== *)
(** * Printing a graph (ctl/show.c)

    [ninitctl show] reads an image, checks it as pid 1 does, works out the
    prerequisites and the level of each service, and prints a table and the deepest
    dependency chain. *)

From stdpp Require Import sorting.
From S2P Require Import Prelude Ngraph Cgroup Verify Accept Argv Build Link Text Directives Lang Sh Checks Client.

(** ** The prerequisites *)

(** [doff[ridx[i] + 1]++], the sums, and [didx[doff[d] + fill[d]++] = i]. *)
Definition dep_rows (g : graph) : built (list nat * list nat) :=
  let n := g_n g in
  doff ← each (fun off d => upd off (d + 1) S) (replicate (n + 2) 0%nat) (g_ridx g);
  doff ← sum_offsets n doff;
  r ← each (fun st i =>
        l ← (match succs g i with Some l => Built l | None => OutOfBounds end);
        each (fun '(didx, fill) d =>
                o ← get doff d;
                f ← get fill d;
                didx ← put didx (o + f) i;
                fill ← upd fill d S;
                mret (didx, fill)) st l)
    (replicate (Nat.max 1 (length (g_ridx g))) 0%nat, replicate (n + 1) 0%nat) (seq 0 n);
  mret (doff, r.1).

(** [didx[doff[i]]] to [didx[doff[i + 1] - 1]] *)
Definition prereqs_at (doff didx : list nat) (i : nat) : built (list nat) :=
  a ← get doff i;
  b ← get doff (i + 1);
  each (fun l j => x ← get didx j; mret (l ++ [x])) [] (seq a (b - a)).

(** The level of each service, the greatest, and the first that has it. *)
Definition level_of (level : list nat) (row : list nat) : built nat :=
  each (fun lv d => l ← get level d; mret (if (lv <? l + 1)%nat then (l + 1)%nat else lv)) 1%nat row.

Definition levels (n : nat) (doff didx : list nat) : built (list nat * nat * nat) :=
  each (fun '(level, maxlvl, deepest) i =>
          row ← prereqs_at doff didx i;
          lv ← level_of level row;
          level ← put level i lv;
          mret (if (maxlvl <? lv)%nat then (level, lv, i) else (level, maxlvl, deepest)))
    (replicate n 0%nat, 0%nat, 0%nat) (seq 0 n).

(** The first of the row one level below. *)
Fixpoint one_below (level : list nat) (lc : nat) (row : list nat) : built (option nat) :=
  match row with
  | [] => mret None
  | d :: row' => l ← get level d; if (l =? lc - 1)%nat then mret (Some d) else one_below level lc row'
  end.

(** [while(c) { chain[--c] = cur; ... }], the array filled from its end. *)
Fixpoint chain_of (doff didx level : list nat) (c cur : nat) (acc : list nat) : built (list nat) :=
  match c with
  | O => mret acc
  | S c' =>
      row ← prereqs_at doff didx cur;
      lc ← get level cur;
      d ← one_below level lc row;
      chain_of doff didx level c' (default cur d) (cur :: acc)
  end.

(** What is printed of the graph: the prerequisites and the level of each service,
    and the deepest chain. *)
Record shown_view := View { v_rows : list (list nat); v_level : list nat; v_chain : list nat }.

Definition show_view (g : graph) : built shown_view :=
  '(doff, didx) ← dep_rows g;
  '(level, maxlvl, deepest) ← levels (g_n g) doff didx;
  rows ← each (fun rs i => r ← prereqs_at doff didx i; mret (rs ++ [r])) [] (seq 0 (g_n g));
  chain ← chain_of doff didx level maxlvl deepest [];
  mret (View rows level chain).

(** ** The text *)

Record style := Style { bold : bytes; s_dim : bytes; cyan : bytes; s_yellow : bytes; s_green : bytes; s_red : bytes; s_reset : bytes;
                        s_bar : bytes; vbar : bytes; arrow : bytes; s_none : bytes }.

Definition style_tty : style :=
  Style (sgr "[1m") (sgr "[2m") (sgr "[36m") (sgr "[33m") (sgr "[32m") (sgr "[1;31m") (sgr "[0m") [226; 148; 128] [226; 148; 130] [226; 134; 146] [226; 128; 148].
Definition style_plain : style := Style [] [] [] [] [] [] [] (bs "-") (bs "|") (bs "->") (bs "-").

(** One argument, in single quotes when a shell would split or expand it. *)
Definition bare (c : Z) : bool :=
  bool_decide (c ∈ bs "_@%+=:,./-") || ((48 <=? c) && (c <=? 57)) || ((97 <=? Z.lor c 32) && (Z.lor c 32 <=? 122)).

Definition print_arg (a : bytes) : bytes :=
  if forallb bare a && negb (bool_decide (a = [])) then 32 :: a
  else [32; 39] ++ concat ((fun c => if c =? 39 then [39; 92; 39; 39] else [c]) <$> a) ++ [39].

Section Text.
Context (st : style) (img : bytes) (h : ng_hdr) (g : graph) (verbose : bool).

(** [for(; *p; p += strlen(p) + 1)] *)
Fixpoint strings_at (fuel : nat) (p : Z) : vres (list bytes * Z) :=
  (vlet c := rd8 img p in
   if c =? 0 then VOk ([], p) else
   match fuel with
   | O => VDiverge
   | S fuel' =>
       vlet s := cstr img p in
       vlet (l, q) := strings_at fuel' (p + Z.of_nat (length s) + 1) in
       VOk (s :: l, q)
   end)%vres.

(** [ng_exec(map, i)] *)
Definition exec_at (p : ng_pol) : Z := off_blob h + exec_off p.

(** What runs the script. *)
Definition via_of (s : ng_svc) (p : ng_pol) : vres bytes :=
  if has_flag (flags s) NG_FLAG_DIRECT then VOk (bs "direct") else
  if has_flag (flags s) NG_FLAG_INTERP then (vlet e := cstr img (exec_at p) in VOk (str_base e))%vres
  else VOk NG_SHELL_ARGV0.

(** The widths of the columns. *)
Definition name_width : nat := foldl Nat.max 7%nat (length <$> g_name g).

Fixpoint via_width (k : nat) (i : nat) (w : nat) : vres nat :=
  match k with
  | O => VOk w
  | S k' =>
      (vlet s := of_opt (g_svc g !! i) in
       if type s =? NG_TYPE_TARGET then via_width k' (S i) w else
       vlet p := of_opt (g_pol g !! i) in
       vlet v := via_of s p in
       via_width k' (S i) (Nat.max w (length v)))%vres
  end.

(** [%08x] *)
Definition hex8 (x : Z) : bytes :=
  (fun k => let d := Z.land (Z.shiftr x (4 * Z.of_nat (7 - k))) 15 in if d <? 10 then 48 + d else 87 + d) <$> seq 0 8.

Definition graph_heading (path : bytes) (size : Z) (maxlvl wname wvia : nat) : bytes :=
  bold st ++ cyan st ++ bs "depgraph" ++ s_reset st ++ bs "  " ++ path ++ [10] ++
  s_dim st ++ dec (n_svc h) ++ bs " services, " ++ dec (n_edges h) ++ bs " edges, " ++ dec (n_roots h) ++ bs " roots, " ++
    dec (Z.of_nat maxlvl) ++ bs " levels, " ++ dec size ++ bs " bytes, crc " ++ hex8 (hdr_crc32 h) ++ s_reset st ++ [10; 10] ++
  s_dim st ++ bs "  #  " ++ rpad wname (bs "service") ++ bs "  " ++ rpad 7 (bs "type") ++ bs "  " ++ rpad wvia (bs "via") ++
    bs "  lvl  kills  onfail  rdy  rst  depends on" ++ s_reset st ++ [10] ++
  s_dim st ++ bs "  " ++ concat (replicate (wname + wvia + 61) (s_bar st)) ++ s_reset st ++ [10].

(** The names of services, after each but the last [sep]. *)
Fixpoint names_text (sep : bytes) (l : list nat) : vres bytes :=
  match l with
  | [] => VOk []
  | [i] => of_opt (g_name g !! i)
  | i :: l' => (vlet nm := of_opt (g_name g !! i) in vlet t := names_text sep l' in VOk (nm ++ sep ++ t))%vres
  end.

Definition table_row (wname wvia i lv : nat) (deps : list nat) (s : ng_svc) (p : ng_pol) (nm : bytes) : vres bytes :=
  let col := if (i <? g_roots g)%nat then s_green st else [] in
  let cend := if (i <? g_roots g)%nat then s_reset st else [] in
  let pol := Z.land (flags s) NG_ONFAIL_MASK in
  let pcol := if pol =? NG_ONFAIL_SHELL then s_red st else if pol =? NG_ONFAIL_STOP then s_yellow st else s_dim st in
  let target := type s =? NG_TYPE_TARGET in
  let restarts := negb (Z.land (flags s) NG_FLAG_RESTART =? 0) in
  (vlet via := (if target then VOk (s_none st) else via_of s p) in
   let vpad := (wvia - (if target then 1 else length via))%nat in
   let rdy := if negb (notify_fd s =? 0) then lpad 3 (dec (notify_fd s)) else bs "  " ++ s_none st in
   let rst := if restarts then bs "yes" else bs "  " ++ s_none st in
   vlet d := (if decide (deps = []) then VOk (s_dim st ++ s_none st ++ s_reset st) else names_text (bs " ") deps) in
   VOk (s_dim st ++ lpad 3 (dec (Z.of_nat i)) ++ s_reset st ++ bs "  " ++ col ++ rpad wname nm ++ cend ++ bs "  " ++
        s_dim st ++ rpad 7 (bs (ng_typename (type s))) ++ s_reset st ++ bs "  " ++ s_dim st ++ via ++ replicate vpad 32 ++ s_reset st ++ bs "  " ++
        lpad 3 (dec (Z.of_nat lv)) ++ bs "  " ++ lpad 5 (dec (n_desc s)) ++ bs "  " ++ pcol ++ rpad 6 (bs (ng_onfailname pol)) ++ s_reset st ++ bs "  " ++
        (if negb (notify_fd s =? 0) then s_green st else s_dim st) ++ rdy ++ s_reset st ++ bs "  " ++
        (if restarts then s_green st else s_dim st) ++ rst ++ s_reset st ++ bs "  " ++ d ++ [10]))%vres.

Definition note_line (t : bytes) : bytes := s_dim st ++ bs "     " ++ vbar st ++ t ++ s_reset st ++ [10].

Definition policy_text (i : nat) (p : ng_pol) : vres bytes :=
  (vlet a := of_opt (ng_start_ms g i) in
   vlet b := of_opt (ng_stop_ms g i) in
   vlet t := of_opt (ng_start_tries g i) in
   vlet o := of_opt (ng_order_only g i) in
   let set := negb (start_ms p =? 0) || negb (stop_ms p =? 0) || negb (start_tries p =? 0) || negb (retry_ms p =? 0) || negb (pflags p =? 0) in
   VOk (note_line (bs " start-timeout " ++ dec a ++ bs " ms, stop-timeout " ++ dec b ++ bs " ms, start-tries " ++ dec t ++ bs ", start-delay " ++
     dec (retry_ms p) ++ bs " ms, deps " ++ (if o : bool then bs "order" else bs "uptime") ++ (if set then bs " (set)" else bs " (default)"))))%vres.

(** The command of a service, where the script goes. *)
Definition command_text (s : ng_svc) (p : ng_pol) : vres bytes :=
  let args l := concat (print_arg <$> l) in
  if has_flag (flags s) NG_FLAG_INTERP then
    (vlet (pre, q) := strings_at args_fuel (exec_at p) in
     vlet (suf, _) := strings_at args_fuel (q + 1) in
     VOk (note_line (bs " runs" ++ args pre ++ bs " SCRIPT" ++ args suf)))%vres
  else if has_flag (flags s) NG_FLAG_DIRECT then
    (vlet (l, _) := strings_at args_fuel (exec_at p) in VOk (note_line (bs " execs" ++ args l)))%vres
  else VOk [].

(** Its script without the empty lines at the start. *)
Definition script_text (s : ng_svc) : vres bytes :=
  if type s =? NG_TYPE_TARGET then VOk [] else
  (vlet sc := cstr img (off_blob h + script_off s) in
   let '(ls, rest) := split_lines [] (skip_byte 10 sc) in
   VOk (concat ((fun l => note_line (32 :: l)) <$> (ls ++ (if decide (rest = []) then [] else [rest])))))%vres.

Fixpoint rows_text (k : nat) (i wname wvia : nat) (v : shown_view) : vres bytes :=
  match k with
  | O => VOk []
  | S k' =>
      (vlet s := of_opt (g_svc g !! i) in
       vlet p := of_opt (g_pol g !! i) in
       vlet nm := of_opt (g_name g !! i) in
       vlet deps := of_opt (v_rows v !! i) in
       vlet lv := of_opt (v_level v !! i) in
       vlet row := table_row wname wvia i lv deps s p nm in
       vlet more := (if verbose then
         (vlet a := policy_text i p in vlet b := command_text s p in vlet c := script_text s in VOk (a ++ b ++ c)) else VOk []) in
       vlet rest := rows_text k' (S i) wname wvia v in
       VOk (row ++ more ++ rest))%vres
  end.

Definition chain_text (v : shown_view) : vres bytes :=
  (vlet t := names_text (bs " " ++ arrow st ++ bs " ") (v_chain v) in
   VOk ([10] ++ bold st ++ s_yellow st ++ bs "deepest dependency chain" ++ s_reset st ++ bs " " ++ s_dim st ++
        bs "(" ++ dec (Z.of_nat (length (v_chain v))) ++ bs " services)" ++ s_reset st ++ [10] ++ bs "  " ++ t ++ [10]))%vres.

(** The table, then the chain: [inl] is printed when there is no memory for the chain. *)
Definition show_text (path : bytes) (size : Z) (v : shown_view) : vres (bytes * bytes) :=
  let wname := name_width in
  (vlet wvia := via_width (g_n g) 0 3 in
   vlet t := rows_text (g_n g) 0 wname wvia v in
   vlet c := chain_text v in
   VOk (graph_heading path size (length (v_chain v)) wname wvia ++ t, c))%vres.
End Text.

(** ** The command *)

(** What the calls on the file answer, whether stdout is a terminal, and whether
    there is memory for the verifier, the tables and the chain. *)
Record shown_file := ShownFile {
  sf_open : option Z; sf_regular : bool; sf_mmap : Z + Z; sf_data : bytes; sf_tty : bool; sf_mem : bool * bool * bool;
}.

Inductive show_end := ShowExit (code : Z) (out err : bytes) | ShowFault.

Fixpoint show_args (args : list bytes) (path : bytes) (verbose : bool) : bytes * bool + bytes :=
  match args with
  | [] => inl (path, verbose)
  | a :: args' =>
      if bool_decide (a = bs "-f" \/ a = bs "--file") then
        match args' with
        | [] => inr (bs "show: " ++ a ++ bs " needs a file")
        | p :: args'' => show_args args'' p verbose
        end
      else if bool_decide (a = bs "-v" \/ a = bs "--verbose") then show_args args' path true
      else if negb (bool_decide (head a = Some 45)) then show_args args' a verbose
      else inr (bs "show: unexpected argument '" ++ a ++ bs "'")
  end.

Section Command.
Context (strerror : Z -> bytes) (file : bytes -> shown_file).

Definition show_fails (msg : bytes) : show_end := ShowExit 1 [] (warns msg).

(** From the open of the file on. *)
Definition show_file (path : bytes) (verbose : bool) (f : shown_file) : show_end :=
  match sf_open f with
  | Some e => show_fails (bs "open " ++ path ++ bs ": " ++ strerror e)
  | None =>
      if negb (sf_regular f) || bool_decide (sf_data f = []) then show_fails (path ++ bs ": not a regular file") else
      match sf_mmap f with
      | inr e => show_fails (bs "mmap " ++ path ++ bs ": " ++ strerror e)
      | inl addr =>
          let img := sf_data f in
          let '(mem, mem_tables, mem_chain) := sf_mem f in
          match ng_verify mem addr img with
          | VBad why => show_fails (path ++ bs ": " ++ bs why)
          | VOk _ =>
              if negb mem_tables then show_fails (bs "out of memory") else
              match rd_hdr img, decode img with
              | VOk h, VOk g =>
                  match show_view g with
                  | Built v =>
                      match show_text (if sf_tty f then style_tty else style_plain) img h g verbose path (Z.of_nat (length img)) v with
                      | VOk (t, c) => if mem_chain then ShowExit 0 (t ++ c) [] else ShowExit 1 t (warns (bs "out of memory"))
                      | _ => ShowFault
                      end
                  | _ => ShowFault
                  end
              | _, _ => ShowFault
              end
          | _ => ShowFault
          end
      end
  end.

Definition cmd_show (args : list bytes) : show_end :=
  match show_args args NG_DEFAULT_FILE false with
  | inr msg => ShowExit 2 [] (warns msg)
  | inl (path, verbose) => show_file path verbose (file path)
  end.
End Command.

(** ** The rows are the prerequisites *)

Lemma out_elem v w (es : list arc) : w ∈ out v es <-> (v, w) ∈ es.
Proof.
  unfold out. rewrite list_elem_of_fmap. split.
  - intros ([a b] & -> & H). apply list_elem_of_filter in H as [H1 H2]. simpl in *. by subst.
  - intros H. exists (v, w). split; [done|]. apply list_elem_of_filter. done.
Qed.

Lemma elem_of_concat {A} (x : A) ls : x ∈ concat ls <-> exists l, x ∈ l /\ l ∈ ls.
Proof. rewrite list_elem_of_In, in_concat. setoid_rewrite list_elem_of_In. firstorder. Qed.

Lemma out_length v (es : list arc) : length (out v es) = n_at v es.
Proof. unfold out, n_at. by rewrite length_fmap. Qed.

Lemma out_snoc v (es : list arc) e : out v (es ++ [e]) = out v es ++ (if decide (e.1 = v) then [e.2] else []).
Proof. unfold out. rewrite filter_app, fmap_app. f_equal. rewrite filter_cons, filter_nil. by case_decide. Qed.

Lemma n_before_mono u v (es : list arc) : (u <= v)%nat -> (n_before u es <= n_before v es)%nat.
Proof. induction 1 as [|v _ IH]; [done|]. rewrite n_before_S. lia. Qed.

Lemma n_before_all n (es : list arc) : Forall (fun e => (e.1 < n)%nat) es -> n_before n es = length es.
Proof. intros H. unfold n_before. induction H as [|e es He H IH]; [done|]. rewrite filter_cons, decide_True by done. cbn. by rewrite IH. Qed.

Lemma n_at_fst v (es : list arc) : length (filter (fun x => x = v) es.*1) = n_at v es.
Proof. unfold n_at. induction es as [|e l IH]; [done|]. rewrite fmap_cons, !filter_cons. case_decide; cbn; by rewrite IH. Qed.

Section Rows.
Context (n : nat) (es : list arc) (Hin : Forall (fun e => (e.1 < n)%nat /\ (e.2 < n)%nat) es).

Lemma count_spec D : ends (each (fun off d => upd off (d + 1) S) (replicate (n + 2) 0%nat) es.*1)
  (fun off => length off = (n + 2)%nat /\ off !! 0%nat = Some 0%nat /\ forall v, (v < n)%nat -> off !! S v = Some (n_at v es)) D.
Proof.
  eapply ends_mono; [apply (ends_each (fun dn off => length off = (n + 2)%nat /\ off !! 0%nat = Some 0%nat /\
    forall v, (v < n)%nat -> off !! S v = Some (length (filter (fun x => x = v) dn))))| |done].
  - rewrite length_replicate. split_ands; [done|by rewrite lookup_replicate_2 by lia|]. intros v Hv. by rewrite lookup_replicate_2 by lia.
  - intros dn off d rest Hl (L & Z & A).
    assert (d < n)%nat as Hd. { rewrite Forall_forall in Hin. assert (d ∈ es.*1) as Hd by (rewrite Hl; apply elem_of_app; right; by left).
      apply list_elem_of_fmap in Hd as (e & -> & He). by apply Hin in He as []. }
    apply (ends_upd _ _ (length (filter (fun x => x = d) dn))); [rewrite Nat.add_1_r; by apply A|].
    rewrite length_insert. split_ands; [done|by rewrite list_lookup_insert_ne by lia|]. intros v Hv. rewrite filter_app, length_app, filter_cons, filter_nil.
    destruct (decide (v = d)) as [->|Hne].
    + rewrite Nat.add_1_r, list_lookup_insert_eq by lia. rewrite decide_True by done. cbn. f_equal. lia.
    + rewrite list_lookup_insert_ne, A by lia. rewrite decide_False by done. cbn. f_equal. lia.
  - cbv beta. intros off (L & Z & A). split_ands; [done|done|]. intros v Hv. rewrite A by done. f_equal. apply n_at_fst.
Qed.

(** Where the next one goes is in the row of its service. *)
Record filled (dn : list arc) (st : list nat * list nat) : Prop := Filled {
  fi_didx : length st.1 = Nat.max 1 (length es);
  fi_fill : length st.2 = (n + 1)%nat;
  fi_count : forall v, (v < n)%nat -> st.2 !! v = Some (n_at v dn);
  fi_row : forall v k, (v < n)%nat -> (k < n_at v dn)%nat -> st.1 !! (n_before v es + k)%nat = out v dn !! k;
}.

Lemma fill_spec dn d i rest doff st D : es = dn ++ (d, i) :: rest -> (forall v, (v <= n)%nat -> doff !! v = Some (n_before v es)) -> filled dn st ->
  ends ((fun '(didx, fill) d => o ← get doff d; f ← get fill d; didx ← put didx (o + f) i; fill ← upd fill d S; mret (didx, fill)) st d)
    (filled (dn ++ [(d, i)])) D.
Proof.
  intros Hl Hoff []. destruct st as [didx fill]. cbn [fst snd] in *.
  assert (d < n)%nat as Hd. { rewrite Forall_forall in Hin. apply (Hin (d, i)). rewrite Hl. apply elem_of_app. right. by left. }
  apply ends_bind, (ends_get _ _ (n_before d es)); [apply Hoff; lia|]. apply ends_bind, (ends_get _ _ (n_at d dn)); [by apply fi_count0|].
  assert (n_at d dn < n_at d es)%nat as Hlt.
  { rewrite Hl. destruct (n_app d dn ((d, i) :: rest)) as (_ & -> & _). unfold n_at at 3. rewrite filter_cons, decide_True by done. cbn. lia. }
  assert (n_before (S d) es <= length es)%nat as Hle by apply length_filter.
  rewrite n_before_S in Hle. apply ends_bind, ends_put; [lia|].
  apply ends_bind, (ends_upd _ _ (n_at d dn)); [by apply fi_count0|]. apply ends_ret. constructor; cbn [fst snd]; rewrite ?length_insert; try done.
  - intros v Hv. rewrite n_at_snoc. cbn [fst]. case_decide as Hc.
    + subst v. rewrite list_lookup_insert_eq by lia. f_equal. lia.
    + rewrite list_lookup_insert_ne, fi_count0 by done. f_equal. lia.
  - intros v k Hv Hk. rewrite n_at_snoc in Hk. rewrite out_snoc. cbn [fst snd] in *. case_decide as Hc; [subst v|].
    + destruct (decide (k = n_at d dn)) as [->|Hne].
      * rewrite list_lookup_insert_eq by lia. rewrite lookup_app_r by (by rewrite out_length). by rewrite out_length, Nat.sub_diag.
      * rewrite list_lookup_insert_ne by lia. rewrite lookup_app_l by (rewrite out_length; lia). apply fi_row0; lia.
    + rewrite app_nil_r, list_lookup_insert_ne; [apply fi_row0; lia|].
      assert (n_at v dn <= n_at v es)%nat as Hle'. { rewrite Hl. destruct (n_app v dn ((d, i) :: rest)) as (_ & -> & _). lia. }
      destruct (Nat.lt_total v d) as [Hlt'|[->|Hlt']]; [|done|].
      * pose proof (n_before_mono (S v) d es ltac:(lia)) as Hm. rewrite n_before_S in Hm. lia.
      * pose proof (n_before_mono (S d) v es ltac:(lia)) as Hm. rewrite n_before_S in Hm. lia.
Qed.

Lemma row_at_spec doff didx fill v D : (v < n)%nat -> (forall v, (v <= n)%nat -> doff !! v = Some (n_before v es)) -> filled es (didx, fill) ->
  ends (prereqs_at doff didx v) (fun l => l = out v es) D.
Proof.
  intros Hv Hoff []. unfold prereqs_at. apply ends_bind, (ends_get _ _ (n_before v es)); [apply Hoff; lia|].
  apply ends_bind, (ends_get _ _ (n_before (S v) es)); [rewrite Nat.add_1_r; apply Hoff; lia|]. rewrite n_before_S.
  replace (n_before v es + n_at v es - n_before v es)%nat with (n_at v es) by lia.
  eapply ends_mono; [apply (ends_each (fun dn l => l = take (length dn) (out v es)))| |done].
  - done.
  - intros dn l j rest Hl ->. assert (j = (n_before v es + length dn)%nat /\ (length dn < n_at v es)%nat) as [-> Hlt].
    { assert (seq (n_before v es) (n_at v es) !! length dn = Some j) as Hs by (by rewrite Hl, list_lookup_middle). apply lookup_seq in Hs. lia. }
    destruct (lookup_lt_is_Some_2 (out v es) (length dn)) as [x Hx]; [by rewrite out_length|].
    apply ends_bind, (ends_get _ _ x); [cbn [fst] in *; by rewrite fi_row0|]. apply ends_ret.
    rewrite length_app. cbn [length]. rewrite Nat.add_1_r. symmetry. by apply take_S_r.
  - cbv beta. intros l ->. rewrite length_seq, <- out_length. apply firstn_all.
Qed.
End Rows.

Section Graph.
Context (g : graph) (Hwf : graph_wf g).
Abbreviation n := (g_n g).

Definition row_of (i : nat) : list nat := default [] (succs g i).

Context (Hcover : concat (row_of <$> seq 0 n) = g_ridx g).

(** The prerequisites of the services before [k], as the loops meet them. *)
Definition needs_of (i : nat) : list arc := (fun d => (d, i)) <$> row_of i.
Definition needs_upto (k : nat) : list arc := concat (needs_of <$> seq 0 k).
Abbreviation es := (needs_upto n).

Lemma needs_S k : needs_upto (S k) = needs_upto k ++ needs_of k.
Proof. unfold needs_upto. rewrite seq_S, fmap_app, concat_app. cbn. by rewrite app_nil_r. Qed.

Lemma succs_row i : (i < n)%nat -> succs g i = Some (row_of i) /\ Forall (fun d => (i < d < n)%nat) (row_of i) /\ StronglySorted lt (row_of i).
Proof. intros Hi. unfold row_of. destruct (gw_succs _ Hwf i Hi) as (l & -> & H1 & H2). done. Qed.

Lemma needs_elem k d i : (k <= n)%nat -> (d, i) ∈ needs_upto k <-> (i < k)%nat /\ edge g i d.
Proof.
  intros Hk. unfold needs_upto, needs_of. split.
  - intros (l & Hl & Hin)%elem_of_concat. apply list_elem_of_fmap in Hin as (i' & -> & Hi'%elem_of_seq). apply list_elem_of_fmap in Hl as (d' & E & Hd').
    injection E as -> ->. split; [lia|]. destruct (succs_row i' ltac:(lia)) as [Hs _]. by exists (row_of i').
  - intros [Hi (l & Hl & Hd)]. apply elem_of_concat. exists (needs_of i). split; [|apply list_elem_of_fmap; exists i; split; [done|apply elem_of_seq; lia]].
    apply list_elem_of_fmap. exists d. split; [done|]. unfold row_of. by rewrite Hl.
Qed.

Lemma edge_lt i d : edge g i d -> (i < n)%nat -> (i < d < n)%nat.
Proof.
  intros (l & Hl & Hd) Hi. destruct (succs_row i Hi) as (Hs & Hf & _). rewrite Hs in Hl. injection Hl as <-. rewrite Forall_forall in Hf. by apply Hf.
Qed.

Lemma needs_in : Forall (fun e => (e.1 < n)%nat /\ (e.2 < n)%nat) es.
Proof. apply Forall_forall. intros [d i] [Hi He]%needs_elem; [|done]. cbn. apply edge_lt in He; [lia|done]. Qed.

Lemma needs_ridx : es.*1 = g_ridx g.
Proof.
  rewrite <- Hcover. clear Hcover. unfold needs_upto. induction (seq 0 n) as [|i l IH]; [done|]. rewrite !fmap_cons. cbn [concat]. rewrite fmap_app, IH. f_equal.
  unfold needs_of. rewrite <- list_fmap_compose. by apply list_fmap_id.
Qed.

Lemma dep_rows_spec D : ends (dep_rows g) (fun r => (forall v, (v <= n)%nat -> r.1 !! v = Some (n_before v es)) /\ exists fill, filled n es es (r.2, fill)) D.
Proof.
  unfold dep_rows. apply ends_bind. rewrite <- needs_ridx. eapply ends_mono; [apply count_spec, needs_in| |done]. intros off (L & Z & A).
  apply ends_bind. eapply ends_mono; [apply (sum_offsets_long n es (n + 2)); [lia|done..]| |done]. intros doff (_ & Hoff).
  apply ends_bind. eapply ends_mono; [apply (ends_each (fun dn st => filled n es (needs_upto (length dn)) st))| |done].
  - constructor; cbn [fst snd]; rewrite ?length_replicate, ?length_fmap; [done|lia| |].
    + intros v Hv. by rewrite lookup_replicate_2 by lia.
    + intros v k _ Hk. by apply Nat.nlt_0_r in Hk.
  - intros dn st i rest Hl Hst. assert (i = length dn /\ (i < n)%nat) as [-> Hi].
    { assert (seq 0 n !! length dn = Some i) as Hs by (by rewrite Hl, list_lookup_middle). apply lookup_seq in Hs. lia. }
    rewrite length_app. cbn [length]. rewrite Nat.add_1_r, needs_S. destruct (succs_row _ Hi) as [-> _]. cbn [mbind built_bind].
    assert (exists more, es = needs_upto (length dn) ++ needs_of (length dn) ++ more) as [more Hmore].
    { exists (concat (needs_of <$> rest)). unfold needs_upto at 1. rewrite Hl, fmap_app, concat_app. cbn. f_equal. unfold needs_upto. do 2 f_equal.
      assert (take (length dn) (seq 0 n) = dn) as <- by (rewrite Hl; apply take_app_length). rewrite length_take, length_seq, take_seq. f_equal. }
    eapply ends_mono; [apply (ends_each (fun ds st => filled n es (needs_upto (length dn) ++ ((fun d => (d, length dn)) <$> ds)) st))| |done]; [by rewrite app_nil_r| |done].
    intros ds st' d rest' Hr Hst'. rewrite fmap_app. cbn [fmap list_fmap]. rewrite app_assoc.
    eapply (fill_spec n es needs_in _ d (length dn) (((fun d => (d, length dn)) <$> rest') ++ more)); [|done|done].
    rewrite Hmore. unfold needs_of. rewrite Hr, fmap_app. cbn [fmap list_fmap]. by rewrite <- !app_assoc.
  - cbv beta. rewrite length_seq. intros [didx fill] Hst. apply ends_ret. cbn [fst snd]. split; [exact Hoff|by exists fill].
Qed.

(** The prerequisites of [v], in the order of the graph. *)
Lemma out_edge v i : i ∈ out v es <-> (i < n)%nat /\ edge g i v.
Proof. rewrite out_elem. by apply needs_elem. Qed.

Lemma out_sorted v k : (k <= n)%nat -> StronglySorted lt (out v (needs_upto k)) /\ Forall (fun i => (i < k)%nat) (out v (needs_upto k)).
Proof.
  induction k as [|k IH]; intros Hk; [split; constructor|]. destruct IH as [H1 H2]; [lia|]. rewrite needs_S. unfold out in *. rewrite filter_app, fmap_app.
  assert (((fun e : nat * nat => e.2) <$> filter (fun e => e.1 = v) (needs_of k)) = [] \/ ((fun e : nat * nat => e.2) <$> filter (fun e => e.1 = v) (needs_of k)) = [k]) as Hone.
  { unfold needs_of. destruct (succs_row k ltac:(lia)) as (_ & _ & Hs). induction Hs as [|d l Hs IH' Hd]; [by left|].
    rewrite fmap_cons, filter_cons. cbn [fst]. case_decide as Hc; [|done]. subst d. right. cbn. f_equal.
    rewrite (filter_none _ ((fun d => (d, k)) <$> l)); [done|]. intros e (d & -> & Hin)%list_elem_of_fmap. cbn. rewrite Forall_forall in Hd. apply Hd in Hin. lia. }
  destruct Hone as [-> | ->].
  - rewrite app_nil_r. split; [done|]. eapply Forall_impl; [exact H2|]. cbn. lia.
  - split.
    + apply StronglySorted_app. split; [|split; [done|repeat constructor]]. intros x y Hx ->%list_elem_of_singleton. rewrite Forall_forall in H2. by apply H2.
    + apply Forall_app. split; [eapply Forall_impl; [exact H2|]; cbn; lia|by constructor; [lia|]].
Qed.

(** ** The levels and the deepest chain *)

(** [l] is a chain of services of which each waits for the one before it, and [i] is
    the last. *)
Inductive chain_to : list nat -> nat -> Prop :=
  | chain_one i : (i < n)%nat -> chain_to [i] i
  | chain_more l d i : chain_to l d -> edge g d i -> chain_to (l ++ [i]) i.

Lemma chain_lt l i : chain_to l i -> (i < n)%nat.
Proof. induction 1 as [i Hi|l d i _ IH He]; [done|]. apply edge_lt in He; [lia|done]. Qed.

(** [k] services are on the longest chain to [i]. *)
Definition level_is (i k : nat) : Prop := (exists l, chain_to l i /\ length l = k) /\ forall l, chain_to l i -> (length l <= k)%nat.

(** The entry of [i]: its level, and a prerequisite one below unless it is 1. *)
Definition level_ok (level : list nat) (i : nat) : Prop := exists k, level !! i = Some (S k) /\ level_is i (S k) /\
  (k = 0%nat \/ exists d, edge g d i /\ (d < n)%nat /\ level !! d = Some k).

Lemma level_of_spec level i D : (i < n)%nat -> (forall v, (v < i)%nat -> level_ok level v) ->
  ends (level_of level (out i es)) (fun lv => exists k, lv = S k /\ level_is i (S k) /\
    (k = 0%nat \/ exists d, edge g d i /\ (d < n)%nat /\ level !! d = Some k)) D.
Proof.
  intros Hi Hlv. unfold level_of. eapply ends_mono; [apply (ends_each (fun dn lv =>
    (lv = 1%nat \/ exists d k, d ∈ dn /\ level !! d = Some (S k) /\ lv = S (S k)) /\ (1 <= lv)%nat /\
    forall d k, d ∈ dn -> level !! d = Some k -> (S k <= lv)%nat))| |done].
  - split; [by left|]. split; [lia|]. by intros d k ?%elem_of_nil.
  - intros dn lv d rest Hl (H1 & H2 & H3).
    assert (d ∈ out i es) as [Hd He]%out_edge by (rewrite Hl; apply elem_of_app; right; by left).
    apply edge_lt in He; [|done]. destruct (Hlv d ltac:(lia)) as (k & Hk & _). apply ends_bind, (ends_get _ _ (S k)); [done|]. apply ends_ret.
    destruct (Nat.ltb_spec lv (S k + 1)) as [Hlt|Hge].
    + split; [right; exists d, k; split_ands; [apply elem_of_app; right; by left|done|lia]|]. split; [lia|].
      intros d' k' [Hd'| ->%list_elem_of_singleton]%elem_of_app Hk'; [specialize (H3 d' k' Hd' Hk'); lia|]. rewrite Hk in Hk'. injection Hk' as <-. lia.
    + split; [destruct H1 as [->|(d' & k' & A & B & C)]; [by left|right; exists d', k'; split_ands; [apply elem_of_app; by left|done|done]]|]. split; [lia|].
      intros d' k' [Hd'| ->%list_elem_of_singleton]%elem_of_app Hk'; [by apply (H3 d')|]. rewrite Hk in Hk'. injection Hk' as <-. lia.
  - cbv beta. intros lv (H1 & H2 & H3).
    assert (forall l, chain_to l i -> (length l <= lv)%nat) as Hup.
    { intros l Hc. inversion Hc as [? ? E1 E2|l' d ? Hc' He E1 E2]; subst; [done|]. pose proof (chain_lt _ _ Hc') as Hd.
      pose proof (edge_lt _ _ He Hd) as Hdi. destruct (Hlv d ltac:(lia)) as (k & Hk & [_ Hmax] & _). specialize (Hmax _ Hc').
      assert (d ∈ out i es) as Hin by (by apply out_edge). specialize (H3 d (S k) Hin Hk). rewrite length_app. cbn. lia. }
    destruct H1 as [->|(d & k & Hd & Hk & ->)].
    + exists 0%nat. split; [done|]. split; [|by left]. split; [|done]. exists [i]. split; [by constructor|done].
    + apply out_edge in Hd as [Hd He]. exists (S k). split; [done|]. split; [|right; by exists d]. split; [|done].
      pose proof (edge_lt _ _ He Hd) as Hdi. destruct (Hlv d ltac:(lia)) as (k' & Hk' & [(l & Hl & Hlen) _] & _). rewrite Hk in Hk'. injection Hk' as <-.
      exists (l ++ [i]). split; [by econstructor|]. rewrite length_app. cbn. lia.
Qed.

(** The levels, the greatest of them, and a service that has it. *)
Record levelled (k : nat) (st : list nat * nat * nat) : Prop := Levelled {
  lv_len : length st.1.1 = n;
  lv_all : forall v, (v < k)%nat -> level_ok st.1.1 v;
  lv_max : forall v lv, (v < k)%nat -> st.1.1 !! v = Some lv -> (lv <= st.1.2)%nat;
  lv_deep : st.1.2 = 0%nat /\ k = 0%nat \/ (st.2 < k)%nat /\ st.1.1 !! st.2 = Some st.1.2;
}.

Lemma level_ok_insert level i lv v : (v < i)%nat -> level_ok level v -> level_ok (<[i := lv]> level) v.
Proof.
  intros Hv (k & Hk & Hl & Hd). exists k. split; [by rewrite list_lookup_insert_ne by lia|]. split; [done|].
  destruct Hd as [->|(d & He & Hdn & Hd)]; [by left|]. right. exists d. split_ands; [done|done|]. pose proof (edge_lt _ _ He Hdn).
  by rewrite list_lookup_insert_ne by lia.
Qed.

Lemma levels_spec doff didx fill D : (forall v, (v <= n)%nat -> doff !! v = Some (n_before v es)) -> filled n es es (didx, fill) ->
  ends (levels n doff didx) (levelled n) D.
Proof.
  intros Hoff Hf. unfold levels. eapply ends_mono; [apply (ends_each (fun dn st => levelled (length dn) st))| |done].
  - constructor; cbn; [by rewrite length_replicate|lia|lia|by left].
  - intros dn [[level maxlvl] deepest] i rest Hl []. cbn [fst snd] in *. assert (i = length dn /\ (i < n)%nat) as [-> Hi].
    { assert (seq 0 n !! length dn = Some i) as Hs by (by rewrite Hl, list_lookup_middle). apply lookup_seq in Hs. lia. }
    apply ends_bind. eapply ends_mono; [by eapply (row_at_spec n es)| |done]. intros row ->.
    apply ends_bind. eapply ends_mono; [by apply level_of_spec| |done]. intros lv (k & -> & Hk & Hbelow).
    apply ends_bind, ends_put; [lia|]. rewrite length_app. cbn [length]. rewrite Nat.add_1_r. apply ends_ret.
    set (level' := <[length dn := S k]> level).
    assert (level' !! length dn = Some (S k)) as Hnew by (by apply list_lookup_insert_eq; lia).
    assert (forall v, (v < S (length dn))%nat -> level_ok level' v) as Hall.
    { intros v Hv. destruct (decide (v = length dn)) as [->|Hne]; [|apply level_ok_insert; [lia|apply lv_all0; lia]]. exists k. split; [done|]. split; [done|].
      destruct Hbelow as [->|(d & He & Hdn & Hd)]; [by left|right]. exists d. split_ands; [done|done|]. pose proof (edge_lt _ _ He Hdn).
      unfold level'. by rewrite list_lookup_insert_ne by lia. }
    assert (forall v l, (v < S (length dn))%nat -> level' !! v = Some l -> v = length dn /\ l = S k \/ (l <= maxlvl)%nat) as Hold.
    { intros v l Hv Hl'. destruct (decide (v = length dn)) as [->|Hne]; [left; split; congruence|right]. unfold level' in Hl'.
      rewrite list_lookup_insert_ne in Hl' by lia. apply (lv_max0 v l); [lia|done]. }
    destruct (Nat.ltb_spec maxlvl (S k)) as [Hlt|Hge]; constructor; cbn [fst snd]; try done.
    + unfold level'. by rewrite length_insert.
    + intros v l Hv Hl'. destruct (Hold v l Hv Hl') as [[_ ->]|]; lia.
    + right. split; [lia|done].
    + unfold level'. by rewrite length_insert.
    + intros v l Hv Hl'. destruct (Hold v l Hv Hl') as [[_ ->]|]; lia.
    + right. destruct lv_deep0 as [[? ?]|[? ?]]; [lia|]. split; [lia|]. unfold level'. by rewrite list_lookup_insert_ne by lia.
  - cbv beta. by rewrite length_seq.
Qed.

Lemma one_below_spec level lc row D : (forall d, d ∈ row -> is_Some (level !! d)) ->
  ends (one_below level lc row) (fun r => match r with
    | Some d => d ∈ row /\ level !! d = Some (lc - 1)%nat
    | None => forall d, d ∈ row -> level !! d <> Some (lc - 1)%nat
    end) D.
Proof.
  induction row as [|d row IH]; intros Hs; cbn [one_below]; [by intros d ?%elem_of_nil|]. destruct (Hs d) as [l Hl]; [by left|].
  apply ends_bind, (ends_get _ _ l); [done|]. destruct (Nat.eqb_spec l (lc - 1)) as [->|Hne]; [split; [by left|done]|].
  eapply ends_mono; [apply IH; intros d' Hd'; apply Hs; by right| |done]. intros [d'|]; [intros [? ?]; split; [by right|done]|].
  intros H d' [->|Hd']%elem_of_cons; [congruence|by apply H].
Qed.

Lemma chain_of_spec doff didx fill level D : (forall v, (v <= n)%nat -> doff !! v = Some (n_before v es)) -> filled n es es (didx, fill) ->
  (forall v, (v < n)%nat -> level_ok level v) -> forall c cur acc, (cur < n)%nat -> level !! cur = Some (S c) ->
  ends (chain_of doff didx level (S c) cur acc) (fun l => exists l', l = l' ++ acc /\ chain_to l' cur /\ length l' = S c) D.
Proof.
  intros Hoff Hf Hlv c. induction c as [|c IH]; intros cur acc Hcur Hl; rewrite (eq_refl : chain_of doff didx level (S _) cur acc =
    (row ← prereqs_at doff didx cur; lc ← get level cur; d ← one_below level lc row; chain_of doff didx level _ (default cur d) (cur :: acc))).
  all: apply ends_bind; eapply ends_mono; [by eapply (row_at_spec n es)| |done]; intros row ->; apply ends_bind, (ends_get _ _ _ _ _ Hl); apply ends_bind.
  all: eapply ends_mono; [apply one_below_spec; intros d [Hd _]%out_edge; destruct (Hlv d Hd) as (k & Hk & _); by eexists| |done]; intros r Hr.
  - cbn [chain_of]. apply ends_ret. exists [cur]. split; [done|]. split; [by constructor|done].
  - destruct (Hlv cur Hcur) as (k & Hk & _ & Hd). rewrite Hl in Hk. injection Hk as <-. destruct Hd as [|(d0 & He0 & Hd0 & Hld0)]; [done|].
    destruct r as [d|]; [|exfalso; apply (Hr d0); [by apply out_edge|by rewrite Hld0; f_equal; lia]].
    destruct Hr as [[Hd He]%out_edge Hld]. cbn [default]. replace (S (S c) - 1)%nat with (S c) in Hld by lia.
    eapply ends_mono; [apply (IH d (cur :: acc) Hd Hld)| |done]. intros l (l' & -> & Hc & Hlen). exists (l' ++ [cur]). split; [by rewrite <- app_assoc|].
    split; [by econstructor|]. rewrite length_app. cbn. lia.
Qed.

(** What is printed is true of the graph. *)
Record view_ok (v : shown_view) : Prop := ViewOk {
  vo_rows : length (v_rows v) = n /\ forall i l, v_rows v !! i = Some l -> StronglySorted lt l /\ forall d, d ∈ l <-> (d < n)%nat /\ edge g d i;
  vo_level : length (v_level v) = n /\ forall i k, v_level v !! i = Some k -> level_is i k;
  vo_chain : v_chain v = [] /\ n = 0%nat \/ exists i, chain_to (v_chain v) i;
  vo_deepest : forall l i, chain_to l i -> (length l <= length (v_chain v))%nat;
}.

Lemma show_view_spec D : ends (show_view g) view_ok D.
Proof.
  unfold show_view. apply ends_bind. eapply ends_mono; [apply dep_rows_spec| |done]. intros [doff didx] [Hoff [fill Hf]]. cbn [fst snd] in *.
  apply ends_bind. eapply ends_mono; [by eapply levels_spec| |done]. intros [[level maxlvl] deepest] []. cbn [fst snd] in *.
  apply ends_bind. eapply ends_mono; [apply (ends_each (fun dn rs => rs = (fun i => out i es) <$> dn))| |done]; [done| |].
  { intros dn rs i rest Hl ->. assert (i < n)%nat as Hi. { assert (i ∈ seq 0 n) as Hs by (rewrite Hl; apply elem_of_app; right; by left). apply elem_of_seq in Hs. lia. }
    apply ends_bind. eapply ends_mono; [by eapply (row_at_spec n es)| |done]. intros row ->. apply ends_ret. by rewrite fmap_app. }
  cbv beta. intros rows ->. apply ends_bind.
  assert (forall chain, chain = [] /\ n = 0%nat \/ (exists i, chain_to chain i) -> length chain = maxlvl -> view_ok (View ((fun i => out i es) <$> seq 0 n) level chain)) as Hok.
  { intros chain Hc Hlen. constructor; cbn [v_rows v_level v_chain].
    - split; [by rewrite length_fmap, length_seq|]. intros i l Hl. rewrite list_lookup_fmap in Hl. destruct (seq 0 n !! i) as [x|] eqn:Ex; [|done].
      apply lookup_seq in Ex as [-> Hx]. injection Hl as <-. split; [by apply out_sorted|]. intros d. by apply out_edge.
    - split; [done|]. intros i k Hk. assert (i < n)%nat as Hi by (apply lookup_lt_Some in Hk; lia). destruct (lv_all0 i Hi) as (k' & Hk' & Hl & _).
      rewrite Hk in Hk'. by injection Hk' as ->.
    - done.
    - intros l i Hc'. pose proof (chain_lt _ _ Hc') as Hi. destruct (lv_all0 i Hi) as (k & Hk & [_ Hmax] & _).
      specialize (lv_max0 i _ Hi Hk). specialize (Hmax l Hc'). lia. }
  destruct lv_deep0 as [[-> E]|[Hd Hl]].
  - cbn [chain_of]. apply ends_ret. apply ends_ret. apply Hok; [by left|done].
  - destruct (lv_all0 deepest Hd) as (k & Hk & _). rewrite Hl in Hk. injection Hk as ->.
    eapply ends_mono; [by eapply chain_of_spec| |done]. intros chain (l' & -> & Hc & Hlen). rewrite app_nil_r. apply ends_ret. apply Hok; [right; by exists deepest|done].
Qed.
End Graph.

(** ** The text reads nothing outside the image *)

Lemma strings_of_args img fuel p argv q argv' : read_args fuel img p argv = VOk (q, argv') -> exists l, strings_at img fuel p = VOk (l, q).
Proof.
  revert p argv. induction fuel as [|fuel IH]; intros p argv H; cbn [read_args strings_at] in *; apply vbind_ok in H as (c & -> & H); cbn [vbind];
    destruct (c =? 0); [injection H as <- _; by eexists|done|injection H as <- _; by eexists|].
  apply vbind_ok in H as (s & -> & H). apply vbind_ok in H as (a & _ & H). cbn [vbind]. destruct (IH _ _ H) as [l ->]. by eexists.
Qed.

Section Reads.
Context (img : bytes) (Himg : Forall is_byte img) (h : ng_hdr) (Hh : hdr_ok img h).

(** What the text reads of a service. *)
Record svc_reads (s : ng_svc) (p : ng_pol) : Prop := SvcReads {
  sr_via : type s <> NG_TYPE_TARGET -> exists v, via_of img h s p = VOk v;
  sr_script st : exists t, script_text st img h s = VOk t;
  sr_command st : exists t, command_text st img h s p = VOk t;
}.

Lemma exec_reads p : 0 <= exec_off p -> exec_problem img (off_blob h) (blob_len h) (exec_off p) = VOk tt -> exists e, cstr img (exec_at h p) = VOk e.
Proof.
  intros H0 Hx. unfold exec_problem in Hx. apply vbind_ok in Hx as ([] & _ & Hx). apply vbind_ok in Hx as (c & _ & Hx).
  apply vbind_ok in Hx as ([] & _ & Hx). apply vbind_ok in Hx as ([] & Hfit & _).
  by apply (fits_reads img h Hh _ NG_MAX_INTERP _ H0 ltac:(unfold NG_MAX_INTERP; lia) Hfit).
Qed.

Lemma verified_reads i s p : 0 <= i < n_svc h -> ng_svcs img h i = VOk s -> ng_pol_at img h i = VOk p ->
  verify_strings img h s i = VOk tt -> verify_policy img h s i = VOk tt -> svc_reads s p.
Proof.
  intros Hi Hs Hp Hst Hpo. pose proof (safe_ok _ _ _ (safe_svcs img Himg h Hh i Hi) Hs) as ((_ & Hno & Hso) & _).
  pose proof (safe_ok _ _ _ (safe_pol img Himg h Hh i Hi) Hp) as He.
  assert (type s <> NG_TYPE_TARGET -> exists t, child_run (fun _ _ => None) img h i = VOk t) as Hrun.
  { intros Ht. destruct (proj1 (returns_ex _ _) (child_run_fits img Himg h Hh (fun _ _ => None) i s Hi Hs Ht Hst Hpo)) as (t & E & _). by exists t. }
  assert (type s <> NG_TYPE_TARGET -> exists sc, cstr img (off_blob h + script_off s) = VOk sc) as Hsc.
  { intros Ht%Z.eqb_neq. unfold verify_strings in Hst. do 2 (apply vbind_ok in Hst as ([] & _ & Hst)). apply vbind_ok in Hst as (nm & _ & Hst).
    do 3 (apply vbind_ok in Hst as ([] & _ & Hst)). rewrite Ht in Hst. apply vbind_ok in Hst as ([] & _ & Hfit).
    by apply (fits_reads img h Hh _ NG_MAX_SCRIPT _ Hso ltac:(unfold NG_MAX_SCRIPT; lia) Hfit). }
  unfold verify_policy in Hpo. rewrite Hp in Hpo. cbn [vbind] in Hpo. do 4 (apply vbind_ok in Hpo as ([] & ? & Hpo)). constructor.
  - intros Ht. unfold via_of. destruct (has_flag (flags s) NG_FLAG_DIRECT); [by eexists|]. destruct (has_flag (flags s) NG_FLAG_INTERP); [|by eexists].
    apply vbind_ok in Hpo as ([] & _ & Hx). destruct (exec_reads p He Hx) as [e ->]. by eexists.
  - intros st. unfold script_text. destruct (Z.eqb_spec (type s) NG_TYPE_TARGET) as [|Ht]; [by eexists|]. destruct (Hsc Ht) as [sc ->]. cbn [vbind].
    destruct (split_lines [] (skip_byte 10 sc)) as [ls rest]. by eexists.
  - intros st. unfold command_text, exec_at. destruct (has_flag (flags s) NG_FLAG_INTERP) eqn:Ei; [|destruct (has_flag (flags s) NG_FLAG_DIRECT) eqn:Ed; [|by eexists]].
    + apply vbind_ok in Hpo as ([] & Ht%bad_if_ok%Z.eqb_neq & _). destruct (Hrun Ht) as [t E]. unfold child_run in E.
      rewrite Hs in E. cbn [vbind] in E. rewrite Ei, Hp in E. cbn [vbind] in E.
      apply vbind_ok in E as ([q a1] & E1 & E). apply vbind_ok in E as (sc & _ & E). apply vbind_ok in E as (a2 & _ & E). apply vbind_ok in E as ([q2 a3] & E2 & _).
      apply strings_of_args in E1 as [l1 ->], E2 as [l2 E2]. cbn [vbind]. rewrite E2. by eexists.
    + apply vbind_ok in Hpo as ([] & Ht%bad_if_ok%Z.eqb_neq & _). destruct (Hrun Ht) as [t E]. unfold child_run in E.
      rewrite Hs in E. cbn [vbind] in E. rewrite Ei, Ed, Hp in E. cbn [vbind] in E.
      apply vbind_ok in E as ([q a1] & E1 & E). apply strings_of_args in E1 as [l1 ->]. by eexists.
Qed.
End Reads.

Section Printed.
Context (st : style) (img : bytes) (h : ng_hdr) (g : graph) (Hwf : graph_wf g) (verbose : bool).
Context (Hreads : forall i s p, g_svc g !! i = Some s -> g_pol g !! i = Some p -> svc_reads img h s p).

Lemma svc_entries i : (i < g_n g)%nat -> exists s p nm, g_svc g !! i = Some s /\ g_pol g !! i = Some p /\ g_name g !! i = Some nm.
Proof.
  intros Hi. destruct (lookup_lt_is_Some_2 (g_svc g) i) as [s Hs]; [by rewrite (gw_svc _ Hwf)|].
  destruct (lookup_lt_is_Some_2 (g_pol g) i) as [p Hp]; [by rewrite (gw_pol _ Hwf)|].
  destruct (lookup_lt_is_Some_2 (g_name g) i) as [nm Hn]; [by rewrite (gw_name _ Hwf)|]. by exists s, p, nm.
Qed.

Lemma via_width_ok k i w : (i + k = g_n g)%nat -> exists w', via_width img h g k i w = VOk w'.
Proof.
  revert i w. induction k as [|k IH]; intros i w Hk; [by eexists|]. destruct (svc_entries i) as (s & p & nm & Hs & Hp & _); [lia|].
  cbn [via_width]. rewrite Hs. cbn [of_opt vbind]. destruct (Z.eqb_spec (type s) NG_TYPE_TARGET) as [|Ht]; [apply IH; lia|].
  rewrite Hp. cbn [of_opt vbind]. destruct (sr_via _ _ _ _ (Hreads i s p Hs Hp) Ht) as [v ->]. apply IH. lia.
Qed.

Lemma names_text_ok sep l : Forall (fun i => (i < g_n g)%nat) l -> exists t, names_text g sep l = VOk t.
Proof.
  induction 1 as [|i l Hi _ [t IH]]; [by eexists|]. destruct (svc_entries i Hi) as (_ & _ & nm & _ & _ & Hn). cbn [names_text] in *. rewrite Hn. cbn [of_opt vbind].
  destruct l; [by eexists|]. rewrite IH. by eexists.
Qed.

Lemma policy_text_ok i p : (i < g_n g)%nat -> exists t, policy_text st g i p = VOk t.
Proof.
  intros Hi. destruct (svc_entries i Hi) as (s & p' & _ & Hs & Hp & _). unfold policy_text, ng_start_ms, ng_stop_ms, ng_start_tries, ng_order_only. rewrite Hp, Hs.
  by eexists.
Qed.

Context (v : shown_view) (Hv : view_ok g v).

Lemma table_text_ok k i wname wvia : (i + k = g_n g)%nat -> exists t, rows_text st img h g verbose k i wname wvia v = VOk t.
Proof.
  revert i. induction k as [|k IH]; intros i Hk; [by eexists|]. destruct (svc_entries i) as (s & p & nm & Hs & Hp & Hn); [lia|].
  destruct (vo_rows _ _ Hv) as [Hlr Hr], (vo_level _ _ Hv) as [Hll _].
  destruct (lookup_lt_is_Some_2 (v_rows v) i) as [deps Hd]; [lia|]. destruct (lookup_lt_is_Some_2 (v_level v) i) as [lv Hl]; [lia|].
  destruct (Hr i deps Hd) as [_ Hdeps]. cbn [rows_text]. rewrite Hs, Hp, Hn, Hd, Hl. cbn [of_opt vbind].
  pose proof (Hreads i s p Hs Hp) as [Hvia Hsc Hcmd].
  assert (exists t, table_row st img h g wname wvia i lv deps s p nm = VOk t) as [t ->].
  { unfold table_row. cbv zeta. assert (exists x, (if type s =? NG_TYPE_TARGET then VOk (s_none st) else via_of img h s p) = VOk x) as [x ->].
    { destruct (Z.eqb_spec (type s) NG_TYPE_TARGET) as [|Ht]; [by eexists|by apply Hvia]. }
    cbn [vbind]. destruct (names_text_ok (bs " ") deps) as [y Hy]; [apply Forall_forall; intros d [? _]%Hdeps; done|].
    destruct (decide (deps = [])); [by eexists|]. rewrite Hy. by eexists. }
  cbn [vbind]. destruct (policy_text_ok i p) as [a Ha]; [lia|]. destruct (Hcmd st) as [b Hb], (Hsc st) as [c Hc]. destruct (IH (S i)) as [r Hrest]; [lia|].
  rewrite Ha, Hb, Hc, Hrest. destruct verbose; by eexists.
Qed.

Lemma show_text_ok path size : exists t c, show_text st img h g verbose path size v = VOk (t, c).
Proof.
  unfold show_text, chain_text. cbv zeta. destruct (via_width_ok (g_n g) 0 3) as [w ->]; [done|]. cbn [vbind].
  destruct (table_text_ok (g_n g) 0 (name_width g) w) as [t ->]; [done|]. cbn [vbind].
  destruct (names_text_ok (bs " " ++ arrow st ++ bs " ") (v_chain v)) as [c ->]; [|by eexists _, _].
  destruct (vo_chain _ _ Hv) as [[-> _]|[i Hc]]; [constructor|]. clear Hv. induction Hc as [i Hi|l d i Hc IH He]; [by repeat constructor|].
  apply Forall_app. split; [done|]. repeat constructor. pose proof (chain_lt g Hwf _ _ Hc). apply edge_lt in He; [lia|done..].
Qed.
End Printed.

Lemma accepted_view mem addr img : Forall is_byte img -> ng_verify mem addr img = VOk tt ->
  exists h g v, rd_hdr img = VOk h /\ decode img = VOk g /\ graph_wf g /\ show_view g = Built v /\ view_ok g v /\
    forall st verbose path size, exists t c, show_text st img h g verbose path size v = VOk (t, c).
Proof.
  intros Himg Hver. destruct (accepted_graph mem addr img Himg Hver) as (g & Hdec & Hwf).
  destruct (accepted_tables mem addr img Himg Hver) as (h & sv & pl & ro & ri & nm & Hrd & Hh & HL & Hsv & Hpl & Hro & Hri & Hnm & Hd & _).
  rewrite Hdec in Hd. injection Hd as ->. exists h, (the_graph h sv pl ro ri nm).
  destruct (ends_built _ _ (show_view_spec _ Hwf (rows_all img Himg h Hh HL sv pl ro ri nm Hsv Hro Hri) (fun _ => False))) as (v & Hv & Hok).
  exists v. split_ands; try done. intros st verbose path size. apply show_text_ok; [done| |done]. intros i s p Hs Hp. cbn [g_svc g_pol the_graph] in Hs, Hp.
  assert (i < Z.to_nat (n_svc h))%nat as Hi by (apply vtab_ok in Hsv as [<- _]; by apply lookup_lt_Some in Hs).
  destruct (row img Himg h Hh HL sv ro Hsv Hro i Hi) as (s' & r0 & r1 & Es & _ & _ & _ & _ & _ & _ & Hst & Hpo).
  rewrite Hs in Es. injection Es as <-. pose proof (ho_n _ _ Hh).
  apply vtab_ok in Hsv as [_ Hsv], Hpl as [_ Hpl]. destruct (Hsv i Hi) as (s' & Es & Es'), (Hpl i Hi) as (p' & Ep & Ep').
  rewrite Z.add_0_l in Es, Ep. rewrite Hs in Es'. rewrite Hp in Ep'. simplify_eq. apply (verified_reads img Himg h Hh (Z.of_nat i)); try done; lia.
Qed.

(** A file that can be read and is accepted, with memory for what follows. *)
Definition shown (f : shown_file) : Prop :=
  sf_open f = None /\ sf_regular f = true /\ sf_data f <> [] /\ exists addr, sf_mmap f = inl addr /\
  ng_verify (sf_mem f).1.1 addr (sf_data f) = VOk tt /\ (sf_mem f).1.2 = true /\ (sf_mem f).2 = true.

(** What is printed is of the graph of that file. *)
Definition printed (path : bytes) (verbose : bool) (f : shown_file) (out : bytes) : Prop :=
  exists h g v t c, rd_hdr (sf_data f) = VOk h /\ decode (sf_data f) = VOk g /\ graph_wf g /\ view_ok g v /\
  show_text (if sf_tty f then style_tty else style_plain) (sf_data f) h g verbose path (Z.of_nat (length (sf_data f))) v = VOk (t, c) /\ out = t ++ c.

Lemma show_file_spec strerror path verbose f : Forall is_byte (sf_data f) ->
  match show_file strerror path verbose f with
  | ShowFault => False
  | ShowExit code out err => code = 0 /\ err = [] /\ shown f /\ printed path verbose f out \/ code = 1 /\ err <> [] /\ ~ shown f
  end.
Proof.
  intros Hb. unfold show_file, shown, printed, show_fails. destruct f as [op reg mm img tty [[mem mt] mc]]. cbn [sf_open sf_regular sf_mmap sf_data sf_tty sf_mem fst snd] in *.
  destruct op as [e|]; [right; naive_solver|]. destruct reg; [|right; naive_solver]. case_bool_decide as He; [right; naive_solver|].
  cbn [negb orb]. destruct mm as [addr|e]; [|right; naive_solver].
  pose proof (ng_verify_runs mem addr img Hb) as Hrun.
  destruct (ng_verify mem addr img) as [[]|why| |] eqn:Ev; [|right; split_ands; [done|done|intros (_ & _ & _ & a & [= <-] & H & _); congruence]|done..].
  destruct mt; [|right; naive_solver]. destruct (accepted_view mem addr img Hb Ev) as (h & g & v & -> & -> & Hwf & -> & Hv & Ht).
  cbn [negb]. destruct (Ht (if tty then style_tty else style_plain) verbose path (Z.of_nat (length img))) as (t & c & E). rewrite E.
  destruct mc; [left|right; naive_solver]. split_ands; [done|done|done|done|done|by exists addr|]. by exists h, g, v, t, c.
Qed.

(** C21. [ninitctl show] reads nothing outside its file and its tables, whatever the
    file holds, and prints an accepted graph as it is: beside each service its
    prerequisites, in the order of the graph, and a level that is the length of the
    longest chain of services, each waiting for the one before, that ends there; and
    below the table a chain that no other is longer than. A command line it does not
    know, and a file that is missing, not regular or refused by the check of process
    1, give a message and the status 2 or 1. *)
Theorem show_levels strerror file args : (forall p, Forall is_byte (sf_data (file p))) ->
  match cmd_show strerror file args with
  | ShowFault => False
  | ShowExit code out err =>
      match show_args args NG_DEFAULT_FILE false with
      | inr msg => code = 2 /\ out = [] /\ err = warns msg
      | inl (path, verbose) => code = 0 /\ err = [] /\ shown (file path) /\ printed path verbose (file path) out \/ code = 1 /\ err <> [] /\ ~ shown (file path)
      end
  end.
Proof.
  intros Hb. unfold cmd_show. destruct (show_args args NG_DEFAULT_FILE false) as [[path verbose]|msg]; [|done].
  pose proof (show_file_spec strerror path verbose (file path) (Hb path)) as H. by destruct (show_file strerror path verbose (file path)).
Qed.

(** The image of the three services: file system, bus, and a target. *)
Definition demo_file (p : bytes) : shown_file :=
  if bool_decide (p = bs "/x") then ShownFile None true (inl 4096) demo_image false (true, true, true)
  else ShownFile None true (inl 4096) (take 100 demo_image) false (true, true, true).

Definition demo_text : bytes := bs "depgraph  /x
3 services, 3 edges, 1 roots, 3 levels, 241 bytes, crc 1eb502a8

  #  service  type     via     lvl  kills  onfail  rdy  rst  depends on
  --------------------------------------------------------------------------
  0  fs       oneshot  bash      1      2  stop      -    -  -
     | start-timeout 90000 ms, stop-timeout 5000 ms, start-tries 1, start-delay 0 ms, deps uptime (default)
     | exec /bin/true
  1  dbus     daemon   direct    2      1  stop      3  yes  fs
     | start-timeout 10000 ms, stop-timeout 5000 ms, start-tries 2, start-delay 0 ms, deps uptime (set)
     | execs dbusd -n
     | exec dbusd -n
  2  basic    target   -         3      0  warn      -    -  fs dbus
     | start-timeout 90000 ms, stop-timeout 5000 ms, start-tries 1, start-delay 0 ms, deps uptime (default)

deepest dependency chain (3 services)
  fs -> dbus -> basic
".

Lemma show_levels_witness :
  cmd_show (fun _ => []) demo_file [bs "-v"; bs "/x"] = ShowExit 0 demo_text [] /\ printed (bs "/x") true (demo_file (bs "/x")) demo_text /\
  cmd_show (fun _ => []) demo_file [bs "/y"] = ShowExit 1 [] (warns (bs "/y: length mismatch")).
Proof.
  assert (forall p, Forall is_byte (sf_data (demo_file p))) as Hb.
  { intros p. unfold demo_file. case_bool_decide; [apply demo_image_bytes|apply Forall_take, demo_image_bytes]. }
  assert (cmd_show (fun _ => []) demo_file [bs "-v"; bs "/x"] = ShowExit 0 demo_text []) as E by (vm_compute; reflexivity).
  split; [exact E|]. split; [|vm_compute; reflexivity].
  pose proof (show_levels (fun _ => []) demo_file [bs "-v"; bs "/x"] Hb) as H. rewrite E in H.
  assert (show_args [bs "-v"; bs "/x"] NG_DEFAULT_FILE false = inl (bs "/x", true)) as Ea by (vm_compute; reflexivity). rewrite Ea in H.
  destruct H as [(_ & _ & _ & H)|(H & _)]; [exact H|discriminate H].
Defined.
